(* ===== verification/_CoqProject ===== *)
-Q . S2P
Prelude.v
CTypes.v
Utils.v
Loops.v
Border.v
FixedBorders.v
Filter2D.v
Network.v
MedianNetworks.v
MedianBlur.v
ParallelBatches.v
ThreadOps.v
Rows.v
Operations.v
MinMaxLoc.v
MinMax.v
ThreadMinMax.v
MorphologyOps.v
Workspace.v
WorkspaceProcess.v
Morphology.v
CpuList.v
Topology.v
Limiter.v
Vectors.v
Separable.v
SeparableKernels.v
GaussianHalf.v
SeparableFilter2D.v
SeparableApi.v
GaussianBlur.v
Stack.v
Hysteresis.v
Canny.v
NonMaxima.v
Elementwise.v
Arithmetic.v
ThreadArithmetic.v
Buffers.v
CannyEdges.v
ThreadFilters.v
VectorMemory.v
Transfers.v
Flip.v
Tiles.v
RotateTranspose.v
TransposeInPlace.v
Transpose.v
ThreadTransforms.v
Registers.v
Channels.v
ChannelAdapters.v
MergeSplit.v
PixelKernels.v
RgbToRgb.v
PixelLanes.v
RgbToYuv.v
YuvToRgb.v
Yuv444.v
Yuv420ToRgb.v
RowPairs.v
Yuv420Rows.v
Yuv420SpToRgb.v
Yuv420PToRgb.v
ThreadYuv.v
PaddingCopiers.v
Padding.v
PaddingRows.v
PaddingCorrect.v
Histograms.v
SmallHist.v
LargeHist.v
LargeHistPatches.v
LargeHistMedian.v
LargeHistCorrect.v
MedianBlurU8.v
