(* ===== verification/Prelude.v ===== *)
(** * Verification of KleidiCV

    KleidiCV is a library of image-processing kernels for Arm CPUs.  Every operation
    has a C entry point that checks its arguments, one kernel per instruction set
    (Neon, SVE2, SME) and, for many, a threaded wrapper that cuts the image into
    batches of rows for a scheduler of the caller.  This development models the Neon
    kernels of several operations with the loops, row drivers, border tables and
    workspaces that they share, the threaded wrappers, and the component that limits
    the threads on the SME units.

    ** Conventions

    A [size_t] is a [Z] in [0, 2^64) and its operations wrap around ([⊞], [⊟], [⊠]);
    narrower integers are written with their width.  An image is a memory that maps
    cells or byte addresses to values.  A vector register is the list of its lanes.
    State is passed explicitly; a function that can fail returns an error code, and
    [None] stands for [std::nullopt] or for fuel that ran out.  Loops with a known
    number of iterations are [for_range]; the vector loops take fuel, and the theorems
    show that the length of the row is enough.

    ** Files

    - Prelude: machine words, counting loops, tactics and hints, generic lemmas.
    - CTypes: the enumerations and limits of kleidicv/ctypes.h and kleidicv.h.
    - Utils: saturating casts, rounding, alignment and the argument checks of utils.h.
    - Loops: [LoopUnroll] and [LoopUnroll2] of utils.h, with [TryToAvoidTailLoop].
    - Border, FixedBorders: the border types, their reference meaning, and the offset
      tables of workspace/border_KxK.h behind the interface [FixedBorderInfo].
    - Filter2D: process_filter_2d.h and filter_2d_neon.h over any inner filter with
      the law that a lane of the vector path is the scalar path.
    - Network, MedianNetworks, MedianBlur: comparator networks and the zero-one
      principle; the networks of median_blur_sorting_network_KxK.h; median_blur for
      integer elements, from the checks to the stripe.
    - Rows, Operations: Rows and Columns of types.h with [zip_rows] and
      [zip_parallel_rows]; the row and block operations of operations.h.
    - MinMaxLoc, MinMax: min_max_loc_neon.cpp lane by lane with its 8-bit block
      counters, and min_max_neon.cpp.
    - MorphologyOps, Workspace, WorkspaceProcess, Morphology: the separable passes of
      morphology_neon.cpp; [MorphologyWorkspace] of morphology/workspace.h (its
      allocation, its double-buffered rows, [process]); the proof of [process] over
      any operation with the laws [OperationLaws]; dilate and erode, which discharge
      these laws.
    - Vectors, Separable, SeparableKernels, GaussianHalf, SeparableFilter2D: Neon
      instructions on lists of lanes; [SeparableFilterWorkspace] and the drivers of
      separable_filter_KxK_neon.h over any inner filter with the laws [SeparableLaws];
      the kernels of sobel_neon.cpp, gaussian_blur_fixed_neon.cpp and
      separable_filter_2d_neon.cpp instruction by instruction, which discharge them.
    - SeparableApi, GaussianBlur: the validation, stripes and calls of the Sobel
      filters, of the 5x5 separable filter and of the Gaussian blur with a fixed kernel,
      with the half kernel of sigma.h in binary32 arithmetic.
    - Stack, Hysteresis: containers/stack.h as a refinement of a list behind the interface
      [StackLaws]; perform_hysteresis of canny_neon.cpp over any such stack.
    - Elementwise, Arithmetic: row operations with one or two sources over one memory, in
      place or not, behind the interface [ElementwiseLaws]; the integer operations of
      arithmetics/, which discharge it.
    - Buffers: the zeroed margins and [RowsOverUniquePtr] of types.h.
    - Canny, NonMaxima, CannyEdges: canny_neon.cpp: the gradient classes and the table
      lookups lane by lane and byte by byte, the suppression of non-maxima, and the whole
      call over the buffers, Sobel, the element-wise operations and the hysteresis.
    - VectorMemory, Transfers: loads and stores of vectors over a memory of elements, and
      what operations do that only move elements, by items in any order.
    - Flip, Tiles, RotateTranspose, TransposeInPlace, Transpose: flip_neon.cpp,
      rotate_transpose_common_neon.h, transpose_neon.cpp and rotate_neon.cpp, in place and
      into another image.
    - Registers, Channels, ChannelAdapters: vector registers as bytes with the instructions
      that permute them; row operations over columns of several channels behind the
      interface [ChannelLaws], and the adapters of operations.h for them.
    - MergeSplit, PixelKernels, RgbToRgb: merge_neon.cpp, split_neon.cpp,
      gray_to_rgb_neon.cpp and rgb_to_rgb_neon.cpp, in both variants of
      KLEIDICV_PREFER_INTERLEAVING_LOAD_STORE; PixelKernels has what conversions between
      pixels of bytes share, behind the interface [PixelValue].
    - PixelLanes, RgbToYuv, YuvToRgb, Yuv444: rgb_to_yuv444_neon.cpp and
      yuv444_to_rgb_neon.cpp with their coefficients, and the round trip between them.
    - Yuv420ToRgb, RowPairs, Yuv420Rows, Yuv420SpToRgb, Yuv420PToRgb, ThreadYuv:
      yuv420_to_rgb_neon.h, two rows of luma that share a row of chroma;
      yuv420sp_to_rgb_neon.cpp with the chroma interleaved in one plane and
      yuv420p_to_rgb_neon.cpp with two planes, by stripes, and the batches of the latter in
      kleidicv_thread.cpp.
    - PaddingCopiers, Padding, PaddingRows, PaddingCorrect: padding by copy
      (padding/add_padding_by_copy_neon.cpp): the copiers of bytes, the strategies that fill
      a padded row for each border type, the operations of an image, and the threaded
      wrapper; with [pad_index], the reference that says which source index each padded
      index takes.
    - Histograms, SmallHist, LargeHist, LargeHistPatches, LargeHistMedian, LargeHistCorrect,
      MedianBlurU8: the counts of a window and its median; the two filters of
      median_blur_small_hist_neon.cpp and median_blur_large_hist_neon.cpp that keep the
      counts while the window slides; the selection of median_blur_u8 among them and the
      networks, and its threaded wrapper.
    - ParallelBatches, ThreadOps, ThreadArithmetic, ThreadMinMax, ThreadFilters,
      ThreadTransforms: the batches of kleidicv_thread.cpp, the unary, binary and semiplanar
      wrappers, the operations of Arithmetic inside them, the reductions of the threaded
      minimum and maximum, the filters by stripes, and flip, transpose and rotate by work
      items and columns.
    - CpuList, Topology, Limiter: sme_thread_limiter.cpp: the parsers of the sysfs
      files, the domains of CPUs that share an SME unit, and the slots that threads
      acquire and release without locks.

    ** What the theorems show

    - Kernels against references: median_blur writes the median of each window
      (median_blur_correct), and so does the median blur of bytes with kernels up to 255 by
      histograms (median_blur_u8_correct); from the correctness of the border filter for any inner
      filter (process_filter2d_correct), of the networks
      (sorting_networks_compute_median) and of the border tables
      (fixed_border_offsets_correct); dilate and erode refine the iterated extremum
      over the kernel window (dilate_erode_correct); the Sobel filters, the Gaussian
      blur and the 5x5 separable filter compute their convolutions under the border
      type, without overflow or saturated (sobel_3x3_correct, gaussian_blur_correct,
      separable_filter_2d_correct); min_max and min_max_loc return the
      extrema and the first positions (min_max_correct, min_max_loc_correct).
    - Threads: cutting the rows into batches and running them in any order that the
      scheduler contract allows gives the single-threaded result
      (threaded_equals_single_threaded and its instances, threaded_median_blur_u8_correct,
      threaded_arithmetic_correct); the slots of the SME units
      are never exceeded under any interleaving (limiter_never_exceeds_slots), a
      rejection has seen a full domain (rejection_saw_full_domain), and no thread waits
      for another (limiter_progress).
    - Moving pixels: flip, transpose and rotate put every scalar where the geometry says
      and write nothing else, in place too, with any batches of the threaded wrappers
      (flip_correct, transpose_correct, rotate_correct,
      threaded_flip_correct, threaded_turns_correct).
    - Channels: merge, split and the grey and RGB conversions write every element of the
      pixels and nothing else, for each element size and channel count they support
      (merge_correct, colour_conversions_correct); split undoes merge
      (split_restores_merged).
    - YUV: the vectors, the vector that overlaps the one before it to avoid a tail, and the
      scalars compute the same fixed-point colours (rgb_to_yuv444_correct,
      yuv444_to_rgb_correct, yuv420sp_to_rgb_correct, yuv420p_to_rgb_stripe_correct), which
      come back within one after going to YUV444 (yuv444_round_trip); the theorem on planar
      YUV420 is for even widths and heights; its stripes find their rows of chroma in any order (threaded_yuv420p_correct).
    - Padding: the padded image holds the source under the border rule, and no other byte
      changes (padding_correct), whatever stripes the scheduler takes
      (threaded_padding_correct); the tables of indices stay inside their arrays
      (padding_tables_in_bounds).
    - Memory: the areas of the morphology workspace are aligned, disjoint and inside the
      allocation (create_layout).
    - Element-wise operations: vector path, scalar remainder and aliasing of source and
      destination give the exact clamped result (saturating_arithmetic_correct,
      byte_operations_correct).
    - Canny: the call draws exactly the edges of a specification by gradients, ridges and
      connectivity (canny_correct); the chain of blocks behaves as a list and frees each block once
      (stack_refines_list); hysteresis ends and promotes exactly the weak pixels that a
      chain of weak pixels connects to a strong one (hysteresis_promotes_connected).
    - Errors: the exact sets of arguments that the entry points reject (median blur, the
      separable filters, morphology, the transforms, image sizes, registers of the
      topology).  These are the sets that the checks of the code define.  The documentation
      in kleidicv.h often asks for more, so that a call may succeed outside it: no entry
      point checks that a stride is at least a row long; transpose, rotate and flip check the
      alignment of a scalar, not of a pixel (documented_transform_accepted,
      undocumented_transform_accepted, documented_flip_accepted,
      undocumented_flip_accepted); the separable filter takes four border types, not one;
      the Gaussian blur takes the kernel size 9 in narrower images, and its weights for a
      zero sigma are binomial for the sizes 3 and 5 only.
    - Divergences: yuv420sp_odd_width_misreads_chroma, zero_channels_overrun,
      planes_share_row and odd_width_reads_next_row (planar YUV420 of odd height and
      width), single_rows_succeed (the batches of a threaded call pass checks that the
      single-threaded call does not) and parallel_min_max_loc_reads_null prove what the code
      does where it departs from its documentation.

    ** Fuel

    [Unroll2] loops take the length of the row as fuel, one unit per element at least;
    [find_comma_loop], [count_cpus] and [fill_cpus] take the length of the text, of
    which every iteration consumes a byte; [perform_hysteresis] takes more units than there
    are weak pixels and stack elements, of which every iteration consumes one; the searches of
    a histogram take its number of bins.  The label [avoid_tail_loop] of operations.h is
    gone back to at most once, which is the fuel of its model, and more changes nothing
    ([Channels.avoid_tail_loop_once]).  The theorems
    are stated for the functions with this fuel, so none depends on a bound of the caller;
    [canny_correct] holds for every fuel from some value on.

    ** Not modelled

    The SVE2 and SME kernels and the dispatch between instruction sets, the kernels
    that compute in floating point, the conversions of YUV422 and those from RGB to YUV420,
    resize, remap and warp kernels, the blur with kernels of other sizes, Scharr and the pyramid filter,
    the OpenCV adapters, and the tests.  [std::exp] is a parameter of the Gaussian kernel.
    Comparison of floats is left out of the median and of the minimum because NaN breaks
    their order.  The scheduler of the threaded API, the allocator, and the files of sysfs
    are parameters; the allocation of the median blur with 16-bit counters, which the code
    does not check, is taken to succeed. *)
From Stdlib Require Export ZArith Lia.
From stdpp Require Export prelude list numbers sorting.

#[global] Open Scope Z_scope.

(** ** Hint databases and tactics *)

Create HintDb kcv discriminated.
Create Rewrite HintDb kcv_word.

(** [mod_lia] decides linear goals with division or remainder by a constant. *)
Ltac mod_lia := Z.to_euclidean_division_equations; lia.

(** Case analysis on every boolean integer comparison of the goal. *)
Ltac case_cmp :=
  repeat match goal with
  | |- context [Z.ltb ?a ?b] => destruct (Z.ltb_spec a b)
  | |- context [Z.leb ?a ?b] => destruct (Z.leb_spec a b)
  | |- context [Z.eqb ?a ?b] => destruct (Z.eqb_spec a b)
  | |- context [Z.geb ?a ?b] => rewrite (Z.geb_leb a b)
  | |- context [Z.gtb ?a ?b] => rewrite (Z.gtb_ltb a b)
  end.

Ltac case_cmp_in H :=
  repeat match type of H with
  | context [Z.ltb ?a ?b] => destruct (Z.ltb_spec a b)
  | context [Z.leb ?a ?b] => destruct (Z.leb_spec a b)
  | context [Z.eqb ?a ?b] => destruct (Z.eqb_spec a b)
  | context [Z.geb ?a ?b] => rewrite (Z.geb_leb a b) in H
  | context [Z.gtb ?a ?b] => rewrite (Z.gtb_ltb a b) in H
  end.

(** Case analysis on every boolean integer comparison, hypotheses included. *)
Ltac case_cmp_all :=
  case_cmp;
  repeat match goal with
  | H : context [Z.ltb ?a ?b] |- _ => destruct (Z.ltb_spec a b)
  | H : context [Z.leb ?a ?b] |- _ => destruct (Z.leb_spec a b)
  | H : context [Z.eqb ?a ?b] |- _ => destruct (Z.eqb_spec a b)
  end.

(** ** Machine words

    [size_t] and [uintptr_t] are 64-bit: a value is a [Z] in [0, 2^64) and
    every operation wraps.  [ptrdiff_t] is its two's complement view. *)

Definition size_max : Z := 2 ^ 64 - 1.
Definition wrap64 (x : Z) : Z := x mod 2 ^ 64.
Definition size_add (a b : Z) : Z := wrap64 (a + b).
Definition size_sub (a b : Z) : Z := wrap64 (a - b).
Definition size_mul (a b : Z) : Z := wrap64 (a * b).

(** [static_cast<ptrdiff_t>] of a [size_t]. *)
Definition to_ptrdiff (x : Z) : Z :=
  let y := wrap64 x in if y <? 2 ^ 63 then y else y - 2 ^ 64.

Definition is_size (x : Z) : Prop := 0 <= x < 2 ^ 64.

Declare Scope word_scope.
Delimit Scope word_scope with word.
Infix "⊞" := size_add (at level 50, left associativity) : word_scope.
Infix "⊟" := size_sub (at level 50, left associativity) : word_scope.
Infix "⊠" := size_mul (at level 40, left associativity) : word_scope.
#[global] Open Scope word_scope.

Lemma wrap64_small x : 0 <= x < 2 ^ 64 -> wrap64 x = x.
Proof. apply Z.mod_small. Qed.

Lemma wrap64_range x : 0 <= wrap64 x < 2 ^ 64.
Proof. apply Z.mod_pos_bound. lia. Qed.

Lemma size_add_small a b : 0 <= a + b < 2 ^ 64 -> a ⊞ b = a + b.
Proof. apply wrap64_small. Qed.

Lemma size_sub_small a b : 0 <= a - b < 2 ^ 64 -> a ⊟ b = a - b.
Proof. apply wrap64_small. Qed.

Lemma size_mul_small a b : 0 <= a * b < 2 ^ 64 -> a ⊠ b = a * b.
Proof. apply wrap64_small. Qed.

Lemma to_ptrdiff_small x : 0 <= x < 2 ^ 63 -> to_ptrdiff x = x.
Proof. intros. unfold to_ptrdiff. rewrite wrap64_small by lia. case_cmp; lia. Qed.

Lemma to_ptrdiff_signed x : - 2 ^ 63 <= x < 2 ^ 63 -> to_ptrdiff x = x.
Proof.
  intros. unfold to_ptrdiff, wrap64.
  destruct (Z.leb_spec 0 x).
  - rewrite Z.mod_small by lia. case_cmp; lia.
  - rewrite <- (Z.mod_unique x (2 ^ 64) (-1) (x + 2 ^ 64)) by lia. case_cmp; lia.
Qed.

#[export] Hint Rewrite wrap64_small size_add_small size_sub_small size_mul_small
  to_ptrdiff_small using lia : kcv_word.

(** [word_simpl] removes wrap-around that [lia] shows cannot happen. *)
Ltac word_simpl := autorewrite with kcv_word.
Ltac word_simpl_in H := autorewrite with kcv_word in H.

(** ** Counting loops

    [for_range a b body s] is [for (i = a; i < b; ++i) body]; [for_step] is the
    same loop with increment [k]. *)

Definition for_range {S : Type} (a b : Z) (body : Z -> S -> S) (s : S) : S :=
  foldl (fun s i => body i s) s (seqZ a (b - a)).

(** Number of iterations of [for (i = a; i < b; i += k)]. *)
Definition step_count (a b k : Z) : Z := (b - a + k - 1) / k.

Definition for_step {S : Type} (a b k : Z) (body : Z -> S -> S) (s : S) : S :=
  for_range 0 (step_count a b k) (fun j s => body (a + j * k) s) s.

Section loops.
Context {S : Type}.
Implicit Types (body : Z -> S -> S) (s : S).

Lemma for_range_empty a b body s : b <= a -> for_range a b body s = s.
Proof. intros. unfold for_range. rewrite seqZ_nil by lia. done. Qed.

Lemma for_range_first a b body s :
  a < b -> for_range a b body s = for_range (a + 1) b body (body a s).
Proof.
  intros. unfold for_range. rewrite seqZ_cons by lia. simpl.
  repeat f_equal; lia.
Qed.

Lemma for_range_split a b c body s :
  a <= b <= c -> for_range a c body s = for_range b c body (for_range a b body s).
Proof.
  intros. unfold for_range. rewrite <- foldl_app. f_equal.
  replace (c - a) with ((b - a) + (c - b)) by lia.
  rewrite seqZ_app by lia. do 2 f_equal. lia.
Qed.

Lemma for_range_last a b body s :
  a < b -> for_range a b body s = body (b - 1) (for_range a (b - 1) body s).
Proof.
  intros. rewrite (for_range_split a (b - 1) b) by lia.
  rewrite for_range_first, for_range_empty by lia. done.
Qed.

(** The invariant rule for a counting loop. *)
Lemma for_range_ind (P : Z -> S -> Prop) a b body s :
  a <= b -> P a s ->
  (forall i s', a <= i < b -> P i s' -> P (i + 1) (body i s')) ->
  P b (for_range a b body s).
Proof.
  intros Hab Ha Hstep.
  assert (forall n : nat, a + Z.of_nat n <= b ->
    P (a + Z.of_nat n) (for_range a (a + Z.of_nat n) body s)) as H.
  { induction n as [|n IH]; intros Hn.
    - rewrite Z.add_0_r. rewrite for_range_empty by lia. done.
    - rewrite for_range_last by lia.
      replace (a + Z.of_nat (Datatypes.S n)) with (a + Z.of_nat n + 1) in * by lia.
      replace (a + Z.of_nat n + 1 - 1) with (a + Z.of_nat n) by lia.
      apply Hstep; [lia|]. apply IH. lia. }
  specialize (H (Z.to_nat (b - a))).
  replace (a + Z.of_nat (Z.to_nat (b - a))) with b in H by lia.
  apply H. lia.
Qed.

Lemma for_range_ext a b body1 body2 s :
  (forall i s', a <= i < b -> body1 i s' = body2 i s') ->
  for_range a b body1 s = for_range a b body2 s.
Proof.
  intros Hext. destruct (Z.le_gt_cases a b) as [Hab|Hab].
  - apply (for_range_ind (fun i s' => s' = for_range a i body2 s)); [lia| |].
    + rewrite for_range_empty by lia. done.
    + intros i s' Hi ->. rewrite (for_range_last a (i + 1)) by lia.
      replace (i + 1 - 1) with i by lia. by apply Hext.
  - rewrite !for_range_empty by lia. done.
Qed.
End loops.

(** Two loop states related iteration by iteration stay related. *)
Lemma for_range_rel {S T : Type} (R : S -> T -> Prop) a b
    (body1 : Z -> S -> S) (body2 : Z -> T -> T) s t :
  R s t ->
  (forall i s' t', a <= i < b -> R s' t' -> R (body1 i s') (body2 i t')) ->
  R (for_range a b body1 s) (for_range a b body2 t).
Proof.
  intros HR Hstep. destruct (Z.le_gt_cases a b) as [Hab|Hab].
  - apply (for_range_ind (fun i s' => R s' (for_range a i body2 t))); [lia| |].
    + rewrite for_range_empty by lia. done.
    + intros i s' Hi HRi. rewrite (for_range_last a (i + 1)) by lia.
      replace (i + 1 - 1) with i by lia. by apply Hstep.
  - rewrite !for_range_empty by lia. done.
Qed.

(** ** Total stores

    An array, an image row or an image is a total function from its indices; a
    write is a functional update.  Bounds are stated by the theorems. *)

Definition upd {A T : Type} `{EqDecision A} (f : A -> T) (i : A) (x : T) : A -> T :=
  fun j => if decide (j = i) then x else f j.

Lemma upd_same {A T} `{EqDecision A} (f : A -> T) i x : upd f i x i = x.
Proof. unfold upd. by rewrite decide_True. Qed.

Lemma upd_other {A T} `{EqDecision A} (f : A -> T) i j x : j <> i -> upd f i x j = f j.
Proof. intros. unfold upd. by rewrite decide_False. Qed.

(** A loop that writes cell [g i] at iteration [i], reading nothing it wrote. *)
Lemma for_range_upd {T} (g : Z -> T) a b (f : Z -> T) j :
  for_range a b (fun i f => upd f i (g i)) f j =
  if decide (a <= j < b) then g j else f j.
Proof.
  destruct (Z.le_gt_cases a b) as [Hab|Hab].
  - refine (for_range_ind (fun k (h : Z -> T) => h j = if decide (a <= j < k) then g j else f j)
      a b _ f Hab _ _).
    + rewrite decide_False by lia. done.
    + intros i h Hi IH. unfold upd. destruct (decide (j = i)) as [->|Hne].
      * rewrite decide_True by lia. done.
      * rewrite IH. repeat case_decide; done || lia.
  - rewrite for_range_empty by lia. rewrite decide_False by lia. done.
Qed.

Lemma length_flat_map_const {A B} (f : A -> list B) l n :
  (forall x, length (f x) = n) -> length (flat_map f l) = (length l * n)%nat.
Proof. intros Hf. induction l as [|x l IH]; [done|]. simpl. rewrite length_app, Hf. lia. Qed.

(** ** Lanes

    A vector register is the list of its lanes; [lane i] reads lane [i] of each
    register of a list. *)

Definition lane {T} `{Inhabited T} (i : nat) (vs : list (list T)) : list T :=
  map (fun v => v !!! i) vs.

(** ** While loops with fuel

    [while_loop] returns [None] when the fuel runs out; every use is paired with
    a theorem that the fuel chosen by the caller is enough. *)

Fixpoint while_loop {S : Type} (fuel : nat) (cond : S -> bool) (body : S -> S)
    (s : S) : option S :=
  if cond s then
    match fuel with
    | O => None
    | Datatypes.S fuel' => while_loop fuel' cond body (body s)
    end
  else Some s.

Lemma while_loop_done {S} fuel (cond : S -> bool) body s :
  cond s = false -> while_loop fuel cond body s = Some s.
Proof. intros H. destruct fuel; simpl; by rewrite H. Qed.

Lemma while_loop_step {S} fuel (cond : S -> bool) body s :
  cond s = true ->
  while_loop (Datatypes.S fuel) cond body s = while_loop fuel cond body (body s).
Proof. intros H. simpl. by rewrite H. Qed.

(** Termination and partial correctness in one rule: a measure that decreases
    while the invariant holds bounds the fuel. *)
Lemma while_loop_total {S} (I : S -> Prop) (m : S -> nat) cond body :
  (forall s, I s -> cond s = true -> I (body s) /\ (m (body s) < m s)%nat) ->
  forall fuel s, I s -> (m s <= fuel)%nat ->
  exists s', while_loop fuel cond body s = Some s' /\ I s' /\ cond s' = false.
Proof.
  intros Hstep fuel. induction fuel as [|fuel IH]; intros s HI Hm.
  - destruct (cond s) eqn:Hc.
    + destruct (Hstep s HI Hc) as [_ Hlt]. lia.
    + exists s. simpl. rewrite Hc. done.
  - destruct (cond s) eqn:Hc.
    + destruct (Hstep s HI Hc) as [HI' Hlt].
      rewrite while_loop_step by done. apply IH; [done|lia].
    + exists s. rewrite while_loop_done by done. done.
Qed.
