(* ===== verification/CTypes.v ===== *)
(** * Public C types

    The enumerations of [kleidicv/ctypes.h] and the limits of
    [kleidicv/kleidicv.h] that the modelled code branches on.  An [enum] value
    that is none of its enumerators is not representable in these types, so the
    [default] branches that only such a value reaches are dead here. *)

From S2P Require Import Prelude.

(** [kleidicv_error_t]. *)
Inductive kleidicv_error_t :=
  | KLEIDICV_OK
  | KLEIDICV_ERROR_NOT_IMPLEMENTED
  | KLEIDICV_ERROR_NULL_POINTER
  | KLEIDICV_ERROR_RANGE
  | KLEIDICV_ERROR_ALLOCATION
  | KLEIDICV_ERROR_ALIGNMENT
  | KLEIDICV_ERROR_CONTEXT_MISMATCH.

#[export] Instance kleidicv_error_eq_dec : EqDecision kleidicv_error_t.
Proof. solve_decision. Defined.

(** [kleidicv_border_type_t]. *)
Inductive kleidicv_border_type_t :=
  | KLEIDICV_BORDER_TYPE_CONSTANT
  | KLEIDICV_BORDER_TYPE_REPLICATE
  | KLEIDICV_BORDER_TYPE_REFLECT
  | KLEIDICV_BORDER_TYPE_WRAP
  | KLEIDICV_BORDER_TYPE_REVERSE
  | KLEIDICV_BORDER_TYPE_TRANSPARENT
  | KLEIDICV_BORDER_TYPE_NONE.

#[export] Instance kleidicv_border_type_eq_dec : EqDecision kleidicv_border_type_t.
Proof. solve_decision. Defined.

(** [kleidicv_flip_mode_t]. *)
Inductive kleidicv_flip_mode_t :=
  | KLEIDICV_FLIP_HORIZONTAL
  | KLEIDICV_FLIP_VERTICAL
  | KLEIDICV_FLIP_BOTH.

#[export] Instance kleidicv_flip_mode_eq_dec : EqDecision kleidicv_flip_mode_t.
Proof. solve_decision. Defined.

(** [kleidicv_color_conversion_t]: base formats and flags in the bits of a number; any number
    can be passed. *)
Definition kleidicv_color_conversion_t : Type := Z.
Definition KLEIDICV_COLOR_CONVERSION_FMT_YUV444 : kleidicv_color_conversion_t := 0x01.
Definition KLEIDICV_COLOR_CONVERSION_FLAG_BGR : kleidicv_color_conversion_t := 0x20.
Definition KLEIDICV_COLOR_CONVERSION_FLAG_ALPHA : kleidicv_color_conversion_t := 0x40.
Definition KLEIDICV_YUV444_TO_RGB : kleidicv_color_conversion_t := KLEIDICV_COLOR_CONVERSION_FMT_YUV444.
Definition KLEIDICV_RGB_TO_YUV444 : kleidicv_color_conversion_t := KLEIDICV_YUV444_TO_RGB.
Definition KLEIDICV_YUV444_TO_BGR : kleidicv_color_conversion_t :=
  Z.lor KLEIDICV_COLOR_CONVERSION_FMT_YUV444 KLEIDICV_COLOR_CONVERSION_FLAG_BGR.
Definition KLEIDICV_BGR_TO_YUV444 : kleidicv_color_conversion_t := KLEIDICV_YUV444_TO_BGR.
Definition KLEIDICV_YUV444_TO_RGBA : kleidicv_color_conversion_t :=
  Z.lor KLEIDICV_COLOR_CONVERSION_FMT_YUV444 KLEIDICV_COLOR_CONVERSION_FLAG_ALPHA.
Definition KLEIDICV_RGBA_TO_YUV444 : kleidicv_color_conversion_t := KLEIDICV_YUV444_TO_RGBA.
Definition KLEIDICV_YUV444_TO_BGRA : kleidicv_color_conversion_t :=
  Z.lor (Z.lor KLEIDICV_COLOR_CONVERSION_FMT_YUV444 KLEIDICV_COLOR_CONVERSION_FLAG_BGR) KLEIDICV_COLOR_CONVERSION_FLAG_ALPHA.
Definition KLEIDICV_BGRA_TO_YUV444 : kleidicv_color_conversion_t := KLEIDICV_YUV444_TO_BGRA.
Definition KLEIDICV_COLOR_CONVERSION_FMT_YUV420SP : kleidicv_color_conversion_t := 0x02.
Definition KLEIDICV_COLOR_CONVERSION_FLAG_VU : kleidicv_color_conversion_t := 0x10.
Definition KLEIDICV_NV12_TO_RGB : kleidicv_color_conversion_t :=
  KLEIDICV_COLOR_CONVERSION_FMT_YUV420SP.
Definition KLEIDICV_NV12_TO_BGR : kleidicv_color_conversion_t :=
  Z.lor KLEIDICV_COLOR_CONVERSION_FMT_YUV420SP KLEIDICV_COLOR_CONVERSION_FLAG_BGR.
Definition KLEIDICV_NV12_TO_RGBA : kleidicv_color_conversion_t :=
  Z.lor KLEIDICV_COLOR_CONVERSION_FMT_YUV420SP KLEIDICV_COLOR_CONVERSION_FLAG_ALPHA.
Definition KLEIDICV_NV12_TO_BGRA : kleidicv_color_conversion_t :=
  Z.lor (Z.lor KLEIDICV_COLOR_CONVERSION_FMT_YUV420SP KLEIDICV_COLOR_CONVERSION_FLAG_BGR) KLEIDICV_COLOR_CONVERSION_FLAG_ALPHA.
Definition KLEIDICV_NV21_TO_RGB : kleidicv_color_conversion_t :=
  Z.lor KLEIDICV_COLOR_CONVERSION_FMT_YUV420SP KLEIDICV_COLOR_CONVERSION_FLAG_VU.
Definition KLEIDICV_NV21_TO_BGR : kleidicv_color_conversion_t :=
  Z.lor (Z.lor KLEIDICV_COLOR_CONVERSION_FMT_YUV420SP KLEIDICV_COLOR_CONVERSION_FLAG_VU) KLEIDICV_COLOR_CONVERSION_FLAG_BGR.
Definition KLEIDICV_NV21_TO_RGBA : kleidicv_color_conversion_t :=
  Z.lor (Z.lor KLEIDICV_COLOR_CONVERSION_FMT_YUV420SP KLEIDICV_COLOR_CONVERSION_FLAG_VU) KLEIDICV_COLOR_CONVERSION_FLAG_ALPHA.
Definition KLEIDICV_NV21_TO_BGRA : kleidicv_color_conversion_t :=
  Z.lor (Z.lor (Z.lor KLEIDICV_COLOR_CONVERSION_FMT_YUV420SP KLEIDICV_COLOR_CONVERSION_FLAG_VU) KLEIDICV_COLOR_CONVERSION_FLAG_BGR) KLEIDICV_COLOR_CONVERSION_FLAG_ALPHA.
Definition KLEIDICV_COLOR_CONVERSION_FMT_YUV420P : kleidicv_color_conversion_t := 0x03.
Definition KLEIDICV_IYUV_TO_RGB : kleidicv_color_conversion_t :=
  KLEIDICV_COLOR_CONVERSION_FMT_YUV420P.
Definition KLEIDICV_IYUV_TO_BGR : kleidicv_color_conversion_t :=
  Z.lor KLEIDICV_COLOR_CONVERSION_FMT_YUV420P KLEIDICV_COLOR_CONVERSION_FLAG_BGR.
Definition KLEIDICV_IYUV_TO_RGBA : kleidicv_color_conversion_t :=
  Z.lor KLEIDICV_COLOR_CONVERSION_FMT_YUV420P KLEIDICV_COLOR_CONVERSION_FLAG_ALPHA.
Definition KLEIDICV_IYUV_TO_BGRA : kleidicv_color_conversion_t :=
  Z.lor (Z.lor KLEIDICV_COLOR_CONVERSION_FMT_YUV420P KLEIDICV_COLOR_CONVERSION_FLAG_BGR) KLEIDICV_COLOR_CONVERSION_FLAG_ALPHA.
Definition KLEIDICV_YV12_TO_RGB : kleidicv_color_conversion_t :=
  Z.lor KLEIDICV_COLOR_CONVERSION_FMT_YUV420P KLEIDICV_COLOR_CONVERSION_FLAG_VU.
Definition KLEIDICV_YV12_TO_BGR : kleidicv_color_conversion_t :=
  Z.lor (Z.lor KLEIDICV_COLOR_CONVERSION_FMT_YUV420P KLEIDICV_COLOR_CONVERSION_FLAG_VU) KLEIDICV_COLOR_CONVERSION_FLAG_BGR.
Definition KLEIDICV_YV12_TO_RGBA : kleidicv_color_conversion_t :=
  Z.lor (Z.lor KLEIDICV_COLOR_CONVERSION_FMT_YUV420P KLEIDICV_COLOR_CONVERSION_FLAG_VU) KLEIDICV_COLOR_CONVERSION_FLAG_ALPHA.
Definition KLEIDICV_YV12_TO_BGRA : kleidicv_color_conversion_t :=
  Z.lor (Z.lor (Z.lor KLEIDICV_COLOR_CONVERSION_FMT_YUV420P KLEIDICV_COLOR_CONVERSION_FLAG_VU) KLEIDICV_COLOR_CONVERSION_FLAG_BGR) KLEIDICV_COLOR_CONVERSION_FLAG_ALPHA.

Definition KLEIDICV_MAX_IMAGE_PIXELS : Z := Z.shiftl 1 48 - 1.
Definition KLEIDICV_MAXIMUM_TYPE_SIZE : Z := 8.
Definition KLEIDICV_MAXIMUM_CHANNEL_COUNT : Z := 4.

(** The idiom [if (kleidicv_error_t err = check(...)) return err;]: the rest of
    the function runs only when the check returned [KLEIDICV_OK]. *)
Definition guard_error (check : kleidicv_error_t)
    (rest : kleidicv_error_t) : kleidicv_error_t :=
  match check with
  | KLEIDICV_OK => rest
  | err => err
  end.

Notation "check ?> rest" := (guard_error check rest)
  (at level 60, right associativity) : word_scope.

Lemma guard_error_ok check rest :
  guard_error check rest = KLEIDICV_OK <-> check = KLEIDICV_OK /\ rest = KLEIDICV_OK.
Proof. destruct check; simpl; intuition congruence. Qed.
