(* ===== verification/Utils.v ===== *)
(** * Utilities of [kleidicv/utils.h]

    Saturating casts, rounding shift, alignment and the argument checks that
    every public entry point performs. *)

From S2P Require Import Prelude CTypes.

(** ** Integer types and conversions *)

(** A fixed-width integer type. *)
Record int_type := IntType { is_signed : bool; width : Z }.

Definition int_max (t : int_type) : Z :=
  if is_signed t then 2 ^ (width t - 1) - 1 else 2 ^ width t - 1.
Definition int_min (t : int_type) : Z :=
  if is_signed t then - 2 ^ (width t - 1) else 0.

(** [static_cast] to [t]: reduction modulo [2^width] into the range of [t]. *)
Definition static_cast (t : int_type) (x : Z) : Z :=
  let y := x mod 2 ^ width t in
  if is_signed t && (2 ^ (width t - 1) <=? y) then y - 2 ^ width t else y.

Definition in_type (t : int_type) (x : Z) : Prop := int_min t <= x <= int_max t.

Definition uint8 := IntType false 8.
Definition uint16 := IntType false 16.
Definition int8 := IntType true 8.
Definition int16 := IntType true 16.
Definition int32 := IntType true 32.
Definition uint32 := IntType false 32.
Definition int64 := IntType true 64.
Definition uint64 := IntType false 64.

(** The usual arithmetic conversions for a comparison of two integers:
    promotion to [int], then the common type of C++. *)
Definition promote (t : int_type) : int_type :=
  if width t <? 32 then int32 else t.
Definition common_type (a b : int_type) : int_type :=
  let a := promote a in let b := promote b in
  if eqb (is_signed a) (is_signed b)
  then IntType (is_signed a) (Z.max (width a) (width b))
  else
    let '(u, s) := if is_signed a then (b, a) else (a, b) in
    if width s <=? width u then u else s.
Definition c_gt (ta tb : int_type) (a b : Z) : bool :=
  let c := common_type ta tb in static_cast c b <? static_cast c a.

(** [saturating_cast], signed source to unsigned destination. *)
Definition saturating_cast_signed_to_unsigned (S U : int_type) (value : Z) : Z :=
  if c_gt S U value (int_max U) then int_max U
  else if value <? 0 then 0
  else static_cast U value.

(** [saturating_cast], unsigned source to unsigned destination. *)
Definition saturating_cast_unsigned_to_unsigned (SrcType DstType : int_type)
    (value : Z) : Z :=
  static_cast DstType value.

(** [saturating_cast] to a signed destination. *)
Definition saturating_cast_to_signed (SrcType DstType : int_type) (value : Z) : Z :=
  if static_cast SrcType (int_max DstType) <? value then int_max DstType
  else if is_signed SrcType && (value <? static_cast SrcType (int_min DstType))
  then int_min DstType
  else static_cast DstType value.

(** [saturating_sub] for unsigned types. *)
Definition saturating_sub (T : int_type) (a b : Z) : Z :=
  if a <? b then static_cast T 0 else static_cast T (a - b).

(** [rounding_shift_right]: the sum is formed before the shift; [w] is the type
    in which the addition is carried out. *)
Definition rounding_shift_right (w : int_type) (value shift : Z) : Z :=
  Z.shiftr (static_cast w (value + Z.shiftl 1 (shift - 1))) shift.

(** Clamping into a type: what a saturating conversion promises. *)
Definition clamp_to (t : int_type) (x : Z) : Z := Z.max (int_min t) (Z.min (int_max t) x).

(** ** Pointers, alignment and image checks *)

(** [any_null]: a null pointer is the address 0. *)
Definition any_null (pointers : list Z) : bool := existsb (fun p => p =? 0) pointers.

(** [is_misaligned<AlignType>(v)], with [align = alignof(AlignType)]. *)
Definition is_misaligned (align v : Z) : bool :=
  let kMask := align ⊟ 1 in negb (Z.land v kMask =? 0).

(** [align_up(value, alignment)] on [size_t]. *)
Definition align_up (value alignment : Z) : Z :=
  Z.land (value ⊞ alignment ⊟ 1) (wrap64 (Z.lnot (alignment ⊟ 1))).

(** Both specialisations of [check_pointer_and_stride], selected by [alignof(T)]. *)
Definition check_pointer_and_stride (align pointer stride height : Z) : kleidicv_error_t :=
  if align =? 1 then
    if pointer =? 0 then KLEIDICV_ERROR_NULL_POINTER else KLEIDICV_OK
  else
    if pointer =? 0 then KLEIDICV_ERROR_NULL_POINTER
    else if (1 <? height) && is_misaligned align stride
    then KLEIDICV_ERROR_ALIGNMENT
    else KLEIDICV_OK.

(** The alignment test of [MAKE_POINTER_CHECK_ALIGNMENT]. *)
Definition check_pointer_alignment (align pointer : Z) : kleidicv_error_t :=
  if 1 <? align then
    if is_misaligned align pointer then KLEIDICV_ERROR_ALIGNMENT else KLEIDICV_OK
  else KLEIDICV_OK.

(** [__builtin_mul_overflow] and [__builtin_add_overflow] on [size_t]: whether
    the exact result does not fit, and the wrapped result. *)
Definition mul_overflow (a b : Z) : bool * Z := (size_max <? a * b, a ⊠ b).
Definition add_overflow (a b : Z) : bool * Z := (size_max <? a + b, a ⊞ b).

(** [CHECK_IMAGE_SIZE]. *)
Definition check_image_size (width height : Z) : kleidicv_error_t :=
  let '(overflow, image_size) := mul_overflow width height in
  if overflow then KLEIDICV_ERROR_RANGE
  else if KLEIDICV_MAX_IMAGE_PIXELS <? image_size then KLEIDICV_ERROR_RANGE
  else KLEIDICV_OK.

(** ** Lemmas *)

Lemma pow2_pos n : 0 < 2 ^ n \/ 2 ^ n = 0.
Proof. destruct (Z.le_gt_cases 0 n); [left; lia|right; apply Z.pow_neg_r; lia]. Qed.

Lemma static_cast_id t x : 1 < width t -> in_type t x -> static_cast t x = x.
Proof.
  unfold in_type, static_cast, int_min, int_max. intros Hw Hx.
  assert (2 ^ width t = 2 * 2 ^ (width t - 1)) as Hp.
  { rewrite <- Z.pow_succ_r by lia. f_equal. lia. }
  assert (0 < 2 ^ (width t - 1)) by lia.
  destruct (is_signed t); simpl.
  - destruct (Z.le_gt_cases 0 x).
    + rewrite Z.mod_small by lia. case_cmp; lia.
    + rewrite <- (Z.mod_unique x (2 ^ width t) (-1) (x + 2 ^ width t)) by lia.
      case_cmp; lia.
  - apply Z.mod_small. lia.
Qed.

Lemma clamp_to_range t x : int_min t <= int_max t -> in_type t (clamp_to t x).
Proof. unfold in_type, clamp_to. lia. Qed.

Lemma land_mask_mod x n : 0 <= n -> Z.land x (2 ^ n - 1) = x mod 2 ^ n.
Proof.
  intros. replace (2 ^ n - 1) with (Z.ones n); [by apply Z.land_ones|].
  rewrite Z.ones_equiv. lia.
Qed.

Lemma pow2_word n : 0 <= n < 64 -> 0 < 2 ^ n <= 2 ^ 63.
Proof. intros. split; [lia|]. apply Z.pow_le_mono_r; lia. Qed.

Lemma is_misaligned_spec n v :
  0 <= n < 64 -> is_misaligned (2 ^ n) v = negb (v mod 2 ^ n =? 0).
Proof.
  intros Hn. unfold is_misaligned. pose proof (pow2_word n Hn).
  rewrite size_sub_small by lia. by rewrite land_mask_mod by lia.
Qed.

(** Clearing the low bits rounds down to a multiple of [2^n]. *)
Lemma land_lnot_mask x n :
  0 <= n -> Z.land x (Z.lnot (2 ^ n - 1)) = x - x mod 2 ^ n.
Proof.
  intros Hn. rewrite <- land_mask_mod by lia.
  assert (Z.land x (Z.lnot (2 ^ n - 1)) + Z.land x (2 ^ n - 1) = x) as Hs.
  { rewrite Z.add_nocarry_lxor.
    - apply Z.bits_inj'. intros i Hi.
      rewrite Z.lxor_spec, !Z.land_spec, Z.lnot_spec by lia.
      destruct (Z.testbit x i), (Z.testbit (2 ^ n - 1) i); done.
    - apply Z.bits_inj'. intros i Hi.
      rewrite !Z.land_spec, Z.lnot_spec, Z.bits_0 by lia.
      destruct (Z.testbit x i), (Z.testbit (2 ^ n - 1) i); done. }
  lia.
Qed.

Lemma land_wrap_mask x m : is_size x -> Z.land x (wrap64 m) = Z.land x m.
Proof.
  intros Hx. unfold wrap64. rewrite <- (Z.land_ones m 64) by lia.
  rewrite (Z.land_comm m), Z.land_assoc. f_equal.
  rewrite Z.land_ones by lia. apply Z.mod_small. apply Hx.
Qed.

Lemma align_up_value value n :
  0 <= n < 64 -> 0 <= value -> value + 2 ^ n - 1 < 2 ^ 64 ->
  align_up value (2 ^ n) = (value + 2 ^ n - 1) - (value + 2 ^ n - 1) mod 2 ^ n.
Proof.
  intros Hn Hv Hb. pose proof (pow2_word n Hn). unfold align_up.
  rewrite (size_sub_small (2 ^ n)) by lia.
  assert (value ⊞ 2 ^ n ⊟ 1 = value + 2 ^ n - 1) as ->.
  { unfold size_sub, size_add, wrap64. rewrite Zminus_mod_idemp_l.
    apply Z.mod_small. lia. }
  rewrite land_wrap_mask by (unfold is_size; lia).
  apply land_lnot_mask. lia.
Qed.

(** What the pointer check accepts. *)
Lemma check_pointer_and_stride_ok align p stride height :
  check_pointer_and_stride align p stride height = KLEIDICV_OK <->
  p <> 0 /\ (1 < height -> align <> 1 -> is_misaligned align stride = false).
Proof.
  unfold check_pointer_and_stride.
  destruct (Z.eqb_spec align 1), (Z.eqb_spec p 0), (Z.ltb_spec 1 height),
    (is_misaligned align stride); simpl; intuition (congruence || lia || auto).
Qed.

(** [CHECK_IMAGE_SIZE] on sizes that do not have to be words. *)
Lemma check_image_size_iff width height : 0 <= width -> 0 <= height ->
  check_image_size width height = KLEIDICV_OK <-> width * height <= KLEIDICV_MAX_IMAGE_PIXELS.
Proof.
  intros Hw Hh. assert (0 <= width * height) by nia.
  unfold check_image_size, mul_overflow, size_max.
  change KLEIDICV_MAX_IMAGE_PIXELS with (2 ^ 48 - 1).
  destruct (Z.ltb_spec (2 ^ 64 - 1) (width * height)); [split; [done|lia]|].
  rewrite size_mul_small by lia. case_cmp; split; done || lia.
Qed.

(** ** Theorems *)

(** [align_up(value, 2^n)] is the least multiple of the alignment that is not
    below [value], provided the addition does not wrap. *)
Theorem align_up_least value n :
  0 <= n < 64 -> 0 <= value -> value + 2 ^ n - 1 < 2 ^ 64 ->
  value <= align_up value (2 ^ n) < value + 2 ^ n /\
  align_up value (2 ^ n) mod 2 ^ n = 0 /\
  (forall m, value <= m -> m mod 2 ^ n = 0 -> align_up value (2 ^ n) <= m).
Proof.
  intros Hn Hv Hb. pose proof (pow2_word n Hn). rewrite align_up_value by lia.
  set (a := 2 ^ n) in *. set (x := value + a - 1).
  pose proof (Z.mod_pos_bound x a ltac:(lia)).
  pose proof (Z.div_mod x a ltac:(lia)).
  split_and!; try lia.
  - replace (x - x mod a) with (x / a * a) by lia. apply Z.mod_mul. lia.
  - intros m Hm Hm0. pose proof (Z.div_mod m a ltac:(lia)).
    assert (x / a <= m / a); [|nia].
    assert (a * (x / a) < a * (m / a) + a) by lia. nia.
Qed.

(** [CHECK_IMAGE_SIZE] accepts exactly the images whose exact pixel count is
    within [KLEIDICV_MAX_IMAGE_PIXELS]; a product that wraps is rejected. *)
Theorem check_image_size_exact width height :
  is_size width -> is_size height ->
  (check_image_size width height = KLEIDICV_OK <->
   width * height <= 2 ^ 48 - 1) /\
  (check_image_size width height = KLEIDICV_OK \/
   check_image_size width height = KLEIDICV_ERROR_RANGE).
Proof.
  unfold is_size, check_image_size, mul_overflow, size_max, KLEIDICV_MAX_IMAGE_PIXELS.
  intros Hw Hh. rewrite Z.shiftl_mul_pow2 by lia. assert (0 <= width * height) by nia.
  destruct (Z.ltb_spec (2 ^ 64 - 1) (width * height)).
  - split; [split; [done|lia]|by right].
  - rewrite size_mul_small by lia. case_cmp; (split; [split; [done || lia|done || lia]|by auto]).
Qed.

(** Witness: an image that fits, and one whose 64-bit product is zero. *)
Lemma check_image_size_witness :
  check_image_size (2 ^ 32) (2 ^ 32) <> KLEIDICV_OK /\
  (check_image_size 640 480 = KLEIDICV_OK <-> 640 * 480 <= 2 ^ 48 - 1).
Proof.
  split.
  - vm_compute. discriminate.
  - apply (check_image_size_exact 640 480); unfold is_size; lia.
Defined.

Lemma align_up_witness : align_up 13 8 = 16 /\ align_up 13 (2 ^ 3) mod 2 ^ 3 = 0.
Proof.
  split; [reflexivity|].
  apply (align_up_least 13 3); lia.
Defined.

(** The widths of the integer types the library instantiates. *)
Definition is_width (w : Z) : Prop := w = 8 \/ w = 16 \/ w = 32 \/ w = 64.

Ltac split_widths :=
  repeat match goal with
  | H : is_width _ |- _ => destruct H as [H|[H|[H|H]]]; simpl in H; subst
  end.

Ltac compute_common_type :=
  repeat match goal with
  | |- context [common_type ?a ?b] =>
      let c := eval vm_compute in (common_type a b) in change (common_type a b) with c
  end.

(** Converting from a signed to an unsigned type saturates at both ends, for
    every pair of widths: the comparison with [numeric_limits<U>::max()] is
    made in the common type, where a negative source value looks large and
    still does not exceed the limit. *)
Theorem saturating_cast_signed_to_unsigned_clamps ws wu value :
  is_width ws -> is_width wu -> in_type (IntType true ws) value ->
  saturating_cast_signed_to_unsigned (IntType true ws) (IntType false wu) value
  = clamp_to (IntType false wu) value.
Proof.
  intros Hs Hu Hv. unfold saturating_cast_signed_to_unsigned, c_gt, clamp_to.
  split_widths; compute_common_type;
    unfold in_type, static_cast, int_max, int_min in *; cbn in *;
    case_cmp_all; cbn in *; mod_lia.
Qed.

(** Converting to a signed type saturates whenever the source is unsigned or
    at least as wide as the destination. *)
Theorem saturating_cast_to_signed_clamps sg ws wd value :
  is_width ws -> is_width wd -> (sg = false \/ wd <= ws) ->
  in_type (IntType sg ws) value ->
  saturating_cast_to_signed (IntType sg ws) (IntType true wd) value
  = clamp_to (IntType true wd) value.
Proof.
  intros Hs Hd Hok Hv. unfold saturating_cast_to_signed, clamp_to.
  destruct sg; split_widths; destruct Hok as [?|?]; try done; try lia;
    unfold in_type, static_cast, int_max, int_min in *; cbn in *;
    case_cmp_all; cbn in *; mod_lia.
Qed.

(** The side condition is needed: widening a signed type goes wrong, because the
    destination's maximum is first truncated to the source type. *)
Example saturating_cast_to_signed_widening :
  saturating_cast_to_signed int8 int16 5 = 32767.
Proof. reflexivity. Qed.

Lemma saturating_cast_signed_to_unsigned_witness :
  saturating_cast_signed_to_unsigned int32 uint32 (-1) = 0 /\
  saturating_cast_signed_to_unsigned int32 uint8 300 = clamp_to uint8 300.
Proof.
  split; [reflexivity|].
  apply (saturating_cast_signed_to_unsigned_clamps 32 8 300);
    unfold is_width, in_type; cbn; lia.
Defined.

Lemma saturating_cast_to_signed_witness :
  saturating_cast_to_signed int64 int8 (-1000) = clamp_to int8 (-1000).
Proof.
  apply (saturating_cast_to_signed_clamps true 64 8 (-1000));
    unfold is_width, in_type; cbn; lia.
Defined.
