(* ===== verification/Loops.v ===== *)
(** * Vector loops of [kleidicv/utils.h]

    [LoopUnroll] counts elements down and [LoopUnroll2] passes indices; both run
    a vector body while a whole step fits and leave the rest to a tail.  With
    [TryToAvoidTailLoop], [LoopUnroll2] rewinds instead, and runs one last vector
    that overlaps the previous one.  The callbacks act on a state [S], so a
    client instantiates [S] with the memory it writes. *)

From S2P Require Import Prelude.

(** ** LoopUnroll *)
Module Unroll.

Record LoopUnroll := {
  length_ : Z;
  step_ : Z;
  index_ : Z;
  can_avoid_tail_ : bool
}.

(** The constructor. *)
Definition make (length step : Z) : LoopUnroll :=
  {| length_ := length; step_ := step; index_ := 0; can_avoid_tail_ := step <=? length |}.

Section ops.
Context {S : Type}.

(** [unroll_n_times<UnrollFactor>]: [max_index] calls of [callback(step)]. *)
Definition unroll_n_times (UnrollFactor : Z) (callback : Z -> S -> S)
    (ls : LoopUnroll * S) : LoopUnroll * S :=
  let '(l, s) := ls in
  let step := UnrollFactor ⊠ step_ l in
  let max_index := length_ l / step in
  let s := for_range 0 max_index (fun _ => callback step) s in
  ({| length_ := length_ l ⊟ step ⊠ max_index; step_ := step_ l;
      index_ := max_index; can_avoid_tail_ := can_avoid_tail_ l |}, s).

(** [tail]: one call per remaining element. *)
Definition tail (callback : Z -> S -> S) (ls : LoopUnroll * S) : LoopUnroll * S :=
  let '(l, s) := ls in
  let s := for_range 0 (length_ l) callback s in
  ({| length_ := 0; step_ := step_ l; index_ := length_ l;
      can_avoid_tail_ := can_avoid_tail_ l |}, s).

(** [remaining]: one call for all remaining elements. *)
Definition remaining (callback : Z -> Z -> S -> S) (ls : LoopUnroll * S)
    : LoopUnroll * S :=
  let '(l, s) := ls in
  if length_ l =? 0 then ls
  else ({| length_ := 0; step_ := step_ l; index_ := index_ l;
           can_avoid_tail_ := can_avoid_tail_ l |}, callback (length_ l) (step_ l) s).

(** [try_avoid_tail_loop]: rewind so that exactly one vector remains. *)
Definition try_avoid_tail_loop (callback : Z -> S -> S) (ls : LoopUnroll * S)
    : bool * (LoopUnroll * S) :=
  let '(l, s) := ls in
  if negb (can_avoid_tail_ l) then (false, ls)
  else if length_ l =? 0 then (false, ls)
  else
    let s := callback (step_ l ⊟ length_ l) s in
    (true, ({| length_ := step_ l; step_ := step_ l; index_ := index_ l;
               can_avoid_tail_ := can_avoid_tail_ l |}, s)).
End ops.

(** An invariant indexed by the position: a phase of the loop takes it from element [k] of
    [len] to an element from which less than an iteration is left. *)
Lemma unroll_n_times_invariant {S} (I : Z -> S -> Prop) f callback len k l (s : S) :
  1 <= f -> 1 <= step_ l -> f * step_ l < 2 ^ 64 -> 0 <= k <= len -> len < 2 ^ 64 -> length_ l = len - k ->
  (forall k s, 0 <= k -> k + f * step_ l <= len -> I k s -> I (k + f * step_ l) (callback (f * step_ l) s)) ->
  I k s ->
  exists k', k <= k' <= len /\ length_ (unroll_n_times f callback (l, s)).1 = len - k' /\
    step_ (unroll_n_times f callback (l, s)).1 = step_ l /\ I k' (unroll_n_times f callback (l, s)).2.
Proof.
  intros Hf Hst Hfs Hk Hlen Hl Hcb HI. unfold unroll_n_times.
  assert (0 < f * step_ l) by nia. rewrite (size_mul_small f) by lia. rewrite Hl. set (n := f * step_ l) in *.
  set (q := (len - k) / n).
  pose proof (Z.div_mod (len - k) n ltac:(lia)) as Hdm. fold q in Hdm. pose proof (Z.mod_pos_bound (len - k) n ltac:(lia)).
  assert (0 <= q) by (apply Z.div_pos; lia). assert (0 <= n * q) by nia.
  rewrite size_mul_small, size_sub_small by lia. cbn [fst snd length_ step_].
  exists (k + q * n). split_and!; [lia|lia|lia|done|].
  apply (for_range_ind (fun i s => I (k + i * n) s)); [lia|by rewrite Z.mul_0_l, Z.add_0_r|].
  intros i s' Hi Hr. replace (k + (i + 1) * n) with (k + i * n + n) by lia. apply Hcb; [nia|nia|done].
Qed.

(** What a phase of the loop leaves. *)
Lemma unroll_n_times_rest {S} f callback l (s : S) : 1 <= f -> 1 <= step_ l -> f * step_ l < 2 ^ 64 -> 0 <= length_ l < 2 ^ 64 ->
  length_ (unroll_n_times f callback (l, s)).1 = length_ l mod (f * step_ l) /\
  can_avoid_tail_ (unroll_n_times f callback (l, s)).1 = can_avoid_tail_ l.
Proof.
  intros Hf Hst Hfs Hl. unfold unroll_n_times. assert (0 < f * step_ l) by nia. rewrite (size_mul_small f) by lia.
  cbn [fst length_ can_avoid_tail_]. split; [|done].
  pose proof (Z.div_mod (length_ l) (f * step_ l) ltac:(lia)). pose proof (Z.mod_pos_bound (length_ l) (f * step_ l) ltac:(lia)).
  assert (0 <= f * step_ l * (length_ l / (f * step_ l))) by (apply Z.mul_nonneg_nonneg; [lia|apply Z.div_pos; lia]).
  rewrite size_mul_small, size_sub_small by lia. lia.
Qed.

(** A run of the loop as the code writes it, on the position in the data: the
    vector bodies advance by the step they are given, the tail by one. *)
Definition advance (n : Z) (pos : Z) : Z := pos + n.
Definition advance_one (_ : Z) (pos : Z) : Z := pos + 1.

Lemma for_range_advance n k pos :
  0 <= k -> for_range 0 k (fun _ => advance n) pos = pos + k * n.
Proof.
  intros. apply (for_range_ind (fun i p => p = pos + i * n)); [lia|lia|].
  intros i p _ ->. unfold advance. lia.
Qed.

Lemma for_range_advance_one k pos :
  0 <= k -> for_range 0 k advance_one pos = pos + k.
Proof.
  intros. apply (for_range_ind (fun i p => p = pos + i)); [lia|lia|].
  intros i p _ ->. unfold advance_one. lia.
Qed.

(** One unrolling phase: advances by whole multiples, leaves less than a step,
    and conserves position plus remaining length. *)
Lemma unroll_n_times_advance f l pos :
  1 <= f -> 1 <= step_ l -> f * step_ l < 2 ^ 64 -> 0 <= length_ l < 2 ^ 64 ->
  let '(l', pos') := unroll_n_times f advance (l, pos) in
  pos' + length_ l' = pos + length_ l /\ 0 <= length_ l' < f * step_ l /\
  length_ l' <= length_ l /\ step_ l' = step_ l /\
  can_avoid_tail_ l' = can_avoid_tail_ l /\
  exists k, pos' = pos + k * step_ l.
Proof.
  unfold unroll_n_times. intros Hf Hs Hfs Hl.
  assert (0 < f * step_ l) by nia. rewrite size_mul_small by lia. simpl.
  set (st := f * step_ l) in *. set (q := length_ l / st).
  pose proof (Z.div_mod (length_ l) st ltac:(lia)).
  pose proof (Z.mod_pos_bound (length_ l) st ltac:(lia)).
  assert (0 <= q) by (apply Z.div_pos; lia). fold q in H0.
  assert (0 <= st * q) by nia.
  rewrite size_mul_small by lia. rewrite size_sub_small by lia.
  rewrite for_range_advance by lia.
  split_and!; try lia; try done. exists (q * f). unfold st. lia.
Qed.

(** The complete unrolled loop of the code: four steps at a time, then two, then
    one, then the scalar tail. *)
Definition run_all (length step : Z) : LoopUnroll * Z :=
  tail advance_one
    (unroll_n_times 1 advance
      (unroll_n_times 2 advance
        (unroll_n_times 4 advance (make length step, 0)))).

(** The same loop with its tail avoided: when it succeeds, the callback moves
    the position back and one more vector step runs. *)
Definition run_avoiding_tail (length step : Z) : option (LoopUnroll * Z) :=
  let ls := unroll_n_times 1 advance (unroll_n_times 2 advance (make length step, 0)) in
  let '(avoided, ls') := try_avoid_tail_loop (fun back pos => pos - back) ls in
  if avoided then Some (unroll_n_times 1 advance ls') else None.

(** Whatever the step, the unrolled loop consumes the data exactly: it ends at
    position [length] with nothing remaining. *)
Theorem unrolled_loop_consumes_all length step :
  1 <= step < 2 ^ 62 -> 0 <= length < 2 ^ 64 ->
  (run_all length step).2 = length /\ length_ (run_all length step).1 = 0.
Proof.
  intros Hs Hl. unfold run_all.
  pose proof (unroll_n_times_advance 4 (make length step) 0) as H4. cbn [make length_ step_ can_avoid_tail_] in H4.
  destruct (unroll_n_times 4 advance (make length step, 0)) as [l4 p4].
  destruct H4 as (? & ? & ? & Hs4 & _); [lia..|].
  pose proof (unroll_n_times_advance 2 l4 p4) as H2.
  destruct (unroll_n_times 2 advance (l4, p4)) as [l2 p2].
  destruct H2 as (? & ? & ? & Hs2 & _); [lia..|].
  pose proof (unroll_n_times_advance 1 l2 p2) as HA1.
  destruct (unroll_n_times 1 advance (l2, p2)) as [l1 p1].
  destruct HA1 as (? & ? & ? & Hs1 & _); [lia..|].
  simpl. rewrite for_range_advance_one by lia. split; [lia|done].
Qed.

Lemma unrolled_loop_consumes_all_witness :
  (run_all 1003 16).2 = 1003 /\ length_ (run_all 1003 16).1 = 0.
Proof. apply unrolled_loop_consumes_all; lia. Defined.

(** Avoiding the tail also ends exactly at [length] and never rewinds before
    the start of the data; it is refused only for data shorter than a vector or
    when no tail is left. *)
Theorem avoided_tail_ends_at_length length step :
  1 <= step < 2 ^ 62 -> 0 <= length < 2 ^ 64 ->
  match run_avoiding_tail length step with
  | Some (l, pos) => pos = length /\ length_ l = 0 /\ step <= length
  | None => length < step \/ length mod step = 0
  end.
Proof.
  intros Hs Hl. unfold run_avoiding_tail.
  pose proof (unroll_n_times_advance 2 (make length step) 0) as H2. cbn [make length_ step_ can_avoid_tail_] in H2.
  destruct (unroll_n_times 2 advance (make length step, 0)) as [l2 p2].
  destruct H2 as (? & ? & ? & Hs2 & Hc2 & k2 & Hk2); [lia..|].
  pose proof (unroll_n_times_advance 1 l2 p2) as HA1.
  destruct (unroll_n_times 1 advance (l2, p2)) as [l1 p1].
  destruct HA1 as (? & ? & ? & Hs1 & Hc1 & k1 & Hk1); [lia..|].
  unfold try_avoid_tail_loop. rewrite Hc1, Hc2.
  destruct (Z.leb_spec step length) as [Hle|Hlt]; simpl; [|by left].
  destruct (Z.eqb_spec (length_ l1) 0) as [Hz|Hnz]; simpl.
  - right. apply Z.mod_divide; [lia|]. exists (k1 + k2). rewrite Hs2 in Hk1. lia.
  - rewrite size_sub_small by lia. rewrite size_mul_small by lia.
    replace (step_ l1 / (1 * step_ l1)) with 1
      by (rewrite Z.mul_1_l, Z.div_same by lia; done).
    rewrite for_range_advance by lia. rewrite size_mul_small by lia.
    rewrite size_sub_small by lia. split_and!; lia.
Qed.

Lemma avoided_tail_ends_at_length_witness :
  match run_avoiding_tail 1003 16 with
  | Some (l, pos) => pos = 1003 /\ length_ l = 0 /\ 16 <= 1003
  | None => 1003 < 16 \/ 1003 mod 16 = 0
  end.
Proof. apply avoided_tail_ends_at_length; lia. Defined.

End Unroll.

(** ** LoopUnroll2 *)
Module Unroll2.

Record LoopUnroll2 := { length_ : Z; step_ : Z; index_ : Z }.

(** [LoopUnroll2{start_index, length, step}]; [LoopUnroll2{length, step}] is
    the case [start_index = 0]. *)
Definition make (start_index length step : Z) : LoopUnroll2 :=
  {| length_ := length; step_ := step; index_ := Z.min start_index length |}.

Definition remaining_length (l : LoopUnroll2) : Z := length_ l ⊟ index_ l.

Definition with_index (l : LoopUnroll2) (i : Z) : LoopUnroll2 :=
  {| length_ := length_ l; step_ := step_ l; index_ := i |}.

Section ops.
Context {S : Type}.

(** [while (index_ < max_index) { callback(index_); index_ += n_step; }]. *)
Definition vector_while (fuel : nat) (n_step max_index : Z) (callback : Z -> S -> S)
    (ls : LoopUnroll2 * S) : option (LoopUnroll2 * S) :=
  while_loop fuel (fun '(l, _) => index_ l <? max_index)
    (fun '(l, s) => (with_index l (index_ l ⊞ n_step), callback (index_ l) s)) ls.

(** The outer loop of the tail-avoiding path. *)
Fixpoint avoid_while (fuel : nat) (n_step max_index : Z) (callback : Z -> S -> S)
    (ls : LoopUnroll2 * S) : option (LoopUnroll2 * S) :=
  if index_ ls.1 <? length_ ls.1 then
    match fuel with
    | O => None
    | Datatypes.S fuel' =>
        match vector_while (Z.to_nat (length_ ls.1)) n_step max_index callback ls with
        | None => None
        | Some (l, s) =>
            if negb (remaining_length l =? 0)
            then avoid_while fuel' n_step (length_ l) callback
                   (with_index l (length_ l ⊟ n_step), s)
            else avoid_while fuel' n_step max_index callback (l, s)
        end
    end
  else Some ls.

(** [unroll_n_times<UnrollFactor>]; [avoid] is [try_to_avoid_tail_loop<Tail>].
    At most two rounds of the outer loop are needed, and one inner iteration
    per element is enough fuel. *)
Definition unroll_n_times (avoid : bool) (UnrollFactor : Z) (callback : Z -> S -> S)
    (ls : LoopUnroll2 * S) : option (LoopUnroll2 * S) :=
  let '(l, s) := ls in
  let n_step := UnrollFactor ⊠ step_ l in
  let max_index := index_ l ⊞ (remaining_length l / n_step) ⊠ n_step in
  if avoid && (UnrollFactor =? 1) then
    if n_step <=? length_ l then avoid_while 2 n_step max_index callback ls
    else Some ls
  else vector_while (Z.to_nat (length_ l)) n_step max_index callback ls.

(** [tail]: [while (index_ < length_) callback(index_++)]. *)
Definition tail (callback : Z -> S -> S) (ls : LoopUnroll2 * S)
    : option (LoopUnroll2 * S) :=
  vector_while (Z.to_nat (length_ ls.1)) 1 (length_ ls.1) callback ls.

(** [remaining]: one call with the half-open range that is left. *)
Definition remaining (callback : Z -> Z -> S -> S) (ls : LoopUnroll2 * S)
    : LoopUnroll2 * S :=
  let '(l, s) := ls in
  if negb (remaining_length l =? 0)
  then (with_index l (length_ l), callback (index_ l) (length_ l) s)
  else ls.
End ops.

(** The indices a vector loop visits from [start]: [k] steps of [n]. *)
Definition stride_indices (start n k : Z) : list Z :=
  (fun j => start + j * n) <$> seqZ 0 k.

(** The windows of the tail-avoiding loop: whole steps, then the rewound one. *)
Definition avoid_indices (start length n : Z) : list Z :=
  stride_indices start n ((length - start) / n) ++
  (if (length - start) mod n =? 0 then [] else [length - n]).

Definition apply_at {S} (callback : Z -> S -> S) (s : S) (idxs : list Z) : S :=
  foldl (fun s i => callback i s) s idxs.

Lemma stride_indices_cons start n k :
  0 < k -> stride_indices start n k = start :: stride_indices (start + n) n (k - 1).
Proof.
  intros. unfold stride_indices. rewrite seqZ_cons by lia. simpl. f_equal; [lia|].
  replace (Z.succ 0) with 1 by lia. replace (Z.pred k) with (k - 1) by lia.
  rewrite <- (fmap_add_seqZ 1 0), <- list_fmap_compose.
  apply list_fmap_ext. intros ? j _. simpl. lia.
Qed.

(** A run over strided indices is a counting loop. *)
Lemma apply_at_range {S} (callback : Z -> S -> S) start n k s :
  apply_at callback s (stride_indices start n k) = for_range 0 k (fun j => callback (start + j * n)) s.
Proof.
  unfold apply_at, stride_indices, for_range. rewrite Z.sub_0_r. revert s.
  induction (seqZ 0 k) as [|j l IH]; intros s; [done|]. apply IH.
Qed.

Section facts.
Context {S : Type}.
Implicit Types (callback : Z -> S -> S) (s : S) (l : LoopUnroll2).

Lemma vector_while_run n k callback :
  forall fuel l s, 0 < n -> 0 <= k -> (Z.to_nat k <= fuel)%nat ->
  0 <= index_ l -> index_ l + k * n < 2 ^ 64 ->
  vector_while fuel n (index_ l + k * n) callback (l, s) =
  Some (with_index l (index_ l + k * n),
        apply_at callback s (stride_indices (index_ l) n k)).
Proof.
  intros fuel l s Hn Hk Hf Hi Hb. unfold vector_while.
  remember (Z.to_nat k) as m eqn:Hm. revert k l s fuel Hk Hf Hi Hb Hm.
  induction m as [|m IH]; intros k l s fuel Hk Hf Hi Hb Hm.
  - assert (k = 0) as -> by lia.
    rewrite while_loop_done by (case_cmp; lia).
    rewrite Z.mul_0_l, Z.add_0_r. by destruct l.
  - destruct fuel as [|fuel]; [lia|].
    rewrite while_loop_step by (apply Z.ltb_lt; nia).
    assert (index_ l ⊞ n = index_ l + n) as Ha by (apply size_add_small; nia).
    replace (index_ l + k * n) with (index_ l + n + (k - 1) * n) by lia.
    pose proof (IH (k - 1) (with_index l (index_ l ⊞ n)) (callback (index_ l) s) fuel) as IH'.
    simpl in IH'. rewrite Ha in IH'. rewrite Ha, IH' by lia.
    rewrite (stride_indices_cons (index_ l) n k) by lia. done.
Qed.

(** The plain vector loop and the tail loop. *)
Lemma unroll_n_times_run f callback l s :
  1 <= f -> 1 <= step_ l -> f * step_ l < 2 ^ 64 ->
  0 <= index_ l <= length_ l -> is_size (length_ l) ->
  let n := f * step_ l in let k := (length_ l - index_ l) / n in
  unroll_n_times false f callback (l, s) =
  Some (with_index l (index_ l + k * n),
        apply_at callback s (stride_indices (index_ l) n k)).
Proof.
  intros Hf Hs Hfs Hi Hl n k. unfold is_size in Hl. unfold unroll_n_times, remaining_length.
  assert (0 < n) by (subst n; nia). rewrite size_mul_small by lia. fold n. simpl.
  rewrite size_sub_small by lia. fold k.
  pose proof (Z.div_mod (length_ l - index_ l) n ltac:(lia)).
  pose proof (Z.mod_pos_bound (length_ l - index_ l) n ltac:(lia)).
  assert (0 <= k) by (apply Z.div_pos; lia).
  assert (k * n <= length_ l - index_ l) by (subst k; lia).
  rewrite (size_mul_small k) by lia. rewrite size_add_small by lia.
  apply vector_while_run; try lia. assert (k <= k * n) by nia. lia.
Qed.

Lemma tail_run callback l s :
  0 <= index_ l <= length_ l -> is_size (length_ l) ->
  tail callback (l, s) =
  Some (with_index l (length_ l),
        apply_at callback s (seqZ (index_ l) (length_ l - index_ l))).
Proof.
  unfold is_size. intros Hi Hl. unfold tail. simpl.
  pose proof (vector_while_run 1 (length_ l - index_ l) callback
                (Z.to_nat (length_ l)) l s) as H.
  replace (index_ l + (length_ l - index_ l) * 1) with (length_ l) in H by lia.
  rewrite H by lia. do 3 f_equal. unfold stride_indices.
  replace (seqZ (index_ l)) with (seqZ (index_ l + 0)) by (f_equal; lia).
  rewrite <- fmap_add_seqZ. apply list_fmap_ext. intros ? j _. lia.
Qed.

(** The tail-avoiding loop terminates and visits [avoid_indices]. *)
Lemma unroll_avoid_run callback l s :
  1 <= step_ l <= length_ l -> 0 <= index_ l <= length_ l -> is_size (length_ l) ->
  unroll_n_times true 1 callback (l, s) =
  Some (with_index l (length_ l),
        apply_at callback s (avoid_indices (index_ l) (length_ l) (step_ l))).
Proof.
  unfold is_size. intros Hs Hi Hl. unfold unroll_n_times, remaining_length.
  rewrite size_mul_small by lia. rewrite Z.mul_1_l, size_sub_small by lia.
  set (n := step_ l) in *. set (k := (length_ l - index_ l) / n).
  pose proof (Z.div_mod (length_ l - index_ l) n ltac:(lia)) as Hdm.
  pose proof (Z.mod_pos_bound (length_ l - index_ l) n ltac:(lia)) as Hmod.
  assert (0 <= k) by (apply Z.div_pos; lia). fold k in Hdm.
  assert (k <= k * n) by nia. replace (n * k) with (k * n) in Hdm by lia.
  rewrite (size_mul_small k) by lia. rewrite size_add_small by lia.
  simpl. rewrite (proj2 (Z.leb_le n (length_ l))) by lia.
  unfold avoid_indices. fold k.
  destruct (Z.ltb_spec (index_ l) (length_ l)) as [Hlt|Hge].
  2:{ assert (index_ l = length_ l) as He by lia. subst k.
      rewrite He, Z.sub_diag, Z.div_0_l, Z.mod_0_l by lia. simpl. destruct l; simpl in *.
      by subst. }
  rewrite vector_while_run by lia. simpl. unfold remaining_length. simpl.
  rewrite size_sub_small by lia.
  destruct (Z.eqb_spec ((length_ l - index_ l) mod n) 0) as [Hz|Hnz].
  - replace (index_ l + k * n) with (length_ l) by lia.
    rewrite Z.sub_diag. simpl. rewrite Z.ltb_irrefl. by rewrite app_nil_r.
  - destruct (Z.eqb_spec (length_ l - (index_ l + k * n)) 0); [lia|]. simpl.
    rewrite size_sub_small by lia.
    destruct (Z.ltb_spec (length_ l - n) (length_ l)); [|lia].
    pose proof (vector_while_run n 1 callback (Z.to_nat (length_ l))
      (with_index l (length_ l - n))
      (apply_at callback s (stride_indices (index_ l) n k))) as H2.
    simpl in H2. replace (length_ l - n + 1 * n) with (length_ l) in H2 by lia.
    unfold with_index in *. simpl in *. rewrite H2 by lia. simpl.
    unfold remaining_length. simpl. rewrite size_sub_small by lia. rewrite Z.sub_diag. simpl.
    rewrite Z.ltb_irrefl. unfold apply_at. rewrite foldl_app. unfold stride_indices at 2.
    simpl. repeat f_equal. lia.
Qed.
End facts.
(** ** Whole loops

    The three shapes the kernels use, on a state [S]: the body for [k] vectors
    receives the index of the first element. *)

#[global] Arguments unroll_n_times : simpl never.

Section pipelines.
Context {S : Type}.
Implicit Types (f : S).

Definition bind_loop (r : option (LoopUnroll2 * S))
    (k : LoopUnroll2 * S -> option (LoopUnroll2 * S)) : option (LoopUnroll2 * S) :=
  match r with Some ls => k ls | None => None end.

(** [unroll_once(vector); tail(scalar)]. *)
Definition once_tail (avoid : bool) (length step : Z) (vector scalar : Z -> S -> S) f :=
  bind_loop (unroll_n_times avoid 1 vector (make 0 length step, f)) (tail scalar).

(** [unroll_twice(vector2); unroll_once(vector); tail(scalar)]; [avoid] is the
    [TryToAvoidTailLoop] instance of the class. *)
Definition twice_once_tail (avoid : bool) (length step : Z)
    (vector2 vector scalar : Z -> S -> S) f :=
  bind_loop (unroll_n_times avoid 2 vector2 (make 0 length step, f)) (fun ls =>
  bind_loop (unroll_n_times avoid 1 vector ls) (tail scalar)).

(** [unroll_four_times(vector4)] before these. *)
Definition four_twice_once_tail (avoid : bool) (length step : Z)
    (vector4 vector2 vector scalar : Z -> S -> S) f :=
  bind_loop (unroll_n_times avoid 4 vector4 (make 0 length step, f)) (fun ls =>
  bind_loop (unroll_n_times avoid 2 vector2 ls) (fun ls =>
  bind_loop (unroll_n_times avoid 1 vector ls) (tail scalar))).

(** [unroll_twice(vector2); unroll_once(vector); remaining(rest)]. *)
Definition twice_once_remaining (avoid : bool) (length step : Z)
    (vector2 vector : Z -> S -> S) (rest : Z -> Z -> S -> S) f :=
  bind_loop (unroll_n_times avoid 2 vector2 (make 0 length step, f)) (fun ls =>
  bind_loop (unroll_n_times avoid 1 vector ls) (fun ls => Some (remaining rest ls))).

(** [unroll_once(vector); remaining(rest)] of [LoopUnroll2{start, length, step}]. *)
Definition once_remaining (avoid : bool) (start length step : Z)
    (vector : Z -> S -> S) (rest : Z -> Z -> S -> S) f :=
  bind_loop (unroll_n_times avoid 1 vector (make start length step, f)) (fun ls => Some (remaining rest ls)).
End pipelines.

(** ** Invariants of loops without tail avoidance

    [Inv i s]: the first [i] elements are processed. *)
Section invariants.
Context {S : Type} (Inv : Z -> S -> Prop).
Implicit Types (l : LoopUnroll2) (s : S).

(** A callback that processes [n] elements. *)
Definition advances (length n : Z) (callback : Z -> S -> S) : Prop :=
  forall i s, 0 <= i -> i + n <= length -> Inv i s -> Inv (i + n) (callback i s).

Lemma unroll_invariant factor callback l s :
  1 <= factor -> 1 <= step_ l -> factor * step_ l < 2 ^ 64 -> 0 <= index_ l <= length_ l -> is_size (length_ l) ->
  advances (length_ l) (factor * step_ l) callback -> Inv (index_ l) s ->
  exists i s', unroll_n_times false factor callback (l, s) = Some (with_index l i, s') /\
    0 <= i <= length_ l /\ Inv i s'.
Proof.
  intros Hf Hs Hfs Hi Hl Hstep H0. rewrite (unroll_n_times_run factor callback l s) by done. cbv zeta.
  set (n := factor * step_ l) in *. assert (0 < n) by (subst n; nia).
  pose proof (Z.div_mod (length_ l - index_ l) n ltac:(lia)). pose proof (Z.mod_pos_bound (length_ l - index_ l) n ltac:(lia)).
  set (k := (length_ l - index_ l) / n) in *. assert (0 <= k) by (apply Z.div_pos; lia). assert (0 <= k * n) by nia.
  eexists _, _. split; [done|]. split; [lia|]. rewrite apply_at_range.
  apply (for_range_ind (fun j s => Inv (index_ l + j * n) s)); [done|by rewrite Z.mul_0_l, Z.add_0_r|].
  intros j s' Hj Hs'. replace (index_ l + (j + 1) * n) with (index_ l + j * n + n) by lia. apply Hstep; [nia|nia|done].
Qed.

Lemma tail_invariant callback l s : 0 <= index_ l <= length_ l -> is_size (length_ l) ->
  advances (length_ l) 1 callback -> Inv (index_ l) s ->
  exists l' s', tail callback (l, s) = Some (l', s') /\ Inv (length_ l) s'.
Proof.
  intros Hi Hl Hstep H0. rewrite tail_run by done. eexists _, _. split; [done|].
  replace (seqZ (index_ l) (length_ l - index_ l)) with (stride_indices (index_ l) 1 (length_ l - index_ l)).
  - rewrite apply_at_range. replace (length_ l) with (index_ l + (length_ l - index_ l) * 1) at 1 by lia.
    apply (for_range_ind (fun j s => Inv (index_ l + j * 1) s)); [lia|by rewrite Z.mul_0_l, Z.add_0_r|].
    intros j s' Hj Hs'. replace (index_ l + (j + 1) * 1) with (index_ l + j * 1 + 1) by lia. apply Hstep; [lia|lia|done].
  - unfold stride_indices. replace (seqZ (index_ l) (length_ l - index_ l)) with (seqZ (index_ l + 0) (length_ l - index_ l)) by (f_equal; lia).
    rewrite <- fmap_add_seqZ. apply list_fmap_ext. intros. lia.
Qed.

(** [remaining] processes the elements that are left in one call. *)
Definition finishes (length : Z) (rest : Z -> Z -> S -> S) : Prop :=
  forall i s, 0 <= i < length -> Inv i s -> Inv length (rest i length s).

Lemma remaining_invariant rest l s : 0 <= index_ l <= length_ l -> is_size (length_ l) ->
  finishes (length_ l) rest -> Inv (index_ l) s ->
  exists l' s', remaining rest (l, s) = (l', s') /\ Inv (length_ l) s'.
Proof.
  intros Hi Hl Hrest H0. unfold remaining, remaining_length. unfold is_size in Hl. rewrite size_sub_small by lia.
  destruct (Z.eqb_spec (length_ l - index_ l) 0); cbn [negb]; eexists _, _; (split; [done|]).
  - by replace (length_ l) with (index_ l) by lia.
  - apply Hrest; [lia|done].
Qed.

Lemma twice_once_remaining_invariant len step vector2 vector rest s :
  is_size len -> 1 <= step < 2 ^ 62 -> advances len (2 * step) vector2 -> advances len step vector -> finishes len rest ->
  Inv 0 s -> exists l' s', twice_once_remaining false len step vector2 vector rest s = Some (l', s') /\ Inv len s'.
Proof.
  intros Hl Hs H2 H1 Hr H0. unfold is_size in Hl. unfold twice_once_remaining.
  destruct (unroll_invariant 2 vector2 (make 0 len step) s) as (i & s1 & -> & Hi & Hs1);
    cbn [make length_ step_ index_]; try rewrite Z.min_l by lia; try done; try lia.
  destruct (unroll_invariant 1 vector (with_index (make 0 len step) i) s1) as (j & s2 & Heq & Hj & Hs2);
    cbn [make with_index length_ step_ index_] in *; rewrite ?Z.mul_1_l; try done; try lia.
  cbn [bind_loop]. rewrite Heq. cbn [bind_loop].
  destruct (remaining_invariant rest (with_index (with_index (make 0 len step) i) j) s2) as (l' & s3 & -> & Hs3);
    cbn [make with_index length_ step_ index_] in *; try done; try lia. by exists l', s3.
Qed.

Lemma once_remaining_invariant start len step vector rest s :
  is_size len -> 1 <= step < 2 ^ 62 -> 0 <= start <= len -> advances len step vector -> finishes len rest ->
  Inv start s -> exists l' s', once_remaining false start len step vector rest s = Some (l', s') /\ Inv len s'.
Proof.
  intros Hl Hs Hst H1 Hr H0. unfold is_size in Hl. unfold once_remaining.
  destruct (unroll_invariant 1 vector (make start len step) s) as (j & s2 & Heq & Hj & Hs2);
    cbn [make length_ step_ index_] in *; rewrite ?Z.mul_1_l; try rewrite Z.min_l by lia; try done; try lia.
  rewrite Heq. cbn [bind_loop].
  destruct (remaining_invariant rest (with_index (make start len step) j) s2) as (l' & s3 & -> & Hs3);
    cbn [make with_index length_ step_ index_] in *; try done; try lia. by exists l', s3.
Qed.

(** A callback that processes [n] elements, of which some may be processed already. *)
Definition advances_again (length n : Z) (callback : Z -> S -> S) : Prop :=
  forall i j s, 0 <= j <= i -> i <= j + n -> j + n <= length -> Inv i s -> Inv (j + n) (callback j s).

(** With tail avoidance the rest is processed only when the data is shorter than a step. *)
Lemma once_remaining_avoid_invariant len step vector rest s :
  is_size len -> 1 <= step < 2 ^ 62 -> advances_again len step vector ->
  (0 < len < step -> Inv len (rest 0 len s)) ->
  Inv 0 s -> exists l' s', once_remaining true 0 len step vector rest s = Some (l', s') /\ Inv len s'.
Proof.
  intros Hl Hs H1 Hr H0. pose proof Hl as Hl2. unfold is_size in Hl. unfold once_remaining.
  destruct (decide (step <= len)) as [Hle|Hgt].
  - rewrite unroll_avoid_run by (cbn [make length_ step_ index_]; done || lia).
    cbn [make length_ step_ index_ bind_loop]. rewrite Z.min_l by lia.
    unfold remaining, remaining_length. cbn [make with_index length_ step_ index_]. rewrite size_sub_small by lia.
    rewrite Z.sub_diag. cbn [Z.eqb negb]. eexists _, _. split; [done|].
    unfold avoid_indices, apply_at. rewrite foldl_app. fold (apply_at vector s (stride_indices 0 step ((len - 0) / step))).
    rewrite apply_at_range, Z.sub_0_r. set (k := len / step).
    pose proof (Z.div_mod len step ltac:(lia)) as Hdm. pose proof (Z.mod_pos_bound len step ltac:(lia)) as Hmod. fold k in Hdm.
    assert (0 <= k) by (apply Z.div_pos; lia).
    assert (Inv (k * step) (for_range 0 k (fun j => vector (0 + j * step)) s)) as Hk.
    { apply (for_range_ind (fun j s => Inv (j * step) s)); [done|by rewrite Z.mul_0_l|].
      intros j s' Hj Hs'. rewrite Z.mul_add_distr_r, Z.mul_1_l, Z.add_0_l. apply (H1 (j * step)); [nia|lia|nia|done]. }
    destruct (Z.eqb_spec (len mod step) 0) as [Hz|Hz]; cbn [foldl].
    + by replace len with (k * step) by lia.
    + replace len with (len - step + step) at 1 by lia. apply (H1 (k * step)); [nia|nia|lia|done].
  - unfold unroll_n_times. cbn [make length_ step_ index_]. rewrite (size_mul_small 1) by lia.
    change (true && (1 =? 1)) with true. cbv iota zeta. rewrite (proj2 (Z.leb_gt (1 * step) len)) by lia. cbn [bind_loop].
    unfold remaining, remaining_length. cbn [make with_index length_ index_]. rewrite Z.min_l by lia. rewrite size_sub_small by lia.
    destruct (Z.eqb_spec (len - 0) 0); cbn [negb]; eexists _, _; (split; [done|]).
    + by replace len with 0 by lia.
    + apply Hr. lia.
Qed.

Lemma twice_once_tail_invariant len step vector2 vector scalar s :
  is_size len -> 1 <= step < 2 ^ 62 -> advances len (2 * step) vector2 -> advances len step vector -> advances len 1 scalar ->
  Inv 0 s -> exists l' s', twice_once_tail false len step vector2 vector scalar s = Some (l', s') /\ Inv len s'.
Proof.
  intros Hl Hs H2 H1 Ht H0. unfold is_size in Hl. unfold twice_once_tail.
  destruct (unroll_invariant 2 vector2 (make 0 len step) s) as (i & s1 & -> & Hi & Hs1);
    cbn [make length_ step_ index_]; try rewrite Z.min_l by lia; try done; try lia.
  destruct (unroll_invariant 1 vector (with_index (make 0 len step) i) s1) as (j & s2 & Heq & Hj & Hs2);
    cbn [make with_index length_ step_ index_] in *; rewrite ?Z.mul_1_l; try done; try lia.
  cbn [bind_loop]. rewrite Heq. cbn [bind_loop].
  destruct (tail_invariant scalar (with_index (with_index (make 0 len step) i) j) s2) as (l' & s3 & -> & Hs3);
    cbn [make with_index length_ step_ index_] in *; try done; try lia. by exists l', s3.
Qed.

Lemma once_tail_invariant len step vector scalar s :
  is_size len -> 1 <= step < 2 ^ 62 -> advances len step vector -> advances len 1 scalar ->
  Inv 0 s -> exists l' s', once_tail false len step vector scalar s = Some (l', s') /\ Inv len s'.
Proof.
  intros Hl Hs H1 Ht H0. unfold is_size in Hl. unfold once_tail.
  destruct (unroll_invariant 1 vector (make 0 len step) s) as (j & s2 & Heq & Hj & Hs2);
    cbn [make length_ step_ index_] in *; rewrite ?Z.mul_1_l; try rewrite Z.min_l by lia; try done; try lia.
  rewrite Heq. cbn [bind_loop].
  destruct (tail_invariant scalar (with_index (make 0 len step) j) s2) as (l' & s3 & -> & Hs3);
    cbn [make with_index length_ step_ index_] in *; try done; try lia. by exists l', s3.
Qed.
End invariants.

(** The callbacks write a store of cells [A]; [idx] tells which element of the
    loop a cell is, if any.  [ok a t] says that [t] is a right value for cell [a]. *)
Section relational_stores.
Context {A T : Type} (idx : A -> option Z) (ok : A -> T -> Prop).
Implicit Types (f : A -> T) (l : LoopUnroll2).

(** Cell [a] is an element in [lo, hi). *)
Definition in_window (lo hi : Z) (a : A) : bool :=
  match idx a with Some j => (lo <=? j) && (j <? hi) | None => false end.

(** Right values in the window [lo, hi), nothing written elsewhere. *)
Definition stored (lo hi : Z) f f' : Prop :=
  forall a, if in_window lo hi a then ok a (f' a) else f' a = f a.

(** A callback that stores the window of [n] elements it is given, for the windows
    inside [0, len). *)
Definition stores_window (len n : Z) (callback : Z -> (A -> T) -> A -> T) : Prop :=
  forall i f, 0 <= i -> i + n <= len -> stored i (i + n) f (callback i f).

(** Two windows in sequence act as their union. *)
Lemma stored_join lo1 hi1 lo2 hi2 lo hi f f1 f2 :
  (forall a, in_window lo hi a = in_window lo1 hi1 a || in_window lo2 hi2 a) ->
  stored lo1 hi1 f f1 -> stored lo2 hi2 f1 f2 -> stored lo hi f f2.
Proof.
  intros Hu H1 H2 a. rewrite Hu. specialize (H1 a). specialize (H2 a).
  destruct (in_window lo2 hi2 a); [by rewrite orb_true_r|]. rewrite orb_false_r, H2.
  by destruct (in_window lo1 hi1 a).
Qed.

Ltac windows := unfold in_window; destruct (idx _); case_cmp; simpl; done || lia.

Lemma stored_none lo f : stored lo lo f f.
Proof. intros a. replace (in_window lo lo a) with false; [done|]. symmetry. windows. Qed.

Lemma apply_at_stride len n callback k :
  0 < n -> 0 <= k -> stores_window len n callback -> forall lo f,
  0 <= lo -> lo + k * n <= len -> stored lo (lo + k * n) f (apply_at callback f (stride_indices lo n k)).
Proof.
  intros Hn Hk Hw. pattern k. apply natlike_ind; [|clear k Hk; intros k Hk IH|done].
  - intros lo f _ _. rewrite Z.mul_0_l, Z.add_0_r. apply stored_none.
  - intros lo f Hlo Hend. rewrite stride_indices_cons by lia. simpl.
    replace (lo + Z.succ k * n) with (lo + n + k * n) in * by lia.
    assert (0 <= k * n) by nia. replace (Z.succ k - 1) with k by lia.
    apply (stored_join lo (lo + n) (lo + n) (lo + n + k * n) _ _ f (callback lo f));
      [intros a; windows|apply Hw; lia|apply IH; lia].
Qed.

Lemma apply_at_seqZ len callback lo k f :
  0 <= k -> 0 <= lo -> lo + k <= len -> stores_window len 1 callback ->
  stored lo (lo + k) f (apply_at callback f (seqZ lo k)).
Proof.
  intros Hk Hlo Hend Hw.
  pose proof (apply_at_stride len 1 callback k ltac:(lia) Hk Hw lo f Hlo ltac:(lia)) as H.
  rewrite Z.mul_1_r in H. replace (seqZ lo k) with (stride_indices lo 1 k); [done|].
  unfold stride_indices. replace (seqZ lo k) with (seqZ (lo + 0) k) by (f_equal; lia).
  rewrite <- fmap_add_seqZ. apply list_fmap_ext. intros. lia.
Qed.

(** One phase without tail avoidance extends the stored prefix. *)
Lemma phase_stores factor callback f l fs :
  1 <= factor -> 1 <= step_ l -> factor * step_ l < 2 ^ 64 ->
  0 <= index_ l <= length_ l -> is_size (length_ l) ->
  stores_window (length_ l) (factor * step_ l) callback -> stored 0 (index_ l) f fs ->
  exists i fs', unroll_n_times false factor callback (l, fs) = Some (with_index l i, fs') /\
    0 <= i <= length_ l /\ stored 0 i f fs'.
Proof.
  intros Hfa Hs Hfs Hi Hl Hw Hf.
  rewrite (unroll_n_times_run factor callback l fs) by done. simpl.
  set (n := factor * step_ l) in *. assert (0 < n) by (subst n; nia).
  pose proof (Z.div_mod (length_ l - index_ l) n ltac:(lia)) as Hdm.
  pose proof (Z.mod_pos_bound (length_ l - index_ l) n ltac:(lia)).
  set (k := (length_ l - index_ l) / n) in *.
  assert (0 <= k) by (apply Z.div_pos; lia). assert (0 <= k * n) by nia.
  eexists _, _. split; [done|]. split; [lia|].
  eapply stored_join; [|exact Hf|apply (apply_at_stride (length_ l)); done || lia]. intros a. windows.
Qed.

Lemma tail_stores callback f l fs :
  0 <= index_ l <= length_ l -> is_size (length_ l) ->
  stores_window (length_ l) 1 callback -> stored 0 (index_ l) f fs ->
  exists l' fs', tail callback (l, fs) = Some (l', fs') /\ stored 0 (length_ l) f fs'.
Proof.
  intros Hi Hl Hw Hf. rewrite tail_run by done. eexists _, _. split; [done|].
  eapply stored_join; [|exact Hf|apply (apply_at_seqZ (length_ l)); done || lia]. intros a. windows.
Qed.

(** The tail-avoiding phase stores everything at once when a vector fits, and does
    nothing otherwise. *)
Lemma avoid_phase_stores callback f l fs :
  1 <= step_ l < 2 ^ 63 -> 0 <= index_ l <= length_ l -> is_size (length_ l) ->
  stores_window (length_ l) (step_ l) callback -> stored 0 (index_ l) f fs ->
  exists i fs', unroll_n_times true 1 callback (l, fs) = Some (with_index l i, fs') /\
    0 <= i <= length_ l /\ stored 0 i f fs' /\ (step_ l <= length_ l -> i = length_ l).
Proof.
  intros Hs Hi Hl Hw Hf. destruct (Z.leb_spec (step_ l) (length_ l)) as [Hle|Hgt].
  2:{ exists (index_ l), fs. unfold unroll_n_times. simpl andb. cbv iota.
      rewrite size_mul_small, Z.mul_1_l by lia.
      rewrite (proj2 (Z.leb_gt _ _) Hgt). split; [by destruct l|]. split_and!; done || lia. }
  rewrite unroll_avoid_run by (done || lia). exists (length_ l). eexists. split; [done|].
  split; [lia|]. split; [|done]. unfold avoid_indices, apply_at. rewrite foldl_app.
  pose proof (Z.div_mod (length_ l - index_ l) (step_ l) ltac:(lia)) as Hdm.
  pose proof (Z.mod_pos_bound (length_ l - index_ l) (step_ l) ltac:(lia)).
  set (k := (length_ l - index_ l) / step_ l) in *.
  assert (0 <= k) by (apply Z.div_pos; lia). assert (0 <= k * step_ l) by nia.
  pose proof (apply_at_stride (length_ l) (step_ l) callback k ltac:(lia) ltac:(lia) Hw (index_ l) fs
    ltac:(lia) ltac:(lia)) as Hst. unfold apply_at in Hst. set (f1 := foldl _ fs _) in *.
  assert (stored 0 (index_ l + k * step_ l) f f1) as Hpre
    by (eapply stored_join; [|exact Hf|exact Hst]; intros a; windows).
  destruct (Z.eqb_spec ((length_ l - index_ l) mod step_ l) 0); simpl.
  - by replace (length_ l) with (index_ l + k * step_ l) at 1 by lia.
  - eapply stored_join; [|exact Hpre|apply (Hw (length_ l - step_ l)); lia]. intros a. windows.
Qed.

Lemma one_vector_phase_stores avoid callback f l fs :
  1 <= step_ l < 2 ^ 63 -> 0 <= index_ l <= length_ l -> is_size (length_ l) ->
  stores_window (length_ l) (step_ l) callback -> stored 0 (index_ l) f fs ->
  exists i fs', unroll_n_times avoid 1 callback (l, fs) = Some (with_index l i, fs') /\
    0 <= i <= length_ l /\ stored 0 i f fs'.
Proof.
  intros Hs Hi Hl Hw Hf. destruct avoid.
  { destruct (avoid_phase_stores callback f l fs) as (i & fs' & Heq & Hil & Hst & _); try done. by exists i, fs'. }
  apply phase_stores; try done; try lia. by rewrite Z.mul_1_l.
Qed.

Lemma several_vector_phase_stores factor avoid callback f l fs :
  2 <= factor -> 1 <= step_ l -> factor * step_ l < 2 ^ 64 ->
  0 <= index_ l <= length_ l -> is_size (length_ l) ->
  stores_window (length_ l) (factor * step_ l) callback -> stored 0 (index_ l) f fs ->
  exists i fs', unroll_n_times avoid factor callback (l, fs) = Some (with_index l i, fs') /\
    0 <= i <= length_ l /\ stored 0 i f fs'.
Proof.
  intros Hf Hs Hfs Hi Hl Hw Hfill.
  assert (unroll_n_times avoid factor callback (l, fs) =
          unroll_n_times false factor callback (l, fs)) as ->.
  { unfold unroll_n_times. rewrite (proj2 (Z.eqb_neq factor 1)) by lia. by rewrite !andb_false_r. }
  by apply phase_stores; try lia.
Qed.

(** A vector loop followed by its scalar tail stores every element and nothing else,
    whatever the vector length; so do the unrolled loops. *)
Lemma once_tail_stores avoid length step vector scalar f :
  1 <= step < 2 ^ 63 -> is_size length ->
  stores_window length step vector -> stores_window length 1 scalar ->
  exists l f', once_tail avoid length step vector scalar f = Some (l, f') /\ stored 0 length f f'.
Proof.
  intros Hs Hl Hv Hsc. unfold once_tail, is_size in *.
  assert (index_ (make 0 length step) = 0) as Hz by (simpl; lia).
  destruct (one_vector_phase_stores avoid vector f (make 0 length step) f)
    as (i & fs & Heq & Hi & Hf); rewrite ?Hz; simpl; try done; [lia|apply stored_none|].
  rewrite Heq. apply (tail_stores scalar f (with_index (make 0 length step) i) fs); done.
Qed.

(** A tail-avoiding vector loop needs no tail when a vector fits. *)
Lemma once_stores length step vector f :
  1 <= step <= length -> step < 2 ^ 63 -> is_size length -> stores_window length step vector ->
  exists l f', unroll_n_times true 1 vector (make 0 length step, f) = Some (l, f') /\ stored 0 length f f'.
Proof.
  intros Hs Hs63 Hl Hv. unfold is_size in *.
  assert (index_ (make 0 length step) = 0) as Hz by (simpl; lia).
  destruct (avoid_phase_stores vector f (make 0 length step) f) as (i & fs & Heq & _ & Hf & Hi);
    rewrite ?Hz; simpl; try done; try lia; [apply stored_none|].
  eexists _, fs. split; [exact Heq|]. simpl in Hi. by rewrite <- (Hi ltac:(lia)).
Qed.

Lemma twice_once_tail_stores avoid length step vector2 vector scalar f :
  1 <= step < 2 ^ 62 -> is_size length ->
  stores_window length (2 * step) vector2 -> stores_window length step vector ->
  stores_window length 1 scalar ->
  exists l f', twice_once_tail avoid length step vector2 vector scalar f = Some (l, f') /\
    stored 0 length f f'.
Proof.
  intros Hs Hl Hv2 Hv Hsc. unfold twice_once_tail, is_size in *.
  assert (index_ (make 0 length step) = 0) as Hz by (simpl; lia).
  destruct (several_vector_phase_stores 2 avoid vector2 f (make 0 length step) f)
    as (i2 & fs2 & Heq2 & Hi2 & Hf2); rewrite ?Hz; simpl step_; simpl length_; try done; try lia;
    [apply stored_none|].
  unfold bind_loop at 1. rewrite Heq2. simpl in Hi2. set (l2 := with_index (make 0 length step) i2) in *.
  destruct (one_vector_phase_stores avoid vector f l2 fs2) as (i1 & fs1 & Heq1 & Hi1 & Hf1);
    try done; try (simpl; lia).
  unfold bind_loop at 1. rewrite Heq1. apply (tail_stores scalar f (with_index l2 i1) fs1); done.
Qed.

Lemma four_twice_once_tail_stores avoid length step vector4 vector2 vector scalar f :
  1 <= step < 2 ^ 61 -> is_size length ->
  stores_window length (4 * step) vector4 -> stores_window length (2 * step) vector2 ->
  stores_window length step vector -> stores_window length 1 scalar ->
  exists l f', four_twice_once_tail avoid length step vector4 vector2 vector scalar f = Some (l, f') /\
    stored 0 length f f'.
Proof.
  intros Hs Hl Hv4 Hv2 Hv Hsc. unfold four_twice_once_tail, is_size in *.
  assert (index_ (make 0 length step) = 0) as Hz by (simpl; lia).
  destruct (several_vector_phase_stores 4 avoid vector4 f (make 0 length step) f)
    as (i & fs & Heq & Hi & Hf); rewrite ?Hz; simpl step_; simpl length_; try done; try lia;
    [apply stored_none|].
  unfold bind_loop at 1. rewrite Heq. simpl in Hi. set (l := with_index (make 0 length step) i) in *.
  destruct (several_vector_phase_stores 2 avoid vector2 f l fs) as (i2 & fs2 & Heq2 & Hi2 & Hf2);
    try done; try (simpl; lia).
  unfold bind_loop at 1. rewrite Heq2. set (l2 := with_index l i2) in *.
  destruct (one_vector_phase_stores avoid vector f l2 fs2) as (i1 & fs1 & Heq1 & Hi1 & Hf1);
    try done; try (simpl; lia).
  unfold bind_loop at 1. rewrite Heq1. apply (tail_stores scalar f (with_index l2 i1) fs1); done.
Qed.
End relational_stores.

(** The functional case: each cell has one right value. *)
Section stores.
Context {A T : Type} (idx : A -> option Z) (g : A -> T).
Implicit Types (f : A -> T).

(** A callback that writes [g] on the window of [n] elements it is given, for the
    windows inside [0, len). *)
Definition writes_window (len n : Z) (callback : Z -> (A -> T) -> A -> T) : Prop :=
  forall i f a, 0 <= i -> i + n <= len ->
  callback i f a = if in_window idx i (i + n) a then g a else f a.

(** What a loop must leave behind: [g] on [0, length), the old data elsewhere. *)
Definition filled (length : Z) f f' : Prop :=
  forall a, f' a = if in_window idx 0 length a then g a else f a.

Local Abbreviation value := (fun a t => t = g a).

Lemma writes_window_stores len n callback :
  writes_window len n callback -> stores_window idx value len n callback.
Proof. intros Hw i f Hi Hn a. rewrite Hw by done. by destruct (in_window _ _ _ _). Qed.

Lemma stored_filled length f f' : stored idx value 0 length f f' -> filled length f f'.
Proof. intros Hs a. specialize (Hs a). by destruct (in_window _ _ _ _). Qed.

Lemma once_tail_fills avoid length step vector scalar f :
  1 <= step < 2 ^ 63 -> is_size length ->
  writes_window length step vector -> writes_window length 1 scalar ->
  exists l f', once_tail avoid length step vector scalar f = Some (l, f') /\ filled length f f'.
Proof.
  intros Hs Hl Hv%writes_window_stores Hsc%writes_window_stores.
  destruct (once_tail_stores idx value avoid length step vector scalar f) as (l & f' & Heq & Hf); try done.
  exists l, f'. split; [done|by apply stored_filled].
Qed.

Lemma four_loop_fills avoid length step vector4 vector2 vector scalar f :
  1 <= step < 2 ^ 61 -> is_size length ->
  writes_window length (4 * step) vector4 ->
  writes_window length (2 * step) vector2 -> writes_window length step vector ->
  writes_window length 1 scalar ->
  exists l f', four_twice_once_tail avoid length step vector4 vector2 vector scalar f = Some (l, f') /\
    filled length f f'.
Proof.
  intros Hs Hl Hv4%writes_window_stores Hv2%writes_window_stores Hv%writes_window_stores Hsc%writes_window_stores.
  destruct (four_twice_once_tail_stores idx value avoid length step vector4 vector2 vector scalar f)
    as (l & f' & Heq & Hf); try done.
  exists l, f'. split; [done|by apply stored_filled].
Qed.
End stores.

(** The unrolled vector loops of the kernels, with and without tail avoidance,
    terminate and are equivalent to the element-by-element loop: for any length
    and any vector step, each element of the output holds the function's value
    and nothing outside it is written, provided the vector and scalar bodies
    compute the same function. *)
Theorem vector_loop_fills {A T} (idx : A -> option Z) (g : A -> T) avoid length step
    vector2 vector scalar f :
  1 <= step < 2 ^ 62 -> is_size length ->
  writes_window idx g length (2 * step) vector2 -> writes_window idx g length step vector ->
  writes_window idx g length 1 scalar ->
  exists l f', twice_once_tail avoid length step vector2 vector scalar f = Some (l, f') /\
    filled idx g length f f'.
Proof.
  intros Hs Hl Hv2%writes_window_stores Hv%writes_window_stores Hsc%writes_window_stores.
  destruct (twice_once_tail_stores idx (fun a t => t = g a) avoid length step vector2 vector scalar f)
    as (l & f' & Heq & Hf); try done.
  exists l, f'. split; [done|by apply stored_filled].
Qed.

Lemma vector_loop_fills_witness :
  exists l f', twice_once_tail true 37 8
      (fun i f j => if in_window Some i (i + 2 * 8) j then j * j else f j)
      (fun i f j => if in_window Some i (i + 8) j then j * j else f j)
      (fun i f j => if in_window Some i (i + 1) j then j * j else f j) (fun _ => 0) = Some (l, f') /\
    filled Some (fun j => j * j) 37 (fun _ => 0) f'.
Proof. apply vector_loop_fills; [lia|unfold is_size; lia| | |]; intros i f j; reflexivity. Defined.

End Unroll2.
