(* ===== verification/Border.v ===== *)
(** * Borders: types, the meaning of a border, and the interface of the tables

    [border_types.h] names the border strategies of the fixed-size filters.
    [border_index] is the reference meaning of each (the documentation of
    [kleidicv_border_type_t]): which pixel of an axis of [n] pixels stands for
    position [i].  The offset tables of [workspace/border_KxK.h] (file
    FixedBorders) implement the interface [FixedBorderInfo] and satisfy
    [FixedBorderLaws], against which the filters are proved. *)

From S2P Require Import Prelude CTypes.

Inductive FixedBorderType := REPLICATE | REFLECT | WRAP | REVERSE.

#[export] Instance FixedBorderType_eq_dec : EqDecision FixedBorderType.
Proof. solve_decision. Defined.

(** [get_fixed_border_type]: the empty optional is [None]. *)
Definition get_fixed_border_type (border_type : kleidicv_border_type_t)
    : option FixedBorderType :=
  match border_type with
  | KLEIDICV_BORDER_TYPE_REPLICATE => Some REPLICATE
  | KLEIDICV_BORDER_TYPE_REFLECT => Some REFLECT
  | KLEIDICV_BORDER_TYPE_WRAP => Some WRAP
  | KLEIDICV_BORDER_TYPE_REVERSE => Some REVERSE
  | _ => None
  end.

(** ** Reference meaning *)

(** The pixel that stands for position [i], for [i] at most [n] outside the
    axis. *)
Definition border_index (bt : FixedBorderType) (n i : Z) : Z :=
  if i <? 0 then
    match bt with
    | REPLICATE => 0 | REFLECT => - i - 1 | WRAP => i + n | REVERSE => - i
    end
  else if n <=? i then
    match bt with
    | REPLICATE => n - 1 | REFLECT => 2 * n - 1 - i | WRAP => i - n
    | REVERSE => 2 * n - 2 - i
    end
  else i.

Lemma border_index_inside bt n i : 0 <= i < n -> border_index bt n i = i.
Proof. intros. unfold border_index. case_cmp; lia. Qed.

Lemma border_index_range bt n i :
  1 <= n -> - n < i < 2 * n - 1 -> 0 <= border_index bt n i < n.
Proof. intros. unfold border_index. destruct bt; case_cmp; lia. Qed.

(** The strategies as documented for an unbounded axis: replicate clamps, reflect
    and reverse have period [2n] and [2n-2], wrap has period [n]. *)
Definition border_index_periodic (bt : FixedBorderType) (n i : Z) : Z :=
  match bt with
  | REPLICATE => Z.max 0 (Z.min (n - 1) i)
  | REFLECT => let r := i mod (2 * n) in if r <? n then r else 2 * n - 1 - r
  | WRAP => i mod n
  | REVERSE => let r := i mod (2 * n - 2) in if r <? n then r else 2 * n - 2 - r
  end.

Lemma mod_down i n : 0 < n -> - n <= i < 0 -> i mod n = i + n.
Proof. intros. symmetry. apply (Z.mod_unique_pos _ _ (-1)); lia. Qed.

Lemma mod_up i n : 0 < n -> n <= i < 2 * n -> i mod n = i - n.
Proof. intros. symmetry. apply (Z.mod_unique_pos _ _ 1); lia. Qed.

Lemma border_index_is_periodic bt n i :
  2 <= n -> - n < i < 2 * n - 1 -> border_index bt n i = border_index_periodic bt n i.
Proof.
  intros Hn Hi. unfold border_index, border_index_periodic. destruct bt.
  - case_cmp; lia.
  - destruct (Z.ltb_spec i 0).
    + rewrite mod_down by lia. case_cmp; lia.
    + rewrite Z.mod_small by lia. case_cmp; lia.
  - destruct (Z.ltb_spec i 0); [rewrite mod_down by lia; lia|].
    destruct (Z.leb_spec n i); [rewrite mod_up by lia; lia|].
    rewrite Z.mod_small by lia. lia.
  - destruct (Z.ltb_spec i 0).
    + destruct (Z.eq_dec i (- (2 * n - 2))) as [->|]; [case_cmp; try lia|].
      * rewrite mod_down by lia. case_cmp; lia.
    + destruct (Z.eq_dec i (2 * n - 2)) as [->|].
      * rewrite Z.mod_same by lia. case_cmp; lia.
      * rewrite Z.mod_small by lia. case_cmp; lia.
Qed.

(** ** Interface of the offset tables *)

(** [FixedBorderInfo<T, S>]: its four queries, for a given extent and border
    type; each returns the [S] offsets [c0() ... c(S-1)()]. *)
Class FixedBorderInfo (S : Z) := {
  fixed_offsets_without_border : list Z;
  fixed_offsets_with_left_border : Z -> FixedBorderType -> Z -> list Z;
  fixed_offsets_with_right_border : Z -> FixedBorderType -> Z -> list Z;
  fixed_offsets_with_border : Z -> FixedBorderType -> Z -> list Z
}.

(** The offsets the [S] taps around [i] must have. *)
Definition reference_offsets (S : Z) (bt : FixedBorderType) (n i : Z) : list Z :=
  (fun j => border_index bt n (i + j - S / 2) - i) <$> seqZ 0 S.

(** What the tables promise: where the filters call them, they return the
    reference offsets. *)
Class FixedBorderLaws (S : Z) `{FixedBorderInfo S} := {
  fixed_left_ok : forall bt n i, S - 1 <= n < 2 ^ 63 -> 0 <= i < S / 2 ->
    fixed_offsets_with_left_border n bt i = reference_offsets S bt n i;
  fixed_right_ok : forall bt n i, S - 1 <= n < 2 ^ 63 -> n - S / 2 <= i < n ->
    fixed_offsets_with_right_border n bt i = reference_offsets S bt n i;
  fixed_inner_ok : forall bt n i, S - 1 <= n < 2 ^ 63 -> S / 2 <= i < n - S / 2 ->
    fixed_offsets_without_border = reference_offsets S bt n i;
  fixed_border_ok : forall bt n i, S - 1 <= n < 2 ^ 63 -> 0 <= i < n ->
    fixed_offsets_with_border n bt i = reference_offsets S bt n i
}.

(** An offset of the table addresses the reference pixel. *)
Lemma reference_offsets_lookup S bt n i j :
  0 <= j < S ->
  i + nth (Z.to_nat j) (reference_offsets S bt n i) 0 = border_index bt n (i + j - S / 2).
Proof.
  intros Hj. unfold reference_offsets.
  assert (((fun j0 => border_index bt n (i + j0 - S / 2) - i) <$> seqZ 0 S) !! Z.to_nat j =
    Some (border_index bt n (i + j - S / 2) - i)) as Hl.
  { rewrite list_lookup_fmap, lookup_seqZ_lt by lia. simpl. do 2 f_equal. f_equal. lia. }
  rewrite (nth_lookup_Some _ _ _ _ Hl). lia.
Qed.
