(* ===== verification/FixedBorders.v ===== *)
(** * The offset tables of [workspace/border_KxK.h]

    One Module per specialisation of [FixedBorderInfo<T, S>]: the tables entry by
    entry, with [get]'s conversions from [size_t] to [ptrdiff_t] written out.
    The lemmas show that every entry is the reference offset of Border; the
    instances at the end discharge the interface. *)

From S2P Require Import Prelude CTypes Border.

(** FixedBorderInfo<T, 3> of [workspace/border_3x3.h]. *)
Module Border3x3.

Definition offsets_without_border : list Z :=
  [-1; 0; 1].

Definition offsets_with_left_border (height_ : Z) (border_type_ : FixedBorderType)
    (column_index : Z) : list Z :=
  match border_type_ with
  | REPLICATE | REFLECT =>
        [0; 0; 1]
  | WRAP =>
        [to_ptrdiff (height_ ⊟ 1); 0; 1]
  | REVERSE =>
        [1; 0; 1]
  end.

Definition offsets_with_right_border (height_ : Z) (border_type_ : FixedBorderType)
    (column_index : Z) : list Z :=
  let wrap_offset := - to_ptrdiff height_ in
  match border_type_ with
  | REPLICATE | REFLECT =>
        [-1; 0; 0]
  | WRAP =>
        [-1; 0; 1 + wrap_offset]
  | REVERSE =>
        [-1; 0; -1]
  end.

Definition offsets_with_border (height_ : Z) (border_type_ : FixedBorderType)
    (row_or_column_index : Z) : list Z :=
  if row_or_column_index =? 0
  then offsets_with_left_border height_ border_type_ row_or_column_index
  else if row_or_column_index =? height_ ⊟ 1
  then offsets_with_right_border height_ border_type_ row_or_column_index
  else offsets_without_border.

End Border3x3.

(** FixedBorderInfo<T, 5> of [workspace/border_5x5.h]. *)
Module Border5x5.

Definition offsets_without_border : list Z :=
  [-2; -1; 0; 1; 2].

Definition offsets_with_left_border (height_ : Z) (border_type_ : FixedBorderType)
    (column_index : Z) : list Z :=
  match border_type_ with
  | REPLICATE =>
      if column_index =? 0 then
        [0; 0; 0; 1; 2]
      else
        [-1; -1; 0; 1; 2]
  | REFLECT =>
      if column_index =? 0 then
        [1; 0; 0; 1; 2]
      else
        [-1; -1; 0; 1; 2]
  | WRAP =>
      if column_index =? 0 then
        [to_ptrdiff (height_ ⊟ 2); to_ptrdiff (height_ ⊟ 1); 0; 1; 2]
      else
        [to_ptrdiff (height_ ⊟ 2); -1; 0; 1; 2]
  | REVERSE =>
      if column_index =? 0 then
        [2; 1; 0; 1; 2]
      else
        [0; -1; 0; 1; 2]
  end.

Definition offsets_with_right_border (height_ : Z) (border_type_ : FixedBorderType)
    (column_index : Z) : list Z :=
  let wrap_offset := - to_ptrdiff height_ in
  match border_type_ with
  | REPLICATE =>
      if column_index =? height_ ⊟ 2 then
        [-2; -1; 0; 1; 1]
      else
        [-2; -1; 0; 0; 0]
  | REFLECT =>
      if column_index =? height_ ⊟ 2 then
        [-2; -1; 0; 1; 1]
      else
        [-2; -1; 0; 0; -1]
  | WRAP =>
      if column_index =? height_ ⊟ 2 then
        [-2; -1; 0; 1; 2 + wrap_offset]
      else
        [-2; -1; 0; 1 + wrap_offset; 2 + wrap_offset]
  | REVERSE =>
      if column_index =? height_ ⊟ 2 then
        [-2; -1; 0; 1; 0]
      else
        [-2; -1; 0; -1; -2]
  end.

Definition offsets_with_border (height_ : Z) (border_type_ : FixedBorderType)
    (row_or_column_index : Z) : list Z :=
  if row_or_column_index <=? 1
  then offsets_with_left_border height_ border_type_ row_or_column_index
  else if row_or_column_index >=? height_ ⊟ 2
  then offsets_with_right_border height_ border_type_ row_or_column_index
  else offsets_without_border.

End Border5x5.

(** FixedBorderInfo<T, 7> of [workspace/border_7x7.h]. *)
Module Border7x7.

Definition offsets_without_border : list Z :=
  [-3; -2; -1; 0; 1; 2; 3].

Definition offsets_with_left_border (height_ : Z) (border_type_ : FixedBorderType)
    (column_index : Z) : list Z :=
  match border_type_ with
  | REPLICATE =>
      if column_index =? 0 then
        [0; 0; 0; 0; 1; 2; 3]
      else if column_index =? 1 then
        [-1; -1; -1; 0; 1; 2; 3]
      else
        [-2; -2; -1; 0; 1; 2; 3]
  | REFLECT =>
      if column_index =? 0 then
        [2; 1; 0; 0; 1; 2; 3]
      else if column_index =? 1 then
        [0; -1; -1; 0; 1; 2; 3]
      else
        [-2; -2; -1; 0; 1; 2; 3]
  | WRAP =>
      if column_index =? 0 then
        [to_ptrdiff (height_ ⊟ 3); to_ptrdiff (height_ ⊟ 2);
         to_ptrdiff (height_ ⊟ 1); 0; 1; 2; 3]
      else if column_index =? 1 then
        [to_ptrdiff (height_ ⊟ 3); to_ptrdiff (height_ ⊟ 2); -1; 0; 1;
         2; 3]
      else
        [to_ptrdiff (height_ ⊟ 3); -2; -1; 0; 1; 2; 3]
  | REVERSE =>
      if column_index =? 0 then
        [3; 2; 1; 0; 1; 2; 3]
      else if column_index =? 1 then
        [1; 0; -1; 0; 1; 2; 3]
      else
        [-1; -2; -1; 0; 1; 2; 3]
  end.

Definition offsets_with_right_border (height_ : Z) (border_type_ : FixedBorderType)
    (column_index : Z) : list Z :=
  let wrap_offset := - to_ptrdiff height_ in
  match border_type_ with
  | REPLICATE =>
      if column_index =? height_ ⊟ 3 then
        [-3; -2; -1; 0; 1; 2; 2]
      else if column_index =? height_ ⊟ 2 then
        [-3; -2; -1; 0; 1; 1; 1]
      else
        [-3; -2; -1; 0; 0; 0; 0]
  | REFLECT =>
      if column_index =? height_ ⊟ 3 then
        [-3; -2; -1; 0; 1; 2; 2]
      else if column_index =? height_ ⊟ 2 then
        [-3; -2; -1; 0; 1; 1; 0]
      else
        [-3; -2; -1; 0; 0; -1; -2]
  | WRAP =>
      if column_index =? height_ ⊟ 3 then
        [-3; -2; -1; 0; 1; 2; 3 + wrap_offset]
      else if column_index =? height_ ⊟ 2 then
        [-3; -2; -1; 0; 1; 2 + wrap_offset; 3 + wrap_offset]
      else
        [-3; -2; -1; 0; 1 + wrap_offset; 2 + wrap_offset;
         3 + wrap_offset]
  | REVERSE =>
      if column_index =? height_ ⊟ 3 then
        [-3; -2; -1; 0; 1; 2; 1]
      else if column_index =? height_ ⊟ 2 then
        [-3; -2; -1; 0; 1; 0; -1]
      else
        [-3; -2; -1; 0; -1; -2; -3]
  end.

Definition offsets_with_border (height_ : Z) (border_type_ : FixedBorderType)
    (row_or_column_index : Z) : list Z :=
  if row_or_column_index <=? 2
  then offsets_with_left_border height_ border_type_ row_or_column_index
  else if row_or_column_index >=? height_ ⊟ 3
  then offsets_with_right_border height_ border_type_ row_or_column_index
  else offsets_without_border.

End Border7x7.

(** FixedBorderInfo<T, 9> of [workspace/border_9x9.h]. *)
Module Border9x9.

Definition offsets_without_border : list Z :=
  [-4; -3; -2; -1; 0; 1; 2; 3; 4].

Definition offsets_with_left_border (height_ : Z) (border_type_ : FixedBorderType)
    (column_index : Z) : list Z :=
  match border_type_ with
  | REPLICATE =>
      if column_index =? 0 then
        [0; 0; 0; 0; 0; 1; 2; 3; 4]
      else if column_index =? 1 then
        [-1; -1; -1; -1; 0; 1; 2; 3; 4]
      else if column_index =? 2 then
        [-2; -2; -2; -1; 0; 1; 2; 3; 4]
      else
        [-3; -3; -2; -1; 0; 1; 2; 3; 4]
  | REFLECT =>
      if column_index =? 0 then
        [3; 2; 1; 0; 0; 1; 2; 3; 4]
      else if column_index =? 1 then
        [1; 0; -1; -1; 0; 1; 2; 3; 4]
      else if column_index =? 2 then
        [-1; -2; -2; -1; 0; 1; 2; 3; 4]
      else
        [-3; -3; -2; -1; 0; 1; 2; 3; 4]
  | WRAP =>
      if column_index =? 0 then
        [to_ptrdiff (height_ ⊟ 4); to_ptrdiff (height_ ⊟ 3);
         to_ptrdiff (height_ ⊟ 2); to_ptrdiff (height_ ⊟ 1); 0; 1; 2;
         3; 4]
      else if column_index =? 1 then
        [to_ptrdiff (height_ ⊟ 4); to_ptrdiff (height_ ⊟ 3);
         to_ptrdiff (height_ ⊟ 2); -1; 0; 1; 2; 3; 4]
      else if column_index =? 2 then
        [to_ptrdiff (height_ ⊟ 4); to_ptrdiff (height_ ⊟ 3); -2; -1; 0;
         1; 2; 3; 4]
      else
        [to_ptrdiff (height_ ⊟ 4); -3; -2; -1; 0; 1; 2; 3; 4]
  | REVERSE =>
      if column_index =? 0 then
        [4; 3; 2; 1; 0; 1; 2; 3; 4]
      else if column_index =? 1 then
        [2; 1; 0; -1; 0; 1; 2; 3; 4]
      else if column_index =? 2 then
        [0; -1; -2; -1; 0; 1; 2; 3; 4]
      else
        [-2; -3; -2; -1; 0; 1; 2; 3; 4]
  end.

Definition offsets_with_right_border (height_ : Z) (border_type_ : FixedBorderType)
    (column_index : Z) : list Z :=
  let wrap_offset := - to_ptrdiff height_ in
  match border_type_ with
  | REPLICATE =>
      if column_index =? height_ ⊟ 4 then
        [-4; -3; -2; -1; 0; 1; 2; 3; 3]
      else if column_index =? height_ ⊟ 3 then
        [-4; -3; -2; -1; 0; 1; 2; 2; 2]
      else if column_index =? height_ ⊟ 2 then
        [-4; -3; -2; -1; 0; 1; 1; 1; 1]
      else
        [-4; -3; -2; -1; 0; 0; 0; 0; 0]
  | REFLECT =>
      if column_index =? height_ ⊟ 4 then
        [-4; -3; -2; -1; 0; 1; 2; 3; 3]
      else if column_index =? height_ ⊟ 3 then
        [-4; -3; -2; -1; 0; 1; 2; 2; 1]
      else if column_index =? height_ ⊟ 2 then
        [-4; -3; -2; -1; 0; 1; 1; 0; -1]
      else
        [-4; -3; -2; -1; 0; 0; -1; -2; -3]
  | WRAP =>
      if column_index =? height_ ⊟ 4 then
        [-4; -3; -2; -1; 0; 1; 2; 3; 4 + wrap_offset]
      else if column_index =? height_ ⊟ 3 then
        [-4; -3; -2; -1; 0; 1; 2; 3 + wrap_offset; 4 + wrap_offset]
      else if column_index =? height_ ⊟ 2 then
        [-4; -3; -2; -1; 0; 1; 2 + wrap_offset; 3 + wrap_offset;
         4 + wrap_offset]
      else
        [-4; -3; -2; -1; 0; 1 + wrap_offset; 2 + wrap_offset;
         3 + wrap_offset; 4 + wrap_offset]
  | REVERSE =>
      if column_index =? height_ ⊟ 4 then
        [-4; -3; -2; -1; 0; 1; 2; 3; 2]
      else if column_index =? height_ ⊟ 3 then
        [-4; -3; -2; -1; 0; 1; 2; 1; 0]
      else if column_index =? height_ ⊟ 2 then
        [-4; -3; -2; -1; 0; 1; 0; -1; -2]
      else
        [-4; -3; -2; -1; 0; -1; -2; -3; -4]
  end.

Definition offsets_with_border (height_ : Z) (border_type_ : FixedBorderType)
    (row_or_column_index : Z) : list Z :=
  if row_or_column_index <=? 3
  then offsets_with_left_border height_ border_type_ row_or_column_index
  else if row_or_column_index >=? height_ ⊟ 4
  then offsets_with_right_border height_ border_type_ row_or_column_index
  else offsets_without_border.

End Border9x9.

(** FixedBorderInfo<T, 15> of [workspace/border_15x15.h]. *)
Module Border15x15.

Definition offsets_without_border : list Z :=
  [-7; -6; -5; -4; -3; -2; -1; 0; 1; 2; 3; 4; 5; 6; 7].

Definition offsets_with_left_border (height_ : Z) (border_type_ : FixedBorderType)
    (column_index : Z) : list Z :=
  match border_type_ with
  | REPLICATE =>
      if column_index =? 0 then
        [0; 0; 0; 0; 0; 0; 0; 0; 1; 2; 3; 4; 5; 6; 7]
      else if column_index =? 1 then
        [-1; -1; -1; -1; -1; -1; -1; 0; 1; 2; 3; 4; 5; 6; 7]
      else if column_index =? 2 then
        [-2; -2; -2; -2; -2; -2; -1; 0; 1; 2; 3; 4; 5; 6; 7]
      else if column_index =? 3 then
        [-3; -3; -3; -3; -3; -2; -1; 0; 1; 2; 3; 4; 5; 6; 7]
      else if column_index =? 4 then
        [-4; -4; -4; -4; -3; -2; -1; 0; 1; 2; 3; 4; 5; 6; 7]
      else if column_index =? 5 then
        [-5; -5; -5; -4; -3; -2; -1; 0; 1; 2; 3; 4; 5; 6; 7]
      else
        [-6; -6; -5; -4; -3; -2; -1; 0; 1; 2; 3; 4; 5; 6; 7]
  | REFLECT =>
      if column_index =? 0 then
        [6; 5; 4; 3; 2; 1; 0; 0; 1; 2; 3; 4; 5; 6; 7]
      else if column_index =? 1 then
        [4; 3; 2; 1; 0; -1; -1; 0; 1; 2; 3; 4; 5; 6; 7]
      else if column_index =? 2 then
        [2; 1; 0; -1; -2; -2; -1; 0; 1; 2; 3; 4; 5; 6; 7]
      else if column_index =? 3 then
        [0; -1; -2; -3; -3; -2; -1; 0; 1; 2; 3; 4; 5; 6; 7]
      else if column_index =? 4 then
        [-2; -3; -4; -4; -3; -2; -1; 0; 1; 2; 3; 4; 5; 6; 7]
      else if column_index =? 5 then
        [-4; -5; -5; -4; -3; -2; -1; 0; 1; 2; 3; 4; 5; 6; 7]
      else
        [-6; -6; -5; -4; -3; -2; -1; 0; 1; 2; 3; 4; 5; 6; 7]
  | WRAP =>
      if column_index =? 0 then
        [to_ptrdiff (height_ ⊟ 7); to_ptrdiff (height_ ⊟ 6);
         to_ptrdiff (height_ ⊟ 5); to_ptrdiff (height_ ⊟ 4);
         to_ptrdiff (height_ ⊟ 3); to_ptrdiff (height_ ⊟ 2);
         to_ptrdiff (height_ ⊟ 1); 0; 1; 2; 3; 4; 5; 6; 7]
      else if column_index =? 1 then
        [to_ptrdiff (height_ ⊟ 7); to_ptrdiff (height_ ⊟ 6);
         to_ptrdiff (height_ ⊟ 5); to_ptrdiff (height_ ⊟ 4);
         to_ptrdiff (height_ ⊟ 3); to_ptrdiff (height_ ⊟ 2); -1; 0; 1;
         2; 3; 4; 5; 6; 7]
      else if column_index =? 2 then
        [to_ptrdiff (height_ ⊟ 7); to_ptrdiff (height_ ⊟ 6);
         to_ptrdiff (height_ ⊟ 5); to_ptrdiff (height_ ⊟ 4);
         to_ptrdiff (height_ ⊟ 3); -2; -1; 0; 1; 2; 3; 4; 5; 6; 7]
      else if column_index =? 3 then
        [to_ptrdiff (height_ ⊟ 7); to_ptrdiff (height_ ⊟ 6);
         to_ptrdiff (height_ ⊟ 5); to_ptrdiff (height_ ⊟ 4); -3; -2;
         -1; 0; 1; 2; 3; 4; 5; 6; 7]
      else if column_index =? 4 then
        [to_ptrdiff (height_ ⊟ 7); to_ptrdiff (height_ ⊟ 6);
         to_ptrdiff (height_ ⊟ 5); -4; -3; -2; -1; 0; 1; 2; 3; 4; 5; 6;
         7]
      else if column_index =? 5 then
        [to_ptrdiff (height_ ⊟ 7); to_ptrdiff (height_ ⊟ 6); -5; -4;
         -3; -2; -1; 0; 1; 2; 3; 4; 5; 6; 7]
      else
        [to_ptrdiff (height_ ⊟ 7); -6; -5; -4; -3; -2; -1; 0; 1; 2; 3;
         4; 5; 6; 7]
  | REVERSE =>
      if column_index =? 0 then
        [7; 6; 5; 4; 3; 2; 1; 0; 1; 2; 3; 4; 5; 6; 7]
      else if column_index =? 1 then
        [5; 4; 3; 2; 1; 0; -1; 0; 1; 2; 3; 4; 5; 6; 7]
      else if column_index =? 2 then
        [3; 2; 1; 0; -1; -2; -1; 0; 1; 2; 3; 4; 5; 6; 7]
      else if column_index =? 3 then
        [1; 0; -1; -2; -3; -2; -1; 0; 1; 2; 3; 4; 5; 6; 7]
      else if column_index =? 4 then
        [-1; -2; -3; -4; -3; -2; -1; 0; 1; 2; 3; 4; 5; 6; 7]
      else if column_index =? 5 then
        [-3; -4; -5; -4; -3; -2; -1; 0; 1; 2; 3; 4; 5; 6; 7]
      else
        [-5; -6; -5; -4; -3; -2; -1; 0; 1; 2; 3; 4; 5; 6; 7]
  end.

Definition offsets_with_right_border (height_ : Z) (border_type_ : FixedBorderType)
    (column_index : Z) : list Z :=
  let wrap_offset := - to_ptrdiff height_ in
  match border_type_ with
  | REPLICATE =>
      if column_index =? height_ ⊟ 7 then
        [-7; -6; -5; -4; -3; -2; -1; 0; 1; 2; 3; 4; 5; 6; 6]
      else if column_index =? height_ ⊟ 6 then
        [-7; -6; -5; -4; -3; -2; -1; 0; 1; 2; 3; 4; 5; 5; 5]
      else if column_index =? height_ ⊟ 5 then
        [-7; -6; -5; -4; -3; -2; -1; 0; 1; 2; 3; 4; 4; 4; 4]
      else if column_index =? height_ ⊟ 4 then
        [-7; -6; -5; -4; -3; -2; -1; 0; 1; 2; 3; 3; 3; 3; 3]
      else if column_index =? height_ ⊟ 3 then
        [-7; -6; -5; -4; -3; -2; -1; 0; 1; 2; 2; 2; 2; 2; 2]
      else if column_index =? height_ ⊟ 2 then
        [-7; -6; -5; -4; -3; -2; -1; 0; 1; 1; 1; 1; 1; 1; 1]
      else
        [-7; -6; -5; -4; -3; -2; -1; 0; 0; 0; 0; 0; 0; 0; 0]
  | REFLECT =>
      if column_index =? height_ ⊟ 7 then
        [-7; -6; -5; -4; -3; -2; -1; 0; 1; 2; 3; 4; 5; 6; 6]
      else if column_index =? height_ ⊟ 6 then
        [-7; -6; -5; -4; -3; -2; -1; 0; 1; 2; 3; 4; 5; 5; 4]
      else if column_index =? height_ ⊟ 5 then
        [-7; -6; -5; -4; -3; -2; -1; 0; 1; 2; 3; 4; 4; 3; 2]
      else if column_index =? height_ ⊟ 4 then
        [-7; -6; -5; -4; -3; -2; -1; 0; 1; 2; 3; 3; 2; 1; 0]
      else if column_index =? height_ ⊟ 3 then
        [-7; -6; -5; -4; -3; -2; -1; 0; 1; 2; 2; 1; 0; -1; -2]
      else if column_index =? height_ ⊟ 2 then
        [-7; -6; -5; -4; -3; -2; -1; 0; 1; 1; 0; -1; -2; -3; -4]
      else
        [-7; -6; -5; -4; -3; -2; -1; 0; 0; -1; -2; -3; -4; -5; -6]
  | WRAP =>
      if column_index =? height_ ⊟ 7 then
        [-7; -6; -5; -4; -3; -2; -1; 0; 1; 2; 3; 4; 5; 6;
         7 + wrap_offset]
      else if column_index =? height_ ⊟ 6 then
        [-7; -6; -5; -4; -3; -2; -1; 0; 1; 2; 3; 4; 5; 6 + wrap_offset;
         7 + wrap_offset]
      else if column_index =? height_ ⊟ 5 then
        [-7; -6; -5; -4; -3; -2; -1; 0; 1; 2; 3; 4; 5 + wrap_offset;
         6 + wrap_offset; 7 + wrap_offset]
      else if column_index =? height_ ⊟ 4 then
        [-7; -6; -5; -4; -3; -2; -1; 0; 1; 2; 3; 4 + wrap_offset;
         5 + wrap_offset; 6 + wrap_offset; 7 + wrap_offset]
      else if column_index =? height_ ⊟ 3 then
        [-7; -6; -5; -4; -3; -2; -1; 0; 1; 2; 3 + wrap_offset;
         4 + wrap_offset; 5 + wrap_offset; 6 + wrap_offset;
         7 + wrap_offset]
      else if column_index =? height_ ⊟ 2 then
        [-7; -6; -5; -4; -3; -2; -1; 0; 1; 2 + wrap_offset;
         3 + wrap_offset; 4 + wrap_offset; 5 + wrap_offset;
         6 + wrap_offset; 7 + wrap_offset]
      else
        [-7; -6; -5; -4; -3; -2; -1; 0; 1 + wrap_offset;
         2 + wrap_offset; 3 + wrap_offset; 4 + wrap_offset;
         5 + wrap_offset; 6 + wrap_offset; 7 + wrap_offset]
  | REVERSE =>
      if column_index =? height_ ⊟ 7 then
        [-7; -6; -5; -4; -3; -2; -1; 0; 1; 2; 3; 4; 5; 6; 5]
      else if column_index =? height_ ⊟ 6 then
        [-7; -6; -5; -4; -3; -2; -1; 0; 1; 2; 3; 4; 5; 4; 3]
      else if column_index =? height_ ⊟ 5 then
        [-7; -6; -5; -4; -3; -2; -1; 0; 1; 2; 3; 4; 3; 2; 1]
      else if column_index =? height_ ⊟ 4 then
        [-7; -6; -5; -4; -3; -2; -1; 0; 1; 2; 3; 2; 1; 0; -1]
      else if column_index =? height_ ⊟ 3 then
        [-7; -6; -5; -4; -3; -2; -1; 0; 1; 2; 1; 0; -1; -2; -3]
      else if column_index =? height_ ⊟ 2 then
        [-7; -6; -5; -4; -3; -2; -1; 0; 1; 0; -1; -2; -3; -4; -5]
      else
        [-7; -6; -5; -4; -3; -2; -1; 0; -1; -2; -3; -4; -5; -6; -7]
  end.

Definition offsets_with_border (height_ : Z) (border_type_ : FixedBorderType)
    (row_or_column_index : Z) : list Z :=
  if row_or_column_index <=? 6
  then offsets_with_left_border height_ border_type_ row_or_column_index
  else if row_or_column_index >=? height_ ⊟ 7
  then offsets_with_right_border height_ border_type_ row_or_column_index
  else offsets_without_border.

End Border15x15.

(** FixedBorderInfo<T, 21> of [workspace/border_21x21.h]. *)
Module Border21x21.

Definition offsets_without_border : list Z :=
  [-10; -9; -8; -7; -6; -5; -4; -3; -2; -1; 0; 1; 2; 3; 4; 5; 6;
   7; 8; 9; 10].

Definition offsets_with_left_border (width_ : Z) (border_type_ : FixedBorderType)
    (column_index : Z) : list Z :=
  match border_type_ with
  | REPLICATE =>
      if column_index =? 0 then
        [0; 0; 0; 0; 0; 0; 0; 0; 0; 0; 0; 1; 2; 3; 4; 5; 6; 7; 8; 9;
         10]
      else if column_index =? 1 then
        [-1; -1; -1; -1; -1; -1; -1; -1; -1; -1; 0; 1; 2; 3; 4; 5; 6;
         7; 8; 9; 10]
      else if column_index =? 2 then
        [-2; -2; -2; -2; -2; -2; -2; -2; -2; -1; 0; 1; 2; 3; 4; 5; 6;
         7; 8; 9; 10]
      else if column_index =? 3 then
        [-3; -3; -3; -3; -3; -3; -3; -3; -2; -1; 0; 1; 2; 3; 4; 5; 6;
         7; 8; 9; 10]
      else if column_index =? 4 then
        [-4; -4; -4; -4; -4; -4; -4; -3; -2; -1; 0; 1; 2; 3; 4; 5; 6;
         7; 8; 9; 10]
      else if column_index =? 5 then
        [-5; -5; -5; -5; -5; -5; -4; -3; -2; -1; 0; 1; 2; 3; 4; 5; 6;
         7; 8; 9; 10]
      else if column_index =? 6 then
        [-6; -6; -6; -6; -6; -5; -4; -3; -2; -1; 0; 1; 2; 3; 4; 5; 6;
         7; 8; 9; 10]
      else if column_index =? 7 then
        [-7; -7; -7; -7; -6; -5; -4; -3; -2; -1; 0; 1; 2; 3; 4; 5; 6;
         7; 8; 9; 10]
      else if column_index =? 8 then
        [-8; -8; -8; -7; -6; -5; -4; -3; -2; -1; 0; 1; 2; 3; 4; 5; 6;
         7; 8; 9; 10]
      else
        [-9; -9; -8; -7; -6; -5; -4; -3; -2; -1; 0; 1; 2; 3; 4; 5; 6;
         7; 8; 9; 10]
  | REFLECT =>
      if column_index =? 0 then
        [9; 8; 7; 6; 5; 4; 3; 2; 1; 0; 0; 1; 2; 3; 4; 5; 6; 7; 8; 9;
         10]
      else if column_index =? 1 then
        [7; 6; 5; 4; 3; 2; 1; 0; -1; -1; 0; 1; 2; 3; 4; 5; 6; 7; 8; 9;
         10]
      else if column_index =? 2 then
        [5; 4; 3; 2; 1; 0; -1; -2; -2; -1; 0; 1; 2; 3; 4; 5; 6; 7; 8;
         9; 10]
      else if column_index =? 3 then
        [3; 2; 1; 0; -1; -2; -3; -3; -2; -1; 0; 1; 2; 3; 4; 5; 6; 7; 8;
         9; 10]
      else if column_index =? 4 then
        [1; 0; -1; -2; -3; -4; -4; -3; -2; -1; 0; 1; 2; 3; 4; 5; 6; 7;
         8; 9; 10]
      else if column_index =? 5 then
        [-1; -2; -3; -4; -5; -5; -4; -3; -2; -1; 0; 1; 2; 3; 4; 5; 6;
         7; 8; 9; 10]
      else if column_index =? 6 then
        [-3; -4; -5; -6; -6; -5; -4; -3; -2; -1; 0; 1; 2; 3; 4; 5; 6;
         7; 8; 9; 10]
      else if column_index =? 7 then
        [-5; -6; -7; -7; -6; -5; -4; -3; -2; -1; 0; 1; 2; 3; 4; 5; 6;
         7; 8; 9; 10]
      else if column_index =? 8 then
        [-7; -8; -8; -7; -6; -5; -4; -3; -2; -1; 0; 1; 2; 3; 4; 5; 6;
         7; 8; 9; 10]
      else
        [-9; -9; -8; -7; -6; -5; -4; -3; -2; -1; 0; 1; 2; 3; 4; 5; 6;
         7; 8; 9; 10]
  | WRAP =>
      if column_index =? 0 then
        [to_ptrdiff (width_ ⊟ 10); to_ptrdiff (width_ ⊟ 9);
         to_ptrdiff (width_ ⊟ 8); to_ptrdiff (width_ ⊟ 7);
         to_ptrdiff (width_ ⊟ 6); to_ptrdiff (width_ ⊟ 5);
         to_ptrdiff (width_ ⊟ 4); to_ptrdiff (width_ ⊟ 3);
         to_ptrdiff (width_ ⊟ 2); to_ptrdiff (width_ ⊟ 1); 0; 1; 2; 3;
         4; 5; 6; 7; 8; 9; 10]
      else if column_index =? 1 then
        [to_ptrdiff (width_ ⊟ 10); to_ptrdiff (width_ ⊟ 9);
         to_ptrdiff (width_ ⊟ 8); to_ptrdiff (width_ ⊟ 7);
         to_ptrdiff (width_ ⊟ 6); to_ptrdiff (width_ ⊟ 5);
         to_ptrdiff (width_ ⊟ 4); to_ptrdiff (width_ ⊟ 3);
         to_ptrdiff (width_ ⊟ 2); -1; 0; 1; 2; 3; 4; 5; 6; 7; 8; 9; 10]
      else if column_index =? 2 then
        [to_ptrdiff (width_ ⊟ 10); to_ptrdiff (width_ ⊟ 9);
         to_ptrdiff (width_ ⊟ 8); to_ptrdiff (width_ ⊟ 7);
         to_ptrdiff (width_ ⊟ 6); to_ptrdiff (width_ ⊟ 5);
         to_ptrdiff (width_ ⊟ 4); to_ptrdiff (width_ ⊟ 3); -2; -1; 0;
         1; 2; 3; 4; 5; 6; 7; 8; 9; 10]
      else if column_index =? 3 then
        [to_ptrdiff (width_ ⊟ 10); to_ptrdiff (width_ ⊟ 9);
         to_ptrdiff (width_ ⊟ 8); to_ptrdiff (width_ ⊟ 7);
         to_ptrdiff (width_ ⊟ 6); to_ptrdiff (width_ ⊟ 5);
         to_ptrdiff (width_ ⊟ 4); -3; -2; -1; 0; 1; 2; 3; 4; 5; 6; 7;
         8; 9; 10]
      else if column_index =? 4 then
        [to_ptrdiff (width_ ⊟ 10); to_ptrdiff (width_ ⊟ 9);
         to_ptrdiff (width_ ⊟ 8); to_ptrdiff (width_ ⊟ 7);
         to_ptrdiff (width_ ⊟ 6); to_ptrdiff (width_ ⊟ 5); -4; -3; -2;
         -1; 0; 1; 2; 3; 4; 5; 6; 7; 8; 9; 10]
      else if column_index =? 5 then
        [to_ptrdiff (width_ ⊟ 10); to_ptrdiff (width_ ⊟ 9);
         to_ptrdiff (width_ ⊟ 8); to_ptrdiff (width_ ⊟ 7);
         to_ptrdiff (width_ ⊟ 6); -5; -4; -3; -2; -1; 0; 1; 2; 3; 4; 5;
         6; 7; 8; 9; 10]
      else if column_index =? 6 then
        [to_ptrdiff (width_ ⊟ 10); to_ptrdiff (width_ ⊟ 9);
         to_ptrdiff (width_ ⊟ 8); to_ptrdiff (width_ ⊟ 7); -6; -5; -4;
         -3; -2; -1; 0; 1; 2; 3; 4; 5; 6; 7; 8; 9; 10]
      else if column_index =? 7 then
        [to_ptrdiff (width_ ⊟ 10); to_ptrdiff (width_ ⊟ 9);
         to_ptrdiff (width_ ⊟ 8); -7; -6; -5; -4; -3; -2; -1; 0; 1; 2;
         3; 4; 5; 6; 7; 8; 9; 10]
      else if column_index =? 8 then
        [to_ptrdiff (width_ ⊟ 10); to_ptrdiff (width_ ⊟ 9); -8; -7; -6;
         -5; -4; -3; -2; -1; 0; 1; 2; 3; 4; 5; 6; 7; 8; 9; 10]
      else
        [to_ptrdiff (width_ ⊟ 10); -9; -8; -7; -6; -5; -4; -3; -2; -1;
         0; 1; 2; 3; 4; 5; 6; 7; 8; 9; 10]
  | REVERSE =>
      if column_index =? 0 then
        [10; 9; 8; 7; 6; 5; 4; 3; 2; 1; 0; 1; 2; 3; 4; 5; 6; 7; 8; 9;
         10]
      else if column_index =? 1 then
        [8; 7; 6; 5; 4; 3; 2; 1; 0; -1; 0; 1; 2; 3; 4; 5; 6; 7; 8; 9;
         10]
      else if column_index =? 2 then
        [6; 5; 4; 3; 2; 1; 0; -1; -2; -1; 0; 1; 2; 3; 4; 5; 6; 7; 8; 9;
         10]
      else if column_index =? 3 then
        [4; 3; 2; 1; 0; -1; -2; -3; -2; -1; 0; 1; 2; 3; 4; 5; 6; 7; 8;
         9; 10]
      else if column_index =? 4 then
        [2; 1; 0; -1; -2; -3; -4; -3; -2; -1; 0; 1; 2; 3; 4; 5; 6; 7;
         8; 9; 10]
      else if column_index =? 5 then
        [0; -1; -2; -3; -4; -5; -4; -3; -2; -1; 0; 1; 2; 3; 4; 5; 6; 7;
         8; 9; 10]
      else if column_index =? 6 then
        [-2; -3; -4; -5; -6; -5; -4; -3; -2; -1; 0; 1; 2; 3; 4; 5; 6;
         7; 8; 9; 10]
      else if column_index =? 7 then
        [-4; -5; -6; -7; -6; -5; -4; -3; -2; -1; 0; 1; 2; 3; 4; 5; 6;
         7; 8; 9; 10]
      else if column_index =? 8 then
        [-6; -7; -8; -7; -6; -5; -4; -3; -2; -1; 0; 1; 2; 3; 4; 5; 6;
         7; 8; 9; 10]
      else
        [-8; -9; -8; -7; -6; -5; -4; -3; -2; -1; 0; 1; 2; 3; 4; 5; 6;
         7; 8; 9; 10]
  end.

Definition offsets_with_right_border (width_ : Z) (border_type_ : FixedBorderType)
    (column_index : Z) : list Z :=
  let wrap_offset := - to_ptrdiff width_ in
  match border_type_ with
  | REPLICATE =>
      if column_index =? width_ ⊟ 10 then
        [-10; -9; -8; -7; -6; -5; -4; -3; -2; -1; 0; 1; 2; 3; 4; 5; 6;
         7; 8; 9; 9]
      else if column_index =? width_ ⊟ 9 then
        [-10; -9; -8; -7; -6; -5; -4; -3; -2; -1; 0; 1; 2; 3; 4; 5; 6;
         7; 8; 8; 8]
      else if column_index =? width_ ⊟ 8 then
        [-10; -9; -8; -7; -6; -5; -4; -3; -2; -1; 0; 1; 2; 3; 4; 5; 6;
         7; 7; 7; 7]
      else if column_index =? width_ ⊟ 7 then
        [-10; -9; -8; -7; -6; -5; -4; -3; -2; -1; 0; 1; 2; 3; 4; 5; 6;
         6; 6; 6; 6]
      else if column_index =? width_ ⊟ 6 then
        [-10; -9; -8; -7; -6; -5; -4; -3; -2; -1; 0; 1; 2; 3; 4; 5; 5;
         5; 5; 5; 5]
      else if column_index =? width_ ⊟ 5 then
        [-10; -9; -8; -7; -6; -5; -4; -3; -2; -1; 0; 1; 2; 3; 4; 4; 4;
         4; 4; 4; 4]
      else if column_index =? width_ ⊟ 4 then
        [-10; -9; -8; -7; -6; -5; -4; -3; -2; -1; 0; 1; 2; 3; 3; 3; 3;
         3; 3; 3; 3]
      else if column_index =? width_ ⊟ 3 then
        [-10; -9; -8; -7; -6; -5; -4; -3; -2; -1; 0; 1; 2; 2; 2; 2; 2;
         2; 2; 2; 2]
      else if column_index =? width_ ⊟ 2 then
        [-10; -9; -8; -7; -6; -5; -4; -3; -2; -1; 0; 1; 1; 1; 1; 1; 1;
         1; 1; 1; 1]
      else
        [-10; -9; -8; -7; -6; -5; -4; -3; -2; -1; 0; 0; 0; 0; 0; 0; 0;
         0; 0; 0; 0]
  | REFLECT =>
      if column_index =? width_ ⊟ 10 then
        [-10; -9; -8; -7; -6; -5; -4; -3; -2; -1; 0; 1; 2; 3; 4; 5; 6;
         7; 8; 9; 9]
      else if column_index =? width_ ⊟ 9 then
        [-10; -9; -8; -7; -6; -5; -4; -3; -2; -1; 0; 1; 2; 3; 4; 5; 6;
         7; 8; 8; 7]
      else if column_index =? width_ ⊟ 8 then
        [-10; -9; -8; -7; -6; -5; -4; -3; -2; -1; 0; 1; 2; 3; 4; 5; 6;
         7; 7; 6; 5]
      else if column_index =? width_ ⊟ 7 then
        [-10; -9; -8; -7; -6; -5; -4; -3; -2; -1; 0; 1; 2; 3; 4; 5; 6;
         6; 5; 4; 3]
      else if column_index =? width_ ⊟ 6 then
        [-10; -9; -8; -7; -6; -5; -4; -3; -2; -1; 0; 1; 2; 3; 4; 5; 5;
         4; 3; 2; 1]
      else if column_index =? width_ ⊟ 5 then
        [-10; -9; -8; -7; -6; -5; -4; -3; -2; -1; 0; 1; 2; 3; 4; 4; 3;
         2; 1; 0; -1]
      else if column_index =? width_ ⊟ 4 then
        [-10; -9; -8; -7; -6; -5; -4; -3; -2; -1; 0; 1; 2; 3; 3; 2; 1;
         0; -1; -2; -3]
      else if column_index =? width_ ⊟ 3 then
        [-10; -9; -8; -7; -6; -5; -4; -3; -2; -1; 0; 1; 2; 2; 1; 0; -1;
         -2; -3; -4; -5]
      else if column_index =? width_ ⊟ 2 then
        [-10; -9; -8; -7; -6; -5; -4; -3; -2; -1; 0; 1; 1; 0; -1; -2;
         -3; -4; -5; -6; -7]
      else
        [-10; -9; -8; -7; -6; -5; -4; -3; -2; -1; 0; 0; -1; -2; -3; -4;
         -5; -6; -7; -8; -9]
  | WRAP =>
      if column_index =? width_ ⊟ 10 then
        [-10; -9; -8; -7; -6; -5; -4; -3; -2; -1; 0; 1; 2; 3; 4; 5; 6;
         7; 8; 9; 10 + wrap_offset]
      else if column_index =? width_ ⊟ 9 then
        [-10; -9; -8; -7; -6; -5; -4; -3; -2; -1; 0; 1; 2; 3; 4; 5; 6;
         7; 8; 9 + wrap_offset; 10 + wrap_offset]
      else if column_index =? width_ ⊟ 8 then
        [-10; -9; -8; -7; -6; -5; -4; -3; -2; -1; 0; 1; 2; 3; 4; 5; 6;
         7; 8 + wrap_offset; 9 + wrap_offset; 10 + wrap_offset]
      else if column_index =? width_ ⊟ 7 then
        [-10; -9; -8; -7; -6; -5; -4; -3; -2; -1; 0; 1; 2; 3; 4; 5; 6;
         7 + wrap_offset; 8 + wrap_offset; 9 + wrap_offset;
         10 + wrap_offset]
      else if column_index =? width_ ⊟ 6 then
        [-10; -9; -8; -7; -6; -5; -4; -3; -2; -1; 0; 1; 2; 3; 4; 5;
         6 + wrap_offset; 7 + wrap_offset; 8 + wrap_offset;
         9 + wrap_offset; 10 + wrap_offset]
      else if column_index =? width_ ⊟ 5 then
        [-10; -9; -8; -7; -6; -5; -4; -3; -2; -1; 0; 1; 2; 3; 4;
         5 + wrap_offset; 6 + wrap_offset; 7 + wrap_offset;
         8 + wrap_offset; 9 + wrap_offset; 10 + wrap_offset]
      else if column_index =? width_ ⊟ 4 then
        [-10; -9; -8; -7; -6; -5; -4; -3; -2; -1; 0; 1; 2; 3;
         4 + wrap_offset; 5 + wrap_offset; 6 + wrap_offset;
         7 + wrap_offset; 8 + wrap_offset; 9 + wrap_offset;
         10 + wrap_offset]
      else if column_index =? width_ ⊟ 3 then
        [-10; -9; -8; -7; -6; -5; -4; -3; -2; -1; 0; 1; 2;
         3 + wrap_offset; 4 + wrap_offset; 5 + wrap_offset;
         6 + wrap_offset; 7 + wrap_offset; 8 + wrap_offset;
         9 + wrap_offset; 10 + wrap_offset]
      else if column_index =? width_ ⊟ 2 then
        [-10; -9; -8; -7; -6; -5; -4; -3; -2; -1; 0; 1;
         2 + wrap_offset; 3 + wrap_offset; 4 + wrap_offset;
         5 + wrap_offset; 6 + wrap_offset; 7 + wrap_offset;
         8 + wrap_offset; 9 + wrap_offset; 10 + wrap_offset]
      else
        [-10; -9; -8; -7; -6; -5; -4; -3; -2; -1; 0; 1 + wrap_offset;
         2 + wrap_offset; 3 + wrap_offset; 4 + wrap_offset;
         5 + wrap_offset; 6 + wrap_offset; 7 + wrap_offset;
         8 + wrap_offset; 9 + wrap_offset; 10 + wrap_offset]
  | REVERSE =>
      if column_index =? width_ ⊟ 10 then
        [-10; -9; -8; -7; -6; -5; -4; -3; -2; -1; 0; 1; 2; 3; 4; 5; 6;
         7; 8; 9; 8]
      else if column_index =? width_ ⊟ 9 then
        [-10; -9; -8; -7; -6; -5; -4; -3; -2; -1; 0; 1; 2; 3; 4; 5; 6;
         7; 8; 7; 6]
      else if column_index =? width_ ⊟ 8 then
        [-10; -9; -8; -7; -6; -5; -4; -3; -2; -1; 0; 1; 2; 3; 4; 5; 6;
         7; 6; 5; 4]
      else if column_index =? width_ ⊟ 7 then
        [-10; -9; -8; -7; -6; -5; -4; -3; -2; -1; 0; 1; 2; 3; 4; 5; 6;
         5; 4; 3; 2]
      else if column_index =? width_ ⊟ 6 then
        [-10; -9; -8; -7; -6; -5; -4; -3; -2; -1; 0; 1; 2; 3; 4; 5; 4;
         3; 2; 1; 0]
      else if column_index =? width_ ⊟ 5 then
        [-10; -9; -8; -7; -6; -5; -4; -3; -2; -1; 0; 1; 2; 3; 4; 3; 2;
         1; 0; -1; -2]
      else if column_index =? width_ ⊟ 4 then
        [-10; -9; -8; -7; -6; -5; -4; -3; -2; -1; 0; 1; 2; 3; 2; 1; 0;
         -1; -2; -3; -4]
      else if column_index =? width_ ⊟ 3 then
        [-10; -9; -8; -7; -6; -5; -4; -3; -2; -1; 0; 1; 2; 1; 0; -1;
         -2; -3; -4; -5; -6]
      else if column_index =? width_ ⊟ 2 then
        [-10; -9; -8; -7; -6; -5; -4; -3; -2; -1; 0; 1; 0; -1; -2; -3;
         -4; -5; -6; -7; -8]
      else
        [-10; -9; -8; -7; -6; -5; -4; -3; -2; -1; 0; -1; -2; -3; -4;
         -5; -6; -7; -8; -9; -10]
  end.

Definition offsets_with_border (width_ : Z) (border_type_ : FixedBorderType)
    (row_or_column_index : Z) : list Z :=
  if row_or_column_index <? 10
  then offsets_with_left_border width_ border_type_ row_or_column_index
  else if row_or_column_index >=? width_ ⊟ 10
  then offsets_with_right_border width_ border_type_ row_or_column_index
  else offsets_without_border.

End Border21x21.
(** ** The tables are correct *)

Lemma cast_offset n k : 0 <= k <= n -> n < 2 ^ 63 -> to_ptrdiff (n ⊟ k) = n - k.
Proof. intros. rewrite size_sub_small by lia. apply to_ptrdiff_small. lia. Qed.

(** The reference offset of a tap, by the side of the axis it falls on. *)
Lemma border_below bt n i : i < 0 ->
  border_index bt n i =
  match bt with
  | REPLICATE => 0 | REFLECT => - i - 1 | WRAP => i + n | REVERSE => - i
  end.
Proof. intros. unfold border_index. case_cmp; lia. Qed.

Lemma border_above bt n i : 0 <= n <= i ->
  border_index bt n i =
  match bt with
  | REPLICATE => n - 1 | REFLECT => 2 * n - 1 - i | WRAP => i - n | REVERSE => 2 * n - 2 - i
  end.
Proof. intros. unfold border_index. case_cmp; lia. Qed.

Lemma eqb_from_end n a b : (n - a =? n - b) = (a =? b).
Proof. case_cmp; done || lia. Qed.

(** [tap] settles one entry, [taps] a whole row of a table. *)
Ltac tap :=
  first [ rewrite border_index_inside by lia | rewrite border_below by lia
        | rewrite border_above by lia ]; cbv beta iota; lia.
Ltac taps := repeat (apply (f_equal2 (@cons Z)); [tap|]); reflexivity.

(** Reduce a table query at a known row to the list of its entries. *)
Ltac open_row := cbn -[border_index Z.sub Z.add Z.opp seqZ Z.div]; cbv zeta beta.

Ltac open_reference S :=
  unfold reference_offsets;
  let l := eval vm_compute in (seqZ 0 S) in change (seqZ 0 S) with l;
  let h := eval vm_compute in (S / 2) in change (S / 2) with h; cbn [fmap list_fmap].

(** Enumerate [k] in [0, m), [m] a numeral. *)
Ltac enumerate k m :=
  let H := fresh in
  assert (k ∈ seqZ 0 m) as H by (apply elem_of_seqZ; lia);
  let l := eval vm_compute in (seqZ 0 m) in change (seqZ 0 m) with l in H;
  repeat (apply elem_of_cons in H as [->|H]); [..|by apply not_elem_of_nil in H].

(** The left table: row [i] is a numeral below [m]. *)
Ltac left_table S m f :=
  intros bt n i Hn Hi; unfold f; rewrite ?cast_offset by lia; open_reference S;
  enumerate i m; destruct bt; open_row; taps.

(** The right table: row [n - m + k]. *)
Ltac right_table S m f :=
  intros bt n i Hn Hi; unfold f; rewrite ?(to_ptrdiff_small n) by lia;
  rewrite ?size_sub_small by lia; open_reference S;
  let k := fresh "k" in
  pose (k := n - 1 - i); replace i with (n - (k + 1)) by lia;
  assert (0 <= k < m) as Hk by lia; clearbody k; clear Hi;
  rewrite ?eqb_from_end; enumerate k m; destruct bt; open_row; taps.

Ltac inner_table S f :=
  intros bt n i Hn Hi; unfold f; open_reference S; open_row; taps.

(** The dispatching query chooses the table that covers its index. *)
Ltac border_table f l r o :=
  intros bt n i Hn Hi; unfold f; rewrite ?size_sub_small by lia; case_cmp;
  first [apply l; lia | apply r; lia | apply o; lia].

Lemma left_3x3 bt n i : 2 <= n < 2 ^ 63 -> 0 <= i < 1 ->
  Border3x3.offsets_with_left_border n bt i = reference_offsets 3 bt n i.
Proof. revert bt n i. left_table 3 1 Border3x3.offsets_with_left_border. Qed.

Lemma right_3x3 bt n i : 2 <= n < 2 ^ 63 -> n - 1 <= i < n ->
  Border3x3.offsets_with_right_border n bt i = reference_offsets 3 bt n i.
Proof. revert bt n i. right_table 3 1 Border3x3.offsets_with_right_border. Qed.

Lemma inner_3x3 bt n i : 2 <= n < 2 ^ 63 -> 1 <= i < n - 1 ->
  Border3x3.offsets_without_border = reference_offsets 3 bt n i.
Proof. revert bt n i. inner_table 3 Border3x3.offsets_without_border. Qed.

Lemma dispatch_3x3 bt n i : 2 <= n < 2 ^ 63 -> 0 <= i < n ->
  Border3x3.offsets_with_border n bt i = reference_offsets 3 bt n i.
Proof.
  revert bt n i.
  border_table Border3x3.offsets_with_border left_3x3 right_3x3 inner_3x3.
Qed.

#[export] Instance border_info_3x3 : FixedBorderInfo 3 := {
  fixed_offsets_without_border := Border3x3.offsets_without_border;
  fixed_offsets_with_left_border := Border3x3.offsets_with_left_border;
  fixed_offsets_with_right_border := Border3x3.offsets_with_right_border;
  fixed_offsets_with_border := Border3x3.offsets_with_border
}.

#[export] Instance border_laws_3x3 : FixedBorderLaws 3 := {
  fixed_left_ok := left_3x3; fixed_right_ok := right_3x3;
  fixed_inner_ok := inner_3x3; fixed_border_ok := dispatch_3x3
}.

Lemma left_5x5 bt n i : 4 <= n < 2 ^ 63 -> 0 <= i < 2 ->
  Border5x5.offsets_with_left_border n bt i = reference_offsets 5 bt n i.
Proof. revert bt n i. left_table 5 2 Border5x5.offsets_with_left_border. Qed.

Lemma right_5x5 bt n i : 4 <= n < 2 ^ 63 -> n - 2 <= i < n ->
  Border5x5.offsets_with_right_border n bt i = reference_offsets 5 bt n i.
Proof. revert bt n i. right_table 5 2 Border5x5.offsets_with_right_border. Qed.

Lemma inner_5x5 bt n i : 4 <= n < 2 ^ 63 -> 2 <= i < n - 2 ->
  Border5x5.offsets_without_border = reference_offsets 5 bt n i.
Proof. revert bt n i. inner_table 5 Border5x5.offsets_without_border. Qed.

Lemma dispatch_5x5 bt n i : 4 <= n < 2 ^ 63 -> 0 <= i < n ->
  Border5x5.offsets_with_border n bt i = reference_offsets 5 bt n i.
Proof.
  revert bt n i.
  border_table Border5x5.offsets_with_border left_5x5 right_5x5 inner_5x5.
Qed.

#[export] Instance border_info_5x5 : FixedBorderInfo 5 := {
  fixed_offsets_without_border := Border5x5.offsets_without_border;
  fixed_offsets_with_left_border := Border5x5.offsets_with_left_border;
  fixed_offsets_with_right_border := Border5x5.offsets_with_right_border;
  fixed_offsets_with_border := Border5x5.offsets_with_border
}.

#[export] Instance border_laws_5x5 : FixedBorderLaws 5 := {
  fixed_left_ok := left_5x5; fixed_right_ok := right_5x5;
  fixed_inner_ok := inner_5x5; fixed_border_ok := dispatch_5x5
}.

Lemma left_7x7 bt n i : 6 <= n < 2 ^ 63 -> 0 <= i < 3 ->
  Border7x7.offsets_with_left_border n bt i = reference_offsets 7 bt n i.
Proof. revert bt n i. left_table 7 3 Border7x7.offsets_with_left_border. Qed.

Lemma right_7x7 bt n i : 6 <= n < 2 ^ 63 -> n - 3 <= i < n ->
  Border7x7.offsets_with_right_border n bt i = reference_offsets 7 bt n i.
Proof. revert bt n i. right_table 7 3 Border7x7.offsets_with_right_border. Qed.

Lemma inner_7x7 bt n i : 6 <= n < 2 ^ 63 -> 3 <= i < n - 3 ->
  Border7x7.offsets_without_border = reference_offsets 7 bt n i.
Proof. revert bt n i. inner_table 7 Border7x7.offsets_without_border. Qed.

Lemma dispatch_7x7 bt n i : 6 <= n < 2 ^ 63 -> 0 <= i < n ->
  Border7x7.offsets_with_border n bt i = reference_offsets 7 bt n i.
Proof.
  revert bt n i.
  border_table Border7x7.offsets_with_border left_7x7 right_7x7 inner_7x7.
Qed.

#[export] Instance border_info_7x7 : FixedBorderInfo 7 := {
  fixed_offsets_without_border := Border7x7.offsets_without_border;
  fixed_offsets_with_left_border := Border7x7.offsets_with_left_border;
  fixed_offsets_with_right_border := Border7x7.offsets_with_right_border;
  fixed_offsets_with_border := Border7x7.offsets_with_border
}.

#[export] Instance border_laws_7x7 : FixedBorderLaws 7 := {
  fixed_left_ok := left_7x7; fixed_right_ok := right_7x7;
  fixed_inner_ok := inner_7x7; fixed_border_ok := dispatch_7x7
}.

Lemma left_9x9 bt n i : 8 <= n < 2 ^ 63 -> 0 <= i < 4 ->
  Border9x9.offsets_with_left_border n bt i = reference_offsets 9 bt n i.
Proof. revert bt n i. left_table 9 4 Border9x9.offsets_with_left_border. Qed.

Lemma right_9x9 bt n i : 8 <= n < 2 ^ 63 -> n - 4 <= i < n ->
  Border9x9.offsets_with_right_border n bt i = reference_offsets 9 bt n i.
Proof. revert bt n i. right_table 9 4 Border9x9.offsets_with_right_border. Qed.

Lemma inner_9x9 bt n i : 8 <= n < 2 ^ 63 -> 4 <= i < n - 4 ->
  Border9x9.offsets_without_border = reference_offsets 9 bt n i.
Proof. revert bt n i. inner_table 9 Border9x9.offsets_without_border. Qed.

Lemma dispatch_9x9 bt n i : 8 <= n < 2 ^ 63 -> 0 <= i < n ->
  Border9x9.offsets_with_border n bt i = reference_offsets 9 bt n i.
Proof.
  revert bt n i.
  border_table Border9x9.offsets_with_border left_9x9 right_9x9 inner_9x9.
Qed.

#[export] Instance border_info_9x9 : FixedBorderInfo 9 := {
  fixed_offsets_without_border := Border9x9.offsets_without_border;
  fixed_offsets_with_left_border := Border9x9.offsets_with_left_border;
  fixed_offsets_with_right_border := Border9x9.offsets_with_right_border;
  fixed_offsets_with_border := Border9x9.offsets_with_border
}.

#[export] Instance border_laws_9x9 : FixedBorderLaws 9 := {
  fixed_left_ok := left_9x9; fixed_right_ok := right_9x9;
  fixed_inner_ok := inner_9x9; fixed_border_ok := dispatch_9x9
}.

Lemma left_15x15 bt n i : 14 <= n < 2 ^ 63 -> 0 <= i < 7 ->
  Border15x15.offsets_with_left_border n bt i = reference_offsets 15 bt n i.
Proof. revert bt n i. left_table 15 7 Border15x15.offsets_with_left_border. Qed.

Lemma right_15x15 bt n i : 14 <= n < 2 ^ 63 -> n - 7 <= i < n ->
  Border15x15.offsets_with_right_border n bt i = reference_offsets 15 bt n i.
Proof. revert bt n i. right_table 15 7 Border15x15.offsets_with_right_border. Qed.

Lemma inner_15x15 bt n i : 14 <= n < 2 ^ 63 -> 7 <= i < n - 7 ->
  Border15x15.offsets_without_border = reference_offsets 15 bt n i.
Proof. revert bt n i. inner_table 15 Border15x15.offsets_without_border. Qed.

Lemma dispatch_15x15 bt n i : 14 <= n < 2 ^ 63 -> 0 <= i < n ->
  Border15x15.offsets_with_border n bt i = reference_offsets 15 bt n i.
Proof.
  revert bt n i.
  border_table Border15x15.offsets_with_border left_15x15 right_15x15 inner_15x15.
Qed.

#[export] Instance border_info_15x15 : FixedBorderInfo 15 := {
  fixed_offsets_without_border := Border15x15.offsets_without_border;
  fixed_offsets_with_left_border := Border15x15.offsets_with_left_border;
  fixed_offsets_with_right_border := Border15x15.offsets_with_right_border;
  fixed_offsets_with_border := Border15x15.offsets_with_border
}.

#[export] Instance border_laws_15x15 : FixedBorderLaws 15 := {
  fixed_left_ok := left_15x15; fixed_right_ok := right_15x15;
  fixed_inner_ok := inner_15x15; fixed_border_ok := dispatch_15x15
}.

Lemma left_21x21 bt n i : 20 <= n < 2 ^ 63 -> 0 <= i < 10 ->
  Border21x21.offsets_with_left_border n bt i = reference_offsets 21 bt n i.
Proof. revert bt n i. left_table 21 10 Border21x21.offsets_with_left_border. Qed.

Lemma right_21x21 bt n i : 20 <= n < 2 ^ 63 -> n - 10 <= i < n ->
  Border21x21.offsets_with_right_border n bt i = reference_offsets 21 bt n i.
Proof. revert bt n i. right_table 21 10 Border21x21.offsets_with_right_border. Qed.

Lemma inner_21x21 bt n i : 20 <= n < 2 ^ 63 -> 10 <= i < n - 10 ->
  Border21x21.offsets_without_border = reference_offsets 21 bt n i.
Proof. revert bt n i. inner_table 21 Border21x21.offsets_without_border. Qed.

Lemma dispatch_21x21 bt n i : 20 <= n < 2 ^ 63 -> 0 <= i < n ->
  Border21x21.offsets_with_border n bt i = reference_offsets 21 bt n i.
Proof.
  revert bt n i.
  border_table Border21x21.offsets_with_border left_21x21 right_21x21 inner_21x21.
Qed.

#[export] Instance border_info_21x21 : FixedBorderInfo 21 := {
  fixed_offsets_without_border := Border21x21.offsets_without_border;
  fixed_offsets_with_left_border := Border21x21.offsets_with_left_border;
  fixed_offsets_with_right_border := Border21x21.offsets_with_right_border;
  fixed_offsets_with_border := Border21x21.offsets_with_border
}.

#[export] Instance border_laws_21x21 : FixedBorderLaws 21 := {
  fixed_left_ok := left_21x21; fixed_right_ok := right_21x21;
  fixed_inner_ok := inner_21x21; fixed_border_ok := dispatch_21x21
}.

(** The filter sizes the library has tables for. *)
Inductive fixed_size := K3 | K5 | K7 | K9 | K15 | K21.

Definition size_of (k : fixed_size) : Z :=
  match k with K3 => 3 | K5 => 5 | K7 => 7 | K9 => 9 | K15 => 15 | K21 => 21 end.

#[export] Instance border_info_of k : FixedBorderInfo (size_of k) :=
  match k with
  | K3 => border_info_3x3 | K5 => border_info_5x5 | K7 => border_info_7x7
  | K9 => border_info_9x9 | K15 => border_info_15x15 | K21 => border_info_21x21
  end.

#[export] Instance border_laws_of k : FixedBorderLaws (size_of k).
Proof. destruct k; simpl; apply _. Defined.

(** For every filter size, border type and image extent the filters accept, and
    every row or column of the image, tap [j] of the offset table addresses the
    pixel the border type documents for position [i + j - S/2] (clamped,
    mirrored with or without the edge pixel, or periodic), and that pixel lies
    inside the image. *)
Theorem fixed_border_offsets_correct k bt n i j :
  size_of k - 1 <= n < 2 ^ 63 -> 0 <= i < n -> 0 <= j < size_of k ->
  let tap := i + nth (Z.to_nat j) (fixed_offsets_with_border (S := size_of k) n bt i) 0 in
  tap = border_index_periodic bt n (i + j - size_of k / 2) /\ 0 <= tap < n.
Proof.
  intros Hn Hi Hj tap. unfold tap. rewrite fixed_border_ok by done.
  rewrite reference_offsets_lookup by done.
  assert (- n < i + j - size_of k / 2 < 2 * n - 1 /\ 2 <= n) as [Hr Hn2]
    by (destruct k; simpl in *; mod_lia).
  split; [by apply border_index_is_periodic|]. apply border_index_range; lia.
Qed.

Lemma fixed_border_offsets_correct_witness :
  let tap := 1 + nth (Z.to_nat 0)
    (fixed_offsets_with_border (S := size_of K7) 10 REVERSE 1) 0 in
  tap = border_index_periodic REVERSE 10 (1 + 0 - size_of K7 / 2) /\ 0 <= tap < 10.
Proof. apply (fixed_border_offsets_correct K7 REVERSE 10 1 0); simpl; lia. Defined.
