(* ===== verification/Filter2D.v ===== *)
(** * Two-dimensional filters with fixed borders

    [process_filter_2d.h], [filter_2d_neon.h] and the window loaders.  An image is
    a store of cells [(row, element)]; element [e] of a row is channel
    [e mod channels] of pixel [e / channels].  A [Rows] view at
    [src_rows.at(v, h)] is the pair [v, h]; [at(r, c)[index]] is the cell
    [(v + r, (h + c) * channels + index)].  The inner filter (scalar and vector
    paths) is a parameter with the law that each vector lane is the scalar path of
    that lane. *)

From S2P Require Import Prelude CTypes Loops Border FixedBorders.
Import Unroll2.

(** ** Window loaders *)

(** [BorderOffsets::c0() ... ]: the [k]th offset. *)
Definition c (offsets : list Z) (k : nat) : Z := nth k offsets 0.

(** A loader reads, through [at_ row_offset col_offset], the cells of the window
    in row-major order. *)
Definition loader (A : Type) : Type := (Z -> Z -> A) -> list Z -> list Z -> list A.

Definition load_window_3x3 {A} : loader A := fun at_ row_offsets col_offsets =>
  let r := c row_offsets in let q := c col_offsets in
  [at_ (r 0) (q 0); at_ (r 0) (q 1); at_ (r 0) (q 2);
   at_ (r 1) (q 0); at_ (r 1) (q 1); at_ (r 1) (q 2);
   at_ (r 2) (q 0); at_ (r 2) (q 1); at_ (r 2) (q 2)]%nat.

Definition load_window_5x5 {A} : loader A := fun at_ row_offsets col_offsets =>
  let r := c row_offsets in let q := c col_offsets in
  [at_ (r 0) (q 0); at_ (r 0) (q 1); at_ (r 0) (q 2); at_ (r 0) (q 3); at_ (r 0) (q 4);
   at_ (r 1) (q 0); at_ (r 1) (q 1); at_ (r 1) (q 2); at_ (r 1) (q 3); at_ (r 1) (q 4);
   at_ (r 2) (q 0); at_ (r 2) (q 1); at_ (r 2) (q 2); at_ (r 2) (q 3); at_ (r 2) (q 4);
   at_ (r 3) (q 0); at_ (r 3) (q 1); at_ (r 3) (q 2); at_ (r 3) (q 3); at_ (r 3) (q 4);
   at_ (r 4) (q 0); at_ (r 4) (q 1); at_ (r 4) (q 2); at_ (r 4) (q 3); at_ (r 4) (q 4)]%nat.

Definition load_window_7x7 {A} : loader A := fun at_ row_offsets col_offsets =>
  let r := c row_offsets in let q := c col_offsets in
  [at_ (r 0) (q 0); at_ (r 0) (q 1); at_ (r 0) (q 2); at_ (r 0) (q 3); at_ (r 0) (q 4);
   at_ (r 0) (q 5); at_ (r 0) (q 6);
   at_ (r 1) (q 0); at_ (r 1) (q 1); at_ (r 1) (q 2); at_ (r 1) (q 3); at_ (r 1) (q 4);
   at_ (r 1) (q 5); at_ (r 1) (q 6);
   at_ (r 2) (q 0); at_ (r 2) (q 1); at_ (r 2) (q 2); at_ (r 2) (q 3); at_ (r 2) (q 4);
   at_ (r 2) (q 5); at_ (r 2) (q 6);
   at_ (r 3) (q 0); at_ (r 3) (q 1); at_ (r 3) (q 2); at_ (r 3) (q 3); at_ (r 3) (q 4);
   at_ (r 3) (q 5); at_ (r 3) (q 6);
   at_ (r 4) (q 0); at_ (r 4) (q 1); at_ (r 4) (q 2); at_ (r 4) (q 3); at_ (r 4) (q 4);
   at_ (r 4) (q 5); at_ (r 4) (q 6);
   at_ (r 5) (q 0); at_ (r 5) (q 1); at_ (r 5) (q 2); at_ (r 5) (q 3); at_ (r 5) (q 4);
   at_ (r 5) (q 5); at_ (r 5) (q 6);
   at_ (r 6) (q 0); at_ (r 6) (q 1); at_ (r 6) (q 2); at_ (r 6) (q 3); at_ (r 6) (q 4);
   at_ (r 6) (q 5); at_ (r 6) (q 6)]%nat.

(** The rows of a dual window: three from the upper pixel, and the row below the
    lower pixel, whose offsets are relative to the next row. *)
Definition load_window_to_handle_dual_rows {A} (at_ : Z -> Z -> A)
    (row_offsets_0 row_offsets_1 col_offsets : list Z) : list A :=
  let q := c col_offsets in
  load_window_3x3 at_ row_offsets_0 col_offsets ++
  [at_ (c row_offsets_1 2 + 1) (q 0%nat); at_ (c row_offsets_1 2 + 1) (q 1%nat);
   at_ (c row_offsets_1 2 + 1) (q 2%nat)].

(** Every loader is the product of the two offset lists. *)
Definition product_window {A} : loader A := fun at_ row_offsets col_offsets =>
  flat_map (fun r => map (fun q => at_ r q) col_offsets) row_offsets.

Lemma load_window_3x3_product {A} (at_ : Z -> Z -> A) ro co :
  length ro = 3%nat -> length co = 3%nat -> load_window_3x3 at_ ro co = product_window at_ ro co.
Proof.
  intros Hr Hc. destruct ro as [|? [|? [|? [|? ?]]]]; try discriminate Hr.
  destruct co as [|? [|? [|? [|? ?]]]]; try discriminate Hc. reflexivity.
Qed.

Lemma load_window_5x5_product {A} (at_ : Z -> Z -> A) ro co :
  length ro = 5%nat -> length co = 5%nat -> load_window_5x5 at_ ro co = product_window at_ ro co.
Proof.
  intros Hr Hc. do 6 (destruct ro as [|? ro]; try discriminate Hr).
  do 6 (destruct co as [|? co]; try discriminate Hc). reflexivity.
Qed.

Lemma load_window_7x7_product {A} (at_ : Z -> Z -> A) ro co :
  length ro = 7%nat -> length co = 7%nat -> load_window_7x7 at_ ro co = product_window at_ ro co.
Proof.
  intros Hr Hc. do 8 (destruct ro as [|? ro]; try discriminate Hr).
  do 8 (destruct co as [|? co]; try discriminate Hc). reflexivity.
Qed.

(** ** Inner filters *)

(** [InnerFilterType]: the scalar and vector paths on a loaded window. *)
Record InnerFilter (S D : Type) := {
  scalar_path : list S -> D;
  vector_path : list (list S) -> list D;
  scalar_path_for_dual_row_handling : list S -> D * D;
  vector_path_for_dual_row_handling : list (list S) -> list D * list D
}.
Arguments scalar_path {S D} _ _.
Arguments vector_path {S D} _ _.
Arguments scalar_path_for_dual_row_handling {S D} _ _.
Arguments vector_path_for_dual_row_handling {S D} _ _.

(** The law of an inner filter on vectors of [n] lanes and windows of [size]
    cells. *)
Definition lanes_agree {S D} `{Inhabited S, Inhabited D} (F : InnerFilter S D)
    (n size : Z) : Prop :=
  forall vs i, length vs = Z.to_nat size -> Forall (fun v => length v = Z.to_nat n) vs ->
    (i < Z.to_nat n)%nat -> vector_path F vs !!! i = scalar_path F (lane i vs).

(** ** Steps that write a part of the image *)

Section writes.
Context {D : Type} {g : Z * Z -> D}.
Implicit Types (dst : Z * Z -> D).

(** The cells a step writes, all with the value of [g]. *)
Definition writes_value (P : Z * Z -> bool) dst dst' : Prop :=
  forall a, dst' a = if P a then g a else dst a.

Definition row_part (y lo hi : Z) (a : Z * Z) : bool :=
  (a.1 =? y) && (lo <=? a.2) && (a.2 <? hi).

Lemma writes_ext P Q dst dst' : (forall a, P a = Q a) -> writes_value P dst dst' -> writes_value Q dst dst'.
Proof. intros HPQ HP a. by rewrite <- HPQ. Qed.

Lemma writes_seq P Q dst1 dst2 dst3 :
  writes_value P dst1 dst2 -> writes_value Q dst2 dst3 -> writes_value (fun a => P a || Q a) dst1 dst3.
Proof. intros HP HQ a. rewrite HQ, HP. by destruct (P a), (Q a). Qed.

(** Consecutive parts of a row. *)
Lemma row_part_loop y lo step k (body : Z -> (Z * Z -> D) -> Z * Z -> D) dst :
  0 <= k -> 0 <= step ->
  (forall i dst, 0 <= i < k ->
    writes_value (row_part y (lo + i * step) (lo + (i + 1) * step)) dst (body i dst)) ->
  writes_value (row_part y lo (lo + k * step)) dst (for_range 0 k body dst).
Proof.
  intros Hk Hst Hb.
  refine (for_range_ind (fun i d => writes_value (row_part y lo (lo + i * step)) dst d) 0 k _ _ Hk _ _).
  - intros a. unfold row_part. case_cmp; simpl; done || lia.
  - intros i d Hi IH. eapply writes_ext; [|exact (writes_seq _ _ _ _ _ IH (Hb i d ltac:(lia)))].
    intros [r e]. unfold row_part. simpl. assert (0 <= i * step) by nia.
    replace ((i + 1) * step) with (i * step + step) by lia.
    case_cmp; simpl; done || lia.
Qed.
End writes.
Arguments writes_value {D} g P dst dst'.

(** ** The filter *)

Section filter.
Context {S D : Type} `{Inhabited S, Inhabited D}.
Context (K : Z) {HI : FixedBorderInfo K} {HL : FixedBorderLaws K}.
Context (load_window : forall A, loader A) (F : InnerFilter S D) (num_lanes : Z).
Context (channels width height : Z) (border_type : FixedBorderType).
Context (src : Z * Z -> S).
Implicit Types (dst : Z * Z -> D).

Definition kMargin : Z := K / 2.

(** [load_array_element(src_rows.at(r, q)[index])] for the view at [v, h]. *)
Definition at_index {A} (load : Z * Z -> A) (v h index : Z) (r q : Z) : A :=
  load (v + r, (h + q) * channels + index).

(** [vld1q] and [vst1q]. *)
Definition vld1q (a : Z * Z) : list S := map (fun j => src (a.1, a.2 + j)) (seqZ 0 num_lanes).
Definition vst1q (a : Z * Z) (v : list D) dst : Z * Z -> D :=
  for_range 0 num_lanes (fun j dst => upd dst (a.1, a.2 + j) (v !!! Z.to_nat j)) dst.

Definition process_one_element_with_horizontal_borders (v h : Z)
    (window_row_offsets window_col_offsets : list Z) (index : Z) dst : Z * Z -> D :=
  upd dst (v, h * channels + index)
    (scalar_path F (load_window _ (at_index src v h index) window_row_offsets window_col_offsets)).

Definition process_one_pixel_with_horizontal_borders (v h : Z)
    (window_row_offsets window_col_offsets : list Z) dst : Z * Z -> D :=
  for_range 0 channels
    (process_one_element_with_horizontal_borders v h window_row_offsets window_col_offsets) dst.

Definition process_pixels_without_horizontal_borders (pixels v h : Z)
    (window_row_offsets window_col_offsets : list Z) dst : option (Z * Z -> D) :=
  match once_tail true (pixels ⊠ channels) num_lanes
    (fun index => vst1q (v, h * channels + index)
      (vector_path F
        (load_window _ (at_index vld1q v h index) window_row_offsets window_col_offsets)))
    (process_one_element_with_horizontal_borders v h window_row_offsets window_col_offsets)
    dst
  with Some (_, dst) => Some dst | None => None end.

(** The body of the row loop of [process_filter2d]. *)
Definition process_filter2d_row (vertical_index : Z) dst : option (Z * Z -> D) :=
  let vertical_offsets := fixed_offsets_with_border height border_type vertical_index in
  let dst := for_range 0 kMargin (fun horizontal_index =>
    let horizontal_offsets := fixed_offsets_with_left_border width border_type horizontal_index in
    process_one_pixel_with_horizontal_borders vertical_index horizontal_index
      vertical_offsets horizontal_offsets) dst in
  let width_without_borders := width ⊟ 2 * kMargin in
  let horizontal_offsets := fixed_offsets_without_border in
  match process_pixels_without_horizontal_borders width_without_borders vertical_index kMargin
    vertical_offsets horizontal_offsets dst with
  | None => None
  | Some dst => Some (for_range 0 kMargin (fun horizontal_index =>
      let index := width ⊟ kMargin ⊞ horizontal_index in
      let horizontal_offsets := fixed_offsets_with_right_border width border_type index in
      process_one_pixel_with_horizontal_borders vertical_index index
        vertical_offsets horizontal_offsets) dst)
  end.

Definition process_filter2d (y_begin y_end : Z) dst : option (Z * Z -> D) :=
  for_range y_begin y_end (fun vertical_index r =>
    match r with Some dst => process_filter2d_row vertical_index dst | None => None end)
    (Some dst).

(** ** Reference *)

(** The window of element [e] of row [y]: the pixels the border type documents. *)
Definition reference_window {A} (load : Z * Z -> A) (y e : Z) : list A :=
  flat_map (fun r => map (fun q =>
    load (border_index border_type height (y + r - K / 2),
          border_index border_type width (e / channels + q - K / 2) * channels
            + e mod channels)) (seqZ 0 K)) (seqZ 0 K).

Definition reference (a : Z * Z) : D := scalar_path F (reference_window src a.1 a.2).

Local Abbreviation writes := (writes_value reference).

(** ** Correctness *)

Hypothesis window_product : forall A (at_ : Z -> Z -> A) ro co,
  length ro = Z.to_nat K -> length co = Z.to_nat K ->
  load_window A at_ ro co = product_window at_ ro co.
Hypothesis filter_lanes : lanes_agree F num_lanes (K * K).
Hypothesis lanes_range : 1 <= num_lanes < 2 ^ 62.
Hypothesis channels_pos : 1 <= channels.
Hypothesis odd_size : K = 2 * kMargin + 1 /\ 1 <= kMargin.
Hypothesis width_range : K - 1 <= width < 2 ^ 63.
Hypothesis height_range : K - 1 <= height < 2 ^ 63.
Hypothesis row_range : width * channels < 2 ^ 62.

Lemma length_reference_offsets bt n i : length (reference_offsets K bt n i) = Z.to_nat K.
Proof. unfold reference_offsets. by rewrite length_fmap, length_seqZ. Qed.

(** When the column offsets lead to the right elements, the loader loads the
    reference window. *)
Lemma loaded_window {A} (load : Z * Z -> A) v h index e col_offsets :
  length col_offsets = Z.to_nat K ->
  (forall q, 0 <= q < K -> (h + nth (Z.to_nat q) col_offsets 0) * channels + index =
    border_index border_type width (e / channels + q - K / 2) * channels + e mod channels) ->
  load_window _ (at_index load v h index) (reference_offsets K border_type height v) col_offsets =
  reference_window load v e.
Proof.
  intros Hlen Hcol. rewrite window_product by (rewrite ?length_reference_offsets; done).
  unfold product_window, reference_window, reference_offsets.
  rewrite !flat_map_concat_map, map_map. f_equal. apply map_ext_in. intros r _.
  assert (col_offsets = map (fun q => nth (Z.to_nat q) col_offsets 0) (seqZ 0 K)) as Hco.
  { apply list_eq_same_length with (Z.to_nat K); [by rewrite length_map, length_seqZ|done|].
    intros i x y Hi Hx Hy. rewrite list_lookup_fmap, lookup_seqZ_lt in Hy by lia.
    injection Hy as <-. replace (Z.to_nat (0 + Z.of_nat i)) with i by lia.
    symmetry. by apply nth_lookup_Some. }
  rewrite Hco at 1. rewrite map_map. apply map_ext_in. intros q Hq%list_elem_of_In%elem_of_seqZ.
  unfold at_index. rewrite Hcol by lia. f_equal. f_equal. lia.
Qed.

(** The two kinds of columns: at a pixel [x] with the offsets of [x], and in bulk
    from [kMargin] with the border-free offsets. *)
Lemma pixel_columns x index q :
  0 <= x < width -> 0 <= index < channels -> 0 <= q < K ->
  let e := x * channels + index in
  (x + nth (Z.to_nat q) (reference_offsets K border_type width x) 0) * channels + index =
  border_index border_type width (e / channels + q - K / 2) * channels + e mod channels.
Proof.
  intros Hx Hi Hq e. rewrite reference_offsets_lookup by done. unfold e.
  rewrite Z.div_add_l, (Z.div_small index), Z.add_0_r by lia.
  rewrite (Z.add_comm (x * channels)), Z.mod_add, (Z.mod_small index) by lia. lia.
Qed.

Lemma bulk_columns index q :
  0 <= index < (width - 2 * kMargin) * channels -> 0 <= q < K ->
  let e := kMargin * channels + index in
  (kMargin + nth (Z.to_nat q) fixed_offsets_without_border 0) * channels + index =
  border_index border_type width (e / channels + q - K / 2) * channels + e mod channels.
Proof.
  intros Hi Hq e. fold kMargin in *.
  assert (kMargin < width - kMargin) as Hwide by nia.
  rewrite (fixed_inner_ok border_type width kMargin) by (unfold kMargin in *; lia).
  rewrite reference_offsets_lookup by done. fold kMargin.
  assert (e / channels = kMargin + index / channels) as He
    by (unfold e; rewrite Z.div_add_l by lia; done).
  assert (e mod channels = index mod channels) as Hm
    by (unfold e; rewrite Z.add_comm, Z.mod_add by lia; done).
  pose proof (Z.div_mod index channels ltac:(lia)) as Hdm.
  pose proof (Z.mod_pos_bound index channels ltac:(lia)).
  assert (0 <= index / channels < width - 2 * kMargin) as Hx.
  { split; [apply Z.div_pos; lia|]. apply Z.div_lt_upper_bound; lia. }
  rewrite He, Hm, !border_index_inside by lia. nia.
Qed.

(** One element. *)
Lemma element_writes v h index e col_offsets dst :
  e = h * channels + index -> length col_offsets = Z.to_nat K ->
  (forall q, 0 <= q < K -> (h + nth (Z.to_nat q) col_offsets 0) * channels + index =
    border_index border_type width (e / channels + q - K / 2) * channels + e mod channels) ->
  writes (row_part v e (e + 1)) dst
    (process_one_element_with_horizontal_borders v h
      (reference_offsets K border_type height v) col_offsets index dst).
Proof.
  intros He Hlen Hcol [r e']. unfold process_one_element_with_horizontal_borders, row_part.
  rewrite (loaded_window src v h index e) by done. rewrite <- He.
  unfold upd. case_decide as Hd.
  - injection Hd as -> ->. simpl. case_cmp; simpl; done || lia.
  - simpl. case_cmp; simpl; try done. exfalso. apply Hd. f_equal; lia.
Qed.

(** One pixel, all its channels. *)
Lemma pixel_writes v x col_offsets dst :
  0 <= x < width -> col_offsets = reference_offsets K border_type width x ->
  writes (row_part v (x * channels) ((x + 1) * channels)) dst
    (process_one_pixel_with_horizontal_borders v x
      (reference_offsets K border_type height v) col_offsets dst).
Proof.
  intros Hx ->. unfold process_one_pixel_with_horizontal_borders.
  replace ((x + 1) * channels) with (x * channels + channels * 1) by lia.
  apply row_part_loop; try lia. intros i d Hi.
  replace (x * channels + (i + 1) * 1) with (x * channels + i * 1 + 1) by lia.
  apply element_writes; [lia|apply length_reference_offsets|].
  intros q Hq. replace (x * channels + i * 1) with (x * channels + i) by lia.
  by apply pixel_columns.
Qed.

(** A vector store writes its lanes. *)
Lemma vst1q_lanes r lo (vec : list D) dst a :
  vst1q (r, lo) vec dst a =
  if row_part r lo (lo + num_lanes) a then vec !!! Z.to_nat (a.2 - lo) else dst a.
Proof.
  unfold vst1q. assert (0 <= num_lanes) as Hn by lia.
  refine (for_range_ind (fun i (d : Z * Z -> D) => d a =
    if row_part r lo (lo + i) a then vec !!! Z.to_nat (a.2 - lo) else dst a) 0 num_lanes _ _ Hn _ _).
  - unfold row_part. case_cmp; simpl; done || lia.
  - intros i d Hi IH. unfold upd. destruct a as [y e]. simpl in *. case_decide as Hd.
    + injection Hd as -> ->. unfold row_part. simpl. case_cmp; simpl; try lia.
      f_equal. lia.
    + rewrite IH. unfold row_part. simpl. case_cmp; simpl; try done; try lia.
      exfalso. apply Hd. f_equal; lia.
Qed.

(** The lanes of a loaded vector window are the windows of the elements. *)
Lemma lane_of_window v h index ro co i :
  (i < Z.to_nat num_lanes)%nat -> length ro = Z.to_nat K -> length co = Z.to_nat K ->
  lane i (load_window _ (at_index vld1q v h index) ro co) =
  load_window _ (at_index src v h (index + Z.of_nat i)) ro co.
Proof.
  intros Hi Hr Hc. rewrite !window_product by done. unfold product_window, lane.
  rewrite !flat_map_concat_map, concat_map, map_map. f_equal. apply map_ext. intros r.
  rewrite map_map. apply map_ext. intros q. unfold at_index, vld1q. simpl.
  apply list_lookup_total_correct.
  rewrite list_lookup_fmap, lookup_seqZ_lt by lia. simpl. do 2 f_equal. f_equal. lia.
Qed.

Lemma window_Forall {A} (P : A -> Prop) (at_ : Z -> Z -> A) ro co :
  (forall r q, P (at_ r q)) ->
  length (product_window at_ ro co) = (length ro * length co)%nat /\
  Forall P (product_window at_ ro co).
Proof.
  intros HP. unfold product_window. induction ro as [|r ro [IHl IHf]]; [by split|].
  simpl. rewrite length_app, length_map, IHl. split; [lia|].
  apply Forall_app. split; [|done]. apply Forall_fmap, Forall_true. intros q. apply HP.
Qed.

(** The elements of the bulk loop, seen from the store. *)
Definition bulk_index (v : Z) (a : Z * Z) : option Z :=
  if a.1 =? v then Some (a.2 - kMargin * channels) else None.

Lemma bulk_window v lo hi a :
  in_window (bulk_index v) lo hi a = row_part v (kMargin * channels + lo) (kMargin * channels + hi) a.
Proof.
  unfold in_window, bulk_index, row_part. destruct (Z.eqb_spec a.1 v); [|done].
  simpl. case_cmp; done || lia.
Qed.

(** The vector body writes the reference to its window. *)
Lemma vector_body_writes v index dst :
  0 <= index -> index + num_lanes <= (width - 2 * kMargin) * channels ->
  writes (row_part v (kMargin * channels + index) (kMargin * channels + (index + num_lanes))) dst
    (vst1q (v, kMargin * channels + index)
      (vector_path F (load_window _ (at_index vld1q v kMargin index)
        (reference_offsets K border_type height v) fixed_offsets_without_border)) dst).
Proof.
  intros Hi Hend a. rewrite vst1q_lanes.
  replace (kMargin * channels + (index + num_lanes))
    with (kMargin * channels + index + num_lanes) by lia.
  destruct (row_part v _ _ a) eqn:Ha; [|done]. unfold row_part in Ha.
  assert (v = a.1 /\ kMargin * channels + index <= a.2 < kMargin * channels + index + num_lanes)
    as [Hv He] by (revert Ha; case_cmp; done || lia).
  set (i := Z.to_nat (a.2 - (kMargin * channels + index))).
  assert (kMargin < width - kMargin) as Hwide by nia.
  pose proof (fixed_inner_ok (S := K) border_type width kMargin ltac:(lia) ltac:(unfold kMargin in *; lia))
    as Hinner.
  assert (length (fixed_offsets_without_border (S := K)) = Z.to_nat K) as Hlen
    by (rewrite Hinner; apply length_reference_offsets).
  destruct (window_Forall (fun w => length w = Z.to_nat num_lanes) (at_index vld1q v kMargin index)
    (reference_offsets K border_type height v) fixed_offsets_without_border) as [Hwl Hwf].
  { intros r q. unfold at_index, vld1q. by rewrite length_map, length_seqZ. }
  rewrite <- window_product in Hwl, Hwf by (rewrite ?length_reference_offsets; done).
  rewrite filter_lanes; [|rewrite Hwl, length_reference_offsets, Hlen; lia|done|subst i; lia].
  rewrite lane_of_window by (rewrite ?length_reference_offsets; done || (subst i; lia)).
  unfold reference. f_equal. rewrite <- Hv. apply loaded_window; [done|]. intros q Hq.
  replace a.2 with (kMargin * channels + (index + Z.of_nat i)) by (subst i; lia).
  apply bulk_columns; [subst i; lia|done].
Qed.

(** The bulk loop terminates and fills the columns between the margins. *)
Lemma bulk_writes v dst :
  exists dst', process_pixels_without_horizontal_borders (width - 2 * kMargin) v kMargin
      (reference_offsets K border_type height v) fixed_offsets_without_border dst = Some dst' /\
    writes (row_part v (kMargin * channels) ((width - kMargin) * channels)) dst dst'.
Proof.
  unfold process_pixels_without_horizontal_borders.
  set (len := (width - 2 * kMargin) * channels).
  assert (0 <= len < 2 ^ 62) as Hlen by (subst len; nia).
  rewrite size_mul_small by lia. fold len.
  destruct (once_tail_fills (bulk_index v) reference true len num_lanes
    (fun index => vst1q (v, kMargin * channels + index) (vector_path F
      (load_window _ (at_index vld1q v kMargin index)
        (reference_offsets K border_type height v) fixed_offsets_without_border)))
    (process_one_element_with_horizontal_borders v kMargin
      (reference_offsets K border_type height v) fixed_offsets_without_border) dst)
    as (l & dst' & Heq & Hf).
  - lia.
  - unfold is_size. lia.
  - intros i f a Hi Hend. rewrite bulk_window. by apply vector_body_writes.
  - intros i f a Hi Hend. rewrite bulk_window. rewrite Z.add_assoc. unfold len in Hend.
    apply element_writes; [done| |intros q Hq; apply bulk_columns; lia].
    assert (kMargin < width - kMargin) as Hwide by nia.
    rewrite (fixed_inner_ok (S := K) border_type width kMargin)
      by (unfold kMargin in *; lia). apply length_reference_offsets.
  - rewrite Heq. exists dst'. split; [done|]. intros a.
    rewrite (Hf a), bulk_window. unfold len. rewrite Z.add_0_r.
    by replace (kMargin * channels + (width - 2 * kMargin) * channels)
      with ((width - kMargin) * channels) by lia.
Qed.

(** The margins, pixel by pixel. *)
Lemma margin_writes v x0 (offsets : Z -> list Z) dst :
  0 <= x0 -> x0 + kMargin <= width ->
  (forall i, 0 <= i < kMargin -> offsets i = reference_offsets K border_type width (x0 + i)) ->
  writes (row_part v (x0 * channels) ((x0 + kMargin) * channels)) dst
    (for_range 0 kMargin (fun i => process_one_pixel_with_horizontal_borders v (x0 + i)
      (reference_offsets K border_type height v) (offsets i)) dst).
Proof.
  intros Hx0 Hw Ho.
  replace ((x0 + kMargin) * channels) with (x0 * channels + kMargin * channels) by lia.
  apply row_part_loop; try lia. intros i d Hi.
  replace (x0 * channels + i * channels) with ((x0 + i) * channels) by lia.
  replace (x0 * channels + (i + 1) * channels) with ((x0 + i + 1) * channels) by lia.
  apply pixel_writes; [lia|by apply Ho].
Qed.

(** One row of the image. *)
Lemma row_writes v dst : 0 <= v < height ->
  exists dst', process_filter2d_row v dst = Some dst' /\
    writes (row_part v 0 (width * channels)) dst dst'.
Proof.
  intros Hv. unfold process_filter2d_row. rewrite fixed_border_ok by lia.
  rewrite size_sub_small by lia. cbv zeta.
  set (vo := reference_offsets K border_type height v).
  pose proof (margin_writes v 0 (fun i => fixed_offsets_with_left_border width border_type i)
    dst ltac:(lia) ltac:(lia)) as Hleft.
  set (d1 := for_range 0 kMargin _ dst) in Hleft.
  destruct (bulk_writes v d1) as (d2 & Heq & Hbulk).
  pose proof (margin_writes v (width - kMargin)
    (fun i => fixed_offsets_with_right_border width border_type (width - kMargin + i))
    d2 ltac:(lia) ltac:(lia)) as Hright.
  set (d3 := for_range 0 kMargin _ d2) in Hright.
  exists d3. split.
  - assert (for_range 0 kMargin (fun i => process_one_pixel_with_horizontal_borders v i vo
      (fixed_offsets_with_left_border width border_type i)) dst = d1) as ->
      by (apply for_range_ext; done).
    unfold vo. rewrite Heq. f_equal. apply for_range_ext. intros i d Hi.
    rewrite (size_sub_small width), size_add_small by lia. done.
  - eapply writes_ext; [|eapply writes_seq; [apply Hleft|eapply writes_seq; [exact Hbulk|apply Hright]]].
    + intros a. unfold row_part. assert (0 <= kMargin * channels) by nia.
      assert (kMargin * channels <= (width - kMargin) * channels) by nia.
      rewrite Z.add_0_l, Z.mul_0_l. replace (width - kMargin + kMargin) with width by lia.
      case_cmp; simpl; done || lia.
    + intros i Hi. rewrite Z.add_0_l. apply fixed_left_ok; [lia|exact Hi].
    + intros i Hi. apply fixed_right_ok; [lia|unfold kMargin in *; lia].
Qed.

Lemma process_filter2d_writes y_begin y_end dst :
  0 <= y_begin <= y_end -> y_end <= height ->
  exists dst', process_filter2d y_begin y_end dst = Some dst' /\
    writes (fun a => (y_begin <=? a.1) && (a.1 <? y_end) && (0 <=? a.2) && (a.2 <? width * channels))
      dst dst'.
Proof.
  intros Hy Hh. unfold process_filter2d.
  refine (for_range_ind (fun y r => exists dst', r = Some dst' /\
    writes (fun a => (y_begin <=? a.1) && (a.1 <? y) && (0 <=? a.2) && (a.2 <? width * channels))
      dst dst') y_begin y_end _ _ _ _ _); [lia| |].
  - exists dst. split; [done|]. intros a. case_cmp; simpl; done || lia.
  - intros y r Hyr (d & -> & Hd). destruct (row_writes y d) as (d' & Heq & Hd'); [lia|].
    exists d'. split; [done|]. eapply writes_ext; [|exact (writes_seq _ _ _ _ _ Hd Hd')].
    intros a. unfold row_part. case_cmp; simpl; done || lia.
Qed.
End filter.

(** ** Two rows at a time (3x3 filters) *)

Section dual_rows.
Context {S D : Type} `{Inhabited S, Inhabited D}.
Context (F : InnerFilter S D) (num_lanes : Z).
Context (channels width height : Z) (border_type : FixedBorderType).
Context (src : Z * Z -> S).
Implicit Types (dst : Z * Z -> D).

Local Abbreviation at_index := (at_index channels).
Local Abbreviation kMargin := (kMargin 3).
Local Abbreviation vld1q := (vld1q num_lanes src).
Local Abbreviation vst1q := (vst1q num_lanes).
Local Abbreviation writes := (writes_value (reference 3 F channels width height border_type src)).
Local Abbreviation reference_window := (reference_window 3 channels width height border_type).
Local Abbreviation offsets_at n i := (reference_offsets 3 border_type n i).

Definition process_two_element_vertically_with_or_without_horizontal_borders (v h : Z)
    (row_offsets_0 row_offsets_1 col_offsets : list Z) (index : Z) dst : Z * Z -> D :=
  let '(d0, d1) := scalar_path_for_dual_row_handling F
    (load_window_to_handle_dual_rows (at_index src v h index)
      row_offsets_0 row_offsets_1 col_offsets) in
  upd (upd dst (v, h * channels + index) d0) (v + 1, h * channels + index) d1.

Definition process_two_pixels_with_horizontal_borders (v h : Z)
    (row_offsets_0 row_offsets_1 col_offsets : list Z) dst : Z * Z -> D :=
  for_range 0 channels
    (process_two_element_vertically_with_or_without_horizontal_borders v h
      row_offsets_0 row_offsets_1 col_offsets) dst.

(** The vector body of the bulk loop of two rows. *)
Definition dual_vector_body (v h : Z) (row_offsets_0 row_offsets_1 col_offsets : list Z)
    (index : Z) dst : Z * Z -> D :=
  let '(dst_vec_0, dst_vec_1) := vector_path_for_dual_row_handling F
    (load_window_to_handle_dual_rows (at_index vld1q v h index)
      row_offsets_0 row_offsets_1 col_offsets) in
  vst1q (v + 1, h * channels + index) dst_vec_1
    (vst1q (v, h * channels + index) dst_vec_0 dst).

Definition process_pixels_of_dual_rows_without_horizontal_borders (pixels v h : Z)
    (row_offsets_0 row_offsets_1 col_offsets : list Z) dst : option (Z * Z -> D) :=
  match once_tail true (pixels ⊠ channels) num_lanes
    (dual_vector_body v h row_offsets_0 row_offsets_1 col_offsets)
    (process_two_element_vertically_with_or_without_horizontal_borders v h
      row_offsets_0 row_offsets_1 col_offsets) dst
  with Some (_, dst) => Some dst | None => None end.

(** The body of the loop over pairs of rows. *)
Definition process_filter2d_two_rows (vertical_index : Z) dst : option (Z * Z -> D) :=
  let vertical_offsets_0 := fixed_offsets_with_border (S := 3) height border_type vertical_index in
  let vertical_offsets_1 :=
    fixed_offsets_with_border (S := 3) height border_type (vertical_index ⊞ 1) in
  let dst := for_range 0 kMargin (fun horizontal_index =>
    process_two_pixels_with_horizontal_borders vertical_index horizontal_index
      vertical_offsets_0 vertical_offsets_1
      (fixed_offsets_with_left_border (S := 3) width border_type horizontal_index)) dst in
  let width_without_borders := width ⊟ 2 * kMargin in
  match process_pixels_of_dual_rows_without_horizontal_borders width_without_borders
    vertical_index kMargin vertical_offsets_0 vertical_offsets_1
    (fixed_offsets_without_border (S := 3)) dst with
  | None => None
  | Some dst => Some (for_range 0 kMargin (fun horizontal_index =>
      let index := width ⊟ kMargin ⊞ horizontal_index in
      process_two_pixels_with_horizontal_borders vertical_index index
        vertical_offsets_0 vertical_offsets_1
        (fixed_offsets_with_right_border (S := 3) width border_type index)) dst)
  end.

(** Pairs of rows while two are left, then [process_filter2d] for the last one. *)
Definition process_filter2d_by_dual_rows (y_begin y_end : Z) dst : option (Z * Z -> D) :=
  let pairs := step_count y_begin (y_end ⊟ 1) 2 in
  match for_step y_begin (y_end ⊟ 1) 2 (fun vertical_index r =>
    match r with Some dst => process_filter2d_two_rows vertical_index dst | None => None end)
    (Some dst) with
  | None => None
  | Some dst => process_filter2d 3 (@load_window_3x3) F num_lanes channels width height
      border_type src (y_begin + pairs * 2) y_end dst
  end.

Definition dual_law : Prop := forall w, length w = 12%nat ->
  scalar_path_for_dual_row_handling F w = (scalar_path F (take 9 w), scalar_path F (drop 3 w)).

Definition dual_lanes_agree : Prop := forall vs i, length vs = 12%nat ->
  Forall (fun v => length v = Z.to_nat num_lanes) vs -> (i < Z.to_nat num_lanes)%nat ->
  (vector_path_for_dual_row_handling F vs).1 !!! i =
    (scalar_path_for_dual_row_handling F (lane i vs)).1 /\
  (vector_path_for_dual_row_handling F vs).2 !!! i =
    (scalar_path_for_dual_row_handling F (lane i vs)).2.

Hypothesis filter_lanes : lanes_agree F num_lanes 9.
Hypothesis filter_dual : dual_law.
Hypothesis filter_dual_lanes : dual_lanes_agree.
Hypothesis lanes_range : 1 <= num_lanes < 2 ^ 62.
Hypothesis channels_pos : 1 <= channels.
Hypothesis width_range : 2 <= width < 2 ^ 63.
Hypothesis height_range : 2 <= height < 2 ^ 63.
Hypothesis row_range : width * channels < 2 ^ 62.

(** The part of two rows that one step writes. *)
Definition two_rows_part (y lo hi : Z) (a : Z * Z) : bool :=
  ((a.1 =? y) || (a.1 =? y + 1)) && (lo <=? a.2) && (a.2 <? hi).

(** The dual window is the reference window of both rows. *)
Lemma dual_window {A} (load : Z * Z -> A) v h index e (col_offsets : list Z) :
  0 <= v -> v + 1 < height -> length col_offsets = 3%nat ->
  (forall q, 0 <= q < 3 -> (h + nth (Z.to_nat q) col_offsets 0) * channels + index =
    border_index border_type width (e / channels + q - 3 / 2) * channels + e mod channels) ->
  let w := load_window_to_handle_dual_rows (at_index load v h index)
    (offsets_at height v) (offsets_at height (v + 1)) col_offsets in
  length w = 12%nat /\
  take 9 w = reference_window load v e /\ drop 3 w = reference_window load (v + 1) e.
Proof.
  intros Hv0 Hv Hlen Hcol w.
  pose proof (Hcol 0 ltac:(lia)) as Hq0. pose proof (Hcol 1 ltac:(lia)) as Hq1.
  pose proof (Hcol 2 ltac:(lia)) as Hq2. clear Hcol.
  destruct col_offsets as [|q0 [|q1 [|q2 [|? ?]]]]; try discriminate Hlen.
  change (3 / 2) with 1 in *. simpl nth in Hq0, Hq1, Hq2.
  subst w. unfold load_window_to_handle_dual_rows, load_window_3x3, c, Filter2D.at_index.
  unfold reference_offsets, Filter2D.reference_window. change (seqZ 0 3) with [0; 1; 2].
  change (3 / 2) with 1. cbn [flat_map map fmap list_fmap nth app take drop length].
  rewrite Hq0, Hq1, Hq2.
  assert (border_index border_type height (v + 1 + 0 - 1) =
    border_index border_type height (v + 1 - 1)) as -> by (f_equal; lia).
  assert (border_index border_type height (v + 1 + 1 - 1) =
    border_index border_type height (v + 2 - 1)) as -> by (f_equal; lia).
  assert (forall x, v + (x - v) = x) as Hx by lia.
  assert (forall x, v + (x - (v + 1) + 1) = x) as Hx' by lia.
  rewrite !Hx, !Hx'. done.
Qed.

Lemma two_part_loop y lo step k (body : Z -> (Z * Z -> D) -> Z * Z -> D) dst :
  0 <= k -> 0 <= step ->
  (forall i dst, 0 <= i < k ->
    writes (two_rows_part y (lo + i * step) (lo + (i + 1) * step)) dst (body i dst)) ->
  writes (two_rows_part y lo (lo + k * step)) dst (for_range 0 k body dst).
Proof.
  intros Hk Hst Hb.
  refine (for_range_ind (fun i d => writes (two_rows_part y lo (lo + i * step)) dst d)
    0 k _ _ Hk _ _).
  - intros a. unfold two_rows_part. case_cmp; simpl; done || lia.
  - intros i d Hi IH. eapply writes_ext; [|exact (writes_seq _ _ _ _ _ IH (Hb i d ltac:(lia)))].
    intros [r e]. unfold two_rows_part. simpl. assert (0 <= i * step) by nia.
    replace ((i + 1) * step) with (i * step + step) by lia.
    case_cmp; simpl; done || lia.
Qed.

(** One element of both rows. *)
Lemma two_elements_write v h index e col_offsets dst :
  0 <= v -> v + 1 < height -> e = h * channels + index -> length col_offsets = 3%nat ->
  (forall q, 0 <= q < 3 -> (h + nth (Z.to_nat q) col_offsets 0) * channels + index =
    border_index border_type width (e / channels + q - 3 / 2) * channels + e mod channels) ->
  writes (two_rows_part v e (e + 1)) dst
    (process_two_element_vertically_with_or_without_horizontal_borders v h
      (offsets_at height v) (offsets_at height (v + 1)) col_offsets index dst).
Proof.
  intros Hv0 Hv He Hlen Hcol [r e'].
  unfold process_two_element_vertically_with_or_without_horizontal_borders, two_rows_part.
  destruct (dual_window src v h index e col_offsets) as (Hl & Hw0 & Hw1); try done.
  rewrite filter_dual by done. rewrite Hw0, Hw1, <- He. unfold reference. unfold upd. simpl.
  case_decide as Hd1; [|case_decide as Hd0].
  - injection Hd1 as -> ->. simpl. case_cmp; simpl; done || lia.
  - injection Hd0 as -> ->. simpl. case_cmp; simpl; done || lia.
  - case_cmp; simpl; try done; exfalso; (apply Hd1; f_equal; lia) || (apply Hd0; f_equal; lia).
Qed.

Lemma two_pixels_write v x col_offsets dst :
  0 <= v -> v + 1 < height -> 0 <= x < width -> col_offsets = offsets_at width x ->
  writes (two_rows_part v (x * channels) ((x + 1) * channels)) dst
    (process_two_pixels_with_horizontal_borders v x
      (offsets_at height v) (offsets_at height (v + 1)) col_offsets dst).
Proof.
  intros Hv0 Hv Hx ->. unfold process_two_pixels_with_horizontal_borders.
  replace ((x + 1) * channels) with (x * channels + channels * 1) by lia.
  apply two_part_loop; try lia. intros i d Hi.
  replace (x * channels + (i + 1) * 1) with (x * channels + i * 1 + 1) by lia.
  apply two_elements_write; [done|done|lia|by rewrite length_reference_offsets|].
  intros q Hq. replace (x * channels + i * 1) with (x * channels + i) by lia.
  by apply pixel_columns.
Qed.

Lemma lane_of_dual_window v h index ro0 ro1 co i : (i < Z.to_nat num_lanes)%nat ->
  lane i (load_window_to_handle_dual_rows (at_index vld1q v h index) ro0 ro1 co) =
  load_window_to_handle_dual_rows (at_index src v h (index + Z.of_nat i)) ro0 ro1 co.
Proof.
  intros Hi.
  assert (forall r q, at_index vld1q v h index r q !!! i = at_index src v h (index + Z.of_nat i) r q)
    as Hat.
  { intros r q. apply list_lookup_total_correct. unfold Filter2D.at_index, Filter2D.vld1q.
    rewrite list_lookup_fmap, lookup_seqZ_lt by lia. simpl. do 2 f_equal. f_equal. lia. }
  unfold lane, load_window_to_handle_dual_rows, load_window_3x3. simpl. by rewrite !Hat.
Qed.

Lemma inner_offsets : kMargin < width - kMargin ->
  fixed_offsets_without_border (S := 3) = offsets_at width 1.
Proof. intros Hw. apply fixed_inner_ok; unfold Filter2D.kMargin in *; mod_lia. Qed.

(** The vector body writes its window in both rows. *)
Lemma dual_vector_body_writes v index dst :
  0 <= v -> v + 1 < height ->
  0 <= index -> index + num_lanes <= (width - 2 * kMargin) * channels ->
  writes (two_rows_part v (kMargin * channels + index) (kMargin * channels + (index + num_lanes))) dst
    (dual_vector_body v kMargin (offsets_at height v) (offsets_at height (v + 1))
      (fixed_offsets_without_border (S := 3)) index dst).
Proof.
  intros Hv0 Hv Hi Hend a. unfold dual_vector_body.
  assert (kMargin < width - kMargin) as Hwide by nia.
  assert (length (fixed_offsets_without_border (S := 3)) = 3)%nat as Hlen by reflexivity.
  set (vs := load_window_to_handle_dual_rows (at_index vld1q v kMargin index) _ _ _).
  assert (length vs = 12 /\ Forall (fun w => length w = Z.to_nat num_lanes) vs)%nat as [Hvl Hvf].
  { subst vs. split; [done|]. unfold load_window_to_handle_dual_rows, load_window_3x3.
    repeat constructor; unfold Filter2D.at_index, Filter2D.vld1q; by rewrite length_map, length_seqZ. }
  destruct (vector_path_for_dual_row_handling F vs) as [vec0 vec1] eqn:Hvec.
  rewrite !vst1q_lanes by done. unfold row_part, two_rows_part.
  replace (kMargin * channels + (index + num_lanes))
    with (kMargin * channels + index + num_lanes) by lia.
  destruct ((kMargin * channels + index <=? a.2) && (a.2 <? kMargin * channels + index + num_lanes))
    eqn:Hin; [|by rewrite <- !andb_assoc, Hin, !andb_false_r].
  rewrite <- !andb_assoc, Hin, !andb_true_r. apply andb_true_iff in Hin as [Hlo%Z.leb_le Hhi%Z.ltb_lt].
  set (i := Z.to_nat (a.2 - (kMargin * channels + index))).
  assert (i < Z.to_nat num_lanes)%nat as Hilt by (subst i; lia).
  destruct (filter_dual_lanes vs i Hvl Hvf Hilt) as [Hl0 Hl1]. rewrite Hvec in Hl0, Hl1.
  cbn [fst snd] in Hl0, Hl1. rewrite Hl0, Hl1. subst vs. rewrite lane_of_dual_window by done.
  destruct (dual_window src v kMargin (index + Z.of_nat i) a.2 (fixed_offsets_without_border (S := 3)))
    as (Hl & Hw0 & Hw1); try done.
  { intros q Hq. replace a.2 with (kMargin * channels + (index + Z.of_nat i)) by (subst i; lia).
    apply (bulk_columns 3); try done; try lia; try (unfold Filter2D.kMargin; mod_lia). }
  rewrite filter_dual by done. rewrite Hw0, Hw1. unfold reference.
  destruct a as [r e]. simpl in *. case_cmp; simpl; subst; try done; lia.
Qed.

Definition dual_index (v : Z) (a : Z * Z) : option Z :=
  if (a.1 =? v) || (a.1 =? v + 1) then Some (a.2 - kMargin * channels) else None.

Lemma dual_bulk_window v lo hi a :
  in_window (dual_index v) lo hi a =
  two_rows_part v (kMargin * channels + lo) (kMargin * channels + hi) a.
Proof.
  unfold in_window, dual_index, two_rows_part. destruct ((a.1 =? v) || (a.1 =? v + 1)); [|done].
  simpl. case_cmp; done || lia.
Qed.

Lemma dual_bulk_writes v dst : 0 <= v -> v + 1 < height ->
  exists dst', process_pixels_of_dual_rows_without_horizontal_borders (width - 2 * kMargin) v kMargin
      (offsets_at height v) (offsets_at height (v + 1)) (fixed_offsets_without_border (S := 3)) dst
      = Some dst' /\
    writes (two_rows_part v (kMargin * channels) ((width - kMargin) * channels)) dst dst'.
Proof.
  intros Hv0 Hv. unfold process_pixels_of_dual_rows_without_horizontal_borders.
  change kMargin with 1 in *. set (len := (width - 2 * 1) * channels).
  assert (0 <= len < 2 ^ 62) as Hlen by (subst len; nia).
  rewrite size_mul_small by lia. fold len.
  destruct (once_tail_fills (dual_index v) (reference 3 F channels width height border_type src)
    true len num_lanes
    (dual_vector_body v 1 (offsets_at height v) (offsets_at height (v + 1))
      (fixed_offsets_without_border (S := 3)))
    (process_two_element_vertically_with_or_without_horizontal_borders v 1
      (offsets_at height v) (offsets_at height (v + 1)) (fixed_offsets_without_border (S := 3))) dst)
    as (l & dst' & Heq & Hf).
  - lia.
  - unfold is_size. lia.
  - intros i f a Hi Hend. rewrite dual_bulk_window. by apply dual_vector_body_writes.
  - intros i f a Hi Hend. rewrite dual_bulk_window. rewrite Z.add_assoc. unfold len in Hend.
    apply two_elements_write; [done|done|done|done|].
    intros q Hq. apply (bulk_columns 3); try done; change (Filter2D.kMargin 3) with 1; lia.
  - rewrite Heq. exists dst'. split; [done|]. intros a.
    rewrite (Hf a), dual_bulk_window. unfold len. change kMargin with 1. rewrite Z.add_0_r.
    by replace (1 * channels + (width - 2 * 1) * channels) with ((width - 1) * channels) by lia.
Qed.

Lemma dual_margin_writes v x0 (offsets : Z -> list Z) dst :
  0 <= v -> v + 1 < height -> 0 <= x0 -> x0 + kMargin <= width ->
  (forall i, 0 <= i < kMargin -> offsets i = offsets_at width (x0 + i)) ->
  writes (two_rows_part v (x0 * channels) ((x0 + kMargin) * channels)) dst
    (for_range 0 kMargin (fun i => process_two_pixels_with_horizontal_borders v (x0 + i)
      (offsets_at height v) (offsets_at height (v + 1)) (offsets i)) dst).
Proof.
  intros Hv0 Hv Hx0 Hw Ho.
  replace ((x0 + kMargin) * channels) with (x0 * channels + kMargin * channels) by lia.
  apply two_part_loop; try lia; [done|]. intros i d Hi.
  replace (x0 * channels + i * channels) with ((x0 + i) * channels) by lia.
  replace (x0 * channels + (i + 1) * channels) with ((x0 + i + 1) * channels) by lia.
  apply two_pixels_write; [done|done|lia|by apply Ho].
Qed.

(** Two rows of the image. *)
Lemma two_rows_write v dst : 0 <= v -> v + 1 < height ->
  exists dst', process_filter2d_two_rows v dst = Some dst' /\
    writes (two_rows_part v 0 (width * channels)) dst dst'.
Proof.
  intros Hv0 Hv. unfold process_filter2d_two_rows. rewrite size_add_small by lia.
  rewrite !(fixed_border_ok (S := 3)) by lia. change kMargin with 1.
  rewrite size_sub_small by lia. cbv zeta.
  set (ro0 := offsets_at height v). set (ro1 := offsets_at height (v + 1)).
  pose proof (dual_margin_writes v 0 (fun i => fixed_offsets_with_left_border (S := 3) width border_type i)
    dst Hv0 Hv ltac:(lia) ltac:(change kMargin with 1; lia)) as Hleft.
  change kMargin with 1 in Hleft. set (d1 := for_range 0 1 _ dst) in Hleft.
  destruct (dual_bulk_writes v d1 Hv0 Hv) as (d2 & Heq & Hbulk).
  pose proof (dual_margin_writes v (width - 1)
    (fun i => fixed_offsets_with_right_border (S := 3) width border_type (width - 1 + i))
    d2 Hv0 Hv ltac:(lia) ltac:(change kMargin with 1; lia)) as Hright.
  change kMargin with 1 in Hright, Heq, Hbulk. set (d3 := for_range 0 1 _ d2) in Hright.
  exists d3. split.
  - assert (for_range 0 1 (fun i => process_two_pixels_with_horizontal_borders v i ro0 ro1
      (fixed_offsets_with_left_border (S := 3) width border_type i)) dst = d1) as ->
      by (apply for_range_ext; done).
    unfold ro0, ro1. rewrite Heq. f_equal. apply for_range_ext. intros i d Hi.
    rewrite (size_sub_small width), size_add_small by lia. done.
  - eapply writes_ext;
      [|eapply writes_seq; [apply Hleft|eapply writes_seq; [exact Hbulk|apply Hright]]].
    + intros a. unfold two_rows_part.
      assert (1 * channels <= (width - 1) * channels) by nia.
      rewrite Z.add_0_l, Z.mul_0_l. replace (width - 1 + 1) with width by lia.
      case_cmp; simpl; done || lia.
    + intros i Hi. rewrite Z.add_0_l. apply fixed_left_ok; [lia|exact Hi].
    + intros i Hi. apply fixed_right_ok; [lia|]. change (3 / 2) with 1. lia.
Qed.

Lemma pairs_write y_begin k dst : 0 <= y_begin -> 0 <= k -> y_begin + k * 2 <= height ->
  exists dst', for_range 0 k (fun j r => match r with
      | Some dst => process_filter2d_two_rows (y_begin + j * 2) dst | None => None end) (Some dst)
      = Some dst' /\
    writes (fun a => (y_begin <=? a.1) && (a.1 <? y_begin + k * 2) && (0 <=? a.2)
      && (a.2 <? width * channels)) dst dst'.
Proof.
  intros Hy Hk Hh.
  assert (forall m, m <= k -> 0 <= m -> exists dst', for_range 0 m (fun j r => match r with
      | Some dst => process_filter2d_two_rows (y_begin + j * 2) dst | None => None end) (Some dst)
      = Some dst' /\
    writes (fun a => (y_begin <=? a.1) && (a.1 <? y_begin + m * 2) && (0 <=? a.2)
      && (a.2 <? width * channels)) dst dst') as Hall; [|apply Hall; lia].
  intros m Hmk Hm. revert Hmk. pattern m. apply natlike_ind; [| |done].
  - intros _. exists dst. rewrite for_range_empty by lia. split; [done|].
    intros a. case_cmp; simpl; done || lia.
  - clear m Hm. intros m Hm IH Hmk. destruct IH as (d & Heq & Hd); [lia|].
    rewrite for_range_last by lia. replace (Z.succ m - 1) with m by lia. rewrite Heq.
    destruct (two_rows_write (y_begin + m * 2) d) as (d' & Heq' & Hd'); [lia|lia|].
    exists d'. split; [done|].
    eapply writes_ext; [|exact (writes_seq _ _ _ _ _ Hd Hd')].
    intros a. unfold two_rows_part. case_cmp; simpl; done || lia.
Qed.

Lemma process_filter2d_by_dual_rows_writes y_begin y_end dst :
  0 <= y_begin <= y_end -> 1 <= y_end <= height ->
  exists dst', process_filter2d_by_dual_rows y_begin y_end dst = Some dst' /\
    writes (fun a => (y_begin <=? a.1) && (a.1 <? y_end) && (0 <=? a.2) && (a.2 <? width * channels))
      dst dst'.
Proof.
  intros Hy Hh. unfold process_filter2d_by_dual_rows, for_step.
  rewrite size_sub_small by lia. unfold step_count.
  set (k := (y_end - 1 - y_begin + 2 - 1) / 2).
  assert (0 <= k /\ y_begin + k * 2 <= y_end) as [Hk Hle] by (subst k; mod_lia).
  destruct (pairs_write y_begin k dst) as (d & Heq & Hd); [lia..|]. rewrite Heq.
  destruct (process_filter2d_writes 3 (@load_window_3x3) F num_lanes channels width height
    border_type src) with (y_begin := y_begin + k * 2) (y_end := y_end) (dst := d)
    as (d' & Heq' & Hd'); try done; try lia.
  { intros A at_ ro co Hr Hc. by apply load_window_3x3_product. }
  exists d'. split; [done|]. eapply writes_ext; [|exact (writes_seq _ _ _ _ _ Hd Hd')].
  intros a. case_cmp; simpl; done || lia.
Qed.
End dual_rows.

(** ** The filters of the library *)

(** [Filter2D3x3], [Filter2D5x5], [Filter2D7x7]. *)
Definition loader_of (k : fixed_size) : forall A, loader A :=
  match k with K3 => @load_window_3x3 | K5 => @load_window_5x5 | _ => @load_window_7x7 end.

Lemma loader_of_product k A (at_ : Z -> Z -> A) ro co :
  k = K3 \/ k = K5 \/ k = K7 ->
  length ro = Z.to_nat (size_of k) -> length co = Z.to_nat (size_of k) ->
  loader_of k A at_ ro co = product_window at_ ro co.
Proof.
  intros [->|[->| ->]] Hr Hc;
    [by apply load_window_3x3_product|by apply load_window_5x5_product|by apply load_window_7x7_product].
Qed.

(** C9: [process_filter2d] of a stripe terminates and is the reference filter: each
    element of the rows of the stripe is the scalar path of the inner filter on
    the window whose taps are the pixels the border type documents, for every
    vector length and channel count, and no other element of the output is
    written. *)
Theorem process_filter2d_correct {S D} `{Inhabited S, Inhabited D} k (F : InnerFilter S D)
    num_lanes channels width height bt (src : Z * Z -> S) y_begin y_end (dst : Z * Z -> D) :
  k = K3 \/ k = K5 \/ k = K7 ->
  lanes_agree F num_lanes (size_of k * size_of k) ->
  1 <= num_lanes < 2 ^ 62 -> 1 <= channels ->
  size_of k - 1 <= width < 2 ^ 63 -> size_of k - 1 <= height < 2 ^ 63 ->
  width * channels < 2 ^ 62 -> 0 <= y_begin <= y_end -> y_end <= height ->
  exists dst',
    process_filter2d (size_of k) (loader_of k) F num_lanes channels width height bt src
      y_begin y_end dst = Some dst' /\
    forall y e, dst' (y, e) =
      if (y_begin <=? y) && (y <? y_end) && (0 <=? e) && (e <? width * channels)
      then scalar_path F (reference_window (size_of k) channels width height bt src y e)
      else dst (y, e).
Proof.
  intros Hk HF Hn Hc Hw Hh Hr Hy Hye.
  destruct (process_filter2d_writes (size_of k) (loader_of k) F num_lanes channels width height bt src)
    with (y_begin := y_begin) (y_end := y_end) (dst := dst) as (d & Heq & Hd); try done.
  { intros A at_ ro co. by apply loader_of_product. }
  { destruct k; done. }
  exists d. split; [done|]. intros y e. exact (Hd (y, e)).
Qed.

(** A filter whose vector path is its scalar path lane by lane. *)
Definition lanewise {S D} `{Inhabited S} (n : nat) (f : list S -> D) (g : list S -> D * D)
    : InnerFilter S D := {|
  scalar_path := f;
  vector_path vs := map (fun i => f (lane i vs)) (seq 0 n);
  scalar_path_for_dual_row_handling := g;
  vector_path_for_dual_row_handling vs :=
    (map (fun i => (g (lane i vs)).1) (seq 0 n), map (fun i => (g (lane i vs)).2) (seq 0 n))
|}.

Lemma lanewise_agrees {S D} `{Inhabited S, Inhabited D} n (f : list S -> D) g size :
  lanes_agree (lanewise n f g) (Z.of_nat n) size.
Proof.
  intros vs i _ _ Hi. rewrite Nat2Z.id in Hi. simpl. apply list_lookup_total_correct.
  by rewrite list_lookup_fmap, lookup_seq_lt.
Qed.

Lemma process_filter2d_correct_witness :
  let F := lanewise 4 (foldr Z.add 0) (fun w => (0, 0)) in
  let src : Z * Z -> Z := fun a => 10 * a.1 + a.2 in
  exists dst',
    process_filter2d 3 (loader_of K3) F 4 2 9 5 REVERSE src 1 4 (fun _ => -1) = Some dst' /\
    forall y e, dst' (y, e) =
      if (1 <=? y) && (y <? 4) && (0 <=? e) && (e <? 9 * 2)
      then scalar_path F (reference_window 3 2 9 5 REVERSE src y e)
      else -1.
Proof.
  apply (process_filter2d_correct K3 (lanewise 4 (foldr Z.add 0) (fun w => (0, 0))) 4 2 9 5 REVERSE
    (fun a => 10 * a.1 + a.2) 1 4 (fun _ => -1)); try (simpl; lia); [by left|].
  apply (lanewise_agrees 4).
Defined.
