(* ===== verification/Network.v ===== *)
(** * Comparator networks

    The median filters are straight-line programs over a kernel window whose only
    operations on pixels are those of a comparator
    ([median_blur_sorting_network_neon.cpp]).  A program is a list of [instr] on
    cells of a store; it runs with any comparator.  The lemmas transfer a run
    along a relation between element types, which gives the zero-one principle:
    a network computes the median of integers if it does so on booleans. *)

From S2P Require Import Prelude.

(** ** Comparators *)

Record Comparator (T : Type) := {
  compare_and_swap : T -> T -> T * T;
  min : T -> T -> T;
  max : T -> T -> T;
  get_min : T -> T -> T;
  get_max : T -> T -> T
}.
Arguments compare_and_swap {T} _ _ _.
Arguments min {T} _ _ _.
Arguments max {T} _ _ _.
Arguments get_min {T} _ _ _.
Arguments get_max {T} _ _ _.

(** [ScalarComparator]: [std::swap], [std::min] and [std::max] on integers. *)
Definition std_min (a b : Z) : Z := if b <? a then b else a.
Definition std_max (a b : Z) : Z := if a <? b then b else a.

Definition ScalarComparator : Comparator Z := {|
  compare_and_swap left right := if right <? left then (right, left) else (left, right);
  min left right := std_min left right;
  max left right := std_max left right;
  get_min left right := std_min left right;
  get_max left right := std_max left right
|}.

(** [VectorizedComparator]: [vminq] and [vmaxq] work lane by lane. *)
Definition vminq (left right : list Z) : list Z := zip_with Z.min left right.
Definition vmaxq (left right : list Z) : list Z := zip_with Z.max left right.

Definition VectorizedComparator : Comparator (list Z) := {|
  compare_and_swap left right :=
    let max_value := vmaxq left right in
    let min_value := vminq left right in (min_value, max_value);
  min left right := vminq left right;
  max left right := vmaxq left right;
  get_min left right := vminq left right;
  get_max left right := vmaxq left right
|}.

(** A comparator made of two binary operations, as booleans have. *)
Definition lattice {T} (mn mx : T -> T -> T) : Comparator T := {|
  compare_and_swap a b := (mn a b, mx a b);
  min := mn; max := mx; get_min := mn; get_max := mx
|}.

Definition bool_comparator : Comparator bool := lattice andb orb.

(** Booleans with an unknown value. *)
Definition lift2 (f : bool -> bool -> bool) (a b : option bool) : option bool :=
  match a, b with Some x, Some y => Some (f x y) | _, _ => None end.
Definition partial_comparator : Comparator (option bool) :=
  lattice (lift2 andb) (lift2 orb).

(** ** Programs *)

Inductive instr :=
  | CompareAndSwap (left right : nat)
  | Min (left right : nat)
  | Max (left right : nat)
  | GetMin (dst left right : nat)
  | GetMax (dst left right : nat)
  | Copy (dst src : nat).

Section exec.
Context {T : Type} `{Inhabited T} (C : Comparator T).

Definition exec_instr (s : list T) (i : instr) : list T :=
  match i with
  | CompareAndSwap a b =>
      let '(x, y) := compare_and_swap C (s !!! a) (s !!! b) in <[b := y]> (<[a := x]> s)
  | Min a b => <[a := min C (s !!! a) (s !!! b)]> s
  | Max a b => <[b := max C (s !!! a) (s !!! b)]> s
  | GetMin d a b => <[d := get_min C (s !!! a) (s !!! b)]> s
  | GetMax d a b => <[d := get_max C (s !!! a) (s !!! b)]> s
  | Copy d a => <[d := s !!! a]> s
  end.

Definition exec (p : list instr) (s : list T) : list T := foldl exec_instr s p.
End exec.

(** The cells of an instruction, and programs confined to [n] cells. *)
Definition cells (i : instr) : list nat :=
  match i with
  | CompareAndSwap a b | Min a b | Max a b | Copy a b => [a; b]
  | GetMin d a b | GetMax d a b => [d; a; b]
  end.

Definition within (n : nat) (p : list instr) : bool :=
  forallb (fun i => forallb (fun c => Nat.ltb c n) (cells i)) p.

Definition rename (f : nat -> nat) (i : instr) : instr :=
  match i with
  | CompareAndSwap a b => CompareAndSwap (f a) (f b)
  | Min a b => Min (f a) (f b)
  | Max a b => Max (f a) (f b)
  | GetMin d a b => GetMin (f d) (f a) (f b)
  | GetMax d a b => GetMax (f d) (f a) (f b)
  | Copy d a => Copy (f d) (f a)
  end.

Lemma within_app n p q : within n (p ++ q) = within n p && within n q.
Proof. apply forallb_app. Qed.

Lemma within_rename m n f p :
  (forall i, (i < m)%nat -> (f i < n)%nat) -> within m p = true ->
  within n (map (rename f) p) = true.
Proof.
  intros Hf. unfold within. rewrite !forallb_forall. intros H i' Hi'.
  apply in_map_iff in Hi' as (i & <- & Hi). specialize (H i Hi).
  rewrite forallb_forall in *. intros c Hc. apply Nat.ltb_lt.
  destruct i; simpl in *; repeat destruct Hc as [<-|Hc]; try done;
    apply Hf, Nat.ltb_lt, H; auto.
Qed.

Lemma exec_app {T} `{Inhabited T} (C : Comparator T) p q s :
  exec C (p ++ q) s = exec C q (exec C p s).
Proof. apply foldl_app. Qed.

Lemma length_exec_instr {T} `{Inhabited T} (C : Comparator T) i s :
  length (exec_instr C s i) = length s.
Proof.
  destruct i; simpl; [destruct (compare_and_swap _ _ _)|..]; by rewrite ?length_insert.
Qed.

Lemma length_exec {T} `{Inhabited T} (C : Comparator T) p s :
  length (exec C p s) = length s.
Proof.
  revert s. induction p as [|i p IH]; intros s; [done|].
  change (length (exec C p (exec_instr C s i)) = length s).
  by rewrite IH, length_exec_instr.
Qed.

Lemma within_cons n i p :
  within n (i :: p) = true <-> Forall (fun c => (c < n)%nat) (cells i) /\ within n p = true.
Proof.
  unfold within. cbn [forallb]. rewrite andb_true_iff.
  assert (forall l, forallb (fun c => Nat.ltb c n) l = true <-> Forall (fun c => (c < n)%nat) l)
    as Hl; [|specialize (Hl (cells i)); tauto].
  intros l. induction l as [|c l IH]; [by split|].
  cbn [forallb]. by rewrite andb_true_iff, IH, Nat.ltb_lt, Forall_cons.
Qed.

(** ** Transfer along a relation *)

(** The comparators respect [R] operation by operation. *)
Record respects {A B : Type} (CA : Comparator A) (CB : Comparator B)
    (R : A -> B -> Prop) : Prop := {
  respects_swap : forall a b x y, R a x -> R b y ->
    R (compare_and_swap CA a b).1 (compare_and_swap CB x y).1 /\
    R (compare_and_swap CA a b).2 (compare_and_swap CB x y).2;
  respects_min : forall a b x y, R a x -> R b y -> R (min CA a b) (min CB x y);
  respects_max : forall a b x y, R a x -> R b y -> R (max CA a b) (max CB x y);
  respects_get_min : forall a b x y, R a x -> R b y -> R (get_min CA a b) (get_min CB x y);
  respects_get_max : forall a b x y, R a x -> R b y -> R (get_max CA a b) (get_max CB x y)
}.

Section transfer.
Context {A B : Type} `{Inhabited A, Inhabited B}.
Context (CA : Comparator A) (CB : Comparator B) (R : A -> B -> Prop).
Hypothesis HR : respects CA CB R.

Lemma lookup_rel (s : list A) (t : list B) i :
  Forall2 R s t -> (i < length s)%nat -> R (s !!! i) (t !!! i).
Proof.
  intros HF Hi. destruct (lookup_lt_is_Some_2 s i Hi) as [a Ha].
  destruct (Forall2_lookup_l R _ _ i a HF Ha) as (b & Hb & HRab).
  by rewrite (list_lookup_total_correct _ _ _ Ha), (list_lookup_total_correct _ _ _ Hb).
Qed.

Lemma exec_rel p : forall s t, within (length s) p = true ->
  Forall2 R s t -> Forall2 R (exec CA p s) (exec CB p t).
Proof.
  induction p as [|i p IH]; intros s t Hw HF; [done|].
  apply within_cons in Hw as [Hc Hw]. simpl. apply IH.
  - by rewrite length_exec_instr.
  - pose proof (lookup_rel s t) as Hl.
    destruct HR as [Hsw Hmn Hmx Hgmn Hgmx].
    destruct i; simpl in *; decompose_Forall; try (apply Forall2_insert; by auto).
    specialize (Hsw (s !!! left) (s !!! right) (t !!! left) (t !!! right)).
    destruct (compare_and_swap CA _ _), (compare_and_swap CB _ _).
    destruct Hsw; [by auto..|]. by repeat apply Forall2_insert.
Qed.
End transfer.

(** The relations used. *)
Definition above (t : Z) (a : Z) (b : bool) : Prop := b = (t <=? a).

Lemma scalar_respects_above t : respects ScalarComparator bool_comparator (above t).
Proof.
  unfold above. split; intros a b x y -> ->; simpl; unfold std_min, std_max;
    destruct (Z.ltb_spec b a), (Z.ltb_spec a b); simpl; try split; case_cmp; simpl; done || lia.
Qed.

Lemma lane_respects k n : (k < n)%nat ->
  respects VectorizedComparator ScalarComparator
    (fun (v : list Z) (a : Z) => length v = n /\ v !! k = Some a).
Proof.
  intros Hk.
  assert (forall (f : Z -> Z -> Z) (v w : list Z) (a b : Z), length v = n /\ v !! k = Some a ->
    length w = n /\ w !! k = Some b ->
    length (zip_with f v w) = n /\ zip_with f v w !! k = Some (f a b)) as Hz.
  { intros f v w a b [Hv Ha] [Hw Hb]. rewrite length_zip_with, Hv, Hw, lookup_zip_with, Ha, Hb.
    simpl. split; [lia|done]. }
  assert (forall a b, Z.min a b = std_min a b) as Hmin by (intros; unfold std_min; case_cmp; lia).
  assert (forall a b, Z.max a b = std_max a b) as Hmax by (intros; unfold std_max; case_cmp; lia).
  split; intros v w a b Hv Hw; simpl; unfold vminq, vmaxq; rewrite <- ?Hmin, <- ?Hmax;
    try (by apply Hz).
  replace (if b <? a then (b, a) else (a, b)) with (Z.min a b, Z.max a b)
    by (case_cmp; f_equal; lia).
  split; by apply Hz.
Qed.

Definition bool_le (a b : bool) : Prop := a = true -> b = true.

Lemma bool_respects_le : respects bool_comparator bool_comparator bool_le.
Proof. split; intros [] [] [] []; unfold bool_le; simpl; intuition. Qed.

Definition known (b : bool) (o : option bool) : Prop := o = None \/ o = Some b.

Lemma bool_respects_known : respects bool_comparator partial_comparator known.
Proof.
  split; intros a b x y [->| ->] [->| ->]; unfold known; simpl; auto.
Qed.

(** ** Weights and medians *)

Fixpoint weight (bs : list bool) : nat :=
  match bs with [] => O | b :: bs => (if b then 1 else 0) + weight bs end%nat.

(** The middle element in sorted order (the upper one of an even list). *)
Definition median (l : list Z) : Z := merge_sort Z.le l !!! (length l / 2)%nat.

(** More than half of the booleans hold. *)
Definition majority (bs : list bool) : bool :=
  Nat.leb (length bs - length bs / 2) (weight bs).

Lemma weight_app a b : weight (a ++ b) = (weight a + weight b)%nat.
Proof. induction a as [|[] a IH]; simpl; lia. Qed.

Lemma weight_le_length bs : (weight bs <= length bs)%nat.
Proof. induction bs as [|[] bs IH]; simpl; lia. Qed.

Lemma weight_perm a b : a ≡ₚ b -> weight a = weight b.
Proof. induction 1; simpl; lia. Qed.

Lemma weight_all b (l : list bool) :
  Forall (fun x => x = b) l -> weight l = if b then length l else 0%nat.
Proof. induction 1 as [|x l -> _ IH]; destruct b; simpl; lia. Qed.

Lemma weight_mono a b : Forall2 bool_le a b -> (weight a <= weight b)%nat.
Proof.
  induction 1 as [|x y a b Hxy _ IH]; simpl; [lia|].
  destruct x, y; simpl; try lia. by specialize (Hxy eq_refl).
Qed.

(** A threshold splits a sorted list. *)
Lemma sorted_threshold lo v hi t :
  StronglySorted Z.le (lo ++ v :: hi) ->
  let w := weight (map (fun a => t <=? a) (lo ++ v :: hi)) in
  (t <= v -> (S (length hi) <= w)%nat) /\ (v < t -> (w <= length hi)%nat).
Proof.
  intros [Hlo [_ [Hhi _]%StronglySorted_cons]]%StronglySorted_app w. subst w.
  rewrite map_app, weight_app. cbn [map weight].
  split; intros Ht; destruct (Z.leb_spec t v); try lia.
  - rewrite (weight_all true (map _ hi)); [rewrite length_map; lia|].
    apply Forall_map. eapply Forall_impl; [exact Hhi|]. intros x Hx. apply Z.leb_le. lia.
  - rewrite (weight_all false (map _ lo)).
    + pose proof (weight_le_length (map (fun a => t <=? a) hi)) as Hw.
      rewrite length_map in Hw. lia.
    + apply Forall_map, Forall_forall. intros x Hx. apply Z.leb_gt.
      specialize (Hlo x v Hx ltac:(left)). lia.
Qed.

Lemma median_threshold l t : l <> [] ->
  (t <=? median l) = majority (map (fun a => t <=? a) l).
Proof.
  intros Hl. unfold majority, median. rewrite length_map.
  pose proof (merge_sort_Permutation Z.le l) as HP.
  pose proof (StronglySorted_merge_sort Z.le l) as HS.
  set (S := merge_sort Z.le l) in *. rewrite <- (Permutation_length HP).
  rewrite <- (weight_perm _ _ (Permutation_map (fun a => t <=? a) HP)).
  assert (length S <> 0)%nat as Hn.
  { rewrite (Permutation_length HP). by destruct l. }
  set (m := (length S / 2)%nat). assert (m < length S)%nat as Hm by (apply Nat.div_lt; lia).
  pose proof (take_drop_middle S m (S !!! m) (list_lookup_lookup_total_lt S m Hm)) as HE.
  pose proof (sorted_threshold (take m S) (S !!! m) (drop (Datatypes.S m) S) t) as Ht.
  rewrite HE in Ht. destruct (Ht HS) as [Hge Hlt]. rewrite length_drop in *.
  destruct (Z.leb_spec t (S !!! m)); symmetry;
    [apply Nat.leb_le | apply Nat.leb_gt]; [specialize (Hge ltac:(lia))|specialize (Hlt ltac:(lia))];
    lia.
Qed.

(** Two integers with the same thresholds are equal. *)
Lemma threshold_unique a b : (forall t, (t <=? a) = (t <=? b)) -> a = b.
Proof.
  intros H. pose proof (H a) as Ha. pose proof (H b) as Hb.
  rewrite Z.leb_refl in *. symmetry in Ha. apply Z.leb_le in Ha, Hb. lia.
Qed.

(** The zero-one principle for medians. *)
Lemma zero_one p o win (s : list Z) :
  within (length s) p = true -> (o < length s)%nat ->
  win <> [] -> Forall (fun i => (i < length s)%nat) win ->
  (forall bs, length bs = length s ->
    exec bool_comparator p bs !!! o = majority (map (fun i => bs !!! i) win)) ->
  exec ScalarComparator p s !!! o = median (map (fun i => s !!! i) win).
Proof.
  intros Hw Ho Hne Hwin Hb. apply threshold_unique. intros t.
  rewrite median_threshold by (by destruct win).
  set (bs := map (fun a => t <=? a) s).
  assert (Forall2 (above t) s bs) as HF.
  { subst bs. apply Forall2_fmap_r, Forall_Forall2_diag, Forall_true. done. }
  pose proof (exec_rel _ _ _ (scalar_respects_above t) p s bs Hw HF) as Hrun.
  pose proof (lookup_rel _ _ _ o Hrun) as Hout. rewrite length_exec in Hout.
  unfold above in Hout. rewrite <- Hout, Hb by (try done; apply length_map).
  f_equal. rewrite map_map. apply map_ext_in. intros i Hi%list_elem_of_In.
  rewrite Forall_forall in Hwin. apply (lookup_rel _ _ _ i HF). by apply Hwin.
Qed.

(** ** Programs made of blocks on disjoint cells *)

(** The cells [f 0 ... f (n-1)] of a store. *)
Definition gather {T} `{Inhabited T} (f : nat -> nat) (n : nat) (s : list T) : list T :=
  map (fun i => s !!! f i) (seq 0 n).

Section blocks.
Context {T : Type} `{Inhabited T} (C : Comparator T).
Implicit Types (f : nat -> nat) (s : list T) (p : list instr).

Lemma length_gather f n s : length (gather f n s) = n.
Proof. unfold gather. by rewrite length_map, length_seq. Qed.

Lemma lookup_gather f n s a : (a < n)%nat -> gather f n s !!! a = s !!! f a.
Proof.
  intros Ha. apply list_lookup_total_correct. unfold gather.
  rewrite list_lookup_fmap, lookup_seq_lt by done. done.
Qed.

Lemma gather_ext f n s t :
  (forall i, (i < n)%nat -> s !!! f i = t !!! f i) -> gather f n s = gather f n t.
Proof.
  intros Hst. apply map_ext_in. intros i Hi%in_seq. apply Hst. lia.
Qed.

Lemma gather_insert f n s d x :
  (forall i, (i < n)%nat -> f i = f d -> i = d) -> (d < n)%nat -> (f d < length s)%nat ->
  gather f n (<[f d := x]> s) = <[d := x]> (gather f n s).
Proof.
  intros Hinj Hd Hfd. apply list_eq_same_length with n;
    rewrite ?length_insert, ?length_gather; try done.
  intros i a b Hi Ha Hb. apply list_lookup_total_correct in Ha, Hb.
  rewrite <- Ha, <- Hb. rewrite lookup_gather by done. destruct (decide (i = d)) as [->|Hne].
  - by rewrite !list_lookup_total_insert_eq by (rewrite ?length_gather; done).
  - assert (f d <> f i) by (intros Heq; by apply Hne, Hinj).
    rewrite !list_lookup_total_insert_ne by done. by rewrite lookup_gather.
Qed.

(** Running a renamed program is running it on the renamed cells. *)
Lemma exec_rename f n p : forall s,
  (forall i, (i < n)%nat -> (f i < length s)%nat) ->
  (forall i j, (i < n)%nat -> (j < n)%nat -> f i = f j -> i = j) ->
  within n p = true ->
  gather f n (exec C (map (rename f) p) s) = exec C p (gather f n s) /\
  forall k, (forall i, (i < n)%nat -> f i <> k) ->
    exec C (map (rename f) p) s !!! k = s !!! k.
Proof.
  induction p as [|i p IH]; intros s Hlen Hinj Hw; [done|].
  apply within_cons in Hw as [Hc Hw]. simpl.
  assert (gather f n (exec_instr C s (rename f i)) = exec_instr C (gather f n s) i /\
    forall k, (forall j, (j < n)%nat -> f j <> k) ->
      exec_instr C s (rename f i) !!! k = s !!! k) as [Hg Hk].
  { destruct i; simpl in *; decompose_Forall; rewrite ?lookup_gather by done;
      try destruct (compare_and_swap _ _ _);
      (split; [by rewrite ?gather_insert by (rewrite ?length_insert; auto)
             |intros k Hk; by rewrite ?list_lookup_total_insert_ne by auto]). }
  destruct (IH (exec_instr C s (rename f i))) as [IH1 IH2]; [|done|done|].
  { intros j Hj. rewrite length_exec_instr. by apply Hlen. }
  rewrite <- Hg. split; [exact IH1|]. intros k Hfk. rewrite <- Hk by done. by apply IH2.
Qed.

(** Block [j] works on the cells [f j 0 ... f j (n-1)]. *)
Fixpoint blocks_program (f : nat -> nat -> nat) (k : nat) (ps : list (list instr))
    : list instr :=
  match ps with
  | [] => []
  | p :: ps => map (rename (f k)) p ++ blocks_program f (S k) ps
  end.

Lemma exec_blocks (f : nat -> nat -> nat) n : forall ps k s,
  (forall j i, (j < k + length ps)%nat -> (i < n)%nat -> (f j i < length s)%nat) ->
  (forall j i j' i', (j < k + length ps)%nat -> (j' < k + length ps)%nat ->
    (i < n)%nat -> (i' < n)%nat -> f j i = f j' i' -> j = j' /\ i = i') ->
  forallb (within n) ps = true ->
  (forall j, (j < k)%nat -> gather (f j) n (exec C (blocks_program f k ps) s) = gather (f j) n s) /\
  (forall j p, ps !! j = Some p ->
    gather (f (k + j)%nat) n (exec C (blocks_program f k ps) s) =
    exec C p (gather (f (k + j)%nat) n s)).
Proof.
  induction ps as [|p ps IH]; intros k s Hlen Hdis Hw; [by split_and!|].
  apply andb_true_iff in Hw as [Hp Hw]. simpl in Hlen, Hdis. simpl.
  destruct (exec_rename (f k) n p s) as [Hg Hout]; [intros; apply Hlen; lia| |done|].
  { intros i j Hi Hj Heq. destruct (Hdis k i k j); done || lia. }
  set (s1 := exec C (map (rename (f k)) p) s) in *.
  destruct (IH (S k) s1) as (IH1 & IH2); [| |done|].
  { intros. subst s1. rewrite length_exec. apply Hlen; lia. }
  { intros. apply Hdis; try done; lia. }
  assert (forall j, (j < k + S (length ps))%nat -> j <> k ->
    gather (f j) n s1 = gather (f j) n s) as Hother.
  { intros j Hjl Hj. apply gather_ext. intros i Hi. apply Hout. intros i' Hi' Heq.
    destruct (Hdis k i' j i); congruence || lia. }
  rewrite exec_app. fold s1. split.
  - intros j Hj. rewrite IH1 by lia. apply Hother; lia.
  - intros [|j] q Hq.
    + rewrite Nat.add_0_r. injection Hq as <-. rewrite IH1 by lia. done.
    + specialize (IH2 j q Hq). replace (k + S j)%nat with (S k + j)%nat by lia.
      rewrite IH2. f_equal. apply lookup_lt_Some in Hq. simpl in Hq. apply Hother; lia.
Qed.
End blocks.

(** ** Finite checks of boolean networks

    All the inputs of a window of 49 pixels are too many to enumerate.  A network
    that first sorts columns and then rows is checked block by block, and its
    last phase only on the staircases the first two can produce. *)

Fixpoint bool_vectors (n : nat) : list (list bool) :=
  match n with
  | O => [[]]
  | S n => flat_map (fun v => [false :: v; true :: v]) (bool_vectors n)
  end.

Lemma bool_vectors_complete bs : In bs (bool_vectors (length bs)).
Proof.
  induction bs as [|b bs IH]; [by left|]. simpl. apply in_flat_map.
  exists bs. split; [done|]. destruct b; simpl; auto.
Qed.

(** Weight vectors: [n] numbers in [lo, hi], arbitrary or in monotone order. *)
Fixpoint vectors (n lo hi : nat) : list (list nat) :=
  match n with
  | O => [[]]
  | S n => flat_map (fun x => map (cons x) (vectors n lo hi)) (seq lo (S hi - lo))
  end.

Fixpoint staircases (asc : bool) (n lo hi : nat) : list (list nat) :=
  match n with
  | O => [[]]
  | S n => flat_map (fun x => map (cons x)
      (if asc then staircases asc n x hi else staircases asc n lo x)) (seq lo (S hi - lo))
  end.

Definition in_order (asc : bool) (x y : nat) : bool := if asc then Nat.leb x y else Nat.leb y x.

Fixpoint chain (asc : bool) (l : list nat) : bool :=
  match l with
  | x :: (y :: _) as l' => in_order asc x y && chain asc l'
  | _ => true
  end.

Lemma chain_cons asc x l : chain asc (x :: l) = true ->
  chain asc l = true /\ Forall (fun y => in_order asc x y = true) l.
Proof.
  revert x. induction l as [|y l IH]; intros x Hc; [done|].
  apply andb_true_iff in Hc as [Hxy Hc]. split; [done|].
  destruct (IH y Hc) as [_ Hall]. constructor; [done|].
  eapply Forall_impl; [exact Hall|]. intros z Hyz.
  unfold in_order in *. destruct asc; apply Nat.leb_le in Hxy, Hyz; apply Nat.leb_le; lia.
Qed.

Lemma chain_intro asc (l : list nat) :
  (forall i, (S i < length l)%nat -> in_order asc (l !!! i) (l !!! S i) = true) ->
  chain asc l = true.
Proof.
  induction l as [|x [|y l] IH]; intros H; [done..|].
  apply andb_true_iff. split; [apply (H O); simpl; lia|].
  apply IH. intros i Hi. apply (H (S i)). simpl in *. lia.
Qed.

Lemma chain_lookup asc (l : list nat) i : chain asc l = true -> (S i < length l)%nat ->
  in_order asc (l !!! i) (l !!! S i) = true.
Proof.
  revert i. induction l as [|x [|y l] IH]; intros i Hc Hi; simpl in Hi; try lia.
  apply andb_true_iff in Hc as [Hxy Hc]. destruct i as [|i]; [done|].
  apply (IH i Hc). simpl. lia.
Qed.

Lemma staircases_complete asc l : forall lo hi, chain asc l = true ->
  Forall (fun x => (lo <= x <= hi)%nat) l -> In l (staircases asc (length l) lo hi).
Proof.
  induction l as [|x l IH]; intros lo hi Hc HF; [by left|].
  apply Forall_cons in HF as [Hx HF]. apply chain_cons in Hc as [Hc Hall].
  simpl. apply in_flat_map. exists x. split; [apply in_seq; lia|].
  apply in_map. destruct asc; apply IH; try done; apply Forall_forall; intros y Hy;
    rewrite Forall_forall in HF, Hall; specialize (HF y Hy); specialize (Hall y Hy);
    apply Nat.leb_le in Hall; lia.
Qed.

Lemma vectors_complete l lo hi :
  Forall (fun x => (lo <= x <= hi)%nat) l -> In l (vectors (length l) lo hi).
Proof.
  induction 1 as [|x l Hx _ IH]; [by left|]. simpl. apply in_flat_map.
  exists x. split; [apply in_seq; lia|]. by apply in_map.
Qed.

(** Outputs of a program on all inputs of one weight, where they agree. *)
Fixpoint agree (v : list bool) (o : list (option bool)) : list (option bool) :=
  match v, o with
  | b :: v, x :: o => (match x with Some c => if eqb b c then x else None | None => None end)
      :: agree v o
  | _, _ => []
  end.

Definition row_table (K : nat) (p : list instr) : list (list (option bool)) :=
  map (fun w =>
    let outs := map (exec bool_comparator p)
      (List.filter (fun v => Nat.eqb (weight v) w) (bool_vectors K)) in
    match outs with
    | [] => []
    | v :: vs => fold_right agree (map Some v) vs
    end) (seq 0 (S K)).

Fixpoint known_list (v : list bool) (o : list (option bool)) : bool :=
  match v, o with
  | [], [] => true
  | b :: v, x :: o => (match x with Some c => eqb b c | None => true end) && known_list v o
  | _, _ => false
  end.

Lemma known_list_spec v o : known_list v o = true -> Forall2 known v o.
Proof.
  revert o. induction v as [|b v IH]; intros [|x o] H; try done.
  apply andb_true_iff in H as [Hx H]. constructor; [|by apply IH].
  destruct x as [c|]; [right|by left]. f_equal. symmetry. by apply eqb_prop.
Qed.

(** The tables describe the row programs. *)
Fixpoint rows_ok (K : nat) (ps : list (list instr)) (tabs : list (list (list (option bool))))
    : bool :=
  match ps, tabs with
  | [], [] => true
  | p :: ps, tab :: tabs =>
      forallb (fun v => known_list (exec bool_comparator p v) (tab !!! weight v))
        (bool_vectors K) && rows_ok K ps tabs
  | _, _ => false
  end.

Definition row_state (tabs : list (list (list (option bool)))) (r : list nat)
    : list (option bool) := concat (zip_with (fun tab w => tab !!! w) tabs r).

Definition rowidx (K i j : nat) : nat := (i * K + j)%nat.
Definition colidx (K j i : nat) : nat := (i * K + j)%nat.

Definition row_weights (K m : nat) (bs : list bool) : list nat :=
  map (fun i => weight (gather (rowidx K i) K bs)) (seq 0 m).

Lemma split_rows {T} `{Inhabited T} K : forall m (s : list T), (m * K <= length s)%nat ->
  s = concat (map (fun i => gather (rowidx K i) K s) (seq 0 m)) ++ drop (m * K) s.
Proof.
  induction m as [|m IH]; intros s Hs; [done|].
  rewrite seq_S, map_app, concat_app. simpl. rewrite app_nil_r, <- app_assoc.
  rewrite (IH s) at 1 by lia. f_equal.
  rewrite <- (take_drop K (drop (m * K) s)) at 1. rewrite drop_drop.
  f_equal; [|f_equal; lia]. apply list_eq_same_length with K.
  - by rewrite length_gather.
  - rewrite length_take, length_drop. simpl in Hs. lia.
  - intros i x y Hi Hx Hy. apply list_lookup_total_correct in Hy.
    rewrite lookup_take_lt, lookup_drop in Hx by done. apply list_lookup_total_correct in Hx.
    rewrite lookup_gather in Hy by done. unfold rowidx in Hy. congruence.
Qed.

(** ** Row weights and column weights *)

Fixpoint nsum (g : nat -> nat) (n : nat) : nat :=
  match n with O => O | S n => (nsum g n + g n)%nat end.

Lemma nsum_ext g h n : (forall i, (i < n)%nat -> g i = h i) -> nsum g n = nsum h n.
Proof. induction n as [|n IH]; intros H; simpl; [done|]. rewrite IH, H; auto. Qed.

Lemma nsum_le g h n : (forall i, (i < n)%nat -> (g i <= h i)%nat) -> (nsum g n <= nsum h n)%nat.
Proof. induction n as [|n IH]; intros H; simpl; [done|]. apply Nat.add_le_mono; auto. Qed.

Lemma nsum_add g h n : nsum (fun i => g i + h i)%nat n = (nsum g n + nsum h n)%nat.
Proof. induction n as [|n IH]; simpl; lia. Qed.

Lemma nsum_swap g n m :
  nsum (fun i => nsum (g i) m) n = nsum (fun j => nsum (fun i => g i j) n) m.
Proof.
  induction n as [|n IH]; simpl.
  - induction m as [|m IHm]; simpl; lia.
  - by rewrite IH, <- nsum_add.
Qed.

Definition bit (b : bool) : nat := if b then 1%nat else 0%nat.

Lemma lookup_map_bit (l : list bool) i : (i < length l)%nat -> map bit l !!! i = bit (l !!! i).
Proof.
  intros Hi. apply list_lookup_total_correct.
  by rewrite list_lookup_fmap, (list_lookup_lookup_total_lt l i Hi).
Qed.

Lemma weight_map_seq (g : nat -> bool) n : weight (map g (seq 0 n)) = nsum (fun i => bit (g i)) n.
Proof.
  induction n as [|n IH]; [done|]. rewrite seq_S, map_app, weight_app, IH. simpl.
  unfold bit. destruct (g n); lia.
Qed.

Lemma weight_gather f n bs : weight (gather f n bs) = nsum (fun i => bit (bs !!! f i)) n.
Proof. apply weight_map_seq. Qed.

Lemma weight_concat (ls : list (list bool)) : weight (concat ls) = sum_list (map weight ls).
Proof. induction ls as [|l ls IH]; [done|]. simpl. by rewrite weight_app, IH. Qed.

Lemma sum_list_map_seq g n : sum_list (map g (seq 0 n)) = nsum g n.
Proof.
  induction n as [|n IH]; [done|]. rewrite seq_S, map_app, sum_list_with_app, IH.
  simpl. lia.
Qed.

Lemma sum_row_weights K m bs : length bs = (m * K)%nat ->
  sum_list (row_weights K m bs) = weight bs.
Proof.
  intros Hlen. rewrite (split_rows K m bs) at 2 by lia.
  rewrite drop_ge by lia. rewrite app_nil_r, weight_concat, map_map. done.
Qed.

(** The weight of a square is the sum of its column weights. *)
Lemma weight_columns K bs : length bs = (K * K)%nat ->
  weight bs = nsum (fun j => weight (gather (colidx K j) K bs)) K.
Proof.
  intros Hlen. rewrite <- (sum_row_weights K K) by done.
  unfold row_weights. rewrite sum_list_map_seq.
  rewrite (nsum_ext _ (fun i => nsum (fun j => bit (bs !!! (i * K + j)%nat)) K))
    by (intros; apply weight_gather).
  rewrite nsum_swap. apply nsum_ext. intros j _. symmetry. apply weight_gather.
Qed.

Lemma length_row_weights K m bs : length (row_weights K m bs) = m.
Proof. unfold row_weights. by rewrite length_map, length_seq. Qed.

Lemma row_weights_bound K m bs :
  Forall (fun x => (0 <= x <= K)%nat) (row_weights K m bs).
Proof.
  apply Forall_forall. intros x Hx%list_elem_of_In. unfold row_weights in Hx.
  apply in_map_iff in Hx as (i & <- & _).
  pose proof (weight_le_length (gather (rowidx K i) K bs)) as Hw.
  rewrite length_gather in Hw. lia.
Qed.

Lemma lookup_row_weights K m bs i : (i < m)%nat ->
  row_weights K m bs !!! i = weight (gather (rowidx K i) K bs).
Proof.
  intros Hi. apply list_lookup_total_correct. unfold row_weights.
  rewrite list_lookup_fmap, lookup_seq_lt by done. done.
Qed.

(** Weights can be lowered and raised one bit at a time. *)
Lemma weight_shrink k bs : (k <= weight bs)%nat ->
  exists bs', Forall2 bool_le bs' bs /\ weight bs' = k.
Proof.
  revert k. induction bs as [|b bs IH]; intros k Hk; simpl in Hk.
  - exists []. split; [constructor|simpl; lia].
  - destruct b, k as [|k].
    + destruct (IH 0%nat) as (bs' & ? & ?); [lia|]. exists (false :: bs').
      split; [|done]. by constructor.
    + destruct (IH k) as (bs' & ? & ?); [lia|]. exists (true :: bs').
      split; [by constructor|simpl; lia].
    + destruct (IH 0%nat) as (bs' & ? & ?); [lia|]. exists (false :: bs').
      split; [|done]. by constructor.
    + destruct (IH (S k)) as (bs' & ? & ?); [lia|]. exists (false :: bs').
      split; [|done]. by constructor.
Qed.

Lemma weight_grow k bs : (weight bs <= k <= length bs)%nat ->
  exists bs', Forall2 bool_le bs bs' /\ weight bs' = k.
Proof.
  revert k. induction bs as [|b bs IH]; intros k Hk; simpl in Hk.
  - exists []. split; [constructor|simpl; lia].
  - destruct (decide (k <= length bs /\ b = false)%nat) as [[Hle ->]|Hn].
    + destruct (IH k) as (bs' & ? & ?); [lia|]. exists (false :: bs').
      split; [|done]. by constructor.
    + destruct (IH (k - 1)%nat) as (bs' & ? & ?).
      { pose proof (weight_le_length bs). destruct b; lia || (assert (~ (k <= length bs)%nat) by tauto; lia). }
      exists (true :: bs'). split; [by constructor|]. simpl.
      destruct b; [lia|]. assert (~ (k <= length bs)%nat) by tauto. lia.
Qed.

(** ** Networks in phases *)

Lemma rowidx_inj K j i j' i' : (i < K)%nat -> (i' < K)%nat ->
  rowidx K j i = rowidx K j' i' -> j = j' /\ i = i'.
Proof. unfold rowidx. intros. apply (Nat.div_mod_unique K); lia. Qed.

Lemma colidx_inj K j i j' i' : (j < K)%nat -> (j' < K)%nat ->
  colidx K j i = colidx K j' i' -> j = j' /\ i = i'.
Proof.
  unfold colidx. intros. assert (i = i' /\ j = j') by (apply (Nat.div_mod_unique K); lia). tauto.
Qed.

Lemma bool_vectors_gather f n (bs : list bool) : In (gather f n bs) (bool_vectors n).
Proof.
  pose proof (bool_vectors_complete (gather f n bs)) as H. by rewrite length_gather in H.
Qed.

Lemma rows_known K (bs s : list bool) : forall ps tabs a,
  rows_ok K ps tabs = true ->
  (forall j p, ps !! j = Some p -> gather (rowidx K (a + j)%nat) K s =
    exec bool_comparator p (gather (rowidx K (a + j)%nat) K bs)) ->
  Forall2 known
    (concat (map (fun i => gather (rowidx K i) K s) (seq a (length ps))))
    (row_state tabs (map (fun i => weight (gather (rowidx K i) K bs)) (seq a (length ps)))).
Proof.
  induction ps as [|p ps IH]; intros [|tab tabs] a Hok Hrow; try done.
  cbn [rows_ok] in Hok. apply andb_true_iff in Hok as [Hp Hok]. simpl. unfold row_state. simpl.
  apply Forall2_app.
  - pose proof (Hrow O p eq_refl) as H0. rewrite Nat.add_0_r in H0. rewrite H0.
    apply known_list_spec. rewrite forallb_forall in Hp. apply Hp.
    apply bool_vectors_gather.
  - apply (IH tabs (S a) Hok). intros j q Hq. specialize (Hrow (S j) q Hq).
    replace (S a + j)%nat with (a + S j)%nat by lia. done.
Qed.

(** Rows of [K], then anything: the last phase need only be run on the tables. *)
Lemma rows_phase K ps tabs t bs :
  (0 < K)%nat -> rows_ok K ps tabs = true -> forallb (within K) ps = true ->
  length bs = (length ps * K + t)%nat ->
  Forall2 known (exec bool_comparator (blocks_program (rowidx K) 0 ps) bs)
    (row_state tabs (row_weights K (length ps) bs) ++ replicate t None).
Proof.
  intros HK Hok Hw Hlen.
  destruct (exec_blocks bool_comparator (rowidx K) K ps 0 bs) as [_ Hrow];
    [|intros; by apply (rowidx_inj K)|done|].
  { intros j i Hj Hi. unfold rowidx. simpl in Hj. nia. }
  set (s := exec _ _ bs) in *.
  assert (length s = (length ps * K + t)%nat) as Hls by (subst s; by rewrite length_exec).
  rewrite (split_rows K (length ps) s) by lia. apply Forall2_app.
  - by apply rows_known.
  - assert (length (drop (length ps * K) s) = t) as Hd by (rewrite length_drop; lia).
    rewrite <- Hd. generalize (drop (length ps * K) s). intros l.
    induction l; simpl; constructor; [by left|done].
Qed.

Lemma known_run p o s t b :
  within (length s) p = true -> (o < length s)%nat -> Forall2 known s t ->
  exec partial_comparator p t !!! o = Some b -> exec bool_comparator p s !!! o = b.
Proof.
  intros Hw Ho HF Hb.
  pose proof (exec_rel _ _ _ bool_respects_known p s t Hw HF) as Hrun.
  pose proof (lookup_rel _ _ _ o Hrun) as Hout. rewrite length_exec in Hout.
  destruct (Hout Ho) as [Hn|Hs]; congruence.
Qed.

(** Row phase then last phase. *)
Lemma rows_network K ps tabs t last o bs b :
  (0 < K)%nat -> rows_ok K ps tabs = true -> forallb (within K) ps = true ->
  within (length ps * K + t) last = true -> (o < length ps * K + t)%nat ->
  length bs = (length ps * K + t)%nat ->
  exec partial_comparator last
    (row_state tabs (row_weights K (length ps) bs) ++ replicate t None) !!! o = Some b ->
  exec bool_comparator (blocks_program (rowidx K) 0 ps ++ last) bs !!! o = b.
Proof.
  intros HK Hok Hw Hwl Ho Hlen Hb. rewrite exec_app.
  eapply known_run; [..|exact Hb]; rewrite ?length_exec, ?Hlen; try done.
  by apply rows_phase.
Qed.

Lemma within_blocks f n N : forall ps k,
  (forall j i, (j < k + length ps)%nat -> (i < n)%nat -> (f j i < N)%nat) ->
  forallb (within n) ps = true -> within N (blocks_program f k ps) = true.
Proof.
  induction ps as [|p ps IH]; intros k Hf Hw; [done|].
  apply andb_true_iff in Hw as [Hp Hw]. simpl in *. rewrite within_app.
  apply andb_true_iff. split.
  - apply (within_rename n); [|done]. intros i Hi. apply Hf; lia.
  - apply IH; [|done]. intros j i Hj Hi. apply Hf; lia.
Qed.

Lemma forallb_replicate {T} (P : T -> bool) k x : P x = true -> forallb P (replicate k x) = true.
Proof. intros HP. induction k as [|k IH]; [done|]. simpl. by rewrite HP. Qed.

(** The columns are sorted: same weights, and each row below the next. *)
Definition column_ok (asc : bool) (K : nat) (p : list instr) : bool :=
  forallb (fun v => let v' := exec bool_comparator p v in
    Nat.eqb (weight v') (weight v) && chain asc (map bit v')) (bool_vectors K).

Lemma columns_phase asc K p bs :
  column_ok asc K p = true -> within K p = true -> length bs = (K * K)%nat ->
  let s := exec bool_comparator (blocks_program (colidx K) 0 (replicate K p)) bs in
  weight s = weight bs /\ chain asc (row_weights K K s) = true.
Proof.
  intros Hok Hw Hlen s. unfold column_ok in Hok. rewrite forallb_forall in Hok.
  assert (length s = K * K)%nat as Hls by (subst s; by rewrite length_exec).
  assert (forall j, (j < K)%nat -> gather (colidx K j) K s =
    exec bool_comparator p (gather (colidx K j) K bs)) as Hcol.
  { destruct (exec_blocks bool_comparator (colidx K) K (replicate K p) 0 bs) as [_ Hcol].
    - intros j i Hj Hi. rewrite length_replicate in Hj. unfold colidx. nia.
    - intros. rewrite length_replicate in *. by apply (colidx_inj K).
    - by apply forallb_replicate.
    - intros j Hj. apply (Hcol j p). by apply lookup_replicate. }
  assert (forall j, (j < K)%nat ->
    weight (gather (colidx K j) K s) = weight (gather (colidx K j) K bs) /\
    chain asc (map bit (gather (colidx K j) K s)) = true) as Hspec.
  { intros j Hj. rewrite Hcol by done.
    specialize (Hok _ (bool_vectors_gather (colidx K j) K bs)).
    apply andb_true_iff in Hok as [Hwt%Nat.eqb_eq Hch]. done. }
  split.
  - rewrite !(weight_columns K) by done. apply nsum_ext. intros j Hj. by apply Hspec.
  - apply chain_intro. intros i Hi. rewrite length_row_weights in Hi.
    rewrite !lookup_row_weights by lia.
    assert (forall j, (j < K)%nat ->
      in_order asc (bit (s !!! rowidx K i j)) (bit (s !!! rowidx K (S i) j)) = true) as Hle.
    { intros j Hj. destruct (Hspec j Hj) as [_ Hch].
      pose proof (chain_lookup asc _ i Hch) as Hl.
      rewrite length_map, length_gather in Hl. specialize (Hl Hi).
      rewrite !lookup_map_bit in Hl by (rewrite length_gather; lia).
      rewrite !lookup_gather in Hl by lia. exact Hl. }
    rewrite !weight_gather. unfold in_order in *.
    destruct asc; apply Nat.leb_le, nsum_le; intros j Hj; apply Nat.leb_le; by apply Hle.
Qed.

(** A square network is the majority function when its column program sorts, its
    tables describe the row programs, and its last phase is right on the
    staircases of the two decisive weights. *)
Lemma square_network asc K p ps tabs last o bs :
  let M := (K * K / 2)%nat in
  (1 < K)%nat -> length ps = K -> (o < K * K)%nat ->
  column_ok asc K p = true -> within K p = true ->
  rows_ok K ps tabs = true -> forallb (within K) ps = true ->
  within (K * K) last = true ->
  forallb (fun r => let w := sum_list r in
    if Nat.eqb w M || Nat.eqb w (S M)
    then match exec partial_comparator last (row_state tabs r) !!! o with
         | Some b => eqb b (Nat.ltb M w)
         | None => false
         end
    else true) (staircases asc K 0 K) = true ->
  length bs = (K * K)%nat ->
  exec bool_comparator (blocks_program (colidx K) 0 (replicate K p) ++
    blocks_program (rowidx K) 0 ps ++ last) bs !!! o = Nat.ltb M (weight bs).
Proof.
  intros M HK Hps Ho Hcol Hwp Hrows Hwps Hlast Hfin Hlen.
  set (prog := _ ++ _ ++ last).
  assert (forall b, length b = (K * K)%nat -> weight b = M \/ weight b = S M ->
    exec bool_comparator prog b !!! o = Nat.ltb M (weight b)) as Hexact.
  { intros b Hb Hwt. subst prog. rewrite exec_app.
    destruct (columns_phase asc K p b Hcol Hwp Hb) as [Hws Hch].
    set (s := exec _ _ b) in *.
    assert (length s = K * K)%nat as Hls by (subst s; by rewrite length_exec).
    apply (rows_network K ps tabs 0); rewrite ?Hps, ?Nat.add_0_r; try done; [lia|].
    rewrite app_nil_r. rewrite forallb_forall in Hfin.
    assert (In (row_weights K K s) (staircases asc K 0 K)) as Hin.
    { pose proof (staircases_complete asc (row_weights K K s) 0 K Hch
        (row_weights_bound K K s)) as Hin. by rewrite length_row_weights in Hin. }
    specialize (Hfin (row_weights K K s) Hin).
    rewrite sum_row_weights, Hws in Hfin by done.
    assert (Nat.eqb (weight b) M || Nat.eqb (weight b) (S M) = true) as Hc
      by (apply orb_true_iff; rewrite !Nat.eqb_eq; tauto).
    cbv zeta in Hfin. rewrite Hc in Hfin.
    destruct (exec partial_comparator last _ !!! o) as [x|].
    - f_equal. apply eqb_prop, Hfin.
    - exfalso. assert (false = true); [|done]. apply Hfin. }
  assert (within (K * K) prog = true) as Hwprog.
  { subst prog. rewrite !within_app, Hlast, !andb_true_iff. split_and!; [|..|done].
    - apply (within_blocks (colidx K) K); [|by rewrite forallb_replicate].
      intros j i Hj Hi. rewrite length_replicate in Hj. unfold colidx. nia.
    - apply (within_blocks (rowidx K) K); [|done].
      intros j i Hj Hi. unfold rowidx. simpl in Hj. nia. }
  assert (forall b b', length b = (K * K)%nat -> Forall2 bool_le b b' ->
    bool_le (exec bool_comparator prog b !!! o) (exec bool_comparator prog b' !!! o)) as Hmono.
  { intros b b' Hb HF. apply lookup_rel; [|by rewrite length_exec, Hb].
    apply exec_rel; [apply bool_respects_le|by rewrite Hb|done]. }
  unfold bool_le in Hmono. assert (M < K * K)%nat as HM by (apply Nat.div_lt; nia).
  destruct (Nat.ltb_spec M (weight bs)) as [Hgt|Hle].
  - destruct (weight_shrink (S M) bs) as (b & HF & Hwb); [lia|].
    pose proof (Forall2_length _ _ _ HF) as Hlb.
    apply (Hmono b bs); [congruence|done|].
    rewrite Hexact; [apply Nat.ltb_lt; lia|congruence|by right].
  - destruct (weight_grow M bs) as (b & HF & Hwb); [lia|].
    pose proof (Forall2_length _ _ _ HF) as Hlb.
    assert (exec bool_comparator prog b !!! o = false) as Hf.
    { rewrite Hexact; [apply Nat.ltb_ge; lia|congruence|by left]. }
    destruct (exec bool_comparator prog bs !!! o) eqn:Hbs; [|done].
    rewrite (Hmono bs b Hlen HF Hbs) in Hf. done.
Qed.
