(* ===== verification/MedianNetworks.v ===== *)
(** * The median networks

    The sorting networks of [median_blur_sorting_network_{3x3,5x5,7x7}.h], statement
    by statement: [KernelWindow(i, j)] is cell [i * K + j] of the store, local
    variables are cells after the window.  [scalar_path] and [vector_path] of
    [MedianBlurSortingNetwork] run them with the scalar and the vector comparator.
    The theorems show each is the median of its window. *)

From S2P Require Import Prelude Network.

Definition KernelWindow (K i j : nat) : nat := (i * K + j)%nat.

(** ** 3x3 *)

Definition sorting_network3x3_single_row_steps : list instr :=
  let KW := KernelWindow 3 in
  let max_0_1_2 := 9%nat in
  let mid_0_1_2 := 10%nat in
  let min_0_1_2 := 11%nat in
  let src_tmp_0 := 12%nat in
  let src_tmp_2 := 13%nat in
  let output_vec := 14%nat in
  [CompareAndSwap (KW 0 0) (KW 0 2); CompareAndSwap (KW 0 0) (KW 0 1);
   CompareAndSwap (KW 0 1) (KW 0 2); CompareAndSwap (KW 1 0) (KW 1 2);
   CompareAndSwap (KW 1 0) (KW 1 1); CompareAndSwap (KW 1 1) (KW 1 2);
   CompareAndSwap (KW 2 0) (KW 2 2); CompareAndSwap (KW 2 0) (KW 2 1);
   CompareAndSwap (KW 2 1) (KW 2 2); GetMax max_0_1_2 (KW 0 0) (KW 1 0);
   GetMax max_0_1_2 max_0_1_2 (KW 2 0); Copy src_tmp_0 (KW 0 1); Copy mid_0_1_2 (KW 1 1);
   Copy src_tmp_2 (KW 2 1); CompareAndSwap src_tmp_0 src_tmp_2; Max src_tmp_0 mid_0_1_2;
   Min mid_0_1_2 src_tmp_2; GetMin min_0_1_2 (KW 0 2) (KW 1 2);
   GetMin min_0_1_2 min_0_1_2 (KW 2 2); CompareAndSwap min_0_1_2 max_0_1_2;
   Max min_0_1_2 mid_0_1_2; Min mid_0_1_2 max_0_1_2; Copy output_vec mid_0_1_2]%nat.

Definition sorting_network3x3_dual_rows_steps : list instr :=
  let KW := KernelWindow 3 in
  let max_0_1_2 := 12%nat in
  let mid_0_1_2 := 13%nat in
  let min_0_1_2 := 14%nat in
  let src_tmp_0 := 15%nat in
  let output_vec_0 := 16%nat in
  let output_vec_1 := 17%nat in
  [CompareAndSwap (KW 0 0) (KW 0 2); CompareAndSwap (KW 0 0) (KW 0 1);
   CompareAndSwap (KW 0 1) (KW 0 2); CompareAndSwap (KW 1 0) (KW 1 2);
   CompareAndSwap (KW 1 0) (KW 1 1); CompareAndSwap (KW 1 1) (KW 1 2);
   CompareAndSwap (KW 2 0) (KW 2 2); CompareAndSwap (KW 2 0) (KW 2 1);
   CompareAndSwap (KW 2 1) (KW 2 2); CompareAndSwap (KW 3 0) (KW 3 2);
   CompareAndSwap (KW 3 0) (KW 3 1); CompareAndSwap (KW 3 1) (KW 3 2);
   CompareAndSwap (KW 1 0) (KW 2 0); CompareAndSwap (KW 1 2) (KW 2 2);
   CompareAndSwap (KW 1 1) (KW 2 1); GetMax max_0_1_2 (KW 0 0) (KW 2 0);
   GetMin src_tmp_0 (KW 0 1) (KW 2 1); GetMax mid_0_1_2 (KW 1 1) src_tmp_0;
   GetMin min_0_1_2 (KW 0 2) (KW 1 2); CompareAndSwap min_0_1_2 max_0_1_2;
   Max min_0_1_2 mid_0_1_2; Min mid_0_1_2 max_0_1_2; Copy output_vec_0 mid_0_1_2;
   GetMax max_0_1_2 (KW 2 0) (KW 3 0); GetMax src_tmp_0 (KW 1 1) (KW 3 1);
   GetMin mid_0_1_2 (KW 2 1) src_tmp_0; GetMin min_0_1_2 (KW 1 2) (KW 3 2);
   CompareAndSwap min_0_1_2 max_0_1_2; Max min_0_1_2 mid_0_1_2; Min mid_0_1_2 max_0_1_2;
   Copy output_vec_1 mid_0_1_2]%nat.

(** The locals start undefined; any value [u] may stand for them. *)
Definition sorting_network3x3_single_row {T} `{Inhabited T} (C : Comparator T) (u : T)
    (window : list T) : T :=
  exec C sorting_network3x3_single_row_steps (window ++ replicate 6 u) !!! 14%nat.

Definition sorting_network3x3_dual_rows {T} `{Inhabited T} (C : Comparator T) (u : T)
    (window : list T) : T * T :=
  let s := exec C sorting_network3x3_dual_rows_steps (window ++ replicate 6 u) in
  (s !!! 16%nat, s !!! 17%nat).

(** ** 5x5 *)

Definition sorting_network5x5_steps : list instr :=
  let KW := KernelWindow 5 in
  [CompareAndSwap (KW 3 0) (KW 0 0); CompareAndSwap (KW 4 0) (KW 1 0);
   CompareAndSwap (KW 2 0) (KW 0 0); CompareAndSwap (KW 3 0) (KW 1 0);
   CompareAndSwap (KW 1 0) (KW 0 0); CompareAndSwap (KW 4 0) (KW 2 0);
   CompareAndSwap (KW 2 0) (KW 1 0); CompareAndSwap (KW 4 0) (KW 3 0);
   CompareAndSwap (KW 3 0) (KW 2 0); CompareAndSwap (KW 3 1) (KW 0 1);
   CompareAndSwap (KW 4 1) (KW 1 1); CompareAndSwap (KW 2 1) (KW 0 1);
   CompareAndSwap (KW 3 1) (KW 1 1); CompareAndSwap (KW 1 1) (KW 0 1);
   CompareAndSwap (KW 4 1) (KW 2 1); CompareAndSwap (KW 2 1) (KW 1 1);
   CompareAndSwap (KW 4 1) (KW 3 1); CompareAndSwap (KW 3 1) (KW 2 1);
   CompareAndSwap (KW 3 2) (KW 0 2); CompareAndSwap (KW 4 2) (KW 1 2);
   CompareAndSwap (KW 2 2) (KW 0 2); CompareAndSwap (KW 3 2) (KW 1 2);
   CompareAndSwap (KW 1 2) (KW 0 2); CompareAndSwap (KW 4 2) (KW 2 2);
   CompareAndSwap (KW 2 2) (KW 1 2); CompareAndSwap (KW 4 2) (KW 3 2);
   CompareAndSwap (KW 3 2) (KW 2 2); CompareAndSwap (KW 3 3) (KW 0 3);
   CompareAndSwap (KW 4 3) (KW 1 3); CompareAndSwap (KW 2 3) (KW 0 3);
   CompareAndSwap (KW 3 3) (KW 1 3); CompareAndSwap (KW 1 3) (KW 0 3);
   CompareAndSwap (KW 4 3) (KW 2 3); CompareAndSwap (KW 2 3) (KW 1 3);
   CompareAndSwap (KW 4 3) (KW 3 3); CompareAndSwap (KW 3 3) (KW 2 3);
   CompareAndSwap (KW 3 4) (KW 0 4); CompareAndSwap (KW 4 4) (KW 1 4);
   CompareAndSwap (KW 2 4) (KW 0 4); CompareAndSwap (KW 3 4) (KW 1 4);
   CompareAndSwap (KW 1 4) (KW 0 4); CompareAndSwap (KW 4 4) (KW 2 4);
   CompareAndSwap (KW 2 4) (KW 1 4); CompareAndSwap (KW 4 4) (KW 3 4);
   CompareAndSwap (KW 3 4) (KW 2 4); CompareAndSwap (KW 0 3) (KW 0 0);
   CompareAndSwap (KW 0 4) (KW 0 1); CompareAndSwap (KW 0 2) (KW 0 0);
   CompareAndSwap (KW 0 3) (KW 0 1); Min (KW 0 1) (KW 0 0); CompareAndSwap (KW 0 4) (KW 0 2);
   Min (KW 0 2) (KW 0 1); CompareAndSwap (KW 0 4) (KW 0 3); Min (KW 0 3) (KW 0 2);
   CompareAndSwap (KW 1 3) (KW 1 0); CompareAndSwap (KW 1 4) (KW 1 1);
   CompareAndSwap (KW 1 2) (KW 1 0); CompareAndSwap (KW 1 3) (KW 1 1); Min (KW 1 1) (KW 1 0);
   CompareAndSwap (KW 1 4) (KW 1 2); Min (KW 1 2) (KW 1 1); CompareAndSwap (KW 1 4) (KW 1 3);
   CompareAndSwap (KW 1 3) (KW 1 2); CompareAndSwap (KW 2 3) (KW 2 0);
   CompareAndSwap (KW 2 4) (KW 2 1); CompareAndSwap (KW 2 2) (KW 2 0);
   CompareAndSwap (KW 2 3) (KW 2 1); Min (KW 2 1) (KW 2 0); CompareAndSwap (KW 2 4) (KW 2 2);
   CompareAndSwap (KW 2 2) (KW 2 1); Max (KW 2 4) (KW 2 3); CompareAndSwap (KW 2 3) (KW 2 2);
   CompareAndSwap (KW 3 3) (KW 3 0); CompareAndSwap (KW 3 4) (KW 3 1);
   CompareAndSwap (KW 3 2) (KW 3 0); CompareAndSwap (KW 3 3) (KW 3 1);
   CompareAndSwap (KW 3 1) (KW 3 0); CompareAndSwap (KW 3 4) (KW 3 2);
   CompareAndSwap (KW 3 2) (KW 3 1); Max (KW 3 4) (KW 3 3); Max (KW 3 3) (KW 3 2);
   CompareAndSwap (KW 4 3) (KW 4 0); CompareAndSwap (KW 4 4) (KW 4 1);
   CompareAndSwap (KW 4 2) (KW 4 0); Max (KW 4 3) (KW 4 1); CompareAndSwap (KW 4 1) (KW 4 0);
   Max (KW 4 4) (KW 4 2); Max (KW 4 2) (KW 4 1); Min (KW 2 1) (KW 0 3); Min (KW 3 0) (KW 1 2);
   Min (KW 3 0) (KW 2 1); CompareAndSwap (KW 3 1) (KW 0 4); CompareAndSwap (KW 4 0) (KW 1 3);
   CompareAndSwap (KW 2 2) (KW 0 4); CompareAndSwap (KW 3 1) (KW 1 3); Min (KW 1 3) (KW 0 4);
   CompareAndSwap (KW 4 0) (KW 2 2); Min (KW 2 2) (KW 1 3); Max (KW 4 0) (KW 3 1);
   Max (KW 3 1) (KW 2 2); Max (KW 3 2) (KW 1 4); Max (KW 4 1) (KW 2 3); Max (KW 2 3) (KW 1 4);
   CompareAndSwap (KW 3 0) (KW 1 4); Min (KW 2 2) (KW 1 4); Max (KW 3 0) (KW 2 2)]%nat.

Definition sorting_network5x5 {T} `{Inhabited T} (C : Comparator T) (window : list T) : T :=
  exec C sorting_network5x5_steps window !!! KernelWindow 5 2 2.

(** ** 7x7 *)

Definition sorting_network7x7_steps : list instr :=
  let KW := KernelWindow 7 in
  [CompareAndSwap (KW 0 0) (KW 6 0); CompareAndSwap (KW 2 0) (KW 3 0);
   CompareAndSwap (KW 4 0) (KW 5 0); CompareAndSwap (KW 0 0) (KW 2 0);
   CompareAndSwap (KW 1 0) (KW 4 0); CompareAndSwap (KW 3 0) (KW 6 0);
   CompareAndSwap (KW 0 0) (KW 1 0); CompareAndSwap (KW 2 0) (KW 5 0);
   CompareAndSwap (KW 3 0) (KW 4 0); CompareAndSwap (KW 1 0) (KW 2 0);
   CompareAndSwap (KW 4 0) (KW 6 0); CompareAndSwap (KW 2 0) (KW 3 0);
   CompareAndSwap (KW 4 0) (KW 5 0); CompareAndSwap (KW 1 0) (KW 2 0);
   CompareAndSwap (KW 3 0) (KW 4 0); CompareAndSwap (KW 5 0) (KW 6 0);
   CompareAndSwap (KW 0 1) (KW 6 1); CompareAndSwap (KW 2 1) (KW 3 1);
   CompareAndSwap (KW 4 1) (KW 5 1); CompareAndSwap (KW 0 1) (KW 2 1);
   CompareAndSwap (KW 1 1) (KW 4 1); CompareAndSwap (KW 3 1) (KW 6 1);
   CompareAndSwap (KW 0 1) (KW 1 1); CompareAndSwap (KW 2 1) (KW 5 1);
   CompareAndSwap (KW 3 1) (KW 4 1); CompareAndSwap (KW 1 1) (KW 2 1);
   CompareAndSwap (KW 4 1) (KW 6 1); CompareAndSwap (KW 2 1) (KW 3 1);
   CompareAndSwap (KW 4 1) (KW 5 1); CompareAndSwap (KW 1 1) (KW 2 1);
   CompareAndSwap (KW 3 1) (KW 4 1); CompareAndSwap (KW 5 1) (KW 6 1);
   CompareAndSwap (KW 0 2) (KW 6 2); CompareAndSwap (KW 2 2) (KW 3 2);
   CompareAndSwap (KW 4 2) (KW 5 2); CompareAndSwap (KW 0 2) (KW 2 2);
   CompareAndSwap (KW 1 2) (KW 4 2); CompareAndSwap (KW 3 2) (KW 6 2);
   CompareAndSwap (KW 0 2) (KW 1 2); CompareAndSwap (KW 2 2) (KW 5 2);
   CompareAndSwap (KW 3 2) (KW 4 2); CompareAndSwap (KW 1 2) (KW 2 2);
   CompareAndSwap (KW 4 2) (KW 6 2); CompareAndSwap (KW 2 2) (KW 3 2);
   CompareAndSwap (KW 4 2) (KW 5 2); CompareAndSwap (KW 1 2) (KW 2 2);
   CompareAndSwap (KW 3 2) (KW 4 2); CompareAndSwap (KW 5 2) (KW 6 2);
   CompareAndSwap (KW 0 3) (KW 6 3); CompareAndSwap (KW 2 3) (KW 3 3);
   CompareAndSwap (KW 4 3) (KW 5 3); CompareAndSwap (KW 0 3) (KW 2 3);
   CompareAndSwap (KW 1 3) (KW 4 3); CompareAndSwap (KW 3 3) (KW 6 3);
   CompareAndSwap (KW 0 3) (KW 1 3); CompareAndSwap (KW 2 3) (KW 5 3);
   CompareAndSwap (KW 3 3) (KW 4 3); CompareAndSwap (KW 1 3) (KW 2 3);
   CompareAndSwap (KW 4 3) (KW 6 3); CompareAndSwap (KW 2 3) (KW 3 3);
   CompareAndSwap (KW 4 3) (KW 5 3); CompareAndSwap (KW 1 3) (KW 2 3);
   CompareAndSwap (KW 3 3) (KW 4 3); CompareAndSwap (KW 5 3) (KW 6 3);
   CompareAndSwap (KW 0 4) (KW 6 4); CompareAndSwap (KW 2 4) (KW 3 4);
   CompareAndSwap (KW 4 4) (KW 5 4); CompareAndSwap (KW 0 4) (KW 2 4);
   CompareAndSwap (KW 1 4) (KW 4 4); CompareAndSwap (KW 3 4) (KW 6 4);
   CompareAndSwap (KW 0 4) (KW 1 4); CompareAndSwap (KW 2 4) (KW 5 4);
   CompareAndSwap (KW 3 4) (KW 4 4); CompareAndSwap (KW 1 4) (KW 2 4);
   CompareAndSwap (KW 4 4) (KW 6 4); CompareAndSwap (KW 2 4) (KW 3 4);
   CompareAndSwap (KW 4 4) (KW 5 4); CompareAndSwap (KW 1 4) (KW 2 4);
   CompareAndSwap (KW 3 4) (KW 4 4); CompareAndSwap (KW 5 4) (KW 6 4);
   CompareAndSwap (KW 0 5) (KW 6 5); CompareAndSwap (KW 2 5) (KW 3 5);
   CompareAndSwap (KW 4 5) (KW 5 5); CompareAndSwap (KW 0 5) (KW 2 5);
   CompareAndSwap (KW 1 5) (KW 4 5); CompareAndSwap (KW 3 5) (KW 6 5);
   CompareAndSwap (KW 0 5) (KW 1 5); CompareAndSwap (KW 2 5) (KW 5 5);
   CompareAndSwap (KW 3 5) (KW 4 5); CompareAndSwap (KW 1 5) (KW 2 5);
   CompareAndSwap (KW 4 5) (KW 6 5); CompareAndSwap (KW 2 5) (KW 3 5);
   CompareAndSwap (KW 4 5) (KW 5 5); CompareAndSwap (KW 1 5) (KW 2 5);
   CompareAndSwap (KW 3 5) (KW 4 5); CompareAndSwap (KW 5 5) (KW 6 5);
   CompareAndSwap (KW 0 6) (KW 6 6); CompareAndSwap (KW 2 6) (KW 3 6);
   CompareAndSwap (KW 4 6) (KW 5 6); CompareAndSwap (KW 0 6) (KW 2 6);
   CompareAndSwap (KW 1 6) (KW 4 6); CompareAndSwap (KW 3 6) (KW 6 6);
   CompareAndSwap (KW 0 6) (KW 1 6); CompareAndSwap (KW 2 6) (KW 5 6);
   CompareAndSwap (KW 3 6) (KW 4 6); CompareAndSwap (KW 1 6) (KW 2 6);
   CompareAndSwap (KW 4 6) (KW 6 6); CompareAndSwap (KW 2 6) (KW 3 6);
   CompareAndSwap (KW 4 6) (KW 5 6); CompareAndSwap (KW 1 6) (KW 2 6);
   CompareAndSwap (KW 3 6) (KW 4 6); CompareAndSwap (KW 5 6) (KW 6 6);
   CompareAndSwap (KW 0 0) (KW 0 6); CompareAndSwap (KW 0 2) (KW 0 3);
   CompareAndSwap (KW 0 4) (KW 0 5); CompareAndSwap (KW 0 0) (KW 0 2);
   CompareAndSwap (KW 0 1) (KW 0 4); CompareAndSwap (KW 0 3) (KW 0 6); Max (KW 0 0) (KW 0 1);
   CompareAndSwap (KW 0 2) (KW 0 5); CompareAndSwap (KW 0 3) (KW 0 4); Max (KW 0 1) (KW 0 2);
   CompareAndSwap (KW 0 4) (KW 0 6); Max (KW 0 2) (KW 0 3); CompareAndSwap (KW 0 4) (KW 0 5);
   CompareAndSwap (KW 0 3) (KW 0 4); CompareAndSwap (KW 0 5) (KW 0 6);
   CompareAndSwap (KW 1 0) (KW 1 6); CompareAndSwap (KW 1 2) (KW 1 3);
   CompareAndSwap (KW 1 4) (KW 1 5); CompareAndSwap (KW 1 1) (KW 1 4);
   CompareAndSwap (KW 1 0) (KW 1 2); CompareAndSwap (KW 1 3) (KW 1 6); Max (KW 1 0) (KW 1 1);
   CompareAndSwap (KW 1 3) (KW 1 4); CompareAndSwap (KW 1 2) (KW 1 5); Max (KW 1 1) (KW 1 2);
   CompareAndSwap (KW 1 4) (KW 1 6); Max (KW 1 2) (KW 1 3); CompareAndSwap (KW 1 4) (KW 1 5);
   CompareAndSwap (KW 1 3) (KW 1 4); CompareAndSwap (KW 1 5) (KW 1 6);
   CompareAndSwap (KW 2 0) (KW 2 6); CompareAndSwap (KW 2 2) (KW 2 3);
   CompareAndSwap (KW 2 4) (KW 2 5); CompareAndSwap (KW 2 1) (KW 2 4);
   CompareAndSwap (KW 2 0) (KW 2 2); CompareAndSwap (KW 2 3) (KW 2 6); Max (KW 2 0) (KW 2 1);
   CompareAndSwap (KW 2 3) (KW 2 4); CompareAndSwap (KW 2 2) (KW 2 5);
   CompareAndSwap (KW 2 1) (KW 2 2); CompareAndSwap (KW 2 4) (KW 2 6);
   CompareAndSwap (KW 2 2) (KW 2 3); CompareAndSwap (KW 2 4) (KW 2 5); Max (KW 2 1) (KW 2 2);
   CompareAndSwap (KW 2 3) (KW 2 4); CompareAndSwap (KW 2 5) (KW 2 6);
   CompareAndSwap (KW 3 0) (KW 3 6); CompareAndSwap (KW 3 2) (KW 3 3);
   CompareAndSwap (KW 3 4) (KW 3 5); CompareAndSwap (KW 3 1) (KW 3 4);
   CompareAndSwap (KW 3 0) (KW 3 2); CompareAndSwap (KW 3 3) (KW 3 6); Max (KW 3 0) (KW 3 1);
   CompareAndSwap (KW 3 3) (KW 3 4); CompareAndSwap (KW 3 2) (KW 3 5);
   CompareAndSwap (KW 3 1) (KW 3 2); CompareAndSwap (KW 3 4) (KW 3 6);
   CompareAndSwap (KW 3 2) (KW 3 3); CompareAndSwap (KW 3 4) (KW 3 5);
   CompareAndSwap (KW 3 1) (KW 3 2); CompareAndSwap (KW 3 3) (KW 3 4); Min (KW 3 5) (KW 3 6);
   CompareAndSwap (KW 4 0) (KW 4 6); CompareAndSwap (KW 4 2) (KW 4 3);
   CompareAndSwap (KW 4 4) (KW 4 5); CompareAndSwap (KW 4 1) (KW 4 4);
   CompareAndSwap (KW 4 0) (KW 4 2); CompareAndSwap (KW 4 3) (KW 4 6);
   CompareAndSwap (KW 4 0) (KW 4 1); CompareAndSwap (KW 4 3) (KW 4 4);
   CompareAndSwap (KW 4 2) (KW 4 5); CompareAndSwap (KW 4 1) (KW 4 2); Min (KW 4 4) (KW 4 6);
   CompareAndSwap (KW 4 2) (KW 4 3); Min (KW 4 4) (KW 4 5); CompareAndSwap (KW 4 1) (KW 4 2);
   CompareAndSwap (KW 4 3) (KW 4 4); CompareAndSwap (KW 5 0) (KW 5 6);
   CompareAndSwap (KW 5 2) (KW 5 3); CompareAndSwap (KW 5 4) (KW 5 5);
   CompareAndSwap (KW 5 1) (KW 5 4); CompareAndSwap (KW 5 0) (KW 5 2);
   CompareAndSwap (KW 5 3) (KW 5 6); CompareAndSwap (KW 5 0) (KW 5 1);
   CompareAndSwap (KW 5 3) (KW 5 4); CompareAndSwap (KW 5 2) (KW 5 5);
   CompareAndSwap (KW 5 1) (KW 5 2); Min (KW 5 4) (KW 5 6); CompareAndSwap (KW 5 2) (KW 5 3);
   Min (KW 5 4) (KW 5 5); CompareAndSwap (KW 5 1) (KW 5 2); Min (KW 5 3) (KW 5 4);
   CompareAndSwap (KW 6 0) (KW 6 6); CompareAndSwap (KW 6 2) (KW 6 3);
   CompareAndSwap (KW 6 4) (KW 6 5); CompareAndSwap (KW 6 1) (KW 6 4);
   CompareAndSwap (KW 6 0) (KW 6 2); Min (KW 6 3) (KW 6 6); CompareAndSwap (KW 6 0) (KW 6 1);
   Min (KW 6 3) (KW 6 4); Min (KW 6 2) (KW 6 5); CompareAndSwap (KW 6 1) (KW 6 2);
   Min (KW 6 2) (KW 6 3); CompareAndSwap (KW 6 1) (KW 6 2); Max (KW 1 3) (KW 2 2);
   Max (KW 3 1) (KW 4 0); Max (KW 2 2) (KW 4 0); Max (KW 4 0) (KW 0 4);
   CompareAndSwap (KW 4 1) (KW 2 3); CompareAndSwap (KW 5 0) (KW 0 5);
   CompareAndSwap (KW 3 2) (KW 1 4); Max (KW 4 1) (KW 3 2); CompareAndSwap (KW 2 3) (KW 1 4);
   Max (KW 5 0) (KW 2 3); CompareAndSwap (KW 3 2) (KW 0 5); Max (KW 3 2) (KW 2 3);
   CompareAndSwap (KW 1 4) (KW 0 5); CompareAndSwap (KW 2 3) (KW 1 4);
   CompareAndSwap (KW 6 0) (KW 0 6); CompareAndSwap (KW 4 2) (KW 3 3);
   CompareAndSwap (KW 2 4) (KW 1 5); CompareAndSwap (KW 5 1) (KW 2 4);
   CompareAndSwap (KW 6 0) (KW 4 2); CompareAndSwap (KW 3 3) (KW 0 6); Max (KW 6 0) (KW 5 1);
   CompareAndSwap (KW 3 3) (KW 2 4); CompareAndSwap (KW 4 2) (KW 1 5);
   CompareAndSwap (KW 5 1) (KW 4 2); Min (KW 2 4) (KW 0 6); CompareAndSwap (KW 4 2) (KW 3 3);
   Min (KW 2 4) (KW 1 5); Max (KW 5 1) (KW 4 2); CompareAndSwap (KW 3 3) (KW 2 4);
   CompareAndSwap (KW 5 2) (KW 3 4); CompareAndSwap (KW 6 1) (KW 1 6);
   CompareAndSwap (KW 4 3) (KW 2 5); CompareAndSwap (KW 5 2) (KW 4 3); Min (KW 3 4) (KW 2 5);
   CompareAndSwap (KW 6 1) (KW 3 4); Min (KW 4 3) (KW 1 6); CompareAndSwap (KW 6 1) (KW 5 2);
   Min (KW 4 3) (KW 3 4); CompareAndSwap (KW 5 2) (KW 4 3); Min (KW 5 3) (KW 4 4);
   Min (KW 3 5) (KW 2 6); Min (KW 5 3) (KW 3 5); Min (KW 6 2) (KW 5 3);
   CompareAndSwap (KW 6 1) (KW 0 4); CompareAndSwap (KW 6 2) (KW 2 3);
   CompareAndSwap (KW 5 2) (KW 4 3); CompareAndSwap (KW 4 2) (KW 2 4);
   CompareAndSwap (KW 3 3) (KW 1 4); CompareAndSwap (KW 6 1) (KW 6 2);
   CompareAndSwap (KW 4 2) (KW 3 3); CompareAndSwap (KW 4 3) (KW 0 5);
   CompareAndSwap (KW 2 3) (KW 0 4); CompareAndSwap (KW 2 4) (KW 1 4);
   CompareAndSwap (KW 6 2) (KW 4 2); CompareAndSwap (KW 5 2) (KW 3 3);
   CompareAndSwap (KW 4 3) (KW 2 4); Min (KW 1 4) (KW 0 5); Max (KW 6 1) (KW 4 3);
   CompareAndSwap (KW 6 2) (KW 5 2); Max (KW 4 2) (KW 2 4); Min (KW 3 3) (KW 0 4);
   CompareAndSwap (KW 2 3) (KW 1 4); CompareAndSwap (KW 5 2) (KW 2 3);
   CompareAndSwap (KW 4 3) (KW 3 3); Min (KW 2 4) (KW 1 4); CompareAndSwap (KW 5 2) (KW 4 3);
   Max (KW 4 2) (KW 2 3); Min (KW 3 3) (KW 2 4); Max (KW 4 2) (KW 4 3); Min (KW 3 3) (KW 2 3);
   Max (KW 4 3) (KW 3 3)]%nat.

Definition sorting_network7x7 {T} `{Inhabited T} (C : Comparator T) (window : list T) : T :=
  exec C sorting_network7x7_steps window !!! KernelWindow 7 3 3.

(** ** The phases of the networks *)

(** Undo the renaming of a block: which column or row it works on is forgotten. *)
Definition local (f : nat -> nat) (p : list instr) : list instr := map (rename f) p.

Definition slice (a n : nat) (p : list instr) : list instr := take n (drop a p).

Definition sort3 : list instr :=
  [CompareAndSwap 0 2; CompareAndSwap 0 1; CompareAndSwap 1 2].
Definition table3 : list (list (option bool)) := Eval vm_compute in row_table 3 sort3.

Definition single_last : list instr :=
  Eval vm_compute in drop 9 sorting_network3x3_single_row_steps.
Definition dual_last : list instr :=
  Eval vm_compute in drop 12 sorting_network3x3_dual_rows_steps.

Lemma single_phases :
  sorting_network3x3_single_row_steps =
  blocks_program (rowidx 3) 0 (replicate 3 sort3) ++ single_last.
Proof. reflexivity. Qed.

Lemma dual_phases :
  sorting_network3x3_dual_rows_steps =
  blocks_program (rowidx 3) 0 (replicate 4 sort3) ++ dual_last.
Proof. reflexivity. Qed.

Definition column5 : list instr :=
  Eval vm_compute in local (fun c => c / 5)%nat (slice 0 9 sorting_network5x5_steps).
Definition rows5 : list (list instr) := Eval vm_compute in
  map (fun '(a, n) => local (fun c => c mod 5)%nat (slice a n sorting_network5x5_steps))
    [(45, 9); (54, 9); (63, 9); (72, 9); (81, 7)]%nat.
Definition last5 : list instr := Eval vm_compute in drop 88 sorting_network5x5_steps.
Definition tables5 : list (list (list (option bool))) :=
  Eval vm_compute in map (row_table 5) rows5.

Lemma phases5 :
  sorting_network5x5_steps =
  blocks_program (colidx 5) 0 (replicate 5 column5) ++ blocks_program (rowidx 5) 0 rows5 ++ last5.
Proof. reflexivity. Qed.

Definition column7 : list instr :=
  Eval vm_compute in local (fun c => c / 7)%nat (slice 0 16 sorting_network7x7_steps).
Definition rows7 : list (list instr) := Eval vm_compute in
  map (fun '(a, n) => local (fun c => c mod 7)%nat (slice a n sorting_network7x7_steps))
    [(112, 15); (127, 15); (142, 16); (158, 16); (174, 15); (189, 15); (204, 12)]%nat.
Definition last7 : list instr := Eval vm_compute in drop 216 sorting_network7x7_steps.
Definition tables7 : list (list (list (option bool))) :=
  Eval vm_compute in map (row_table 7) rows7.

Lemma phases7 :
  sorting_network7x7_steps =
  blocks_program (colidx 7) 0 (replicate 7 column7) ++ blocks_program (rowidx 7) 0 rows7 ++ last7.
Proof. reflexivity. Qed.

(** ** Boolean checks *)

Lemma columns5_ok : column_ok false 5 column5 = true. Proof. vm_compute. reflexivity. Qed.
Lemma rows5_ok : rows_ok 5 rows5 tables5 = true. Proof. vm_compute. reflexivity. Qed.
Lemma columns7_ok : column_ok true 7 column7 = true. Proof. vm_compute. reflexivity. Qed.
Lemma rows7_ok : rows_ok 7 rows7 tables7 = true. Proof. vm_compute. reflexivity. Qed.

Lemma weight_lt_majority bs m :
  length bs = (m + m + 1)%nat -> Nat.ltb m (weight bs) = majority bs.
Proof.
  intros Hl. unfold majority. rewrite Hl.
  replace ((m + m + 1) / 2)%nat with m
    by (apply (Nat.div_unique _ _ _ 1); lia).
  apply Bool.eq_iff_eq_true. rewrite Nat.ltb_lt, Nat.leb_le. lia.
Qed.

Lemma network5_bool bs : length bs = 25%nat ->
  exec bool_comparator sorting_network5x5_steps bs !!! KernelWindow 5 2 2 = majority bs.
Proof.
  intros Hl. rewrite phases5, <- (weight_lt_majority bs 12) by done.
  apply (square_network false 5 column5 rows5 tables5);
    [lia|done|unfold KernelWindow; lia|apply columns5_ok|done|apply rows5_ok|done|done
    |vm_compute; reflexivity|done].
Qed.

Lemma network7_bool bs : length bs = 49%nat ->
  exec bool_comparator sorting_network7x7_steps bs !!! KernelWindow 7 3 3 = majority bs.
Proof.
  intros Hl. rewrite phases7, <- (weight_lt_majority bs 24) by done.
  apply (square_network true 7 column7 rows7 tables7);
    [lia|done|unfold KernelWindow; lia|apply columns7_ok|done|apply rows7_ok|done|done
    |vm_compute; reflexivity|done].
Qed.

(** The last phase of a 3x3 network, on every combination of sorted rows: output
    [o] must hold the majority of the three rows from [first]. *)
Definition rows_check (m : nat) (last : list instr) (o first : nat) : bool :=
  forallb (fun r =>
    match exec partial_comparator last
        (row_state (replicate m table3) r ++ replicate 6 None) !!! o with
    | Some b => eqb b (Nat.ltb 4 (sum_list (take 3 (drop first r))))
    | None => false
    end) (vectors m 0 3).

Lemma rows_network_3x3 m last o first bs :
  rows_check m last o first = true -> within (m * 3 + 6) last = true ->
  (o < m * 3 + 6)%nat -> length bs = (m * 3 + 6)%nat ->
  exec bool_comparator (blocks_program (rowidx 3) 0 (replicate m sort3) ++ last) bs !!! o =
  Nat.ltb 4 (sum_list (take 3 (drop first (row_weights 3 m bs)))).
Proof.
  intros Hc Hw Ho Hl. unfold rows_check in Hc. rewrite forallb_forall in Hc.
  pose proof (vectors_complete (row_weights 3 m bs) 0 3 (row_weights_bound 3 m bs)) as Hin.
  rewrite length_row_weights in Hin. specialize (Hc _ Hin).
  apply (rows_network 3 _ (replicate m table3) 6); rewrite ?length_replicate; try done; [lia|..].
  - clear. induction m as [|m IH]; [done|]. simpl replicate. cbn [rows_ok]. by rewrite IH.
  - by apply forallb_replicate.
  - destruct (exec partial_comparator last _ !!! o) as [x|]; [|done].
    f_equal. by apply eqb_prop.
Qed.

(** Three consecutive rows of three are the nine cells of a window. *)
Ltac window_rows :=
  rewrite <- (weight_lt_majority _ 4) by (by rewrite length_map, length_seq);
  f_equal; unfold row_weights, gather, rowidx; simpl; lia.

Lemma single_bool bs : length bs = 15%nat ->
  exec bool_comparator sorting_network3x3_single_row_steps bs !!! 14%nat =
  majority (map (fun i => bs !!! i) (seq 0 9)).
Proof.
  intros Hl. rewrite single_phases, (rows_network_3x3 3 single_last 14 0) by
    (done || (vm_compute; reflexivity) || lia). window_rows.
Qed.

Lemma dual_bool_0 bs : length bs = 18%nat ->
  exec bool_comparator sorting_network3x3_dual_rows_steps bs !!! 16%nat =
  majority (map (fun i => bs !!! i) (seq 0 9)).
Proof.
  intros Hl. rewrite dual_phases, (rows_network_3x3 4 dual_last 16 0) by
    (done || (vm_compute; reflexivity) || lia). window_rows.
Qed.

Lemma dual_bool_1 bs : length bs = 18%nat ->
  exec bool_comparator sorting_network3x3_dual_rows_steps bs !!! 17%nat =
  majority (map (fun i => bs !!! i) (seq 3 9)).
Proof.
  intros Hl. rewrite dual_phases, (rows_network_3x3 4 dual_last 17 1) by
    (done || (vm_compute; reflexivity) || lia). window_rows.
Qed.

(** ** The medians *)

(** The cells of a part of the window. *)
Lemma window_cells (w l : list Z) a n : (a + n <= length w)%nat ->
  map (fun i => (w ++ l) !!! i) (seq a n) = take n (drop a w).
Proof.
  intros Hl. apply list_eq_same_length with n.
  - rewrite length_take, length_drop. lia.
  - by rewrite length_map, length_seq.
  - intros i x y Hi Hx Hy. rewrite list_lookup_fmap, lookup_seq_lt in Hx by done.
    injection Hx as <-. rewrite lookup_take_lt, lookup_drop in Hy by done.
    rewrite lookup_total_app_l by lia. by apply list_lookup_total_correct.
Qed.

Lemma seq_within n m a : (a + n <= m)%nat -> Forall (fun i => (i < m)%nat) (seq a n).
Proof. intros. apply Forall_forall. intros i Hi%elem_of_seq. lia. Qed.

Lemma median_of_cells p o a n w t u : (0 < n)%nat -> (a + n <= length w)%nat ->
  within (length w + t) p = true -> (o < length w + t)%nat ->
  (forall bs, length bs = (length w + t)%nat ->
    exec bool_comparator p bs !!! o = majority (map (fun i => bs !!! i) (seq a n))) ->
  exec ScalarComparator p (w ++ replicate t u) !!! o = median (take n (drop a w)).
Proof.
  intros Hn Ha Hw Ho Hb. rewrite <- (window_cells w (replicate t u)) by done.
  apply zero_one; rewrite ?length_app, ?length_replicate; try done.
  - destruct n; [lia|done].
  - apply seq_within. lia.
Qed.

Lemma single_median u w : length w = 9%nat ->
  sorting_network3x3_single_row ScalarComparator u w = median w.
Proof.
  intros Hl. unfold sorting_network3x3_single_row.
  rewrite (median_of_cells _ 14 0 9) by (rewrite ?Hl; done || lia || apply single_bool).
  by rewrite drop_0, take_ge by lia.
Qed.

Lemma map_lookup_all {T} `{Inhabited T} (l : list T) :
  map (fun i => l !!! i) (seq 0 (length l)) = l.
Proof.
  apply list_eq_same_length with (length l); [done|by rewrite length_map, length_seq|].
  intros i x y Hi Hx Hy. rewrite list_lookup_fmap, lookup_seq_lt in Hx by done.
  injection Hx as <-. by apply list_lookup_total_correct.
Qed.

Lemma square_median p o w : w <> [] ->
  within (length w) p = true -> (o < length w)%nat ->
  (forall bs, length bs = length w -> exec bool_comparator p bs !!! o = majority bs) ->
  exec ScalarComparator p w !!! o = median w.
Proof.
  intros Hw Hp Ho Hb. rewrite <- (map_lookup_all w) at 2. apply zero_one; try done.
  - destruct w; done.
  - apply seq_within. lia.
  - intros bs Hl. rewrite Hb by done. by rewrite <- Hl, map_lookup_all.
Qed.

Lemma median5 w : length w = 25%nat -> sorting_network5x5 ScalarComparator w = median w.
Proof.
  intros Hl. apply square_median; rewrite ?Hl; try done; [by destruct w|unfold KernelWindow; lia|].
  apply network5_bool.
Qed.

Lemma median7 w : length w = 49%nat -> sorting_network7x7 ScalarComparator w = median w.
Proof.
  intros Hl. apply square_median; rewrite ?Hl; try done; [by destruct w|unfold KernelWindow; lia|].
  apply network7_bool.
Qed.

(** The scalar paths of [MedianBlurSortingNetwork<T, 3 | 5 | 7>]. *)
Definition scalar_path (kernel_width : Z) (window : list Z) : Z :=
  if kernel_width =? 3 then sorting_network3x3_single_row ScalarComparator 0 window
  else if kernel_width =? 5 then sorting_network5x5 ScalarComparator window
  else sorting_network7x7 ScalarComparator window.

(** The vector paths on [n] lanes. *)
Definition vector_path (n : nat) (kernel_width : Z) (window : list (list Z)) : list Z :=
  if kernel_width =? 3
  then sorting_network3x3_single_row VectorizedComparator (replicate n 0) window
  else if kernel_width =? 5 then sorting_network5x5 VectorizedComparator window
  else sorting_network7x7 VectorizedComparator window.

Lemma scalar_path_is_median k w : k = 3 \/ k = 5 \/ k = 7 ->
  length w = Z.to_nat (k * k) -> scalar_path k w = median w.
Proof.
  intros Hk Hl. destruct Hk as [->|[->| ->]];
    [apply single_median|apply median5|apply median7]; exact Hl.
Qed.

(** One lane of a vector run is the scalar run of that lane. *)
Lemma exec_lane n i p o vs : (i < n)%nat -> Forall (fun v => length v = n) vs ->
  within (length vs) p = true -> (o < length vs)%nat ->
  (exec VectorizedComparator p vs !!! o) !!! i = exec ScalarComparator p (lane i vs) !!! o.
Proof.
  intros Hi Hlen Hw Ho.
  assert (Forall2 (fun (v : list Z) (a : Z) => length v = n /\ v !! i = Some a) vs (lane i vs))
    as HF.
  { apply Forall2_fmap_r, Forall_Forall2_diag. eapply Forall_impl; [exact Hlen|].
    intros v Hv. split; [done|]. apply list_lookup_lookup_total_lt. by rewrite Hv. }
  pose proof (exec_rel _ _ _ (lane_respects i n Hi) p vs (lane i vs) Hw HF) as Hrun.
  pose proof (lookup_rel _ _ _ o Hrun) as Hout. rewrite length_exec in Hout.
  destruct (Hout Ho) as [_ Hl]. by apply list_lookup_total_correct.
Qed.

Lemma lane_app i (vs ws : list (list Z)) : lane i (vs ++ ws) = lane i vs ++ lane i ws.
Proof. apply map_app. Qed.

Lemma lane_replicate i t n : (i < n)%nat -> lane i (replicate t (replicate n 0%Z)) = replicate t 0%Z.
Proof.
  intros Hi. unfold lane. induction t as [|t IH]; [done|]. simpl. rewrite IH. f_equal.
  by apply lookup_total_replicate_2.
Qed.

Lemma vector_path_lane n i k vs : (i < n)%nat -> k = 3 \/ k = 5 \/ k = 7 ->
  length vs = Z.to_nat (k * k) -> Forall (fun v => length v = n) vs ->
  vector_path n k vs !!! i = scalar_path k (lane i vs).
Proof.
  intros Hi Hk Hl Hn. destruct Hk as [->|[->| ->]].
  - change (sorting_network3x3_single_row VectorizedComparator (replicate n 0) vs !!! i =
      sorting_network3x3_single_row ScalarComparator 0 (lane i vs)).
    unfold sorting_network3x3_single_row.
    rewrite <- (lane_replicate i 6 n Hi), <- lane_app.
    assert (length (vs ++ replicate 6 (replicate n 0%Z)) = 15)%nat as Hlen
      by (rewrite length_app, Hl; reflexivity).
    apply (exec_lane n); [exact Hi| |rewrite Hlen; reflexivity|rewrite Hlen; lia].
    apply Forall_app. split; [exact Hn|]. apply Forall_replicate, length_replicate.
  - apply (exec_lane n i _ (KernelWindow 5 2 2) vs Hi Hn); rewrite Hl;
      [reflexivity|unfold KernelWindow; lia].
  - apply (exec_lane n i _ (KernelWindow 7 3 3) vs Hi Hn); rewrite Hl;
      [reflexivity|unfold KernelWindow; lia].
Qed.

Lemma dual_median u w : length w = 12%nat ->
  sorting_network3x3_dual_rows ScalarComparator u w = (median (take 9 w), median (drop 3 w)).
Proof.
  intros Hl. unfold sorting_network3x3_dual_rows. cbv zeta.
  rewrite (median_of_cells _ 16 0 9) by (rewrite ?Hl; done || lia || apply dual_bool_0).
  rewrite (median_of_cells _ 17 3 9) by (rewrite ?Hl; done || lia || apply dual_bool_1).
  rewrite drop_0, (take_ge (drop 3 w)) by (rewrite length_drop; lia). done.
Qed.

Lemma dual_lane n i vs : (i < n)%nat -> length vs = 12%nat -> Forall (fun v => length v = n) vs ->
  let r := sorting_network3x3_dual_rows VectorizedComparator (replicate n 0) vs in
  (r.1 !!! i, r.2 !!! i) = sorting_network3x3_dual_rows ScalarComparator 0 (lane i vs).
Proof.
  intros Hi Hl Hn r. subst r. unfold sorting_network3x3_dual_rows.
  rewrite <- (lane_replicate i 6 n Hi), <- lane_app.
  assert (length (vs ++ replicate 6 (replicate n 0%Z)) = 18)%nat as Hlen
    by (rewrite length_app, Hl; reflexivity).
  assert (Forall (fun v : list Z => length v = n) (vs ++ replicate 6 (replicate n 0))) as Hf.
  { apply Forall_app. split; [exact Hn|]. apply Forall_replicate, length_replicate. }
  cbv zeta. cbn [fst snd].
  rewrite !(exec_lane n i) by (first [exact Hi|exact Hf|rewrite Hlen; first [reflexivity|lia]]).
  done.
Qed.

(** The sorting networks of the 3x3, 5x5 and 7x7 median filters compute the
    median: for every window of integers, the scalar path returns the middle
    element of the sorted window, and every lane of the vector path the median
    of that lane. *)
Theorem sorting_networks_compute_median k n i vs :
  k = 3 \/ k = 5 \/ k = 7 -> (i < n)%nat ->
  length vs = Z.to_nat (k * k) -> Forall (fun v => length v = n) vs ->
  scalar_path k (lane i vs) = median (lane i vs) /\
  vector_path n k vs !!! i = median (lane i vs).
Proof.
  intros Hk Hi Hl Hn. rewrite (vector_path_lane n) by done.
  assert (scalar_path k (lane i vs) = median (lane i vs)) as ->; [|done].
  apply scalar_path_is_median; [done|]. unfold lane. by rewrite length_map.
Qed.

Lemma sorting_networks_compute_median_witness :
  let vs := map (fun j => [7 * j mod 11; j * j mod 13]) (seqZ 1 49) in
  scalar_path 7 (lane 1 vs) = median (lane 1 vs) /\
  vector_path 2 7 vs !!! 1%nat = median (lane 1 vs).
Proof.
  apply sorting_networks_compute_median; [by right; right|lia|reflexivity|].
  apply Forall_map, Forall_true. done.
Defined.

(** The 3x3 network that serves two output rows from four input rows computes
    both medians, in scalar and in vector form: its first output is the median of
    the upper three rows and its second the median of the lower three. *)
Theorem dual_row_network_computes_medians n i vs :
  (i < n)%nat -> length vs = 12%nat -> Forall (fun v => length v = n) vs ->
  let w := lane i vs in
  let scalar := sorting_network3x3_dual_rows ScalarComparator 0 w in
  let vector := sorting_network3x3_dual_rows VectorizedComparator (replicate n 0) vs in
  scalar = (median (take 9 w), median (drop 3 w)) /\
  (vector.1 !!! i, vector.2 !!! i) = scalar.
Proof.
  intros Hi Hl Hn w scalar vector. split; [|by apply dual_lane].
  apply dual_median. unfold w, lane. by rewrite length_map.
Qed.

Lemma dual_row_network_computes_medians_witness :
  let vs := map (fun j => [7 * j mod 11; j * j mod 13]) (seqZ 1 12) in
  let w := lane 1 vs in
  let scalar := sorting_network3x3_dual_rows ScalarComparator 0 w in
  let vector := sorting_network3x3_dual_rows VectorizedComparator (replicate 2 0) vs in
  scalar = (median (take 9 w), median (drop 3 w)) /\
  (vector.1 !!! 1%nat, vector.2 !!! 1%nat) = scalar.
Proof.
  apply (dual_row_network_computes_medians 2 1 (map (fun j => [7 * j mod 11; j * j mod 13]) (seqZ 1 12)));
    [lia|reflexivity|].
  apply Forall_map, Forall_true. done.
Defined.
