(* ===== verification/MedianBlur.v ===== *)
(** * Median blur with sorting networks

    [median_blur.h], [median_blur_sorting_network_neon.cpp] and the sorting-network
    entry points of [median_blur_api.cpp], for the integer element types.  The
    theorems join the networks (MedianNetworks) with the border filter
    (Filter2D): a successful call leaves the median of each window in the output,
    a rejected one leaves the output alone. *)

From S2P Require Import Prelude CTypes Utils Border FixedBorders Filter2D Network MedianNetworks.

#[local] Opaque sorting_network3x3_single_row sorting_network3x3_dual_rows
  sorting_network5x5 sorting_network7x7.

(** The integer instantiations of the templates. *)
Inductive element_type := S8 | U8 | S16 | U16 | S32 | U32.

Definition sizeof (T : element_type) : Z :=
  match T with S8 | U8 => 1 | S16 | U16 => 2 | S32 | U32 => 4 end.

(** [VecTraits<T>::num_lanes()] of a 128-bit vector. *)
Definition num_lanes (T : element_type) : Z := 16 / sizeof T.

(** ** Validation *)

Definition median_blur_checks (T : element_type)
    (src src_stride dst dst_stride width height : Z) : kleidicv_error_t :=
  check_pointer_and_stride (sizeof T) src src_stride height ?>
  check_pointer_and_stride (sizeof T) dst dst_stride height ?>
  check_image_size width height.

Definition is_kernel_size_supported (T : element_type) (kernel_width kernel_height : Z) : bool :=
  let limit := match T with U8 => 255 | _ => 7 end in
  (kernel_width =? kernel_height) && (3 <=? kernel_width) &&
  (kernel_width <=? limit) && negb (kernel_width mod 2 =? 0).

(** [FixedBorderType{}] of the failing results is the first enumerator. *)
Definition median_blur_validate (T : element_type)
    (src src_stride dst dst_stride width height channels kernel_width kernel_height : Z)
    (border_type : kleidicv_border_type_t) : kleidicv_error_t * FixedBorderType :=
  match median_blur_checks T src src_stride dst dst_stride width height with
  | KLEIDICV_OK =>
      match get_fixed_border_type border_type with
      | Some fixed_border_type =>
          if negb (src =? dst) && (channels <=? KLEIDICV_MAXIMUM_CHANNEL_COUNT) &&
             (kernel_height ⊟ 1 <=? height) && (kernel_width ⊟ 1 <=? width) &&
             is_kernel_size_supported T kernel_width kernel_height
          then (KLEIDICV_OK, fixed_border_type)
          else (KLEIDICV_ERROR_NOT_IMPLEMENTED, REPLICATE)
      | None => (KLEIDICV_ERROR_NOT_IMPLEMENTED, REPLICATE)
      end
  | check_error => (check_error, REPLICATE)
  end.

(** ** The stripe *)

(** [MedianBlurSortingNetwork<ScalarType, KernelSize>]. *)
Definition MedianBlurSortingNetwork (lanes : nat) (KernelSize : Z) : InnerFilter Z Z := {|
  Filter2D.scalar_path := MedianNetworks.scalar_path KernelSize;
  Filter2D.vector_path := MedianNetworks.vector_path lanes KernelSize;
  scalar_path_for_dual_row_handling := sorting_network3x3_dual_rows ScalarComparator 0;
  vector_path_for_dual_row_handling :=
    sorting_network3x3_dual_rows VectorizedComparator (replicate lanes 0)
|}.

Definition median_blur_sorting_network_stripe (T : element_type) (src dst : Z * Z -> Z)
    (width height y_begin y_end channels kernel_width : Z) (border_type : FixedBorderType)
    : option (kleidicv_error_t * (Z * Z -> Z)) :=
  let n := num_lanes T in
  let filter k := MedianBlurSortingNetwork (Z.to_nat n) k in
  let result :=
    if kernel_width =? 3 then
      process_filter2d_by_dual_rows (filter 3) n channels width height border_type src
        y_begin y_end dst
    else if kernel_width =? 5 then
      process_filter2d 5 (@load_window_5x5) (filter 5) n channels width height border_type src
        y_begin y_end dst
    else
      process_filter2d 7 (@load_window_7x7) (filter 7) n channels width height border_type src
        y_begin y_end dst in
  match result with Some dst => Some (KLEIDICV_OK, dst) | None => None end.

(** [median_blur<StripeFunction, T>]: [src_image] and [dst_image] are what the
    pointers [src] and [dst] address. *)
Definition median_blur (T : element_type) (src src_stride dst dst_stride : Z)
    (width height channels kernel_width kernel_height : Z)
    (border_type : kleidicv_border_type_t) (src_image dst_image : Z * Z -> Z)
    : option (kleidicv_error_t * (Z * Z -> Z)) :=
  let '(error, fixed_border_type) :=
    median_blur_validate T src src_stride dst dst_stride width height channels
      kernel_width kernel_height border_type in
  match error with
  | KLEIDICV_OK => median_blur_sorting_network_stripe T src_image dst_image width height
      0 height channels kernel_width fixed_border_type
  | _ => Some (error, dst_image)
  end.

(** ** Correctness *)

Lemma network_lanes n k : k = 3 \/ k = 5 \/ k = 7 ->
  lanes_agree (MedianBlurSortingNetwork (Z.to_nat n) k) n (k * k).
Proof. intros Hk vs i Hl Hf Hi. by apply vector_path_lane. Qed.

Lemma network_dual n : dual_law (MedianBlurSortingNetwork n 3).
Proof.
  intros w Hw. cbn [scalar_path_for_dual_row_handling Filter2D.scalar_path MedianBlurSortingNetwork].
  rewrite !scalar_path_is_median;
    [by apply dual_median|by left|rewrite length_drop; lia|by left|rewrite length_take; lia].
Qed.

Lemma network_dual_lanes n : dual_lanes_agree (MedianBlurSortingNetwork (Z.to_nat n) 3) n.
Proof.
  intros vs i Hl Hf Hi. pose proof (dual_lane (Z.to_nat n) i vs Hi Hl Hf) as Hd.
  cbn [scalar_path_for_dual_row_handling vector_path_for_dual_row_handling
    MedianBlurSortingNetwork].
  cbv zeta in Hd. rewrite <- Hd. cbn [fst snd]. by split.
Qed.

(** The window of pixel [(y, e)] as the filter sees it. *)
Definition median_at (k : fixed_size) (channels width height : Z) (bt : FixedBorderType)
    (src : Z * Z -> Z) (y e : Z) : Z :=
  median (reference_window (size_of k) channels width height bt src y e).

Lemma length_reference_window k channels width height bt (src : Z * Z -> Z) y e :
  length (reference_window (size_of k) channels width height bt src y e) =
  Z.to_nat (size_of k * size_of k).
Proof.
  unfold reference_window.
  rewrite (length_flat_map_const _ _ (Z.to_nat (size_of k)))
    by (intros; by rewrite length_map, length_seqZ).
  rewrite length_seqZ. destruct k; reflexivity.
Qed.

Lemma num_lanes_range T : 1 <= num_lanes T < 2 ^ 62.
Proof. destruct T; vm_compute; split; done. Qed.

(** The stripe function computes medians on the rows of the stripe. *)
Lemma stripe_medians T k src dst width height y_begin y_end channels bt :
  k = K3 \/ k = K5 \/ k = K7 -> 1 <= channels ->
  size_of k - 1 <= width < 2 ^ 63 -> size_of k - 1 <= height < 2 ^ 63 ->
  width * channels < 2 ^ 62 -> 0 <= y_begin <= y_end -> 1 <= y_end <= height ->
  exists dst',
    median_blur_sorting_network_stripe T src dst width height y_begin y_end channels
      (size_of k) bt = Some (KLEIDICV_OK, dst') /\
    forall y e, dst' (y, e) =
      if (y_begin <=? y) && (y <? y_end) && (0 <=? e) && (e <? width * channels)
      then median_at k channels width height bt src y e else dst (y, e).
Proof.
  intros Hk Hc Hw Hh Hr Hy Hye. pose proof (num_lanes_range T) as Hn.
  assert (forall y e, Filter2D.scalar_path (MedianBlurSortingNetwork (Z.to_nat (num_lanes T)) (size_of k))
    (reference_window (size_of k) channels width height bt src y e) =
    median_at k channels width height bt src y e) as Hmed.
  { intros y e. apply scalar_path_is_median; [destruct Hk as [->|[->| ->]]; simpl; auto|].
    apply length_reference_window. }
  destruct Hk as [->|[->| ->]]; unfold median_blur_sorting_network_stripe; cbn [size_of] in *.
  - destruct (process_filter2d_by_dual_rows_writes (MedianBlurSortingNetwork (Z.to_nat (num_lanes T)) 3)
      (num_lanes T) channels width height bt src) with (y_begin := y_begin) (y_end := y_end) (dst := dst)
      as (d & Heq & Hd); try done; try lia.
    { apply (network_lanes _ 3). by left. } { apply network_dual. } { apply network_dual_lanes. }
    exists d. split; [simpl; by rewrite Heq|]. intros y e. rewrite (Hd (y, e)), <- Hmed. done.
  - destruct (process_filter2d_writes 5 (@load_window_5x5)
      (MedianBlurSortingNetwork (Z.to_nat (num_lanes T)) 5) (num_lanes T) channels width height bt src)
      with (y_begin := y_begin) (y_end := y_end) (dst := dst) as (d & Heq & Hd); try done; try lia.
    { intros A at_ ro co. apply load_window_5x5_product. }
    { apply (network_lanes _ 5). by right; left. }
    exists d. split; [simpl; by rewrite Heq|]. intros y e. rewrite (Hd (y, e)), <- Hmed. done.
  - destruct (process_filter2d_writes 7 (@load_window_7x7)
      (MedianBlurSortingNetwork (Z.to_nat (num_lanes T)) 7) (num_lanes T) channels width height bt src)
      with (y_begin := y_begin) (y_end := y_end) (dst := dst) as (d & Heq & Hd); try done; try lia.
    { intros A at_ ro co. apply load_window_7x7_product. }
    { apply (network_lanes _ 7). by right; right. }
    exists d. split; [simpl; by rewrite Heq|]. intros y e. rewrite (Hd (y, e)), <- Hmed. done.
Qed.

(** The arguments [median_blur] accepts. *)
Definition median_blur_accepts (T : element_type) (src src_stride dst dst_stride : Z)
    (width height channels kernel_width kernel_height : Z)
    (border_type : kleidicv_border_type_t) (bt : FixedBorderType) : Prop :=
  src <> 0 /\ dst <> 0 /\ src <> dst /\
  (1 < height -> sizeof T <> 1 -> is_misaligned (sizeof T) src_stride = false /\
    is_misaligned (sizeof T) dst_stride = false) /\
  width * height <= KLEIDICV_MAX_IMAGE_PIXELS /\
  channels <= 4 /\ kernel_width = kernel_height /\
  (kernel_width = 3 \/ kernel_width = 5 \/ kernel_width = 7) /\
  kernel_width - 1 <= width /\ kernel_width - 1 <= height /\
  get_fixed_border_type border_type = Some bt.

Lemma kernel_sizes T kw kh : T <> U8 -> is_kernel_size_supported T kw kh = true <->
  kw = kh /\ (kw = 3 \/ kw = 5 \/ kw = 7).
Proof.
  intros HT. unfold is_kernel_size_supported.
  assert ((match T with U8 => 255 | _ => 7 end) = 7) as -> by (by destruct T).
  rewrite !andb_true_iff, negb_true_iff, Z.eqb_eq, !Z.leb_le, Z.eqb_neq. split.
  - intros [[[-> H1] H2] H3]. split; [done|].
    assert (kh = 4 \/ kh = 6 \/ kh = 3 \/ kh = 5 \/ kh = 7) as [->|[->|Hk]] by lia; [done|done|tauto].
  - intros [-> [->|[->| ->]]]; done.
Qed.

Lemma median_blur_validate_accepts T src ss dst ds width height channels kw kh border_type bt :
  T <> U8 -> 0 <= width -> 0 <= height -> 0 <= kw < 2 ^ 64 -> 0 <= kh < 2 ^ 64 ->
  median_blur_validate T src ss dst ds width height channels kw kh border_type = (KLEIDICV_OK, bt) <->
  median_blur_accepts T src ss dst ds width height channels kw kh border_type bt.
Proof.
  intros HT Hw Hh Hkw Hkh. unfold median_blur_validate, median_blur_accepts.
  assert (median_blur_checks T src ss dst ds width height = KLEIDICV_OK <->
    src <> 0 /\ dst <> 0 /\ (1 < height -> sizeof T <> 1 ->
      is_misaligned (sizeof T) ss = false /\ is_misaligned (sizeof T) ds = false) /\
    width * height <= KLEIDICV_MAX_IMAGE_PIXELS) as Hchk.
  { unfold median_blur_checks. rewrite !guard_error_ok, !check_pointer_and_stride_ok,
      check_image_size_iff by done. tauto. }
  destruct (decide (median_blur_checks T src ss dst ds width height = KLEIDICV_OK)) as [E|E].
  2:{ split; intros Hr; [by destruct (median_blur_checks _ _ _ _ _ _ _)|].
      exfalso. apply E, Hchk. tauto. }
  rewrite E. apply Hchk in E as (H1 & H2 & H3 & H4). clear Hchk.
  destruct (get_fixed_border_type border_type) as [b|]; [|split; [done|intuition congruence]].
  destruct (negb _ && _ && _ && _ && _) eqn:Hc.
  - rewrite !andb_true_iff, negb_true_iff, Z.eqb_neq, !Z.leb_le, kernel_sizes in Hc by done.
    destruct Hc as [[[[Hd Hch] Hkh1] Hkw1] [-> Hk]]. rewrite size_sub_small in Hkh1, Hkw1 by lia.
    split; [intros [= ->]; tauto|intros; repeat f_equal; intuition congruence].
  - split; [discriminate|]. intros (_ & _ & Hd & _ & _ & Hch & -> & Hk & Hw1 & Hh1 & _).
    rewrite <- not_true_iff_false in Hc. exfalso. apply Hc.
    rewrite !andb_true_iff, negb_true_iff, Z.eqb_neq, !Z.leb_le, kernel_sizes by done.
    rewrite size_sub_small by lia. tauto.
Qed.

(** C2: [median_blur] of an integer type other than [uint8_t] accepts exactly the
    arguments that pass its checks (non-null distinct pointers, aligned strides, an image
    within the size limit, at most four channels, a square kernel of 3, 5 or 7
    that fits the image, a supported border type); it then returns [KLEIDICV_OK]
    with every pixel of the output the median of its window under the border
    type, and otherwise an error with the output untouched. *)
Theorem median_blur_correct T src ss dst ds width height channels kw kh border_type
    (src_image dst_image : Z * Z -> Z) :
  T <> U8 -> 0 <= width < 2 ^ 64 -> 0 <= height < 2 ^ 64 -> 1 <= channels ->
  0 <= kw < 2 ^ 64 -> 0 <= kh < 2 ^ 64 ->
  exists err dst', median_blur T src ss dst ds width height channels kw kh border_type
      src_image dst_image = Some (err, dst') /\
  ((err = KLEIDICV_OK /\ exists k bt, size_of k = kw /\
      median_blur_accepts T src ss dst ds width height channels kw kh border_type bt /\
      forall y e, dst' (y, e) =
        if (0 <=? y) && (y <? height) && (0 <=? e) && (e <? width * channels)
        then median_at k channels width height bt src_image y e else dst_image (y, e))
   \/ (err <> KLEIDICV_OK /\ dst' = dst_image /\
      forall bt, ~ median_blur_accepts T src ss dst ds width height channels kw kh border_type bt)).
Proof.
  intros HT Hw Hh Hc Hkw Hkh. unfold median_blur.
  destruct (median_blur_validate _ _ _ _ _ _ _ _ _ _ _) as [err bt] eqn:Hv.
  destruct (decide (err = KLEIDICV_OK)) as [->|Herr].
  - apply median_blur_validate_accepts in Hv as Ha; [|done|lia..].
    pose proof Ha as (_ & _ & _ & _ & Hsz & Hch & <- & Hk & Hw1 & Hh1 & _).
    unfold KLEIDICV_MAX_IMAGE_PIXELS in Hsz. change (Z.shiftl 1 48 - 1) with (2 ^ 48 - 1) in Hsz.
    assert (exists k, size_of k = kw /\ (k = K3 \/ k = K5 \/ k = K7)) as (k & <- & Hkk).
    { destruct Hk as [->|[->| ->]]; [exists K3|exists K5|exists K7]; simpl; auto. }
    assert (2 <= width /\ 2 <= height /\ width < 2 ^ 48 /\ height < 2 ^ 48) as (? & ? & ? & ?).
    { assert (3 <= size_of k) by (destruct k; simpl; lia). nia. }
    destruct (stripe_medians T k src_image dst_image width height 0 height channels bt)
      as (d & Heq & Hd); try done; try lia; [nia|].
    exists KLEIDICV_OK, d. split; [done|]. left. split; [done|]. by exists k, bt.
  - exists err, dst_image. split; [by destruct err|]. right. split; [done|]. split; [done|].
    intros b Hb. apply median_blur_validate_accepts in Hb; [congruence|done|lia..].
Qed.

Lemma median_blur_correct_witness :
  exists err dst', median_blur S16 4096 200 8192 200 11 9 2 5 5 KLEIDICV_BORDER_TYPE_REFLECT
      (fun a => a.1 * a.2 mod 17) (fun _ => 0) = Some (err, dst') /\
  ((err = KLEIDICV_OK /\ exists k bt, size_of k = 5 /\
      median_blur_accepts S16 4096 200 8192 200 11 9 2 5 5 KLEIDICV_BORDER_TYPE_REFLECT bt /\
      forall y e, dst' (y, e) =
        if (0 <=? y) && (y <? 9) && (0 <=? e) && (e <? 11 * 2)
        then median_at k 2 11 9 bt (fun a => a.1 * a.2 mod 17) y e else 0)
   \/ (err <> KLEIDICV_OK /\ dst' = (fun _ => 0) /\
      forall bt, ~ median_blur_accepts S16 4096 200 8192 200 11 9 2 5 5
        KLEIDICV_BORDER_TYPE_REFLECT bt)).
Proof. apply median_blur_correct; [done|lia..]. Defined.
