(* ===== verification/ParallelBatches.v ===== *)
(** * Batches of the threaded API

    [kleidicv_thread.cpp]: how an operation on [count] rows is cut into batches
    for the caller's scheduler.  The row operations built on it are in ThreadOps, the
    reductions in ThreadMinMax.

    The scheduler [mt.parallel] is the caller's: a parameter, with the contract
    of [kleidicv_thread.h] as its law.  Batches write disjoint data, so a parallel
    execution is some sequential order of its callbacks. *)

From S2P Require Import Prelude CTypes Utils.

(** ** The scheduler contract *)

Definition is_ok (e : kleidicv_error_t) : bool :=
  match e with KLEIDICV_OK => true | _ => false end.

(** A callback on a range of tasks, acting on a state. *)
Definition range_callback (S : Type) : Type := Z -> Z -> S -> kleidicv_error_t * S.

(** Run a schedule; the flag tells whether every callback returned [KLEIDICV_OK]. *)
Fixpoint run_schedule {S} (callback : range_callback S) (schedule : list (Z * Z)) (s : S)
    : bool * S :=
  match schedule with
  | [] => (true, s)
  | (b, e) :: rest =>
      let '(err, s) := callback b e s in
      let '(ok, s) := run_schedule callback rest s in (is_ok err && ok, s)
  end.

Definition task_in (t : Z) (r : Z * Z) : bool := (r.1 <=? t) && (t <? r.2).

(** "Each task index must be covered exactly once.  Each range must satisfy
    [0 <= begin <= end <= task_count]." *)
Definition covers (task_count : Z) (schedule : list (Z * Z)) : Prop :=
  Forall (fun r => 0 <= r.1 <= r.2 /\ r.2 <= task_count) schedule /\
  forall t, 0 <= t < task_count -> length (List.filter (task_in t) schedule) = 1%nat.

Definition no_empty_range (schedule : list (Z * Z)) : Prop :=
  Forall (fun r => r.1 < r.2) schedule.

(** A scheduler that keeps the contract, using ranges that satisfy [good]. *)
Definition lawful {S} (good : list (Z * Z) -> Prop)
    (parallel : range_callback S -> Z -> S -> kleidicv_error_t * S) : Prop :=
  forall callback n s, exists schedule, covers n schedule /\ good schedule /\
    (parallel callback n s).2 = (run_schedule callback schedule s).2 /\
    is_ok (parallel callback n s).1 = (run_schedule callback schedule s).1.

(** ** Batches *)

Section batches.
Context {S : Type}.
Variable parallel : range_callback S -> Z -> S -> kleidicv_error_t * S.
Implicit Types (callback : range_callback S) (s : S).

(** [std::max(size_t{1}, count / min_batch_size)]. *)
Definition task_count (count min_batch_size : Z) : Z := Z.max 1 (count / min_batch_size).

Definition batch_bounds (count min_batch_size task_count task_begin task_end : Z) : Z * Z :=
  let begin := task_begin ⊠ min_batch_size in
  let end_ := task_end ⊠ min_batch_size in
  (begin, if task_end =? task_count then count else end_).

Definition kleidicv_thread_batch_callback callback (count min_batch_size task_count : Z)
    : range_callback S := fun task_begin task_end s =>
  let '(begin, end_) := batch_bounds count min_batch_size task_count task_begin task_end in
  callback begin end_ s.

Definition parallel_batches callback (count min_batch_size : Z) s : kleidicv_error_t * S :=
  let tasks := task_count count min_batch_size in
  parallel (kleidicv_thread_batch_callback callback count min_batch_size tasks) tasks s.

(** [parallel_batches_cpu_only] and [parallel_batches_hybrid]; [accepts] is the
    answer of [limiter->try_to_run] for the batch. *)
Definition parallel_batches_cpu_only (cpu_callback sme_callback : range_callback S)
    (count min_batch_size : Z) s : kleidicv_error_t * S :=
  parallel_batches cpu_callback count min_batch_size s.

Definition parallel_batches_hybrid (accepts : Z -> Z -> bool)
    (cpu_callback sme_callback : range_callback S) (count min_batch_size : Z) s
    : kleidicv_error_t * S :=
  parallel_batches (fun begin end_ s =>
    if accepts begin end_ then sme_callback begin end_ s else cpu_callback begin end_ s)
    count min_batch_size s.
End batches.

(** ** The batches of a schedule *)

Lemma batch_bounds_spec count mb b e :
  0 <= count < 2 ^ 64 -> 1 <= mb < 2 ^ 64 ->
  0 <= b < e -> e <= task_count count mb ->
  let '(begin, end_) := batch_bounds count mb (task_count count mb) b e in
  begin = b * mb /\ end_ = (if e =? task_count count mb then count else e * mb) /\
  0 <= begin <= end_ /\ end_ <= count /\ (begin < end_ \/ count = 0).
Proof.
  intros Hc Hm Hb He. unfold batch_bounds, task_count in *.
  pose proof (Z.div_mod count mb ltac:(lia)). pose proof (Z.mod_pos_bound count mb ltac:(lia)).
  set (q := count / mb) in *. assert (0 <= q) by (apply Z.div_pos; lia).
  assert (b * mb <= (e - 1) * mb) by nia.
  destruct (Z.le_gt_cases q 0).
  - assert (b = 0 /\ e = 1) as [-> ->] by lia. rewrite (size_mul_small 0) by lia.
    replace (Z.max 1 q) with 1 by lia. simpl. lia.
  - replace (Z.max 1 q) with q in * by lia. assert (e * mb <= q * mb) by nia.
    rewrite (size_mul_small b), (size_mul_small e) by nia.
    split; [done|]. split; [done|]. case_cmp; [subst e|]; split_and!; nia.
Qed.

(** Which task a row belongs to. *)
Definition task_of (count mb row : Z) : Z := Z.min (row / mb) (task_count count mb - 1).

Lemma row_in_batch count mb b e row :
  0 <= count < 2 ^ 64 -> 1 <= mb < 2 ^ 64 -> 0 <= b < e -> e <= task_count count mb ->
  0 <= row < count ->
  let '(begin, end_) := batch_bounds count mb (task_count count mb) b e in
  task_in row (begin, end_) = task_in (task_of count mb row) (b, e).
Proof.
  intros Hc Hm Hb He Hr. pose proof (batch_bounds_spec count mb b e Hc Hm Hb He) as Hspec.
  destruct (batch_bounds count mb (task_count count mb) b e) as [begin end_].
  destruct Hspec as (-> & -> & _). unfold task_in, task_of. simpl.
  pose proof (Z.div_mod row mb ltac:(lia)). pose proof (Z.mod_pos_bound row mb ltac:(lia)).
  set (r := row / mb) in *. set (n := task_count count mb) in *.
  assert (1 <= n) by (subst n; unfold task_count; lia).
  apply Bool.eq_iff_eq_true. rewrite !andb_true_iff, !Z.leb_le, !Z.ltb_lt.
  assert (b * mb <= row <-> b <= r) as Hlo by nia.
  destruct (Z.eqb_spec e n) as [->|Hne].
  - split; [intros [? ?]; nia|]. intros [? ?]. split; [|lia]. nia.
  - assert (row < e * mb <-> r < e) as Hhi by nia. split; intros [? ?]; split; lia.
Qed.

(** ** Row operations

    The state a callback writes is a store of cells; [row_at a] is the row a cell
    belongs to, [None] outside the destination image. *)

Definition in_rows {A} (row_at : A -> option Z) (r : Z * Z) (a : A) : bool :=
  match row_at a with Some row => task_in row r | None => false end.

(** A callback that writes every cell [a] of its rows with [g a], whatever was
    there, and no other cell. *)
Definition row_callback {A T} (row_at : A -> option Z) (g : A -> T) (count : Z)
    (callback : range_callback (A -> T)) : Prop :=
  forall b e s, 0 <= b <= e -> e <= count -> b < e \/ count = 0 ->
    is_ok (callback b e s).1 = true /\
    forall a, (callback b e s).2 a = if in_rows row_at (b, e) a then g a else s a.

Definition in_schedule {A} (row_at : A -> option Z) (count mb : Z) schedule (a : A) : bool :=
  match row_at a with
  | Some row => (0 <=? row) && (row <? count) && existsb (task_in (task_of count mb row)) schedule
  | None => false
  end.

Lemma run_schedule_rows {A T} row_at (g : A -> T) count mb callback schedule s :
  0 <= count < 2 ^ 64 -> 1 <= mb < 2 ^ 64 ->
  row_callback row_at g count callback ->
  Forall (fun r => 0 <= r.1 <= r.2 /\ r.2 <= task_count count mb) schedule ->
  no_empty_range schedule ->
  let r := run_schedule
    (kleidicv_thread_batch_callback callback count mb (task_count count mb)) schedule s in
  r.1 = true /\ forall a, r.2 a = if in_schedule row_at count mb schedule a then g a else s a.
Proof.
  intros Hc Hm Hcb Hr Hne. revert s. induction schedule as [|[b e] schedule IH]; intros s.
  - simpl. split; [done|]. intros a. unfold in_schedule.
    destruct (row_at a); [|done]. by rewrite andb_false_r.
  - apply Forall_cons in Hr as [Hbe Hr]. apply Forall_cons in Hne as [Hlt Hne]. simpl in Hbe, Hlt.
    pose proof (batch_bounds_spec count mb b e Hc Hm ltac:(lia) ltac:(lia)) as Hspec.
    pose proof (fun row => row_in_batch count mb b e row Hc Hm ltac:(lia) ltac:(lia)) as Hin.
    cbn [run_schedule]. unfold kleidicv_thread_batch_callback at 1 3.
    destruct (batch_bounds count mb (task_count count mb) b e) as [begin end_].
    destruct Hspec as (_ & _ & Hb & He & Hpos).
    destruct (Hcb begin end_ s Hb He Hpos) as [Hok Hw].
    destruct (callback begin end_ s) as [err s1]. simpl in Hok, Hw.
    destruct (IH Hr Hne s1) as [IH1 IH2].
    destruct (run_schedule _ schedule s1) as [ok s2]. simpl in *. split; [by rewrite Hok, IH1|].
    intros a. rewrite IH2, Hw. unfold in_schedule, in_rows. destruct (row_at a) as [row|]; [|done].
    destruct ((0 <=? row) && (row <? count)) eqn:Hrow.
    + apply andb_true_iff in Hrow as [Hr0%Z.leb_le Hr1%Z.ltb_lt]. simpl.
      rewrite (Hin row (conj Hr0 Hr1)). destruct (task_in _ (b, e)); simpl; [|done].
      by destruct (existsb _ schedule).
    + simpl. destruct (task_in row (begin, end_)) eqn:Ht; [|done]. exfalso.
      unfold task_in in Ht. simpl in Ht. revert Hrow Ht. case_cmp; simpl; done || lia.
Qed.

Lemma covers_task count mb schedule row :
  1 <= mb -> 0 <= row < count -> covers (task_count count mb) schedule ->
  existsb (task_in (task_of count mb row)) schedule = true.
Proof.
  intros Hm Hr [_ Hcov].
  assert (0 <= task_of count mb row < task_count count mb) as Ht.
  { unfold task_of. assert (0 <= row / mb) by (apply Z.div_pos; lia).
    unfold task_count. lia. }
  specialize (Hcov _ Ht). destruct (existsb _ schedule) eqn:He; [done|]. exfalso.
  rewrite <- Bool.not_true_iff_false, existsb_exists in He.
  destruct (List.filter _ schedule) as [|x l] eqn:Hf; [done|]. apply He. exists x.
  apply (filter_In (task_in (task_of count mb row))). rewrite Hf. by left.
Qed.

(** What [parallel_batches] must leave: every cell of every row written. *)
Lemma parallel_batches_rows {A T} parallel row_at (g : A -> T) count mb callback s :
  lawful no_empty_range parallel -> 0 <= count < 2 ^ 64 -> 1 <= mb < 2 ^ 64 ->
  row_callback row_at g count callback ->
  is_ok (parallel_batches parallel callback count mb s).1 = true /\
  forall a, (parallel_batches parallel callback count mb s).2 a =
    if in_rows row_at (0, count) a then g a else s a.
Proof.
  intros Hlaw Hc Hm Hcb. unfold parallel_batches.
  destruct (Hlaw (kleidicv_thread_batch_callback callback count mb (task_count count mb))
    (task_count count mb) s) as (schedule & Hcov & Hne & Hs & Hok).
  destruct (run_schedule_rows row_at g count mb callback schedule s Hc Hm Hcb (proj1 Hcov) Hne)
    as [Hrun1 Hrun2].
  rewrite Hs, Hok. split; [exact Hrun1|]. intros a. rewrite Hrun2.
  unfold in_schedule, in_rows, task_in. simpl. destruct (row_at a) as [row|]; [|done].
  destruct ((0 <=? row) && (row <? count)) eqn:Hrow; [|done].
  apply andb_true_iff in Hrow as [Hr0%Z.leb_le Hr1%Z.ltb_lt].
  fold (task_in (task_of count mb row)).
  rewrite (covers_task count mb schedule row) by (done || lia). done.
Qed.

(** C18: the threaded execution of a row operation equals the single-threaded one:
    for every scheduler that keeps the documented contract with non-empty
    ranges, whatever its ranges and their order, and every minimum batch size,
    [parallel_batches] succeeds and leaves exactly the state one call on all the
    rows leaves; with the hybrid dispatch the same holds whichever batches the
    SME limiter accepts. *)
Theorem threaded_equals_single_threaded {A T} parallel accepts row_at (g : A -> T) count mb
    cpu_callback sme_callback s :
  lawful no_empty_range parallel -> 0 <= count < 2 ^ 64 -> 1 <= mb < 2 ^ 64 ->
  row_callback row_at g count cpu_callback -> row_callback row_at g count sme_callback ->
  let single := cpu_callback 0 count s in
  let threaded := parallel_batches_cpu_only parallel cpu_callback sme_callback count mb s in
  let hybrid := parallel_batches_hybrid parallel accepts cpu_callback sme_callback count mb s in
  is_ok threaded.1 = is_ok single.1 /\ is_ok hybrid.1 = is_ok single.1 /\
  forall a, threaded.2 a = single.2 a /\ hybrid.2 a = single.2 a.
Proof.
  intros Hlaw Hc Hm Hcpu Hsme single threaded hybrid.
  destruct (Hcpu 0 count s ltac:(lia) ltac:(lia) ltac:(lia)) as [Hok Hw].
  destruct (parallel_batches_rows parallel row_at g count mb cpu_callback s Hlaw Hc Hm Hcpu)
    as [Ht1 Ht2].
  destruct (parallel_batches_rows parallel row_at g count mb (fun begin end_ s =>
    if accepts begin end_ then sme_callback begin end_ s else cpu_callback begin end_ s) s Hlaw Hc Hm)
    as [Hh1 Hh2].
  { intros b e s' Hb He Hpos. destruct (accepts b e); [by apply Hsme|by apply Hcpu]. }
  subst single threaded hybrid. unfold parallel_batches_cpu_only, parallel_batches_hybrid.
  rewrite Hok, Ht1, Hh1. split_and!; try done. intros a. rewrite Ht2, Hh2, Hw. done.
Qed.

(** The serial scheduler, task by task in reverse order, as an example. *)
Definition reverse_serial {S} (callback : range_callback S) (n : Z) (s : S)
    : kleidicv_error_t * S :=
  let '(ok, s) := run_schedule callback (map (fun t => (t, t + 1)) (reverse (seqZ 0 n))) s in
  (if ok then KLEIDICV_OK else KLEIDICV_ERROR_RANGE, s).

Lemma filter_single t l : NoDup l -> t ∈ l ->
  length (List.filter (task_in t) (map (fun t => (t, t + 1)) l)) = 1%nat.
Proof.
  intros Hnd Ht. induction l as [|x l IH]; [by apply not_elem_of_nil in Ht|].
  apply NoDup_cons in Hnd as [Hx Hnd]. simpl. unfold task_in at 1. simpl.
  apply elem_of_cons in Ht as [->|Ht].
  - destruct (Z.leb_spec x x); [|lia]. destruct (Z.ltb_spec x (x + 1)); [|lia]. simpl. f_equal.
    assert (forall l', x ∉ l' ->
      length (List.filter (task_in x) (map (fun t => (t, t + 1)) l')) = 0%nat) as Hzero; [|by apply Hzero].
    clear. intros l' Hx. induction l' as [|y l' IH]; [done|]. apply not_elem_of_cons in Hx as [Hne Hx].
    simpl. unfold task_in at 1. simpl. case_cmp; simpl; try (by apply IH); lia.
  - destruct ((x <=? t) && (t <? x + 1)) eqn:Hc; [|by apply IH].
    assert (t = x) as -> by (revert Hc; case_cmp; done || lia). done.
Qed.

Lemma reverse_serial_schedule {S} good :
  (forall n, good (map (fun t => (t, t + 1)) (reverse (seqZ 0 n)))) -> lawful good (reverse_serial (S := S)).
Proof.
  intros Hgood callback n s. exists (map (fun t => (t, t + 1)) (reverse (seqZ 0 n))).
  split_and!; [|apply Hgood| |].
  - split.
    + apply Forall_fmap, Forall_forall. intros t Ht%elem_of_reverse%elem_of_seqZ. simpl. lia.
    + intros t Ht. apply filter_single; [rewrite reverse_Permutation; apply NoDup_seqZ|].
      apply elem_of_reverse, elem_of_seqZ. lia.
  - unfold reverse_serial. by destruct (run_schedule _ _ _).
  - unfold reverse_serial. by destruct (run_schedule _ _ _) as [[] ?].
Qed.

Lemma reverse_serial_lawful {S} : lawful no_empty_range (reverse_serial (S := S)).
Proof. apply reverse_serial_schedule. intros n. apply Forall_fmap, Forall_forall. intros t _. simpl. lia. Qed.

Lemma threaded_equals_single_threaded_witness :
  let cb : range_callback (Z -> Z) := fun b e s =>
    (KLEIDICV_OK, fun r => if in_rows Some (b, e) r then r * r else s r) in
  let single := cb 0 130 (fun _ => 0) in
  let threaded := parallel_batches_cpu_only reverse_serial cb cb 130 64 (fun _ => 0) in
  let hybrid := parallel_batches_hybrid reverse_serial (fun b _ => b =? 0) cb cb 130 64 (fun _ => 0) in
  is_ok threaded.1 = is_ok single.1 /\ is_ok hybrid.1 = is_ok single.1 /\
  forall row, threaded.2 row = single.2 row /\ hybrid.2 row = single.2 row.
Proof.
  apply (threaded_equals_single_threaded reverse_serial (fun b _ => b =? 0) Some (fun r => r * r) 130 64);
    [apply reverse_serial_lawful|lia|lia|done|done].
Defined.

(** ** Batches that may depend on the state

    [Inv done_ s]: in state [s] the rows of [done_] are processed.  A callback on rows that
    are not yet processed processes them, whatever the batches before it did to the others;
    as every task is covered exactly once, no batch finds its rows processed. *)

Section covered.
Context {S : Type} (callback : range_callback S) (count mb : Z) (Inv : (Z -> bool) -> S -> Prop).
Hypothesis count_range : 0 < count < 2 ^ 64.
Hypothesis batch_range : 1 <= mb < 2 ^ 64.
Hypothesis inv_ext : forall P Q s, (forall k, 0 <= k < count -> P k = Q k) -> Inv P s -> Inv Q s.
Hypothesis callback_inv : forall P b e s, 0 <= b < e -> e <= count -> (forall k, b <= k < e -> P k = false) -> Inv P s ->
  is_ok (callback b e s).1 = true /\ Inv (fun k => P k || task_in k (b, e)) (callback b e s).2.

Lemma task_of_range k : 0 <= k < count -> 0 <= task_of count mb k < task_count count mb.
Proof. intros Hk. unfold task_of, task_count. assert (0 <= k / mb) by (apply Z.div_pos; lia). lia. Qed.

Lemma existsb_filter {A} (f : A -> bool) l : existsb f l = true -> (0 < length (List.filter f l))%nat.
Proof.
  intros (x & Hx & Hf)%existsb_exists. assert (In x (List.filter f l)) as Hin by by apply filter_In.
  destruct (List.filter f l); [done|cbn; lia].
Qed.

Lemma schedule_covered schedule P s :
  Forall (fun r => 0 <= r.1 < r.2 /\ r.2 <= task_count count mb) schedule ->
  (forall t, 0 <= t < task_count count mb -> (length (List.filter (task_in t) schedule) <= 1)%nat) ->
  (forall k, 0 <= k < count -> existsb (task_in (task_of count mb k)) schedule = true -> P k = false) -> Inv P s ->
  let r := run_schedule (kleidicv_thread_batch_callback callback count mb (task_count count mb)) schedule s in
  r.1 = true /\ Inv (fun k => P k || existsb (task_in (task_of count mb k)) schedule) r.2.
Proof.
  revert P s. induction schedule as [|[b e] schedule IH]; intros P s Hr Honce Hnew HI.
  - split; [done|]. eapply inv_ext; [|exact HI]. intros k _. cbn. by rewrite orb_false_r.
  - apply Forall_cons in Hr as [Hbe Hr]. cbn [fst snd] in Hbe.
    pose proof (batch_bounds_spec count mb b e ltac:(lia) batch_range ltac:(lia) ltac:(lia)) as Hspec.
    pose proof (fun k => row_in_batch count mb b e k ltac:(lia) batch_range ltac:(lia) ltac:(lia)) as Hin.
    cbn [run_schedule]. unfold kleidicv_thread_batch_callback at 1 3.
    destruct (batch_bounds count mb (task_count count mb) b e) as [begin end_]. destruct Hspec as (_ & _ & Hb & He & Hpos).
    destruct (callback_inv P begin end_ s ltac:(lia) He) as [Hok HI1]; [|done|].
    { intros k Hk. apply Hnew; [lia|]. cbn [existsb]. rewrite <- (Hin k) by lia.
      unfold task_in at 1. cbn [fst snd]. by rewrite (proj2 (Z.leb_le _ _)), (proj2 (Z.ltb_lt _ _)) by lia. }
    destruct (callback begin end_ s) as [err s1]. cbn [fst snd] in Hok, HI1.
    destruct (IH (fun k => P k || task_in k (begin, end_)) s1 Hr) as [IH1 IH2]; [| |done|].
    { intros t Ht. specialize (Honce t Ht). cbn [List.filter] in Honce. destruct (task_in t (b, e)); cbn [length] in Honce; lia. }
    { intros k Hk Hex. cbn beta. rewrite Hnew by (done || cbn [existsb]; by rewrite Hex, orb_true_r). cbn [orb]. rewrite (Hin k Hk).
      destruct (task_in _ (b, e)) eqn:Ht; [|done]. specialize (Honce _ (task_of_range k Hk)). cbn [List.filter] in Honce.
      rewrite Ht in Honce. cbn [length] in Honce. pose proof (existsb_filter _ _ Hex). lia. }
    destruct (run_schedule _ schedule s1) as [ok s2]. cbn [fst snd] in *.
    split; [by rewrite Hok, IH1|]. eapply inv_ext; [|exact IH2]. intros k Hk. cbn [existsb]. rewrite (Hin k Hk). by rewrite orb_assoc.
Qed.

Lemma parallel_batches_covered parallel s : lawful no_empty_range parallel -> Inv (fun _ => false) s ->
  is_ok (parallel_batches parallel callback count mb s).1 = true /\ Inv (fun _ => true) (parallel_batches parallel callback count mb s).2.
Proof.
  intros Hlaw HI. unfold parallel_batches.
  destruct (Hlaw (kleidicv_thread_batch_callback callback count mb (task_count count mb)) (task_count count mb) s)
    as (schedule & [Hr Hcov] & Hne & -> & ->).
  destruct (schedule_covered schedule (fun _ => false) s) as [H1 H2]; [| |done|done|].
  - unfold no_empty_range in Hne. rewrite Forall_forall in Hr, Hne |- *. intros r Hin. specialize (Hr r Hin). specialize (Hne r Hin). lia.
  - intros t Ht. by rewrite Hcov.
  - split; [exact H1|]. eapply inv_ext; [|exact H2]. intros k Hk. cbn [orb]. by rewrite (covers_task count mb schedule k) by (done || lia).
Qed.
End covered.

(** ** Shape of the batches *)

(** Batches suit the vector kernels, as the comment on [parallel_batches]
    promises: every batch of a non-empty range starts at a multiple of the
    minimum batch size, every one but the last is a multiple of it long, and
    when there is that much data none is shorter; a range of one task has fewer
    than two minimum batches of rows. *)
Theorem batches_are_vector_sized count mb b e :
  0 <= count < 2 ^ 64 -> 1 <= mb < 2 ^ 64 -> 0 <= b < e -> e <= task_count count mb ->
  let '(begin, end_) := batch_bounds count mb (task_count count mb) b e in
  begin mod mb = 0 /\
  (e < task_count count mb -> (end_ - begin) mod mb = 0) /\
  (mb <= count -> mb <= end_ - begin) /\
  (e = b + 1 -> end_ - begin < 2 * mb).
Proof.
  intros Hc Hm Hb He. pose proof (batch_bounds_spec count mb b e Hc Hm Hb He) as Hspec.
  destruct (batch_bounds count mb (task_count count mb) b e) as [begin end_].
  destruct Hspec as (-> & -> & Hrange). unfold task_count in *.
  pose proof (Z.div_mod count mb ltac:(lia)). pose proof (Z.mod_pos_bound count mb ltac:(lia)).
  set (q := count / mb) in *. assert (0 <= q) by (apply Z.div_pos; lia).
  split_and!.
  - apply Z.mod_mul. lia.
  - intros Hlt. destruct (Z.eqb_spec e (Z.max 1 q)); [lia|].
    rewrite <- Z.mul_sub_distr_r. apply Z.mod_mul. lia.
  - intros Hle. assert (1 <= q) by (subst q; apply Z.div_le_lower_bound; lia).
    destruct (Z.eqb_spec e (Z.max 1 q)); nia.
  - intros ->. destruct (Z.eqb_spec (b + 1) (Z.max 1 q)); [|nia].
    destruct (Z.le_gt_cases q 0); nia.
Qed.

Lemma batches_are_vector_sized_witness :
  batch_bounds 130 64 (task_count 130 64) 1 2 = (64, 130) /\
  (64 mod 64 = 0 /\ (2 < task_count 130 64 -> (130 - 64) mod 64 = 0) /\
   (64 <= 130 -> 64 <= 130 - 64) /\ (2 = 1 + 1 -> 130 - 64 < 2 * 64)).
Proof.
  split; [reflexivity|]. apply (batches_are_vector_sized 130 64 1 2);
    (vm_compute; intuition congruence).
Defined.

(** The documented contract of a scheduler also allows empty ranges, and a
    legal schedule with the empty range [1, 1) breaks the batches: with 10 rows
    and a minimum of 16 the callback gets [begin = 16], [end = 10], so its row
    count [end - begin] wraps around to [2^64 - 6]. *)
Theorem empty_range_breaks_batches :
  let schedule := [(0, 1); (1, 1)] in
  covers (task_count 10 16) schedule /\
  map (fun r => batch_bounds 10 16 (task_count 10 16) r.1 r.2) schedule = [(0, 10); (16, 10)] /\
  10 ⊟ 16 = 2 ^ 64 - 6.
Proof.
  cbn zeta. split_and!; [|reflexivity|reflexivity]. split.
  - repeat constructor; simpl; vm_compute; congruence.
  - change (task_count 10 16) with 1. intros t Ht. replace t with 0 by lia. reflexivity.
Qed.
