(* ===== verification/ThreadOps.v ===== *)
(** * Threaded row operations

    The wrappers of [kleidicv_thread.cpp] that give each batch of rows to a
    single-threaded function: [kleidicv_thread_unary_op_impl],
    [kleidicv_thread_binary_op_impl] and
    [kleidicv_thread_yuv_semiplanar_to_rgb_u8].  Addresses are bytes; the
    destination is a store of bytes, the sources are only read. *)

From S2P Require Import Prelude CTypes Utils ParallelBatches.

(** ** Row addresses *)

(** [p + static_cast<ptrdiff_t>(begin * stride / sizeof(T))] on a [T *]. *)
Definition offset_pointer (size p begin stride : Z) : Z :=
  p + size * to_ptrdiff (begin ⊠ stride / size).

Lemma offset_pointer_row size p begin stride :
  0 < size -> stride mod size = 0 -> 0 <= begin -> 0 <= stride -> begin * stride < 2 ^ 63 ->
  offset_pointer size p begin stride = p + begin * stride.
Proof.
  intros Hs Hm Hb Hst Hlt. unfold offset_pointer. rewrite size_mul_small by nia.
  apply Z.mod_divide in Hm as [k ->]; [|lia].
  replace (begin * (k * size) / size) with (begin * k) by
    (rewrite Z.mul_assoc, Z.div_mul by lia; done).
  assert (0 <= begin * k) by nia.
  rewrite to_ptrdiff_small by nia. lia.
Qed.

(** The row of a destination with [bytes] bytes per row that holds address [a]. *)
Definition dst_row (dst dst_stride bytes a : Z) : option Z :=
  if (a - dst) mod dst_stride <? bytes then Some ((a - dst) / dst_stride) else None.

(** What a row function writes: row [r] of its [height] rows gets [value r]. *)
Definition rows_written (dst dst_stride bytes height : Z) (value : Z -> Z -> Z)
    (mem mem' : Z -> Z) : Prop :=
  forall a, mem' a =
    if in_rows (dst_row dst dst_stride bytes) (0, height) a
    then value ((a - dst) / dst_stride) ((a - dst) mod dst_stride) else mem a.

(** Writing rows [b..e) through a pointer to row [b] writes those rows. *)
Lemma rows_written_shift dst ds bytes b e (value : Z -> Z -> Z) mem mem' :
  0 < ds -> b <= e ->
  rows_written (dst + b * ds) ds bytes (e - b) (fun r => value (b + r)) mem mem' ->
  forall a, mem' a = if in_rows (dst_row dst ds bytes) (b, e) a
    then value ((a - dst) / ds) ((a - dst) mod ds) else mem a.
Proof.
  intros Hds Hbe Hw a. rewrite Hw. unfold in_rows, dst_row, task_in. simpl.
  replace (a - (dst + b * ds)) with ((a - dst) + (- b) * ds) by lia.
  rewrite Z.mod_add, Z.div_add by lia.
  replace (b + ((a - dst) / ds + - b)) with ((a - dst) / ds) by lia.
  case_cmp; simpl; done || lia.
Qed.

Section wrappers.
Variable parallel : range_callback (Z -> Z) -> Z -> (Z -> Z) -> kleidicv_error_t * (Z -> Z).

(** [f(src, src_stride, dst, dst_stride, width, height, args...)]. *)
Definition unary_function : Type :=
  Z -> Z -> Z -> Z -> Z -> Z -> (Z -> Z) -> kleidicv_error_t * (Z -> Z).

Definition unary_callback (SrcSize DstSize : Z) (f : unary_function)
    (src src_stride dst dst_stride width : Z) : range_callback (Z -> Z) := fun begin end_ =>
  f (offset_pointer SrcSize src begin src_stride) src_stride
    (offset_pointer DstSize dst begin dst_stride) dst_stride width (end_ ⊟ begin).

Definition kleidicv_thread_unary_op_impl (SrcSize DstSize : Z) (f : unary_function)
    (src src_stride dst dst_stride width height : Z) : (Z -> Z) -> kleidicv_error_t * (Z -> Z) :=
  parallel_batches parallel
    (unary_callback SrcSize DstSize f src src_stride dst dst_stride width) height 1.

Definition binary_function : Type :=
  Z -> Z -> Z -> Z -> Z -> Z -> Z -> Z -> (Z -> Z) -> kleidicv_error_t * (Z -> Z).

Definition binary_callback (SrcSize DstSize : Z) (f : binary_function)
    (src_a src_a_stride src_b src_b_stride dst dst_stride width : Z)
    : range_callback (Z -> Z) := fun begin end_ =>
  f (offset_pointer SrcSize src_a begin src_a_stride) src_a_stride
    (offset_pointer SrcSize src_b begin src_b_stride) src_b_stride
    (offset_pointer DstSize dst begin dst_stride) dst_stride width (end_ ⊟ begin).

Definition kleidicv_thread_binary_op_impl (SrcSize DstSize : Z) (f : binary_function)
    (src_a src_a_stride src_b src_b_stride dst dst_stride width height : Z)
    : (Z -> Z) -> kleidicv_error_t * (Z -> Z) :=
  parallel_batches parallel
    (binary_callback SrcSize DstSize f src_a src_a_stride src_b src_b_stride dst dst_stride width)
    height 1.

(** [kleidicv_thread_yuv_semiplanar_to_rgb_u8]: a task is two rows, which share
    a row of chroma. *)
Definition semiplanar_callback (f : binary_function)
    (src_y src_y_stride src_uv src_uv_stride dst dst_stride width height : Z)
    : range_callback (Z -> Z) := fun begin end_ =>
  let row_begin := begin ⊠ 2 in
  let row_end := Z.min height (end_ ⊠ 2) in
  let row_uv := begin in
  f (src_y + row_begin ⊠ src_y_stride) src_y_stride
    (src_uv + row_uv ⊠ src_uv_stride) src_uv_stride
    (dst + row_begin ⊠ dst_stride) dst_stride width (row_end ⊟ row_begin).

Definition kleidicv_thread_yuv_semiplanar_to_rgb_u8 (f : binary_function)
    (src_y src_y_stride src_uv src_uv_stride dst dst_stride width height : Z) (mem : Z -> Z)
    : kleidicv_error_t * (Z -> Z) :=
  if any_null [src_y; src_uv; dst] then (KLEIDICV_ERROR_NULL_POINTER, mem)
  else parallel_batches parallel
    (semiplanar_callback f src_y src_y_stride src_uv src_uv_stride dst dst_stride width height)
    ((height ⊞ 1) / 2) 1 mem.
End wrappers.

(** ** Contracts of the wrapped functions

    [value] is what the function computes for a destination row, from the
    addresses of its source rows: the functions treat rows independently. *)

Definition unary_row_function (f : unary_function) (ss ds width bytes : Z)
    (value : Z -> Z -> Z) : Prop :=
  forall src dst height mem, 0 <= height < 2 ^ 63 ->
    is_ok (f src ss dst ds width height mem).1 = true /\
    rows_written dst ds bytes height (fun r => value (src + r * ss)) mem
      (f src ss dst ds width height mem).2.

Definition binary_row_function (f : binary_function) (sa sb ds width bytes : Z)
    (value : Z -> Z -> Z -> Z) : Prop :=
  forall src_a src_b dst height mem, 0 <= height < 2 ^ 63 ->
    is_ok (f src_a sa src_b sb dst ds width height mem).1 = true /\
    rows_written dst ds bytes height (fun r => value (src_a + r * sa) (src_b + r * sb)) mem
      (f src_a sa src_b sb dst ds width height mem).2.

(** Rows [2k] and [2k + 1] use chroma row [k]. *)
Definition semiplanar_row_function (f : binary_function) (sy suv ds width bytes : Z)
    (value : Z -> Z -> Z -> Z) : Prop :=
  forall src_y src_uv dst height mem, 0 <= height < 2 ^ 63 ->
    is_ok (f src_y sy src_uv suv dst ds width height mem).1 = true /\
    rows_written dst ds bytes height (fun r => value (src_y + r * sy) (src_uv + r / 2 * suv)) mem
      (f src_y sy src_uv suv dst ds width height mem).2.

(** A stride the wrappers address without loss: whole elements, and the image
    fits in the address space. *)
Definition good_stride (size stride height : Z) : Prop :=
  0 < size /\ 0 <= stride /\ stride mod size = 0 /\ height * stride < 2 ^ 63.

Lemma good_stride_row size p begin stride height :
  good_stride size stride height -> 0 <= begin <= height ->
  offset_pointer size p begin stride = p + begin * stride.
Proof. intros (? & ? & ? & ?) Hb. apply offset_pointer_row; try lia. nia. Qed.

Lemma rows_written_ext dst ds bytes h (v w : Z -> Z -> Z) mem mem' :
  (forall r o, v r o = w r o) ->
  rows_written dst ds bytes h v mem mem' -> rows_written dst ds bytes h w mem mem'.
Proof. intros Hvw Hr a. rewrite (Hr a). by rewrite Hvw. Qed.

Lemma unary_callback_rows S D f src ss dst ds width bytes height value :
  unary_row_function f ss ds width bytes value ->
  good_stride S ss height -> good_stride D ds height -> 0 < ds -> height < 2 ^ 63 ->
  row_callback (dst_row dst ds bytes)
    (fun a => value (src + (a - dst) / ds * ss) ((a - dst) mod ds)) height
    (unary_callback S D f src ss dst ds width).
Proof.
  intros Hf Hs Hd Hds Hh b e mem Hb He _. unfold unary_callback.
  rewrite (good_stride_row S src b ss height), (good_stride_row D dst b ds height) by (done || lia).
  rewrite size_sub_small by lia.
  destruct (Hf (src + b * ss) (dst + b * ds) (e - b) mem ltac:(lia)) as [Hok Hw].
  split; [done|]. intros a.
  rewrite (rows_written_shift dst ds bytes b e (fun r => value (src + r * ss)) mem _ Hds ltac:(lia)); [done|].
  eapply rows_written_ext; [|exact Hw]. intros r o. simpl. f_equal. lia.
Qed.

Lemma binary_callback_rows S D f src_a sa src_b sb dst ds width bytes height value :
  binary_row_function f sa sb ds width bytes value ->
  good_stride S sa height -> good_stride S sb height -> good_stride D ds height ->
  0 < ds -> height < 2 ^ 63 ->
  row_callback (dst_row dst ds bytes)
    (fun a => value (src_a + (a - dst) / ds * sa) (src_b + (a - dst) / ds * sb) ((a - dst) mod ds))
    height (binary_callback S D f src_a sa src_b sb dst ds width).
Proof.
  intros Hf Ha Hbs Hd Hds Hh b e mem Hb He _. unfold binary_callback.
  rewrite (good_stride_row S src_a b sa height), (good_stride_row S src_b b sb height),
    (good_stride_row D dst b ds height) by (done || lia).
  rewrite size_sub_small by lia.
  destruct (Hf (src_a + b * sa) (src_b + b * sb) (dst + b * ds) (e - b) mem ltac:(lia)) as [Hok Hw].
  split; [done|]. intros a.
  rewrite (rows_written_shift dst ds bytes b e
    (fun r => value (src_a + r * sa) (src_b + r * sb)) mem _ Hds ltac:(lia)); [done|].
  eapply rows_written_ext; [|exact Hw]. intros r o. simpl. f_equal; lia.
Qed.

(** The pair of rows of an address, inside an image of [height] rows. *)
Definition dst_row_pair (dst ds bytes height a : Z) : option Z :=
  if in_rows (dst_row dst ds bytes) (0, height) a then Some ((a - dst) / ds / 2) else None.

Lemma semiplanar_callback_rows f src_y sy src_uv suv dst ds width bytes height value :
  semiplanar_row_function f sy suv ds width bytes value ->
  0 < height -> height * sy < 2 ^ 63 -> height * suv < 2 ^ 63 -> height * ds < 2 ^ 63 ->
  0 <= sy -> 0 <= suv -> 0 < ds ->
  row_callback (dst_row_pair dst ds bytes height)
    (fun a => value (src_y + (a - dst) / ds * sy) (src_uv + (a - dst) / ds / 2 * suv) ((a - dst) mod ds))
    ((height + 1) / 2)
    (semiplanar_callback f src_y sy src_uv suv dst ds width height).
Proof.
  intros Hf Hh Hy Huv Hd Hsy Hsuv Hds b e mem Hb He Hbe. unfold semiplanar_callback.
  assert (2 * ((height + 1) / 2) <= height + 1) by mod_lia.
  assert (b < e) as Hlt by (destruct Hbe as [|Hz]; [done|exfalso; mod_lia]). clear Hbe.
  assert (height < 2 ^ 63) by nia.
  rewrite (size_mul_small b 2), (size_mul_small e 2) by lia.
  rewrite (size_mul_small (b * 2) sy), (size_mul_small b suv), (size_mul_small (b * 2) ds) by nia.
  rewrite size_sub_small by lia.
  destruct (Hf (src_y + b * 2 * sy) (src_uv + b * suv) (dst + b * 2 * ds)
    (Z.min height (e * 2) - b * 2) mem ltac:(lia)) as [Hok Hw].
  split; [done|]. intros a.
  rewrite (rows_written_shift dst ds bytes (b * 2) (Z.min height (e * 2))
    (fun r => value (src_y + r * sy) (src_uv + r / 2 * suv)) mem _ Hds ltac:(lia));
    [|eapply rows_written_ext; [|exact Hw]; intros r o; cbn beta;
      rewrite (Z.add_comm (b * 2) r), Z.div_add by lia; f_equal; lia].
  unfold in_rows, dst_row_pair, in_rows, dst_row, task_in. cbn [fst snd].
  destruct (_ mod ds <? bytes); [|done]. set (r := (a - dst) / ds).
  destruct ((0 <=? r) && (r <? height)) eqn:Hr.
  - replace ((b * 2 <=? r) && (r <? Z.min height (e * 2)))
      with ((b <=? r / 2) && (r / 2 <? e)); [done|].
    apply andb_true_iff in Hr as [Hr0%Z.leb_le Hr1%Z.ltb_lt].
    clearbody r. case_cmp; simpl; done || (exfalso; mod_lia).
  - clearbody r. revert Hr. case_cmp; simpl; done || lia.
Qed.

(** ** The wrappers equal the functions they wrap *)

(** The threaded form of a one-source row function equals one call of the
    function on the whole image: [KLEIDICV_OK], and the same bytes in the
    destination, whatever the scheduler does with the rows. *)
Theorem unary_op_equals_single parallel S D f src ss dst ds width bytes height value mem :
  lawful no_empty_range parallel -> unary_row_function f ss ds width bytes value ->
  good_stride S ss height -> good_stride D ds height -> 0 < ds -> 0 <= height < 2 ^ 63 ->
  let single := f src ss dst ds width height mem in
  let threaded := kleidicv_thread_unary_op_impl parallel S D f src ss dst ds width height mem in
  is_ok threaded.1 = is_ok single.1 /\ forall a, threaded.2 a = single.2 a.
Proof.
  intros Hlaw Hf Hs Hd Hds Hh single threaded.
  destruct (parallel_batches_rows parallel _ _ height 1 _ mem Hlaw ltac:(lia) ltac:(lia)
    (unary_callback_rows S D f src ss dst ds width bytes height value Hf Hs Hd Hds ltac:(lia)))
    as [Hok Hw].
  destruct (Hf src dst height mem Hh) as [Hok1 Hw1].
  subst single threaded. unfold kleidicv_thread_unary_op_impl. rewrite Hok, Hok1.
  split; [done|]. intros a. by rewrite Hw, Hw1.
Qed.

(** The same for a function of two sources. *)
Theorem binary_op_equals_single parallel S D f src_a sa src_b sb dst ds width bytes height value mem :
  lawful no_empty_range parallel -> binary_row_function f sa sb ds width bytes value ->
  good_stride S sa height -> good_stride S sb height -> good_stride D ds height ->
  0 < ds -> 0 <= height < 2 ^ 63 ->
  let single := f src_a sa src_b sb dst ds width height mem in
  let threaded :=
    kleidicv_thread_binary_op_impl parallel S D f src_a sa src_b sb dst ds width height mem in
  is_ok threaded.1 = is_ok single.1 /\ forall a, threaded.2 a = single.2 a.
Proof.
  intros Hlaw Hf Ha Hb Hd Hds Hh single threaded.
  destruct (parallel_batches_rows parallel _ _ height 1 _ mem Hlaw ltac:(lia) ltac:(lia)
    (binary_callback_rows S D f src_a sa src_b sb dst ds width bytes height value
      Hf Ha Hb Hd Hds ltac:(lia))) as [Hok Hw].
  destruct (Hf src_a src_b dst height mem Hh) as [Hok1 Hw1].
  subst single threaded. unfold kleidicv_thread_binary_op_impl. rewrite Hok, Hok1.
  split; [done|]. intros a. by rewrite Hw, Hw1.
Qed.

(** The threaded semiplanar YUV conversion, whose tasks are pairs of rows
    with one shared chroma row, equals one call on the whole image, for odd
    heights too. *)
Theorem semiplanar_equals_single parallel f src_y sy src_uv suv dst ds width bytes height value mem :
  lawful no_empty_range parallel -> semiplanar_row_function f sy suv ds width bytes value ->
  src_y <> 0 -> src_uv <> 0 -> dst <> 0 ->
  0 < height -> height * sy < 2 ^ 63 -> height * suv < 2 ^ 63 -> height * ds < 2 ^ 63 ->
  0 <= sy -> 0 <= suv -> 0 < ds ->
  let single := f src_y sy src_uv suv dst ds width height mem in
  let threaded := kleidicv_thread_yuv_semiplanar_to_rgb_u8 parallel f
    src_y sy src_uv suv dst ds width height mem in
  is_ok threaded.1 = is_ok single.1 /\ forall a, threaded.2 a = single.2 a.
Proof.
  intros Hlaw Hf Ny Nuv Nd Hh Hy Huv Hd Hsy Hsuv Hds single threaded.
  assert (height < 2 ^ 63) by nia.
  destruct (parallel_batches_rows parallel _ _ ((height + 1) / 2) 1 _ mem Hlaw ltac:(mod_lia)
    ltac:(lia) (semiplanar_callback_rows f src_y sy src_uv suv dst ds width bytes height value
      Hf Hh Hy Huv Hd Hsy Hsuv Hds)) as [Hok Hw].
  destruct (Hf src_y src_uv dst height mem ltac:(lia)) as [Hok1 Hw1].
  subst single threaded. unfold kleidicv_thread_yuv_semiplanar_to_rgb_u8, any_null. simpl existsb.
  rewrite (proj2 (Z.eqb_neq src_y 0)), (proj2 (Z.eqb_neq src_uv 0)), (proj2 (Z.eqb_neq dst 0)) by done.
  simpl orb. cbn iota. rewrite size_add_small by lia. rewrite Hok, Hok1.
  split; [done|]. intros a. rewrite Hw, Hw1. unfold in_rows at 1, dst_row_pair.
  destruct (in_rows (dst_row dst ds bytes) (0, height) a) eqn:Ha; [|done].
  unfold in_rows, dst_row, task_in in Ha. cbn [fst snd] in Ha.
  destruct (_ mod ds <? bytes); [|done]. unfold task_in. cbn [fst snd].
  revert Ha. set (r := (a - dst) / ds). clearbody r.
  case_cmp; simpl; done || (intros; exfalso; mod_lia).
Qed.

(** ** Witnesses *)

(** A row function: each destination byte is the address of its source byte. *)
Definition copy_address : unary_function := fun src ss dst ds width height mem =>
  (KLEIDICV_OK, fun a => if in_rows (dst_row dst ds width) (0, height) a
    then src + (a - dst) / ds * ss + (a - dst) mod ds else mem a).

Definition add_addresses (chroma : Z) : binary_function := fun sa ssa sb ssb dst ds width height mem =>
  (KLEIDICV_OK, fun a => if in_rows (dst_row dst ds width) (0, height) a
    then sa + (a - dst) / ds * ssa + (sb + (a - dst) / ds / chroma * ssb) + (a - dst) mod ds
    else mem a).

Lemma unary_op_equals_single_witness :
  let threaded := kleidicv_thread_unary_op_impl reverse_serial 4 1 copy_address
    4096 8 8192 4 2 3 (fun _ => 0) in
  is_ok threaded.1 = true /\ threaded.2 8201 = 4113.
Proof.
  destruct (unary_op_equals_single reverse_serial 4 1 copy_address 4096 8 8192 4 2 2 3
    (fun s o => s + o) (fun _ => 0)) as [Hok Hw];
    [apply reverse_serial_lawful|by intros src dst height mem _|
     unfold good_stride; split_and!; done|unfold good_stride; split_and!; done|done|done|].
  split; [exact Hok|]. rewrite Hw. reflexivity.
Defined.

Lemma binary_op_equals_single_witness :
  let threaded := kleidicv_thread_binary_op_impl reverse_serial 1 1 (add_addresses 1)
    100 8 200 8 8192 4 2 3 (fun _ => 0) in
  is_ok threaded.1 = true /\ threaded.2 8201 = 333.
Proof.
  destruct (binary_op_equals_single reverse_serial 1 1 (add_addresses 1) 100 8 200 8 8192 4 2 2 3
    (fun s t o => s + t + o) (fun _ => 0)) as [Hok Hw];
    [apply reverse_serial_lawful| |
     unfold good_stride; split_and!; done|unfold good_stride; split_and!; done|
     unfold good_stride; split_and!; done|done|done|].
  - intros sa sb dst height mem _. split; [done|]. intros a. simpl. by rewrite Z.div_1_r.
  - split; [exact Hok|]. rewrite Hw. reflexivity.
Defined.

Lemma semiplanar_equals_single_witness :
  let threaded := kleidicv_thread_yuv_semiplanar_to_rgb_u8 reverse_serial (add_addresses 2)
    100 8 200 8 8192 4 2 3 (fun _ => 0) in
  is_ok threaded.1 = true /\ threaded.2 8201 = 325.
Proof.
  destruct (semiplanar_equals_single reverse_serial (add_addresses 2) 100 8 200 8 8192 4 2 2 3
    (fun s t o => s + t + o) (fun _ => 0)) as [Hok Hw];
    [apply reverse_serial_lawful|by intros sa sb dst height mem _|done..|].
  split; [exact Hok|]. rewrite Hw. reflexivity.
Defined.
