(* ===== verification/Rows.v ===== *)
(** * Rows of [kleidicv/types.h]

    An image is a base address, a stride in bytes and a channel count.  This file
    models the address arithmetic of [RowBase], [Rows] and [Columns] and the row
    drivers [zip_rows] and [zip_parallel_rows].  The indirect rows are in MorphologyOps
    and Workspace. *)

From S2P Require Import Prelude.

(** ** Rectangle and Margin *)

Record Rectangle := { width_ : Z; height_ : Z }.

Definition area (r : Rectangle) : Z := width_ r ⊠ height_ r.

Definition flatten (r : Rectangle) : Rectangle := {| width_ := area r; height_ := 1 |}.

Record Margin := { left : Z; top : Z; right : Z; bottom : Z }.

(** ** Address arithmetic *)

(** [RowBase::add_stride]: the offset is a [ptrdiff_t]. *)
Definition add_stride (ptr stride : Z) : Z :=
  if 0 <=? stride then ptr ⊞ stride
  else ptr ⊟ (wrap64 (- (stride + 1)) ⊞ 1).

(** [RowBase::subtract_stride]. *)
Definition subtract_stride (ptr stride : Z) : Z :=
  if 0 <=? stride then ptr ⊟ stride
  else ptr ⊞ (wrap64 (- (stride + 1)) ⊞ 1).

(** [Columns]: a position in a row. *)
Record Columns := { col_ptr_ : Z; col_channels_ : Z }.

(** [Rows<T>], with [sizeof(T)]. *)
Record Rows := { ptr_ : Z; stride_ : Z; channels_ : Z; sizeof_ : Z }.

(** [Columns::at] and the step of [operator+=]. *)
Definition columns_at (sizeof : Z) (c : Columns) (column : Z) : Columns :=
  {| col_ptr_ := col_ptr_ c + column * to_ptrdiff (col_channels_ c) * sizeof;
     col_channels_ := col_channels_ c |}.

Definition is_continuous (r : Rows) (length : Z) : bool :=
  stride_ r =? length ⊠ channels_ r ⊠ sizeof_ r.

Definition get_pointer_at (r : Rows) (row column : Z) : Z :=
  add_stride (ptr_ r) (row * to_ptrdiff (stride_ r))
  + column * to_ptrdiff (channels_ r) * sizeof_ r.

Definition with_ptr (r : Rows) (p : Z) : Rows :=
  {| ptr_ := p; stride_ := stride_ r; channels_ := channels_ r; sizeof_ := sizeof_ r |}.

(** [Rows::at], [Rows::operator+=] and [Rows::operator++]. *)
Definition rows_at (r : Rows) (row column : Z) : Rows := with_ptr r (get_pointer_at r row column).
Definition rows_advance (r : Rows) (diff : Z) : Rows := with_ptr r (get_pointer_at r diff 0).
Definition rows_next (r : Rows) : Rows := rows_advance r 1.

Definition as_columns (r : Rows) : Columns :=
  {| col_ptr_ := ptr_ r; col_channels_ := channels_ r |}.

(** [Rows::offset_for_index]. *)
Definition offset_for_index (r : Rows) (index width : Z) : Z :=
  let row := index / width in
  let column := index mod width in
  row ⊠ stride_ r ⊞ column ⊠ sizeof_ r.

(** ** zip_rows *)

Section zip.
Context {S : Type}.
Variable process_row : Z -> list Columns -> S -> S.

Definition zip_rows_step (width : Z) (rs : list Rows * S) : list Rows * S :=
  let '(rows, s) := rs in
  let s := process_row width (map as_columns rows) s in
  (map rows_next rows, s).

Definition zip_rows (rect : Rectangle) (rows : list Rows) (s : S) : S :=
  let rect := if forallb (fun r => is_continuous r (width_ rect)) rows
              then flatten rect else rect in
  (for_range 0 (height_ rect) (fun _ => zip_rows_step (width_ rect)) (rows, s)).2.
End zip.

(** [ParallelRows]: two adjacent rows, with the stride doubled. *)
Record ParallelRows := { ptr_0 : Z; ptr_1 : Z; pstride_ : Z; pchannels_ : Z }.

Definition make_parallel (ptr stride channels : Z) : ParallelRows :=
  {| ptr_0 := ptr; ptr_1 := add_stride ptr (to_ptrdiff stride);
     pstride_ := 2 ⊠ stride; pchannels_ := channels |}.

Definition make_single_row (r : ParallelRows) : ParallelRows :=
  {| ptr_0 := ptr_0 r; ptr_1 := ptr_0 r; pstride_ := pstride_ r; pchannels_ := pchannels_ r |}.

Definition parallel_next (r : ParallelRows) : ParallelRows :=
  {| ptr_0 := add_stride (ptr_0 r) (to_ptrdiff (pstride_ r));
     ptr_1 := add_stride (ptr_1 r) (to_ptrdiff (pstride_ r));
     pstride_ := pstride_ r; pchannels_ := pchannels_ r |}.

(** The rows that are zipped: pairs of rows, or rows of which one goes with each pair. *)
Inductive AnyRows :=
  | InParallel (r : ParallelRows)
  | InRows (r : Rows).

Definition any_make_single_row (r : AnyRows) : AnyRows :=
  match r with InParallel r => InParallel (make_single_row r) | InRows r => InRows r end.

Definition any_as_columns (r : AnyRows) : list Columns :=
  match r with
  | InParallel r => [{| col_ptr_ := ptr_0 r; col_channels_ := pchannels_ r |}; {| col_ptr_ := ptr_1 r; col_channels_ := pchannels_ r |}]
  | InRows r => [as_columns r]
  end.

Definition any_next (r : AnyRows) : AnyRows :=
  match r with InParallel r => InParallel (parallel_next r) | InRows r => InRows (rows_next r) end.

Section zip_parallel.
Context {S : Type}.
Variable process_row : Z -> list Columns -> S -> S.

Definition zip_parallel_step (width height row_index : Z) (rs : list AnyRows * S) : list AnyRows * S :=
  let '(rows, s) := rs in
  let rows := if row_index =? height ⊟ 1 then map any_make_single_row rows else rows in
  let s := process_row width (flat_map any_as_columns rows) s in
  (map any_next rows, s).

Definition zip_parallel_rows (rect : Rectangle) (rows : list AnyRows) (s : S) : S :=
  (for_step 0 (height_ rect) 2 (zip_parallel_step (width_ rect) (height_ rect)) (rows, s)).2.
End zip_parallel.

(** ** Address lemmas *)

Lemma add_stride_wrap p stride :
  - 2 ^ 63 <= stride < 2 ^ 63 -> add_stride p stride = wrap64 (p + stride).
Proof.
  intros Hs. unfold add_stride. destruct (Z.leb_spec 0 stride); [done|].
  rewrite (wrap64_small (- (stride + 1))) by lia.
  rewrite (size_add_small (- (stride + 1)) 1) by lia.
  unfold size_sub. f_equal. lia.
Qed.

Lemma subtract_stride_wrap p stride :
  - 2 ^ 63 <= stride < 2 ^ 63 -> subtract_stride p stride = wrap64 (p - stride).
Proof.
  intros Hs. unfold subtract_stride. destruct (Z.leb_spec 0 stride); [done|].
  rewrite (wrap64_small (- (stride + 1))) by lia.
  rewrite (size_add_small (- (stride + 1)) 1) by lia.
  unfold size_add. f_equal. lia.
Qed.

(** Moving a pointer by a signed stride wraps around the address space
    without a signed overflow, for [PTRDIFF_MIN] too, and subtracting the same
    stride takes it back. *)
Theorem strides_cancel p stride :
  is_size p -> - 2 ^ 63 <= stride < 2 ^ 63 ->
  add_stride p stride = (p + stride) mod 2 ^ 64 /\
  subtract_stride (add_stride p stride) stride = p /\
  add_stride (subtract_stride p stride) stride = p.
Proof.
  intros Hp Hs. split; [by apply add_stride_wrap|].
  assert (forall q, (q - stride) mod 2 ^ 64 = (q mod 2 ^ 64 - stride) mod 2 ^ 64) as H1.
  { intros q. by rewrite Zminus_mod_idemp_l. }
  rewrite !subtract_stride_wrap, !add_stride_wrap by done. unfold wrap64.
  rewrite Zminus_mod_idemp_l, Zplus_mod_idemp_l.
  split; (rewrite <- (Z.mod_small p (2 ^ 64)) at 2 by done; f_equal; lia).
Qed.

Lemma strides_cancel_witness :
  add_stride 100 (- 2 ^ 63) = (100 + - 2 ^ 63) mod 2 ^ 64 /\
  subtract_stride (add_stride 100 (- 2 ^ 63)) (- 2 ^ 63) = 100 /\
  add_stride (subtract_stride 100 (- 2 ^ 63)) (- 2 ^ 63) = 100.
Proof. apply (strides_cancel 100 (- 2 ^ 63)); unfold is_size; lia. Defined.

(** ** The elements of an image *)

(** Address of element [n] in row-major order. *)
Definition element_address (r : Rows) (width n : Z) : Z :=
  ptr_ r + n / width * stride_ r + n mod width * (channels_ r * sizeof_ r).

(** An image that lies in the address space. *)
Definition valid_rows (r : Rows) (width height : Z) : Prop :=
  0 <= ptr_ r /\ 0 <= stride_ r < 2 ^ 63 /\ 0 <= channels_ r < 2 ^ 63 /\ 0 < sizeof_ r /\
  width * channels_ r * sizeof_ r < 2 ^ 64 /\ ptr_ r + height * stride_ r < 2 ^ 64.

(** Row [i] of the image, as [zip_rows] reaches it. *)
Definition row_ptr (r : Rows) (i : Z) : Rows := with_ptr r (ptr_ r + i * stride_ r).

Lemma zip_rows_run {S} process_row width height rows (s : S) :
  Forall (fun r => valid_rows r width height) rows -> 0 <= height ->
  for_range 0 height (fun _ => zip_rows_step process_row width) (rows, s) =
  (map (fun r => row_ptr r height) rows,
   for_range 0 height (fun i => process_row width (map (fun r => as_columns (row_ptr r i)) rows)) s).
Proof.
  intros Hv Hh. revert Hv.
  apply (for_range_ind (fun i rs => Forall (fun r => valid_rows r width height) rows ->
    rs = (map (fun r => row_ptr r i) rows,
      for_range 0 i (fun i => process_row width (map (fun r => as_columns (row_ptr r i)) rows)) s)));
    [lia| |].
  - intros _. rewrite for_range_empty by lia. f_equal.
    rewrite <- (map_id rows) at 1. apply map_ext. intros [p st ch sz].
    unfold row_ptr, with_ptr. simpl. f_equal. lia.
  - intros i rs Hi IH Hv. rewrite (IH Hv). unfold zip_rows_step. rewrite !map_map. f_equal.
    + apply map_ext_in. intros r Hr%list_elem_of_In.
      apply (proj1 (Forall_forall _ _) Hv) in Hr as (? & ? & ? & ? & ? & ?).
      unfold rows_next, rows_advance, get_pointer_at, row_ptr, with_ptr. simpl. f_equal.
      rewrite to_ptrdiff_small by lia. unfold add_stride.
      destruct (Z.leb_spec 0 (1 * stride_ r)); [|lia]. rewrite size_add_small by nia. lia.
    + rewrite (for_range_last 0 (i + 1)) by lia. by replace (i + 1 - 1) with i by lia.
Qed.

Lemma for_range_once {S} (body : Z -> S -> S) s : for_range 0 1 body s = body 0 s.
Proof. rewrite for_range_first by lia. by rewrite for_range_empty by lia. Qed.

(** The columns of [len] elements of an image from element [n] on. *)
Definition columns_of (r : Rows) (width n len : Z) (c : Columns) : Prop :=
  col_channels_ c = channels_ r /\
  forall k, 0 <= k < len ->
    col_ptr_ c + k * (channels_ r * sizeof_ r) = element_address r width (n + k).

Lemma columns_of_row r width i :
  0 < width -> columns_of r width (i * width) width (as_columns (row_ptr r i)).
Proof.
  intros Hw. split; [done|]. intros k Hk. unfold element_address. simpl.
  rewrite Z.add_comm, Z.mul_comm, (Z.add_comm (i * width)).
  rewrite Z.div_add, Z.mod_add, Z.div_small, Z.mod_small by lia. lia.
Qed.

Lemma columns_of_flat r width height n :
  valid_rows r width height -> 0 <= width -> is_continuous r width = true ->
  columns_of r width 0 (width * n) (as_columns r).
Proof.
  intros (? & ? & ? & ? & ? & ?) Hw Hc. split; [done|]. intros k Hk.
  assert (0 < width) by (destruct (Z.eq_dec width 0) as [->|]; lia). unfold is_continuous in Hc. apply Z.eqb_eq in Hc.
  assert (width * channels_ r <= width * channels_ r * sizeof_ r) by nia.
  rewrite (size_mul_small width) in Hc by nia. rewrite size_mul_small in Hc by nia.
  unfold element_address. simpl col_ptr_. rewrite Hc, Z.add_0_l.
  rewrite (Z.div_mod k width) at 1 by lia. ring.
Qed.

(** The rule for [zip_rows]: whether or not the image is flattened, the row
    function meets the elements once each, in row-major order. *)
Lemma zip_rows_ind {S} (I : Z -> S -> Prop) process_row width height rows (s : S) :
  Forall (fun r => valid_rows r width height) rows ->
  0 <= width -> 0 <= height -> width * height < 2 ^ 64 ->
  (forall n len cols s, 0 <= n -> 0 <= len -> n + len <= width * height -> I n s ->
    Forall2 (fun r c => columns_of r width n len c) rows cols ->
    I (n + len) (process_row len cols s)) ->
  I 0 s ->
  I (width * height) (zip_rows process_row {| width_ := width; height_ := height |} rows s).
Proof.
  intros Hv Hw Hh Hwh Hstep H0. unfold zip_rows. cbn [width_ height_].
  destruct (forallb _ rows) eqn:Hc; cbn [flatten width_ height_].
  - rewrite for_range_once. unfold zip_rows_step, area. cbn [snd width_ height_].
    rewrite size_mul_small by nia. rewrite <- (Z.add_0_l (width * height)) at 1.
    apply Hstep; [lia|nia|lia|done|]. apply Forall2_fmap_r, Forall_Forall2_diag.
    apply Forall_forall. intros r Hr. apply (columns_of_flat r width height height); [|done|].
    + by apply (proj1 (Forall_forall _ _) Hv).
    + rewrite forallb_forall in Hc. apply Hc. by apply list_elem_of_In.
  - rewrite zip_rows_run by done. cbn [snd].
    rewrite Z.mul_comm.
    apply (for_range_ind (fun i s => I (i * width) s)); [lia|done|].
    intros i s' Hi HI. rewrite Z.mul_add_distr_r, Z.mul_1_l.
    apply Hstep; [nia|lia|nia|done|]. apply Forall2_fmap_r, Forall_Forall2_diag.
    apply Forall_forall. intros r Hr. destruct (Z.eq_dec width 0) as [->|].
    + split; [done|]. intros k Hk. lia.
    + apply columns_of_row. lia.
Qed.

(** The addresses a row function would read, element by element. *)
Definition visit (sizes : list (Z * Z)) (length : Z) (cols : list Columns)
    (visited : list (list Z)) : list (list Z) :=
  visited ++ map (fun k => zip_with (fun c cs => col_ptr_ c + k * (cs.1 * cs.2)) cols sizes)
    (seqZ 0 length).

Definition sizes_of (rows : list Rows) : list (Z * Z) :=
  map (fun r => (channels_ r, sizeof_ r)) rows.

Lemma visit_elements rows cols width n len visited :
  Forall2 (fun r c => columns_of r width n len c) rows cols ->
  visit (sizes_of rows) len cols visited =
  visited ++ map (fun i => map (fun r => element_address r width i) rows) (seqZ n len).
Proof.
  intros Hf. unfold visit. f_equal. rewrite <- (Z.add_0_r n) at 1. rewrite <- fmap_add_seqZ.
  rewrite list_fmap_compose || rewrite map_map. apply map_ext_in. intros k Hk%list_elem_of_In%elem_of_seqZ.
  unfold sizes_of. induction Hf as [|r c rows cols [_ Ha] _ IH]; [done|].
  simpl. f_equal; [apply Ha; lia|exact IH].
Qed.

(** [zip_rows] gives the row function every element of every image exactly
    once, in row-major order and in step, and so does the single long row it
    uses when all the images are continuous. *)
Theorem zip_rows_visits_all width height rows :
  Forall (fun r => valid_rows r width height) rows ->
  0 <= width -> 0 <= height -> width * height < 2 ^ 64 ->
  zip_rows (visit (sizes_of rows)) {| width_ := width; height_ := height |} rows [] =
  map (fun n => map (fun r => element_address r width n) rows) (seqZ 0 (width * height)).
Proof.
  intros Hv Hw Hh Hwh.
  apply (zip_rows_ind (fun n visited => visited =
    map (fun n => map (fun r => element_address r width n) rows) (seqZ 0 n))); [done..| |].
  - intros n len cols s Hn Hlen Hle -> Hf. rewrite (visit_elements rows cols width n len) by done.
    rewrite seqZ_app, map_app by lia. done.
  - done.
Qed.

Lemma zip_rows_visits_all_witness :
  let rows := [{| ptr_ := 1000; stride_ := 6; channels_ := 3; sizeof_ := 1 |};
               {| ptr_ := 2000; stride_ := 16; channels_ := 2; sizeof_ := 2 |}] in
  zip_rows (visit (sizes_of rows)) {| width_ := 2; height_ := 2 |} rows [] =
  [[1000; 2000]; [1003; 2004]; [1006; 2016]; [1009; 2020]].
Proof.
  cbn zeta. rewrite zip_rows_visits_all; [reflexivity| |lia|lia|lia].
  repeat constructor; simpl; lia.
Defined.

(** ** Parallel rows *)

(** An image as the arguments of [ParallelRows] or [Rows]. *)
Inductive ImageRows :=
  | PairsOf (ptr stride channels : Z)
  | SinglesOf (r : Rows).

Definition image_any_rows (image : ImageRows) : AnyRows :=
  match image with
  | PairsOf ptr stride channels => InParallel (make_parallel ptr stride channels)
  | SinglesOf r => InRows r
  end.

(** The columns of pair [i] of an image with [height] rows in pairs. *)
Definition pair_columns (height i : Z) (image : ImageRows) : list Columns :=
  match image with
  | PairsOf ptr stride channels =>
      [{| col_ptr_ := ptr + 2 * i * stride; col_channels_ := channels |};
       {| col_ptr_ := ptr + (if height =? 2 * i + 1 then 2 * i else 2 * i + 1) * stride; col_channels_ := channels |}]
  | SinglesOf r => [as_columns (row_ptr r i)]
  end.

Definition image_fits (height : Z) (image : ImageRows) : Prop :=
  match image with
  | PairsOf ptr stride _ => 0 <= ptr /\ 0 <= stride < 2 ^ 62 /\ ptr + (height + 2) * stride < 2 ^ 64
  | SinglesOf r => 0 <= ptr_ r /\ 0 <= stride_ r < 2 ^ 63 /\ ptr_ r + ((height + 1) / 2) * stride_ r < 2 ^ 64
  end.

Lemma add_stride_small p s : 0 <= s < 2 ^ 63 -> 0 <= p -> p + s < 2 ^ 64 ->
  add_stride p (to_ptrdiff s) = p + s.
Proof.
  intros. rewrite to_ptrdiff_small by lia. rewrite add_stride_wrap by lia.
  rewrite wrap64_small by lia. done.
Qed.

(** Where the rows of an image are before pair [i]; the second row does not matter behind
    the last one. *)
Definition before_pair (height i : Z) (image : ImageRows) (r : AnyRows) : Prop :=
  match image, r with
  | PairsOf ptr stride channels, InParallel r =>
      ptr_0 r = ptr + 2 * i * stride /\ (2 * i <= height -> ptr_1 r = ptr + (2 * i + 1) * stride) /\
      pstride_ r = 2 * stride /\ pchannels_ r = channels
  | SinglesOf rows, InRows r => r = row_ptr rows i
  | _, _ => False
  end.

Lemma before_first_pair height image : 0 <= height -> image_fits height image -> before_pair height 0 image (image_any_rows image).
Proof.
  intros Hh. destruct image as [ptr stride channels|[p st ch sz]]; cbn [image_fits before_pair image_any_rows].
  - intros (Hp & Hs & Ha). unfold make_parallel. cbn [ptr_0 ptr_1 pstride_ pchannels_].
    rewrite size_mul_small by lia. rewrite add_stride_small by nia. split_and!; lia.
  - intros _. unfold row_ptr, with_ptr. cbn. f_equal. lia.
Qed.

Lemma pair_step height i image r : 0 <= i -> 2 * i < height -> image_fits height image -> before_pair height i image r ->
  let r := if 0 + i * 2 =? height - 1 then any_make_single_row r else r in
  any_as_columns r = pair_columns height i image /\ before_pair height (i + 1) image (any_next r).
Proof.
  intros Hi Hlt Hf Hb. destruct image as [ptr stride channels|rows], r as [[p0 p1 ps pc]|r]; try done; cbn [image_fits before_pair] in *.
  - cbn [ptr_0 ptr_1 pstride_ pchannels_] in Hb. destruct Hb as (-> & H1 & -> & ->). specialize (H1 ltac:(lia)). subst p1. destruct Hf as (Hp & Hs & Ha).
    assert (0 <= i * stride) by nia. assert ((2 * i + 3) * stride <= (height + 2) * stride) by (apply Z.mul_le_mono_nonneg_r; lia).
    destruct (Z.eqb_spec (0 + i * 2) (height - 1)) as [Hl|Hl]; cbn [any_make_single_row make_single_row any_as_columns any_next parallel_next ptr_0 ptr_1 pstride_ pchannels_ pair_columns];
      rewrite !add_stride_small by lia; destruct (Z.eqb_spec height (2 * i + 1)); try lia; split_and!; done || lia.
  - subst r. assert (0 <= i < (height + 1) / 2) by mod_lia.
    destruct Hf as (Hp & Hs & Ha). set (m := (height + 1) / 2) in *. assert ((i + 1) * stride_ rows <= m * stride_ rows) by (apply Z.mul_le_mono_nonneg_r; lia).
    assert (rows_next (row_ptr rows i) = row_ptr rows (i + 1)) as Hn.
    { unfold rows_next, rows_advance, get_pointer_at, row_ptr, with_ptr. cbn [ptr_ stride_ channels_ sizeof_]. f_equal.
      rewrite to_ptrdiff_small by lia. unfold add_stride. destruct (Z.leb_spec 0 (1 * stride_ rows)); [|lia].
      rewrite size_add_small by nia. lia. }
    destruct (_ =? _); cbn [any_make_single_row any_as_columns any_next pair_columns]; by rewrite Hn.
Qed.

(** [zip_parallel_rows] runs the row function on rows 0 and 1, 2 and 3, and so on of the
    images in pairs, and on rows 0, 1 and so on of the others; when the height is odd the last
    call gets the last row twice. *)
Theorem zip_parallel_rows_pairs {S} (process_row : Z -> list Columns -> S -> S) width height images s :
  0 <= height < 2 ^ 63 -> Forall (image_fits height) images ->
  zip_parallel_rows process_row {| width_ := width; height_ := height |} (map image_any_rows images) s =
  for_range 0 ((height + 1) / 2) (fun i => process_row width (flat_map (pair_columns height i) images)) s.
Proof.
  intros Hh Hf. unfold zip_parallel_rows, for_step, step_count. cbn [width_ height_].
  replace ((height - 0 + 2 - 1) / 2) with ((height + 1) / 2) by (f_equal; lia).
  set (m := (height + 1) / 2). assert (2 * m <= height + 1) as Hm by (subst m; mod_lia). assert (0 <= m) as Hm0 by (subst m; mod_lia).
  set (body := fun i => _ : S -> S).
  enough (exists rows, for_range 0 m (fun j s0 => zip_parallel_step process_row width height (0 + j * 2) s0)
    (map image_any_rows images, s) = (rows, for_range 0 m body s) /\ Forall2 (before_pair height m) images rows) as (rows & -> & _) by done.
  apply (for_range_ind (fun i rs => exists rows, rs = (rows, for_range 0 i body s) /\ Forall2 (before_pair height i) images rows)); [lia| |].
  - eexists. rewrite for_range_empty by lia. split; [reflexivity|]. apply Forall2_fmap_r, Forall_Forall2_diag.
    eapply Forall_impl; [exact Hf|]. intros image Hi. apply before_first_pair; [lia|done].
  - intros i rs Hi (rows & -> & Hr). unfold zip_parallel_step. rewrite size_sub_small by lia.
    set (rows' := if 0 + i * 2 =? height - 1 then map any_make_single_row rows else rows).
    assert (flat_map any_as_columns rows' = flat_map (pair_columns height i) images /\ Forall2 (before_pair height (i + 1)) images (map any_next rows')) as [Hc Hn].
    { assert (rows' = map (fun r => if 0 + i * 2 =? height - 1 then any_make_single_row r else r) rows) as ->.
      { subst rows'. destruct (_ =? _); [done|]. by rewrite map_id. }
      clearbody body. revert Hf. induction Hr as [|image r images rows Hb Hr IH]; intros Hf; [split; constructor|].
      apply Forall_cons in Hf as [Hi0 Hf]. destruct (IH Hf) as [H1 H2].
      destruct (pair_step height i image r ltac:(lia) ltac:(lia) Hi0 Hb) as [H3 H4]. cbn [map flat_map].
      split; [by rewrite H1, H3|by constructor]. }
    eexists. split; [|exact Hn]. rewrite Hc. f_equal. rewrite (for_range_last 0 (i + 1)) by lia. by replace (i + 1 - 1) with i by lia.
Qed.

Lemma zip_parallel_rows_pairs_witness :
  zip_parallel_rows (fun _ cols s => s ++ map col_ptr_ cols) {| width_ := 4; height_ := 3 |}
    (map image_any_rows [PairsOf 1000 16 1; SinglesOf {| ptr_ := 2000; stride_ := 8; channels_ := 1; sizeof_ := 1 |}]) [] =
  [1000; 1016; 2000; 1032; 1032; 2008].
Proof.
  rewrite zip_parallel_rows_pairs; [reflexivity|lia|]. repeat constructor; cbn; lia.
Defined.
