(* ===== verification/Operations.v ===== *)
(** * Row operations of [kleidicv/operations.h]

    [RowBasedOperation] and [RowBasedBlockOperation]: how a row is cut into
    vectors of [num_lanes] elements, blocks of vectors and a scalar remainder, for
    an operation that reads one source, is unrolled twice ([UnrollTwice]) and keeps
    its results in its own state.  The adapters in between only forward calls. *)

From S2P Require Import Prelude Loops Rows.

(** ** Operations and memory *)

(** The methods of an operation class; [S] is its state. *)
Record Operation (S : Type) := {
  num_lanes : Z;
  vector_path : list Z -> S -> S;
  scalar_path : Z -> S -> S;
  max_vectors_per_block : Z;
  on_block_finished : Z -> S -> S
}.
Arguments num_lanes {S}.
Arguments vector_path {S}.
Arguments scalar_path {S}.
Arguments max_vectors_per_block {S}.
Arguments on_block_finished {S}.

Section row_operations.
Context {S : Type}.
Variable op : Operation S.
(** [load a] is the element at address [a], of [sizeof] bytes. *)
Variables (load : Z -> Z) (sizeof : Z).

(** [vld1q]: [num_lanes] elements from an address. *)
Definition load_vector (address : Z) : list Z :=
  map (fun i => load (address + i * sizeof)) (seqZ 0 (num_lanes op)).

(** [OperationAdapter::vector_path_2x] for [void T::vector_path(VectorType)]. *)
Definition vector_path_2x (src : Columns) (s : S) : S :=
  let src_0 := load_vector (col_ptr_ src) in
  let src_1 := load_vector (col_ptr_ src + num_lanes op * sizeof) in
  let s := vector_path op src_0 s in
  vector_path op src_1 s.

(** [RemainingPathAdapter::remaining_path]. *)
Definition remaining_path (length : Z) (src : Columns) (s : S) : S :=
  for_range 0 length (fun index => scalar_path op (load (col_ptr_ (columns_at sizeof src index)))) s.

(** [UnrollTwiceFunctor]: run two vectors, then step the columns. *)
Definition unroll_twice (step : Z) (cs : Columns * S) : Columns * S :=
  let '(c, s) := cs in
  let s := vector_path_2x c s in (columns_at sizeof c step, s).

Definition remaining_functor (rem_length _ : Z) (cs : Columns * S) : Columns * S :=
  let '(c, s) := cs in (c, remaining_path rem_length c s).

(** [RowBasedOperation::process_row]. *)
Definition process_row (length : Z) (columns : Columns) (s : S) : S :=
  let loop := (Unroll.make length (num_lanes op), (columns, s)) in
  let loop := Unroll.unroll_n_times 2 unroll_twice loop in
  let '(_, (_, s)) := Unroll.remaining remaining_functor loop in s.

(** [RowBasedBlockOperation::process_blocks], with [length] a reference. *)
Definition blocks_body (UnrollFactor processed_length : Z)
    (callback : Z -> Columns * S -> Columns * S) (ils : Z * (Z * (Columns * S)))
    : Z * (Z * (Columns * S)) :=
  let '(index, (length, (columns, s))) := ils in
  let max_vectors := max_vectors_per_block op / UnrollFactor ⊠ UnrollFactor in
  let remaining_vectors := (processed_length ⊟ index) / num_lanes op in
  let vectors_in_block := Z.min max_vectors remaining_vectors in
  let block_length := vectors_in_block ⊠ num_lanes op in
  let loop := (Unroll.make block_length (num_lanes op), (length, (columns, s))) in
  let '(_, (length, (columns, s))) :=
    Unroll.unroll_n_times UnrollFactor (fun step '(length, cs) =>
      let cs := callback step cs in (length ⊟ step, cs)) loop in
  let s := on_block_finished op vectors_in_block s in
  (index ⊞ block_length, (length, (columns, s))).

Definition process_blocks (UnrollFactor : Z) (callback : Z -> Columns * S -> Columns * S)
    (lcs : Z * (Columns * S)) : option (Z * (Columns * S)) :=
  let '(length, cs) := lcs in
  let elements_per_iteration := UnrollFactor ⊠ num_lanes op in
  let processed_length := length / elements_per_iteration ⊠ elements_per_iteration in
  match while_loop (Z.to_nat processed_length) (fun ils => ils.1 <? processed_length)
    (blocks_body UnrollFactor processed_length callback) (0, (length, cs)) with
  | Some (_, lcs) => Some lcs
  | None => None
  end.

(** [RowBasedBlockOperation::process_row]. *)
Definition process_row_blocks (length : Z) (columns : Columns) (s : S) : option S :=
  match process_blocks 2 unroll_twice (length, (columns, s)) with
  | None => None
  | Some (length, cs) =>
      let '(_, (_, s)) :=
        Unroll.remaining remaining_functor (Unroll.make length (num_lanes op), cs) in
      Some s
  end.
End row_operations.

(** ** What a row does to the state

    Both drivers are proved against one statement: [val k] is element [k] of the
    row, and [vector_at k] the vector that starts there. *)
Section rules.
Context {S : Type}.
Variables (op : Operation S) (load : Z -> Z) (sizeof : Z).
Variable val : Z -> Z.
Implicit Types (s : S) (c : Columns).

Definition vector_at (k : Z) : list Z := map (fun i => val (k + i)) (seqZ 0 (num_lanes op)).

(** Column [c] stands on element [k] of a row that ends at element [len]. *)
Definition stands_on (len k : Z) (c : Columns) : Prop :=
  col_channels_ c = 1 /\ forall i, 0 <= i -> k + i < len -> load (col_ptr_ c + i * sizeof) = val (k + i).

Lemma stands_on_step len k c n :
  stands_on len k c -> 0 <= n -> stands_on len (k + n) (columns_at sizeof c n).
Proof.
  intros [Hch Hv] Hn. split; [done|]. intros i Hi Hlen. unfold columns_at. cbn [col_ptr_].
  rewrite Hch, to_ptrdiff_small by lia. replace (k + n + i) with (k + (n + i)) by lia.
  rewrite <- Hv by lia. f_equal. lia.
Qed.

Lemma load_vector_val len k c :
  stands_on len k c -> k + num_lanes op <= len ->
  load_vector op load sizeof (col_ptr_ c) = vector_at k.
Proof.
  intros [_ Hv] Hle. apply map_ext_in. intros i Hi%list_elem_of_In%elem_of_seqZ. apply Hv; lia.
Qed.

Lemma vector_path_2x_val len k c s :
  stands_on len k c -> 0 <= num_lanes op -> k + 2 * num_lanes op <= len ->
  vector_path_2x op load sizeof c s =
  vector_path op (vector_at (k + num_lanes op)) (vector_path op (vector_at k) s).
Proof.
  intros Hs Hn Hle. unfold vector_path_2x. rewrite (load_vector_val len k) by (done || lia).
  f_equal. rewrite <- (load_vector_val len (k + num_lanes op) (columns_at sizeof c (num_lanes op))).
  - destruct Hs as [Hch _]. unfold columns_at. cbn [col_ptr_]. rewrite Hch, to_ptrdiff_small by lia.
    f_equal. lia.
  - by apply stands_on_step.
  - lia.
Qed.

Lemma remaining_path_val (I : Z -> S -> Prop) len k c s :
  stands_on len k c -> k <= len ->
  (forall k s, 0 <= k < len -> I k s -> I (k + 1) (scalar_path op (val k) s)) -> 0 <= k ->
  I k s -> I len (remaining_path op load sizeof (len - k) c s).
Proof.
  intros Hs Hle Hstep Hk HI. unfold remaining_path.
  replace len with (k + (len - k)) at 1 by lia.
  apply (for_range_ind (fun i s => I (k + i) s)); [lia|by rewrite Z.add_0_r|].
  intros i s' Hi HI'. replace (k + (i + 1)) with (k + i + 1) by lia.
  destruct (stands_on_step len k c i Hs ltac:(lia)) as [_ Hv].
  specialize (Hv 0 ltac:(lia) ltac:(lia)). rewrite Z.mul_0_l, !Z.add_0_r in Hv. rewrite Hv.
  apply Hstep; [lia|done].
Qed.

Lemma remaining_val (I : Z -> S -> Prop) len k l c s :
  stands_on len k c -> 0 <= k <= len -> Unroll.length_ l = len - k ->
  (forall k s, 0 <= k < len -> I k s -> I (k + 1) (scalar_path op (val k) s)) ->
  I k s ->
  I len (Unroll.remaining (remaining_functor op load sizeof) (l, (c, s))).2.2.
Proof.
  intros Hs Hk Hl Hstep HI. unfold Unroll.remaining. rewrite Hl.
  destruct (Z.eqb_spec (len - k) 0); cbn [snd].
  - by replace len with k by lia.
  - unfold remaining_functor. cbn [snd]. apply remaining_path_val; try done; lia.
Qed.

Hypothesis lanes_pos : 1 <= num_lanes op < 2 ^ 32.

(** The rule for a plain row. *)
Lemma process_row_ind (I : Z -> S -> Prop) len c s :
  0 <= len < 2 ^ 64 -> stands_on len 0 c ->
  (forall k s, 0 <= k -> k + num_lanes op <= len -> I k s ->
    I (k + num_lanes op) (vector_path op (vector_at k) s)) ->
  (forall k s, 0 <= k < len -> I k s -> I (k + 1) (scalar_path op (val k) s)) ->
  I 0 s -> I len (process_row op load sizeof len c s).
Proof.
  intros Hlen Hs Hvec Hscalar HI. unfold process_row, Unroll.unroll_n_times.
  cbn [Unroll.make Unroll.length_ Unroll.step_].
  set (n := num_lanes op) in *. rewrite (size_mul_small 2 n) by lia. set (q := len / (2 * n)).
  pose proof (Z.div_mod len (2 * n) ltac:(lia)) as Hdm. fold q in Hdm.
  pose proof (Z.mod_pos_bound len (2 * n) ltac:(lia)).
  assert (0 <= q) by (apply Z.div_pos; lia).
  rewrite size_mul_small, size_sub_small by lia.
  set (cs := for_range 0 q _ (c, s)).
  assert (stands_on len (q * (2 * n)) cs.1 /\ I (q * (2 * n)) cs.2) as [Hc HIc].
  { subst cs. apply (for_range_ind (fun i cs => stands_on len (i * (2 * n)) cs.1 /\ I (i * (2 * n)) cs.2));
      [lia|done|].
    intros i [c' s'] Hi [Hc HIc]. cbn [fst snd] in *. unfold unroll_twice.
    replace ((i + 1) * (2 * n)) with (i * (2 * n) + 2 * n) by lia. cbn [fst snd].
    split; [apply stands_on_step; [done|lia]|].
    rewrite (vector_path_2x_val len (i * (2 * n))) by (done || (subst n; nia)). fold n.
    replace (i * (2 * n) + 2 * n) with (i * (2 * n) + n + n) by lia.
    apply Hvec; [nia|nia|]. apply Hvec; [nia|nia|done]. }
  destruct cs as [c' s']. cbn [fst snd] in *.
  pose proof (remaining_val I len (q * (2 * n))
    {| Unroll.length_ := len - 2 * n * q; Unroll.step_ := n; Unroll.index_ := q;
       Unroll.can_avoid_tail_ := n <=? len |} c' s' Hc ltac:(nia) ltac:(simpl; lia) Hscalar HIc) as Hfinal.
  destruct (Unroll.remaining _ _) as [? [? ?]]. exact Hfinal.
Qed.

(** The rule for a row in blocks: [I] holds between blocks and scalars, [B k j]
    inside the block that starts at element [k], after [j] vectors. *)
Section blocks.
Variables (I : Z -> S -> Prop) (B : Z -> Z -> S -> Prop) (len : Z).
Local Abbreviation n := (num_lanes op).
Local Abbreviation max := (max_vectors_per_block op).
Hypothesis max_bound : 2 <= max < 2 ^ 31.
Hypothesis len_size : 0 <= len < 2 ^ 64.
Hypothesis block_start : forall k s, I k s -> B k 0 s.
Hypothesis block_step : forall k j s, 0 <= k -> 0 <= j -> j + 2 <= max -> k + (j + 2) * n <= len ->
  B k j s ->
  B k (j + 2) (vector_path op (vector_at (k + (j + 1) * n)) (vector_path op (vector_at (k + j * n)) s)).
Hypothesis block_end : forall k j s, 0 <= k -> 2 <= j <= max -> k + j * n <= len ->
  B k j s -> I (k + j * n) (on_block_finished op j s).

Definition at_block (index : Z) (lcs : Z * (Columns * S)) : Prop :=
  lcs.1 = len - index /\ stands_on len index lcs.2.1 /\ I index lcs.2.2.

Lemma block_vectors k q c s :
  0 <= k -> 0 <= q -> 2 * q <= max -> k + q * (2 * n) <= len ->
  stands_on len k c -> I k s ->
  let r := for_range 0 q (fun _ '(length, cs) =>
      let cs := unroll_twice op load sizeof (2 * n) cs in (length ⊟ 2 * n, cs)) (len - k, (c, s)) in
  r.1 = len - (k + q * (2 * n)) /\ stands_on len (k + q * (2 * n)) r.2.1 /\ B k (2 * q) r.2.2.
Proof.
  intros Hk Hq Hmax Hle Hs HI. cbn zeta.
  apply (for_range_ind (fun i r => r.1 = len - (k + i * (2 * n)) /\
    stands_on len (k + i * (2 * n)) r.2.1 /\ B k (2 * i) r.2.2)); [lia| |].
  - cbn [fst snd]. replace (k + 0 * (2 * n)) with k by lia. split_and!; [done|done|by apply block_start].
  - intros i [l [c' s']] Hi (Hl & Hc & HB). cbn [fst snd unroll_twice] in *. subst l.
    replace (k + (i + 1) * (2 * n)) with (k + i * (2 * n) + 2 * n) by lia.
    assert (k + i * (2 * n) + 2 * n <= len) by nia.
    split_and!; [rewrite size_sub_small by nia; lia|apply stands_on_step; [done|lia]|].
    rewrite (vector_path_2x_val len (k + i * (2 * n))) by (done || lia).
    replace (2 * (i + 1)) with (2 * i + 2) by lia.
    replace (k + i * (2 * n) + n) with (k + (2 * i + 1) * n) by lia.
    replace (k + i * (2 * n)) with (k + 2 * i * n) by lia.
    apply block_step; [done|lia|lia|lia|done].
Qed.

Lemma blocks_body_step index lcs q :
  0 <= index -> q <> 0 -> index + q * (2 * n) <= len -> 0 <= q ->
  at_block index lcs ->
  exists d, 1 <= d <= q /\
    let r := blocks_body op 2 (index + q * (2 * n)) (unroll_twice op load sizeof) (index, lcs) in
    r.1 = index + d * (2 * n) /\ at_block (index + d * (2 * n)) r.2.
Proof.
  intros Hi Hq0 Hle Hq Hat. destruct lcs as [l [c s]]. destruct Hat as (Hl & Hc & HI).
  cbn [fst snd] in *. subst l. unfold blocks_body.
  pose proof (Z.div_mod max 2 ltac:(lia)) as Hm. pose proof (Z.mod_pos_bound max 2 ltac:(lia)).
  rewrite (size_mul_small (max / 2)) by lia. set (m := max / 2) in *.
  rewrite (size_sub_small (index + _)) by nia.
  replace ((index + q * (2 * n) - index) / n) with (2 * q) by
    (replace (index + q * (2 * n) - index) with (2 * q * n) by lia; rewrite Z.div_mul by lia; done).
  set (d := Z.min m q). replace (Z.min (m * 2) (2 * q)) with (2 * d) by (subst d; lia).
  assert (1 <= d <= q) by (subst d; lia). exists d. split; [done|].
  rewrite (size_mul_small (2 * d)) by nia.
  unfold Unroll.unroll_n_times. cbn [Unroll.make Unroll.length_ Unroll.step_].
  rewrite (size_mul_small 2 n) by lia.
  replace (2 * d * n / (2 * n)) with d by
    (replace (2 * d * n) with (d * (2 * n)) by lia; rewrite Z.div_mul by lia; done).
  pose proof (block_vectors index d c s Hi ltac:(lia) ltac:(lia) ltac:(nia) Hc HI) as Hblock.
  cbn zeta in Hblock. destruct (for_range 0 d _ _) as [l' [c' s']]. cbn [fst snd] in *.
  destruct Hblock as (Hl' & Hc' & HB).
  rewrite size_add_small by nia. split; [lia|]. unfold at_block. cbn [fst snd].
  split_and!; [lia|done|]. replace (index + d * (2 * n)) with (index + 2 * d * n) by lia.
  apply block_end; [done|lia|nia|done].
Qed.

Lemma process_blocks_ind c s :
  stands_on len 0 c -> I 0 s ->
  exists lcs, process_blocks op 2 (unroll_twice op load sizeof) (len, (c, s)) = Some lcs /\
    at_block (len / (2 * n) * (2 * n)) lcs.
Proof.
  intros Hs HI. unfold process_blocks. rewrite (size_mul_small 2 n) by lia.
  pose proof (Z.div_mod len (2 * n) ltac:(lia)). pose proof (Z.mod_pos_bound len (2 * n) ltac:(lia)).
  set (q := len / (2 * n)) in *. assert (0 <= q) by (apply Z.div_pos; lia).
  rewrite size_mul_small by nia. set (pl := q * (2 * n)).
  destruct (while_loop_total
    (fun ils => exists j, 0 <= j <= q /\ ils.1 = j * (2 * n) /\ at_block (j * (2 * n)) ils.2)
    (fun ils => Z.to_nat (pl - ils.1)) (fun ils => ils.1 <? pl)
    (blocks_body op 2 pl (unroll_twice op load sizeof))) with
    (fuel := Z.to_nat pl) (s := (0, (len, (c, s)))) as (ils & Hrun & (j & Hj & Hij & Hat) & Hend).
  - intros [i lcs] (j & Hj & Hij & Hat) Hlt%Z.ltb_lt. cbn [fst snd] in *. subst i.
    destruct (blocks_body_step (j * (2 * n)) lcs (q - j)) as (d & Hd & Hr1 & Hr2);
      [nia|intros ?; subst pl; nia|nia|lia|done|].
    replace (j * (2 * n) + (q - j) * (2 * n)) with pl in * by (subst pl; lia).
    rewrite Hr1. split; [|subst pl; nia]. exists (j + d).
    replace ((j + d) * (2 * n)) with (j * (2 * n) + d * (2 * n)) by lia. split_and!; try done; lia.
  - exists 0. cbn [fst snd]. split_and!; [lia|lia|done|]. unfold at_block. cbn [fst snd].
    split_and!; [lia|done|done].
  - cbn [fst]. lia.
  - rewrite Hrun. destruct ils as [i lcs]. cbn [fst snd] in *. exists lcs. split; [done|].
    apply Z.ltb_ge in Hend. subst i pl. assert (j = q) as -> by nia. done.
Qed.

Lemma process_row_blocks_ind c s :
  stands_on len 0 c ->
  (forall k s, 0 <= k < len -> I k s -> I (k + 1) (scalar_path op (val k) s)) ->
  I 0 s ->
  exists s', process_row_blocks op load sizeof len c s = Some s' /\ I len s'.
Proof.
  intros Hs Hscalar HI. unfold process_row_blocks.
  destruct (process_blocks_ind c s Hs HI) as ([l [c' s']] & -> & Hl & Hc & HI').
  cbn [fst snd] in *. subst l.
  pose proof (Z.div_mod len (2 * n) ltac:(lia)). pose proof (Z.mod_pos_bound len (2 * n) ltac:(lia)).
  assert (0 <= len / (2 * n)) by (apply Z.div_pos; lia).
  pose proof (remaining_val I len (len / (2 * n) * (2 * n))
    (Unroll.make (len - len / (2 * n) * (2 * n)) n) c' s' Hc ltac:(nia) ltac:(done) Hscalar HI') as Hf.
  destruct (Unroll.remaining _ _) as [? [? s'']]. by exists s''.
Qed.
End blocks.
End rules.
