(* ===== verification/MinMaxLoc.v ===== *)
(** * Locations of the minimum and the maximum

    [min_max_loc_neon.cpp]: the class [MinMaxLoc<uint8_t>] on vectors of 16
    lanes, its block operation over the rows of an image, and the entry point
    [min_max_loc].  The fields of the class come in pairs, one for the minimum and
    one for the maximum, with the same code up to the comparison: a [Side] holds
    one of the pair and a [side_ops] its comparison. *)

From S2P Require Import Prelude CTypes Utils Loops Rows Operations.

(** ** Vector instructions on [uint8x16_t] *)

Definition lanes : Z := 16.
Definition vdupq_n (x : Z) : list Z := replicate 16 x.

(** A comparison sets a lane to all ones or to zero. *)
Definition vcompare (f : Z -> Z -> bool) (a b : list Z) : list Z :=
  zip_with (fun x y => if f x y then 255 else 0) a b.

(** Bitwise select. *)
Definition vbslq_u8 (mask a b : list Z) : list Z :=
  zip_with (fun m ab => Z.lor (Z.land m ab.1) (Z.land (Z.lxor m 255) ab.2)) mask (zip a b).

Definition vceqzq_u8 (a : list Z) : list Z := map (fun x => if x =? 0 then 255 else 0) a.
Definition vaddq_u8 (a b : list Z) : list Z := zip_with (fun x y => (x + y) mod 256) a b.

(** Reduction across the lanes: [vminvq_u8], [vmaxvq_u8]. *)
Definition vreduce (f : Z -> Z -> Z) (a : list Z) : Z :=
  match a with [] => 0 | x :: a => foldl f x a end.

(** Little-endian reinterpretation of bytes as one wider lane. *)
Fixpoint little_endian (bytes : list Z) : Z :=
  match bytes with [] => 0 | b :: bs => b + 256 * little_endian bs end.

Definition vreinterpretq_u32_u8 (a : list Z) : list Z :=
  map (fun i => little_endian (take 4 (drop (4 * i) a))) [0%nat; 1%nat; 2%nat; 3%nat].
Definition vreinterpretq_u64 (a : list Z) : list Z :=
  map (fun i => little_endian (take 8 (drop (8 * i) a))) [0%nat; 1%nat].

(** [__builtin_ctzll]; its argument is never 0 here. *)
Fixpoint pos_ctz (p : positive) : Z :=
  match p with xO p => 1 + pos_ctz p | _ => 0 end.
Definition builtin_ctzll (x : Z) : Z := match x with Zpos p => pos_ctz p | _ => 0 end.

(** ** The class *)

Record side_ops := {
  better : Z -> Z -> bool;
  better_or_equal : Z -> Z -> bool;
  pick : Z -> Z -> Z;
  initial : Z
}.

Definition min_ops : side_ops :=
  {| better := Z.ltb; better_or_equal := Z.leb; pick := Z.min; initial := 255 |}.
Definition max_ops : side_ops :=
  {| better := Z.gtb; better_or_equal := Z.geb; pick := Z.max; initial := 0 |}.

Record Side := {
  v_new_ : list Z;          (* vmin_new_ *)
  v_offsets_new_ : list Z;  (* vmin_offsets_new_ *)
  v_ : list Z;              (* vmin_ *)
  v_offsets_ : list Z;      (* vmin_offsets_ *)
  block_index_ : Z;         (* min_block_index_ *)
  scalar_index_ : Z;        (* min_scalar_index_ *)
  vector_ : Z;              (* min_vector_ *)
  scalar_ : Z               (* min_scalar_ *)
}.

Record MinMaxLoc := {
  min_ : Side;
  max_ : Side;
  vrunning_offset_ : list Z;
  running_index_ : Z
}.

Definition make_side (o : side_ops) : Side :=
  {| v_new_ := vdupq_n (initial o); v_offsets_new_ := vdupq_n 0;
     v_ := vdupq_n (initial o); v_offsets_ := vdupq_n 0;
     block_index_ := 0; scalar_index_ := 0; vector_ := initial o; scalar_ := initial o |}.

Definition make : MinMaxLoc :=
  {| min_ := make_side min_ops; max_ := make_side max_ops;
     vrunning_offset_ := vdupq_n 1; running_index_ := 0 |}.

Definition vector_path_side (o : side_ops) (running_offset src : list Z) (s : Side) : Side :=
  let is_better := vcompare (better o) src (v_new_ s) in
  {| v_offsets_new_ := vbslq_u8 is_better running_offset (v_offsets_new_ s);
     v_new_ := zip_with (pick o) (v_new_ s) src;
     v_ := v_ s; v_offsets_ := v_offsets_ s; block_index_ := block_index_ s;
     scalar_index_ := scalar_index_ s; vector_ := vector_ s; scalar_ := scalar_ s |}.

(** [MinMaxLoc::vector_path]. *)
Definition vector_path (src : list Z) (m : MinMaxLoc) : MinMaxLoc :=
  {| min_ := vector_path_side min_ops (vrunning_offset_ m) src (min_ m);
     max_ := vector_path_side max_ops (vrunning_offset_ m) src (max_ m);
     vrunning_offset_ := vaddq_u8 (vrunning_offset_ m) (vdupq_n 1);
     running_index_ := running_index_ m |}.

Definition scalar_path_side (o : side_ops) (running_index src : Z) (s : Side) : Side :=
  if better o src (scalar_ s) then
    {| v_offsets_new_ := v_offsets_new_ s; v_new_ := v_new_ s; v_ := v_ s;
       v_offsets_ := v_offsets_ s; block_index_ := block_index_ s; vector_ := vector_ s;
       scalar_ := src; scalar_index_ := running_index |}
  else s.

(** [MinMaxLoc::scalar_path]. *)
Definition scalar_path (src : Z) (m : MinMaxLoc) : MinMaxLoc :=
  {| min_ := scalar_path_side min_ops (running_index_ m) src (min_ m);
     max_ := scalar_path_side max_ops (running_index_ m) src (max_ m);
     vrunning_offset_ := vrunning_offset_ m; running_index_ := running_index_ m ⊞ 1 |}.

Definition block_finished_side (o : side_ops) (running_index : Z) (s : Side) : Side :=
  let vector := vreduce (pick o) (v_new_ s) in
  let block_index :=
    if vreduce Z.max (vreinterpretq_u32_u8 (v_offsets_new_ s)) =? 0
    then block_index_ s else running_index in
  let vno_update := vceqzq_u8 (v_offsets_new_ s) in
  {| v_offsets_ := vbslq_u8 vno_update (v_offsets_ s) (v_offsets_new_ s);
     v_ := vbslq_u8 vno_update (v_ s) (v_new_ s);
     v_new_ := vdupq_n vector; v_offsets_new_ := vdupq_n 0;
     block_index_ := block_index; vector_ := vector;
     scalar_index_ := scalar_index_ s; scalar_ := scalar_ s |}.

(** [MinMaxLoc::on_block_finished]. *)
Definition on_block_finished (vectors_in_block : Z) (m : MinMaxLoc) : MinMaxLoc :=
  {| min_ := block_finished_side min_ops (running_index_ m) (min_ m);
     max_ := block_finished_side max_ops (running_index_ m) (max_ m);
     running_index_ := running_index_ m ⊞ vectors_in_block ⊠ lanes;
     vrunning_offset_ := vdupq_n 1 |}.

(** [MinMaxLoc::max_vectors_per_block]. *)
Definition max_vectors_per_block : Z := int_max uint8 - 1.

(** [MinMaxLoc::lane_of_first_smallest]. *)
Definition lane_of_first_smallest (v_values : list Z) (smallest : Z) : Z :=
  let v_flags := vcompare Z.leb v_values (vdupq_n smallest) in
  let halfvector := vreinterpretq_u64 v_flags !!! 0%nat in
  let lane := if halfvector =? 0 then 8 else 0 in
  let halfvector := if lane =? 0 then halfvector else vreinterpretq_u64 v_flags !!! 1%nat in
  lane + builtin_ctzll halfvector / 8.

Definition side_index (o : side_ops) (s : Side) : Z :=
  if better o (scalar_ s) (vector_ s) then scalar_index_ s
  else
    let v_ignore := vdupq_n 255 in
    let is_best := vcompare (better_or_equal o) (v_ s) (v_new_ s) in
    let v_selected_offsets := vbslq_u8 is_best (v_offsets_ s) v_ignore in
    let earliest_offset := vreduce Z.min v_selected_offsets in
    if earliest_offset =? 0 then scalar_index_ s
    else
      let lane := lane_of_first_smallest v_selected_offsets earliest_offset in
      let vector_index := block_index_ s ⊞ (earliest_offset - 1) ⊠ lanes ⊞ lane in
      if better o (vector_ s) (scalar_ s) || (vector_index <? scalar_index_ s)
      then vector_index else scalar_index_ s.

(** [MinMaxLoc::min_index] and [MinMaxLoc::max_index]. *)
Definition min_index (m : MinMaxLoc) : Z := side_index min_ops (min_ m).
Definition max_index (m : MinMaxLoc) : Z := side_index max_ops (max_ m).

(** ** The entry point *)

Definition operation : Operation MinMaxLoc :=
  {| num_lanes := lanes; Operations.vector_path := vector_path;
     Operations.scalar_path := scalar_path;
     Operations.max_vectors_per_block := max_vectors_per_block;
     Operations.on_block_finished := on_block_finished |}.

(** [apply_block_operation_by_rows]; [None] stands for a row whose loop does not end. *)
Definition apply_block_operation_by_rows {S} (op : Operation S) (load : Z -> Z)
    (rect : Rectangle) (rows : Rows) (s : S) : option S :=
  zip_rows (fun length cols os =>
    match os, cols with
    | Some s, [c] => process_row_blocks op load (sizeof_ rows) length c s
    | _, _ => None
    end) rect [rows] (Some s).

(** [min_max_loc]: the error, and the two offsets when they are written.
    [p_min] and [p_max] tell whether the output pointers are given. *)
Definition min_max_loc (load : Z -> Z) (src src_stride width height : Z) (p_min p_max : bool)
    : option (kleidicv_error_t * (option Z * option Z)) :=
  match check_pointer_and_stride 1 src src_stride height ?> check_image_size width height with
  | KLEIDICV_OK =>
      if (width =? 0) || (height =? 0) then Some (KLEIDICV_ERROR_RANGE, (None, None))
      else
        let rect := {| width_ := width; height_ := height |} in
        let src_rows := {| ptr_ := src; stride_ := src_stride; channels_ := 1; sizeof_ := 1 |} in
        match apply_block_operation_by_rows operation load rect src_rows make with
        | None => None
        | Some m =>
            Some (KLEIDICV_OK,
              (if p_min then Some (offset_for_index src_rows (min_index m) width) else None,
               if p_max then Some (offset_for_index src_rows (max_index m) width) else None))
        end
  | err => Some (err, (None, None))
  end.

(** ** Lane lemmas *)

Definition u8 (x : Z) : Prop := 0 <= x < 256.
Definition u8_lanes (v : list Z) : Prop := length v = 16%nat /\ Forall u8 v.

Lemma lanes_lookup v l : u8_lanes v -> (l < 16)%nat -> u8 (v !!! l).
Proof.
  intros [Hlen Hv] Hl. eapply (Forall_lookup_1 u8 v l); [done|].
  apply list_lookup_lookup_total_lt. lia.
Qed.

Lemma lanes_dup x : u8 x -> u8_lanes (vdupq_n x).
Proof. intros Hx. split; [done|]. repeat constructor; apply Hx. Qed.

Lemma lookup_dup x l : (l < 16)%nat -> vdupq_n x !!! l = x.
Proof. intros Hl. unfold vdupq_n. by rewrite lookup_total_replicate_2. Qed.

Lemma lookup_total_zip_with {A B C} `{Inhabited A, Inhabited B, Inhabited C} (f : A -> B -> C) a b l :
  (l < length a)%nat -> (l < length b)%nat -> zip_with f a b !!! l = f (a !!! l) (b !!! l).
Proof.
  intros Ha Hb. apply list_lookup_total_correct. rewrite lookup_zip_with.
  rewrite (list_lookup_lookup_total_lt a), (list_lookup_lookup_total_lt b) by done. done.
Qed.

Lemma lookup_total_map {A B} `{Inhabited A, Inhabited B} (f : A -> B) a l :
  (l < length a)%nat -> map f a !!! l = f (a !!! l).
Proof.
  intros Ha. apply list_lookup_total_correct. rewrite list_lookup_fmap.
  by rewrite (list_lookup_lookup_total_lt a).
Qed.

Lemma lanes_zip_with f a b :
  u8_lanes a -> u8_lanes b -> (forall x y, u8 x -> u8 y -> u8 (f x y)) -> u8_lanes (zip_with f a b).
Proof.
  intros [La Ha] [Lb Hb] Hf. split; [rewrite length_zip_with; lia|].
  clear La Lb. revert b Hb. induction Ha as [|x a Hx Ha IH]; intros b Hb; [constructor|].
  destruct Hb as [|y b Hy Hb]; [constructor|]. constructor; [by apply Hf|by apply IH].
Qed.

(** A comparison mask selects. *)
Lemma select_bits (c : bool) x y : u8 x -> u8 y ->
  Z.lor (Z.land (if c then 255 else 0) x) (Z.land (Z.lxor (if c then 255 else 0) 255) y) =
  if c then x else y.
Proof.
  assert (forall z, u8 z -> Z.land 255 z = z) as Hm.
  { intros z Hz. rewrite Z.land_comm. change 255 with (Z.ones 8). rewrite Z.land_ones by lia.
    apply Z.mod_small. exact Hz. }
  intros Hx Hy. destruct c.
  - change (Z.lxor 255 255) with 0. rewrite Hm, Z.land_0_l, Z.lor_0_r by done. done.
  - change (Z.lxor 0 255) with 255. rewrite Hm, Z.land_0_l, Z.lor_0_l by done. done.
Qed.

Lemma vbslq_lane m a b l (c : bool) :
  length m = 16%nat -> u8_lanes a -> u8_lanes b -> (l < 16)%nat ->
  m !!! l = (if c then 255 else 0) ->
  vbslq_u8 m a b !!! l = if c then a !!! l else b !!! l.
Proof.
  intros Lm Ha Hb Hl Hm. unfold vbslq_u8. pose proof Ha as [La _]. pose proof Hb as [Lb _].
  rewrite lookup_total_zip_with by (rewrite ?length_zip_with; lia).
  rewrite lookup_total_zip_with by lia. cbn [fst snd]. rewrite Hm.
  apply select_bits; by apply lanes_lookup.
Qed.

Lemma vbslq_lanes m a b :
  length m = 16%nat -> (forall l, (l < 16)%nat -> m !!! l = 0 \/ m !!! l = 255) ->
  u8_lanes a -> u8_lanes b -> u8_lanes (vbslq_u8 m a b).
Proof.
  intros Lm Hm Ha Hb. pose proof Ha as [La _]. pose proof Hb as [Lb _].
  assert (length (vbslq_u8 m a b) = 16%nat) as Hlen.
  { unfold vbslq_u8. rewrite !length_zip_with. lia. }
  split; [done|]. apply Forall_lookup. intros l z Hz.
  assert (l < 16)%nat as Hl by (rewrite <- Hlen; by eapply lookup_lt_Some).
  rewrite <- (list_lookup_total_correct _ _ _ Hz).
  destruct (Hm l Hl) as [H0|H1].
  - rewrite (vbslq_lane m a b l false) by done. by apply lanes_lookup.
  - rewrite (vbslq_lane m a b l true) by done. by apply lanes_lookup.
Qed.

Lemma vcompare_lane f a b l :
  length a = 16%nat -> length b = 16%nat -> (l < 16)%nat ->
  vcompare f a b !!! l = if f (a !!! l) (b !!! l) then 255 else 0.
Proof. intros. unfold vcompare. by rewrite lookup_total_zip_with by lia. Qed.

Lemma vceqzq_lane a l :
  length a = 16%nat -> (l < 16)%nat -> vceqzq_u8 a !!! l = if a !!! l =? 0 then 255 else 0.
Proof. intros. unfold vceqzq_u8. by rewrite lookup_total_map by lia. Qed.

(** Reduction by a choice of the better key. *)
Lemma vreduce_best (key : Z -> Z) f v :
  (forall a b, f a b = if key b <? key a then b else a) -> (0 < length v)%nat ->
  (exists l, (l < length v)%nat /\ vreduce f v = v !!! l) /\
  (forall l, (l < length v)%nat -> key (vreduce f v) <= key (v !!! l)).
Proof.
  intros Hf. destruct v as [|x v]; [simpl; lia|]. intros _. simpl vreduce.
  assert (forall x, let r := foldl f x v in
    (r = x \/ exists l, (l < length v)%nat /\ r = v !!! l) /\ key r <= key x /\
    forall l, (l < length v)%nat -> key r <= key (v !!! l)) as Hgen.
  { clear x. induction v as [|y v IH]; intros x; cbn zeta.
    - simpl. split_and!; [by left|lia|intros; lia].
    - simpl foldl. destruct (IH (f x y)) as (Hex & Hle & Hall). rewrite Hf in *.
      split_and!.
      + destruct Hex as [->|(l & Hl & ->)]; [|right; exists (S l); split; [simpl; lia|done]].
        destruct (key y <? key x); [right; exists 0%nat; split; [simpl; lia|done]|by left].
      + destruct (Z.ltb_spec (key y) (key x)); lia.
      + intros [|l] Hl; [|apply Hall; simpl in Hl; lia]. simpl.
        destruct (Z.ltb_spec (key y) (key x)); lia. }
  destruct (Hgen x) as (Hex & Hle & Hall). split.
  - destruct Hex as [->|(l & Hl & ->)]; [exists 0%nat|exists (S l)]; split; simpl; done || lia.
  - intros [|l] Hl; [done|]. apply Hall. simpl in Hl. lia.
Qed.

Lemma lanes_explicit (v : list Z) : length v = 16%nat ->
  exists a b c d e f g h i j k l m n o p, v = [a;b;c;d;e;f;g;h;i;j;k;l;m;n;o;p].
Proof.
  intros H. do 16 (destruct v as [|? v]; [simpl in H; lia|]). destruct v; [|simpl in H; lia].
  by do 16 eexists.
Qed.

(** The maximum of the 32-bit lanes is zero when every byte is. *)
Lemma reinterpret_u32_zero v : u8_lanes v ->
  (vreduce Z.max (vreinterpretq_u32_u8 v) =? 0) = forallb (fun x => x =? 0) v.
Proof.
  intros [Hlen Hv]. destruct (lanes_explicit v Hlen) as
    (a & b & c & d & e & f & g & h & i & j & k & l & m & n & o & p & ->).
  unfold u8 in Hv. rewrite !Forall_cons in Hv.
  apply Bool.eq_iff_eq_true. rewrite Z.eqb_eq.
  unfold vreinterpretq_u32_u8. cbn [map take drop Nat.mul Nat.add little_endian vreduce foldl forallb].
  rewrite !andb_true_iff, !Z.eqb_eq. lia.
Qed.

(** ** The first lane *)

Lemma ctz_flag y : 0 <= y -> builtin_ctzll (255 + 256 * y) = 0.
Proof. intros Hy. destruct (255 + 256 * y) as [|p|p] eqn:Hp; [lia| |lia]. destruct p; simpl; lia. Qed.

Lemma ctz_shift_byte y : 0 < y -> builtin_ctzll (256 * y) = 8 + builtin_ctzll y.
Proof.
  intros Hy. destruct y as [|p|p]; [lia| |lia].
  change (builtin_ctzll (256 * Z.pos p)) with
    (1 + (1 + (1 + (1 + (1 + (1 + (1 + (1 + builtin_ctzll (Z.pos p))))))))).
  lia.
Qed.

Lemma little_endian_nonneg bytes : Forall u8 bytes -> 0 <= little_endian bytes.
Proof. induction 1 as [|b bs [? ?] _ IH]; simpl; lia. Qed.

Lemma little_endian_first (i : nat) rest :
  Forall u8 rest ->
  little_endian (replicate i 0 ++ 255 :: rest) <> 0 /\
  builtin_ctzll (little_endian (replicate i 0 ++ 255 :: rest)) = 8 * Z.of_nat i.
Proof.
  intros Hr. pose proof (little_endian_nonneg rest Hr).
  induction i as [|i [IH1 IH2]].
  - cbn [replicate app little_endian]. split; [lia|]. by rewrite ctz_flag.
  - cbn [replicate app little_endian].
    assert (0 <= little_endian (replicate i 0 ++ 255 :: rest)).
    { apply little_endian_nonneg, Forall_app. split; [|constructor; [unfold u8; lia|done]].
      apply Forall_replicate. unfold u8. lia. }
    rewrite Z.add_0_l. split; [lia|]. rewrite ctz_shift_byte by lia. lia.
Qed.

Lemma little_endian_zeros i : little_endian (replicate i 0) = 0.
Proof. induction i as [|i IH]; [done|]. cbn [replicate little_endian]. rewrite IH. done. Qed.

Lemma flags_halves (l : nat) rest :
  (l < 16)%nat -> (l + length rest = 15)%nat -> Forall u8 rest ->
  let v := replicate l 0 ++ 255 :: rest in
  let half := vreinterpretq_u64 v !!! 0%nat in
  let lane := if half =? 0 then 8 else 0 in
  lane + builtin_ctzll (if lane =? 0 then half else vreinterpretq_u64 v !!! 1%nat) / 8 = Z.of_nat l.
Proof.
  intros Hl Hlen Hr v half. unfold half, vreinterpretq_u64.
  change (map _ [0%nat; 1%nat] !!! 0%nat) with (little_endian (take 8 (drop 0 v))).
  change (map _ [0%nat; 1%nat] !!! 1%nat) with (little_endian (take 8 (drop 8 v))).
  rewrite drop_0. unfold v. destruct (Nat.lt_ge_cases l 8) as [H8|H8].
  - rewrite take_app, take_ge by (rewrite length_replicate; lia).
    rewrite length_replicate. replace (8 - l)%nat with (S (7 - l)) by lia. cbn [take].
    destruct (little_endian_first l (take (7 - l) rest)) as [Hnz Hctz]; [by apply Forall_take|].
    rewrite (proj2 (Z.eqb_neq _ 0) Hnz). cbn [Z.eqb]. rewrite Hctz.
    rewrite Z.mul_comm, Z.div_mul by lia. lia.
  - rewrite take_app_le by (rewrite length_replicate; lia).
    rewrite take_replicate, little_endian_zeros. cbn [Z.eqb].
    rewrite drop_app_le by (rewrite length_replicate; lia). rewrite drop_replicate.
    rewrite take_ge by (rewrite length_app, length_replicate; simpl; lia).
    destruct (little_endian_first (l - 8) rest Hr) as [_ Hctz]. rewrite Hctz.
    rewrite Z.mul_comm, Z.div_mul by lia. lia.
Qed.

(** The first lane of [v_values] that is at most [smallest]. *)
Lemma lane_of_first_smallest_spec v smallest (l : nat) :
  u8_lanes v -> (l < 16)%nat -> v !!! l <= smallest ->
  (forall l', (l' < l)%nat -> smallest < v !!! l') ->
  lane_of_first_smallest v smallest = Z.of_nat l.
Proof.
  intros [Hlen Hv] Hl Hle Hfirst. unfold lane_of_first_smallest.
  set (flags := vcompare Z.leb v (vdupq_n smallest)).
  assert (forall i, (i < 16)%nat -> flags !!! i = if v !!! i <=? smallest then 255 else 0) as Hf.
  { intros i Hi. unfold flags. rewrite vcompare_lane by done. by rewrite lookup_dup. }
  assert (length flags = 16%nat) as Hlf.
  { unfold flags, vcompare. rewrite length_zip_with, Hlen. done. }
  assert (flags = replicate l 0 ++ 255 :: drop (S l) flags) as Heq.
  { rewrite <- (take_drop l flags) at 1. f_equal.
    - apply list_eq_same_length with (n := l); [by rewrite length_replicate|rewrite length_take; lia|].
      intros i x y Hi Hx Hy. rewrite lookup_take_lt in Hx by done.
      rewrite lookup_replicate_2 in Hy by done. injection Hy as <-.
      rewrite <- (list_lookup_total_correct _ _ _ Hx), Hf by lia.
      specialize (Hfirst i Hi). case_cmp; lia.
    - rewrite (drop_S _ 255 l); [done|]. rewrite list_lookup_lookup_total_lt by lia.
      rewrite Hf by done. f_equal. case_cmp; lia. }
  rewrite Heq. apply flags_halves; [done|rewrite length_drop; lia|].
  apply Forall_lookup. intros i z Hz. rewrite lookup_drop in Hz.
  pose proof (lookup_lt_Some _ _ _ Hz). rewrite <- (list_lookup_total_correct _ _ _ Hz), Hf by lia.
  unfold u8. case_cmp; lia.
Qed.

(** ** Correctness of one side

    [key] orders the values: the better value has the smaller key.  [x i] is the
    element of index [i] of the image, in row-major order. *)

Class SideLaws (o : side_ops) (key : Z -> Z) := {
  key_inj : forall a b, key a = key b -> a = b;
  better_key : forall a b, better o a b = (key a <? key b);
  better_or_equal_key : forall a b, better_or_equal o a b = (key a <=? key b);
  pick_key : forall a b, pick o a b = if key b <? key a then b else a;
  initial_u8 : u8 (initial o);
  initial_worst : forall a, u8 a -> key a <= key (initial o)
}.

#[export] Instance min_laws : SideLaws min_ops id.
Proof.
  split; cbn; try done; unfold id, u8; intros; try lia. case_cmp; lia.
Qed.

#[export] Instance max_laws : SideLaws max_ops Z.opp.
Proof.
  split; cbn; unfold u8; intros; rewrite ?Z.gtb_ltb, ?Z.geb_leb; try lia; case_cmp; lia.
Qed.

Section side.
Context (o : side_ops) (key : Z -> Z) `{!SideLaws o key}.
Variable x : Z -> Z.
Hypothesis x_u8 : forall i, u8 (x i).
Implicit Types (s : Side) (vec : Z -> bool).

(** [p] is the first best of the [n] elements that satisfy [vec]. *)
Definition first_best (vec : Z -> bool) (n p : Z) : Prop :=
  0 <= p < n /\ vec p = true /\
  forall i, 0 <= i < n -> vec i = true -> key (x p) <= key (x i) /\ (i < p -> key (x p) < key (x i)).

Definition all_initial (vec : Z -> bool) (n : Z) : Prop :=
  forall i, 0 <= i < n -> vec i = true -> x i = initial o.

(** The scalar fields after [n] elements; [vec] tells those of the vector path. *)
Definition scalar_inv vec n s : Prop :=
  (scalar_ s = initial o /\ scalar_index_ s = 0 /\ all_initial (fun i => negb (vec i)) n) \/
  (scalar_ s = x (scalar_index_ s) /\ key (scalar_ s) < key (initial o) /\
   first_best (fun i => negb (vec i)) n (scalar_index_ s)).

Definition lane_index s (l : nat) : Z :=
  block_index_ s + (v_offsets_ s !!! l - 1) * 16 + Z.of_nat l.

(** The vector fields between blocks. *)
Definition lanes_inv vec n s : Prop :=
  u8_lanes (v_ s) /\ u8_lanes (v_offsets_ s) /\ u8 (vector_ s) /\
  ((vector_ s = initial o /\ v_ s = vdupq_n (initial o) /\ v_offsets_ s = vdupq_n 0 /\
    all_initial vec n) \/
   (key (vector_ s) < key (initial o) /\
    (exists l, (l < 16)%nat /\ v_ s !!! l = vector_ s) /\
    (forall l, (l < 16)%nat -> key (vector_ s) <= key (v_ s !!! l) /\
      (v_ s !!! l = vector_ s -> 1 <= v_offsets_ s !!! l <= 254 /\
        0 <= lane_index s l < n /\ vec (lane_index s l) = true /\ x (lane_index s l) = vector_ s)) /\
    (forall i, 0 <= i < n -> vec i = true -> key (vector_ s) <= key (x i) /\
      (x i = vector_ s -> exists l, (l < 16)%nat /\ v_ s !!! l = vector_ s /\ lane_index s l <= i)))).

Definition fresh s : Prop :=
  v_new_ s = vdupq_n (vector_ s) /\ v_offsets_new_ s = vdupq_n 0.

Definition side_inv n s : Prop :=
  exists vec, (forall i, n <= i -> vec i = false) /\
    scalar_inv vec n s /\ lanes_inv vec n s /\ fresh s.

(** Inside a block that starts at element [n], after [j] vectors. *)
Definition block_element (n j : Z) (l : nat) : Z := n + j * 16 + Z.of_nat l.

Definition new_lane_inv n j s (l : nat) : Prop :=
  (v_offsets_new_ s !!! l = 0 -> v_new_ s !!! l = vector_ s) /\
  (v_offsets_new_ s !!! l <> 0 -> 1 <= v_offsets_new_ s !!! l <= j /\
    x (block_element n (v_offsets_new_ s !!! l - 1) l) = v_new_ s !!! l /\
    key (v_new_ s !!! l) < key (vector_ s)) /\
  forall i, 0 <= i < j -> key (v_new_ s !!! l) <= key (x (block_element n i l)) /\
    (x (block_element n i l) = v_new_ s !!! l -> v_offsets_new_ s !!! l <> 0 ->
     v_offsets_new_ s !!! l <= i + 1).

Definition side_block n j s : Prop :=
  (exists vec, (forall i, n <= i -> vec i = false) /\ scalar_inv vec n s /\ lanes_inv vec n s) /\
  u8_lanes (v_new_ s) /\ u8_lanes (v_offsets_new_ s) /\
  forall l, (l < 16)%nat -> new_lane_inv n j s l.

Lemma side_inv_make : side_inv 0 (make_side o).
Proof.
  pose proof initial_u8 as Hi. exists (fun _ => false). split_and!.
  - done.
  - left. split_and!; [done|done|]. intros i Hi'. lia.
  - split_and!; [by apply lanes_dup|apply lanes_dup; unfold u8; lia|done|].
    left. split_and!; try done; intros i Hi0; lia.
  - done.
Qed.

Lemma side_block_start n s : side_inv n s -> side_block n 0 s.
Proof.
  intros (vec & Hvec & Hsc & Hl & Hv & Ho). pose proof Hl as (_ & _ & Hu & _). split; [by exists vec|].
  rewrite Hv, Ho. split_and!; [by apply lanes_dup|apply lanes_dup; unfold u8; lia|].
  intros l Hlt. unfold new_lane_inv. rewrite Hv, Ho, !lookup_dup by done.
  split_and!; [done|done|]. intros i Hi. lia.
Qed.

Lemma side_scalar_step n s :
  side_inv n s -> 0 <= n -> side_inv (n + 1) (scalar_path_side o n (x n) s).
Proof.
  intros (vec & Hvec & Hsc & Hl & Hfresh) Hn.
  exists (fun i => if i =? n then false else vec i). unfold scalar_path_side.
  rewrite better_key. split_and!.
  - intros i Hi. destruct (Z.eqb_spec i n); [done|apply Hvec; lia].
  - destruct (Z.ltb_spec (key (x n)) (key (scalar_ s))) as [Hlt|Hge].
    + right. cbn [scalar_ scalar_index_]. split; [done|].
      assert (key (scalar_ s) <= key (initial o)) as Hle.
      { destruct Hsc as [(-> & _)|(_ & Hk & _)]; lia. }
      split; [lia|]. split_and!; [lia|lia|by rewrite Z.eqb_refl|].
      intros i Hi Hv. destruct (Z.eqb_spec i n) as [->|Hne]; [split; lia|].
      assert (key (scalar_ s) <= key (x i)); [|split; lia].
      destruct Hsc as [(Heq & _ & Hall)|(Heq & _ & _ & _ & Hall)].
      * rewrite Heq, (Hall i) by (done || lia). lia.
      * rewrite Heq. apply Hall; [lia|done].
    + destruct Hsc as [(Heq & H0 & Hall)|(Heq & Hk & Hb & Hvb & Hall)].
      * left. split_and!; [done|done|]. intros i Hi Hv.
        destruct (Z.eqb_spec i n) as [->|Hne]; [|apply Hall; [lia|done]].
        apply key_inj. pose proof (initial_worst (x n) (x_u8 n)). rewrite Heq in Hge. lia.
      * right. split; [done|]. split; [done|]. split_and!; [lia|lia| |].
        { destruct (Z.eqb_spec (scalar_index_ s) n); [lia|done]. }
        intros i Hi Hv. destruct (Z.eqb_spec i n) as [->|Hne]; [|apply Hall; [lia|done]].
        rewrite <- Heq. split; lia.
  - assert (lanes_inv (fun i => if i =? n then false else vec i) (n + 1) s) as Hlanes;
      [|destruct (_ <? _); exact Hlanes].
    destruct Hl as (Hv & Ho & Hu & Hcase). split_and!; try done.
    destruct Hcase as [(H1 & H2 & H3 & Hall)|(Hk & Hex & Hlane & Hall)]; [left|right].
    + split_and!; try done. intros i Hi Hvi. destruct (Z.eqb_spec i n); [done|]. apply Hall; [lia|done].
    + split_and!; try done.
      * intros l Hlt. destruct (Hlane l Hlt) as [Hle Heq]. split; [done|]. intros He.
        destruct (Heq He) as (? & ? & ? & ?). split_and!; try done; try lia.
        destruct (Z.eqb_spec (lane_index s l) n); [lia|done].
      * intros i Hi Hvi. destruct (Z.eqb_spec i n); [done|]. apply Hall; [lia|done].
  - by destruct (_ <? _).
Qed.

Lemma pick_u8 a b : u8 a -> u8 b -> u8 (pick o a b).
Proof. intros. rewrite pick_key. by destruct (_ <? _). Qed.

Lemma vcompare_lanes f a b :
  length a = 16%nat -> length b = 16%nat ->
  length (vcompare f a b) = 16%nat /\
  forall l, (l < 16)%nat -> vcompare f a b !!! l = 0 \/ vcompare f a b !!! l = 255.
Proof.
  intros La Lb. split; [unfold vcompare; rewrite length_zip_with; lia|].
  intros l Hl. rewrite vcompare_lane by done. destruct (f _ _); auto.
Qed.

Lemma side_vector_step n j s src :
  side_block n j s -> 0 <= j <= 253 -> u8_lanes src ->
  (forall l, (l < 16)%nat -> src !!! l = x (block_element n j l)) ->
  side_block n (j + 1) (vector_path_side o (vdupq_n (j + 1)) src s).
Proof.
  intros (Hold & Hv & Ho & Hlane) Hj Hsrc Hval. pose proof Hv as [Lv _]. pose proof Hsrc as [Ls _].
  set (mask := vcompare (better o) src (v_new_ s)).
  destruct (vcompare_lanes (better o) src (v_new_ s) Ls Lv) as [Lm Hm]. fold mask in Lm, Hm.
  assert (u8_lanes (vdupq_n (j + 1))) as Hrun by (apply lanes_dup; unfold u8; lia).
  unfold vector_path_side. fold mask. split; [exact Hold|].
  cbn [v_new_ v_offsets_new_]. split; [apply lanes_zip_with; [done..|by intros; apply pick_u8]|].
  split; [by apply vbslq_lanes|].
  intros l Hl. destruct (Hlane l Hl) as (H0 & H1 & Hall). unfold new_lane_inv.
  cbn [v_new_ v_offsets_new_ vector_]. rewrite lookup_total_zip_with by lia. rewrite pick_key.
  rewrite (vbslq_lane mask _ _ l (better o (src !!! l) (v_new_ s !!! l))) by
    (done || (unfold mask; by rewrite vcompare_lane)).
  rewrite better_key, lookup_dup, Hval by done.
  destruct (Z.ltb_spec (key (x (block_element n j l))) (key (v_new_ s !!! l))) as [Hlt|Hge].
  - assert (key (v_new_ s !!! l) <= key (vector_ s)) as Hle.
    { destruct (Z.eq_dec (v_offsets_new_ s !!! l) 0) as [Hz|Hnz]; [rewrite (H0 Hz); lia|].
      destruct (H1 Hnz) as (_ & _ & ?). lia. }
    split_and!; [lia| |].
    + intros _. split_and!; try lia. do 2 f_equal. lia.
    + intros i Hi. destruct (Z.eq_dec i j) as [->|Hne]; [split; lia|].
      destruct (Hall i ltac:(lia)) as [Hk _]. split; [lia|]. intros Heq. rewrite Heq in Hk. lia.
  - split_and!; [done| |].
    + intros Hnz. destruct (H1 Hnz) as (? & ? & ?). split_and!; try done; lia.
    + intros i Hi. destruct (Z.eq_dec i j) as [->|Hne]; [|apply Hall; lia].
      split; [lia|]. intros _ Hnz. destruct (H1 Hnz) as (? & _). lia.
Qed.

(** Which lanes a block updates. *)
Lemma no_update_lanes v : u8_lanes v ->
  (vreduce Z.max (vreinterpretq_u32_u8 v) =? 0) = true <-> forall l, (l < 16)%nat -> v !!! l = 0.
Proof.
  intros Hv. rewrite reinterpret_u32_zero by done. rewrite forallb_forall. destruct Hv as [Hlen _].
  split.
  - intros H l Hl. apply Z.eqb_eq, H, list_elem_of_In, list_elem_of_lookup_total_2. lia.
  - intros H z Hz%list_elem_of_In%list_elem_of_lookup. destruct Hz as [l Hl].
    rewrite <- (list_lookup_total_correct _ _ _ Hl). apply Z.eqb_eq, H.
    rewrite <- Hlen. by eapply lookup_lt_Some.
Qed.

Lemma block_index_cases n j i :
  0 <= j -> n <= i < n + j * 16 ->
  exists q l, 0 <= q < j /\ (l < 16)%nat /\ i = block_element n q l.
Proof.
  intros Hj Hi. exists ((i - n) / 16), (Z.to_nat ((i - n) mod 16)).
  pose proof (Z.mod_pos_bound (i - n) 16 ltac:(lia)). pose proof (Z.div_mod (i - n) 16 ltac:(lia)).
  unfold block_element. split; [|split; lia]. nia.
Qed.

Definition add_block (vec : Z -> bool) (n j : Z) : Z -> bool :=
  fun i => vec i || ((n <=? i) && (i <? n + j * 16)).

Lemma add_block_old vec n j i : add_block vec n j i = true -> i < n -> vec i = true.
Proof. unfold add_block. destruct (vec i); [done|]. simpl. case_cmp; simpl; done || lia. Qed.

Lemma scalar_inv_block vec n j s :
  0 <= j -> (forall i, n <= i -> vec i = false) -> scalar_inv vec n s ->
  scalar_inv (add_block vec n j) (n + j * 16) s.
Proof.
  intros Hj Hvec Hsc. assert (forall i, 0 <= i < n + j * 16 -> negb (add_block vec n j i) = true ->
    0 <= i < n /\ negb (vec i) = true) as Hold.
  { intros i Hi. unfold add_block. destruct (vec i); [done|]. simpl. case_cmp; simpl; done || lia. }
  destruct Hsc as [(H1 & H2 & Hall)|(H1 & H2 & Hr & Hv & Hall)].
  - left. split_and!; [done|done|]. intros i Hi Hn. destruct (Hold i Hi Hn). by apply Hall.
  - right. split_and!; [done|done|]. split_and!; [lia|lia| |].
    + unfold add_block. destruct (vec _); [done|]. simpl. case_cmp; simpl; done || lia.
    + intros i Hi Hn. destruct (Hold i Hi Hn). by apply Hall.
Qed.

(** The fields after a block: [w] is the best of the new lanes. *)
Section block_end.
Variables (vec : Z -> bool) (n j : Z) (s : Side).
Hypothesis n_pos : 0 <= n.
Hypothesis j_pos : 1 <= j <= 254.
Hypothesis old : lanes_inv vec n s.
Hypothesis new_v : u8_lanes (v_new_ s).
Hypothesis new_o : u8_lanes (v_offsets_new_ s).
Hypothesis new_lanes : forall l, (l < 16)%nat -> new_lane_inv n j s l.
Local Abbreviation s' := (block_finished_side o n s).

Lemma new_best :
  (exists l, (l < 16)%nat /\ vector_ s' = v_new_ s !!! l) /\ u8 (vector_ s') /\
  forall l, (l < 16)%nat -> key (vector_ s') <= key (v_new_ s !!! l).
Proof.
  pose proof new_v as [Lv _].
  destruct (vreduce_best key (pick o) (v_new_ s)) as [(l & Hl & Heq) Hall];
    [apply pick_key|lia|]. rewrite Lv in Hl, Hall. cbn [block_finished_side vector_].
  split_and!; [by exists l|rewrite Heq; by apply lanes_lookup|done].
Qed.

Lemma new_lane_fields l : (l < 16)%nat ->
  v_ s' !!! l = (if v_offsets_new_ s !!! l =? 0 then v_ s !!! l else v_new_ s !!! l) /\
  v_offsets_ s' !!! l = (if v_offsets_new_ s !!! l =? 0 then v_offsets_ s !!! l else v_offsets_new_ s !!! l).
Proof.
  intros Hl. pose proof new_o as [Lo _]. destruct old as (Hv & Ho & _). cbn [block_finished_side v_ v_offsets_].
  assert (length (vceqzq_u8 (v_offsets_new_ s)) = 16%nat) by (unfold vceqzq_u8; by rewrite length_map).
  split; apply vbslq_lane; try done; by apply vceqzq_lane.
Qed.

Lemma new_lanes_u8 : u8_lanes (v_ s') /\ u8_lanes (v_offsets_ s').
Proof.
  pose proof new_o as [Lo _]. destruct old as (Hv & Ho & _). cbn [block_finished_side v_ v_offsets_].
  assert (length (vceqzq_u8 (v_offsets_new_ s)) = 16%nat) by (unfold vceqzq_u8; by rewrite length_map).
  split; apply vbslq_lanes; try done;
    intros l Hl; rewrite vceqzq_lane by done; destruct (_ =? 0); auto.
Qed.

Lemma new_element i : n <= i < n + j * 16 ->
  exists q l, 0 <= q < j /\ (l < 16)%nat /\ i = block_element n q l /\
    key (v_new_ s !!! l) <= key (x i) /\
    (x i = v_new_ s !!! l -> v_offsets_new_ s !!! l <> 0 -> v_offsets_new_ s !!! l <= q + 1).
Proof.
  intros Hi. destruct (block_index_cases n j i ltac:(lia) Hi) as (q & l & Hq & Hl & ->).
  exists q, l. split_and!; try done; try lia; by apply (new_lanes l Hl).
Qed.

Lemma old_best l : (l < 16)%nat -> key (vector_ s) <= key (v_ s !!! l).
Proof.
  intros Hl. destruct old as (_ & _ & _ & [(H1 & H2 & _)|(_ & _ & Hlane & _)]).
  - rewrite H1, H2, lookup_dup by done. lia.
  - by apply Hlane.
Qed.

Lemma old_elements i : 0 <= i < n -> vec i = true -> key (vector_ s) <= key (x i).
Proof.
  intros Hi Hv. destruct old as (_ & _ & _ & [(H1 & _ & _ & Hall)|(_ & _ & _ & Hall)]).
  - rewrite H1, (Hall i) by done. lia.
  - by apply Hall.
Qed.

(** No lane improved: the vector fields keep their values. *)
Lemma block_end_unchanged :
  (forall l, (l < 16)%nat -> v_offsets_new_ s !!! l = 0) ->
  lanes_inv (add_block vec n j) (n + j * 16) s'.
Proof.
  intros H0. destruct new_lanes_u8 as [Hv' Ho']. destruct new_best as ((lb & Hlb & Heq) & Hu & _).
  assert (vector_ s' = vector_ s) as Hvec by (rewrite Heq; by apply new_lanes, H0).
  assert (block_index_ s' = block_index_ s) as Hbi.
  { cbn [block_finished_side block_index_]. by rewrite (proj2 (no_update_lanes _ new_o) H0). }
  assert (forall l, (l < 16)%nat -> v_ s' !!! l = v_ s !!! l /\ v_offsets_ s' !!! l = v_offsets_ s !!! l) as Hf.
  { intros l Hl. destruct (new_lane_fields l Hl) as [-> ->]. by rewrite H0. }
  assert (forall l, (l < 16)%nat -> lane_index s' l = lane_index s l) as Hidx.
  { intros l Hl. unfold lane_index. destruct (Hf l Hl) as [_ ->]. by rewrite Hbi. }
  assert (forall i, n <= i < n + j * 16 -> key (vector_ s) <= key (x i)) as Hnew.
  { intros i Hi. destruct (new_element i Hi) as (q & l & _ & Hl & _ & Hk & _).
    replace (vector_ s) with (v_new_ s !!! l) by (by apply new_lanes, H0). done. }
  split_and!; [done|done|done|]. destruct old as (Hv & Ho & Hu0 & Hcase).
  destruct Hcase as [(H1 & H2 & H3 & Hall)|(Hk & (l0 & Hl0 & Hl0v) & Hlane & Hall)]; [left|right].
  - split_and!; [congruence| | |].
    + apply (list_eq_same_length _ _ 16); [done|by destruct Hv'|].
      intros l a b Hl Ha Hb. rewrite <- (list_lookup_total_correct _ _ _ Ha), <- (list_lookup_total_correct _ _ _ Hb).
      rewrite (proj1 (Hf l Hl)). by rewrite H2.
    + apply (list_eq_same_length _ _ 16); [done|by destruct Ho'|].
      intros l a b Hl Ha Hb. rewrite <- (list_lookup_total_correct _ _ _ Ha), <- (list_lookup_total_correct _ _ _ Hb).
      rewrite (proj2 (Hf l Hl)). by rewrite H3.
    + intros i Hi Hvi. destruct (Z.lt_ge_cases i n) as [Hlt|Hge].
      * apply Hall; [lia|]. by apply (add_block_old vec n j).
      * apply key_inj. pose proof (Hnew i ltac:(lia)). rewrite H1 in *.
        pose proof (initial_worst (x i) (x_u8 i)). lia.
  - rewrite Hvec. split; [done|]. split; [exists l0; split; [done|]; by rewrite (proj1 (Hf l0 Hl0))|]. split.
    + intros l Hl. rewrite (proj1 (Hf l Hl)), (proj2 (Hf l Hl)), Hidx by done.
      destruct (Hlane l Hl) as [Hle Himp]. split; [done|]. intros He.
      destruct (Himp He) as (? & ? & Hvi & ?). split_and!; try done; try lia.
      unfold add_block. by rewrite Hvi.
    + intros i Hi Hvi. destruct (Z.lt_ge_cases i n) as [Hlt|Hge].
      * assert (vec i = true) as Hvec1.
        { by apply (add_block_old vec n j). }
        destruct (Hall i ltac:(lia) Hvec1) as [Hle Himp]. split; [done|]. intros He.
        destruct (Himp He) as (l & Hl & Hlv & Hli). exists l. rewrite (proj1 (Hf l Hl)), Hidx by done. done.
      * split; [apply Hnew; lia|]. intros _. exists l0. rewrite (proj1 (Hf l0 Hl0)), Hidx by done.
        split_and!; try done. destruct (Hlane l0 Hl0) as [_ Himp]. destruct (Himp Hl0v) as (_ & ? & _). lia.
Qed.

(** Some lane improved: every lane that holds the new best was updated. *)
Lemma block_end_improved l1 :
  (l1 < 16)%nat -> v_offsets_new_ s !!! l1 <> 0 ->
  lanes_inv (add_block vec n j) (n + j * 16) s'.
Proof.
  intros Hl1 Hnz1. destruct new_lanes_u8 as [Hv' Ho'].
  destruct new_best as ((lb & Hlb & Heq) & Hu & Hbest).
  assert (block_index_ s' = n) as Hbi.
  { cbn [block_finished_side block_index_]. destruct (_ =? 0) eqn:He; [|done].
    exfalso. by apply Hnz1, (no_update_lanes _ new_o). }
  assert (key (vector_ s') < key (vector_ s)) as Hlt.
  { destruct (new_lanes l1 Hl1) as (_ & H1 & _). destruct (H1 Hnz1) as (_ & _ & ?).
    pose proof (Hbest l1 Hl1). lia. }
  assert (key (vector_ s) <= key (initial o)) as Hini.
  { destruct old as (_ & _ & _ & [(-> & _)|(? & _)]); lia. }
  assert (forall l, (l < 16)%nat -> v_new_ s !!! l = vector_ s' -> v_offsets_new_ s !!! l <> 0) as Hupd.
  { intros l Hl He Hz. destruct (new_lanes l Hl) as (H0 & _). rewrite <- He, (H0 Hz) in Hlt. lia. }
  split_and!; [done|done|done|]. right. split; [lia|]. split; [|split].
  - exists lb. split; [done|]. destruct (new_lane_fields lb Hlb) as [-> _].
    destruct (Z.eqb_spec (v_offsets_new_ s !!! lb) 0); [|done]. exfalso. by apply (Hupd lb).
  - intros l Hl. unfold lane_index. rewrite Hbi. destruct (new_lane_fields l Hl) as [-> ->].
    pose proof (old_best l Hl). destruct (Z.eqb_spec (v_offsets_new_ s !!! l) 0) as [Hz|Hnz].
    + split; [lia|]. intros He. rewrite He in *. lia.
    + split; [by apply Hbest|]. intros He. destruct (new_lanes l Hl) as (_ & H1 & _).
      destruct (H1 Hnz) as (Hr & Hx & _). unfold block_element in Hx.
      split_and!; [lia|lia|lia|lia| |by rewrite Hx, He].
      unfold add_block. replace (n <=? _) with true by (symmetry; apply Z.leb_le; lia).
      replace (_ <? _) with true by (symmetry; apply Z.ltb_lt; lia). by destruct (vec _).
  - intros i Hi Hvi. destruct (Z.lt_ge_cases i n) as [Hin|Hin].
    + assert (vec i = true) as Hvec1.
      { by apply (add_block_old vec n j). }
      pose proof (old_elements i ltac:(lia) Hvec1). split; [lia|]. intros He. rewrite He in *. lia.
    + destruct (new_element i ltac:(lia)) as (q & l & Hq & Hl & -> & Hk & Hfirst).
      pose proof (Hbest l Hl). split; [lia|]. intros He.
      assert (v_new_ s !!! l = vector_ s') as Hw by (apply key_inj; rewrite He in Hk; lia).
      exists l. unfold lane_index. rewrite Hbi. destruct (new_lane_fields l Hl) as [-> ->].
      rewrite (proj2 (Z.eqb_neq _ 0) (Hupd l Hl Hw)). split_and!; [done|done|].
      specialize (Hfirst ltac:(congruence) (Hupd l Hl Hw)). unfold block_element. lia.
Qed.
End block_end.

Lemma side_block_end n j s :
  0 <= n -> 1 <= j <= 254 -> side_block n j s -> side_inv (n + j * 16) (block_finished_side o n s).
Proof.
  intros Hn Hj ((vec & Hvec & Hsc & Hold) & Hv & Ho & Hlane).
  exists (add_block vec n j). split_and!.
  - intros i Hi. unfold add_block. rewrite (Hvec i) by lia. simpl. case_cmp; simpl; done || lia.
  - apply scalar_inv_block; [lia|done|exact Hsc].
  - destruct (decide (Forall (fun z => z = 0) (v_offsets_new_ s))) as [Hz|Hnz].
    + apply block_end_unchanged; try done. intros l Hl. pose proof Ho as [Lo _].
      eapply (Forall_lookup_1 (fun z => z = 0) (v_offsets_new_ s) l); [done|].
      apply list_lookup_lookup_total_lt. lia.
    + apply (not_Forall_Exists _) in Hnz. apply Exists_exists in Hnz as (z & Hz & Hne).
      apply list_elem_of_lookup in Hz as [l1 Hl1]. pose proof Ho as [Lo _].
      apply (block_end_improved vec n j s) with (l1 := l1); try done.
      * rewrite <- Lo. by eapply lookup_lt_Some.
      * by rewrite (list_lookup_total_correct _ _ _ Hl1).
  - done.
Qed.

(** The least natural below a bound that satisfies a test. *)
Lemma first_nat (f : nat -> bool) m :
  (exists l, (l < m)%nat /\ f l = true) ->
  exists l, (l < m)%nat /\ f l = true /\ forall l', (l' < l)%nat -> f l' = false.
Proof.
  intros (l & Hl & Hf). induction l as [l IH] using lt_wf_ind.
  destruct (forallb (fun l' => negb (f l')) (seq 0 l)) eqn:Hall.
  - exists l. split_and!; [done|done|]. intros l' Hl'. rewrite forallb_forall in Hall.
    apply negb_true_iff, Hall, in_seq. lia.
  - apply not_true_iff_false in Hall.
    destruct (existsb f (seq 0 l)) eqn:Hex.
    + apply existsb_exists in Hex as (l' & Hin%in_seq & Hf'). apply (IH l'); [lia|lia|done].
    + exfalso. apply Hall, forallb_forall. intros l' Hin. apply negb_true_iff.
      destruct (f l') eqn:Hf'; [|done]. rewrite <- not_true_iff_false in Hex. exfalso. apply Hex.
      apply existsb_exists. by exists l'.
Qed.

Lemma wrap64_add_l a b : wrap64 (wrap64 a + b) = wrap64 (a + b).
Proof. unfold wrap64. by rewrite Zplus_mod_idemp_l. Qed.

Lemma wrap64_add_mul a b c : wrap64 (a + wrap64 b + c) = wrap64 (a + b + c).
Proof. unfold wrap64. rewrite <- Zplus_mod_idemp_l, Zplus_mod_idemp_r, Zplus_mod_idemp_l. done. Qed.

(** The offsets the result is selected from: those of the lanes that hold the
    best value. *)
Lemma selected_lane vec n s l :
  lanes_inv vec n s -> fresh s -> (l < 16)%nat ->
  let is_best := vcompare (better_or_equal o) (v_ s) (v_new_ s) in
  let selected := vbslq_u8 is_best (v_offsets_ s) (vdupq_n 255) in
  u8_lanes selected /\
  selected !!! l = if key (v_ s !!! l) <=? key (vector_ s) then v_offsets_ s !!! l else 255.
Proof.
  intros (Hv & Ho & Hu & _) [Hnew _] Hl. cbn zeta. pose proof Hv as [Lv _].
  destruct (vcompare_lanes (better_or_equal o) (v_ s) (v_new_ s) Lv) as [Lm Hm]; [by rewrite Hnew|].
  assert (u8_lanes (vdupq_n 255)) as Hd by (apply lanes_dup; unfold u8; lia).
  split; [by apply vbslq_lanes|].
  rewrite (vbslq_lane _ _ _ l (key (v_ s !!! l) <=? key (vector_ s))); try done.
  - by rewrite lookup_dup.
  - rewrite vcompare_lane by (done || by rewrite Hnew). by rewrite Hnew, lookup_dup, better_or_equal_key.
Qed.

(** The earliest vector and, in it, the first lane: the first best element of the
    vector path. *)
Lemma vector_index_first vec n s selected :
  lanes_inv vec n s -> key (vector_ s) < key (initial o) -> u8_lanes selected ->
  (forall l, (l < 16)%nat -> selected !!! l =
    if key (v_ s !!! l) <=? key (vector_ s) then v_offsets_ s !!! l else 255) ->
  let e := vreduce Z.min selected in
  let p := block_index_ s + (e - 1) * 16 + lane_of_first_smallest selected e in
  e <> 0 /\ x p = vector_ s /\ first_best vec n p.
Proof.
  intros (Hv & Ho & Hu & Hcase) Hk Hsel Hlanes e p.
  destruct Hcase as [(H1 & _)|(_ & (l0 & Hl0 & Hl0v) & Hlane & Hall)]; [rewrite H1 in Hk; lia|].
  pose proof Hsel as [Ls _].
  destruct (vreduce_best id Z.min selected) as [_ Hmin];
    [intros a b; unfold id; case_cmp; lia|lia|]. unfold id in Hmin. fold e in Hmin. rewrite Ls in Hmin.
  (* the lanes that hold the best value *)
  assert (forall l, (l < 16)%nat -> v_ s !!! l = vector_ s -> selected !!! l = v_offsets_ s !!! l) as Hbest.
  { intros l Hl He. rewrite Hlanes by done. rewrite He. case_cmp; lia. }
  assert (forall l, (l < 16)%nat -> selected !!! l <= 254 -> v_ s !!! l = vector_ s) as Hconv.
  { intros l Hl Hle. rewrite Hlanes in Hle by done. destruct (Hlane l Hl) as [Hkl _].
    destruct (Z.leb_spec (key (v_ s !!! l)) (key (vector_ s))); [apply key_inj; lia|lia]. }
  assert (e <= 254) as He254.
  { pose proof (Hmin l0 Hl0) as Hm. rewrite (Hbest l0 Hl0 Hl0v) in Hm.
    destruct (Hlane l0 Hl0) as [_ Hr]. destruct (Hr Hl0v) as [? _]. lia. }
  (* the first lane that holds the earliest offset *)
  destruct (first_nat (fun l => selected !!! l <=? e) 16) as (l & Hl & Hle%Z.leb_le & Hfirst).
  { destruct (vreduce_best id Z.min selected) as [(l1 & Hl1 & Heq) _];
      [intros a b; unfold id; case_cmp; lia|lia|]. rewrite Ls in Hl1. exists l1.
    split; [done|]. apply Z.leb_le. unfold e. rewrite Heq. lia. }
  assert (forall l', (l' < l)%nat -> e < selected !!! l') as Hfirst'.
  { intros l' Hl'. specialize (Hfirst l' Hl'). by apply Z.leb_gt. }
  pose proof (Hmin l Hl). assert (selected !!! l = e) as Hsl by lia.
  assert (v_ s !!! l = vector_ s) as Hlv by (apply Hconv; [done|lia]).
  assert (v_offsets_ s !!! l = e) as Hol by (rewrite <- Hsl; symmetry; by apply Hbest).
  assert (p = lane_index s l) as Hp.
  { unfold p, lane_index. rewrite Hol. f_equal. by apply lane_of_first_smallest_spec. }
  destruct (Hlane l Hl) as [_ Hr]. destruct (Hr Hlv) as (Ho1 & Hrange & Hvecp & Hxp).
  rewrite Hp. split; [lia|]. split; [done|]. split; [done|]. split; [done|].
  intros i Hi Hvi. rewrite Hxp. destruct (Hall i Hi Hvi) as [Hle' Himp]. split; [done|].
  intros Hip. destruct (Z.eq_dec (key (vector_ s)) (key (x i))) as [Heq|]; [|lia]. exfalso.
  destruct (Himp (eq_sym (key_inj _ _ Heq))) as (l' & Hl' & Hlv' & Hidx).
  pose proof (Hmin l' Hl') as Hm'. rewrite (Hbest l' Hl' Hlv') in Hm'. unfold lane_index in Hidx, Hip.
  rewrite Hol in Hip. assert (v_offsets_ s !!! l' = e /\ (l' < l)%nat) as [He' Hlt'] by lia.
  specialize (Hfirst' l' Hlt'). rewrite (Hbest l' Hl' Hlv') in Hfirst'. lia.
Qed.

(** [first_best] of the vector and of the scalar elements give that of all. *)
Lemma first_best_join vec n p q :
  first_best vec n p ->
  all_initial (fun i => negb (vec i)) n /\ key (x p) < key (initial o) \/
  first_best (fun i => negb (vec i)) n q /\ (key (x p) < key (x q) \/ (x p = x q /\ p < q)) ->
  first_best (fun _ => true) n p.
Proof.
  intros (Hp & Hvp & Hall) Hq. split; [done|]. split; [done|]. intros i Hi _.
  destruct (vec i) eqn:Hvi; [by apply Hall|].
  destruct Hq as [[Hini Hk]|[(Hqr & Hvq & Hallq) Hcmp]].
  - rewrite (Hini i) by (done || by rewrite Hvi). lia.
  - destruct (Hallq i Hi) as [Hle Hlt]; [by rewrite Hvi|]. destruct Hcmp as [?|[Heq ?]]; [lia|].
    rewrite Heq. split; [done|]. intros ?. apply Hlt. lia.
Qed.

Lemma first_best_ext vec1 vec2 n p :
  (forall i, 0 <= i < n -> vec1 i = vec2 i) -> first_best vec1 n p -> first_best vec2 n p.
Proof.
  intros He (Hp & Hv & Hall). split; [done|]. split; [by rewrite <- He|].
  intros i Hi Hvi. apply Hall; [done|]. by rewrite He.
Qed.

Lemma first_best_swap vec n q p :
  first_best (fun i => negb (vec i)) n q ->
  all_initial vec n /\ key (x q) < key (initial o) \/
  first_best vec n p /\ (key (x q) < key (x p) \/ (x q = x p /\ q < p)) ->
  first_best (fun _ => true) n q.
Proof.
  intros Hq Hp. apply (first_best_join (fun i => negb (vec i)) n q p Hq).
  destruct Hp as [[Hini Hk]|[Hb Hcmp]]; [left|right].
  - split; [|done]. intros i Hi Hvi. apply Hini; [done|]. by rewrite negb_involutive in Hvi.
  - split; [|done]. apply (first_best_ext vec); [|done]. intros i _. by rewrite negb_involutive.
Qed.

(** [side_index] is the first best element of the image. *)
Lemma side_index_first n s :
  side_inv n s -> 1 <= n < 2 ^ 63 -> first_best (fun _ => true) n (side_index o s).
Proof.
  intros (vec & Hvec & Hsc & Hl & Hfresh) Hn. unfold side_index. rewrite better_key.
  destruct (Z.ltb_spec (key (scalar_ s)) (key (vector_ s))) as [Hlt|Hge].
  { destruct Hsc as [(Heq & _)|(Heq & Hk & Hb)].
    - pose proof Hl as (_ & _ & Hu & _). pose proof (initial_worst _ Hu). rewrite Heq in Hlt. lia.
    - destruct Hl as (_ & _ & _ & [(H1 & _ & _ & Hall)|(_ & (l & Hll & Hlv) & Hlane & Hall)]).
      + apply (first_best_swap vec n (scalar_index_ s) 0); [done|]. left. by rewrite <- Heq.
      + destruct (Hlane l Hll) as [_ Hr]. destruct (Hr Hlv) as (_ & Hpr & Hvp & Hxp).
        split; [by destruct Hb|]. split; [done|]. intros i Hi _. destruct (vec i) eqn:Hvi.
        * rewrite <- Heq. destruct (Hall i Hi Hvi). lia.
        * apply Hb; [done|]. by rewrite Hvi. }
  set (selected := vbslq_u8 _ _ _).
  assert (forall l, (l < 16)%nat -> u8_lanes selected /\ selected !!! l =
    if key (v_ s !!! l) <=? key (vector_ s) then v_offsets_ s !!! l else 255) as Hsel.
  { intros l Hll. by apply (selected_lane vec n). }
  pose proof (Hsel 0%nat ltac:(lia)) as [Hsu _].
  pose proof Hl as (_ & _ & Hu & Hcase).
  destruct Hcase as [(H1 & H2 & H3 & Hall)|(Hk & _)].
  - (* no vector element beats the initial value: every offset is 0 *)
    assert (vreduce Z.min selected = 0) as ->.
    { pose proof Hsu as [Ls _].
      destruct (vreduce_best id Z.min selected) as [(l & Hll & ->) _];
        [intros a b; unfold id; case_cmp; lia|lia|].
      destruct (Hsel l ltac:(lia)) as [_ ->]. rewrite H2, H1, H3, !lookup_dup by lia. case_cmp; lia. }
    cbn [Z.eqb]. destruct Hsc as [(Heq & H0 & Hs)|(Heq & Hks & Hb)].
    + rewrite H0. split; [lia|]. split; [done|]. intros i Hi _.
      assert (forall i, 0 <= i < n -> x i = initial o) as Hx.
      { intros i' Hi'. destruct (vec i') eqn:Hv'; [by apply Hall|]. apply Hs; [done|]. by rewrite Hv'. }
      rewrite (Hx 0), (Hx i) by lia. lia.
    + exfalso. rewrite H1 in Hge. lia.
  - destruct (vector_index_first vec n s selected Hl Hk Hsu) as (He & Hxp & Hp).
    { intros l Hll. by apply Hsel. }
    rewrite (proj2 (Z.eqb_neq _ 0) He).
    set (e := vreduce Z.min selected) in *. set (ln := lane_of_first_smallest selected e) in *.
    assert (block_index_ s ⊞ (e - 1) ⊠ lanes ⊞ ln = block_index_ s + (e - 1) * 16 + ln) as ->.
    { destruct Hp as (? & _). unfold size_add, size_mul, lanes.
      rewrite wrap64_add_l, wrap64_add_mul. apply wrap64_small. lia. }
    set (p := block_index_ s + (e - 1) * 16 + ln) in *. rewrite better_key, <- Hxp in *.
    destruct Hsc as [(Heq & H0 & Hs)|(Heq & Hks & Hb)].
    + rewrite Heq. replace (key (x p) <? key (initial o)) with true by (symmetry; apply Z.ltb_lt; lia).
      simpl. apply (first_best_join vec n p 0 Hp). left. split; [done|lia].
    + rewrite Heq in *.
      destruct (Z.ltb_spec (key (x p)) (key (x (scalar_index_ s)))) as [Hlt|Hge']; simpl.
      * apply (first_best_join vec n p (scalar_index_ s) Hp). right. split; [exact Hb|lia].
      * assert (x p = x (scalar_index_ s)) as Hxe by (apply key_inj; lia).
        destruct (Z.ltb_spec p (scalar_index_ s)).
        -- apply (first_best_join vec n p (scalar_index_ s) Hp). right. split; [exact Hb|]. right. done.
        -- apply (first_best_swap vec n (scalar_index_ s) p Hb). right. split; [exact Hp|]. right. split; [done|].
           destruct Hp as (? & Hvp & _). destruct Hb as (_ & Hvb & _).
           destruct (Z.eq_dec p (scalar_index_ s)) as [He'|]; [|lia].
           rewrite <- He' in Hvb. by rewrite Hvp in Hvb.
Qed.
End side.

(** ** The class on an image *)

Section image.
Variable x : Z -> Z.
Hypothesis x_u8 : forall i, u8 (x i).

Definition inv (n : Z) (m : MinMaxLoc) : Prop :=
  side_inv min_ops id x n (min_ m) /\ side_inv max_ops Z.opp x n (max_ m) /\
  running_index_ m = n /\ vrunning_offset_ m = vdupq_n 1.

Definition block_inv (n j : Z) (m : MinMaxLoc) : Prop :=
  side_block min_ops id x n j (min_ m) /\ side_block max_ops Z.opp x n j (max_ m) /\
  running_index_ m = n /\ vrunning_offset_ m = vdupq_n (j + 1).

Lemma loc_inv_make : inv 0 make.
Proof. split_and!; [apply (side_inv_make _ _ x)|apply (side_inv_make _ _ x)|done|done]. Qed.

Lemma inv_block n m : inv n m -> block_inv n 0 m.
Proof. intros (H1 & H2 & H3 & H4). split_and!; try done; by apply side_block_start. Qed.

Lemma loc_scalar_path_inv n m :
  inv n m -> 0 <= n < 2 ^ 63 -> inv (n + 1) (scalar_path (x n) m).
Proof.
  intros (H1 & H2 & H3 & H4) Hn. unfold scalar_path. rewrite H3. split_and!; cbn [min_ max_ running_index_ vrunning_offset_].
  - apply side_scalar_step; (apply _ || assumption || lia).
  - apply side_scalar_step; (apply _ || assumption || lia).
  - by rewrite size_add_small by lia.
  - done.
Qed.

Lemma vector_at_lanes (val : Z -> Z) n :
  (forall i, val i = x (n + i)) -> forall k,
  u8_lanes (vector_at operation val k) /\
  forall l, (l < 16)%nat -> vector_at operation val k !!! l = x (n + k + Z.of_nat l).
Proof.
  intros Hval k. unfold vector_at. split.
  - split; [done|]. apply Forall_fmap, Forall_forall. intros i _. cbn. rewrite Hval. apply x_u8.
  - intros l Hl. rewrite lookup_total_map by (rewrite length_seqZ; cbn; unfold lanes; lia).
    rewrite (list_lookup_total_correct (seqZ 0 _) l (Z.of_nat l)).
    + rewrite Hval. f_equal. lia.
    + apply lookup_seqZ. cbn. unfold lanes. lia.
Qed.

Lemma loc_vector_path_inv n j m src :
  block_inv n j m -> 0 <= j <= 253 -> u8_lanes src ->
  (forall l, (l < 16)%nat -> src !!! l = x (block_element n j l)) ->
  block_inv n (j + 1) (vector_path src m).
Proof.
  intros (H1 & H2 & H3 & H4) Hj Hu Hs. unfold vector_path. rewrite H4. split_and!; cbn [min_ max_ running_index_ vrunning_offset_].
  - apply side_vector_step; (apply _ || assumption || lia).
  - apply side_vector_step; (apply _ || assumption || lia).
  - done.
  - unfold vaddq_u8, vdupq_n. rewrite zip_with_replicate. f_equal. apply Z.mod_small. lia.
Qed.

Lemma block_finished_inv n j m :
  block_inv n j m -> 0 <= n -> 1 <= j <= 254 -> n + j * 16 < 2 ^ 63 ->
  inv (n + j * 16) (on_block_finished j m).
Proof.
  intros (H1 & H2 & H3 & H4) Hn Hj Hle. unfold on_block_finished. rewrite H3. split_and!.
  - apply side_block_end; (apply _ || assumption || lia).
  - apply side_block_end; (apply _ || assumption || lia).
  - cbn [running_index_]. unfold lanes. rewrite size_mul_small by lia. by rewrite size_add_small by lia.
  - done.
Qed.

(** One row, from element [n] of the image on. *)
Lemma loc_process_row_inv load sizeof n len c m :
  0 <= n -> 0 <= len -> n + len < 2 ^ 63 ->
  stands_on load sizeof (fun k => x (n + k)) len 0 c -> inv n m ->
  exists m', process_row_blocks operation load sizeof len c m = Some m' /\ inv (n + len) m'.
Proof.
  intros Hn Hlen Hle Hs Hinv.
  pose proof (vector_at_lanes (fun k => x (n + k)) n (fun _ => eq_refl)) as Hvec.
  destruct (process_row_blocks_ind operation load sizeof (fun k => x (n + k)) ltac:(cbn; unfold lanes; lia)
    (fun k => inv (n + k)) (fun k j => block_inv (n + k) j) len) with (c := c) (s := m)
    as (m' & Hrun & Hm'); try done.
  - lia.
  - intros k s Hk. by apply inv_block.
  - intros k j s Hk Hj Hmax Hkl HB. cbn [Operations.vector_path operation].
    change (Operations.max_vectors_per_block operation) with 254 in Hmax.
    assert (forall i, 0 <= i -> forall l, (l < 16)%nat ->
      vector_at operation (fun k => x (n + k)) (k + i * num_lanes operation) !!! l =
      x (block_element (n + k) i l)) as Hel.
    { intros i Hi l Hl. rewrite (proj2 (Hvec _) l Hl). unfold block_element. f_equal. cbn. unfold lanes. lia. }
    replace (j + 2) with (j + 1 + 1) by lia.
    apply loc_vector_path_inv; [|lia|apply Hvec|apply Hel; lia].
    apply loc_vector_path_inv; [done|lia|apply Hvec|apply Hel; lia].
  - intros k j s Hk Hj Hkl HB. change (Operations.max_vectors_per_block operation) with 254 in Hj.
    change (num_lanes operation) with 16 in *. cbn [Operations.on_block_finished operation].
    replace (n + (k + j * 16)) with (n + k + j * 16) by lia.
    apply block_finished_inv; [done|lia|lia|lia].
  - intros k s Hk HI. replace (n + (k + 1)) with (n + k + 1) by lia. cbn.
    apply loc_scalar_path_inv; [done|lia].
  - by rewrite Z.add_0_r.
  - by exists m'.
Qed.
End image.

(** The source image of [min_max_loc]: bytes, one channel. *)
Definition byte_rows (src src_stride : Z) : Rows :=
  {| ptr_ := src; stride_ := src_stride; channels_ := 1; sizeof_ := 1 |}.

Lemma stands_on_rows load rows width n len c :
  channels_ rows = 1 -> 0 <= len -> columns_of rows width n len c ->
  stands_on load (sizeof_ rows) (fun k => load (element_address rows width (n + k))) len 0 c.
Proof.
  intros Hch Hlen [Hc Hp]. split; [by rewrite Hc|]. intros i Hi Hlt. simpl in Hlt.
  rewrite <- Hp by lia. f_equal. rewrite Hch. lia.
Qed.

Lemma apply_block_operation_inv load src src_stride width height :
  (forall a, u8 (load a)) ->
  valid_rows (byte_rows src src_stride) width height ->
  0 <= width -> 0 <= height -> width * height < 2 ^ 63 ->
  let x n := load (element_address (byte_rows src src_stride) width n) in
  exists m, apply_block_operation_by_rows operation load
    {| width_ := width; height_ := height |} (byte_rows src src_stride) make = Some m /\
    inv x (width * height) m.
Proof.
  intros Hload Hv Hw Hh Hwh x. unfold apply_block_operation_by_rows.
  apply (zip_rows_ind (fun n os => exists m, os = Some m /\ inv x n m)); [by constructor|lia|lia|lia| |].
  - intros n len cols s Hn Hlen Hle (m & -> & Hm) Hf.
    apply Forall2_cons_inv_l in Hf as (c & cols' & Hc & Hf & ->).
    apply Forall2_nil_inv_l in Hf as ->.
    apply (loc_process_row_inv x (fun i => Hload _) load _ n len c m); [lia|lia|lia| |done].
    by apply stands_on_rows.
  - exists make. split; [done|]. apply loc_inv_make.
Qed.

(** Offset of element [n] from the start of the image. *)
Lemma offset_for_index_address src src_stride width height n :
  valid_rows (byte_rows src src_stride) width height ->
  0 < width -> width <= src_stride \/ height = 1 -> 0 <= n < width * height ->
  offset_for_index (byte_rows src src_stride) n width =
  element_address (byte_rows src src_stride) width n - src.
Proof.
  intros (? & ? & ? & ? & ? & ?) Hw Hst Hn. cbn in *. unfold offset_for_index, element_address. cbn.
  pose proof (Z.mod_pos_bound n width ltac:(lia)).
  assert (0 <= n / width) by (apply Z.div_pos; lia).
  assert (n / width <= height - 1) by (assert (n / width < height) by (apply Z.div_lt_upper_bound; lia); lia).
  assert (n / width * src_stride <= (height - 1) * src_stride) by (apply Z.mul_le_mono_nonneg_r; lia).
  assert (0 <= n / width * src_stride) by nia.
  assert (height * src_stride = (height - 1) * src_stride + src_stride) by lia.
  rewrite (size_mul_small (n / width)) by lia. rewrite (size_mul_small (n mod width)) by lia.
  rewrite size_add_small; [lia|]. destruct Hst as [Hst| ->]; [lia|].
  assert (n / width = 0) as -> by lia. lia.
Qed.

(** An image that passes the checks of [min_max_loc]. *)
Definition good_bytes (src src_stride width height : Z) : Prop :=
  src <> 0 /\ valid_rows (byte_rows src src_stride) width height /\
  0 < width /\ 0 < height /\ width * height <= KLEIDICV_MAX_IMAGE_PIXELS /\
  (width <= src_stride \/ height = 1).

Lemma min_max_loc_run load src src_stride width height p_min p_max :
  (forall a, u8 (load a)) -> good_bytes src src_stride width height ->
  let at_element n := element_address (byte_rows src src_stride) width n in
  exists p q,
    first_best id (fun n => load (at_element n)) (fun _ => true) (width * height) p /\
    first_best Z.opp (fun n => load (at_element n)) (fun _ => true) (width * height) q /\
    min_max_loc load src src_stride width height p_min p_max =
      Some (KLEIDICV_OK, (if p_min then Some (at_element p - src) else None,
                          if p_max then Some (at_element q - src) else None)).
Proof.
  intros Hload (Hsrc & Hv & Hw & Hh & Hpix & Hst) at_element.
  unfold KLEIDICV_MAX_IMAGE_PIXELS in Hpix. change (Z.shiftl 1 48 - 1) with (2 ^ 48 - 1) in Hpix.
  destruct (apply_block_operation_inv load src src_stride width height Hload Hv ltac:(lia) ltac:(lia)
    ltac:(lia)) as (m & Hrun & Hmin & Hmax & _).
  apply side_index_first in Hmin; [|apply _|nia]. apply side_index_first in Hmax; [|apply _|nia].
  exists (min_index m), (max_index m). split; [exact Hmin|]. split; [exact Hmax|].
  unfold min_max_loc, check_pointer_and_stride, check_image_size, mul_overflow. cbn [Z.eqb Pos.eqb].
  rewrite (proj2 (Z.eqb_neq src 0)) by done. cbn [guard_error].
  rewrite size_mul_small by lia. unfold size_max, KLEIDICV_MAX_IMAGE_PIXELS.
  change (Z.shiftl 1 48 - 1) with (2 ^ 48 - 1).
  rewrite (proj2 (Z.ltb_ge _ _)) by lia. rewrite (proj2 (Z.ltb_ge _ _)) by lia.
  rewrite (proj2 (Z.eqb_neq width 0)), (proj2 (Z.eqb_neq height 0)) by lia. cbn [orb].
  fold (byte_rows src src_stride). rewrite Hrun.
  destruct Hmin as (Hmin & _), Hmax as (Hmax & _). unfold min_index, max_index.
  rewrite !(offset_for_index_address src src_stride width height) by done. done.
Qed.

(** C20: [min_max_loc] of a valid image of bytes ends with [KLEIDICV_OK] and gives
    the byte offsets of the first minimum and of the first maximum in row-major
    order, whatever the split into blocks, vectors of 16 lanes and scalars, and
    whether or not the rows are contiguous; an output that is not asked for is not
    written. *)
Theorem min_max_loc_correct load src src_stride width height p_min p_max :
  (forall a, u8 (load a)) -> good_bytes src src_stride width height ->
  let at_element n := element_address (byte_rows src src_stride) width n in
  exists p q, 0 <= p < width * height /\ 0 <= q < width * height /\
    min_max_loc load src src_stride width height p_min p_max =
      Some (KLEIDICV_OK, (if p_min then Some (at_element p - src) else None,
                          if p_max then Some (at_element q - src) else None)) /\
    (forall n, 0 <= n < width * height ->
      load (at_element p) <= load (at_element n) <= load (at_element q) /\
      (n < p -> load (at_element p) < load (at_element n)) /\
      (n < q -> load (at_element n) < load (at_element q))).
Proof.
  intros Hload Himg at_element.
  destruct (min_max_loc_run load src src_stride width height p_min p_max Hload Himg)
    as (p & q & (Hp & _ & Hpall) & (Hq & _ & Hqall) & Hrun).
  exists p, q. split; [done|]. split; [done|]. split; [exact Hrun|].
  intros n Hn. destruct (Hpall n Hn eq_refl) as [Hp1 Hp2], (Hqall n Hn eq_refl) as [Hq1 Hq2].
  unfold id in *. subst at_element. cbn beta. split_and!; try lia.
Qed.

Lemma min_max_loc_correct_witness :
  let load a := (a * 37) mod 256 in
  min_max_loc load 1000 20 17 3 true true = Some (KLEIDICV_OK, (Some 24, Some 10)) /\
  exists p q, 0 <= p < 51 /\ 0 <= q < 51 /\
    min_max_loc load 1000 20 17 3 true true =
      Some (KLEIDICV_OK, (Some (element_address (byte_rows 1000 20) 17 p - 1000),
                          Some (element_address (byte_rows 1000 20) 17 q - 1000))).
Proof.
  split; [vm_compute; reflexivity|].
  destruct (min_max_loc_correct (fun a => (a * 37) mod 256) 1000 20 17 3 true true) as
    (p & q & Hp & Hq & Heq & _);
    [intros a; apply Z.mod_pos_bound; lia|
     split_and!; [done|repeat split; cbn; lia|lia|lia|vm_compute; congruence|lia]|].
  exists p, q. split; [exact Hp|]. split; [exact Hq|]. exact Heq.
Defined.
