(* ===== verification/MinMax.v ===== *)
(** * Minimum and maximum of an image

    [min_max_neon.cpp]: the class [MinMax<ScalarType>] for the integer types, its
    unrolled row operation and the entry point [min_max]. *)

From S2P Require Import Prelude CTypes Utils Loops Rows Operations MinMaxLoc.

(** ** The class *)

Record MinMax := { vmin_ : list Z; vmax_ : list Z; min_s : Z; max_s : Z }.

Section class.
Variable t : int_type.

(** Lanes of a 128-bit vector. *)
Definition lane_count : Z := 128 / width t.
Definition vdup (x : Z) : list Z := replicate (Z.to_nat lane_count) x.

Definition make : MinMax :=
  {| vmin_ := vdup (int_max t); vmax_ := vdup (int_min t); min_s := int_max t; max_s := int_min t |}.

Definition vector_path (src : list Z) (m : MinMax) : MinMax :=
  {| vmin_ := zip_with Z.min (vmin_ m) src; vmax_ := zip_with Z.max (vmax_ m) src;
     min_s := min_s m; max_s := max_s m |}.

Definition scalar_path (src : Z) (m : MinMax) : MinMax :=
  {| vmin_ := vmin_ m; vmax_ := vmax_ m;
     min_s := Z.min (min_s m) src; max_s := Z.max (max_s m) src |}.

Definition get_min (m : MinMax) : Z := Z.min (min_s m) (vreduce Z.min (vmin_ m)).
Definition get_max (m : MinMax) : Z := Z.max (max_s m) (vreduce Z.max (vmax_ m)).

(** [MinMax] is not a block operation: the last two fields are not used. *)
Definition operation : Operation MinMax :=
  {| num_lanes := lane_count; Operations.vector_path := vector_path;
     Operations.scalar_path := scalar_path;
     Operations.max_vectors_per_block := 0; Operations.on_block_finished := fun _ m => m |}.

(** [apply_operation_by_rows]. *)
Definition apply_operation_by_rows (load : Z -> Z) (rect : Rectangle) (rows : Rows) (s : MinMax)
    : MinMax :=
  zip_rows (fun length cols s =>
    match cols with
    | [c] => process_row operation load (sizeof_ rows) length c s
    | _ => s
    end) rect [rows] s.

Definition type_rows (src src_stride : Z) : Rows :=
  {| ptr_ := src; stride_ := src_stride; channels_ := 1; sizeof_ := width t / 8 |}.

(** [min_max]: the error, and the values when they are written. *)
Definition min_max (load : Z -> Z) (src src_stride width height : Z) (p_min p_max : bool)
    : kleidicv_error_t * (option Z * option Z) :=
  match check_pointer_and_stride (Utils.width t / 8) src src_stride height
      ?> check_image_size width height with
  | KLEIDICV_OK =>
      if (width =? 0) || (height =? 0) then (KLEIDICV_ERROR_RANGE, (None, None))
      else
        let m := apply_operation_by_rows load {| width_ := width; height_ := height |}
                   (type_rows src src_stride) make in
        (KLEIDICV_OK, (if p_min then Some (get_min m) else None,
                       if p_max then Some (get_max m) else None))
  | err => (err, (None, None))
  end.
End class.

(** ** One of the two results

    [cells] are the lanes and the scalar; each holds the initial value or an
    element, and each element is covered by a cell that is at least as good. *)
Section cells.
Variables (x key : Z -> Z) (pick : Z -> Z -> Z) (initial : Z).
Hypothesis pick_key : forall a b, pick a b = if key b <? key a then b else a.

Definition cell_ok (n c : Z) : Prop := c = initial \/ exists i, 0 <= i < n /\ c = x i.

Definition cells_inv (n : Z) (lanes : list Z) (scalar : Z) : Prop :=
  Forall (cell_ok n) lanes /\ cell_ok n scalar /\
  forall i, 0 <= i < n -> key scalar <= key (x i) \/ Exists (fun c => key c <= key (x i)) lanes.

Lemma cell_ok_mono n n' c : n <= n' -> cell_ok n c -> cell_ok n' c.
Proof. intros Hle [->|(i & Hi & ->)]; [by left|right; exists i; split; [lia|done]]. Qed.

Lemma pick_ok n a b : cell_ok n a -> cell_ok n b -> cell_ok n (pick a b).
Proof. intros. rewrite pick_key. by destruct (_ <? _). Qed.

Lemma pick_le a b : key (pick a b) <= key a /\ key (pick a b) <= key b.
Proof. rewrite pick_key. destruct (Z.ltb_spec (key b) (key a)); lia. Qed.

Lemma cells_make k : cells_inv 0 (replicate k initial) initial.
Proof. split_and!; [apply Forall_replicate; by left|by left|intros; lia]. Qed.

Lemma cells_scalar n lanes scalar :
  0 <= n -> cells_inv n lanes scalar -> cells_inv (n + 1) lanes (pick scalar (x n)).
Proof.
  intros Hn (Hl & Hs & Hc). split_and!.
  - eapply Forall_impl; [exact Hl|]. intros c. apply cell_ok_mono. lia.
  - apply pick_ok; [by apply (cell_ok_mono n); [lia|]|]. right. exists n. split; [lia|done].
  - intros i Hi. pose proof (pick_le scalar (x n)). destruct (Z.eq_dec i n) as [->|]; [left; lia|].
    destruct (Hc i ltac:(lia)); [left; lia|by right].
Qed.

Lemma zip_pick_ok n lanes src :
  Forall (cell_ok n) lanes -> Forall (cell_ok n) src -> Forall (cell_ok n) (zip_with pick lanes src).
Proof.
  intros Hl. revert src. induction Hl as [|a lanes Ha _ IH]; intros src Hs; [constructor|].
  destruct Hs as [|b src Hb Hs]; [constructor|]. constructor; [by apply pick_ok|by apply IH].
Qed.

Lemma zip_pick_covers z lanes src :
  length lanes = length src ->
  Exists (fun c => key c <= z) lanes \/ Exists (fun c => key c <= z) src ->
  Exists (fun c => key c <= z) (zip_with pick lanes src).
Proof.
  revert src. induction lanes as [|a lanes IH]; intros [|b src] Hlen Hex; try done.
  - destruct Hex as [H|H]; by apply Exists_nil in H.
  - pose proof (pick_le a b). simpl. rewrite !Exists_cons in Hex. apply Exists_cons.
    destruct Hex as [[?|?]|[?|?]]; [left; lia|right; apply IH; auto|left; lia|right; apply IH; auto].
Qed.

Lemma cells_vector n lanes scalar k (Hk : 0 <= k) :
  0 <= n -> length lanes = Z.to_nat k -> cells_inv n lanes scalar ->
  cells_inv (n + k) (zip_with pick lanes (map (fun i => x (n + i)) (seqZ 0 k))) scalar.
Proof.
  intros Hn Hlen (Hl & Hs & Hc). split_and!.
  - apply zip_pick_ok.
    + eapply Forall_impl; [exact Hl|]. intros c. apply cell_ok_mono. lia.
    + apply Forall_fmap, Forall_forall. intros i Hi%elem_of_seqZ. right. exists (n + i). split; [lia|done].
  - apply (cell_ok_mono n); [lia|done].
  - intros i Hi. destruct (Z.lt_ge_cases i n) as [Hlt|Hge].
    + destruct (Hc i ltac:(lia)) as [?|Hex]; [by left|right].
      apply zip_pick_covers; [by rewrite Hlen, length_map, length_seqZ|by left].
    + right. apply zip_pick_covers; [by rewrite Hlen, length_map, length_seqZ|right].
      apply Exists_fmap, Exists_exists. exists (i - n). split; [apply elem_of_seqZ; lia|].
      cbn. replace (n + (i - n)) with i by lia. lia.
Qed.

(** The reduction of the cells is the best element. *)
Lemma cells_result n lanes scalar :
  0 < n -> (0 < length lanes)%nat -> (forall i, key (x i) <= key initial) ->
  (forall a b, key a = key b -> a = b) ->
  cells_inv n lanes scalar ->
  let r := pick scalar (vreduce pick lanes) in
  (forall i, 0 <= i < n -> key r <= key (x i)) /\ exists i, 0 <= i < n /\ r = x i.
Proof.
  intros Hn Hlen Hini Hinj (Hl & Hs & Hc) r.
  destruct (vreduce_best key pick lanes pick_key Hlen) as [(l & Hll & Heq) Hall].
  pose proof (pick_le scalar (vreduce pick lanes)) as Hr. fold r in Hr.
  assert (forall i, 0 <= i < n -> key r <= key (x i)) as Hle.
  { intros i Hi. destruct (Hc i Hi) as [?|Hex]; [lia|].
    apply Exists_exists in Hex as (c & Hin & Hcx). apply list_elem_of_lookup in Hin as [l' Hl'].
    pose proof (Hall l' ltac:(by eapply lookup_lt_Some)) as Hb.
    rewrite (list_lookup_total_correct _ _ _ Hl') in Hb. lia. }
  split; [done|]. assert (cell_ok n r) as [Hr0|Hr0]; [|exists 0|done].
  - apply pick_ok; [done|]. rewrite Heq.
    eapply (Forall_lookup_1 (cell_ok n) lanes l); [done|]. by apply list_lookup_lookup_total_lt.
  - split; [lia|]. apply Hinj. pose proof (Hle 0 ltac:(lia)). pose proof (Hini 0). rewrite Hr0 in *. lia.
Qed.
End cells.

(** ** The class on an image *)

Section image.
Variables (t : int_type) (x : Z -> Z).
Hypothesis t_width : width t = 8 \/ width t = 16 \/ width t = 32 \/ width t = 64.

Lemma lane_count_pos : 1 <= lane_count t <= 16.
Proof. unfold lane_count. destruct t_width as [H|[H|[H|H]]]; rewrite H; vm_compute; intuition congruence. Qed.

Definition inv (n : Z) (m : MinMax) : Prop :=
  length (vmin_ m) = Z.to_nat (lane_count t) /\ length (vmax_ m) = Z.to_nat (lane_count t) /\
  cells_inv x id (int_max t) n (vmin_ m) (min_s m) /\
  cells_inv x Z.opp (int_min t) n (vmax_ m) (max_s m).

Lemma min_key a b : Z.min a b = if id b <? id a then b else a.
Proof. unfold id. case_cmp; lia. Qed.

Lemma max_key a b : Z.max a b = if - b <? - a then b else a.
Proof. case_cmp; lia. Qed.

Lemma inv_make : inv 0 (make t).
Proof. split_and!; [apply length_replicate|apply length_replicate|apply cells_make|apply cells_make]. Qed.

Lemma scalar_path_inv n m : 0 <= n -> inv n m -> inv (n + 1) (scalar_path (x n) m).
Proof.
  intros Hn (H1 & H2 & H3 & H4). split_and!; [done|done| |]; cbn [vmin_ vmax_ min_s max_s scalar_path].
  - apply cells_scalar; [apply min_key|done..].
  - apply cells_scalar; [apply max_key|done..].
Qed.

Lemma vector_path_inv n m :
  0 <= n -> inv n m ->
  inv (n + lane_count t) (vector_path (map (fun i => x (n + i)) (seqZ 0 (lane_count t))) m).
Proof.
  intros Hn (H1 & H2 & H3 & H4). pose proof lane_count_pos.
  split_and!; cbn [vmin_ vmax_ min_s max_s vector_path].
  - rewrite length_zip_with, length_map, length_seqZ. lia.
  - rewrite length_zip_with, length_map, length_seqZ. lia.
  - apply cells_vector; [apply min_key|lia|done..].
  - apply cells_vector; [apply max_key|lia|done..].
Qed.

Lemma process_row_inv load sizeof n len c m :
  0 <= n -> 0 <= len < 2 ^ 64 ->
  stands_on load sizeof (fun k => x (n + k)) len 0 c -> inv n m ->
  inv (n + len) (process_row (operation t) load sizeof len c m).
Proof.
  intros Hn Hlen Hs Hinv. pose proof lane_count_pos.
  apply (process_row_ind (operation t) load sizeof (fun k => x (n + k))) with
    (I := fun k => inv (n + k)); [cbn; lia|lia|done| | |by rewrite Z.add_0_r].
  - intros k s Hk Hle HI. cbn in *. rewrite Z.add_assoc.
    unfold vector_at. cbn. rewrite (map_ext _ (fun i => x (n + k + i))) by (intros; f_equal; lia).
    apply vector_path_inv; [lia|done].
  - intros k s Hk HI. cbn. rewrite Z.add_assoc. apply scalar_path_inv; [lia|done].
Qed.
End image.

Lemma apply_operation_inv t load src src_stride width height :
  Utils.width t = 8 \/ Utils.width t = 16 \/ Utils.width t = 32 \/ Utils.width t = 64 ->
  valid_rows (type_rows t src src_stride) width height ->
  0 <= width -> 0 <= height -> width * height < 2 ^ 64 ->
  let x n := load (element_address (type_rows t src src_stride) width n) in
  inv t x (width * height) (apply_operation_by_rows t load
    {| width_ := width; height_ := height |} (type_rows t src src_stride) (make t)).
Proof.
  intros Ht Hv Hw Hh Hwh x. unfold apply_operation_by_rows.
  apply (zip_rows_ind (inv t x)); [by constructor|lia|lia|lia| |apply inv_make].
  intros n len cols s Hn Hlen Hle Hm Hf.
  apply Forall2_cons_inv_l in Hf as (c & cols' & Hc & Hf & ->).
  apply Forall2_nil_inv_l in Hf as ->.
  apply process_row_inv; [done|lia|lia| |done]. by apply stands_on_rows.
Qed.

(** An image that passes the checks of [min_max]. *)
Definition good_image (w src src_stride width height : Z) (t : int_type) : Prop :=
  src <> 0 /\ src_stride mod (w / 8) = 0 /\ valid_rows (type_rows t src src_stride) width height /\
  0 <= width /\ 0 <= height /\ width * height <= KLEIDICV_MAX_IMAGE_PIXELS.

Lemma image_limit : KLEIDICV_MAX_IMAGE_PIXELS = 2 ^ 48 - 1.
Proof. reflexivity. Qed.

Lemma min_max_checks w src src_stride width height t :
  is_width w -> good_image w src src_stride width height t ->
  check_pointer_and_stride (w / 8) src src_stride height ?> check_image_size width height = KLEIDICV_OK.
Proof.
  intros Hw (Hsrc & Hst & _ & ? & ? & ?). apply guard_error_ok.
  split; [|apply check_image_size_iff; nia].
  unfold check_pointer_and_stride. rewrite (proj2 (Z.eqb_neq src 0)) by done.
  assert (exists k, 0 <= k < 64 /\ w / 8 = 2 ^ k) as (k & Hk & Hwk).
  { destruct Hw as [->|[->|[->| ->]]]; [exists 0|exists 1|exists 2|exists 3]; done. }
  rewrite Hwk in *. rewrite is_misaligned_spec, Hst by done.
  rewrite andb_false_r. by destruct (_ =? 1).
Qed.

(** The least and the greatest element of a non-empty image. *)
Definition extremes (x : Z -> Z) (n lo hi : Z) : Prop :=
  (exists p, 0 <= p < n /\ lo = x p) /\ (exists q, 0 <= q < n /\ hi = x q) /\
  forall i, 0 <= i < n -> lo <= x i <= hi.

Lemma extremes_unique x n lo hi lo' hi' :
  extremes x n lo hi -> extremes x n lo' hi' -> lo = lo' /\ hi = hi'.
Proof.
  intros ((p & Hp & ->) & (q & Hq & ->) & H1) ((p' & Hp' & ->) & (q' & Hq' & ->) & H2).
  pose proof (H1 p' Hp'). pose proof (H1 q' Hq'). pose proof (H2 p Hp). pose proof (H2 q Hq). lia.
Qed.

Lemma min_max_run sg w load src src_stride width height p_min p_max :
  let t := IntType sg w in
  is_width w -> (forall a, in_type t (load a)) ->
  good_image w src src_stride width height t -> 0 < width * height ->
  exists lo hi,
    min_max t load src src_stride width height p_min p_max =
      (KLEIDICV_OK, (if p_min then Some lo else None, if p_max then Some hi else None)) /\
    extremes (fun n => load (element_address (type_rows t src src_stride) width n)) (width * height) lo hi.
Proof.
  intros t Hw Hload Himg Hpos. unfold min_max. cbn [Utils.width t].
  rewrite (min_max_checks w src src_stride width height t Hw Himg).
  destruct Himg as (Hsrc & Hst & Hv & Hwd & Hh & Hpix). rewrite image_limit in Hpix.
  rewrite (proj2 (Z.eqb_neq width 0)), (proj2 (Z.eqb_neq height 0)) by nia. cbn [orb].
  destruct (apply_operation_inv t load src src_stride width height Hw Hv Hwd Hh ltac:(lia))
    as (L1 & L2 & Hmin & Hmax).
  set (m := apply_operation_by_rows _ _ _ _ _) in *. pose proof (lane_count_pos t Hw).
  set (x := fun n => load _) in *.
  assert (forall i, in_type t (x i)) as Hx by (intros i; apply Hload).
  exists (get_min m), (get_max m). split; [done|].
  apply (cells_result x id Z.min _ min_key) in Hmin as [Hmin Hp];
    [|done|lia|intros i; apply Hx|done].
  apply (cells_result x Z.opp Z.max _ max_key) in Hmax as [Hmax Hq];
    [|done|lia|intros i; destruct (Hx i); lia|lia].
  split; [exact Hp|]. split; [exact Hq|]. intros n Hn. specialize (Hmin n Hn). specialize (Hmax n Hn).
  unfold id, get_min, get_max in *. lia.
Qed.

(** [min_max] of a valid image of any of the integer types ends with
    [KLEIDICV_OK] and gives the minimum and the maximum of all the elements; an
    empty image is refused with [KLEIDICV_ERROR_RANGE]. *)
Theorem min_max_correct sg w load src src_stride width height p_min p_max :
  let t := IntType sg w in
  is_width w -> (forall a, in_type t (load a)) -> good_image w src src_stride width height t ->
  let x n := load (element_address (type_rows t src src_stride) width n) in
  (width * height = 0 ->
   min_max t load src src_stride width height p_min p_max = (KLEIDICV_ERROR_RANGE, (None, None))) /\
  (0 < width * height -> exists p q, 0 <= p < width * height /\ 0 <= q < width * height /\
   min_max t load src src_stride width height p_min p_max =
     (KLEIDICV_OK, (if p_min then Some (x p) else None, if p_max then Some (x q) else None)) /\
   forall n, 0 <= n < width * height -> x p <= x n <= x q).
Proof.
  intros t Hw Hload Himg x. split.
  - intros H0. unfold min_max. cbn [Utils.width t].
    rewrite (min_max_checks w src src_stride width height t Hw Himg).
    assert ((width =? 0) || (height =? 0) = true) as ->; [|done].
    apply orb_true_iff. rewrite !Z.eqb_eq. nia.
  - intros Hpos. destruct (min_max_run sg w load src src_stride width height p_min p_max Hw Hload Himg Hpos)
      as (lo & hi & Hrun & (p & Hp & ->) & (q & Hq & ->) & Hall).
    exists p, q. split; [done|]. split; [done|]. split; [exact Hrun|exact Hall].
Qed.

Lemma min_max_correct_witness :
  let load a := (a * 37) mod 256 - 128 in
  min_max int8 load 1000 40 35 3 true true = (KLEIDICV_OK, (Some (-128), Some 127)) /\
  exists p q, 0 <= p < 105 /\ 0 <= q < 105 /\
    min_max int8 load 1000 40 35 3 true true =
      (KLEIDICV_OK, (Some (load (element_address (type_rows int8 1000 40) 35 p)),
                     Some (load (element_address (type_rows int8 1000 40) 35 q)))).
Proof.
  split; [vm_compute; reflexivity|].
  destruct (min_max_correct true 8 (fun a => (a * 37) mod 256 - 128) 1000 40 35 3 true true) as
    (_ & Hc); [by left| |split_and!; [done|done|repeat split; cbn; lia|lia|lia|vm_compute; congruence]|].
  - intros a. unfold in_type. cbn. pose proof (Z.mod_pos_bound (a * 37) 256 ltac:(lia)). lia.
  - destruct (Hc ltac:(lia)) as (p & q & Hp & Hq & Heq & _).
    exists p, q. split; [exact Hp|]. split; [exact Hq|]. exact Heq.
Defined.
