(* ===== verification/ThreadMinMax.v ===== *)
(** * Threaded minimum and maximum

    [parallel_min_max] and [parallel_min_max_loc] of [kleidicv_thread.cpp]: each
    batch of rows leaves its result in the array cell of its first row, and the
    caller reduces the arrays.  The single-threaded functions are those of
    [MinMax] and [MinMaxLoc]; [load] is the memory that holds the image. *)

From S2P Require Import Prelude CTypes Utils Rows Operations MinMaxLoc MinMax ParallelBatches.

(** ** Definitions *)

(** Pairs of result arrays, and of results. *)
Definition arrays : Type := (Z -> Z) * (Z -> Z).

(** A result is stored when the function writes it. *)
Definition store_result (values : Z -> Z) (i : Z) (r : option Z) : Z -> Z :=
  match r with Some v => upd values i v | None => values end.

Section min_max.
Variables (t : int_type) (load : Z -> Z).
Variable parallel : range_callback arrays -> Z -> arrays -> kleidicv_error_t * arrays.
(** Whether [HeapArray::allocate_and_fill] succeeds for this many elements. *)
Variable allocates : Z -> bool.

(** [reduce_min] and [reduce_max]. *)
Definition reduce_min (values : Z -> Z) (count : Z) : Z :=
  for_range 0 count (fun i result => Z.min result (values i)) (int_max t).
Definition reduce_max (values : Z -> Z) (count : Z) : Z :=
  for_range 0 count (fun i result => Z.max result (values i)) (int_min t).

Definition min_max_callback (src src_stride width : Z) (p_min p_max : bool)
    : range_callback arrays := fun begin end_ '(min_values, max_values) =>
  let size := Utils.width t / 8 in
  let '(err, (min_value, max_value)) :=
    min_max t load (src + size * (begin ⊠ (src_stride / size))) src_stride width
      (end_ ⊟ begin) p_min p_max in
  (err, (store_result min_values begin min_value, store_result max_values begin max_value)).

Definition parallel_min_max (src src_stride width height : Z) (p_min p_max : bool)
    : kleidicv_error_t * (option Z * option Z) :=
  let value_count := Z.max 1 height in
  if (p_min && negb (allocates value_count)) || (p_max && negb (allocates value_count))
  then (KLEIDICV_ERROR_ALLOCATION, (None, None))
  else
    let '(return_val, (min_values, max_values)) :=
      parallel_batches parallel (min_max_callback src src_stride width p_min p_max) height 1
        (fun _ => int_max t, fun _ => int_min t) in
    (return_val,
      (if p_min then Some (reduce_min min_values height) else None,
       if p_max then Some (reduce_max max_values height) else None)).
End min_max.

Section min_max_loc.
Variable load : Z -> Z.
Variable parallel : range_callback arrays -> Z -> arrays -> kleidicv_error_t * arrays.
Variable allocates : Z -> bool.

(** [reduce_offset] on bytes, with the comparison [compare]; [None] is a read
    through a null [src]. *)
Definition reduce_offset (src src_stride : Z) (offsets : Z -> Z) (count : Z)
    (compare : Z -> Z -> bool) : option Z :=
  for_range 0 count (fun i result =>
    match result with
    | None => None
    | Some result =>
        if src =? 0 then None
        else
          let offset := offsets i ⊞ i ⊠ src_stride in
          Some (if compare (load (src + offset)) (load (src + result)) then offset else result)
    end) (Some 0).

(** [min_max_loc] keeps its outputs when its blocks never end, which
    [min_max_loc_correct] excludes for a valid image. *)
Definition min_max_loc_callback (src src_stride width : Z) (p_min p_max : bool)
    : range_callback arrays := fun begin end_ '(min_offsets, max_offsets) =>
  match min_max_loc load (src + begin ⊠ src_stride) src_stride width (end_ ⊟ begin) p_min p_max with
  | None => (KLEIDICV_ERROR_RANGE, (min_offsets, max_offsets))
  | Some (err, (min_offset, max_offset)) =>
      (err, (store_result min_offsets begin min_offset, store_result max_offsets begin max_offset))
  end.

Definition requested (p : bool) (r : option Z) : option (option Z) :=
  if p then match r with Some v => Some (Some v) | None => None end else Some None.

Definition parallel_min_max_loc (src src_stride width height : Z) (p_min p_max : bool)
    : option (kleidicv_error_t * (option Z * option Z)) :=
  let value_count := Z.max 1 height in
  if (p_min && negb (allocates value_count)) || (p_max && negb (allocates value_count))
  then Some (KLEIDICV_ERROR_ALLOCATION, (None, None))
  else
    let '(return_val, (min_offsets, max_offsets)) :=
      parallel_batches parallel (min_max_loc_callback src src_stride width p_min p_max) height 1
        (fun _ => 0, fun _ => 0) in
    match requested p_min (reduce_offset src src_stride min_offsets height Z.ltb),
          requested p_max (reduce_offset src src_stride max_offsets height Z.gtb) with
    | Some min_offset, Some max_offset => Some (return_val, (min_offset, max_offset))
    | _, _ => None
    end.
End min_max_loc.

(** ** Schedules of non-empty ranges *)

Section schedules.
Variables (n : Z) (schedule : list (Z * Z)).
Hypothesis schedule_covers : covers n schedule.
Hypothesis schedule_non_empty : no_empty_range schedule.

Lemma schedule_range b e : (b, e) ∈ schedule -> 0 <= b < e /\ e <= n.
Proof.
  intros Hin. destruct schedule_covers as [Hr _].
  pose proof (proj1 (Forall_forall _ _) Hr _ Hin). pose proof (proj1 (Forall_forall _ _) schedule_non_empty _ Hin).
  simpl in *. lia.
Qed.

Lemma filter_twice {A} (f : A -> bool) (l1 l2 l3 : list A) (u v : A) :
  f u = true -> f v = true -> length (List.filter f (l1 ++ u :: l2 ++ v :: l3)) <> 1%nat.
Proof.
  intros Hu Hv. rewrite List.filter_app. cbn [List.filter]. rewrite Hu, List.filter_app.
  cbn [List.filter]. rewrite Hv, length_app. cbn [length]. rewrite length_app. cbn [length]. lia.
Qed.

(** Two ranges with a task in common are the same occurrence. *)
Lemma schedule_disjoint l1 l2 l3 u v t :
  schedule = l1 ++ u :: l2 ++ v :: l3 -> task_in t u = true -> task_in t v = true -> False.
Proof.
  intros Hs Hu Hv. destruct schedule_covers as [Hr Hc].
  assert (0 <= t < n) as Ht.
  { assert (u ∈ schedule) as Hin by (rewrite Hs; set_solver).
    pose proof (proj1 (Forall_forall _ _) Hr _ Hin) as Hru. cbn beta in Hru. unfold task_in in Hu.
    apply andb_true_iff in Hu as [H1%Z.leb_le H2%Z.ltb_lt]. lia. }
  specialize (Hc t Ht). rewrite Hs in Hc. by apply (filter_twice (task_in t) l1 l2 l3 u v).
Qed.

Lemma schedule_begin_in b e : (b, e) ∈ schedule -> task_in b (b, e) = true.
Proof.
  intros Hin. pose proof (schedule_range b e Hin). unfold task_in. simpl.
  case_cmp; simpl; done || lia.
Qed.

Lemma schedule_begins : NoDup (map fst schedule).
Proof.
  destruct (NoDup_dec (map fst schedule)) as [|Hd]; [done|exfalso].
  enough (forall pre suf, schedule = pre ++ suf -> NoDup (map fst suf)) as H by by apply Hd, (H []).
  intros pre suf. revert pre. induction suf as [|[b e] suf IH]; intros pre Hs; [constructor|].
  simpl. apply NoDup_cons. split; [|apply (IH (pre ++ [(b, e)])); by rewrite <- app_assoc].
  intros Hin. apply list_elem_of_fmap in Hin as ([b' e'] & Heq & Hin). simpl in Heq. subst b'.
  apply list_elem_of_split in Hin as (l2 & l3 & ->).
  apply (schedule_disjoint pre l2 l3 (b, e) (b, e') b Hs); apply schedule_begin_in; rewrite Hs; set_solver.
Qed.

Lemma covered_task t : 0 <= t < n -> exists b e, (b, e) ∈ schedule /\ b <= t < e.
Proof.
  intros Ht. destruct schedule_covers as [_ Hc]. specialize (Hc t Ht).
  destruct (List.filter _ schedule) as [|[b e] l] eqn:Hf; [done|].
  assert (In (b, e) (List.filter (task_in t) schedule)) as Hin by (rewrite Hf; by left).
  apply filter_In in Hin as [Hin Hte]. exists b, e. split; [by apply list_elem_of_In|].
  unfold task_in in Hte. apply andb_true_iff in Hte as [?%Z.leb_le ?%Z.ltb_lt]. simpl in *. lia.
Qed.

(** A range that begins earlier ends before the other begins. *)
Lemma earlier_range b e b' e' :
  (b, e) ∈ schedule -> (b', e') ∈ schedule -> b' < b -> e' <= b.
Proof.
  intros Hin Hin' Hlt. destruct (Z.le_gt_cases e' b) as [|Hgt]; [done|exfalso].
  assert (task_in b (b', e') = true) as Hb' by (unfold task_in; simpl; case_cmp; simpl; done || lia).
  pose proof (schedule_begin_in b e Hin) as Hb.
  apply list_elem_of_split in Hin as (l1 & l2 & Hs). rewrite Hs in Hin'.
  apply elem_of_app in Hin' as [Hin'|Hin'].
  - apply list_elem_of_split in Hin' as (l3 & l4 & ->). rewrite <- app_assoc in Hs.
    by apply (schedule_disjoint _ _ _ _ _ b Hs).
  - apply elem_of_cons in Hin' as [Heq|Hin']; [injection Heq; lia|].
    apply list_elem_of_split in Hin' as (l3 & l4 & ->).
    by apply (schedule_disjoint _ _ _ _ _ b Hs).
Qed.

Lemma schedule_unique b e e' : (b, e) ∈ schedule -> (b, e') ∈ schedule -> e = e'.
Proof.
  intros Hin Hin'. destruct (decide ((b, e') = (b, e))) as [Heq|Hne]; [by injection Heq|exfalso].
  pose proof (schedule_begin_in b e Hin) as Hb. pose proof (schedule_begin_in b e' Hin') as Hb'.
  apply list_elem_of_split in Hin as (l1 & l2 & Hs). rewrite Hs in Hin'.
  apply elem_of_app in Hin' as [Hin'|Hin'].
  - apply list_elem_of_split in Hin' as (l3 & l4 & ->). rewrite <- app_assoc in Hs.
    by apply (schedule_disjoint _ _ _ _ _ b Hs).
  - apply elem_of_cons in Hin' as [Heq|Hin']; [done|].
    apply list_elem_of_split in Hin' as (l3 & l4 & ->).
    by apply (schedule_disjoint _ _ _ _ _ b Hs).
Qed.
End schedules.

(** ** Callbacks that write the cell of their first row *)

(** [v b e] are the results of the range; both cells are written when asked for. *)
Definition cell_callback (n : Z) (v w : Z -> Z -> option Z) (callback : range_callback arrays) : Prop :=
  forall b e s, 0 <= b < e -> e <= n ->
    is_ok (callback b e s).1 = true /\
    (callback b e s).2 = (store_result s.1 b (v b e), store_result s.2 b (w b e)).

Lemma store_result_same s b r : store_result s b r b = default (s b) r.
Proof. destruct r; [apply upd_same|done]. Qed.

Lemma store_result_other s b r c : c <> b -> store_result s b r c = s c.
Proof. intros. destruct r; [by apply upd_other|done]. Qed.

Lemma run_schedule_cells n v w callback schedule s :
  cell_callback n v w callback ->
  Forall (fun r => 0 <= r.1 < r.2 /\ r.2 <= n) schedule -> NoDup (map fst schedule) ->
  let r := run_schedule callback schedule s in
  r.1 = true /\
  (forall b e, (b, e) ∈ schedule ->
    r.2.1 b = default (s.1 b) (v b e) /\ r.2.2 b = default (s.2 b) (w b e)) /\
  (forall c, c ∉ map fst schedule -> r.2.1 c = s.1 c /\ r.2.2 c = s.2 c).
Proof.
  intros Hcb. revert s. induction schedule as [|[b e] schedule IH]; intros s Hr Hnd; cbn zeta.
  - split_and!; [done| |done]. intros b e Hin. by apply not_elem_of_nil in Hin.
  - apply Forall_cons in Hr as [[Hb He] Hr]. apply NoDup_cons in Hnd as [Hnin Hnd]. simpl in Hb, He, Hnin.
    destruct (Hcb b e s Hb He) as [Hok Hs]. cbn [run_schedule].
    destruct (callback b e s) as [err s1]. simpl in Hok, Hs. subst s1.
    destruct (IH (store_result s.1 b (v b e), store_result s.2 b (w b e)) Hr Hnd) as (H1 & H2 & H3).
    destruct (run_schedule callback schedule _) as [ok s2]. cbn [fst snd] in *. rewrite Hok, H1.
    split; [done|]. split.
    + intros b' e' Hin. apply elem_of_cons in Hin as [Heq|Hin].
      * injection Heq as -> ->. destruct (H3 b Hnin) as [-> ->]. by rewrite !store_result_same.
      * destruct (H2 b' e' Hin) as [-> ->].
        assert (b' <> b) as Hne. { intros ->. apply Hnin, list_elem_of_fmap. by exists (b, e'). }
        by rewrite !store_result_other.
    + intros c Hc. simpl in Hc. apply not_elem_of_cons in Hc as [Hne Hc].
      destruct (H3 c Hc) as [-> ->]. by rewrite !store_result_other.
Qed.

Lemma batch_one height b e : 0 < height < 2 ^ 63 -> 0 <= b < e -> e <= height ->
  task_count height 1 = height /\ batch_bounds height 1 (task_count height 1) b e = (b, e).
Proof.
  intros Hh Hb He. unfold task_count. rewrite Z.div_1_r. replace (Z.max 1 height) with height by lia.
  split; [done|]. unfold batch_bounds. rewrite !size_mul_small by lia. rewrite !Z.mul_1_r.
  f_equal. case_cmp; lia.
Qed.

(** After [parallel_batches]: the cells of the ranges of some schedule. *)
Lemma parallel_batches_cells parallel height v w callback s :
  lawful no_empty_range parallel -> 0 < height < 2 ^ 63 -> cell_callback height v w callback ->
  exists schedule, covers height schedule /\ no_empty_range schedule /\
    let r := parallel_batches parallel callback height 1 s in
    is_ok r.1 = true /\
    (forall b e, (b, e) ∈ schedule ->
      r.2.1 b = default (s.1 b) (v b e) /\ r.2.2 b = default (s.2 b) (w b e)) /\
    (forall c, c ∉ map fst schedule -> r.2.1 c = s.1 c /\ r.2.2 c = s.2 c).
Proof.
  intros Hlaw Hh Hcb. unfold parallel_batches.
  destruct (Hlaw (kleidicv_thread_batch_callback callback height 1 (task_count height 1))
    (task_count height 1) s) as (schedule & Hcov & Hne & Hs & Hok).
  destruct (batch_one height 0 1 Hh ltac:(lia) ltac:(lia)) as [Htc _]. rewrite Htc in *.
  exists schedule. split; [done|]. split; [done|]. cbn zeta. rewrite Hs, Hok.
  apply (run_schedule_cells height); [|apply Forall_forall; intros [b e] Hin; by apply (schedule_range _ schedule)|
    by apply (schedule_begins height)].
  intros b e s' Hb He. unfold kleidicv_thread_batch_callback.
  destruct (batch_one height b e Hh Hb He) as [_ Hbb]. rewrite Htc in Hbb. rewrite Hbb. by apply Hcb.
Qed.

(** ** Sub-images *)

Lemma sub_image_element rows width b n :
  0 < width ->
  element_address (with_ptr rows (ptr_ rows + b * stride_ rows)) width n =
  element_address rows width (b * width + n).
Proof.
  intros Hw. unfold element_address. cbn. rewrite (Z.add_comm (b * width)), Z.div_add, Z.mod_add by lia. lia.
Qed.

Lemma sub_image_valid rows width height b e :
  valid_rows rows width height -> 0 <= b < e -> e <= height ->
  valid_rows (with_ptr rows (ptr_ rows + b * stride_ rows)) width (e - b).
Proof.
  intros (? & ? & ? & ? & ? & ?) Hb He.
  assert (0 <= b * stride_ rows) by nia. assert (e * stride_ rows <= height * stride_ rows) by nia.
  repeat split; cbn; try lia.
Qed.

(** ** parallel_min_max *)

Section threaded_min_max.
Variables (sg : bool) (w : Z) (load : Z -> Z) (src src_stride width height : Z).
Local Abbreviation t := (IntType sg w).
Local Abbreviation x := (fun n => load (element_address (type_rows t src src_stride) width n)).
Hypothesis w_width : is_width w.
Hypothesis load_in_type : forall a, in_type t (load a).
Hypothesis image : good_image w src src_stride width height t.
Hypothesis not_empty : 0 < width * height.

Lemma height_bound : 0 < width /\ 0 < height < 2 ^ 63.
Proof.
  destruct image as (_ & _ & _ & ? & ? & Hpix). rewrite image_limit in Hpix.
  assert (0 < width /\ 0 < height) as [? ?] by nia. split; [done|]. nia.
Qed.

Lemma batch_address b e :
  0 <= b < e -> e <= height ->
  src + w / 8 * (b ⊠ (src_stride / (w / 8))) = src + b * src_stride.
Proof.
  intros Hb He. destruct image as (_ & Hst & (? & [Hs0 Hs1] & _ & Hsz & _ & Hend) & _). cbn in *.
  apply Z.mod_divide in Hst as [k ->]; [|lia]. rewrite Z.div_mul by lia.
  assert (0 <= b * k) by nia. assert (b * (k * (w / 8)) <= height * (k * (w / 8))) by nia.
  rewrite size_mul_small by nia. lia.
Qed.

Lemma sub_good_image b e :
  0 <= b < e -> e <= height -> good_image w (src + b * src_stride) src_stride width (e - b) t.
Proof.
  intros Hb He. destruct image as (Hsrc & Hst & Hv & Hw & Hh & Hpix).
  split_and!; [|done| |lia|lia|nia].
  - destruct Hv as (? & [? ?] & _). cbn in *. nia.
  - by apply (sub_image_valid (type_rows t src src_stride) width height b e).
Qed.

(** The extremes of rows [b..e). *)
Definition range_extremes (b e lo hi : Z) : Prop :=
  extremes (fun n => x (b * width + n)) (width * (e - b)) lo hi.

Lemma min_max_range b e p_min p_max :
  0 <= b < e -> e <= height ->
  exists lo hi, min_max t load (src + b * src_stride) src_stride width (e - b) p_min p_max =
    (KLEIDICV_OK, (if p_min then Some lo else None, if p_max then Some hi else None)) /\
    range_extremes b e lo hi.
Proof.
  intros Hb He. destruct height_bound as [Hw _].
  destruct (min_max_run sg w load (src + b * src_stride) src_stride width (e - b) p_min p_max w_width
    load_in_type (sub_good_image b e Hb He) ltac:(nia)) as (lo & hi & Hrun & Hex).
  exists lo, hi. split; [exact Hrun|]. unfold range_extremes.
  destruct Hex as ((p & Hp & ->) & (q & Hq & ->) & Hall).
  assert (forall n, element_address (type_rows t (src + b * src_stride) src_stride) width n =
    element_address (type_rows t src src_stride) width (b * width + n)) as Hel.
  { intros n. by apply (sub_image_element (type_rows t src src_stride)). }
  split_and!; [exists p; by rewrite Hel|exists q; by rewrite Hel|].
  intros i Hi. specialize (Hall i Hi). cbn beta in *. by rewrite !Hel in *.
Qed.

(** The results of a range, as functions of the range. *)
Definition range_min (p : bool) (b e : Z) : option Z :=
  (min_max t load (src + b * src_stride) src_stride width (e - b) p false).2.1.
Definition range_max (p : bool) (b e : Z) : option Z :=
  (min_max t load (src + b * src_stride) src_stride width (e - b) false p).2.2.

Lemma min_max_outputs a s width' height' p q :
  (min_max t load a s width' height' p q).2.1 = (min_max t load a s width' height' p false).2.1 /\
  (min_max t load a s width' height' p q).2.2 = (min_max t load a s width' height' false q).2.2 /\
  (min_max t load a s width' height' p q).1 = (min_max t load a s width' height' false false).1.
Proof.
  unfold min_max. destruct (_ ?> _); try done. destruct (_ || _); done.
Qed.

Lemma range_min_spec b e : 0 <= b < e -> e <= height ->
  exists lo hi, range_min true b e = Some lo /\ range_max true b e = Some hi /\ range_extremes b e lo hi.
Proof.
  intros Hb He. destruct (min_max_range b e true true Hb He) as (lo & hi & Hrun & Hex).
  exists lo, hi. unfold range_min, range_max.
  destruct (min_max_outputs (src + b * src_stride) src_stride width (e - b) true true) as (<- & <- & _).
  by rewrite Hrun.
Qed.

Lemma min_max_cells p_min p_max :
  cell_callback height (range_min p_min) (range_max p_max)
    (min_max_callback t load src src_stride width p_min p_max).
Proof.
  intros b e [s1 s2] Hb He. unfold min_max_callback. cbn [Utils.width].
  rewrite (batch_address b e Hb He). destruct height_bound. rewrite size_sub_small by lia.
  destruct (min_max_outputs (src + b * src_stride) src_stride width (e - b) p_min p_max) as (H1 & H2 & _).
  destruct (min_max_range b e p_min p_max Hb He) as (lo & hi & Hrun & _).
  unfold range_min, range_max. rewrite <- H1, <- H2, Hrun. done.
Qed.

Lemma reduce_min_spec values count :
  0 <= count ->
  (forall i, 0 <= i < count -> reduce_min t values count <= values i) /\
  (reduce_min t values count = int_max t \/
   exists i, 0 <= i < count /\ reduce_min t values count = values i).
Proof.
  intros Hc. unfold reduce_min.
  apply (for_range_ind (fun c r => (forall i, 0 <= i < c -> r <= values i) /\
    (r = int_max t \/ exists i, 0 <= i < c /\ r = values i))); [done| |].
  - split; [intros; lia|by left].
  - intros c r Hr [Hall Hex]. split.
    + intros i Hi. destruct (Z.eq_dec i c) as [->|]; [lia|]. pose proof (Hall i ltac:(lia)). lia.
    + destruct (Z.min_spec r (values c)) as [[_ ->]|[_ ->]].
      * destruct Hex as [?|(i & Hi & ?)]; [by left|right; exists i; split; [lia|done]].
      * right. exists c. split; [lia|done].
Qed.

Lemma reduce_max_spec values count :
  0 <= count ->
  (forall i, 0 <= i < count -> values i <= reduce_max t values count) /\
  (reduce_max t values count = int_min t \/
   exists i, 0 <= i < count /\ reduce_max t values count = values i).
Proof.
  intros Hc. unfold reduce_max.
  apply (for_range_ind (fun c r => (forall i, 0 <= i < c -> values i <= r) /\
    (r = int_min t \/ exists i, 0 <= i < c /\ r = values i))); [done| |].
  - split; [intros; lia|by left].
  - intros c r Hr [Hall Hex]. split.
    + intros i Hi. destruct (Z.eq_dec i c) as [->|]; [lia|]. pose proof (Hall i ltac:(lia)). lia.
    + destruct (Z.max_spec r (values c)) as [[_ ->]|[_ ->]].
      * right. exists c. split; [lia|done].
      * destruct Hex as [?|(i & Hi & ?)]; [by left|right; exists i; split; [lia|done]].
Qed.

(** An array whose cells are the minima of the ranges of a schedule, and the
    initial value elsewhere, reduces to the minimum of the image. *)
Lemma reduce_min_schedule schedule values lo hi :
  covers height schedule -> no_empty_range schedule ->
  (forall b e, (b, e) ∈ schedule -> values b = default (int_max t) (range_min true b e)) ->
  (forall c, c ∉ map fst schedule -> values c = int_max t) ->
  extremes x (width * height) lo hi -> reduce_min t values height = lo.
Proof.
  intros Hcov Hne Hin Hout ((p & Hp & ->) & _ & Hall). destruct height_bound as [Hw Hh].
  destruct (reduce_min_spec values height ltac:(lia)) as [Hle Hex].
  assert (reduce_min t values height <= x p) as H1.
  { destruct (covered_task height schedule Hcov (p / width)) as (b & e & Hbe & Hpb).
    { split; [apply Z.div_pos; lia|apply Z.div_lt_upper_bound; lia]. }
    destruct (schedule_range height schedule Hcov Hne b e Hbe) as [Hb He].
    destruct (range_min_spec b e Hb He) as (lo & hi' & Hlo & _ & Hr).
    pose proof (Hle b ltac:(lia)) as Hleb. rewrite (Hin b e Hbe), Hlo in Hleb. cbn in Hleb.
    destruct Hr as (_ & _ & Hr). pose proof (Z.div_mod p width ltac:(lia)).
    pose proof (Z.mod_pos_bound p width ltac:(lia)).
    specialize (Hr (p - b * width) ltac:(nia)). cbn beta in Hr.
    replace (b * width + (p - b * width)) with p in Hr by lia. lia. }
  assert (x p <= reduce_min t values height) as H2; [|cbn beta in *; lia].
  assert (forall c, 0 <= c < height -> x p <= values c) as Hval.
  { intros c Hc. destruct (decide (c ∈ map fst schedule)) as [Hcin|Hcout].
    - apply list_elem_of_fmap in Hcin as ([b e] & -> & Hbe). cbn [fst] in *.
      destruct (schedule_range height schedule Hcov Hne b e Hbe) as [Hb He].
      destruct (range_min_spec b e Hb He) as (lo & hi' & Hlo & _ & (q & Hq & ->) & _).
      rewrite (Hin b e Hbe), Hlo. cbn. apply Hall. nia.
    - rewrite Hout by done. apply load_in_type. }
  destruct Hex as [->|(i & Hi & ->)]; [apply load_in_type|by apply Hval].
Qed.

Lemma reduce_max_schedule schedule values lo hi :
  covers height schedule -> no_empty_range schedule ->
  (forall b e, (b, e) ∈ schedule -> values b = default (int_min t) (range_max true b e)) ->
  (forall c, c ∉ map fst schedule -> values c = int_min t) ->
  extremes x (width * height) lo hi -> reduce_max t values height = hi.
Proof.
  intros Hcov Hne Hin Hout (_ & (p & Hp & ->) & Hall). destruct height_bound as [Hw Hh].
  destruct (reduce_max_spec values height ltac:(lia)) as [Hle Hex].
  assert (x p <= reduce_max t values height) as H1.
  { destruct (covered_task height schedule Hcov (p / width)) as (b & e & Hbe & Hpb).
    { split; [apply Z.div_pos; lia|apply Z.div_lt_upper_bound; lia]. }
    destruct (schedule_range height schedule Hcov Hne b e Hbe) as [Hb He].
    destruct (range_min_spec b e Hb He) as (lo' & hi' & _ & Hhi & Hr).
    pose proof (Hle b ltac:(lia)) as Hleb. rewrite (Hin b e Hbe), Hhi in Hleb. cbn in Hleb.
    destruct Hr as (_ & _ & Hr). pose proof (Z.div_mod p width ltac:(lia)).
    pose proof (Z.mod_pos_bound p width ltac:(lia)).
    specialize (Hr (p - b * width) ltac:(nia)). cbn beta in Hr.
    replace (b * width + (p - b * width)) with p in Hr by lia. lia. }
  assert (reduce_max t values height <= x p) as H2; [|cbn beta in *; lia].
  assert (forall c, 0 <= c < height -> values c <= x p) as Hval.
  { intros c Hc. destruct (decide (c ∈ map fst schedule)) as [Hcin|Hcout].
    - apply list_elem_of_fmap in Hcin as ([b e] & -> & Hbe). cbn [fst] in *.
      destruct (schedule_range height schedule Hcov Hne b e Hbe) as [Hb He].
      destruct (range_min_spec b e Hb He) as (lo' & hi' & _ & Hhi & _ & (q & Hq & ->) & _).
      rewrite (Hin b e Hbe), Hhi. cbn. apply Hall. nia.
    - rewrite Hout by done. apply load_in_type. }
  destruct Hex as [->|(i & Hi & ->)]; [apply load_in_type|by apply Hval].
Qed.
End threaded_min_max.

(** [parallel_min_max] of a valid, non-empty image gives the outputs of the
    single-threaded [min_max], for every integer type, every lawful scheduler and
    any choice of outputs; when the arrays cannot be allocated it gives
    [KLEIDICV_ERROR_ALLOCATION] and writes nothing. *)
Theorem parallel_min_max_equals_single sg w load parallel allocates
    src src_stride width height p_min p_max :
  let t := IntType sg w in
  is_width w -> (forall a, in_type t (load a)) -> lawful no_empty_range parallel ->
  good_image w src src_stride width height t -> 0 < width * height ->
  let threaded := parallel_min_max t load parallel allocates src src_stride width height p_min p_max in
  let single := min_max t load src src_stride width height p_min p_max in
  if (p_min || p_max) && negb (allocates height)
  then threaded = (KLEIDICV_ERROR_ALLOCATION, (None, None))
  else is_ok threaded.1 = is_ok single.1 /\ threaded.2 = single.2.
Proof.
  intros t Hw Hload Hlaw Himg Hpos threaded single. unfold threaded, single, parallel_min_max.
  destruct (height_bound sg w src src_stride width height Himg Hpos) as [Hwd Hh].
  replace (Z.max 1 height) with height by lia. rewrite <- andb_orb_distrib_l.
  destruct ((p_min || p_max) && negb (allocates height)); [done|].
  destruct (min_max_run sg w load src src_stride width height p_min p_max Hw Hload Himg Hpos)
    as (lo & hi & Hrun & Hex). fold t in Hrun, Hex. rewrite Hrun.
  destruct (parallel_batches_cells parallel height _ _ _ (fun _ => int_max t, fun _ => int_min t) Hlaw Hh
    (min_max_cells sg w load src src_stride width height Hw Hload Himg Hpos p_min p_max))
    as (schedule & Hcov & Hne & Hok & Hin & Hout).
  fold t in Hok, Hin, Hout. destruct (parallel_batches _ _ _ _ _) as [err [mins maxs]].
  cbn [fst snd] in *. split; [done|]. f_equal.
  - destruct p_min; [|done]. f_equal.
    apply (reduce_min_schedule sg w load src src_stride width height Hw Hload Himg Hpos schedule mins lo hi);
      [done|done| |intros c Hc; by apply Hout|exact Hex]. intros b e Hbe. by apply Hin.
  - destruct p_max; [|done]. f_equal.
    apply (reduce_max_schedule sg w load src src_stride width height Hw Hload Himg Hpos schedule maxs lo hi);
      [done|done| |intros c Hc; by apply Hout|exact Hex]. intros b e Hbe. by apply Hin.
Qed.

Lemma parallel_min_max_equals_single_witness :
  let load a := (a * 37) mod 256 in
  let threaded := parallel_min_max uint8 load reverse_serial (fun _ => true) 1000 40 35 3 true true in
  is_ok threaded.1 = true /\ threaded.2 = (Some 0, Some 255).
Proof.
  destruct (parallel_min_max_equals_single false 8 (fun a => (a * 37) mod 256) reverse_serial
    (fun _ => true) 1000 40 35 3 true true) as [Hok Heq].
  - by left.
  - intros a. unfold in_type. cbn. pose proof (Z.mod_pos_bound (a * 37) 256 ltac:(lia)). lia.
  - apply reverse_serial_lawful.
  - split_and!; [done|done|repeat split; cbn; lia|lia|lia|vm_compute; congruence].
  - lia.
  - split; [exact Hok|]. refine (eq_trans Heq _). vm_compute. reflexivity.
Defined.

(** ** parallel_min_max_loc *)

Section threaded_loc.
Variables (load : Z -> Z) (src src_stride width height : Z).
Local Abbreviation at_element := (element_address (byte_rows src src_stride) width).
Local Abbreviation x := (fun n => load (element_address (byte_rows src src_stride) width n)).
Hypothesis load_u8 : forall a, u8 (load a).
Hypothesis image : good_bytes src src_stride width height.

Lemma loc_height : 0 < width /\ 0 < height < 2 ^ 63.
Proof.
  destruct image as (_ & _ & ? & ? & Hpix & _). rewrite image_limit in Hpix. split; [done|]. nia.
Qed.

Lemma element_offset n : 0 <= n < width * height ->
  at_element n - src = n / width * src_stride + n mod width /\ 0 <= at_element n - src < 2 ^ 64.
Proof.
  intros Hn. destruct image as (_ & (? & ? & _ & _ & ? & ?) & ? & ? & _ & Hst). cbn in *.
  unfold element_address. cbn. rewrite Z.mul_1_r.
  pose proof (Z.mod_pos_bound n width ltac:(lia)).
  assert (0 <= n / width) by (apply Z.div_pos; lia).
  assert (n / width < height) by (apply Z.div_lt_upper_bound; lia).
  assert (n / width * src_stride <= (height - 1) * src_stride) by (apply Z.mul_le_mono_nonneg_r; lia).
  assert (0 <= n / width * src_stride) by nia.
  split; [lia|]. split; [lia|]. destruct Hst as [Hst|Hst].
  - assert (height * src_stride = (height - 1) * src_stride + src_stride) by lia. lia.
  - assert (n / width = 0) as Hz by lia. rewrite Hz. lia.
Qed.

Lemma sub_good_bytes b e :
  0 <= b < e -> e <= height -> good_bytes (src + b * src_stride) src_stride width (e - b).
Proof.
  intros Hb He. destruct image as (Hsrc & Hv & Hw & Hh & Hpix & Hst).
  split_and!; [| |lia|lia|nia|lia].
  - destruct Hv as (? & [? ?] & _). cbn in *. nia.
  - by apply (sub_image_valid (byte_rows src src_stride) width height b e).
Qed.

Lemma sub_element b n :
  element_address (byte_rows (src + b * src_stride) src_stride) width n = at_element (b * width + n).
Proof. destruct loc_height. by apply (sub_image_element (byte_rows src src_stride)). Qed.

(** [o] is the offset a range leaves: of its first best element, from its row. *)
Definition range_offset (key : Z -> Z) (b e o : Z) : Prop :=
  exists p, first_best key (fun n => x (b * width + n)) (fun _ => true) (width * (e - b)) p /\
    o = at_element (b * width + p) - (src + b * src_stride).

Lemma loc_range b e p_min p_max :
  0 <= b < e -> e <= height ->
  exists o1 o2, min_max_loc load (src + b * src_stride) src_stride width (e - b) p_min p_max =
    Some (KLEIDICV_OK, (if p_min then Some o1 else None, if p_max then Some o2 else None)) /\
    range_offset id b e o1 /\ range_offset Z.opp b e o2.
Proof.
  intros Hb He.
  destruct (min_max_loc_run load (src + b * src_stride) src_stride width (e - b) p_min p_max load_u8
    (sub_good_bytes b e Hb He)) as (p & q & Hp & Hq & Hrun). rewrite !sub_element in Hrun.
  do 2 eexists. split; [exact Hrun|]. split.
  - exists p. split; [|done]. destruct Hp as (? & _ & Hall). split; [done|]. split; [done|].
    intros i Hi Ht. specialize (Hall i Hi Ht). cbn beta in *. by rewrite !sub_element in Hall.
  - exists q. split; [|done]. destruct Hq as (? & _ & Hall). split; [done|]. split; [done|].
    intros i Hi Ht. specialize (Hall i Hi Ht). cbn beta in *. by rewrite !sub_element in Hall.
Qed.

Definition loc_outputs (p_min p_max : bool) (b e : Z) : option Z * option Z :=
  match min_max_loc load (src + b * src_stride) src_stride width (e - b) p_min p_max with
  | Some (_, r) => r
  | None => (None, None)
  end.

Lemma loc_cells p_min p_max :
  cell_callback height (fun b e => (loc_outputs p_min p_max b e).1)
    (fun b e => (loc_outputs p_min p_max b e).2)
    (min_max_loc_callback load src src_stride width p_min p_max).
Proof.
  intros b e [s1 s2] Hb He. unfold min_max_loc_callback, loc_outputs.
  destruct image as (_ & (? & [? ?] & _ & _ & _ & ?) & _). cbn in *. destruct loc_height.
  rewrite size_mul_small by nia. rewrite size_sub_small by lia.
  by destruct (loc_range b e p_min p_max Hb He) as (o1 & o2 & -> & _).
Qed.

(** *** The reduction *)
Section reduction.
Variables (key : Z -> Z) (compare : Z -> Z -> bool) (schedule : list (Z * Z)) (offsets : Z -> Z).
Hypothesis compare_key : forall a b, compare a b = (key a <? key b).
Hypothesis schedule_covers : covers height schedule.
Hypothesis schedule_non_empty : no_empty_range schedule.
Hypothesis offsets_in : forall b e, (b, e) ∈ schedule -> range_offset key b e (offsets b).
Hypothesis offsets_out : forall c, c ∉ map fst schedule -> offsets c = 0.

(** Element [n] is in a range that begins before row [i]. *)
Definition reached (i n : Z) : Prop :=
  exists b e, (b, e) ∈ schedule /\ b < i /\ b * width <= n < e * width.

Definition reduced (i k : Z) : Prop :=
  0 <= k < width * height /\ (k = 0 \/ reached i k) /\
  forall n, reached i n -> key (x k) <= key (x n) /\ (n < k -> key (x k) < key (x n)).

(** The element a row proposes. *)
Lemma candidate i : 0 <= i < height ->
  exists k, 0 <= k < width * height /\ offsets i ⊞ i ⊠ src_stride = at_element k - src /\
    (i ∉ map fst schedule -> k = i * width) /\
    (forall e, (i, e) ∈ schedule -> exists p, k = i * width + p /\
      first_best key (fun n => x (i * width + n)) (fun _ => true) (width * (e - i)) p).
Proof.
  intros Hi. destruct loc_height as [Hw Hh].
  destruct image as (_ & (? & [? ?] & _ & _ & _ & ?) & _ & _ & _ & Hst). cbn in *.
  assert (0 <= i * src_stride <= height * src_stride) by nia.
  rewrite (size_mul_small i) by lia.
  destruct (decide (i ∈ map fst schedule)) as [Hin|Hout].
  - apply list_elem_of_fmap in Hin as ([b e] & -> & Hbe). cbn [fst] in *.
    destruct (schedule_range height schedule schedule_covers schedule_non_empty b e Hbe) as [Hb He].
    destruct (offsets_in b e Hbe) as (p & Hp & ->). pose proof Hp as (Hpr & _).
    assert (0 <= b * width + p < width * height) as Hk by nia.
    exists (b * width + p). split; [done|]. split; [|split].
    + destruct (element_offset (b * width + p) Hk) as [_ ?].
      unfold size_add.
      replace (at_element (b * width + p) - (src + b * src_stride) + b * src_stride)
        with (at_element (b * width + p) - src) by lia.
      by rewrite wrap64_small.
    + intros Hn. exfalso. apply Hn, list_elem_of_fmap. by exists (b, e).
    + intros e' Hbe'. exists p. split; [done|].
      by rewrite (schedule_unique height schedule schedule_covers schedule_non_empty b e' e Hbe' Hbe).
  - exists (i * width). split; [nia|]. split; [|split; [done|]].
    + rewrite (offsets_out i Hout). destruct (element_offset (i * width) ltac:(nia)) as [-> ?].
      rewrite Z.div_mul, Z.mod_mul by lia. rewrite size_add_small; lia.
    + intros e Hie. exfalso. apply Hout, list_elem_of_fmap. by exists (i, e).
Qed.

Lemma reached_step i n : reached (i + 1) n ->
  reached i n \/ exists e, (i, e) ∈ schedule /\ i * width <= n < e * width.
Proof.
  intros (b & e & Hbe & Hb & Hn). destruct (Z.eq_dec b i) as [->|]; [right; by exists e|left].
  exists b, e. split_and!; try done; lia.
Qed.

Lemma reached_before i n e : reached i n -> (i, e) ∈ schedule -> n < i * width.
Proof.
  intros (b & e' & Hbe & Hb & Hn) Hie. destruct loc_height as [Hw _].
  pose proof (earlier_range height schedule schedule_covers schedule_non_empty i e b e' Hie Hbe Hb). nia.
Qed.

Lemma reached_mono i n : reached i n -> reached (i + 1) n.
Proof. intros (b & e & Hbe & Hb & Hn). exists b, e. split_and!; try done; lia. Qed.

Lemma reduced_step i k k' :
  0 <= i < height -> reduced i k ->
  0 <= k' < width * height ->
  (i ∉ map fst schedule -> k' = i * width) ->
  (forall e, (i, e) ∈ schedule -> exists p, k' = i * width + p /\
      first_best key (fun n => x (i * width + n)) (fun _ => true) (width * (e - i)) p) ->
  reduced (i + 1) (if key (x k') <? key (x k) then k' else k).
Proof.
  intros Hi (Hk & Hr & Hall) Hk' Hout Hin. destruct loc_height as [Hw Hh].
  destruct (decide (i ∈ map fst schedule)) as [Hiin|Hiout].
  - apply list_elem_of_fmap in Hiin as ([b e] & -> & Hbe). cbn [fst] in *.
    destruct (Hin e Hbe) as (p & -> & Hp & _ & Hpall).
    assert (k <= b * width) as Hkb.
    { destruct Hr as [->|Hr]; [nia|]. pose proof (reached_before b k e Hr Hbe). lia. }
    assert (reached (b + 1) (b * width + p)) as Hreach.
    { exists b, e. split_and!; try done; nia. }
    assert (forall n, (exists e0, (b, e0) ∈ schedule /\ b * width <= n < e0 * width) ->
      key (x (b * width + p)) <= key (x n) /\
      (n < b * width + p -> key (x (b * width + p)) < key (x n))) as Hnew.
    { intros n (e0 & Hbe0 & Hn). destruct (Hin e0 Hbe0) as (p0 & Hp0 & _ & _ & Hall0).
      specialize (Hall0 (n - b * width) ltac:(nia) eq_refl). cbn beta in Hall0.
      replace (b * width + (n - b * width)) with n in Hall0 by lia.
      replace p0 with p in Hall0 by lia. split; [apply Hall0|]. intros ?. apply Hall0. lia. }
    destruct (Z.ltb_spec (key (x (b * width + p))) (key (x k))) as [Hlt|Hge].
    + split; [done|]. split; [by right|]. intros n Hn.
      destruct (reached_step b n Hn) as [Hold|Hnewn]; [|by apply Hnew].
      destruct (Hall n Hold). cbn beta in *. lia.
    + split; [done|]. split; [destruct Hr; [by left|right; by apply reached_mono]|]. intros n Hn.
      destruct (reached_step b n Hn) as [Hold|Hnewn]; [by apply Hall|].
      destruct (Hnew n Hnewn). destruct Hnewn as (e0 & _ & ? & _). cbn beta in *. lia.
  - rewrite (Hout Hiout).
    assert (reached i (i * width)) as Hreach.
    { destruct (covered_task height schedule schedule_covers i Hi) as (b & e & Hbe & Hb).
      destruct (Z.eq_dec b i) as [->|]; [exfalso; apply Hiout, list_elem_of_fmap; by exists (i, e)|].
      exists b, e. split_and!; try done; nia. }
    destruct (Hall _ Hreach) as [Hle _]. cbn beta in *.
    destruct (Z.ltb_spec (key (x (i * width))) (key (x k))); [lia|].
    split; [done|]. split; [destruct Hr; [by left|right; by apply reached_mono]|]. intros n Hn.
    destruct (reached_step i n Hn) as [Hold|(e & Hie & _)]; [by apply Hall|].
    exfalso. apply Hiout, list_elem_of_fmap. by exists (i, e).
Qed.

Lemma reduce_offset_first :
  exists k, first_best key x (fun _ => true) (width * height) k /\
    reduce_offset load src src_stride offsets height compare = Some (at_element k - src).
Proof.
  destruct loc_height as [Hw Hh]. pose proof image as (Hsrc & _).
  assert (exists k, reduced height k /\
    reduce_offset load src src_stride offsets height compare = Some (at_element k - src))
    as (k & (Hk & _ & Hall) & Heq).
  { unfold reduce_offset.
    apply (for_range_ind (fun i r => exists k, reduced i k /\ r = Some (at_element k - src))); [lia| |].
    - exists 0. split.
      + split; [nia|]. split; [by left|]. intros n (b & e & Hbe & Hb & _).
        destruct (schedule_range height schedule schedule_covers schedule_non_empty b e Hbe). lia.
      + destruct (element_offset 0 ltac:(nia)) as [-> _]. rewrite Z.div_0_l, Z.mod_0_l by lia. done.
    - intros i r Hi (k & Hred & ->). rewrite (proj2 (Z.eqb_neq src 0)) by done.
      destruct (candidate i Hi) as (k' & Hk' & Hoff & Hout & Hin). rewrite Hoff.
      exists (if key (x k') <? key (x k) then k' else k). split; [by apply reduced_step|].
      rewrite compare_key. replace (src + (at_element k' - src)) with (at_element k') by lia.
      replace (src + (at_element k - src)) with (at_element k) by lia. cbn beta.
      by destruct (_ <? _). }
  exists k. split; [|done]. split; [done|]. split; [done|]. intros n Hn _. apply Hall.
  destruct (covered_task height schedule schedule_covers (n / width)) as (b & e & Hbe & Hb).
  { split; [apply Z.div_pos; lia|apply Z.div_lt_upper_bound; lia]. }
  pose proof (schedule_range height schedule schedule_covers schedule_non_empty b e Hbe).
  pose proof (Z.div_mod n width ltac:(lia)). pose proof (Z.mod_pos_bound n width ltac:(lia)).
  exists b, e. split_and!; try done; nia.
Qed.
End reduction.
End threaded_loc.

Lemma first_best_unique key x n p q :
  first_best key x (fun _ => true) n p -> first_best key x (fun _ => true) n q -> p = q.
Proof.
  intros (Hp & _ & Hpall) (Hq & _ & Hqall).
  destruct (Hpall q Hq eq_refl) as [? Hlt1], (Hqall p Hp eq_refl) as [? Hlt2].
  destruct (Z.lt_trichotomy p q) as [Hc|[Hc|Hc]]; [specialize (Hlt2 Hc); lia|done|specialize (Hlt1 Hc); lia].
Qed.

(** C26: [parallel_min_max_loc] of a valid image gives the outputs of the
    single-threaded [min_max_loc]: the reduction over the rows keeps the first
    minimum and the first maximum in row-major order, for every lawful
    scheduler. *)
Theorem parallel_min_max_loc_equals_single load parallel allocates
    src src_stride width height p_min p_max :
  (forall a, u8 (load a)) -> lawful no_empty_range parallel ->
  good_bytes src src_stride width height -> allocates height = true ->
  exists err outputs,
    parallel_min_max_loc load parallel allocates src src_stride width height p_min p_max =
      Some (err, outputs) /\ is_ok err = true /\
    min_max_loc load src src_stride width height p_min p_max = Some (KLEIDICV_OK, outputs).
Proof.
  intros Hload Hlaw Himg Halloc. unfold parallel_min_max_loc.
  destruct (loc_height src src_stride width height Himg) as [Hw Hh].
  replace (Z.max 1 height) with height by lia. rewrite Halloc, !andb_false_r. cbn [orb].
  destruct (min_max_loc_run load src src_stride width height p_min p_max Hload Himg)
    as (p & q & Hp & Hq & Hrun). rewrite Hrun.
  destruct (parallel_batches_cells parallel height _ _ _ (fun _ => 0, fun _ => 0) Hlaw Hh
    (loc_cells load src src_stride width height Hload Himg p_min p_max))
    as (schedule & Hcov & Hne & Hok & Hin & Hout).
  destruct (parallel_batches _ _ _ _ _) as [err [mins maxs]]. cbn [fst snd] in *.
  assert (forall b e, (b, e) ∈ schedule -> (p_min = true -> range_offset load src src_stride width id b e (mins b)) /\
    (p_max = true -> range_offset load src src_stride width Z.opp b e (maxs b))) as Hcells.
  { intros b e Hbe. destruct (Hin b e Hbe) as [-> ->].
    destruct (schedule_range height schedule Hcov Hne b e Hbe) as [Hb He]. unfold loc_outputs.
    destruct (loc_range load src src_stride width height Hload Himg b e p_min p_max Hb He)
      as (o1 & o2 & -> & Ho1 & Ho2). cbn. split; intros ->; done. }
  exists err, (if p_min then Some (element_address (byte_rows src src_stride) width p - src) else None,
               if p_max then Some (element_address (byte_rows src src_stride) width q - src) else None).
  split; [|done].
  assert (p_min = true -> reduce_offset load src src_stride mins height Z.ltb =
    Some (element_address (byte_rows src src_stride) width p - src)) as Hmin.
  { intros Hpm. destruct (reduce_offset_first load src src_stride width height Himg id Z.ltb
      schedule mins (fun _ _ => eq_refl) Hcov Hne) as (k & Hk & ->);
      [intros b e Hbe; by apply Hcells|intros c Hc; by apply Hout|].
    by rewrite (first_best_unique _ _ _ _ _ Hk Hp). }
  assert (p_max = true -> reduce_offset load src src_stride maxs height Z.gtb =
    Some (element_address (byte_rows src src_stride) width q - src)) as Hmax.
  { intros Hpm. destruct (reduce_offset_first load src src_stride width height Himg Z.opp Z.gtb
      schedule maxs) as (k & Hk & ->);
      [intros a b; rewrite Z.gtb_ltb; case_cmp; lia|done|done|
       intros b e Hbe; by apply Hcells|intros c Hc; by apply Hout|].
    by rewrite (first_best_unique _ _ _ _ _ Hk Hq). }
  unfold requested. destruct p_min, p_max; rewrite ?Hmin, ?Hmax by done; done.
Qed.

Lemma parallel_min_max_loc_equals_single_witness :
  let load a := (a * 37) mod 256 in
  exists err, parallel_min_max_loc load reverse_serial (fun _ => true) 1000 20 17 3 true true =
    Some (err, (Some 24, Some 10)) /\ is_ok err = true.
Proof.
  destruct (parallel_min_max_loc_equals_single (fun a => (a * 37) mod 256) reverse_serial
    (fun _ => true) 1000 20 17 3 true true) as (err & outputs & Hrun & Hok & Hsingle).
  - intros a. apply Z.mod_pos_bound. lia.
  - apply reverse_serial_lawful.
  - split_and!; [done|repeat split; cbn; lia|lia|lia|vm_compute; congruence|lia].
  - done.
  - exists err. vm_compute in Hsingle. injection Hsingle as <-. split; [exact Hrun|exact Hok].
Defined.

(** With a null source and three rows the single-threaded [min_max_loc]
    returns [KLEIDICV_ERROR_NULL_POINTER].  In the threaded one only the batch of
    row 0 does: the batch of row 1 gets the non-null address [src_stride], passes
    the check and reads memory there; and the reduction that follows reads the
    image through the null pointer before the error is returned. *)
Theorem parallel_min_max_loc_reads_null load :
  let initial : arrays := (fun _ => 0, fun _ => 0) in
  min_max_loc load 0 20 17 3 true true = Some (KLEIDICV_ERROR_NULL_POINTER, (None, None)) /\
  min_max_loc_callback load 0 20 17 true true 0 1 initial = (KLEIDICV_ERROR_NULL_POINTER, initial) /\
  (min_max_loc_callback load 0 20 17 true true 1 2 initial).1 = KLEIDICV_OK /\
  parallel_min_max_loc load reverse_serial (fun _ => true) 0 20 17 3 true true = None.
Proof. split_and!; reflexivity. Qed.
