(* ===== verification/MorphologyOps.v ===== *)
(** * Separable minimum and maximum

    [HorizontalOp] and [VerticalOp] of [morphology_neon.cpp].  The horizontal
    pass reads a wide row and writes a buffer row, the vertical one reads buffer
    rows through row pointers and writes the destination; source and destination
    are separate stores of bytes.  [op] is the operation of the class: [std::min]
    on scalars and, lane by lane, on vectors, or [std::max]. *)

From S2P Require Import Prelude Loops Rows.
Import Unroll2.

(** ** Groups of vector registers

    [n] registers of [l] lanes: the values of a function on [0, n * l). *)

Definition group (n l : Z) (F : Z -> Z) : list (list Z) :=
  map (fun j => map (fun i => F (j * l + i)) (seqZ 0 l)) (seqZ 0 n).

(** [vld1q(&row[j * num_lanes])] for each register [j]. *)
Definition load_group (n l : Z) (m : Z -> Z) (a : Z) : list (list Z) :=
  map (fun j => map (fun i => m (a + j * l + i)) (seqZ 0 l)) (seqZ 0 n).

(** [vst1q(&row[j * num_lanes], acc)] for each register [j]. *)
Definition store_vector (l : Z) (a : Z) (v : list Z) (m : Z -> Z) : Z -> Z :=
  fun b => if (a <=? b) && (b <? a + l) then v !!! Z.to_nat (b - a) else m b.
Definition store_group (n l : Z) (a : Z) (vs : list (list Z)) (m : Z -> Z) : Z -> Z :=
  for_range 0 n (fun j => store_vector l (a + j * l) (vs !!! Z.to_nat j)) m.

Lemma load_group_eq n l m a : load_group n l m a = group n l (fun k => m (a + k)).
Proof.
  apply map_ext. intros j. apply map_ext. intros i. f_equal. lia.
Qed.

Lemma group_ext n l F G : (forall k, 0 <= k < n * l -> F k = G k) -> group n l F = group n l G.
Proof.
  intros He. apply map_ext_in. intros j Hj%list_elem_of_In%elem_of_seqZ.
  apply map_ext_in. intros i Hi%list_elem_of_In%elem_of_seqZ. apply He. nia.
Qed.

Lemma zip_with_map {A B C D} (f : B -> C -> D) (g : A -> B) (h : A -> C) l :
  zip_with f (map g l) (map h l) = map (fun x => f (g x) (h x)) l.
Proof. induction l as [|x l IH]; [done|]. simpl. by rewrite IH. Qed.

Lemma group_zip (op : Z -> Z -> Z) n l F G :
  zip_with (zip_with op) (group n l F) (group n l G) = group n l (fun k => op (F k) (G k)).
Proof.
  unfold group. rewrite zip_with_map. apply map_ext. intros j. apply zip_with_map.
Qed.

Lemma lookup_map_seqZ {A} `{Inhabited A} (f : Z -> A) n i :
  0 <= i < n -> map f (seqZ 0 n) !!! Z.to_nat i = f i.
Proof.
  intros Hi. apply list_lookup_total_correct. rewrite list_lookup_fmap.
  rewrite (proj2 (lookup_seqZ 0 n (Z.to_nat i) i)); [done|lia].
Qed.

Lemma store_group_eq n l a F m b :
  0 <= n -> 0 <= l ->
  store_group n l a (group n l F) m b =
  if (a <=? b) && (b <? a + n * l) then F (b - a) else m b.
Proof.
  intros Hn Hl. unfold store_group.
  revert b. apply (for_range_ind (fun k m' => forall b, m' b =
    if (a <=? b) && (b <? a + k * l) then F (b - a) else m b)); [lia| |].
  - intros b. case_cmp; simpl; done || lia.
  - intros k m' Hk IH b. unfold store_vector. rewrite IH. assert (0 <= k * l) by nia.
    replace ((k + 1) * l) with (k * l + l) by lia. unfold group. rewrite lookup_map_seqZ by lia.
    destruct ((a + k * l <=? b) && (b <? a + k * l + l)) eqn:Hin.
    + apply andb_true_iff in Hin as [?%Z.leb_le ?%Z.ltb_lt]. rewrite lookup_map_seqZ by lia.
      replace (k * l + (b - (a + k * l))) with (b - a) by lia. case_cmp; simpl; done || lia.
    + revert Hin. case_cmp; simpl; done || lia.
Qed.

(** [reduce op n F]: [F 0 op F 1 op ... op F (n - 1)]. *)
Definition reduce (op : Z -> Z -> Z) (n : Z) (F : Z -> Z) : Z :=
  for_range 1 n (fun k acc => op acc (F k)) (F 0).

(** ** HorizontalOp *)

Section horizontal.
Variable op : Z -> Z -> Z.
(** Lanes of a vector, the kernel width and the channel count. *)
Variables (num_lanes kernel_width channels : Z).
(** The wide row, as a store of its elements. *)
Variable src : Z -> Z.

(** [vector_path_4x], [vector_path_2x] and [vector_path], with [n] registers of
    [l] lanes; [dst] is the address of the destination row. *)
Definition horizontal_path (n l dst index : Z) (buffer : Z -> Z) : Z -> Z :=
  let acc := load_group n l src index in
  let acc := for_range 1 kernel_width (fun width acc =>
    let row := load_group n l src (index + width ⊠ channels) in
    zip_with (zip_with op) acc row) acc in
  store_group n l (dst + index) acc buffer.

Definition horizontal_vector_path_4x := horizontal_path 4 num_lanes.
Definition horizontal_vector_path_2x := horizontal_path 2 num_lanes.
Definition horizontal_vector_path := horizontal_path 1 num_lanes.

(** [scalar_path]. *)
Definition horizontal_scalar_path (dst index : Z) (buffer : Z -> Z) : Z -> Z :=
  let acc := src index in
  let acc := for_range 1 kernel_width (fun width acc => op acc (src (index + width ⊠ channels))) acc in
  upd buffer (dst + index) acc.

(** One row of [process_rows]. *)
Definition horizontal_process_row (rect_width dst : Z) (buffer : Z -> Z) : option (Z -> Z) :=
  match four_twice_once_tail true (rect_width ⊠ channels) num_lanes
    (horizontal_vector_path_4x dst) (horizontal_vector_path_2x dst)
    (horizontal_vector_path dst) (horizontal_scalar_path dst) buffer with
  | Some (_, buffer) => Some buffer
  | None => None
  end.

(** What element [i] of the destination row holds. *)
Definition horizontal_value (i : Z) : Z :=
  reduce op kernel_width (fun k => src (i + k * channels)).

Hypothesis lanes_bound : 1 <= num_lanes < 2 ^ 32.
Hypothesis kernel_bound : 1 <= kernel_width < 2 ^ 60.
Hypothesis channels_bound : 1 <= channels <= 4.

Lemma horizontal_path_value n l dst index buffer :
  0 <= n -> 0 <= l ->
  horizontal_path n l dst index buffer =
  store_group n l (dst + index) (group n l (fun k => horizontal_value (index + k))) buffer.
Proof.
  intros Hn Hl. unfold horizontal_path, horizontal_value, reduce. f_equal.
  apply (for_range_ind (fun w acc => acc = group n l (fun k =>
    for_range 1 w (fun k' acc => op acc (src (index + k + k' * channels))) (src (index + k + 0 * channels)))));
    [lia| |].
  - rewrite load_group_eq. apply group_ext. intros k _. rewrite for_range_empty by lia. f_equal. lia.
  - intros w acc Hw ->. rewrite load_group_eq, group_zip. apply group_ext. intros k _.
    rewrite (for_range_last 1 (w + 1)) by lia. replace (w + 1 - 1) with w by lia. f_equal. f_equal.
    rewrite size_mul_small by nia. lia.
Qed.

Lemma horizontal_path_writes n l dst len :
  0 <= n -> 0 <= l ->
  writes_window (fun b => Some (b - dst)) (fun b => horizontal_value (b - dst)) len (n * l)
    (horizontal_path n l dst).
Proof.
  intros Hn Hl i f a Hi Hend. rewrite horizontal_path_value by done.
  rewrite store_group_eq by done. unfold in_window.
  case_cmp; simpl; try lia; [|done..]. f_equal. lia.
Qed.

Lemma horizontal_scalar_writes dst len :
  writes_window (fun b => Some (b - dst)) (fun b => horizontal_value (b - dst)) len 1
    (horizontal_scalar_path dst).
Proof.
  intros i f a Hi Hend. unfold horizontal_scalar_path, in_window, upd.
  destruct (decide (a = dst + i)) as [->|Hne].
  - replace (dst + i - dst) with i by lia. case_cmp; simpl; try lia.
    unfold horizontal_value, reduce. replace (i + 0 * channels) with i by lia.
    apply for_range_ext. intros k acc Hk. rewrite size_mul_small by nia. done.
  - case_cmp; simpl; done || lia.
Qed.

(** The horizontal pass fills the destination row and nothing else. *)
Lemma horizontal_row rect_width dst buffer :
  0 <= rect_width -> rect_width * channels < 2 ^ 64 ->
  exists buffer', horizontal_process_row rect_width dst buffer = Some buffer' /\
    forall b, buffer' b = if (dst <=? b) && (b <? dst + rect_width * channels)
      then horizontal_value (b - dst) else buffer b.
Proof.
  intros Hw Hlen. unfold horizontal_process_row. rewrite size_mul_small by nia.
  destruct (four_loop_fills (fun b => Some (b - dst)) (fun b => horizontal_value (b - dst))
    true (rect_width * channels) num_lanes (horizontal_vector_path_4x dst) (horizontal_vector_path_2x dst)
    (horizontal_vector_path dst) (horizontal_scalar_path dst) buffer) as (l & buffer' & -> & Hf).
  - lia.
  - unfold is_size. nia.
  - apply horizontal_path_writes; lia.
  - apply horizontal_path_writes; lia.
  - rewrite <- (Z.mul_1_l num_lanes) at 1. apply horizontal_path_writes; lia.
  - apply horizontal_scalar_writes.
  - exists buffer'. split; [done|]. intros b. rewrite Hf. unfold in_window.
    case_cmp; simpl; done || lia.
Qed.
End horizontal.

(** [HorizontalOp::process_rows]; [wide] is the memory of the source rows. *)
Definition horizontal_process_rows (op : Z -> Z -> Z) (num_lanes kernel_width : Z) (rect : Rectangle)
    (wide : Z -> Z) (src_rows dst_rows : Rows) (buffer : Z -> Z) : option (Z -> Z) :=
  match for_range 0 (height_ rect) (fun _ st =>
    match st with
    | None => None
    | Some (src_rows, dst_rows, buffer) =>
        match horizontal_process_row op num_lanes kernel_width (channels_ src_rows)
          (fun i => wide (ptr_ src_rows + i)) (width_ rect) (ptr_ dst_rows) buffer with
        | Some buffer => Some (rows_next src_rows, rows_next dst_rows, buffer)
        | None => None
        end
    end) (Some (src_rows, dst_rows, buffer)) with
  | Some (_, _, buffer) => Some buffer
  | None => None
  end.

(** The single row that the workspace processes at a time. *)
Lemma horizontal_pass op num_lanes kernel_width width wide src_rows dst_rows buffer :
  1 <= num_lanes < 2 ^ 32 -> 1 <= kernel_width < 2 ^ 60 -> 1 <= channels_ src_rows <= 4 ->
  0 <= width -> width * channels_ src_rows < 2 ^ 64 ->
  exists buffer', horizontal_process_rows op num_lanes kernel_width {| width_ := width; height_ := 1 |}
      wide src_rows dst_rows buffer = Some buffer' /\
    forall b, buffer' b =
      if (ptr_ dst_rows <=? b) && (b <? ptr_ dst_rows + width * channels_ src_rows)
      then reduce op kernel_width (fun t => wide (ptr_ src_rows + (b - ptr_ dst_rows + t * channels_ src_rows)))
      else buffer b.
Proof.
  intros Hl Hk Hc Hw Hlen.
  destruct (horizontal_row op num_lanes kernel_width (channels_ src_rows)
    (fun i => wide (ptr_ src_rows + i)) Hl Hk Hc width (ptr_ dst_rows) buffer Hw Hlen)
    as (buffer' & Heq & Hb).
  exists buffer'. split; [|exact Hb].
  unfold horizontal_process_rows. cbn [height_ width_]. rewrite for_range_once, Heq. done.
Qed.

(** ** Indirect rows *)

(** [IndirectRows]: [islots] is the pointer storage, [ibase] the current slot. *)
Record IndirectRows := { islots : Z -> Z; ibase : Z; istride_ : Z; ichannels_ : Z }.

Definition indirect_advance (r : IndirectRows) (diff : Z) : IndirectRows :=
  {| islots := islots r; ibase := ibase r + diff; istride_ := istride_ r; ichannels_ := ichannels_ r |}.

(** The address of [&rows.at(row)[0]]; [&rows[0]] is the one of row 0. *)
Definition indirect_at (r : IndirectRows) (row : Z) : Z := islots r (ibase r + row).

(** ** VerticalOp *)

Section vertical.
Variable op : Z -> Z -> Z.
Variables (num_lanes kernel_height : Z).
(** The buffer the row pointers point into. *)
Variable buffer : Z -> Z.

(** The four paths, with [n] registers of [l] lanes; the scalar path has one
    register of one lane.  [rect_height] is the height of the rectangle and
    [height] the row that is processed, with the next one when there is one. *)
Definition accumulate_two (n l index : Z) (step : Z) (st : list (list Z) * IndirectRows)
    : list (list Z) * IndirectRows :=
  let '(acc, src_rows) := st in
  let row0 := load_group n l buffer (indirect_at src_rows 0 + index) in
  let row1 := load_group n l buffer (indirect_at src_rows 1 + index) in
  let acc := zip_with (zip_with op) acc (zip_with (zip_with op) row0 row1) in
  (acc, indirect_advance src_rows step).

Definition accumulate_one (n l index : Z) (_ : Z) (st : list (list Z) * IndirectRows)
    : list (list Z) * IndirectRows :=
  let '(acc, src_rows) := st in
  let row := load_group n l buffer (indirect_at src_rows 0 + index) in
  (zip_with (zip_with op) acc row, indirect_advance src_rows 1).

Definition vertical_path (n l rect_height : Z) (src_rows : IndirectRows) (dst_rows : Rows)
    (height index : Z) (image : Z -> Z) : Z -> Z :=
  let first_row := load_group n l buffer (indirect_at src_rows 0 + index) in
  let src_rows := indirect_advance src_rows 1 in
  let acc := load_group n l buffer (indirect_at src_rows 0 + index) in
  let src_rows := indirect_advance src_rows 1 in
  let loop := (Unroll.make (kernel_height ⊟ 2) 2, (acc, src_rows)) in
  let loop := Unroll.unroll_n_times 1 (accumulate_two n l index) loop in
  let '(_, (partial_acc, src_rows)) := Unroll.tail (accumulate_one n l index) loop in
  let acc := zip_with (zip_with op) partial_acc first_row in
  let image := store_group n l (ptr_ dst_rows + index) acc image in
  if rect_height <=? height ⊞ 1 then image
  else
    let dst_rows := rows_next dst_rows in
    let next_row := load_group n l buffer (indirect_at src_rows 0 + index) in
    let acc := zip_with (zip_with op) partial_acc next_row in
    store_group n l (ptr_ dst_rows + index) acc image.

Definition vertical_vector_path_4x := vertical_path 4 num_lanes.
Definition vertical_vector_path_2x := vertical_path 2 num_lanes.
Definition vertical_vector_path := vertical_path 1 num_lanes.
Definition vertical_scalar_path := vertical_path 1 1.

(** [CopyRows::copy_rows] on indirect rows: [memmove] of each row, or of all of
    them at once when source and destination are continuous. *)
Definition copy_row (length : Z) (src_rows : IndirectRows) (dst_rows : Rows) (image : Z -> Z) : Z -> Z :=
  let bytes := length ⊠ channels_ dst_rows in
  fun a => if (ptr_ dst_rows <=? a) && (a <? ptr_ dst_rows + bytes)
           then buffer (indirect_at src_rows 0 + (a - ptr_ dst_rows)) else image a.

Definition copy_rows (rect : Rectangle) (src_rows : IndirectRows) (dst_rows : Rows) (image : Z -> Z)
    : Z -> Z :=
  let continuous := (istride_ src_rows =? width_ rect ⊠ ichannels_ src_rows) &&
                    is_continuous dst_rows (width_ rect) in
  let rect := if continuous then flatten rect else rect in
  (for_range 0 (height_ rect) (fun _ '(src_rows, dst_rows, image) =>
     let image := copy_row (width_ rect) src_rows dst_rows image in
     (indirect_advance src_rows 1, rows_next dst_rows, image)) (src_rows, dst_rows, image)).2.

(** One iteration of [process_rows]: two rows. *)
Definition vertical_two_rows (rect : Rectangle) (height : Z)
    (st : option (IndirectRows * Rows * (Z -> Z))) : option (IndirectRows * Rows * (Z -> Z)) :=
  match st with
  | None => None
  | Some (src_rows, dst_rows, image) =>
      match four_twice_once_tail true (width_ rect ⊠ ichannels_ src_rows) num_lanes
        (vertical_vector_path_4x (height_ rect) src_rows dst_rows height)
        (vertical_vector_path_2x (height_ rect) src_rows dst_rows height)
        (vertical_vector_path (height_ rect) src_rows dst_rows height)
        (vertical_scalar_path (height_ rect) src_rows dst_rows height) image with
      | Some (_, image) => Some (indirect_advance src_rows 2, rows_advance dst_rows 2, image)
      | None => None
      end
  end.

(** [VerticalOp::process_rows]. *)
Definition vertical_process_rows (rect : Rectangle) (src_rows : IndirectRows) (dst_rows : Rows)
    (image : Z -> Z) : option (Z -> Z) :=
  if kernel_height =? 1 then Some (copy_rows rect src_rows dst_rows image)
  else
    match for_step 0 (height_ rect) 2 (vertical_two_rows rect) (Some (src_rows, dst_rows, image)) with
    | Some (_, _, image) => Some image
    | None => None
    end.
End vertical.

(** ** Correctness of the vertical pass *)

(** Byte [o] of row [r]: the value of a row function on the destination. *)
Definition rows_stored (dst ds len height : Z) (value : Z -> Z -> Z) (image image' : Z -> Z) : Prop :=
  forall a, image' a =
    if ((a - dst) mod ds <? len) && ((0 <=? (a - dst) / ds) && ((a - dst) / ds <? height))
    then value ((a - dst) / ds) ((a - dst) mod ds) else image a.

Section vertical_correct.
Variable op : Z -> Z -> Z.
Hypothesis op_assoc : forall a b c, op a (op b c) = op (op a b) c.
Hypothesis op_comm : forall a b, op a b = op b a.
Variables (num_lanes kernel_height : Z) (buffer : Z -> Z).
Hypothesis lanes_bound : 1 <= num_lanes < 2 ^ 32.
Hypothesis kernel_bound : 1 <= kernel_height < 2 ^ 60.

(** Element [k] of the row in slot [r]. *)
Definition slot_value (src_rows : IndirectRows) (r k : Z) : Z :=
  buffer (indirect_at src_rows r + k).

(** What element [k] of output row [y] holds. *)
Definition vertical_value (src_rows : IndirectRows) (y k : Z) : Z :=
  reduce op kernel_height (fun r => slot_value src_rows (y + r) k).

Lemma indirect_advance_at r d row : indirect_at (indirect_advance r d) row = indirect_at r (d + row).
Proof. unfold indirect_at, indirect_advance. cbn. f_equal. lia. Qed.

(** Rows 1 to [n - 1], reduced. *)
Definition partial_value (src_rows : IndirectRows) (n k : Z) : Z :=
  for_range 2 n (fun r acc => op acc (slot_value src_rows r k)) (slot_value src_rows 1 k).

Lemma partial_step src_rows n k : 2 <= n ->
  partial_value src_rows (n + 1) k = op (partial_value src_rows n k) (slot_value src_rows n k).
Proof.
  intros Hn. unfold partial_value. rewrite (for_range_last 2 (n + 1)) by lia.
  by replace (n + 1 - 1) with n by lia.
Qed.

(** The partial result with the first row, or with the next one. *)

Lemma partial_first src_rows n k : 2 <= n ->
  op (partial_value src_rows n k) (slot_value src_rows 0 k) =
  reduce op n (fun r => slot_value src_rows (0 + r) k).
Proof.
  intros Hn. unfold reduce. rewrite for_range_first by lia. unfold partial_value.
  cbn [Z.add]. apply (for_range_rel (fun a b => op a (slot_value src_rows 0 k) = b)).
  - apply op_comm.
  - intros r a b _ <-. by rewrite <- !op_assoc, (op_comm (slot_value src_rows 0 k)).
Qed.

Lemma partial_next src_rows n k : 2 <= n ->
  op (partial_value src_rows n k) (slot_value src_rows n k) =
  reduce op n (fun r => slot_value src_rows (1 + r) k).
Proof.
  intros Hn. rewrite <- partial_step by lia. unfold partial_value, reduce.
  unfold for_range. replace (n + 1 - 2) with (n - 1) by lia.
  replace (seqZ 2 (n - 1)) with (map (Z.add 1) (seqZ 1 (n - 1))) by
    (rewrite <- (fmap_add_seqZ 1 1); done).
  rewrite <- (foldl_fmap (fun s r => op s (slot_value src_rows r k)) _ _ (Z.add 1)). done.
Qed.

Lemma slot_advance src_rows d r k :
  slot_value (indirect_advance src_rows d) r k = slot_value src_rows (d + r) k.
Proof. unfold slot_value. by rewrite indirect_advance_at. Qed.

Lemma load_slot n l src_rows r index :
  load_group n l buffer (indirect_at src_rows r + index) =
  group n l (fun k => slot_value src_rows r (index + k)).
Proof. rewrite load_group_eq. apply group_ext. intros k _. unfold slot_value. f_equal. lia. Qed.

(** The accumulator and the position after the loops over the kernel rows. *)
Definition accumulated (n l index pos : Z) (src_rows : IndirectRows) : list (list Z) * IndirectRows :=
  (group n l (fun k => partial_value src_rows pos (index + k)), indirect_advance src_rows pos).

Lemma indirect_advance_twice r a b :
  indirect_advance (indirect_advance r a) b = indirect_advance r (a + b).
Proof. unfold indirect_advance. cbn. f_equal. lia. Qed.

Lemma accumulate_two_step n l index pos src_rows : 2 <= pos ->
  accumulate_two op buffer n l index 2 (accumulated n l index pos src_rows) =
  accumulated n l index (pos + 2) src_rows.
Proof.
  intros Hp. unfold accumulate_two, accumulated.
  rewrite !load_slot, !group_zip, indirect_advance_twice. f_equal.
  apply group_ext. intros k _. rewrite !slot_advance.
  replace (pos + 2) with (pos + 1 + 1) by lia. rewrite !partial_step by lia.
  rewrite op_assoc, Z.add_0_r. done.
Qed.

Lemma accumulate_one_step n l index i pos src_rows : 2 <= pos ->
  accumulate_one op buffer n l index i (accumulated n l index pos src_rows) =
  accumulated n l index (pos + 1) src_rows.
Proof.
  intros Hp. unfold accumulate_one, accumulated.
  rewrite !load_slot, !group_zip, indirect_advance_twice. f_equal.
  apply group_ext. intros k _. rewrite slot_advance, Z.add_0_r. by rewrite partial_step by lia.
Qed.

Lemma accumulate_rows n l index src_rows : 2 <= kernel_height ->
  (Unroll.tail (accumulate_one op buffer n l index)
    (Unroll.unroll_n_times 1 (accumulate_two op buffer n l index)
      (Unroll.make (kernel_height ⊟ 2) 2, accumulated n l index 2 src_rows))).2 =
  accumulated n l index kernel_height src_rows.
Proof.
  intros Hk. rewrite size_sub_small by lia. unfold Unroll.unroll_n_times.
  cbn [Unroll.make Unroll.length_ Unroll.step_]. rewrite (size_mul_small 1 2) by lia.
  change (1 * 2) with 2.
  pose proof (Z.div_mod (kernel_height - 2) 2 ltac:(lia)).
  pose proof (Z.mod_pos_bound (kernel_height - 2) 2 ltac:(lia)).
  set (q := (kernel_height - 2) / 2) in *. rewrite size_mul_small, size_sub_small by lia.
  assert (for_range 0 q (fun _ => accumulate_two op buffer n l index 2) (accumulated n l index 2 src_rows) =
    accumulated n l index (2 + 2 * q) src_rows) as ->.
  { apply (for_range_ind (fun i st => st = accumulated n l index (2 + 2 * i) src_rows)); [lia|done|].
    intros i st Hi ->. rewrite accumulate_two_step by lia. f_equal. lia. }
  unfold Unroll.tail. cbn [Unroll.length_ snd].
  assert (for_range 0 (kernel_height - 2 - 2 * q) (accumulate_one op buffer n l index)
    (accumulated n l index (2 + 2 * q) src_rows) =
    accumulated n l index (2 + 2 * q + (kernel_height - 2 - 2 * q)) src_rows) as ->.
  { apply (for_range_ind (fun i st => st = accumulated n l index (2 + 2 * q + i) src_rows)); [lia| |].
    - by rewrite Z.add_0_r.
    - intros i st Hi ->. rewrite accumulate_one_step by lia. f_equal. lia. }
  f_equal. lia.
Qed.

Lemma vertical_path_value n l rect_height src_rows dst_rows height index image :
  2 <= kernel_height ->
  vertical_path op kernel_height buffer n l rect_height src_rows dst_rows height index image =
  let image := store_group n l (ptr_ dst_rows + index)
    (group n l (fun k => vertical_value src_rows 0 (index + k))) image in
  if rect_height <=? height ⊞ 1 then image
  else store_group n l (ptr_ (rows_next dst_rows) + index)
    (group n l (fun k => vertical_value src_rows 1 (index + k))) image.
Proof.
  intros Hk. unfold vertical_path.
  rewrite !load_slot, indirect_advance_twice. change (1 + 1) with 2.
  assert ((group n l (fun k => slot_value (indirect_advance src_rows 1) 0 (index + k)),
    indirect_advance src_rows 2) = accumulated n l index 2 src_rows) as ->.
  { unfold accumulated. f_equal. apply group_ext. intros k _. rewrite slot_advance.
    unfold partial_value. by rewrite for_range_empty by lia. }
  pose proof (accumulate_rows n l index src_rows Hk) as Hacc.
  destruct (Unroll.tail _ _) as [loop [acc rows]]. cbn [snd] in Hacc. injection Hacc as -> ->.
  rewrite group_zip, load_slot, group_zip.
  assert (group n l (fun k => op (partial_value src_rows kernel_height (index + k))
    (slot_value src_rows 0 (index + k))) =
    group n l (fun k => vertical_value src_rows 0 (index + k))) as ->.
  { apply group_ext. intros k _. unfold vertical_value. by apply partial_first. }
  assert (group n l (fun k => op (partial_value src_rows kernel_height (index + k))
    (slot_value (indirect_advance src_rows kernel_height) 0 (index + k))) =
    group n l (fun k => vertical_value src_rows 1 (index + k))) as ->.
  { apply group_ext. intros k _. rewrite slot_advance, Z.add_0_r. unfold vertical_value. by apply partial_next. }
  done.
Qed.

(** ** The destination cells of the vertical pass *)

Section two_rows.
(** The destination image and the row length in elements. *)
Variables (dst ds len height : Z).
Hypothesis stride_bound : 0 < ds < 2 ^ 62.
Hypothesis len_bound : 0 <= len <= ds.
Hypothesis dst_bound : 0 <= dst.
Hypothesis height_bound : 0 <= height.
Hypothesis image_bound : dst + (height + 2) * ds < 2 ^ 64.

Lemma row_cell y i j a :
  0 <= i -> j <= ds ->
  (dst + y * ds + i <=? a) && (a <? dst + y * ds + j) =
  ((a - dst) / ds =? y) && ((i <=? (a - dst) mod ds) && ((a - dst) mod ds <? j)).
Proof.
  intros Hi Hj.
  pose proof (Z.div_mod (a - dst) ds ltac:(lia)).
  pose proof (Z.mod_pos_bound (a - dst) ds ltac:(lia)).
  set (q := (a - dst) / ds) in *. set (r := (a - dst) mod ds) in *.
  destruct (Z.eqb_spec q y) as [<-|Hne]; simpl.
  - case_cmp; simpl; done || lia.
  - destruct (Z.lt_total q y) as [Hlt|[?|Hgt]]; [|done|].
    + assert (ds * (q + 1) <= ds * y) by nia. case_cmp; simpl; done || lia.
    + assert (ds * (y + 1) <= ds * q) by nia. case_cmp; simpl; done || lia.
Qed.

(** Rows [y] and [y + 1], as far as they exist. *)
Definition two_rows_idx (y a : Z) : option Z :=
  if ((a - dst) / ds =? y) || (((a - dst) / ds =? y + 1) && (y + 1 <? height))
  then Some ((a - dst) mod ds) else None.

Definition dst_rows_at (channels y : Z) : Rows :=
  {| ptr_ := dst + y * ds; stride_ := ds; channels_ := channels; sizeof_ := 1 |}.

Lemma dst_rows_advance channels y d :
  0 <= y -> 0 <= d <= 2 -> y + d <= height + 1 ->
  rows_advance (dst_rows_at channels y) d = dst_rows_at channels (y + d).
Proof.
  intros Hy Hd Hyd. unfold rows_advance, get_pointer_at, with_ptr, dst_rows_at.
  cbn [ptr_ stride_ channels_ sizeof_]. rewrite to_ptrdiff_small by lia.
  assert (0 <= d * ds) by nia. assert (0 <= y * ds) by nia.
  assert ((y + d) * ds <= (height + 2) * ds) by nia.
  unfold add_stride. destruct (Z.leb_spec 0 (d * ds)); [|lia].
  rewrite size_add_small by lia. f_equal. lia.
Qed.

Lemma vertical_path_writes n l src_rows channels y :
  2 <= kernel_height -> 0 <= n -> 0 <= l -> 0 <= y < height ->
  writes_window (two_rows_idx y)
    (fun a => vertical_value src_rows ((a - dst) / ds) ((a - dst) mod ds)) len (n * l)
    (vertical_path op kernel_height buffer n l height (indirect_advance src_rows y)
      (dst_rows_at channels y) y).
Proof.
  intros Hk Hn Hl Hy i f a Hi Hend. rewrite vertical_path_value by done. cbn zeta.
  unfold rows_next. rewrite dst_rows_advance by lia.
  assert (height < 2 ^ 64) by nia. rewrite size_add_small by lia. cbn [ptr_ dst_rows_at].
  assert (forall r k, vertical_value (indirect_advance src_rows y) r k = vertical_value src_rows (y + r) k) as Hadv.
  { intros r k. unfold vertical_value, reduce. rewrite slot_advance, Z.add_assoc.
    apply for_range_ext. intros r' acc _. rewrite slot_advance. by rewrite Z.add_assoc. }
  assert (forall r m, store_group n l (dst + (y + r) * ds + i)
    (group n l (fun k => vertical_value (indirect_advance src_rows y) r (i + k))) m a =
    if ((a - dst) / ds =? y + r) && ((i <=? (a - dst) mod ds) && ((a - dst) mod ds <? i + n * l))
    then vertical_value src_rows ((a - dst) / ds) ((a - dst) mod ds) else m a) as Hst.
  { intros r m. rewrite store_group_eq by done.
    replace (dst + (y + r) * ds + i + n * l) with (dst + (y + r) * ds + (i + n * l)) by lia.
    rewrite row_cell by lia.
    destruct (Z.eqb_spec ((a - dst) / ds) (y + r)) as [Heq|]; [|done]. simpl andb.
    destruct (_ && _); [|done]. rewrite Hadv, <- Heq. f_equal.
    pose proof (Z.div_mod (a - dst) ds ltac:(lia)) as Hdm. rewrite Heq in Hdm at 1.
    rewrite (Z.mul_comm ds) in Hdm. lia. }
  pose proof (Hst 0) as Hst0. rewrite Z.add_0_r in Hst0.
  unfold in_window, two_rows_idx.
  destruct (Z.leb_spec height (y + 1)) as [Hlast|Hnext].
  - rewrite Hst0. destruct (Z.eqb_spec ((a - dst) / ds) y); simpl; [done|].
    destruct (Z.eqb_spec ((a - dst) / ds) (y + 1)); simpl; [|done].
    destruct (Z.ltb_spec (y + 1) height); [lia|done].
  - rewrite Hst, Hst0. destruct (Z.ltb_spec (y + 1) height); [|lia].
    destruct (Z.eqb_spec ((a - dst) / ds) (y + 1)); simpl.
    + destruct (Z.eqb_spec ((a - dst) / ds) y); [lia|]. simpl. by destruct (_ && _).
    + destruct (Z.eqb_spec ((a - dst) / ds) y); simpl; by destruct (_ && _).
Qed.

(** Rows [0, n) of the output are stored. *)
Lemma vertical_two_rows_stored src_rows width channels j image image0 :
  2 <= kernel_height -> width ⊠ ichannels_ src_rows = len -> 0 <= j -> 2 * j < height ->
  rows_stored dst ds len (2 * j) (vertical_value src_rows) image0 image ->
  exists image', vertical_two_rows op num_lanes kernel_height buffer
      {| width_ := width; height_ := height |} (0 + j * 2)
      (Some (indirect_advance src_rows (2 * j), dst_rows_at channels (2 * j), image)) =
    Some (indirect_advance src_rows (2 * (j + 1)), dst_rows_at channels (2 * (j + 1)), image') /\
    rows_stored dst ds len (Z.min height (2 * (j + 1))) (vertical_value src_rows) image0 image'.
Proof.
  intros Hk Hlen Hj Hjh Hst. unfold vertical_two_rows. cbn [width_ height_ ichannels_ indirect_advance].
  rewrite Hlen. replace (0 + j * 2) with (2 * j) by lia.
  assert (len < 2 ^ 64) by lia.
  pose proof (fun n l => vertical_path_writes n l src_rows channels (2 * j) Hk) as Hw.
  set (rows := indirect_advance src_rows (2 * j)) in *.
  set (path := fun n l => vertical_path op kernel_height buffer n l height rows
    (dst_rows_at channels (2 * j)) (2 * j)) in *.
  destruct (four_loop_fills (two_rows_idx (2 * j))
    (fun a => vertical_value src_rows ((a - dst) / ds) ((a - dst) mod ds)) true len num_lanes
    (path 4 num_lanes) (path 2 num_lanes) (path 1 num_lanes) (path 1 1) image)
    as (l & image' & Heq & Hf); [lia|unfold is_size; lia| | | | |].
  - apply Hw; lia.
  - apply Hw; lia.
  - rewrite <- (Z.mul_1_l num_lanes) at 1. apply Hw; lia.
  - apply (Hw 1 1); lia.
  - exists image'. unfold vertical_vector_path_4x, vertical_vector_path_2x, vertical_vector_path, vertical_scalar_path.
    fold (path 4 num_lanes) (path 2 num_lanes) (path 1 num_lanes) (path 1 1). rewrite Heq. split.
    + rewrite dst_rows_advance by lia. do 2 f_equal. f_equal; [|f_equal; lia].
      unfold indirect_advance. cbn. f_equal. lia.
    + intros a. rewrite Hf, Hst. unfold in_window, two_rows_idx.
      pose proof (Z.mod_pos_bound (a - dst) ds ltac:(lia)).
      case_cmp; simpl; try done; try lia; case_cmp; simpl; done || lia.
Qed.

(** All pairs of rows, when the kernel has at least two rows. *)
Lemma vertical_rows_stored src_rows width channels image :
  2 <= kernel_height -> width ⊠ ichannels_ src_rows = len ->
  exists image', vertical_process_rows op num_lanes kernel_height buffer
      {| width_ := width; height_ := height |} src_rows (dst_rows_at channels 0) image = Some image' /\
    rows_stored dst ds len height (vertical_value src_rows) image image'.
Proof.
  intros Hk Hlen. unfold vertical_process_rows. rewrite (proj2 (Z.eqb_neq _ _)) by lia.
  unfold for_step, step_count. cbn [height_].
  set (m := (height - 0 + 2 - 1) / 2). assert (height <= 2 * m <= height + 1) as Hm by (subst m; mod_lia).
  enough (exists image', for_range 0 m (fun j s => vertical_two_rows op num_lanes kernel_height buffer
      {| width_ := width; height_ := height |} (0 + j * 2) s) (Some (src_rows, dst_rows_at channels 0, image)) =
      Some (indirect_advance src_rows (2 * m), dst_rows_at channels (2 * m), image') /\
    rows_stored dst ds len (Z.min height (2 * m)) (vertical_value src_rows) image image')
    as (image' & Heq & Hst).
  { exists image'. cbn zeta in Heq |- *. rewrite Heq. split; [done|].
    by rewrite Z.min_l in Hst by lia. }
  assert (m <= m) as Hmm by lia. revert Hmm.
  apply (for_range_ind (fun i st => i <= m -> exists image', st =
      Some (indirect_advance src_rows (2 * i), dst_rows_at channels (2 * i), image') /\
    rows_stored dst ds len (Z.min height (2 * i)) (vertical_value src_rows) image image')); [lia| |].
  - intros _. exists image. split.
    + do 2 f_equal. f_equal. unfold indirect_advance. destruct src_rows. cbn. f_equal. lia.
    + intros a. rewrite Z.min_r by lia. case_cmp; simpl; done || lia.
  - intros i st Hi IH Him. destruct (IH ltac:(lia)) as (image1 & -> & Hst).
    rewrite Z.min_r in Hst by lia.
    apply (vertical_two_rows_stored src_rows width channels i image1 image); done || lia.
Qed.

(** [copy_row] copies one row. *)
Lemma copy_row_stored src_rows width channels y image a :
  0 <= width -> 0 <= channels -> width * channels = len ->
  copy_row buffer width (indirect_advance src_rows y) (dst_rows_at channels y) image a =
  if ((a - dst) / ds =? y) && ((a - dst) mod ds <? len)
  then slot_value src_rows ((a - dst) / ds) ((a - dst) mod ds) else image a.
Proof.
  intros Hw Hc Hlen. unfold copy_row. cbn [ptr_ channels_ dst_rows_at].
  rewrite size_mul_small by lia. rewrite Hlen.
  pose proof (row_cell y 0 len a ltac:(lia) ltac:(lia)) as Hcell. rewrite Z.add_0_r in Hcell.
  rewrite Hcell. pose proof (Z.mod_pos_bound (a - dst) ds ltac:(lia)).
  rewrite (proj2 (Z.leb_le 0 ((a - dst) mod ds))) by lia. simpl andb.
  destruct (Z.eqb_spec ((a - dst) / ds) y) as [Heq|]; [|done]. simpl andb.
  destruct (Z.ltb_spec ((a - dst) mod ds) len); [|done]. unfold slot_value. rewrite indirect_advance_at, Z.add_0_r, Heq.
  pose proof (Z.div_mod (a - dst) ds ltac:(lia)) as Hdm. rewrite Heq in Hdm.
  f_equal. lia.
Qed.

(** Copying row by row. *)
Lemma copy_each src_rows width channels image :
  0 <= width -> 1 <= channels -> width * channels = len ->
  rows_stored dst ds len height (slot_value src_rows) image
    (for_range 0 height (fun _ '(src_rows, dst_rows, image) =>
      let image := copy_row buffer width src_rows dst_rows image in
      (indirect_advance src_rows 1, rows_next dst_rows, image))
      (src_rows, dst_rows_at channels 0, image)).2.
Proof.
  intros Hw Hc Hlen.
  enough (exists image', for_range 0 height (fun _ '(src_rows, dst_rows, image) =>
      let image := copy_row buffer width src_rows dst_rows image in
      (indirect_advance src_rows 1, rows_next dst_rows, image))
      (src_rows, dst_rows_at channels 0, image) =
    (indirect_advance src_rows height, dst_rows_at channels height, image') /\
    rows_stored dst ds len height (slot_value src_rows) image image') as (image' & -> & Hst) by done.
  assert (height <= height) as Hhh by lia. revert Hhh.
  apply (for_range_ind (fun i st => i <= height -> exists image', st =
      (indirect_advance src_rows i, dst_rows_at channels i, image') /\
    rows_stored dst ds len i (slot_value src_rows) image image')); [lia| |].
  - intros _. exists image. split; [|intros a; case_cmp; simpl; done || lia].
    do 2 f_equal. unfold indirect_advance. destruct src_rows. cbn. f_equal. lia.
  - intros i st Hi IH Hih. destruct (IH ltac:(lia)) as (image1 & -> & Hst).
    eexists. split; [unfold rows_next; rewrite dst_rows_advance, indirect_advance_twice by lia; done|].
    intros a. rewrite copy_row_stored, Hst by lia.
    case_cmp; simpl; done || lia.
Qed.

Lemma copy_rows_stored src_rows width channels image :
  0 <= width -> 1 <= channels -> ichannels_ src_rows = channels -> width * channels = len ->
  (istride_ src_rows = len -> forall r, 0 <= r < height ->
    indirect_at src_rows r = indirect_at src_rows 0 + r * len) ->
  rows_stored dst ds len height (slot_value src_rows) image
    (copy_rows buffer {| width_ := width; height_ := height |} src_rows (dst_rows_at channels 0) image).
Proof.
  intros Hw Hc Hch Hlen Hcont. unfold copy_rows, is_continuous. cbn [width_ height_ stride_ channels_ sizeof_ dst_rows_at].
  rewrite Hch, (size_mul_small width channels) by lia. rewrite Hlen, (size_mul_small len 1) by lia.
  rewrite Z.mul_1_r. destruct (Z.eqb_spec (istride_ src_rows) len) as [His|]; simpl andb;
    [destruct (Z.eqb_spec ds len) as [Hds|]|].
  - unfold flatten, area. cbn [width_ height_]. rewrite for_range_once. cbn [snd].
    assert (width * height <= len * height) by nia. assert (len * height <= (height + 2) * ds) by nia.
    rewrite size_mul_small by nia. intros a. unfold copy_row. cbn [ptr_ channels_ dst_rows_at].
    rewrite size_mul_small by nia. replace (width * height * channels) with (height * len) by nia.
    rewrite Z.mul_0_l, Z.add_0_r.
    pose proof (Z.mod_pos_bound (a - dst) ds ltac:(lia)).
    pose proof (Z.div_mod (a - dst) ds ltac:(lia)) as Hdm.
    rewrite (proj2 (Z.ltb_lt ((a - dst) mod ds) len)) by lia. simpl andb.
    set (q := (a - dst) / ds) in *. set (r := (a - dst) mod ds) in *.
    assert ((dst <=? a) && (a <? dst + height * len) = (0 <=? q) && (q <? height)) as ->.
    { rewrite <- Hds. rewrite (Z.mul_comm ds) in Hdm.
      destruct (Z.leb_spec 0 q); simpl.
      - assert (0 * ds <= q * ds) by (apply Z.mul_le_mono_nonneg_r; lia).
        destruct (Z.ltb_spec q height).
        + assert ((q + 1) * ds <= height * ds) by (apply Z.mul_le_mono_nonneg_r; lia).
          case_cmp; simpl; done || lia.
        + assert (height * ds <= q * ds) by (apply Z.mul_le_mono_nonneg_r; lia).
          case_cmp; simpl; done || lia.
      - assert ((q + 1) * ds <= 0 * ds) by (apply Z.mul_le_mono_nonneg_r; lia).
        case_cmp; simpl; done || lia. }
    destruct (Z.leb_spec 0 q), (Z.ltb_spec q height); simpl; try done.
    unfold slot_value. rewrite (Hcont His q) by lia. f_equal. nia.
  - apply (copy_each src_rows width channels image); done.
  - apply (copy_each src_rows width channels image); done.
Qed.
End two_rows.

(** The vertical pass stores [vertical_value] in every element of the image and
    changes nothing else. *)
Lemma vertical_pass dst ds height src_rows width channels image :
  0 < ds < 2 ^ 62 -> width * channels <= ds -> 0 <= dst -> 0 <= height ->
  dst + (height + 2) * ds < 2 ^ 64 -> 0 <= width -> 1 <= channels -> ichannels_ src_rows = channels ->
  (kernel_height = 1 -> istride_ src_rows = width * channels -> forall r, 0 <= r < height ->
    indirect_at src_rows r = indirect_at src_rows 0 + r * (width * channels)) ->
  exists image', vertical_process_rows op num_lanes kernel_height buffer
      {| width_ := width; height_ := height |} src_rows (dst_rows_at dst ds channels 0) image = Some image' /\
    rows_stored dst ds (width * channels) height (vertical_value src_rows) image image'.
Proof.
  intros Hds Hlen Hdst Hh Hend Hw Hc Hch Hcont.
  destruct (Z.eq_dec kernel_height 1) as [Hk|Hk].
  - unfold vertical_process_rows. rewrite Hk. change (1 =? 1) with true. cbv iota.
    eexists. split; [done|]. intros a. rewrite (copy_rows_stored dst ds (width * channels) height);
      try done; try nia; [|by apply Hcont].
    unfold vertical_value, reduce. rewrite Hk. by rewrite for_range_empty, Z.add_0_r by lia.
  - apply vertical_rows_stored; try done; try nia. rewrite Hch. apply size_mul_small. nia.
Qed.
End vertical_correct.
