(* ===== verification/Workspace.v ===== *)
(** * The workspace of the morphological operations

    [MorphologyWorkspace] of [morphology/workspace.h] with the double-buffered
    indirect rows of [types.h].  One allocation holds the row pointers, the
    buffer rows and the wide row; [create_layout] shows that they are disjoint,
    so [process] is modelled on a store for each of them, addressed by absolute
    addresses, next to the caller's image.  The operation that runs on the rows
    is an interface, [Operation], with the contract [OperationLaws]: the workspace
    is proved against the contract, and [Morphology.v] discharges it. *)

From S2P Require Import Prelude CTypes Utils Rows MorphologyOps.

(** ** Double-buffered indirect rows *)

(** [db_0] and [db_1] are slots of the pointer storage. *)
Record DoubleBufferedIndirectRows := {
  db_slots : Z -> Z; db_0 : Z; db_1 : Z; db_stride : Z; db_channels : Z
}.

(** The constructor, on a pointer storage with arbitrary contents. *)
Definition make_double_buffered (slots : Z -> Z) (depth : Z) (rows : Rows) : DoubleBufferedIndirectRows :=
  let slots := for_range 0 (2 ⊠ depth) (fun index slots =>
    upd slots index (ptr_ (rows_at rows index 0))) slots in
  let slots := for_range 0 (2 ⊠ depth) (fun index slots =>
    upd slots (2 ⊠ depth ⊞ index) (slots index)) slots in
  {| db_slots := slots; db_0 := 0; db_1 := depth; db_stride := stride_ rows; db_channels := channels_ rows |}.

Definition db_swap (d : DoubleBufferedIndirectRows) : DoubleBufferedIndirectRows :=
  {| db_slots := db_slots d; db_0 := db_1 d; db_1 := db_0 d;
     db_stride := db_stride d; db_channels := db_channels d |}.

Definition db_rows (d : DoubleBufferedIndirectRows) (base : Z) : IndirectRows :=
  {| islots := db_slots d; ibase := base; istride_ := db_stride d; ichannels_ := db_channels d |}.
Definition write_at (d : DoubleBufferedIndirectRows) : IndirectRows := db_rows d (db_0 d).
Definition read_at (d : DoubleBufferedIndirectRows) : IndirectRows := db_rows d (db_1 d).

(** [IndirectRows::at(row)]. *)
Definition indirect_row (r : IndirectRows) (row : Z) : Rows :=
  rows_at {| ptr_ := indirect_at r row; stride_ := istride_ r; channels_ := ichannels_ r; sizeof_ := 1 |} 0 0.

(** ** The workspace *)

(** [BorderType]. *)
Inductive BorderType := CONSTANT | REPLICATE.

#[export] Instance BorderType_eq_dec : EqDecision BorderType.
Proof. solve_decision. Defined.

Definition get_border_type (border_type : kleidicv_border_type_t) : option BorderType :=
  match border_type with
  | KLEIDICV_BORDER_TYPE_REPLICATE => Some REPLICATE
  | KLEIDICV_BORDER_TYPE_CONSTANT => Some CONSTANT
  | _ => None
  end.

Record Point := { point_x : Z; point_y : Z }.

(** [Margin{kernel, anchor}]. *)
Definition make_margin (kernel : Rectangle) (anchor : Point) : Margin :=
  {| left := point_x anchor; top := point_y anchor;
     right := width_ kernel ⊟ point_x anchor ⊟ 1;
     bottom := height_ kernel ⊟ point_y anchor ⊟ 1 |}.

Record MorphologyWorkspace := {
  image_size_ : Rectangle;
  margin_ : Margin;
  border_type_ : BorderType;
  border_value_ : Z -> Z;
  rows_per_iteration_ : Z;
  wide_rows_src_width_ : Z;
  ws_channels_ : Z;
  horizontal_height_ : Z;
  vertical_height_ : Z;
  buffer_rows_offset_ : Z;
  buffer_rows_stride_ : Z;
  wide_rows_offset_ : Z;
  wide_rows_stride_ : Z;
  data_ : Z
}.

Definition kAlignment : Z := 16.

(** The sizes that [create] computes. *)
Record Sizes := {
  rows_per_iteration : Z;
  wide_rows_stride : Z;
  wide_rows_size : Z;
  buffer_rows_stride : Z;
  buffer_rows_size : Z;
  indirect_row_storage_size : Z
}.

(** The first part of [create]: the sizes, unless the buffer rows overflow. *)
Definition create_sizes (kernel : Rectangle) (margin : Margin) (channels type_size : Z)
    (image_size : Rectangle) : option Sizes :=
  let rows_per_iteration := Z.max (2 ⊠ height_ kernel) 32 in
  let wide_rows_width := left margin ⊞ width_ image_size ⊞ right margin in
  let wide_rows_stride := wide_rows_width ⊠ channels in
  let wide_rows_stride := align_up wide_rows_stride kAlignment in
  let wide_rows_height := 1 in
  let wide_rows_size := wide_rows_stride ⊠ wide_rows_height in
  let wide_rows_size := wide_rows_size ⊞ (kAlignment - 1) in
  let buffer_rows_width := type_size ⊠ width_ image_size in
  let buffer_rows_stride := buffer_rows_width ⊠ channels in
  let buffer_rows_stride := align_up buffer_rows_stride kAlignment in
  let buffer_rows_height := 2 ⊠ rows_per_iteration in
  let '(overflow, buffer_rows_size) := mul_overflow buffer_rows_stride buffer_rows_height in
  if overflow then None
  else
    Some {| rows_per_iteration := rows_per_iteration;
            wide_rows_stride := wide_rows_stride; wide_rows_size := wide_rows_size;
            buffer_rows_stride := buffer_rows_stride;
            buffer_rows_size := buffer_rows_size ⊞ (kAlignment - 1);
            indirect_row_storage_size := 3 ⊠ rows_per_iteration ⊠ 8 |}.

Definition allocation_size (z : Sizes) : Z :=
  indirect_row_storage_size z ⊞ buffer_rows_size z ⊞ wide_rows_size z.

(** [create].  [malloc] returns the address of a fresh block or 0; [border_value]
    is [None] for a null pointer. *)
Definition create (malloc : Z -> Z) (kernel : Rectangle) (anchor : Point) (border_type : BorderType)
    (border_value : option (Z -> Z)) (channels type_size : Z) (image_size : Rectangle)
    : MorphologyWorkspace + kleidicv_error_t :=
  if (width_ kernel <=? point_x anchor) || (height_ kernel <=? point_y anchor)
  then inr KLEIDICV_ERROR_RANGE
  else if bool_decide (border_type = CONSTANT) && (match border_value with None => true | _ => false end)
  then inr KLEIDICV_ERROR_NULL_POINTER
  else
    let margin := make_margin kernel anchor in
    match create_sizes kernel margin channels type_size image_size with
    | None => inr KLEIDICV_ERROR_RANGE
    | Some z =>
      let allocation := malloc (allocation_size z) in
      if allocation =? 0 then inr KLEIDICV_ERROR_ALLOCATION
      else
        let buffer_rows_address := allocation ⊞ indirect_row_storage_size z in
        let buffer_rows_address := align_up buffer_rows_address kAlignment in
        let buffer_rows_offset := to_ptrdiff (buffer_rows_address ⊟ allocation) in
        let wide_rows_address := allocation ⊞ (indirect_row_storage_size z ⊞ buffer_rows_size z) in
        let wide_rows_address := wide_rows_address ⊞ left margin ⊠ channels in
        let wide_rows_address := align_up wide_rows_address kAlignment in
        let wide_rows_address := wide_rows_address ⊟ left margin ⊠ channels in
        let wide_rows_offset := to_ptrdiff (wide_rows_address ⊟ allocation) in
        let border_values :=
          match border_type, border_value with
          | CONSTANT, Some border_value =>
              for_range 0 channels (fun i values => upd values i (border_value i)) (fun _ => 0)
          | _, _ => fun _ => 0
          end in
        inl {| image_size_ := image_size; margin_ := margin; border_type_ := border_type;
               border_value_ := border_values; rows_per_iteration_ := rows_per_iteration z;
               wide_rows_src_width_ := width_ image_size; ws_channels_ := channels;
               horizontal_height_ := 0; vertical_height_ := 0;
               buffer_rows_offset_ := buffer_rows_offset; buffer_rows_stride_ := buffer_rows_stride z;
               wide_rows_offset_ := wide_rows_offset; wide_rows_stride_ := wide_rows_stride z;
               data_ := allocation |}
    end.

(** ** Filling the wide row *)

Definition copy_data (src : Z -> Z) (src_rows dst_rows : Rows) (length : Z) (dst : Z -> Z) : Z -> Z :=
  let bytes := length ⊠ 1 ⊠ channels_ dst_rows in
  fun a => if (ptr_ dst_rows <=? a) && (a <? ptr_ dst_rows + bytes)
           then src (ptr_ src_rows + (a - ptr_ dst_rows)) else dst a.

Definition make_constant_border (border_value : Z -> Z) (dst_rows : Rows) (dst_index count : Z)
    (wide : Z -> Z) : Z -> Z :=
  let dst := ptr_ (rows_at dst_rows 0 dst_index) in
  for_range 0 count (fun index =>
    for_range 0 (channels_ dst_rows) (fun channel wide =>
      upd wide (dst + (index ⊠ channels_ dst_rows ⊞ channel)) (border_value channel))) wide.

Definition replicate_border (src : Z -> Z) (src_rows dst_rows : Rows) (src_index dst_index count : Z)
    (wide : Z -> Z) : Z -> Z :=
  if count =? 0 then wide
  else
    for_range 0 (channels_ src_rows) (fun channel =>
      for_range dst_index (dst_index ⊞ count) (fun index wide =>
        upd wide (ptr_ (rows_at dst_rows 0 index) + channel)
          (src (ptr_ (rows_at src_rows 0 src_index) + channel)))) wide.

(** The wide row, the source position and the row counter. *)
Record Loader := { l_wide : Z -> Z; l_src_rows : Rows; l_row_index : Z }.

Section loading.
Variables (ws : MorphologyWorkspace) (image : Z -> Z) (wide_rows first_src_rows last_src_rows : Rows).

Local Abbreviation Left := (left (margin_ ws)).
Local Abbreviation Top := (top (margin_ ws)).
Local Abbreviation Right := (right (margin_ ws)).
Local Abbreviation src_width := (wide_rows_src_width_ ws).

(** [replicate_border], [copy_data], [replicate_border]. *)
Definition load_replicated (current_src_row : Rows) (wide : Z -> Z) : Z -> Z :=
  let wide := replicate_border image current_src_row wide_rows 0 0 Left wide in
  let wide := copy_data image current_src_row (rows_at wide_rows 0 Left) src_width wide in
  replicate_border image current_src_row wide_rows (src_width ⊟ 1) (Left ⊞ src_width) Right wide.

(** The body of the loop of step 1, up to [process_horizontal]. *)
Definition load_first (st : Loader) : Loader :=
  let '{| l_wide := wide; l_src_rows := src_rows; l_row_index := row_index |} := st in
  match border_type_ ws with
  | CONSTANT =>
      let wide := make_constant_border (border_value_ ws) wide_rows 0 Left wide in
      let '(wide, src_rows) :=
        if (row_index <? Top) || (Top ⊞ height_ (image_size_ ws) <=? row_index)
        then (make_constant_border (border_value_ ws) wide_rows Left src_width wide, src_rows)
        else (copy_data image src_rows (rows_at wide_rows 0 Left) src_width wide, rows_next src_rows) in
      let wide := make_constant_border (border_value_ ws) wide_rows (Left ⊞ src_width) Right wide in
      {| l_wide := wide; l_src_rows := src_rows; l_row_index := row_index ⊞ 1 |}
  | REPLICATE =>
      let '(current_src_row, src_rows) :=
        if row_index <? Top then (first_src_rows, src_rows)
        else if row_index <? Top ⊞ height_ (image_size_ ws) then (src_rows, rows_next src_rows)
        else (last_src_rows, src_rows) in
      {| l_wide := load_replicated current_src_row wide; l_src_rows := src_rows;
         l_row_index := row_index ⊞ 1 |}
  end.

(** The body of the inner loop of step 3. *)
Definition load_next (st : Loader) : Loader :=
  let '{| l_wide := wide; l_src_rows := src_rows; l_row_index := row_index |} := st in
  match border_type_ ws with
  | CONSTANT =>
      let '(wide, src_rows) :=
        if row_index <? Top ⊞ height_ (image_size_ ws)
        then (copy_data image src_rows (rows_at wide_rows 0 Left) src_width wide, rows_next src_rows)
        else (make_constant_border (border_value_ ws) wide_rows Left src_width wide, src_rows) in
      {| l_wide := wide; l_src_rows := src_rows; l_row_index := row_index ⊞ 1 |}
  | REPLICATE =>
      let '(current_src_row, src_rows) :=
        if row_index <? Top ⊞ height_ (image_size_ ws) then (src_rows, rows_next src_rows)
        else (last_src_rows, src_rows) in
      {| l_wide := load_replicated current_src_row wide; l_src_rows := src_rows;
         l_row_index := row_index ⊞ 1 |}
  end.
End loading.

(** ** The operation *)

(** [O::process_horizontal] reads the memory of the wide row and writes the
    buffer; [O::process_vertical] reads the buffer and writes the image. *)
Class Operation := {
  process_horizontal : Rectangle -> (Z -> Z) -> Rows -> Rows -> (Z -> Z) -> option (Z -> Z);
  process_vertical : Rectangle -> (Z -> Z) -> IndirectRows -> Rows -> (Z -> Z) -> option (Z -> Z)
}.

(** ** process *)

Definition with_heights (ws : MorphologyWorkspace) (horizontal vertical : Z) : MorphologyWorkspace :=
  {| image_size_ := image_size_ ws; margin_ := margin_ ws; border_type_ := border_type_ ws;
     border_value_ := border_value_ ws; rows_per_iteration_ := rows_per_iteration_ ws;
     wide_rows_src_width_ := wide_rows_src_width_ ws; ws_channels_ := ws_channels_ ws;
     horizontal_height_ := horizontal; vertical_height_ := vertical;
     buffer_rows_offset_ := buffer_rows_offset_ ws; buffer_rows_stride_ := buffer_rows_stride_ ws;
     wide_rows_offset_ := wide_rows_offset_ ws; wide_rows_stride_ := wide_rows_stride_ ws;
     data_ := data_ ws |}.

Definition get_next_horizontal_height (ws : MorphologyWorkspace) : Z * MorphologyWorkspace :=
  let height := Z.min (horizontal_height_ ws) (rows_per_iteration_ ws) in
  (height, with_heights ws (horizontal_height_ ws ⊟ height) (vertical_height_ ws)).

Definition get_next_vertical_height (ws : MorphologyWorkspace) : Z * MorphologyWorkspace :=
  let height := Z.min (vertical_height_ ws) (rows_per_iteration_ ws) in
  (height, with_heights ws (horizontal_height_ ws) (vertical_height_ ws ⊟ height)).

(** The locals of [process] with the stores it writes. *)
Record State := {
  s_ws : MorphologyWorkspace;
  s_loader : Loader;
  s_buffer : Z -> Z;
  s_image : Z -> Z;
  s_dst_rows : Rows;
  s_db : DoubleBufferedIndirectRows
}.

Section process.
Context `{Operation}.

(** The loop over [horizontal_height] rows of steps 1 and 3. *)
Definition horizontal_rows (ws : MorphologyWorkspace) (load : Loader -> Loader) (wide_rows : Rows)
    (db : DoubleBufferedIndirectRows) (horizontal_height : Z) (st : option (Loader * (Z -> Z)))
    : option (Loader * (Z -> Z)) :=
  for_range 0 horizontal_height (fun index st =>
    match st with
    | None => None
    | Some (loader, buffer) =>
        let loader := load loader in
        match process_horizontal {| width_ := width_ (image_size_ ws); height_ := 1 |}
          (l_wide loader) wide_rows (indirect_row (write_at db) index) buffer with
        | Some buffer => Some (loader, buffer)
        | None => None
        end
    end) st.

(** One iteration of step 3. *)
Definition process_iteration (wide_rows last_src_rows : Rows) (st : State) : option State :=
  let '{| s_ws := ws; s_loader := loader; s_buffer := buffer; s_image := image;
          s_dst_rows := dst_rows; s_db := db |} := st in
  let '(horizontal_height, ws) := get_next_horizontal_height ws in
  match horizontal_rows ws (load_next ws image wide_rows last_src_rows) wide_rows db horizontal_height
    (Some (loader, buffer)) with
  | None => None
  | Some (loader, buffer) =>
      let '(next_vertical_height, ws) := get_next_vertical_height ws in
      match process_vertical {| width_ := width_ (image_size_ ws); height_ := next_vertical_height |}
        buffer (read_at db) dst_rows image with
      | None => None
      | Some image =>
          Some {| s_ws := ws; s_loader := loader; s_buffer := buffer; s_image := image;
                  s_dst_rows := rows_advance dst_rows next_vertical_height; s_db := db_swap db |}
      end
  end.

(** [while (vertical_height_)]. *)
Fixpoint process_remaining (fuel : nat) (wide_rows last_src_rows : Rows) (st : State) : option State :=
  if vertical_height_ (s_ws st) =? 0 then Some st
  else
    match fuel with
    | O => None
    | S fuel =>
        match process_iteration wide_rows last_src_rows st with
        | Some st => process_remaining fuel wide_rows last_src_rows st
        | None => None
        end
    end.

(** What [process] changes: the workspace, its memory and the image. *)
Record Memory := { m_ws : MorphologyWorkspace; m_wide : Z -> Z; m_buffer : Z -> Z;
                   m_slots : Z -> Z; m_image : Z -> Z }.

(** [process]; every iteration of step 3 writes at least one row, so the height
    of the image is enough fuel. *)
Definition process (src_rows dst_rows : Rows) (m : Memory) : option Memory :=
  let ws := m_ws m in
  if (width_ (image_size_ ws) =? 0) || (height_ (image_size_ ws) =? 0) then Some m
  else
    let wide_rows := {| ptr_ := data_ ws + wide_rows_offset_ ws; stride_ := wide_rows_stride_ ws;
                        channels_ := ws_channels_ ws; sizeof_ := 1 |} in
    let db := make_double_buffered (m_slots m) (rows_per_iteration_ ws)
      {| ptr_ := data_ ws + buffer_rows_offset_ ws; stride_ := buffer_rows_stride_ ws;
         channels_ := ws_channels_ ws; sizeof_ := 1 |} in
    let ws := with_heights ws
      (top (margin_ ws) ⊞ height_ (image_size_ ws) ⊞ bottom (margin_ ws)) (height_ (image_size_ ws)) in
    let first_src_rows := src_rows in
    let last_src_rows := rows_at src_rows (to_ptrdiff (height_ (image_size_ ws) ⊟ 1)) 0 in
    let '(horizontal_height, ws) := get_next_horizontal_height ws in
    match horizontal_rows ws (load_first ws (m_image m) wide_rows first_src_rows last_src_rows)
      wide_rows db horizontal_height
      (Some ({| l_wide := m_wide m; l_src_rows := src_rows; l_row_index := 0 |}, m_buffer m)) with
    | None => None
    | Some (loader, buffer) =>
        match process_remaining (Z.to_nat (height_ (image_size_ ws))) wide_rows last_src_rows
          {| s_ws := ws; s_loader := loader; s_buffer := buffer; s_image := m_image m;
             s_dst_rows := dst_rows; s_db := db_swap db |} with
        | None => None
        | Some st => Some {| m_ws := s_ws st; m_wide := l_wide (s_loader st); m_buffer := s_buffer st;
                             m_slots := db_slots (s_db st); m_image := s_image st |}
        end
    end.
End process.

(** ** The layout of the allocation *)

Section layout.
Variables (kernel : Rectangle) (anchor : Point) (channels : Z) (image_size : Rectangle).
Local Abbreviation kw := (width_ kernel).
Local Abbreviation kh := (height_ kernel).
Local Abbreviation Wid := (width_ image_size).
Local Abbreviation Hgt := (height_ image_size).

(** What the callers of [create] have checked, for a non-empty image. *)
Record valid_request : Prop := {
  request_anchor : 0 <= point_x anchor < kw /\ 0 <= point_y anchor < kh;
  request_channels : 1 <= channels <= KLEIDICV_MAXIMUM_CHANNEL_COUNT;
  request_width : 1 <= Wid;
  request_height : 1 <= Hgt;
  request_area : Wid * Hgt <= KLEIDICV_MAX_IMAGE_PIXELS;
  request_kernel : kw - 1 <= Wid /\ kh - 1 <= Hgt
}.

Hypothesis request : valid_request.

Lemma request_bounds :
  0 <= point_x anchor < kw /\ 0 <= point_y anchor < kh /\ 1 <= channels <= 4 /\ 1 <= Wid < 2 ^ 48 /\
  1 <= Hgt < 2 ^ 48 /\ kw <= Wid + 1 /\ kh <= Hgt + 1 /\ Wid * Z.max (2 * kh) 32 < 2 ^ 54 /\
  32 <= Z.max (2 * kh) 32 < 2 ^ 50.
Proof.
  destruct request as [[Hx Hy] Hc HW HH Ha [Hkw Hkh]]. unfold KLEIDICV_MAXIMUM_CHANNEL_COUNT in Hc.
  assert (KLEIDICV_MAX_IMAGE_PIXELS = 2 ^ 48 - 1) as Hp by reflexivity. rewrite Hp in Ha.
  assert (Wid <= Wid * Hgt) by nia. assert (Hgt <= Wid * Hgt) by nia.
  assert (Z.max (2 * kh) 32 <= 4 * Hgt + 32) by lia.
  assert (Wid * Z.max (2 * kh) 32 <= Wid * (4 * Hgt + 32)) by (apply Z.mul_le_mono_nonneg_l; lia).
  lia.
Qed.

Lemma align16 x : 0 <= x < 2 ^ 63 ->
  x <= align_up x kAlignment <= x + 15 /\ align_up x kAlignment mod 16 = 0.
Proof.
  intros Hx. change kAlignment with (2 ^ 4). rewrite align_up_value by lia.
  change (2 ^ 4) with 16. split; mod_lia.
Qed.

Local Abbreviation depth := (Z.max (2 * kh) 32).
Local Abbreviation margin := (make_margin kernel anchor).

(** The margins add up to the kernel, less the anchor. *)
Lemma make_margin_value :
  margin = {| left := point_x anchor; top := point_y anchor;
              right := kw - point_x anchor - 1; bottom := kh - point_y anchor - 1 |}.
Proof.
  pose proof request_bounds. unfold make_margin.
  rewrite (size_sub_small kw), (size_sub_small kh) by lia.
  rewrite !size_sub_small by lia. done.
Qed.

Lemma create_sizes_value :
  exists z, create_sizes kernel margin channels 1 image_size = Some z /\
    rows_per_iteration z = depth /\
    wide_rows_stride z = align_up ((Wid + kw - 1) * channels) kAlignment /\
    wide_rows_size z = wide_rows_stride z + 15 /\
    buffer_rows_stride z = align_up (Wid * channels) kAlignment /\
    buffer_rows_size z = buffer_rows_stride z * (2 * depth) + 15 /\
    indirect_row_storage_size z = 3 * depth * 8 /\
    allocation_size z = 3 * depth * 8 + buffer_rows_size z + wide_rows_size z /\
    buffer_rows_size z < 2 ^ 62.
Proof.
  pose proof request_bounds as (Hx & Hy & Hc & HW & HH & Hkw & Hkh & Hd & Hd').
  unfold create_sizes. rewrite make_margin_value. cbn [left right].
  rewrite (size_add_small (point_x anchor)) by lia.
  rewrite (size_add_small (point_x anchor + Wid)) by lia.
  replace (point_x anchor + Wid + (kw - point_x anchor - 1)) with (Wid + kw - 1) by lia.
  rewrite (size_mul_small 1 Wid), Z.mul_1_l by lia.
  assert (0 <= (Wid + kw - 1) * channels <= (Wid + kw - 1) * 4) by nia.
  assert (0 <= Wid * channels <= Wid * 4) by nia.
  rewrite (size_mul_small (Wid + kw - 1) channels) by lia. rewrite (size_mul_small Wid channels) by lia.
  rewrite (size_mul_small 2 kh) by lia. rewrite (size_mul_small 2 depth) by lia.
  rewrite (size_mul_small 3 depth), (size_mul_small (3 * depth)) by lia.
  pose proof (align16 ((Wid + kw - 1) * channels) ltac:(lia)) as [Hws _].
  pose proof (align16 (Wid * channels) ltac:(lia)) as [Hbs _].
  set (wst := align_up ((Wid + kw - 1) * channels) kAlignment) in *.
  set (bst := align_up (Wid * channels) kAlignment) in *.
  assert (bst * (2 * depth) <= (Wid * 4 + 15) * (2 * depth)) by nia.
  assert (0 <= bst * (2 * depth)) by nia.
  unfold mul_overflow. rewrite (size_mul_small bst) by lia.
  rewrite (proj2 (Z.ltb_ge _ _)) by (unfold size_max; lia).
  change (kAlignment - 1) with 15. rewrite (size_mul_small wst 1), Z.mul_1_r by lia.
  rewrite (size_add_small wst), (size_add_small (bst * _)) by lia.
  eexists. split; [done|]. unfold allocation_size.
  cbn [rows_per_iteration wide_rows_stride wide_rows_size buffer_rows_stride
       buffer_rows_size indirect_row_storage_size].
  rewrite (size_add_small (3 * depth * 8)) by lia. rewrite size_add_small by lia.
  split_and!; lia.
Qed.

(** A workspace that [create] made for the request. *)
Record valid_workspace (ws : MorphologyWorkspace) : Prop := {
  vw_image_size : image_size_ ws = image_size;
  vw_margin : margin_ ws = margin;
  vw_depth : rows_per_iteration_ ws = depth;
  vw_src_width : wide_rows_src_width_ ws = Wid;
  vw_channels : ws_channels_ ws = channels;
  vw_data : 0 < data_ ws;
  vw_wide_stride : 0 <= wide_rows_stride_ ws < 2 ^ 62;
  vw_buffer_stride : Z.max 16 (Wid * channels) <= buffer_rows_stride_ ws < 2 ^ 52;
  vw_buffer : 3 * depth * 8 <= buffer_rows_offset_ ws /\
    (data_ ws + buffer_rows_offset_ ws) mod kAlignment = 0;
  vw_wide : buffer_rows_offset_ ws + 2 * depth * buffer_rows_stride_ ws <= wide_rows_offset_ ws /\
    (data_ ws + wide_rows_offset_ ws + point_x anchor * channels) mod kAlignment = 0;
  vw_end : data_ ws + wide_rows_offset_ ws + (Wid + kw - 1) * channels <= 2 ^ 63
}.

(** [malloc] returns 0 or a block in the lower half of the address space. *)
Definition malloc_spec (malloc : Z -> Z) : Prop :=
  forall n, malloc n = 0 \/ 0 < malloc n /\ malloc n + n <= 2 ^ 63.

Lemma create_run malloc border_type border_value z :
  malloc_spec malloc -> (border_type = CONSTANT -> is_Some border_value) ->
  create_sizes kernel margin channels 1 image_size = Some z ->
  let r := create malloc kernel anchor border_type border_value channels 1 image_size in
  malloc (allocation_size z) = 0 /\ r = inr KLEIDICV_ERROR_ALLOCATION \/
  exists ws, r = inl ws /\ valid_workspace ws /\ data_ ws = malloc (allocation_size z) /\
    wide_rows_offset_ ws + (Wid + kw - 1) * channels <= allocation_size z /\
    border_type_ ws = border_type /\
    forall values c, border_value = Some values -> border_type = CONSTANT -> 0 <= c < channels ->
      border_value_ ws c = values c.
Proof.
  intros Hm Hbv Hz.
  pose proof request_bounds as (Hx & Hy & Hc & HW & HH & Hkw & Hkh & Hd & Hd').
  destruct create_sizes_value as (z' & Hz' & Hdz & Hws & Hwz & Hbs & Hbz & Hiz & Hsz & Hlim).
  rewrite Hz in Hz'. injection Hz' as <-.
  assert (0 <= (Wid + kw - 1) * channels <= (Wid + kw - 1) * 4) by nia.
  assert (0 <= Wid * channels <= Wid * 4) by nia.
  assert (0 <= point_x anchor * channels <= (Wid + kw - 1) * channels)
    by (split; [nia|apply Z.mul_le_mono_nonneg_r; lia]).
  pose proof (align16 ((Wid + kw - 1) * channels) ltac:(lia)) as [Hwst _]. rewrite <- Hws in Hwst.
  pose proof (align16 (Wid * channels) ltac:(lia)) as [Hbst Hb0]. rewrite <- Hbs in Hbst, Hb0.
  assert (16 <= buffer_rows_stride z) as H16 by (assert (1 <= Wid * channels) by nia; mod_lia).
  unfold create. cbn zeta.
  rewrite (proj2 (Z.leb_gt kw _)), (proj2 (Z.leb_gt kh _)) by lia. cbn [orb].
  assert (bool_decide (border_type = CONSTANT) &&
    (match border_value with None => true | _ => false end) = false) as ->.
  { destruct border_type; [|done]. destruct (Hbv eq_refl) as [? ->]. done. }
  rewrite Hz. destruct (Z.eqb_spec (malloc (allocation_size z)) 0) as [Hnull|Hnull]; [by left|right].
  destruct (Hm (allocation_size z)) as [|[Hpos Hend]]; [done|].
  assert (0 <= buffer_rows_stride z * (2 * depth)) by nia.
  assert (allocation_size z < 2 ^ 63) as Hsmall by lia.
  set (base := malloc (allocation_size z)) in *. rewrite make_margin_value. cbn [left].
  rewrite (size_mul_small (point_x anchor)) by lia.
  rewrite (size_add_small base (indirect_row_storage_size z)) by lia.
  pose proof (align16 (base + indirect_row_storage_size z) ltac:(lia)) as [Hba Hba0].
  set (ba := align_up (base + indirect_row_storage_size z) kAlignment) in *.
  rewrite (size_sub_small ba), (to_ptrdiff_small (ba - base)) by lia.
  rewrite (size_add_small (indirect_row_storage_size z)) by lia.
  rewrite (size_add_small base (_ + _)) by lia.
  rewrite (size_add_small (base + _)) by lia.
  pose proof (align16 (base + (indirect_row_storage_size z + buffer_rows_size z) +
    point_x anchor * channels) ltac:(lia)) as [Hwa Hwa0].
  set (wa := align_up (base + (indirect_row_storage_size z + buffer_rows_size z) +
    point_x anchor * channels) kAlignment) in *.
  rewrite (size_sub_small wa) by lia. rewrite size_sub_small by lia. rewrite to_ptrdiff_small by lia.
  eexists. split; [done|]. split; [constructor|];
    cbn [image_size_ margin_ rows_per_iteration_ wide_rows_src_width_ ws_channels_ data_
         wide_rows_stride_ buffer_rows_stride_ buffer_rows_offset_ wide_rows_offset_ border_value_ border_type_];
    try done; try (change kAlignment with 16); try lia.
  - by rewrite make_margin_value.
  - replace (base + (ba - base)) with ba by lia. lia.
  - replace (base + (wa - point_x anchor * channels - base) + point_x anchor * channels) with wa by lia. lia.
  - split_and!; [done|lia|done|]. intros values c -> -> Hcc.
    rewrite (for_range_upd values). by rewrite decide_True by lia.
Qed.
End layout.

(** ** Row pointers *)

Lemma rows_at_ptr r row column :
  0 <= ptr_ r -> 0 <= row -> 0 <= stride_ r < 2 ^ 62 -> 0 <= channels_ r < 2 ^ 62 -> sizeof_ r = 1 ->
  row * stride_ r < 2 ^ 63 -> ptr_ r + row * stride_ r < 2 ^ 64 ->
  ptr_ (rows_at r row column) = ptr_ r + row * stride_ r + column * channels_ r.
Proof.
  intros Hp Hr Hs Hc Hz Hm He. unfold rows_at, with_ptr, get_pointer_at. cbn [ptr_].
  rewrite Hz, !to_ptrdiff_small, Z.mul_1_r by lia. assert (0 <= row * stride_ r) by nia.
  rewrite add_stride_wrap, wrap64_small by lia. done.
Qed.

(** The constructor fills [4 * depth] slots; slot [k] points to buffer row
    [k mod (2 * depth)]. *)
Lemma double_buffered_slots slots depth rows k :
  0 < depth < 2 ^ 60 -> 0 <= ptr_ rows -> 0 <= stride_ rows < 2 ^ 62 -> 0 <= channels_ rows < 2 ^ 62 ->
  sizeof_ rows = 1 -> ptr_ rows + 2 * depth * stride_ rows <= 2 ^ 63 ->
  db_slots (make_double_buffered slots depth rows) k =
  if (0 <=? k) && (k <? 4 * depth) then ptr_ rows + (k mod (2 * depth)) * stride_ rows else slots k.
Proof.
  intros Hd Hp Hs Hc Hz He. unfold make_double_buffered. cbn [db_slots].
  rewrite (size_mul_small 2 depth) by lia.
  set (s1 := for_range 0 (2 * depth) _ slots).
  assert (forall j, s1 j = if decide (0 <= j < 2 * depth) then ptr_ rows + j * stride_ rows else slots j) as H1.
  { intros j. unfold s1. rewrite (for_range_upd (fun index => ptr_ (rows_at rows index 0))).
    destruct (decide _) as [Hj|]; [|done].
    assert (j * stride_ rows <= 2 * depth * stride_ rows) by (apply Z.mul_le_mono_nonneg_r; lia).
    destruct (Z.eq_dec (stride_ rows) 0) as [Hs0|].
    - rewrite rows_at_ptr; lia.
    - assert ((j + 1) * stride_ rows <= 2 * depth * stride_ rows) by (apply Z.mul_le_mono_nonneg_r; lia).
      rewrite rows_at_ptr by lia. lia. }
  enough (forall j, for_range 0 (2 * depth) (fun index slots => upd slots (2 * depth ⊞ index) (slots index)) s1 j =
    if decide (2 * depth <= j < 4 * depth) then s1 (j - 2 * depth) else s1 j) as ->.
  { destruct (decide (2 * depth <= k < 4 * depth)) as [Hk|Hk].
    - rewrite H1, decide_True by lia. case_cmp; simpl; try lia.
      rewrite <- (Z.mod_unique k (2 * depth) 1 (k - 2 * depth)) by lia. done.
    - rewrite H1. case_decide; case_cmp; simpl; try lia. by rewrite Z.mod_small by lia. }
  pose (P := fun i (s : Z -> Z) => i <= 2 * depth -> forall j,
    s j = if decide (2 * depth <= j < 2 * depth + i) then s1 (j - 2 * depth) else s1 j).
  assert (P (2 * depth) (for_range 0 (2 * depth) (fun index slots => upd slots (2 * depth ⊞ index) (slots index)) s1)) as HP.
  { apply (for_range_ind P); [lia| |].
    - intros _ j. rewrite decide_False by lia. done.
    - intros i s Hi IH Hle j. specialize (IH ltac:(lia)). rewrite size_add_small by lia.
      unfold upd. destruct (decide (j = 2 * depth + i)) as [->|Hne].
      + rewrite (IH i), decide_False, decide_True by lia. f_equal. lia.
      + rewrite (IH j). repeat case_decide; done || lia. }
  intros j. rewrite (HP ltac:(lia)). replace (2 * depth + 2 * depth) with (4 * depth) by lia. done.
Qed.

(** ** Theorems *)

(** [create] on a valid request fails only when [malloc] does.  Otherwise the
    row pointers, the buffer rows and the wide row are disjoint regions of the
    allocation, in this order, none of the size computations wraps, the buffer and
    the pixels of the wide row are 16-byte aligned, and every slot that the
    constructor of the row pointers writes lies inside the allocation. *)
Theorem create_layout malloc kernel anchor border_type border_value channels image_size :
  malloc_spec malloc -> valid_request kernel anchor channels image_size ->
  (border_type = CONSTANT -> is_Some border_value) ->
  exists z, create_sizes kernel (make_margin kernel anchor) channels 1 image_size = Some z /\
    match create malloc kernel anchor border_type border_value channels 1 image_size with
    | inr error => error = KLEIDICV_ERROR_ALLOCATION /\ malloc (allocation_size z) = 0
    | inl ws =>
        let depth := rows_per_iteration_ ws in
        data_ ws = malloc (allocation_size z) /\ data_ ws <> 0 /\
        depth = Z.max (2 * height_ kernel) 32 /\
        3 * depth * 8 <= buffer_rows_offset_ ws /\
        width_ image_size * channels <= buffer_rows_stride_ ws /\
        buffer_rows_offset_ ws + 2 * depth * buffer_rows_stride_ ws <= wide_rows_offset_ ws /\
        wide_rows_offset_ ws + (width_ image_size + width_ kernel - 1) * channels <= allocation_size z /\
        4 * depth * 8 <= allocation_size z /\
        (data_ ws + buffer_rows_offset_ ws) mod 16 = 0 /\
        (data_ ws + wide_rows_offset_ ws + left (margin_ ws) * channels) mod 16 = 0
    end.
Proof.
  intros Hm Hreq Hbv. destruct (create_sizes_value kernel anchor channels image_size Hreq) as (z & Hz & _).
  exists z. split; [done|].
  pose proof (request_bounds kernel anchor channels image_size Hreq).
  destruct (create_run kernel anchor channels image_size Hreq malloc border_type border_value z Hm Hbv Hz)
    as [[Hnull ->]|(ws & -> & Hws & Hdata & Hend & _)]; [done|].
  destruct Hws as [Hi Hma Hd Hw Hc Hpos Hwst Hbst [Hb Hb0] [Hwd Hw0] He]. cbn zeta. rewrite Hd, Hma.
  cbn [left make_margin].
  assert (0 <= (width_ image_size + width_ kernel - 1) * channels) by (apply Z.mul_nonneg_nonneg; lia).
  assert (2 * Z.max (2 * height_ kernel) 32 * 16 <= 2 * Z.max (2 * height_ kernel) 32 * buffer_rows_stride_ ws)
    by (apply Z.mul_le_mono_nonneg_l; lia).
  split_and!; try done; lia.
Qed.

(** A 3x3 dilation of a 7x5 image of three channels. *)
Definition example_malloc (n : Z) : Z := if n <? 10000 then 4096 else 0.

Lemma example_malloc_spec : malloc_spec example_malloc.
Proof. intros n. unfold example_malloc. case_cmp; [right|by left]. lia. Qed.

Lemma example_request :
  valid_request {| width_ := 3; height_ := 3 |} {| point_x := 1; point_y := 1 |} 3 {| width_ := 7; height_ := 5 |}.
Proof. constructor; vm_compute; repeat split; discriminate. Qed.

Lemma create_layout_witness :
  exists z ws, create example_malloc {| width_ := 3; height_ := 3 |} {| point_x := 1; point_y := 1 |}
      REPLICATE None 3 1 {| width_ := 7; height_ := 5 |} = inl ws /\
    data_ ws = example_malloc (allocation_size z) /\
    2 * 32 * 21 + buffer_rows_offset_ ws <= wide_rows_offset_ ws.
Proof.
  destruct (create_layout example_malloc {| width_ := 3; height_ := 3 |} {| point_x := 1; point_y := 1 |}
    REPLICATE None 3 {| width_ := 7; height_ := 5 |} example_malloc_spec example_request ltac:(done))
    as (z & _ & H).
  exists z. destruct (create _ _ _ _ _ _ _ _) as [ws|e] eqn:E; [|vm_compute in E; discriminate].
  exists ws. destruct H as (Hdata & _ & Hd & _ & Hs & Hw & _).
  split; [done|]. split; [exact Hdata|]. rewrite Hd in Hw. simpl in Hw, Hs. lia.
Defined.

(** C39: with no channels, which neither [dilate] nor [erode] rejects, the sizes do not
    depend on the image and the row-pointer constructor writes past the end of the
    allocation: its last slot, written whatever the memory held, ends beyond it. *)
Theorem zero_channels_overrun kernel anchor image_size slots rows :
  valid_request kernel anchor 1 image_size ->
  0 <= ptr_ rows < 2 ^ 62 -> stride_ rows = 0 -> channels_ rows = 0 -> sizeof_ rows = 1 ->
  exists z, create_sizes kernel (make_margin kernel anchor) 0 1 image_size = Some z /\
    let depth := rows_per_iteration z in
    buffer_rows_stride z = 0 /\
    db_slots (make_double_buffered slots depth rows) (4 * depth - 1) = ptr_ rows /\
    allocation_size z < 8 * (4 * depth - 1).
Proof.
  intros Hreq Hp Hs Hc Hz.
  pose proof (request_bounds kernel anchor 1 image_size Hreq) as (Hx & Hy & _ & HW & HH & Hkw & Hkh & _ & Hd).
  unfold create_sizes. rewrite (size_mul_small 2 (height_ kernel)) by lia.
  set (d := Z.max (2 * height_ kernel) 32) in *.
  assert (forall x, x ⊠ 0 = 0) as Hx0 by (intros x; unfold size_mul, wrap64; rewrite Z.mul_0_r; done).
  assert (forall x, 0 ⊠ x = 0) as H0x by done. rewrite !Hx0.
  change (align_up 0 kAlignment) with 0. unfold mul_overflow. rewrite !H0x.
  rewrite (size_mul_small 3 d), (size_mul_small (3 * d)) by lia. rewrite Z.mul_0_l. cbn [Z.ltb].
  eexists. split; [done|]. unfold allocation_size.
  cbn [rows_per_iteration buffer_rows_stride buffer_rows_size wide_rows_size indirect_row_storage_size].
  change (0 ⊞ (kAlignment - 1)) with 15. rewrite (size_add_small (3 * d * 8)) by lia.
  rewrite size_add_small by lia. split_and!; [done| |lia].
  rewrite double_buffered_slots by lia. case_cmp; simpl; lia.
Qed.

Lemma zero_channels_overrun_witness :
  exists z, create_sizes {| width_ := 3; height_ := 3 |}
      (make_margin {| width_ := 3; height_ := 3 |} {| point_x := 1; point_y := 1 |}) 0 1
      {| width_ := 7; height_ := 5 |} = Some z /\ allocation_size z = 798 /\ rows_per_iteration z = 32.
Proof.
  assert (valid_request {| width_ := 3; height_ := 3 |} {| point_x := 1; point_y := 1 |} 1
    {| width_ := 7; height_ := 5 |}) as Hreq.
  { constructor; vm_compute; repeat split; discriminate. }
  destruct (zero_channels_overrun {| width_ := 3; height_ := 3 |} {| point_x := 1; point_y := 1 |}
    {| width_ := 7; height_ := 5 |} (fun _ => 0) {| ptr_ := 4096; stride_ := 0; channels_ := 0; sizeof_ := 1 |}
    Hreq ltac:(simpl; lia) eq_refl eq_refl eq_refl) as (z & Hz & _).
  exists z. split; [exact Hz|]. vm_compute in Hz. injection Hz as <-. split; reflexivity.
Defined.
