(* ===== verification/WorkspaceProcess.v ===== *)
(** * Correctness of [MorphologyWorkspace::process]

    Padded row [r] of the image goes through the wide row into buffer row
    [r mod (2 * depth)]; the vertical pass of an iteration reads the buffer rows of
    the previous and of the current one.  The proof holds for every [Operation]
    with the contract [OperationLaws], and for a destination that is the source
    itself or does not touch it. *)

From S2P Require Import Prelude CTypes Utils Rows MorphologyOps Workspace.

(** ** The contract of an operation *)

(** Reducing a window of [width_ kernel] elements of the row and of
    [height_ kernel] rows of the buffer with [op]. *)
Class OperationLaws `{Operation} (op : Z -> Z -> Z) (kernel : Rectangle) : Prop := {
  horizontal_law : forall width wide src_rows dst_rows buffer,
    1 <= channels_ src_rows <= 4 -> 0 <= width -> width * channels_ src_rows < 2 ^ 64 ->
    exists buffer', process_horizontal {| width_ := width; height_ := 1 |} wide src_rows dst_rows buffer =
        Some buffer' /\
      forall b, buffer' b =
        if (ptr_ dst_rows <=? b) && (b <? ptr_ dst_rows + width * channels_ src_rows)
        then reduce op (width_ kernel)
               (fun t => wide (ptr_ src_rows + (b - ptr_ dst_rows + t * channels_ src_rows)))
        else buffer b;
  vertical_law : forall buffer dst ds height src_rows width channels image,
    0 < ds < 2 ^ 62 -> width * channels <= ds -> 0 <= dst -> 0 <= height ->
    dst + (height + 2) * ds < 2 ^ 64 -> 0 <= width -> 1 <= channels -> ichannels_ src_rows = channels ->
    (height_ kernel = 1 -> istride_ src_rows = width * channels -> forall r, 0 <= r < height ->
      indirect_at src_rows r = indirect_at src_rows 0 + r * (width * channels)) ->
    exists image', process_vertical {| width_ := width; height_ := height |} buffer src_rows
        (dst_rows_at dst ds channels 0) image = Some image' /\
      rows_stored dst ds (width * channels) height (vertical_value op (height_ kernel) buffer src_rows)
        image image'
}.

(** ** Filling the wide row *)

Section fill.
Variables (wptr channels : Z).
Hypothesis wptr_bound : 0 <= wptr.
Hypothesis channels_bound : 1 <= channels <= 4.

(** A row of bytes at [wptr]. *)
Definition byte_row (stride : Z) : Rows :=
  {| ptr_ := wptr; stride_ := stride; channels_ := channels; sizeof_ := 1 |}.

Lemma byte_row_at stride column :
  0 <= stride < 2 ^ 62 -> wptr < 2 ^ 64 -> ptr_ (rows_at (byte_row stride) 0 column) = wptr + column * channels.
Proof. intros. rewrite rows_at_ptr; cbn; lia. Qed.

(** The element range of [count] pixels from pixel [first] on. *)
Definition in_pixels (first count k : Z) : bool := (first * channels <=? k) && (k <? (first + count) * channels).

Lemma pixel_mod q c : 0 <= c < channels -> (q * channels + c) mod channels = c.
Proof. intros Hc. rewrite Z.add_comm, Z.mod_add by lia. by apply Z.mod_small. Qed.

Lemma in_pixels_div first count k :
  in_pixels first count k = (first <=? k / channels) && (k / channels <? first + count).
Proof.
  unfold in_pixels. pose proof (Z.div_mod k channels ltac:(lia)) as Hdm. rewrite (Z.mul_comm channels) in Hdm.
  pose proof (Z.mod_pos_bound k channels ltac:(lia)). set (q := k / channels) in *.
  assert (forall x, (x * channels <=? k) = (x <=? q)) as Hle.
  { intros x. destruct (Z.leb_spec x q).
    - apply Z.leb_le. assert (x * channels <= q * channels) by (apply Z.mul_le_mono_nonneg_r; lia). lia.
    - apply Z.leb_gt. assert ((q + 1) * channels <= x * channels) by (apply Z.mul_le_mono_nonneg_r; lia). lia. }
  assert (forall x, (k <? x * channels) = (q <? x)) as Hlt by (intros x; by rewrite !Z.ltb_antisym, Hle).
  by rewrite Hle, Hlt.
Qed.

Lemma make_constant_border_at border_value stride dst_index count wide k :
  0 <= stride < 2 ^ 62 -> wptr < 2 ^ 64 -> 0 <= count -> count * channels < 2 ^ 64 ->
  make_constant_border border_value (byte_row stride) dst_index count wide (wptr + k) =
  if in_pixels dst_index count k then border_value (k mod channels) else wide (wptr + k).
Proof.
  intros Hs Hp Hn Hb. unfold make_constant_border. rewrite byte_row_at by done. cbn [channels_ byte_row].
  assert (count <= count) as Hle by lia. revert k Hle.
  apply (for_range_ind (fun i w => forall k, i <= count -> w (wptr + k) =
    if in_pixels dst_index i k then border_value (k mod channels) else wide (wptr + k))); [lia| |].
  - intros k _. unfold in_pixels. case_cmp; simpl; done || lia.
  - intros i w Hi IH k Hle. specialize (IH k ltac:(lia)).
    assert (0 <= i * channels) by nia. assert ((i + 1) * channels <= count * channels) by nia.
    set (base := (dst_index + i) * channels).
    assert (for_range 0 channels (fun channel wide =>
        upd wide (wptr + dst_index * channels + (i ⊠ channels ⊞ channel)) (border_value channel)) w (wptr + k) =
      if (base <=? k) && (k <? base + channels) then border_value (k - base) else w (wptr + k)) as ->.
    { assert (channels <= channels) as Hcc by lia. revert Hcc.
      apply (for_range_ind (fun c w' => c <= channels -> w' (wptr + k) =
        if (base <=? k) && (k <? base + c) then border_value (k - base) else w (wptr + k))); [lia| |].
      - intros _. case_cmp; simpl; done || lia.
      - intros c w' Hc IHc Hcl. rewrite (size_mul_small i) by lia. rewrite size_add_small by lia.
        unfold upd. rewrite (IHc ltac:(lia)).
        destruct (decide (wptr + k = wptr + dst_index * channels + (i * channels + c))) as [Heq|Hne].
        + replace (k - base) with c by (subst base; lia). case_cmp; simpl; done || (subst base; lia).
        + case_cmp; simpl; done || (subst base; lia). }
    rewrite IH. unfold in_pixels.
    replace ((dst_index + (i + 1)) * channels) with (base + channels) by (subst base; lia).
    replace ((dst_index + i) * channels) with base by done.
    assert (dst_index * channels <= base) by (subst base; nia).
    destruct (Z.leb_spec base k), (Z.ltb_spec k (base + channels)); simpl.
    + replace (k mod channels) with (k - base); [case_cmp; simpl; done || lia|].
      replace k with ((dst_index + i) * channels + (k - base)) at 2 by (subst base; lia).
      rewrite pixel_mod by lia. done.
    + case_cmp; simpl; done || lia.
    + case_cmp; simpl; done || lia.
    + case_cmp; simpl; done || lia.
Qed.

Lemma replicate_border_at image src_rows stride src_index dst_index count wide k :
  0 <= stride < 2 ^ 62 -> wptr < 2 ^ 64 -> 0 <= count -> 0 <= dst_index -> dst_index + count < 2 ^ 64 ->
  channels_ src_rows = channels -> sizeof_ src_rows = 1 -> 0 <= stride_ src_rows < 2 ^ 62 ->
  0 <= ptr_ src_rows < 2 ^ 64 ->
  replicate_border image src_rows (byte_row stride) src_index dst_index count wide (wptr + k) =
  if in_pixels dst_index count k
  then image (ptr_ src_rows + (src_index * channels + k mod channels)) else wide (wptr + k).
Proof.
  intros Hs Hp Hn Hi Hb Hc Hz Hst Hsp. unfold replicate_border.
  destruct (Z.eqb_spec count 0) as [->|Hne].
  { unfold in_pixels. case_cmp; simpl; done || lia. }
  rewrite size_add_small by lia. rewrite Hc.
  set (value := fun c => image (ptr_ src_rows + (src_index * channels + c))).
  pose proof (Z.mod_pos_bound k channels ltac:(lia)) as Hkm.
  assert (for_range 0 channels (fun channel =>
      for_range dst_index (dst_index + count) (fun index wide =>
        upd wide (ptr_ (rows_at (byte_row stride) 0 index) + channel)
          (image (ptr_ (rows_at src_rows 0 src_index) + channel)))) wide (wptr + k) =
    if in_pixels dst_index count k && (k mod channels <? channels) then value (k mod channels)
    else wide (wptr + k)) as ->.
  { apply (for_range_ind (fun c w => w (wptr + k) =
      if in_pixels dst_index count k && (k mod channels <? c) then value (k mod channels)
      else wide (wptr + k))); [lia| |].
    - rewrite (proj2 (Z.ltb_ge (k mod channels) 0)) by lia. by rewrite andb_false_r.
    - intros c w Hcc IH.
      assert (for_range dst_index (dst_index + count) (fun index wide =>
          upd wide (ptr_ (rows_at (byte_row stride) 0 index) + c)
            (image (ptr_ (rows_at src_rows 0 src_index) + c))) w (wptr + k) =
        if in_pixels dst_index (dst_index + count - dst_index) k && (k mod channels =? c) then value c
        else w (wptr + k)) as ->.
      { apply (for_range_ind (fun i w' => w' (wptr + k) =
          if in_pixels dst_index (i - dst_index) k && (k mod channels =? c) then value c else w (wptr + k)));
          [lia| |].
        - unfold in_pixels. case_cmp; simpl; done || lia.
        - intros i w' Hii IHi. rewrite byte_row_at by done. unfold upd. rewrite IHi.
          rewrite (rows_at_ptr src_rows), Hc by lia.
          pose proof (Z.div_mod k channels ltac:(lia)) as Hdm. set (q := k / channels) in *.
          set (r := k mod channels) in *. unfold in_pixels.
          replace (dst_index + (i + 1 - dst_index)) with (i + 1) by lia.
          replace (dst_index + (i - dst_index)) with i by lia.
          assert (dst_index * channels <= i * channels) by nia.
          destruct (decide (wptr + k = wptr + i * channels + c)) as [Heq|Hneq].
          + assert (r = c) as -> by (subst r; replace k with (i * channels + c) by lia; apply pixel_mod; lia).
            rewrite Z.eqb_refl, andb_true_r. case_cmp; simpl; try lia. unfold value. f_equal. lia.
          + destruct (Z.eqb_spec r c) as [Hrc|]; [|by rewrite !andb_false_r].
            rewrite !andb_true_r. assert (q <> i) by lia.
            assert (k < (i + 1) * channels -> k < i * channels) by (intros; nia).
            case_cmp; simpl; done || lia. }
      rewrite IH. replace (dst_index + count - dst_index) with count by lia.
      destruct (in_pixels dst_index count k); simpl; [|done].
      destruct (Z.eqb_spec (k mod channels) c) as [->|]; case_cmp; simpl; done || lia. }
  rewrite (proj2 (Z.ltb_lt (k mod channels) channels)) by lia. by rewrite andb_true_r.
Qed.

Lemma copy_data_at image src_rows stride first length wide k :
  0 <= stride < 2 ^ 62 -> wptr < 2 ^ 64 -> 0 <= length -> length * channels < 2 ^ 64 ->
  copy_data image src_rows (rows_at (byte_row stride) 0 first) length wide (wptr + k) =
  if in_pixels first length k then image (ptr_ src_rows + (k - first * channels)) else wide (wptr + k).
Proof.
  intros Hs Hp Hl Hb. unfold copy_data. rewrite byte_row_at by done. cbn [channels_ rows_at with_ptr byte_row].
  rewrite (size_mul_small length 1) by nia. rewrite Z.mul_1_r, size_mul_small by nia.
  unfold in_pixels. rewrite Z.mul_add_distr_r.
  replace (wptr + k - (wptr + first * channels)) with (k - first * channels) by lia.
  case_cmp; simpl; done || lia.
Qed.
End fill.

(** ** The padded image *)

Section padded.
Variables (kernel : Rectangle) (anchor : Point) (image_size : Rectangle) (channels : Z).
Variables (border_type : BorderType) (border_value : Z -> Z).

Definition clamp_index (n i : Z) : Z := Z.max 0 (Z.min (n - 1) i).

(** Element [k] of row [r] of the image with its borders; [img y e] is element [e]
    of row [y] of the image. *)
Definition padded (img : Z -> Z -> Z) (r k : Z) : Z :=
  let y := r - point_y anchor in
  match border_type with
  | CONSTANT =>
      if (0 <=? y) && (y <? height_ image_size) && in_pixels channels (point_x anchor) (width_ image_size) k
      then img y (k - point_x anchor * channels) else border_value (k mod channels)
  | REPLICATE =>
      img (clamp_index (height_ image_size) y)
        (clamp_index (width_ image_size) (k / channels - point_x anchor) * channels + k mod channels)
  end.

(** The two passes on the padded image. *)
Definition horizontal_result (op : Z -> Z -> Z) (img : Z -> Z -> Z) (r k : Z) : Z :=
  reduce op (width_ kernel) (fun t => padded img r (k + t * channels)).
Definition filtered (op : Z -> Z -> Z) (img : Z -> Z -> Z) (y k : Z) : Z :=
  reduce op (height_ kernel) (fun t => horizontal_result op img (y + t) k).
End padded.

Section loader.
Variables (kernel : Rectangle) (anchor : Point) (channels : Z) (image_size : Rectangle).
Variable ws : MorphologyWorkspace.
Hypothesis request : valid_request kernel anchor channels image_size.
Hypothesis valid : valid_workspace kernel anchor channels image_size ws.

Local Abbreviation kw := (width_ kernel).
Local Abbreviation kh := (height_ kernel).
Local Abbreviation ax := (point_x anchor).
Local Abbreviation ay := (point_y anchor).
Local Abbreviation iw := (width_ image_size).
Local Abbreviation ih := (height_ image_size).
Local Abbreviation wide_ptr := (data_ ws + wide_rows_offset_ ws).
Local Abbreviation padded_image := (padded anchor image_size channels (border_type_ ws) (border_value_ ws)).

(** The source: [ss] is its stride, [img] its rows. *)
Variables (src ss : Z) (image : Z -> Z) (img : Z -> Z -> Z).
Hypothesis src_bound : 0 <= src /\ 0 <= ss < 2 ^ 62 /\ ih * ss < 2 ^ 62 /\ src + (ih + 2) * ss < 2 ^ 64.

(** The padded rows, and the elements of one. *)
Definition padded_height : Z := ih + kh - 1.
Definition padded_length : Z := (iw + kw - 1) * channels.

(** The source row that padded row [r] shows, and the position of [src_rows] before
    it is loaded. *)
Definition source_row (r : Z) : Z := clamp_index ih (r - ay).
Definition source_position (r : Z) : Rows :=
  {| ptr_ := src + Z.max 0 (Z.min ih (r - ay)) * ss; stride_ := ss; channels_ := channels; sizeof_ := 1 |}.
Definition wide_row : Rows := byte_row wide_ptr channels (wide_rows_stride_ ws).
Definition first_row : Rows := source_position 0.
Definition last_row : Rows :=
  {| ptr_ := src + (ih - 1) * ss; stride_ := ss; channels_ := channels; sizeof_ := 1 |}.

(** The image still holds the source row that padded row [r] needs. *)
Definition readable (r : Z) : Prop :=
  border_type_ ws = REPLICATE \/ ay <= r < ay + ih ->
  forall e, 0 <= e < iw * channels -> image (src + source_row r * ss + e) = img (source_row r) e.

(** The wide row shows padded row [r]. *)
Definition shows (wide : Z -> Z) (r : Z) : Prop :=
  forall k, 0 <= k < padded_length -> wide (wide_ptr + k) = padded_image img r k.

(** With a constant border, the pixels beside the image hold it. *)
Definition borders_ready (wide : Z -> Z) : Prop :=
  border_type_ ws = CONSTANT -> forall k, 0 <= k < padded_length ->
  in_pixels channels ax iw k = false -> wide (wide_ptr + k) = border_value_ ws (k mod channels).

Lemma loader_bounds :
  0 <= ax < kw /\ 0 <= ay < kh /\ 1 <= channels <= 4 /\ 1 <= iw < 2 ^ 48 /\ 1 <= ih < 2 ^ 48 /\
  kw <= iw + 1 /\ kh <= ih + 1 /\ 0 <= wide_ptr < 2 ^ 63 /\ wide_ptr + padded_length <= 2 ^ 63 /\
  0 <= padded_length /\ iw * channels < 2 ^ 51.
Proof.
  pose proof (request_bounds kernel anchor channels image_size request) as (? & ? & ? & ? & ? & ? & ? & ? & ?).
  assert (0 <= (iw + kw - 1) * channels) by (apply Z.mul_nonneg_nonneg; lia).
  assert (0 <= ax * channels) by (apply Z.mul_nonneg_nonneg; lia).
  assert (iw * channels <= iw * 4) by (apply Z.mul_le_mono_nonneg_l; lia).
  destruct valid as [_ _ _ _ _ ? _ Hbs [Hb _] [Hw _] He]. unfold padded_length.
  assert (0 <= 2 * Z.max (2 * kh) 32 * buffer_rows_stride_ ws) by (apply Z.mul_nonneg_nonneg; lia).
  assert (0 <= 3 * Z.max (2 * kh) 32 * 8) by lia.
  assert (0 < (iw + kw - 1) * channels) by (apply Z.mul_pos_pos; lia).
  split_and!; try assumption; lia.
Qed.

Lemma source_row_image r : border_type_ ws = REPLICATE \/ ay <= r < ay + ih ->
  0 <= r -> 0 <= source_row r < ih.
Proof. pose proof loader_bounds. unfold source_row, clamp_index. lia. Qed.

Lemma source_position_next r : 0 <= r -> ay <= r < ay + ih ->
  rows_next (source_position r) = source_position (r + 1).
Proof.
  pose proof loader_bounds. intros Hr Ha. unfold rows_next, rows_advance, source_position, with_ptr, get_pointer_at.
  cbn [ptr_ stride_ channels_ sizeof_]. destruct src_bound as (? & ? & ? & ?).
  rewrite !Z.max_r, !Z.min_r by lia. rewrite to_ptrdiff_small by lia.
  assert ((r - ay) * ss <= ih * ss) by (apply Z.mul_le_mono_nonneg_r; lia).
  assert (0 <= (r - ay) * ss) by nia.
  rewrite Z.mul_1_l, add_stride_wrap by lia. rewrite wrap64_small by nia. f_equal. lia.
Qed.

Lemma source_position_same r : 0 <= r -> r < ay \/ ay + ih <= r ->
  source_position r = source_position (r + 1).
Proof. pose proof loader_bounds. intros. unfold source_position. f_equal. f_equal. f_equal. lia. Qed.

Lemma padded_length_div k : 0 <= k < padded_length -> 0 <= k / channels < iw + kw - 1.
Proof.
  pose proof loader_bounds. unfold padded_length. intros Hk.
  split; [apply Z.div_pos; lia|apply Z.div_lt_upper_bound; lia].
Qed.

Lemma copy_data_shows src_rows wide k r :
  ptr_ src_rows = src + source_row r * ss -> readable r -> 0 <= r ->
  border_type_ ws = REPLICATE \/ ay <= r < ay + ih -> 0 <= k < padded_length ->
  copy_data image src_rows (rows_at wide_row 0 ax) iw wide (wide_ptr + k) =
  if in_pixels channels ax iw k then padded_image img r k else wide (wide_ptr + k).
Proof.
  intros Hp Hread Hr Hrow Hk. pose proof loader_bounds as (? & ? & ? & ? & ? & ? & ? & ? & ? & ? & ?).
  pose proof (vw_wide_stride _ _ _ _ _ valid).
  unfold wide_row. rewrite copy_data_at by lia.
  destruct (in_pixels channels ax iw k) eqn:Hin; [|done]. pose proof Hin as Hin'.
  unfold in_pixels in Hin'. apply andb_true_iff in Hin' as [Hlo%Z.leb_le Hhi%Z.ltb_lt].
  rewrite Hp, (Hread Hrow) by lia. unfold padded. rewrite Hin.
  destruct (border_type_ ws) eqn:Hbt.
  - destruct Hrow as [|Hrow]; [done|]. case_cmp; simpl; try lia.
    unfold source_row, clamp_index. f_equal. lia.
  - rewrite in_pixels_div in Hin by lia. apply andb_true_iff in Hin as [?%Z.leb_le ?%Z.ltb_lt].
    pose proof (Z.div_mod k channels ltac:(lia)).
    unfold source_row, clamp_index. rewrite (Z.max_r 0 (Z.min (iw - 1) _)), (Z.min_r (iw - 1)) by lia.
    f_equal. lia.
Qed.

Lemma replicate_shows src_rows wide k r src_index dst_index count :
  ptr_ src_rows = src + source_row r * ss -> channels_ src_rows = channels -> sizeof_ src_rows = 1 ->
  stride_ src_rows = ss -> readable r -> 0 <= r -> border_type_ ws = REPLICATE -> 0 <= k < padded_length ->
  src_index = 0 /\ dst_index = 0 /\ count = ax \/
  src_index = iw - 1 /\ dst_index = ax + iw /\ count = kw - ax - 1 ->
  replicate_border image src_rows wide_row src_index dst_index count wide (wide_ptr + k) =
  if in_pixels channels dst_index count k then padded_image img r k else wide (wide_ptr + k).
Proof.
  intros Hp Hc Hz Hs Hread Hr Hbt Hk Hcase. pose proof loader_bounds as (? & ? & ? & ? & ? & ? & ? & ? & ? & ? & ?).
  pose proof (vw_wide_stride _ _ _ _ _ valid). destruct src_bound as (? & ? & ? & ?).
  pose proof (source_row_image r (or_introl Hbt) Hr).
  assert (source_row r * ss <= ih * ss) by (apply Z.mul_le_mono_nonneg_r; lia).
  assert (0 <= source_row r * ss) by (apply Z.mul_nonneg_nonneg; lia).
  unfold wide_row. rewrite replicate_border_at by lia.
  destruct (in_pixels channels dst_index count k) eqn:Hin; [|done].
  rewrite in_pixels_div in Hin by lia. apply andb_true_iff in Hin as [?%Z.leb_le ?%Z.ltb_lt].
  pose proof (Z.mod_pos_bound k channels ltac:(lia)).
  assert (0 <= src_index * channels <= (iw - 1) * channels)
    by (split; [apply Z.mul_nonneg_nonneg|apply Z.mul_le_mono_nonneg_r]; lia).
  rewrite Hp, (Hread (or_introl Hbt)) by lia. unfold padded. rewrite Hbt. f_equal. f_equal. f_equal.
  unfold clamp_index. lia.
Qed.

(** The borders and the row fill the whole wide row. *)
Lemma whole_row k : 0 <= k < padded_length ->
  in_pixels channels (ax + iw) (kw - ax - 1) k = false -> in_pixels channels ax iw k = false ->
  in_pixels channels 0 ax k = true.
Proof.
  intros Hk. pose proof loader_bounds. pose proof (padded_length_div k Hk).
  rewrite !in_pixels_div by lia. case_cmp; simpl; done || lia.
Qed.

Lemma load_replicated_shows src_rows wide r :
  ptr_ src_rows = src + source_row r * ss -> channels_ src_rows = channels -> sizeof_ src_rows = 1 ->
  stride_ src_rows = ss -> readable r -> 0 <= r -> border_type_ ws = REPLICATE ->
  shows (load_replicated ws image wide_row src_rows wide) r.
Proof.
  intros Hp Hc Hz Hs Hread Hr Hbt k Hk. pose proof loader_bounds as (? & ? & ? & ? & ? & ? & ? & ? & ? & ? & ?).
  unfold load_replicated. rewrite (vw_margin _ _ _ _ _ valid), (vw_src_width _ _ _ _ _ valid).
  rewrite (make_margin_value kernel anchor channels image_size request). cbn [left right].
  rewrite (size_sub_small iw 1), (size_add_small ax iw) by lia.
  rewrite (replicate_shows src_rows _ k r) by tauto.
  destruct (in_pixels channels (ax + iw) (kw - ax - 1) k) eqn:Hright; [done|].
  rewrite (copy_data_shows src_rows _ k r) by tauto.
  destruct (in_pixels channels ax iw k) eqn:Hmid; [done|].
  rewrite (replicate_shows src_rows _ k r) by tauto.
  by rewrite (whole_row k Hk Hright Hmid).
Qed.

Lemma constant_border_at dst_index count wide k :
  0 <= count <= iw + kw ->
  make_constant_border (border_value_ ws) wide_row dst_index count wide (wide_ptr + k) =
  if in_pixels channels dst_index count k then border_value_ ws (k mod channels) else wide (wide_ptr + k).
Proof.
  intros Hc. pose proof loader_bounds as (? & ? & ? & ? & ? & ? & ? & ? & ? & ? & ?).
  pose proof (vw_wide_stride _ _ _ _ _ valid).
  assert (count * channels <= count * 4) by (apply Z.mul_le_mono_nonneg_l; lia).
  apply make_constant_border_at; lia.
Qed.

(** A row outside the image, with a constant border. *)
Lemma padded_outside r k :
  border_type_ ws = CONSTANT -> r < ay \/ ay + ih <= r -> padded_image img r k = border_value_ ws (k mod channels).
Proof.
  intros Hbt Hr. unfold padded. rewrite Hbt. case_cmp; simpl; done || lia.
Qed.

Lemma padded_beside r k :
  border_type_ ws = CONSTANT -> in_pixels channels ax iw k = false ->
  padded_image img r k = border_value_ ws (k mod channels).
Proof. intros Hbt Hk. unfold padded. by rewrite Hbt, Hk, andb_false_r. Qed.

(** The state before padded row [r] is loaded. *)
Definition loader_at (wide : Z -> Z) (r : Z) : Loader :=
  {| l_wide := wide; l_src_rows := source_position r; l_row_index := r |}.

(** What loading padded row [r] must achieve. *)
Definition loads (r : Z) (st : Loader) : Prop :=
  exists wide, st = loader_at wide (r + 1) /\ shows wide r /\ borders_ready wide.

Lemma row_index_next r : 0 <= r < padded_height -> r ⊞ 1 = r + 1 /\ ay ⊞ ih = ay + ih.
Proof.
  pose proof loader_bounds as (? & ? & ? & ? & ? & ? & ? & ? & ? & ? & ?). unfold padded_height.
  intros. split; apply size_add_small; lia.
Qed.

Lemma load_first_loads wide r :
  0 <= r < padded_height -> readable r ->
  loads r (load_first ws image wide_row first_row last_row (loader_at wide r)).
Proof.
  intros Hr Hread. pose proof loader_bounds as (? & ? & ? & ? & ? & ? & ? & ? & ? & ? & ?).
  destruct (row_index_next r Hr) as [Hn Hah].
  unfold load_first, loader_at. rewrite (vw_margin _ _ _ _ _ valid), (vw_src_width _ _ _ _ _ valid).
  rewrite (vw_image_size _ _ _ _ _ valid).
  rewrite (make_margin_value kernel anchor channels image_size request). cbn [left right top].
  rewrite Hah, (size_add_small ax iw), Hn by lia.
  destruct (border_type_ ws) eqn:Hbt.
  - set (wide0 := make_constant_border _ _ 0 ax wide).
    assert (exists wide1, (if (r <? ay) || (ay + ih <=? r)
        then (make_constant_border (border_value_ ws) wide_row ax iw wide0, source_position r)
        else (copy_data image (source_position r) (rows_at wide_row 0 ax) iw wide0, rows_next (source_position r))) =
        (wide1, source_position (r + 1)) /\
      forall k, 0 <= k < padded_length -> wide1 (wide_ptr + k) =
        if in_pixels channels ax iw k then padded_image img r k else wide0 (wide_ptr + k))
      as (wide1 & -> & Hw1).
    { destruct (Z.ltb_spec r ay), (Z.leb_spec (ay + ih) r); cbn [orb]; eexists.
      1-3: (rewrite source_position_same by lia; split; [done|]; intros k Hk;
        rewrite constant_border_at, padded_outside by (done || lia); done).
      rewrite source_position_next by lia. split; [done|]. intros k Hk.
      apply (copy_data_shows _ _ k r); try done; try lia. cbn [ptr_ source_position].
      unfold source_row, clamp_index. do 2 f_equal. lia. }
    eexists. split; [done|].
    assert (forall k, 0 <= k < padded_length ->
      make_constant_border (border_value_ ws) wide_row (ax + iw) (kw - ax - 1) wide1 (wide_ptr + k) =
      if in_pixels channels ax iw k then padded_image img r k else border_value_ ws (k mod channels)) as Hall.
    { intros k Hk. rewrite constant_border_at by lia.
      destruct (in_pixels channels (ax + iw) (kw - ax - 1) k) eqn:Hright.
      - rewrite in_pixels_div in Hright |- * by lia. apply andb_true_iff in Hright as [?%Z.leb_le ?%Z.ltb_lt].
        case_cmp; simpl; done || lia.
      - rewrite Hw1 by done. destruct (in_pixels channels ax iw k) eqn:Hmid; [done|].
        unfold wide0. rewrite constant_border_at by lia. by rewrite (whole_row k Hk Hright Hmid). }
    split.
    + intros k Hk. rewrite Hall by done. destruct (in_pixels channels ax iw k) eqn:Hin; [done|].
      by rewrite padded_beside.
    + intros _ k Hk Hin. by rewrite Hall, Hin.
  - assert (exists cur, (if r <? ay then (first_row, source_position r)
        else if r <? ay + ih then (source_position r, rows_next (source_position r))
        else (last_row, source_position r)) = (cur, source_position (r + 1)) /\
      ptr_ cur = src + source_row r * ss /\ channels_ cur = channels /\ sizeof_ cur = 1 /\ stride_ cur = ss)
      as (cur & -> & Hp & Hc & Hz & Hs).
    { destruct (Z.ltb_spec r ay); [|destruct (Z.ltb_spec r (ay + ih))]; eexists;
        rewrite ?source_position_next by lia; rewrite <- ?source_position_same by lia;
        (split; [done|]); unfold first_row, source_position, source_row, clamp_index; cbn;
        split_and!; try done; do 2 f_equal; lia. }
    eexists. split; [done|]. split; [by apply load_replicated_shows; try lia|]. intros Hbt'. congruence.
Qed.

Lemma load_next_loads wide r :
  ay <= r < padded_height -> readable r -> borders_ready wide ->
  loads r (load_next ws image wide_row last_row (loader_at wide r)).
Proof.
  intros Hr Hread Hborder. pose proof loader_bounds as (? & ? & ? & ? & ? & ? & ? & ? & ? & ? & ?).
  destruct (row_index_next r ltac:(lia)) as [Hn Hah].
  unfold load_next, loader_at. rewrite (vw_margin _ _ _ _ _ valid), (vw_src_width _ _ _ _ _ valid).
  rewrite (vw_image_size _ _ _ _ _ valid).
  rewrite (make_margin_value kernel anchor channels image_size request). cbn [left right top].
  rewrite Hah, Hn by lia.
  destruct (border_type_ ws) eqn:Hbt.
  - assert (exists wide1, (if r <? ay + ih
        then (copy_data image (source_position r) (rows_at wide_row 0 ax) iw wide, rows_next (source_position r))
        else (make_constant_border (border_value_ ws) wide_row ax iw wide, source_position r)) =
        (wide1, source_position (r + 1)) /\
      forall k, 0 <= k < padded_length -> wide1 (wide_ptr + k) =
        if in_pixels channels ax iw k then padded_image img r k else wide (wide_ptr + k))
      as (wide1 & -> & Hw1).
    { destruct (Z.ltb_spec r (ay + ih)); eexists.
      - rewrite source_position_next by lia. split; [done|]. intros k Hk.
        apply (copy_data_shows _ _ k r); try done; try lia. cbn [ptr_ source_position].
        unfold source_row, clamp_index. do 2 f_equal. lia.
      - rewrite source_position_same by lia. split; [done|]. intros k Hk.
        rewrite constant_border_at, padded_outside by (done || lia). done. }
    eexists. split; [done|]. split.
    + intros k Hk. rewrite Hw1 by done. destruct (in_pixels channels ax iw k) eqn:Hin; [done|].
      rewrite padded_beside by done. by apply Hborder.
    + intros _ k Hk Hin. rewrite Hw1, Hin by done. by apply Hborder.
  - assert (exists cur, (if r <? ay + ih then (source_position r, rows_next (source_position r))
        else (last_row, source_position r)) = (cur, source_position (r + 1)) /\
      ptr_ cur = src + source_row r * ss /\ channels_ cur = channels /\ sizeof_ cur = 1 /\ stride_ cur = ss)
      as (cur & -> & Hp & Hc & Hz & Hs).
    { destruct (Z.ltb_spec r (ay + ih)); eexists;
        rewrite ?source_position_next by lia; rewrite <- ?source_position_same by lia;
        (split; [done|]); unfold source_position, source_row, clamp_index; cbn;
        split_and!; try done; do 2 f_equal; lia. }
    eexists. split; [done|]. split; [by apply load_replicated_shows; try lia|]. intros Hbt'. congruence.
Qed.
End loader.

(** ** Filling the buffer rows *)

Lemma reduce_ext op n F G : 1 <= n -> (forall t, 0 <= t < n -> F t = G t) -> reduce op n F = reduce op n G.
Proof.
  intros Hn He. unfold reduce. rewrite (He 0) by lia. apply for_range_ext. intros t acc Ht. by rewrite He by lia.
Qed.

Section buffering.
Variables (kernel : Rectangle) (anchor : Point) (channels : Z) (image_size : Rectangle).
Variable ws : MorphologyWorkspace.
Hypothesis request : valid_request kernel anchor channels image_size.
Hypothesis valid : valid_workspace kernel anchor channels image_size ws.
Context `{Operation} (op : Z -> Z -> Z) `{!OperationLaws op kernel}.

Local Abbreviation kw := (width_ kernel).
Local Abbreviation kh := (height_ kernel).
Local Abbreviation ay := (point_y anchor).
Local Abbreviation iw := (width_ image_size).
Local Abbreviation ih := (height_ image_size).
Local Abbreviation depth := (rows_per_iteration_ ws).
Local Abbreviation buffer_ptr := (data_ ws + buffer_rows_offset_ ws).
Local Abbreviation bs := (buffer_rows_stride_ ws).
Local Abbreviation wide_rows := (wide_row channels ws).

Variables (src ss : Z) (img : Z -> Z -> Z).

Local Abbreviation row_result :=
  (horizontal_result kernel anchor image_size channels (border_type_ ws) (border_value_ ws) op img).
Local Abbreviation row_shown := (shows kernel anchor channels image_size ws img).
Local Abbreviation start := (loader_at anchor channels image_size src ss).

(** Buffer rows hold the horizontal results of padded rows [lo, hi). *)
Definition held (buffer : Z -> Z) (lo hi : Z) : Prop :=
  forall r e, lo <= r < hi -> 0 <= e < iw * channels ->
  buffer (buffer_ptr + (r mod (2 * depth)) * bs + e) = row_result r e.

(** The row pointers, with the slots where writing and reading starts. *)
Definition db_ready (db : DoubleBufferedIndirectRows) (write read : Z) : Prop :=
  (forall k, 0 <= k < 4 * depth -> db_slots db k = buffer_ptr + (k mod (2 * depth)) * bs) /\
  db_0 db = write /\ db_1 db = read /\ db_stride db = bs /\ db_channels db = channels.

Lemma db_swap_ready db write read : db_ready db write read -> db_ready (db_swap db) read write.
Proof. intros (? & ? & ? & ? & ?). done. Qed.

Lemma buffer_bounds :
  2 * kh <= depth /\ 32 <= depth < 2 ^ 50 /\ 0 < buffer_ptr /\ Z.max 16 (iw * channels) <= bs < 2 ^ 52 /\
  0 <= 2 * depth * bs /\ buffer_ptr + 2 * depth * bs < 2 ^ 63.
Proof.
  pose proof (request_bounds kernel anchor channels image_size request) as (? & ? & ? & ? & ? & ? & ? & ? & ?).
  assert (0 < (iw + kw - 1) * channels) by (apply Z.mul_pos_pos; lia).
  destruct valid as [_ _ Hd _ _ ? _ Hbs [Hb _] [Hw _] He]. rewrite Hd in *.
  assert (0 <= 2 * Z.max (2 * kh) 32 * bs) by (apply Z.mul_nonneg_nonneg; lia).
  split_and!; lia.
Qed.

Lemma slot_bound q : 0 <= q < 2 * depth -> 0 <= q * bs /\ q * bs + bs <= 2 * depth * bs.
Proof.
  intros Hq. pose proof buffer_bounds as (? & ? & ? & ? & ? & ?). split; [apply Z.mul_nonneg_nonneg; lia|].
  replace (q * bs + bs) with ((q + 1) * bs) by lia. apply Z.mul_le_mono_nonneg_r; lia.
Qed.

Lemma write_row_ptr db write read index :
  db_ready db write read -> 0 <= write <= depth -> 0 <= index < depth ->
  ptr_ (indirect_row (write_at db) index) = buffer_ptr + ((write + index) mod (2 * depth)) * bs /\
  channels_ (indirect_row (write_at db) index) = channels.
Proof.
  intros (Hs & H0 & _ & Hst & Hc) Hw Hi. pose proof buffer_bounds as (? & ? & ? & ? & ? & ?).
  pose proof (request_bounds kernel anchor channels image_size request) as (_ & _ & ? & _).
  unfold indirect_row, write_at, db_rows, indirect_at. cbn [islots ibase istride_ ichannels_].
  rewrite Hst, Hc, H0, Hs by lia.
  pose proof (slot_bound ((write + index) mod (2 * depth)) ltac:(apply Z.mod_pos_bound; lia)).
  split; [|done]. rewrite rows_at_ptr; cbn; lia.
Qed.

(** Writing the result of row [r] into its buffer row. *)
Lemma held_next buffer buffer' lo r wide :
  held buffer lo r -> r + 1 - lo <= 2 * depth -> lo <= r ->
  row_shown wide r ->
  let dst := buffer_ptr + (r mod (2 * depth)) * bs in
  (forall b, buffer' b = if (dst <=? b) && (b <? dst + iw * channels)
    then reduce op kw (fun t => wide (data_ ws + wide_rows_offset_ ws + (b - dst + t * channels))) else buffer b) ->
  held buffer' lo (r + 1).
Proof.
  intros Hh Hlo Hle Hs dst Hb r' e Hr' He. pose proof buffer_bounds as (? & ? & ? & ? & ? & ?).
  pose proof (request_bounds kernel anchor channels image_size request) as (? & ? & ? & ? & ? & ? & ? & ? & ?).
  rewrite Hb. destruct (Z.eq_dec r' r) as [->|Hne].
  - fold dst. case_cmp; simpl; try lia. unfold horizontal_result. apply reduce_ext; [lia|]. intros t Ht.
    replace (dst + e - dst + t * channels) with (e + t * channels) by lia. apply Hs.
    unfold padded_length. assert (t * channels <= (kw - 1) * channels) by (apply Z.mul_le_mono_nonneg_r; lia).
    assert (0 <= t * channels) by (apply Z.mul_nonneg_nonneg; lia). lia.
  - rewrite <- (Hh r' e) by lia. subst dst.
    assert (r' mod (2 * depth) <> r mod (2 * depth)) as Hmod.
    { intros Heq. pose proof (Z.div_mod r (2 * depth) ltac:(lia)). pose proof (Z.div_mod r' (2 * depth) ltac:(lia)).
      rewrite Heq in *. assert (2 * depth * (r / (2 * depth)) - 2 * depth * (r' / (2 * depth)) = r - r') by lia.
      assert (r / (2 * depth) - r' / (2 * depth) = 0 \/ 1 <= r / (2 * depth) - r' / (2 * depth) \/
        r / (2 * depth) - r' / (2 * depth) <= -1) as [?|[?|?]] by lia; nia. }
    set (q := r mod (2 * depth)) in *. set (q' := r' mod (2 * depth)) in *.
    destruct (Z.lt_ge_cases q' q).
    + assert ((q' + 1) * bs <= q * bs) by (apply Z.mul_le_mono_nonneg_r; lia). case_cmp; simpl; done || lia.
    + assert ((q + 1) * bs <= q' * bs) by (apply Z.mul_le_mono_nonneg_r; lia). case_cmp; simpl; done || lia.
Qed.

(** A run of the horizontal loop from padded row [r0]. *)
Lemma horizontal_rows_hold ws' load db write read r0 n lo (Inv : Z -> (Z -> Z) -> Prop) wide buffer :
  image_size_ ws' = image_size -> db_ready db write read -> 0 <= write <= depth -> 0 <= n <= depth ->
  (0 < n -> write mod (2 * depth) = r0 mod (2 * depth)) -> lo <= r0 -> r0 + n - lo <= 2 * depth ->
  (forall r wide, r0 <= r < r0 + n -> Inv r wide -> exists wide',
    load (start wide r) = start wide' (r + 1) /\ row_shown wide' r /\ Inv (r + 1) wide') ->
  held buffer lo r0 -> Inv r0 wide ->
  exists wide' buffer', horizontal_rows ws' load wide_rows db n (Some (start wide r0, buffer)) =
      Some (start wide' (r0 + n), buffer') /\ held buffer' lo (r0 + n) /\ Inv (r0 + n) wide'.
Proof.
  intros Hsize Hdb Hw Hn Hmod Hlo Hlen Hload Hheld Hinv.
  pose proof buffer_bounds as (? & ? & ? & ? & ? & ?).
  pose proof (request_bounds kernel anchor channels image_size request) as (? & ? & ? & ? & ? & ? & ? & ? & ?).
  unfold horizontal_rows. assert (n <= n) as Hnn by lia. revert Hnn.
  apply (for_range_ind (fun i st => i <= n -> exists wide' buffer', st = Some (start wide' (r0 + i), buffer') /\
    held buffer' lo (r0 + i) /\ Inv (r0 + i) wide')); [lia| |].
  - intros _. exists wide, buffer. rewrite Z.add_0_r. done.
  - intros i st Hi IH Hle. destruct (IH ltac:(lia)) as (wide1 & buffer1 & -> & Hheld1 & Hinv1).
    destruct (Hload (r0 + i) wide1 ltac:(lia) Hinv1) as (wide2 & Hl & Hshown & Hinv2). rewrite Hl, Hsize.
    destruct (write_row_ptr db write read i Hdb Hw ltac:(lia)) as [Hptr Hch].
    assert (iw * channels <= iw * 4) by (apply Z.mul_le_mono_nonneg_l; lia).
    destruct (horizontal_law iw (l_wide (start wide2 (r0 + i + 1))) wide_rows
      (indirect_row (write_at db) i) buffer1) as (buffer2 & -> & Hb2); [cbn; lia..|].
    exists wide2, buffer2. rewrite Z.add_assoc. split_and!; [done| |done].
    apply (held_next buffer1 buffer2 lo (r0 + i) wide2); try done; try lia.
    intros b. rewrite Hb2, Hptr.
    replace ((write + i) mod (2 * depth)) with ((r0 + i) mod (2 * depth)); [done|].
    by rewrite (Zplus_mod r0), <- Hmod, <- Zplus_mod by lia.
Qed.
End buffering.

(** ** The iterations of step 3 *)

Lemma rows_stored_empty dst ds len value image : rows_stored dst ds len 0 value image image.
Proof. intros a. case_cmp; simpl; done || lia. Qed.

(** Storing rows [0, v) and then [v, v + n) stores rows [0, v + n). *)
Lemma rows_stored_append dst ds len v n value value' image image1 image2 :
  0 < ds -> 0 <= v -> 0 <= n -> (forall y k, 0 <= y < n -> 0 <= k < len -> value' y k = value (v + y) k) ->
  rows_stored dst ds len v value image image1 ->
  rows_stored (dst + v * ds) ds len n value' image1 image2 ->
  rows_stored dst ds len (v + n) value image image2.
Proof.
  intros Hds Hv Hn Heq H1 H2 a. rewrite H2, H1.
  replace (a - (dst + v * ds)) with (a - dst + - v * ds) by lia.
  rewrite Z.mod_add, Z.div_add by lia.
  pose proof (Z.mod_pos_bound (a - dst) ds Hds).
  set (q := (a - dst) / ds) in *. set (r := (a - dst) mod ds) in *.
  destruct (Z.ltb_spec r len); simpl; [|done].
  destruct (Z.leb_spec 0 (q + - v)), (Z.ltb_spec (q + - v) n); simpl; try (case_cmp; simpl; done || lia).
  rewrite Heq by lia. replace (v + (q + - v)) with q by lia. case_cmp; simpl; done || lia.
Qed.

Section iterations.
Variables (kernel : Rectangle) (anchor : Point) (channels : Z) (image_size : Rectangle).
Variable ws : MorphologyWorkspace.
Hypothesis request : valid_request kernel anchor channels image_size.
Hypothesis valid : valid_workspace kernel anchor channels image_size ws.
Context `{Operation} (op : Z -> Z -> Z) `{!OperationLaws op kernel}.

Local Abbreviation kw := (width_ kernel).
Local Abbreviation kh := (height_ kernel).
Local Abbreviation ay := (point_y anchor).
Local Abbreviation iw := (width_ image_size).
Local Abbreviation ih := (height_ image_size).
Local Abbreviation depth := (rows_per_iteration_ ws).
Local Abbreviation buffer_ptr := (data_ ws + buffer_rows_offset_ ws).
Local Abbreviation bs := (buffer_rows_stride_ ws).
Local Abbreviation total := (padded_height kernel image_size).

(** Source and destination, and the image before [process]. *)
Variables (src ss dst ds : Z) (image0 : Z -> Z).

(** An image of this size at an address: it lies in the address space. *)
Definition image_fits (ptr stride : Z) : Prop :=
  0 <= ptr /\ 0 <= stride < 2 ^ 62 /\ ih * stride < 2 ^ 62 /\ ptr + (ih + 2) * stride < 2 ^ 64.
Hypothesis src_fits : image_fits src ss.
Hypothesis dst_fits : image_fits dst ds.
Hypothesis dst_rows_disjoint : iw * channels <= ds.

(** The destination is the source, or no byte of the source is in it. *)
Definition separate : Prop :=
  src = dst /\ ss = ds \/
  forall y e, 0 <= y < ih -> 0 <= e < iw * channels ->
    let a := src + y * ss + e in
    ~ ((a - dst) mod ds < iw * channels /\ 0 <= (a - dst) / ds < ih).
Hypothesis aliasing : separate.

(** The rows of the source. *)
Definition source_image (y e : Z) : Z := image0 (src + y * ss + e).

Local Abbreviation result :=
  (filtered kernel anchor image_size channels (border_type_ ws) (border_value_ ws) op source_image).
Local Abbreviation stored := (rows_stored dst ds (iw * channels)).
Local Abbreviation buffer_held := (held kernel anchor channels image_size ws op source_image).
Local Abbreviation ready := (borders_ready kernel anchor channels image_size ws).
Local Abbreviation start := (loader_at anchor channels image_size src ss).

Lemma iteration_bounds :
  0 <= ay < kh /\ 1 <= channels <= 4 /\ 1 <= iw < 2 ^ 48 /\ 1 <= ih < 2 ^ 48 /\ kh <= ih + 1 /\
  2 * kh <= depth /\ 32 <= depth < 2 ^ 50 /\ total = ih + kh - 1 /\ 0 < iw * channels <= ds /\
  iw * channels < 2 ^ 51.
Proof.
  pose proof (request_bounds kernel anchor channels image_size request) as (? & ? & ? & ? & ? & ? & ? & ? & ?).
  pose proof (buffer_bounds kernel anchor channels image_size ws request valid) as (? & ? & _).
  assert (iw * channels <= iw * 4) by (apply Z.mul_le_mono_nonneg_l; lia).
  assert (0 < iw * channels) by (apply Z.mul_pos_pos; lia). unfold padded_height. split_and!; lia.
Qed.

(** Source rows that are not overwritten yet are readable. *)
Lemma readable_row image v r :
  0 <= v <= ih -> stored v result image0 image ->
  0 <= r -> (border_type_ ws = REPLICATE \/ ay <= r < ay + ih -> v <= source_row anchor image_size r \/ v = 0) ->
  readable anchor channels image_size ws src ss image source_image r.
Proof.
  intros Hv Hst Hr Hrow Hneed e He. specialize (Hrow Hneed).
  pose proof iteration_bounds as (? & ? & ? & ? & ? & ? & ? & ? & ? & ?).
  pose proof (source_row_image kernel anchor channels image_size ws request valid r Hneed Hr) as Hy.
  set (y := source_row anchor image_size r) in *. unfold source_image. rewrite Hst.
  destruct aliasing as [[-> ->]|Hdis].
  - replace (dst + y * ds + e - dst) with (e + y * ds) by lia.
    rewrite Z.mod_add, Z.div_add, (Z.div_small e), (Z.mod_small e) by lia.
    case_cmp; simpl; done || lia.
  - specialize (Hdis y e Hy He). cbn zeta in Hdis. case_cmp; simpl; try done.
    exfalso. apply Hdis. lia.
Qed.

Lemma dst_rows_at_advance y n :
  0 <= y -> 0 <= n -> y + n <= ih -> rows_advance (dst_rows_at dst ds channels y) n = dst_rows_at dst ds channels (y + n).
Proof.
  intros Hy Hn Hyn. destruct dst_fits as (? & ? & ? & ?). unfold rows_advance, get_pointer_at, with_ptr, dst_rows_at.
  cbn [ptr_ stride_ channels_ sizeof_]. rewrite to_ptrdiff_small by lia.
  assert (0 <= n * ds) by (apply Z.mul_nonneg_nonneg; lia).
  assert (0 <= y * ds) by (apply Z.mul_nonneg_nonneg; lia).
  assert ((y + n) * ds <= ih * ds) by (apply Z.mul_le_mono_nonneg_r; lia).
  rewrite add_stride_wrap, wrap64_small by lia. f_equal. lia.
Qed.

(** Rows of the padded image that are buffered, and rows of the output, after [j]
    iterations. *)
Definition rows_buffered (j : Z) : Z := Z.min ((j + 1) * depth) total.
Definition rows_written (j : Z) : Z := Z.min (j * depth) ih.

(** The state after [j] iterations. *)
Definition after_iterations (j : Z) (st : State) : Prop :=
  exists wide buffer image db,
    st = {| s_ws := with_heights ws (total - rows_buffered j) (ih - rows_written j);
            s_loader := start wide (rows_buffered j); s_buffer := buffer; s_image := image;
            s_dst_rows := dst_rows_at dst ds channels (rows_written j); s_db := db |} /\
    db_ready channels ws db ((j + 1) mod 2 * depth) (j mod 2 * depth) /\
    ready wide /\ buffer_held buffer (j * depth) (rows_buffered j) /\
    stored (rows_written j) result image0 image.

(** Writing and reading alternate between slot 0 and slot [depth]. *)
Lemma half_slot j : j mod 2 * depth = 0 \/ j mod 2 * depth = depth.
Proof.
  pose proof (Z.mod_pos_bound j 2 ltac:(lia)).
  assert (j mod 2 = 0 \/ j mod 2 = 1) as [-> | ->] by lia; lia.
Qed.

(** The vertical pass reads the right buffer rows. *)
Lemma vertical_result buffer db j y k :
  db_ready channels ws db ((j + 1) mod 2 * depth) (j mod 2 * depth) -> 0 <= j -> j * depth < ih ->
  buffer_held buffer (j * depth) (rows_buffered (j + 1)) ->
  0 <= y < rows_written (j + 1) - j * depth -> 0 <= k < iw * channels ->
  vertical_value op kh buffer (read_at db) y k = result (j * depth + y) k.
Proof.
  intros (Hs & _ & H1 & _) Hj Hjh Hheld Hy Hk. unfold rows_buffered, rows_written in *.
  pose proof iteration_bounds as (? & ? & ? & ? & ? & ? & ? & ? & ? & ?).
  unfold vertical_value, filtered. apply reduce_ext; [lia|]. intros t Ht.
  unfold slot_value, indirect_at, read_at, db_rows. cbn [islots ibase]. rewrite H1.
  pose proof (half_slot j). rewrite Hs by lia.
  replace ((j mod 2 * depth + (y + t)) mod (2 * depth)) with ((j * depth + y + t) mod (2 * depth)).
  - apply Hheld; lia.
  - rewrite <- Z.mul_mod_distr_r by lia. rewrite Zplus_mod_idemp_l. f_equal. lia.
Qed.

Lemma iteration_step j st wide_rows' :
  0 <= j -> j * depth < ih -> after_iterations j st -> wide_rows' = wide_row channels ws ->
  exists st', process_iteration wide_rows' (last_row channels image_size src ss) st = Some st' /\
    after_iterations (j + 1) st'.
Proof.
  intros Hj Hjh (wide & buffer & image & db & -> & Hdb & Hready & Hheld & Hstored) ->.
  pose proof iteration_bounds as (? & ? & ? & ? & ? & ? & ? & Htotal & ? & ?).
  assert ((j + 1) * depth = j * depth + depth) as Hjd by lia.
  assert (0 <= j * depth) by (apply Z.mul_nonneg_nonneg; lia).
  assert (rows_written j = j * depth) as Hv by (unfold rows_written; lia).
  set (n := Z.min (total - rows_buffered j) depth). set (n2 := Z.min (ih - rows_written j) depth).
  assert (0 <= n <= depth /\ rows_buffered j + n = rows_buffered (j + 1) /\
    (0 < n -> rows_buffered j = (j + 1) * depth) /\ rows_buffered (j + 1) - j * depth <= 2 * depth /\
    j * depth <= rows_buffered j <= total) as (Hn & Hbn & Hn0 & Hspan & Hbj).
  { unfold n, rows_buffered. lia. }
  assert (0 <= n2 <= depth /\ rows_written j + n2 = rows_written (j + 1)) as (Hn2 & Hvn).
  { unfold n2, rows_written. lia. }
  unfold process_iteration, get_next_horizontal_height. cbn [with_heights horizontal_height_ rows_per_iteration_ vertical_height_].
  fold n. rewrite size_sub_small by lia.
  destruct (horizontal_rows_hold kernel anchor channels image_size ws request valid op src ss source_image
    (with_heights (with_heights ws (total - rows_buffered j) (ih - rows_written j))
       (total - rows_buffered j - n) (ih - rows_written j))
    (load_next (with_heights (with_heights ws (total - rows_buffered j) (ih - rows_written j))
       (total - rows_buffered j - n) (ih - rows_written j)) image (wide_row channels ws) (last_row channels image_size src ss))
    db ((j + 1) mod 2 * depth) (j mod 2 * depth) (rows_buffered j) n (j * depth) (fun _ => ready) wide buffer)
    as (wide' & buffer' & Hrows & Hheld' & Hready').
  - apply valid.
  - exact Hdb.
  - pose proof (half_slot (j + 1)). lia.
  - lia.
  - intros Hpos. rewrite (Hn0 Hpos), !Z.mul_mod_distr_r by lia. by rewrite Z.mod_mod by lia.
  - lia.
  - lia.
  - intros r w Hr Hw.
    destruct (load_next_loads kernel anchor channels image_size ws request valid src ss image source_image src_fits w r)
      as (w' & Heq & Hshow & Hb); [lia| |done|].
    + apply (readable_row image (rows_written j)); try done; try lia.
      intros _. left. unfold source_row, clamp_index. lia.
    + exists w'. done.
  - exact Hheld.
  - exact Hready.
  - rewrite Hrows. unfold get_next_vertical_height. cbn [with_heights horizontal_height_ rows_per_iteration_ vertical_height_ image_size_].
    fold n2. rewrite size_sub_small by lia. rewrite (vw_image_size _ _ _ _ _ valid).
    destruct dst_fits as (? & ? & ? & ?).
    assert (0 <= j * depth * ds) by (apply Z.mul_nonneg_nonneg; lia).
    assert ((j * depth + n2 + 2) * ds <= (ih + 2) * ds) by (apply Z.mul_le_mono_nonneg_r; lia).
    destruct (vertical_law buffer' (dst + j * depth * ds) ds n2 (read_at db) iw channels image)
      as (image' & Hvert & Hstored'); try lia.
    + apply Hdb.
    + intros _ Hst r Hr. destruct Hdb as (Hs & _ & Hread & Hstr & _).
      unfold read_at, db_rows, indirect_at in *. cbn [islots ibase istride_] in *. rewrite Hread.
      pose proof (half_slot j).
      set (b := j mod 2 * depth) in *. rewrite !Hs by lia.
      rewrite (Z.mod_small (b + r)), (Z.mod_small (b + 0)) by lia. rewrite Hstr in Hst. rewrite <- Hst. lia.
    + assert (dst_rows_at dst ds channels (rows_written j) = dst_rows_at (dst + j * depth * ds) ds channels 0) as Heq.
      { unfold dst_rows_at. f_equal. rewrite Hv. lia. }
      rewrite Heq, Hvert, <- Heq. eexists. split; [done|].
      exists wide', buffer', image', (db_swap db). rewrite dst_rows_at_advance by lia. split_and!.
      * f_equal; [unfold with_heights; cbn; f_equal; lia|f_equal; lia|f_equal; lia].
      * replace ((j + 1 + 1) mod 2) with (j mod 2) by (rewrite <- (Z.mod_add j 1 2) by lia; f_equal; lia).
        by apply db_swap_ready.
      * done.
      * intros r e Hr. rewrite Hbn in Hheld'. apply Hheld'. lia.
      * rewrite <- Hvn. rewrite Hv in Hstored |- *.
        apply (rows_stored_append _ _ _ _ _ result (vertical_value op kh buffer' (read_at db)) _ image); try done; try lia.
        intros y k Hy Hk. rewrite Hbn in Hheld'. eapply vertical_result; try done. lia.
Qed.

(** Step 3 runs until every row of the output is written. *)
Lemma remaining_run fuel : forall j st,
  0 <= j -> after_iterations j st -> ih - rows_written j <= Z.of_nat fuel ->
  exists j' st', process_remaining fuel (wide_row channels ws) (last_row channels image_size src ss) st = Some st' /\
    after_iterations j' st' /\ ih <= j' * depth.
Proof.
  pose proof iteration_bounds as (? & ? & ? & ? & ? & ? & ? & ? & ? & ?).
  induction fuel as [|fuel IH]; intros j st Hj Hst Hfuel; pose proof Hst as (wide & buffer & image & db & Heq & _);
    assert (vertical_height_ (s_ws st) = ih - rows_written j) as Hvh by (by rewrite Heq);
    clear Heq; cbn [process_remaining]; rewrite Hvh;
    (destruct (Z.eqb_spec (ih - rows_written j) 0) as [Hdone|Hmore];
      [exists j, st; split_and!; try done; unfold rows_written in Hdone; lia|]).
  - unfold rows_written in *. lia.
  - assert (j * depth < ih) as Hjh by (unfold rows_written in Hmore; lia).
    destruct (iteration_step j st _ Hj Hjh Hst eq_refl) as (st' & -> & Hst').
    apply (IH (j + 1) st'); [lia|done|]. unfold rows_written in *. lia.
Qed.
End iterations.

(** ** The whole of process *)

Lemma with_heights_valid kernel anchor channels image_size ws h v :
  valid_workspace kernel anchor channels image_size ws ->
  valid_workspace kernel anchor channels image_size (with_heights ws h v).
Proof. intros []. by constructor. Qed.

Section whole.
Variables (kernel : Rectangle) (anchor : Point) (channels : Z) (image_size : Rectangle).
Hypothesis request : valid_request kernel anchor channels image_size.
Context `{Operation} (op : Z -> Z -> Z) `{!OperationLaws op kernel}.

Definition image_rows (ptr stride : Z) : Rows :=
  {| ptr_ := ptr; stride_ := stride; channels_ := channels; sizeof_ := 1 |}.

Lemma first_source_rows src ss : 0 <= point_y anchor ->
  image_rows src ss = source_position anchor channels image_size src ss 0.
Proof.
  intros Ha. pose proof (request_bounds kernel anchor channels image_size request).
  unfold image_rows, source_position. f_equal. rewrite Z.max_l by lia. lia.
Qed.

Lemma last_source_rows src ss : image_fits image_size src ss ->
  rows_at (image_rows src ss) (to_ptrdiff (height_ image_size ⊟ 1)) 0 = last_row channels image_size src ss.
Proof.
  intros (? & ? & ? & ?). pose proof (request_bounds kernel anchor channels image_size request) as (? & ? & ? & ? & ? & ?).
  rewrite size_sub_small, to_ptrdiff_small by lia.
  set (r := height_ image_size - 1). assert (0 <= r * ss) by (apply Z.mul_nonneg_nonneg; lia).
  pose proof (rows_at_ptr (image_rows src ss) r 0) as Hp. cbn [ptr_ stride_ channels_ sizeof_ image_rows] in Hp.
  transitivity (with_ptr (image_rows src ss) (ptr_ (rows_at (image_rows src ss) r 0))); [done|].
  rewrite Hp by lia. unfold last_row, with_ptr, image_rows. cbn [stride_ channels_ sizeof_]. f_equal. fold r. lia.
Qed.

(** The row pointers that [process] sets up. *)
Lemma make_ready ws slots :
  valid_workspace kernel anchor channels image_size ws ->
  db_ready channels ws (make_double_buffered slots (rows_per_iteration_ ws)
    {| ptr_ := data_ ws + buffer_rows_offset_ ws; stride_ := buffer_rows_stride_ ws;
       channels_ := channels; sizeof_ := 1 |}) 0 (rows_per_iteration_ ws).
Proof.
  intros valid. pose proof (buffer_bounds kernel anchor channels image_size ws request valid) as (_ & ? & ? & ? & ? & ?).
  pose proof (request_bounds kernel anchor channels image_size request) as (? & ? & ? & ? & ? & ?).
  split; [|done]. intros k Hk. rewrite double_buffered_slots; cbn; try lia. case_cmp; simpl; done || lia.
Qed.

(** [process] stores the filtered source in the destination and nothing else in
    the image; the workspace can be used again. *)
Lemma process_run src ss dst ds m :
  valid_workspace kernel anchor channels image_size (m_ws m) ->
  image_fits image_size src ss -> image_fits image_size dst ds ->
  width_ image_size * channels <= ds ->
  separate channels image_size src ss dst ds ->
  exists m', process (image_rows src ss) (image_rows dst ds) m = Some m' /\
    m_ws m' = with_heights (m_ws m) 0 0 /\
    rows_stored dst ds (width_ image_size * channels) (height_ image_size)
      (filtered kernel anchor image_size channels (border_type_ (m_ws m)) (border_value_ (m_ws m)) op
        (source_image src ss (m_image m))) (m_image m) (m_image m').
Proof.
  intros valid Hsrc Hdst Hds Hsep. set (ws := m_ws m) in *.
  pose proof (iteration_bounds kernel anchor channels image_size ws request valid ds Hds)
    as (? & ? & ? & ? & ? & ? & ? & Htotal & ? & ?).
  pose proof (make_ready ws (m_slots m) valid) as Hdb. set (depth := rows_per_iteration_ ws) in *.
  unfold process. fold ws depth. rewrite (vw_image_size _ _ _ _ _ valid).
  rewrite (proj2 (Z.eqb_neq (width_ image_size) 0)), (proj2 (Z.eqb_neq (height_ image_size) 0)) by lia. cbn [orb].
  rewrite (vw_channels _ _ _ _ _ valid). fold (byte_row (data_ ws + wide_rows_offset_ ws) channels (wide_rows_stride_ ws)).
  fold (wide_row channels ws). set (db := make_double_buffered _ _ _) in *.
  assert (forall a b, image_size_ (with_heights ws a b) = image_size) as Hsize by (intros; apply valid).
  assert (forall a b, get_next_horizontal_height (with_heights ws a b) =
    (Z.min a depth, with_heights ws (a ⊟ Z.min a depth) b)) as Hnext by done.
  rewrite Hnext, !Hsize, (last_source_rows src ss Hsrc).
  rewrite (vw_margin _ _ _ _ _ valid), (make_margin_value kernel anchor channels image_size request). cbn [top bottom].
  rewrite (size_add_small (point_y anchor)), size_add_small by lia.
  replace (point_y anchor + height_ image_size + (height_ kernel - point_y anchor - 1))
    with (padded_height kernel image_size) by lia.
  set (total := padded_height kernel image_size) in *. set (n := Z.min total depth).
  rewrite size_sub_small by lia. rewrite (first_source_rows src ss) by lia.
  fold (loader_at anchor channels image_size src ss (m_wide m) 0).
  set (ws0 := with_heights ws (total - n) (height_ image_size)).
  destruct (horizontal_rows_hold kernel anchor channels image_size ws request valid op src ss
    (source_image src ss (m_image m)) ws0
    (load_first ws0 (m_image m) (wide_row channels ws) (source_position anchor channels image_size src ss 0)
      (last_row channels image_size src ss)) db 0 depth 0 n 0
    (fun r wide => 0 < r -> borders_ready kernel anchor channels image_size ws wide) (m_wide m) (m_buffer m))
    as (wide & buffer & Hrows & Hheld & Hready).
  - apply valid.
  - exact Hdb.
  - lia.
  - fold depth. lia.
  - done.
  - lia.
  - fold depth. lia.
  - intros r w Hr _.
    destruct (load_first_loads kernel anchor channels image_size ws request valid src ss (m_image m)
      (source_image src ss (m_image m)) Hsrc w r) as (w' & Heq & Hshow & Hb); [lia| |].
    + intros Hneed e He. done.
    + exists w'. done.
  - intros r e Hr. lia.
  - lia.
  - rewrite Hrows.
    destruct (remaining_run kernel anchor channels image_size ws request valid op src ss dst ds (m_image m)
      Hsrc Hdst Hds Hsep (Z.to_nat (height_ image_size)) 0
      {| s_ws := ws0; s_loader := loader_at anchor channels image_size src ss wide (0 + n); s_buffer := buffer;
         s_image := m_image m; s_dst_rows := image_rows dst ds; s_db := db_swap db |})
      as (j & st & Hrem & (wide' & buffer' & image' & db' & -> & _ & _ & _ & Hstored) & Hj); [lia| | |].
    + unfold after_iterations, rows_buffered, rows_written. fold depth total.
      rewrite (Z.mul_0_l depth), (Z.min_l 0) by lia.
      replace (Z.min ((0 + 1) * depth) total) with n by lia.
      exists wide, buffer, (m_image m), (db_swap db). split_and!.
      * f_equal; [unfold ws0, with_heights; cbn; f_equal; lia|].
        unfold dst_rows_at, image_rows. f_equal. lia.
      * change ((0 + 1) mod 2) with 1. change (0 mod 2) with 0. rewrite Z.mul_1_l, Z.mul_0_l.
        by apply db_swap_ready.
      * apply Hready. lia.
      * exact Hheld.
      * apply rows_stored_empty.
    + unfold rows_written. rewrite Z.mul_0_l. lia.
    + rewrite Hrem. eexists. split; [done|]. cbn [m_ws m_image s_ws s_image].
      unfold rows_written, rows_buffered in Hstored |- *. fold depth total in Hstored, Hj |- *.
      rewrite (Z.min_r (j * depth)) in Hstored |- * by lia. rewrite (Z.min_r ((j + 1) * depth)) by lia. split; [|done].
      f_equal; lia.
Qed.
End whole.
