(* ===== verification/Morphology.v ===== *)
(** * Dilation and erosion

    [DilateOperation], [ErodeOperation], [dilate] and [erode] of
    [morphology_neon.cpp] with the checks of [morphology.h].  The two operations
    discharge the contract of the workspace, so the theorem of [dilate] and
    [erode] follows from the one of [MorphologyWorkspace::process], iterated. *)

From S2P Require Import Prelude CTypes Utils Rows MorphologyOps Workspace WorkspaceProcess.

Definition morphology_is_implemented (width height kernel_width kernel_height channels : Z) : bool :=
  if KLEIDICV_MAXIMUM_CHANNEL_COUNT <? channels then false
  else if (width <? kernel_width ⊟ 1) || (height <? kernel_height ⊟ 1) then false
  else true.

Section operations.
(** Lanes of a vector of [uint8_t]. *)
Variable num_lanes : Z.

(** [DilateOperation{kernel}]: [HorizontalMax] and [VerticalMax]. *)
Definition DilateOperation (kernel : Rectangle) : Operation := {|
  process_horizontal := horizontal_process_rows Z.max num_lanes (width_ kernel);
  process_vertical := fun rect buffer => vertical_process_rows Z.max num_lanes (height_ kernel) buffer rect
|}.

(** [ErodeOperation{kernel}]: [HorizontalMin] and [VerticalMin]. *)
Definition ErodeOperation (kernel : Rectangle) : Operation := {|
  process_horizontal := horizontal_process_rows Z.min num_lanes (width_ kernel);
  process_vertical := fun rect buffer => vertical_process_rows Z.min num_lanes (height_ kernel) buffer rect
|}.

(** The state of the loop over [iterations]. *)
Definition morphology_iteration (operation : Operation) (dst_rows : Rows) (st : option (Rows * Memory))
    : option (Rows * Memory) :=
  match st with
  | None => None
  | Some (current_src_rows, m) =>
      match @process operation current_src_rows dst_rows m with
      | Some m => Some (dst_rows, m)
      | None => None
      end
  end.

(** The bodies of [dilate] and [erode], which differ in [operation] only.  The
    result is the error and the caller's image; [wide], [buffer] and [slots] are
    what the allocation holds at first. *)
Definition morphology (operation : Rectangle -> Operation) (malloc : Z -> Z) (wide buffer slots : Z -> Z)
    (src src_stride dst dst_stride width height channels kernel_width kernel_height anchor_x anchor_y : Z)
    (border_type : kleidicv_border_type_t) (border_value : option (Z -> Z)) (iterations : Z)
    (image : Z -> Z) : option (kleidicv_error_t * (Z -> Z)) :=
  match check_pointer_and_stride 1 src src_stride height ?> check_pointer_and_stride 1 dst dst_stride height ?>
        check_image_size width height ?> check_image_size kernel_width kernel_height with
  | KLEIDICV_OK =>
      match get_border_type border_type with
      | None => Some (KLEIDICV_ERROR_NOT_IMPLEMENTED, image)
      | Some morphology_border_type =>
          if negb (morphology_is_implemented width height kernel_width kernel_height channels)
          then Some (KLEIDICV_ERROR_NOT_IMPLEMENTED, image)
          else
            let rect := {| width_ := width; height_ := height |} in
            let kernel_rect := {| width_ := kernel_width; height_ := kernel_height |} in
            let anchor := {| point_x := anchor_x; point_y := anchor_y |} in
            match create malloc kernel_rect anchor morphology_border_type border_value channels 1 rect with
            | inr err => Some (err, image)
            | inl workspace =>
                let src_rows := {| ptr_ := src; stride_ := src_stride; channels_ := channels; sizeof_ := 1 |} in
                let dst_rows := {| ptr_ := dst; stride_ := dst_stride; channels_ := channels; sizeof_ := 1 |} in
                match for_range 0 iterations (fun _ => morphology_iteration (operation kernel_rect) dst_rows)
                  (Some (src_rows, {| m_ws := workspace; m_wide := wide; m_buffer := buffer;
                                      m_slots := slots; m_image := image |})) with
                | Some (_, m) => Some (KLEIDICV_OK, m_image m)
                | None => None
                end
            end
      end
  | err => Some (err, image)
  end.

Definition dilate := morphology DilateOperation.
Definition erode := morphology ErodeOperation.
End operations.

(** ** The contract of the operations *)

Lemma operation_laws (op : Z -> Z -> Z) num_lanes kernel :
  (forall a b c, op a (op b c) = op (op a b) c) -> (forall a b, op a b = op b a) ->
  1 <= num_lanes < 2 ^ 32 -> 1 <= width_ kernel < 2 ^ 60 -> 1 <= height_ kernel < 2 ^ 60 ->
  @OperationLaws {| process_horizontal := horizontal_process_rows op num_lanes (width_ kernel);
    process_vertical := fun rect buffer => vertical_process_rows op num_lanes (height_ kernel) buffer rect |}
    op kernel.
Proof.
  intros Ha Hc Hl Hw Hh. constructor.
  - intros. by apply horizontal_pass.
  - intros. by apply vertical_pass.
Qed.

Definition sane_kernel (kernel : Rectangle) : Prop := 1 <= width_ kernel < 2 ^ 60 /\ 1 <= height_ kernel < 2 ^ 60.

Lemma dilate_laws num_lanes kernel :
  1 <= num_lanes < 2 ^ 32 -> sane_kernel kernel -> @OperationLaws (DilateOperation num_lanes kernel) Z.max kernel.
Proof. intros Hl [Hw Hh]. apply operation_laws; intros; lia. Qed.

Lemma erode_laws num_lanes kernel :
  1 <= num_lanes < 2 ^ 32 -> sane_kernel kernel -> @OperationLaws (ErodeOperation num_lanes kernel) Z.min kernel.
Proof. intros Hl [Hw Hh]. apply operation_laws; intros; lia. Qed.

(** ** Iterating *)

(** The image after [n] iterations: the filter applied [n] times. *)
Definition iterated (filter : (Z -> Z -> Z) -> Z -> Z -> Z) (n : nat) (img : Z -> Z -> Z) : Z -> Z -> Z :=
  Nat.iter n filter img.

Section iterate.
Variables (kernel : Rectangle) (anchor : Point) (image_size : Rectangle) (channels : Z) (op : Z -> Z -> Z).
Hypothesis request : valid_request kernel anchor channels image_size.
Context `{Operation} `{!OperationLaws op kernel}.
Variables (bt : BorderType) (bv : Z -> Z).

Local Abbreviation len := (width_ image_size * channels).
Local Abbreviation ih := (height_ image_size).

(** The value at a pixel only depends on the pixels of the image and, with a
    constant border, on the border values. *)
Lemma filtered_ext bv' img img' y k :
  (forall r e, 0 <= r < ih -> 0 <= e < len -> img r e = img' r e) ->
  (bt = CONSTANT -> forall c, 0 <= c < channels -> bv c = bv' c) ->
  filtered kernel anchor image_size channels bt bv op img y k =
  filtered kernel anchor image_size channels bt bv' op img' y k.
Proof.
  intros He Hb. pose proof (request_bounds kernel anchor channels image_size request) as (? & ? & ? & ? & ? & ? & ? & _).
  unfold filtered, horizontal_result. apply reduce_ext; [lia|]. intros t Ht. apply reduce_ext; [lia|].
  intros t' Ht'. set (k' := k + t' * channels). pose proof (Z.mod_pos_bound k' channels ltac:(lia)).
  unfold padded. destruct bt.
  - destruct ((0 <=? _) && _ && in_pixels _ _ _ _) eqn:Hin; [|by apply Hb].
    apply andb_true_iff in Hin as [[?%Z.leb_le ?%Z.ltb_lt]%andb_true_iff Hin].
    unfold in_pixels in Hin. apply andb_true_iff in Hin as [?%Z.leb_le ?%Z.ltb_lt]. apply He; lia.
  - apply He; unfold clamp_index; [lia|].
    set (x := Z.max 0 (Z.min (width_ image_size - 1) (k' / channels - point_x anchor))).
    assert (0 <= x * channels) by (apply Z.mul_nonneg_nonneg; lia).
    assert (x * channels <= (width_ image_size - 1) * channels) by (apply Z.mul_le_mono_nonneg_r; lia). lia.
Qed.

(** Reading the stored rows back. *)
Lemma rows_stored_read dst ds value image image' y e :
  0 <= len <= ds -> rows_stored dst ds len ih value image image' -> 0 <= y < ih -> 0 <= e < len ->
  image' (dst + y * ds + e) = value y e.
Proof.
  intros Hds Hst Hy He. rewrite Hst. replace (dst + y * ds + e - dst) with (e + y * ds) by lia.
  rewrite Z.mod_add, Z.div_add, (Z.div_small e), (Z.mod_small e) by lia. case_cmp; simpl; done || lia.
Qed.

Variables (src ss dst ds : Z).
Hypothesis src_fits : image_fits image_size src ss.
Hypothesis dst_fits : image_fits image_size dst ds.
Hypothesis dst_rows_disjoint : len <= ds.
Hypothesis aliasing : separate channels image_size src ss dst ds.

Local Abbreviation filter := (filtered kernel anchor image_size channels bt bv op).

(** [n] iterations of [process]. *)
Lemma iterations_run n m :
  0 <= n -> valid_workspace kernel anchor channels image_size (m_ws m) ->
  border_type_ (m_ws m) = bt ->
  (bt = CONSTANT -> forall c, 0 <= c < channels -> border_value_ (m_ws m) c = bv c) ->
  exists rows m', for_range 0 n (fun _ => morphology_iteration _ (image_rows channels dst ds))
      (Some (image_rows channels src ss, m)) = Some (rows, m') /\
    (n = 0 -> m_image m' = m_image m) /\
    (1 <= n -> rows_stored dst ds len ih
      (iterated filter (Z.to_nat n) (source_image src ss (m_image m))) (m_image m) (m_image m')).
Proof.
  intros Hn Hvalid Hbt Hbv. set (img := source_image src ss (m_image m)).
  pose proof (iteration_bounds kernel anchor channels image_size (m_ws m) request Hvalid ds dst_rows_disjoint)
    as (_ & ? & ? & ? & _ & _ & _ & _ & ? & _).
  enough (exists rows m', for_range 0 n (fun _ => morphology_iteration _ (image_rows channels dst ds))
      (Some (image_rows channels src ss, m)) = Some (rows, m') /\
    (exists h v, m_ws m' = with_heights (m_ws m) h v) /\
    (n = 0 -> rows = image_rows channels src ss /\ m' = m) /\
    (1 <= n -> rows = image_rows channels dst ds /\
      rows_stored dst ds len ih (iterated filter (Z.to_nat n) img) (m_image m) (m_image m')))
    as (rows & m' & Heq & _ & Hz & Hs).
  { exists rows, m'. split; [done|]. split; [intros Hn0; by destruct (Hz Hn0) as [_ ->]|].
    intros Hn1. by destruct (Hs Hn1). }
  apply (for_range_ind (fun i st => exists rows m', st = Some (rows, m') /\
    (exists h v, m_ws m' = with_heights (m_ws m) h v) /\
    (i = 0 -> rows = image_rows channels src ss /\ m' = m) /\
    (1 <= i -> rows = image_rows channels dst ds /\
      rows_stored dst ds len ih (iterated filter (Z.to_nat i) img) (m_image m) (m_image m')))); [lia| |].
  { exists (image_rows channels src ss), m. split; [done|]. split; [|split; [done|lia]].
    exists (horizontal_height_ (m_ws m)), (vertical_height_ (m_ws m)). by destruct (m_ws m). }
  intros i st Hi (rows & m1 & -> & (h & v & Hws) & Hfirst & Hnext).
  assert (valid_workspace kernel anchor channels image_size (m_ws m1)) as Hvalid1
    by (rewrite Hws; by apply with_heights_valid).
  assert (forall f img', filtered kernel anchor image_size channels (border_type_ (m_ws m1))
      (border_value_ (m_ws m1)) op f = img' -> forall y k, filter f y k = img' y k) as Hfilter.
  { intros f img' <- y k. rewrite Hws. cbn [with_heights border_type_ border_value_]. rewrite Hbt.
    apply filtered_ext; [done|]. intros Hc c Hcc. symmetry. by apply Hbv. }
  unfold morphology_iteration. destruct (Z.eq_dec i 0) as [->|Hne].
  - destruct (Hfirst eq_refl) as [-> ->].
    destruct (process_run kernel anchor channels image_size request op src ss dst ds m) as (m2 & -> & Hws2 & Hst);
      try done. exists (image_rows channels dst ds), m2. split; [done|]. split; [|split; [lia|]].
    + exists 0, 0. by rewrite Hws2.
    + intros _. split; [done|]. intros a. rewrite Hst. change (Z.to_nat (0 + 1)) with 1%nat.
      cbn [iterated Nat.iter nat_rect]. by rewrite (Hfilter _ _ eq_refl).
  - destruct (Hnext ltac:(lia)) as [-> Hst1].
    destruct (process_run kernel anchor channels image_size request op dst ds dst ds m1) as (m2 & -> & Hws2 & Hst);
      try done; [by left|].
    exists (image_rows channels dst ds), m2. split; [done|]. split; [|split; [lia|]].
    + exists 0, 0. by rewrite Hws2, Hws.
    + intros _. split; [done|]. intros a. rewrite Hst, Hst1. set (y := (a - dst) / ds). set (k := (a - dst) mod ds).
      destruct ((k <? len) && ((0 <=? y) && (y <? ih))); [|done].
      replace (Z.to_nat (i + 1)) with (S (Z.to_nat i)) by lia.
      change (iterated filter (S (Z.to_nat i)) img) with (filter (iterated filter (Z.to_nat i) img)).
      rewrite <- (Hfilter _ _ eq_refl). apply filtered_ext; [|done].
      intros r e Hr He. unfold source_image. apply (rows_stored_read dst ds _ (m_image m)); try done; lia.
Qed.
End iterate.

(** ** What the filter computes *)

Lemma reduce_bound (op : Z -> Z -> Z) (le : Z -> Z -> Prop) n F :
  (forall a, le a a) -> (forall a b c, le a b -> le b c -> le a c) ->
  (forall a b, le a (op a b) /\ le b (op a b)) -> (forall a b, op a b = a \/ op a b = b) -> 1 <= n ->
  (forall t, 0 <= t < n -> le (F t) (reduce op n F)) /\ exists t, 0 <= t < n /\ reduce op n F = F t.
Proof.
  intros Hrefl Htrans Hle Hone Hn. unfold reduce.
  apply (for_range_ind (fun i acc => (forall t, 0 <= t < i -> le (F t) acc) /\ exists t, 0 <= t < i /\ acc = F t));
    [lia| |].
  - split; [intros t Ht; by replace t with 0 by lia|exists 0; split; [lia|done]].
  - intros i acc Hi (Hall & t0 & Ht0 & Heq). split.
    + intros t Ht. destruct (Z.eq_dec t i) as [->|]; [apply Hle|].
      apply (Htrans _ acc); [apply Hall; lia|apply Hle].
    + destruct (Hone acc (F i)) as [->| ->]; [exists t0|exists i]; split; lia || done.
Qed.

(** The window of a pixel of the padded image. *)
Definition kernel_window (kernel : Rectangle) (t t' : Z) : Prop := 0 <= t < height_ kernel /\ 0 <= t' < width_ kernel.

Lemma filtered_bound (op : Z -> Z -> Z) (le : Z -> Z -> Prop) kernel anchor image_size channels bt bv img y k :
  (forall a, le a a) -> (forall a b c, le a b -> le b c -> le a c) ->
  (forall a b, le a (op a b) /\ le b (op a b)) -> (forall a b, op a b = a \/ op a b = b) ->
  1 <= width_ kernel -> 1 <= height_ kernel ->
  let pixel t t' := padded anchor image_size channels bt bv img (y + t) (k + t' * channels) in
  let r := filtered kernel anchor image_size channels bt bv op img y k in
  (forall t t', kernel_window kernel t t' -> le (pixel t t') r) /\
  exists t t', kernel_window kernel t t' /\ r = pixel t t'.
Proof.
  intros Hrefl Htrans Hle Hone Hw Hh. cbn zeta. unfold filtered.
  pose proof (reduce_bound op le (height_ kernel)
    (fun t => horizontal_result kernel anchor image_size channels bt bv op img (y + t) k) Hrefl Htrans Hle Hone Hh)
    as [Hv (t0 & Ht0 & Heq)].
  pose proof (fun t => reduce_bound op le (width_ kernel)
    (fun t' => padded anchor image_size channels bt bv img (y + t) (k + t' * channels)) Hrefl Htrans Hle Hone Hw) as Hrow.
  split.
  - intros t t' [Ht Ht']. apply (Htrans _ (horizontal_result kernel anchor image_size channels bt bv op img (y + t) k)).
    + by apply (Hrow t).
    + by apply Hv.
  - destruct (Hrow t0) as [_ (t1 & Ht1 & Heq1)]. exists t0, t1. split; [done|]. rewrite Heq. exact Heq1.
Qed.

Lemma filtered_extremum kernel anchor image_size channels bt bv img y k :
  1 <= width_ kernel -> 1 <= height_ kernel ->
  let pixel t t' := padded anchor image_size channels bt bv img (y + t) (k + t' * channels) in
  let dilated := filtered kernel anchor image_size channels bt bv Z.max img y k in
  let eroded := filtered kernel anchor image_size channels bt bv Z.min img y k in
  (forall t t', kernel_window kernel t t' -> eroded <= pixel t t' <= dilated) /\
  (exists t t', kernel_window kernel t t' /\ dilated = pixel t t') /\
  (exists t t', kernel_window kernel t t' /\ eroded = pixel t t').
Proof.
  intros Hw Hh pixel dilated eroded.
  pose proof (filtered_bound Z.max Z.le kernel anchor image_size channels bt bv img y k) as Hmax.
  pose proof (filtered_bound Z.min Z.ge kernel anchor image_size channels bt bv img y k) as Hmin.
  destruct Hmax as [Hmax ?]; try (intros; lia). destruct Hmin as [Hmin ?]; try (intros; lia).
  split_and!; try done. intros t t' Ht. specialize (Hmax t t' Ht). specialize (Hmin t t' Ht).
  unfold pixel, dilated, eroded. lia.
Qed.

(** ** Theorems *)

(** The two operations and the function each of them reduces with. *)
Definition dilate_or_erode (num_lanes : Z) (operation : Rectangle -> Operation) (op : Z -> Z -> Z) : Prop :=
  operation = DilateOperation num_lanes /\ op = Z.max \/ operation = ErodeOperation num_lanes /\ op = Z.min.

Lemma dilate_or_erode_laws num_lanes operation op kernel :
  1 <= num_lanes < 2 ^ 32 -> sane_kernel kernel -> dilate_or_erode num_lanes operation op ->
  @OperationLaws (operation kernel) op kernel.
Proof. intros Hl Hk [[-> ->]|[-> ->]]; [by apply dilate_laws|by apply erode_laws]. Qed.

(** The arguments with which [dilate] and [erode] run. *)
Record valid_arguments (src ss dst ds width height channels kw kh ax ay : Z) : Prop := {
  va_request : valid_request {| width_ := kw; height_ := kh |} {| point_x := ax; point_y := ay |} channels
    {| width_ := width; height_ := height |};
  va_kernel_area : kw * kh <= KLEIDICV_MAX_IMAGE_PIXELS;
  va_src : src <> 0 /\ image_fits {| width_ := width; height_ := height |} src ss;
  va_dst : dst <> 0 /\ image_fits {| width_ := width; height_ := height |} dst ds;
  va_rows : width * channels <= ds;
  va_separate : separate channels {| width_ := width; height_ := height |} src ss dst ds
}.

Lemma morphology_run num_lanes operation op malloc wide buffer slots
    src ss dst ds width height channels kw kh ax ay border_type bt border_value iterations image :
  1 <= num_lanes < 2 ^ 32 -> dilate_or_erode num_lanes operation op -> malloc_spec malloc ->
  valid_arguments src ss dst ds width height channels kw kh ax ay ->
  get_border_type border_type = Some bt -> (bt = CONSTANT -> is_Some border_value) -> 0 <= iterations ->
  let kernel := {| width_ := kw; height_ := kh |} in
  let anchor := {| point_x := ax; point_y := ay |} in
  let size := {| width_ := width; height_ := height |} in
  let filter := filtered kernel anchor size channels bt
    (match border_value with Some v => v | None => fun _ => 0 end) op in
  let run := morphology operation malloc wide buffer slots src ss dst ds width height channels kw kh ax ay
    border_type border_value iterations image in
  exists z, create_sizes kernel (make_margin kernel anchor) channels 1 size = Some z /\
    (malloc (allocation_size z) = 0 /\ run = Some (KLEIDICV_ERROR_ALLOCATION, image) \/
     exists image', run = Some (KLEIDICV_OK, image') /\
       (iterations = 0 -> image' = image) /\
       (1 <= iterations -> rows_stored dst ds (width * channels) height
         (iterated filter (Z.to_nat iterations) (source_image src ss image)) image image')).
Proof.
  intros Hl Hop Hm [Hreq Hka [Hs0 Hs] [Hd0 Hd] Hds Hsep] Hbt Hbv Hit kernel anchor size filter run.
  pose proof (request_bounds _ _ _ _ Hreq) as (Hx & Hy & Hc & HW & HH & Hkw & Hkh & _ & _). cbn in Hx, Hy, HW, HH, Hkw, Hkh.
  pose proof (request_area _ _ _ _ Hreq) as Ha. pose proof (request_channels _ _ _ _ Hreq) as Hch. cbn in Ha.
  destruct (create_sizes_value kernel anchor channels size Hreq) as (z & Hz & _). exists z. split; [exact Hz|].
  unfold run, morphology, check_pointer_and_stride. cbn [Z.eqb Pos.eqb].
  rewrite (proj2 (Z.eqb_neq src 0)), (proj2 (Z.eqb_neq dst 0)) by done.
  rewrite (proj2 (check_image_size_iff width height ltac:(lia) ltac:(lia)) Ha).
  rewrite (proj2 (check_image_size_iff kw kh ltac:(lia) ltac:(lia)) Hka). cbn [guard_error]. rewrite Hbt.
  unfold morphology_is_implemented. rewrite (proj2 (Z.ltb_ge _ channels)) by lia.
  rewrite !size_sub_small by lia. rewrite (proj2 (Z.ltb_ge width _)), (proj2 (Z.ltb_ge height _)) by lia.
  cbn [orb negb]. fold kernel anchor size.
  destruct (create_run kernel anchor channels size Hreq malloc bt border_value z Hm Hbv Hz)
    as [[Hnull ->]|(ws & -> & Hws & _ & _ & Hwbt & Hwbv)]; [by left|right].
  assert (sane_kernel kernel) as Hk by (unfold sane_kernel, kernel; cbn; lia).
  pose proof (dilate_or_erode_laws num_lanes operation op kernel Hl Hk Hop) as Hlaws.
  destruct (@iterations_run kernel anchor size channels op Hreq (operation kernel) Hlaws bt
    (match border_value with Some v => v | None => fun _ => 0 end) src ss dst ds Hs Hd Hds Hsep iterations
    {| m_ws := ws; m_wide := wide; m_buffer := buffer; m_slots := slots; m_image := image |})
    as (rows & m' & Heq & Hz0 & Hst); [done|exact Hws|exact Hwbt| |].
  - intros HC c Hcc. destruct (Hbv HC) as [v Hv]. rewrite Hv. by apply (Hwbv v c).
  - unfold image_rows in Heq. rewrite Heq. exists (m_image m'). done.
Qed.

(** C4: on valid arguments [dilate] and [erode] either report that the workspace
    could not be allocated and leave the image alone, or return [KLEIDICV_OK] having
    stored, in every pixel of the destination and nowhere else, the separable
    maximum or minimum of the padded source over the kernel, applied [iterations]
    times.  The source may be the destination. *)
Theorem dilate_erode_correct num_lanes operation op malloc wide buffer slots
    src ss dst ds width height channels kw kh ax ay border_type bt border_value iterations image :
  1 <= num_lanes < 2 ^ 32 -> dilate_or_erode num_lanes operation op -> malloc_spec malloc ->
  valid_arguments src ss dst ds width height channels kw kh ax ay ->
  get_border_type border_type = Some bt -> (bt = CONSTANT -> is_Some border_value) -> 0 <= iterations ->
  let kernel := {| width_ := kw; height_ := kh |} in
  let anchor := {| point_x := ax; point_y := ay |} in
  let size := {| width_ := width; height_ := height |} in
  let filter := filtered kernel anchor size channels bt
    (match border_value with Some v => v | None => fun _ => 0 end) op in
  let run := morphology operation malloc wide buffer slots src ss dst ds width height channels kw kh ax ay
    border_type border_value iterations image in
  exists z, create_sizes kernel (make_margin kernel anchor) channels 1 size = Some z /\
    (malloc (allocation_size z) = 0 /\ run = Some (KLEIDICV_ERROR_ALLOCATION, image) \/
     exists image', run = Some (KLEIDICV_OK, image') /\
       (iterations = 0 -> image' = image) /\
       (1 <= iterations -> rows_stored dst ds (width * channels) height
         (iterated filter (Z.to_nat iterations) (source_image src ss image)) image image')).
Proof. intros Hl Hop Hm Hva Hbt Hbv Hit. by apply (morphology_run num_lanes operation op malloc wide buffer slots). Qed.

Lemma example_in_place : valid_arguments 4096 32 4096 32 7 5 3 3 3 1 1.
Proof.
  constructor; [exact example_request|done| | |done|by left];
    (split; [done|]; vm_compute; repeat split; discriminate).
Qed.

(** A dilation in place, three times, of a 7x5 image with three channels. *)
Lemma dilate_erode_correct_witness :
  exists image', dilate 16 example_malloc (fun _ => 0) (fun _ => 0) (fun _ => 0) 4096 32 4096 32 7 5 3 3 3 1 1
      KLEIDICV_BORDER_TYPE_REPLICATE None 3 (fun a => a mod 256) = Some (KLEIDICV_OK, image').
Proof.
  destruct (dilate_erode_correct 16 (DilateOperation 16) Z.max example_malloc (fun _ => 0) (fun _ => 0) (fun _ => 0)
    4096 32 4096 32 7 5 3 3 3 1 1 KLEIDICV_BORDER_TYPE_REPLICATE REPLICATE None 3 (fun a => a mod 256))
    as (z & Hz & [[Hnull _]|(image' & Hrun & _)]).
  - lia.
  - by left.
  - apply example_malloc_spec.
  - exact example_in_place.
  - done.
  - done.
  - lia.
  - vm_compute in Hz. injection Hz as <-. vm_compute in Hnull. discriminate.
  - by exists image'.
Defined.

(** After one iteration, each pixel that [dilate] stores is the greatest pixel of the
    kernel window of the padded source, and each pixel that [erode] stores the least,
    for both border types; this holds in place too. *)
Theorem one_iteration_extremum num_lanes malloc wide buffer slots
    src ss dst ds width height channels kw kh ax ay border_type bt border_value image y k :
  1 <= num_lanes < 2 ^ 32 -> malloc_spec malloc ->
  (forall z, create_sizes {| width_ := kw; height_ := kh |}
     (make_margin {| width_ := kw; height_ := kh |} {| point_x := ax; point_y := ay |}) channels 1
     {| width_ := width; height_ := height |} = Some z -> malloc (allocation_size z) <> 0) ->
  valid_arguments src ss dst ds width height channels kw kh ax ay ->
  get_border_type border_type = Some bt -> (bt = CONSTANT -> is_Some border_value) ->
  0 <= y < height -> 0 <= k < width * channels ->
  let kernel := {| width_ := kw; height_ := kh |} in
  let pixel t t' := padded {| point_x := ax; point_y := ay |} {| width_ := width; height_ := height |} channels bt
    (match border_value with Some v => v | None => fun _ => 0 end) (source_image src ss image)
    (y + t) (k + t' * channels) in
  exists dilated eroded,
    dilate num_lanes malloc wide buffer slots src ss dst ds width height channels kw kh ax ay
      border_type border_value 1 image = Some (KLEIDICV_OK, dilated) /\
    erode num_lanes malloc wide buffer slots src ss dst ds width height channels kw kh ax ay
      border_type border_value 1 image = Some (KLEIDICV_OK, eroded) /\
    (forall t t', kernel_window kernel t t' ->
      eroded (dst + y * ds + k) <= pixel t t' <= dilated (dst + y * ds + k)) /\
    (exists t t', kernel_window kernel t t' /\ dilated (dst + y * ds + k) = pixel t t') /\
    (exists t t', kernel_window kernel t t' /\ eroded (dst + y * ds + k) = pixel t t').
Proof.
  intros Hl Hm Hnn Hva Hbt Hbv Hy Hk kernel pixel.
  pose proof (va_request _ _ _ _ _ _ _ _ _ _ _ Hva) as Hreq. pose proof (va_rows _ _ _ _ _ _ _ _ _ _ _ Hva) as Hds.
  pose proof (request_bounds _ _ _ _ Hreq) as (? & ? & ? & ? & ? & _). cbn in *.
  assert (forall operation op, dilate_or_erode num_lanes operation op -> exists image',
    morphology operation malloc wide buffer slots src ss dst ds width height channels kw kh ax ay
      border_type border_value 1 image = Some (KLEIDICV_OK, image') /\
    image' (dst + y * ds + k) = filtered kernel {| point_x := ax; point_y := ay |}
      {| width_ := width; height_ := height |} channels bt
      (match border_value with Some v => v | None => fun _ => 0 end) op (source_image src ss image) y k) as Hrun.
  { intros operation op Hop.
    destruct (morphology_run num_lanes operation op malloc wide buffer slots src ss dst ds width height channels
      kw kh ax ay border_type bt border_value 1 image Hl Hop Hm Hva Hbt Hbv ltac:(lia))
      as (z & Hz & [[Hz0 _]|(image' & Hr & _ & Hst)]); [by apply Hnn in Hz0|].
    exists image'. split; [exact Hr|]. rewrite (rows_stored_read {| width_ := width; height_ := height |} channels
      dst ds _ image image' y k ltac:(cbn; nia) (Hst ltac:(lia)) Hy Hk). done. }
  destruct (Hrun (DilateOperation num_lanes) Z.max (or_introl (conj eq_refl eq_refl))) as (dilated & Hd & Hdv).
  destruct (Hrun (ErodeOperation num_lanes) Z.min (or_intror (conj eq_refl eq_refl))) as (eroded & He & Hev).
  exists dilated, eroded. split; [exact Hd|]. split; [exact He|]. rewrite Hdv, Hev.
  apply (filtered_extremum kernel); cbn; lia.
Qed.

Lemma example_arguments :
  valid_arguments 4096 32 8192 24 7 5 3 3 3 1 1.
Proof.
  constructor; [exact example_request|done| | |done|right].
  - split; [done|]. vm_compute. repeat split; discriminate.
  - split; [done|]. vm_compute. repeat split; discriminate.
  - cbn. intros y e Hy He [_ Hq]. assert (4096 + y * 32 + e - 8192 < 0) as Hneg by lia.
    apply (Z.div_lt_upper_bound _ 24 0) in Hneg; lia.
Qed.

(** Separate buffers and a constant border. *)
Lemma one_iteration_extremum_witness :
  exists dilated, dilate 16 example_malloc (fun _ => 0) (fun _ => 0) (fun _ => 0) 4096 32 8192 24 7 5 3 3 3 1 1
      KLEIDICV_BORDER_TYPE_CONSTANT (Some (fun c => c)) 1 (fun a => a mod 251) = Some (KLEIDICV_OK, dilated) /\
    (4096 + 1 * 32 + 6) mod 251 <= dilated (8192 + 2 * 24 + 9).
Proof.
  destruct (one_iteration_extremum 16 example_malloc (fun _ => 0) (fun _ => 0) (fun _ => 0)
    4096 32 8192 24 7 5 3 3 3 1 1 KLEIDICV_BORDER_TYPE_CONSTANT CONSTANT (Some (fun c => c)) (fun a => a mod 251) 2 9)
    as (dilated & eroded & Hd & _ & Hwin & _).
  - lia.
  - exact example_malloc_spec.
  - intros z Hz. vm_compute in Hz. injection Hz as <-. vm_compute. discriminate.
  - exact example_arguments.
  - reflexivity.
  - done.
  - lia.
  - lia.
  - exists dilated. split; [exact Hd|]. apply (Hwin 0 0). split; cbn; lia.
Defined.


(** An error leaves the image alone, and [dilate] and [erode] return [KLEIDICV_OK]
    only on arguments within the limits that their documentation names. *)
Theorem morphology_errors operation malloc wide buffer slots src ss dst ds width height channels kw kh ax ay
    border_type border_value iterations image error image' :
  is_size width -> is_size height -> is_size channels -> is_size kw -> is_size kh -> is_size ax -> is_size ay ->
  morphology operation malloc wide buffer slots src ss dst ds width height channels kw kh ax ay
    border_type border_value iterations image = Some (error, image') ->
  (error <> KLEIDICV_OK -> image' = image) /\
  (error = KLEIDICV_OK ->
    src <> 0 /\ dst <> 0 /\ width * height <= KLEIDICV_MAX_IMAGE_PIXELS /\
    kw * kh <= KLEIDICV_MAX_IMAGE_PIXELS /\ channels <= KLEIDICV_MAXIMUM_CHANNEL_COUNT /\
    ax < kw /\ ay < kh /\ kw - 1 <= width /\ kh - 1 <= height /\
    (border_type = KLEIDICV_BORDER_TYPE_REPLICATE \/
     border_type = KLEIDICV_BORDER_TYPE_CONSTANT /\ is_Some border_value)).
Proof.
  intros Hw Hh Hch Hkw Hkh Hax Hay. unfold morphology, check_pointer_and_stride. cbn [Z.eqb Pos.eqb].
  assert (forall e, e <> KLEIDICV_OK -> Some (e, image) = Some (error, image') ->
    (error <> KLEIDICV_OK -> image' = image) /\ ~ error = KLEIDICV_OK) as Herr.
  { intros e He Heq. injection Heq as <- <-. done. }
  destruct (Z.eqb_spec src 0); [by intros []%Herr|]. destruct (Z.eqb_spec dst 0); [by intros []%Herr|].
  cbn [guard_error].
  destruct (check_image_size width height) eqn:Hsize; cbn [guard_error]; try (by intros []%Herr).
  destruct (check_image_size kw kh) eqn:Hksize; cbn [guard_error]; try (by intros []%Herr).
  unfold is_size in *. apply check_image_size_iff in Hsize, Hksize; try lia.
  destruct (get_border_type border_type) as [bt|] eqn:Hbt; [|by intros []%Herr].
  unfold morphology_is_implemented.
  destruct (Z.ltb_spec KLEIDICV_MAXIMUM_CHANNEL_COUNT channels); [by intros []%Herr|].
  destruct (Z.ltb_spec width (kw ⊟ 1)); [by intros []%Herr|].
  destruct (Z.ltb_spec height (kh ⊟ 1)); [by intros []%Herr|]. cbn [orb negb].
  unfold create. cbn [width_ height_ point_x point_y].
  destruct (Z.leb_spec kw ax); [by intros []%Herr|]. destruct (Z.leb_spec kh ay); [by intros []%Herr|]. cbn [orb].
  destruct (bool_decide (bt = CONSTANT) && _) eqn:Hnull; [by intros []%Herr|].
  destruct (create_sizes _ _ _ _ _) as [z|]; [|by intros []%Herr].
  destruct (malloc (allocation_size z) =? 0); [by intros []%Herr|].
  destruct (for_range _ _ _ _) as [[rows m]|]; [|done]. intros Heq. injection Heq as <- <-.
  split; [done|]. intros _. rewrite size_sub_small in * by lia.
  split_and!; try done; try lia.
  destruct border_type; try done; injection Hbt as <-; [right|by left].
  split; [done|]. destruct border_value; [done|]. done.
Qed.

(** An erosion whose anchor is outside the kernel. *)
Lemma morphology_errors_witness :
  (fun a : Z => a) = (fun a => a) /\
  erode 16 example_malloc (fun _ => 0) (fun _ => 0) (fun _ => 0) 4096 32 4096 32 7 5 3 3 3 3 1
    KLEIDICV_BORDER_TYPE_REPLICATE None 1 (fun a => a) = Some (KLEIDICV_ERROR_RANGE, fun a => a).
Proof.
  split; [|reflexivity].
  apply (morphology_errors (ErodeOperation 16) example_malloc (fun _ => 0) (fun _ => 0) (fun _ => 0)
    4096 32 4096 32 7 5 3 3 3 3 1 KLEIDICV_BORDER_TYPE_REPLICATE None 1 (fun a => a) KLEIDICV_ERROR_RANGE);
    try (unfold is_size; lia); [reflexivity|discriminate].
Defined.
