(* ===== verification/CpuList.v ===== *)
(** * Reading the CPU list and the identification registers

    The text formats that [sme_thread_limiter.cpp] reads from sysfs: the list of
    online CPUs, such as ["0-3,8"], and a register in hexadecimal.  A text is the
    list of its bytes and the system calls answer as a parameter says.  An index or a
    pointer into the text is its position, and [None] is [std::nullopt]. *)

From S2P Require Import Prelude.

(** ** Numbers in text *)

(** The value of a digit of [std::from_chars] in base 10 or 16. *)
Definition digit_value (base c : Z) : option Z :=
  let d := if (48 <=? c) && (c <=? 57) then c - 48
           else if (97 <=? c) && (c <=? 102) then c - 87
           else if (65 <=? c) && (c <=? 70) then c - 55 else base in
  if d <? base then Some d else None.

(** The longest prefix of digits, and what follows it. *)
Fixpoint digits_prefix (base acc : Z) (s : list Z) : Z * list Z :=
  match s with
  | [] => (acc, [])
  | c :: s' =>
      match digit_value base c with
      | Some d => digits_prefix base (acc * base + d) s'
      | None => (acc, s)
      end
  end.

(** [std::from_chars] for a 64-bit unsigned value: fails without a digit, and on a
    value out of range. *)
Definition from_chars (base : Z) (s : list Z) : option (Z * list Z) :=
  match s with
  | [] => None
  | c :: _ =>
      match digit_value base c with
      | None => None
      | Some _ =>
          let '(v, rest) := digits_prefix base 0 s in
          if v <? 2 ^ 64 then Some (v, rest) else None
      end
  end.

Definition digit_char (d : Z) : Z := if d <? 10 then 48 + d else 87 + d.

(** [std::to_chars]; [fuel] bounds the number of digits. *)
Fixpoint to_chars (fuel : nat) (base n : Z) : list Z :=
  match fuel with
  | O => []
  | S fuel => if n <? base then [digit_char n] else to_chars fuel base (n / base) ++ [digit_char (n mod base)]
  end.

(** Decimal and hexadecimal digits of a 64-bit value. *)
Definition decimal : Z -> list Z := to_chars 20 10.
Definition hexadecimal : Z -> list Z := to_chars 16 16.

(** ** Reading a file *)

(** What a call of [read] does: transfer the next [n] bytes, none at the end of the
    file; be interrupted ([EINTR]); fail. *)
Inductive ReadResult := Got (n : Z) | Interrupted | Failed.

(** The loop of [read_raw_file], from [length_] bytes on, with the number of bytes
    read if the end of the file was reached. *)
Fixpoint read_raw_loop (reads : list ReadResult) (capacity length_ : Z) : option Z :=
  if length_ <? capacity then
    match reads with
    | Got n :: reads => if 0 <? n then read_raw_loop reads capacity (length_ + n) else Some length_
    | Interrupted :: reads => read_raw_loop reads capacity length_
    | Failed :: _ | [] => None
    end
  else None.

(** [read_raw_file] of a file that holds [contents]. *)
Definition read_raw_file (contents : list Z) (reads : list ReadResult) (capacity : Z) : option (list Z) :=
  if capacity =? 0 then None
  else (fun length_ => take (Z.to_nat length_) contents) <$> read_raw_loop reads capacity 0.

Definition kCpuListCapacity : Z := 512.

(** ** The CPU list *)

Definition comma : Z := 44.
Definition dash : Z := 45.
Definition newline : Z := 10.
Definition carriage_return : Z := 13.

(** The text in positions [begin, end). *)
Definition slice (contents : list Z) (begin_ end_ : Z) : list Z :=
  take (Z.to_nat (end_ - begin_)) (drop (Z.to_nat begin_) contents).

Fixpoint find_comma_loop (fuel : nat) (contents : list Z) (length_ index : Z) : option Z :=
  match fuel with
  | O => None
  | S fuel =>
      if index <? length_ then
        if contents !!! Z.to_nat index =? comma then Some index
        else find_comma_loop fuel contents length_ (index + 1)
      else None
  end.

Definition find_next_comma (contents : list Z) (length_ start : Z) : option Z :=
  if length_ <? start then None
  else find_comma_loop (Z.to_nat (length_ - start)) contents length_ start.

Record CpuIdRange := { first_id : Z; range_count : Z }.

Definition read_cpu_range (contents : list Z) (begin_ end_ : Z) : option CpuIdRange :=
  if end_ <=? begin_ then None
  else
    match from_chars 10 (slice contents begin_ end_) with
    | None => None
    | Some (first, []) => Some {| first_id := first; range_count := 1 |}
    | Some (first, c :: rest) =>
        if negb (c =? dash) then None
        else
          match from_chars 10 rest with
          | Some (second, []) =>
              if second <=? first then None
              else
                let range_span := second ⊟ first in
                if range_span =? size_max then None
                else Some {| first_id := first; range_count := range_span ⊞ 1 |}
          | _ => None
          end
    end.

(** The first pass of [read_online_cpu_ids] counts the CPUs. *)
Fixpoint count_cpus (fuel : nat) (contents : list Z) (length_ begin_ cpu_count : Z) : option Z :=
  if begin_ <? length_ then
    match fuel with
    | O => None
    | S fuel =>
        let comma_index := find_next_comma contents length_ begin_ in
        let end_ := default length_ comma_index in
        match read_cpu_range contents begin_ end_ with
        | None => None
        | Some range =>
            if size_max ⊟ range_count range <? cpu_count then None
            else
              let begin_ := match comma_index with Some i => i + 1 | None => length_ end in
              count_cpus fuel contents length_ begin_ (cpu_count ⊞ range_count range)
        end
    end
  else Some cpu_count.

(** The second pass stores the identifiers, from index [i] on. *)
Fixpoint fill_cpus (fuel : nat) (contents : list Z) (length_ begin_ i : Z) (result : list Z)
    : option (list Z) :=
  if begin_ <? length_ then
    match fuel with
    | O => None
    | S fuel =>
        let comma_index := find_next_comma contents length_ begin_ in
        let end_ := default length_ comma_index in
        match read_cpu_range contents begin_ end_ with
        | None => None
        | Some range =>
            let result := for_range 0 (range_count range) (fun j result =>
              <[Z.to_nat (i + j) := first_id range ⊞ j]> result) result in
            let begin_ := match comma_index with Some k => k + 1 | None => length_ end in
            fill_cpus fuel contents length_ begin_ (i + range_count range) result
        end
    end
  else Some result.

(** [HeapArray<T>::allocate] on an empty array; [malloc_ok] tells whether the
    allocator has a block of that many bytes. *)
Definition allocate {T} (malloc_ok : Z -> bool) (sizeof : Z) (count : Z) (initial : T) : option (list T) :=
  if count =? 0 then Some []
  else if size_max / sizeof <? count then None
  else if malloc_ok (count ⊠ sizeof) then Some (replicate (Z.to_nat count) initial) else None.

(** [read_online_cpu_ids] on what the file holds. *)
Definition read_online_cpu_ids (malloc_ok : Z -> bool) (raw : option (list Z)) : option (list Z) :=
  match raw with
  | None | Some [] => None
  | Some buffer =>
      let length_ := Z.of_nat (length buffer) in
      let length_ := if buffer !!! Z.to_nat (length_ - 1) =? newline then length_ - 1 else length_ in
      if (length_ =? 0) || (buffer !!! Z.to_nat (length_ - 1) =? comma) then None
      else
        let fuel := length buffer in
        match count_cpus fuel buffer length_ 0 0 with
        | None => None
        | Some cpu_count =>
            match allocate malloc_ok 8 cpu_count 0 with
            | None => None
            | Some result => fill_cpus fuel buffer length_ 0 0 result
            end
        end
  end.

(** [std::find_if] for the end of the line. *)
Fixpoint first_line (s : list Z) : list Z :=
  match s with
  | [] => []
  | c :: s' => if (c =? newline) || (c =? carriage_return) then [] else c :: first_line s'
  end.

(** [read_hex_file] on the bytes of its one [read]. *)
Definition read_hex (buffer : list Z) : option Z :=
  match buffer with
  | [] => None
  | _ =>
      let text :=
        match buffer with
        | c :: d :: rest => if (c =? 48) && ((d =? 120) || (d =? 88)) then rest else buffer
        | _ => buffer
        end in
      match from_chars 16 (first_line text) with
      | Some (value, []) => Some value
      | _ => None
      end
  end.

(** [make_register_path]: the prefix, the number, the suffix, the name and NUL. *)
Definition kRegisterPathCapacity : Z := 128.
Definition make_register_path (prefix suffix register_name : list Z) (cpu : Z) : list Z :=
  prefix ++ decimal cpu ++ suffix ++ register_name ++ [0].

(** ** Reads in any number of parts *)

(** How [read] behaves on a file of [size] bytes without an error: it never goes beyond
    the end or the bytes asked for, and transfers none only at the end. *)
Fixpoint honest_reads (size capacity length_ : Z) (reads : list ReadResult) : Prop :=
  match reads with
  | [] => capacity <= length_
  | Got n :: reads =>
      0 <= n <= Z.min (capacity - length_) (size - length_) /\ (n = 0 -> length_ = size \/ capacity <= length_) /\
      (n = 0 \/ honest_reads size capacity (length_ + n) reads)
  | Interrupted :: reads => honest_reads size capacity length_ reads
  | Failed :: _ => False
  end.

Lemma read_raw_loop_result size capacity reads : forall length_,
  0 <= length_ <= size -> honest_reads size capacity length_ reads ->
  read_raw_loop reads capacity length_ = if size <? capacity then Some size else None.
Proof.
  induction reads as [|[n| |] reads IH]; intros length_ Hl Hh; cbn in Hh |- *; try done.
  - rewrite (proj2 (Z.ltb_ge _ _)), (proj2 (Z.ltb_ge _ _)) by lia. done.
  - destruct Hh as (Hn & Hend & Hrest). destruct (Z.ltb_spec length_ capacity).
    + destruct (Z.ltb_spec 0 n).
      * destruct Hrest as [->|Hrest]; [lia|]. apply IH; [lia|done].
      * destruct Hend as [->|]; [lia| |lia]. by rewrite (proj2 (Z.ltb_lt _ _)).
    + by rewrite (proj2 (Z.ltb_ge _ _)) by lia.
  - destruct (Z.ltb_spec length_ capacity); [by apply IH|]. by rewrite (proj2 (Z.ltb_ge _ _)) by lia.
Qed.

(** However the reads cut the file and whatever interrupts them, [read_raw_file] gives
    the whole file if it is smaller than the capacity, and nothing otherwise. *)
Lemma read_raw_file_result contents reads capacity :
  0 < capacity -> honest_reads (Z.of_nat (length contents)) capacity 0 reads ->
  read_raw_file contents reads capacity =
  if Z.of_nat (length contents) <? capacity then Some contents else None.
Proof.
  intros Hc Hh. unfold read_raw_file. rewrite (proj2 (Z.eqb_neq _ _)) by lia.
  rewrite (read_raw_loop_result (Z.of_nat (length contents))) by (done || lia).
  destruct (_ <? _); [|done]. cbn. by rewrite Nat2Z.id, firstn_all.
Qed.

(** ** Printing and parsing numbers *)

Definition is_digit (base c : Z) : Prop := is_Some (digit_value base c).

(** What may follow a number. *)
Definition ends_number (base : Z) (s : list Z) : Prop :=
  match s with [] => True | c :: _ => digit_value base c = None end.

Lemma digit_char_value base d : 2 <= base <= 16 -> 0 <= d < base -> digit_value base (digit_char d) = Some d.
Proof.
  intros Hb Hd. unfold digit_value, digit_char. destruct (Z.ltb_spec d 10).
  - rewrite (proj2 (Z.leb_le 48 _)), (proj2 (Z.leb_le _ 57)) by lia. cbn [andb].
    replace (48 + d - 48) with d by lia. by rewrite (proj2 (Z.ltb_lt _ _)) by lia.
  - rewrite (proj2 (Z.leb_gt _ 57)) by lia. rewrite andb_false_r.
    rewrite (proj2 (Z.leb_le 97 _)), (proj2 (Z.leb_le _ 102)) by lia. cbn [andb].
    replace (87 + d - 87) with d by lia. by rewrite (proj2 (Z.ltb_lt _ _)) by lia.
Qed.

Lemma digit_char_range d : 0 <= d < 16 -> 48 <= digit_char d <= 57 \/ 97 <= digit_char d <= 102.
Proof. unfold digit_char. intros. case_cmp; lia. Qed.

Lemma digits_prefix_stop base acc s : ends_number base s -> digits_prefix base acc s = (acc, s).
Proof. destruct s as [|c s]; [done|]. simpl. by intros ->. Qed.

Lemma digits_prefix_to_chars fuel base : 2 <= base <= 16 -> forall n s, 0 <= n < base ^ Z.of_nat fuel ->
  (0 < fuel)%nat -> exists m, digits_prefix base 0 (to_chars fuel base n ++ s) = digits_prefix base n s /\
    forall acc, digits_prefix base acc (to_chars fuel base n ++ s) = digits_prefix base (acc * m + n) s.
Proof.
  intros Hb. induction fuel as [|fuel IH]; intros n s Hn Hf; [lia|]. cbn [to_chars].
  destruct (Z.ltb_spec n base) as [Hlt|Hge].
  - exists base. split; [|intros acc]; cbn [digits_prefix app]; rewrite digit_char_value by lia; f_equal; lia.
  - rewrite Nat2Z.inj_succ, Z.pow_succ_r in Hn by lia.
    destruct fuel as [|fuel]; [simpl in Hn; lia|].
    pose proof (Z.mod_pos_bound n base ltac:(lia)). pose proof (Z.div_mod n base ltac:(lia)).
    destruct (IH (n / base) (digit_char (n mod base) :: s)) as (m & _ & Hm); [|lia|].
    { split; [apply Z.div_pos; lia|apply Z.div_lt_upper_bound; lia]. }
    exists (base * m). rewrite <- app_assoc. simpl app. split; [|intros acc]; rewrite Hm; cbn [digits_prefix app];
      rewrite digit_char_value by lia; f_equal; lia.
Qed.

Lemma to_chars_digits fuel base n : 2 <= base <= 16 -> 0 <= n ->
  Forall (fun c => 48 <= c <= 57 \/ 97 <= c <= 102) (to_chars fuel base n).
Proof.
  intros Hb. revert n. induction fuel as [|fuel IH]; intros n Hn; cbn [to_chars]; [constructor|].
  pose proof (Z.mod_pos_bound n base ltac:(lia)).
  destruct (Z.ltb_spec n base); [apply Forall_singleton, digit_char_range; lia|].
  apply Forall_app. split; [apply IH, Z.div_pos; lia|]. apply Forall_singleton, digit_char_range. lia.
Qed.

Lemma to_chars_head fuel base n : 2 <= base <= 16 -> 0 <= n < base ^ Z.of_nat fuel -> (0 < fuel)%nat ->
  exists c s, to_chars fuel base n = c :: s /\ is_digit base c.
Proof.
  intros Hb. revert n. induction fuel as [|fuel IH]; intros n Hn Hf; [lia|]. cbn [to_chars].
  destruct (Z.ltb_spec n base).
  - do 2 eexists. split; [done|]. eexists. apply digit_char_value; lia.
  - rewrite Nat2Z.inj_succ, Z.pow_succ_r in Hn by lia. destruct fuel as [|fuel]; [simpl in Hn; lia|].
    destruct (IH (n / base)) as (c & s & -> & Hc); [|lia|by exists c, (s ++ [digit_char (n mod base)])].
    split; [apply Z.div_pos; lia|apply Z.div_lt_upper_bound; lia].
Qed.

(** Parsing what was printed. *)
Lemma from_chars_to_chars fuel base n s :
  2 <= base <= 16 -> 0 <= n < 2 ^ 64 -> n < base ^ Z.of_nat fuel -> (0 < fuel)%nat -> ends_number base s ->
  from_chars base (to_chars fuel base n ++ s) = Some (n, s).
Proof.
  intros Hb Hn Hfn Hf Hs.
  destruct (digits_prefix_to_chars fuel base Hb n s) as (m & Hd & _); [lia|done|].
  destruct (to_chars_head fuel base n) as (c & t & Heq & [d Hc]); [done|lia|done|].
  rewrite (digits_prefix_stop base n s Hs) in Hd. unfold from_chars. rewrite Heq in Hd |- *. cbn [app] in Hd |- *.
  rewrite Hc, Hd. case_cmp; done || lia.
Qed.

Lemma from_chars_decimal n s : 0 <= n < 2 ^ 64 -> ends_number 10 s -> from_chars 10 (decimal n ++ s) = Some (n, s).
Proof.
  intros. apply from_chars_to_chars; [lia|done| |lia|done]. change (10 ^ Z.of_nat 20) with (10 ^ 20). lia.
Qed.

Lemma decimal_digits n : 0 <= n -> Forall (fun c => 48 <= c <= 57 \/ 97 <= c <= 102) (decimal n).
Proof. intros. apply to_chars_digits; lia. Qed.

Lemma to_chars_length fuel base n : (length (to_chars fuel base n) <= fuel)%nat.
Proof.
  revert n. induction fuel as [|fuel IH]; intros n; [done|]. cbn [to_chars].
  destruct (n <? base); [simpl; lia|]. rewrite length_app. simpl. specialize (IH (n / base)). lia.
Qed.

Lemma to_chars_not_nil fuel base n : to_chars (S fuel) base n <> [].
Proof. cbn [to_chars]. destruct (n <? base); [done|]. by destruct (to_chars fuel base _). Qed.

(** ** Printing and parsing the CPU list *)

(** The ranges [(first, last)] that a list may show. *)
Definition valid_range (r : Z * Z) : Prop := 0 <= r.1 <= r.2 /\ r.2 < 2 ^ 64 /\ r.2 - r.1 < size_max.

Definition range_size (r : Z * Z) : Z := r.2 - r.1 + 1.
Definition range_ids (r : Z * Z) : list Z := seqZ r.1 (range_size r).

Definition print_range (r : Z * Z) : list Z :=
  if r.1 =? r.2 then decimal r.1 else decimal r.1 ++ dash :: decimal r.2.

Fixpoint print_ranges (rs : list (Z * Z)) : list Z :=
  match rs with
  | [] => []
  | [r] => print_range r
  | r :: rs => print_range r ++ comma :: print_ranges rs
  end.

Definition total_size (rs : list (Z * Z)) : Z := foldr (fun r n => range_size r + n) 0 rs.

(** Digits, commas and dashes are different characters. *)
Lemma decimal_no c n : 0 <= n -> c = comma \/ c = dash \/ c = newline -> Forall (fun x => x <> c) (decimal n).
Proof.
  intros Hn Hc. eapply Forall_impl; [by apply decimal_digits|]. unfold comma, dash, newline in Hc.
  intros x Hx ->. cbn in Hx. lia.
Qed.

Lemma print_range_no c r : valid_range r -> c = comma \/ c = newline -> Forall (fun x => x <> c) (print_range r).
Proof.
  intros (Hr & _) Hc. unfold print_range. destruct (r.1 =? r.2); [apply decimal_no; lia || tauto|].
  apply Forall_app. split; [apply decimal_no; lia || tauto|]. constructor.
  - unfold comma, dash, newline in *. lia.
  - apply decimal_no; lia || tauto.
Qed.

Lemma print_range_not_nil r : print_range r <> [].
Proof.
  unfold print_range. destruct (r.1 =? r.2); [apply to_chars_not_nil|]. by destruct (decimal r.1).
Qed.

Lemma slice_middle (pre mid post : list Z) :
  slice (pre ++ mid ++ post) (Z.of_nat (length pre)) (Z.of_nat (length pre) + Z.of_nat (length mid)) = mid.
Proof.
  unfold slice. replace (Z.to_nat (_ + _ - _)) with (length mid) by lia. rewrite Nat2Z.id.
  by rewrite drop_app_length, take_app_length.
Qed.

(** One range of the text. *)
Lemma read_cpu_range_print pre post r : valid_range r ->
  read_cpu_range (pre ++ print_range r ++ post) (Z.of_nat (length pre))
    (Z.of_nat (length pre) + Z.of_nat (length (print_range r))) =
  Some {| first_id := r.1; range_count := range_size r |}.
Proof.
  intros (Hr & Hm & Hs). unfold read_cpu_range. rewrite slice_middle.
  assert (0 < length (print_range r))%nat.
  { pose proof (print_range_not_nil r). destruct (print_range r); simpl; [done|lia]. }
  rewrite (proj2 (Z.leb_gt _ _)) by lia. unfold print_range, range_size.
  destruct (Z.eqb_spec r.1 r.2) as [Heq|Hne].
  - rewrite <- (app_nil_r (decimal r.1)), from_chars_decimal by (simpl; lia || done).
    f_equal. f_equal. lia.
  - rewrite from_chars_decimal by (lia || done). rewrite Z.eqb_refl. cbn [negb].
    rewrite <- (app_nil_r (decimal r.2)), from_chars_decimal by (simpl; lia || done).
    rewrite (proj2 (Z.leb_gt _ _)) by lia. rewrite size_sub_small by lia.
    rewrite (proj2 (Z.eqb_neq _ _)) by lia. unfold size_max in *. rewrite size_add_small by lia. done.
Qed.

(** The separator after a part of the text without commas. *)
Lemma find_comma_loop_skip mid : Forall (fun x => x <> comma) mid -> forall pre post fuel length_,
  Z.of_nat (length pre) + Z.of_nat (length mid) <= length_ ->
  find_comma_loop (length mid + fuel) (pre ++ mid ++ post) length_ (Z.of_nat (length pre)) =
  find_comma_loop fuel (pre ++ mid ++ post) length_ (Z.of_nat (length pre) + Z.of_nat (length mid)).
Proof.
  induction 1 as [|c mid Hc Hmid IH]; intros pre post fuel length_ Hl; [by rewrite Z.add_0_r|].
  change ((c :: mid) ++ post) with (c :: mid ++ post).
  cbn [length] in *. cbn [Nat.add find_comma_loop]. rewrite (proj2 (Z.ltb_lt _ _)) by lia.
  rewrite Nat2Z.id, list_lookup_total_middle by done. rewrite (proj2 (Z.eqb_neq _ _)) by done.
  pose proof (IH (pre ++ [c]) post fuel length_) as IH'. rewrite length_app in IH'. cbn [length] in IH'.
  rewrite <- app_assoc in IH'. cbn [app] in IH'.
  replace (Z.of_nat (length pre) + 1) with (Z.of_nat (length pre + 1)) by lia.
  rewrite IH' by lia. f_equal. lia.
Qed.

Lemma find_next_comma_at pre mid post length_ :
  Forall (fun x => x <> comma) mid ->
  let start := Z.of_nat (length pre) in let stop := start + Z.of_nat (length mid) in
  (stop = length_ -> find_next_comma (pre ++ mid ++ post) length_ start = None) /\
  (stop < length_ -> head post = Some comma -> find_next_comma (pre ++ mid ++ post) length_ start = Some stop).
Proof.
  intros Hmid start stop. unfold find_next_comma. split; [intros Heq|intros Hlt Hpost].
  - rewrite (proj2 (Z.ltb_ge _ _)) by lia.
    replace (Z.to_nat (length_ - start)) with (length mid + 0)%nat by lia.
    by rewrite find_comma_loop_skip by (done || lia).
  - rewrite (proj2 (Z.ltb_ge _ _)) by lia.
    replace (Z.to_nat (length_ - start)) with (length mid + S (Z.to_nat (length_ - stop - 1)))%nat by lia.
    rewrite find_comma_loop_skip by (done || lia). cbn [find_comma_loop]. fold start stop.
    rewrite (proj2 (Z.ltb_lt _ _)) by done. destruct post as [|c post]; [done|]. injection Hpost as ->.
    replace (Z.to_nat stop) with (length (pre ++ mid)) by (rewrite length_app; lia).
    by rewrite app_assoc, list_lookup_total_middle.
Qed.

(** The two cases of one iteration: a last range, or one that a comma follows. *)
Lemma range_at pre post r length_ : valid_range r ->
  let contents := pre ++ print_range r ++ post in
  let start := Z.of_nat (length pre) in let stop := start + Z.of_nat (length (print_range r)) in
  read_cpu_range contents start stop = Some {| first_id := r.1; range_count := range_size r |} /\
  (stop = length_ -> find_next_comma contents length_ start = None) /\
  (stop < length_ -> head post = Some comma -> find_next_comma contents length_ start = Some stop).
Proof.
  intros Hr. split; [by apply read_cpu_range_print|].
  apply find_next_comma_at. apply print_range_no; [done|by left].
Qed.

Lemma range_size_bound r : valid_range r -> 1 <= range_size r <= size_max.
Proof. intros (? & ? & ?). unfold range_size. lia. Qed.

Lemma total_size_nonneg rs : Forall valid_range rs -> 0 <= total_size rs.
Proof.
  induction 1 as [|r rs Hr _ IH]; [done|]. pose proof (range_size_bound r Hr). cbn [total_size foldr].
  fold (total_size rs). lia.
Qed.

Lemma count_cpus_print rs : forall pre post fuel acc,
  rs <> [] -> Forall valid_range rs -> 0 <= acc -> acc + total_size rs <= size_max ->
  (length rs <= fuel)%nat ->
  count_cpus fuel (pre ++ print_ranges rs ++ post) (Z.of_nat (length pre + length (print_ranges rs)))
    (Z.of_nat (length pre)) acc = Some (acc + total_size rs).
Proof.
  induction rs as [|r rs IH]; intros pre post fuel acc Hne Hrs Hacc Htotal Hfuel; [done|].
  inversion Hrs as [|? ? Hr Hrs']; subst. pose proof (range_size_bound r Hr).
  pose proof (total_size_nonneg rs Hrs'). cbn [total_size foldr] in *. fold (total_size rs) in *.
  cbn [length] in Hfuel. destruct fuel as [|fuel]; [lia|]. unfold size_max in *.
  assert (0 < length (print_range r))%nat.
  { pose proof (print_range_not_nil r). destruct (print_range r); simpl; [done|lia]. }
  destruct rs as [|r2 rs].
  - cbn [print_ranges count_cpus]. rewrite (proj2 (Z.ltb_lt _ _)) by lia.
    destruct (range_at pre post r (Z.of_nat (length pre + length (print_range r))) Hr) as (Hread & Hend & _).
    rewrite Hend by lia. cbn [from_option id]. rewrite Nat2Z.inj_add, Hread. cbn [range_count].
    unfold size_max. rewrite size_sub_small, (proj2 (Z.ltb_ge _ _)) by lia. rewrite size_add_small by lia.
    destruct fuel; cbn [count_cpus]; rewrite Z.ltb_irrefl; f_equal; cbn; lia.
  - change (print_ranges (r :: r2 :: rs)) with (print_range r ++ comma :: print_ranges (r2 :: rs)).
    set (tail := print_ranges (r2 :: rs)) in *. rewrite <- app_assoc. cbn [app count_cpus].
    rewrite length_app. cbn [length]. rewrite (proj2 (Z.ltb_lt _ _)) by lia.
    destruct (range_at pre (comma :: tail ++ post) r
      (Z.of_nat (length pre + (length (print_range r) + S (length tail)))) Hr) as (Hread & _ & Hnext).
    rewrite Hnext by (done || lia). cbn [from_option id]. rewrite Hread. cbn [range_count].
    unfold size_max. rewrite size_sub_small, (proj2 (Z.ltb_ge _ _)) by lia. rewrite size_add_small by lia.
    pose proof (IH (pre ++ print_range r ++ [comma]) post fuel (acc + range_size r)) as IH'.
    rewrite !length_app in IH'. cbn [length] in IH'. rewrite <- !app_assoc in IH'. cbn [app] in IH'. fold tail in IH'.
    replace (Z.of_nat (length pre) + Z.of_nat (length (print_range r)) + 1)
      with (Z.of_nat (length pre + (length (print_range r) + 1))) by lia.
    replace (length pre + (length (print_range r) + S (length tail)))%nat
      with (length pre + (length (print_range r) + 1) + length tail)%nat by lia.
    rewrite IH'; [f_equal; lia|done|done|lia|lia|cbn [length] in *; lia].
Qed.

(** The inner loop of the second pass. *)
Lemma fill_range (first count i : Z) (result : list Z) :
  0 <= first -> first + count <= 2 ^ 64 -> 0 <= count -> 0 <= i -> i + count <= Z.of_nat (length result) ->
  for_range 0 count (fun j result => <[Z.to_nat (i + j) := first ⊞ j]> result) result =
  take (Z.to_nat i) result ++ seqZ first count ++ drop (Z.to_nat (i + count)) result.
Proof.
  intros Hf Hfc Hc Hi Hl. assert (count <= count) as Hle by lia. revert Hle.
  apply (for_range_ind (fun j res => j <= count ->
    res = take (Z.to_nat i) result ++ seqZ first j ++ drop (Z.to_nat (i + j)) result)); [lia| |].
  - intros _. rewrite seqZ_nil, Z.add_0_r by lia. simpl. by rewrite take_drop.
  - intros j res Hj IH Hle. rewrite (IH ltac:(lia)).
    destruct (lookup_lt_is_Some_2 result (Z.to_nat (i + j))) as [x Hx]; [lia|].
    rewrite (drop_S result x (Z.to_nat (i + j))) by done.
    rewrite app_assoc. rewrite insert_app_r_alt by (rewrite length_app, length_take, length_seqZ; lia).
    rewrite length_app, length_take, length_seqZ.
    replace (Z.to_nat (i + j) - (Z.to_nat i `min` length result + Z.to_nat j))%nat with 0%nat by lia.
    cbn [insert list_insert]. rewrite size_add_small by lia. rewrite <- !app_assoc. f_equal.
    replace (seqZ first (j + 1)) with (seqZ first j ++ [first + j]) by
      (by rewrite (seqZ_app first j 1), (seqZ_cons (first + j) 1), (seqZ_nil (Z.succ _)) by lia).
    rewrite <- app_assoc. f_equal. cbn [app]. f_equal. f_equal. lia.
Qed.

Definition all_ids (rs : list (Z * Z)) : list Z := concat (map range_ids rs).

Lemma all_ids_length rs : Forall valid_range rs -> Z.of_nat (length (all_ids rs)) = total_size rs.
Proof.
  induction 1 as [|r rs Hr _ IH]; [done|]. pose proof (range_size_bound r Hr).
  unfold all_ids in *. cbn [map concat total_size foldr]. fold (total_size rs).
  rewrite length_app. unfold range_ids at 1. rewrite length_seqZ. lia.
Qed.

Lemma fill_cpus_print rs : forall pre post fuel i result,
  rs <> [] -> Forall valid_range rs -> 0 <= i -> i + total_size rs = Z.of_nat (length result) ->
  (length rs <= fuel)%nat ->
  fill_cpus fuel (pre ++ print_ranges rs ++ post) (Z.of_nat (length pre + length (print_ranges rs)))
    (Z.of_nat (length pre)) i result = Some (take (Z.to_nat i) result ++ all_ids rs).
Proof.
  induction rs as [|r rs IH]; intros pre post fuel i result Hne Hrs Hi Htotal Hfuel; [done|].
  inversion Hrs as [|? ? Hr Hrs']; subst. pose proof (range_size_bound r Hr). pose proof Hr as (Hr1 & Hr2 & Hr3).
  pose proof (total_size_nonneg rs Hrs'). cbn [total_size foldr] in *. fold (total_size rs) in *.
  cbn [length] in Hfuel. destruct fuel as [|fuel]; [lia|].
  assert (0 < length (print_range r))%nat.
  { pose proof (print_range_not_nil r). destruct (print_range r); simpl; [done|lia]. }
  pose proof (fill_range r.1 (range_size r) i result) as Hfill.
  assert (r.1 + range_size r <= 2 ^ 64) by (unfold range_size; lia).
  destruct rs as [|r2 rs].
  - cbn [print_ranges fill_cpus]. rewrite (proj2 (Z.ltb_lt _ _)) by lia.
    destruct (range_at pre post r (Z.of_nat (length pre + length (print_range r))) Hr) as (Hread & Hend & _).
    rewrite Hend by lia. cbn [from_option id]. rewrite Nat2Z.inj_add, Hread. cbn [range_count first_id].
    rewrite Hfill by (cbn in Htotal; lia).
    replace (fill_cpus fuel _ _ _ _ _) with (Some (take (Z.to_nat i) result ++
      seqZ r.1 (range_size r) ++ drop (Z.to_nat (i + range_size r)) result))
      by (destruct fuel; cbn [fill_cpus]; by rewrite Z.ltb_irrefl).
    f_equal. f_equal. rewrite drop_ge by (cbn in Htotal; lia). unfold all_ids. done.
  - change (print_ranges (r :: r2 :: rs)) with (print_range r ++ comma :: print_ranges (r2 :: rs)).
    set (tail := print_ranges (r2 :: rs)) in *. rewrite <- app_assoc. cbn [app fill_cpus].
    rewrite length_app. cbn [length]. rewrite (proj2 (Z.ltb_lt _ _)) by lia.
    destruct (range_at pre (comma :: tail ++ post) r
      (Z.of_nat (length pre + (length (print_range r) + S (length tail)))) Hr) as (Hread & _ & Hnext).
    rewrite Hnext by (done || lia). cbn [from_option id]. rewrite Hread. cbn [range_count first_id].
    rewrite Hfill by lia.
    set (result1 := take (Z.to_nat i) result ++ seqZ r.1 (range_size r) ++ drop (Z.to_nat (i + range_size r)) result).
    pose proof (IH (pre ++ print_range r ++ [comma]) post fuel (i + range_size r) result1) as IH'.
    rewrite !length_app in IH'. cbn [length] in IH'. rewrite <- !app_assoc in IH'. cbn [app] in IH'. fold tail in IH'.
    replace (Z.of_nat (length pre) + Z.of_nat (length (print_range r)) + 1)
      with (Z.of_nat (length pre + (length (print_range r) + 1))) by lia.
    replace (length pre + (length (print_range r) + S (length tail)))%nat
      with (length pre + (length (print_range r) + 1) + length tail)%nat by lia.
    rewrite IH'; [|done|done|lia| |cbn [length] in *; lia].
    + f_equal. unfold result1. rewrite app_assoc, take_app_length' by
        (rewrite length_app, length_take, length_seqZ; lia).
      unfold all_ids. cbn [map concat]. by rewrite <- app_assoc.
    + unfold result1. rewrite !length_app, length_take, length_seqZ, length_drop. lia.
Qed.

Lemma print_ranges_last rs : rs <> [] -> Forall valid_range rs ->
  print_ranges rs <> [] /\ last (print_ranges rs) <> Some comma /\ last (print_ranges rs) <> Some newline.
Proof.
  induction rs as [|r rs IH]; intros Hne Hrs; [done|]. inversion Hrs as [|? ? Hr Hrs']; subst.
  destruct rs as [|r2 rs].
  - cbn [print_ranges]. split; [apply print_range_not_nil|].
    destruct (last (print_range r)) as [c|] eqn:Hlast; [|done].
    apply last_Some in Hlast as [l Hl]. split; intros [= ->].
    + pose proof (print_range_no comma r Hr (or_introl eq_refl)) as Hno. rewrite Hl in Hno.
      apply Forall_app in Hno as [_ Hno]. by inversion Hno.
    + pose proof (print_range_no newline r Hr (or_intror eq_refl)) as Hno. rewrite Hl in Hno.
      apply Forall_app in Hno as [_ Hno]. by inversion Hno.
  - destruct (IH ltac:(done) Hrs') as (Hn & Hc & Hnl).
    change (print_ranges (r :: r2 :: rs)) with (print_range r ++ comma :: print_ranges (r2 :: rs)).
    split; [by destruct (print_range r)|].
    destruct (print_ranges (r2 :: rs)) as [|c s] eqn:Heq; [done|].
    rewrite last_app_cons. by rewrite last_cons_cons.
Qed.

Lemma print_ranges_count rs : (length rs <= length (print_ranges rs))%nat.
Proof.
  induction rs as [|r rs IH]; [done|].
  assert (0 < length (print_range r))%nat.
  { pose proof (print_range_not_nil r). destruct (print_range r); simpl; [done|lia]. }
  destruct rs as [|r2 rs]; [cbn; lia|].
  change (print_ranges (r :: r2 :: rs)) with (print_range r ++ comma :: print_ranges (r2 :: rs)).
  rewrite length_app. cbn [length] in *. lia.
Qed.

(** [make_register_path] stays in its array for every CPU, with the prefix, the
    suffix and the two names that [detect] uses. *)
Lemma register_path_fits cpu prefix suffix name :
  length prefix = 27%nat -> length suffix = 21%nat -> (length name <= 9)%nat ->
  Z.of_nat (length (make_register_path prefix suffix name cpu)) <= kRegisterPathCapacity.
Proof.
  intros Hp Hs Hn. unfold make_register_path, kRegisterPathCapacity.
  rewrite !length_app, Hp, Hs. pose proof (to_chars_length 20 10 cpu). unfold decimal. cbn [length]. lia.
Qed.

(** ** Hexadecimal registers *)

Definition hex_digit (c : Z) : Prop := 48 <= c <= 57 \/ 97 <= c <= 102.

(** The end of the text after the number. *)
Definition line_end (s : list Z) : Prop := s = [] \/ exists s', s = newline :: s' \/ s = carriage_return :: s'.

Lemma first_line_digits text rest : Forall hex_digit text -> line_end rest -> first_line (text ++ rest) = text.
Proof.
  intros Ht Hr. induction Ht as [|c text Hc _ IH].
  - destruct Hr as [->|(s' & [->| ->])]; done.
  - cbn [app first_line]. unfold hex_digit, newline, carriage_return in *.
    rewrite (proj2 (Z.eqb_neq c 10)), (proj2 (Z.eqb_neq c 13)) by lia. cbn [orb]. by rewrite IH.
Qed.

Lemma hexadecimal_digits v : 0 <= v -> Forall hex_digit (hexadecimal v).
Proof. intros. apply to_chars_digits; lia. Qed.

(** ** Round trips *)

(** Reading back a printed CPU list gives the identifiers of its ranges in order,
    with or without a final newline, provided the memory for them is there: the two
    passes agree on the number of CPUs and no index leaves the array. *)
Lemma cpu_list_round_trip malloc_ok rs line_end :
  rs <> [] -> Forall valid_range rs -> line_end = [] \/ line_end = [newline] ->
  total_size rs <= size_max / 8 -> malloc_ok (total_size rs * 8) = true ->
  read_online_cpu_ids malloc_ok (Some (print_ranges rs ++ line_end)) = Some (concat (map range_ids rs)).
Proof.
  intros Hne Hrs Hend Htotal Hmalloc. fold (all_ids rs).
  destruct (print_ranges_last rs Hne Hrs) as (Hnil & Hcomma & Hnl).
  destruct (exists_last Hnil) as (text & c & Htext). rewrite Htext in Hcomma, Hnl.
  rewrite last_snoc in Hcomma, Hnl. pose proof (total_size_nonneg rs Hrs) as Hpos.
  set (buffer := print_ranges rs ++ line_end).
  assert (read_online_cpu_ids malloc_ok (Some buffer) =
    let length_ := Z.of_nat (length (print_ranges rs)) in
    match count_cpus (length buffer) buffer length_ 0 0 with
    | None => None
    | Some cpu_count =>
        match allocate malloc_ok 8 cpu_count 0 with
        | None => None
        | Some result => fill_cpus (length buffer) buffer length_ 0 0 result
        end
    end) as ->.
  { assert (buffer !!! Z.to_nat (Z.of_nat (length (print_ranges rs)) - 1) = c) as Hlast.
    { unfold buffer. rewrite Htext, <- app_assoc, length_app. cbn [length app].
      rewrite list_lookup_total_middle; [done|lia]. }
    assert ((if buffer !!! Z.to_nat (Z.of_nat (length buffer) - 1) =? newline then Z.of_nat (length buffer) - 1
      else Z.of_nat (length buffer)) = Z.of_nat (length (print_ranges rs))) as Hlen.
    { destruct Hend as [->| ->]; unfold buffer in *.
      - rewrite app_nil_r in *. rewrite Hlast, (proj2 (Z.eqb_neq c newline)); [done|congruence].
      - rewrite length_app. cbn [length].
        rewrite list_lookup_total_middle by lia. rewrite Z.eqb_refl. lia. }
    assert (0 < length (print_ranges rs))%nat by (rewrite Htext, length_app; cbn [length]; lia).
    unfold read_online_cpu_ids. rewrite Hlen, Hlast.
    rewrite (proj2 (Z.eqb_neq _ 0)), (proj2 (Z.eqb_neq c comma)) by (lia || congruence).
    destruct buffer eqn:Hb; [|done]. unfold buffer in Hb. apply app_nil in Hb as [Hb _]. by rewrite Hb in Hnil. }
  cbn zeta. pose proof (print_ranges_count rs) as Hcount.
  assert (length rs <= length buffer)%nat as Hfuel by (unfold buffer; rewrite length_app; lia).
  assert (size_max / 8 <= size_max) by done.
  pose proof (count_cpus_print rs [] line_end (length buffer) 0 Hne Hrs ltac:(lia) ltac:(lia) Hfuel) as Hc.
  cbn [app length Nat.add] in Hc. change (Z.of_nat 0) with 0 in Hc. fold buffer in Hc. rewrite Hc, Z.add_0_l.
  assert (allocate malloc_ok 8 (total_size rs) 0 = Some (replicate (Z.to_nat (total_size rs)) 0)) as ->.
  { unfold allocate. destruct (Z.eqb_spec (total_size rs) 0) as [->|]; [done|].
    rewrite (proj2 (Z.ltb_ge _ _)) by done. change (size_max / 8) with (2 ^ 61 - 1) in Htotal.
    rewrite size_mul_small by lia. by rewrite Hmalloc. }
  pose proof (fill_cpus_print rs [] line_end (length buffer) 0 (replicate (Z.to_nat (total_size rs)) 0) Hne Hrs
    ltac:(lia) ltac:(rewrite length_replicate; lia) Hfuel) as Hf.
  cbn [app length Nat.add take] in Hf. change (Z.of_nat 0) with 0 in Hf. fold buffer in Hf. exact Hf.
Qed.

(** Leading zeros do not change a number. *)
Lemma from_chars_zeros base zeros n : 2 <= base <= 16 -> forall d text, digit_value base d = Some n ->
  from_chars base (replicate zeros 48 ++ d :: text) = from_chars base (d :: text).
Proof.
  intros Hb d text Hd. assert (digit_value base 48 = Some 0) as H0 by (apply (digit_char_value base 0); lia).
  assert (digits_prefix base 0 (replicate zeros 48 ++ d :: text) = digits_prefix base 0 (d :: text)) as Hp.
  { induction zeros as [|zeros IH]; [done|]. cbn [replicate app digits_prefix]. rewrite H0. cbn [Z.mul Z.add]. exact IH. }
  destruct zeros as [|zeros]; [done|]. unfold from_chars at 1. rewrite Hp. cbn [replicate app]. rewrite H0.
  unfold from_chars. by rewrite Hd.
Qed.

(** A value in hexadecimal after any number of leading zeros. *)
Definition hex_text (zeros : nat) (v : Z) : list Z := replicate zeros 48 ++ hexadecimal v.

Lemma hex_text_digits zeros v : 0 <= v < 2 ^ 64 ->
  Forall hex_digit (hex_text zeros v) /\ hex_text zeros v <> [] /\ from_chars 16 (hex_text zeros v) = Some (v, []).
Proof.
  intros Hv. unfold hex_text. destruct (to_chars_head 16 16 v) as (d & s & Heq & [n Hd]); [lia|change (16 ^ Z.of_nat 16) with (2 ^ 64); lia|lia|].
  split; [|split].
  - apply Forall_app. split; [|apply hexadecimal_digits; lia]. apply Forall_replicate. unfold hex_digit. lia.
  - unfold hexadecimal. rewrite Heq. by destruct zeros.
  - assert (from_chars 16 (hexadecimal v ++ []) = Some (v, [])) as Hparse.
    { apply from_chars_to_chars; [lia|done| |lia|done]. change (16 ^ Z.of_nat 16) with (2 ^ 64). lia. }
    rewrite app_nil_r in Hparse. unfold hexadecimal in *. rewrite Heq in *. by rewrite (from_chars_zeros 16 zeros n).
Qed.

(** A register printed in hexadecimal, with any number of leading zeros, with or without the
    prefix "0x" or "0X" and with or without the end of the line, is read back, for all
    64-bit values. *)
Lemma hex_round_trip v zeros prefix rest :
  0 <= v < 2 ^ 64 -> prefix = [] \/ prefix = [48; 120] \/ prefix = [48; 88] -> line_end rest ->
  read_hex (prefix ++ hex_text zeros v ++ rest) = Some v.
Proof.
  intros Hv Hp Hr. destruct (hex_text_digits zeros v Hv) as (Hd & Hnil & Hparse).
  set (text := hex_text zeros v) in *. clearbody text.
  assert (from_chars 16 (first_line (text ++ rest)) = Some (v, [])) as Hline by (by rewrite first_line_digits).
  assert (forall x s, x = 120 \/ x = 88 -> read_hex (48 :: x :: s) =
    match from_chars 16 (first_line s) with Some (value, []) => Some value | _ => None end) as Hskip
    by (by intros x s [->| ->]).
  destruct Hp as [->|[->| ->]]; [|cbn [app]; rewrite Hskip, Hline; tauto..].
  cbn [app]. unfold read_hex. destruct (text ++ rest) as [|c s] eqn:Heq; [done|].
  destruct s as [|d s]; [by rewrite Hline|].
  assert (d <> 120 /\ d <> 88) as [H1 H2].
  { destruct text as [|c0 [|d0 t]] eqn:Hh; [done| |].
    - cbn in Heq. injection Heq as -> ->. destruct Hr as [|(s' & [[= -> _]|[= -> _]])]; done.
    - cbn in Heq. injection Heq as -> -> _. inversion Hd as [|? ? _ Hd2]; subst. inversion Hd2 as [|? ? Hd3 _]; subst.
      unfold hex_digit in Hd3. lia. }
  rewrite (proj2 (Z.eqb_neq d 120)), (proj2 (Z.eqb_neq d 88)) by done. rewrite andb_false_r. by rewrite Hline.
Qed.
