(* ===== verification/Topology.v ===== *)
(** * The SME topology of the machine

    [SmcuTopology] of [sme_thread_limiter.h] and [sme_thread_limiter.cpp]: which
    CPUs share an SME unit (a domain), how many threads a domain takes, and which
    CPUs may use it.  A [HeapArray] is the list of its elements; the parsers of the
    sysfs files are in [CpuList]. *)

From Stdlib Require Import Ascii String.
From S2P Require Import Prelude CpuList.

(** ** Register fields *)

Definition kArmImplementer : Z := 0x41.
Definition kC1NanoPart : Z := 0xD8A.
Definition kC1ProPart : Z := 0xD8B.
Definition kC1UltraPart : Z := 0xD8C.
Definition kC1PremiumPart : Z := 0xD90.
Definition kNoSmcuDomain : Z := size_max.

Definition midr_implementer (midr : Z) : Z := Z.land (Z.shiftr midr 24) 0xFF.
Definition midr_part (midr : Z) : Z := Z.land (Z.shiftr midr 4) 0xFFF.

Definition smidr_affinity (smidr : Z) : Z :=
  let affinity := Z.land smidr 0xFFF in
  let affinity2 := Z.land (Z.shiftr smidr 32) 0xFFFFF in
  Z.lor (Z.shiftl affinity2 12) affinity.

Inductive SmcuSharing := kUnshared | kShared | kReserved.

#[export] Instance SmcuSharing_eq_dec : EqDecision SmcuSharing.
Proof. solve_decision. Defined.

Definition smidr_sharing (smidr : Z) : SmcuSharing :=
  let sharing := Z.land (Z.shiftr smidr 13) 0x3 in
  if sharing =? 3 then kShared
  else if sharing =? 2 then kUnshared
  else if sharing =? 0 then (if Z.land smidr 0xFFF =? 0 then kUnshared else kShared)
  else kReserved.

Definition smidr_smcu_count (smidr : Z) : option Z :=
  let encoded_count := Z.land (Z.shiftr smidr 56) 0xF in
  if encoded_count =? 15 then None else Some (encoded_count + 1).

(** ** Domains *)

Record CpuInfo := { id : Z; midr : Z; smidr : Z }.
Record SmcuDomainInfo := { affinity : Z; slot_count_ : Z; shared : bool }.

#[export] Instance domain_inhabited : Inhabited SmcuDomainInfo :=
  populate {| affinity := 0; slot_count_ := 0; shared := false |}.

(** The index of the first of the [domain_count] domains with the property. *)
Definition find_domain (P : SmcuDomainInfo -> bool) (domains : list SmcuDomainInfo) (domain_count : nat)
    : option nat :=
  fst <$> list_find (fun d => Is_true (P d)) (take domain_count domains).

Definition find_shared_domain (domains : list SmcuDomainInfo) (domain_count : nat) (affinity_ : Z) : option nat :=
  find_domain (fun d => shared d && (affinity d =? affinity_)) domains domain_count.

(** The locals of the loop of [populate_domains]. *)
Record Domains := { domains : list SmcuDomainInfo; domain_count : nat; cpu_to_domain : list Z }.

Definition populate_cpu (st : option Domains) (info : CpuInfo) : option Domains :=
  match st with
  | None => None
  | Some {| domains := ds; domain_count := n; cpu_to_domain := map |} =>
      let sharing := smidr_sharing (smidr info) in
      if decide (sharing = kReserved) then None
      else
        let affinity_ := smidr_affinity (smidr info) in
        let is_shared := bool_decide (sharing = kShared) in
        match smidr_smcu_count (smidr info) with
        | None => None
        | Some smcu_count =>
            let slots := if is_shared then smcu_count else 1 in
            match (if is_shared then find_shared_domain ds n affinity_ else None) with
            | None =>
                if (length ds <=? n)%nat then None
                else
                  let d := {| affinity := affinity_; slot_count_ := slots; shared := is_shared |} in
                  Some {| domains := <[n := d]> ds; domain_count := S n;
                          cpu_to_domain := <[Z.to_nat (id info) := Z.of_nat n]> map |}
            | Some idx =>
                if negb (slot_count_ (ds !!! idx) =? slots) then None
                else Some {| domains := ds; domain_count := n;
                             cpu_to_domain := <[Z.to_nat (id info) := Z.of_nat idx]> map |}
            end
        end
  end.

(** [populate_domains], with the array that it fills. *)
Definition populate_domains (malloc_ok : Z -> bool) (cpu_infos : list CpuInfo) (map : list Z)
    : option (list SmcuDomainInfo * list Z) :=
  match allocate malloc_ok 16 (Z.of_nat (length cpu_infos)) inhabitant with
  | None => None
  | Some ds =>
      match foldl populate_cpu (Some {| domains := ds; domain_count := 0; cpu_to_domain := map |}) cpu_infos with
      | None => None
      | Some {| domains := ds; domain_count := n; cpu_to_domain := map |} =>
          if (n =? length ds)%nat then Some (ds, map)
          else
            match allocate malloc_ok 16 (Z.of_nat n) inhabitant with
            | None => None
            | Some compact_domains =>
                Some (for_range 0 (Z.of_nat n) (fun i compact =>
                  <[Z.to_nat i := ds !!! Z.to_nat i]> compact) compact_domains, map)
            end
      end
  end.

(** ** Policy *)

Definition apply_cpu_policy_for_arm_cores (cpu_infos : list CpuInfo) (cpu_allowed : list bool) : list bool :=
  foldl (fun allowed info =>
    let part := midr_part (midr info) in
    <[Z.to_nat (id info) := (part =? kC1NanoPart) || (part =? kC1ProPart) || (part =? kC1PremiumPart)]> allowed)
    cpu_allowed cpu_infos.

Definition is_there_shared_domain_with_nonzero_affinity (domains : list SmcuDomainInfo) : bool :=
  existsb (fun d => shared d && negb (affinity d =? 0)) domains.

Definition enable_cores_for_shared_zero_affinity_domain (domains : list SmcuDomainInfo) (cpu_to_domain : list Z)
    (topology_cpu_count : Z) (cpu_allowed : list bool) : list bool :=
  match find_domain (fun d => shared d && (affinity d =? 0)) domains (length domains) with
  | None => cpu_allowed
  | Some domain =>
      for_range 0 topology_cpu_count (fun i allowed =>
        if cpu_to_domain !!! Z.to_nat i =? Z.of_nat domain then <[Z.to_nat i := true]> allowed else allowed)
        cpu_allowed
  end.

(** ** The topology *)

Record SmcuTopology := { cpu_to_domain_ : list Z; cpu_allowed_ : list bool; domains_ : list SmcuDomainInfo }.

Definition from_registers (malloc_ok : Z -> bool) (cpu_infos : list CpuInfo) : option SmcuTopology :=
  match cpu_infos with
  | [] => None
  | first :: _ =>
      let largest_cpu_id := foldl (fun largest info => Z.max largest (id info)) 0 cpu_infos in
      if largest_cpu_id =? size_max then None
      else
        let topology_cpu_count := largest_cpu_id ⊞ 1 in
        let implementer := midr_implementer (midr first) in
        if existsb (fun info => negb (midr_implementer (midr info) =? implementer)) cpu_infos then None
        else
          match allocate malloc_ok 8 topology_cpu_count kNoSmcuDomain with
          | None => None
          | Some map =>
              match allocate malloc_ok 1 topology_cpu_count false with
              | None => None
              | Some cpu_allowed =>
                  match populate_domains malloc_ok cpu_infos map with
                  | None => None
                  | Some (domains, map) =>
                      let cpu_allowed :=
                        if implementer =? kArmImplementer then apply_cpu_policy_for_arm_cores cpu_infos cpu_allowed
                        else if is_there_shared_domain_with_nonzero_affinity domains
                        then enable_cores_for_shared_zero_affinity_domain domains map topology_cpu_count cpu_allowed
                        else cpu_allowed in
                      Some {| cpu_to_domain_ := map; cpu_allowed_ := cpu_allowed; domains_ := domains |}
                  end
              end
          end
  end.

(** The bytes of a string literal, without its NUL. *)
Fixpoint bytes (s : string) : list Z :=
  match s with
  | EmptyString => []
  | String c s => Z.of_N (N_of_ascii c) :: bytes s
  end.

Definition register_path (cpu : Z) (register_name : string) : list Z :=
  make_register_path (bytes "/sys/devices/system/cpu/cpu") (bytes "/regs/identification/")
    (bytes register_name) cpu.

(** [read_hex_file]; [file] gives the contents of a file that can be opened, of which one
    [read] transfers at most the 32 bytes of the buffer. *)
Definition read_hex_file (file : list Z -> option (list Z)) (path : list Z) : option Z :=
  match file path with None => None | Some contents => read_hex (take 32 contents) end.

Definition detect_cpu (file : list Z -> option (list Z)) (st : option (nat * list CpuInfo)) (cpu_id : Z)
    : option (nat * list CpuInfo) :=
  match st with
  | None => None
  | Some (cpu_index, cpu_infos) =>
      match read_hex_file file (register_path cpu_id "midr_el1"),
            read_hex_file file (register_path cpu_id "smidr_el1") with
      | Some midr_, Some smidr_ =>
          Some (S cpu_index, <[cpu_index := {| id := cpu_id; midr := midr_; smidr := smidr_ |}]> cpu_infos)
      | _, _ => None
      end
  end.

(** [online] holds the contents and the reads of /sys/devices/system/cpu/online. *)
Definition detect (malloc_ok : Z -> bool) (online : option (list Z * list ReadResult))
    (file : list Z -> option (list Z)) : option SmcuTopology :=
  let raw := match online with
             | None => None
             | Some (contents, reads) => read_raw_file contents reads kCpuListCapacity
             end in
  match read_online_cpu_ids malloc_ok raw with
  | None => None
  | Some cpu_ids =>
      match allocate malloc_ok 24 (Z.of_nat (length cpu_ids)) {| id := 0; midr := 0; smidr := 0 |} with
      | None => None
      | Some cpu_infos =>
          match foldl (detect_cpu file) (Some (0%nat, cpu_infos)) cpu_ids with
          | None => None
          | Some (_, cpu_infos) => from_registers malloc_ok cpu_infos
          end
      end
  end.

Definition domain_for_cpu (t : SmcuTopology) (cpu : Z) : Z :=
  if Z.of_nat (length (cpu_to_domain_ t)) <=? cpu then kNoSmcuDomain else cpu_to_domain_ t !!! Z.to_nat cpu.

Definition is_cpu_allowed (t : SmcuTopology) (cpu : Z) : bool :=
  (cpu <? Z.of_nat (length (cpu_allowed_ t))) && (cpu_allowed_ t !!! Z.to_nat cpu).

Definition has_allowed_cpu (t : SmcuTopology) : bool := existsb (fun allowed => allowed) (cpu_allowed_ t).

Definition domain_count_of (t : SmcuTopology) : Z := Z.of_nat (length (domains_ t)).

Definition slot_count (t : SmcuTopology) (domain : Z) : Z :=
  if domain <? domain_count_of t then slot_count_ (domains_ t !!! Z.to_nat domain) else 0.

(** ** The loop of populate_domains *)

(** A machine with two shared domains and an unshared CPU, and CPU 2 offline. *)
Definition cpu0 : CpuInfo := {| id := 0; midr := 0x410FD8A0; smidr := 0x0100000000006000 |}.
Definition cpu1 : CpuInfo := {| id := 1; midr := 0x410FD8A0; smidr := 0x0100000000006000 |}.
Definition sample_cpus : list CpuInfo := [
  cpu0; cpu1;
  {| id := 3; midr := 0x410FD8B0; smidr := 0x0000000000006001 |};
  {| id := 4; midr := 0x410FD8C0; smidr := 0x0000000000004000 |}
].

Definition sample_topology : SmcuTopology := {|
  cpu_to_domain_ := [0; 0; kNoSmcuDomain; 1; 2];
  cpu_allowed_ := [true; true; false; true; false];
  domains_ := [{| affinity := 0; slot_count_ := 2; shared := true |};
               {| affinity := 1; slot_count_ := 1; shared := true |};
               {| affinity := 0; slot_count_ := 1; shared := false |}]
|}.

Example sample_from_registers : from_registers (fun _ => true) sample_cpus = Some sample_topology.
Proof. vm_compute. reflexivity. Qed.

#[local] Opaque smidr_affinity smidr_sharing smidr_smcu_count midr_part midr_implementer.

(** The domain that the registers of a CPU describe. *)
Definition is_shared (info : CpuInfo) : bool := bool_decide (smidr_sharing (smidr info) = kShared).
Definition described (info : CpuInfo) : SmcuDomainInfo := {|
  affinity := smidr_affinity (smidr info);
  slot_count_ := if is_shared info then default 1 (smidr_smcu_count (smidr info)) else 1;
  shared := is_shared info
|}.

(** What the code accepts of one CPU. *)
Definition well_described (info : CpuInfo) : Prop :=
  smidr_sharing (smidr info) <> kReserved /\ is_Some (smidr_smcu_count (smidr info)).

Local Abbreviation slot_of := (fun info => Z.to_nat (id info)).

(** The domains found for the CPUs [seen] so far; [size] and [width] are the
    lengths of the arrays and [map0] the contents of the map at first. *)
Record populated (size width : nat) (map0 : list Z) (seen : list CpuInfo) (st : Domains) : Prop := {
  pop_size : length (domains st) = size;
  pop_width : length (cpu_to_domain st) = width;
  pop_count : (domain_count st <= length seen)%nat;
  pop_bound : (domain_count st <= size)%nat;
  pop_seen : forall x, x ∈ seen -> exists d, (d < domain_count st)%nat /\
    cpu_to_domain st !!! slot_of x = Z.of_nat d /\ domains st !!! d = described x;
  pop_unique : forall c d, (c < domain_count st)%nat -> (d < domain_count st)%nat ->
    shared (domains st !!! c) = true -> shared (domains st !!! d) = true ->
    affinity (domains st !!! c) = affinity (domains st !!! d) -> c = d;
  pop_same : forall x y, x ∈ seen -> y ∈ seen -> slot_of x <> slot_of y ->
    (cpu_to_domain st !!! slot_of x = cpu_to_domain st !!! slot_of y <->
     is_shared x = true /\ is_shared y = true /\ smidr_affinity (smidr x) = smidr_affinity (smidr y));
  pop_other : forall c, (forall x, x ∈ seen -> slot_of x <> c) -> cpu_to_domain st !!! c = map0 !!! c;
  pop_covers : forall d, (d < domain_count st)%nat -> exists x, x ∈ seen /\ domains st !!! d = described x
}.

(** The search for a domain. *)
Lemma find_domain_some P ds n d : (n <= length ds)%nat -> find_domain P ds n = Some d ->
  (d < n)%nat /\ P (ds !!! d) = true.
Proof.
  intros Hn. unfold find_domain. destruct (list_find _ _) as [[i x]|] eqn:Hf; [|done].
  intros [= <-]. apply list_find_Some in Hf as (Hi & Hp & _). apply lookup_take_Some in Hi as [Hi Hlt].
  split; [done|]. rewrite (list_lookup_total_correct _ _ _ Hi). by apply Is_true_true.
Qed.

Lemma find_domain_none P ds n d : (n <= length ds)%nat -> find_domain P ds n = None -> (d < n)%nat ->
  P (ds !!! d) = false.
Proof.
  intros Hn. unfold find_domain. destruct (list_find _ _) as [[i x]|] eqn:Hf; [done|]. intros _ Hd.
  apply list_find_None in Hf. destruct (lookup_lt_is_Some_2 ds d) as [y Hy]; [lia|].
  rewrite (list_lookup_total_correct _ _ _ Hy).
  assert (take n ds !! d = Some y) as Ht by (apply lookup_take_Some; done).
  apply (Forall_lookup_1 _ _ _ _ Hf) in Ht. destruct (P y); [|done]. by destruct Ht.
Qed.

(** A new domain. *)
Lemma populated_new size width map0 seen st info :
  populated size width map0 seen st -> (domain_count st < size)%nat -> (slot_of info < width)%nat ->
  (forall x, x ∈ seen -> slot_of x <> slot_of info) ->
  (is_shared info = true -> forall d, (d < domain_count st)%nat ->
    shared (domains st !!! d) && (affinity (domains st !!! d) =? smidr_affinity (smidr info)) = false) ->
  populated size width map0 (seen ++ [info])
    {| domains := <[domain_count st := described info]> (domains st); domain_count := S (domain_count st);
       cpu_to_domain := <[slot_of info := Z.of_nat (domain_count st)]> (cpu_to_domain st) |}.
Proof.
  intros [Hs Hw Hc Hbd Hseen Huniq Hsame Hother Hcov] Hn Hi Hnew Hfresh. set (n := domain_count st) in *.
  assert (forall d, (d < n)%nat -> <[n := described info]> (domains st) !!! d = domains st !!! d) as Hold
    by (intros d Hd; apply list_lookup_total_insert_ne; lia).
  assert (<[n := described info]> (domains st) !!! n = described info) as Hnew'
    by (apply list_lookup_total_insert_eq; lia).
  assert (forall x, x ∈ seen -> <[slot_of info := Z.of_nat n]> (cpu_to_domain st) !!! slot_of x =
    cpu_to_domain st !!! slot_of x) as Hmap
    by (intros x Hx; apply list_lookup_total_insert_ne; intros Heq; by apply (Hnew x Hx)).
  assert (<[slot_of info := Z.of_nat n]> (cpu_to_domain st) !!! slot_of info = Z.of_nat n) as Hmapi
    by (apply list_lookup_total_insert_eq; lia).
  assert (forall y, y ∈ seen -> cpu_to_domain st !!! slot_of y <> Z.of_nat n /\
    ~ (is_shared info = true /\ is_shared y = true /\ smidr_affinity (smidr info) = smidr_affinity (smidr y))) as Hdiff.
  { intros y Hy. destruct (Hseen y Hy) as (d & Hd & Hm & Hdom). split; [lia|].
    intros (H1 & H2 & H3). specialize (Hfresh H1 d Hd). rewrite Hdom in Hfresh. cbn in Hfresh.
    rewrite H2, H3, Z.eqb_refl in Hfresh. done. }
  constructor; cbn [domains domain_count cpu_to_domain].
  - by rewrite length_insert.
  - by rewrite length_insert.
  - rewrite length_app. cbn. lia.
  - lia.
  - intros x [Hx|Hx%list_elem_of_singleton]%elem_of_app.
    + destruct (Hseen x Hx) as (d & Hd & Hm & Hdom). exists d. rewrite Hmap, Hold by done. split; [lia|done].
    + subst x. exists n. split; [lia|]. by split.
  - intros c d Hc' Hd' H1 H2 H3.
    destruct (decide (c = n)) as [->|], (decide (d = n)) as [->|]; try done.
    + rewrite Hnew', Hold in * by lia. cbn in H1, H3. specialize (Hfresh H1 d ltac:(lia)).
      rewrite H2, <- H3, Z.eqb_refl in Hfresh. done.
    + rewrite Hnew', Hold in * by lia. cbn in H2, H3. specialize (Hfresh H2 c ltac:(lia)).
      rewrite H1, H3, Z.eqb_refl in Hfresh. done.
    + rewrite !Hold in * by lia. apply Huniq; done || lia.
  - intros x y [Hx|Hx%list_elem_of_singleton]%elem_of_app [Hy|Hy%list_elem_of_singleton]%elem_of_app Hne.
    + rewrite !Hmap by done. by apply Hsame.
    + subst y. rewrite Hmapi, Hmap by done. destruct (Hdiff x Hx) as [H1 H2]. split; [done|].
      intros (? & ? & ?). exfalso. by apply H2.
    + subst x. rewrite Hmapi, Hmap by done. destruct (Hdiff y Hy) as [H1 H2]. split; [done|].
      intros (? & ? & ?). exfalso. by apply H2.
    + by subst.
  - intros c Hc'. rewrite list_lookup_total_insert_ne.
    + apply Hother. intros x Hx. apply Hc'. apply elem_of_app. by left.
    + apply Hc'. apply elem_of_app. right. by apply list_elem_of_singleton.
  - intros d Hd'. destruct (decide (d = n)) as [->|].
    + exists info. split; [apply elem_of_app; right; by apply list_elem_of_singleton|done].
    + destruct (Hcov d) as (x & Hx & Hdx); [lia|]. exists x. rewrite Hold by lia.
      split; [apply elem_of_app; by left|done].
Qed.

(** A CPU that joins domain [idx]. *)
Lemma populated_join size width map0 seen st info idx :
  populated size width map0 seen st -> (slot_of info < width)%nat ->
  (forall x, x ∈ seen -> slot_of x <> slot_of info) ->
  (idx < domain_count st)%nat -> is_shared info = true -> domains st !!! idx = described info ->
  populated size width map0 (seen ++ [info])
    {| domains := domains st; domain_count := domain_count st;
       cpu_to_domain := <[slot_of info := Z.of_nat idx]> (cpu_to_domain st) |}.
Proof.
  intros [Hs Hw Hc Hbd Hseen Huniq Hsame Hother Hcov] Hi Hnew Hidx Hshared Hdom.
  assert (forall x, x ∈ seen -> <[slot_of info := Z.of_nat idx]> (cpu_to_domain st) !!! slot_of x =
    cpu_to_domain st !!! slot_of x) as Hmap
    by (intros x Hx; apply list_lookup_total_insert_ne; intros Heq; by apply (Hnew x Hx)).
  assert (<[slot_of info := Z.of_nat idx]> (cpu_to_domain st) !!! slot_of info = Z.of_nat idx) as Hmapi
    by (apply list_lookup_total_insert_eq; lia).
  assert (forall y, y ∈ seen -> (cpu_to_domain st !!! slot_of y = Z.of_nat idx <->
    is_shared y = true /\ smidr_affinity (smidr y) = smidr_affinity (smidr info))) as Hiff.
  { intros y Hy. destruct (Hseen y Hy) as (d & Hd & Hm & Hdy). rewrite Hm. split.
    - intros Heq%Nat2Z.inj. subst d. rewrite Hdom in Hdy. injection Hdy as Ha _ Hsh. by rewrite <- Hsh, Ha.
    - intros [Hsy Hay]. f_equal. apply Huniq; try done; rewrite ?Hdy, ?Hdom; cbn; done. }
  constructor; cbn [domains domain_count cpu_to_domain]; try done.
  - by rewrite length_insert.
  - rewrite length_app. lia.
  - intros x [Hx|Hx%list_elem_of_singleton]%elem_of_app.
    + destruct (Hseen x Hx) as (d & Hd & Hm & Hdx). exists d. by rewrite Hmap.
    + subst x. by exists idx.
  - intros x y [Hx|Hx%list_elem_of_singleton]%elem_of_app [Hy|Hy%list_elem_of_singleton]%elem_of_app Hne.
    + rewrite !Hmap by done. by apply Hsame.
    + subst y. rewrite Hmapi, Hmap, Hiff by done. split; [intros []|intros (? & ? & ?)]; done.
    + subst x. rewrite Hmapi, Hmap by done. pose proof (Hiff y Hy) as Hy'.
      split; [intros Heq; symmetry in Heq; apply Hy' in Heq as []; done|].
      intros (_ & ? & ?). symmetry. apply Hy'. done.
    + by subst.
  - intros c Hc'. rewrite list_lookup_total_insert_ne.
    + apply Hother. intros x Hx. apply Hc'. apply elem_of_app. by left.
    + apply Hc'. apply elem_of_app. right. by apply list_elem_of_singleton.
  - intros d Hd'. destruct (Hcov d Hd') as (x & Hx & Hdx). exists x. split; [apply elem_of_app; by left|done].
Qed.

(** One iteration. *)
Lemma populate_cpu_step size width map0 seen st info st' :
  populated size width map0 seen st -> (slot_of info < width)%nat ->
  (forall x, x ∈ seen -> slot_of x <> slot_of info) -> populate_cpu (Some st) info = Some st' ->
  populated size width map0 (seen ++ [info]) st' /\ well_described info.
Proof.
  intros Hpop Hi Hnew. destruct st as [ds n map]. unfold populate_cpu.
  destruct (decide (smidr_sharing (smidr info) = kReserved)) as [|Hres]; [done|].
  destruct (smidr_smcu_count (smidr info)) as [count|] eqn:Hcount; [|done].
  change (bool_decide (smidr_sharing (smidr info) = kShared)) with (is_shared info).
  pose proof (pop_size _ _ _ _ _ Hpop) as Hsize. pose proof (pop_count _ _ _ _ _ Hpop) as Hcnt. cbn in Hsize, Hcnt.
  assert (well_described info) as Hwell by (split; [done|by eexists]).
  assert (forall s, described info = s -> {| affinity := smidr_affinity (smidr info);
    slot_count_ := if is_shared info then count else 1; shared := is_shared info |} = s) as Hdesc.
  { intros s <-. unfold described. rewrite Hcount. done. }
  pose proof (pop_bound _ _ _ _ _ Hpop) as Hbd. cbn in Hbd. rewrite <- Hsize in Hbd.
  destruct (if is_shared info then find_shared_domain ds n (smidr_affinity (smidr info)) else None)
    as [idx|] eqn:Hfind.
  - destruct (is_shared info) eqn:Hsh; [|done].
    destruct (find_domain_some _ ds n idx Hbd Hfind) as [Hidx Hp].
    apply andb_true_iff in Hp as [Hps Hpa%Z.eqb_eq].
    destruct (Z.eqb_spec (slot_count_ (ds !!! idx)) count) as [Hslots|]; [cbn [negb]|done].
    intros [= <-]. split; [|done].
    apply (populated_join size width map0 seen {| domains := ds; domain_count := n; cpu_to_domain := map |});
      try done. cbn. rewrite <- (Hdesc _ eq_refl). destruct (ds !!! idx). cbn in *. by subst.
  - destruct (Nat.leb_spec (length ds) n); [done|]. intros [= <-]. split; [|done].
    rewrite (Hdesc _ eq_refl).
    apply (populated_new size width map0 seen {| domains := ds; domain_count := n; cpu_to_domain := map |});
      try done; [cbn; lia|]. cbn. intros Hsh d Hd. rewrite Hsh in Hfind.
    by apply (find_domain_none _ ds n d Hbd Hfind).
Qed.

Lemma populate_cpu_none infos : foldl populate_cpu None infos = None.
Proof. induction infos; [done|]. cbn. done. Qed.

(** The whole loop. *)
Lemma populate_cpus_run size width map0 infos : forall seen st st',
  populated size width map0 seen st ->
  NoDup (map slot_of (seen ++ infos)) -> Forall (fun x => (slot_of x < width)%nat) infos ->
  foldl populate_cpu (Some st) infos = Some st' ->
  populated size width map0 (seen ++ infos) st' /\ Forall well_described infos.
Proof.
  induction infos as [|info infos IH]; intros seen st st' Hpop Hnd Hin Hrun.
  - cbn in Hrun. injection Hrun as <-. by rewrite app_nil_r.
  - inversion Hin as [|? ? Hi Hin']; subst. cbn [foldl] in Hrun.
    destruct (populate_cpu (Some st) info) as [st1|] eqn:Hstep; [|by rewrite populate_cpu_none in Hrun].
    assert (forall x, x ∈ seen -> slot_of x <> slot_of info) as Hnew.
    { intros x Hx Heq. rewrite map_app in Hnd. apply NoDup_app in Hnd as (_ & Hd & _).
      apply (Hd (slot_of x)); [by apply list_elem_of_fmap; exists x|]. rewrite Heq. cbn. left. }
    destruct (populate_cpu_step size width map0 seen st info st1 Hpop Hi Hnew Hstep) as [Hpop1 Hwell].
    assert ((seen ++ [info]) ++ infos = seen ++ info :: infos) as Happ by (by rewrite <- app_assoc).
    destruct (IH (seen ++ [info]) st1 st' Hpop1) as [Hpop' Hwell']; [by rewrite Happ|done|done|].
    rewrite Happ in Hpop'. split; [done|by constructor].
Qed.

Lemma allocate_some {T} malloc_ok sizeof count (x : T) l :
  0 <= count -> allocate malloc_ok sizeof count x = Some l ->
  l = replicate (Z.to_nat count) x /\ (count = 0 \/ count <= size_max / sizeof).
Proof.
  unfold allocate. intros Hc. destruct (Z.eqb_spec count 0) as [->|]; [intros [= <-]; split; [done|by left]|].
  destruct (Z.ltb_spec (size_max / sizeof) count); [done|]. destruct (malloc_ok _); [|done].
  intros [= <-]. split; [done|by right].
Qed.

(** Copying the first [n] domains. *)
Lemma compact_take (ds : list SmcuDomainInfo) n : (n <= length ds)%nat ->
  for_range 0 (Z.of_nat n) (fun i compact => <[Z.to_nat i := ds !!! Z.to_nat i]> compact)
    (replicate n inhabitant) = take n ds.
Proof.
  intros Hn. assert (Z.of_nat n <= Z.of_nat n) as Hle by lia. revert Hle.
  enough (forall i, 0 <= i <= Z.of_nat n ->
    for_range 0 i (fun i compact => <[Z.to_nat i := ds !!! Z.to_nat i]> compact) (replicate n inhabitant) =
    take (Z.to_nat i) ds ++ replicate (n - Z.to_nat i) inhabitant) as H.
  { intros _. rewrite H by lia. rewrite Nat2Z.id, Nat.sub_diag. by rewrite app_nil_r. }
  intros i Hi.
  apply (for_range_ind (fun k l => k <= Z.of_nat n -> l = take (Z.to_nat k) ds ++ replicate (n - Z.to_nat k) inhabitant));
    [lia| | |lia].
  - intros _. by rewrite Nat.sub_0_r.
  - intros k l Hk IH Hkn. rewrite (IH ltac:(lia)).
    replace (n - Z.to_nat k)%nat with (S (n - Z.to_nat (k + 1)))%nat by lia. cbn [replicate].
    rewrite insert_app_r_alt by (rewrite length_take; lia). rewrite length_take.
    replace (Z.to_nat k - Z.to_nat k `min` length ds)%nat with 0%nat by lia. cbn [insert list_insert].
    replace (Z.to_nat (k + 1)) with (S (Z.to_nat k)) by lia.
    destruct (lookup_lt_is_Some_2 ds (Z.to_nat k)) as [x Hx]; [lia|].
    rewrite (take_S_r _ _ x Hx), <- app_assoc. cbn [app]. by rewrite (list_lookup_total_correct _ _ _ Hx).
Qed.

Lemma initially_populated size width map0 ds :
  length ds = size -> length map0 = width ->
  populated size width map0 [] {| domains := ds; domain_count := 0; cpu_to_domain := map0 |}.
Proof.
  intros Hs Hw. constructor; cbn; try done; try lia.
  - intros x Hx. by apply elem_of_nil in Hx.
  - intros x y Hx. by apply elem_of_nil in Hx.
Qed.

(** What [populate_domains] returns. *)
Lemma populate_domains_run malloc_ok infos map0 ds cpu_map :
  NoDup (map slot_of infos) -> Forall (fun x => (slot_of x < length map0)%nat) infos ->
  populate_domains malloc_ok infos map0 = Some (ds, cpu_map) ->
  populated (length ds) (length map0) map0 infos {| domains := ds; domain_count := length ds; cpu_to_domain := cpu_map |} /\
  (length ds <= length infos)%nat /\ Z.of_nat (length ds) < size_max /\ Forall well_described infos.
Proof.
  intros Hnd Hin. unfold populate_domains.
  destruct (allocate malloc_ok 16 (Z.of_nat (length infos)) inhabitant) as [ds0|] eqn:Halloc; [|done].
  apply allocate_some in Halloc as [-> Hbound]; [|lia].
  set (st0 := {| domains := _; domain_count := 0; cpu_to_domain := map0 |}).
  destruct (foldl populate_cpu (Some st0) infos) as [[ds1 n map1]|] eqn:Hrun; [|done].
  destruct (populate_cpus_run (length infos) (length map0) map0 infos [] st0 _ ltac:(apply initially_populated; [by rewrite Nat2Z.id, length_replicate|done]) Hnd Hin Hrun)
    as [Hpop Hwell]. cbn [app] in Hpop.
  pose proof (pop_size _ _ _ _ _ Hpop) as Hsize. pose proof (pop_bound _ _ _ _ _ Hpop) as Hbd. cbn in Hsize, Hbd.
  assert (size_max / 16 < size_max) by done.
  assert (Z.of_nat (length infos) < size_max) by (unfold size_max in *; lia).
  assert (forall ds2, ds2 = take n ds1 -> (length ds2 = n /\ populated (length ds2) (length map0) map0 infos
    {| domains := ds2; domain_count := length ds2; cpu_to_domain := map1 |})) as Htake.
  { intros ds2 ->. assert (length (take n ds1) = n) as Hlen by (rewrite length_take; lia). rewrite Hlen.
    split; [done|]. destruct Hpop as [Hs Hw Hc _ Hseen Huniq Hsame Hother Hcov]. cbn in *.
    assert (forall d, (d < n)%nat -> take n ds1 !!! d = ds1 !!! d) as Hget
      by (intros d Hd; rewrite !list_lookup_total_alt; by rewrite lookup_take_lt).
    constructor; cbn; try done.
    - intros x Hx. destruct (Hseen x Hx) as (d & Hd & Hm & Hdx). exists d. by rewrite Hget.
    - intros c d Hcn Hdn. rewrite !Hget by done. by apply Huniq.
    - intros d Hd. rewrite Hget by done. by apply Hcov. }
  destruct (Nat.eqb_spec n (length ds1)) as [Heq|Hne].
  - intros [= <- <-]. destruct (Htake ds1) as [Hl Hp]; [by rewrite Heq, take_ge|].
    split_and!; done || lia.
  - destruct (allocate malloc_ok 16 (Z.of_nat n) inhabitant) as [compact|] eqn:Hcompact; [|done].
    apply allocate_some in Hcompact as [-> _]; [|lia]. intros [= <- <-].
    rewrite Nat2Z.id, compact_take by lia.
    destruct (Htake (take n ds1) eq_refl) as [Hl Hp]. split_and!; done || lia.
Qed.

(** ** from_registers *)

Lemma largest_id infos : forall n,
  n <= foldl (fun largest info => Z.max largest (id info)) n infos /\
  (forall x, x ∈ infos -> id x <= foldl (fun largest info => Z.max largest (id info)) n infos).
Proof.
  induction infos as [|info infos IH]; intros n; cbn [foldl].
  - split; [lia|]. intros x Hx. by apply elem_of_nil in Hx.
  - destruct (IH (Z.max n (id info))) as [H1 H2]. split; [lia|].
    intros x [->|Hx]%elem_of_cons; [lia|by apply H2].
Qed.

Lemma largest_bound infos m : forall n, n < m -> Forall (fun x => id x < m) infos ->
  foldl (fun largest info => Z.max largest (id info)) n infos < m.
Proof.
  induction infos as [|info infos IH]; intros n Hn Hids; cbn [foldl]; [lia|].
  inversion Hids; subst. apply IH; [lia|done].
Qed.

(** CPU identifiers as the kernel reports them. *)
Definition valid_ids (infos : list CpuInfo) : Prop :=
  NoDup (map id infos) /\ Forall (fun x => 0 <= id x < 2 ^ 64) infos.

Lemma valid_ids_slots infos : valid_ids infos -> NoDup (map slot_of infos).
Proof.
  intros [Hnd Hids]. induction infos as [|info infos IH]; [constructor|].
  cbn in Hnd. inversion Hnd as [|? ? Hni Hnd']; subst. inversion Hids as [|? ? Hi Hids']; subst.
  cbn. constructor; [|by apply IH]. intros (x & Heq & Hx)%list_elem_of_fmap. apply Hni.
  apply list_elem_of_fmap. exists x. split; [|done].
  rewrite Forall_forall in Hids'. specialize (Hids' x Hx). lia.
Qed.

(** The policy that the implementer selects, on the arrays of the topology. *)
Definition policy (infos : list CpuInfo) (ds : list SmcuDomainInfo) (cpu_map : list Z) (count : Z) : list bool :=
  let none := replicate (Z.to_nat count) false in
  if midr_implementer (midr (hd {| id := 0; midr := 0; smidr := 0 |} infos)) =? kArmImplementer
  then apply_cpu_policy_for_arm_cores infos none
  else if is_there_shared_domain_with_nonzero_affinity ds
  then enable_cores_for_shared_zero_affinity_domain ds cpu_map count none else none.

Lemma from_registers_run malloc_ok infos t :
  valid_ids infos -> from_registers malloc_ok infos = Some t ->
  exists count, 0 < count /\ Forall (fun x => id x < count) infos /\
    populated (length (domains_ t)) (Z.to_nat count) (replicate (Z.to_nat count) kNoSmcuDomain) infos
      {| domains := domains_ t; domain_count := length (domains_ t); cpu_to_domain := cpu_to_domain_ t |} /\
    Z.of_nat (length (domains_ t)) < size_max /\ Forall well_described infos /\
    cpu_allowed_ t = policy infos (domains_ t) (cpu_to_domain_ t) count /\
    Forall (fun x => midr_implementer (midr x) =
      midr_implementer (midr (hd {| id := 0; midr := 0; smidr := 0 |} infos))) infos.
Proof.
  intros Hvalid. pose proof (valid_ids_slots infos Hvalid) as Hslots. destruct Hvalid as [Hnd Hids].
  unfold from_registers. destruct infos as [|first infos0]; [done|]. set (infos := first :: infos0) in *.
  destruct (largest_id infos 0) as [Hl0 Hl]. pose proof (largest_bound infos (2 ^ 64) 0 ltac:(lia) (Forall_impl _ _ _ Hids (fun x Hx => proj2 Hx))) as Hlb.
  set (largest := foldl _ 0 infos) in *. destruct (Z.eqb_spec largest size_max) as [|Hmax]; [done|].
  unfold size_max in Hmax. rewrite size_add_small by lia. set (count := largest + 1).
  destruct (existsb _ infos) eqn:Himpl; [done|].
  destruct (allocate malloc_ok 8 count kNoSmcuDomain) as [map0|] eqn:Hmap; [|done].
  destruct (allocate malloc_ok 1 count false) as [allowed0|] eqn:Hallowed; [|done].
  apply allocate_some in Hmap as [-> _]; [|lia]. apply allocate_some in Hallowed as [-> _]; [|lia].
  destruct (populate_domains malloc_ok infos (replicate (Z.to_nat count) kNoSmcuDomain)) as [[ds cpu_map]|] eqn:Hpop; [|done].
  apply populate_domains_run in Hpop as (Hp & Hlen & Hds & Hwell); [|done|].
  2:{ rewrite length_replicate. apply Forall_forall. intros x Hx. specialize (Hl x Hx). unfold count.
      rewrite Forall_forall in Hids. specialize (Hids x Hx). lia. }
  rewrite length_replicate in Hp. intros [= <-]. exists count. cbn [domains_ cpu_to_domain_ cpu_allowed_].
  split_and!; try done; [lia| |].
  - apply Forall_forall. intros x Hx. specialize (Hl x Hx). unfold count. lia.
  - apply Forall_forall. intros x Hx. cbn [hd infos].
    destruct (decide (midr_implementer (midr x) = midr_implementer (midr first))) as [|Hne]; [done|].
    assert (existsb (fun info => negb (midr_implementer (midr info) =? midr_implementer (midr first))) infos = true)
      as Ht; [|congruence].
    apply existsb_exists. exists x. split; [by apply list_elem_of_In|]. by rewrite (proj2 (Z.eqb_neq _ _)).
Qed.

(** The bit fields. *)
#[local] Transparent smidr_smcu_count.
Lemma smcu_count_range v count : smidr_smcu_count v = Some count -> 1 <= count <= 15.
Proof.
  unfold smidr_smcu_count.
  assert (Z.land (Z.shiftr v 56) 0xF = Z.shiftr v 56 mod 16) as -> by (change 0xF with (Z.ones 4); by rewrite Z.land_ones).
  pose proof (Z.mod_pos_bound (Z.shiftr v 56) 16 ltac:(lia)).
  destruct (Z.eqb_spec (Z.shiftr v 56 mod 16) 15); [done|]. intros [= <-]. lia.
Qed.

Lemma described_slots x : well_described x -> 1 <= slot_count_ (described x) <= 15.
Proof.
  intros [_ [count Hc]]. unfold described. cbn. destruct (is_shared x); [|lia]. rewrite Hc. cbn.
  by apply (smcu_count_range (smidr x)).
Qed.
#[local] Opaque smidr_smcu_count.

(** The arm policy on the array of the CPUs. *)
Definition arm_allowed (part : Z) : bool := (part =? kC1NanoPart) || (part =? kC1ProPart) || (part =? kC1PremiumPart).

Lemma arm_policy_lookup infos : forall allowed c,
  NoDup (map slot_of infos) -> Forall (fun x => (slot_of x < length allowed)%nat) infos ->
  length (apply_cpu_policy_for_arm_cores infos allowed) = length allowed /\
  (forall x, x ∈ infos -> apply_cpu_policy_for_arm_cores infos allowed !!! slot_of x = arm_allowed (midr_part (midr x))) /\
  ((forall x, x ∈ infos -> slot_of x <> c) -> apply_cpu_policy_for_arm_cores infos allowed !!! c = allowed !!! c).
Proof.
  induction infos as [|info infos IH]; intros allowed c Hnd Hin.
  - split_and!; try done. intros x Hx. by apply elem_of_nil in Hx.
  - cbn in Hnd. inversion Hnd as [|? ? Hni Hnd']; subst. inversion Hin as [|? ? Hi Hin']; subst.
    set (allowed1 := <[slot_of info := arm_allowed (midr_part (midr info))]> allowed).
    change (apply_cpu_policy_for_arm_cores (info :: infos) allowed) with
      (apply_cpu_policy_for_arm_cores infos allowed1).
    assert (length allowed1 = length allowed) as Hlen by (apply length_insert).
    assert (forall c', (forall x, x ∈ infos -> slot_of x <> c') ->
      apply_cpu_policy_for_arm_cores infos allowed1 !!! c' = allowed1 !!! c') as Hother.
    { intros c' Hc'. apply (IH allowed1 c' Hnd'); [by rewrite Hlen|done]. }
    destruct (IH allowed1 c Hnd' ltac:(by rewrite Hlen)) as (Hl & Hx & Hc). split_and!.
    + by rewrite Hl.
    + intros x [->|Hx']%elem_of_cons; [|by apply Hx].
      rewrite Hother; [by apply list_lookup_total_insert_eq|].
      intros y Hy Heq. apply Hni. rewrite <- Heq. apply list_elem_of_fmap. by exists y.
    + intros Hne. rewrite Hc by (intros x Hx'; apply Hne; by right). apply list_lookup_total_insert_ne.
      apply Hne. by left.
Qed.

(** The zero-affinity policy. *)
Lemma enable_lookup ds cpu_map count c :
  0 <= count -> (c < Z.to_nat count)%nat ->
  let allowed := enable_cores_for_shared_zero_affinity_domain ds cpu_map count (replicate (Z.to_nat count) false) in
  length allowed = Z.to_nat count /\
  allowed !!! c = match find_domain (fun d => shared d && (affinity d =? 0)) ds (length ds) with
                  | Some d => cpu_map !!! c =? Z.of_nat d
                  | None => false
                  end.
Proof.
  intros Hcount Hc. unfold enable_cores_for_shared_zero_affinity_domain. cbn zeta.
  assert (forall n : nat, (c < n)%nat -> replicate n false !!! c = false) as Hrep
    by (intros n Hn; by apply lookup_total_replicate_2).
  destruct (find_domain _ _ _) as [d|] eqn:Hfind.
  2:{ rewrite length_replicate. split; [done|]. by rewrite Hrep. }
  set (step := fun (i : Z) (allowed : list bool) => _).
  enough (length (for_range 0 count step (replicate (Z.to_nat count) false)) = Z.to_nat count /\
    for_range 0 count step (replicate (Z.to_nat count) false) !!! c =
      (Z.of_nat c <? count) && (cpu_map !!! c =? Z.of_nat d)) as [Hl Ha].
  { split; [done|]. rewrite Ha, (proj2 (Z.ltb_lt _ _)) by lia. done. }
  apply (for_range_ind (fun i allowed => length allowed = Z.to_nat count /\
    allowed !!! c = (Z.of_nat c <? i) && (cpu_map !!! c =? Z.of_nat d))); [lia| |].
  - rewrite length_replicate, (proj2 (Z.ltb_ge _ _)) by lia. split; [done|]. by rewrite Hrep.
  - intros i allowed Hi [Hl Hall]. unfold step.
    destruct (decide (Z.to_nat i = c)) as [<-|Hne].
    + rewrite (proj2 (Z.ltb_lt _ _)) by lia. rewrite (proj2 (Z.ltb_ge _ _)) in Hall by lia.
      destruct (_ =? Z.of_nat d); [|done]. rewrite length_insert. split; [done|].
      by apply list_lookup_total_insert_eq; lia.
    + replace (Z.of_nat c <? i + 1) with (Z.of_nat c <? i)
        by (destruct (Z.ltb_spec (Z.of_nat c) i), (Z.ltb_spec (Z.of_nat c) (i + 1)); done || lia).
      destruct (_ !!! Z.to_nat i =? Z.of_nat d); [|done]. rewrite length_insert. split; [done|].
      by rewrite list_lookup_total_insert_ne by done.
Qed.

(** ** Which registers are accepted *)

(** CPUs of one shared domain describe it alike. *)
Definition consistent (infos : list CpuInfo) : Prop :=
  forall x y, x ∈ infos -> y ∈ infos -> is_shared x = true -> is_shared y = true ->
  smidr_affinity (smidr x) = smidr_affinity (smidr y) -> smidr_smcu_count (smidr x) = smidr_smcu_count (smidr y).

Lemma populate_cpu_succeeds size width map0 seen st info :
  populated size width map0 seen st -> (length seen < size)%nat -> well_described info ->
  Forall well_described seen -> consistent (seen ++ [info]) -> is_Some (populate_cpu (Some st) info).
Proof.
  intros Hpop Hlt [Hres [count Hcount]] Hwell Hcons. destruct st as [ds n map]. unfold populate_cpu.
  destruct (decide _) as [|_]; [done|]. rewrite Hcount.
  change (bool_decide (smidr_sharing (smidr info) = kShared)) with (is_shared info).
  pose proof (pop_size _ _ _ _ _ Hpop) as Hsize. pose proof (pop_count _ _ _ _ _ Hpop) as Hcnt.
  pose proof (pop_bound _ _ _ _ _ Hpop) as Hbd. cbn in Hsize, Hcnt, Hbd. rewrite <- Hsize in Hbd.
  destruct (if is_shared info then find_shared_domain ds n (smidr_affinity (smidr info)) else None)
    as [idx|] eqn:Hfind.
  - destruct (is_shared info) eqn:Hsh; [|done].
    destruct (find_domain_some _ ds n idx Hbd Hfind) as [Hidx [Hps Hpa%Z.eqb_eq]%andb_true_iff].
    destruct (pop_covers _ _ _ _ _ Hpop idx Hidx) as (x & Hx & Hdx). cbn in Hdx.
    rewrite Hdx in Hps, Hpa |- *. cbn in Hps, Hpa. cbn [described slot_count_]. rewrite Hps.
    rewrite (Hcons x info), Hcount, Z.eqb_refl; try done; [apply elem_of_app; by left|].
    apply elem_of_app. right. by apply list_elem_of_singleton.
  - rewrite (proj2 (Nat.leb_gt _ _)) by lia. done.
Qed.

Lemma populate_cpus_succeed size width map0 infos : forall seen st,
  populated size width map0 seen st -> (length (seen ++ infos) <= size)%nat ->
  NoDup (map slot_of (seen ++ infos)) -> Forall (fun x => (slot_of x < width)%nat) infos ->
  Forall well_described (seen ++ infos) -> consistent (seen ++ infos) ->
  is_Some (foldl populate_cpu (Some st) infos).
Proof.
  induction infos as [|info infos IH]; intros seen st Hpop Hsize Hnd Hin Hwell Hcons; [done|].
  assert ((seen ++ [info]) ++ infos = seen ++ info :: infos) as Happ by (by rewrite <- app_assoc).
  rewrite <- Happ in Hsize, Hnd, Hwell, Hcons. inversion Hin as [|? ? Hi Hin']; subst. cbn [foldl].
  assert (consistent (seen ++ [info])) as Hcons1.
  { intros x y Hx Hy. apply Hcons; apply elem_of_app; by left. }
  pose proof Hwell as [[Hwell1 Hwelli%Forall_inv]%Forall_app _]%Forall_app.
  assert (length seen < size)%nat as Hlt by (rewrite !length_app in Hsize; cbn in Hsize; lia).
  destruct (populate_cpu_succeeds size width map0 seen st info Hpop Hlt Hwelli Hwell1 Hcons1) as [st1 Hstep].
  rewrite Hstep. apply (IH (seen ++ [info])); try done.
  apply (populate_cpu_step size width map0 seen st info st1 Hpop Hi); [|done].
  intros x Hx Heq. rewrite map_app, map_app in Hnd. apply NoDup_app in Hnd as (Hnd & _ & _).
  apply NoDup_app in Hnd as (_ & Hd & _).
  apply (Hd (slot_of x)); [by apply list_elem_of_fmap; exists x|]. rewrite Heq. cbn. left.
Qed.

Lemma allocate_ok {T} malloc_ok sizeof count (x : T) : (forall bytes, malloc_ok bytes = true) ->
  0 <= count -> 0 < sizeof -> sizeof * count <= size_max -> allocate malloc_ok sizeof count x = Some (replicate (Z.to_nat count) x).
Proof.
  intros Hmem Hc Hs Hle. unfold allocate. destruct (Z.eqb_spec count 0) as [->|]; [done|].
  rewrite (proj2 (Z.ltb_ge _ _)), Hmem; [done|]. by apply Z.div_le_lower_bound.
Qed.

Lemma populate_domains_succeeds malloc_ok infos map0 :
  (forall bytes, malloc_ok bytes = true) -> Z.of_nat (length infos) < 2 ^ 60 ->
  NoDup (map slot_of infos) -> Forall (fun x => (slot_of x < length map0)%nat) infos ->
  Forall well_described infos -> consistent infos -> is_Some (populate_domains malloc_ok infos map0).
Proof.
  intros Hmem Hlen Hnd Hin Hwell Hcons. unfold populate_domains. rewrite allocate_ok by (done || (unfold size_max; lia)).
  set (st0 := {| domains := _; domain_count := 0; cpu_to_domain := map0 |}).
  assert (populated (length infos) (length map0) map0 [] st0) as Hpop0
    by (apply initially_populated; [by rewrite Nat2Z.id, length_replicate|done]).
  destruct (populate_cpus_succeed (length infos) (length map0) map0 infos [] st0) as [st1 Hrun]; try done.
  rewrite Hrun. destruct (populate_cpus_run _ _ _ infos [] st0 st1 Hpop0 Hnd Hin Hrun) as [Hpop1 _].
  pose proof (pop_size _ _ _ _ _ Hpop1) as Hs. pose proof (pop_bound _ _ _ _ _ Hpop1) as Hb.
  destruct st1 as [ds n map1]. cbn in Hs, Hb. destruct (n =? length ds)%nat; [done|].
  rewrite allocate_ok by (done || (unfold size_max; lia)). done.
Qed.

(** ** Correctness *)

Lemma sample_valid : valid_ids sample_cpus.
Proof. split; [by apply (bool_decide_unpack _)|repeat constructor; done]. Qed.

Lemma slot_of_inj infos x y : valid_ids infos -> x ∈ infos -> y ∈ infos -> slot_of x = slot_of y -> id x = id y.
Proof.
  intros [_ Hids] Hx Hy Heq. rewrite Forall_forall in Hids.
  pose proof (Hids x Hx). pose proof (Hids y Hy). lia.
Qed.

(** The domain of a listed CPU, from the facts of [from_registers_run]. *)
Lemma domain_for_cpu_slot t (width : nat) map0 infos x :
  populated (length (domains_ t)) width map0 infos
    {| domains := domains_ t; domain_count := length (domains_ t); cpu_to_domain := cpu_to_domain_ t |} ->
  0 <= id x < Z.of_nat width -> domain_for_cpu t (id x) = cpu_to_domain_ t !!! slot_of x.
Proof.
  intros Hpop Hx. pose proof (pop_width _ _ _ _ _ Hpop) as Hw. cbn in Hw. unfold domain_for_cpu.
  by rewrite Hw, (proj2 (Z.leb_gt _ _)) by lia.
Qed.

(** The domain of a listed CPU. *)
Lemma listed_domain_described malloc_ok infos t x :
  valid_ids infos -> from_registers malloc_ok infos = Some t -> x ∈ infos ->
  exists d, 0 <= d < domain_count_of t /\ domain_for_cpu t (id x) = d /\
    domains_ t !!! Z.to_nat d = described x /\ 1 <= slot_count t d <= 15.
Proof.
  intros Hvalid Hrun Hx. destruct (from_registers_run _ _ _ Hvalid Hrun)
    as (count & Hcount & Hlt & Hpop & Hdc & Hwell & _ & _).
  destruct Hvalid as [_ Hids]. rewrite Forall_forall in Hids, Hlt, Hwell.
  destruct (pop_seen _ _ _ _ _ Hpop x Hx) as (d & Hd & Hm & Hdx). cbn in Hd, Hm, Hdx.
  exists (Z.of_nat d).
  rewrite (domain_for_cpu_slot _ _ _ _ _ Hpop), Nat2Z.id by (specialize (Hids x Hx); specialize (Hlt x Hx); lia).
  unfold domain_count_of, slot_count.
  rewrite (proj2 (Z.ltb_lt (Z.of_nat d) (domain_count_of t))), Nat2Z.id, Hdx by (unfold domain_count_of; lia).
  split_and!; try done; try lia; by apply described_slots, Hwell.
Qed.

(** The domains are fewer than any index. *)
Lemma few_domains malloc_ok infos t : valid_ids infos -> from_registers malloc_ok infos = Some t ->
  domain_count_of t < kNoSmcuDomain.
Proof.
  intros Hvalid Hrun. by destruct (from_registers_run _ _ _ Hvalid Hrun) as (count & _ & _ & _ & Hdc & _).
Qed.

(** A listed CPU has a domain, and the domain slots. *)
Lemma listed_domain malloc_ok infos t x : valid_ids infos -> from_registers malloc_ok infos = Some t -> x ∈ infos ->
  0 <= domain_for_cpu t (id x) < domain_count_of t /\ 1 <= slot_count t (domain_for_cpu t (id x)).
Proof.
  intros Hvalid Hrun Hx. destruct (listed_domain_described _ _ _ _ Hvalid Hrun Hx) as (d & Hd & -> & _ & Hs). lia.
Qed.

(** C22: when SmcuTopology::from_registers accepts the registers of the CPUs, the
    topology is well formed and represents them: every listed CPU has a domain below
    domain_count that holds the affinity, the sharing and the slot count its registers
    describe, with between 1 and 15 slots; two listed CPUs are in the same domain
    exactly when both are shared with the same affinity; a CPU that is not listed has
    no domain. *)
Theorem topology_of_registers malloc_ok infos t :
  valid_ids infos -> from_registers malloc_ok infos = Some t ->
  (forall x, x ∈ infos -> exists d, 0 <= d < domain_count_of t /\ domain_for_cpu t (id x) = d /\
    domains_ t !!! Z.to_nat d = described x /\ 1 <= slot_count t d <= 15) /\
  (forall x y, x ∈ infos -> y ∈ infos -> id x <> id y ->
    (domain_for_cpu t (id x) = domain_for_cpu t (id y) <->
     is_shared x = true /\ is_shared y = true /\ smidr_affinity (smidr x) = smidr_affinity (smidr y))) /\
  (forall cpu, 0 <= cpu -> (forall x, x ∈ infos -> id x <> cpu) -> domain_for_cpu t cpu = kNoSmcuDomain) /\
  domain_count_of t < kNoSmcuDomain.
Proof.
  intros Hvalid Hrun. destruct (from_registers_run _ _ _ Hvalid Hrun)
    as (count & Hcount & Hlt & Hpop & Hdc & Hwell & _ & _).
  pose proof Hvalid as [_ Hids]. rewrite Forall_forall in Hids, Hlt, Hwell.
  assert (forall x, x ∈ infos -> domain_for_cpu t (id x) = cpu_to_domain_ t !!! slot_of x) as Hdom.
  { intros x Hx. apply (domain_for_cpu_slot _ _ _ _ _ Hpop). specialize (Hids x Hx). specialize (Hlt x Hx). lia. }
  split_and!.
  - intros x Hx. by apply (listed_domain_described malloc_ok infos).
  - intros x y Hx Hy Hne. rewrite !Hdom by done. apply (pop_same _ _ _ _ _ Hpop); [done|done|].
    intros Heq. by apply Hne, (slot_of_inj infos).
  - intros cpu Hcpu Hnot. unfold domain_for_cpu.
    pose proof (pop_width _ _ _ _ _ Hpop) as Hw. cbn in Hw. rewrite Hw.
    destruct (Z.leb_spec (Z.of_nat (Z.to_nat count)) cpu); [done|].
    etrans; [apply (pop_other _ _ _ _ _ Hpop)|].
    + intros x Hx Heq. apply (Hnot x Hx). specialize (Hids x Hx). lia.
    + by apply lookup_total_replicate_2; lia.
  - done.
Qed.

Lemma topology_of_registers_witness :
  valid_ids sample_cpus /\ domain_for_cpu sample_topology 0 = domain_for_cpu sample_topology 1.
Proof.
  assert (valid_ids sample_cpus) as Hvalid by apply sample_valid.
  split; [done|].
  destruct (topology_of_registers (fun _ => true) sample_cpus sample_topology Hvalid sample_from_registers)
    as (_ & Hsame & _ & _).
  change (domain_for_cpu sample_topology (id cpu0) = domain_for_cpu sample_topology (id cpu1)).
  apply Hsame; [left|right; left|done|by vm_compute].
Defined.

(** What the policy decides for a listed CPU. *)
Definition cpu_policy (t : SmcuTopology) (x : CpuInfo) : bool :=
  if midr_implementer (midr x) =? kArmImplementer then arm_allowed (midr_part (midr x))
  else is_there_shared_domain_with_nonzero_affinity (domains_ t) && is_shared x && (smidr_affinity (smidr x) =? 0).

(** The domain that the zero-affinity policy enables, by its members. *)
Lemma enabled_domain t (width : nat) map0 infos x :
  populated (length (domains_ t)) width map0 infos
    {| domains := domains_ t; domain_count := length (domains_ t); cpu_to_domain := cpu_to_domain_ t |} ->
  x ∈ infos ->
  match find_domain (fun d => shared d && (affinity d =? 0)) (domains_ t) (length (domains_ t)) with
  | Some d => cpu_to_domain_ t !!! slot_of x =? Z.of_nat d
  | None => false
  end = is_shared x && (smidr_affinity (smidr x) =? 0).
Proof.
  intros Hpop Hx. destruct (pop_seen _ _ _ _ _ Hpop x Hx) as (d & Hd & Hm & Hdx). cbn in Hd, Hm, Hdx. rewrite Hm.
  destruct (find_domain _ _ _) as [e|] eqn:Hfind.
  - apply find_domain_some in Hfind as [He [Hs Ha]%andb_true_iff]; [|reflexivity]. apply Z.eqb_eq in Ha.
    destruct (Z.eqb_spec (Z.of_nat d) (Z.of_nat e)) as [Heq%(inj Z.of_nat)|Hne].
    + subst e. rewrite Hdx in Hs, Ha. cbn in Hs, Ha. by rewrite Hs, Ha.
    + destruct (is_shared x) eqn:Hsh; [|done]. cbn [andb]. symmetry. apply Z.eqb_neq. intros Hzero. apply Hne.
      f_equal. apply (pop_unique _ _ _ _ _ Hpop d e Hd He); cbn; rewrite ?Hdx; cbn; try done. by rewrite Hzero, Ha.
  - pose proof (find_domain_none _ _ _ d (Nat.le_refl _) Hfind Hd) as Hno. cbn in Hno. by rewrite Hdx in Hno.
Qed.

(** The policy array: its decision for each listed CPU, and no other CPU. *)
Lemma is_cpu_allowed_policy malloc_ok infos t :
  valid_ids infos -> from_registers malloc_ok infos = Some t ->
  (forall x, x ∈ infos -> is_cpu_allowed t (id x) = cpu_policy t x) /\
  (forall cpu, 0 <= cpu -> (forall x, x ∈ infos -> id x <> cpu) -> is_cpu_allowed t cpu = false).
Proof.
  intros Hvalid Hrun. destruct (from_registers_run _ _ _ Hvalid Hrun)
    as (count & Hcount & Hlt & Hpop & _ & _ & Hpolicy & Himpl).
  pose proof Hvalid as [_ Hids]. rewrite Forall_forall in Hids, Hlt, Himpl.
  unfold policy in Hpolicy. cbn zeta in Hpolicy.
  set (first := hd _ infos) in *.
  assert (Forall (fun x => (slot_of x < length (replicate (Z.to_nat count) false))%nat) infos) as Hin.
  { rewrite length_replicate, Forall_forall. intros x Hx. specialize (Hids x Hx). specialize (Hlt x Hx). lia. }
  assert (forall c, (c < Z.to_nat count)%nat -> length (cpu_allowed_ t) = Z.to_nat count /\
    ((forall x, x ∈ infos -> slot_of x = c -> cpu_allowed_ t !!! c = cpu_policy t x) /\
     ((forall x, x ∈ infos -> slot_of x <> c) -> cpu_allowed_ t !!! c = false))) as Hslot.
  { intros c Hc. rewrite Hpolicy. unfold cpu_policy. destruct (midr_implementer (midr first) =? kArmImplementer) eqn:Harm.
    - destruct (arm_policy_lookup infos _ c (valid_ids_slots _ Hvalid) Hin) as (Hl & Hx & Hother).
      rewrite Hl, length_replicate. split_and!; [done| |].
      + intros x Hxi <-. by rewrite (Himpl x Hxi), Harm, Hx.
      + intros Hno. rewrite Hother by done. by apply lookup_total_replicate_2.
    - destruct (is_there_shared_domain_with_nonzero_affinity (domains_ t)) eqn:Hthere.
      + destruct (enable_lookup (domains_ t) (cpu_to_domain_ t) count c ltac:(lia) Hc) as [Hl Ha].
        rewrite Hl, Ha. split_and!; [done| |].
        * intros x Hxi <-. rewrite (Himpl x Hxi), Harm. cbn [andb]. apply (enabled_domain _ _ _ _ _ Hpop Hxi).
        * intros Hno. rewrite (pop_other _ _ _ _ _ Hpop) by done. rewrite lookup_total_replicate_2 by done.
          destruct (find_domain _ _ _) as [d|] eqn:Hfind; [|done].
          apply find_domain_some in Hfind as [Hd _]; [|done]. apply Z.eqb_neq. unfold kNoSmcuDomain.
          pose proof (few_domains _ _ _ Hvalid Hrun) as Hfew. unfold domain_count_of, kNoSmcuDomain in Hfew. lia.
      + rewrite length_replicate. split_and!; [done| |].
        * intros x Hxi <-. rewrite (Himpl x Hxi), Harm. by apply lookup_total_replicate_2.
        * intros _. by apply lookup_total_replicate_2. }
  split.
  - intros x Hx. specialize (Hids x Hx). specialize (Hlt x Hx).
    destruct (Hslot (Z.to_nat (id x)) ltac:(lia)) as (Hl & Hv & _). unfold is_cpu_allowed.
    rewrite Hl, (proj2 (Z.ltb_lt _ _)) by lia. by apply Hv.
  - intros cpu Hcpu Hno. destruct (Hslot 0%nat ltac:(lia)) as (Hl & _). unfold is_cpu_allowed. rewrite Hl.
    destruct (Z.ltb_spec cpu (Z.of_nat (Z.to_nat count))); [|done].
    destruct (Hslot (Z.to_nat cpu) ltac:(lia)) as (_ & _ & Hv). apply Hv. intros x Hx Heq.
    apply (Hno x Hx). specialize (Hids x Hx). lia.
Qed.

(** An allowed CPU is listed and has a domain with a slot. *)
Lemma allowed_domain malloc_ok infos t cpu :
  valid_ids infos -> from_registers malloc_ok infos = Some t -> 0 <= cpu -> is_cpu_allowed t cpu = true ->
  (exists x, x ∈ infos /\ id x = cpu) /\
  0 <= domain_for_cpu t cpu < domain_count_of t /\ 1 <= slot_count t (domain_for_cpu t cpu).
Proof.
  intros Hvalid Hrun Hcpu Hallowed. destruct (is_cpu_allowed_policy _ _ _ Hvalid Hrun) as [Hlisted Hother].
  assert (exists x, x ∈ infos /\ id x = cpu) as (x & Hx & <-).
  { destruct (decide (Exists (fun x => id x = cpu) infos)) as [Hyes%Exists_exists|Hno]; [done|].
    rewrite Hother in Hallowed; [done|done|]. intros x Hx Heq. apply Hno, Exists_exists. by exists x. }
  split; [by exists x|]. by apply (listed_domain malloc_ok infos).
Qed.

(** Every domain has between 1 and 15 slots. *)
Lemma topology_slots malloc_ok infos t d :
  valid_ids infos -> from_registers malloc_ok infos = Some t -> 0 <= d < domain_count_of t ->
  1 <= slot_count t d <= 15.
Proof.
  intros Hvalid Hrun Hd. destruct (from_registers_run _ _ _ Hvalid Hrun) as (count & _ & _ & Hpop & _ & Hwell & _).
  unfold slot_count. rewrite (proj2 (Z.ltb_lt _ _)) by lia. unfold domain_count_of in Hd.
  destruct (pop_covers _ _ _ _ _ Hpop (Z.to_nat d)) as (x & Hx & Hdx); [cbn; lia|]. cbn in Hdx. rewrite Hdx.
  rewrite Forall_forall in Hwell. by apply described_slots, Hwell.
Qed.

(** The CPUs that a topology allows are those that its policy names among the
    listed ones: on an Arm machine the C1-Nano, C1-Pro and C1-Premium cores, and on any
    other machine the cores of the shared domain of affinity zero, if there is also a
    shared domain of another affinity.  An allowed CPU has a domain with a slot, so the
    index that try_to_run_on_cpu uses is inside the array of slots. *)
Theorem allowed_cpu_has_domain malloc_ok infos t :
  valid_ids infos -> from_registers malloc_ok infos = Some t ->
  (forall x, x ∈ infos -> is_cpu_allowed t (id x) = cpu_policy t x) /\
  (forall cpu, 0 <= cpu -> is_cpu_allowed t cpu = true ->
   (exists x, x ∈ infos /\ id x = cpu) /\
   0 <= domain_for_cpu t cpu < domain_count_of t /\ 1 <= slot_count t (domain_for_cpu t cpu)).
Proof.
  intros Hvalid Hrun. split; [by apply (is_cpu_allowed_policy malloc_ok infos)|].
  intros cpu Hcpu Hallowed. by apply (allowed_domain malloc_ok infos).
Qed.

Lemma allowed_cpu_has_domain_witness :
  valid_ids sample_cpus /\ is_cpu_allowed sample_topology 3 = true /\
  1 <= slot_count sample_topology (domain_for_cpu sample_topology 3).
Proof.
  assert (is_cpu_allowed sample_topology 3 = true) as Hallowed by reflexivity.
  split; [apply sample_valid|]. split; [done|].
  apply (proj2 (allowed_cpu_has_domain (fun _ => true) sample_cpus sample_topology sample_valid sample_from_registers)
    3 ltac:(lia) Hallowed).
Defined.

(** With memory for its arrays, SmcuTopology::from_registers accepts the registers of
    a nonempty list of CPUs exactly when all have the same implementer, every sharing and
    count field has a defined encoding, and shared CPUs of one affinity give one count. *)
Theorem from_registers_accepts malloc_ok infos :
  valid_ids infos -> Forall (fun x => id x < 2 ^ 60) infos -> Z.of_nat (length infos) < 2 ^ 60 ->
  (forall bytes, malloc_ok bytes = true) ->
  (is_Some (from_registers malloc_ok infos) <->
   infos <> [] /\ (forall x y, x ∈ infos -> y ∈ infos -> midr_implementer (midr x) = midr_implementer (midr y)) /\
   Forall well_described infos /\ consistent infos).
Proof.
  intros Hvalid Hsmall Hlen Hmem. split.
  - intros [t Hrun]. destruct (from_registers_run _ _ _ Hvalid Hrun)
      as (count & _ & _ & Hpop & _ & Hwell & _ & Himpl).
    rewrite Forall_forall in Himpl. split_and!; [by intros ->| |done|].
    + intros x y Hx Hy. by rewrite (Himpl x Hx), (Himpl y Hy).
    + rewrite Forall_forall in Hwell. intros x y Hx Hy Hsx Hsy Ha.
      assert (described x = described y) as Heq.
      { destruct (pop_seen _ _ _ _ _ Hpop x Hx) as (d & Hd & _ & Hdx).
        destruct (pop_seen _ _ _ _ _ Hpop y Hy) as (e & He & _ & Hdy). cbn in Hd, He, Hdx, Hdy.
        rewrite <- Hdx, <- Hdy. f_equal.
        apply (pop_unique _ _ _ _ _ Hpop d e Hd He); cbn; by rewrite ?Hdx, ?Hdy. }
      unfold described in Heq. rewrite Hsx, Hsy in Heq. injection Heq as _ Hslots.
      destruct (Hwell x Hx) as [_ [cx Hcx]], (Hwell y Hy) as [_ [cy Hcy]].
      rewrite Hcx, Hcy in Hslots |- *. cbn in Hslots. by subst.
  - intros (Hne & Himpl & Hwell & Hcons). pose proof (valid_ids_slots _ Hvalid) as Hslots.
    destruct Hvalid as [_ Hids]. unfold from_registers. destruct infos as [|first infos0]; [done|].
    set (infos := first :: infos0) in *. destruct (largest_id infos 0) as [Hl0 Hl].
    assert (foldl (fun largest info => Z.max largest (id info)) 0 infos < 2 ^ 60) as Hlb
      by (apply largest_bound; [lia|done]).
    set (largest := foldl _ 0 infos) in *. destruct (Z.eqb_spec largest size_max) as [Hm|_]; [unfold size_max in Hm; lia|].
    rewrite size_add_small by lia.
    destruct (existsb _ infos) eqn:Hex.
    { apply existsb_exists in Hex as (x & Hx & Hne'). apply list_elem_of_In in Hx.
      rewrite (Himpl x first Hx), Z.eqb_refl in Hne' by (cbn; left). done. }
    rewrite !allocate_ok by (done || (unfold size_max; lia)).
    destruct (populate_domains_succeeds malloc_ok infos (replicate (Z.to_nat (largest + 1)) kNoSmcuDomain))
      as [[ds cpu_map] ->]; try done.
    rewrite length_replicate, Forall_forall. rewrite Forall_forall in Hids. intros x Hx.
    specialize (Hl x Hx). specialize (Hids x Hx). lia.
Qed.

Lemma from_registers_accepts_witness :
  valid_ids sample_cpus /\ Forall well_described sample_cpus /\ consistent sample_cpus.
Proof.
  assert (Forall (fun x => id x < 2 ^ 60) sample_cpus) as Hsmall by (repeat constructor; done).
  pose proof (proj1 (from_registers_accepts (fun _ => true) sample_cpus sample_valid Hsmall ltac:(done) ltac:(done)))
    as Haccepts.
  split; [apply sample_valid|]. apply Haccepts. exists sample_topology. apply sample_from_registers.
Defined.

(** ** Detection *)

(** A file of sysfs that shows the value [v]: "0x", the digits in hexadecimal with any number
    of leading zeros up to 16 digits in all, and a newline. *)
Definition shows_value (contents : option (list Z)) (v : Z) : Prop :=
  exists zeros, (zeros + length (hexadecimal v) <= 16)%nat /\
    contents = Some (bytes "0x" ++ hex_text zeros v ++ [newline]).

(** The format "0x%016llx" and a newline, in which Linux shows the identification registers. *)
Definition padded_register (v : Z) : list Z :=
  bytes "0x" ++ hex_text (16 - length (hexadecimal v)) v ++ [newline].

Example padded_register_format : padded_register 0x411fd8a0 = bytes "0x00000000411fd8a0" ++ [newline].
Proof. reflexivity. Qed.

Lemma padded_register_shows v : shows_value (Some (padded_register v)) v.
Proof.
  exists (16 - length (hexadecimal v))%nat. split; [|done].
  pose proof (to_chars_length 16 16 v) as Hl. fold (hexadecimal v) in Hl. lia.
Qed.

(** The registers of a machine as sysfs shows them. *)
Definition shows (file : list Z -> option (list Z)) (x : CpuInfo) : Prop :=
  shows_value (file (register_path (id x) "midr_el1")) (midr x) /\
  shows_value (file (register_path (id x) "smidr_el1")) (smidr x).

Lemma read_shown file path v : 0 <= v < 2 ^ 64 -> shows_value (file path) v -> read_hex_file file path = Some v.
Proof.
  intros Hv (zeros & Hlen & Hfile). unfold read_hex_file. rewrite Hfile, take_ge.
  - apply hex_round_trip; [done|by right; left|right; eexists; by left].
  - unfold hex_text. rewrite !length_app, length_replicate.
    change (length (bytes "0x")) with 2%nat. change (length [newline]) with 1%nat. lia.
Qed.

Lemma detect_cpus file infos : Forall (shows file) infos ->
  Forall (fun x => 0 <= midr x < 2 ^ 64 /\ 0 <= smidr x < 2 ^ 64) infos -> forall seen rest,
  length rest = length infos ->
  foldl (detect_cpu file) (Some (length seen, seen ++ rest)) (map id infos) =
  Some ((length seen + length infos)%nat, seen ++ infos).
Proof.
  intros Hshows. induction Hshows as [|x infos [Hm Hs] _ IH]; intros Hv seen rest Hlen.
  - destruct rest; [|done]. cbn. by rewrite Nat.add_0_r.
  - inversion Hv as [|? ? [Hvm Hvs] Hv']; subst. destruct rest as [|y rest]; [done|]. cbn [map foldl].
    unfold detect_cpu at 2. rewrite (read_shown file _ (midr x)), (read_shown file _ (smidr x)) by done.
    replace (<[length seen := _]> (seen ++ y :: rest)) with ((seen ++ [x]) ++ rest).
    2:{ rewrite insert_app_r_alt, Nat.sub_diag by lia. cbn. rewrite <- app_assoc. by destruct x. }
    replace (S (length seen)) with (length (seen ++ [x])) by (rewrite length_app; cbn; lia).
    rewrite IH; [|done|by injection Hlen]. rewrite length_app, <- app_assoc. cbn.
    by replace (length seen + 1 + length infos)%nat with (length seen + S (length infos))%nat by lia.
Qed.

(** C21: SmcuTopology::detect is from_registers on what the machine shows: if the online
    file lists the CPUs as ranges, however the reads cut it and whatever interrupts
    them, and each CPU shows its two registers in hexadecimal, padded with zeros to 16 digits
    as Linux prints them or with fewer or no leading zeros, then detect parses back exactly
    these identifiers and registers, in order. *)
Theorem detect_reads_machine malloc_ok rs reads file infos :
  rs <> [] -> Forall valid_range rs -> map id infos = all_ids rs ->
  let contents := print_ranges rs ++ [newline] in
  honest_reads (Z.of_nat (length contents)) kCpuListCapacity 0 reads ->
  Z.of_nat (length contents) < kCpuListCapacity ->
  Forall (shows file) infos -> Forall (fun x => 0 <= midr x < 2 ^ 64 /\ 0 <= smidr x < 2 ^ 64) infos ->
  24 * total_size rs <= size_max -> (forall n, malloc_ok n = true) ->
  detect malloc_ok (Some (contents, reads)) file = from_registers malloc_ok infos.
Proof.
  intros Hne Hrs Hids contents Hreads Hfits Hshows Hvals Hsize Hmem. unfold detect.
  rewrite read_raw_file_result, (proj2 (Z.ltb_lt _ _)) by (done || unfold kCpuListCapacity; lia).
  unfold contents. rewrite cpu_list_round_trip; [|done|done|by right| |done].
  2:{ apply Z.div_le_lower_bound; unfold size_max in *; lia. }
  fold (all_ids rs). rewrite <- Hids, length_map.
  pose proof (all_ids_length rs Hrs) as Hlen. rewrite <- Hids, length_map in Hlen.
  rewrite allocate_ok by (done || lia).
  pose proof (detect_cpus file infos Hshows Hvals [] (replicate (length infos) {| id := 0; midr := 0; smidr := 0 |})
    ltac:(by rewrite length_replicate)) as Hdetect.
  cbn [length app Nat.add] in Hdetect. by rewrite Nat2Z.id, Hdetect.
Qed.

(** The sysfs files of the sample machine. *)
Definition sample_file (path : list Z) : option (list Z) :=
  foldr (fun x rest =>
    if bool_decide (path = register_path (id x) "midr_el1") then Some (padded_register (midr x))
    else if bool_decide (path = register_path (id x) "smidr_el1")
    then Some (padded_register (smidr x)) else rest) None sample_cpus.

(** "0-1,3-4" and a newline, read in two parts with an interruption. *)
Lemma detect_reads_machine_witness :
  bytes "0-1,3-4" = print_ranges [(0, 1); (3, 4)] /\
  detect (fun _ => true) (Some (print_ranges [(0, 1); (3, 4)] ++ [newline], [Got 3; Interrupted; Got 5; Got 0]))
    sample_file = from_registers (fun _ => true) sample_cpus.
Proof.
  split; [reflexivity|].
  assert (Forall valid_range [(0, 1); (3, 4)]) as Hrs
    by (apply Forall_cons; split; [|apply Forall_singleton]; unfold valid_range, size_max; cbn; lia).
  assert (honest_reads 8 kCpuListCapacity 0 [Got 3; Interrupted; Got 5; Got 0]) as Hreads
    by (unfold kCpuListCapacity; cbn; lia).
  assert (Forall (shows sample_file) sample_cpus) as Hshows.
  { unfold shows, sample_cpus. repeat apply Forall_cons_2; try apply Forall_nil_2; split;
      match goal with |- shows_value (sample_file ?p) ?v =>
        assert (sample_file p = Some (padded_register v)) as -> by (vm_compute; reflexivity) end; apply padded_register_shows. }
  apply (detect_reads_machine (fun _ => true) [(0, 1); (3, 4)] _ sample_file sample_cpus);
    [done|exact Hrs|reflexivity|exact Hreads|done|exact Hshows|repeat constructor; done|done|done].
Defined.
