(* ===== verification/Limiter.v ===== *)
(** * The limiter of threads on the SME units

    [SmeThreadLimiter] of [sme_thread_limiter.h] and [sme_thread_limiter.cpp]: any
    number of threads call [try_to_run]; each acquires a slot of the domain of its
    CPU, runs its callback and releases the slot.  The threads interleave at every
    atomic operation.  All accesses are relaxed: a load, or a compare-exchange that
    fails, may return any value the atomic has held, a read-modify-write acts on the
    latest one, and a weak compare-exchange may fail without a reason. *)

From S2P Require Import Prelude CTypes CpuList Topology.

(** ** Atomics *)

(** A [std::atomic<unsigned>]: its value and the values that it held before. *)
Record Atomic := { current : Z; past : list Z }.

#[export] Instance atomic_inhabited : Inhabited Atomic := populate {| current := 0; past := [] |}.

Definition history (a : Atomic) : list Z := current a :: past a.
Definition visible (a : Atomic) (v : Z) : bool := existsb (Z.eqb v) (history a).

(** The read-modify-write that stores [v]. *)
Definition update (a : Atomic) (v : Z) : Atomic := {| current := v; past := history a |}.

Definition wrap32 (v : Z) : Z := v mod 2 ^ 32.

(** ** The limiter *)

(** The constructor: the array [available_slots_], empty if there is no memory. *)
Definition make_limiter (malloc_ok : Z -> bool) (topology : SmcuTopology) : list Atomic :=
  match allocate malloc_ok 4 (domain_count_of topology) inhabitant with
  | None => []
  | Some slots =>
      for_range 0 (domain_count_of topology) (fun domain slots =>
        <[Z.to_nat domain := {| current := slot_count topology domain; past := [] |}]> slots) slots
  end.

(** [create_sme_thread_limiter]: the process-wide instance, of 64 bytes, if the machine
    is detected and allows some CPU. *)
Definition create_sme_thread_limiter (malloc_ok : Z -> bool) (online : option (list Z * list ReadResult))
    (file : list Z -> option (list Z)) : option (SmcuTopology * list Atomic) :=
  match detect malloc_ok online file with
  | None => None
  | Some topology =>
      if negb (has_allowed_cpu topology) then None
      else if negb (malloc_ok 64) then None
      else Some (topology, make_limiter malloc_ok topology)
  end.

Record AttemptResult := { accepted : bool; error : kleidicv_error_t }.
Definition rejected : AttemptResult := {| accepted := false; error := KLEIDICV_OK |}.

(** Where a thread is in [try_to_run]: outside, before the load of [try_acquire],
    in its loop with the local [slots], inside the callback with a [SlotGuard], at
    the end. *)
Inductive Pc :=
  | Idle
  | Loading (domain : Z)
  | Casing (domain slots : Z)
  | Running (domain : Z)
  | Returned (result : AttemptResult).

(** What the program does not decide: the CPU that calls, the value that a load or a
    failing compare-exchange returns, the result of the callback. *)
Inductive Choice :=
  | Call (cpu : Z)
  | Read (v : Z)
  | Exchange
  | Exit
  | Finish (e : kleidicv_error_t)
  | Again.

Definition thread_step (topology : SmcuTopology) (available_slots_ : list Atomic) (pc : Pc) (choice : Choice)
    : option (list Atomic * Pc) :=
  match pc, choice with
  | Idle, Call cpu =>
      Some (available_slots_,
        if cpu <? 0 then Returned rejected
        else if negb (is_cpu_allowed topology cpu) then Returned rejected
        else
          let domain := domain_for_cpu topology cpu in
          if Z.of_nat (length available_slots_) <=? domain then Returned rejected else Loading domain)
  | Loading domain, Read slots =>
      if visible (available_slots_ !!! Z.to_nat domain) slots
      then Some (available_slots_, Casing domain slots) else None
  | Casing domain slots, Exchange =>
      let available := available_slots_ !!! Z.to_nat domain in
      if (0 <? slots) && (current available =? slots)
      then Some (<[Z.to_nat domain := update available (wrap32 (slots - 1))]> available_slots_, Running domain)
      else None
  | Casing domain slots, Read seen =>
      if (0 <? slots) && visible (available_slots_ !!! Z.to_nat domain) seen
      then Some (available_slots_, Casing domain seen) else None
  | Casing domain slots, Exit =>
      if 0 <? slots then None else Some (available_slots_, Returned rejected)
  | Running domain, Finish e =>
      let available := available_slots_ !!! Z.to_nat domain in
      Some (<[Z.to_nat domain := update available (wrap32 (current available + 1))]> available_slots_,
            Returned {| accepted := true; error := e |})
  | Returned _, Again => Some (available_slots_, Idle)
  | _, _ => None
  end.

Record State := { slots : list Atomic; threads : list Pc }.

(** One thread moves. *)
Inductive step (topology : SmcuTopology) (s : State) : State -> Prop :=
  Step i pc choice slots' pc' :
    threads s !! i = Some pc ->
    thread_step topology (slots s) pc choice = Some (slots', pc') ->
    step topology s {| slots := slots'; threads := <[i := pc']> (threads s) |}.

Definition initial (malloc_ok : Z -> bool) (topology : SmcuTopology) (n : nat) : State :=
  {| slots := make_limiter malloc_ok topology; threads := replicate n Idle |}.

(** The number of threads whose callback runs on [domain]. *)
Definition in_domain (domain : Z) (pc : Pc) : Z :=
  match pc with Running d => if d =? domain then 1 else 0 | _ => 0 end.
Definition running (domain : Z) (s : State) : Z := foldr (fun pc n => in_domain domain pc + n) 0 (threads s).

(** ** The invariant *)

Section limiter.
Context (topology : SmcuTopology) (Hslots : forall d, 0 <= d < domain_count_of topology ->
  1 <= slot_count topology d <= 15).
Context (Hallowed : forall cpu, 0 <= cpu -> is_cpu_allowed topology cpu = true ->
  0 <= domain_for_cpu topology cpu < domain_count_of topology).
Local Abbreviation at_ s d := (slots s !!! Z.to_nat d).

Lemma running_insert d s i pc pc' slots' : threads s !! i = Some pc ->
  running d {| slots := slots'; threads := <[i := pc']> (threads s) |} = running d s - in_domain d pc + in_domain d pc'.
Proof.
  unfold running. cbn [threads]. generalize (threads s). intros l. revert i.
  induction l as [|x l IH]; intros [|i] Hi; try done; cbn in Hi |- *.
  - injection Hi as ->. lia.
  - rewrite IH by done. lia.
Qed.

Lemma running_nonneg d s : 0 <= running d s.
Proof.
  unfold running. induction (threads s) as [|x l IH]; cbn; [lia|].
  destruct x; cbn; try lia. case_cmp; lia.
Qed.

Lemma running_member d s i : threads s !! i = Some (Running d) -> 1 <= running d s.
Proof.
  intros Hi. pose proof (running_nonneg d {| slots := slots s; threads := <[i := Idle]> (threads s) |}) as H.
  rewrite (running_insert d s i (Running d)) in H by done. cbn in H. rewrite Z.eqb_refl in H. lia.
Qed.

(** The domain that a thread works on is an index of the array. *)
Definition pc_ok (s : State) (pc : Pc) : Prop :=
  match pc with
  | Loading d | Running d => 0 <= d < Z.of_nat (length (slots s))
  | Casing d v => 0 <= d < Z.of_nat (length (slots s)) /\ v ∈ history (at_ s d)
  | _ => True
  end.

Record invariant (s : State) : Prop := {
  inv_length : Z.of_nat (length (slots s)) <= domain_count_of topology;
  inv_balance : forall d, 0 <= d < Z.of_nat (length (slots s)) ->
    current (at_ s d) + running d s = slot_count topology d;
  inv_history : forall d, 0 <= d < Z.of_nat (length (slots s)) ->
    Forall (fun v => 0 <= v <= slot_count topology d) (history (at_ s d));
  inv_threads : Forall (pc_ok s) (threads s)
}.

Lemma visible_elem a v : visible a v = true <-> v ∈ history a.
Proof.
  unfold visible. rewrite existsb_exists. split.
  - intros (x & Hx & ->%Z.eqb_eq). by apply list_elem_of_In.
  - intros Hv. exists v. rewrite Z.eqb_refl. split; [by apply list_elem_of_In|done].
Qed.

(** A step that writes no atomic. *)
Lemma invariant_silent s i pc pc' : invariant s -> threads s !! i = Some pc ->
  (forall d, in_domain d pc = in_domain d pc') -> pc_ok s pc' ->
  invariant {| slots := slots s; threads := <[i := pc']> (threads s) |}.
Proof.
  intros [Hl Hb Hh Ht] Hi Hin Hok. constructor; cbn [slots threads]; try done.
  - intros d Hd. rewrite (running_insert d s i pc) by done. rewrite (Hin d). specialize (Hb d Hd). lia.
  - apply Forall_insert; done.
Qed.

(** A read-modify-write of the atomic of domain [d]. *)
Lemma invariant_update s i pc pc' d v : invariant s -> threads s !! i = Some pc ->
  0 <= d < Z.of_nat (length (slots s)) -> 0 <= v <= slot_count topology d ->
  (forall e, in_domain e pc' - in_domain e pc = if e =? d then current (at_ s d) - v else 0) ->
  (forall e u, pc' <> Loading e /\ pc' <> Casing e u) -> (forall e, pc' = Running e -> e = d) ->
  invariant {| slots := <[Z.to_nat d := update (at_ s d) v]> (slots s); threads := <[i := pc']> (threads s) |}.
Proof.
  intros [Hl Hb Hh Ht] Hi Hd Hv Hin Hpc Hrun.
  assert (forall e, 0 <= e -> <[Z.to_nat d := update (at_ s d) v]> (slots s) !!! Z.to_nat e =
    if e =? d then update (at_ s d) v else at_ s e) as Hget.
  { intros e He. destruct (Z.eqb_spec e d) as [->|Hne].
    - apply list_lookup_total_insert_eq. lia.
    - apply list_lookup_total_insert_ne. lia. }
  constructor; cbn [slots threads].
  - by rewrite length_insert.
  - intros e. rewrite length_insert. intros He. rewrite (running_insert e s i pc) by done. rewrite Hget by lia.
    specialize (Hin e). specialize (Hb e He). destruct (Z.eqb_spec e d) as [->|]; cbn [current update]; lia.
  - intros e. rewrite length_insert. intros He. rewrite Hget by lia. destruct (Z.eqb_spec e d) as [->|]; [|by apply Hh].
    constructor; [done|by apply Hh].
  - apply Forall_insert.
    + eapply Forall_impl; [exact Ht|]. intros [] Hok; cbn in Hok |- *; rewrite ?length_insert; try done.
      destruct Hok as [He Hvis]. split; [done|]. rewrite Hget by lia. destruct (Z.eqb_spec domain d) as [->|]; [|done].
      by right.
    + destruct pc' as [| |e u|e|]; cbn; try done; [by destruct (Hpc domain 0)|by destruct (Hpc e u)|].
      rewrite length_insert. rewrite (Hrun e); done.
Qed.

Lemma slot_bounds s d v : invariant s -> 0 <= d < Z.of_nat (length (slots s)) -> v ∈ history (at_ s d) ->
  0 <= v <= slot_count topology d /\ slot_count topology d <= 15.
Proof.
  intros Hinv Hd Hv. pose proof (inv_history _ Hinv d Hd) as Hh. rewrite Forall_forall in Hh.
  specialize (Hh v Hv). pose proof (inv_length _ Hinv). specialize (Hslots d ltac:(lia)). lia.
Qed.

Lemma invariant_step s s' : invariant s -> step topology s s' -> invariant s'.
Proof.
  intros Hinv [i pc choice slots' pc' Hi Hstep].
  pose proof (Forall_lookup_1 _ _ _ _ (inv_threads _ Hinv) Hi) as Hok.
  destruct pc as [|d|d u|d|r], choice as [cpu|v| | |e|]; try done; cbn [thread_step] in Hstep; cbn [pc_ok] in Hok.
  - injection Hstep as <- <-. set (domain := domain_for_cpu topology cpu).
    destruct (Z.ltb_spec cpu 0); [by apply (invariant_silent _ _ Idle)|].
    destruct (is_cpu_allowed topology cpu) eqn:Hcpu; [|by apply (invariant_silent _ _ Idle)]. cbn [negb].
    destruct (Z.leb_spec (Z.of_nat (length (slots s))) domain); [by apply (invariant_silent _ _ Idle)|].
    apply (invariant_silent _ _ Idle); try done. cbn [pc_ok]. split; [by apply Hallowed|done].
  - destruct (visible _ v) eqn:Hvis; [|done]. injection Hstep as <- <-. apply visible_elem in Hvis.
    by apply (invariant_silent _ _ (Loading d)).
  - destruct Hok as [Hd Hu]. destruct (Z.ltb_spec 0 u); [|done]. destruct (visible _ v) eqn:Hvis; [|done].
    injection Hstep as <- <-. apply visible_elem in Hvis. by apply (invariant_silent _ _ (Casing d u)).
  - destruct Hok as [Hd Hu]. destruct (Z.ltb_spec 0 u); [|done].
    destruct (Z.eqb_spec (current (at_ s d)) u) as [Hcur|]; [|done].
    injection Hstep as <- <-. pose proof (slot_bounds s d u Hinv Hd Hu) as [H1 H2].
    unfold wrap32. rewrite Z.mod_small by lia.
    apply (invariant_update _ _ (Casing d u)); try done; [lia| |by intros e [= ->]].
    intros e. cbn. rewrite (Z.eqb_sym d e). destruct (Z.eqb_spec e d); lia.
  - destruct Hok as [Hd Hu]. destruct (0 <? u); [done|]. injection Hstep as <- <-.
    by apply (invariant_silent _ _ (Casing d u)).
  - injection Hstep as <- <-. pose proof (inv_balance _ Hinv d Hok) as Hb. pose proof (running_member d s i Hi) as Hr.
    pose proof (slot_bounds s d (current (at_ s d)) Hinv Hok ltac:(by left)) as [H1 H2].
    unfold wrap32. rewrite Z.mod_small by lia.
    apply (invariant_update _ _ (Running d)); try done; [lia|].
    intros e'. cbn. rewrite (Z.eqb_sym d e'). destruct (Z.eqb_spec e' d); lia.
  - injection Hstep as <- <-. by apply (invariant_silent _ _ (Returned r)).
Qed.
(** The constructor. *)
Lemma make_limiter_slots malloc_ok :
  make_limiter malloc_ok topology = [] \/
  (length (make_limiter malloc_ok topology) = Z.to_nat (domain_count_of topology) /\
   forall d, 0 <= d < domain_count_of topology ->
     make_limiter malloc_ok topology !!! Z.to_nat d = {| current := slot_count topology d; past := [] |}).
Proof.
  unfold make_limiter. assert (0 <= domain_count_of topology) as Hn by (unfold domain_count_of; lia).
  destruct (allocate _ _ _ _) as [l|] eqn:Halloc; [|by left]. right.
  apply allocate_some in Halloc as [-> _]; [|done].
  set (fill := fun (domain : Z) (l : list Atomic) => _).
  enough (forall i, 0 <= i <= domain_count_of topology ->
    let l := for_range 0 i fill (replicate (Z.to_nat (domain_count_of topology)) inhabitant) in
    length l = Z.to_nat (domain_count_of topology) /\
    forall d, 0 <= d < i -> l !!! Z.to_nat d = {| current := slot_count topology d; past := [] |}) as H
    by (apply H; lia).
  intros i Hi. cbn zeta.
  apply (for_range_ind (fun k l => k <= domain_count_of topology -> length l = Z.to_nat (domain_count_of topology) /\
    forall d, 0 <= d < k -> l !!! Z.to_nat d = {| current := slot_count topology d; past := [] |})); [lia| | |lia].
  - intros _. rewrite length_replicate. split; [done|lia].
  - intros k l Hk IH Hle. destruct (IH ltac:(lia)) as [Hlen Hget]. unfold fill. rewrite length_insert.
    split; [done|]. intros d Hd. destruct (decide (d = k)) as [->|Hne].
    + apply list_lookup_total_insert_eq. lia.
    + rewrite list_lookup_total_insert_ne by lia. apply Hget. lia.
Qed.

Lemma running_initial malloc_ok n d : running d (initial malloc_ok topology n) = 0.
Proof. unfold running, initial. cbn. induction n as [|n IH]; cbn; lia. Qed.

Lemma invariant_initial malloc_ok n : invariant (initial malloc_ok topology n).
Proof.
  assert (forall d, 0 <= d < Z.of_nat (length (make_limiter malloc_ok topology)) ->
    0 <= d < domain_count_of topology /\
    make_limiter malloc_ok topology !!! Z.to_nat d = {| current := slot_count topology d; past := [] |}) as Hget.
  { intros d. destruct (make_limiter_slots malloc_ok) as [->|[-> Hget]]; [cbn; lia|].
    intros Hd. assert (0 <= d < domain_count_of topology) as Hd' by lia. split; [done|by apply Hget]. }
  constructor; cbn [initial slots threads].
  - destruct (make_limiter_slots malloc_ok) as [->|[-> _]]; [|unfold domain_count_of; lia].
    cbn. unfold domain_count_of. lia.
  - intros d Hd. destruct (Hget d Hd) as [_ ->]. rewrite running_initial. cbn. lia.
  - intros d Hd. destruct (Hget d Hd) as [Hd' ->]. specialize (Hslots d Hd'). repeat constructor; cbn; lia.
  - apply Forall_replicate. done.
Qed.

Lemma invariant_reachable malloc_ok n s : rtc (step topology) (initial malloc_ok topology n) s -> invariant s.
Proof.
  intros Hs. remember (initial malloc_ok topology n) as s0 eqn:H0.
  assert (invariant s0) as Hinv by (subst; apply invariant_initial). clear H0.
  induction Hs as [|s0 s1 s Hstep _ IH]; [done|]. by apply IH, (invariant_step s0).
Qed.

(** ** What a value in the history means *)

Lemma step_slots s s' : step topology s s' ->
  slots s' = slots s \/ exists e u, slots s' = <[Z.to_nat e := update (at_ s e) u]> (slots s).
Proof.
  intros [i pc choice slots' pc' Hi Hstep]. cbn [slots].
  destruct pc, choice; try done; cbn [thread_step] in Hstep;
    repeat match type of Hstep with context [if ?c then _ else _] => destruct c end;
    try done; injection Hstep as <- <-; (by left) || (right; eauto).
Qed.

Lemma step_length s s' : step topology s s' -> length (slots s') = length (slots s).
Proof. intros [->|(e & u & ->)]%step_slots; [done|by rewrite length_insert]. Qed.

(** One step keeps the history, and adds at most the new value. *)
Lemma history_step s s' d v : step topology s s' -> v ∈ history (at_ s' d) ->
  v ∈ history (at_ s d) \/ v = current (at_ s' d).
Proof.
  intros [->|(e & u & ->)]%step_slots.
  - by left.
  - intros Hv. destruct (decide (Z.to_nat e = Z.to_nat d)) as [Heq|Hne].
    + rewrite Heq in Hv |- *. destruct (Nat.lt_ge_cases (Z.to_nat d) (length (slots s))) as [Hlt|Hge].
      * rewrite list_lookup_total_insert_eq in Hv |- * by done. apply elem_of_cons in Hv as [->|Hv]; [by right|].
        by left.
      * rewrite list_insert_ge in Hv by done. by left.
    + rewrite list_lookup_total_insert_ne in Hv by done. by left.
Qed.

(** A value that an atomic has held was the number of free slots at some moment. *)
Lemma history_moment malloc_ok n s d v : rtc (step topology) (initial malloc_ok topology n) s ->
  0 <= d < Z.of_nat (length (slots s)) -> v ∈ history (at_ s d) ->
  exists s0, rtc (step topology) (initial malloc_ok topology n) s0 /\ rtc (step topology) s0 s /\
    running d s0 = slot_count topology d - v.
Proof.
  intros Hs. revert s Hs v. apply (rtc_ind_r (fun s => forall v, 0 <= d < Z.of_nat (length (slots s)) ->
    v ∈ history (at_ s d) -> exists s0, rtc (step topology) (initial malloc_ok topology n) s0 /\
    rtc (step topology) s0 s /\ running d s0 = slot_count topology d - v)); [|intros s s' Hs Hstep IH]; intros v Hd Hv.
  - exists (initial malloc_ok topology n). split_and!; [done|done|].
    rewrite running_initial. pose proof (inv_balance _ (invariant_initial malloc_ok n) d Hd) as Hb.
    rewrite running_initial in Hb. destruct (make_limiter_slots malloc_ok) as [Hnil|[Hlen Hget]]; cbn [initial slots] in *.
    + rewrite Hnil in Hd. cbn in Hd. lia.
    + rewrite Hget in Hv, Hb by lia. apply elem_of_cons in Hv as [->|Hv%elem_of_nil]; [cbn; lia|done].
  - assert (length (slots s') = length (slots s)) as Hlen by (by apply step_length).
    destruct (history_step s s' d v Hstep Hv) as [Hold|Hnew].
    + rewrite Hlen in Hd. destruct (IH v Hd Hold) as (s0 & H1 & H2 & H3). exists s0. split_and!; [done| |done].
      by eapply rtc_r.
    + subst v. exists s'. assert (rtc (step topology) (initial malloc_ok topology n) s') as Hs' by (by eapply rtc_r).
      split_and!; [done|done|]. pose proof (inv_balance _ (invariant_reachable _ _ _ Hs') d Hd). lia.
Qed.
End limiter.

(** ** Executions *)

(** Run a list of moves: which thread, and the choice that the program leaves open. *)
Fixpoint run (topology : SmcuTopology) (s : State) (moves : list (nat * Choice)) : option State :=
  match moves with
  | [] => Some s
  | (i, choice) :: moves =>
      match threads s !! i with
      | None => None
      | Some pc =>
          match thread_step topology (slots s) pc choice with
          | None => None
          | Some (slots', pc') => run topology {| slots := slots'; threads := <[i := pc']> (threads s) |} moves
          end
      end
  end.

Lemma run_reachable topology moves : forall s s', run topology s moves = Some s' -> rtc (step topology) s s'.
Proof.
  induction moves as [|[i choice] moves IH]; intros s s' Hrun; cbn [run] in Hrun.
  - injection Hrun as <-. done.
  - destruct (threads s !! i) as [pc|] eqn:Hi; [|done].
    destruct (thread_step topology (slots s) pc choice) as [[slots' pc']|] eqn:Hstep; [|done].
    apply (rtc_l _ _ {| slots := slots'; threads := <[i := pc']> (threads s) |}); [by eapply Step|by apply IH].
Qed.

(** Three threads on the two slots of the first domain of the sample topology: the last
    one loads a stale value, fails to exchange it and sees no free slot. *)
Definition sample_moves : list (nat * Choice) := [
  (0%nat, Call 0); (1%nat, Call 1); (2%nat, Call 0); (0%nat, Read 2); (1%nat, Read 2); (0%nat, Exchange);
  (1%nat, Read 1); (1%nat, Exchange); (2%nat, Read 2); (2%nat, Read 0)
].
Definition sample_state : State := {|
  slots := [{| current := 0; past := [1; 2] |}; {| current := 1; past := [] |}; {| current := 1; past := [] |}];
  threads := [Running 0; Running 0; Casing 0 0]
|}.

Lemma sample_reachable :
  rtc (step sample_topology) (initial (fun _ => true) sample_topology 3) sample_state.
Proof. apply (run_reachable _ sample_moves). vm_compute. reflexivity. Qed.

(** ** Progress *)

Section limiter_progress.
Context (topology : SmcuTopology) (s : State) (i : nat).
Local Abbreviation at_ s d := (slots s !!! Z.to_nat d).

Definition move (slots' : list Atomic) (pc : Pc) : State := {| slots := slots'; threads := <[i := pc]> (threads s) |}.

Lemma move_step slots1 pc1 choice slots2 pc2 : (i < length (threads s))%nat ->
  thread_step topology slots1 pc1 choice = Some (slots2, pc2) -> step topology (move slots1 pc1) (move slots2 pc2).
Proof.
  intros Hi Hstep. unfold move at 2. rewrite <- (list_insert_insert_eq (threads s) i pc2 pc1).
  apply (Step topology (move slots1 pc1) i pc1 choice slots2 pc2); [|done].
  by apply list_lookup_insert_eq.
Qed.

(** The outcome of [try_acquire] on domain [d] when the thread runs alone from now on. *)
Definition acquire_outcome (d : Z) : list Atomic * Pc :=
  if 0 <? current (at_ s d)
  then (<[Z.to_nat d := update (at_ s d) (wrap32 (current (at_ s d) - 1))]> (slots s), Running d)
  else (slots s, Returned rejected).

(** With the current value in its local, the loop ends. *)
Lemma casing_finishes d : (i < length (threads s))%nat ->
  step topology (move (slots s) (Casing d (current (at_ s d)))) (move (acquire_outcome d).1 (acquire_outcome d).2).
Proof.
  intros Hi. unfold acquire_outcome. destruct (0 <? current (at_ s d)) eqn:Hcur.
  - apply (move_step _ _ Exchange); [done|]. cbn [thread_step]. by rewrite Hcur, Z.eqb_refl.
  - apply (move_step _ _ Exit); [done|]. cbn [thread_step]. by rewrite Hcur.
Qed.

Lemma move_same pc : threads s !! i = Some pc -> move (slots s) pc = s.
Proof. intros Hi. unfold move. rewrite list_insert_id by done. by destruct s. Qed.

Lemma current_visible d : visible (at_ s d) (current (at_ s d)) = true.
Proof. unfold visible. cbn. by rewrite Z.eqb_refl. Qed.

(** A thread in [try_acquire] needs two steps of its own. *)
Lemma acquire_finishes pc d : threads s !! i = Some pc ->
  pc = Loading d \/ (exists v, pc = Casing d v /\ 0 < v) ->
  nsteps (step topology) 2 s (move (acquire_outcome d).1 (acquire_outcome d).2).
Proof.
  intros Hi Hpc. pose proof (lookup_lt_Some _ _ _ Hi) as Hlt. pose proof (casing_finishes d Hlt) as Hfinish.
  assert (thread_step topology (slots s) pc (Read (current (at_ s d))) = Some (slots s, Casing d (current (at_ s d)))) as Hread.
  { destruct Hpc as [->|(v & -> & Hv)]; cbn [thread_step]; rewrite current_visible; [done|].
    by rewrite (proj2 (Z.ltb_lt _ _)). }
  apply (nsteps_l _ _ _ (move (slots s) (Casing d (current (at_ s d))))); [|by apply nsteps_once].
  rewrite <- (move_same pc Hi) at 1. by apply (move_step _ _ (Read (current (at_ s d)))).
Qed.
End limiter_progress.

(** ** Correctness *)

Lemma limiter_hypotheses malloc_ok infos topology :
  valid_ids infos -> from_registers malloc_ok infos = Some topology ->
  (forall d, 0 <= d < domain_count_of topology -> 1 <= slot_count topology d <= 15) /\
  (forall cpu, 0 <= cpu -> is_cpu_allowed topology cpu = true ->
   0 <= domain_for_cpu topology cpu < domain_count_of topology).
Proof.
  intros Hvalid Hrun. split.
  - intros d. by apply (topology_slots malloc_ok infos).
  - intros cpu Hcpu Ha. by apply (allowed_domain malloc_ok infos topology cpu Hvalid Hrun Hcpu Ha).
Qed.

(** C5: the limiter of a detected topology never lets more threads into a domain than it
    has slots: in every state that any number of threads can reach, by any interleaving
    of their atomic operations, the free slots of a domain and the threads whose
    callback runs on it add up to its slot count, so no callback starts beyond the count,
    the 32-bit counter never wraps around, and all slots are free again when no
    callback runs. *)
Theorem limiter_never_exceeds_slots malloc_ok infos topology n s d :
  valid_ids infos -> from_registers malloc_ok infos = Some topology ->
  rtc (step topology) (initial malloc_ok topology n) s -> 0 <= d < Z.of_nat (length (slots s)) ->
  current (slots s !!! Z.to_nat d) + running d s = slot_count topology d /\
  0 <= running d s <= slot_count topology d /\ 0 <= current (slots s !!! Z.to_nat d) < 2 ^ 32 /\
  Forall (fun pc => forall e, pc = Running e -> 0 <= e < domain_count_of topology) (threads s).
Proof.
  intros Hvalid Hrun Hs Hd. destruct (limiter_hypotheses _ _ _ Hvalid Hrun) as [Hslots Hallowed].
  pose proof (invariant_reachable topology Hslots Hallowed _ _ _ Hs) as Hinv.
  pose proof (inv_balance _ _ Hinv d Hd). pose proof (running_nonneg d s).
  pose proof (slot_bounds topology Hslots s d (current (slots s !!! Z.to_nat d)) Hinv Hd ltac:(by left)).
  split_and!; try lia. eapply Forall_impl; [exact (inv_threads _ _ Hinv)|].
  intros pc Hok e ->. cbn in Hok. pose proof (inv_length _ _ Hinv). lia.
Qed.

Lemma limiter_never_exceeds_slots_witness :
  running 0 sample_state = 2 /\ 0 <= running 0 sample_state <= slot_count sample_topology 0.
Proof.
  split; [reflexivity|].
  apply (limiter_never_exceeds_slots (fun _ => true) sample_cpus sample_topology 3 sample_state 0
    sample_valid sample_from_registers sample_reachable ltac:(cbn; lia)).
Defined.

(** C24: try_to_run rejects a call from an allowed CPU only if every slot of its domain
    was taken: when a thread leaves the loop of try_acquire without a slot, there is an
    earlier state, after the start, in which as many callbacks run on the domain as it
    has slots. *)
Theorem rejection_saw_full_domain malloc_ok infos topology n s i d v :
  valid_ids infos -> from_registers malloc_ok infos = Some topology ->
  rtc (step topology) (initial malloc_ok topology n) s -> threads s !! i = Some (Casing d v) -> v <= 0 ->
  exists s0, rtc (step topology) (initial malloc_ok topology n) s0 /\ rtc (step topology) s0 s /\
    running d s0 = slot_count topology d.
Proof.
  intros Hvalid Hrun Hs Hi Hv. destruct (limiter_hypotheses _ _ _ Hvalid Hrun) as [Hslots Hallowed].
  pose proof (invariant_reachable topology Hslots Hallowed _ _ _ Hs) as Hinv.
  destruct (Forall_lookup_1 _ _ _ _ (inv_threads _ _ Hinv) Hi) as [Hd Hvis].
  pose proof (slot_bounds topology Hslots s d v Hinv Hd Hvis).
  destruct (history_moment topology Hslots Hallowed malloc_ok n s d v Hs Hd Hvis) as (s0 & H1 & H2 & H3).
  exists s0. split_and!; [done|done|lia].
Qed.

Lemma rejection_saw_full_domain_witness :
  exists s0, rtc (step sample_topology) s0 sample_state /\ running 0 s0 = 2.
Proof.
  destruct (rejection_saw_full_domain (fun _ => true) sample_cpus sample_topology 3 sample_state 2 0 0
    sample_valid sample_from_registers sample_reachable eq_refl ltac:(lia)) as (s0 & _ & H1 & H2).
  exists s0. split; [exact H1|exact H2].
Defined.

(** C25: no thread waits for another: from every reachable state, a thread in try_acquire
    that has not seen zero can leave it in two steps of its own, into its callback if the domain has a free slot and with a rejection if not; and a thread whose
    callback ends releases its slot at once. *)
Theorem limiter_progress malloc_ok infos topology n s i pc d :
  valid_ids infos -> from_registers malloc_ok infos = Some topology ->
  rtc (step topology) (initial malloc_ok topology n) s -> threads s !! i = Some pc ->
  (pc = Loading d \/ (exists v, pc = Casing d v /\ 0 < v) ->
   exists s', nsteps (step topology) 2 s s' /\
     threads s' = <[i := if running d s <? slot_count topology d then Running d else Returned rejected]> (threads s)) /\
  (pc = Running d -> forall e, exists s', step topology s s' /\ running d s' = running d s - 1 /\
     threads s' !! i = Some (Returned {| accepted := true; error := e |})).
Proof.
  intros Hvalid Hrun Hs Hi. destruct (limiter_hypotheses _ _ _ Hvalid Hrun) as [Hslots Hallowed].
  pose proof (invariant_reachable topology Hslots Hallowed _ _ _ Hs) as Hinv.
  pose proof (Forall_lookup_1 _ _ _ _ (inv_threads _ _ Hinv) Hi) as Hok. split.
  - intros Hpc. assert (0 <= d < Z.of_nat (length (slots s))) as Hd
      by (destruct Hpc as [->|(v & -> & _)]; [done|by destruct Hok]).
    exists (move s i (acquire_outcome s d).1 (acquire_outcome s d).2).
    split; [by apply (acquire_finishes topology s i pc)|].
    cbn [move threads]. f_equal. pose proof (inv_balance _ _ Hinv d Hd) as Hb. unfold acquire_outcome.
    destruct (Z.ltb_spec 0 (current (slots s !!! Z.to_nat d))), (Z.ltb_spec (running d s) (slot_count topology d));
      done || lia.
  - intros -> e. eexists. split_and!; [by apply (Step topology s i (Running d) (Finish e))| |].
    + rewrite (running_insert d s i (Running d)) by done. cbn. rewrite Z.eqb_refl. lia.
    + cbn [threads]. apply list_lookup_insert_eq. by apply lookup_lt_Some in Hi.
Qed.

Lemma limiter_progress_witness :
  exists s', step sample_topology sample_state s' /\ running 0 s' = 1.
Proof.
  destruct (limiter_progress (fun _ => true) sample_cpus sample_topology 3 sample_state 0 (Running 0) 0
    sample_valid sample_from_registers sample_reachable eq_refl) as [_ H].
  destruct (H eq_refl KLEIDICV_OK) as (s' & H1 & H2 & _). exists s'. split; [exact H1|exact H2].
Defined.
