(* ===== verification/Vectors.v ===== *)
(** * Neon instructions on lists of lanes

    The intrinsics and wrappers of [neon.h] that the filters use.  A vector register is
    the list of its lanes; [T] is the element type of the result, so a widening
    instruction differs from a plain one only in its [T].  [lanes_of n v f] says that
    [v] has [n] lanes and that lane [i] is [f i]; the tactic [lane_program] computes [f]
    for a straight-line program. *)

From S2P Require Import Prelude CTypes Utils.

Definition vget_low (a : list Z) : list Z := take (Nat.div2 (length a)) a.
Definition vget_high (a : list Z) : list Z := drop (Nat.div2 (length a)) a.
Definition vcombine (a b : list Z) : list Z := a ++ b.
Definition vdup_n (n : nat) (x : Z) : list Z := replicate n x.

(** [vaddq], [vaddl]; [vsubq], [vsubl]; [vmulq], [vmull]; [vmlaq], [vmlal]. *)
Definition vadd (T : int_type) (a b : list Z) : list Z := zip_with (fun x y => static_cast T (x + y)) a b.
Definition vsub (T : int_type) (a b : list Z) : list Z := zip_with (fun x y => static_cast T (x - y)) a b.
Definition vmul (T : int_type) (a b : list Z) : list Z := zip_with (fun x y => static_cast T (x * y)) a b.
Definition vmla (T : int_type) (acc a b : list Z) : list Z :=
  zip_with (fun x y => static_cast T (x + y)) acc (zip_with Z.mul a b).

(** [vshlq_n], [vshll_n]. *)
Definition vshl_n (T : int_type) (a : list Z) (n : Z) : list Z := map (fun x => static_cast T (Z.shiftl x n)) a.

(** [vmovl] and [vmovn], [vreinterpretq] between signed and unsigned. *)
Definition vmov (T : int_type) (a : list Z) : list Z := map (static_cast T) a.

(** [vrshrn_n]: the rounding constant is added without overflow. *)
Definition vrshrn_n (T : int_type) (a : list Z) (n : Z) : list Z :=
  map (fun x => static_cast T (Z.shiftr (x + Z.shiftl 1 (n - 1)) n)) a.

(** [vqaddq] and [vqmovn] of unsigned lanes. *)
Definition vqadd (T : int_type) (a b : list Z) : list Z := zip_with (fun x y => Z.min (int_max T) (x + y)) a b.
Definition vqmovn (T : int_type) (a : list Z) : list Z := map (Z.min (int_max T)) a.

(** [vreinterpretq_u8_u16] and [vuzp2q_u8], the lanes of odd index. *)
Definition vreinterpretq_u8_u16 (a : list Z) : list Z := flat_map (fun x => [x mod 256; x / 256]) a.
Fixpoint odd_lanes (a : list Z) : list Z :=
  match a with _ :: x :: a => x :: odd_lanes a | _ => [] end.
Definition vuzp2q (a b : list Z) : list Z := odd_lanes (a ++ b).

(** ** Lane by lane *)

Definition lanes_of (n : nat) (v : list Z) (f : nat -> Z) : Prop :=
  length v = n /\ forall i, (i < n)%nat -> v !!! i = f i.

Lemma lanes_of_vector n v : length v = n -> lanes_of n v (fun i => v !!! i).
Proof. by split. Qed.

Lemma lanes_of_zip_with n a b f g h : lanes_of n a f -> lanes_of n b g ->
  lanes_of n (zip_with h a b) (fun i => h (f i) (g i)).
Proof.
  intros [Ha Hf] [Hb Hg]. split; [rewrite length_zip_with; lia|]. intros i Hi.
  apply list_lookup_total_correct. rewrite lookup_zip_with.
  rewrite (list_lookup_lookup_total_lt a), (list_lookup_lookup_total_lt b) by lia. cbn. by rewrite Hf, Hg.
Qed.

Lemma lanes_of_map n a f h : lanes_of n a f -> lanes_of n (map h a) (fun i => h (f i)).
Proof.
  intros [Ha Hf]. split; [by rewrite length_map|]. intros i Hi. apply list_lookup_total_correct.
  rewrite list_lookup_fmap, (list_lookup_lookup_total_lt a) by lia. cbn. by rewrite Hf.
Qed.

Lemma div2_double n : Nat.div2 (n + n) = n.
Proof. rewrite Nat.div2_div. replace (n + n)%nat with (n * 2)%nat by lia. by apply Nat.div_mul. Qed.

Lemma lanes_of_low n a f : lanes_of (n + n) a f -> lanes_of n (vget_low a) f.
Proof.
  intros [Ha Hf]. unfold vget_low. rewrite Ha, div2_double. split; [rewrite length_take; lia|].
  intros i Hi. rewrite <- Hf by lia. rewrite !list_lookup_total_alt. by rewrite lookup_take_lt.
Qed.

Lemma lanes_of_high n a f : lanes_of (n + n) a f -> lanes_of n (vget_high a) (fun i => f (n + i)%nat).
Proof.
  intros [Ha Hf]. unfold vget_high. rewrite Ha, div2_double. split; [rewrite length_drop; lia|].
  intros i Hi. rewrite <- Hf by lia. rewrite !list_lookup_total_alt. by rewrite lookup_drop.
Qed.

Lemma lanes_of_dup n x : lanes_of n (vdup_n n x) (fun _ => x).
Proof. unfold vdup_n. split; [by rewrite length_replicate|]. intros i Hi. by apply lookup_total_replicate_2. Qed.

(** Two halves with the same function of the lane. *)
Lemma lanes_of_app n a b f : lanes_of n a f -> lanes_of n b (fun i => f (n + i)%nat) -> lanes_of (n + n) (a ++ b) f.
Proof.
  intros [Ha Hf] [Hb Hg]. split; [rewrite length_app; lia|]. intros i Hi.
  destruct (Nat.lt_ge_cases i n) as [Hlt|Hge].
  - rewrite lookup_total_app_l by lia. by apply Hf.
  - rewrite lookup_total_app_r by lia. rewrite Ha, Hg by lia. f_equal. lia.
Qed.

Lemma lanes_of_ext n v f g : (forall i, (i < n)%nat -> f i = g i) -> lanes_of n v f -> lanes_of n v g.
Proof. intros He [Hl Hf]. split; [done|]. intros i Hi. rewrite Hf by done. by apply He. Qed.

Lemma lanes_of_list n v f : lanes_of n v f -> v = map f (seq 0 n).
Proof.
  intros [Hl Hf]. apply list_eq. intros i. destruct (decide (i < n)%nat) as [Hi|Hi].
  - rewrite list_lookup_lookup_total_lt by lia. rewrite Hf by done.
    rewrite list_lookup_fmap, lookup_seq_lt by done. done.
  - rewrite !lookup_ge_None_2; [done|rewrite length_map, length_seq; lia|lia].
Qed.

(** A loop that accumulates in a vector. *)
Lemma lanes_of_foldl {A} n (step : list Z -> A -> list Z) (lane_step : nat -> Z -> A -> Z) l a f :
  (forall x b g, x ∈ l -> lanes_of n b g -> lanes_of n (step b x) (fun i => lane_step i (g i) x)) ->
  lanes_of n a f -> lanes_of n (foldl step a l) (fun i => foldl (lane_step i) (f i) l).
Proof.
  revert a f. induction l as [|x l IH]; intros a f Hstep Ha; [done|]. cbn [foldl].
  apply (IH (step a x) (fun i => lane_step i (f i) x)).
  - intros y b g Hy. apply Hstep. by right.
  - apply Hstep; [by left|done].
Qed.

Lemma odd_lanes_bytes a : odd_lanes (vreinterpretq_u8_u16 a) = map (fun x => x / 256) a.
Proof. induction a as [|x a IH]; [done|]. cbn. by f_equal. Qed.

Lemma vuzp2q_bytes a b :
  vuzp2q (vreinterpretq_u8_u16 a) (vreinterpretq_u8_u16 b) = map (fun x => x / 256) (a ++ b).
Proof.
  unfold vuzp2q. rewrite <- odd_lanes_bytes. f_equal. unfold vreinterpretq_u8_u16. by rewrite flat_map_app.
Qed.

(** [lane_program] finds the function of the lanes of a straight-line program: the
    goal is [lanes_of n v ?f]. *)
Ltac lane_program :=
  match goal with
  | |- lanes_of _ (vadd _ _ _) _ => eapply lanes_of_zip_with; lane_program
  | |- lanes_of _ (vsub _ _ _) _ => eapply lanes_of_zip_with; lane_program
  | |- lanes_of _ (vmul _ _ _) _ => eapply lanes_of_zip_with; lane_program
  | |- lanes_of _ (vqadd _ _ _) _ => eapply lanes_of_zip_with; lane_program
  | |- lanes_of _ (zip_with _ _ _) _ => eapply lanes_of_zip_with; lane_program
  | |- lanes_of _ (vmla _ _ _ _) _ => eapply lanes_of_zip_with; lane_program
  | |- lanes_of _ (vshl_n _ _ _) _ => eapply lanes_of_map; lane_program
  | |- lanes_of _ (vmov _ _) _ => eapply lanes_of_map; lane_program
  | |- lanes_of _ (vqmovn _ _) _ => eapply lanes_of_map; lane_program
  | |- lanes_of _ (vrshrn_n _ _ _) _ => eapply lanes_of_map; lane_program
  | |- lanes_of ?n (vget_low _) _ => apply (lanes_of_low n); lane_program
  | |- lanes_of ?n (vget_high _) _ => eapply (lanes_of_high n); lane_program
  | |- lanes_of _ (vdup_n _ _) _ => apply lanes_of_dup
  | |- _ => apply lanes_of_vector; done
  end.

(** Two halves that are the same program on the low and the high lanes. *)
Ltac lane_halves n :=
  eapply (lanes_of_app n); [lane_program|eapply lanes_of_ext; [|lane_program]; intros ? _; reflexivity].

(** ** Conversions that lose nothing *)

Lemma cast_u8 x : 0 <= x < 2 ^ 8 -> static_cast uint8 x = x.
Proof. intros. apply static_cast_id; [done|]. unfold in_type. cbn. lia. Qed.
Lemma cast_u16 x : 0 <= x < 2 ^ 16 -> static_cast uint16 x = x.
Proof. intros. apply static_cast_id; [done|]. unfold in_type. cbn. lia. Qed.
Lemma cast_s16 x : - 2 ^ 15 <= x < 2 ^ 15 -> static_cast int16 x = x.
Proof. intros. apply static_cast_id; [done|]. unfold in_type. cbn. lia. Qed.
Lemma cast_u32 x : 0 <= x < 2 ^ 32 -> static_cast uint32 x = x.
Proof. intros. apply static_cast_id; [done|]. unfold in_type. cbn. lia. Qed.
Lemma cast_s32 x : - 2 ^ 31 <= x < 2 ^ 31 -> static_cast int32 x = x.
Proof. intros. apply static_cast_id; [done|]. unfold in_type. cbn. lia. Qed.

(** A difference formed in unsigned lanes and read as signed. *)
Lemma cast_s16_u16 x : - 2 ^ 15 <= x < 2 ^ 15 -> static_cast int16 (static_cast uint16 x) = x.
Proof.
  intros Hx. rewrite <- (cast_s16 x Hx) at 2. unfold static_cast at 2. cbn [uint16 is_signed andb width].
  unfold static_cast. cbn [int16 is_signed andb width]. by rewrite Zmod_mod.
Qed.

(** [no_wrap] removes the conversions whose argument [lia] bounds, inside out. *)
Ltac no_wrap :=
  repeat match goal with
  | |- context [static_cast int16 (static_cast uint16 ?x)] =>
      lazymatch x with context [static_cast _ _] => fail | _ => rewrite (cast_s16_u16 x) by lia end
  | |- context [static_cast uint8 ?x] =>
      lazymatch x with context [static_cast _ _] => fail | _ => rewrite (cast_u8 x) by lia end
  | |- context [static_cast uint16 ?x] =>
      lazymatch x with context [static_cast _ _] => fail | _ => rewrite (cast_u16 x) by lia end
  | |- context [static_cast int16 ?x] =>
      lazymatch x with context [static_cast _ _] => fail | _ => rewrite (cast_s16 x) by lia end
  | |- context [static_cast uint32 ?x] =>
      lazymatch x with context [static_cast _ _] => fail | _ => rewrite (cast_u32 x) by lia end
  | |- context [static_cast int32 ?x] =>
      lazymatch x with context [static_cast _ _] => fail | _ => rewrite (cast_s32 x) by lia end
  end.
