(* ===== verification/Separable.v ===== *)
(** * Separable filters with fixed borders

    [SeparableFilterWorkspace] of [workspace/separable.h] and the drivers
    [SeparableFilter<FilterType, S>] of [filters/separable_filter_SxS_neon.h] for
    S = 3, 5, 7, 9, 15 and 21.  Each row is filtered vertically into a buffer row and
    the buffer horizontally into the destination.  The stores are those of Filter2D; the
    buffer is row 0 of its own store.  The inner filter (its four paths) is a parameter
    with the laws [SeparableLaws]. *)

From S2P Require Import Prelude CTypes Loops Border FixedBorders Filter2D.
Import Unroll2.

(** ** Workspace *)

(** [SeparableFilterWorkspace::allocate]: the stride of the buffer row, for a request
    that [std::malloc] refuses with a null pointer. *)
Definition buffer_rows_stride (width channels intermediate_size : Z) : Z :=
  let buffer_rows_number_of_elements := width ⊠ channels ⊞ 3 in
  buffer_rows_number_of_elements ⊠ intermediate_size.

Definition create (malloc : Z -> Z) (width channels intermediate_size : Z) : kleidicv_error_t :=
  let allocation := malloc (buffer_rows_stride width channels intermediate_size) in
  if allocation =? 0 then KLEIDICV_ERROR_ALLOCATION else KLEIDICV_OK.

(** The buffer has room for the elements of a row. *)
Lemma buffer_holds_row width channels intermediate_size :
  0 <= width -> 0 <= channels -> 1 <= intermediate_size <= 8 -> width * channels < 2 ^ 60 ->
  width * channels * intermediate_size <= buffer_rows_stride width channels intermediate_size.
Proof.
  intros Hw Hc Hi Hr. unfold buffer_rows_stride. assert (0 <= width * channels) by nia.
  rewrite (size_mul_small width), size_add_small by lia. rewrite size_mul_small by nia. nia.
Qed.

(** ** Inner filters *)

(** The [FilterType] of a driver; a vertical path turns source elements into buffer
    elements, a horizontal path buffer elements into destination elements. *)
Record FilterType (S B D : Type) := {
  vertical_vector_path : list (list S) -> list B;
  vertical_scalar_path : list S -> B;
  horizontal_vector_path : list (list B) -> list D;
  horizontal_scalar_path : list B -> D
}.
Arguments vertical_vector_path {S B D} _ _.
Arguments vertical_scalar_path {S B D} _ _.
Arguments horizontal_vector_path {S B D} _ _.
Arguments horizontal_scalar_path {S B D} _ _.

(** ** The drivers *)

Section separable.
Context {S B D : Type} `{Inhabited S, Inhabited B, Inhabited D}.
Context (K : Z) {HI : FixedBorderInfo K} {HL : FixedBorderLaws K}.
Context (F : FilterType S B D) (source_lanes buffer_lanes : Z).
Context (channels width height : Z) (border_type : FixedBorderType).
Context (src : Z * Z -> S).
Implicit Types (buffer : Z * Z -> B) (dst : Z * Z -> D).

(** The array [src[S]] of a path: tap [k] is read at offset [ck()]. *)
Definition taps {A} (at_ : Z -> A) (border_offsets : list Z) : list A :=
  map (fun k => at_ (c border_offsets k)) (seq 0 (Z.to_nat K)).

Definition vertical_vector (v : Z) (border_offsets : list Z) (index : Z) buffer : Z * Z -> B :=
  vst1q source_lanes (0, index) (vertical_vector_path F
    (taps (fun r => at_index channels (vld1q source_lanes src) v 0 index r 0) border_offsets)) buffer.

Definition vertical_scalar (v : Z) (border_offsets : list Z) (index : Z) buffer : Z * Z -> B :=
  upd buffer (0, index) (vertical_scalar_path F
    (taps (fun r => at_index channels src v 0 index r 0) border_offsets)).

(** [process_vertical]; only the 3x3 driver unrolls it twice, and the 21x21 driver has no
    tail loop. *)
Definition process_vertical (width v : Z) (border_offsets : list Z) buffer : option (Z * Z -> B) :=
  let length := width ⊠ channels in
  let vector := vertical_vector v border_offsets in
  let result :=
    if K =? 3
    then twice_once_tail true length source_lanes
           (fun index buffer => vector (index ⊞ source_lanes) (vector index buffer))
           vector (vertical_scalar v border_offsets) buffer
    else if K =? 21 then unroll_n_times true 1 vector (make 0 length source_lanes, buffer)
    else once_tail true length source_lanes vector (vertical_scalar v border_offsets) buffer in
  match result with Some (_, buffer) => Some buffer | None => None end.

Definition horizontal_vector buffer (v h : Z) (border_offsets : list Z) (index : Z) dst : Z * Z -> D :=
  vst1q buffer_lanes (v, h * channels + index) (horizontal_vector_path F
    (taps (fun q => at_index channels (vld1q buffer_lanes buffer) 0 h index 0 q) border_offsets)) dst.

Definition process_horizontal_scalar buffer (v h : Z) (border_offsets : list Z) (index : Z) dst : Z * Z -> D :=
  upd dst (v, h * channels + index) (horizontal_scalar_path F
    (taps (fun q => at_index channels buffer 0 h index 0 q) border_offsets)).

(** [SeparableFilter::process_horizontal]. *)
Definition process_horizontal_bulk (width : Z) buffer (v h : Z) (border_offsets : list Z) dst
    : option (Z * Z -> D) :=
  let vector := horizontal_vector buffer v h border_offsets in
  match twice_once_tail true (width ⊠ channels) buffer_lanes
    (fun index dst => vector (index ⊞ buffer_lanes) (vector index dst))
    vector (process_horizontal_scalar buffer v h border_offsets) dst
  with Some (_, dst) => Some dst | None => None end.

Definition process_horizontal_borders buffer (v h : Z) (border_offsets : list Z) dst : Z * Z -> D :=
  for_range 0 channels (process_horizontal_scalar buffer v h border_offsets) dst.

(** [SeparableFilter::margin]. *)
Definition margin : Z := K / 2.

(** [SeparableFilterWorkspace::process_horizontal] into row [v]. *)
Definition process_horizontal buffer (v : Z) dst : option (Z * Z -> D) :=
  let dst := for_range 0 margin (fun horizontal_index =>
    process_horizontal_borders buffer v horizontal_index
      (fixed_offsets_with_left_border width border_type horizontal_index)) dst in
  let width_without_borders := width ⊟ 2 * margin in
  match process_horizontal_bulk width_without_borders buffer v margin fixed_offsets_without_border dst with
  | None => None
  | Some dst => Some (for_range 0 margin (fun horizontal_index =>
      let index := width ⊟ margin ⊞ horizontal_index in
      process_horizontal_borders buffer v index
        (fixed_offsets_with_right_border width border_type index)) dst)
  end.

(** One iteration of [process], and [process]. *)
Definition process_row (vertical_index : Z) (bd : (Z * Z -> B) * (Z * Z -> D))
    : option ((Z * Z -> B) * (Z * Z -> D)) :=
  let '(buffer, dst) := bd in
  let offsets := fixed_offsets_with_border height border_type vertical_index in
  match process_vertical width vertical_index offsets buffer with
  | None => None
  | Some buffer =>
      match process_horizontal buffer vertical_index dst with
      | None => None
      | Some dst => Some (buffer, dst)
      end
  end.

Definition process (y_begin y_end : Z) buffer dst : option ((Z * Z -> B) * (Z * Z -> D)) :=
  for_range y_begin y_end (fun vertical_index r =>
    match r with Some bd => process_row vertical_index bd | None => None end)
    (Some (buffer, dst)).
End separable.

(** ** What an inner filter promises *)

(** [valid] holds of the source elements.  [vertical w b] says that the buffer element
    [b] stands for the vertical window [w]; [result ws] is the destination element for
    the vertical windows [ws] of the taps.  The buffer need not be a function of its
    window: a scalar and a vector path may represent it differently. *)
Record SeparableLaws {S B D : Type} `{Inhabited S, Inhabited B, Inhabited D}
    (K source_lanes buffer_lanes : Z) (F : FilterType S B D) (valid : S -> Prop)
    (vertical : list S -> B -> Prop) (result : list (list S) -> D) : Prop := {
  vertical_scalar_ok : forall w, length w = Z.to_nat K -> Forall valid w ->
    vertical w (vertical_scalar_path F w);
  vertical_vector_ok : forall vs i, length vs = Z.to_nat K ->
    Forall (fun v => length v = Z.to_nat source_lanes) vs -> Forall (Forall valid) vs ->
    (i < Z.to_nat source_lanes)%nat -> vertical (lane i vs) (vertical_vector_path F vs !!! i);
  horizontal_scalar_ok : forall ws bs, length ws = Z.to_nat K -> Forall2 vertical ws bs ->
    Forall (fun w => length w = Z.to_nat K /\ Forall valid w) ws ->
    horizontal_scalar_path F bs = result ws;
  horizontal_vector_ok : forall vs i ws, length ws = Z.to_nat K ->
    Forall (fun v => length v = Z.to_nat buffer_lanes) vs ->
    (i < Z.to_nat buffer_lanes)%nat -> Forall2 vertical ws (lane i vs) ->
    Forall (fun w => length w = Z.to_nat K /\ Forall valid w) ws ->
    horizontal_vector_path F vs !!! i = result ws
}.

(** ** Stores of vectors and elements in a row *)

Section rows.
Context {T : Type} `{Inhabited T} (ok : Z * Z -> T -> Prop) (v base : Z).
Implicit Types (f : Z * Z -> T).

(** The elements of row [v] from [base] on. *)
Definition row_index (a : Z * Z) : option Z := if a.1 =? v then Some (a.2 - base) else None.

Lemma row_window lo hi a : in_window row_index lo hi a = row_part v (base + lo) (base + hi) a.
Proof.
  unfold in_window, row_index, row_part. destruct (Z.eqb_spec a.1 v); [|done]. cbn. case_cmp; done || lia.
Qed.

Lemma vst1q_stored n lo vec f : 1 <= n < 2 ^ 62 ->
  (forall i, 0 <= i < n -> ok (v, base + lo + i) (vec !!! Z.to_nat i)) ->
  stored row_index ok lo (lo + n) f (vst1q n (v, base + lo) vec f).
Proof.
  intros Hn Hok [y e]. rewrite row_window, vst1q_lanes by done. rewrite Z.add_assoc.
  destruct (row_part v (base + lo) (base + lo + n) (y, e)) eqn:Hp; [|done].
  unfold row_part in Hp. cbn [fst snd] in Hp |- *.
  assert (y = v /\ base + lo <= e < base + lo + n) as [-> He] by (revert Hp; case_cmp; done || lia).
  specialize (Hok (e - (base + lo)) ltac:(lia)). by replace (base + lo + (e - (base + lo))) with e in Hok by lia.
Qed.

Lemma upd_stored lo x f : ok (v, base + lo) x ->
  stored row_index ok lo (lo + 1) f (upd f (v, base + lo) x).
Proof.
  intros Hok [y e]. rewrite row_window. unfold row_part, upd. cbn [fst snd].
  case_decide as Hd.
  - injection Hd as -> ->. rewrite Z.eqb_refl. case_cmp; done || lia.
  - destruct (_ && _) eqn:Hp; [|done]. exfalso. apply Hd.
    revert Hp. case_cmp; intros; try done. f_equal; lia.
Qed.

(** Two vectors in a row. *)
Lemma twice_stores len n vector : 1 <= n -> len < 2 ^ 64 ->
  stores_window row_index ok len n vector ->
  stores_window row_index ok len (2 * n) (fun index f => vector (index ⊞ n) (vector index f)).
Proof.
  intros Hn Hlen Hv i f Hi Hend. rewrite size_add_small by lia.
  apply (stored_join _ _ i (i + n) (i + n) (i + n + n) _ _ f (vector i f)).
  - intros a. unfold in_window. destruct (row_index a); [|done]. case_cmp; done || lia.
  - apply Hv; lia.
  - apply Hv; lia.
Qed.
End rows.

(** ** Correctness of the drivers *)

Section correct.
Context {S B D : Type} `{Inhabited S, Inhabited B, Inhabited D}.
Context (K : Z) {HI : FixedBorderInfo K} {HL : FixedBorderLaws K}.
Context (F : FilterType S B D) (source_lanes buffer_lanes : Z).
Context (valid : S -> Prop) (vertical : list S -> B -> Prop) (result : list (list S) -> D).
Hypothesis laws : SeparableLaws K source_lanes buffer_lanes F valid vertical result.
Context (channels width height : Z) (border_type : FixedBorderType).
Context (src : Z * Z -> S).
Hypothesis source_valid : forall a, valid (src a).
Hypothesis source_lanes_range : 1 <= source_lanes < 2 ^ 61.
Hypothesis lanes_fit : K = 21 -> source_lanes <= 20.
Hypothesis buffer_lanes_range : 1 <= buffer_lanes < 2 ^ 61.
Hypothesis channels_pos : 1 <= channels.
Hypothesis odd_size : K = 2 * kMargin K + 1 /\ 1 <= kMargin K.
Hypothesis width_range : K - 1 <= width < 2 ^ 63.
Hypothesis height_range : K - 1 <= height < 2 ^ 63.
Hypothesis row_range : width * channels < 2 ^ 62.
Implicit Types (buffer : Z * Z -> B) (dst : Z * Z -> D).

(** The vertical window of element [e] of row [y], and the elements of the row that
    the horizontal taps of [e] stand for. *)
Definition column_window (y e : Z) : list S :=
  map (fun r => src (border_index border_type height (y + r - K / 2), e)) (seqZ 0 K).

Definition tap_element (e q : Z) : Z :=
  border_index border_type width (e / channels + q - K / 2) * channels + e mod channels.

(** The reference filter. *)
Definition separable_reference (a : Z * Z) : D :=
  result (map (fun q => column_window a.1 (tap_element a.2 q)) (seqZ 0 K)).

Lemma map_nth_seqZ {A} (f : Z -> A) l : length l = Z.to_nat K ->
  map f l = map (fun q => f (nth (Z.to_nat q) l 0)) (seqZ 0 K).
Proof.
  intros Hl. assert (l = map (fun q => nth (Z.to_nat q) l 0) (seqZ 0 K)) as Heq.
  { apply list_eq_same_length with (Z.to_nat K); [by rewrite length_map, length_seqZ|done|].
    intros i x y Hi Hx Hy. rewrite list_lookup_fmap, lookup_seqZ_lt in Hy by lia.
    injection Hy as <-. replace (Z.to_nat (0 + Z.of_nat i)) with i by lia.
    symmetry. by apply nth_lookup_Some. }
  rewrite Heq at 1. by rewrite map_map.
Qed.

Lemma taps_map {A} (at_ : Z -> A) offsets : length offsets = Z.to_nat K ->
  taps K at_ offsets = map at_ offsets.
Proof.
  intros Hl. unfold taps. transitivity (map at_ (map (fun k => c offsets k) (seq 0 (Z.to_nat K)))); [by rewrite map_map|].
  f_equal. apply list_eq_same_length with (Z.to_nat K); [done|by rewrite length_map, length_seq|].
  intros i x y Hi Hx Hy. rewrite list_lookup_fmap, lookup_seq_lt in Hx by done. injection Hx as <-.
  unfold c. by apply nth_lookup_Some.
Qed.

(** The vertical taps of an element. *)
Lemma vertical_taps {A} (load : Z * Z -> A) v index : 0 <= v < height ->
  taps K (fun r => at_index channels load v 0 index r 0) (fixed_offsets_with_border height border_type v) =
  map (fun r => load (border_index border_type height (v + r - K / 2), index)) (seqZ 0 K).
Proof.
  intros Hv. rewrite fixed_border_ok by lia. rewrite taps_map by apply length_reference_offsets.
  unfold reference_offsets. rewrite map_map. apply map_ext. intros r. unfold at_index.
  do 2 f_equal; lia.
Qed.

Lemma map_lanes {A} `{Inhabited A} (load : Z * Z -> A) n (cell : Z -> Z) y i :
  (i < Z.to_nat n)%nat ->
  lane i (map (fun r => vld1q n load (cell r, y)) (seqZ 0 K)) =
  map (fun r => load (cell r, y + Z.of_nat i)) (seqZ 0 K).
Proof.
  intros Hi. unfold lane. rewrite map_map. apply map_ext. intros r. unfold vld1q. cbn [fst snd].
  apply list_lookup_total_correct. rewrite list_lookup_fmap, lookup_seqZ_lt by lia. done.
Qed.

Local Abbreviation vertical_of v := (fun a b => vertical (column_window v a.2) b).

Lemma column_window_valid y e : length (column_window y e) = Z.to_nat K /\ Forall valid (column_window y e).
Proof.
  unfold column_window. rewrite length_map, length_seqZ. split; [done|].
  apply Forall_fmap, Forall_true. intros r. apply source_valid.
Qed.

(** The vertical pass leaves a buffer element for every column. *)
Lemma process_vertical_stores v buffer : 0 <= v < height ->
  exists buffer', process_vertical K F source_lanes channels src width v
      (fixed_offsets_with_border height border_type v) buffer = Some buffer' /\
    stored (row_index 0 0) (vertical_of v) 0 (width * channels) buffer buffer'.
Proof.
  intros Hv. unfold process_vertical. assert (0 <= width * channels) by (apply Z.mul_nonneg_nonneg; lia).
  rewrite size_mul_small by lia. set (offsets := fixed_offsets_with_border height border_type v).
  assert (stores_window (row_index 0 0) (vertical_of v) (width * channels) source_lanes
    (vertical_vector K F source_lanes channels src v offsets)) as Hvector.
  { intros i f Hi Hend. unfold vertical_vector. change (0, i) with (0, 0 + i). apply vst1q_stored; [lia|].
    intros j Hj. unfold offsets. rewrite vertical_taps by done. cbn [snd].
    pose proof (map_lanes src source_lanes (fun r => border_index border_type height (v + r - K / 2)) i
      (Z.to_nat j) ltac:(lia)) as Hlane.
    replace (i + Z.of_nat (Z.to_nat j)) with (0 + i + j) in Hlane by lia.
    fold (column_window v (0 + i + j)) in Hlane. rewrite <- Hlane.
    apply (vertical_vector_ok _ _ _ _ _ _ _ laws); [by rewrite length_map, length_seqZ| | |lia].
    - apply Forall_fmap, Forall_true. intros r. cbn. unfold vld1q. by rewrite length_map, length_seqZ.
    - apply Forall_fmap, Forall_true. intros r. apply Forall_fmap, Forall_true. intros e. apply source_valid. }
  assert (stores_window (row_index 0 0) (vertical_of v) (width * channels) 1
    (vertical_scalar K F channels src v offsets)) as Hscalar.
  { intros i f Hi Hend. unfold vertical_scalar. change (0, i) with (0, 0 + i). apply upd_stored.
    unfold offsets. rewrite vertical_taps by done. cbn [snd].
    apply (vertical_scalar_ok _ _ _ _ _ _ _ laws); apply column_window_valid. }
  destruct (K =? 3).
  - destruct (twice_once_tail_stores (row_index 0 0) (vertical_of v) true (width * channels) source_lanes
      (fun index buffer => vertical_vector K F source_lanes channels src v offsets (index ⊞ source_lanes)
        (vertical_vector K F source_lanes channels src v offsets index buffer))
      (vertical_vector K F source_lanes channels src v offsets)
      (vertical_scalar K F channels src v offsets) buffer) as (l & b & Heq & Hb); try done; try lia.
    { unfold is_size. lia. }
    { apply twice_stores; [lia|lia|done]. }
    rewrite Heq. by exists b.
  - destruct (Z.eqb_spec K 21) as [HK|_].
    { destruct (once_stores (row_index 0 0) (vertical_of v) (width * channels) source_lanes
        (vertical_vector K F source_lanes channels src v offsets) buffer) as (l & b & Heq & Hb); try done.
      { specialize (lanes_fit HK). assert (20 * 1 <= width * channels) by (apply Z.mul_le_mono_nonneg; lia). lia. }
      { lia. } { unfold is_size. lia. }
      rewrite Heq. by exists b. }
    destruct (once_tail_stores (row_index 0 0) (vertical_of v) true (width * channels) source_lanes
      (vertical_vector K F source_lanes channels src v offsets)
      (vertical_scalar K F channels src v offsets) buffer) as (l & b & Heq & Hb); try done; try lia.
    { unfold is_size. lia. }
    rewrite Heq. by exists b.
Qed.
(** ** The horizontal pass *)

Section horizontal.
Context (v : Z) (buffer : Z * Z -> B).
Hypothesis buffer_ok : forall e, 0 <= e < width * channels -> vertical (column_window v e) (buffer (0, e)).

Lemma tap_element_range e q : 0 <= e < width * channels -> 0 <= q < K ->
  0 <= tap_element e q < width * channels.
Proof.
  intros He Hq. unfold tap_element. fold (kMargin K).
  pose proof (Z.mod_pos_bound e channels ltac:(lia)) as Hm.
  assert (0 <= e / channels < width) as Hx
    by (split; [apply Z.div_pos; lia|apply Z.div_lt_upper_bound; lia]).
  pose proof (border_index_range border_type width (e / channels + q - kMargin K) ltac:(lia) ltac:(lia)) as Hb.
  set (x := border_index _ _ _) in *. assert (0 <= x * channels) by (apply Z.mul_nonneg_nonneg; lia).
  assert ((x + 1) * channels <= width * channels) by (apply Z.mul_le_mono_nonneg_r; lia). lia.
Qed.

(** The columns of the offsets are the taps of element [h * channels + index]. *)
Definition taps_of (h index : Z) (offsets : list Z) : Prop :=
  length offsets = Z.to_nat K /\
  forall q, 0 <= q < K ->
    (h + nth (Z.to_nat q) offsets 0) * channels + index = tap_element (h * channels + index) q.

Lemma horizontal_taps {A} (load : Z * Z -> A) h index offsets : taps_of h index offsets ->
  taps K (fun q => at_index channels load 0 h index 0 q) offsets =
  map (fun q => load (0, tap_element (h * channels + index) q)) (seqZ 0 K).
Proof.
  intros [Hl Hq]. rewrite taps_map, map_nth_seqZ by done. apply map_ext_in.
  intros q Hqi%list_elem_of_In%elem_of_seqZ. unfold at_index. by rewrite Hq by lia.
Qed.

Lemma element_windows e : 0 <= e < width * channels ->
  Forall2 vertical (map (fun q => column_window v (tap_element e q)) (seqZ 0 K))
    (map (fun q => buffer (0, tap_element e q)) (seqZ 0 K)).
Proof.
  intros He. rewrite Forall2_fmap. apply Forall_Forall2_diag, Forall_forall. intros q Hq%elem_of_seqZ.
  apply buffer_ok, tap_element_range; [done|lia].
Qed.

Lemma windows_valid e :
  Forall (fun w => length w = Z.to_nat K /\ Forall valid w)
    (map (fun q => column_window v (tap_element e q)) (seqZ 0 K)).
Proof. apply Forall_fmap, Forall_true. intros q. apply column_window_valid. Qed.

(** One element of the destination. *)
Lemma horizontal_scalar_value h index offsets :
  taps_of h index offsets -> 0 <= h * channels + index < width * channels ->
  horizontal_scalar_path F (taps K (fun q => at_index channels buffer 0 h index 0 q) offsets) =
  separable_reference (v, h * channels + index).
Proof.
  intros Ht He. rewrite horizontal_taps by done. unfold separable_reference. cbn [fst snd].
  apply (horizontal_scalar_ok _ _ _ _ _ _ _ laws); [by rewrite length_map, length_seqZ| |].
  - by apply element_windows.
  - apply windows_valid.
Qed.

(** One lane of a vector of the destination. *)
Lemma horizontal_vector_value h index offsets (i : nat) :
  length offsets = Z.to_nat K -> (i < Z.to_nat buffer_lanes)%nat -> taps_of h (index + Z.of_nat i) offsets ->
  0 <= h * channels + (index + Z.of_nat i) < width * channels ->
  horizontal_vector_path F (taps K (fun q => at_index channels (vld1q buffer_lanes buffer) 0 h index 0 q) offsets) !!! i =
  separable_reference (v, h * channels + (index + Z.of_nat i)).
Proof.
  intros Hl Hi Ht He. unfold separable_reference. cbn [fst snd].
  apply (horizontal_vector_ok _ _ _ _ _ _ _ laws); [by rewrite length_map, length_seqZ| |done| |].
  - rewrite taps_map by done. apply Forall_fmap, Forall_true. intros q. cbn. unfold vld1q, at_index.
    by rewrite length_map, length_seqZ.
  - assert (lane i (taps K (fun q => at_index channels (vld1q buffer_lanes buffer) 0 h index 0 q) offsets) =
      taps K (fun q => at_index channels buffer 0 h (index + Z.of_nat i) 0 q) offsets) as ->.
    { rewrite !taps_map by done. unfold lane. rewrite map_map. apply map_ext. intros q.
      unfold at_index, vld1q. cbn [fst snd]. apply list_lookup_total_correct.
      rewrite list_lookup_fmap, lookup_seqZ_lt by lia. cbn. do 3 f_equal. lia. }
    rewrite horizontal_taps by done. by apply element_windows.
  - apply windows_valid.
Qed.
Local Abbreviation value := (fun a t => t = separable_reference a).
Local Abbreviation writes := (writes_value separable_reference).

Lemma stored_writes base lo hi dst dst' :
  stored (row_index v base) value lo hi dst dst' -> writes (row_part v (base + lo) (base + hi)) dst dst'.
Proof. intros Hs a. specialize (Hs a). rewrite row_window in Hs. by destruct (row_part _ _ _ _). Qed.

(** A pixel next to the border. *)
Lemma borders_write x dst : 0 <= x < width ->
  writes (row_part v (x * channels) ((x + 1) * channels)) dst
    (process_horizontal_borders K F channels buffer v x (reference_offsets K border_type width x) dst).
Proof.
  intros Hx. unfold process_horizontal_borders.
  replace ((x + 1) * channels) with (x * channels + channels * 1) by lia.
  apply row_part_loop; [lia|lia|]. intros i d Hi. rewrite !Z.mul_1_r, Z.add_assoc.
  pose proof (stored_writes (x * channels) i (i + 1) d) as Hw. rewrite Z.add_assoc in Hw. apply Hw.
  apply upd_stored. apply horizontal_scalar_value.
  - split; [apply length_reference_offsets|]. intros q Hq. by apply pixel_columns.
  - assert (0 <= x * channels) by (apply Z.mul_nonneg_nonneg; lia).
    assert ((x + 1) * channels <= width * channels) by (apply Z.mul_le_mono_nonneg_r; lia). lia.
Qed.

Lemma margin_write x0 (offsets : Z -> list Z) dst :
  0 <= x0 -> x0 + margin K <= width ->
  (forall i, 0 <= i < margin K -> offsets i = reference_offsets K border_type width (x0 + i)) ->
  writes (row_part v (x0 * channels) ((x0 + margin K) * channels)) dst
    (for_range 0 (margin K) (fun i => process_horizontal_borders K F channels buffer v (x0 + i) (offsets i)) dst).
Proof.
  intros Hx0 Hw Ho. change (margin K) with (kMargin K) in *.
  replace ((x0 + kMargin K) * channels) with (x0 * channels + kMargin K * channels) by lia.
  apply row_part_loop; try lia. intros i d Hi. rewrite Ho by done.
  replace (x0 * channels + i * channels) with ((x0 + i) * channels) by lia.
  replace (x0 * channels + (i + 1) * channels) with ((x0 + i + 1) * channels) by lia.
  apply borders_write. lia.
Qed.

(** The bulk of the row. *)
Lemma bulk_taps index : 0 <= index < (width - 2 * kMargin K) * channels ->
  taps_of (kMargin K) index fixed_offsets_without_border.
Proof.
  intros Hi. assert (kMargin K < width - kMargin K) as Hwide by nia. split.
  - rewrite (fixed_inner_ok (S := K) border_type width (kMargin K)) by (unfold kMargin in *; lia).
    apply length_reference_offsets.
  - intros q Hq. by apply bulk_columns.
Qed.

Lemma bulk_stores dst :
  exists dst', process_horizontal_bulk K F buffer_lanes channels (width - 2 * kMargin K) buffer v (kMargin K)
      fixed_offsets_without_border dst = Some dst' /\
    writes (row_part v (kMargin K * channels) ((width - kMargin K) * channels)) dst dst'.
Proof.
  unfold process_horizontal_bulk. set (len := (width - 2 * kMargin K) * channels).
  assert (0 <= len < 2 ^ 62) as Hlen by (subst len; split; [apply Z.mul_nonneg_nonneg; lia|nia]).
  rewrite size_mul_small by lia. fold len.
  set (idx := row_index v (kMargin K * channels)).
  assert (forall index, 0 <= index < len -> 0 <= kMargin K * channels + index < width * channels) as Hin.
  { intros index Hi. assert (0 <= kMargin K * channels) by (apply Z.mul_nonneg_nonneg; lia). unfold len in Hi. lia. }
  assert (stores_window idx value len buffer_lanes
    (horizontal_vector K F buffer_lanes channels buffer v (kMargin K) fixed_offsets_without_border)) as Hvector.
  { intros i f Hi Hend. unfold horizontal_vector. apply vst1q_stored; [lia|]. intros j Hj.
    rewrite <- Z.add_assoc. replace (i + j) with (i + Z.of_nat (Z.to_nat j)) by lia.
    pose proof (bulk_taps (i + Z.of_nat (Z.to_nat j)) ltac:(unfold len in Hend; lia)) as Ht.
    apply horizontal_vector_value; [by destruct Ht|lia|done|apply Hin; lia]. }
  assert (stores_window idx value len 1
    (process_horizontal_scalar K F channels buffer v (kMargin K) fixed_offsets_without_border)) as Hscalar.
  { intros i f Hi Hend. unfold process_horizontal_scalar. apply upd_stored.
    apply horizontal_scalar_value; [apply bulk_taps; unfold len in Hend; lia|apply Hin; lia]. }
  destruct (twice_once_tail_stores idx value true len buffer_lanes
    (fun index dst => horizontal_vector K F buffer_lanes channels buffer v (kMargin K) fixed_offsets_without_border
      (index ⊞ buffer_lanes)
      (horizontal_vector K F buffer_lanes channels buffer v (kMargin K) fixed_offsets_without_border index dst))
    (horizontal_vector K F buffer_lanes channels buffer v (kMargin K) fixed_offsets_without_border)
    (process_horizontal_scalar K F channels buffer v (kMargin K) fixed_offsets_without_border) dst)
    as (l & d & Heq & Hd); try done; try lia.
  { unfold is_size. lia. }
  { apply twice_stores; [lia|lia|done]. }
  rewrite Heq. exists d. split; [done|]. apply stored_writes in Hd. unfold len in Hd. rewrite Z.add_0_r in Hd.
  by replace (kMargin K * channels + (width - 2 * kMargin K) * channels) with ((width - kMargin K) * channels)
    in Hd by lia.
Qed.

Lemma process_horizontal_writes dst :
  exists dst', process_horizontal K F buffer_lanes channels width border_type buffer v dst = Some dst' /\
    writes (row_part v 0 (width * channels)) dst dst'.
Proof.
  unfold process_horizontal. change (margin K) with (kMargin K).
  rewrite size_sub_small by lia. cbv zeta.
  pose proof (margin_write 0 (fun i => fixed_offsets_with_left_border width border_type i) dst ltac:(lia)
    ltac:(unfold margin, kMargin in *; lia)) as Hleft. change (margin K) with (kMargin K) in Hleft.
  set (d1 := for_range 0 (kMargin K) _ dst) in Hleft.
  destruct (bulk_stores d1) as (d2 & Heq & Hbulk).
  pose proof (margin_write (width - kMargin K)
    (fun i => fixed_offsets_with_right_border width border_type (width - kMargin K + i)) d2 ltac:(lia)
    ltac:(unfold margin, kMargin in *; lia)) as Hright. change (margin K) with (kMargin K) in Hright.
  set (d3 := for_range 0 (kMargin K) _ d2) in Hright.
  exists d3. split.
  - assert (for_range 0 (kMargin K) (fun i => process_horizontal_borders K F channels buffer v i
      (fixed_offsets_with_left_border width border_type i)) dst = d1) as -> by (apply for_range_ext; done).
    rewrite Heq. f_equal. apply for_range_ext. intros i d Hi.
    rewrite (size_sub_small width), size_add_small by lia. done.
  - eapply writes_ext; [|eapply writes_seq; [apply Hleft|eapply writes_seq; [exact Hbulk|apply Hright]]].
    + intros a. unfold row_part. assert (0 <= kMargin K * channels) by nia.
      assert (kMargin K * channels <= (width - kMargin K) * channels) by nia.
      rewrite Z.add_0_l, Z.mul_0_l. replace (width - kMargin K + kMargin K) with width by lia.
      case_cmp; simpl; done || lia.
    + intros i Hi. rewrite Z.add_0_l. apply fixed_left_ok; [lia|exact Hi].
    + intros i Hi. apply fixed_right_ok; [lia|unfold kMargin in *; lia].
Qed.
End horizontal.

(** ** The whole stripe *)

Lemma process_row_writes v buffer dst : 0 <= v < height ->
  exists buffer' dst', process_row K F source_lanes buffer_lanes channels width height border_type src v (buffer, dst) =
      Some (buffer', dst') /\
    writes_value separable_reference (row_part v 0 (width * channels)) dst dst'.
Proof.
  intros Hv. unfold process_row. destruct (process_vertical_stores v buffer Hv) as (buffer' & -> & Hb).
  destruct (process_horizontal_writes v buffer') with (dst := dst) as (dst' & -> & Hd).
  - intros e He. specialize (Hb (0, e)). unfold in_window, row_index in Hb. cbn [fst snd] in Hb.
    rewrite Z.eqb_refl, Z.sub_0_r, (proj2 (Z.leb_le 0 e)), (proj2 (Z.ltb_lt e _)) in Hb by lia. exact Hb.
  - by exists buffer', dst'.
Qed.

Lemma process_writes y_begin y_end buffer dst :
  0 <= y_begin <= y_end -> y_end <= height ->
  exists buffer' dst',
    process K F source_lanes buffer_lanes channels width height border_type src y_begin y_end buffer dst =
      Some (buffer', dst') /\
    writes_value separable_reference
      (fun a => (y_begin <=? a.1) && (a.1 <? y_end) && (0 <=? a.2) && (a.2 <? width * channels)) dst dst'.
Proof.
  intros Hy Hh. unfold process.
  refine (for_range_ind (fun y r => exists buffer' dst', r = Some (buffer', dst') /\
    writes_value separable_reference
      (fun a => (y_begin <=? a.1) && (a.1 <? y) && (0 <=? a.2) && (a.2 <? width * channels)) dst dst')
    y_begin y_end _ _ _ _ _); [lia| |].
  - exists buffer, dst. split; [done|]. intros a. case_cmp; simpl; done || lia.
  - intros y r Hyr (b & d & -> & Hd). destruct (process_row_writes y b d) as (b' & d' & Heq & Hd'); [lia|].
    exists b', d'. split; [done|]. eapply writes_ext; [|exact (writes_seq _ _ _ _ _ Hd Hd')].
    intros a. unfold row_part. case_cmp; simpl; done || lia.
Qed.
End correct.
