(* ===== verification/GaussianHalf.v ===== *)
(** * Gaussian blur with a generated half kernel

    [GaussianBlur<uint8_t, KernelSize, false>] of [gaussian_blur_fixed_neon.cpp], for
    any kernel size.  The half kernel is an argument: it is computed in floating point. *)

From S2P Require Import Prelude CTypes Utils Separable Vectors SeparableKernels.

(** [get_half_kernel_size]. *)
Definition get_half_kernel_size (kernel_size : nat) : nat := Nat.div2 kernel_size + 1.

Section half_kernel.
Context (KernelSize : nat) (half_kernel : list Z).

(** The index of the middle of the window and of the half kernel. *)
Definition kMid : nat := get_half_kernel_size KernelSize - 1.

Definition scalar_path (src : list Z) : Z :=
  let acc := static_cast uint16 (src !!! kMid * half_kernel !!! kMid) in
  let acc := foldl (fun acc i =>
    static_cast uint16 (acc + (src !!! i + src !!! (KernelSize - i - 1)%nat) * half_kernel !!! i))
    acc (seq 0 kMid) in
  static_cast uint8 (static_cast uint16 (rounding_shift_right int32 acc 8)).

(** One of the two accumulators of [common_vector_path]. *)
Definition accumulate (half : list Z -> list Z) (src : list (list Z)) : list Z :=
  let acc := vmla uint16 (vdup_n 8 128) (half (src !!! kMid)) (vdup_n 8 (half_kernel !!! kMid)) in
  foldl (fun acc i =>
    let vec := vadd uint16 (half (src !!! i)) (half (src !!! (KernelSize - i - 1)%nat)) in
    vmla uint16 acc vec (vdup_n 8 (half_kernel !!! i))) acc (seq 0 kMid).

Definition common_vector_path (src : list (list Z)) : list Z :=
  vuzp2q (vreinterpretq_u8_u16 (accumulate vget_low src)) (vreinterpretq_u8_u16 (accumulate vget_high src)).

Definition half_kernel_filter : FilterType Z Z Z := {|
  vertical_vector_path := common_vector_path;
  vertical_scalar_path := scalar_path;
  horizontal_vector_path := common_vector_path;
  horizontal_scalar_path := scalar_path
|}.

(** ** The symmetric sum *)

(** The first [n] pairs of taps, and all taps. *)
Fixpoint pairs (n : nat) (tap : nat -> Z) : Z :=
  match n with
  | O => 0
  | S n => pairs n tap + (tap n + tap (KernelSize - n - 1)%nat) * half_kernel !!! n
  end.
Definition symmetric_sum (tap : nat -> Z) : Z := tap kMid * half_kernel !!! kMid + pairs kMid tap.

Lemma pairs_ext n tap tap' : (forall j, tap j = tap' j) -> pairs n tap = pairs n tap'.
Proof. intros He. induction n as [|n IH]; cbn; [done|]. by rewrite IH, !He. Qed.

(** The weights are nonnegative and add up to at most 256. *)
Definition normalised : Prop := Forall (fun h => 0 <= h) half_kernel /\ symmetric_sum (fun _ => 1) <= 256.

Definition half_kernel_blur (w : list Z) : Z := (symmetric_sum (fun j => w !!! j) + 128) / 256.

Lemma weight_nonneg j : normalised -> 0 <= half_kernel !!! j.
Proof.
  intros [Hh _]. by apply total_lookup_Forall.
Qed.

Lemma pairs_bounds n tap : normalised -> (forall j, byte (tap j)) ->
  0 <= pairs n tap <= 255 * pairs n (fun _ => 1).
Proof.
  intros Hn Ht. unfold byte in Ht. induction n as [|n IH]; cbn; [lia|].
  pose proof (weight_nonneg n Hn) as Hh. pose proof (Ht n) as H1. pose proof (Ht (KernelSize - n - 1)%nat) as H2.
  set (s := tap n + _) in *. assert (0 <= s <= 510) by (subst s; lia).
  assert (0 <= s * half_kernel !!! n <= 510 * half_kernel !!! n) by nia. lia.
Qed.

Lemma pairs_mono n m : normalised -> (n <= m)%nat -> pairs n (fun _ => 1) <= pairs m (fun _ => 1).
Proof. intros Hn. induction 1 as [|m _ IH]; cbn; [lia|]. pose proof (weight_nonneg m Hn). lia. Qed.

(** No prefix of the sum overflows 16 bits, with the rounding constant added. *)
Lemma prefix_bounds n tap : normalised -> (forall j, byte (tap j)) -> (n <= kMid)%nat ->
  0 <= tap kMid * half_kernel !!! kMid + pairs n tap <= 65280.
Proof.
  intros Hn Ht Hle. pose proof (pairs_bounds n tap Hn Ht). pose proof (pairs_mono n kMid Hn Hle).
  pose proof (weight_nonneg kMid Hn) as Hh. pose proof (Ht kMid) as Hm. unfold byte in Hm.
  assert (0 <= tap kMid * half_kernel !!! kMid <= 255 * half_kernel !!! kMid) by nia.
  destruct Hn as [_ Hs]. unfold symmetric_sum in Hs. lia.
Qed.

Lemma blur_byte tap : normalised -> (forall j, byte (tap j)) -> byte ((symmetric_sum tap + 128) / 256).
Proof.
  intros Hn Ht. pose proof (prefix_bounds kMid tap Hn Ht ltac:(lia)) as Hb. fold (symmetric_sum tap) in Hb.
  unfold byte. split; [apply Z.div_pos; lia|apply Z.div_lt_upper_bound; lia].
Qed.

(** An accumulator of sixteen bits, started at [start]. *)
Definition accumulator (start : Z) (tap : nat -> Z) (n : nat) : Z :=
  foldl (fun acc i => static_cast uint16
      (acc + static_cast uint16 (tap i + tap (KernelSize - i - 1)%nat) * half_kernel !!! i))
    (static_cast uint16 (start + tap kMid * half_kernel !!! kMid)) (seq 0 n).

Lemma accumulator_exact start tap n : normalised -> (forall j, byte (tap j)) -> 0 <= start <= 128 ->
  (n <= kMid)%nat ->
  accumulator start tap n = start + tap kMid * half_kernel !!! kMid + pairs n tap.
Proof.
  intros Hn Ht Hs. induction n as [|n IH]; intros Hle.
  - unfold accumulator. cbn [seq foldl pairs]. pose proof (prefix_bounds 0 tap Hn Ht Hle) as Hb. cbn [pairs] in Hb. rewrite cast_u16 by lia. lia.
  - unfold accumulator in *. rewrite seq_S, foldl_app, IH by lia. cbn [foldl Nat.add pairs].
    pose proof (prefix_bounds (S n) tap Hn Ht Hle) as Hb. cbn [pairs] in Hb.
    pose proof (Ht n) as H1. pose proof (Ht (KernelSize - n - 1)%nat) as H2. unfold byte in H1, H2.
    rewrite (cast_u16 (tap n + _)) by lia. rewrite cast_u16 by lia. lia.
Qed.

(** ** The two paths *)

Lemma scalar_path_blur w : normalised -> Forall byte w -> scalar_path w = half_kernel_blur w.
Proof.
  intros Hn Hbytes. pose proof (window_bytes w Hbytes) as Hw. unfold scalar_path, half_kernel_blur.
  assert (forall n, (n <= kMid)%nat -> foldl (fun acc i =>
      static_cast uint16 (acc + (w !!! i + w !!! (KernelSize - i - 1)%nat) * half_kernel !!! i))
    (static_cast uint16 (w !!! kMid * half_kernel !!! kMid)) (seq 0 n) = accumulator 0 (fun j => w !!! j) n) as Hfold.
  { intros n _. unfold accumulator. rewrite Z.add_0_l. generalize (static_cast uint16 (w !!! kMid * half_kernel !!! kMid)).
    induction (seq 0 n) as [|i l IH]; intros acc; [done|]. cbn [foldl].
    pose proof (Hw i) as H1. pose proof (Hw (KernelSize - i - 1)%nat) as H2. unfold byte in H1, H2.
    rewrite (cast_u16 (w !!! i + _)) by lia. apply IH. }
  cbv zeta. rewrite Hfold, accumulator_exact by (done || lia). fold (symmetric_sum (fun j => w !!! j)).
  pose proof (prefix_bounds kMid _ Hn Hw ltac:(lia)) as Hb. fold (symmetric_sum (fun j => w !!! j)) in Hb.
  pose proof (blur_byte _ Hn Hw) as Hr. unfold byte in Hr.
  unfold rounding_shift_right. change (Z.shiftl 1 (8 - 1)) with 128. rewrite cast_s32 by lia.
  rewrite Z.shiftr_div_pow2 by lia. change (2 ^ 8) with 256 in *. rewrite Z.add_0_l in *. fold (symmetric_sum (fun j => w !!! j)).
  rewrite cast_u16 by lia. rewrite cast_u8 by lia. done.
Qed.

(** The accumulator of a half of the lanes, that starts at lane [offset]. *)
Lemma accumulate_lanes half offset (src : list (list Z)) :
  (forall v f, lanes_of 16 v f -> lanes_of 8 (half v) (fun l => f (offset + l)%nat)) ->
  (forall j, (j < KernelSize)%nat -> length (src !!! j) = 16%nat) -> (0 < KernelSize)%nat ->
  lanes_of 8 (accumulate half src) (fun l => accumulator 128 (fun j => (src !!! j) !!! (offset + l)%nat) kMid).
Proof.
  intros Hhalf Hlen Hpos.
  assert (kMid < KernelSize)%nat as Hmid.
  { unfold kMid, get_half_kernel_size. pose proof (Nat.div2_decr KernelSize (KernelSize - 1) ltac:(lia)). lia. }
  assert (forall j, (j < KernelSize)%nat -> lanes_of 8 (half (src !!! j)) (fun l => (src !!! j) !!! (offset + l)%nat))
    as Htap by (intros j Hj; apply (Hhalf _ (fun l => (src !!! j) !!! l)), lanes_of_vector, Hlen, Hj).
  unfold accumulate, accumulator.
  apply (lanes_of_foldl 8 _ (fun l acc i => static_cast uint16 (acc + static_cast uint16
    ((src !!! i) !!! (offset + l)%nat + (src !!! (KernelSize - i - 1)%nat) !!! (offset + l)%nat) * half_kernel !!! i))).
  { intros i b g Hi%elem_of_seq Hb.
    apply (lanes_of_zip_with 8 _ _ _ _ (fun x y => static_cast uint16 (x + y))); [done|].
    apply (lanes_of_zip_with 8 _ _ _ _ Z.mul); [|apply lanes_of_dup].
    apply (lanes_of_zip_with 8 _ _ _ _ (fun x y => static_cast uint16 (x + y))); apply Htap; lia. }
  apply (lanes_of_zip_with 8 _ _ _ _ (fun x y => static_cast uint16 (x + y))); [apply lanes_of_dup|].
  apply (lanes_of_zip_with 8 _ _ _ _ Z.mul); [by apply Htap|apply lanes_of_dup].
Qed.

Lemma common_vector_path_blur vs i : normalised -> (0 < KernelSize)%nat -> length vs = KernelSize ->
  Forall (fun v => length v = 16%nat) vs -> (i < 16)%nat -> Forall byte (lane i vs) ->
  common_vector_path vs !!! i = half_kernel_blur (lane i vs).
Proof.
  intros Hn Hpos Hl Hlen Hi Hbytes. pose proof (window_bytes _ Hbytes) as Hv. unfold common_vector_path. rewrite vuzp2q_bytes.
  assert (forall j, (j < KernelSize)%nat -> length (vs !!! j) = 16%nat) as Hlens.
  { intros j Hj. apply (Forall_lookup_total_1 _ _ _ Hlen). lia. }
  assert (lanes_of 16 (map (fun x => x / 256) (accumulate vget_low vs ++ accumulate vget_high vs))
    (fun l => accumulator 128 (fun j => (vs !!! j) !!! l) kMid / 256)) as [_ Hlanes].
  { apply (lanes_of_map 16 _ _ (fun x => x / 256)), (lanes_of_app 8).
    - apply (accumulate_lanes vget_low 0); [intros v f; apply (lanes_of_low 8)|done|done].
    - apply (accumulate_lanes vget_high 8); [intros v f; apply (lanes_of_high 8)|done|done]. }
  rewrite Hlanes by done.
  assert (forall j, byte ((vs !!! j) !!! i)) as Hb by (intros j; rewrite <- lane_lookup; apply Hv).
  rewrite accumulator_exact by (done || lia). unfold half_kernel_blur, symmetric_sum.
  f_equal. rewrite lane_lookup. rewrite (pairs_ext kMid (fun j => lane i vs !!! j) (fun j => (vs !!! j) !!! i)); [lia|].
  intros j. apply lane_lookup.
Qed.

Lemma half_kernel_laws K : K = Z.of_nat KernelSize -> (0 < KernelSize)%nat -> normalised ->
  SeparableLaws K 16 16 half_kernel_filter byte (fun w b => b = half_kernel_blur w)
    (fun ws => half_kernel_blur (map half_kernel_blur ws)).
Proof.
  intros -> Hpos Hn. apply (functional_laws _ 16 16 half_kernel_filter byte half_kernel_blur half_kernel_blur byte);
    rewrite Nat2Z.id; cbn [half_kernel_filter vertical_vector_path vertical_scalar_path horizontal_vector_path
      horizontal_scalar_path].
  - intros w _ Hw. apply blur_byte; [done|by apply window_bytes].
  - intros w _ Hw. by apply scalar_path_blur.
  - intros vs i Hl Hlen Hi Hv. by apply common_vector_path_blur.
  - intros w _ Hw. by apply scalar_path_blur.
  - intros vs i Hl Hlen Hi Hv. by apply common_vector_path_blur.
Qed.
End half_kernel.
