(* ===== verification/SeparableFilter2D.v ===== *)
(** * The 5x5 separable filter with saturation

    [SeparableFilter2D<uint8_t, 5>] and [SeparableFilter2D<uint16_t, 5>] of
    [separable_filter_2d_neon.cpp], as one kernel over the width [w] of an element: the
    buffer has [2 w] bits and the horizontal accumulators [4 w].  The scalar vertical path
    stores the maximum of an element on overflow where the vector path saturates at the
    maximum of the buffer type; both make the final result saturate. *)

From S2P Require Import Prelude CTypes Utils Separable Vectors SeparableKernels.

(** [__builtin_add_overflow], [__builtin_mul_overflow] with a result of type [T]. *)
Definition checked (T : int_type) (x : Z) : option Z :=
  if (int_min T <=? x) && (x <=? int_max T) then Some x else None.

Lemma product_bounds a b x y : 0 <= x <= a -> 0 <= y <= b -> 0 <= x * y <= a * b.
Proof. intros. split; [apply Z.mul_nonneg_nonneg; lia|apply Z.mul_le_mono_nonneg; lia]. Qed.

(** ** Loops over the taps *)

Definition sum (p : nat -> Z) (l : list nat) : Z := foldr (fun i s => p i + s) 0 l.

Lemma sum_ext p q l : (forall i, p i = q i) -> sum p l = sum q l.
Proof. intros He. induction l as [|i l IH]; cbn; [done|]. unfold sum in IH. by rewrite IH, He. Qed.

Lemma sum_nonneg p l : (forall i, 0 <= p i) -> 0 <= sum p l.
Proof. intros Hp. induction l as [|i l IH]; cbn; [lia|]. unfold sum in IH. pose proof (Hp i). lia. Qed.

(** The dot product of five taps, as the loops form it. *)
Lemma dot_products k win : length k = 5%nat -> length win = 5%nat ->
  dot k win = win !!! 0%nat * k !!! 0%nat + sum (fun i => win !!! i * k !!! i) (seq 1 4).
Proof. intros Hk Hw. explode k. explode win. unfold dot, sum. cbn. lia. Qed.

(** A chain of checked additions is one checked sum; so is one that also checks the
    terms. *)
Lemma checked_in T x : int_min T = 0 -> 0 <= x -> checked T x = if x <=? int_max T then Some x else None.
Proof. intros HT Hx. unfold checked. rewrite HT. case_cmp; cbn; done || lia. Qed.

Lemma none_chain {A B} (f : A -> nat -> option B) (g : B -> A) l :
  foldl (fun acc i => match acc with None => None | Some acc => f (g acc) i end) None l = None.
Proof. by induction l. Qed.

Lemma checked_chain T (step : Z -> nat -> option Z) p acc l :
  int_min T = 0 -> (forall i, 0 <= p i) ->
  (forall a i, 0 <= a <= int_max T -> step a i = checked T (a + p i)) -> 0 <= acc ->
  foldl (fun acc i => match acc with None => None | Some acc => step acc i end) (checked T acc) l =
  checked T (acc + sum p l).
Proof.
  intros HT Hp Hstep. revert acc. induction l as [|i l IH]; intros acc Ha; cbn [foldl].
  - cbn. f_equal. lia.
  - cbn [sum foldr]. fold (sum p l). pose proof (Hp i). pose proof (sum_nonneg p l Hp).
    rewrite (checked_in T acc) by done. destruct (Z.leb_spec acc (int_max T)) as [Hle|Hgt].
    + rewrite Hstep, IH by lia. f_equal. lia.
    + rewrite (none_chain step id). rewrite checked_in by lia. case_cmp; done || lia.
Qed.

(** The same for saturating additions, and for additions that do not overflow. *)
Lemma saturating_chain m p acc l : (forall i, 0 <= p i) -> 0 <= acc <= m ->
  foldl (fun acc i => Z.min m (acc + p i)) acc l = Z.min m (acc + sum p l).
Proof.
  intros Hp Ha. assert (forall a, 0 <= a -> foldl (fun acc i => Z.min m (acc + p i)) (Z.min m a) l = Z.min m (a + sum p l))
    as Hc.
  { clear acc Ha. induction l as [|i l IH]; intros a Ha; cbn [foldl sum foldr]; [f_equal; lia|]. fold (sum p l).
    pose proof (Hp i). replace (Z.min m (Z.min m a + p i)) with (Z.min m (a + p i)) by lia.
    rewrite IH by lia. f_equal. lia. }
  rewrite <- Hc by lia. f_equal. lia.
Qed.

Lemma exact_chain T p acc l : (forall x, 0 <= x <= int_max T -> static_cast T x = x) ->
  (forall i, 0 <= p i) -> 0 <= acc -> acc + sum p l <= int_max T ->
  foldl (fun acc i => static_cast T (acc + p i)) acc l = acc + sum p l.
Proof.
  intros Hcast Hp. revert acc. induction l as [|i l IH]; intros acc Ha Hm; cbn [foldl sum foldr] in *; [lia|].
  fold (sum p l) in *. pose proof (Hp i). pose proof (sum_nonneg p l Hp). rewrite Hcast, IH by lia. lia.
Qed.

(** Equal, or both past [m]: kept by weighted sums. *)
Definition agree_below (m x y : Z) : Prop := x = y \/ m <= x /\ m <= y.

Lemma dot_agree m k bs ds : 0 <= m -> Forall (fun k => 0 <= k) k -> Forall2 (agree_below m) bs ds ->
  Forall (fun b => 0 <= b) bs -> Forall (fun d => 0 <= d) ds ->
  agree_below m (dot k bs) (dot k ds) /\ 0 <= dot k bs /\ 0 <= dot k ds.
Proof.
  intros Hm Hk. revert bs ds. unfold agree_below. induction Hk as [|a k Ha _ IH]; intros bs ds Hr Hb Hd.
  - destruct bs, ds; cbn; lia.
  - destruct Hr as [|b d bs ds Hbd Hr]; [cbn; lia|].
    apply Forall_cons in Hb as [Hb0 Hb], Hd as [Hd0 Hd]. specialize (IH bs ds Hr Hb Hd).
    unfold dot in *. cbn [zip_with foldr]. set (x := foldr _ _ _) in *. set (y := foldr _ _ (zip_with _ k ds)) in *.
    assert (0 <= a * b /\ 0 <= a * d) as [? ?] by (split; apply Z.mul_nonneg_nonneg; lia).
    assert (a * b = a * d \/ m <= a * b /\ m <= a * d) by (destruct (Z.eq_dec a 0) as [->|]; [lia|]; nia).
    lia.
Qed.

Section filter_2d.
(** [lanes] is the number of buffer elements in a vector. *)
Context (w : Z) (lanes : nat) (kernel_x kernel_y : list Z).

Definition SourceType := IntType false w.
Definition BufferType := IntType false (2 * w).
Definition WideType := IntType false (4 * w).

Definition filter_vertical_scalar (src : list Z) : Z :=
  let acc := static_cast BufferType (src !!! 0%nat * kernel_y !!! 0%nat) in
  let acc := foldl (fun acc i =>
    match acc with
    | None => None
    | Some acc =>
        let temp := static_cast BufferType (src !!! i * kernel_y !!! i) in
        checked BufferType (acc + temp)
    end) (Some acc) (seq 1 4) in
  match acc with None => int_max SourceType | Some acc => acc end.

(** A half of the lanes of the vertical and the horizontal vector path. *)
Definition vertical_half (half : list Z -> list Z) (src : list (list Z)) : list Z :=
  let kernel_y_u8 i := vdup_n (lanes + lanes) (kernel_y !!! i) in
  let acc := vmul BufferType (half (src !!! 0%nat)) (half (kernel_y_u8 0%nat)) in
  foldl (fun acc i => vqadd BufferType acc (vmul BufferType (half (src !!! i)) (half (kernel_y_u8 i))))
    acc (seq 1 4).

Definition filter_vertical_vector (src : list (list Z)) : list Z :=
  vertical_half vget_low src ++ vertical_half vget_high src.

Definition horizontal_half (half : list Z -> list Z) (src : list (list Z)) : list Z :=
  let kernel_x_u16 i := vdup_n lanes (kernel_x !!! i) in
  let acc := vmul WideType (half (src !!! 0%nat)) (half (kernel_x_u16 0%nat)) in
  foldl (fun acc i => vmla WideType acc (half (src !!! i)) (half (kernel_x_u16 i))) acc (seq 1 4).

Definition filter_horizontal_vector (src : list (list Z)) : list Z :=
  let acc_l := horizontal_half vget_low src in
  let acc_h := horizontal_half vget_high src in
  vqmovn SourceType (vcombine (vqmovn BufferType acc_l) (vqmovn BufferType acc_h)).

Definition filter_horizontal_scalar (src : list Z) : Z :=
  let acc := checked SourceType (src !!! 0%nat * kernel_x !!! 0%nat) in
  let acc := foldl (fun acc i =>
    match acc with
    | None => None
    | Some acc =>
        match checked SourceType (src !!! i * kernel_x !!! i) with
        | None => None
        | Some temp => checked SourceType (acc + temp)
        end
    end) acc (seq 1 4) in
  match acc with None => int_max SourceType | Some acc => acc end.

Definition separable_filter_2d_filter : FilterType Z Z Z := {|
  vertical_vector_path := filter_vertical_vector;
  vertical_scalar_path := filter_vertical_scalar;
  horizontal_vector_path := filter_horizontal_vector;
  horizontal_scalar_path := filter_horizontal_scalar
|}.

(** ** The saturated convolution *)

Definition element (x : Z) : Prop := 0 <= x <= int_max SourceType.

(** A buffer element stands for the sum of its column, or both are past the largest
    element. *)
Definition stands_for (win : list Z) (b : Z) : Prop :=
  0 <= b <= int_max BufferType /\
  (b = dot kernel_y win \/ int_max SourceType <= b /\ int_max SourceType <= dot kernel_y win).

Definition saturated_convolution (ws : list (list Z)) : Z :=
  Z.min (int_max SourceType) (dot kernel_x (map (dot kernel_y) ws)).

Context (half_lanes : nat).
Hypothesis width_cases : w = 8 \/ w = 16.
Hypothesis lanes_even : (lanes = half_lanes + half_lanes)%nat.
Hypothesis kernel_x_ok : length kernel_x = 5%nat /\ Forall element kernel_x.
Hypothesis kernel_y_ok : length kernel_y = 5%nat /\ Forall element kernel_y.

(** *** The sizes involved *)

Local Abbreviation M := (int_max SourceType).
Local Abbreviation Bm := (int_max BufferType).

Lemma sizes : 1 <= M /\ M * M <= Bm /\ 5 * (Bm * M) <= int_max WideType /\ M <= Bm.
Proof. unfold SourceType, BufferType, WideType. destruct width_cases as [->| ->]; cbn; lia. Qed.

Lemma unsigned_cast k x : k = 2 \/ k = 4 -> 0 <= x <= int_max (IntType false (k * w)) ->
  static_cast (IntType false (k * w)) x = x.
Proof.
  intros Hk Hx. apply static_cast_id; [cbn; destruct width_cases, Hk; subst; lia|]. exact Hx.
Qed.

Lemma buffer_cast x : 0 <= x <= Bm -> static_cast BufferType x = x.
Proof. apply (unsigned_cast 2). by left. Qed.
Lemma wide_cast x : 0 <= x <= int_max WideType -> static_cast WideType x = x.
Proof. apply (unsigned_cast 4). by right. Qed.

Lemma element_lookup l i : Forall element l -> 0 <= l !!! i <= M.
Proof. intros Hl. apply (total_lookup_Forall element); [done|]. pose proof sizes. unfold element. change (@inhabitant Z _) with 1. lia. Qed.

Lemma source_product src i : Forall element src -> 0 <= src !!! i * kernel_y !!! i <= Bm.
Proof.
  intros Hs. pose proof (element_lookup src i Hs). pose proof (element_lookup kernel_y i (proj2 kernel_y_ok)).
  pose proof sizes. pose proof (product_bounds M M (src !!! i) (kernel_y !!! i)). lia.
Qed.

Lemma buffer_product b i : 0 <= b <= Bm -> 0 <= b * kernel_x !!! i <= Bm * M.
Proof. intros Hb. apply product_bounds; [done|]. by apply element_lookup, kernel_x_ok. Qed.

(** *** The vertical pass *)

Lemma dot_nonneg win : length win = 5%nat -> Forall element win -> 0 <= dot kernel_y win.
Proof.
  intros Hl Hw. rewrite dot_products by (apply kernel_y_ok || done).
  pose proof (sum_nonneg (fun i => win !!! i * kernel_y !!! i) (seq 1 4) ltac:(intros; by apply source_product)).
  pose proof (source_product win 0 Hw). lia.
Qed.

Lemma filter_vertical_scalar_ok win : length win = 5%nat -> Forall element win ->
  stands_for win (filter_vertical_scalar win).
Proof.
  intros Hl Hw. unfold stands_for, filter_vertical_scalar.
  rewrite (dot_products kernel_y win) by (apply kernel_y_ok || done).
  pose proof (source_product win 0 Hw) as H0. rewrite buffer_cast by done. cbv zeta.
  assert (Some (win !!! 0%nat * kernel_y !!! 0%nat) = checked BufferType (win !!! 0%nat * kernel_y !!! 0%nat)) as ->
    by (rewrite checked_in by (done || lia); case_cmp; done || lia).
  rewrite (checked_chain BufferType _ (fun i => win !!! i * kernel_y !!! i)); [|done| | |lia].
  2: { intros i. by apply source_product. }
  2: { intros a i _. by rewrite buffer_cast by by apply source_product. }
  pose proof (sum_nonneg (fun i => win !!! i * kernel_y !!! i) (seq 1 4) ltac:(intros; by apply source_product)).
  pose proof sizes. rewrite checked_in by (done || lia). case_cmp; lia.
Qed.

Lemma half_taps half offset n (src : list (list Z)) i :
  (forall v f, lanes_of (n + n) v f -> lanes_of n (half v) (fun l => f (offset + l)%nat)) ->
  length (src !!! i) = (n + n)%nat -> lanes_of n (half (src !!! i)) (fun l => (src !!! i) !!! (offset + l)%nat).
Proof. intros Hhalf Hl. apply (Hhalf _ (fun l => (src !!! i) !!! l)). by apply lanes_of_vector. Qed.

Lemma vertical_half_lanes half offset (src : list (list Z)) :
  (forall v f, lanes_of (lanes + lanes) v f -> lanes_of lanes (half v) (fun l => f (offset + l)%nat)) ->
  (forall i, (i < 5)%nat -> length (src !!! i) = (lanes + lanes)%nat) ->
  lanes_of lanes (vertical_half half src) (fun l =>
    foldl (fun acc i => Z.min Bm (acc + static_cast BufferType ((src !!! i) !!! (offset + l)%nat * kernel_y !!! i)))
      (static_cast BufferType ((src !!! 0%nat) !!! (offset + l)%nat * kernel_y !!! 0%nat)) (seq 1 4)).
Proof.
  intros Hhalf Hlen. unfold vertical_half.
  assert (forall i, lanes_of lanes (half (vdup_n (lanes + lanes) (kernel_y !!! i))) (fun _ => kernel_y !!! i)) as Hdup
    by (intros i; apply (Hhalf _ (fun _ => kernel_y !!! i)), lanes_of_dup).
  assert (forall i, (i < 5)%nat -> lanes_of lanes (vmul BufferType (half (src !!! i))
      (half (vdup_n (lanes + lanes) (kernel_y !!! i))))
    (fun l => static_cast BufferType ((src !!! i) !!! (offset + l)%nat * kernel_y !!! i))) as Hmul.
  { intros i Hi. apply (lanes_of_zip_with lanes _ _ _ _ (fun x y => static_cast BufferType (x * y))); [|apply Hdup].
    apply half_taps; [done|by apply Hlen]. }
  apply (lanes_of_foldl lanes _ (fun l acc i =>
    Z.min Bm (acc + static_cast BufferType ((src !!! i) !!! (offset + l)%nat * kernel_y !!! i)))); [|apply Hmul; lia].
  intros i b g Hi%elem_of_seq Hb. apply (lanes_of_zip_with lanes _ _ _ _ (fun x y => Z.min Bm (x + y))); [done|].
  apply Hmul. lia.
Qed.

Lemma vector_lengths vs n i : length vs = 5%nat -> Forall (fun v : list Z => length v = n) vs ->
  (i < 5)%nat -> length (vs !!! i) = n.
Proof. intros Hl Hlen Hi. apply (Forall_lookup_total_1 _ _ _ Hlen). lia. Qed.

Lemma filter_vertical_vector_ok vs i : length vs = 5%nat ->
  Forall (fun v => length v = (lanes + lanes)%nat) vs -> (i < lanes + lanes)%nat -> Forall element (lane i vs) ->
  stands_for (lane i vs) (filter_vertical_vector vs !!! i).
Proof.
  intros Hl Hlen Hi Hv. unfold filter_vertical_vector.
  pose proof (fun j => vector_lengths vs _ j Hl Hlen) as Hlens.
  destruct (lanes_of_app lanes _ _ (fun l =>
    foldl (fun acc i => Z.min Bm (acc + static_cast BufferType ((vs !!! i) !!! l * kernel_y !!! i)))
      (static_cast BufferType ((vs !!! 0%nat) !!! l * kernel_y !!! 0%nat)) (seq 1 4))
    (vertical_half_lanes vget_low 0 vs (lanes_of_low lanes) Hlens)
    (vertical_half_lanes vget_high lanes vs (lanes_of_high lanes) Hlens)) as [_ ->]; [|done].
  set (win := lane i vs) in *.
  assert (length win = 5%nat) as Hwl by (unfold win, lane; by rewrite length_map).
  assert (forall j, static_cast BufferType ((vs !!! j) !!! i * kernel_y !!! j) = win !!! j * kernel_y !!! j) as Hcast.
  { intros j. rewrite <- lane_lookup. by apply buffer_cast, source_product. }
  rewrite saturating_chain by (intros; rewrite Hcast; by apply source_product).
  rewrite (sum_ext _ _ _ Hcast), Hcast, <- dot_products by (apply kernel_y_ok || done).
  pose proof (dot_nonneg win Hwl Hv). pose proof sizes. unfold stands_for. lia.
Qed.

(** *** The horizontal pass *)

Lemma buffer_sum bs i : Forall (fun b => 0 <= b <= Bm) bs -> 0 <= bs !!! i * kernel_x !!! i <= Bm * M.
Proof.
  intros Hb. apply buffer_product, (total_lookup_Forall (fun b => 0 <= b <= Bm)); [done|].
  pose proof sizes. change (@inhabitant Z _) with 1. lia.
Qed.

Lemma filter_horizontal_scalar_ok bs : length bs = 5%nat -> Forall (fun b => 0 <= b <= Bm) bs ->
  filter_horizontal_scalar bs = Z.min M (dot kernel_x bs).
Proof.
  intros Hl Hb. unfold filter_horizontal_scalar. pose proof (buffer_sum bs 0 Hb). cbv zeta.
  rewrite (checked_chain SourceType _ (fun i => bs !!! i * kernel_x !!! i)); [|done| | |lia].
  - rewrite <- dot_products by (apply kernel_x_ok || done). rewrite checked_in; [case_cmp; lia|done|].
    rewrite dot_products by (apply kernel_x_ok || done).
    pose proof (sum_nonneg (fun i => bs !!! i * kernel_x !!! i) (seq 1 4) ltac:(intros; by apply buffer_sum)). lia.
  - intros i. by apply buffer_sum.
  - intros a i Ha. pose proof (buffer_sum bs i Hb). rewrite (checked_in _ (bs !!! i * _)) by (done || lia).
    case_cmp; [done|]. rewrite checked_in by (done || lia). case_cmp; done || lia.
Qed.

Lemma horizontal_half_lanes half offset (src : list (list Z)) :
  (forall v f, lanes_of (half_lanes + half_lanes) v f -> lanes_of half_lanes (half v) (fun l => f (offset + l)%nat)) ->
  (forall i, (i < 5)%nat -> length (src !!! i) = lanes) ->
  lanes_of half_lanes (horizontal_half half src) (fun l =>
    foldl (fun acc i => static_cast WideType (acc + (src !!! i) !!! (offset + l)%nat * kernel_x !!! i))
      (static_cast WideType ((src !!! 0%nat) !!! (offset + l)%nat * kernel_x !!! 0%nat)) (seq 1 4)).
Proof.
  intros Hhalf Hlen. unfold horizontal_half. rewrite lanes_even in *.
  assert (forall i, lanes_of half_lanes (half (vdup_n (half_lanes + half_lanes) (kernel_x !!! i)))
    (fun _ => kernel_x !!! i)) as Hdup
    by (intros i; apply (Hhalf _ (fun _ => kernel_x !!! i)), lanes_of_dup).
  apply (lanes_of_foldl half_lanes _ (fun l acc i =>
    static_cast WideType (acc + (src !!! i) !!! (offset + l)%nat * kernel_x !!! i))).
  - intros i b g Hi%elem_of_seq Hb.
    apply (lanes_of_zip_with half_lanes _ _ _ _ (fun x y => static_cast WideType (x + y))); [done|].
    apply (lanes_of_zip_with half_lanes _ _ _ _ Z.mul); [|apply Hdup]. apply half_taps; [done|apply Hlen; lia].
  - apply (lanes_of_zip_with half_lanes _ _ _ _ (fun x y => static_cast WideType (x * y))); [|apply Hdup].
    apply half_taps; [done|apply Hlen; lia].
Qed.

Lemma filter_horizontal_vector_ok vs i : length vs = 5%nat -> Forall (fun v => length v = lanes) vs ->
  (i < lanes)%nat -> Forall (fun b => 0 <= b <= Bm) (lane i vs) ->
  filter_horizontal_vector vs !!! i = Z.min M (dot kernel_x (lane i vs)).
Proof.
  intros Hl Hlen Hi Hb. unfold filter_horizontal_vector, vqmovn, vcombine. rewrite <- map_app.
  pose proof (fun j => vector_lengths vs _ j Hl Hlen) as Hlens.
  destruct (lanes_of_map lanes _ _ (Z.min M) (lanes_of_map lanes _ _ (Z.min Bm)
    (eq_ind _ (fun n => lanes_of n _ _) (lanes_of_app half_lanes _ _ (fun l =>
      foldl (fun acc i => static_cast WideType (acc + (vs !!! i) !!! l * kernel_x !!! i))
        (static_cast WideType ((vs !!! 0%nat) !!! l * kernel_x !!! 0%nat)) (seq 1 4))
    (horizontal_half_lanes vget_low 0 vs (lanes_of_low half_lanes) Hlens)
    (horizontal_half_lanes vget_high half_lanes vs (lanes_of_high half_lanes) Hlens)) _ (eq_sym lanes_even))))
    as [_ ->]; [|done].
  set (bs := lane i vs) in *. assert (length bs = 5%nat) as Hbl by (unfold bs, lane; by rewrite length_map).
  assert (forall j, (vs !!! j) !!! i * kernel_x !!! j = bs !!! j * kernel_x !!! j) as Hj
    by (intros j; by rewrite <- lane_lookup).
  pose proof (fun j => buffer_sum bs j Hb) as Hp. pose proof sizes as Hs.
  assert (bs !!! 0%nat * kernel_x !!! 0%nat + sum (fun j => bs !!! j * kernel_x !!! j) (seq 1 4) <= int_max WideType)
    as Hsum.
  { pose proof (Hp 0%nat). pose proof (Hp 1%nat). pose proof (Hp 2%nat). pose proof (Hp 3%nat). pose proof (Hp 4%nat).
    cbn [sum foldr seq]. lia. }
  rewrite Hj, wide_cast by (pose proof (sum_nonneg _ (seq 1 4) (fun j => proj1 (Hp j))); specialize (Hp 0%nat); lia).
  rewrite (exact_chain WideType (fun j => (vs !!! j) !!! i * kernel_x !!! j)).
  - rewrite (sum_ext _ _ _ Hj), <- dot_products by (apply kernel_x_ok || done). lia.
  - apply wide_cast.
  - intros j. rewrite Hj. apply Hp.
  - apply Hp.
  - by rewrite (sum_ext _ _ _ Hj).
Qed.

(** *** The laws *)

Lemma stands_for_windows ws bs : Forall2 stands_for ws bs ->
  Forall (fun w => length w = 5%nat /\ Forall element w) ws ->
  Z.min M (dot kernel_x bs) = saturated_convolution ws /\ Forall (fun b => 0 <= b <= Bm) bs.
Proof.
  intros Hr Hws. assert (Forall2 (agree_below M) bs (map (dot kernel_y) ws)) as Ha.
  { apply Forall2_fmap_r, Forall2_flip. eapply Forall2_impl; [exact Hr|]. intros win b [_ Hb]. exact Hb. }
  assert (Forall (fun b => 0 <= b <= Bm) bs) as Hb.
  { clear Ha Hws. induction Hr as [|win b ws bs [Hb _] _ IH]; by constructor. }
  split; [|done]. pose proof sizes.
  destruct (dot_agree M kernel_x bs (map (dot kernel_y) ws)) as [Hd _]; [lia| |exact Ha| | |].
  - eapply Forall_impl; [apply kernel_x_ok|]. unfold element. lia.
  - eapply Forall_impl; [exact Hb|]. cbn. lia.
  - apply Forall_fmap. eapply Forall_impl; [exact Hws|]. intros win [Hl Hw]. by apply dot_nonneg.
  - unfold saturated_convolution, agree_below in *. lia.
Qed.

Lemma separable_filter_2d_laws :
  SeparableLaws 5 (Z.of_nat (lanes + lanes)) (Z.of_nat lanes) separable_filter_2d_filter element stands_for
    saturated_convolution.
Proof.
  constructor; rewrite ?Nat2Z.id; change (Z.to_nat 5) with 5%nat;
    cbn [separable_filter_2d_filter vertical_vector_path vertical_scalar_path horizontal_vector_path horizontal_scalar_path].
  - exact filter_vertical_scalar_ok.
  - intros vs i Hl Hlen Hv Hi. apply filter_vertical_vector_ok; [done|done|done|].
    apply (lane_valid (Z.of_nat (lanes + lanes))); rewrite ?Nat2Z.id; done.
  - intros ws bs Hl Hr Hws. destruct (stands_for_windows ws bs Hr Hws) as [<- Hb].
    apply filter_horizontal_scalar_ok; [|done]. by rewrite <- (Forall2_length _ _ _ Hr).
  - intros vs i ws Hl Hlen Hi Hr Hws. destruct (stands_for_windows ws _ Hr Hws) as [<- Hb].
    apply filter_horizontal_vector_ok; [|done|done|done].
    rewrite <- Hl, (Forall2_length _ _ _ Hr). unfold lane. by rewrite length_map.
Qed.

End filter_2d.
