(* ===== verification/SeparableApi.v ===== *)
(** * Sobel filters and the 5x5 separable filter

    The operations of [sobel.h], [sobel_neon.cpp], [sobel_api.cpp] and of
    [separable_filter_2d.h], [separable_filter_2d_neon.cpp], [separable_filter_2d_api.cpp]:
    validation, the stripe that allocates a workspace and runs it, and the call over the
    whole image.  The source and the destination are images of their own: the operations
    are not supported in place. *)

From S2P Require Import Prelude CTypes Utils Border FixedBorders Filter2D Separable Vectors SeparableKernels.
From S2P Require Import SeparableFilter2D.

(** ** A stripe of a separable filter *)

(** [create], then [process]: the tail of every stripe function.  [buffer] is what the
    allocation holds. *)
Definition separable_stripe (k : fixed_size) (F : FilterType Z Z Z) (source_lanes buffer_lanes intermediate_size : Z)
    (malloc : Z -> Z) (buffer : Z * Z -> Z) (channels width height : Z) (border_type : FixedBorderType)
    (y_begin y_end : Z) (src dst : Z * Z -> Z) : option (kleidicv_error_t * (Z * Z -> Z)) :=
  match create malloc width channels intermediate_size with
  | KLEIDICV_OK =>
      match process (size_of k) F source_lanes buffer_lanes channels width height border_type src y_begin y_end
        buffer dst with
      | Some (_, dst) => Some (KLEIDICV_OK, dst)
      | None => None
      end
  | err => Some (err, dst)
  end.

(** The rows [y_begin, y_end) of [dst'] are filtered, and the rest is that of [dst]. *)
Definition filtered_rows (k : fixed_size) (result : list (list Z) -> Z) (channels width height : Z)
    (border_type : FixedBorderType) (y_begin y_end : Z) (src dst dst' : Z * Z -> Z) : Prop :=
  forall y e, dst' (y, e) =
    if (y_begin <=? y) && (y <? y_end) && (0 <=? e) && (e <? width * channels)
    then separable_reference (size_of k) result channels width height border_type src (y, e)
    else dst (y, e).

(** What a call promises: on accepted arguments [KLEIDICV_OK] and the image that [ok]
    describes, or an allocation error; otherwise another error; and an error leaves the
    image alone. *)
Definition call_outcome (accepted : Prop) (allocated : bool) (ok : (Z * Z -> Z) -> Prop) (dst : Z * Z -> Z)
    (call : option (kleidicv_error_t * (Z * Z -> Z))) : Prop :=
  exists err dst', call = Some (err, dst') /\
    (accepted /\ allocated = true /\ err = KLEIDICV_OK /\ ok dst' \/
     accepted /\ allocated = false /\ err = KLEIDICV_ERROR_ALLOCATION /\ dst' = dst \/
     ~ accepted /\ err <> KLEIDICV_OK /\ dst' = dst).

Definition allocated (malloc : Z -> Z) (width channels intermediate_size : Z) : bool :=
  negb (malloc (buffer_rows_stride width channels intermediate_size) =? 0).

Lemma separable_stripe_correct k F source_lanes buffer_lanes intermediate_size valid vertical result
    malloc buffer channels width height bt y_begin y_end (src dst : Z * Z -> Z) (accepted : Prop) :
  SeparableLaws (size_of k) source_lanes buffer_lanes F valid vertical result ->
  (forall a, valid (src a)) ->
  1 <= source_lanes <= 16 -> 1 <= buffer_lanes < 2 ^ 61 -> 1 <= channels <= 4 ->
  size_of k - 1 <= width -> size_of k - 1 <= height -> width * height <= KLEIDICV_MAX_IMAGE_PIXELS ->
  0 <= y_begin <= y_end -> y_end <= height -> accepted ->
  call_outcome accepted (allocated malloc width channels intermediate_size)
    (filtered_rows k result channels width height bt y_begin y_end src dst) dst
    (separable_stripe k F source_lanes buffer_lanes intermediate_size malloc buffer channels width height bt
      y_begin y_end src dst).
Proof.
  intros Hlaws Hv Hs Hb Hc Hw Hh Hsz Hy Hye Ha. unfold separable_stripe, create, allocated.
  unfold KLEIDICV_MAX_IMAGE_PIXELS in Hsz. change (Z.shiftl 1 48 - 1) with (2 ^ 48 - 1) in Hsz.
  assert (2 <= size_of k - 1) by (destruct k; cbn; lia).
  assert (width < 2 ^ 48 /\ height < 2 ^ 48) as [? ?] by nia.
  destruct (Z.eqb_spec (malloc (buffer_rows_stride width channels intermediate_size)) 0) as [Hz|Hz].
  - exists KLEIDICV_ERROR_ALLOCATION, dst. split; [done|]. right. by left.
  - destruct (process_writes (size_of k) F source_lanes buffer_lanes valid vertical result Hlaws
      channels width height bt src) with (y_begin := y_begin) (y_end := y_end) (buffer := buffer) (dst := dst)
      as (b & d & Heq & Hd); try done; try lia.
    { destruct k; done. } { nia. }
    rewrite Heq. exists KLEIDICV_OK, d. split; [done|]. left. split_and!; [done..|]. intros y e. exact (Hd (y, e)).
Qed.

(** A validation that fails. *)
Lemma rejected_call (accepted : Prop) allocated ok dst err :
  ~ accepted -> err <> KLEIDICV_OK -> call_outcome accepted allocated ok dst (Some (err, dst)).
Proof. intros Ha He. exists err, dst. split; [done|]. by right; right. Qed.

(** ** Sobel *)

Module Sobel.

Definition sobel_validate (src src_stride dst dst_stride width height channels : Z) : kleidicv_error_t :=
  if (width <? 2) || (height <? 2) then KLEIDICV_ERROR_NOT_IMPLEMENTED
  else
    check_pointer_and_stride 1 src src_stride height ?>
    check_pointer_and_stride 2 dst dst_stride height ?>
    check_image_size width height ?>
    if KLEIDICV_MAXIMUM_CHANNEL_COUNT <? channels then KLEIDICV_ERROR_NOT_IMPLEMENTED else KLEIDICV_OK.

(** [sobel_3x3_horizontal_stripe_s16_u8] and [sobel_3x3_vertical_stripe_s16_u8]. *)
Definition sobel_3x3_horizontal_stripe_s16_u8 malloc buffer channels width height y_begin y_end src dst :=
  separable_stripe K3 HorizontalSobel3x3.filter 16 8 2 malloc buffer channels width height REPLICATE
    y_begin y_end src dst.
Definition sobel_3x3_vertical_stripe_s16_u8 malloc buffer channels width height y_begin y_end src dst :=
  separable_stripe K3 VerticalSobel3x3.filter 16 8 2 malloc buffer channels width height REPLICATE
    y_begin y_end src dst.

(** [sobel_3x3_s16_u8<StripeFunction>]. *)
Definition sobel_3x3_s16_u8
    (StripeFunction : Z -> Z -> Z -> Z -> Z -> (Z * Z -> Z) -> (Z * Z -> Z) ->
      option (kleidicv_error_t * (Z * Z -> Z)))
    (src src_stride dst dst_stride width height channels : Z) (src_image dst_image : Z * Z -> Z)
    : option (kleidicv_error_t * (Z * Z -> Z)) :=
  match sobel_validate src src_stride dst dst_stride width height channels with
  | KLEIDICV_OK => StripeFunction channels width height 0 height src_image dst_image
  | err => Some (err, dst_image)
  end.

Definition sobel_accepts (src dst dst_stride width height channels : Z) : Prop :=
  2 <= width /\ 2 <= height /\ src <> 0 /\ dst <> 0 /\ is_misaligned 2 dst_stride = false /\
  width * height <= KLEIDICV_MAX_IMAGE_PIXELS /\ channels <= KLEIDICV_MAXIMUM_CHANNEL_COUNT.

Lemma sobel_validate_accepts src ss dst ds width height channels : 0 <= width -> 0 <= height ->
  sobel_validate src ss dst ds width height channels = KLEIDICV_OK <->
  sobel_accepts src dst ds width height channels.
Proof.
  intros Hw Hh. unfold sobel_validate, sobel_accepts.
  destruct (Z.ltb_spec width 2); [split; [done|lia]|].
  destruct (Z.ltb_spec height 2); [split; [done|lia]|]. cbn [orb].
  rewrite !guard_error_ok, !check_pointer_and_stride_ok, check_image_size_iff by done.
  destruct (Z.ltb_spec KLEIDICV_MAXIMUM_CHANNEL_COUNT channels).
  - split; [intuition discriminate|lia].
  - split.
    + intros ([Hs _] & [Hd Ha] & Hz & _). split_and!; try done; try lia. apply Ha; [lia|done].
    + intros (_ & _ & Hs & Hd & Ha & Hz & _). split_and!; done.
Qed.

Lemma sobel_run F weights_y weights_x malloc buffer src ss dst ds width height channels src_image dst_image :
  SeparableLaws 3 16 8 F byte (fun w b => b = dot weights_y w) (fun ws => dot weights_x (map (dot weights_y) ws)) ->
  0 <= width -> 0 <= height -> 1 <= channels -> (forall a, byte (src_image a)) ->
  call_outcome (sobel_accepts src dst ds width height channels) (allocated malloc width channels 2)
    (filtered_rows K3 (fun ws => dot weights_x (map (dot weights_y) ws)) channels width height REPLICATE 0 height
      src_image dst_image) dst_image
    (sobel_3x3_s16_u8 (fun channels width height => separable_stripe K3 F 16 8 2 malloc buffer channels width height
      REPLICATE) src ss dst ds width height channels src_image dst_image).
Proof.
  intros Hlaws Hw Hh Hc Hv. unfold sobel_3x3_s16_u8.
  pose proof (sobel_validate_accepts src ss dst ds width height channels Hw Hh) as Hiff.
  destruct (sobel_validate src ss dst ds width height channels); try by (apply rejected_call; [intros Ha%Hiff|]).
  pose proof (proj1 Hiff eq_refl) as Ha. pose proof Ha as (? & ? & _ & _ & _ & ? & Hmax).
  unfold KLEIDICV_MAXIMUM_CHANNEL_COUNT in Hmax.
  apply (separable_stripe_correct K3 F 16 8 2 _ _ _ _ _ _ _ _ _ _ _ _ _ _ Hlaws); cbn [size_of]; done || lia.
Qed.

(** C8: for byte images [sobel_3x3_horizontal_s16_u8] and [sobel_3x3_vertical_s16_u8] accept
    exactly the arguments that pass their checks; every element of the result is then the exact 3x3
    Sobel derivative of the image extended by replication, without overflow of the 16-bit
    buffer or output, whatever [malloc] returned in the buffer; a null buffer is an
    allocation error, and every error leaves the output alone. *)
Theorem sobel_3x3_correct malloc buffer src ss dst ds width height channels (src_image dst_image : Z * Z -> Z) :
  0 <= width -> 0 <= height -> 1 <= channels -> (forall a, byte (src_image a)) ->
  let outcome result := call_outcome (sobel_accepts src dst ds width height channels)
    (allocated malloc width channels 2)
    (filtered_rows K3 result channels width height REPLICATE 0 height src_image dst_image) dst_image in
  outcome (fun ws => dot [-1; 0; 1] (map (dot [1; 2; 1]) ws))
    (sobel_3x3_s16_u8 (sobel_3x3_horizontal_stripe_s16_u8 malloc buffer) src ss dst ds width height channels
      src_image dst_image) /\
  outcome (fun ws => dot [1; 2; 1] (map (dot [-1; 0; 1]) ws))
    (sobel_3x3_s16_u8 (sobel_3x3_vertical_stripe_s16_u8 malloc buffer) src ss dst ds width height channels
      src_image dst_image).
Proof.
  intros Hw Hh Hc Hv outcome. split.
  - apply (sobel_run HorizontalSobel3x3.filter [1; 2; 1] [-1; 0; 1]); auto using horizontal_sobel_laws.
  - apply (sobel_run VerticalSobel3x3.filter [-1; 0; 1] [1; 2; 1]); auto using vertical_sobel_laws.
Qed.

(** A diagonal edge: the derivative at one pixel. *)
Lemma sobel_3x3_correct_witness :
  exists dst', sobel_3x3_s16_u8 (sobel_3x3_horizontal_stripe_s16_u8 (fun _ => 4096) (fun _ => 7))
      4096 20 8192 40 20 4 1 (fun a => if a.1 <? a.2 then 255 else 0) (fun _ => 0) = Some (KLEIDICV_OK, dst') /\ dst' (1, 1) = 765.
Proof.
  destruct (sobel_3x3_correct (fun _ => 4096) (fun _ => 7) 4096 20 8192 40 20 4 1
    (fun a => if a.1 <? a.2 then 255 else 0) (fun _ => 0)) as [(err & dst' & Heq & Hcase) _].
  - lia.
  - lia.
  - lia.
  - intros [y e]. unfold byte. cbn. destruct (y <? e); lia.
  - destruct Hcase as [(_ & _ & -> & Hd)|[(_ & Hf & _)|(Hn & _)]].
    + exists dst'. split; [exact Heq|]. rewrite Hd. vm_compute. reflexivity.
    + vm_compute in Hf. discriminate.
    + exfalso. apply Hn. unfold sobel_accepts. split_and!; done.
Defined.

End Sobel.

(** ** The 5x5 separable filter *)

Module SeparableFilter2DApi.

(** [T] is [uint8_t] ([w = 8]) or [uint16_t] ([w = 16]); [sizeof] its size and alignment. *)
Definition separable_filter_2d_checks (sizeof src src_stride dst dst_stride width height kernel_x kernel_y : Z)
    : kleidicv_error_t :=
  check_pointer_and_stride sizeof src src_stride height ?>
  check_pointer_and_stride sizeof dst dst_stride height ?>
  check_image_size width height ?>
  if any_null [kernel_x; kernel_y] then KLEIDICV_ERROR_NULL_POINTER else KLEIDICV_OK.

Definition separable_filter_2d_validate
    (sizeof src src_stride dst dst_stride width height channels kernel_x kernel_width kernel_y kernel_height : Z)
    (border_type : kleidicv_border_type_t) : kleidicv_error_t * FixedBorderType :=
  if negb (kernel_width =? 5) || negb (kernel_height =? 5) then (KLEIDICV_ERROR_NOT_IMPLEMENTED, REPLICATE)
  else if (width <? kernel_width ⊟ 1) || (height <? kernel_width ⊟ 1)
  then (KLEIDICV_ERROR_NOT_IMPLEMENTED, REPLICATE)
  else match get_fixed_border_type border_type with
  | None => (KLEIDICV_ERROR_NOT_IMPLEMENTED, REPLICATE)
  | Some fixed_border_type =>
      match separable_filter_2d_checks sizeof src src_stride dst dst_stride width height kernel_x kernel_y with
      | KLEIDICV_OK =>
          if KLEIDICV_MAXIMUM_CHANNEL_COUNT <? channels then (KLEIDICV_ERROR_NOT_IMPLEMENTED, REPLICATE)
          else (KLEIDICV_OK, fixed_border_type)
      | check_error => (check_error, REPLICATE)
      end
  end.

(** [separable_filter_2d_stripe<T>]: a vector holds [16 / sizeof] elements, and half as
    many of the buffer. *)
Definition separable_filter_2d_stripe (sizeof : Z) malloc buffer (channels width height : Z)
    (kernel_x kernel_y : list Z) (fixed_border_type : FixedBorderType) (y_begin y_end : Z) src dst :=
  let lanes := Z.to_nat (8 / sizeof) in
  separable_stripe K5 (separable_filter_2d_filter (8 * sizeof) lanes kernel_x kernel_y)
    (16 / sizeof) (8 / sizeof) (2 * sizeof) malloc buffer channels width height fixed_border_type y_begin y_end src dst.

(** [separable_filter_2d]: the addresses of the kernels and what they hold. *)
Definition separable_filter_2d (sizeof : Z) malloc buffer (src src_stride dst dst_stride width height channels : Z)
    (kernel_x : Z * list Z) (kernel_width : Z) (kernel_y : Z * list Z) (kernel_height : Z)
    (border_type : kleidicv_border_type_t) (src_image dst_image : Z * Z -> Z) :=
  match separable_filter_2d_validate sizeof src src_stride dst dst_stride width height channels
    kernel_x.1 kernel_width kernel_y.1 kernel_height border_type with
  | (KLEIDICV_OK, fixed_border_type) =>
      separable_filter_2d_stripe sizeof malloc buffer channels width height kernel_x.2 kernel_y.2 fixed_border_type
        0 height src_image dst_image
  | (error, _) => Some (error, dst_image)
  end.

Definition separable_filter_2d_accepts (sizeof src src_stride dst dst_stride width height channels : Z)
    (kernel_x kernel_width kernel_y kernel_height : Z) (border_type : kleidicv_border_type_t) (bt : FixedBorderType)
    : Prop :=
  kernel_width = 5 /\ kernel_height = 5 /\ 4 <= width /\ 4 <= height /\
  get_fixed_border_type border_type = Some bt /\
  src <> 0 /\ dst <> 0 /\ kernel_x <> 0 /\ kernel_y <> 0 /\
  (sizeof <> 1 -> is_misaligned sizeof src_stride = false /\ is_misaligned sizeof dst_stride = false) /\
  width * height <= KLEIDICV_MAX_IMAGE_PIXELS /\ channels <= KLEIDICV_MAXIMUM_CHANNEL_COUNT.

Section call.
Context (sizeof : Z) (malloc : Z -> Z) (buffer : Z * Z -> Z).
Context (kx ky : list Z) (border_type : kleidicv_border_type_t) (src_image dst_image : Z * Z -> Z).
Hypothesis element_type : sizeof = 1 \/ sizeof = 2.
Hypothesis kernel_x_ok : length kx = 5%nat /\ Forall (element (8 * sizeof)) kx.
Hypothesis kernel_y_ok : length ky = 5%nat /\ Forall (element (8 * sizeof)) ky.
Hypothesis image_ok : forall a, element (8 * sizeof) (src_image a).

Lemma validate_accepts src ss dst ds width height channels px kw py kh bt : 0 <= width -> 0 <= height ->
  separable_filter_2d_validate sizeof src ss dst ds width height channels px kw py kh border_type = (KLEIDICV_OK, bt) <->
  separable_filter_2d_accepts sizeof src ss dst ds width height channels px kw py kh border_type bt.
Proof.
  intros Hw Hh. unfold separable_filter_2d_validate, separable_filter_2d_accepts.
  destruct (Z.eqb_spec kw 5) as [->|]; [|split; [done|tauto]].
  destruct (Z.eqb_spec kh 5) as [->|]; [|split; [done|tauto]]. cbn [negb orb].
  rewrite size_sub_small by lia. change (5 - 1) with 4.
  destruct (Z.ltb_spec width 4); [split; [done|lia]|]. destruct (Z.ltb_spec height 4); [split; [done|lia]|]. cbn [orb].
  destruct (get_fixed_border_type border_type) as [b|]; [|split; [done|intuition congruence]].
  assert (separable_filter_2d_checks sizeof src ss dst ds width height px py = KLEIDICV_OK <->
    src <> 0 /\ dst <> 0 /\ px <> 0 /\ py <> 0 /\
    (sizeof <> 1 -> is_misaligned sizeof ss = false /\ is_misaligned sizeof ds = false) /\
    width * height <= KLEIDICV_MAX_IMAGE_PIXELS) as Hchk.
  { unfold separable_filter_2d_checks. rewrite !guard_error_ok, !check_pointer_and_stride_ok, check_image_size_iff by done.
    cbn [any_null existsb]. destruct (Z.eqb_spec px 0), (Z.eqb_spec py 0); cbn [orb];
      split; try (intros (_ & _ & _ & Hp); discriminate Hp); try (by intros (_ & _ & ? & ? & _)).
    - intros ([? Hs] & [? Hd] & ? & _). split_and!; try done. intros Hne. split; [apply Hs|apply Hd]; done || lia.
    - intros (? & ? & _ & _ & Ha & ?). split_and!; try done; intros _ Hne; by apply Ha. }
  destruct (decide (separable_filter_2d_checks sizeof src ss dst ds width height px py = KLEIDICV_OK)) as [E|E].
  - rewrite E. apply Hchk in E. destruct (Z.ltb_spec KLEIDICV_MAXIMUM_CHANNEL_COUNT channels).
    + split; [done|lia].
    + split; [intros [= ->]; tauto|]. intros Ha. f_equal. destruct Ha as (_ & _ & _ & _ & [= ->] & _). done.
  - split; [by destruct (separable_filter_2d_checks _ _ _ _ _ _ _ _ _)|]. intros Ha. exfalso. apply E, Hchk. tauto.
Qed.

(** A stripe of the filter. *)
Lemma stripe_run channels width height bt y_begin y_end dst : 1 <= channels <= 4 -> 4 <= width -> 4 <= height ->
  width * height <= KLEIDICV_MAX_IMAGE_PIXELS -> 0 <= y_begin <= y_end -> y_end <= height ->
  call_outcome True (allocated malloc width channels (2 * sizeof))
    (filtered_rows K5 (saturated_convolution (8 * sizeof) kx ky) channels width height bt y_begin y_end src_image dst) dst
    (separable_filter_2d_stripe sizeof malloc buffer channels width height kx ky bt y_begin y_end src_image dst).
Proof.
  intros Hc Hw Hh Hsz Hy Hye. set (n := Z.to_nat (8 / sizeof)). set (m := Z.to_nat (4 / sizeof)).
  assert (n = (m + m)%nat /\ Z.of_nat (n + n) = 16 / sizeof /\ Z.of_nat n = 8 / sizeof /\
    1 <= 16 / sizeof <= 16 /\ 1 <= 8 / sizeof <= 8) as (Hn & Hs & Hb & ? & ?)
    by (subst n m; destruct element_type as [->| ->]; vm_compute; repeat split; discriminate).
  pose proof (separable_filter_2d_laws (8 * sizeof) n kx ky m
    ltac:(destruct element_type as [->| ->]; auto) Hn kernel_x_ok kernel_y_ok) as Hlaws. rewrite Hs, Hb in Hlaws.
  unfold separable_filter_2d_stripe. fold n.
  apply (separable_stripe_correct K5 _ _ _ (2 * sizeof) _ _ _ malloc buffer channels width height bt y_begin y_end
    src_image dst True Hlaws); cbn [size_of]; done || lia.
Qed.

Lemma call_run src ss dst ds width height channels px kw py kh :
  0 <= width -> 0 <= height -> 1 <= channels ->
  call_outcome (exists bt, separable_filter_2d_accepts sizeof src ss dst ds width height channels px kw py kh border_type bt)
    (allocated malloc width channels (2 * sizeof))
    (fun dst' => exists bt, get_fixed_border_type border_type = Some bt /\
      filtered_rows K5 (saturated_convolution (8 * sizeof) kx ky) channels width height bt 0 height
        src_image dst_image dst') dst_image
    (separable_filter_2d sizeof malloc buffer src ss dst ds width height channels (px, kx) kw (py, ky) kh border_type
      src_image dst_image).
Proof.
  intros Hw Hh Hc. unfold separable_filter_2d. cbn [fst snd].
  destruct (separable_filter_2d_validate _ _ _ _ _ _ _ _ _ _ _ _ _) as [err bt] eqn:Hv.
  destruct (decide (err = KLEIDICV_OK)) as [->|Herr].
  - apply validate_accepts in Hv as Ha; [|done|done].
    pose proof Ha as (_ & _ & Hw4 & Hh4 & Hbt & _ & _ & _ & _ & _ & Hsz & Hch).
    unfold KLEIDICV_MAXIMUM_CHANNEL_COUNT in Hch.
    destruct (stripe_run channels width height bt 0 height dst_image) as (err & d & Heq & Hcase); try done; try lia.
    exists err, d. split; [exact Heq|].
    destruct Hcase as [(_ & ? & ? & Hd)|[(_ & ? & ? & ?)|[Hf _]]]; [left|right; left|done].
    + refine (conj _ (conj _ (conj _ _))); [by exists bt|done|done|]. by exists bt.
    + refine (conj _ (conj _ (conj _ _))); [by exists bt|done..].
  - destruct err; try done; apply rejected_call; try done;
      intros [b Ha]; (apply validate_accepts in Ha; [congruence|done|done]).
Qed.
End call.

(** C6: [separable_filter_2d] of 8- and 16-bit elements accepts exactly the arguments that
    pass its checks, with any of the four border types of [get_fixed_border_type] (the
    documentation announces replication only); every element of the result is then the two-dimensional convolution with
    the product kernel, exact up to the largest element and saturated there, although the
    scalar and the vector paths saturate the intermediate column sums differently and at
    different widths; an allocation failure is reported, and every error leaves the output
    alone. *)
Theorem separable_filter_2d_correct sizeof malloc buffer kx ky border_type (src_image dst_image : Z * Z -> Z)
    src ss dst ds width height channels px kw py kh :
  sizeof = 1 \/ sizeof = 2 ->
  length kx = 5%nat /\ Forall (element (8 * sizeof)) kx ->
  length ky = 5%nat /\ Forall (element (8 * sizeof)) ky ->
  (forall a, element (8 * sizeof) (src_image a)) ->
  0 <= width -> 0 <= height -> 1 <= channels ->
  call_outcome (exists bt, separable_filter_2d_accepts sizeof src ss dst ds width height channels px kw py kh border_type bt)
    (allocated malloc width channels (2 * sizeof))
    (fun dst' => exists bt, get_fixed_border_type border_type = Some bt /\
      filtered_rows K5 (saturated_convolution (8 * sizeof) kx ky) channels width height bt 0 height
        src_image dst_image dst') dst_image
    (separable_filter_2d sizeof malloc buffer src ss dst ds width height channels (px, kx) kw (py, ky) kh border_type
      src_image dst_image).
Proof. intros. by apply call_run. Qed.

(** Weights that saturate, on 16-bit elements: the value of one pixel. *)
Lemma separable_filter_2d_correct_witness :
  exists dst', separable_filter_2d 2 (fun _ => 4096) (fun _ => 7) 4096 40 8192 40 9 5 2
      (1024, [1; 0; 2; 0; 1]) 5 (2048, [0; 3; 0; 40000; 0]) 5 KLEIDICV_BORDER_TYPE_REVERSE
      (fun a => if a.1 =? 0 then 2 else 0) (fun _ => 0) = Some (KLEIDICV_OK, dst') /\
    dst' (1, 4) = 24 /\ dst' (2, 4) = 0 /\ dst' (0, 4) = 0.
Proof.
  destruct (separable_filter_2d_correct 2 (fun _ => 4096) (fun _ => 7) [1; 0; 2; 0; 1] [0; 3; 0; 40000; 0]
    KLEIDICV_BORDER_TYPE_REVERSE (fun a => if a.1 =? 0 then 2 else 0) (fun _ => 0)
    4096 40 8192 40 9 5 2 1024 5 2048 5) as (err & dst' & Heq & Hcase).
  - by right.
  - split; [done|]. repeat constructor; done.
  - split; [done|]. repeat constructor; done.
  - intros [y e]. unfold element. cbn. destruct (y =? 0); lia.
  - lia.
  - lia.
  - lia.
  - destruct Hcase as [(_ & _ & -> & bt & Hbt & Hd)|[(_ & Hf & _)|(Hn & _)]].
    + exists dst'. split; [exact Heq|]. injection Hbt as <-. rewrite !Hd. clear. vm_compute. repeat split.
    + vm_compute in Hf. discriminate.
    + exfalso. apply Hn. exists REVERSE. clear. unfold separable_filter_2d_accepts. repeat split; discriminate.
Defined.

End SeparableFilter2DApi.
