(* ===== verification/GaussianBlur.v ===== *)
(** * Gaussian blur with a fixed kernel

    [generate_gaussian_half_kernel] of [sigma.h], and the fixed-size part of
    [gaussian_blur.h], [gaussian_blur_fixed_neon.cpp] and [gaussian_blur_api.cpp].

    A [float] is a binary32 number of the Standard Library's [SpecFloat], with every
    operation rounded on its own (no contraction into fused operations); [std::exp],
    whose result the language leaves to the implementation, is the parameter [std_exp].
    The stripe for other kernel sizes is an argument of the API. *)

From Stdlib Require Import SpecFloat.
From S2P Require Import Prelude CTypes Utils Border FixedBorders Filter2D Separable Vectors SeparableKernels.
From S2P Require Import GaussianHalf SeparableApi.

(** ** Single-precision arithmetic *)

Definition float32 := spec_float.
Definition f_add : float32 -> float32 -> float32 := SFadd 24 128.
Definition f_sub : float32 -> float32 -> float32 := SFsub 24 128.
Definition f_mul : float32 -> float32 -> float32 := SFmul 24 128.
Definition f_div : float32 -> float32 -> float32 := SFdiv 24 128.
Definition f_zero : float32 := S754_zero false.

(** [static_cast<float>] of an integer, and of a [float] to an integer; the latter is
    undefined on an infinity and a NaN. *)
Definition f_of (z : Z) : float32 := binary_normalize 24 128 z 0 false.
Definition f_trunc (x : float32) : Z :=
  match x with
  | S754_finite s m e => cond_Zopp s (if 0 <=? e then Z.pos m * 2 ^ e else Z.pos m / 2 ^ (- e))
  | _ => 0
  end.

(** [std::round]: halves away from zero. *)
Definition std_round (x : float32) : float32 :=
  match x with
  | S754_finite s m e =>
      if 0 <=? e then x
      else binary_normalize 24 128 (cond_Zopp s ((Z.pos m + 2 ^ (- e - 1)) / 2 ^ (- e))) 0 s
  | _ => x
  end.

(** [0.15F] and [0.35F]. *)
Definition f_0_15 : float32 := S754_finite false 10066330 (-26).
Definition f_0_35 : float32 := S754_finite false 11744051 (-25).

(** ** The half kernel *)

Lemma uint8_byte x : byte (static_cast uint8 x).
Proof.
  unfold byte, static_cast. cbn [uint8 is_signed andb width]. apply Z.mod_pos_bound. lia.
Qed.

Section generate.
Context (std_exp : float32 -> float32).

(** [None] is the result [false]: all of the weight is in the middle. *)
Definition generate_gaussian_half_kernel (half_size : nat) (sigma : float32) : option (list Z) :=
  let kMid := (half_size - 1)%nat in
  let kKernelSize := (kMid * 2 + 1)%nat in
  let sigma :=
    if SFeqb sigma f_zero then f_add (f_mul (f_of (Z.of_nat kKernelSize)) f_0_15) f_0_35 else sigma in
  let coefficient := f_div (f_of 1) (SFopp (f_mul (f_mul (f_of 2) sigma) sigma)) in
  let '(half_kernel_float, sum) := foldl (fun '(half_kernel_float, sum) i =>
      let j := f_of (Z.of_nat (kMid - i)) in
      let value := std_exp (f_mul (f_mul j j) coefficient) in
      (half_kernel_float ++ [value], f_add sum value)) ([], f_zero) (seq 0 kMid) in
  let multiplier := f_div (f_of 256) (f_add (f_mul sum (f_of 2)) (f_of 1)) in
  let '(half_kernel, error) := foldl (fun '(half_kernel, error) h =>
      let value := f_sub (f_mul h multiplier) error in
      let value_rounded := std_round value in
      (half_kernel ++ [static_cast uint8 (f_trunc value_rounded)], f_sub value_rounded value))
    ([], f_zero) half_kernel_float in
  let mid_value := static_cast uint16 (f_trunc (std_round (f_sub multiplier error))) in
  if mid_value =? 256 then None else Some (half_kernel ++ [static_cast uint8 mid_value]).

(** The result has [half_size] bytes. *)
Lemma foldl_appends {A B C} (step : B -> A -> C * B) (P : C -> Prop) l cs b :
  (forall b x, P (step b x).1) -> Forall P cs ->
  let r := foldl (fun '(cs, b) x => let '(c, b) := step b x in (cs ++ [c], b)) (cs, b) l in
  length r.1 = (length cs + length l)%nat /\ Forall P r.1.
Proof.
  intros Hstep. revert cs b. induction l as [|x l IH]; intros cs b Hcs; cbn [foldl length]; [split; [cbn; lia|done]|].
  pose proof (Hstep b x) as Hx. destruct (step b x) as [c' b'] eqn:Hs.
  destruct (IH (cs ++ [c']) b') as [Hl Hf]; [by apply Forall_app_2; [|constructor]|].
  split; [|exact Hf]. cbn in Hl |- *. rewrite Hl, length_app. cbn. lia.
Qed.

Lemma generated_bytes half_size sigma half : (1 <= half_size)%nat ->
  generate_gaussian_half_kernel half_size sigma = Some half -> length half = half_size /\ Forall byte half.
Proof.
  intros Hs. unfold generate_gaussian_half_kernel. cbv zeta.
  set (sigma' := if SFeqb sigma f_zero then _ else _). set (coefficient := f_div _ (SFopp _)).
  pose proof (foldl_appends (fun sum i => let value := std_exp (f_mul (f_mul (f_of (Z.of_nat (half_size - 1 - i)))
    (f_of (Z.of_nat (half_size - 1 - i)))) coefficient) in (value, f_add sum value)) (fun _ => True)
    (seq 0 (half_size - 1)) [] f_zero ltac:(done) ltac:(done)) as [Hl _]. cbv zeta in Hl.
  destruct (foldl _ ([], f_zero) (seq 0 (half_size - 1))) as [floats sum]. cbn [fst length] in Hl.
  pose proof (foldl_appends (fun error h => let value := f_sub (f_mul h (f_div (f_of 256) (f_add (f_mul sum (f_of 2)) (f_of 1)))) error in
    (static_cast uint8 (f_trunc (std_round value)), f_sub (std_round value) value)) byte floats [] f_zero) as Hk.
  cbv zeta in Hk. destruct (foldl _ ([], f_zero) floats) as [half' error].
  destruct Hk as [Hkl Hkb]; [intros; apply uint8_byte|done|]. cbn [fst length] in Hkl, Hkb.
  destruct (_ =? 256); [done|]. intros [= <-]. rewrite length_app, Hkl, Hl, length_seq. cbn. split; [lia|].
  apply Forall_app_2; [done|]. constructor; [apply uint8_byte|done].
Qed.

End generate.

(** ** The stripe *)

(** The sizes that have a kernel with [IsBinomial], and that kernel. *)
Definition binomial_filter (k : fixed_size) : option (FilterType Z Z Z) :=
  match k with
  | K3 => Some GaussianBlur3.filter
  | K5 => Some GaussianBlur5.filter
  | K7 => Some GaussianBlur7.filter
  | K9 => Some GaussianBlur9.filter
  | K15 | K21 => None
  end.

(** [std::memcpy] of one row. *)
Definition copy_row (n : Z) (src : Z * Z -> Z) (row : Z) (dst : Z * Z -> Z) : Z * Z -> Z :=
  fun a => if (a.1 =? row) && (0 <=? a.2) && (a.2 <? n) then src a else dst a.

Section stripe.
Context (std_exp : float32 -> float32) (malloc : Z -> Z) (buffer : Z * Z -> Z).
Context (channels width height : Z) (border_type : FixedBorderType).

(** [gaussian_blur_fixed_kernel_size<KernelSize, true>] and [<KernelSize, false>]. *)
Definition gaussian_blur_fixed_binomial (k : fixed_size) (F : FilterType Z Z Z) (y_begin y_end : Z)
    (src dst : Z * Z -> Z) : option (kleidicv_error_t * (Z * Z -> Z)) :=
  separable_stripe k F 16 8 2 malloc buffer channels width height border_type y_begin y_end src dst.

Definition gaussian_blur_fixed_generated (k : fixed_size) (sigma : float32) (y_begin y_end : Z)
    (src dst : Z * Z -> Z) : option (kleidicv_error_t * (Z * Z -> Z)) :=
  match create malloc width channels 1 with
  | KLEIDICV_OK =>
      let KernelSize := Z.to_nat (size_of k) in
      match generate_gaussian_half_kernel std_exp (get_half_kernel_size KernelSize) sigma with
      | Some half_kernel =>
          match process (size_of k) (half_kernel_filter KernelSize half_kernel) 16 16 channels width height
            border_type src y_begin y_end buffer dst with
          | Some (_, dst) => Some (KLEIDICV_OK, dst)
          | None => None
          end
      | None => Some (KLEIDICV_OK, for_range y_begin y_end (copy_row (width ⊠ 1 ⊠ channels) src) dst)
      end
  | err => Some (err, dst)
  end.

(** [gaussian_blur_fixed<IsBinomial>]; the [default] of its [switch] is not reached. *)
Definition gaussian_blur_fixed (is_binomial : bool) (kernel_size : Z) (sigma : float32)
    (y_begin y_end : Z) (src dst : Z * Z -> Z) : option (kleidicv_error_t * (Z * Z -> Z)) :=
  let fixed k :=
    match (if is_binomial then binomial_filter k else None) with
    | Some F => gaussian_blur_fixed_binomial k F y_begin y_end src dst
    | None => gaussian_blur_fixed_generated k sigma y_begin y_end src dst
    end in
  if kernel_size =? 3 then fixed K3 else if kernel_size =? 5 then fixed K5
  else if kernel_size =? 7 then fixed K7 else if kernel_size =? 9 then fixed K9
  else if kernel_size =? 15 then fixed K15 else if kernel_size =? 21 then fixed K21
  else Some (KLEIDICV_ERROR_NOT_IMPLEMENTED, dst).

Definition gaussian_blur_fixed_stripe_u8 (kernel_width : Z) (sigma_x : float32) (y_begin y_end : Z)
    (src dst : Z * Z -> Z) : option (kleidicv_error_t * (Z * Z -> Z)) :=
  if SFeqb sigma_x f_zero then gaussian_blur_fixed true kernel_width sigma_x y_begin y_end src dst
  else gaussian_blur_fixed false kernel_width sigma_x y_begin y_end src dst.

(** What a stripe computes: the binomial blur, the blur with the generated kernel, or a
    copy ([None]). *)
Definition gaussian_result (k : fixed_size) (sigma : float32) : option (list (list Z) -> Z) :=
  let generated :=
    let KernelSize := Z.to_nat (size_of k) in
    match generate_gaussian_half_kernel std_exp (get_half_kernel_size KernelSize) sigma with
    | Some half_kernel => Some (fun ws =>
        half_kernel_blur KernelSize half_kernel (map (half_kernel_blur KernelSize half_kernel) ws))
    | None => None
    end in
  if SFeqb sigma f_zero then
    match k with
    | K3 => Some (binomial_result binomial_3 4)
    | K5 => Some (binomial_result binomial_5 8)
    | K7 => Some (binomial_result binomial_7 12)
    | K9 => Some (binomial_result binomial_9 16)
    | K15 | K21 => generated
    end
  else generated.

(** A generated kernel, when one is used, has weights that add up to at most 256.  Its
    generation rounds so that they usually add up to 256, but not always: see
    [overweight_kernel_blackens]. *)
Definition weights_ok (k : fixed_size) (sigma : float32) : Prop :=
  (SFeqb sigma f_zero = true -> k = K15 \/ k = K21) ->
  forall half_kernel,
    generate_gaussian_half_kernel std_exp (get_half_kernel_size (Z.to_nat (size_of k))) sigma = Some half_kernel ->
    symmetric_sum (Z.to_nat (size_of k)) half_kernel (fun _ => 1) <= 256.

Definition blurred_rows (k : fixed_size) (sigma : float32) (y_begin y_end : Z) (src dst dst' : Z * Z -> Z) : Prop :=
  match gaussian_result k sigma with
  | Some result => filtered_rows k result channels width height border_type y_begin y_end src dst dst'
  | None => forall y e, dst' (y, e) =
      if (y_begin <=? y) && (y <? y_end) && (0 <=? e) && (e <? width * channels) then src (y, e) else dst (y, e)
  end.

(** The buffer type of the stripe. *)
Definition intermediate_size (kernel_width : Z) (sigma : float32) : Z :=
  if SFeqb sigma f_zero && (kernel_width <=? 9) then 2 else 1.

Hypothesis channels_range : 1 <= channels <= 4.
Hypothesis image_size : width * height <= KLEIDICV_MAX_IMAGE_PIXELS.

Lemma copy_rows_value y_begin y_end src dst y e : 0 <= width < 2 ^ 48 -> y_begin <= y_end ->
  for_range y_begin y_end (copy_row (width ⊠ 1 ⊠ channels) src) dst (y, e) =
  if (y_begin <=? y) && (y <? y_end) && (0 <=? e) && (e <? width * channels) then src (y, e) else dst (y, e).
Proof.
  intros Hw Hy. rewrite (size_mul_small width), Z.mul_1_r by lia. rewrite size_mul_small by nia.
  refine (for_range_ind (fun i d => d (y, e) =
    if (y_begin <=? y) && (y <? i) && (0 <=? e) && (e <? width * channels) then src (y, e) else dst (y, e))
    y_begin y_end _ _ _ _ _); [lia| |].
  - case_cmp; cbn; done || lia.
  - intros i d Hi Hd. unfold copy_row. cbn [fst snd]. rewrite Hd. case_cmp; cbn; done || lia.
Qed.

Section sized.
Context (k : fixed_size) (y_begin y_end : Z) (src dst : Z * Z -> Z) (accepted : Prop).
Hypothesis width_ok : size_of k - 1 <= width.
Hypothesis height_ok : size_of k - 1 <= height.
Hypothesis rows_ok : 0 <= y_begin <= y_end /\ y_end <= height.
Hypothesis bytes_ok : forall a, byte (src a).
Hypothesis arguments_ok : accepted.

Lemma binomial_run F bits weights :
  SeparableLaws (size_of k) 16 8 F byte (fun w b => b = dot weights w) (binomial_result weights bits) ->
  call_outcome accepted (allocated malloc width channels 2)
    (filtered_rows k (binomial_result weights bits) channels width height border_type y_begin y_end src dst) dst
    (gaussian_blur_fixed_binomial k F y_begin y_end src dst).
Proof. intros Hlaws. eapply separable_stripe_correct; eauto; lia. Qed.

Definition generated_rows (sigma : float32) (dst' : Z * Z -> Z) : Prop :=
  match generate_gaussian_half_kernel std_exp (get_half_kernel_size (Z.to_nat (size_of k))) sigma with
  | Some half => filtered_rows k (fun ws => half_kernel_blur (Z.to_nat (size_of k)) half
      (map (half_kernel_blur (Z.to_nat (size_of k)) half) ws)) channels width height border_type y_begin y_end src dst dst'
  | None => forall y e, dst' (y, e) =
      if (y_begin <=? y) && (y <? y_end) && (0 <=? e) && (e <? width * channels) then src (y, e) else dst (y, e)
  end.

Lemma generated_run sigma :
  (forall half, generate_gaussian_half_kernel std_exp (get_half_kernel_size (Z.to_nat (size_of k))) sigma = Some half ->
    symmetric_sum (Z.to_nat (size_of k)) half (fun _ => 1) <= 256) ->
  call_outcome accepted (allocated malloc width channels 1) (generated_rows sigma) dst
    (gaussian_blur_fixed_generated k sigma y_begin y_end src dst).
Proof.
  intros Hn. unfold gaussian_blur_fixed_generated, generated_rows.
  destruct (generate_gaussian_half_kernel _ _ _) as [half|] eqn:Hgen.
  - eapply (separable_stripe_correct k (half_kernel_filter (Z.to_nat (size_of k)) half) 16 16 1); eauto; try lia.
    apply half_kernel_laws; [destruct k; done|destruct k; cbn; lia|]. split; [|by apply Hn].
    assert (1 <= get_half_kernel_size (Z.to_nat (size_of k)))%nat as Hpos by apply Nat.le_add_l.
    destruct (generated_bytes _ _ _ _ Hpos Hgen) as [_ Hb].
    eapply Forall_impl; [exact Hb|]. intros h [Hh _]. exact Hh.
  - unfold create, allocated. destruct (malloc _ =? 0).
    + exists KLEIDICV_ERROR_ALLOCATION, dst. split; [done|]. right. by left.
    + exists KLEIDICV_OK. eexists. split; [done|]. left. split_and!; [done..|].
      unfold KLEIDICV_MAX_IMAGE_PIXELS in *. change (Z.shiftl 1 48 - 1) with (2 ^ 48 - 1) in *.
      assert (2 <= size_of k - 1) by (destruct k; cbn; lia).
      intros y e. apply copy_rows_value; [nia|lia].
Qed.

(** The call with a kernel of the size [k]. *)
Lemma fixed_stripe_run sigma : weights_ok k sigma ->
  call_outcome accepted (allocated malloc width channels (intermediate_size (size_of k) sigma))
    (blurred_rows k sigma y_begin y_end src dst) dst
    (gaussian_blur_fixed_stripe_u8 (size_of k) sigma y_begin y_end src dst).
Proof.
  intros Hok. unfold weights_ok in Hok. pose proof (generated_run sigma) as Hgen. pose proof binomial_run as Hbin.
  unfold gaussian_blur_fixed_stripe_u8, gaussian_blur_fixed, intermediate_size, blurred_rows, gaussian_result,
    generated_rows in *.
  destruct (SFeqb sigma f_zero).
  - destruct k; cbn [size_of Z.eqb Pos.eqb binomial_filter] in *; cbn [Z.leb Z.compare Pos.compare Pos.compare_cont andb].
    + by apply Hbin, gaussian_3_laws.
    + by apply Hbin, gaussian_5_laws.
    + by apply Hbin, gaussian_7_laws.
    + by apply Hbin, gaussian_9_laws.
    + specialize (Hgen (Hok ltac:(auto))). by destruct (generate_gaussian_half_kernel _ _ _).
    + specialize (Hgen (Hok ltac:(auto))). by destruct (generate_gaussian_half_kernel _ _ _).
  - specialize (Hgen (Hok ltac:(done))). cbn [andb]; destruct k; cbn [size_of Z.eqb Pos.eqb] in *;
      by destruct (generate_gaussian_half_kernel _ _ _).
Qed.
End sized.
End stripe.

(** ** Validation and the call *)

Definition gaussian_blur_checks (src src_stride dst dst_stride width height : Z) : kleidicv_error_t :=
  check_pointer_and_stride 1 src src_stride height ?>
  check_pointer_and_stride 1 dst dst_stride height ?>
  check_image_size width height.

(** The sizes with a fixed implementation. *)
Definition has_fixed_size (kernel_width : Z) : bool :=
  (kernel_width <=? 9) || (kernel_width =? 15) || (kernel_width =? 21).

(** The sizes without one need the border type REPLICATE and a minimal width. *)
Definition arbitrary_is_implemented (width kernel_width : Z) (fixed_border_type : FixedBorderType) : bool :=
  match fixed_border_type with
  | REPLICATE =>
      let margin := kernel_width / 2 in
      let max_border_length := 8 in
      let aligned_margin := (margin ⊞ max_border_length ⊟ 1) / max_border_length ⊠ max_border_length in
      negb (width <? aligned_margin ⊞ margin)
  | _ => false
  end.

Definition gaussian_blur_validate
    (src src_stride dst dst_stride width height channels kernel_width kernel_height : Z) (sigma_x sigma_y : float32)
    (border_type : kleidicv_border_type_t) : kleidicv_error_t * FixedBorderType :=
  let not_implemented := (KLEIDICV_ERROR_NOT_IMPLEMENTED, REPLICATE) in
  match get_fixed_border_type border_type with
  | None => not_implemented
  | Some fixed_border_type =>
      if negb (kernel_width =? kernel_height) then not_implemented
      else if (kernel_width <? 3) || (255 <? kernel_width) then not_implemented
      else if negb (Z.land kernel_width 1 =? 1) then not_implemented
      else if negb (SFeqb sigma_x sigma_y) then not_implemented
      else if (width <? kernel_width ⊟ 1) || (height <? kernel_width ⊟ 1) then not_implemented
      else if KLEIDICV_MAXIMUM_CHANNEL_COUNT <? channels then not_implemented
      else if ((9 <? kernel_width) && negb (kernel_width =? 15) && negb (kernel_width =? 21)) &&
              negb (arbitrary_is_implemented width kernel_width fixed_border_type) then not_implemented
      else match gaussian_blur_checks src src_stride dst dst_stride width height with
      | KLEIDICV_OK => (KLEIDICV_OK, fixed_border_type)
      | check_error => (check_error, REPLICATE)
      end
  end.

(** [gaussian_blur_u8]; the stripe for other sizes is an argument. *)
Definition gaussian_blur_u8 std_exp malloc buffer
    (arbitrary_stripe : Z -> Z -> Z -> Z -> float32 -> FixedBorderType -> (Z * Z -> Z) -> (Z * Z -> Z) ->
      option (kleidicv_error_t * (Z * Z -> Z)))
    (src src_stride dst dst_stride width height channels kernel_width kernel_height : Z) (sigma_x sigma_y : float32)
    (border_type : kleidicv_border_type_t) (src_image dst_image : Z * Z -> Z)
    : option (kleidicv_error_t * (Z * Z -> Z)) :=
  match gaussian_blur_validate src src_stride dst dst_stride width height channels kernel_width kernel_height
    sigma_x sigma_y border_type with
  | (KLEIDICV_OK, fixed_border_type) =>
      if has_fixed_size kernel_width
      then gaussian_blur_fixed_stripe_u8 std_exp malloc buffer channels width height fixed_border_type
        kernel_width sigma_x 0 height src_image dst_image
      else arbitrary_stripe channels width height kernel_width sigma_x fixed_border_type src_image dst_image
  | (error, _) => Some (error, dst_image)
  end.

(** The arguments accepted with a kernel of the size [k]. *)
Definition gaussian_accepts (k : fixed_size) (src dst width height channels kernel_width kernel_height : Z)
    (sigma_x sigma_y : float32) (border_type : kleidicv_border_type_t) (bt : FixedBorderType) : Prop :=
  kernel_width = size_of k /\ kernel_height = size_of k /\ SFeqb sigma_x sigma_y = true /\
  size_of k - 1 <= width /\ size_of k - 1 <= height /\ channels <= KLEIDICV_MAXIMUM_CHANNEL_COUNT /\
  src <> 0 /\ dst <> 0 /\ width * height <= KLEIDICV_MAX_IMAGE_PIXELS /\
  get_fixed_border_type border_type = Some bt.

Lemma fixed_sizes kw : 3 <= kw <= 255 -> Z.land kw 1 = 1 -> has_fixed_size kw = true ->
  exists k, size_of k = kw.
Proof.
  intros Hk Hodd Hf. unfold has_fixed_size in Hf.
  assert (kw = 3 \/ kw = 4 \/ kw = 5 \/ kw = 6 \/ kw = 7 \/ kw = 8 \/ kw = 9 \/ kw = 15 \/ kw = 21) as Hcase
    by (revert Hf; case_cmp; cbn; intros; lia || done).
  destruct Hcase as [->|[->|[->|[->|[->|[->|[->|[->| ->]]]]]]]]; try discriminate Hodd;
    [exists K3|exists K5|exists K7|exists K9|exists K15|exists K21]; done.
Qed.

Lemma gaussian_validate_accepts src ss dst ds width height channels kw kh sx sy border_type bt :
  0 <= width -> 0 <= height -> has_fixed_size kw = true ->
  gaussian_blur_validate src ss dst ds width height channels kw kh sx sy border_type = (KLEIDICV_OK, bt) <->
  exists k, gaussian_accepts k src dst width height channels kw kh sx sy border_type bt.
Proof.
  intros Hw Hh Hf. unfold gaussian_blur_validate, gaussian_accepts.
  assert (gaussian_blur_checks src ss dst ds width height = KLEIDICV_OK <->
    src <> 0 /\ dst <> 0 /\ width * height <= KLEIDICV_MAX_IMAGE_PIXELS) as Hchk.
  { unfold gaussian_blur_checks. rewrite !guard_error_ok, !check_pointer_and_stride_ok, check_image_size_iff by done.
    tauto. }
  assert ((9 <? kw) && negb (kw =? 15) && negb (kw =? 21) = false) as Hnot.
  { unfold has_fixed_size in Hf. revert Hf. case_cmp; cbn; done || lia. }
  rewrite Hnot. cbn [andb].
  destruct (get_fixed_border_type border_type) as [b|];
    [|split; [done|intros (? & _ & _ & _ & _ & _ & _ & _ & _ & _ & Hb); discriminate Hb]].
  destruct (Z.eqb_spec kw kh) as [<-|Hne]; cbn [negb];
    [|split; [done|intros (? & ? & ? & _); exfalso; congruence]].
  assert (forall k, kw = size_of k -> 3 <= kw <= 255 /\ Z.land kw 1 = 1) as Hsize
    by (intros k ->; destruct k; cbn; split; done || lia).
  destruct (Z.ltb_spec kw 3); [split; [done|intros (k & Hk & _); pose proof (Hsize k Hk); lia]|].
  destruct (Z.ltb_spec 255 kw); [split; [done|intros (k & Hk & _); pose proof (Hsize k Hk); lia]|]. cbn [orb].
  destruct (Z.eqb_spec (Z.land kw 1) 1) as [Hodd|]; cbn [negb];
    [|split; [done|intros (k & Hk & _); by pose proof (Hsize k Hk) as [_ ?]]].
  destruct (SFeqb sx sy); cbn [negb]; [|split; [done|by intros (k & _ & _ & ? & _)]].
  rewrite size_sub_small by lia.
  destruct (Z.ltb_spec width (kw - 1)); [split; [done|intros (k & -> & _ & _ & ? & ? & _); lia]|].
  destruct (Z.ltb_spec height (kw - 1)); [split; [done|intros (k & -> & _ & _ & ? & ? & _); lia]|]. cbn [orb].
  destruct (Z.ltb_spec KLEIDICV_MAXIMUM_CHANNEL_COUNT channels); [split; [done|intros (k & _ & _ & _ & _ & _ & ? & _); lia]|].
  destruct (fixed_sizes kw ltac:(lia) Hodd Hf) as [k Hk].
  destruct (decide (gaussian_blur_checks src ss dst ds width height = KLEIDICV_OK)) as [E|E].
  - rewrite E. apply Hchk in E. split.
    + intros [= ->]. exists k. rewrite Hk. split_and!; done || tauto.
    + intros (k' & Ha). f_equal. by destruct Ha as (_ & _ & _ & _ & _ & _ & _ & _ & _ & [= ->]).
  - split; [by destruct (gaussian_blur_checks _ _ _ _ _ _)|]. intros (k' & Ha). exfalso. apply E, Hchk. tauto.
Qed.

Lemma gaussian_blur_run std_exp malloc buffer arbitrary src ss dst ds width height channels kw kh sx sy border_type
    (src_image dst_image : Z * Z -> Z) :
  0 <= width -> 0 <= height -> 1 <= channels -> has_fixed_size kw = true -> (forall a, byte (src_image a)) ->
  (forall k, size_of k = kw -> weights_ok std_exp k sx) ->
  call_outcome
    (exists k bt, gaussian_accepts k src dst width height channels kw kh sx sy border_type bt)
    (allocated malloc width channels (intermediate_size kw sx))
    (fun dst' => exists k bt, size_of k = kw /\ get_fixed_border_type border_type = Some bt /\
      blurred_rows std_exp channels width height bt k sx 0 height src_image dst_image dst') dst_image
    (gaussian_blur_u8 std_exp malloc buffer arbitrary src ss dst ds width height channels kw kh sx sy border_type
      src_image dst_image).
Proof.
  intros Hw Hh Hc Hf Hv Hok. unfold gaussian_blur_u8. rewrite Hf.
  destruct (gaussian_blur_validate _ _ _ _ _ _ _ _ _ _ _ _) as [err bt] eqn:Hval.
  destruct (decide (err = KLEIDICV_OK)) as [->|Herr].
  - apply gaussian_validate_accepts in Hval as [k Ha]; [|done|done|done].
    pose proof Ha as (-> & _ & _ & Hw1 & Hh1 & Hch & _ & _ & Hsz & Hbt). unfold KLEIDICV_MAXIMUM_CHANNEL_COUNT in Hch.
    assert (2 <= size_of k - 1) by (destruct k; cbn; lia).
    destruct (fixed_stripe_run std_exp malloc buffer channels width height bt ltac:(lia) Hsz k 0 height
      src_image dst_image True Hw1 Hh1 ltac:(lia) Hv I sx (Hok k eq_refl)) as (err & d & Heq & Hcase).
    exists err, d. split; [exact Heq|].
    destruct Hcase as [(_ & ? & ? & Hd)|[(_ & ? & ? & ?)|[Hn _]]]; [left|right; left|done].
    + refine (conj _ (conj _ (conj _ _))); [by exists k, bt|done|done|]. by exists k, bt.
    + refine (conj _ (conj _ (conj _ _))); [by exists k, bt|done..].
  - destruct err; try done; apply rejected_call; try done; intros (k & b & Ha);
      (assert (exists k, gaussian_accepts k src dst width height channels kw kh sx sy border_type b) as Hx by (by exists k));
      (apply (gaussian_validate_accepts src ss dst ds) in Hx; [congruence|done..]).
Qed.

(** C7: for byte images and the kernel sizes 3, 5, 7, 9, 15 and 21, which have a fixed
    implementation, [gaussian_blur_u8] accepts exactly the arguments that pass its checks; a
    width of the kernel size less one is enough for all of them.  Each pixel of the result is
    then the symmetric weighted mean of its window under the border type: for a zero sigma and
    sizes up to 9 with the fixed weights of the class [GaussianBlur<uint8_t, size, true>],
    rounded once; otherwise, also for a zero sigma and the sizes 15 and 21, with the generated
    weights, rounded after each pass; or the image is copied when all of the weight is in the
    middle.  The generated weights must not add up to more than 256. *)
Theorem gaussian_blur_correct std_exp malloc buffer arbitrary src ss dst ds width height channels kw kh sx sy border_type
    (src_image dst_image : Z * Z -> Z) :
  0 <= width -> 0 <= height -> 1 <= channels -> has_fixed_size kw = true -> (forall a, byte (src_image a)) ->
  (forall k, size_of k = kw -> weights_ok std_exp k sx) ->
  call_outcome
    (exists k bt, gaussian_accepts k src dst width height channels kw kh sx sy border_type bt)
    (allocated malloc width channels (intermediate_size kw sx))
    (fun dst' => exists k bt, size_of k = kw /\ get_fixed_border_type border_type = Some bt /\
      blurred_rows std_exp channels width height bt k sx 0 height src_image dst_image dst') dst_image
    (gaussian_blur_u8 std_exp malloc buffer arbitrary src ss dst ds width height channels kw kh sx sy border_type
      src_image dst_image).
Proof. intros. by apply gaussian_blur_run. Qed.

(** A 3x3 blur with sigma 1: the exponential that it needs, the generated weights
    70, 116, 70, and one pixel. *)
Definition example_exp (_ : float32) : float32 := S754_finite false 10175896 (-24).

Lemma example_half_kernel :
  generate_gaussian_half_kernel example_exp (get_half_kernel_size 3) (f_of 1) = Some [70; 116].
Proof. by vm_compute. Qed.

Lemma gaussian_blur_correct_witness :
  exists dst', gaussian_blur_u8 example_exp (fun _ => 4096) (fun _ => 7) (fun _ _ _ _ _ _ _ d => Some (KLEIDICV_OK, d))
      4096 20 8192 20 20 4 1 3 3 (f_of 1) (f_of 1) KLEIDICV_BORDER_TYPE_REFLECT
      (fun a => if a.1 <? a.2 then 255 else 0) (fun _ => 0) = Some (KLEIDICV_OK, dst') /\
    dst' (1, 1) = 82.
Proof.
  destruct (gaussian_blur_correct example_exp (fun _ => 4096) (fun _ => 7)
    (fun _ _ _ _ _ _ _ d => Some (KLEIDICV_OK, d)) 4096 20 8192 20 20 4 1 3 3 (f_of 1) (f_of 1)
    KLEIDICV_BORDER_TYPE_REFLECT (fun a => if a.1 <? a.2 then 255 else 0) (fun _ => 0))
    as (err & dst' & Heq & Hcase).
  - lia.
  - lia.
  - lia.
  - done.
  - intros [y e]. unfold byte. cbn. destruct (y <? e); lia.
  - intros k Hk _ half. rewrite Hk. change (Z.to_nat 3) with 3%nat. rewrite example_half_kernel.
    intros [= <-]. by vm_compute.
  - destruct Hcase as [(_ & _ & -> & k & bt & Hk & Hbt & Hd)|[(_ & Hf & _)|(Hn & _)]].
    + exists dst'. split; [exact Heq|]. injection Hbt as <-. destruct k; try discriminate Hk.
      unfold blurred_rows, gaussian_result in Hd. change (SFeqb (f_of 1) f_zero) with false in Hd.
      change (Z.to_nat (size_of K3)) with 3%nat in Hd. rewrite example_half_kernel in Hd.
      rewrite Hd. clear. vm_compute. reflexivity.
    + vm_compute in Hf. discriminate.
    + exfalso. apply Hn. exists K3, REFLECT. clear. unfold gaussian_accepts. repeat split; discriminate.
Defined.

(** For sigma 4.1411 and the size 3 the generated weights are 85, 87, 85, which add up to 257: with
    the value of [std::exp] that a correctly rounded implementation returns, a window of
    white pixels (255) becomes black in the scalar and in the vector path. *)
Theorem overweight_kernel_blackens std_exp :
  std_exp (S754_finite true 15653392 (-29)) = S754_finite false 16295110 (-24) ->
  let sigma := S754_finite false 8684516 (-21) in
  exists half, generate_gaussian_half_kernel std_exp (get_half_kernel_size 3) sigma = Some half /\
    symmetric_sum 3 half (fun _ => 1) = 257 /\
    GaussianHalf.scalar_path 3 half [255; 255; 255] = 0 /\
    common_vector_path 3 half (replicate 3 (replicate 16 255)) = replicate 16 0.
Proof.
  intros Hexp sigma. exists [85; 87]. split; [|by vm_compute].
  subst sigma. unfold generate_gaussian_half_kernel. cbn [foldl seq Nat.sub get_half_kernel_size Nat.div2 Nat.add].
  match goal with |- context [std_exp ?a] =>
    assert (a = S754_finite true 15653392 (-29)) as Harg by by vm_compute end.
  rewrite Harg, Hexp. by vm_compute.
Qed.

Lemma overweight_kernel_blackens_witness :
  generate_gaussian_half_kernel (fun _ => S754_finite false 16295110 (-24)) (get_half_kernel_size 3)
    (S754_finite false 8684516 (-21)) = Some [85; 87] /\
  GaussianHalf.scalar_path 3 [85; 87] [255; 255; 255] = 0.
Proof.
  destruct (overweight_kernel_blackens (fun _ => S754_finite false 16295110 (-24)) eq_refl)
    as (half & Hgen & _ & Hs & _).
  assert (half = [85; 87]) as -> by (vm_compute in Hgen; by injection Hgen).
  split; [exact Hgen|exact Hs].
Defined.
