(* ===== verification/Stack.v ===== *)
(** * The stack of [containers/stack.h]

    A last-in first-out container in a doubly-linked chain of blocks of fixed capacity.
    Blocks are never freed before the destructor runs: popping moves back along the chain
    and pushing reuses a following block.  The class [StackLaws] is what a client relies
    on; its instance is proved from the pointer operations. *)

From S2P Require Import Prelude.

(** ** The interface *)

Record StackOps (S T : Type) := {
  push_back : S -> T -> option S;
  back : S -> option T;
  pop_back : S -> option S;
  empty : S -> bool
}.
Arguments push_back {S T} _ _ _.
Arguments back {S T} _ _.
Arguments pop_back {S T} _ _.
Arguments empty {S T} _ _.

(** [contents s] lists the elements, the last one first. *)
Class StackLaws {S T : Type} (ops : StackOps S T) (valid : S -> Prop) (contents : S -> list T) : Prop := {
  push_ok s v : valid s -> exists s', push_back ops s v = Some s' /\ valid s' /\ contents s' = v :: contents s;
  back_ok s v l : valid s -> contents s = v :: l -> back ops s = Some v;
  pop_ok s v l : valid s -> contents s = v :: l ->
    exists s', pop_back ops s = Some s' /\ valid s' /\ contents s' = l;
  empty_ok s : valid s -> empty ops s = bool_decide (contents s = [])
}.

(** ** The implementation *)

Section stack.
Context {T : Type} `{Inhabited T}.

(** [Block]: [None] is the null pointer, [Some i] the [i]-th block that was allocated.
    An address inside a block is its number and an index of its data. *)
Record Block := { prev_ : option nat; next_ : option nat; data_ : Z -> T }.
Definition pointer : Type := nat * Z.

(** The capacity is [(kBlockGranule - sizeof(Block)) / sizeof(T)]. *)
Context (kBlockCapacity : Z).
(** Whether the [n]-th allocation succeeds; the code traps when one fails. *)
Context (new_succeeds : nat -> bool).

Record Stack := {
  back_ : pointer;
  empty_back_ : pointer;
  back_min_ : pointer;
  back_max_ : pointer;
  current_block_ : nat;
  first_block_ : nat;
  heap : list Block
}.

(** [Block::make_block]: the data of a new block is whatever the memory holds. *)
Definition make_block (prev : option nat) (heap : list Block) : option (nat * list Block) :=
  let block := length heap in
  if new_succeeds block then
    let heap := heap ++ [{| prev_ := prev; next_ := None; data_ := fun _ => inhabitant |}] in
    let heap :=
      match prev with
      | Some p => alter (fun b => {| prev_ := prev_ b; next_ := Some block; data_ := data_ b |}) p heap
      | None => heap
      end in
    Some (block, heap)
  else None.

(** The constructor. *)
Definition make_stack : option Stack :=
  match make_block None [] with
  | None => None
  | Some (block, heap) =>
      let back_min := (block, -1) in
      Some {| back_ := back_min; empty_back_ := back_min; back_min_ := back_min;
              back_max_ := (back_min.1, back_min.2 + kBlockCapacity);
              current_block_ := block; first_block_ := block; heap := heap |}
  end.

Definition with_block (s : Stack) (block : nat) (heap : list Block) : Stack :=
  let back_min := (block, -1) in
  {| back_ := back_min; empty_back_ := empty_back_ s; back_min_ := back_min;
     back_max_ := (back_min.1, back_min.2 + kBlockCapacity);
     current_block_ := block; first_block_ := first_block_ s; heap := heap |}.

Definition next_block (s : Stack) : option Stack :=
  match heap s !! current_block_ s with
  | None => None
  | Some b =>
      match next_ b with
      | Some next => Some (with_block s next (heap s))
      | None =>
          match make_block (Some (current_block_ s)) (heap s) with
          | Some (block, heap) => Some (with_block s block heap)
          | None => None
          end
      end
  end.

Definition prev_block (s : Stack) : option Stack :=
  match heap s !! current_block_ s with
  | None => None
  | Some b =>
      match prev_ b with
      | None => None
      | Some prev =>
          let s := with_block s prev (heap s) in
          Some {| back_ := back_max_ s; empty_back_ := empty_back_ s; back_min_ := back_min_ s;
                  back_max_ := back_max_ s; current_block_ := current_block_ s;
                  first_block_ := first_block_ s; heap := heap s |}
      end
  end.

(** [*++back_ = value]. *)
Definition store_next (s : Stack) (value : T) : Stack :=
  let back := ((back_ s).1, (back_ s).2 + 1) in
  {| back_ := back; empty_back_ := empty_back_ s; back_min_ := back_min_ s; back_max_ := back_max_ s;
     current_block_ := current_block_ s; first_block_ := first_block_ s;
     heap := alter (fun b => {| prev_ := prev_ b; next_ := next_ b; data_ := upd (data_ b) back.2 value |})
       back.1 (heap s) |}.

Definition stack_push_back (s : Stack) (value : T) : option Stack :=
  match (if decide (back_ s = back_max_ s) then next_block s else Some s) with
  | Some s => Some (store_next s value)
  | None => None
  end.

Definition stack_back (s : Stack) : option T :=
  match heap s !! (back_ s).1 with Some b => Some (data_ b (back_ s).2) | None => None end.

Definition stack_pop_back (s : Stack) : option Stack :=
  let back := ((back_ s).1, (back_ s).2 - 1) in
  let s := {| back_ := back; empty_back_ := empty_back_ s; back_min_ := back_min_ s; back_max_ := back_max_ s;
              current_block_ := current_block_ s; first_block_ := first_block_ s; heap := heap s |} in
  if bool_decide (back = back_min_ s) && negb (bool_decide (back = empty_back_ s)) then prev_block s else Some s.

Definition stack_empty (s : Stack) : bool := bool_decide (back_ s = empty_back_ s).

Definition block_stack : StackOps Stack T := {|
  push_back := stack_push_back; back := stack_back; pop_back := stack_pop_back; empty := stack_empty |}.

(** The destructor: the blocks it deletes, in order. *)
Fixpoint destroy_from (fuel : nat) (heap : list Block) (block : option nat) : option (list nat) :=
  match block, fuel with
  | None, _ => Some []
  | Some _, O => None
  | Some b, S fuel =>
      match heap !! b with
      | None => None
      | Some x =>
          match destroy_from fuel heap (next_ x) with
          | Some deleted => Some (b :: deleted)
          | None => None
          end
      end
  end.
Definition destroy_stack (s : Stack) : option (list nat) :=
  destroy_from (length (heap s)) (heap s) (Some (first_block_ s)).

(** ** The invariant *)

(** The blocks form a chain in the order of their allocation. *)
Definition chained (heap : list Block) : Prop :=
  forall i b, heap !! i = Some b ->
    prev_ b = (if decide (i = 0%nat) then None else Some (i - 1)%nat) /\
    next_ b = (if decide (i + 1 < length heap)%nat then Some (i + 1)%nat else None).

(** The number of elements, and the element [m] from the bottom. *)
Definition size_of_stack (s : Stack) : Z := Z.of_nat (current_block_ s) * kBlockCapacity + ((back_ s).2 + 1).
Definition stack_element (heap : list Block) (m : Z) : T :=
  match heap !! Z.to_nat (m / kBlockCapacity) with
  | Some b => data_ b (m mod kBlockCapacity)
  | None => inhabitant
  end.
Definition stack_contents (s : Stack) : list T :=
  map (stack_element (heap s)) (rev (seqZ 0 (size_of_stack s))).

Record valid_stack (s : Stack) : Prop := {
  vs_chained : chained (heap s);
  vs_current : (current_block_ s < length (heap s))%nat;
  vs_first : first_block_ s = 0%nat;
  vs_empty : empty_back_ s = (0%nat, -1);
  vs_min : back_min_ s = (current_block_ s, -1);
  vs_max : back_max_ s = (current_block_ s, kBlockCapacity - 1);
  vs_block : (back_ s).1 = current_block_ s;
  vs_range : -1 <= (back_ s).2 < kBlockCapacity;
  vs_nonempty : (back_ s).2 = -1 -> current_block_ s = 0%nat
}.

(** ** Facts on blocks *)

Definition data_at (heap : list Block) (i : nat) (j : Z) : T :=
  match heap !! i with Some b => data_ b j | None => inhabitant end.

Hypothesis capacity_pos : 1 <= kBlockCapacity.
Hypothesis allocation_succeeds : forall n, new_succeeds n = true.

Lemma data_at_alter f p h i j : (forall b, data_ (f b) = data_ b) -> data_at (alter f p h) i j = data_at h i j.
Proof.
  intros Hf. unfold data_at. destruct (decide (i = p)) as [->|Hne].
  - rewrite list_lookup_alter_eq. destruct (h !! p); cbn; [by rewrite Hf|done].
  - by rewrite list_lookup_alter_ne.
Qed.

Lemma data_at_app h b i j : (i < length h)%nat -> data_at (h ++ [b]) i j = data_at h i j.
Proof. intros Hi. unfold data_at. by rewrite lookup_app_l. Qed.

(** Appending a block after the last one. *)
Lemma make_block_after h : chained h -> (0 < length h)%nat ->
  exists h', make_block (Some (length h - 1)%nat) h = Some (length h, h') /\ chained h' /\
    length h' = S (length h) /\ forall i j, (i < length h)%nat -> data_at h' i j = data_at h i j.
Proof.
  intros Hc Hl. unfold make_block. rewrite allocation_succeeds. eexists. split; [done|]. split_and!.
  - intros i b Hb. rewrite length_alter, length_app. cbn [length].
    destruct (decide (i = length h - 1)%nat) as [->|Hne].
    + rewrite list_lookup_alter_eq, lookup_app_l in Hb by lia.
      destruct (h !! (length h - 1)%nat) as [b0|] eqn:H0; [|done]. injection Hb as <-. cbn [prev_ next_].
      destruct (Hc _ _ H0) as [-> _]. split; [done|].
      rewrite decide_True by lia. f_equal. lia.
    + rewrite list_lookup_alter_ne in Hb by done. destruct (decide (i < length h)%nat) as [Hi|Hi].
      * rewrite lookup_app_l in Hb by done. destruct (Hc _ _ Hb) as [-> ->]. split; [done|].
        rewrite !decide_True by lia. done.
      * assert (i = length h) as -> by (apply lookup_lt_Some in Hb; rewrite length_app in Hb; cbn in Hb; lia).
        rewrite lookup_app_r, Nat.sub_diag in Hb by lia. injection Hb as <-. cbn [prev_ next_].
        rewrite decide_False by lia. rewrite decide_False by lia. done.
  - rewrite length_alter, length_app. cbn. lia.
  - intros i j Hi. rewrite data_at_alter by done. by apply data_at_app.
Qed.

Lemma chained_store h p j (v : T) : chained h ->
  chained (alter (fun b => {| prev_ := prev_ b; next_ := next_ b; data_ := upd (data_ b) j v |}) p h).
Proof.
  intros Hc i b Hb. rewrite length_alter. destruct (decide (i = p)) as [->|Hne].
  - rewrite list_lookup_alter_eq in Hb. destruct (h !! p) as [b0|] eqn:H0; [|done]. injection Hb as <-.
    exact (Hc _ _ H0).
  - rewrite list_lookup_alter_ne in Hb by done. exact (Hc _ _ Hb).
Qed.

Lemma data_at_store h p j (v : T) i k : (p < length h)%nat ->
  data_at (alter (fun b => {| prev_ := prev_ b; next_ := next_ b; data_ := upd (data_ b) j v |}) p h) i k =
  if decide (i = p /\ k = j) then v else data_at h i k.
Proof.
  intros Hp. unfold data_at. destruct (decide (i = p)) as [->|Hne].
  - rewrite list_lookup_alter_eq. destruct (lookup_lt_is_Some_2 h p Hp) as [b ->]. cbn [fmap option_fmap option_map data_].
    unfold upd. repeat case_decide; done || intuition congruence.
  - rewrite list_lookup_alter_ne by done. by rewrite decide_False by tauto.
Qed.

(** ** Contents *)

Lemma element_location c p : 0 <= p < kBlockCapacity ->
  (c * kBlockCapacity + p) / kBlockCapacity = c /\ (c * kBlockCapacity + p) mod kBlockCapacity = p.
Proof.
  intros Hp. split.
  - rewrite Z.div_add_l, Z.div_small by lia. lia.
  - rewrite Z.add_comm, Z.mod_add, Z.mod_small by lia. done.
Qed.

Lemma stack_element_at h m : stack_element h m = data_at h (Z.to_nat (m / kBlockCapacity)) (m mod kBlockCapacity).
Proof. done. Qed.

Lemma contents_size (s : Stack) n : size_of_stack s = n -> stack_contents s = map (stack_element (heap s)) (rev (seqZ 0 n)).
Proof. by intros <-. Qed.

Lemma rev_seqZ_last n : 0 <= n -> rev (seqZ 0 (n + 1)) = n :: rev (seqZ 0 n).
Proof. intros Hn. rewrite seqZ_app by lia. rewrite rev_app_distr. cbn. done. Qed.

Lemma size_nonneg s : valid_stack s -> 0 <= size_of_stack s.
Proof. intros Hs. pose proof (vs_range s Hs). unfold size_of_stack. nia. Qed.

(** Storing above the top: [s1] is ready for [*++back_]. *)
Lemma store_next_pushes s s1 v : valid_stack s -> chained (heap s1) ->
  (current_block_ s1 < length (heap s1))%nat -> first_block_ s1 = 0%nat -> empty_back_ s1 = (0%nat, -1) ->
  back_min_ s1 = (current_block_ s1, -1) -> back_max_ s1 = (current_block_ s1, kBlockCapacity - 1) ->
  (back_ s1).1 = current_block_ s1 -> -1 <= (back_ s1).2 < kBlockCapacity - 1 ->
  size_of_stack s1 = size_of_stack s ->
  (forall i j, (i < length (heap s))%nat -> data_at (heap s1) i j = data_at (heap s) i j) ->
  valid_stack (store_next s1 v) /\ stack_contents (store_next s1 v) = v :: stack_contents s.
Proof.
  intros Hs Hc Hcur Hf He Hmin Hmax Hb Hr Hsize Hdata. pose proof (size_nonneg s Hs) as Hn.
  split.
  - constructor; cbn [store_next heap current_block_ first_block_ empty_back_ back_min_ back_max_ back_ fst snd]; try done.
    + by apply chained_store.
    + by rewrite length_alter.
    + lia.
    + lia.
  - set (n := size_of_stack s) in *.
    assert (size_of_stack (store_next s1 v) = n + 1) as Hn1.
    { rewrite <- Hsize. unfold size_of_stack. cbn. lia. }
    rewrite (contents_size _ _ Hn1), rev_seqZ_last by lia. cbn [map].
    assert (n = Z.of_nat (current_block_ s1) * kBlockCapacity + ((back_ s1).2 + 1)) as Hloc
      by (rewrite <- Hsize; done).
    destruct (element_location (Z.of_nat (current_block_ s1)) ((back_ s1).2 + 1) ltac:(lia)) as [Hdiv Hmod].
    rewrite <- Hloc in Hdiv, Hmod. f_equal.
    + rewrite stack_element_at. cbn [store_next heap]. rewrite data_at_store by (rewrite Hb; done).
      rewrite Hdiv, Hmod, Nat2Z.id, decide_True by (cbn [fst snd]; done). done.
    + unfold stack_contents. fold n. apply map_ext_in. intros m Hm%in_rev%list_elem_of_In%elem_of_seqZ.
      rewrite !stack_element_at. cbn [store_next heap]. rewrite data_at_store by (rewrite Hb; done). cbn [fst snd].
      rewrite decide_False.
      2: { rewrite Hb. intros [H1 H2]. pose proof (Z.div_mod m kBlockCapacity ltac:(lia)).
           assert (0 <= m / kBlockCapacity) by (apply Z.div_pos; lia). nia. }
      apply Hdata. pose proof (vs_current s Hs). pose proof (vs_range s Hs).
      assert (m / kBlockCapacity <= Z.of_nat (current_block_ s)); [|lia].
      apply Z.lt_succ_r, Z.div_lt_upper_bound; [lia|]. unfold n, size_of_stack in Hm. lia.
Qed.

Lemma stack_push_ok s v : valid_stack s ->
  exists s', stack_push_back s v = Some s' /\ valid_stack s' /\ stack_contents s' = v :: stack_contents s.
Proof.
  intros Hs. pose proof Hs as [Hc Hcur Hf He Hmin Hmax Hb Hr Hne]. unfold stack_push_back. case_decide as Hfull.
  - rewrite Hmax in Hfull. assert ((back_ s).2 = kBlockCapacity - 1) as Hp by (by rewrite Hfull).
    assert (exists h', next_block s = Some (with_block s (current_block_ s + 1) h') /\ chained h' /\
      (current_block_ s + 1 < length h')%nat /\
      forall i j, (i < length (heap s))%nat -> data_at h' i j = data_at (heap s) i j) as (h' & -> & Hc' & Hl' & Hd').
    { unfold next_block. destruct (lookup_lt_is_Some_2 _ _ Hcur) as [b Hb0]. rewrite Hb0.
      destruct (Hc _ _ Hb0) as [_ ->]. case_decide as Hnext.
      - exists (heap s). done.
      - assert (current_block_ s = length (heap s) - 1)%nat as Hlast by lia.
        destruct (make_block_after (heap s) Hc ltac:(lia)) as (h' & Hm & Hc' & Hl' & Hd').
        rewrite <- Hlast in Hm. rewrite Hm. exists h'. replace (current_block_ s + 1)%nat with (length (heap s)) by lia.
        split_and!; [done|done|lia|done]. }
    eexists. split; [done|]. apply store_next_pushes; cbn [with_block heap current_block_ first_block_ empty_back_ back_min_ back_max_ back_ fst snd];
      try done; try lia.
    + f_equal. lia.
    + unfold size_of_stack. cbn. rewrite Hp. lia.
  - eexists. split; [done|]. apply store_next_pushes; try done.
    assert ((back_ s).2 <> kBlockCapacity - 1); [|lia]. intros Hp. apply Hfull.
    rewrite Hmax, <- Hb, <- Hp. by destruct (back_ s).
Qed.

Lemma contents_cons s v l : valid_stack s -> stack_contents s = v :: l ->
  let n := size_of_stack s in
  1 <= n /\ v = stack_element (heap s) (n - 1) /\ l = map (stack_element (heap s)) (rev (seqZ 0 (n - 1))).
Proof.
  intros Hs Hc n. pose proof (size_nonneg s Hs) as Hn. fold n in Hn.
  destruct (Z.eq_dec n 0) as [H0|H0]; [by rewrite (contents_size s 0 H0) in Hc|].
  rewrite (contents_size s (n - 1 + 1)) in Hc by (unfold n; lia). rewrite rev_seqZ_last in Hc by lia.
  injection Hc as <- <-. split; [lia|done].
Qed.

(** The top of the stack is where [back_] points. *)
Lemma top_location s : valid_stack s -> 1 <= size_of_stack s ->
  0 <= (back_ s).2 /\ stack_element (heap s) (size_of_stack s - 1) = data_at (heap s) (back_ s).1 (back_ s).2.
Proof.
  intros Hs Hn. pose proof Hs as [_ _ _ _ _ _ Hb Hr Hne].
  assert (0 <= (back_ s).2) as Hp.
  { destruct (Z.eq_dec (back_ s).2 (-1)) as [Hm|]; [|lia]. unfold size_of_stack in Hn. rewrite (Hne Hm), Hm in Hn. lia. }
  split; [done|]. rewrite stack_element_at.
  destruct (element_location (Z.of_nat (current_block_ s)) (back_ s).2 ltac:(lia)) as [Hdiv Hmod].
  replace (size_of_stack s - 1) with (Z.of_nat (current_block_ s) * kBlockCapacity + (back_ s).2)
    by (unfold size_of_stack; lia).
  by rewrite Hdiv, Hmod, Nat2Z.id, Hb.
Qed.

Lemma stack_back_ok s v l : valid_stack s -> stack_contents s = v :: l -> stack_back s = Some v.
Proof.
  intros Hs Hc. destruct (contents_cons s v l Hs Hc) as (Hn & -> & _).
  destruct (top_location s Hs Hn) as [_ ->]. unfold stack_back, data_at.
  rewrite (vs_block s Hs). by destruct (lookup_lt_is_Some_2 _ _ (vs_current s Hs)) as [b ->].
Qed.

Lemma stack_pop_ok s v l : valid_stack s -> stack_contents s = v :: l ->
  exists s', stack_pop_back s = Some s' /\ valid_stack s' /\ stack_contents s' = l.
Proof.
  intros Hs Hc. destruct (contents_cons s v l Hs Hc) as (Hn & _ & ->).
  destruct (top_location s Hs Hn) as [Hp _]. pose proof Hs as [Hch Hcur Hf He Hmin Hmax Hb Hr Hne].
  unfold stack_pop_back. cbv zeta.
  cbn [back_min_ empty_back_]. rewrite Hmin, He, Hb.
  destruct (decide ((back_ s).2 = 0 /\ current_block_ s <> 0%nat)) as [[H0 Hc0]|Hin].
  - rewrite H0, bool_decide_true by done. rewrite bool_decide_false by (intros Hq; injection Hq; done). cbn [andb negb].
    unfold prev_block. cbn [heap current_block_].
    destruct (lookup_lt_is_Some_2 _ _ Hcur) as [b Hb0]. rewrite Hb0. destruct (Hch _ _ Hb0) as [-> _].
    rewrite decide_False by done. eexists. split; [done|]. split.
    + constructor; cbn [with_block heap current_block_ first_block_ empty_back_ back_min_ back_max_ back_ fst snd];
        try done; try lia. f_equal. lia.
    + rewrite (contents_size _ (size_of_stack s - 1)); [done|]. unfold size_of_stack. cbn. rewrite H0.
      rewrite Nat2Z.inj_sub by lia. lia.
  - assert (bool_decide ((current_block_ s, (back_ s).2 - 1) = (current_block_ s, -1)) &&
      negb (bool_decide ((current_block_ s, (back_ s).2 - 1) = (0%nat, -1))) = false) as ->.
    { destruct (Z.eq_dec (back_ s).2 0) as [Hz|Hz].
      - assert (current_block_ s = 0%nat) as -> by (destruct (decide (current_block_ s = 0%nat)); tauto).
        rewrite Hz. by rewrite (bool_decide_true (_ = (0%nat, -1))).
      - rewrite bool_decide_false; [done|]. intros [= Hq]. lia. }
    eexists. split; [done|]. split.
    + constructor; cbn [heap current_block_ first_block_ empty_back_ back_min_ back_max_ back_ fst snd];
        try done; try lia.
    + rewrite (contents_size _ (size_of_stack s - 1)); [done|]. unfold size_of_stack. cbn. lia.
Qed.

Lemma stack_empty_ok s : valid_stack s -> stack_empty s = bool_decide (stack_contents s = []).
Proof.
  intros Hs. pose proof Hs as [_ _ _ He _ _ Hb Hr Hne]. unfold stack_empty. apply bool_decide_ext. rewrite He.
  pose proof (size_nonneg s Hs) as Hn. split.
  - intros Hbe. rewrite (contents_size s 0); [done|]. unfold size_of_stack. rewrite Hbe in *. cbn in *. rewrite <- Hb. cbn. lia.
  - intros Hc. destruct (Z.eq_dec (size_of_stack s) 0) as [H0|H0].
    + unfold size_of_stack in H0. assert (0 <= Z.of_nat (current_block_ s) * kBlockCapacity) by nia.
      assert ((back_ s).2 = -1) as Hm by lia. rewrite (Hne Hm) in Hb. destruct (back_ s). cbn in *. by subst.
    + rewrite (contents_size s (size_of_stack s - 1 + 1)) in Hc by lia. by rewrite rev_seqZ_last in Hc by lia.
Qed.

#[export] Instance block_stack_laws : StackLaws block_stack valid_stack stack_contents.
Proof.
  constructor; cbn [block_stack push_back back pop_back empty];
    [exact stack_push_ok|exact stack_back_ok|exact stack_pop_ok|exact stack_empty_ok].
Qed.

Lemma make_stack_ok : exists s, make_stack = Some s /\ valid_stack s /\ stack_contents s = [].
Proof.
  unfold make_stack, make_block. rewrite allocation_succeeds. eexists. split; [done|].
  split; [|done]. constructor; cbn; try done; try lia.
  - intros [|i] b Hb; [|done]. injection Hb as <-. done.
  - f_equal. lia.
Qed.

(** The destructor deletes each block once. *)
Lemma destroy_chain h k : chained h -> (k <= length h)%nat ->
  destroy_from k h (if decide (length h - k < length h)%nat then Some (length h - k)%nat else None) =
  Some (seq (length h - k) k).
Proof.
  intros Hc. induction k as [|k IH]; intros Hk.
  - rewrite decide_False by lia. done.
  - rewrite decide_True by lia. cbn [destroy_from].
    destruct (lookup_lt_is_Some_2 h (length h - S k)) as [b Hb]; [lia|]. rewrite Hb.
    destruct (Hc _ _ Hb) as [_ ->]. replace (length h - S k + 1)%nat with (length h - k)%nat by lia.
    rewrite IH by lia. cbn [seq]. do 2 f_equal. f_equal. lia.
Qed.

Lemma destroy_all s : valid_stack s -> destroy_stack s = Some (seq 0 (length (heap s))).
Proof.
  intros Hs. pose proof (destroy_chain (heap s) (length (heap s)) (vs_chained s Hs) ltac:(lia)) as Hd.
  pose proof (vs_current s Hs). rewrite Nat.sub_diag, decide_True in Hd by lia.
  unfold destroy_stack. by rewrite (vs_first s Hs).
Qed.

(** ** Sequences of operations *)

Inductive command := Push (v : T) | Pop.

(** On the abstract list; [pop_back] of an empty container is undefined. *)
Definition list_command (c : command) (l : list T) : option (list T) :=
  match c, l with
  | Push v, _ => Some (v :: l)
  | Pop, _ :: l => Some l
  | Pop, [] => None
  end.
Definition stack_command (c : command) (s : Stack) : option Stack :=
  match c with Push v => stack_push_back s v | Pop => stack_pop_back s end.

Definition run {S} (step : command -> S -> option S) (cs : list command) (s : option S) : option S :=
  foldl (fun s c => match s with Some s => step c s | None => None end) s cs.

Lemma command_refines c l l' s : valid_stack s -> stack_contents s = l -> list_command c l = Some l' ->
  exists s', stack_command c s = Some s' /\ valid_stack s' /\ stack_contents s' = l'.
Proof.
  intros Hs <- Hl. destruct c as [v|]; cbn in *.
  - injection Hl as <-. by apply stack_push_ok.
  - destruct (stack_contents s) as [|v l] eqn:Hc; [done|]. injection Hl as <-. by apply (stack_pop_ok s v).
Qed.

Lemma run_none {S} (step : command -> S -> option S) cs : run step cs None = None.
Proof. by induction cs. Qed.

Lemma run_refines cs l l' s : valid_stack s -> stack_contents s = l -> run list_command cs (Some l) = Some l' ->
  exists s', run stack_command cs (Some s) = Some s' /\ valid_stack s' /\ stack_contents s' = l'.
Proof.
  revert l s. induction cs as [|c cs IH]; intros l s Hs Hc Hr; cbn in Hr |- *.
  - injection Hr as <-. by exists s.
  - destruct (list_command c l) as [l1|] eqn:Hl.
    + destruct (command_refines c l l1 s Hs Hc Hl) as (s1 & -> & Hs1 & Hc1). by apply (IH l1).
    + change (run list_command cs None = Some l') in Hr. by rewrite run_none in Hr.
Qed.
End stack.

(** [kBlockCapacity] for elements of [size] bytes: a block is a granule of two pages less
    its two pointers. *)
Definition kBlockGranule : Z := 2 * 4096.
Definition block_capacity (size : Z) : Z := (kBlockGranule - 16) / size.

(** [Stack] refines a list: after any sequence of pushes and pops that is defined on
    the list, and whatever the capacity of a block, the chain of blocks holds the elements
    of the list, [back] is its last element, [empty] tells whether there is one, and the
    destructor deletes every block that was allocated exactly once. *)
Theorem stack_refines_list {T} `{Inhabited T} capacity new_succeeds cs (l : list T) :
  1 <= capacity -> (forall n, new_succeeds n = true) ->
  run list_command cs (Some []) = Some l ->
  exists s, run (stack_command capacity new_succeeds) cs (make_stack capacity new_succeeds) = Some s /\
    stack_empty s = bool_decide (l = []) /\ (forall v l', l = v :: l' -> stack_back s = Some v) /\
    stack_contents capacity s = l /\ destroy_stack s = Some (seq 0 (length (heap s))).
Proof.
  intros Hcap Hnew Hrun. destruct (make_stack_ok (T := T) capacity new_succeeds Hcap Hnew) as (s0 & -> & Hs0 & Hc0).
  destruct (run_refines capacity new_succeeds Hcap Hnew cs [] l s0 Hs0 Hc0 Hrun) as (s & Hr & Hs & Hc).
  exists s. split; [exact Hr|]. split_and!.
  - rewrite <- Hc. by apply (stack_empty_ok capacity).
  - intros v l' ->. by apply (stack_back_ok capacity Hcap s v l').
  - exact Hc.
  - by apply (destroy_all capacity).
Qed.

(** Five pushes and two pops with two elements in a block. *)
Lemma stack_refines_list_witness :
  exists s, run (stack_command 2 (fun _ => true)) [Push 10; Push 11; Push 12; Push 13; Pop; Push 14; Push 15; Pop; Pop]
      (make_stack 2 (fun _ => true)) = Some s /\
    stack_back s = Some 12 /\ destroy_stack s = Some [0; 1; 2]%nat.
Proof.
  destruct (stack_refines_list 2 (fun _ => true)
    [Push 10; Push 11; Push 12; Push 13; Pop; Push 14; Push 15; Pop; Pop] [12; 11; 10]) as (s & Hr & _ & Hb & _ & Hd).
  - lia.
  - done.
  - reflexivity.
  - exists s. split; [exact Hr|]. split; [by apply (Hb 12 [11; 10])|]. rewrite Hd.
    vm_compute in Hr. injection Hr as <-. reflexivity.
Defined.
