(* ===== verification/Hysteresis.v ===== *)
(** * Edge hysteresis of Canny

    [perform_hysteresis] of [analysis/canny_neon.cpp]: weak edges (value 1) that touch a
    strong edge become strong (255), until the stack of strong edges is empty.  The stack
    is any implementation of [StackLaws]; a pixel is an address in the hysteresis buffer. *)

From S2P Require Import Prelude Stack.

Section hysteresis.
Context {S : Type} (ops : StackOps S Z) (stride : Z).
Implicit Types (pixels : Z -> Z).

Definition handle_potentially_strong_pixel (st : option (S * (Z -> Z))) (pixel : Z) : option (S * (Z -> Z)) :=
  match st with
  | None => None
  | Some (stack, pixels) =>
      if pixels pixel =? 1 then
        let pixels := upd pixels pixel 255 in
        match push_back ops stack pixel with
        | Some stack => Some (stack, pixels)
        | None => None
        end
      else Some (stack, pixels)
  end.

(** The neighbours of a pixel, in the order in which they are handled. *)
Definition neighbours (strong_pixel : Z) : list Z :=
  [strong_pixel - stride - 1; strong_pixel - stride; strong_pixel - stride + 1;
   strong_pixel - 1; strong_pixel + 1;
   strong_pixel + stride - 1; strong_pixel + stride; strong_pixel + stride + 1].

(** One iteration per unit of fuel; [None] when the fuel runs out or an operation of the
    stack fails. *)
Fixpoint perform_hysteresis (fuel : nat) (stack : S) (pixels : Z -> Z) : option (S * (Z -> Z)) :=
  match fuel with
  | O => None
  | Datatypes.S fuel =>
      if empty ops stack then Some (stack, pixels)
      else
        match back ops stack with
        | None => None
        | Some strong_pixel =>
            match pop_back ops stack with
            | None => None
            | Some stack =>
                match foldl handle_potentially_strong_pixel (Some (stack, pixels)) (neighbours strong_pixel) with
                | None => None
                | Some (stack, pixels) => perform_hysteresis fuel stack pixels
                end
            end
        end
  end.

(** ** Specification *)

(** The eight pixels at most one row and one column away. *)
Definition adjacent (p q : Z) : Prop :=
  exists dr dc, -1 <= dr <= 1 /\ -1 <= dc <= 1 /\ (dr <> 0 \/ dc <> 0) /\ q = p + dr * stride + dc.

Lemma neighbours_adjacent p q : q ∈ neighbours p <-> adjacent p q.
Proof.
  unfold neighbours. rewrite !elem_of_cons, elem_of_nil. split.
  - intros Hq. repeat destruct Hq as [->|Hq]; [..|done];
      [exists (-1), (-1)|exists (-1), 0|exists (-1), 1|exists 0, (-1)|exists 0, 1|exists 1, (-1)|exists 1, 0|exists 1, 1]; lia.
  - intros (dr & dc & Hr & Hc & Hn & ->).
    assert (dr = -1 \/ dr = 0 \/ dr = 1) as [->|[->| ->]] by lia;
      assert (dc = -1 \/ dc = 0 \/ dc = 1) as [->|[->| ->]] by lia; lia.
Qed.

(** The weak pixels that a chain of weak pixels connects to a strong one. *)
Inductive promoted (pixels : Z -> Z) (strong : list Z) : Z -> Prop :=
  | promoted_by_strong p q : p ∈ strong -> adjacent p q -> pixels q = 1 -> promoted pixels strong q
  | promoted_by_weak p q : promoted pixels strong p -> adjacent p q -> pixels q = 1 -> promoted pixels strong q.

Lemma promoted_weak pixels strong q : promoted pixels strong q -> pixels q = 1.
Proof. by destruct 1. Qed.

Context {valid : S -> Prop} {contents : S -> list Z} {HS : StackLaws ops valid contents}.
Context (original : Z -> Z) (strong : list Z) (area : list Z).
Hypothesis area_covers : forall q, promoted original strong q -> q ∈ area.

(** [p] is strong now. *)
Definition source pixels (p : Z) : Prop := p ∈ strong \/ original p = 1 /\ pixels p = 255.

Definition closed pixels (p : Z) : Prop := forall q, adjacent p q -> pixels q <> 1.

(** What holds between iterations, and for all pixels but [pending] during one. *)
Record invariant (pending : Z -> Prop) (stack : list Z) pixels : Prop := {
  hi_pixels : forall q, pixels q = original q \/ original q = 1 /\ pixels q = 255 /\ promoted original strong q;
  hi_stack : forall p, p ∈ stack -> p ∈ strong \/ promoted original strong p;
  hi_closed : forall p, source pixels p -> p ∈ stack \/ pending p \/ closed pixels p
}.

(** The number of weak pixels that are left. *)
Definition weak pixels : nat := length (filter (fun q => pixels q = 1) area).

Lemma filter_upd_le pixels q l :
  (length (filter (fun x => upd pixels q 255%Z x = 1%Z) l) <= length (filter (fun x => pixels x = 1%Z) l))%nat.
Proof.
  induction l as [|x l IH]; [done|]. rewrite !filter_cons.
  destruct (decide (upd pixels q 255 x = 1)) as [Hu|Hu], (decide (pixels x = 1)) as [Hx|Hx]; cbn [length]; try lia.
  exfalso. unfold upd in Hu. case_decide; done.
Qed.

Lemma weak_lt pixels q : q ∈ area -> pixels q = 1 -> (weak (upd pixels q 255%Z) < weak pixels)%nat.
Proof.
  unfold weak. clear area_covers. induction area as [|x l IH]; intros Hq Hone; [by apply elem_of_nil in Hq|].
  rewrite !filter_cons. pose proof (filter_upd_le pixels q l) as Hle.
  destruct (decide (x = q)) as [->|Hne].
  - rewrite decide_False by (unfold upd; by rewrite decide_True by done). rewrite decide_True by done. cbn [length]. lia.
  - assert (q ∈ l) as Hql by (apply elem_of_cons in Hq as [->|]; done). specialize (IH Hql Hone).
    assert (upd pixels q 255 x = pixels x) as -> by (unfold upd; by rewrite decide_False by done).
    destruct (decide (pixels x = 1)); cbn [length]; lia.
Qed.

(** The weak pixels and the stack shrink together. *)
Definition work (stack : list Z) pixels : nat := (weak pixels + length stack)%nat.

(** Handling a neighbour [q] of the pixel [p] that was taken from the stack. *)
Lemma handle_step p q stack pixels : valid stack -> adjacent p q ->
  (p ∈ strong \/ promoted original strong p) -> invariant (eq p) (contents stack) pixels ->
  exists stack' pixels', handle_potentially_strong_pixel (Some (stack, pixels)) q = Some (stack', pixels') /\
    valid stack' /\ invariant (eq p) (contents stack') pixels' /\
    (work (contents stack') pixels' <= work (contents stack) pixels)%nat /\
    pixels' q <> 1 /\ forall x, pixels x <> 1 -> pixels' x <> 1.
Proof.
  intros Hv Hq Hp [Hpix Hst Hcl]. unfold handle_potentially_strong_pixel.
  destruct (Z.eqb_spec (pixels q) 1) as [H1|H1].
  - destruct (push_ok stack q Hv) as (stack' & -> & Hv' & Hc'). exists stack', (upd pixels q 255).
    assert (original q = 1) as Ho by (destruct (Hpix q) as [<-|[? _]]; done).
    assert (promoted original strong q) as Hpr.
    { destruct Hp as [Hp|Hp]; [by eapply promoted_by_strong|by eapply promoted_by_weak]. }
    assert (forall x, pixels x <> 1 -> upd pixels q 255 x <> 1) as Hkeep.
    { intros x Hx. unfold upd. case_decide; done. }
    split; [done|]. split; [done|]. rewrite Hc'. split; [|split; [|split]].
    + constructor.
      * intros x. unfold upd. case_decide as Hxq; [subst x; right; done|apply Hpix].
      * intros x [->|Hx]%elem_of_cons; [by right|by apply Hst].
      * intros x Hs. destruct (decide (x = q)) as [->|Hne]; [left; by left|].
        assert (source pixels x) as Hs0.
        { destruct Hs as [Hs|[Hox Hpx]]; [by left|right]. unfold upd in Hpx. by rewrite decide_False in Hpx by done. }
        destruct (Hcl x Hs0) as [Hin|[Hpe|Hclx]]; [left; by right|by right; left|right; right].
        intros y Hy. apply Hkeep, (Hclx y Hy).
    + unfold work. cbn [length]. pose proof (weak_lt pixels q (area_covers q Hpr) H1). lia.
    + unfold upd. by rewrite decide_True by done.
    + exact Hkeep.
  - exists stack, pixels. split_and!; done.
Qed.

Lemma handle_all p l stack pixels : valid stack -> (forall q, q ∈ l -> adjacent p q) ->
  (p ∈ strong \/ promoted original strong p) -> invariant (eq p) (contents stack) pixels ->
  exists stack' pixels', foldl handle_potentially_strong_pixel (Some (stack, pixels)) l = Some (stack', pixels') /\
    valid stack' /\ invariant (eq p) (contents stack') pixels' /\
    (work (contents stack') pixels' <= work (contents stack) pixels)%nat /\
    (forall q, q ∈ l -> pixels' q <> 1) /\ forall x, pixels x <> 1 -> pixels' x <> 1.
Proof.
  revert stack pixels. induction l as [|q l IH]; intros stack pixels Hv Hl Hp Hi; cbn [foldl].
  - exists stack, pixels. split_and!; try done. intros q Hq. by apply elem_of_nil in Hq.
  - destruct (handle_step p q stack pixels Hv (Hl q ltac:(by left)) Hp Hi)
      as (stack1 & pixels1 & -> & Hv1 & Hi1 & Hw1 & Hq1 & Hk1).
    destruct (IH stack1 pixels1 Hv1 (fun x Hx => Hl x (proj2 (elem_of_cons l x q) (or_intror Hx))) Hp Hi1)
      as (stack2 & pixels2 & -> & Hv2 & Hi2 & Hw2 & Hq2 & Hk2).
    exists stack2, pixels2. split_and!; try done; [lia| |].
    + intros x [->|Hx]%elem_of_cons; [by apply Hk2|by apply Hq2].
    + intros x Hx. by apply Hk2, Hk1.
Qed.

(** The stack is empty: everything that is connected was promoted. *)
Lemma finished pixels : invariant (fun _ => False) [] pixels ->
  forall q, (promoted original strong q -> pixels q = 255) /\ (~ promoted original strong q -> pixels q = original q).
Proof.
  intros [Hpix _ Hcl]. assert (forall p, source pixels p -> closed pixels p) as Hclosed.
  { intros p Hp. destruct (Hcl p Hp) as [Hin|[[]|Hc]]; [by apply elem_of_nil in Hin|done]. }
  intros q. split.
  - assert (forall p q, source pixels p -> adjacent p q -> original q = 1 -> pixels q = 255) as Hnext.
    { intros p x Hp Hx Hox. destruct (Hpix x) as [Heq|[_ [Hs _]]]; [|done].
      exfalso. apply (Hclosed p Hp x Hx). by rewrite Heq. }
    induction 1 as [p q Hp Hq Ho|p q Hp IH Hq Ho].
    + apply (Hnext p); [by left|done|done].
    + apply (Hnext p); [right; split; [by apply promoted_weak in Hp|exact IH]|done|done].
  - intros Hn. destruct (Hpix q) as [Heq|[_ [_ Hp]]]; [done|by apply Hn in Hp].
Qed.

Lemma perform_hysteresis_run fuel stack pixels : valid stack ->
  invariant (fun _ => False) (contents stack) pixels -> (work (contents stack) pixels < fuel)%nat ->
  exists stack' pixels', perform_hysteresis fuel stack pixels = Some (stack', pixels') /\
    valid stack' /\ contents stack' = [] /\ invariant (fun _ => False) [] pixels'.
Proof.
  revert stack pixels. induction fuel as [|fuel IH]; intros stack pixels Hv Hi Hf; [lia|].
  cbn [perform_hysteresis]. rewrite (empty_ok stack Hv). destruct (contents stack) as [|p l] eqn:Hc.
  - rewrite bool_decide_true by done. by exists stack, pixels.
  - rewrite bool_decide_false by done. rewrite (back_ok stack p l Hv Hc).
    destruct (pop_ok stack p l Hv Hc) as (stack1 & -> & Hv1 & Hc1).
    pose proof Hi as [Hpix Hst Hcl].
    destruct (handle_all p (neighbours p) stack1 pixels Hv1 (fun q => proj1 (neighbours_adjacent p q)) (Hst p ltac:(by left)))
      as (stack2 & pixels2 & -> & Hv2 & [Hpix2 Hst2 Hcl2] & Hw2 & Hq2 & Hk2).
    { rewrite Hc1. constructor; [exact Hpix|intros x Hx; apply Hst; by right|].
      intros x Hx. destruct (Hcl x Hx) as [[->|Hin]%elem_of_cons|[[]|Hclx]];
        [by right; left|by left|by right; right]. }
    apply IH; [done| |].
    + constructor; [done|done|]. intros x Hx. destruct (Hcl2 x Hx) as [Hin|[<-|Hclx]]; [by left| |by right; right].
      right. right. intros q Hq. by apply Hq2, neighbours_adjacent.
    + rewrite Hc1 in Hw2. unfold work in *. cbn [length] in Hf. lia.
Qed.
End hysteresis.

(** C23: hysteresis over any stack that behaves as a list terminates, and makes strong
    exactly the weak pixels that a chain of neighbouring weak pixels connects to a strong
    one; every other pixel keeps its value, the order in which the stack is emptied does
    not matter, and the stack is empty at the end.  [area] lists addresses among which all
    the connected pixels are, such as those of the buffer. *)
Theorem hysteresis_promotes_connected {S} (ops : StackOps S Z) valid contents {HS : StackLaws ops valid contents}
    stride stack pixels (area : list Z) :
  valid stack -> (forall q, promoted stride pixels (contents stack) q -> q ∈ area) ->
  exists stack' pixels',
    perform_hysteresis ops stride (length area + length (contents stack) + 1) stack pixels = Some (stack', pixels') /\
    valid stack' /\ contents stack' = [] /\
    forall q, (promoted stride pixels (contents stack) q -> pixels' q = 255) /\
      (~ promoted stride pixels (contents stack) q -> pixels' q = pixels q).
Proof.
  intros Hv Ha.
  destruct (perform_hysteresis_run ops stride pixels (contents stack) area Ha
    (length area + length (contents stack) + 1) stack pixels) as (stack' & pixels' & Heq & Hv' & Hc' & Hi'); [done| | |].
  - constructor; [by left|by left|]. intros p [Hp|[Ho Hp]]; [by left|congruence].
  - unfold work, weak. pose proof (length_filter (fun q => pixels q = 1) area). lia.
  - exists stack', pixels'. split_and!; try done. by apply (finished _ _ _ pixels').
Qed.

(** Rows of six bytes and one strong edge at 7: the diagonal 14, 21, 28 is promoted, the
    weak pixel 33 is not. *)
Definition example_pixels : Z -> Z := fun a =>
  if a =? 7 then 255 else if (a =? 14) || (a =? 21) || (a =? 28) || (a =? 33) then 1 else 0.

Lemma hysteresis_promotes_connected_witness :
  exists s0 stack' pixels',
    stack_contents 2 s0 = [7] /\
    perform_hysteresis (block_stack 2 (fun _ => true)) 6 52 s0 example_pixels = Some (stack', pixels') /\
    pixels' 28 = 255 /\ pixels' 0 = 0.
Proof.
  destruct (make_stack_ok (T := Z) 2 (fun _ => true) ltac:(lia) ltac:(done)) as (e & _ & He & Hce).
  destruct (stack_push_ok 2 (fun _ => true) ltac:(lia) (fun _ => eq_refl) e 7 He) as (s0 & _ & Hs0 & Hc0).
  destruct (hysteresis_promotes_connected (block_stack 2 (fun _ => true)) (valid_stack 2) (stack_contents 2)
    (HS := block_stack_laws 2 (fun _ => true) ltac:(lia) (fun _ => eq_refl)) 6 s0 example_pixels (seqZ 0 50))
    as (stack' & pixels' & Heq & _ & _ & Hp).
  - exact Hs0.
  - intros q Hq%promoted_weak. apply elem_of_seqZ. unfold example_pixels in Hq. revert Hq. case_cmp; cbn; lia.
  - rewrite Hc0, Hce in Heq, Hp. exists s0, stack', pixels'. split; [by rewrite Hc0, Hce|]. split; [exact Heq|]. split.
    + apply Hp. eapply (promoted_by_weak _ _ _ 21); [|exists 1, 1; lia|done].
      eapply (promoted_by_weak _ _ _ 14); [|exists 1, 1; lia|done].
      eapply (promoted_by_strong _ _ _ 7); [by left|exists 1, 1; lia|done].
    + destruct (Hp 0) as [_ H0]. rewrite H0; [done|]. intros Hq. by apply promoted_weak in Hq.
Defined.
