(* ===== verification/Canny.v ===== *)
(** * Gradient classification and non-maxima suppression of Canny

    [atan_classification], [directional_masking] and the vector body of
    [non_maxima_suppression_and_high_thresholding] of [analysis/canny_neon.cpp], lane by
    lane and, for the table lookups, byte by byte.  The compile-time option
    [KLEIDICV_CANNY_ALGORITHM_CONFORM_OPENCV] is the parameter [conform_opencv]. *)

From S2P Require Import Prelude CTypes Utils Vectors.

(** ** Instructions *)

(** [vabsq]; comparisons, whose lanes are 0 or -1 as signed integers; [veorq], [vandq],
    [vorrq]. *)
Definition vabs (T : int_type) (a : list Z) : list Z := map (fun x => static_cast T (Z.abs x)) a.
Definition mask (c : bool) : Z := if c then -1 else 0.
Definition vcge (a b : list Z) : list Z := zip_with (fun x y => mask (y <=? x)) a b.
Definition vcgt (a b : list Z) : list Z := zip_with (fun x y => mask (y <? x)) a b.
Definition vcltz (a : list Z) : list Z := map (fun x => mask (x <? 0)) a.
Definition vcgtz (a : list Z) : list Z := map (fun x => mask (0 <? x)) a.
Definition veor (a b : list Z) : list Z := zip_with Z.lxor a b.
Definition vand (a b : list Z) : list Z := zip_with Z.land a b.
Definition vorr (a b : list Z) : list Z := zip_with Z.lor a b.
Definition vshr_n (a : list Z) (n : Z) : list Z := map (fun x => Z.shiftr x n) a.
Definition vmul_n (T : int_type) (a : list Z) (x : Z) : list Z := map (fun y => static_cast T (y * x)) a.

(** [vreinterpretq_s8_s16], [vreinterpretq_s16_s8] and [vreinterpretq_u16_s8] on a
    little-endian machine; [vtrn1q_s8]. *)
Definition vreinterpretq_s8_s16 (a : list Z) : list Z :=
  flat_map (fun x => [static_cast int8 x; static_cast int8 (Z.shiftr x 8)]) a.
Fixpoint join_bytes (T : int_type) (a : list Z) : list Z :=
  match a with
  | lo :: hi :: a => static_cast T (lo mod 256 + 256 * (hi mod 256)) :: join_bytes T a
  | _ => []
  end.
Definition vreinterpretq_s16_s8 : list Z -> list Z := join_bytes int16.
Definition vreinterpretq_u16_s8 : list Z -> list Z := join_bytes uint16.
Fixpoint vtrn1q_s8 (a b : list Z) : list Z :=
  match a, b with
  | x :: _ :: a, y :: _ :: b => x :: y :: vtrn1q_s8 a b
  | _, _ => []
  end.

(** [vqtbl1q_s8] and [vqtbl3q_s8]: an index is an unsigned byte, and one past the end of the
    table gives 0; [vqtbx3q_s8] keeps the byte of its first operand instead. *)
Definition vqtblq_s8 (table indices : list Z) : list Z :=
  map (fun i => let i := i mod 256 in if i <? Z.of_nat (length table) then table !!! Z.to_nat i else 0) indices.
Definition vqtbxq_s8 (a table indices : list Z) : list Z :=
  zip_with (fun x i => let i := i mod 256 in if i <? Z.of_nat (length table) then table !!! Z.to_nat i else x) a indices.

(** [vqaddq_s16]. *)
Definition vqaddq_s16 (a b : list Z) : list Z := zip_with (fun x y => clamp_to int16 (x + y)) a b.

(** ** Classification of the gradient *)

Definition kScale : Z := 15.
Definition k22p5 : Z := 13573.

Definition classify_half (half : list Z -> list Z) (abs_gx abs_gy : list Z) : list Z :=
  let gx_22p5 := vmul_n int32 (half abs_gx) k22p5 in
  let gy_scaled := vshl_n int32 (half abs_gy) kScale in
  let cmp_22p5 := vcge gy_scaled gx_22p5 in
  let gx_67p5 := vadd int32 gx_22p5 (vshl_n int32 (half abs_gx) (kScale + 1)) in
  let cmp_67p5 := vcgt gy_scaled gx_67p5 in
  let res := vadd int32 cmp_22p5 cmp_67p5 in
  vmov int16 (vshl_n int32 res 1).

Definition atan_classification (gx gy : list Z) : list Z :=
  let abs_gx := vabs int16 gx in
  let abs_gy := vabs int16 gy in
  let xor_gx_gy := veor gx gy in
  let cmp_sign := vcltz xor_gx_gy in
  let res := vcombine (classify_half vget_low abs_gx abs_gy) (classify_half vget_high abs_gx abs_gy) in
  vabs int16 (vadd int16 res cmp_sign).

(** The category of a gradient: by the slope against tan(pi/8) and tan(3 pi/8) in units
    of [2^-15], and odd when the components have opposite signs. *)
Definition category (gx gy : Z) : Z :=
  let opposite := if xorb (gx <? 0) (gy <? 0) then 1 else 0 in
  if Z.abs gy * 2 ^ 15 <? Z.abs gx * k22p5 then opposite
  else if Z.abs gy * 2 ^ 15 <=? Z.abs gx * (k22p5 + 2 ^ 16) then 2 + opposite
  else 4 + opposite.

(** The gradients for which no comparison overflows. *)
Definition gradient_ok (gx gy : Z) : Prop := Z.abs gx <= 27145 /\ Z.abs gy <= 32767.

Ltac canny_lanes :=
  match goal with
  | |- lanes_of _ (vabs _ _) _ => eapply lanes_of_map; canny_lanes
  | |- lanes_of _ (vcltz _) _ => eapply lanes_of_map; canny_lanes
  | |- lanes_of _ (vqtblq_s8 _ _) _ => eapply lanes_of_map; canny_lanes
  | |- lanes_of _ (vqtbxq_s8 _ _ _) _ => eapply lanes_of_zip_with; canny_lanes
  | |- lanes_of _ (vqaddq_s16 _ _) _ => eapply lanes_of_zip_with; canny_lanes
  | |- lanes_of _ (vcgtz _) _ => eapply lanes_of_map; canny_lanes
  | |- lanes_of _ (vshr_n _ _) _ => eapply lanes_of_map; canny_lanes
  | |- lanes_of _ (vmul_n _ _ _) _ => eapply lanes_of_map; canny_lanes
  | |- lanes_of _ (vshl_n _ _ _) _ => eapply lanes_of_map; canny_lanes
  | |- lanes_of _ (vmov _ _) _ => eapply lanes_of_map; canny_lanes
  | |- lanes_of _ (vcge _ _) _ => eapply lanes_of_zip_with; canny_lanes
  | |- lanes_of _ (vcgt _ _) _ => eapply lanes_of_zip_with; canny_lanes
  | |- lanes_of _ (veor _ _) _ => eapply lanes_of_zip_with; canny_lanes
  | |- lanes_of _ (vand _ _) _ => eapply lanes_of_zip_with; canny_lanes
  | |- lanes_of _ (vorr _ _) _ => eapply lanes_of_zip_with; canny_lanes
  | |- lanes_of _ (vadd _ _ _) _ => eapply lanes_of_zip_with; canny_lanes
  | |- lanes_of ?n (vget_low _) _ => apply (lanes_of_low n); canny_lanes
  | |- lanes_of ?n (vget_high _) _ => eapply (lanes_of_high n); canny_lanes
  | |- lanes_of _ (vcombine _ _) _ =>
      eapply (lanes_of_app 4); [canny_lanes|eapply lanes_of_ext; [|canny_lanes]; intros ? _; reflexivity]
  | |- lanes_of _ (vdup_n _ _) _ => apply lanes_of_dup
  | |- _ => first [eassumption|apply lanes_of_vector; done]
  end.

Lemma lxor_sign x y : (Z.lxor x y <? 0) = xorb (x <? 0) (y <? 0).
Proof.
  pose proof (Z.lxor_nonneg x y) as [Hn1 Hn2].
  destruct (Z.ltb_spec (Z.lxor x y) 0), (Z.ltb_spec x 0), (Z.ltb_spec y 0); cbn [xorb]; try done; exfalso.
  - apply (Zlt_not_le _ _ H). apply Hn2. lia.
  - apply (Zlt_not_le _ _ H). apply Hn2. lia.
  - apply Hn1 in H. lia.
  - apply Hn1 in H. lia.
Qed.

Lemma atan_classification_lane gx gy l : length gx = 8%nat -> length gy = 8%nat -> (l < 8)%nat ->
  gradient_ok (gx !!! l) (gy !!! l) ->
  atan_classification gx gy !!! l = category (gx !!! l) (gy !!! l).
Proof.
  intros Hx Hy Hl [Hgx Hgy].
  eassert (lanes_of 8 (atan_classification gx gy) _) as [_ Hlane].
  { unfold atan_classification, classify_half. canny_lanes. }
  rewrite Hlane by done. clear Hlane. set (x := gx !!! l) in *. set (y := gy !!! l) in *.
  unfold category, kScale, k22p5. rewrite (cast_s16 (Z.abs x)), (cast_s16 (Z.abs y)) by lia.
  assert (forall c, (mask c = 0 \/ mask c = -1)) as Hmask by (intros []; auto).
  rewrite !Z.shiftl_mul_pow2 by lia. change (2 ^ 15) with 32768. change (2 ^ (15 + 1)) with 65536. change (2 ^ 16) with 65536.
  rewrite (cast_s32 (Z.abs x * 13573)), (cast_s32 (Z.abs y * 32768)), (cast_s32 (Z.abs x * 65536)) by lia.
  rewrite (cast_s32 (Z.abs x * 13573 + Z.abs x * 65536)) by lia.
  rewrite lxor_sign.
  destruct (xorb (x <? 0) (y <? 0)); case_cmp; try (exfalso; lia); vm_compute; reflexivity.
Qed.

(** ** Directional masking *)

(** The rows of [kIndices]. *)
Definition lane_offsets_table : list Z := seqZ 16 16.
Definition prev_row_indices (conform_opencv : bool) : list Z :=
  if conform_opencv then [32; 32; -2; 2; 0; 0; 32; 32; 32; 32; 32; 32; 32; 32; 32; 32]
  else [32; 32; 2; -2; 0; 0; 32; 32; 32; 32; 32; 32; 32; 32; 32; 32].
Definition next_row_indices (conform_opencv : bool) : list Z :=
  if conform_opencv then [32; 32; 2; -2; 0; 0; 32; 32; 32; 32; 32; 32; 32; 32; 32; 32]
  else [32; 32; -2; 2; 0; 0; 32; 32; 32; 32; 32; 32; 32; 32; 32; 32].
Definition current_row_indices : list Z := [-2; -2; 32; 32; 32; 32; 32; 32; 32; 32; 32; 32; 32; 32; 32; 32].

(** The rows are the three vectors that start at [&prev_rows[0]] and so on. *)
Definition directional_masking (conform_opencv : bool) (prev_rows curr_rows next_rows directions : list Z)
    : list Z * list Z * list Z :=
  let dir := vtrn1q_s8 (vreinterpretq_s8_s16 directions) (vreinterpretq_s8_s16 directions) in
  let lane_offsets := lane_offsets_table in
  let prev_row := vreinterpretq_s8_s16 prev_rows in
  let tmp_indices_0 := vqtblq_s8 (prev_row_indices conform_opencv) dir in
  let tmp_indices_1 := vadd int8 tmp_indices_0 lane_offsets in
  let prev_row_by_dir := vqtblq_s8 prev_row tmp_indices_1 in
  let next_row := vreinterpretq_s8_s16 next_rows in
  let opencv_tmp_indices_0 := vqtblq_s8 (next_row_indices conform_opencv) dir in
  let tmp_indices_1 := vadd int8 opencv_tmp_indices_0 lane_offsets in
  let next_row_by_dir := vqtblq_s8 next_row tmp_indices_1 in
  let curr_row := vreinterpretq_s8_s16 curr_rows in
  let tmp_indices_0 := vqtblq_s8 current_row_indices dir in
  let tmp_indices_1 := vadd int8 tmp_indices_0 lane_offsets in
  let prev_row_by_dir := vqtbxq_s8 prev_row_by_dir curr_row tmp_indices_1 in
  let tmp_indices_0 := vabs int8 tmp_indices_0 in
  let tmp_indices_1 := vadd int8 tmp_indices_0 lane_offsets in
  let next_row_by_dir := vqtbxq_s8 next_row_by_dir curr_row tmp_indices_1 in
  let prev_row_by_directions := vreinterpretq_s16_s8 prev_row_by_dir in
  let curr_row_by_directions := vreinterpretq_s16_s8 (take 16 (drop 16 curr_row)) in
  let next_row_by_directions := vreinterpretq_s16_s8 next_row_by_dir in
  let next_row_by_directions :=
    if conform_opencv then
      let opencv_tmp_indices_1 := vshr_n (vreinterpretq_u16_s8 opencv_tmp_indices_0) 9 in
      let opencv_tmp_indices_1 := vand opencv_tmp_indices_1 (vdup_n 8 0xFF01) in
      vqaddq_s16 next_row_by_directions (vmov int16 opencv_tmp_indices_1)
    else next_row_by_directions in
  (prev_row_by_directions, curr_row_by_directions, next_row_by_directions).

(** Along which axis a category looks, as the column of the neighbour in the row above:
    the horizontal categories look in the current row. *)
Definition horizontal (d : Z) : bool := d <=? 1.
Definition diagonal (d : Z) : bool := (d =? 2) || (d =? 3).
Definition above_column (conform_opencv : bool) (d : Z) : Z :=
  if d =? 2 then if conform_opencv then -1 else 1
  else if d =? 3 then if conform_opencv then 1 else -1
  else 0.

(** The two neighbours of a pixel along the direction of category [d]; [at_ r c] is the
    value [r] rows down and [c] columns right of the pixel. *)
Definition before (conform_opencv : bool) (d : Z) (at_ : Z -> Z -> Z) : Z :=
  if horizontal d then at_ 0 (-1) else at_ (-1) (above_column conform_opencv d).
Definition after (conform_opencv : bool) (d : Z) (at_ : Z -> Z -> Z) : Z :=
  if horizontal d then at_ 0 1 else at_ 1 (- above_column conform_opencv d).

(** ** Bytes of lanes *)

Definition byte_of (p : nat) (x : Z) : Z := if decide (p = 0%nat) then static_cast int8 x else static_cast int8 (Z.shiftr x 8).

Lemma length_bytes a : length (vreinterpretq_s8_s16 a) = (2 * length a)%nat.
Proof. induction a as [|x a IH]; [done|]. cbn [vreinterpretq_s8_s16 flat_map app length] in *. unfold vreinterpretq_s8_s16 in IH. lia. Qed.

Lemma bytes_lookup a l p : (l < length a)%nat -> (p < 2)%nat ->
  vreinterpretq_s8_s16 a !!! (2 * l + p)%nat = byte_of p (a !!! l).
Proof.
  revert l. induction a as [|x a IH]; intros l Hl Hp; cbn [length] in Hl; [lia|].
  destruct l as [|l].
  - by destruct p as [|[|p]]; [..|lia].
  - replace (2 * S l + p)%nat with (S (S (2 * l + p))) by lia. apply IH; lia.
Qed.

Lemma join_lookup T b l : (2 * l + 1 < length b)%nat ->
  join_bytes T b !!! l = static_cast T (b !!! (2 * l)%nat mod 256 + 256 * (b !!! (2 * l + 1)%nat mod 256)).
Proof.
  revert l. assert (forall n b l, (length b <= n)%nat -> (2 * l + 1 < length b)%nat ->
    join_bytes T b !!! l = static_cast T (b !!! (2 * l)%nat mod 256 + 256 * (b !!! (2 * l + 1)%nat mod 256))) as H.
  { induction n as [|n IH]; intros [|x [|y c]] l Hn Hl; cbn [length] in *; try lia.
    destruct l as [|l]; [done|]. cbn [join_bytes]. rewrite lookup_total_cons_ne_0 by lia. cbn [Init.Nat.pred].
    rewrite IH by lia. replace (2 * S l)%nat with (S (S (2 * l))) by lia. done. }
  intros l Hl. by apply (H (length b)).
Qed.

Lemma length_join T n b : length b = (2 * n)%nat -> length (join_bytes T b) = n.
Proof.
  revert b. induction n as [|n IH]; intros [|x [|y c]] Hl; cbn [length] in *; try lia; [done|].
  cbn [join_bytes length]. by rewrite IH by lia.
Qed.

Lemma trn1_lookup n a l p : length a = (2 * n)%nat -> (l < n)%nat -> (p < 2)%nat ->
  length (vtrn1q_s8 a a) = (2 * n)%nat /\ vtrn1q_s8 a a !!! (2 * l + p)%nat = a !!! (2 * l)%nat.
Proof.
  revert a l. induction n as [|n IH]; intros [|x [|y c]] l Hl Hn Hp; cbn [length] in *; try lia.
  cbn [vtrn1q_s8 length]. split.
  - destruct n as [|n]; [by destruct c|]. destruct (IH c 0%nat ltac:(lia) ltac:(lia) Hp) as [-> _]. lia.
  - destruct l as [|l]; [by destruct p as [|[|p]]; [..|lia]|].
    replace (2 * S l)%nat with (S (S (2 * l))) by lia. cbn [Nat.add].
    rewrite 4!lookup_total_cons_ne_0 by lia. cbn [Init.Nat.pred]. apply IH; lia.
Qed.

Lemma join_byte_of x : in_type int16 x ->
  static_cast int16 (byte_of 0 x mod 256 + 256 * (byte_of 1 x mod 256)) = x.
Proof.
  intros Hx. unfold in_type, int_min, int_max in Hx. cbn in Hx.
  unfold byte_of. rewrite decide_True, decide_False by done. rewrite Z.shiftr_div_pow2 by lia. change (2 ^ 8) with 256.
  assert (forall y, static_cast int8 y mod 256 = y mod 256) as Hc.
  { intros y. unfold static_cast. cbn [int8 is_signed width andb]. change (2 ^ (8 - 1)) with 128. change (2 ^ 8) with 256.
    destruct (Z.leb_spec 128 (y mod 256)); mod_lia. }
  rewrite !Hc. unfold static_cast. cbn [int16 is_signed width andb]. change (2 ^ (16 - 1)) with 32768. change (2 ^ 16) with 65536.
  destruct (Z.leb_spec 32768 ((x mod 256 + 256 * (x / 256 mod 256)) mod 65536)); mod_lia.
Qed.

(** ** The masked rows, lane by lane *)

Lemma lane_offsets_at b : (b < 16)%nat -> lane_offsets_table !!! b = 16 + Z.of_nat b.
Proof. intros Hb. unfold lane_offsets_table. apply list_lookup_total_correct, lookup_seqZ. lia. Qed.

Lemma cast_s8_mod x : 0 <= x < 128 -> static_cast int8 x mod 256 = x.
Proof.
  intros Hx. unfold static_cast. cbn [int8 is_signed width andb]. change (2 ^ (8 - 1)) with 128. change (2 ^ 8) with 256.
  rewrite (Z.mod_small x) by lia. destruct (Z.leb_spec 128 x); [lia|]. apply Z.mod_small. lia.
Qed.

(** An index of the tables that is not 32 moves by whole lanes, and 32 misses the rows. *)
Lemma pick_lane row l p o : length row = 24%nat -> (l < 8)%nat -> (p < 2)%nat -> -1 <= o <= 1 ->
  let i := static_cast int8 (2 * o + lane_offsets_table !!! (2 * l + p)%nat) mod 256 in
  (i <? Z.of_nat (length (vreinterpretq_s8_s16 row))) = true /\
  vreinterpretq_s8_s16 row !!! Z.to_nat i = byte_of p (row !!! Z.to_nat (8 + Z.of_nat l + o)).
Proof.
  intros Hr Hl Hp Ho. rewrite lane_offsets_at, length_bytes, Hr by lia. cbv zeta. rewrite cast_s8_mod by lia. split.
  - apply Z.ltb_lt. lia.
  - rewrite <- bytes_lookup by lia. f_equal. lia.
Qed.

Lemma pick_none row l p : length row = 24%nat -> (l < 8)%nat -> (p < 2)%nat ->
  (static_cast int8 (32 + lane_offsets_table !!! (2 * l + p)%nat) mod 256 <? Z.of_nat (length (vreinterpretq_s8_s16 row))) = false.
Proof. intros Hr Hl Hp. rewrite lane_offsets_at, length_bytes, Hr by lia. rewrite cast_s8_mod by lia. apply Z.ltb_ge. lia. Qed.

Lemma above_column_range conform_opencv d : -1 <= above_column conform_opencv d <= 1.
Proof. unfold above_column. destruct (d =? 2), (d =? 3), conform_opencv; lia. Qed.

Section masking.
Context (conform_opencv : bool) (prev_rows curr_rows next_rows directions : list Z).
Hypothesis prev_length : length prev_rows = 24%nat.
Hypothesis curr_length : length curr_rows = 24%nat.
Hypothesis next_length : length next_rows = 24%nat.
Hypothesis directions_length : length directions = 8%nat.
Context (l : nat).
Hypothesis lane_ok : (l < 8)%nat.
Context (d : Z).
Hypothesis direction_at : directions !!! l = d.
Hypothesis direction_ok : 0 <= d <= 5.

(** The value [r] rows and [c] columns away from the pixel of lane [l]. *)
Definition at_lane (r c : Z) : Z :=
  (if r =? 0 then curr_rows else if r <? 0 then prev_rows else next_rows) !!! Z.to_nat (8 + Z.of_nat l + c).

Let dir := vtrn1q_s8 (vreinterpretq_s8_s16 directions) (vreinterpretq_s8_s16 directions).

Lemma dir_lane p : (p < 2)%nat ->
  length dir = 16%nat /\ dir !!! (2 * l + p)%nat mod 256 = d.
Proof.
  intros Hp. assert (length (vreinterpretq_s8_s16 directions) = (2 * 8)%nat) as Hb by (rewrite length_bytes; lia).
  unfold dir. destruct (trn1_lookup 8 _ l p Hb lane_ok Hp) as [-> ->]. split; [done|].
  replace (2 * l)%nat with (2 * l + 0)%nat by lia. rewrite bytes_lookup by lia. rewrite direction_at. apply cast_s8_mod. lia.
Qed.

Lemma conform_tables : forall k, 0 <= k <= 5 ->
  prev_row_indices conform_opencv !!! Z.to_nat k = (if horizontal k then 32 else 2 * above_column conform_opencv k) /\
  next_row_indices conform_opencv !!! Z.to_nat k = (if horizontal k then 32 else 2 * - above_column conform_opencv k) /\
  current_row_indices !!! Z.to_nat k = (if horizontal k then 2 * -1 else 32).
Proof.
  intros k Hk. assert (k = 0 \/ k = 1 \/ k = 2 \/ k = 3 \/ k = 4 \/ k = 5) as [->|[->|[->|[->|[->| ->]]]]] by lia;
    destruct conform_opencv; done.
Qed.

(** Looking up the lanes of a row through a table of indices. *)
Lemma table_lane table p : (p < 2)%nat -> length table = 16%nat ->
  length (vqtblq_s8 table dir) = 16%nat /\
  vqtblq_s8 table dir !!! (2 * l + p)%nat = table !!! Z.to_nat d.
Proof.
  intros Hp Ht. destruct (dir_lane p Hp) as [Hlen Hd].
  eassert (lanes_of 16 (vqtblq_s8 table dir) _) as [Hl Hlane] by canny_lanes. split; [done|].
  rewrite Hlane by lia. rewrite Hd, Ht. cbv zeta. destruct (Z.ltb_spec d (Z.of_nat 16)); [done|lia].
Qed.

(** One output of the masking before the bytes are joined: a row and the current row,
    each looked up through indices that are 32 or move by whole lanes. *)
Lemma masked_byte row tmp ctmp p o c : (p < 2)%nat -> length row = 24%nat ->
  length tmp = 16%nat -> length ctmp = 16%nat -> -1 <= o <= 1 -> -1 <= c <= 1 ->
  tmp !!! (2 * l + p)%nat = (if horizontal d then 32 else 2 * o) ->
  ctmp !!! (2 * l + p)%nat = (if horizontal d then 2 * c else 32) ->
  let out := vqtbxq_s8 (vqtblq_s8 (vreinterpretq_s8_s16 row) (vadd int8 tmp lane_offsets_table))
    (vreinterpretq_s8_s16 curr_rows) (vadd int8 ctmp lane_offsets_table) in
  length out = 16%nat /\
  out !!! (2 * l + p)%nat = byte_of p (if horizontal d then curr_rows !!! Z.to_nat (8 + Z.of_nat l + c)
    else row !!! Z.to_nat (8 + Z.of_nat l + o)).
Proof.
  intros Hp Hr Ht Hct Ho Hc Hto Hcto out. assert (length lane_offsets_table = 16%nat) by done.
  eassert (lanes_of 16 out _) as [Hl Hlane] by (unfold out; canny_lanes). split; [done|].
  rewrite Hlane by lia. cbv beta. rewrite Hto, Hcto. cbv zeta. destruct (horizontal d).
  - destruct (pick_lane curr_rows l p c curr_length lane_ok Hp Hc) as [-> Hv]. exact Hv.
  - rewrite (pick_none curr_rows l p curr_length lane_ok Hp).
    destruct (pick_lane row l p o Hr lane_ok Hp Ho) as [-> Hv]. exact Hv.
Qed.

Lemma joined_lane out x : length out = 16%nat -> in_type int16 x ->
  (forall p, (p < 2)%nat -> out !!! (2 * l + p)%nat = byte_of p x) -> vreinterpretq_s16_s8 out !!! l = x.
Proof.
  intros Hl Hx Hb. unfold vreinterpretq_s16_s8. rewrite join_lookup by lia.
  pose proof (Hb 0%nat ltac:(lia)) as H0. rewrite Nat.add_0_r in H0. rewrite H0, (Hb 1%nat) by lia. by apply join_byte_of.
Qed.

Hypothesis rows_ok : forall k, (k < 24)%nat -> in_type int16 (prev_rows !!! k) /\ in_type int16 (curr_rows !!! k) /\ in_type int16 (next_rows !!! k).

Lemma at_lane_type r c : -1 <= c <= 1 -> in_type int16 (at_lane r c).
Proof.
  intros Hc. unfold at_lane. destruct (rows_ok (Z.to_nat (8 + Z.of_nat l + c)) ltac:(lia)) as (? & ? & ?).
  by destruct (r =? 0), (r <? 0).
Qed.

Lemma abs_index_lane p : (p < 2)%nat ->
  length (vabs int8 (vqtblq_s8 current_row_indices dir)) = 16%nat /\
  vabs int8 (vqtblq_s8 current_row_indices dir) !!! (2 * l + p)%nat = (if horizontal d then 2 * 1 else 32).
Proof.
  intros Hp. destruct (table_lane current_row_indices p Hp eq_refl) as [Hl Hv].
  eassert (lanes_of 16 (vabs int8 (vqtblq_s8 current_row_indices dir)) _) as [Hl' Hlane] by canny_lanes.
  split; [done|]. rewrite Hlane by lia. cbv beta. rewrite Hv. destruct (conform_tables d direction_ok) as (_ & _ & ->).
  by destruct (horizontal d).
Qed.

(** What conforming to OpenCV adds to the lane below. *)
Lemma opencv_increment :
  static_cast int16 (Z.land (Z.shiftr (vreinterpretq_u16_s8 (vqtblq_s8 (next_row_indices conform_opencv) dir) !!! l) 9) 0xFF01)
  = if diagonal d then 1 else 0.
Proof.
  assert (length (next_row_indices conform_opencv) = 16%nat) as Ht by by destruct conform_opencv.
  destruct (table_lane _ 0 ltac:(lia) Ht) as [Hl H0]. destruct (table_lane _ 1 ltac:(lia) Ht) as [_ H1].
  unfold vreinterpretq_u16_s8. rewrite join_lookup by lia. rewrite Nat.add_0_r in H0. rewrite H0, H1.
  assert (d = 0 \/ d = 1 \/ d = 2 \/ d = 3 \/ d = 4 \/ d = 5) as [->|[->|[->|[->|[->| ->]]]]] by lia;
    destruct conform_opencv; reflexivity.
Qed.

Lemma prev_lane :
  vreinterpretq_s16_s8 (vqtbxq_s8
    (vqtblq_s8 (vreinterpretq_s8_s16 prev_rows) (vadd int8 (vqtblq_s8 (prev_row_indices conform_opencv) dir) lane_offsets_table))
    (vreinterpretq_s8_s16 curr_rows) (vadd int8 (vqtblq_s8 current_row_indices dir) lane_offsets_table)) !!! l
  = before conform_opencv d at_lane.
Proof.
  destruct (conform_tables d direction_ok) as (Hprev & _ & Hcurr).
  assert (length (prev_row_indices conform_opencv) = 16%nat) as Ht by by destruct conform_opencv.
  pose proof (fun p Hp => masked_byte prev_rows _ _ p (above_column conform_opencv d) (-1) Hp prev_length
    (proj1 (table_lane _ p Hp Ht)) (proj1 (table_lane current_row_indices p Hp eq_refl))
    (above_column_range conform_opencv d) ltac:(lia) (eq_trans (proj2 (table_lane _ p Hp Ht)) Hprev)
    (eq_trans (proj2 (table_lane current_row_indices p Hp eq_refl)) Hcurr)) as Hm.
  apply joined_lane; [apply (Hm 0%nat); lia| |].
  - pose proof (above_column_range conform_opencv d). unfold before. destruct (horizontal d); apply at_lane_type; lia.
  - intros p Hp. rewrite (proj2 (Hm p Hp)). unfold before, at_lane. by destruct (horizontal d).
Qed.

Lemma next_lane :
  let out := vqtbxq_s8
    (vqtblq_s8 (vreinterpretq_s8_s16 next_rows) (vadd int8 (vqtblq_s8 (next_row_indices conform_opencv) dir) lane_offsets_table))
    (vreinterpretq_s8_s16 curr_rows) (vadd int8 (vabs int8 (vqtblq_s8 current_row_indices dir)) lane_offsets_table) in
  length out = 16%nat /\ vreinterpretq_s16_s8 out !!! l = after conform_opencv d at_lane.
Proof.
  destruct (conform_tables d direction_ok) as (_ & Hnext & _).
  assert (length (next_row_indices conform_opencv) = 16%nat) as Ht by by destruct conform_opencv.
  pose proof (above_column_range conform_opencv d) as Ha.
  pose proof (fun p Hp => masked_byte next_rows _ _ p (- above_column conform_opencv d) 1 Hp next_length
    (proj1 (table_lane _ p Hp Ht)) (proj1 (abs_index_lane p Hp))
    ltac:(lia) ltac:(lia) (eq_trans (proj2 (table_lane _ p Hp Ht)) Hnext) (proj2 (abs_index_lane p Hp))) as Hm.
  cbv zeta. split; [apply (Hm 0%nat); lia|]. apply joined_lane; [apply (Hm 0%nat); lia| |].
  - unfold after. destruct (horizontal d); apply at_lane_type; lia.
  - intros p Hp. rewrite (proj2 (Hm p Hp)). unfold after, at_lane. by destruct (horizontal d).
Qed.

Lemma current_lane : vreinterpretq_s16_s8 (take 16 (drop 16 (vreinterpretq_s8_s16 curr_rows))) !!! l = at_lane 0 0.
Proof.
  apply joined_lane; [rewrite length_take, length_drop, length_bytes; lia|apply at_lane_type; lia|].
  intros p Hp. rewrite list_lookup_total_alt, lookup_take_lt, lookup_drop, <- list_lookup_total_alt by lia.
  replace (16 + (2 * l + p))%nat with (2 * (8 + l) + p)%nat by lia. rewrite bytes_lookup by lia.
  unfold at_lane. cbn [Z.eqb]. do 2 f_equal. lia.
Qed.

Lemma directional_masking_lane :
  let '(p, c, n) := directional_masking conform_opencv prev_rows curr_rows next_rows directions in
  p !!! l = before conform_opencv d at_lane /\ c !!! l = at_lane 0 0 /\
  n !!! l = (if conform_opencv && diagonal d then clamp_to int16 (after conform_opencv d at_lane + 1)
             else after conform_opencv d at_lane).
Proof.
  destruct next_lane as [Hl Hn].
  refine (conj prev_lane (conj current_lane _)). destruct conform_opencv eqn:Hconf; cbn [andb]; [|exact Hn].
  fold dir. set (out := vreinterpretq_s16_s8 _) in *.
  assert (length out = 8%nat) as Hlo by (by apply (length_join _ 8)).
  assert (length (vreinterpretq_u16_s8 (vqtblq_s8 (next_row_indices true) dir)) = 8%nat) as Hli.
  { apply length_join. by destruct (table_lane (next_row_indices true) 0 ltac:(lia) eq_refl) as [-> _]. }
  eassert (lanes_of 8 (vqaddq_s16 out (vmov int16 (vand (vshr_n (vreinterpretq_u16_s8
    (vqtblq_s8 (next_row_indices true) dir)) 9) (vdup_n 8 0xFF01)))) _) as [_ Hlane] by canny_lanes.
  rewrite Hlane by done. cbv beta. rewrite Hn. pose proof opencv_increment as Hi. rewrite Hconf in Hi. rewrite Hi.
  assert (int_min int16 <= int_max int16) by done.
  destruct (diagonal d); [done|]. rewrite Z.add_0_r. unfold after. pose proof (above_column_range conform_opencv d).
  destruct (horizontal d).
  - pose proof (at_lane_type 0 1 ltac:(lia)) as Ht. unfold in_type in Ht. unfold clamp_to. lia.
  - pose proof (at_lane_type 1 (- above_column true d) ltac:(rewrite <- Hconf in *; lia)) as Ht. unfold in_type in Ht. unfold clamp_to. lia.
Qed.
End masking.
(** ** Non-maxima suppression *)

(** [is_vect_len_memory_null]: sixteen bytes that are all zero. *)
Definition is_vect_len_memory_null (data : list Z) : bool := forallb (Z.eqb 0) data.

Definition kPositionBits : list Z := [0x1; 0x2; 0x4; 0x8; 0x10; 0x20; 0x40; 0x80].

(** [vaddvq_s16]. *)
Definition vaddvq_s16 (a : list Z) : Z := static_cast int16 (foldr Z.add 0 a).

(** The body of [handle_row] from the gradients and the magnitudes to [result] and
    [strong_edges]. *)
Definition suppress (conform_opencv : bool) (gx gy prev_rows curr_rows next_rows high_threshold_vec : list Z)
    : list Z * Z :=
  let directions := atan_classification gx gy in
  let '(prev_row_by_directions, curr_row_by_directions, next_row_by_directions) :=
    directional_masking conform_opencv prev_rows curr_rows next_rows directions in
  let is_greater_than_prev := vcgt curr_row_by_directions prev_row_by_directions in
  let is_greaterequal_than_next := vcge curr_row_by_directions next_row_by_directions in
  let non_max_result := vand curr_row_by_directions (vand is_greater_than_prev is_greaterequal_than_next) in
  let is_strong_edge := vmov uint16 (vcgt non_max_result high_threshold_vec) in
  let is_weak_edge := vshr_n (vmov uint16 (vcgtz non_max_result)) 15 in
  let result := vmov uint8 (vorr is_strong_edge is_weak_edge) in
  let strong_edges := vaddvq_s16 (vmov int16 (vand is_strong_edge kPositionBits)) in
  (result, strong_edges).

(** The magnitude of a pixel if it is a maximum across its edge, and 0 otherwise. *)
Definition thinned (conform_opencv : bool) (gx gy : Z) (at_ : Z -> Z -> Z) : Z :=
  let d := category gx gy in
  let m := at_ 0 0 in
  let next_ok := if conform_opencv && diagonal d then after conform_opencv d at_ <? m else after conform_opencv d at_ <=? m in
  if (before conform_opencv d at_ <? m) && next_ok then m else 0.

(** Strong, weak or no edge. *)
Definition edge_value (high v : Z) : Z := if high <? v then 255 else if 0 <? v then 1 else 0.

Lemma category_range gx gy : 0 <= category gx gy <= 5.
Proof. unfold category. destruct (xorb _ _); case_cmp; lia. Qed.

Lemma length_directional_masking conform p c n d :
  length p = 24%nat -> length c = 24%nat -> length n = 24%nat -> length d = 8%nat ->
  let '(rp, rc, rn) := directional_masking conform p c n d in
  length rp = 8%nat /\ length rc = 8%nat /\ length rn = 8%nat.
Proof.
  intros Hp Hc Hn Hd. unfold directional_masking. cbv zeta.
  set (dir := vtrn1q_s8 _ _).
  assert (length dir = 16%nat) as Hdir.
  { apply (trn1_lookup 8 (vreinterpretq_s8_s16 d) 0 0); rewrite ?length_bytes; lia. }
  assert (length lane_offsets_table = 16%nat) as Hlo by done.
  assert (forall a t i, length a = 16%nat -> length i = 16%nat -> length (vqtbxq_s8 a t (vadd int8 i lane_offsets_table)) = 16%nat) as Hx.
  { intros a t i Ha Hi. unfold vqtbxq_s8, vadd. rewrite !length_zip_with. lia. }
  assert (forall t i, length (vqtblq_s8 t i) = length i) as Hl by (intros; apply length_map).
  assert (forall t u, length (vqtblq_s8 t (vadd int8 (vqtblq_s8 u dir) lane_offsets_table)) = 16%nat) as Hv.
  { intros t u. rewrite Hl. unfold vadd. rewrite length_zip_with, Hl. lia. }
  assert (forall a, length (vabs int8 a) = length a) as Hb by (intros; apply length_map).
  unfold vreinterpretq_s16_s8, vreinterpretq_u16_s8. split_and!.
  - apply length_join, Hx; [apply Hv|by rewrite Hl].
  - apply length_join. by rewrite length_take, length_drop, length_bytes, Hc.
  - assert (forall o, length o = 8%nat -> length (if conform then vqaddq_s16 o (vmov int16 (vand (vshr_n (join_bytes uint16
      (vqtblq_s8 (next_row_indices conform) dir)) 9) (vdup_n 8 0xFF01))) else o) = 8%nat) as Ho.
    { intros o Ho. destruct conform; [|done]. unfold vqaddq_s16, vmov, vand, vshr_n, vdup_n.
      rewrite length_zip_with, length_map, length_zip_with, length_map, length_replicate, (length_join _ 8); [lia|].
      by rewrite Hl. }
    apply Ho, length_join, Hx; [apply Hv|by rewrite Hb, Hl].
Qed.

Section lanes.
Context (conform_opencv : bool) (gx gy prev_rows curr_rows next_rows : list Z) (high : Z).
Hypothesis gx_length : length gx = 8%nat.
Hypothesis gy_length : length gy = 8%nat.
Hypothesis prev_length : length prev_rows = 24%nat.
Hypothesis curr_length : length curr_rows = 24%nat.
Hypothesis next_length : length next_rows = 24%nat.
Hypothesis gradients_ok : forall l, (l < 8)%nat -> gradient_ok (gx !!! l) (gy !!! l).
Hypothesis magnitudes_ok : forall k, (k < 24)%nat ->
  0 <= prev_rows !!! k < 2 ^ 15 - 1 /\ 0 <= curr_rows !!! k < 2 ^ 15 - 1 /\ 0 <= next_rows !!! k < 2 ^ 15 - 1.
Let value (l : nat) : Z := thinned conform_opencv (gx !!! l) (gy !!! l) (at_lane prev_rows curr_rows next_rows l).

Lemma length_atan : length (atan_classification gx gy) = 8%nat.
Proof.
  eassert (lanes_of 8 (atan_classification gx gy) _) as [Hl _]; [|exact Hl].
  unfold atan_classification, classify_half. canny_lanes.
Qed.

Lemma at_lane_bounds l r c : (l < 8)%nat -> -1 <= c <= 1 -> 0 <= at_lane prev_rows curr_rows next_rows l r c < 2 ^ 15 - 1.
Proof.
  intros Hl Hc. unfold at_lane. destruct (magnitudes_ok (Z.to_nat (8 + Z.of_nat l + c)) ltac:(lia)) as (? & ? & ?).
  by destruct (r =? 0), (r <? 0).
Qed.

Lemma after_bounds l d : (l < 8)%nat -> 0 <= after conform_opencv d (at_lane prev_rows curr_rows next_rows l) < 2 ^ 15 - 1.
Proof.
  intros Hl. unfold after, above_column. destruct (horizontal d), (d =? 2), (d =? 3), conform_opencv; apply at_lane_bounds; lia.
Qed.

(** The lanes of the three masked rows. *)
Lemma masked_lanes l : (l < 8)%nat ->
  let '(p, c, n) := directional_masking conform_opencv prev_rows curr_rows next_rows (atan_classification gx gy) in
  Z.land (c !!! l) (Z.land (mask (p !!! l <? c !!! l)) (mask (n !!! l <=? c !!! l))) = value l.
Proof.
  intros Hl. set (d := category (gx !!! l) (gy !!! l)).
  pose proof (directional_masking_lane conform_opencv prev_rows curr_rows next_rows (atan_classification gx gy)
    prev_length curr_length next_length length_atan l Hl d
    ltac:(apply atan_classification_lane; auto) (category_range _ _)) as Hd.
  assert (forall k, (k < 24)%nat -> in_type int16 (prev_rows !!! k) /\ in_type int16 (curr_rows !!! k) /\
    in_type int16 (next_rows !!! k)) as Hin.
  { intros k Hk. destruct (magnitudes_ok k Hk) as (? & ? & ?). unfold in_type. cbn. lia. }
  specialize (Hd Hin). destruct (directional_masking _ _ _ _ _) as [[p c] n]. destruct Hd as (-> & -> & ->).
  unfold value, thinned. fold d. cbv zeta. set (at_ := at_lane _ _ _ l).
  pose proof (after_bounds l d Hl) as Ha. fold at_ in Ha.
  assert (forall b1 b2 : bool, Z.land (at_ 0 0) (Z.land (mask b1) (mask b2)) = if b1 && b2 then at_ 0 0 else 0) as ->.
  { intros [] []; cbn [mask andb]; rewrite ?Z.land_m1_r, ?Z.land_0_r, ?Z.land_0_l, ?Z.land_m1_l; try done; by rewrite Z.land_m1_r. }
  destruct (conform_opencv && diagonal d); [|done].
  assert (forall a m, 0 <= a < 2 ^ 15 - 1 -> (clamp_to int16 (a + 1) <=? m) = (a <? m)) as Hc.
  { intros a m Hb. unfold clamp_to. change (int_min int16) with (-32768). change (int_max int16) with 32767. case_cmp; done || lia. }
  by rewrite Hc.
Qed.

Definition strong_lanes : list bool := map (fun l => high <? value l) (seq 0 8).

(** The number whose binary digits, lowest first, are [bits]. *)
Definition bits_value (bits : list bool) : Z := foldr (fun (b : bool) n => (if b then 1 else 0) + 2 * n) 0 bits.

Lemma position_bits bits : length bits = 8%nat ->
  vaddvq_s16 (vmov int16 (vand (map (fun b : bool => if b then 65535 else 0) bits) kPositionBits)) = bits_value bits.
Proof.
  destruct bits as [|b0 [|b1 [|b2 [|b3 [|b4 [|b5 [|b6 [|b7 [|]]]]]]]]]; try done. intros _.
  destruct b0, b1, b2, b3, b4, b5, b6, b7; reflexivity.
Qed.

Lemma suppress_lanes :
  let '(result, strong_edges) := suppress conform_opencv gx gy prev_rows curr_rows next_rows (vdup_n 8 high) in
  lanes_of 8 result (fun l => edge_value high (value l)) /\ strong_edges = bits_value strong_lanes.
Proof.
  pose proof (length_directional_masking conform_opencv prev_rows curr_rows next_rows (atan_classification gx gy)
    prev_length curr_length next_length length_atan) as Hlen.
  pose proof masked_lanes as Hm. unfold suppress.
  destruct (directional_masking _ _ _ _ _) as [[p c] n]. destruct Hlen as (Hp & Hc & Hn).
  set (non_max := vand c _).
  assert (lanes_of 8 non_max (fun l => value l)) as Hnm.
  { eapply lanes_of_ext; [|unfold non_max; canny_lanes]. intros l Hl. cbv beta. by apply Hm. }
  set (strong := vmov uint16 _).
  assert (lanes_of 8 strong (fun l => if high <? value l then 65535 else 0)) as Hs.
  { eapply lanes_of_ext; [|unfold strong; canny_lanes]. intros l Hl. cbv beta. by destruct (high <? value l). }
  split.
  - eapply lanes_of_ext; [|canny_lanes]. intros l Hl. cbv beta. unfold edge_value.
    by destruct (high <? value l), (0 <? value l).
  - rewrite (lanes_of_list 8 strong _ Hs). rewrite <- position_bits by done.
    unfold strong_lanes. by rewrite map_map.
Qed.
End lanes.
