(* ===== verification/NonMaxima.v ===== *)
(** * Non-maxima suppression and high thresholding of Canny

    [non_maxima_suppression_and_high_thresholding] of [analysis/canny_neon.cpp]: blocks of
    eight pixels, row by row; the addresses of the strong edges go onto the stack.  The
    gradients and the magnitudes are images that are read only; the magnitudes have a
    margin of one row and eight columns.  The result is memory, as the hysteresis uses it. *)

From S2P Require Import Prelude CTypes Utils Loops Vectors Stack Canny.

(** ** The driver *)

(** [vld1q]: consecutive elements of a row. *)
Definition load_row (image : Z * Z -> Z) (row column n : Z) : list Z := map (fun i => image (row, column + i)) (seqZ 0 n).

(** [vst1_u8] and [memset]. *)
Definition store_bytes (pixels : Z -> Z) (address : Z) (v : list Z) : Z -> Z :=
  fun a => if (address <=? a) && (a <? address + Z.of_nat (length v)) then v !!! Z.to_nat (a - address) else pixels a.

Section driver.
Context {S : Type} (ops : StackOps S Z) (conform_opencv : bool).
Context (horizontal_gradient vertical_gradient magnitudes : Z * Z -> Z) (dst stride high_threshold : Z).

(** [while (strong_edges)]: one bit of the 16-bit number per iteration. *)
Fixpoint push_strong (fuel : nat) (strong_edges dst_column : Z) (stack : S) : option S :=
  if strong_edges =? 0 then Some stack
  else
    match fuel with
    | O => None
    | Datatypes.S fuel =>
        match (if Z.land strong_edges 1 =? 0 then Some stack else push_back ops stack dst_column) with
        | None => None
        | Some stack => push_strong fuel (Z.shiftr strong_edges 1) (dst_column + 1) stack
        end
    end.

Definition kNumLanes : Z := 8.

(** [handle_row] in row [y]. *)
Definition handle_row (y index : Z) (st : option (S * (Z -> Z))) : option (S * (Z -> Z)) :=
  match st with
  | None => None
  | Some (stack, pixels) =>
      let dst_row := dst + y * stride in
      if is_vect_len_memory_null (load_row magnitudes (y + 1) (index + kNumLanes) kNumLanes)
      then Some (stack, store_bytes pixels (dst_row + index) (vdup_n 8 0))
      else
        let '(result, strong_edges) :=
          suppress conform_opencv
            (load_row horizontal_gradient y index kNumLanes) (load_row vertical_gradient y index kNumLanes)
            (load_row magnitudes y index (3 * kNumLanes)) (load_row magnitudes (y + 1) index (3 * kNumLanes))
            (load_row magnitudes (y + 2) index (3 * kNumLanes)) (vdup_n 8 high_threshold) in
        let pixels := store_bytes pixels (dst_row + index) result in
        match push_strong 16 strong_edges (dst_row + index) stack with
        | None => None
        | Some stack => Some (stack, pixels)
        end
  end.

Definition suppress_row (width y : Z) (st : option (S * (Z -> Z))) : option (S * (Z -> Z)) :=
  match Unroll2.unroll_n_times false 1 (handle_row y) (Unroll2.make 0 width kNumLanes, st) with
  | None => None
  | Some (_, st) => st
  end.

Definition non_maxima_suppression_and_high_thresholding (width height : Z) (stack : S) (pixels : Z -> Z)
    : option (S * (Z -> Z)) :=
  for_range 0 height (suppress_row width) (Some (stack, pixels)).
End driver.

(** ** One block *)

Lemma load_row_lane image row column n l : (l < Z.to_nat n)%nat ->
  load_row image row column n !!! l = image (row, column + Z.of_nat l).
Proof.
  intros Hl. unfold load_row. apply list_lookup_total_correct. rewrite list_lookup_fmap, lookup_seqZ_lt by lia. done.
Qed.

Lemma length_load_row image row column n : length (load_row image row column n) = Z.to_nat n.
Proof. unfold load_row. by rewrite length_map, length_seqZ. Qed.

Lemma thinned_ext conform gx gy f g : (forall r c, -1 <= r <= 1 -> -1 <= c <= 1 -> f r c = g r c) ->
  thinned conform gx gy f = thinned conform gx gy g.
Proof.
  intros He. unfold thinned, before, after. pose proof (above_column_range conform (category gx gy)).
  by rewrite !He by lia.
Qed.

Lemma bits_value_false bits : bits_value bits = 0 <-> Forall (fun b => b = false) bits.
Proof.
  assert (forall bits, 0 <= bits_value bits) as Hnn.
  { intros l. unfold bits_value in *. induction l as [|[] l IH]; cbn [foldr] in *; lia. }
  induction bits as [|b bits IH]; [by split|]. cbn [bits_value foldr]. fold (bits_value bits). pose proof (Hnn bits).
  rewrite Forall_cons, <- IH. destruct b; intuition lia.
Qed.

Section block.
Context {S : Type} (ops : StackOps S Z) {valid : S -> Prop} {contents : S -> list Z} {HS : StackLaws ops valid contents}.

Lemma push_strong_pushes bits : forall fuel dst_column stack, (length bits <= fuel)%nat -> valid stack ->
  exists stack', push_strong ops fuel (bits_value bits) dst_column stack = Some stack' /\ valid stack' /\
    forall p, p ∈ contents stack' <-> p ∈ contents stack \/ exists l : nat, bits !! l = Some true /\ p = dst_column + Z.of_nat l.
Proof.
  induction bits as [|b bits IH]; intros fuel dst_column stack Hf Hv.
  - exists stack. split_and!; [by destruct fuel|done|]. intros p. split; [by left|]. intros [Hp|(l & Hl & _)]; done.
  - cbn [length] in Hf. destruct fuel as [|fuel]; [lia|].
    destruct (decide (bits_value (b :: bits) = 0)) as [Hz|Hz].
    + exists stack. rewrite Hz. split_and!; [done|done|]. intros p. split; [by left|].
      intros [Hp|(l & Hl & _)]; [done|]. apply bits_value_false in Hz. by apply (Forall_lookup_1 _ _ _ _ Hz) in Hl.
    + cbn [push_strong]. rewrite (proj2 (Z.eqb_neq _ _) Hz).
      assert (Z.land (bits_value (b :: bits)) 1 = if b then 1 else 0) as ->.
      { change 1 with (Z.ones 1) at 1. rewrite Z.land_ones by lia. cbn [bits_value foldr]. fold (bits_value bits).
        destruct b; mod_lia. }
      assert (Z.shiftr (bits_value (b :: bits)) 1 = bits_value bits) as ->.
      { rewrite Z.shiftr_div_pow2 by lia. cbn [bits_value foldr]. fold (bits_value bits). destruct b; mod_lia. }
      assert (exists stack1, (if (if b then 1 else 0) =? 0 then Some stack else push_back ops stack dst_column) = Some stack1 /\
        valid stack1 /\ forall p, p ∈ contents stack1 <-> p ∈ contents stack \/ b = true /\ p = dst_column) as (s1 & -> & Hv1 & Hc1).
      { destruct b; cbn.
        - destruct (push_ok stack dst_column Hv) as (s1 & -> & Hv1 & Hc1). exists s1. split_and!; [done..|].
          intros p. rewrite Hc1, elem_of_cons. tauto.
        - exists stack. split_and!; [done..|]. intros p. intuition discriminate. }
      destruct (IH fuel (dst_column + 1) s1) as (s2 & -> & Hv2 & Hc2); [lia|done|].
      exists s2. split_and!; [done..|]. intros p. rewrite Hc2, Hc1. split.
      * intros [[Hp|[-> ->]]|(l & Hl & ->)]; [by left|right; exists 0%nat; split; [done|lia]|].
        right. exists (Datatypes.S l). split; [done|lia].
      * intros [Hp|([|l] & Hl & ->)]; [by left; left|left; right|right].
        -- injection Hl as ->. split; [done|lia].
        -- exists l. split; [done|lia].
Qed.
End block.

(** ** The image *)

Section image.
Context {S : Type} (ops : StackOps S Z) {valid : S -> Prop} {contents : S -> list Z} {HS : StackLaws ops valid contents}.
Context (conform_opencv : bool) (horizontal_gradient vertical_gradient magnitudes : Z * Z -> Z).
Context (dst stride high_threshold width height : Z).
Hypothesis width_ok : is_size width /\ width mod kNumLanes = 0 /\ width <= stride.
Hypothesis high_ok : 0 <= high_threshold < 2 ^ 15.
Hypothesis gradients_ok : forall y x, 0 <= y < height -> 0 <= x < width ->
  gradient_ok (horizontal_gradient (y, x)) (vertical_gradient (y, x)).
Hypothesis magnitudes_ok : forall y x, 0 <= y < height + 2 -> 0 <= x < width + 2 * kNumLanes ->
  0 <= magnitudes (y, x) < 2 ^ 15 - 1.

(** The value of a pixel that survives the suppression, and 0 otherwise. *)
Definition pixel_value (y x : Z) : Z :=
  thinned conform_opencv (horizontal_gradient (y, x)) (vertical_gradient (y, x))
    (fun r c => magnitudes (y + 1 + r, x + kNumLanes + c)).

Let run_block := handle_row ops conform_opencv horizontal_gradient vertical_gradient magnitudes dst stride high_threshold.

Lemma block_value y index l : 0 <= y < height -> 0 <= index -> index + kNumLanes <= width -> (l < 8)%nat ->
  thinned conform_opencv
    (load_row horizontal_gradient y index kNumLanes !!! l) (load_row vertical_gradient y index kNumLanes !!! l)
    (at_lane (load_row magnitudes y index (3 * kNumLanes)) (load_row magnitudes (y + 1) index (3 * kNumLanes))
      (load_row magnitudes (y + 2) index (3 * kNumLanes)) l)
  = pixel_value y (index + Z.of_nat l).
Proof.
  intros Hy Hi Hw Hl. unfold pixel_value, kNumLanes in *. rewrite !load_row_lane by lia.
  apply thinned_ext. intros r c Hr Hc. unfold at_lane.
  destruct (Z.eqb_spec r 0) as [->|]; [|destruct (Z.ltb_spec r 0)]; rewrite load_row_lane by lia; do 2 f_equal; lia.
Qed.

(** A vector of zero magnitudes holds no edge. *)
Lemma null_block y index l : 0 <= index -> index + kNumLanes <= width -> (l < 8)%nat ->
  is_vect_len_memory_null (load_row magnitudes (y + 1) (index + kNumLanes) kNumLanes) = true ->
  pixel_value y (index + Z.of_nat l) = 0.
Proof.
  intros Hi Hw Hl Hn. unfold is_vect_len_memory_null in Hn. rewrite forallb_forall in Hn.
  assert (magnitudes (y + 1 + 0, index + Z.of_nat l + kNumLanes + 0) = 0) as Hm.
  { specialize (Hn (magnitudes (y + 1, index + kNumLanes + Z.of_nat l))). rewrite Z.eqb_eq in Hn.
    replace (y + 1 + 0) with (y + 1) by lia. replace (index + Z.of_nat l + kNumLanes + 0) with (index + kNumLanes + Z.of_nat l) by lia.
    symmetry. apply Hn. unfold load_row. apply in_map_iff. exists (Z.of_nat l). split; [done|].
    apply list_elem_of_In, elem_of_seqZ. unfold kNumLanes. lia. }
  unfold pixel_value, thinned. rewrite Hm. by destruct (_ && _).
Qed.

Lemma store_bytes_at pixels a v n f : lanes_of n v f -> forall p,
  store_bytes pixels a v p = if (a <=? p) && (p <? a + Z.of_nat n) then f (Z.to_nat (p - a)) else pixels p.
Proof.
  intros [Hl Hf] p. unfold store_bytes. rewrite Hl.
  destruct (Z.leb_spec a p), (Z.ltb_spec p (a + Z.of_nat n)); cbn [andb]; [|done..]. apply Hf. lia.
Qed.

Definition block_done y index (stack stack' : S) (pixels pixels' : Z -> Z) : Prop :=
  let a := dst + y * stride + index in
  (forall p, pixels' p = if (a <=? p) && (p <? a + kNumLanes)
    then edge_value high_threshold (pixel_value y (index + (p - a))) else pixels p) /\
  (forall p, p ∈ contents stack' <-> p ∈ contents stack \/
    exists l, 0 <= l < kNumLanes /\ high_threshold < pixel_value y (index + l) /\ p = a + l).

Lemma handle_row_block y index stack pixels : 0 <= y < height -> 0 <= index -> index + kNumLanes <= width -> valid stack ->
  exists stack' pixels', run_block y index (Some (stack, pixels)) = Some (stack', pixels') /\ valid stack' /\
    block_done y index stack stack' pixels pixels'.
Proof.
  intros Hy Hi Hw Hv. pose proof (eq_refl : kNumLanes = 8) as Hk8. unfold run_block, handle_row. set (a := dst + y * stride + index). cbv zeta.
  destruct (is_vect_len_memory_null _) eqn:Hnull.
  - do 2 eexists. split; [done|]. split; [done|]. split.
    + intros p. fold a. rewrite (store_bytes_at _ _ _ 8 _ (lanes_of_dup 8 0)). change (Z.of_nat 8) with kNumLanes.
      destruct (Z.leb_spec a p), (Z.ltb_spec p (a + kNumLanes)); cbn [andb]; try done.
      replace (index + (p - a)) with (index + Z.of_nat (Z.to_nat (p - a))) by lia.
      rewrite null_block by (done || lia). unfold edge_value. destruct (Z.ltb_spec high_threshold 0); [lia|done].
    + intros p. split; [by left|]. intros [Hp|(l & Hl & Hs & _)]; [done|].
      replace (index + l) with (index + Z.of_nat (Z.to_nat l)) in Hs by lia. rewrite null_block in Hs by (done || lia). lia.
  - pose proof (suppress_lanes conform_opencv (load_row horizontal_gradient y index kNumLanes)
      (load_row vertical_gradient y index kNumLanes) (load_row magnitudes y index (3 * kNumLanes))
      (load_row magnitudes (y + 1) index (3 * kNumLanes)) (load_row magnitudes (y + 2) index (3 * kNumLanes)) high_threshold) as Hs.
    do 5 (rewrite length_load_row in Hs; specialize (Hs eq_refl)).
    destruct (suppress _ _ _ _ _ _ _) as [result strong].
    destruct Hs as [Hres ->].
    { intros l Hl. rewrite !load_row_lane by lia. apply gradients_ok; lia. }
    { intros k Hk. rewrite !load_row_lane by lia. split_and!; apply magnitudes_ok; lia. }
    set (bits := strong_lanes _ _ _ _ _ _ _).
    assert (length bits = 8%nat) as Hbl by done.
    destruct (push_strong_pushes ops bits 16 a stack) as (stack' & -> & Hv' & Hc'); [lia|done|].
    do 2 eexists. split; [done|]. split; [done|]. split.
    + intros p. fold a. rewrite (store_bytes_at _ _ _ 8 _ Hres). change (Z.of_nat 8) with kNumLanes.
      destruct (Z.leb_spec a p), (Z.ltb_spec p (a + kNumLanes)); cbn [andb]; try done.
      rewrite block_value by (done || lia). do 2 f_equal. lia.
    + intros p. fold a. rewrite Hc'. apply or_iff_compat_l. split.
      * intros (l & Hl & ->). assert (l < 8)%nat as Hl8 by (rewrite <- Hbl; by eapply lookup_lt_Some).
        exists (Z.of_nat l). split_and!; [lia|lia| |lia]. unfold bits, strong_lanes in Hl.
        rewrite list_lookup_fmap, lookup_seq_lt in Hl by done. injection Hl as Hl%Z.ltb_lt.
        by rewrite <- block_value by (done || lia).
      * intros (l & Hl & Hs & ->). exists (Z.to_nat l). split; [|lia]. unfold bits, strong_lanes.
        rewrite list_lookup_fmap, lookup_seq_lt by lia. cbn [fmap option_fmap option_map]. f_equal. apply Z.ltb_lt.
        cbn [Nat.add]. rewrite block_value by (done || lia). by rewrite Z2Nat.id by lia.
Qed.

Definition address (y x : Z) : Z := dst + y * stride + x.

Lemma address_inj y x y' x' : 0 <= x < width -> 0 <= x' < width -> address y x = address y' x' -> y = y' /\ x = x'.
Proof. unfold address. intros Hx Hx' Heq. destruct width_ok as (_ & _ & Hs). assert (y = y') by nia. subst. lia. Qed.

Definition inside (y x : Z) : Prop := 0 <= y < height /\ 0 <= x < width.

(** What the pixels of [visited] are worth, in memory and on the stack; the rest is that of
    [stack0] and [pixels0]. *)
Record suppressed (stack0 : S) (pixels0 : Z -> Z) (visited : Z -> Z -> Prop) (stack : S) (pixels : Z -> Z) : Prop := {
  su_valid : valid stack;
  su_pixels : forall y x, inside y x -> visited y x -> pixels (address y x) = edge_value high_threshold (pixel_value y x);
  su_rest : forall p, (forall y x, inside y x -> visited y x -> p <> address y x) -> pixels p = pixels0 p;
  su_stack : forall p, p ∈ contents stack <-> p ∈ contents stack0 \/
    exists y x, inside y x /\ visited y x /\ high_threshold < pixel_value y x /\ p = address y x
}.

(** Before column [x] of row [y] in row-major order. *)
Definition before_pixel (y x : Z) (y' x' : Z) : Prop := y' < y \/ y' = y /\ x' < x.

Lemma suppressed_ext stack0 pixels0 (v1 v2 : Z -> Z -> Prop) stack pixels :
  (forall y x, inside y x -> v1 y x <-> v2 y x) ->
  suppressed stack0 pixels0 v1 stack pixels -> suppressed stack0 pixels0 v2 stack pixels.
Proof.
  intros He [Hv Hp Hr Hs]. constructor; [done| | |].
  - intros y x Hi Hx. apply Hp; [done|]. by apply He.
  - intros p Hn. apply Hr. intros y x Hi Hx. apply Hn; [done|]. by apply He.
  - intros p. rewrite Hs. apply or_iff_compat_l. split; intros (y & x & Hi & Hx & Hrest); exists y, x; (split_and!; [done|by apply He|apply Hrest..]).
Qed.

Lemma suppressed_block y index stack0 pixels0 stack pixels stack' pixels' :
  0 <= y < height -> 0 <= index -> index + kNumLanes <= width -> valid stack' ->
  suppressed stack0 pixels0 (before_pixel y index) stack pixels ->
  block_done y index stack stack' pixels pixels' ->
  suppressed stack0 pixels0 (before_pixel y (index + kNumLanes)) stack' pixels'.
Proof.
  intros Hy Hi Hw Hv' [Hv Hp Hr Hs] [Hb Hc]. pose proof (eq_refl : kNumLanes = 8) as Hk8.
  set (a := dst + y * stride + index) in *.
  assert (forall y' x', inside y' x' -> (a <=? address y' x') && (address y' x' <? a + kNumLanes) = true ->
    y' = y /\ index <= x' < index + kNumLanes) as Hwin.
  { intros y' x' [Hy' Hx'] [Ha1%Z.leb_le Ha2%Z.ltb_lt]%andb_prop.
    destruct (address_inj y' x' y (address y' x' - dst - y * stride)) as [-> ?]; unfold address in *; lia. }
  constructor; [done| | |].
  - intros y' x' Hin Hx'. rewrite Hb. destruct (_ && _) eqn:Hab.
    + destruct (Hwin y' x' Hin Hab) as [-> ?]. do 2 f_equal. unfold a, address. lia.
    + apply Hp; [done|]. destruct Hx' as [?|[-> ?]]; [by left|right].
      apply andb_false_iff in Hab as [Ha%Z.leb_gt|Ha%Z.ltb_ge]; unfold a, address in *; lia.
  - intros p Hn. rewrite Hb. destruct (Z.leb_spec a p), (Z.ltb_spec p (a + kNumLanes)); cbn [andb].
    + exfalso. apply (Hn y (index + (p - a))); [split; lia|right; lia|]. unfold a, address. lia.
    + apply Hr. intros y' x' Hin Hx'. apply Hn; [done|]. destruct Hx'; [by left|right; lia].
    + apply Hr. intros y' x' Hin Hx'. apply Hn; [done|]. destruct Hx'; [by left|right; lia].
    + apply Hr. intros y' x' Hin Hx'. apply Hn; [done|]. destruct Hx'; [by left|right; lia].
  - intros p. rewrite Hc, Hs. split.
    + intros [[Hp0|(y' & x' & Hin & Hx' & Hrest)]|(l & Hl & Hh & ->)]; [by left|right..].
      * exists y', x'. split_and!; [done| |apply Hrest..]. destruct Hx'; [by left|right; lia].
      * exists y, (index + l). split_and!; [split; lia|right; lia|done|unfold a, address; lia].
    + intros [Hp0|(y' & x' & Hin & Hx' & Hh & ->)]; [by left; left|].
      destruct Hx' as [Hlt|[-> Hx']]; [left; right; exists y', x'; split_and!; [done|by left|done..]|].
      destruct (Z.lt_ge_cases x' index).
      * left. right. exists y, x'. split_and!; [done|by right|done..].
      * right. exists (x' - index). replace (index + (x' - index)) with x' by lia. split_and!; [lia|lia|done|unfold a, address; lia].
Qed.

Lemma suppress_row_run y stack0 pixels0 stack pixels : 0 <= y < height ->
  suppressed stack0 pixels0 (before_pixel y 0) stack pixels ->
  exists stack' pixels', suppress_row ops conform_opencv horizontal_gradient vertical_gradient magnitudes dst stride
      high_threshold width y (Some (stack, pixels)) = Some (stack', pixels') /\
    suppressed stack0 pixels0 (before_pixel (y + 1) 0) stack' pixels'.
Proof.
  intros Hy H0. pose proof (eq_refl : kNumLanes = 8) as Hk8. destruct width_ok as (Hw & Hm & _). unfold is_size in Hw.
  unfold suppress_row, Unroll2.make. rewrite Z.min_l by lia.
  rewrite Unroll2.unroll_n_times_run by (cbn [Unroll2.length_ Unroll2.step_ Unroll2.index_]; unfold is_size; lia).
  cbn [Unroll2.length_ Unroll2.step_ Unroll2.index_]. rewrite Z.sub_0_r, Z.mul_1_l. set (k := width / kNumLanes).
  assert (width = k * kNumLanes) as Hk by (subst k; mod_lia). rewrite Unroll2.apply_at_range.
  assert (exists stack' pixels', for_range 0 k (fun j => run_block y (0 + j * kNumLanes)) (Some (stack, pixels)) =
    Some (stack', pixels') /\ suppressed stack0 pixels0 (before_pixel y (k * kNumLanes)) stack' pixels') as (s' & p' & Heq & Hs).
  { apply (for_range_ind (fun j st => exists stack' pixels', st = Some (stack', pixels') /\
      suppressed stack0 pixels0 (before_pixel y (j * kNumLanes)) stack' pixels')); [lia|by exists stack, pixels|].
    intros j st Hj (s1 & p1 & -> & Hs1).
    destruct (handle_row_block y (0 + j * kNumLanes) s1 p1) as (s2 & p2 & -> & Hv2 & Hb); [lia|lia|nia|apply Hs1|].
    exists s2, p2. split; [done|]. rewrite Z.add_0_l in Hb. rewrite Z.mul_add_distr_r, Z.mul_1_l.
    eapply suppressed_block; [lia|lia|nia|done|exact Hs1|exact Hb]. }
  exists s', p'. unfold run_block in Heq. rewrite Heq. split; [done|]. revert Hs. apply suppressed_ext.
  intros y' x' [_ Hx']. unfold before_pixel. rewrite <- Hk. lia.
Qed.

Lemma suppression_run stack pixels : valid stack -> 0 <= height ->
  exists stack' pixels', non_maxima_suppression_and_high_thresholding ops conform_opencv horizontal_gradient
      vertical_gradient magnitudes dst stride high_threshold width height stack pixels = Some (stack', pixels') /\
    suppressed stack pixels (fun _ _ => True) stack' pixels'.
Proof.
  intros Hv Hh. unfold non_maxima_suppression_and_high_thresholding.
  assert (exists stack' pixels', for_range 0 height (suppress_row ops conform_opencv horizontal_gradient vertical_gradient
    magnitudes dst stride high_threshold width) (Some (stack, pixels)) = Some (stack', pixels') /\
    suppressed stack pixels (before_pixel height 0) stack' pixels') as (s' & p' & -> & Hs).
  { apply (for_range_ind (fun y st => exists stack' pixels', st = Some (stack', pixels') /\
      suppressed stack pixels (before_pixel y 0) stack' pixels')); [lia| |].
    - exists stack, pixels. split; [done|]. constructor; [done| |done|].
      + intros y x [Hy Hx]. unfold before_pixel. lia.
      + intros p. split; [by left|]. intros [Hp|(y & x & [Hy Hx] & Hb & _)]; [done|]. unfold before_pixel in Hb. lia.
    - intros y st Hy (s1 & p1 & -> & Hs1). by apply suppress_row_run. }
  exists s', p'. split; [done|]. revert Hs. apply suppressed_ext. intros y x [Hy Hx]. unfold before_pixel. lia.
Qed.
End image.
