(* ===== verification/Elementwise.v ===== *)
(** * Element-wise operations by rows

    [apply_operation_by_rows] of [neon.h] for the operations that read one or two images
    and write one of the same element type, [OperationAdapter] and [RowBasedOperation] of
    [operations.h] included.  Memory maps the address of an element to its value, so the
    destination may be one of the sources.  A client gives an operation whose vector path
    is its scalar path lane by lane ([ElementwiseLaws]). *)

From S2P Require Import Prelude Loops Rows.

(** ** Operations *)

(** The methods and tags of an operation class; the list holds one entry per source. *)
Record ElementwiseOperation := {
  arity : nat;
  num_lanes : Z;
  is_unrolled_once : bool;
  vector_path : list (list Z) -> list Z;
  scalar_path : list Z -> Z
}.

Class ElementwiseLaws (op : ElementwiseOperation) (valid : Z -> Prop) (f : list Z -> Z) : Prop := {
  lanes_range : 1 <= num_lanes op < 2 ^ 32;
  vector_law (srcs : list (list Z)) :
    Forall (fun v => length v = Z.to_nat (num_lanes op) /\ Forall valid v) srcs -> length srcs = arity op ->
    vector_path op srcs = map (fun i => f (map (fun v => v !!! i) srcs)) (seq 0 (Z.to_nat (num_lanes op)));
  scalar_law (srcs : list Z) : Forall valid srcs -> length srcs = arity op -> scalar_path op srcs = f srcs
}.

Section rows.
Context (op : ElementwiseOperation) (sizeof : Z).

(** [VecTraits::load] and [store]: consecutive elements. *)
Definition load_vector (mem : Z -> Z) (address : Z) : list Z :=
  map (fun i => mem (address + i * sizeof)) (seqZ 0 (num_lanes op)).
Definition store_vector (address : Z) (v : list Z) (mem : Z -> Z) : Z -> Z :=
  for_range 0 (num_lanes op) (fun i mem => upd mem (address + i * sizeof) (v !!! Z.to_nat i)) mem.

(** [OperationAdapter]: both vectors are loaded before the results are stored. *)
Definition vector_path_2x (srcs : list Columns) (dst : Columns) (mem : Z -> Z) : Z -> Z :=
  let srcs_0 := map (fun src => load_vector mem (col_ptr_ src)) srcs in
  let srcs_1 := map (fun src => load_vector mem (col_ptr_ src + num_lanes op * sizeof)) srcs in
  let res_0 := vector_path op srcs_0 in
  let res_1 := vector_path op srcs_1 in
  store_vector (col_ptr_ dst + num_lanes op * sizeof) res_1 (store_vector (col_ptr_ dst) res_0 mem).
Definition vector_path_1x (srcs : list Columns) (dst : Columns) (mem : Z -> Z) : Z -> Z :=
  let res := vector_path op (map (fun src => load_vector mem (col_ptr_ src)) srcs) in
  store_vector (col_ptr_ dst) res mem.

(** [RemainingPathAdapter]. *)
Definition remaining_path (length : Z) (srcs : list Columns) (dst : Columns) (mem : Z -> Z) : Z -> Z :=
  for_range 0 length (fun index mem =>
    upd mem (col_ptr_ (columns_at sizeof dst index))
      (scalar_path op (map (fun src => mem (col_ptr_ (columns_at sizeof src index))) srcs))) mem.

(** The columns of the sources and of the destination, which the functors step. *)
Definition Position : Type := list Columns * Columns.
Definition step_columns (step : Z) (cols : Position) : Position :=
  (map (fun c => columns_at sizeof c step) cols.1, columns_at sizeof cols.2 step).

Definition unroll_twice (step : Z) (cs : Position * (Z -> Z)) : Position * (Z -> Z) :=
  let '(cols, mem) := cs in
  let mem := vector_path_2x cols.1 cols.2 mem in (step_columns step cols, mem).
Definition unroll_once (step : Z) (cs : Position * (Z -> Z)) : Position * (Z -> Z) :=
  let '(cols, mem) := cs in
  let mem := vector_path_1x cols.1 cols.2 mem in (step_columns step cols, mem).
Definition remaining_functor (rem_length _ : Z) (cs : Position * (Z -> Z)) : Position * (Z -> Z) :=
  let '(cols, mem) := cs in (cols, remaining_path rem_length cols.1 cols.2 mem).

(** [RowBasedOperation::process_row] for operations that are unrolled twice and do not try
    to avoid the tail; the columns of the destination come first. *)
Definition process_row (length : Z) (columns : list Columns) (mem : Z -> Z) : Z -> Z :=
  match columns with
  | [] => mem
  | dst :: srcs =>
      let loop := (Unroll.make length (num_lanes op), ((srcs, dst), mem)) in
      let loop := Unroll.unroll_n_times 2 unroll_twice loop in
      let loop := if is_unrolled_once op then Unroll.unroll_n_times 1 unroll_once loop else loop in
      let '(_, (_, mem)) := Unroll.remaining remaining_functor loop in mem
  end.
End rows.

(** [apply_operation_by_rows]. *)
Definition apply_operation_by_rows (op : ElementwiseOperation) (sizeof : Z) (rect : Rectangle)
    (src_rows : list Rows) (dst_rows : Rows) (mem : Z -> Z) : Z -> Z :=
  zip_rows (process_row op sizeof) rect (dst_rows :: src_rows) mem.

(** ** Correctness *)

Section correct.
Context (op : ElementwiseOperation) {valid : Z -> Prop} {f : list Z -> Z} {laws : ElementwiseLaws op valid f}.
Context (sizeof : Z) (srcs : list Rows) (dst : Rows) (width height : Z) (mem0 : Z -> Z).

(** One channel of elements of [sizeof] bytes. *)
Definition plane (r : Rows) : Prop := valid_rows r width height /\ channels_ r = 1 /\ sizeof_ r = sizeof.

Lemma columns_step r n len c s : plane r -> columns_of r width n len c -> 0 <= s <= len ->
  columns_of r width (n + s) (len - s) (columns_at sizeof c s).
Proof.
  intros (_ & Hch & Hsz) [Hc Ha] Hs. split; [done|]. intros k Hk. unfold columns_at. cbn [col_ptr_].
  rewrite Hc, Hch, to_ptrdiff_small by lia. rewrite Hch, Hsz in Ha.
  replace (n + s + k) with (n + (s + k)) by lia. rewrite <- Ha by lia. rewrite Hsz. lia.
Qed.

(** The address of element [n + i] from the columns. *)
Lemma columns_element r n len c i : plane r -> columns_of r width n len c -> 0 <= i < len ->
  col_ptr_ c + i * sizeof = element_address r width (n + i).
Proof. intros (_ & Hch & Hsz) [_ Ha] Hi. rewrite Hch, Hsz in Ha. rewrite <- Ha by done. lia. Qed.

Hypothesis size_ok : 0 <= width /\ 0 <= height /\ width * height < 2 ^ 64.
Hypothesis dst_ok : plane dst.
Hypothesis srcs_ok : Forall plane srcs /\ length srcs = arity op.

(** A source is the destination itself, or its elements are elsewhere. *)
Hypothesis apart : forall r n m, r ∈ dst :: srcs -> 0 <= n < width * height -> 0 <= m < width * height ->
  element_address dst width n = element_address r width m -> n = m.

(** The source elements that go into element [n]. *)
Definition source_value (n : Z) : list Z := map (fun r => mem0 (element_address r width n)) srcs.
Hypothesis values_ok : forall n, 0 <= n < width * height -> Forall valid (source_value n).

(** The first [n] elements are written. *)
Definition written (n : Z) (mem : Z -> Z) : Prop :=
  (forall k, 0 <= k < n -> mem (element_address dst width k) = f (source_value k)) /\
  (forall a, (forall k, 0 <= k < n -> a <> element_address dst width k) -> mem a = mem0 a).

Lemma source_untouched n mem r k : written n mem -> n <= width * height -> r ∈ srcs -> 0 <= k -> n <= k < width * height ->
  mem (element_address r width k) = mem0 (element_address r width k).
Proof.
  intros [_ Hrest] Hn Hr Hk0 Hk. apply Hrest. intros j Hj Heq. symmetry in Heq.
  apply apart in Heq; [lia|by right|lia|lia].
Qed.

Lemma written_next n mem x : written n mem -> 0 <= n < width * height -> x = f (source_value n) ->
  written (n + 1) (upd mem (element_address dst width n) x).
Proof.
  intros [Hd Hrest] Hn ->. split.
  - intros k Hk. destruct (decide (k = n)) as [->|Hne]; [apply upd_same|].
    rewrite upd_other; [apply Hd; lia|]. intros Heq%apart; [lia|by left|lia|lia].
  - intros a Ha. rewrite upd_other by (apply Ha; lia). apply Hrest. intros k Hk. apply Ha. lia.
Qed.

(** The columns from element [n] on, with [len] elements left. *)
Definition stands_on (n len : Z) (cols : Position) : Prop :=
  Forall2 (fun r c => columns_of r width n len c) srcs cols.1 /\ columns_of dst width n len cols.2.

Lemma position_step n len cols s : stands_on n len cols -> 0 <= s <= len ->
  stands_on (n + s) (len - s) (step_columns sizeof s cols).
Proof.
  intros [Hs Hd] Hl. split; [|by apply columns_step]. unfold step_columns. cbn [fst]. apply Forall2_fmap_r.
  destruct srcs_ok as [Hp _]. clear -Hs Hp Hl. induction Hs as [|r c l l' Hc Hs IH]; [constructor|].
  apply Forall_cons in Hp as [Hr Hp]. constructor; [by apply columns_step|by apply IH].
Qed.

Lemma map_sources {A} n len (cols : Position) (g : Columns -> A) (h : Rows -> A) : stands_on n len cols ->
  (forall r c, r ∈ srcs -> plane r -> columns_of r width n len c -> g c = h r) -> map g cols.1 = map h srcs.
Proof.
  intros [Hs _] Hgh. destruct srcs_ok as [Hp _]. clear -Hs Hp Hgh.
  revert Hgh. induction Hs as [|r c l l' Hc Hs IH]; intros Hgh; [done|].
  apply Forall_cons in Hp as [Hr Hp]. cbn [map]. f_equal; [apply Hgh; [by left|done..]|].
  apply IH; [done|]. intros r' c' Hr'. apply Hgh. by right.
Qed.

Lemma scalar_ok n len cols mem : written n mem -> 0 <= n -> n + len <= width * height -> stands_on n len cols -> 0 < len ->
  scalar_path op (map (fun src => mem (col_ptr_ (columns_at sizeof src 0))) cols.1) = f (source_value n).
Proof.
  intros Hw Hn Hle Hs Hlen. rewrite (map_sources n len cols _ (fun r => mem0 (element_address r width n)) Hs).
  - apply scalar_law; [apply values_ok; lia|]. unfold source_value. destruct srcs_ok as [_ Hne]. by rewrite length_map.
  - intros r c Hr Hp Hc. rewrite <- (source_untouched n mem) by (done || lia). f_equal.
    unfold columns_at. cbn [col_ptr_]. rewrite <- (Z.add_0_r n). rewrite <- (columns_element r n len c 0 Hp Hc) by lia. lia.
Qed.

(** A vector of the sources and its results. *)
Lemma vector_ok n len cols mem : written n mem -> 0 <= n -> n + len <= width * height -> stands_on n len cols ->
  forall j, 0 <= j -> j + num_lanes op <= len ->
  forall i, 0 <= i < num_lanes op ->
  vector_path op (map (fun src => load_vector op sizeof mem (col_ptr_ src + j * sizeof)) cols.1) !!! Z.to_nat i =
  f (source_value (n + j + i)).
Proof.
  intros Hw Hn Hle Hs j Hj Hjl i Hi.
  rewrite (map_sources n len cols _ (fun r => map (fun i => mem0 (element_address r width (n + j + i))) (seqZ 0 (num_lanes op))) Hs).
  - rewrite vector_law.
    + apply list_lookup_total_correct. rewrite list_lookup_fmap, lookup_seq_lt by lia. cbn [fmap option_fmap option_map]. f_equal.
      f_equal. unfold source_value. rewrite map_map. apply map_ext. intros r. cbn [Nat.add].
      apply list_lookup_total_correct. rewrite list_lookup_fmap, lookup_seqZ_lt by lia. cbn. do 3 f_equal. lia.
    + apply Forall_forall. intros v Hv. apply list_elem_of_In, in_map_iff in Hv as (r & <- & Hr%list_elem_of_In).
      split; [by rewrite length_map, length_seqZ|]. apply Forall_forall. intros x Hx.
      apply list_elem_of_In, in_map_iff in Hx as (i' & <- & Hi'%list_elem_of_In%elem_of_seqZ).
      specialize (values_ok (n + j + i') ltac:(lia)). rewrite Forall_forall in values_ok. apply values_ok.
      unfold source_value. apply list_elem_of_In, in_map_iff. exists r. split; [done|]. by apply list_elem_of_In.
    + destruct srcs_ok as [_ Hne]. by rewrite length_map.
  - intros r c Hr Hp Hc. unfold load_vector. apply map_ext_in. intros i' Hi'%list_elem_of_In%elem_of_seqZ.
    rewrite <- (source_untouched n mem) by (done || lia). f_equal. replace (n + j + i') with (n + (j + i')) by lia.
    rewrite <- (columns_element r n len c) by (done || lia). lia.
Qed.

Lemma store_ok n a v mem : written n mem -> 0 <= n -> n + num_lanes op <= width * height ->
  (forall i, 0 <= i < num_lanes op -> a + i * sizeof = element_address dst width (n + i)) ->
  (forall i, 0 <= i < num_lanes op -> v !!! Z.to_nat i = f (source_value (n + i))) ->
  written (n + num_lanes op) (store_vector op sizeof a v mem).
Proof.
  intros Hw Hn Hle Ha Hv. unfold store_vector. pose proof (lanes_range (op := op)).
  apply (for_range_ind (fun i mem => written (n + i) mem)); [lia|by rewrite Z.add_0_r|].
  intros i mem' Hi Hw'. rewrite Ha by lia. replace (n + (i + 1)) with (n + i + 1) by lia.
  apply written_next; [done|lia|]. apply Hv. lia.
Qed.

(** State of the loops: the columns stand on element [n0 + k] of a row of [len] elements
    from [n0], all elements before are written. *)
Definition row_at (n0 len k : Z) (cs : Position * (Z -> Z)) : Prop :=
  stands_on (n0 + k) (len - k) cs.1 /\ written (n0 + k) cs.2.

Lemma unroll_once_ok n0 len k cs : 0 <= n0 -> n0 + len <= width * height -> 0 <= k -> k + num_lanes op <= len ->
  row_at n0 len k cs -> row_at n0 len (k + num_lanes op) (unroll_once op sizeof (num_lanes op) cs).
Proof.
  destruct cs as [cols mem]. intros Hn Hle Hk Hkl [Hs Hw]. cbn [fst snd] in *. pose proof (lanes_range (op := op)).
  unfold unroll_once. split; cbn [fst snd].
  - replace (n0 + (k + num_lanes op)) with (n0 + k + num_lanes op) by lia.
    replace (len - (k + num_lanes op)) with (len - k - num_lanes op) by lia. apply position_step; [done|lia].
  - replace (n0 + (k + num_lanes op)) with (n0 + k + num_lanes op) by lia. unfold vector_path_1x.
    apply store_ok; [done|lia|lia| |].
    + intros i Hi. apply (columns_element dst (n0 + k) (len - k)); [done|apply Hs|lia].
    + intros i Hi. pose proof (vector_ok (n0 + k) (len - k) cols mem Hw ltac:(lia) ltac:(lia) Hs 0 ltac:(lia) ltac:(lia) i Hi) as Hv.
      rewrite Z.add_0_r in Hv. rewrite <- Hv. do 2 f_equal. apply map_ext. intros c. by rewrite Z.mul_0_l, Z.add_0_r.
Qed.

Lemma unroll_twice_ok n0 len k cs : 0 <= n0 -> n0 + len <= width * height -> 0 <= k -> k + 2 * num_lanes op <= len ->
  row_at n0 len k cs -> row_at n0 len (k + 2 * num_lanes op) (unroll_twice op sizeof (2 * num_lanes op) cs).
Proof.
  destruct cs as [cols mem]. intros Hn Hle Hk Hkl [Hs Hw]. cbn [fst snd] in *. pose proof (lanes_range (op := op)).
  unfold unroll_twice. split; cbn [fst snd].
  - replace (n0 + (k + 2 * num_lanes op)) with (n0 + k + 2 * num_lanes op) by lia.
    replace (len - (k + 2 * num_lanes op)) with (len - k - 2 * num_lanes op) by lia. apply position_step; [done|lia].
  - replace (n0 + (k + 2 * num_lanes op)) with (n0 + k + num_lanes op + num_lanes op) by lia. unfold vector_path_2x.
    pose proof (vector_ok (n0 + k) (len - k) cols mem Hw ltac:(lia) ltac:(lia) Hs) as Hv.
    apply store_ok; [apply store_ok; [done|lia|lia| |]|lia|lia| |].
    + intros i Hi. apply (columns_element dst (n0 + k) (len - k)); [done|apply Hs|lia].
    + intros i Hi. specialize (Hv 0 ltac:(lia) ltac:(lia) i Hi). rewrite Z.add_0_r in Hv. rewrite <- Hv.
      do 2 f_equal. apply map_ext. intros c. by rewrite Z.mul_0_l, Z.add_0_r.
    + intros i Hi. replace (n0 + k + num_lanes op + i) with (n0 + k + (num_lanes op + i)) by lia.
      rewrite <- (columns_element dst (n0 + k) (len - k) cols.2) by (done || apply Hs || lia). lia.
    + intros i Hi. apply Hv; lia.
Qed.

Lemma remaining_ok n0 len k cs : 0 <= n0 -> n0 + len <= width * height -> 0 <= k <= len ->
  row_at n0 len k cs -> written (n0 + len) (remaining_path op sizeof (len - k) cs.1.1 cs.1.2 cs.2).
Proof.
  destruct cs as [cols mem]. intros Hn Hle Hk [Hs Hw]. cbn [fst snd] in *. unfold remaining_path.
  replace (n0 + len) with (n0 + k + (len - k)) by lia.
  apply (for_range_ind (fun i mem => written (n0 + k + i) mem)); [lia|by rewrite Z.add_0_r|].
  intros i mem' Hi Hw'. pose proof (position_step _ _ _ i Hs ltac:(lia)) as Hsi.
  replace (n0 + k + (i + 1)) with (n0 + k + i + 1) by lia.
  assert (forall c, col_ptr_ (columns_at sizeof (columns_at sizeof c i) 0) = col_ptr_ (columns_at sizeof c i)) as Hz
    by (intros c; unfold columns_at; cbn [col_ptr_]; lia).
  assert (col_ptr_ (columns_at sizeof cols.2 i) = element_address dst width (n0 + k + i)) as ->.
  { destruct Hsi as [_ Hd]. pose proof (columns_element dst _ _ _ 0 dst_ok Hd ltac:(lia)) as He.
    rewrite Z.mul_0_l, !Z.add_0_r in He. exact He. }
  apply written_next; [done|lia|].
  pose proof (scalar_ok (n0 + k + i) (len - k - i) _ _ Hw' ltac:(lia) ltac:(lia) Hsi ltac:(lia)) as Hsc. rewrite <- Hsc. f_equal.
  unfold step_columns. cbn [fst]. rewrite map_map. apply map_ext. intros c. by rewrite Hz.
Qed.

(** A phase of the loop with [factor] vectors in an iteration. *)
Lemma phase_ok factor callback n0 len k l cs : 0 <= n0 -> n0 + len <= width * height -> 1 <= factor <= 2 ->
  0 <= k <= len -> len < 2 ^ 64 -> Unroll.length_ l = len - k -> Unroll.step_ l = num_lanes op ->
  (forall k cs, 0 <= k -> k + factor * num_lanes op <= len -> row_at n0 len k cs ->
    row_at n0 len (k + factor * num_lanes op) (callback (factor * num_lanes op) cs)) ->
  row_at n0 len k cs ->
  exists k', 0 <= k' <= len /\ Unroll.length_ (Unroll.unroll_n_times factor callback (l, cs)).1 = len - k' /\
    Unroll.step_ (Unroll.unroll_n_times factor callback (l, cs)).1 = num_lanes op /\
    row_at n0 len k' (Unroll.unroll_n_times factor callback (l, cs)).2.
Proof.
  intros Hn Hle Hf Hk Hlen Hl Hst Hcb Hrow. pose proof (lanes_range (op := op)). unfold Unroll.unroll_n_times.
  rewrite Hl, Hst. set (n := factor * num_lanes op) in *. assert (0 < n < 2 ^ 63) by (subst n; nia).
  rewrite (size_mul_small factor) by (fold n; lia). fold n. set (q := (len - k) / n).
  pose proof (Z.div_mod (len - k) n ltac:(lia)) as Hdm. fold q in Hdm. pose proof (Z.mod_pos_bound (len - k) n ltac:(lia)).
  assert (0 <= q) by (apply Z.div_pos; lia). assert (0 <= n * q) by nia.
  rewrite size_mul_small by lia. rewrite size_sub_small by lia. cbn [fst snd Unroll.length_ Unroll.step_].
  exists (k + q * n). split_and!; [lia|lia|lia|done|].
  apply (for_range_ind (fun i cs => row_at n0 len (k + i * n) cs)); [lia|by rewrite Z.mul_0_l, Z.add_0_r|].
  intros i cs' Hi Hr. replace (k + (i + 1) * n) with (k + i * n + n) by lia. apply Hcb; [nia|nia|done].
Qed.

Lemma process_row_ok n len cols mem : 0 <= n -> 0 <= len -> n + len <= width * height -> written n mem ->
  Forall2 (fun r c => columns_of r width n len c) (dst :: srcs) cols ->
  written (n + len) (process_row op sizeof len cols mem).
Proof.
  intros Hn Hlen Hle Hw Hc. apply Forall2_cons_inv_l in Hc as (cd & cs & Hd & Hs & ->). unfold process_row. cbv zeta.
  assert (row_at n len 0 ((cs, cd), mem)) as Hr0 by (split; rewrite Z.add_0_r, ?Z.sub_0_r; done).
  pose proof (lanes_range (op := op)). pose proof size_ok as (? & ? & ?).
  destruct (phase_ok 2 (unroll_twice op sizeof) n len 0 (Unroll.make len (num_lanes op)) ((cs, cd), mem))
    as (k1 & Hk1 & Hl1 & Hs1 & Hr1); [lia|lia|lia|lia|lia|cbn; lia|done| |done|].
  { intros k cs' Hk Hkl. by apply unroll_twice_ok. }
  set (loop1 := Unroll.unroll_n_times 2 _ _) in *.
  assert (exists k2, 0 <= k2 <= len /\
    let loop2 := if is_unrolled_once op then Unroll.unroll_n_times 1 (unroll_once op sizeof) loop1 else loop1 in
    Unroll.length_ loop2.1 = len - k2 /\ row_at n len k2 loop2.2) as (k2 & Hk2 & Hl2 & Hr2).
  { destruct (is_unrolled_once op); [|by exists k1]. destruct loop1 as [l1 cs1].
    destruct (phase_ok 1 (unroll_once op sizeof) n len k1 l1 cs1) as (k2 & Hk2 & Hl2 & _ & Hr2);
      [lia|lia|lia|lia|lia|done|done| |done|by exists k2].
    intros k cs' Hk Hkl. rewrite !Z.mul_1_l. apply unroll_once_ok; [lia|lia|lia|lia]. }
  set (loop2 := if is_unrolled_once op then _ else _) in *. destruct loop2 as [l2 [cols2 mem2]]. cbn [fst snd] in *.
  unfold Unroll.remaining. destruct (Z.eqb_spec (Unroll.length_ l2) 0) as [Hz|Hz].
  - destruct Hr2 as [_ Hr2]. cbn [snd] in Hr2. by replace (n + len) with (n + k2) by lia.
  - cbn [remaining_functor]. rewrite Hl2. apply (remaining_ok n len k2 (cols2, mem2)); done || lia.
Qed.

(** Every element of the destination is computed from the elements that the sources held
    before the call, and nothing else is written. *)
Lemma apply_operation_writes :
  written (width * height)
    (apply_operation_by_rows op sizeof {| width_ := width; height_ := height |} srcs dst mem0).
Proof.
  pose proof size_ok as (Hw & Hh & Hs). destruct srcs_ok as [Hp Hne].
  unfold apply_operation_by_rows. apply zip_rows_ind; [|done|done|lia| |].
  - constructor; [apply dst_ok|]. eapply Forall_impl; [exact Hp|]. by intros r [Hr _].
  - intros n len cols mem Hn Hlen Hle Hwr Hc. by apply process_row_ok.
  - split; [lia|done].
Qed.
End correct.

(** ** Calls *)

(** The address of a pixel of an image given by its pointer and stride. *)
Definition pixel_address (sizeof : Z) (image : Z * Z) (y x : Z) : Z := image.1 + y * image.2 + x * sizeof.

Definition rows_of (sizeof : Z) (image : Z * Z) : Rows :=
  {| ptr_ := image.1; stride_ := image.2; channels_ := 1; sizeof_ := sizeof |}.

(** An image that lies in the address space. *)
Definition in_address_space (sizeof width height : Z) (image : Z * Z) : Prop :=
  0 <= image.1 /\ 0 <= image.2 < 2 ^ 63 /\ width * sizeof < 2 ^ 64 /\ image.1 + height * image.2 < 2 ^ 64.

(** Two images are the same, or no elements of theirs overlap; an image may not overlap
    itself. *)
Definition same_or_apart (sizeof width height : Z) (a b : Z * Z) : Prop :=
  forall y x y' x', 0 <= y < height -> 0 <= x < width -> 0 <= y' < height -> 0 <= x' < width ->
    Z.abs (pixel_address sizeof a y x - pixel_address sizeof b y' x') < sizeof ->
    y = y' /\ x = x' /\ pixel_address sizeof a y x = pixel_address sizeof b y' x'.

(** The elements of an image can be told from other addresses. *)
Lemma pixel_dec sz W H image p :
  (exists y k, 0 <= y < H /\ 0 <= k < W /\ p = pixel_address sz image y k) \/
  (forall y k, 0 <= y < H -> 0 <= k < W -> p <> pixel_address sz image y k).
Proof.
  destruct (decide (Exists (fun y => Exists (fun k => p = pixel_address sz image y k) (seqZ 0 W)) (seqZ 0 H))) as [He|Hn].
  - left. apply Exists_exists in He as (y & Hy%elem_of_seqZ & He). apply Exists_exists in He as (k & Hk%elem_of_seqZ & ->).
    exists y, k. split; [lia|]. split; [lia|done].
  - right. intros y k Hy Hk ->. apply Hn, Exists_exists. exists y. split; [apply elem_of_seqZ; lia|].
    apply Exists_exists. exists k. split; [apply elem_of_seqZ; lia|done].
Qed.

(** What an operation [f] on the elements of [srcs] leaves in memory. *)
Definition computed (f : list Z -> Z) (sizeof width height : Z) (srcs : list (Z * Z)) (dst : Z * Z) (mem mem' : Z -> Z) : Prop :=
  (forall y x, 0 <= y < height -> 0 <= x < width ->
    mem' (pixel_address sizeof dst y x) = f (map (fun src => mem (pixel_address sizeof src y x)) srcs)) /\
  (forall a, (forall y x, 0 <= y < height -> 0 <= x < width -> a <> pixel_address sizeof dst y x) -> mem' a = mem a).

Lemma computed_unique f sizeof width height srcs dst mem mem1 mem2 :
  computed f sizeof width height srcs dst mem mem1 -> computed f sizeof width height srcs dst mem mem2 -> forall a, mem1 a = mem2 a.
Proof.
  intros [H1 H2] [H3 H4] a. destruct (pixel_dec sizeof width height dst a) as [(y & x & Hy & Hx & ->)|Hn].
  - by rewrite H1, H3.
  - rewrite H2, H4; auto.
Qed.

Lemma element_pixel sizeof image width y x : 0 <= x < width ->
  element_address (rows_of sizeof image) width (y * width + x) = pixel_address sizeof image y x.
Proof.
  intros Hx. unfold element_address, pixel_address, rows_of. cbn [ptr_ stride_ channels_ sizeof_].
  rewrite Z.div_add_l, Z.div_small by lia.
  rewrite (Z.add_comm (y * width)), Z.mod_add, Z.mod_small by lia. lia.
Qed.

Lemma apply_operation_correct op (valid : Z -> Prop) (f : list Z -> Z) {laws : ElementwiseLaws op valid f}
    sizeof srcs dst width height mem :
  0 < sizeof -> 0 <= width -> 0 <= height -> width * height < 2 ^ 64 ->
  length srcs = arity op -> Forall (in_address_space sizeof width height) (dst :: srcs) ->
  Forall (same_or_apart sizeof width height dst) (dst :: srcs) ->
  (forall src y x, src ∈ srcs -> 0 <= y < height -> 0 <= x < width -> valid (mem (pixel_address sizeof src y x))) ->
  computed f sizeof width height srcs dst mem
    (apply_operation_by_rows op sizeof {| width_ := width; height_ := height |} (map (rows_of sizeof) srcs)
      (rows_of sizeof dst) mem).
Proof.
  intros Hs Hw Hh Hwh Hl Hspace Hapart Hv.
  assert (forall image, image ∈ dst :: srcs -> plane sizeof width height (rows_of sizeof image)) as Hplane.
  { intros image Hi. apply (proj1 (Forall_forall _ _) Hspace) in Hi as (? & ? & ? & ?).
    unfold plane, valid_rows, rows_of. cbn [ptr_ stride_ channels_ sizeof_]. rewrite Z.mul_1_r. split_and!; lia || done. }
  assert (forall n, 0 <= n < width * height -> exists y x, 0 <= y < height /\ 0 <= x < width /\ n = y * width + x) as Hpos.
  { intros n Hn. assert (0 < width) by nia. exists (n / width), (n mod width).
    pose proof (Z.div_mod n width ltac:(lia)). pose proof (Z.mod_pos_bound n width ltac:(lia)).
    split_and!; [apply Z.div_pos; lia|apply Z.div_lt_upper_bound; nia|lia|lia|lia]. }
  assert (forall y x, 0 <= y < height -> 0 <= x < width -> 0 <= y * width + x < width * height) as Hrange by (intros; nia).
  edestruct (apply_operation_writes op sizeof (map (rows_of sizeof) srcs) (rows_of sizeof dst) width height mem)
    as [Hd Hrest].
  - done.
  - apply Hplane. by left.
  - split; [|by rewrite length_map]. apply Forall_forall. intros r Hr. apply list_elem_of_In, in_map_iff in Hr as (i & <- & Hi%list_elem_of_In).
    apply Hplane. by right.
  - intros r n m Hr Hn Hm. destruct (Hpos n Hn) as (y & x & Hy & Hx & ->), (Hpos m Hm) as (y' & x' & Hy' & Hx' & ->).
    assert (exists image, image ∈ dst :: srcs /\ r = rows_of sizeof image) as (image & Hi & ->).
    { apply elem_of_cons in Hr as [->|Hr]; [exists dst; split; [by left|done]|].
      apply list_elem_of_In, in_map_iff in Hr as (i & <- & Hi%list_elem_of_In). exists i. split; [by right|done]. }
    rewrite !element_pixel by done. intros Heq. apply (proj1 (Forall_forall _ _) Hapart) in Hi.
    destruct (Hi y x y' x') as (-> & -> & _); try done. rewrite Heq, Z.sub_diag. done.
  - intros n Hn. apply Forall_forall. intros v Hx. apply list_elem_of_In, in_map_iff in Hx as (r & <- & Hr).
    apply in_map_iff in Hr as (src & <- & Hsrc%list_elem_of_In). destruct (Hpos n Hn) as (y & x & Hy & Hx' & ->).
    rewrite element_pixel by done. by apply Hv.
  - split.
    + intros y x Hy Hx. rewrite <- element_pixel with (width := width) by done. rewrite Hd by auto.
      unfold source_value. rewrite map_map. f_equal. apply map_ext. intros src. by rewrite element_pixel.
    + intros a Ha. apply Hrest. intros k Hk. destruct (Hpos k Hk) as (y & x & Hy & Hx & ->).
      rewrite element_pixel by done. auto.
Qed.
