(* ===== verification/Arithmetic.v ===== *)
(** * Element-wise arithmetic

    The operations of [arithmetics/] on integer elements (Neon): saturating addition,
    subtraction, absolute difference and multiplication, bitwise and, comparisons, range
    tests, the binary threshold, and the sum of absolute values with a threshold.  Every
    vector path is proved to be the scalar path in each lane, and both to be the reference. *)

From S2P Require Import Prelude CTypes Utils Rows Vectors Elementwise.

(** ** Instructions *)

(** [vqaddq], [vqsubq], [vqabsq], [vqmovn]: saturating to the element type; [vabdq] of
    unsigned lanes; [vandq]; comparisons of unsigned bytes and of signed halfwords, whose
    lanes are all ones or zero. *)
Definition vqaddq (T : int_type) (a b : list Z) : list Z := zip_with (fun x y => clamp_to T (x + y)) a b.
Definition vqsubq (T : int_type) (a b : list Z) : list Z := zip_with (fun x y => clamp_to T (x - y)) a b.
Definition vqabsq (T : int_type) (a : list Z) : list Z := map (fun x => clamp_to T (Z.abs x)) a.
Definition vqmovn_clamp (T : int_type) (a : list Z) : list Z := map (clamp_to T) a.
Definition vabdq (a b : list Z) : list Z := zip_with (fun x y => Z.abs (x - y)) a b.
Definition vandq (a b : list Z) : list Z := zip_with Z.land a b.
Definition all_ones (T : int_type) (c : bool) : Z := if c then static_cast T (-1) else 0.
Definition vceqq (T : int_type) (a b : list Z) : list Z := zip_with (fun x y => all_ones T (x =? y)) a b.
Definition vcgtq (T : int_type) (a b : list Z) : list Z := zip_with (fun x y => all_ones T (y <? x)) a b.
Definition vcgeq (T : int_type) (a b : list Z) : list Z := zip_with (fun x y => all_ones T (y <=? x)) a b.
Definition vcleq (T : int_type) (a b : list Z) : list Z := zip_with (fun x y => all_ones T (x <=? y)) a b.
(** [vbslq_u8]: bits of the second operand where the first has ones, of the third elsewhere. *)
Definition vbslq_u8 (mask a b : list Z) : list Z :=
  zip_with Z.lor (zip_with Z.land mask a) (zip_with (fun m y => Z.land (255 - m) y) mask b).

(** [__builtin_add_overflow], [__builtin_sub_overflow] and [__builtin_mul_overflow] of the
    exact result: whether it does not fit, and what is stored. *)
Definition overflow (T : int_type) (x : Z) : bool * Z := (negb ((int_min T <=? x) && (x <=? int_max T)), static_cast T x).

(** ** Operations with one and with two sources *)

Definition unary_operation (T : int_type) (once : bool) (vector : list Z -> list Z) (scalar : Z -> Z) : ElementwiseOperation :=
  {| arity := 1; num_lanes := 128 / width T; is_unrolled_once := once;
     vector_path := fun srcs => match srcs with [src] => vector src | _ => [] end;
     scalar_path := fun srcs => match srcs with [src] => scalar src | _ => 0 end |}.

Definition binary_operation (T : int_type) (once : bool) (vector : list Z -> list Z -> list Z) (scalar : Z -> Z -> Z)
    : ElementwiseOperation :=
  {| arity := 2; num_lanes := 128 / width T; is_unrolled_once := once;
     vector_path := fun srcs => match srcs with [src_a; src_b] => vector src_a src_b | _ => [] end;
     scalar_path := fun srcs => match srcs with [src_a; src_b] => scalar src_a src_b | _ => 0 end |}.

(** [SaturatingAdd]. *)
Definition SaturatingAdd_scalar_path (T : int_type) (src_a src_b : Z) : Z :=
  if is_signed T && (src_b <? 0) then
    let '(overflows, result) := overflow T (src_a + src_b) in if overflows then int_min T else result
  else
    let '(overflows, result) := overflow T (src_a + src_b) in if overflows then int_max T else result.
Definition SaturatingAdd (T : int_type) := binary_operation T false (vqaddq T) (SaturatingAdd_scalar_path T).

(** [SaturatingSub]. *)
Definition SaturatingSub_scalar_path (T : int_type) (src_a src_b : Z) : Z :=
  if is_signed T && (src_b <? 0) then
    let '(overflows, result) := overflow T (src_a - src_b) in if overflows then int_max T else result
  else
    let '(overflows, result) := overflow T (src_a - src_b) in if overflows then int_min T else result.
Definition SaturatingSub (T : int_type) := binary_operation T false (vqsubq T) (SaturatingSub_scalar_path T).

(** [SaturatingAbsDiff]. *)
Definition SaturatingAbsDiff_vector_path (T : int_type) (src_a src_b : list Z) : list Z :=
  if is_signed T then vqabsq T (vqsubq T src_a src_b) else vabdq src_a src_b.
Definition SaturatingAbsDiff_scalar_path (T : int_type) (src_a src_b : Z) : Z :=
  let '(overflows, difference) := overflow T (Z.max src_a src_b - Z.min src_a src_b) in
  if overflows then int_max T else difference.
Definition SaturatingAbsDiff (T : int_type) :=
  binary_operation T false (SaturatingAbsDiff_vector_path T) (SaturatingAbsDiff_scalar_path T).

(** [SaturatingMultiply]: products are formed in a type of twice the width. *)
Definition SaturatingMultiply_vector_path (T : int_type) (src_a src_b : list Z) : list Z :=
  let wide := IntType (is_signed T) (2 * width T) in
  let high_part := vmul wide (vget_high src_a) (vget_high src_b) in
  let low_part := vmul wide (vget_low src_a) (vget_low src_b) in
  vcombine (vqmovn_clamp T low_part) (vqmovn_clamp T high_part).
Definition SaturatingMultiply_scalar_path (T : int_type) (src_a src_b : Z) : Z :=
  let '(overflows, result) := overflow T (src_a * src_b) in
  if is_signed T then
    if overflows then
      if ((src_a <? 0) && (0 <? src_b)) || ((0 <? src_a) && (src_b <? 0)) then int_min T else int_max T
    else result
  else if overflows then int_max T else result.
Definition SaturatingMultiply (T : int_type) :=
  binary_operation T false (SaturatingMultiply_vector_path T) (SaturatingMultiply_scalar_path T).

(** [BitwiseAnd], [ComparatorEqual] and [ComparatorGreater] of bytes. *)
Definition BitwiseAnd := binary_operation uint8 false vandq Z.land.
Definition ComparatorEqual :=
  binary_operation uint8 false (vceqq uint8) (fun src_a src_b => if src_a =? src_b then 255 else 0).
Definition ComparatorGreater :=
  binary_operation uint8 false (vcgtq uint8) (fun src_a src_b => if src_b <? src_a then 255 else 0).

(** [InRange<uint8_t>]. *)
Definition InRange_vector_path (lower_bound upper_bound : Z) (src : list Z) : list Z :=
  vandq (vcgeq uint8 src (vdup_n 16 lower_bound)) (vcleq uint8 src (vdup_n 16 upper_bound)).
Definition InRange (lower_bound upper_bound : Z) :=
  unary_operation uint8 false (InRange_vector_path lower_bound upper_bound)
    (fun src => if (lower_bound <=? src) && (src <=? upper_bound) then 0xFF else 0).

(** [BinaryThreshold]. *)
Definition BinaryThreshold_vector_path (threshold value : Z) (src : list Z) : list Z :=
  let predicate := vcgtq uint8 src (vdup_n 16 threshold) in
  vbslq_u8 predicate (vdup_n 16 value) (vdup_n 16 0).
Definition BinaryThreshold (threshold value : Z) :=
  unary_operation uint8 false (BinaryThreshold_vector_path threshold value)
    (fun src => if threshold <? src then value else 0).

(** [SaturatingAddAbsWithThreshold]: [std::abs] of the smallest value is avoided. *)
Definition saturate_abs (T : int_type) (input : Z) : Z :=
  if is_signed T && (input =? int_min T) then int_max T else Z.abs input.
Definition SaturatingAddAbsWithThreshold_vector_path (threshold : Z) (src_a src_b : list Z) : list Z :=
  let add_abs := vqaddq int16 (vqabsq int16 src_a) (vqabsq int16 src_b) in
  vandq add_abs (vcgtq int16 add_abs (vdup_n 8 threshold)).
Definition SaturatingAddAbsWithThreshold_scalar_path (threshold src_a src_b : Z) : Z :=
  let '(overflows, sum) := overflow int16 (saturate_abs int16 src_a + saturate_abs int16 src_b) in
  let add_abs := if overflows then int_max int16 else sum in
  if threshold <? add_abs then add_abs else 0.
Definition SaturatingAddAbsWithThreshold (threshold : Z) :=
  binary_operation int16 true (SaturatingAddAbsWithThreshold_vector_path threshold)
    (SaturatingAddAbsWithThreshold_scalar_path threshold).

(** ** The vector paths are the scalar paths *)

Definition integer_type (T : int_type) : Prop := is_width (width T).

Ltac instruction_lanes :=
  match goal with
  | |- lanes_of _ (zip_with _ _ _) _ => eapply lanes_of_zip_with; instruction_lanes
  | |- lanes_of _ (map _ _) _ => eapply lanes_of_map; instruction_lanes
  | |- lanes_of _ (vdup_n _ _) _ => apply lanes_of_dup
  | |- _ => apply lanes_of_vector; done
  end.

(** The limits of the integer types as numerals. *)
Ltac integer_types T :=
  let sg := fresh "sg" in let w := fresh "w" in
  destruct T as [sg w]; unfold integer_type, is_width in *; cbn [width is_signed] in *;
  unfold in_type, clamp_to, overflow, int_min, int_max, static_cast in *; cbn [width is_signed andb] in *.

Lemma unary_laws T once vector scalar (valid : Z -> Prop) (f : Z -> Z) : integer_type T ->
  (forall a, length a = Z.to_nat (128 / width T) -> Forall valid a ->
    lanes_of (Z.to_nat (128 / width T)) (vector a) (fun i => f (a !!! i))) ->
  (forall x, valid x -> scalar x = f x) ->
  ElementwiseLaws (unary_operation T once vector scalar) valid (fun srcs => f (srcs !!! 0%nat)).
Proof.
  intros HT Hv Hs. constructor; cbn [unary_operation num_lanes arity vector_path scalar_path].
  - destruct HT as [->|[->|[->| ->]]]; vm_compute; split; congruence.
  - intros [|a [|]] Ha Hl; try done. apply Forall_cons in Ha as [[Hla Hva] _]. cbn [map].
    by apply lanes_of_list, Hv.
  - intros [|a [|]] Ha Hl; try done. apply Forall_cons in Ha as [Hva _]. by apply Hs.
Qed.

Lemma binary_laws T once vector scalar (valid : Z -> Prop) (f : Z -> Z -> Z) : integer_type T ->
  (forall a b, length a = Z.to_nat (128 / width T) -> length b = Z.to_nat (128 / width T) ->
    Forall valid a -> Forall valid b ->
    lanes_of (Z.to_nat (128 / width T)) (vector a b) (fun i => f (a !!! i) (b !!! i))) ->
  (forall x y, valid x -> valid y -> scalar x y = f x y) ->
  ElementwiseLaws (binary_operation T once vector scalar) valid (fun srcs => f (srcs !!! 0%nat) (srcs !!! 1%nat)).
Proof.
  intros HT Hv Hs. constructor; cbn [binary_operation num_lanes arity vector_path scalar_path].
  - destruct HT as [->|[->|[->| ->]]]; vm_compute; split; congruence.
  - intros [|a [|b [|]]] Ha Hl; try done. apply Forall_cons in Ha as [[Hla Hva] Hb]. apply Forall_cons in Hb as [[Hlb Hvb] _].
    cbn [map]. by apply lanes_of_list, Hv.
  - intros [|a [|b [|]]] Ha Hl; try done. apply Forall_cons in Ha as [Hva Hb]. apply Forall_cons in Hb as [Hvb _]. by apply Hs.
Qed.

(** What the overflow builtins tell is what clamping does. *)
Lemma overflow_clamp T x : integer_type T ->
  overflow T x = (negb ((int_min T <=? x) && (x <=? int_max T)), static_cast T x) /\
  (int_min T <= x <= int_max T -> static_cast T x = clamp_to T x) /\
  (x < int_min T -> clamp_to T x = int_min T) /\ (int_max T < x -> clamp_to T x = int_max T).
Proof.
  intros HT. split; [done|]. assert (1 < width T) as Hw by (unfold integer_type, is_width in HT; lia).
  assert (int_min T <= int_max T).
  { unfold int_min, int_max. destruct (is_signed T); [pose proof (Z.pow_pos_nonneg 2 (width T - 1))|pose proof (Z.pow_pos_nonneg 2 (width T))]; lia. }
  split_and!; [|unfold clamp_to; lia..]. intros Hx. rewrite static_cast_id by done. unfold clamp_to. lia.
Qed.

(** Case analysis on whether an exact result fits. *)
Ltac overflow_cases T x HT :=
  let Hc := fresh "Hc" in
  destruct (overflow_clamp T x HT) as (_ & ?Hin & ?Hlow & ?Hhigh); unfold overflow;
  destruct (Z.leb_spec (int_min T) x), (Z.leb_spec x (int_max T)); cbn [andb negb];
  rewrite ?Hin, ?Hlow, ?Hhigh by lia.

Lemma type_bounds T : integer_type T -> int_min T <= 0 < int_max T /\ (is_signed T = true -> int_min T = - int_max T - 1) /\
  (is_signed T = false -> int_min T = 0).
Proof.
  destruct T as [sg w]. unfold integer_type, is_width, int_min, int_max. cbn [width is_signed].
  intros [->|[->|[->| ->]]]; destruct sg; cbn; lia.
Qed.

Lemma saturating_add_laws T : integer_type T ->
  ElementwiseLaws (SaturatingAdd T) (in_type T) (fun srcs => clamp_to T (srcs !!! 0%nat + srcs !!! 1%nat)).
Proof.
  intros HT. apply (binary_laws T false _ _ _ (fun a b => clamp_to T (a + b)) HT).
  - intros a b Ha Hb _ _. unfold vqaddq. eapply lanes_of_ext; [|instruction_lanes]. done.
  - intros x y Hx Hy. unfold SaturatingAdd_scalar_path, in_type in *. destruct (type_bounds T HT) as (? & ? & ?).
    overflow_cases T (x + y) HT; destruct (is_signed T), (Z.ltb_spec y 0); cbn [andb]; try done; lia.
Qed.

Lemma saturating_sub_laws T : integer_type T ->
  ElementwiseLaws (SaturatingSub T) (in_type T) (fun srcs => clamp_to T (srcs !!! 0%nat - srcs !!! 1%nat)).
Proof.
  intros HT. apply (binary_laws T false _ _ _ (fun a b => clamp_to T (a - b)) HT).
  - intros a b Ha Hb _ _. unfold vqsubq. eapply lanes_of_ext; [|instruction_lanes]. done.
  - intros x y Hx Hy. unfold SaturatingSub_scalar_path, in_type in *. destruct (type_bounds T HT) as (? & ? & ?).
    overflow_cases T (x - y) HT; destruct (is_signed T), (Z.ltb_spec y 0); cbn [andb]; try done; lia.
Qed.

Lemma saturating_absdiff_laws T : integer_type T ->
  ElementwiseLaws (SaturatingAbsDiff T) (in_type T) (fun srcs => clamp_to T (Z.abs (srcs !!! 0%nat - srcs !!! 1%nat))).
Proof.
  intros HT. destruct (type_bounds T HT) as (? & Hsg & Hus).
  apply (binary_laws T false _ _ _ (fun a b => clamp_to T (Z.abs (a - b))) HT).
  - intros a b Ha Hb Hva Hvb. unfold SaturatingAbsDiff_vector_path, vqabsq, vqsubq, vabdq.
    destruct (is_signed T); (eapply lanes_of_ext; [|instruction_lanes]); intros i Hi; cbv beta.
    + specialize (Hsg eq_refl). unfold clamp_to. lia.
    + specialize (Hus eq_refl). rewrite Forall_forall in Hva, Hvb.
      specialize (Hva (a !!! i) ltac:(apply list_elem_of_lookup_total_2; lia)).
      specialize (Hvb (b !!! i) ltac:(apply list_elem_of_lookup_total_2; lia)). unfold in_type in *. unfold clamp_to. lia.
  - intros x y Hx Hy. unfold SaturatingAbsDiff_scalar_path, in_type in *.
    replace (Z.abs (x - y)) with (Z.max x y - Z.min x y) by lia.
    overflow_cases T (Z.max x y - Z.min x y) HT; try done; lia.
Qed.

(** A product of two elements fits the wide type. *)
Lemma wide_product T x y : integer_type T -> in_type T x -> in_type T y ->
  static_cast (IntType (is_signed T) (2 * width T)) (x * y) = x * y.
Proof.
  destruct T as [sg w]. unfold integer_type, is_width, in_type, int_min, int_max. cbn [width is_signed].
  intros HT Hx Hy. apply static_cast_id; [cbn [width]; lia|]. unfold in_type, int_min, int_max. cbn [width is_signed].
  destruct HT as [->|[->|[->| ->]]]; destruct sg; cbn in *; nia.
Qed.

Lemma saturating_multiply_laws T : integer_type T ->
  ElementwiseLaws (SaturatingMultiply T) (in_type T) (fun srcs => clamp_to T (srcs !!! 0%nat * srcs !!! 1%nat)).
Proof.
  intros HT. destruct (type_bounds T HT) as (? & Hsg & Hus).
  apply (binary_laws T false _ _ _ (fun a b => clamp_to T (a * b)) HT).
  - intros a b Ha Hb Hva Hvb. set (m := Z.to_nat (64 / width T)).
    assert (Z.to_nat (128 / width T) = m + m)%nat as Hn by (destruct HT as [HT|[HT|[HT|HT]]]; unfold m; rewrite HT; reflexivity).
    rewrite Hn in *. unfold SaturatingMultiply_vector_path, vcombine, vqmovn_clamp, vmul.
    assert (forall i, (i < m + m)%nat -> static_cast (IntType (is_signed T) (2 * width T)) (a !!! i * b !!! i) = a !!! i * b !!! i) as Hp.
    { intros i Hi. rewrite Forall_forall in Hva, Hvb.
      apply wide_product; [done|apply Hva|apply Hvb]; apply list_elem_of_lookup_total_2; lia. }
    apply lanes_of_app.
    + eapply lanes_of_ext; [|eapply lanes_of_map, lanes_of_zip_with; apply lanes_of_low, lanes_of_vector; done].
      intros i Hi. cbv beta. by rewrite Hp by lia.
    + eapply lanes_of_ext; [|eapply lanes_of_map, lanes_of_zip_with; eapply lanes_of_high, lanes_of_vector; done].
      intros i Hi. cbv beta. by rewrite Hp by lia.
  - intros x y Hx Hy. unfold SaturatingMultiply_scalar_path, in_type in *.
    overflow_cases T (x * y) HT; destruct (is_signed T); try done; try (rewrite Hus by done; nia);
      destruct (Z.ltb_spec x 0), (Z.ltb_spec 0 y), (Z.ltb_spec 0 x), (Z.ltb_spec y 0); cbn [andb orb]; try done; nia.
Qed.

Lemma byte_lanes_laws (f : Z -> Z -> Z) vector scalar :
  (forall a b, length a = 16%nat -> length b = 16%nat -> lanes_of 16 (vector a b) (fun i => f (a !!! i) (b !!! i))) ->
  (forall x y, scalar x y = f x y) ->
  ElementwiseLaws (binary_operation uint8 false vector scalar) (in_type uint8) (fun srcs => f (srcs !!! 0%nat) (srcs !!! 1%nat)).
Proof. intros Hv Hs. apply binary_laws; [by left|intros a b Ha Hb _ _; by apply Hv|auto]. Qed.

Lemma bitwise_and_laws : ElementwiseLaws BitwiseAnd (in_type uint8) (fun srcs => Z.land (srcs !!! 0%nat) (srcs !!! 1%nat)).
Proof.
  apply (byte_lanes_laws Z.land); [|done]. intros a b Ha Hb. unfold vandq. eapply lanes_of_ext; [|instruction_lanes]. done.
Qed.

Lemma compare_equal_laws : ElementwiseLaws ComparatorEqual (in_type uint8)
  (fun srcs => if srcs !!! 0%nat =? srcs !!! 1%nat then 255 else 0).
Proof.
  apply (byte_lanes_laws (fun a b => if a =? b then 255 else 0)); [|done].
  intros a b Ha Hb. unfold vceqq. eapply lanes_of_ext; [|instruction_lanes]. done.
Qed.

Lemma compare_greater_laws : ElementwiseLaws ComparatorGreater (in_type uint8)
  (fun srcs => if srcs !!! 1%nat <? srcs !!! 0%nat then 255 else 0).
Proof.
  apply (byte_lanes_laws (fun a b => if b <? a then 255 else 0)); [|done].
  intros a b Ha Hb. unfold vcgtq. eapply lanes_of_ext; [|instruction_lanes]. done.
Qed.

Lemma in_range_laws lower upper : ElementwiseLaws (InRange lower upper) (in_type uint8)
  (fun srcs => if (lower <=? srcs !!! 0%nat) && (srcs !!! 0%nat <=? upper) then 255 else 0).
Proof.
  apply (unary_laws uint8 false _ _ _ (fun a => if (lower <=? a) && (a <=? upper) then 255 else 0)); [by left| |done].
  intros a Ha _. unfold InRange_vector_path, vandq, vcgeq, vcleq. eapply lanes_of_ext; [|instruction_lanes].
  intros i Hi. cbv beta. by destruct (lower <=? a !!! i), (a !!! i <=? upper).
Qed.

Lemma binary_threshold_laws threshold value : in_type uint8 value ->
  ElementwiseLaws (BinaryThreshold threshold value) (in_type uint8)
    (fun srcs => if threshold <? srcs !!! 0%nat then value else 0).
Proof.
  intros Hv. apply (unary_laws uint8 false _ _ _ (fun a => if threshold <? a then value else 0)); [by left| |done].
  intros a Ha _. unfold BinaryThreshold_vector_path, vbslq_u8, vcgtq. eapply lanes_of_ext; [|instruction_lanes].
  intros i Hi. cbv beta. destruct (threshold <? a !!! i); cbn [all_ones].
  - change (static_cast uint8 (-1)) with (2 ^ 8 - 1). rewrite Z.land_comm, land_mask_mod by lia. change (255 - (2 ^ 8 - 1)) with 0.
    rewrite Z.lor_0_r. apply Z.mod_small. unfold in_type in Hv. cbn in Hv. lia.
  - by rewrite !Z.land_0_r.
Qed.

Lemma add_abs_with_threshold_laws threshold :
  ElementwiseLaws (SaturatingAddAbsWithThreshold threshold) (in_type int16)
    (fun srcs => let add_abs := clamp_to int16 (Z.abs (srcs !!! 0%nat) + Z.abs (srcs !!! 1%nat)) in
                 if threshold <? add_abs then add_abs else 0).
Proof.
  assert (integer_type int16) as HT by (right; by left).
  apply (binary_laws int16 true _ _ _ (fun a b => let add_abs := clamp_to int16 (Z.abs a + Z.abs b) in
    if threshold <? add_abs then add_abs else 0) HT).
  - intros a b Ha Hb _ _. unfold SaturatingAddAbsWithThreshold_vector_path, vandq, vcgtq, vqaddq, vqabsq.
    eapply lanes_of_ext; [|instruction_lanes]. intros i Hi. cbv beta zeta.
    assert (clamp_to int16 (clamp_to int16 (Z.abs (a !!! i)) + clamp_to int16 (Z.abs (b !!! i))) =
      clamp_to int16 (Z.abs (a !!! i) + Z.abs (b !!! i))) as Hc.
    { unfold clamp_to. change (int_min int16) with (-32768). change (int_max int16) with 32767. lia. }
    rewrite Hc. destruct (threshold <? _); cbn [all_ones].
    + change (static_cast int16 (-1)) with (-1). apply Z.land_m1_r.
    + apply Z.land_0_r.
  - intros x y Hx Hy. unfold SaturatingAddAbsWithThreshold_scalar_path, saturate_abs. cbn [int16 is_signed andb].
    assert ((let '(overflows, sum) := overflow int16 ((if x =? int_min int16 then int_max int16 else Z.abs x) +
      (if y =? int_min int16 then int_max int16 else Z.abs y)) in if overflows then int_max int16 else sum) =
      clamp_to int16 (Z.abs x + Z.abs y)) as Hs.
    { assert (forall z, 0 <= z -> (let '(overflows, sum) := overflow int16 z in if overflows then int_max int16 else sum) =
        clamp_to int16 z) as Hz.
      { intros z Hz. overflow_cases int16 z HT; try done; change (int_min int16) with (-32768) in *; lia. }
      unfold in_type in *. change (int_min int16) with (-32768) in *. change (int_max int16) with 32767 in *.
      rewrite Hz by (destruct (x =? -32768), (y =? -32768); lia). unfold clamp_to.
      change (int_min int16) with (-32768). change (int_max int16) with 32767.
      destruct (Z.eqb_spec x (-32768)), (Z.eqb_spec y (-32768)); lia. }
    revert Hs. destruct (overflow int16 _) as [o s]. intros ->. done.
Qed.

(** ** Calls *)

Definition checks (sizeof : Z) (images : list (Z * Z)) (width height : Z) : kleidicv_error_t :=
  foldr (fun image rest => check_pointer_and_stride sizeof image.1 image.2 height ?> rest)
    (check_image_size width height) images.

(** What the operations below share: the checks of the sources and of the destination, in
    the order of the parameters, and the run by rows. *)
Definition elementwise_call (op : ElementwiseOperation) (sizeof : Z) (srcs : list (Z * Z)) (dst : Z * Z)
    (width height : Z) (mem : Z -> Z) : kleidicv_error_t * (Z -> Z) :=
  match checks sizeof (srcs ++ [dst]) width height with
  | KLEIDICV_OK =>
      (KLEIDICV_OK, apply_operation_by_rows op sizeof {| width_ := width; height_ := height |}
        (map (rows_of sizeof) srcs) (rows_of sizeof dst) mem)
  | error => (error, mem)
  end.

Definition size_of_type (T : int_type) : Z := width T / 8.

Definition saturating_add (T : int_type) (src_a src_b dst : Z * Z) :=
  elementwise_call (SaturatingAdd T) (size_of_type T) [src_a; src_b] dst.
Definition saturating_sub (T : int_type) (src_a src_b dst : Z * Z) :=
  elementwise_call (SaturatingSub T) (size_of_type T) [src_a; src_b] dst.
Definition saturating_absdiff (T : int_type) (src_a src_b dst : Z * Z) :=
  elementwise_call (SaturatingAbsDiff T) (size_of_type T) [src_a; src_b] dst.
(** The parameter [scale] is not used. *)
Definition saturating_multiply (T : int_type) (src_a src_b dst : Z * Z) :=
  elementwise_call (SaturatingMultiply T) (size_of_type T) [src_a; src_b] dst.
Definition bitwise_and (src_a src_b dst : Z * Z) := elementwise_call BitwiseAnd 1 [src_a; src_b] dst.
Definition compare_equal (src_a src_b dst : Z * Z) := elementwise_call ComparatorEqual 1 [src_a; src_b] dst.
Definition compare_greater (src_a src_b dst : Z * Z) := elementwise_call ComparatorGreater 1 [src_a; src_b] dst.
Definition in_range (lower_bound upper_bound : Z) (src dst : Z * Z) :=
  elementwise_call (InRange lower_bound upper_bound) 1 [src] dst.
Definition threshold_binary (threshold value : Z) (src dst : Z * Z) :=
  elementwise_call (BinaryThreshold threshold value) 1 [src] dst.
Definition saturating_add_abs_with_threshold (threshold : Z) (src_a src_b dst : Z * Z) :=
  elementwise_call (SaturatingAddAbsWithThreshold threshold) 2 [src_a; src_b] dst.

(** The conditions that the checks impose on the arguments. *)
Definition accepts (sizeof : Z) (images : list (Z * Z)) (width height : Z) : Prop :=
  Forall (fun image => image.1 <> 0 /\ (1 < height -> sizeof <> 1 -> is_misaligned sizeof image.2 = false)) images /\
  width * height <= KLEIDICV_MAX_IMAGE_PIXELS.

Lemma checks_accept sizeof images width height : 0 <= width -> 0 <= height ->
  checks sizeof images width height = KLEIDICV_OK <-> accepts sizeof images width height.
Proof.
  intros Hw Hh. unfold checks, accepts. induction images as [|image images IH]; cbn [foldr].
  - rewrite check_image_size_iff by done. split; [by split|by intros [_ ?]].
  - rewrite guard_error_ok, check_pointer_and_stride_ok, IH, Forall_cons. tauto.
Qed.

(** Where the images are: in the address space, and the sources are the destination or
    apart from it. *)
Definition placed (sizeof width height : Z) (srcs : list (Z * Z)) (dst : Z * Z) : Prop :=
  0 <= width /\ 0 <= height /\ Forall (in_address_space sizeof width height) (dst :: srcs) /\
  Forall (same_or_apart sizeof width height dst) (dst :: srcs).

(** What a call does for accepted and for rejected arguments. *)
Definition call_result (f : list Z -> Z) (sizeof : Z) (srcs : list (Z * Z)) (dst : Z * Z) (width height : Z)
    (mem : Z -> Z) (result : kleidicv_error_t * (Z -> Z)) : Prop :=
  (accepts sizeof (srcs ++ [dst]) width height ->
    result.1 = KLEIDICV_OK /\ computed f sizeof width height srcs dst mem result.2) /\
  (~ accepts sizeof (srcs ++ [dst]) width height -> result.1 <> KLEIDICV_OK /\ result.2 = mem).

Definition elements_in (valid : Z -> Prop) (sizeof width height : Z) (srcs : list (Z * Z)) (mem : Z -> Z) : Prop :=
  forall src y x, src ∈ srcs -> 0 <= y < height -> 0 <= x < width -> valid (mem (pixel_address sizeof src y x)).

Lemma elementwise_call_correct op valid f sizeof srcs dst width height mem :
  ElementwiseLaws op valid f -> 0 < sizeof -> length srcs = arity op -> placed sizeof width height srcs dst ->
  elements_in valid sizeof width height srcs mem ->
  call_result f sizeof srcs dst width height mem (elementwise_call op sizeof srcs dst width height mem).
Proof.
  intros Hlaws Hs Hl (Hw & Hh & Hspace & Hapart) Hv. unfold elementwise_call, call_result.
  pose proof (checks_accept sizeof (srcs ++ [dst]) width height Hw Hh) as Hiff.
  destruct (decide (checks sizeof (srcs ++ [dst]) width height = KLEIDICV_OK)) as [Hok|Hok].
  - rewrite Hok. cbn [fst snd]. apply Hiff in Hok as Ha. split; [intros _|done]. split; [done|].
    apply (apply_operation_correct op valid f); try done.
    destruct Ha as [_ Ha]. unfold KLEIDICV_MAX_IMAGE_PIXELS in Ha. change (Z.shiftl 1 48 - 1) with (2 ^ 48 - 1) in Ha. lia.
  - split; [by intros Ha%Hiff|]. intros _. by destruct (checks _ _ _ _).
Qed.

(** C27: the saturating operations of every integer type (addition, subtraction, absolute
    difference, and multiplication, whose vector path forms wide products) compute the
    exact result clamped to the type for every element, in the vector path as in the
    scalar remainder, in place as well as into another image; they write nothing else, and
    reject exactly the arguments that fail their checks. *)
Theorem saturating_arithmetic_correct T call (exact : Z -> Z -> Z) a b dst w h mem :
  integer_type T ->
  (call, exact) ∈ [(saturating_add T, Z.add); (saturating_sub T, Z.sub);
    (saturating_absdiff T, fun x y => Z.abs (x - y)); (saturating_multiply T, Z.mul)] ->
  placed (size_of_type T) w h [a; b] dst -> elements_in (in_type T) (size_of_type T) w h [a; b] mem ->
  call_result (fun srcs => clamp_to T (exact (srcs !!! 0%nat) (srcs !!! 1%nat))) (size_of_type T) [a; b] dst w h mem
    (call a b dst w h mem).
Proof.
  intros HT Hc Hp Hv.
  assert (0 < size_of_type T) by (unfold size_of_type; destruct HT as [->|[->|[->| ->]]]; done).
  rewrite !elem_of_cons, elem_of_nil in Hc.
  destruct Hc as [[= -> ->]|[[= -> ->]|[[= -> ->]|[[= -> ->]|[]]]]];
    (eapply elementwise_call_correct; [|done|done|done|exact Hv]).
  - by apply saturating_add_laws.
  - by apply saturating_sub_laws.
  - by apply saturating_absdiff_laws.
  - by apply saturating_multiply_laws.
Qed.

(** In place on 16-bit elements, with a vector and a scalar remainder in each row. *)
Lemma saturating_arithmetic_correct_witness :
  let result := saturating_sub int16 (1000, 20) (2000, 18) (1000, 20) 9 2 (fun p => if p <? 2000 then -30000 else 20000) in
  result.1 = KLEIDICV_OK /\ result.2 1036 = -32768 /\ result.2 1018 = -30000.
Proof.
  destruct (saturating_arithmetic_correct int16 (saturating_sub int16) Z.sub (1000, 20) (2000, 18) (1000, 20) 9 2
    (fun p => if p <? 2000 then -30000 else 20000)) as [Hok _].
  - right. by left.
  - right. by left.
  - unfold placed. split_and!; [lia|lia|..]; apply Forall_forall; intros r Hr; rewrite !elem_of_cons, elem_of_nil in Hr;
      unfold in_address_space, same_or_apart, pixel_address; change (size_of_type int16) with 2;
      destruct Hr as [->|[->|[->|[]]]]; cbn [fst snd]; intros; lia.
  - intros src y x _ _ _. cbv beta. unfold in_type. destruct (_ <? _); cbn; lia.
  - destruct Hok as [H1 [H2 H3]].
    { split; [|vm_compute; discriminate]. repeat constructor; cbn; discriminate. }
    split_and!; [exact H1| |].
    + specialize (H2 1 8 ltac:(lia) ltac:(lia)). exact H2.
    + rewrite H3; [done|]. unfold pixel_address. change (size_of_type int16) with 2. cbn [fst snd]. intros. lia.
Defined.

(** C28: the byte operations: bitwise and, the comparisons, [in_range] and [threshold_binary]
    give 255 (or the value of the threshold) exactly where the condition holds and 0
    elsewhere, in place as well as into another image, and reject exactly the arguments
    that fail their checks. *)
Theorem byte_operations_correct call (f : list Z -> Z) lower upper threshold value srcs dst w h mem :
  in_type uint8 value ->
  (exists src, srcs = [src] /\
    (call, f) ∈ [(in_range lower upper src, fun v => if (lower <=? v !!! 0%nat) && (v !!! 0%nat <=? upper) then 255 else 0);
      (threshold_binary threshold value src, fun v => if threshold <? v !!! 0%nat then value else 0)]) \/
  (exists a b, srcs = [a; b] /\
    (call, f) ∈ [(bitwise_and a b, fun v => Z.land (v !!! 0%nat) (v !!! 1%nat));
      (compare_equal a b, fun v => if v !!! 0%nat =? v !!! 1%nat then 255 else 0);
      (compare_greater a b, fun v => if v !!! 1%nat <? v !!! 0%nat then 255 else 0)]) ->
  placed 1 w h srcs dst -> elements_in (in_type uint8) 1 w h srcs mem ->
  call_result f 1 srcs dst w h mem (call dst w h mem).
Proof.
  intros Hval Hc Hp Hv.
  destruct Hc as [(src & -> & Hc)|(a & b & -> & Hc)]; rewrite !elem_of_cons, elem_of_nil in Hc.
  - destruct Hc as [[= -> ->]|[[= -> ->]|[]]]; (eapply elementwise_call_correct; [|done|done|done|exact Hv]).
    + apply in_range_laws.
    + by apply binary_threshold_laws.
  - destruct Hc as [[= -> ->]|[[= -> ->]|[[= -> ->]|[]]]]; (eapply elementwise_call_correct; [|done|done|done|exact Hv]).
    + apply bitwise_and_laws.
    + apply compare_equal_laws.
    + apply compare_greater_laws.
Qed.

(** A threshold in place over two rows of 33 bytes. *)
Lemma byte_operations_correct_witness :
  let result := threshold_binary 128 255 (1000, 40) (1000, 40) 33 2 (fun p => if p <? 1020 then 200 else 100) in
  result.1 = KLEIDICV_OK /\ result.2 1010 = 255 /\ result.2 1050 = 0 /\ result.2 1039 = 100.
Proof.
  destruct (byte_operations_correct (threshold_binary 128 255 (1000, 40)) (fun v => if 128 <? v !!! 0%nat then 255 else 0)
    0 0 128 255 [(1000, 40)] (1000, 40) 33 2 (fun p => if p <? 1020 then 200 else 100)) as [Hok _].
  - done.
  - left. exists (1000, 40). split; [done|]. right. by left.
  - unfold placed. split_and!; [lia|lia|..]; apply Forall_forall; intros r Hr; rewrite !elem_of_cons, elem_of_nil in Hr;
      unfold in_address_space, same_or_apart, pixel_address;
      destruct Hr as [->|[->|[]]]; cbn [fst snd]; intros; lia.
  - intros src y x _ _ _. cbv beta. unfold in_type. destruct (_ <? _); cbn; lia.
  - destruct Hok as [H1 [H2 H3]].
    { split; [|vm_compute; discriminate]. repeat constructor; cbn; discriminate. }
    split_and!; [exact H1| | |].
    + exact (H2 0 10 ltac:(lia) ltac:(lia)).
    + exact (H2 1 10 ltac:(lia) ltac:(lia)).
    + rewrite H3; [done|]. unfold pixel_address. cbn [fst snd]. intros. lia.
Defined.
