(* ===== verification/ThreadArithmetic.v ===== *)
(** * Threaded element-wise operations

    The wrappers that [KLEIDICV_THREAD_BINARY_OP_IMPL] and its variants of
    [kleidicv_thread.cpp] define for the operations of Arithmetic: every batch of rows is one
    call of the single-threaded function with moved pointers, over one memory, so that the
    destination may be a source.  Each batch makes the checks of the function on its own
    rows. *)

From S2P Require Import Prelude CTypes Utils Elementwise Arithmetic ParallelBatches ThreadOps.

(** ** The wrappers *)

Section wrappers.
Variable parallel : range_callback (Z -> Z) -> Z -> (Z -> Z) -> kleidicv_error_t * (Z -> Z).

(** A function of two sources, and what [KLEIDICV_THREAD_BINARY_OP_IMPL] makes of it. *)
Definition binary_call : Type := Z * Z -> Z * Z -> Z * Z -> Z -> Z -> (Z -> Z) -> kleidicv_error_t * (Z -> Z).

Definition thread_binary_op (sizeof : Z) (call : binary_call) : binary_call := fun src_a src_b dst width height =>
  kleidicv_thread_binary_op_impl parallel sizeof sizeof
    (fun src_a src_a_stride src_b src_b_stride dst dst_stride => call (src_a, src_a_stride) (src_b, src_b_stride) (dst, dst_stride))
    src_a.1 src_a.2 src_b.1 src_b.2 dst.1 dst.2 width height.

Definition kleidicv_thread_saturating_add (T : int_type) := thread_binary_op (size_of_type T) (saturating_add T).
Definition kleidicv_thread_saturating_sub (T : int_type) := thread_binary_op (size_of_type T) (saturating_sub T).
Definition kleidicv_thread_saturating_absdiff (T : int_type) := thread_binary_op (size_of_type T) (saturating_absdiff T).
Definition kleidicv_thread_saturating_multiply (T : int_type) := thread_binary_op (size_of_type T) (saturating_multiply T).
Definition kleidicv_thread_bitwise_and := thread_binary_op 1 bitwise_and.
Definition kleidicv_thread_compare_equal_u8 := thread_binary_op 1 compare_equal.
Definition kleidicv_thread_compare_greater_u8 := thread_binary_op 1 compare_greater.
Definition kleidicv_thread_saturating_add_abs_with_threshold_s16 (threshold : Z) :=
  thread_binary_op (size_of_type int16) (saturating_add_abs_with_threshold threshold).
End wrappers.

(** ** The images of a batch *)

Definition batch_image (sizeof : Z) (image : Z * Z) (begin : Z) : Z * Z :=
  (offset_pointer sizeof image.1 begin image.2, image.2).

(** The strides are multiples of the element size where a batch may not start at row 0, and
    the rows are within the range of [ptrdiff_t]. *)
Definition steppable (sizeof height : Z) (image : Z * Z) : Prop :=
  0 <= image.2 /\ height * image.2 < 2 ^ 63 /\ (1 < height -> image.2 mod sizeof = 0).

Lemma batch_image_row sizeof image b height : 0 < sizeof -> steppable sizeof height image -> 0 <= b < height ->
  batch_image sizeof image b = (image.1 + b * image.2, image.2).
Proof.
  intros Hs (Hst & Hfits & Hal) Hb. unfold batch_image. f_equal. destruct (Z.eq_dec b 0) as [->|Hb0].
  - unfold offset_pointer. rewrite size_mul_small, Z.mul_0_l, Z.div_0_l, to_ptrdiff_small by lia. lia.
  - apply offset_pointer_row; [done|apply Hal; lia|lia|done|nia].
Qed.

Lemma batch_pixel sizeof image b y x :
  pixel_address sizeof (image.1 + b * image.2, image.2) y x = pixel_address sizeof image (b + y) x.
Proof. unfold pixel_address. cbn [fst snd]. lia. Qed.

Lemma accepts_aligned n images width height image : 0 <= n < 64 -> accepts (2 ^ n) images width height -> image ∈ images ->
  1 < height -> image.2 mod 2 ^ n = 0.
Proof.
  intros Hn [Ha _] Hi Hh. rewrite Forall_forall in Ha. destruct (Ha image Hi) as [_ Hal]. destruct (Z.eq_dec (2 ^ n) 1) as [->|Hne].
  - apply Z.mod_1_r.
  - specialize (Hal Hh Hne). rewrite is_misaligned_spec in Hal by done. apply negb_false_iff, Z.eqb_eq in Hal. done.
Qed.

(** ** Batches of a row operation over one memory *)

Section batches.
Context (op : ElementwiseOperation) (valid : Z -> Prop) (f : list Z -> Z) {laws : ElementwiseLaws op valid f}.
Context (sizeof n : Z) (srcs : list (Z * Z)) (dst : Z * Z) (width height : Z) (mem : Z -> Z).
Hypothesis element_size : 0 <= n < 64 /\ sizeof = 2 ^ n.
Hypothesis sources : length srcs = arity op.
Hypothesis images_placed : placed sizeof width height srcs dst.
Hypothesis elements_valid : elements_in valid sizeof width height srcs mem.
Hypothesis accepted : accepts sizeof (srcs ++ [dst]) width height.
Hypothesis rows_in_range : Forall (fun image => height * image.2 < 2 ^ 63) (dst :: srcs).
Hypothesis height_range : 0 < height < 2 ^ 63.

Definition batch_call : range_callback (Z -> Z) := fun begin end_ =>
  elementwise_call op sizeof (map (fun image => batch_image sizeof image begin) srcs) (batch_image sizeof dst begin) width (end_ ⊟ begin).

Lemma size_positive : 0 < sizeof.
Proof. destruct element_size as [Hn ->]. apply Z.pow_pos_nonneg; lia. Qed.

Lemma image_steppable image : image ∈ dst :: srcs -> steppable sizeof height image.
Proof.
  intros Hi. destruct images_placed as (_ & _ & Hspace & _). rewrite Forall_forall in Hspace. destruct (Hspace image Hi) as (_ & Hs & _).
  pose proof rows_in_range as Hr. rewrite Forall_forall in Hr. split; [lia|]. split; [by apply Hr|]. intros Hh.
  destruct element_size as [Hn E]. pose proof accepted as Ha. rewrite E in Ha |- *. apply (accepts_aligned n _ _ _ image Hn Ha); [|done].
  apply elem_of_cons in Hi as [->|Hi]; apply elem_of_app; [right; by left|by left].
Qed.

(** In [mem1] the rows of [done_] are processed, and all else is as before. *)
Definition rows_computed (done_ : Z -> bool) (mem1 : Z -> Z) : Prop :=
  (forall y x, 0 <= y < height -> 0 <= x < width -> done_ y = true ->
    mem1 (pixel_address sizeof dst y x) = f (map (fun src => mem (pixel_address sizeof src y x)) srcs)) /\
  (forall a, (forall y x, 0 <= y < height -> 0 <= x < width -> done_ y = true -> a <> pixel_address sizeof dst y x) -> mem1 a = mem a).

(** The sources of rows that are not processed are as before, also when they are the
    destination. *)
Lemma source_as_before done_ mem1 src y x : rows_computed done_ mem1 -> src ∈ srcs -> 0 <= y < height -> 0 <= x < width ->
  done_ y = false -> mem1 (pixel_address sizeof src y x) = mem (pixel_address sizeof src y x).
Proof.
  intros [_ Hrest] Hsrc Hy Hx Hnew. apply Hrest. intros y' x' Hy' Hx' Hd Heq.
  destruct images_placed as (_ & _ & _ & Hapart). rewrite Forall_forall in Hapart. pose proof size_positive.
  destruct (Hapart src ltac:(by right) y' x' y x) as (-> & _ & _); [done..|rewrite Heq; lia|congruence].
Qed.

Lemma moved_images b : 0 <= b < height ->
  map (fun image => batch_image sizeof image b) srcs = map (fun image : Z * Z => (image.1 + b * image.2, image.2)) srcs /\
  batch_image sizeof dst b = (dst.1 + b * dst.2, dst.2).
Proof.
  intros Hb. split; [|apply (batch_image_row _ _ _ height); [apply size_positive|apply image_steppable; by left|done]].
  apply map_ext_in. intros image Hi%list_elem_of_In. apply (batch_image_row _ _ _ height); [apply size_positive|apply image_steppable; by right|done].
Qed.

Lemma batch_placed b e : 0 <= b < e -> e <= height ->
  placed sizeof width (e - b) (map (fun image : Z * Z => (image.1 + b * image.2, image.2)) srcs) (dst.1 + b * dst.2, dst.2).
Proof.
  intros Hb He. destruct images_placed as (Hw & Hh & Hspace & Hapart).
  unfold placed. split; [done|]. split; [lia|].
  change ((dst.1 + b * dst.2, dst.2) :: map ?g srcs) with (map g (dst :: srcs)).
  rewrite !Forall_forall in *. split; intros image Hi; apply list_elem_of_In, in_map_iff in Hi as (image0 & <- & Hi%list_elem_of_In).
  - destruct (Hspace image0 Hi) as (H1 & H2 & H3 & H4). unfold in_address_space. cbn [fst snd]. nia.
  - intros y x y' x' Hy Hx Hy' Hx' Hnear. rewrite !batch_pixel in *.
    destruct (Hapart image0 Hi (b + y) x (b + y') x') as (? & ? & ?); [lia..|done|]. split; [lia|done].
Qed.

Lemma moved_accepts b e : 0 <= b < e -> e <= height ->
  accepts sizeof (map (fun image : Z * Z => (image.1 + b * image.2, image.2)) srcs ++ [(dst.1 + b * dst.2, dst.2)]) width (e - b).
Proof.
  intros Hb He. destruct images_placed as (Hw & Hh & Hspace & _). destruct accepted as [Ha Hsize].
  change [(dst.1 + b * dst.2, dst.2)] with (map (fun image : Z * Z => (image.1 + b * image.2, image.2)) [dst]). rewrite <- map_app.
  split; [|nia]. rewrite !Forall_forall in *. intros image Hi.
  apply list_elem_of_In, in_map_iff in Hi as (image0 & <- & Hi%list_elem_of_In). destruct (Ha image0 Hi) as [Hnull Hal]. cbn [fst snd].
  destruct (Hspace image0) as (H1 & H2 & _).
  { apply elem_of_app in Hi as [Hi|Hi]; [by right|]. apply list_elem_of_singleton in Hi as ->. by left. }
  split; [nia|]. intros Hn. apply Hal. lia.
Qed.

Lemma batch_computes done_ b e mem1 : 0 <= b < e -> e <= height -> (forall k, b <= k < e -> done_ k = false) ->
  rows_computed done_ mem1 ->
  is_ok (batch_call b e mem1).1 = true /\ rows_computed (fun k => done_ k || task_in k (b, e)) (batch_call b e mem1).2.
Proof.
  intros Hb He Hnew Hc. unfold batch_call. destruct (moved_images b ltac:(lia)) as [-> ->]. rewrite size_sub_small by lia.
  set (g := fun image : Z * Z => (image.1 + b * image.2, image.2)).
  destruct (elementwise_call_correct op valid f sizeof (map g srcs) (dst.1 + b * dst.2, dst.2) width (e - b) mem1) as [Hok _];
    [done|apply size_positive|by rewrite length_map|by apply batch_placed| |].
  - intros src y x Hsrc Hy Hx. apply list_elem_of_In, in_map_iff in Hsrc as (src0 & <- & Hsrc%list_elem_of_In). unfold g. rewrite batch_pixel.
    rewrite (source_as_before done_) by (done || lia || apply Hnew; lia). apply elements_valid; [done|lia|lia].
  - destruct (Hok (moved_accepts b e Hb He)) as [-> [H1 H2]]. split; [done|]. pose proof Hc as [Hc1 Hc2].
    assert (forall y, task_in y (b, e) = true <-> b <= y < e) as Hin.
    { intros y. unfold task_in. cbn [fst snd]. rewrite andb_true_iff, Z.leb_le, Z.ltb_lt. lia. }
    assert (forall y x, b <= y < e -> pixel_address sizeof dst y x = pixel_address sizeof (dst.1 + b * dst.2, dst.2) (y - b) x) as Hpix.
    { intros y x Hy. rewrite batch_pixel. f_equal. lia. }
    split.
    + intros y x Hy Hx Hd. destruct (task_in y (b, e)) eqn:Ht.
      * apply Hin in Ht. rewrite Hpix, H1 by (done || lia). rewrite map_map. f_equal. apply map_ext_in. intros src Hsrc%list_elem_of_In.
        unfold g. rewrite batch_pixel. replace (b + (y - b)) with y by lia. apply (source_as_before done_); try done. by apply Hnew.
      * rewrite orb_false_r in Hd. rewrite H2; [by apply Hc1|]. intros y' x' Hy' Hx'. rewrite batch_pixel. intros Heq.
        destruct images_placed as (_ & _ & _ & Hapart). apply Forall_cons in Hapart as [Hself _]. pose proof size_positive.
        destruct (Hself y x (b + y') x') as (-> & _ & _); [lia..|rewrite Heq; lia|].
        rewrite (proj2 (Hin (b + y'))) in Ht by lia. done.
    + intros a Ha. rewrite H2; [apply Hc2|].
      * intros y x Hy Hx Hd. apply Ha; try done. by rewrite Hd.
      * intros y' x' Hy' Hx'. rewrite batch_pixel. apply Ha; [lia|done|]. rewrite (proj2 (Hin (b + y'))) by lia. apply orb_true_r.
Qed.

(** All the batches of a scheduler leave what one call leaves. *)
Lemma batches_compute parallel : lawful no_empty_range parallel ->
  let result := parallel_batches parallel batch_call height 1 mem in
  result.1 = KLEIDICV_OK /\ computed f sizeof width height srcs dst mem result.2.
Proof.
  intros Hlaw. destruct (parallel_batches_covered batch_call height 1 rows_computed ltac:(lia) ltac:(lia)) with (parallel := parallel) (s := mem)
    as [Hok [H1 H2]].
  - intros P Q s HPQ [H1 H2]. split.
    + intros y x Hy Hx HQ. apply H1; try done. by rewrite HPQ.
    + intros a Ha. apply H2. intros y x Hy Hx HP. apply Ha; try done. by rewrite <- HPQ.
  - intros. by apply batch_computes.
  - exact Hlaw.
  - split; [done|]. done.
  - cbn zeta. split; [by destruct (parallel_batches _ _ _ _ _) as [[] ?]|]. split.
    + intros y x Hy Hx. by apply H1.
    + intros a Ha. apply H2. intros y x Hy Hx _. by apply Ha.
Qed.
End batches.

(** ** Batches of one row

    A batch of one row has no stride to check and a pointer that is not null after the
    first row: such batches pass the checks that the whole image may fail. *)

Definition one_row_each (schedule : list (Z * Z)) : Prop := Forall (fun r => r.2 = r.1 + 1) schedule.

Lemma schedule_all_ok {S} (callback : range_callback S) schedule s :
  Forall (fun r => forall s, is_ok (callback r.1 r.2 s).1 = true) schedule -> (run_schedule callback schedule s).1 = true.
Proof.
  intros H. revert s. induction H as [|[b e] schedule Hok _ IH]; intros s; [done|]. cbn [run_schedule]. specialize (Hok s). cbn [fst snd] in Hok.
  destruct (callback b e s) as [err s1]. specialize (IH s1). destruct (run_schedule callback schedule s1) as [ok s2]. cbn in *. by rewrite Hok, IH.
Qed.

Lemma single_row_accepted op sizeof srcs dst width height b mem : 0 < sizeof -> 0 <= width <= KLEIDICV_MAX_IMAGE_PIXELS ->
  Forall (fun image => 0 < image.1 /\ 0 <= image.2 /\ height * image.2 < 2 ^ 63) (dst :: srcs) -> 0 <= b < height -> height < 2 ^ 63 ->
  (batch_call op sizeof srcs dst width b (b + 1) mem).1 = KLEIDICV_OK.
Proof.
  intros Hs Hw Hi Hb Hh. unfold batch_call, elementwise_call. rewrite size_sub_small by lia. replace (b + 1 - b) with 1 by lia.
  assert (checks sizeof (map (fun image => batch_image sizeof image b) srcs ++ [batch_image sizeof dst b]) width 1 = KLEIDICV_OK) as ->; [|done].
  apply checks_accept; [lia|lia|]. split; [|lia].
  change [batch_image sizeof dst b] with (map (fun image => batch_image sizeof image b) [dst]). rewrite <- map_app.
  rewrite Forall_forall in *. intros image Hin. apply list_elem_of_In, in_map_iff in Hin as (image0 & <- & Hin%list_elem_of_In).
  destruct (Hi image0) as (H1 & H2 & H3).
  { apply elem_of_app in Hin as [Hin|Hin]; [by right|]. apply list_elem_of_singleton in Hin as ->. by left. }
  unfold batch_image, offset_pointer. cbn [fst snd]. split; [|lia]. assert (0 <= b * image0.2 < 2 ^ 63) as Hoff by nia.
  assert (0 <= b * image0.2 / sizeof < 2 ^ 63) as Hq.
  { split; [apply Z.div_pos; lia|]. apply Z.div_lt_upper_bound; [lia|]. nia. }
  rewrite size_mul_small, to_ptrdiff_small by lia. nia.
Qed.

(** A scheduler that gives every row a batch of its own makes the threaded call succeed for
    all pointers that are not null, also where the single call refuses a stride or the size
    of the image. *)
Lemma single_rows_succeed op sizeof srcs dst width height mem parallel : lawful one_row_each parallel -> 0 < sizeof ->
  0 <= width <= KLEIDICV_MAX_IMAGE_PIXELS -> 0 < height < 2 ^ 63 ->
  Forall (fun image => 0 < image.1 /\ 0 <= image.2 /\ height * image.2 < 2 ^ 63) (dst :: srcs) ->
  (parallel_batches parallel (batch_call op sizeof srcs dst width) height 1 mem).1 = KLEIDICV_OK.
Proof.
  intros Hlaw Hs Hw Hh Hi. unfold parallel_batches.
  destruct (Hlaw (kleidicv_thread_batch_callback (batch_call op sizeof srcs dst width) height 1 (task_count height 1)) (task_count height 1) mem)
    as (schedule & [Hr _] & Hone & _ & Hok).
  assert (is_ok (parallel (kleidicv_thread_batch_callback (batch_call op sizeof srcs dst width) height 1 (task_count height 1))
    (task_count height 1) mem).1 = true) as Htrue; [|by destruct (parallel _ _ _) as [[] ?]].
  rewrite Hok. apply schedule_all_ok. unfold one_row_each in Hone. rewrite Forall_forall in *. intros r Hin s.
  specialize (Hr r Hin). specialize (Hone r Hin). destruct r as [b e]. cbn [fst snd] in *. subst e.
  assert (task_count height 1 = height) as Ht by (unfold task_count; rewrite Z.div_1_r; lia). rewrite Ht in *.
  pose proof (batch_bounds_spec height 1 b (b + 1) ltac:(lia) ltac:(lia) ltac:(lia) ltac:(lia)) as Hspec. rewrite Ht in Hspec.
  unfold kleidicv_thread_batch_callback. destruct (batch_bounds height 1 height b (b + 1)) as [begin end_].
  destruct Hspec as (-> & -> & _). replace (b * 1) with b by lia.
  replace (if b + 1 =? height then height else (b + 1) * 1) with (b + 1) by (destruct (Z.eqb_spec (b + 1) height); lia).
  by rewrite (single_row_accepted op sizeof srcs dst width height) by (done || lia || by apply Forall_forall).
Qed.

Lemma reverse_serial_one_row {S} : lawful one_row_each (reverse_serial (S := S)).
Proof. apply reverse_serial_schedule. intros n. by apply Forall_fmap, Forall_forall. Qed.

(** A row of 32-bit elements at a stride of 6 bytes twice: the call is refused, two batches
    succeed, and the second reads the row at byte 4. *)
Lemma misaligned_rows_succeed mem :
  (saturating_add int32 (4096, 6) (8192, 8) (12288, 8) 1 2 mem).1 = KLEIDICV_ERROR_ALIGNMENT /\
  (kleidicv_thread_saturating_add reverse_serial int32 (4096, 6) (8192, 8) (12288, 8) 1 2 mem).1 = KLEIDICV_OK /\
  batch_image 4 (4096, 6) 1 = (4096 + 4, 6).
Proof.
  split; [reflexivity|]. split; [|reflexivity].
  apply (single_rows_succeed (SaturatingAdd int32) 4 [(4096, 6); (8192, 8)] (12288, 8) 1 2 mem reverse_serial).
  - apply reverse_serial_one_row.
  - lia.
  - split; [lia|vm_compute; discriminate].
  - lia.
  - repeat constructor; cbn; lia.
Qed.

(** ** Properties *)

(** C40: the threaded saturating operations of every integer type give the exact result clamped
    to the type in every element, and nothing else is written: exactly what one call of the
    single-threaded function leaves, in place as well as into another image, whatever batches
    of rows the scheduler takes and in whatever order they run, for all arguments that the
    single-threaded function accepts (for images of at least one row, in rows whose offsets
    are within the range of ptrdiff_t). *)
Theorem threaded_arithmetic_correct parallel T threaded single (exact : Z -> Z -> Z) a b dst w h mem :
  lawful no_empty_range parallel -> integer_type T ->
  (threaded, single, exact) ∈ [(kleidicv_thread_saturating_add parallel T, saturating_add T, Z.add);
    (kleidicv_thread_saturating_sub parallel T, saturating_sub T, Z.sub);
    (kleidicv_thread_saturating_absdiff parallel T, saturating_absdiff T, fun x y => Z.abs (x - y));
    (kleidicv_thread_saturating_multiply parallel T, saturating_multiply T, Z.mul)] ->
  placed (size_of_type T) w h [a; b] dst -> elements_in (in_type T) (size_of_type T) w h [a; b] mem ->
  accepts (size_of_type T) ([a; b] ++ [dst]) w h ->
  Forall (fun image => h * image.2 < 2 ^ 63) [dst; a; b] -> 0 < h < 2 ^ 63 ->
  let result := threaded a b dst w h mem in
  result.1 = KLEIDICV_OK /\
  computed (fun srcs => clamp_to T (exact (srcs !!! 0%nat) (srcs !!! 1%nat))) (size_of_type T) w h [a; b] dst mem result.2 /\
  (single a b dst w h mem).1 = KLEIDICV_OK /\ forall p, (single a b dst w h mem).2 p = result.2 p.
Proof.
  intros Hlaw HT Hc Hp Hv Ha Hr Hh.
  assert (exists n, 0 <= n < 64 /\ size_of_type T = 2 ^ n) as (n & Hn).
  { unfold size_of_type. destruct HT as [->|[->|[->| ->]]]; [by exists 0|by exists 1|by exists 2|by exists 3]. }
  assert (0 < size_of_type T) as Hs by (destruct Hn as [? ->]; apply Z.pow_pos_nonneg; lia).
  assert (forall op f, ElementwiseLaws op (in_type T) f -> arity op = 2%nat ->
    let result := parallel_batches parallel (batch_call op (size_of_type T) [a; b] dst w) h 1 mem in
    let whole := elementwise_call op (size_of_type T) [a; b] dst w h mem in
    result.1 = KLEIDICV_OK /\ computed f (size_of_type T) w h [a; b] dst mem result.2 /\
    whole.1 = KLEIDICV_OK /\ forall p, whole.2 p = result.2 p) as Hall.
  { intros op f Hlaws Har. cbn zeta.
    destruct (batches_compute op (in_type T) f (size_of_type T) n [a; b] dst w h mem Hn ltac:(by rewrite Har) Hp Hv Ha Hr Hh parallel Hlaw) as [H1 H2].
    destruct (elementwise_call_correct op (in_type T) f (size_of_type T) [a; b] dst w h mem Hlaws Hs ltac:(by rewrite Har) Hp Hv) as [Hok _].
    destruct (Hok Ha) as [H3 H4]. split; [exact H1|]. split; [exact H2|]. split; [exact H3|]. by apply (computed_unique _ _ _ _ _ _ _ _ _ H4 H2). }
  rewrite !elem_of_cons, elem_of_nil in Hc.
  destruct Hc as [[= -> -> ->]|[[= -> -> ->]|[[= -> -> ->]|[[= -> -> ->]|[]]]]].
  - apply (Hall (SaturatingAdd T)); [by apply saturating_add_laws|done].
  - apply (Hall (SaturatingSub T)); [by apply saturating_sub_laws|done].
  - apply (Hall (SaturatingAbsDiff T)); [by apply saturating_absdiff_laws|done].
  - apply (Hall (SaturatingMultiply T)); [by apply saturating_multiply_laws|done].
Qed.

(** In place on 16-bit elements, three rows in batches of one row, from the last. *)
Lemma threaded_arithmetic_correct_witness :
  let result := kleidicv_thread_saturating_sub reverse_serial int16 (1000, 20) (2000, 18) (1000, 20) 9 3
    (fun p => if p <? 2000 then -30000 else 20000) in
  result.1 = KLEIDICV_OK /\ result.2 1056 = -32768 /\ result.2 1018 = -30000.
Proof.
  destruct (threaded_arithmetic_correct reverse_serial int16 (kleidicv_thread_saturating_sub reverse_serial int16) (saturating_sub int16) Z.sub
    (1000, 20) (2000, 18) (1000, 20) 9 3 (fun p => if p <? 2000 then -30000 else 20000)) as (H1 & [H2 H3] & _).
  - apply reverse_serial_lawful.
  - right. by left.
  - right. by left.
  - unfold placed. split_and!; [lia|lia|..]; apply Forall_forall; intros r Hr; rewrite !elem_of_cons, elem_of_nil in Hr;
      unfold in_address_space, same_or_apart, pixel_address; change (size_of_type int16) with 2;
      destruct Hr as [->|[->|[->|[]]]]; cbn [fst snd]; intros; lia.
  - intros src y x _ _ _. cbv beta. unfold in_type. destruct (_ <? _); cbn; lia.
  - split; [|vm_compute; discriminate]. repeat constructor; cbn; discriminate.
  - repeat constructor; cbn; lia.
  - lia.
  - split; [exact H1|]. split; [exact (H2 2 8 ltac:(lia) ltac:(lia))|].
    rewrite H3; [done|]. unfold pixel_address. change (size_of_type int16) with 2. cbn [fst snd]. intros. lia.
Defined.
