(* ===== verification/Buffers.v ===== *)
(** * Image buffers with margins

    [RowsOverUniquePtr] of [types.h]: an allocated image whose margins are set to zero.
    The rest of the memory that [new] returns keeps what it held. *)

From S2P Require Import Prelude Rows Elementwise.

(** [memset] with zero: every element of the range becomes 0. *)
Definition memset_zero (sizeof address bytes : Z) (mem : Z -> Z) : Z -> Z :=
  for_range 0 (bytes / sizeof) (fun i mem => upd mem (address + i * sizeof) 0) mem.

(** [make_zero_border_border]: [rect] is the whole memory, margins included. *)
Definition make_zero_border_border (sizeof : Z) (rect : Rectangle) (rows : Rows) (margin : Margin) (mem : Z -> Z) : Z -> Z :=
  let mem :=
    if left margin =? 0 then mem
    else
      let margin_width_in_bytes := left margin ⊠ sizeof ⊠ channels_ rows in
      for_range 0 (height_ rect) (fun index => memset_zero sizeof (get_pointer_at rows index 0) margin_width_in_bytes) mem in
  let mem :=
    if top margin =? 0 then mem
    else
      let top_width := width_ rect ⊟ left margin ⊟ right margin in
      let top_width_in_bytes := top_width ⊠ sizeof ⊠ channels_ rows in
      for_range 0 (top margin) (fun index => memset_zero sizeof (get_pointer_at rows index (left margin)) top_width_in_bytes) mem in
  let mem :=
    if right margin =? 0 then mem
    else
      let margin_width_in_bytes := right margin ⊠ sizeof ⊠ channels_ rows in
      for_range 0 (height_ rect)
        (fun index => memset_zero sizeof (get_pointer_at rows index (width_ rect ⊟ right margin)) margin_width_in_bytes) mem in
  if bottom margin =? 0 then mem
  else
    let bottom_width := width_ rect ⊟ left margin ⊟ right margin in
    let bottom_width_in_bytes := bottom_width ⊠ sizeof ⊠ channels_ rows in
    for_range (height_ rect ⊟ bottom margin) (height_ rect)
      (fun index => memset_zero sizeof (get_pointer_at rows index (left margin)) bottom_width_in_bytes) mem.

Record RowsOverUniquePtr := {
  rect_ : Rectangle;
  data_ : Z;
  rows_ : Rows;
  rows_without_margin_ : Rows
}.

(** [get_rectangle]. *)
Definition get_rectangle (rect : Rectangle) (margin : Margin) : Rectangle :=
  {| width_ := left margin ⊞ width_ rect ⊞ right margin; height_ := top margin ⊞ height_ rect ⊞ bottom margin |}.

Definition no_rows (sizeof : Z) : Rows := {| ptr_ := 0; stride_ := 0; channels_ := 1; sizeof_ := sizeof |}.

(** The constructor; [data] is what [new(std::nothrow)] returned. *)
Definition make_rows_over_unique_ptr (sizeof data : Z) (rect : Rectangle) (margin : Margin) (mem : Z -> Z)
    : RowsOverUniquePtr * (Z -> Z) :=
  let rect_ := get_rectangle rect margin in
  if data =? 0 then
    ({| rect_ := rect_; data_ := 0; rows_ := no_rows sizeof; rows_without_margin_ := no_rows sizeof |}, mem)
  else
    let rows := {| ptr_ := data; stride_ := width_ rect_ ⊠ sizeof; channels_ := 1; sizeof_ := sizeof |} in
    ({| rect_ := rect_; data_ := data; rows_ := rows; rows_without_margin_ := rows_at rows (top margin) (left margin) |},
     make_zero_border_border sizeof rect_ rows margin mem).

(** ** What becomes zero *)

(** [P] is cleared, and every cell is cleared in [P] or keeps its value. *)
Definition cleared (P : Z -> Prop) (mem mem' : Z -> Z) : Prop :=
  (forall a, P a -> mem' a = 0) /\ forall a, mem' a = mem a \/ P a /\ mem' a = 0.

Lemma cleared_none mem : cleared (fun _ => False) mem mem.
Proof. split; [done|]. intros a. by left. Qed.

Lemma cleared_compose P Q m1 m2 m3 : cleared P m1 m2 -> cleared Q m2 m3 -> cleared (fun a => P a \/ Q a) m1 m3.
Proof.
  intros [HP1 HP2] [HQ1 HQ2]. split.
  - intros a [Ha|Ha]; [|by apply HQ1]. destruct (HQ2 a) as [->|[_ Hz]]; [by apply HP1|done].
  - intros a. destruct (HQ2 a) as [->|[HQ Hz]]; [|by right; split; [right|]].
    destruct (HP2 a) as [->|[HP Hz]]; [by left|by right; split; [left|]].
Qed.

Lemma cleared_iff P Q m m' : (forall a, P a <-> Q a) -> cleared P m m' -> cleared Q m m'.
Proof.
  intros He [H1 H2]. split; [intros a Ha; by apply H1, He|]. intros a. rewrite <- He. apply H2.
Qed.

Lemma cleared_loop (P : Z -> Z -> Prop) a b body mem : a <= b ->
  (forall i m, a <= i < b -> cleared (P i) m (body i m)) ->
  cleared (fun p => exists i, a <= i < b /\ P i p) mem (for_range a b body mem).
Proof.
  intros Hab Hb. apply (for_range_ind (fun j m => cleared (fun p => exists i, a <= i < j /\ P i p) mem m)); [done| |].
  - eapply cleared_iff; [|apply cleared_none]. intros p. split; [done|]. intros (i & Hi & _). lia.
  - intros j m Hj Hm. eapply cleared_iff; [|apply (cleared_compose _ _ _ _ _ Hm (Hb j m Hj))]. intros p. split.
    + intros [(i & Hi & Hp)|Hp]; [exists i|exists j]; (split; [lia|done]).
    + intros (i & Hi & Hp). destruct (Z.eq_dec i j) as [->|]; [by right|left]. exists i. split; [lia|done].
Qed.

Lemma memset_zero_clears sizeof address n mem : 0 < sizeof -> 0 <= n ->
  cleared (fun a => exists i, 0 <= i < n /\ a = address + i * sizeof) mem (memset_zero sizeof address (n * sizeof) mem).
Proof.
  intros Hs Hn. unfold memset_zero. rewrite Z.div_mul by lia. apply cleared_loop; [lia|]. intros i m Hi. split.
  - intros a ->. apply upd_same.
  - intros a. unfold upd. case_decide as Ha; [by right|by left].
Qed.

Lemma area_product_bounds d h p : 0 < d -> 1 <= h -> 1 <= p -> d + h * p < 2 ^ 63 -> p < 2 ^ 63 /\ h < 2 ^ 63.
Proof. intros. assert (p <= h * p) by nia. assert (h <= h * p) by nia. lia. Qed.

Section margins.
Context (sizeof data width height : Z) (margin : Margin).
Hypothesis size_ok : 0 < sizeof /\ 0 <= left margin /\ 0 <= right margin /\ 0 <= top margin /\ 0 <= bottom margin /\
  0 < width /\ 0 < height.
Let W := left margin + width + right margin.
Let H := top margin + height + bottom margin.
Hypothesis data_ok : 0 < data /\ data + H * (W * sizeof) < 2 ^ 63.

Let rows : Rows := {| ptr_ := data; stride_ := W * sizeof; channels_ := 1; sizeof_ := sizeof |}.
Let rect : Rectangle := {| width_ := W; height_ := H |}.

(** Pixel [x] of row [y] of the whole memory. *)
Definition buffer_pixel (y x : Z) : Z := data + y * (W * sizeof) + x * sizeof.

(** Neither in the margins at the sides nor in those above and below. *)
Definition interior (y x : Z) : Prop := left margin <= x < left margin + width /\ top margin <= y < top margin + height.

Lemma pointer_at y x : 0 <= y < H -> get_pointer_at rows y x = buffer_pixel y x.
Proof.
  intros Hy. unfold get_pointer_at, rows, buffer_pixel. cbn [ptr_ stride_ channels_ sizeof_].
  assert (0 <= W * sizeof) by (unfold W; nia). assert (y * (W * sizeof) <= H * (W * sizeof)) by nia.
  assert (W * sizeof <= H * (W * sizeof)) by nia.
  rewrite to_ptrdiff_small by lia. unfold add_stride.
  destruct (Z.leb_spec 0 (y * (W * sizeof))); [|nia]. rewrite size_add_small by nia. rewrite to_ptrdiff_small by lia. lia.
Qed.

Lemma band_clears y0 y1 x n m : 0 <= y0 <= y1 -> y1 <= H -> 0 <= n ->
  cleared (fun a => exists y, y0 <= y < y1 /\ exists i, 0 <= i < n /\ a = buffer_pixel y (x + i)) m
    (for_range y0 y1 (fun index => memset_zero sizeof (get_pointer_at rows index x) (n * sizeof)) m).
Proof.
  intros Hy Hy1 Hn. apply cleared_loop; [lia|]. intros y m' Hyy. rewrite pointer_at by lia.
  eapply cleared_iff; [|apply memset_zero_clears; lia]. intros a. unfold buffer_pixel.
  split; intros (i & Hi & ->); exists i; lia.
Qed.

Lemma optional_band (c : bool) P m m' : (c = true -> forall a, ~ P a) -> cleared P m m' -> cleared P m (if c then m else m').
Proof. intros Hc Hm. destruct c; [|done]. eapply cleared_iff; [|apply cleared_none]. intros a. by split; [|intros Ha; apply (Hc eq_refl a)]. Qed.

Lemma words : W * sizeof < 2 ^ 63 /\ H < 2 ^ 63.
Proof. apply (area_product_bounds data); [lia|unfold H; lia|unfold W; nia|lia]. Qed.

(** The four bands together are the margins. *)
Lemma margins_cleared mem :
  cleared (fun a => exists y x, 0 <= y < H /\ 0 <= x < W /\ ~ interior y x /\ a = buffer_pixel y x) mem
    (make_zero_border_border sizeof rect rows margin mem).
Proof.
  pose proof words as [HW HH]. assert (W <= W * sizeof) by (unfold W in *; nia).
  assert (0 <= H /\ 0 <= top margin <= H /\ 0 <= H - bottom margin <= H) as Hbands by (clear - size_ok; unfold H; lia).
  assert (0 <= left margin /\ 0 <= right margin /\ 0 <= width) as Hsides by (clear - size_ok; lia).
  unfold make_zero_border_border, rect, rows. cbn [width_ height_ channels_]. fold rows.
  assert (forall n, 0 <= n <= W -> n ⊠ sizeof ⊠ 1 = n * sizeof) as Hmul.
  { intros n Hn. assert (0 <= n * sizeof <= W * sizeof) by nia. rewrite (size_mul_small n) by lia. rewrite size_mul_small by lia. lia. }
  rewrite (size_sub_small W (left margin)) by (unfold W in *; lia).
  rewrite (size_sub_small (W - left margin)) by (unfold W in *; lia).
  rewrite (size_sub_small W (right margin)) by (unfold W in *; lia).
  rewrite (size_sub_small H (bottom margin)) by (unfold H in *; lia).
  rewrite !Hmul by (unfold W; lia). replace (W - left margin - right margin) with width by (unfold W; lia). clear Hmul.
  eapply cleared_iff; [|eapply cleared_compose; [eapply cleared_compose; [eapply cleared_compose|]|]];
    [|apply optional_band; [|apply band_clears]..].
  all: try lia.
  2: { intros ->%Z.eqb_eq a (y & _ & i & Hi & _). lia. }
  2: { intros ->%Z.eqb_eq a (y & Hy & _). lia. }
  2: { intros ->%Z.eqb_eq a (y & _ & i & Hi & _). lia. }
  2: { intros ->%Z.eqb_eq a (y & Hy & _). lia. }
  intros a. unfold interior. split.
  - intros [[[(y & Hy & i & Hi & ->)|(y & Hy & i & Hi & ->)]|(y & Hy & i & Hi & ->)]|(y & Hy & i & Hi & ->)].
    + exists y, (0 + i). unfold H, W in *. split_and!; lia || done.
    + exists y, (left margin + i). unfold H, W in *. split_and!; lia || done.
    + exists y, (W - right margin + i). unfold H, W in *. split_and!; lia || done.
    + exists y, (left margin + i). unfold H, W in *. split_and!; lia || done.
  - intros (y & x & Hy & Hx & Hn & ->).
    destruct (Z.lt_ge_cases x (left margin)) as [Hl|Hl].
    { left; left; left. exists y. split; [lia|]. exists x. split; [lia|f_equal; lia]. }
    destruct (Z.lt_ge_cases x (W - right margin)) as [Hr|Hr].
    2: { left; right. exists y. split; [lia|]. exists (x - (W - right margin)). split; [lia|f_equal; lia]. }
    destruct (Z.lt_ge_cases y (top margin)).
    { left; left; right. exists y. split; [lia|]. exists (x - left margin). unfold W in *. split; [lia|f_equal; lia]. }
    right. exists y. unfold H, W in *. split; [lia|]. exists (x - left margin). split; [lia|f_equal; lia].
Qed.

(** The constructor of a buffer with memory. *)
Lemma buffer_made mem :
  let buffer := (make_rows_over_unique_ptr sizeof data {| width_ := width; height_ := height |} margin mem).1 in
  let mem' := (make_rows_over_unique_ptr sizeof data {| width_ := width; height_ := height |} margin mem).2 in
  rect_ buffer = rect /\ data_ buffer = data /\ rows_ buffer = rows /\
  rows_without_margin_ buffer = with_ptr rows (buffer_pixel (top margin) (left margin)) /\
  cleared (fun a => exists y x, 0 <= y < H /\ 0 <= x < W /\ ~ interior y x /\ a = buffer_pixel y x) mem mem'.
Proof.
  pose proof words as [HW HH]. assert (W <= W * sizeof) by (unfold W in *; nia).
  unfold make_rows_over_unique_ptr. destruct (Z.eqb_spec data 0); [lia|].
  assert (get_rectangle {| width_ := width; height_ := height |} margin = rect) as ->.
  { unfold get_rectangle, rect. cbn [width_ height_]. unfold W, H in *.
    rewrite (size_add_small (left margin)), (size_add_small (top margin)) by lia. by rewrite !size_add_small by lia. }
  cbn [fst snd rect_ data_ rows_ rows_without_margin_ rect width_].
  rewrite (size_mul_small W sizeof) by lia. fold rows. split_and!; [done..| |apply margins_cleared].
  unfold rows_at. by rewrite pointer_at by (unfold H; lia).
Qed.
End margins.

(** The bytes of a buffer. *)
Definition region (data bytes a : Z) : Prop := data <= a < data + bytes.

Lemma pixel_in_region sizeof data W H y x : 0 < sizeof -> 0 <= y < H -> 0 <= x < W ->
  pixel_address sizeof (data, W * sizeof) y x + (sizeof - 1) < data + H * (W * sizeof) /\
  data <= pixel_address sizeof (data, W * sizeof) y x.
Proof.
  intros Hs Hy Hx. unfold pixel_address. cbn [fst snd].
  assert (0 <= W * sizeof) by (apply Z.mul_nonneg_nonneg; lia).
  assert (x * sizeof + sizeof <= W * sizeof) by nia. assert (0 <= x * sizeof) by nia.
  assert ((y + 1) * (W * sizeof) <= H * (W * sizeof)) by (apply Z.mul_le_mono_nonneg_r; lia).
  assert (0 <= y * (W * sizeof)) by (apply Z.mul_nonneg_nonneg; lia). lia.
Qed.

(** A buffer as an image in memory: its pixels, which of them are zero, and that nothing
    else is written. *)
Lemma buffer_facts sizeof data width height margin mem :
  0 < sizeof -> 0 <= left margin -> 0 <= right margin -> 0 <= top margin -> 0 <= bottom margin -> 0 < width -> 0 < height ->
  let W := left margin + width + right margin in
  let H := top margin + height + bottom margin in
  0 < data -> data + H * (W * sizeof) < 2 ^ 63 ->
  let result := make_rows_over_unique_ptr sizeof data {| width_ := width; height_ := height |} margin mem in
  rect_ result.1 = {| width_ := W; height_ := H |} /\ data_ result.1 = data /\
  (ptr_ (rows_ result.1), stride_ (rows_ result.1)) = (data, W * sizeof) /\
  (ptr_ (rows_without_margin_ result.1), stride_ (rows_without_margin_ result.1)) =
    (pixel_address sizeof (data, W * sizeof) (top margin) (left margin), W * sizeof) /\
  (forall y x, 0 <= y < H -> 0 <= x < W -> ~ interior width height margin y x ->
    result.2 (pixel_address sizeof (data, W * sizeof) y x) = 0) /\
  (forall a, ~ region data (H * (W * sizeof)) a -> result.2 a = mem a).
Proof.
  intros Hs Hl Hr Ht Hb Hw Hh W H Hd Hend result.
  destruct (buffer_made sizeof data width height margin ltac:(tauto) (conj Hd Hend) mem) as (H1 & H2 & H3 & H4 & [Hz Hrest]).
  fold result in H1, H2, H3, H4, Hz, Hrest. rewrite H1, H2, H3, H4. cbn [ptr_ stride_ with_ptr].
  split_and!; [done|done|done|done| |].
  - intros y x Hy Hx Hn. apply Hz. exists y, x. split_and!; try done; apply Hy || apply Hx.
  - intros a Ha. destruct (Hrest a) as [Heq|[(y & x & Hy & Hx & _ & ->) _]]; [done|]. exfalso. apply Ha.
    unfold region, buffer_pixel. fold W H in Hy, Hx |- *.
    pose proof (pixel_in_region sizeof data W H y x Hs Hy Hx) as Hin. unfold pixel_address in Hin. cbn [fst snd] in Hin. lia.
Qed.

(** Pixels of an image whose rows do not overlap. *)
Lemma pixel_address_inj sizeof image width y x y' x' : 0 < sizeof -> width * sizeof <= image.2 ->
  0 <= x < width -> 0 <= x' < width ->
  Z.abs (pixel_address sizeof image y x - pixel_address sizeof image y' x') < sizeof -> y = y' /\ x = x'.
Proof.
  unfold pixel_address. intros Hs Hw Hx Hx' Ha.
  assert (x * sizeof + sizeof <= image.2 /\ 0 <= x * sizeof /\ x' * sizeof + sizeof <= image.2 /\ 0 <= x' * sizeof) as (? & ? & ? & ?) by nia.
  destruct (Z.lt_trichotomy y y') as [Hlt|[->|Hlt]].
  - assert (image.2 <= (y' - y) * image.2) by nia. lia.
  - split; [done|]. nia.
  - assert (image.2 <= (y - y') * image.2) by nia. lia.
Qed.
