(* ===== verification/CannyEdges.v ===== *)
(** * The Canny edge detector

    [canny_u8] of [analysis/canny_neon.cpp]: its buffers, the two Sobel filters, the
    magnitudes with the low threshold, the suppression of non-maxima with the high
    threshold, the hysteresis and the last threshold, over one memory.  Memory maps the
    address of an element (of one or two bytes) to its value.

    The theorem composes the laws of the parts: Sobel, Elementwise, NonMaxima, Hysteresis. *)

From Stdlib Require Import SpecFloat.
From S2P Require Import Prelude CTypes Utils Rows Border FixedBorders Filter2D Separable Vectors SeparableKernels.
From S2P Require Import SeparableApi GaussianBlur Loops Stack Hysteresis Canny NonMaxima Elementwise Arithmetic Buffers.

(** ** Buffers *)

(** [SobelBuffer], [MagnitudeBuffer] of [int16_t] and [HysteresisBuffer] of [uint8_t]. *)
Definition SobelBuffer (data : Z) (rect : Rectangle) : (Z -> Z) -> RowsOverUniquePtr * (Z -> Z) :=
  let width := align_up (width_ rect) 8 in
  make_rows_over_unique_ptr 2 data rect {| left := 0; top := 0; right := width ⊟ width_ rect; bottom := 0 |}.
Definition MagnitudeBuffer (data : Z) (rect : Rectangle) : (Z -> Z) -> RowsOverUniquePtr * (Z -> Z) :=
  make_rows_over_unique_ptr 2 data rect {| left := 8; top := 1; right := 8; bottom := 1 |}.
Definition HysteresisBuffer (data : Z) (rect : Rectangle) : (Z -> Z) -> RowsOverUniquePtr * (Z -> Z) :=
  make_rows_over_unique_ptr 1 data rect {| left := 1; top := 1; right := 1; bottom := 1 |}.

(** The pointer and the stride of rows. *)
Definition image_of (rows : Rows) : Z * Z := (ptr_ rows, stride_ rows).

(** ** Images in memory *)

(** The pixels of an image, 0 outside; and a memory in which they are replaced. *)
Definition load_image (sizeof : Z) (image : Z * Z) (width height : Z) (mem : Z -> Z) : Z * Z -> Z :=
  fun p => if (0 <=? p.1) && (p.1 <? height) && (0 <=? p.2) && (p.2 <? width)
           then mem (pixel_address sizeof image p.1 p.2) else 0.
Definition store_image (sizeof : Z) (image : Z * Z) (width height : Z) (pixels : Z * Z -> Z) (mem : Z -> Z) : Z -> Z :=
  for_range 0 height (fun y => for_range 0 width (fun x mem =>
    upd mem (pixel_address sizeof image y x) (pixels (y, x)))) mem.

(** The addresses of the four buffers, 0 when the allocation failed. *)
Record Allocations := {
  horizontal_data : Z;
  vertical_data : Z;
  magnitudes_data : Z;
  hysteresis_data : Z
}.

(** [if (auto err = ...) return err;] before [k]. *)
Definition and_then (result : option (kleidicv_error_t * (Z -> Z))) (k : (Z -> Z) -> option (kleidicv_error_t * (Z -> Z)))
    : option (kleidicv_error_t * (Z -> Z)) :=
  match result with
  | Some (KLEIDICV_OK, mem) => k mem
  | result => result
  end.

Section canny.
Context {S : Type} (ops : StackOps S Z) (new_stack : S) (conform_opencv : bool).
(** The workspaces of the Sobel filters: [malloc] and what it returns. *)
Context (malloc : Z -> Z) (workspace : Z * Z -> Z).

(** A Sobel filter from the source into a buffer. *)
Definition sobel_call
    (StripeFunction : Z -> Z -> Z -> Z -> Z -> (Z * Z -> Z) -> (Z * Z -> Z) -> option (kleidicv_error_t * (Z * Z -> Z)))
    (src dst : Z * Z) (width height : Z) (mem : Z -> Z) : option (kleidicv_error_t * (Z -> Z)) :=
  match Sobel.sobel_3x3_s16_u8 StripeFunction src.1 src.2 dst.1 dst.2 width height 1
    (load_image 1 src width height mem) (load_image 2 dst width height mem) with
  | None => None
  | Some (err, pixels) => Some (err, store_image 2 dst width height pixels mem)
  end.

(** From the suppression of non-maxima on; [fuel] bounds the iterations of the hysteresis. *)
Definition detect_edges (fuel : nat) (horizontal vertical magnitudes hysteresis : RowsOverUniquePtr) (dst : Z * Z)
    (width height high_threshold : Z) (mem : Z -> Z) : option (kleidicv_error_t * (Z -> Z)) :=
  let size := rect_ horizontal in
  let edges := image_of (rows_without_margin_ hysteresis) in
  match non_maxima_suppression_and_high_thresholding ops conform_opencv
      (load_image 2 (image_of (rows_ horizontal)) (width_ size) (height_ size) mem)
      (load_image 2 (image_of (rows_ vertical)) (width_ size) (height_ size) mem)
      (load_image 2 (image_of (rows_ magnitudes)) (width_ (rect_ magnitudes)) (height_ (rect_ magnitudes)) mem)
      edges.1 edges.2 high_threshold (width_ size) (height_ size) new_stack mem with
  | None => None
  | Some (strong_edge_pixels, mem) =>
      match perform_hysteresis ops edges.2 fuel strong_edge_pixels mem with
      | None => None
      | Some (_, mem) => Some (threshold_binary 0x80 0xFF edges dst width height mem)
      end
  end.

(** [double]: the conversion of a threshold truncates it. *)
Definition float64 : Type := SpecFloat.spec_float.

Definition canny_u8 (fuel : nat) (new : Allocations) (src dst : Z * Z) (width height : Z)
    (low_threshold high_threshold : float64) (mem : Z -> Z) : option (kleidicv_error_t * (Z -> Z)) :=
  and_then (Some (checks 1 [src; dst] width height, mem)) (fun mem =>
    let dst_rect := {| width_ := width; height_ := height |} in
    let '(horizontal, mem) := SobelBuffer (horizontal_data new) dst_rect mem in
    let '(vertical, mem) := SobelBuffer (vertical_data new) dst_rect mem in
    if (data_ horizontal =? 0) || (data_ vertical =? 0) then Some (KLEIDICV_ERROR_ALLOCATION, mem)
    else
      let '(magnitudes, mem) := MagnitudeBuffer (magnitudes_data new) (rect_ horizontal) mem in
      if data_ magnitudes =? 0 then Some (KLEIDICV_ERROR_ALLOCATION, mem)
      else
        let '(hysteresis, mem) := HysteresisBuffer (hysteresis_data new) (rect_ horizontal) mem in
        if data_ hysteresis =? 0 then Some (KLEIDICV_ERROR_ALLOCATION, mem)
        else
          and_then (sobel_call (Sobel.sobel_3x3_horizontal_stripe_s16_u8 malloc workspace) src
            (image_of (rows_ horizontal)) width height mem) (fun mem =>
          and_then (sobel_call (Sobel.sobel_3x3_vertical_stripe_s16_u8 malloc workspace) src
            (image_of (rows_ vertical)) width height mem) (fun mem =>
          and_then (Some (saturating_add_abs_with_threshold (static_cast int16 (f_trunc low_threshold))
            (image_of (rows_ horizontal)) (image_of (rows_ vertical)) (image_of (rows_without_margin_ magnitudes))
            (width_ (rect_ horizontal)) (height_ (rect_ horizontal)) mem)) (fun mem =>
          detect_edges fuel horizontal vertical magnitudes hysteresis dst width height
            (static_cast int16 (f_trunc high_threshold)) mem)))).
End canny.

(** ** Images in memory *)

Lemma load_image_at sizeof image width height mem y x : 0 <= y < height -> 0 <= x < width ->
  load_image sizeof image width height mem (y, x) = mem (pixel_address sizeof image y x).
Proof.
  intros Hy Hx. unfold load_image. cbn [fst snd].
  destruct (Z.leb_spec 0 y), (Z.ltb_spec y height), (Z.leb_spec 0 x), (Z.ltb_spec x width); done || lia.
Qed.

Lemma load_image_ext sizeof image width height m m' :
  (forall y x, 0 <= y < height -> 0 <= x < width -> m' (pixel_address sizeof image y x) = m (pixel_address sizeof image y x)) ->
  forall p, load_image sizeof image width height m' p = load_image sizeof image width height m p.
Proof.
  intros Hm [y x]. unfold load_image. cbn [fst snd].
  destruct (Z.leb_spec 0 y), (Z.ltb_spec y height), (Z.leb_spec 0 x), (Z.ltb_spec x width); cbn [andb]; auto.
Qed.

Section store.
Context (sizeof : Z) (image : Z * Z) (width height : Z) (pixels : Z * Z -> Z).
Hypothesis sizeof_pos : 0 < sizeof.
Hypothesis rows_apart : width * sizeof <= image.2.

Lemma same_pixel y x y' x' : 0 <= x < width -> 0 <= x' < width ->
  pixel_address sizeof image y x = pixel_address sizeof image y' x' -> y = y' /\ x = x'.
Proof. intros Hx Hx' Heq. apply (pixel_address_inj sizeof image width); try done. rewrite Heq, Z.sub_diag. done. Qed.

Lemma store_row y mem : 0 <= width ->
  let mem' := for_range 0 width (fun x mem => upd mem (pixel_address sizeof image y x) (pixels (y, x))) mem in
  (forall x, 0 <= x < width -> mem' (pixel_address sizeof image y x) = pixels (y, x)) /\
  (forall a, (forall x, 0 <= x < width -> a <> pixel_address sizeof image y x) -> mem' a = mem a).
Proof.
  intros Hw mem'. subst mem'.
  apply (for_range_ind (fun k m => (forall x, 0 <= x < k -> m (pixel_address sizeof image y x) = pixels (y, x)) /\
    (forall a, (forall x, 0 <= x < k -> a <> pixel_address sizeof image y x) -> m a = mem a))); [done|split; [lia|done]|].
  intros k m Hk [H1 H2]. split.
  - intros x Hx. destruct (Z.eq_dec x k) as [->|]; [apply upd_same|]. rewrite upd_other; [apply H1; lia|].
    intros [_ ->]%same_pixel; lia.
  - intros a Ha. rewrite upd_other by (apply Ha; lia). apply H2. intros x Hx. apply Ha. lia.
Qed.

Lemma store_image_writes mem : 0 <= width -> 0 <= height ->
  (forall y x, 0 <= y < height -> 0 <= x < width ->
    store_image sizeof image width height pixels mem (pixel_address sizeof image y x) = pixels (y, x)) /\
  (forall a, (forall y x, 0 <= y < height -> 0 <= x < width -> a <> pixel_address sizeof image y x) ->
    store_image sizeof image width height pixels mem a = mem a).
Proof.
  intros Hw Hh. unfold store_image.
  apply (for_range_ind (fun k m => (forall y x, 0 <= y < k -> 0 <= x < width -> m (pixel_address sizeof image y x) = pixels (y, x)) /\
    (forall a, (forall y x, 0 <= y < k -> 0 <= x < width -> a <> pixel_address sizeof image y x) -> m a = mem a)));
    [done|split; [lia|done]|].
  intros k m Hk [H1 H2]. destruct (store_row k m Hw) as [H3 H4]. split.
  - intros y x Hy Hx. destruct (Z.eq_dec y k) as [->|]; [by apply H3|]. rewrite H4; [apply H1; lia|].
    intros x' Hx' [-> _]%same_pixel; lia.
  - intros a Ha. rewrite H4 by (intros; apply Ha; lia). apply H2. intros y x Hy Hx. apply Ha; lia.
Qed.
End store.

(** ** A Sobel filter into a buffer *)

(** The derivative of the source at a pixel: columns by [weights_y], rows by [weights_x]. *)
Definition derivative (weights_y weights_x : list Z) (width height : Z) (image : Z * Z -> Z) (y x : Z) : Z :=
  separable_reference 3 (fun ws => dot weights_x (map (dot weights_y) ws)) 1 width height REPLICATE image (y, x).

Lemma derivative_ext weights_y weights_x width height f g y x : (forall p, f p = g p) ->
  derivative weights_y weights_x width height f y x = derivative weights_y weights_x width height g y x.
Proof.
  intros He. unfold derivative, separable_reference. do 2 f_equal. apply map_ext. intros q. unfold column_window.
  apply map_ext. intros r. apply He.
Qed.

Lemma sobel_call_writes F weights_y weights_x malloc workspace src dst width height mem :
  SeparableLaws 3 16 8 F byte (fun w b => b = dot weights_y w) (fun ws => dot weights_x (map (dot weights_y) ws)) ->
  2 <= width -> 2 <= height -> width * height <= KLEIDICV_MAX_IMAGE_PIXELS ->
  src.1 <> 0 -> dst.1 <> 0 -> is_misaligned 2 dst.2 = false -> width * 2 <= dst.2 -> allocated malloc width 1 2 = true ->
  (forall y x, 0 <= y < height -> 0 <= x < width -> byte (mem (pixel_address 1 src y x))) ->
  exists mem', sobel_call (fun channels width height => separable_stripe K3 F 16 8 2 malloc workspace channels width height REPLICATE)
      src dst width height mem = Some (KLEIDICV_OK, mem') /\
    (forall y x, 0 <= y < height -> 0 <= x < width -> mem' (pixel_address 2 dst y x) =
      derivative weights_y weights_x width height (load_image 1 src width height mem) y x) /\
    (forall a, (forall y x, 0 <= y < height -> 0 <= x < width -> a <> pixel_address 2 dst y x) -> mem' a = mem a).
Proof.
  intros Hlaws Hw Hh Hsz Hs Hd Ha Hst Hal Hv. unfold sobel_call.
  assert (forall a, byte (load_image 1 src width height mem a)) as Hb.
  { intros [y x]. unfold load_image. cbn [fst snd].
    destruct (Z.leb_spec 0 y), (Z.ltb_spec y height), (Z.leb_spec 0 x), (Z.ltb_spec x width); cbn [andb]; try (unfold byte; lia).
    by apply Hv. }
  destruct (Sobel.sobel_run F weights_y weights_x malloc workspace src.1 src.2 dst.1 dst.2 width height 1
    (load_image 1 src width height mem) (load_image 2 dst width height mem) Hlaws ltac:(lia) ltac:(lia) ltac:(lia) Hb)
    as (err & pixels & -> & [(_ & _ & -> & Hf)|[(_ & Hn & _)|(Hn & _)]]).
  - eexists. split; [done|].
    destruct (store_image_writes 2 dst width height pixels ltac:(lia) Hst mem ltac:(lia) ltac:(lia)) as [H1 H2]. split; [|done].
    intros y x Hy Hx. rewrite H1 by done. rewrite Hf.
    destruct (Z.leb_spec 0 y), (Z.ltb_spec y height), (Z.leb_spec 0 x), (Z.ltb_spec x (width * 1)); done || lia.
  - congruence.
  - exfalso. apply Hn. unfold Sobel.sobel_accepts, KLEIDICV_MAXIMUM_CHANNEL_COUNT. split_and!; done || lia.
Qed.

(** The derivatives of byte images are small. *)
Lemma derivative_bound weights_y weights_x width height image y x :
  (weights_y, weights_x) ∈ [([1; 2; 1], [-1; 0; 1]); ([-1; 0; 1], [1; 2; 1])] -> (forall p, byte (image p)) ->
  Z.abs (derivative weights_y weights_x width height image y x) <= 1020.
Proof.
  intros Hw Hv. unfold derivative, separable_reference, column_window. change (seqZ 0 3) with [0; 1; 2]. cbn [map].
  assert (forall r e, 0 <= image (r, e) < 256) as Hb by (intros; apply Hv). rewrite !elem_of_cons, elem_of_nil in Hw.
  repeat match goal with |- context [image (?r, ?e)] => let H := fresh in pose proof (Hb r e) as H; generalize dependent (image (r, e)); intros ? H end.
  destruct Hw as [[= -> ->]|[[= -> ->]|[]]]; unfold dot; cbn [zip_with foldr]; lia.
Qed.

(** ** The buffers *)

Lemma aligned_width width : 0 <= width < 2 ^ 62 ->
  width <= align_up width 8 < width + 8 /\ align_up width 8 mod 8 = 0.
Proof.
  intros Hw. change 8 with (2 ^ 3). rewrite align_up_value by lia. change (2 ^ 3) with 8.
  split; mod_lia.
Qed.

(** A buffer: its layout, which pixels are zero, and that only its bytes are written. *)
Definition buffer_ready (sizeof data W H : Z) (outer : Z -> Z -> Prop) (mem : Z -> Z) (result : RowsOverUniquePtr * (Z -> Z)) : Prop :=
  rect_ result.1 = {| width_ := W; height_ := H |} /\ data_ result.1 = data /\
  image_of (rows_ result.1) = (data, W * sizeof) /\
  (forall y x, 0 <= y < H -> 0 <= x < W -> outer y x -> result.2 (pixel_address sizeof (data, W * sizeof) y x) = 0) /\
  (forall a, ~ region data (H * (W * sizeof)) a -> result.2 a = mem a).

Lemma sobel_buffer_ready data width height mem : 0 < width < 2 ^ 62 -> 0 < height -> 0 < data ->
  let P := align_up width 8 in
  data + height * (P * 2) < 2 ^ 63 ->
  buffer_ready 2 data P height (fun _ x => width <= x) mem (SobelBuffer data {| width_ := width; height_ := height |} mem).
Proof.
  intros Hw Hh Hd P Hend. destruct (aligned_width width ltac:(lia)) as [HP _]. fold P in HP.
  unfold SobelBuffer. cbn [width_]. fold P. rewrite size_sub_small by lia.
  set (margin := {| left := 0; top := 0; right := P - width; bottom := 0 |}).
  destruct (buffer_facts 2 data width height margin mem) as (H1 & H2 & H3 & _ & H4 & H5); cbn [margin left right top bottom]; try lia.
  subst margin. cbn [left right top bottom] in *. replace (0 + height + 0) with height in * by lia.
  replace (0 + width + (P - width)) with P in * by lia. unfold buffer_ready, image_of. split_and!; try done.
  intros y x Hy Hx Ho. apply H4; [done|done|]. unfold interior. cbn [left right top bottom]. lia.
Qed.

Lemma margin_buffer_ready sizeof data n width height mem : 0 < sizeof -> 0 < n -> 0 < width -> 0 < height -> 0 < data ->
  let W := width + 2 * n in
  data + (height + 2) * (W * sizeof) < 2 ^ 63 ->
  let result := make_rows_over_unique_ptr sizeof data {| width_ := width; height_ := height |}
    {| left := n; top := 1; right := n; bottom := 1 |} mem in
  buffer_ready sizeof data W (height + 2) (fun y x => ~ (1 <= y < 1 + height /\ n <= x < n + width)) mem result /\
  image_of (rows_without_margin_ result.1) = (pixel_address sizeof (data, W * sizeof) 1 n, W * sizeof).
Proof.
  intros Hs Hn Hw Hh Hd W Hend result. subst result. set (margin := {| left := n; top := 1; right := n; bottom := 1 |}).
  assert (n + width + n = W) as HW by (subst W; lia). assert (1 + height + 1 = height + 2) as HH by lia.
  destruct (buffer_facts sizeof data width height margin mem) as (H1 & H2 & H3 & H6 & H4 & H5); cbn [margin left right top bottom]; try lia.
  subst margin. cbn [left right top bottom] in *. rewrite HW, HH in H1, H4, H5. rewrite HW in H3, H6. unfold buffer_ready, image_of. split_and!; try done.
  intros y x Hy Hx Ho. apply H4; [done|done|]. unfold interior. cbn [left right top bottom]. lia.
Qed.

(** ** Specification *)

Section specification.
Context (conform_opencv : bool) (low high width height : Z) (image : Z * Z -> Z).

Definition gradient_x : Z -> Z -> Z := derivative [1; 2; 1] [-1; 0; 1] width height image.
Definition gradient_y : Z -> Z -> Z := derivative [-1; 0; 1] [1; 2; 1] width height image.

Definition in_image (y x : Z) : bool := (0 <=? y) && (y <? height) && (0 <=? x) && (x <? width).

(** The sum of the absolute gradients, above the low threshold; 0 outside. *)
Definition magnitude (y x : Z) : Z :=
  if in_image y x then
    let m := Z.abs (gradient_x y x) + Z.abs (gradient_y y x) in if low <? m then m else 0
  else 0.

(** The magnitude of a pixel that is a maximum in the direction of its gradient. *)
Definition ridge (y x : Z) : Z :=
  thinned conform_opencv (gradient_x y x) (gradient_y y x) (fun r c => magnitude (y + r) (x + c)).

(** A pixel is an edge if its ridge is above the high threshold, or if it is a ridge next
    to an edge. *)
Inductive edge : Z -> Z -> Prop :=
  | strong_edge y x : in_image y x = true -> high < ridge y x -> edge y x
  | connected_edge y x y' x' : edge y x -> in_image y' x' = true -> 0 < ridge y' x' ->
      -1 <= y' - y <= 1 -> -1 <= x' - x <= 1 -> edge y' x'.
End specification.

(** The buffers as areas of memory: horizontal and vertical gradients, magnitudes,
    hysteresis. *)
Definition areas (new : Allocations) (width height : Z) : list (Z * Z) :=
  let P := align_up width 8 in
  [(horizontal_data new, height * (P * 2)); (vertical_data new, height * (P * 2));
   (magnitudes_data new, (height + 2) * ((P + 16) * 2)); (hysteresis_data new, (height + 2) * (P + 2))].
Definition in_area (new : Allocations) (width height : Z) (i : nat) (a : Z) : Prop :=
  region (areas new width height !!! i).1 (areas new width height !!! i).2 a.

(** The buffers are somewhere in memory, apart from each other, from the source and from
    the destination; the source holds bytes. *)
Record canny_layout (new : Allocations) (src dst : Z * Z) (width height : Z) (mem : Z -> Z) : Prop := {
  cl_size : 2 <= width /\ 2 <= height /\ width * height <= KLEIDICV_MAX_IMAGE_PIXELS /\
    align_up width 8 * height <= KLEIDICV_MAX_IMAGE_PIXELS;
  cl_areas : forall i, (i < 4)%nat -> let '(data, bytes) := areas new width height !!! i in 0 < data /\ data + bytes < 2 ^ 63;
  cl_apart : forall i j a, (i < 4)%nat -> (j < 4)%nat -> in_area new width height i a -> in_area new width height j a -> i = j;
  cl_src : src.1 <> 0 /\ forall y x, 0 <= y < height -> 0 <= x < width ->
    byte (mem (pixel_address 1 src y x)) /\ forall i, (i < 4)%nat -> ~ in_area new width height i (pixel_address 1 src y x);
  cl_dst : dst.1 <> 0 /\ in_address_space 1 width height dst /\ same_or_apart 1 width height dst dst /\
    forall y x, 0 <= y < height -> 0 <= x < width ->
      forall i, (i < 4)%nat -> ~ in_area new width height i (pixel_address 1 dst y x)
}.

(** ** The stages *)

Section stages.
Context (new : Allocations) (src dst : Z * Z) (width height : Z) (mem0 : Z -> Z).
Hypothesis layout : canny_layout new src dst width height mem0.
Let P := align_up width 8.
Let image := load_image 1 src width height mem0.

(** The buffers without and with their margins. *)
Let horizontal_image : Z * Z := (horizontal_data new, P * 2).
Let vertical_image : Z * Z := (vertical_data new, P * 2).
Let magnitudes_image : Z * Z := (magnitudes_data new, (P + 16) * 2).
Let hysteresis_image : Z * Z := (hysteresis_data new, (P + 2) * 1).

Lemma image_sizes : 2 <= width /\ 2 <= height /\ width <= P < width + 8 /\ P mod 8 = 0 /\ P < 2 ^ 48 /\
  P * height < 2 ^ 48 /\ width * height <= KLEIDICV_MAX_IMAGE_PIXELS.
Proof.
  destruct layout as [(Hw & Hh & Hs & Hp) _ _ _ _]. fold P in Hp. unfold KLEIDICV_MAX_IMAGE_PIXELS in *.
  change (Z.shiftl 1 48 - 1) with (2 ^ 48 - 1) in *.
  assert (width < 2 ^ 48) by nia. destruct (aligned_width width ltac:(lia)) as [HP Hm]. fold P in HP, Hm.
  assert (P <= P * height) by nia. split_and!; lia.
Qed.

(** Where the areas are. *)
Lemma area_bounds :
  (0 < horizontal_data new /\ horizontal_data new + height * (P * 2) < 2 ^ 63) /\
  (0 < vertical_data new /\ vertical_data new + height * (P * 2) < 2 ^ 63) /\
  (0 < magnitudes_data new /\ magnitudes_data new + (height + 2) * ((P + 16) * 2) < 2 ^ 63) /\
  (0 < hysteresis_data new /\ hysteresis_data new + (height + 2) * ((P + 2) * 1) < 2 ^ 63).
Proof.
  destruct layout as [_ Ha _ _ _]. rewrite (Z.mul_1_r (P + 2)).
  exact (conj (Ha 0%nat ltac:(lia)) (conj (Ha 1%nat ltac:(lia)) (conj (Ha 2%nat ltac:(lia)) (Ha 3%nat ltac:(lia))))).
Qed.

Let area : nat -> Z -> Prop := in_area new width height.

Lemma not_in_other i j a : (i < 4)%nat -> (j < 4)%nat -> i <> j -> area i a -> ~ area j a.
Proof. intros Hi Hj Hij Ha Hb. apply Hij. by apply (cl_apart _ _ _ _ _ _ layout i j a). Qed.

(** The pixels of the buffers are in their areas, with all of their bytes. *)
Lemma horizontal_in_area y x : 0 <= y < height -> 0 <= x < P ->
  area 0 (pixel_address 2 horizontal_image y x) /\ area 0 (pixel_address 2 horizontal_image y x + 1).
Proof. intros Hy Hx. pose proof (pixel_in_region 2 (horizontal_data new) P height y x ltac:(lia) Hy Hx). split; unfold area, in_area, region; cbn; fold P; unfold horizontal_image; lia. Qed.

Lemma vertical_in_area y x : 0 <= y < height -> 0 <= x < P ->
  area 1 (pixel_address 2 vertical_image y x) /\ area 1 (pixel_address 2 vertical_image y x + 1).
Proof. intros Hy Hx. pose proof (pixel_in_region 2 (vertical_data new) P height y x ltac:(lia) Hy Hx). split; unfold area, in_area, region; cbn; fold P; unfold vertical_image; lia. Qed.

Lemma magnitudes_in_area y x : 0 <= y < height + 2 -> 0 <= x < P + 16 ->
  area 2 (pixel_address 2 magnitudes_image y x) /\ area 2 (pixel_address 2 magnitudes_image y x + 1).
Proof. intros Hy Hx. pose proof (pixel_in_region 2 (magnitudes_data new) (P + 16) (height + 2) y x ltac:(lia) Hy Hx). split; unfold area, in_area, region; cbn; fold P; unfold magnitudes_image; lia. Qed.

Lemma hysteresis_in_area y x : 0 <= y < height + 2 -> 0 <= x < P + 2 -> area 3 (pixel_address 1 hysteresis_image y x).
Proof.
  intros Hy Hx. pose proof (pixel_in_region 1 (hysteresis_data new) (P + 2) (height + 2) y x ltac:(lia) Hy Hx).
  unfold area, in_area, region. cbn. fold P. unfold hysteresis_image. lia.
Qed.

(** *** Empty buffers *)

(** The margins are zero and the source is what it was. *)
Record margins_zero (mem : Z -> Z) : Prop := {
  mz_horizontal y x : 0 <= y < height -> width <= x < P -> mem (pixel_address 2 horizontal_image y x) = 0;
  mz_vertical y x : 0 <= y < height -> width <= x < P -> mem (pixel_address 2 vertical_image y x) = 0;
  mz_magnitudes y x : 0 <= y < height + 2 -> 0 <= x < P + 16 -> ~ (1 <= y < 1 + height /\ 8 <= x < 8 + P) ->
    mem (pixel_address 2 magnitudes_image y x) = 0;
  mz_hysteresis y x : 0 <= y < height + 2 -> 0 <= x < P + 2 -> ~ (1 <= y < 1 + height /\ 1 <= x < 1 + P) ->
    mem (pixel_address 1 hysteresis_image y x) = 0
}.

(** Only the areas are written. *)
Definition untouched (mem : Z -> Z) : Prop := forall a, (forall i, (i < 4)%nat -> ~ area i a) -> mem a = mem0 a.

Lemma buffers_ready :
  let rect := {| width_ := width; height_ := height |} in
  let h := SobelBuffer (horizontal_data new) rect mem0 in
  let v := SobelBuffer (vertical_data new) rect h.2 in
  let m := MagnitudeBuffer (magnitudes_data new) (rect_ h.1) v.2 in
  let e := HysteresisBuffer (hysteresis_data new) (rect_ h.1) m.2 in
  (rect_ h.1 = {| width_ := P; height_ := height |} /\ data_ h.1 = horizontal_data new /\ image_of (rows_ h.1) = horizontal_image) /\
  (data_ v.1 = vertical_data new /\ image_of (rows_ v.1) = vertical_image) /\
  (rect_ m.1 = {| width_ := P + 16; height_ := height + 2 |} /\ data_ m.1 = magnitudes_data new /\
    image_of (rows_ m.1) = magnitudes_image /\
    image_of (rows_without_margin_ m.1) = (pixel_address 2 magnitudes_image 1 8, (P + 16) * 2)) /\
  (data_ e.1 = hysteresis_data new /\
    image_of (rows_without_margin_ e.1) = (pixel_address 1 hysteresis_image 1 1, (P + 2) * 1)) /\
  margins_zero e.2 /\ untouched e.2.
Proof.
  intros rect h v m e. pose proof image_sizes as (Hw & Hh & HP & Hm8 & HP48 & _ & _). pose proof area_bounds as (Ah & Av & Am & Ae).
  destruct (sobel_buffer_ready (horizontal_data new) width height mem0 ltac:(lia) ltac:(lia) ltac:(lia) ltac:(apply Ah))
    as (H1 & H2 & H3 & H4 & H5). fold rect h P in H1, H2, H3, H4, H5.
  destruct (sobel_buffer_ready (vertical_data new) width height h.2 ltac:(lia) ltac:(lia) ltac:(lia) ltac:(apply Av))
    as (V1 & V2 & V3 & V4 & V5). fold rect v P in V1, V2, V3, V4, V5.
  subst m e. rewrite H1. set (m := MagnitudeBuffer _ _ v.2).
  destruct (margin_buffer_ready 2 (magnitudes_data new) 8 P height v.2 ltac:(lia) ltac:(lia) ltac:(lia) ltac:(lia) ltac:(lia) ltac:(apply Am))
    as [(M1 & M2 & M3 & M4 & M5) M6]. change (P + 2 * 8) with (P + 16) in M1, M3, M4, M5, M6.
  change (make_rows_over_unique_ptr 2 (magnitudes_data new) _ _ _) with m in M1, M2, M3, M4, M5, M6.
  set (e := HysteresisBuffer _ _ m.2).
  destruct (margin_buffer_ready 1 (hysteresis_data new) 1 P height m.2 ltac:(lia) ltac:(lia) ltac:(lia) ltac:(lia) ltac:(lia) ltac:(apply Ae))
    as [(E1 & E2 & E3 & E4 & E5) E6]. change (P + 2 * 1) with (P + 2) in E1, E3, E4, E5, E6.
  change (make_rows_over_unique_ptr 1 (hysteresis_data new) _ _ _) with e in E1, E2, E3, E4, E5, E6.
  assert (forall a, ~ area 1 a -> v.2 a = h.2 a) as KV by exact V5.
  assert (forall a, ~ area 2 a -> m.2 a = v.2 a) as KM by exact M5.
  assert (forall a, ~ area 3 a -> e.2 a = m.2 a) as KE.
  { intros a Ha. apply E5. intros Hr. apply Ha. unfold area, in_area, region in *. cbn in *. fold P. lia. }
  refine (conj (conj eq_refl (conj H2 H3)) (conj (conj V2 V3) (conj (conj M1 (conj M2 (conj M3 M6))) (conj (conj E2 E6) (conj _ _)))));
    [split|].
  - intros y x Hy Hx. pose proof (horizontal_in_area y x Hy ltac:(lia)) as [Ha _].
    rewrite KE, KM, KV by (apply (not_in_other 0); done || lia). apply H4; [done|lia|lia].
  - intros y x Hy Hx. pose proof (vertical_in_area y x Hy ltac:(lia)) as [Ha _].
    rewrite KE, KM by (apply (not_in_other 1); done || lia). apply V4; [done|lia|lia].
  - intros y x Hy Hx Hn. pose proof (magnitudes_in_area y x Hy Hx) as [Ha _].
    rewrite KE by (apply (not_in_other 2); done || lia). by apply M4.
  - intros y x Hy Hx Hn. by apply E4.
  - intros a Ha. rewrite KE, KM, KV by (apply Ha; lia). apply H5. apply (Ha 0%nat). lia.
Qed.

(** *** The gradients *)

Let gx : Z -> Z -> Z := gradient_x width height image.
Let gy : Z -> Z -> Z := gradient_y width height image.

Lemma source_kept mem : untouched mem -> forall y x, 0 <= y < height -> 0 <= x < width ->
  mem (pixel_address 1 src y x) = mem0 (pixel_address 1 src y x).
Proof. intros Hu y x Hy Hx. apply Hu. by apply (cl_src _ _ _ _ _ _ layout). Qed.

Lemma image_byte p : byte (image p).
Proof.
  destruct p as [y x]. unfold image, load_image. cbn [fst snd].
  destruct (Z.leb_spec 0 y), (Z.ltb_spec y height), (Z.leb_spec 0 x), (Z.ltb_spec x width); cbn [andb]; try (unfold byte; lia).
  by apply (cl_src _ _ _ _ _ _ layout).
Qed.

Lemma strides_even z : is_misaligned 2 (z * 2) = false.
Proof. change 2 with (2 ^ 1) at 1. rewrite is_misaligned_spec by lia. change (2 ^ 1) with 2. by rewrite Z.mod_mul by lia. Qed.

(** Both gradients are in their buffers, 0 in the columns that pad a row. *)
Record gradients_done (mem : Z -> Z) : Prop := {
  gd_horizontal y x : 0 <= y < height -> 0 <= x < P ->
    mem (pixel_address 2 horizontal_image y x) = if x <? width then gx y x else 0;
  gd_vertical y x : 0 <= y < height -> 0 <= x < P ->
    mem (pixel_address 2 vertical_image y x) = if x <? width then gy y x else 0;
  gd_margins : margins_zero mem;
  gd_untouched : untouched mem
}.

(** One filter: its buffer receives the derivative and nothing else is written. *)
Lemma sobel_stage F weights_y weights_x malloc workspace data i mem :
  SeparableLaws 3 16 8 F byte (fun w b => b = dot weights_y w) (fun ws => dot weights_x (map (dot weights_y) ws)) ->
  0 < data -> (i < 4)%nat -> (forall y x, 0 <= y < height -> 0 <= x < P -> area i (pixel_address 2 (data, P * 2) y x)) ->
  allocated malloc width 1 2 = true -> untouched mem ->
  exists mem', sobel_call (fun channels width height => separable_stripe K3 F 16 8 2 malloc workspace channels width height REPLICATE)
      src (data, P * 2) width height mem = Some (KLEIDICV_OK, mem') /\
    (forall y x, 0 <= y < height -> 0 <= x < P -> mem' (pixel_address 2 (data, P * 2) y x) =
      if x <? width then derivative weights_y weights_x width height image y x else mem (pixel_address 2 (data, P * 2) y x)) /\
    (forall a, ~ area i a -> mem' a = mem a).
Proof.
  intros Hlaws Hd Hi Harea Hal Hu. pose proof image_sizes as (Hw & Hh & HP & _ & _ & _ & Hsz).
  destruct (sobel_call_writes F weights_y weights_x malloc workspace src (data, P * 2) width height mem) as (mem' & Hc & H1 & H2);
    cbn [fst snd]; try done; try lia.
  - apply (cl_src _ _ _ _ _ _ layout).
  - apply strides_even.
  - intros y x Hy Hx. rewrite source_kept by done. by apply (cl_src _ _ _ _ _ _ layout).
  - exists mem'. split; [done|]. split.
    + intros y x Hy Hx. destruct (Z.ltb_spec x width).
      * rewrite H1 by lia. apply derivative_ext. intros p. apply load_image_ext. by apply source_kept.
      * apply H2. intros y' x' Hy' Hx' Heq.
        destruct (pixel_address_inj 2 (data, P * 2) P y x y' x' ltac:(lia) (Z.le_refl _) Hx ltac:(lia)); [|lia].
        rewrite Heq, Z.sub_diag. done.
    + intros a Ha. apply H2. intros y x Hy Hx ->. apply Ha, Harea; lia.
Qed.

Lemma gradients_run malloc workspace mem : margins_zero mem -> untouched mem -> allocated malloc width 1 2 = true ->
  exists mem1 mem2,
    sobel_call (Sobel.sobel_3x3_horizontal_stripe_s16_u8 malloc workspace) src horizontal_image width height mem = Some (KLEIDICV_OK, mem1) /\
    sobel_call (Sobel.sobel_3x3_vertical_stripe_s16_u8 malloc workspace) src vertical_image width height mem1 = Some (KLEIDICV_OK, mem2) /\
    gradients_done mem2.
Proof.
  intros [Z1 Z2 Z3 Z4] Hu Hal. pose proof image_sizes as (Hw & Hh & HP & _). pose proof area_bounds as (Ah & Av & _ & _).
  destruct (sobel_stage HorizontalSobel3x3.filter [1; 2; 1] [-1; 0; 1] malloc workspace (horizontal_data new) 0 mem)
    as (mem1 & C1 & D1 & K1); [apply horizontal_sobel_laws|lia|lia|intros; by apply horizontal_in_area|done|done|].
  assert (untouched mem1) as Hu1 by (intros a Ha; rewrite K1 by (apply Ha; lia); by apply Hu).
  destruct (sobel_stage VerticalSobel3x3.filter [-1; 0; 1] [1; 2; 1] malloc workspace (vertical_data new) 1 mem1)
    as (mem2 & C2 & D2 & K2); [apply vertical_sobel_laws|lia|lia|intros; by apply vertical_in_area|done|done|].
  exists mem1, mem2. split; [exact C1|]. split; [exact C2|].
  assert (forall y x, 0 <= y < height -> 0 <= x < P -> mem2 (pixel_address 2 horizontal_image y x) = if x <? width then gx y x else 0) as G1.
  { intros y x Hy Hx. destruct (horizontal_in_area y x Hy Hx) as [Ha _].
    rewrite K2 by (apply (not_in_other 0); done || lia). unfold horizontal_image. rewrite D1 by done.
    destruct (Z.ltb_spec x width); [done|]. apply Z1; lia. }
  assert (forall y x, 0 <= y < height -> 0 <= x < P -> mem2 (pixel_address 2 vertical_image y x) = if x <? width then gy y x else 0) as G2.
  { intros y x Hy Hx. destruct (vertical_in_area y x Hy Hx) as [Ha _]. unfold vertical_image. rewrite D2 by done.
    destruct (Z.ltb_spec x width); [done|]. rewrite K1 by (apply (not_in_other 1); done || lia). apply Z2; lia. }
  constructor; [exact G1|exact G2| |].
  - constructor.
    + intros y x Hy Hx. rewrite G1 by lia. destruct (Z.ltb_spec x width); [lia|done].
    + intros y x Hy Hx. rewrite G2 by lia. destruct (Z.ltb_spec x width); [lia|done].
    + intros y x Hy Hx Hn. destruct (magnitudes_in_area y x Hy Hx) as [Ha _].
      rewrite K2, K1 by (apply (not_in_other 2); done || lia). by apply Z3.
    + intros y x Hy Hx Hn. pose proof (hysteresis_in_area y x Hy Hx) as Ha.
      rewrite K2, K1 by (apply (not_in_other 3); done || lia). by apply Z4.
  - intros a Ha. rewrite K2 by (apply Ha; lia). by apply Hu1.
Qed.

(** *** The magnitudes *)

Let magnitudes_start : Z * Z := (pixel_address 2 magnitudes_image 1 8, (P + 16) * 2).

Lemma magnitudes_pixel y x : pixel_address 2 magnitudes_start y x = pixel_address 2 magnitudes_image (y + 1) (x + 8).
Proof. unfold magnitudes_start, magnitudes_image, pixel_address. cbn [fst snd]. lia. Qed.

Record magnitudes_done (low : Z) (mem : Z -> Z) : Prop := {
  md_horizontal y x : 0 <= y < height -> 0 <= x < P ->
    mem (pixel_address 2 horizontal_image y x) = if x <? width then gx y x else 0;
  md_vertical y x : 0 <= y < height -> 0 <= x < P ->
    mem (pixel_address 2 vertical_image y x) = if x <? width then gy y x else 0;
  md_magnitudes y x : 0 <= y < height + 2 -> 0 <= x < P + 16 ->
    mem (pixel_address 2 magnitudes_image y x) = magnitude low width height image (y - 1) (x - 8);
  md_hysteresis y x : 0 <= y < height + 2 -> 0 <= x < P + 2 -> ~ (1 <= y < 1 + height /\ 1 <= x < 1 + P) ->
    mem (pixel_address 1 hysteresis_image y x) = 0;
  md_untouched : untouched mem
}.

(** Two-byte pixels of different areas do not overlap. *)
Lemma areas_apart i j a b : (i < 4)%nat -> (j < 4)%nat -> i <> j -> area i a -> area i (a + 1) -> area j b -> area j (b + 1) ->
  ~ Z.abs (a - b) < 2.
Proof.
  intros Hi Hj Hij Ha Ha1 Hb Hb1 Hlt.
  assert (a = b \/ a = b + 1 \/ a + 1 = b) as [->|[->|<-]] by lia; eapply (not_in_other i j); eauto.
Qed.

Lemma gradient_bounds y x : Z.abs (gx y x) <= 1020 /\ Z.abs (gy y x) <= 1020.
Proof.
  split; apply derivative_bound; try apply image_byte; rewrite !elem_of_cons; auto.
Qed.

Lemma magnitudes_placed : placed 2 P height [horizontal_image; vertical_image] magnitudes_start.
Proof.
  pose proof image_sizes as (Hw & Hh & HP & _ & HP48 & _). pose proof area_bounds as ((Ah1 & Ah2) & (Av1 & Av2) & (Am1 & Am2) & _).
  assert (0 <= height * (P * 2) /\ 0 <= height * ((P + 16) * 2)) as [? ?] by nia.
  split; [lia|]. split; [lia|]. split.
  - apply Forall_forall. intros r Hr. rewrite !elem_of_cons, elem_of_nil in Hr.
    unfold in_address_space, magnitudes_start, magnitudes_image, horizontal_image, vertical_image, pixel_address in *.
    destruct Hr as [->|[->|[->|[]]]]; cbn [fst snd]; lia.
  - apply Forall_forall. intros r Hr. rewrite !elem_of_cons, elem_of_nil in Hr.
    intros y x y' x' Hy Hx Hy' Hx' Hlt. rewrite magnitudes_pixel in *.
    destruct (magnitudes_in_area (y + 1) (x + 8)) as [Ha Ha1]; [lia|lia|].
    destruct Hr as [->|[->|[->|[]]]].
    + rewrite magnitudes_pixel in *.
      destruct (pixel_address_inj 2 magnitudes_image (P + 16) (y + 1) (x + 8) (y' + 1) (x' + 8)); [lia|apply Z.le_refl|lia|lia|done|].
      assert (y = y') as -> by lia. assert (x = x') as -> by lia. done.
    + exfalso. destruct (horizontal_in_area y' x' Hy' Hx') as [Hb Hb1]. by apply (areas_apart 2 0 _ _ ltac:(lia) ltac:(lia) ltac:(lia) Ha Ha1 Hb Hb1).
    + exfalso. destruct (vertical_in_area y' x' Hy' Hx') as [Hb Hb1]. by apply (areas_apart 2 1 _ _ ltac:(lia) ltac:(lia) ltac:(lia) Ha Ha1 Hb Hb1).
Qed.

Lemma magnitudes_accepted : accepts 2 ([horizontal_image; vertical_image] ++ [magnitudes_start]) P height.
Proof.
  pose proof area_bounds as ((Ah1 & _) & (Av1 & _) & (Am1 & _) & _). pose proof image_sizes as (Hw & Hh & HP & _).
  split; [|apply (cl_size _ _ _ _ _ _ layout)].
  apply Forall_forall. intros r Hr. cbn [app] in Hr. rewrite !elem_of_cons, elem_of_nil in Hr.
  assert (0 < pixel_address 2 magnitudes_image 1 8) by (unfold pixel_address, magnitudes_image; cbn [fst snd]; lia).
  destruct Hr as [->|[->|[->|[]]]]; unfold magnitudes_start, horizontal_image, vertical_image; cbn [fst snd];
    (split; [lia|]); intros _ _; apply strides_even.
Qed.

Lemma magnitudes_run low mem : gradients_done mem ->
  exists mem', saturating_add_abs_with_threshold low horizontal_image vertical_image magnitudes_start P height mem = (KLEIDICV_OK, mem') /\
    magnitudes_done low mem'.
Proof.
  intros [G1 G2 [_ _ Z3 Z4] Hu]. pose proof image_sizes as (Hw & Hh & HP & _).
  assert (elements_in (in_type int16) 2 P height [horizontal_image; vertical_image] mem) as Hel.
  { intros r y x Hr Hy Hx. rewrite !elem_of_cons, elem_of_nil in Hr. pose proof (gradient_bounds y x).
    unfold in_type. change (int_min int16) with (-32768). change (int_max int16) with 32767.
    destruct Hr as [->|[->|[]]]; rewrite ?G1, ?G2 by done; destruct (x <? _); lia. }
  destruct (elementwise_call_correct (SaturatingAddAbsWithThreshold low) _ _ 2 [horizontal_image; vertical_image] magnitudes_start
    P height mem (add_abs_with_threshold_laws low) ltac:(lia) eq_refl magnitudes_placed Hel) as [Hok _].
  destruct (Hok magnitudes_accepted) as [Herr [D1 D2]]. unfold saturating_add_abs_with_threshold.
  destruct (elementwise_call _ _ _ _ _ _ _) as [err mem'] eqn:Hcall. cbn [fst snd] in *. subst err.
  exists mem'. split; [done|].
  assert (forall a, ~ area 2 a -> mem' a = mem a) as K.
  { intros a Ha. apply D2. intros y x Hy Hx ->. apply Ha. rewrite magnitudes_pixel. apply magnitudes_in_area; lia. }
  constructor.
  - intros y x Hy Hx. destruct (horizontal_in_area y x Hy Hx) as [Ha _]. rewrite K by (apply (not_in_other 0); done || lia). by apply G1.
  - intros y x Hy Hx. destruct (vertical_in_area y x Hy Hx) as [Ha _]. rewrite K by (apply (not_in_other 1); done || lia). by apply G2.
  - intros y x Hy Hx. destruct (decide (1 <= y < 1 + height /\ 8 <= x < 8 + P)) as [[Hiy Hix]|Hn].
    + specialize (D1 (y - 1) (x - 8) ltac:(lia) ltac:(lia)). rewrite magnitudes_pixel in D1.
      replace (y - 1 + 1) with y in D1 by lia. replace (x - 8 + 8) with x in D1 by lia. rewrite D1.
      cbn [map lookup_total list_lookup_total]. rewrite G1, G2 by lia. unfold magnitude, in_image. fold gx gy.
      destruct (gradient_bounds (y - 1) (x - 8)) as [Hbx Hby].
      destruct (Z.leb_spec 0 (y - 1)), (Z.ltb_spec (y - 1) height), (Z.leb_spec 0 (x - 8)); try lia. cbn [andb].
      destruct (Z.ltb_spec (x - 8) width).
      * assert (clamp_to int16 (Z.abs (gx (y - 1) (x - 8)) + Z.abs (gy (y - 1) (x - 8))) =
          Z.abs (gx (y - 1) (x - 8)) + Z.abs (gy (y - 1) (x - 8))) as -> by
          (unfold clamp_to; change (int_min int16) with (-32768); change (int_max int16) with 32767; lia). done.
      * change (clamp_to int16 (Z.abs 0 + Z.abs 0)) with 0. by destruct (low <? 0).
    + rewrite D2.
      * rewrite Z3 by done. unfold magnitude, in_image.
        destruct (Z.leb_spec 0 (y - 1)), (Z.ltb_spec (y - 1) height), (Z.leb_spec 0 (x - 8)), (Z.ltb_spec (x - 8) width); cbn [andb]; done || lia.
      * intros y' x' Hy' Hx' Heq. rewrite magnitudes_pixel in Heq.
        destruct (pixel_address_inj 2 magnitudes_image (P + 16) y x (y' + 1) (x' + 8)); [lia|apply Z.le_refl|lia|lia|rewrite Heq, Z.sub_diag; done|]. lia.
  - intros y x Hy Hx Hn. pose proof (hysteresis_in_area y x Hy Hx) as Ha. rewrite K by (apply (not_in_other 3); done || lia). by apply Z4.
  - intros a Ha. rewrite K by (apply Ha; lia). by apply Hu.
Qed.

(** *** The suppression of non-maxima *)

Let edges_start : Z * Z := (pixel_address 1 hysteresis_image 1 1, (P + 2) * 1).

Lemma edges_pixel y x : pixel_address 1 edges_start y x = pixel_address 1 hysteresis_image (y + 1) (x + 1).
Proof. unfold edges_start, hysteresis_image, pixel_address. cbn [fst snd]. lia. Qed.

Lemma magnitude_range low y x : 0 <= magnitude low width height image y x <= 2040.
Proof.
  unfold magnitude. fold gx gy. pose proof (gradient_bounds y x).
  destruct (in_image width height y x); [|lia]. cbv zeta. destruct (low <? _); lia.
Qed.

Lemma ridge_zero conform low y x : magnitude low width height image y x = 0 -> ridge conform low width height image y x = 0.
Proof. intros Hm. unfold ridge, thinned. rewrite !Z.add_0_r, Hm. by destruct (_ && _). Qed.

Lemma ridge_in_image conform low y x : 0 < ridge conform low width height image y x -> in_image width height y x = true.
Proof.
  intros Hr. destruct (in_image width height y x) eqn:Hin; [done|]. rewrite ridge_zero in Hr; [lia|].
  unfold magnitude. by rewrite Hin.
Qed.

Lemma in_image_spec y x : in_image width height y x = true <-> 0 <= y < height /\ 0 <= x < width.
Proof. unfold in_image. rewrite !andb_true_iff, !Z.leb_le, !Z.ltb_lt. lia. Qed.

(** The value of a pixel of the buffers is that of the specification, 0 in the padding. *)
Lemma loaded_pixel_value conform low mem y x : magnitudes_done low mem -> 0 <= y < height -> 0 <= x < P ->
  pixel_value conform (load_image 2 horizontal_image P height mem) (load_image 2 vertical_image P height mem)
    (load_image 2 magnitudes_image (P + 16) (height + 2) mem) y x = ridge conform low width height image y x.
Proof.
  intros [M1 M2 M3 _ _] Hy Hx. pose proof (eq_refl : kNumLanes = 8) as Hk8. unfold pixel_value.
  rewrite !load_image_at by lia. rewrite M1, M2 by lia.
  rewrite (thinned_ext _ _ _ _ (fun r c => magnitude low width height image (y + r) (x + c))).
  - destruct (Z.ltb_spec x width); [done|].
    assert (magnitude low width height image y x = 0) as Hm.
    { unfold magnitude. destruct (in_image width height y x) eqn:Hin; [|done]. apply in_image_spec in Hin. lia. }
    rewrite ridge_zero by done. unfold thinned. rewrite !Z.add_0_r, Hm. by destruct (_ && _).
  - intros r c Hr Hc. rewrite load_image_at by lia. rewrite M3 by lia. f_equal; lia.
Qed.

Record ridges_done (conform : bool) (low high : Z) (stack : list Z) (mem : Z -> Z) : Prop := {
  rd_pixels y x : 0 <= y < height + 2 -> 0 <= x < P + 2 ->
    mem (pixel_address 1 hysteresis_image y x) = edge_value high (ridge conform low width height image (y - 1) (x - 1));
  rd_stack a : a ∈ stack <-> exists y x, in_image width height y x = true /\ high < ridge conform low width height image y x /\
    a = pixel_address 1 hysteresis_image (y + 1) (x + 1);
  rd_untouched : untouched mem
}.

Lemma ridges_run {S} (ops : StackOps S Z) valid contents {HS : StackLaws ops valid contents} conform low high stack mem :
  magnitudes_done low mem -> 0 <= high < 2 ^ 15 -> valid stack -> contents stack = [] ->
  exists stack' mem', non_maxima_suppression_and_high_thresholding ops conform
      (load_image 2 horizontal_image P height mem) (load_image 2 vertical_image P height mem)
      (load_image 2 magnitudes_image (P + 16) (height + 2) mem) edges_start.1 edges_start.2 high P height stack mem
      = Some (stack', mem') /\
    valid stack' /\ ridges_done conform low high (contents stack') mem'.
Proof.
  intros Hm Hhigh Hv Hc. pose proof Hm as [M1 M2 M3 M4 Hu]. pose proof image_sizes as (Hw & Hh & HP & Hm8 & HP48 & _).
  pose proof (eq_refl : kNumLanes = 8) as Hk8.
  destruct (suppression_run ops conform (load_image 2 horizontal_image P height mem) (load_image 2 vertical_image P height mem)
    (load_image 2 magnitudes_image (P + 16) (height + 2) mem) edges_start.1 edges_start.2 high P height)
    with (stack := stack) (pixels := mem) as (stack' & mem' & Heq & [Hv' S1 S2 S3]).
  - unfold edges_start, is_size. cbn [snd]. split; [lia|]. split; [done|lia].
  - done.
  - intros y x Hy Hx. rewrite !load_image_at by lia. rewrite M1, M2 by lia. pose proof (gradient_bounds y x).
    unfold gradient_ok. destruct (x <? width); lia.
  - intros y x Hy Hx. rewrite load_image_at by lia. rewrite M3 by lia. pose proof (magnitude_range low (y - 1) (x - 8)). lia.
  - done.
  - lia.
  - exists stack', mem'. split; [done|]. split; [done|].
    assert (forall y x, address edges_start.1 edges_start.2 y x = pixel_address 1 hysteresis_image (y + 1) (x + 1)) as Haddr.
    { intros y x. rewrite <- edges_pixel. unfold address, pixel_address. lia. }
    constructor.
    + intros y x Hy Hx. destruct (decide (1 <= y < 1 + height /\ 1 <= x < 1 + P)) as [[Hiy Hix]|Hn].
      * specialize (S1 (y - 1) (x - 1) ltac:(split; lia) I). rewrite Haddr in S1.
        replace (y - 1 + 1) with y in S1 by lia. replace (x - 1 + 1) with x in S1 by lia. rewrite S1.
        f_equal. apply loaded_pixel_value; [done|lia|lia].
      * rewrite S2.
        -- rewrite M4 by done. rewrite ridge_zero.
           ++ unfold edge_value. destruct (Z.ltb_spec high 0); [lia|done].
           ++ unfold magnitude. destruct (in_image width height (y - 1) (x - 1)) eqn:Hin; [|done]. apply in_image_spec in Hin. lia.
        -- intros y' x' [Hy' Hx'] _ Heq'. rewrite Haddr in Heq'.
           destruct (pixel_address_inj 1 hysteresis_image (P + 2) y x (y' + 1) (x' + 1)); [lia|unfold hysteresis_image; cbn [snd]; lia|lia|lia|rewrite Heq', Z.sub_diag; done|].
           lia.
    + intros a. rewrite S3, Hc. split.
      * intros [Ha|(y & x & [Hy Hx] & _ & Hhi & ->)]; [by apply elem_of_nil in Ha|].
        rewrite loaded_pixel_value with (low := low) in Hhi by done.
        exists y, x. split; [apply (ridge_in_image conform low); lia|]. by rewrite Haddr.
      * intros (y & x & Hin & Hhi & ->). apply in_image_spec in Hin. right. exists y, x.
        split; [split; lia|]. split; [done|]. rewrite loaded_pixel_value with (low := low) by (done || lia). by rewrite Haddr.
    + intros a Ha. rewrite S2; [by apply Hu|]. intros y x [Hy Hx] _ ->. rewrite Haddr in Ha.
      apply (Ha 3%nat ltac:(lia)). apply hysteresis_in_area; lia.
Qed.

(** *** The hysteresis *)

Let is_edge (conform : bool) (low high : Z) : Z -> Z -> Prop := edge conform low high width height image.

Lemma edge_in_image conform low high y x : is_edge conform low high y x -> in_image width height y x = true.
Proof. by destruct 1. Qed.

(** Two pixels of the buffer with its margin that are close in memory as the hysteresis sees it. *)
Lemma adjacent_pixel y x q :
  adjacent ((P + 2) * 1) (pixel_address 1 hysteresis_image (y + 1) (x + 1)) q <->
  exists y' x', -1 <= y' - y <= 1 /\ -1 <= x' - x <= 1 /\ (y' <> y \/ x' <> x) /\
    q = pixel_address 1 hysteresis_image (y' + 1) (x' + 1).
Proof.
  unfold pixel_address, hysteresis_image. cbn [fst snd]. split.
  - intros (dr & dc & Hr & Hc & Hn & ->). exists (y + dr), (x + dc). split_and!; lia.
  - intros (y' & x' & Hy & Hx & Hn & ->). exists (y' - y), (x' - x). split_and!; lia.
Qed.

Section marked.
Context (conform : bool) (low high : Z) (strong : list Z) (mem : Z -> Z).
Hypothesis ridges : ridges_done conform low high strong mem.

Lemma pixel_of_edge y x : in_image width height y x = true ->
  mem (pixel_address 1 hysteresis_image (y + 1) (x + 1)) = edge_value high (ridge conform low width height image y x).
Proof.
  intros [Hy Hx]%in_image_spec. pose proof image_sizes. rewrite (rd_pixels _ _ _ _ _ ridges) by lia. do 2 f_equal; lia.
Qed.

(** A weak pixel next to a pixel of the image is a ridge in the image. *)
Lemma weak_neighbour y x q : in_image width height y x = true ->
  adjacent ((P + 2) * 1) (pixel_address 1 hysteresis_image (y + 1) (x + 1)) q -> mem q = 1 ->
  exists y' x', -1 <= y' - y <= 1 /\ -1 <= x' - x <= 1 /\ in_image width height y' x' = true /\
    0 < ridge conform low width height image y' x' /\ q = pixel_address 1 hysteresis_image (y' + 1) (x' + 1).
Proof.
  intros Hin (y' & x' & Hy & Hx & _ & ->)%adjacent_pixel H1. apply in_image_spec in Hin. pose proof image_sizes as (_ & _ & HP & _).
  exists y', x'. rewrite (rd_pixels _ _ _ _ _ ridges) in H1 by lia.
  replace (y' + 1 - 1) with y' in H1 by lia. replace (x' + 1 - 1) with x' in H1 by lia.
  assert (0 < ridge conform low width height image y' x') as Hr.
  { unfold edge_value in H1. destruct (high <? _); [lia|]. destruct (Z.ltb_spec 0 (ridge conform low width height image y' x')); lia. }
  split_and!; try done; try lia. by apply (ridge_in_image conform low).
Qed.

Lemma promoted_edge q : promoted ((P + 2) * 1) mem strong q ->
  exists y x, is_edge conform low high y x /\ q = pixel_address 1 hysteresis_image (y + 1) (x + 1).
Proof.
  induction 1 as [p q Hp Hq H1|p q _ (y & x & He & ->) Hq H1].
  - apply (rd_stack _ _ _ _ _ ridges) in Hp as (y & x & Hin & Hh & ->).
    destruct (weak_neighbour y x q Hin Hq H1) as (y' & x' & Hy & Hx & Hin' & Hr & ->).
    exists y', x'. split; [|done]. apply (connected_edge _ _ _ _ _ _ y x); try done. by apply strong_edge.
  - destruct (weak_neighbour y x q (edge_in_image _ _ _ _ _ He) Hq H1) as (y' & x' & Hy & Hx & Hin' & Hr & ->).
    exists y', x'. split; [|done]. by apply (connected_edge _ _ _ _ _ _ y x).
Qed.

Lemma edge_promoted y x : is_edge conform low high y x ->
  pixel_address 1 hysteresis_image (y + 1) (x + 1) ∈ strong \/
  promoted ((P + 2) * 1) mem strong (pixel_address 1 hysteresis_image (y + 1) (x + 1)).
Proof.
  induction 1 as [y x Hin Hh|y x y' x' He IH Hin Hr Hy Hx].
  - left. apply (rd_stack _ _ _ _ _ ridges). by exists y, x.
  - destruct (decide (y' = y /\ x' = x)) as [[-> ->]|Hn]; [done|].
    destruct (decide (high < ridge conform low width height image y' x')) as [Hh|Hh].
    + left. apply (rd_stack _ _ _ _ _ ridges). by exists y', x'.
    + right. assert (mem (pixel_address 1 hysteresis_image (y' + 1) (x' + 1)) = 1) as H1.
      { rewrite pixel_of_edge by done. unfold edge_value. destruct (Z.ltb_spec high (ridge conform low width height image y' x')); [lia|].
        destruct (Z.ltb_spec 0 (ridge conform low width height image y' x')); lia. }
      assert (adjacent ((P + 2) * 1) (pixel_address 1 hysteresis_image (y + 1) (x + 1)) (pixel_address 1 hysteresis_image (y' + 1) (x' + 1))) as Ha.
      { apply adjacent_pixel. exists y', x'. split_and!; try done; lia. }
      destruct IH as [IH|IH]; [by eapply promoted_by_strong|by eapply promoted_by_weak].
Qed.

(** The bytes of the buffer of the hysteresis. *)
Definition hysteresis_area : list Z := seqZ (hysteresis_data new) ((height + 2) * ((P + 2) * 1)).

Lemma promoted_in_area q : promoted ((P + 2) * 1) mem strong q -> q ∈ hysteresis_area /\ area 3 q.
Proof.
  intros (y & x & He & ->)%promoted_edge. apply edge_in_image, in_image_spec in He. pose proof image_sizes as (_ & _ & HP & _).
  pose proof (hysteresis_in_area (y + 1) (x + 1) ltac:(lia) ltac:(lia)) as Ha. split; [|done].
  apply elem_of_seqZ. unfold area, in_area, region in Ha. cbn in Ha. fold P in Ha. lia.
Qed.

(** The pixels of the image are edges, weak or nothing. *)
Record edges_found (mem' : Z -> Z) : Prop := {
  ef_pixels y x : in_image width height y x = true ->
    let v := mem' (pixel_address 1 hysteresis_image (y + 1) (x + 1)) in
    (v = 255 /\ is_edge conform low high y x) \/ (0 <= v <= 1 /\ ~ is_edge conform low high y x);
  ef_untouched : untouched mem'
}.

Lemma hysteresis_run {S} (ops : StackOps S Z) valid contents {HS : StackLaws ops valid contents} stack fuel :
  valid stack -> contents stack = strong -> (length hysteresis_area + length strong < fuel)%nat ->
  exists stack' mem', perform_hysteresis ops ((P + 2) * 1) fuel stack mem = Some (stack', mem') /\ edges_found mem'.
Proof.
  intros Hv Hc Hf.
  destruct (perform_hysteresis_run ops ((P + 2) * 1) mem strong hysteresis_area (fun q Hq => proj1 (promoted_in_area q Hq))
    fuel stack mem) as (stack' & mem' & Heq & _ & _ & Hinv); [done| | |].
  - rewrite Hc. constructor; [by left|by left|]. intros p [Hp|[Ho Hp]]; [by left|congruence].
  - rewrite Hc. unfold work, weak. pose proof (length_filter (fun q => mem q = 1) hysteresis_area). lia.
  - exists stack', mem'. split; [done|]. pose proof (finished _ _ _ mem' Hinv) as Hfin. destruct Hinv as [Hpix _ _]. constructor.
    + intros y x Hin v. set (q := pixel_address 1 hysteresis_image (y + 1) (x + 1)) in *.
      pose proof (pixel_of_edge y x Hin) as Hmem. fold q in Hmem.
      assert (is_edge conform low high y x -> v = 255) as Hyes.
      { intros [Hs|Hp]%edge_promoted; [|by apply (proj1 (Hfin q))]. fold q in Hs.
        apply (rd_stack _ _ _ _ _ ridges) in Hs as (y' & x' & Hin' & Hh & Hqq).
        assert (edge_value high (ridge conform low width height image y' x') = 255) as H255.
        { unfold edge_value. destruct (Z.ltb_spec high (ridge conform low width height image y' x')); [done|lia]. }
        assert (mem q = 255) as Hq255 by (rewrite Hqq, pixel_of_edge; done).
        subst v. rewrite (proj2 (Hfin q)); [done|]. intros Hp%promoted_weak. lia. }
      destruct (Hpix q) as [Hv'|(_ & Hv' & Hp)].
      * destruct (Z.ltb_spec high (ridge conform low width height image y x)) as [Hh|Hh].
        -- left. assert (is_edge conform low high y x) by by apply strong_edge. split; [by apply Hyes|done].
        -- right. assert (0 <= v <= 1) as Hv01.
           { subst v. rewrite Hv', Hmem. unfold edge_value.
             destruct (Z.ltb_spec high (ridge conform low width height image y x)); [lia|]. case_cmp; lia. }
           split; [done|]. intros He%Hyes. lia.
      * left. split; [done|]. apply promoted_edge in Hp as (y' & x' & He & Hqq). unfold q in Hqq.
        pose proof (edge_in_image _ _ _ _ _ He) as Hin'%in_image_spec. apply in_image_spec in Hin. pose proof image_sizes as (_ & _ & HP & _).
        destruct (pixel_address_inj 1 hysteresis_image (P + 2) (y + 1) (x + 1) (y' + 1) (x' + 1));
          [lia|unfold hysteresis_image; cbn [snd]; lia|lia|lia|rewrite Hqq, Z.sub_diag; done|].
        assert (y' = y) as -> by lia. assert (x' = x) as -> by lia. done.
    + intros a Ha. destruct (Hpix a) as [->|(_ & _ & Hp)]; [by apply (rd_untouched _ _ _ _ _ ridges)|].
      apply promoted_in_area in Hp as [_ Hp]. exfalso. by apply (Ha 3%nat ltac:(lia)).
Qed.
End marked.

(** *** The result *)

(** The destination: 255 for the edges and 0 elsewhere; nothing else outside the buffers. *)
Definition edges_drawn (conform : bool) (low high : Z) (mem' : Z -> Z) : Prop :=
  (forall y x, 0 <= y < height -> 0 <= x < width ->
    (mem' (pixel_address 1 dst y x) = 255 /\ is_edge conform low high y x) \/
    (mem' (pixel_address 1 dst y x) = 0 /\ ~ is_edge conform low high y x)) /\
  (forall a, (forall y x, 0 <= y < height -> 0 <= x < width -> a <> pixel_address 1 dst y x) ->
    (forall i, (i < 4)%nat -> ~ area i a) -> mem' a = mem0 a).

Lemma threshold_run conform low high mem : edges_found conform low high mem ->
  exists mem', threshold_binary 0x80 0xFF edges_start dst width height mem = (KLEIDICV_OK, mem') /\
    edges_drawn conform low high mem'.
Proof.
  intros [E Hu]. pose proof image_sizes as (Hw & Hh & HP & _). pose proof area_bounds as (_ & _ & _ & (He1 & He2)).
  destruct (cl_dst _ _ _ _ _ _ layout) as (Hd & Hspace & Hself & Happ).
  assert (forall y x, 0 <= y < height -> 0 <= x < width -> area 3 (pixel_address 1 edges_start y x)) as Hin.
  { intros y x Hy Hx. rewrite edges_pixel. apply hysteresis_in_area; lia. }
  assert (placed 1 width height [edges_start] dst) as Hplaced.
  { assert (0 <= height * ((P + 2) * 1)) by nia. split; [lia|]. split; [lia|].
    split; [refine (Forall_cons_2 _ _ _ Hspace (Forall_cons_2 _ _ _ _ (Forall_nil_2 _)))|refine (Forall_cons_2 _ _ _ Hself (Forall_cons_2 _ _ _ _ (Forall_nil_2 _)))].
    - unfold in_address_space, edges_start, hysteresis_image, pixel_address. cbn [fst snd]. lia.
    - intros y x y' x' Hy Hx Hy' Hx' Hlt. exfalso. apply (Happ y x Hy Hx 3%nat ltac:(lia)).
      replace (pixel_address 1 dst y x) with (pixel_address 1 edges_start y' x') by lia. by apply Hin. }
  assert (elements_in (in_type uint8) 1 width height [edges_start] mem) as Hel.
  { intros r y x Hr Hy Hx. apply elem_of_cons in Hr as [->|Hr]; [|by apply elem_of_nil in Hr].
    rewrite edges_pixel. assert (0 <= mem (pixel_address 1 hysteresis_image (y + 1) (x + 1)) <= 255) as [? ?].
    { destruct (E y x (proj2 (in_image_spec y x) (conj Hy Hx))) as [[-> _]|[[? ?] _]]; lia. }
    by split. }
  destruct (elementwise_call_correct (BinaryThreshold 0x80 0xFF) _ _ 1 [edges_start] dst width height mem
    (binary_threshold_laws 0x80 0xFF ltac:(split; done)) ltac:(lia) eq_refl Hplaced Hel) as [Hok _].
  destruct Hok as [Herr [D1 D2]].
  { split; [|apply (cl_size _ _ _ _ _ _ layout)]. cbn [app]. refine (Forall_cons_2 _ _ _ (conj _ _) (Forall_cons_2 _ _ _ (conj Hd _) (Forall_nil_2 _))); [|congruence|congruence].
    unfold edges_start, hysteresis_image, pixel_address. cbn [fst snd]. lia. }
  unfold threshold_binary. destruct (elementwise_call _ _ _ _ _ _ _) as [err mem'] eqn:Hcall. cbn [fst snd] in *. subst err.
  exists mem'. split; [done|]. split.
  - intros y x Hy Hx. rewrite D1 by done. cbn [map lookup_total list_lookup_total]. rewrite edges_pixel.
    destruct (E y x (proj2 (in_image_spec y x) (conj Hy Hx))) as [[-> He]|[Hv He]]; [by left|right].
    split; [|done]. destruct (Z.ltb_spec 128 (mem (pixel_address 1 hysteresis_image (y + 1) (x + 1)))); [lia|done].
  - intros a Ha Hn. rewrite D2 by done. by apply Hu.
Qed.

Lemma canny_run {S} (ops : StackOps S Z) valid contents {HS : StackLaws ops valid contents} new_stack conform malloc workspace low high :
  allocated malloc width 1 2 = true -> 0 <= f_trunc high < 2 ^ 15 -> in_type int16 (f_trunc low) ->
  valid new_stack -> contents new_stack = [] ->
  exists fuel0, forall fuel, (fuel0 <= fuel)%nat -> exists mem',
    canny_u8 ops new_stack conform malloc workspace fuel new src dst width height low high mem0 = Some (KLEIDICV_OK, mem') /\
    edges_drawn conform (f_trunc low) (f_trunc high) mem'.
Proof.
  intros Hal Hhigh Hlow Hv Hc. pose proof buffers_ready as Hb. cbv zeta in Hb.
  pose proof area_bounds as ((Ah & _) & (Av & _) & (Am & _) & (Ae & _)). pose proof image_sizes as (Hw & Hh & HP & _).
  unfold canny_u8.
  assert (checks 1 [src; dst] width height = KLEIDICV_OK) as ->.
  { apply checks_accept; [lia|lia|]. split; [|apply (cl_size _ _ _ _ _ _ layout)].
    refine (Forall_cons_2 _ _ _ (conj (proj1 (cl_src _ _ _ _ _ _ layout)) _) (Forall_cons_2 _ _ _ (conj (proj1 (cl_dst _ _ _ _ _ _ layout)) _) (Forall_nil_2 _))); congruence. }
  cbn [and_then]. cbv zeta.
  destruct (SobelBuffer (horizontal_data new) _ mem0) as [h mem1]. cbn [fst snd] in Hb.
  destruct (SobelBuffer (vertical_data new) _ mem1) as [v mem2]. cbn [fst snd] in Hb.
  destruct Hb as ((H1 & H2 & H3) & (V1 & V2) & (M1 & M2 & M3 & M4) & (E1 & E2) & Hz & Hu).
  destruct (MagnitudeBuffer _ _ mem2) as [m mem3]. cbn [fst snd] in M1, M2, M3, M4, E1, E2, Hz, Hu.
  destruct (HysteresisBuffer _ _ mem3) as [e mem4]. cbn [fst snd] in E1, E2, Hz, Hu.
  rewrite H2, V1, M2, E1. destruct (Z.eqb_spec (horizontal_data new) 0), (Z.eqb_spec (vertical_data new) 0); try lia. cbn [orb].
  destruct (Z.eqb_spec (magnitudes_data new) 0), (Z.eqb_spec (hysteresis_data new) 0); try lia.
  rewrite H1, H3, V2, M4. cbn [width_ height_].
  destruct (gradients_run malloc workspace mem4 Hz Hu Hal) as (mem5 & mem6 & -> & C2 & Hg). cbn [and_then]. rewrite C2. cbn [and_then].
  assert (static_cast int16 (f_trunc low) = f_trunc low) as -> by (apply cast_s16; unfold in_type in Hlow; change (int_min int16) with (-32768) in Hlow; change (int_max int16) with 32767 in Hlow; lia).
  assert (static_cast int16 (f_trunc high) = f_trunc high) as ->.
  { apply cast_s16. lia. }
  destruct (magnitudes_run (f_trunc low) mem6 Hg) as (mem7 & C3 & Hm). fold magnitudes_start. rewrite C3. cbn [and_then].
  unfold detect_edges. rewrite H1, H3, V2, M1, M3, E2. cbn [width_ height_].
  destruct (ridges_run ops valid contents conform (f_trunc low) (f_trunc high) new_stack mem7 Hm Hhigh Hv Hc)
    as (stack & mem8 & C4 & Hv' & Hr). fold edges_start. rewrite C4. cbv zeta.
  exists (length hysteresis_area + length (contents stack) + 1)%nat. intros fuel Hf.
  destruct (hysteresis_run conform (f_trunc low) (f_trunc high) (contents stack) mem8 Hr ops valid contents stack fuel Hv' eq_refl)
    as (stack' & mem9 & C5 & He); [clear -Hf; lia|]. change (edges_start.2) with ((P + 2) * 1). rewrite C5.
  destruct (threshold_run _ _ _ mem9 He) as (mem10 & -> & Hd). by exists mem10.
Qed.
End stages.

(** C1: for a source and a destination of at least two by two pixels, buffers that are
    allocated and apart from the images, and thresholds that fit 16 bits, [canny_u8]
    terminates and succeeds with every stack that behaves as a list; the destination is 255
    at exactly the edges of the specification (the pixels whose gradient magnitude is a
    maximum across the edge and above the high threshold, and the maxima above the low
    threshold that touch an edge) and 0 at every other pixel; apart from the destination
    only the buffers are written. *)
Theorem canny_correct {S} (ops : StackOps S Z) valid contents {HS : StackLaws ops valid contents} new_stack
    conform malloc workspace new src dst width height low high mem :
  canny_layout new src dst width height mem -> allocated malloc width 1 2 = true ->
  0 <= f_trunc high < 2 ^ 15 -> in_type int16 (f_trunc low) -> valid new_stack -> contents new_stack = [] ->
  exists fuel0, forall fuel, (fuel0 <= fuel)%nat -> exists mem',
    canny_u8 ops new_stack conform malloc workspace fuel new src dst width height low high mem = Some (KLEIDICV_OK, mem') /\
    edges_drawn new src dst width height mem conform (f_trunc low) (f_trunc high) mem'.
Proof. intros Hl. by apply canny_run. Qed.

(** A vertical step in an image of four by four pixels: its edge is in column 1. *)
Definition step_image : Z -> Z := fun a => if (1000 <=? a) && (a <? 1064) && (2 <=? (a - 1000) mod 16) then 200 else 0.

Lemma canny_correct_witness :
  let new := {| horizontal_data := 10000; vertical_data := 20000; magnitudes_data := 30000; hysteresis_data := 40000 |} in
  exists s0 fuel mem',
    canny_u8 (block_stack 2 (fun _ => true)) s0 true (fun _ => 4096) (fun _ => 0) fuel new (1000, 16) (2000, 4) 4 4
      (S754_finite false 50 0) (S754_finite false 200 1) step_image = Some (KLEIDICV_OK, mem') /\
    mem' 2005 = 255 /\ mem' 2006 = 0.
Proof.
  intros new. destruct (make_stack_ok (T := Z) 2 (fun _ => true) ltac:(lia) ltac:(done)) as (s0 & _ & He & Hce).
  destruct (canny_correct (block_stack 2 (fun _ => true)) (valid_stack 2) (stack_contents 2)
    (HS := block_stack_laws 2 (fun _ => true) ltac:(lia) (fun _ => eq_refl)) s0 true (fun _ => 4096) (fun _ => 0) new
    (1000, 16) (2000, 4) 4 4 (S754_finite false 50 0) (S754_finite false 200 1) step_image) as (fuel0 & Hrun).
  - assert (forall i, (i < 4)%nat -> exists p, areas new 4 4 !!! i = p /\ 10000 + Z.of_nat i * 10000 = p.1 /\ 0 < p.2 < 1000) as Hareas.
    { intros i Hi. destruct i as [|[|[|[|i]]]]; [..|lia]; eexists; (split; [vm_compute; reflexivity|split; [reflexivity|split; reflexivity]]). }
    constructor.
    + vm_compute. intuition discriminate.
    + intros i Hi. destruct (Hareas i Hi) as ([d n] & -> & Hd & Hn). cbn [fst snd] in *. lia.
    + intros i j a Hi Hj. unfold in_area, region. destruct (Hareas i Hi) as (p & -> & Hd & Hn), (Hareas j Hj) as (q & -> & Hd' & Hn'). lia.
    + split; [done|]. intros y x Hy Hx. unfold pixel_address. cbn [fst snd]. split.
      * unfold byte, step_image. destruct (_ && _); lia.
      * intros i Hi. unfold in_area, region. destruct (Hareas i Hi) as (p & -> & Hd & Hn). lia.
    + split; [done|]. split; [unfold in_address_space; cbn [fst snd]; lia|]. split.
      * intros y x y' x' Hy Hx Hy' Hx'. unfold pixel_address. cbn [fst snd]. lia.
      * intros y x Hy Hx i Hi. unfold in_area, region, pixel_address. cbn [fst snd]. destruct (Hareas i Hi) as (p & -> & Hd & Hn). lia.
  - reflexivity.
  - split; [discriminate|reflexivity].
  - split; discriminate.
  - exact He.
  - exact Hce.
  - destruct (Hrun fuel0 (le_n _)) as (mem' & Hc & Hpix & _). exists s0, fuel0, mem'. split; [exact Hc|]. split.
    + destruct (Hpix 1 1 ltac:(lia) ltac:(lia)) as [[Hv _]|[_ Hn]]; [exact Hv|]. exfalso. apply Hn.
      apply strong_edge; vm_compute; reflexivity.
    + destruct (Hpix 1 2 ltac:(lia) ltac:(lia)) as [[_ Hn]|[Hv _]]; [|exact Hv]. exfalso.
      assert (ridge true 50 4 4 (load_image 1 (1000, 16) 4 4 step_image) 1 2 = 0) as Hr by (vm_compute; reflexivity).
      change (f_trunc (S754_finite false 50 0)) with 50 in Hn. change (f_trunc (S754_finite false 200 1)) with 400 in Hn.
      inversion Hn as [? ? _ Hs|? ? ? ? _ _ Hs _ _]; rewrite Hr in Hs; lia.
Defined.
