(* ===== verification/ThreadFilters.v ===== *)
(** * Threaded filters

    The wrappers of [kleidicv_thread.cpp] for the filters: the arguments are validated
    once, then every batch of rows runs a stripe function, which allocates a workspace of
    its own.  The state is the destination, or [None] after a stripe without a result. *)

From S2P Require Import Prelude CTypes Utils Border FixedBorders Filter2D Separable SeparableKernels SeparableApi.
From S2P Require Import SeparableFilter2D GaussianBlur Network MedianNetworks MedianBlur ParallelBatches.

Definition image : Type := Z * Z -> Z.

(** Rows [y_begin, y_end) of an image; [None] is a stripe without a result. *)
Definition stripe_function : Type := Z -> Z -> image -> option (kleidicv_error_t * image).

Section wrappers.
Variable parallel : range_callback (option image) -> Z -> option image -> kleidicv_error_t * option image.
(** The dispatch that [resolve_parallel_batches_dispatch] selects: the CPU only, or hybrid
    with the answers of the limiter. *)
Variable dispatch : option (Z -> Z -> bool).

Definition stripe_callback (stripe : stripe_function) : range_callback (option image) := fun y_begin y_end st =>
  match st with
  | None => (KLEIDICV_OK, None)
  | Some dst =>
      match stripe y_begin y_end dst with
      | None => (KLEIDICV_OK, None)
      | Some (err, dst) => (err, Some dst)
      end
  end.

Definition parallel_batches_with_sme (cpu_callback sme_callback : range_callback (option image))
    (count : Z) : option image -> kleidicv_error_t * option image :=
  match dispatch with
  | None => parallel_batches_cpu_only parallel cpu_callback sme_callback count 1
  | Some accepts => parallel_batches_hybrid parallel accepts cpu_callback sme_callback count 1
  end.

(** What the wrappers share: [validation], then the stripes over all rows. *)
Definition threaded_filter {V} (validation : kleidicv_error_t * V) (stripe sme_stripe : V -> stripe_function)
    (height : Z) (dst : image) : kleidicv_error_t * option image :=
  match validation with
  | (KLEIDICV_OK, v) => parallel_batches_with_sme (stripe_callback (stripe v)) (stripe_callback (sme_stripe v)) height (Some dst)
  | (error, _) => (error, Some dst)
  end.

(** What the two Sobel wrappers share. *)
Definition kleidicv_thread_sobel_3x3_s16_u8
    (StripeFunction : Z -> Z -> Z -> Z -> Z -> image -> image -> option (kleidicv_error_t * image))
    (sme_stripe : stripe_function) (src src_stride dst dst_stride width height channels : Z) (src_image : image) :=
  threaded_filter (Sobel.sobel_validate src src_stride dst dst_stride width height channels, tt)
    (fun _ y_begin y_end => StripeFunction channels width height y_begin y_end src_image) (fun _ => sme_stripe) height.

Definition kleidicv_thread_sobel_3x3_horizontal_s16_u8 malloc buffer :=
  kleidicv_thread_sobel_3x3_s16_u8 (Sobel.sobel_3x3_horizontal_stripe_s16_u8 malloc buffer).
Definition kleidicv_thread_sobel_3x3_vertical_s16_u8 malloc buffer :=
  kleidicv_thread_sobel_3x3_s16_u8 (Sobel.sobel_3x3_vertical_stripe_s16_u8 malloc buffer).

(** [kleidicv_thread_separable_filter_2d_u8] and [_u16]. *)
Definition kleidicv_thread_separable_filter_2d (sizeof : Z) malloc buffer
    (sme_stripe : FixedBorderType -> stripe_function) (src src_stride dst dst_stride width height channels : Z)
    (kernel_x : Z * list Z) (kernel_width : Z) (kernel_y : Z * list Z) (kernel_height : Z)
    (border_type : kleidicv_border_type_t) (src_image : image) :=
  threaded_filter
    (SeparableFilter2DApi.separable_filter_2d_validate sizeof src src_stride dst dst_stride width height channels
      kernel_x.1 kernel_width kernel_y.1 kernel_height border_type)
    (fun fixed_border_type y_begin y_end =>
      SeparableFilter2DApi.separable_filter_2d_stripe sizeof malloc buffer channels width height kernel_x.2 kernel_y.2
        fixed_border_type y_begin y_end src_image)
    sme_stripe height.

(** [kleidicv_thread_gaussian_blur_u8]; the stripe for the sizes without a fixed
    implementation is an argument, and is not dispatched to SME. *)
Definition kleidicv_thread_gaussian_blur_u8 std_exp malloc buffer
    (arbitrary_stripe sme_stripe : FixedBorderType -> stripe_function)
    (src src_stride dst dst_stride width height channels kernel_width kernel_height : Z) (sigma_x sigma_y : float32)
    (border_type : kleidicv_border_type_t) (src_image : image) :=
  let validation := gaussian_blur_validate src src_stride dst dst_stride width height channels kernel_width kernel_height
    sigma_x sigma_y border_type in
  if has_fixed_size kernel_width then
    threaded_filter validation
      (fun fixed_border_type y_begin y_end =>
        gaussian_blur_fixed_stripe_u8 std_exp malloc buffer channels width height fixed_border_type
          kernel_width sigma_x y_begin y_end src_image)
      sme_stripe height
  else threaded_filter validation arbitrary_stripe arbitrary_stripe height.

(** [kleidicv_thread_median_blur_s16] and the wrappers of the other types; for [uint8_t]
    the kernels above 7x7, by histograms, are arguments and are not dispatched to SME. *)
Definition kleidicv_thread_median_blur (T : element_type)
    (small_hist_stripe large_hist_stripe sme_stripe : FixedBorderType -> stripe_function)
    (src src_stride dst dst_stride width height channels kernel_width kernel_height : Z)
    (border_type : kleidicv_border_type_t) (src_image : image) :=
  let validation := median_blur_validate T src src_stride dst dst_stride width height channels kernel_width kernel_height
    border_type in
  let network fixed_border_type y_begin y_end dst :=
    median_blur_sorting_network_stripe T src_image dst width height y_begin y_end channels kernel_width fixed_border_type in
  match T with
  | U8 =>
      if kernel_width <=? 7 then threaded_filter validation network sme_stripe height
      else if kernel_width <=? 15 then threaded_filter validation small_hist_stripe small_hist_stripe height
      else threaded_filter validation large_hist_stripe large_hist_stripe height
  | _ => threaded_filter validation network sme_stripe height
  end.
End wrappers.

(** ** Schedules of stripes *)

Lemma run_schedule_related {S1 S2} (R : S1 -> S2 -> Prop) (cb1 : range_callback S1) (cb2 : range_callback S2) schedule :
  (forall b e s1 s2, (b, e) ∈ schedule -> R s1 s2 ->
    is_ok (cb1 b e s1).1 = is_ok (cb2 b e s2).1 /\ R (cb1 b e s1).2 (cb2 b e s2).2) ->
  forall s1 s2, R s1 s2 ->
    (run_schedule cb1 schedule s1).1 = (run_schedule cb2 schedule s2).1 /\
    R (run_schedule cb1 schedule s1).2 (run_schedule cb2 schedule s2).2.
Proof.
  induction schedule as [|[b e] schedule IH]; intros Hcb s1 s2 HR; [by split|]. cbn [run_schedule].
  destruct (Hcb b e s1 s2 ltac:(by left) HR) as [Ho HR1].
  destruct (cb1 b e s1) as [e1 s1'], (cb2 b e s2) as [e2 s2']. cbn [fst snd] in Ho, HR1.
  destruct (IH (fun b e s1 s2 Hin => Hcb b e s1 s2 (proj2 (elem_of_cons _ _ _) (or_intror Hin))) s1' s2' HR1) as [Ho2 HR2].
  destruct (run_schedule cb1 schedule s1') as [o1 t1], (run_schedule cb2 schedule s2') as [o2 t2].
  cbn [fst snd] in *. by rewrite Ho, Ho2.
Qed.

(** What the stripes promise: rows of [g], or without memory an error and nothing else. *)
Definition stripe_contract (stripe : stripe_function) (allocated : bool) (g : image) (height elements : Z) : Prop :=
  forall y_begin y_end dst, 0 <= y_begin < y_end -> y_end <= height ->
    exists dst', stripe y_begin y_end dst = Some (if allocated then KLEIDICV_OK else KLEIDICV_ERROR_ALLOCATION, dst') /\
      forall y e, dst' (y, e) =
        if allocated && ((y_begin <=? y) && (y <? y_end) && (0 <=? e) && (e <? elements)) then g (y, e) else dst (y, e).

(** The row of an element of the destination. *)
Definition image_row (elements : Z) (a : Z * Z) : option Z :=
  if (0 <=? a.2) && (a.2 <? elements) then Some a.1 else None.

(** The destination a filter leaves: filtered if the workspaces were allocated. *)
Definition filtered_image (allocated : bool) (g : image) (height elements : Z) (dst dst' : image) : Prop :=
  forall y e, dst' (y, e) =
    if allocated && ((0 <=? y) && (y <? height) && (0 <=? e) && (e <? elements)) then g (y, e) else dst (y, e).

Section stripes.
Context (allocated : bool) (g : image) (height elements : Z).
Hypothesis height_range : 0 < height < 2 ^ 64.

(** The stripes as they act on the destination alone. *)
Definition pure_callback : range_callback image := fun b e s =>
  (if allocated then KLEIDICV_OK else KLEIDICV_ERROR_ALLOCATION,
   fun a => if allocated && in_rows (image_row elements) (b, e) a then g a else s a).

Lemma in_image_rows b e y x :
  in_rows (image_row elements) (b, e) (y, x) = (b <=? y) && (y <? e) && (0 <=? x) && (x <? elements).
Proof. unfold in_rows, image_row, task_in. cbn [fst snd]. case_cmp; cbn [andb]; done || lia. Qed.

Lemma stripe_as_pure stripe b e dst s : stripe_contract stripe allocated g height elements -> 0 <= b < e -> e <= height ->
  (forall a, dst a = s a) ->
  exists dst', (stripe_callback stripe b e (Some dst)).2 = Some dst' /\ (forall a, dst' a = (pure_callback b e s).2 a) /\
    is_ok (stripe_callback stripe b e (Some dst)).1 = is_ok (pure_callback b e s).1.
Proof.
  intros Hc Hb He Heq. destruct (Hc b e dst Hb He) as (dst' & Hs & Hd).
  unfold stripe_callback. rewrite Hs. cbn [fst snd]. exists dst'. split; [done|]. split; [|unfold pure_callback; by destruct allocated].
  intros [y x]. rewrite Hd. cbn [pure_callback snd]. rewrite in_image_rows, Heq. done.
Qed.

Lemma pure_schedule schedule s : covers (task_count height 1) schedule -> no_empty_range schedule ->
  let r := run_schedule (kleidicv_thread_batch_callback pure_callback height 1 (task_count height 1)) schedule s in
  r.1 = allocated /\ filtered_image allocated g height elements s r.2.
Proof.
  intros Hcov Hne. cbv zeta. destruct allocated eqn:Hal.
  - destruct (run_schedule_rows (image_row elements) g height 1 pure_callback schedule s) as [H1 H2];
      [lia|lia| |apply Hcov|done|].
    { intros b e s' _ _ _. unfold pure_callback. rewrite Hal. split; [done|]. by intros a. }
    split; [exact H1|]. intros y e. rewrite H2. rewrite <- (in_image_rows 0 height y e). cbn [andb].
    unfold in_schedule, in_rows. destruct (image_row elements (y, e)) as [row|]; [|done].
    change (task_in row (0, height)) with ((0 <=? row) && (row <? height)).
    destruct ((0 <=? row) && (row <? height)) eqn:Hr; [|done]. cbn [andb].
    rewrite (covers_task height 1 schedule row); [done|lia| |done]. revert Hr. case_cmp; cbn; done || lia.
  - assert (forall schedule s, let r := run_schedule (kleidicv_thread_batch_callback pure_callback height 1
      (task_count height 1)) schedule s in (schedule <> [] -> r.1 = false) /\ forall a, r.2 a = s a) as Hrun.
    { clear schedule s Hcov Hne. induction schedule as [|[b e] schedule IH]; intros s; [done|].
      cbn [run_schedule]. unfold kleidicv_thread_batch_callback at 1 3. destruct (batch_bounds _ _ _ _ _) as [b' e'].
      unfold pure_callback at 1 3. rewrite Hal. destruct (IH (fun a => if false && in_rows (image_row elements) (b', e') a then g a else s a)) as [_ H2].
      destruct (run_schedule _ schedule _) as [o t]. cbn [fst snd is_ok andb] in *. done. }
    destruct (Hrun schedule s) as [H1 H2]. split; [|by intros y e; apply H2].
    apply H1. intros ->. destruct Hcov as [_ Hcov]. specialize (Hcov 0). cbn in Hcov. unfold task_count in Hcov. lia.
Qed.

(** The stripes under a schedule of the caller. *)
Lemma stripes_run parallel dispatch stripe sme_stripe dst :
  lawful no_empty_range parallel ->
  stripe_contract stripe allocated g height elements ->
  (dispatch <> None -> stripe_contract sme_stripe allocated g height elements) ->
  exists err dst', parallel_batches_with_sme parallel dispatch (stripe_callback stripe) (stripe_callback sme_stripe) height (Some dst)
      = (err, Some dst') /\ is_ok err = allocated /\ filtered_image allocated g height elements dst dst'.
Proof.
  intros Hlaw Hcpu Hsme.
  set (cb := match dispatch with None => stripe_callback stripe
    | Some accepts => fun b e s => if accepts b e then stripe_callback sme_stripe b e s else stripe_callback stripe b e s end).
  assert (parallel_batches_with_sme parallel dispatch (stripe_callback stripe) (stripe_callback sme_stripe) height (Some dst)
    = parallel_batches parallel cb height 1 (Some dst)) as -> by (unfold cb, parallel_batches_with_sme; by destruct dispatch).
  assert (forall b e dst s, 0 <= b < e -> e <= height -> (forall a, dst a = s a) ->
    exists dst', (cb b e (Some dst)).2 = Some dst' /\ (forall a, dst' a = (pure_callback b e s).2 a) /\
      is_ok (cb b e (Some dst)).1 = is_ok (pure_callback b e s).1) as Hcb.
  { intros b e d s Hb He Heq. unfold cb. destruct dispatch as [accepts|]; [destruct (accepts b e)|];
      apply stripe_as_pure; auto. }
  clearbody cb. unfold parallel_batches.
  destruct (Hlaw (kleidicv_thread_batch_callback cb height 1 (task_count height 1)) (task_count height 1) (Some dst))
    as (schedule & Hcov & Hne & Hs & Hok).
  destruct (run_schedule_related (fun (o : option image) (s : image) => exists d, o = Some d /\ forall a, d a = s a)
    (kleidicv_thread_batch_callback cb height 1 (task_count height 1))
    (kleidicv_thread_batch_callback pure_callback height 1 (task_count height 1)) schedule) with (s1 := Some dst) (s2 := dst)
    as [Ho (d & Hd & Hda)]; [|by exists dst|].
  - intros b e s1 s2 Hin (d & -> & Hd). unfold kleidicv_thread_batch_callback.
    destruct Hcov as [Hr _]. rewrite Forall_forall in Hr. specialize (Hr _ Hin). cbn [fst snd] in Hr.
    unfold no_empty_range in Hne. rewrite Forall_forall in Hne. specialize (Hne _ Hin). cbn [fst snd] in Hne.
    pose proof (batch_bounds_spec height 1 b e ltac:(lia) ltac:(lia) ltac:(lia) ltac:(lia)) as Hspec.
    destruct (batch_bounds height 1 (task_count height 1) b e) as [b' e']. destruct Hspec as (_ & _ & Hb' & He' & Hlt).
    destruct (Hcb b' e' d s2) as (d' & H1 & H2 & H3); [lia|lia|done|]. split; [done|]. by exists d'.
  - destruct (pure_schedule schedule dst Hcov Hne) as [Hp1 Hp2].
    destruct (parallel _ _ _) as [err o]. cbn [fst snd] in *.
    exists err, d. rewrite Hs, Hd. split; [done|]. split; [by rewrite Hok, Ho|].
    intros y e. rewrite Hda. apply Hp2.
Qed.
End stripes.

(** ** The threaded filters *)

(** The SME stripe computes what the Neon stripe computes. *)
Definition same_stripes (stripe sme_stripe : stripe_function) (height : Z) : Prop :=
  forall y_begin y_end dst, 0 <= y_begin < y_end -> y_end <= height ->
    match stripe y_begin y_end dst, sme_stripe y_begin y_end dst with
    | Some (err, dst1), Some (err', dst2) => err' = err /\ forall a, dst2 a = dst1 a
    | _, _ => False
    end.

Lemma same_contract stripe sme_stripe allocated g height elements : same_stripes stripe sme_stripe height ->
  stripe_contract stripe allocated g height elements -> stripe_contract sme_stripe allocated g height elements.
Proof.
  intros Hsame Hc b e dst Hb He. destruct (Hc b e dst Hb He) as (dst1 & Heq & Hd). specialize (Hsame b e dst Hb He).
  rewrite Heq in Hsame. destruct (sme_stripe b e dst) as [[err dst2]|]; [|done]. destruct Hsame as [-> H2].
  exists dst2. split; [done|]. intros y x. by rewrite H2, Hd.
Qed.

(** A threaded call leaves what the single-threaded call leaves, and returns what it
    returns; after a failed allocation the error is the one of the scheduler. *)
Definition same_outcome (single : option (kleidicv_error_t * image)) (threaded : kleidicv_error_t * option image) : Prop :=
  exists err dst1 err' dst2, single = Some (err, dst1) /\ threaded = (err', Some dst2) /\
    (err' = err \/ err = KLEIDICV_ERROR_ALLOCATION /\ err' <> KLEIDICV_OK) /\ forall a, dst2 a = dst1 a.

Lemma threaded_filter_equals_single {V} parallel dispatch (validation : kleidicv_error_t * V) stripe sme_stripe height dst single :
  lawful no_empty_range parallel ->
  single = match validation with (KLEIDICV_OK, v) => stripe v 0 height dst | (error, _) => Some (error, dst) end ->
  (forall v, validation = (KLEIDICV_OK, v) -> 0 < height < 2 ^ 64 /\
    (exists allocated g elements, stripe_contract (stripe v) allocated g height elements) /\
    (dispatch <> None -> same_stripes (stripe v) (sme_stripe v) height)) ->
  same_outcome single (threaded_filter parallel dispatch validation stripe sme_stripe height dst).
Proof.
  intros Hlaw -> Hv. unfold threaded_filter. destruct validation as [err v]. destruct (decide (err = KLEIDICV_OK)) as [->|Herr].
  - destruct (Hv v eq_refl) as (Hh & (al & g & n & Hc) & Hsme).
    destruct (Hc 0 height dst ltac:(lia) ltac:(lia)) as (dst1 & Heq & Hd1).
    destruct (stripes_run al g height n Hh parallel dispatch (stripe v) (sme_stripe v) dst Hlaw Hc)
      as (err' & dst2 & Heq2 & Hok & Hd2); [intros Hs; by apply (same_contract (stripe v)); [apply Hsme|]|].
    exists (if al then KLEIDICV_OK else KLEIDICV_ERROR_ALLOCATION), dst1, err', dst2. split; [done|]. split; [done|]. split.
    + destruct al; [left; by destruct err'|right; split; [done|]]. by intros ->.
    + intros [y e]. by rewrite Hd1, Hd2.
  - exists err, dst, err, dst. destruct err; done || (split; [done|]; split; [done|]; split; [by left|done]).
Qed.

(** A call outcome for every stripe is the contract. *)
Lemma outcome_contract (stripe : stripe_function) allocated (g : image) height elements :
  (forall y_begin y_end dst, 0 <= y_begin < y_end -> y_end <= height ->
    call_outcome True allocated (fun dst' => forall y e, dst' (y, e) =
      if (y_begin <=? y) && (y <? y_end) && (0 <=? e) && (e <? elements) then g (y, e) else dst (y, e)) dst
      (stripe y_begin y_end dst)) ->
  stripe_contract stripe allocated g height elements.
Proof.
  intros Ho b e dst Hb He. destruct (Ho b e dst Hb He) as (err & dst' & -> & [(_ & -> & -> & Hd)|[(_ & -> & -> & ->)|[Hf _]]]);
    [by exists dst'|by exists dst|by destruct Hf].
Qed.

Section calls.
Context (parallel : range_callback (option image) -> Z -> option image -> kleidicv_error_t * option image).
Context (dispatch : option (Z -> Z -> bool)) (malloc : Z -> Z) (buffer : Z * Z -> Z) (src_image dst_image : image).
Hypothesis scheduler : lawful no_empty_range parallel.

Lemma threaded_sobel F weights_y weights_x sme src ss dst ds width height channels :
  SeparableLaws 3 16 8 F byte (fun w b => b = dot weights_y w) (fun ws => dot weights_x (map (dot weights_y) ws)) ->
  0 <= width -> 0 <= height -> 1 <= channels -> (forall a, byte (src_image a)) ->
  let stripe channels width height := separable_stripe K3 F 16 8 2 malloc buffer channels width height REPLICATE in
  (dispatch <> None -> same_stripes (fun b e => stripe channels width height b e src_image) sme height) ->
  same_outcome (Sobel.sobel_3x3_s16_u8 stripe src ss dst ds width height channels src_image dst_image)
    (kleidicv_thread_sobel_3x3_s16_u8 parallel dispatch stripe sme src ss dst ds width height channels src_image dst_image).
Proof.
  intros Hlaws Hw Hh Hc Hv stripe Hsme. unfold Sobel.sobel_3x3_s16_u8, kleidicv_thread_sobel_3x3_s16_u8.
  apply threaded_filter_equals_single; [done|by destruct (Sobel.sobel_validate _ _ _ _ _ _ _)|].
  intros [] [= Hval]. apply Sobel.sobel_validate_accepts in Hval as (Hw2 & Hh2 & _ & _ & _ & Hsz & Hch); [|done|done].
  unfold KLEIDICV_MAXIMUM_CHANNEL_COUNT, KLEIDICV_MAX_IMAGE_PIXELS in *. change (Z.shiftl 1 48 - 1) with (2 ^ 48 - 1) in Hsz.
  split; [nia|]. split; [|exact Hsme].
  exists (allocated malloc width channels 2), (separable_reference 3 (fun ws => dot weights_x (map (dot weights_y) ws)) channels
    width height REPLICATE src_image), (width * channels). apply outcome_contract. intros b e d Hb He.
  apply (separable_stripe_correct K3 F 16 8 2 _ _ _ _ _ _ _ _ _ _ _ _ _ _ Hlaws); cbn [size_of]; done || lia.
Qed.

Lemma threaded_separable sizeof kx ky sme src ss dst ds width height channels px kw py kh border_type :
  sizeof = 1 \/ sizeof = 2 ->
  length kx = 5%nat /\ Forall (element (8 * sizeof)) kx -> length ky = 5%nat /\ Forall (element (8 * sizeof)) ky ->
  (forall a, element (8 * sizeof) (src_image a)) -> 0 <= width -> 0 <= height -> 1 <= channels ->
  (dispatch <> None -> forall bt, same_stripes (fun b e => SeparableFilter2DApi.separable_filter_2d_stripe sizeof malloc buffer
    channels width height kx ky bt b e src_image) (sme bt) height) ->
  same_outcome
    (SeparableFilter2DApi.separable_filter_2d sizeof malloc buffer src ss dst ds width height channels (px, kx) kw (py, ky) kh
      border_type src_image dst_image)
    (kleidicv_thread_separable_filter_2d parallel dispatch sizeof malloc buffer sme src ss dst ds width height channels
      (px, kx) kw (py, ky) kh border_type src_image dst_image).
Proof.
  intros Hs Hkx Hky Hv Hw Hh Hc Hsme. unfold SeparableFilter2DApi.separable_filter_2d, kleidicv_thread_separable_filter_2d.
  apply threaded_filter_equals_single; [done|done|]. intros bt Hval. cbn [fst snd] in Hval.
  apply (SeparableFilter2DApi.validate_accepts sizeof malloc buffer kx ky border_type src_image Hs Hkx Hky) in Hval as (_ & _ & Hw4 & Hh4 & Hbt & _ & _ & _ & _ & _ & Hsz & Hch); [|done|done].
  unfold KLEIDICV_MAXIMUM_CHANNEL_COUNT, KLEIDICV_MAX_IMAGE_PIXELS in *. change (Z.shiftl 1 48 - 1) with (2 ^ 48 - 1) in Hsz.
  split; [nia|]. split; [|intros Hd; by apply Hsme].
  exists (allocated malloc width channels (2 * sizeof)), (separable_reference 5 (saturated_convolution (8 * sizeof) kx ky) channels
    width height bt src_image), (width * channels). apply outcome_contract. intros b e d Hb He.
  apply (SeparableFilter2DApi.stripe_run sizeof malloc buffer kx ky src_image Hs Hkx Hky Hv); done || lia.
Qed.

Lemma threaded_gaussian std_exp arbitrary sme src ss dst ds width height channels kw kh sx sy border_type :
  0 <= width -> 0 <= height -> 1 <= channels -> has_fixed_size kw = true -> (forall a, byte (src_image a)) ->
  (forall k, size_of k = kw -> weights_ok std_exp k sx) ->
  (dispatch <> None -> forall bt, same_stripes (fun b e => gaussian_blur_fixed_stripe_u8 std_exp malloc buffer channels width height
    bt kw sx b e src_image) (sme bt) height) ->
  same_outcome
    (gaussian_blur_u8 std_exp malloc buffer (fun _ _ _ _ _ bt _ => arbitrary bt 0 height) src ss dst ds width height channels kw kh
      sx sy border_type src_image dst_image)
    (kleidicv_thread_gaussian_blur_u8 parallel dispatch std_exp malloc buffer arbitrary sme src ss dst ds width height channels kw kh
      sx sy border_type src_image dst_image).
Proof.
  intros Hw Hh Hc Hf Hv Hok Hsme. unfold gaussian_blur_u8, kleidicv_thread_gaussian_blur_u8. rewrite Hf.
  apply threaded_filter_equals_single; [done|done|]. intros bt Hval.
  apply gaussian_validate_accepts in Hval as (k & -> & _ & _ & Hw1 & Hh1 & Hch & _ & _ & Hsz & Hbt); [|done..].
  assert (2 <= size_of k - 1) by (destruct k; cbn; lia).
  unfold KLEIDICV_MAXIMUM_CHANNEL_COUNT in *. split; [unfold KLEIDICV_MAX_IMAGE_PIXELS in *; change (Z.shiftl 1 48 - 1) with (2 ^ 48 - 1) in Hsz; nia|].
  split; [|intros Hd; by apply Hsme].
  exists (allocated malloc width channels (intermediate_size (size_of k) sx)),
    (match gaussian_result std_exp k sx with
     | Some result => separable_reference (size_of k) result channels width height bt src_image
     | None => src_image end), (width * channels).
  apply outcome_contract. intros b e d Hb He.
  pose proof (fixed_stripe_run std_exp malloc buffer channels width height bt ltac:(lia) Hsz k b e src_image d True Hw1 Hh1
    ltac:(lia) Hv I sx (Hok k eq_refl)) as Ho. unfold blurred_rows in Ho.
  destruct (gaussian_result std_exp k sx); exact Ho.
Qed.

Lemma threaded_median T small large sme src ss dst ds width height channels kw kh border_type :
  T <> U8 -> 0 <= width < 2 ^ 64 -> 0 <= height < 2 ^ 64 -> 1 <= channels -> 0 <= kw < 2 ^ 64 -> 0 <= kh < 2 ^ 64 ->
  (dispatch <> None -> forall bt, same_stripes (fun b e d => median_blur_sorting_network_stripe T src_image d width height b e
    channels kw bt) (sme bt) height) ->
  same_outcome (median_blur T src ss dst ds width height channels kw kh border_type src_image dst_image)
    (kleidicv_thread_median_blur parallel dispatch T small large sme src ss dst ds width height channels kw kh border_type
      src_image dst_image).
Proof.
  intros HT Hw Hh Hc Hkw Hkh Hsme. unfold median_blur.
  assert (kleidicv_thread_median_blur parallel dispatch T small large sme src ss dst ds width height channels kw kh border_type
    src_image dst_image = threaded_filter parallel dispatch
      (median_blur_validate T src ss dst ds width height channels kw kh border_type)
      (fun bt b e d => median_blur_sorting_network_stripe T src_image d width height b e channels kw bt) sme height dst_image) as ->
    by (by destruct T).
  apply threaded_filter_equals_single; [done|by destruct (median_blur_validate _ _ _ _ _ _ _ _ _ _ _) as [[] ?]|].
  intros bt Hval. apply median_blur_validate_accepts in Hval as (_ & _ & _ & _ & Hsz & Hch & <- & Hk & Hw1 & Hh1 & _); [|done|lia..].
  unfold KLEIDICV_MAX_IMAGE_PIXELS in Hsz. change (Z.shiftl 1 48 - 1) with (2 ^ 48 - 1) in Hsz.
  assert (exists k, size_of k = kw /\ (k = K3 \/ k = K5 \/ k = K7)) as (k & <- & Hkk)
    by (destruct Hk as [->|[->| ->]]; [exists K3|exists K5|exists K7]; simpl; auto).
  assert (2 <= width /\ 2 <= height /\ width < 2 ^ 48 /\ height < 2 ^ 48) as (? & ? & ? & ?)
    by (assert (3 <= size_of k) by (destruct k; simpl; lia); nia).
  split; [lia|]. split; [|intros Hd; by apply Hsme].
  exists true, (fun a => median_at k channels width height bt src_image a.1 a.2), (width * channels). intros b e d Hb He.
  destruct (stripe_medians T k src_image d width height b e channels bt) as (d' & Heq & Hd); try done; try lia; [nia|].
  exists d'. split; [exact Heq|]. exact Hd.
Qed.
End calls.

(** C19: the threaded Sobel filters, 5x5 separable filter, Gaussian blur with a fixed kernel
    and median blur with sorting networks return what the single-threaded calls return and
    leave the same destination, for every scheduler that keeps the documented contract with
    non-empty ranges, with and without the SME dispatch, whichever batches the limiter
    accepts; the stripes allocate for themselves, and when they cannot both calls fail and
    leave the destination alone. *)
Theorem threaded_filters_equal_single parallel dispatch malloc buffer (src_image dst_image : image) src ss dst ds
    width height channels :
  lawful no_empty_range parallel -> 0 <= width < 2 ^ 64 -> 0 <= height < 2 ^ 64 -> 1 <= channels ->
  ((forall a, byte (src_image a)) -> forall stripe threaded sme,
    (stripe, threaded) ∈
      [(Sobel.sobel_3x3_horizontal_stripe_s16_u8 malloc buffer, kleidicv_thread_sobel_3x3_horizontal_s16_u8 parallel dispatch malloc buffer);
       (Sobel.sobel_3x3_vertical_stripe_s16_u8 malloc buffer, kleidicv_thread_sobel_3x3_vertical_s16_u8 parallel dispatch malloc buffer)] ->
    (dispatch <> None -> same_stripes (fun b e => stripe channels width height b e src_image) sme height) ->
    same_outcome (Sobel.sobel_3x3_s16_u8 stripe src ss dst ds width height channels src_image dst_image)
      (threaded sme src ss dst ds width height channels src_image dst_image)) /\
  (forall sizeof kx ky sme px kw py kh border_type, sizeof = 1 \/ sizeof = 2 ->
    length kx = 5%nat /\ Forall (element (8 * sizeof)) kx -> length ky = 5%nat /\ Forall (element (8 * sizeof)) ky ->
    (forall a, element (8 * sizeof) (src_image a)) ->
    (dispatch <> None -> forall bt, same_stripes (fun b e => SeparableFilter2DApi.separable_filter_2d_stripe sizeof malloc buffer
      channels width height kx ky bt b e src_image) (sme bt) height) ->
    same_outcome
      (SeparableFilter2DApi.separable_filter_2d sizeof malloc buffer src ss dst ds width height channels (px, kx) kw (py, ky) kh
        border_type src_image dst_image)
      (kleidicv_thread_separable_filter_2d parallel dispatch sizeof malloc buffer sme src ss dst ds width height channels
        (px, kx) kw (py, ky) kh border_type src_image dst_image)) /\
  (forall std_exp arbitrary sme kw kh sx sy border_type, has_fixed_size kw = true -> (forall a, byte (src_image a)) ->
    (forall k, size_of k = kw -> weights_ok std_exp k sx) ->
    (dispatch <> None -> forall bt, same_stripes (fun b e => gaussian_blur_fixed_stripe_u8 std_exp malloc buffer channels width
      height bt kw sx b e src_image) (sme bt) height) ->
    same_outcome
      (gaussian_blur_u8 std_exp malloc buffer (fun _ _ _ _ _ bt _ => arbitrary bt 0 height) src ss dst ds width height channels
        kw kh sx sy border_type src_image dst_image)
      (kleidicv_thread_gaussian_blur_u8 parallel dispatch std_exp malloc buffer arbitrary sme src ss dst ds width height channels
        kw kh sx sy border_type src_image dst_image)) /\
  (forall T small large sme kw kh border_type, T <> U8 -> 0 <= kw < 2 ^ 64 -> 0 <= kh < 2 ^ 64 ->
    (dispatch <> None -> forall bt, same_stripes (fun b e d => median_blur_sorting_network_stripe T src_image d width height b e
      channels kw bt) (sme bt) height) ->
    same_outcome (median_blur T src ss dst ds width height channels kw kh border_type src_image dst_image)
      (kleidicv_thread_median_blur parallel dispatch T small large sme src ss dst ds width height channels kw kh border_type
        src_image dst_image)).
Proof.
  intros Hlaw Hw Hh Hc. split; [|split; [|split]].
  - intros Hv stripe threaded sme Hcall Hsme. rewrite !elem_of_cons, elem_of_nil in Hcall.
    destruct Hcall as [[= -> ->]|[[= -> ->]|[]]].
    + apply (threaded_sobel _ _ _ _ _ _ Hlaw _ [1; 2; 1] [-1; 0; 1]); auto using horizontal_sobel_laws; lia.
    + apply (threaded_sobel _ _ _ _ _ _ Hlaw _ [-1; 0; 1] [1; 2; 1]); auto using vertical_sobel_laws; lia.
  - intros. apply threaded_separable; auto; lia.
  - intros. apply threaded_gaussian; auto; lia.
  - intros. by apply threaded_median.
Qed.

(** A diagonal edge under a scheduler that runs the rows in reverse order, the SME limiter
    accepting every other row. *)
Lemma threaded_filters_equal_single_witness :
  let stripe := Sobel.sobel_3x3_horizontal_stripe_s16_u8 (fun _ => 4096) (fun _ => 7) in
  let src_image : image := fun a => if a.1 <? a.2 then 255 else 0 in
  exists dst', kleidicv_thread_sobel_3x3_horizontal_s16_u8 reverse_serial (Some (fun b _ => b mod 2 =? 0)) (fun _ => 4096)
      (fun _ => 7) (fun b e => stripe 1 20 4 b e src_image) 4096 20 8192 40 20 4 1 src_image (fun _ => 0) = (KLEIDICV_OK, Some dst') /\
    dst' (1, 1) = 765.
Proof.
  intros stripe src_image.
  assert (forall a, byte (src_image a)) as Hv by (intros [y e]; unfold byte, src_image; cbn; destruct (y <? e); lia).
  destruct (threaded_filters_equal_single reverse_serial (Some (fun b _ => b mod 2 =? 0)) (fun _ => 4096) (fun _ => 7) src_image
    (fun _ => 0) 4096 20 8192 40 20 4 1) as [Hsobel _]; [apply reverse_serial_lawful|lia|lia|lia|].
  pose proof (Sobel.sobel_run HorizontalSobel3x3.filter [1; 2; 1] [-1; 0; 1] (fun _ => 4096) (fun _ => 7) 4096 20 8192 40 20 4 1
    src_image (fun _ => 0) horizontal_sobel_laws ltac:(lia) ltac:(lia) ltac:(lia) Hv) as (err & d & Heq & Hcase).
  destruct (Hsobel Hv stripe _ (fun b e => stripe 1 20 4 b e src_image) ltac:(by left))
    as (err1 & dst1 & err2 & dst2 & H1 & H2 & H3 & H4).
  - intros _ b e dst Hb He.
    pose proof (separable_stripe_correct K3 HorizontalSobel3x3.filter 16 8 2 _ _ _ (fun _ => 4096) (fun _ => 7) 1 20 4 REPLICATE b e
      src_image dst True horizontal_sobel_laws Hv ltac:(lia) ltac:(lia) ltac:(lia) ltac:(cbn; lia) ltac:(cbn; lia)
      ltac:(clear; vm_compute; discriminate) ltac:(lia) ltac:(lia) I) as (er & d' & Hst & _).
    unfold stripe, Sobel.sobel_3x3_horizontal_stripe_s16_u8. rewrite Hst. split; [reflexivity|]. intros a. reflexivity.
  - assert (Some (err1, dst1) = Some (err, d)) as [= -> ->] by (rewrite <- H1; exact Heq).
    destruct Hcase as [(_ & _ & -> & Hd)|[(_ & Hf & _)|(Hn & _)]].
    + destruct H3 as [->|[? _]]; [|done]. exists dst2. split; [exact H2|]. rewrite H4, Hd. vm_compute. reflexivity.
    + clear -Hf. vm_compute in Hf. discriminate.
    + exfalso. apply Hn. unfold Sobel.sobel_accepts. clear. repeat split; lia || (vm_compute; discriminate) || reflexivity.
Defined.
