(* ===== verification/VectorMemory.v ===== *)
(** * Vector loads and stores over a memory of elements

    A memory maps the address of an element of [sz] bytes to its value.  [vld1q], [vst1q]
    and the interleaving [vld2q] to [vst4q] read and write consecutive elements; [copy_n]
    and [swap_ranges] are those of the C++ library.  What a store does is said by [filled]:
    a range of elements gets new values and the rest stays. *)

From S2P Require Import Prelude CTypes Utils Loops Vectors.

Section memory.
Context (sz : Z).
Implicit Types (mem : Z -> Z).

(** [VecTraits::num_lanes] of 128-bit vectors. *)
Definition num_lanes : Z := 16 / sz.

(** [vld1q] and [vst1q] of a vector with [n] lanes. *)
Definition vld1q (n : Z) mem (address : Z) : list Z := map (fun k => mem (address + k * sz)) (seqZ 0 n).
Definition vst1q (address : Z) (v : list Z) mem : Z -> Z :=
  for_range 0 (Z.of_nat (length v)) (fun k mem => upd mem (address + k * sz) (v !!! Z.to_nat k)) mem.

(** [vld2q], [vld3q], [vld4q] and their stores: element [N * j + c] is lane [j] of vector [c]. *)
Definition vldNq (N n : Z) mem (address : Z) : list (list Z) :=
  map (fun c => map (fun j => mem (address + (N * j + c) * sz)) (seqZ 0 n)) (seqZ 0 N).
Definition vstNq (N n : Z) (address : Z) (vs : list (list Z)) mem : Z -> Z :=
  for_range 0 (N * n) (fun k mem =>
    upd mem (address + k * sz) ((vs !!! Z.to_nat (k mod N)) !!! Z.to_nat (k / N))) mem.

(** [std::copy_n] and [std::swap_ranges]. *)
Definition copy_n (src n dst : Z) mem : Z -> Z :=
  for_range 0 n (fun k mem => upd mem (dst + k * sz) (mem (src + k * sz))) mem.
Definition swap_ranges (a n b : Z) mem : Z -> Z :=
  for_range 0 n (fun k mem =>
    let x := mem (a + k * sz) in upd (upd mem (a + k * sz) (mem (b + k * sz))) (b + k * sz) x) mem.

Hypothesis sz_pos : 0 < sz.

(** The elements [lo, hi) from [base] have the values of [value], all else is as before. *)
Definition filled (base lo hi : Z) (value : Z -> Z) mem mem' : Prop :=
  (forall k, lo <= k < hi -> mem' (base + k * sz) = value k) /\
  (forall p, (forall k, lo <= k < hi -> p <> base + k * sz) -> mem' p = mem p).

Lemma element_inj base k k' : base + k * sz = base + k' * sz -> k = k'.
Proof. nia. Qed.

Lemma filled_none base lo value mem : filled base lo lo value mem mem.
Proof. split; [lia|done]. Qed.

Lemma filled_ext base lo hi v w mem mem' : (forall k, lo <= k < hi -> v k = w k) ->
  filled base lo hi v mem mem' -> filled base lo hi w mem mem'.
Proof. intros He [H1 H2]. split; [|done]. intros k Hk. by rewrite <- He, H1. Qed.

(** Two ranges that touch, in either order. *)
Lemma filled_join base lo1 hi1 lo2 hi2 lo hi value mem mem1 mem2 :
  (forall k, lo <= k < hi <-> lo1 <= k < hi1 \/ lo2 <= k < hi2) ->
  filled base lo1 hi1 value mem mem1 -> filled base lo2 hi2 value mem1 mem2 ->
  filled base lo hi value mem mem2.
Proof.
  intros Hr [H1 H2] [H3 H4]. split.
  - intros k Hk%Hr. destruct (decide (lo2 <= k < hi2)); [by apply H3|].
    rewrite H4; [apply H1; lia|]. intros k' Hk' Heq%element_inj. lia.
  - intros p Hp. rewrite H4, H2; [done| |]; intros k Hk; apply Hp, Hr; [by left|by right].
Qed.

(** A range given from another element of the same array. *)
Lemma filled_shift base d lo hi value mem mem' :
  filled (base + d * sz) lo hi value mem mem' -> filled base (d + lo) (d + hi) (fun k => value (k - d)) mem mem'.
Proof.
  intros [H1 H2]. split.
  - intros k Hk. rewrite <- H1 by lia. f_equal. lia.
  - intros p Hp. apply H2. intros k Hk ->. apply (Hp (d + k)); lia.
Qed.

(** A block of [n] elements from element [d] on, next to a filled range. *)
Lemma filled_extend base lo hi d n lo' hi' value w mem mem1 mem2 :
  (forall k, lo' <= k < hi' <-> lo <= k < hi \/ d <= k < d + n) -> (forall k, 0 <= k < n -> w k = value (d + k)) ->
  filled base lo hi value mem mem1 -> filled (base + d * sz) 0 n w mem1 mem2 -> filled base lo' hi' value mem mem2.
Proof.
  intros Hr Hw H1 H2. apply filled_shift in H2. rewrite Z.add_0_r in H2.
  eapply filled_join; [exact Hr|exact H1|]. eapply filled_ext; [|exact H2]. intros k Hk. cbv beta. rewrite Hw by lia. f_equal. lia.
Qed.

Lemma write_range base n value mem : 0 <= n ->
  filled base 0 n value mem (for_range 0 n (fun k mem => upd mem (base + k * sz) (value k)) mem).
Proof.
  intros Hn. apply (for_range_ind (fun i m => filled base 0 i value mem m)); [done|apply filled_none|].
  intros i m Hi Hm. apply (filled_join base 0 i i (i + 1) 0 (i + 1) value mem m); [lia|done|]. split.
  - intros k Hk. assert (k = i) as -> by lia. apply upd_same.
  - intros p Hp. apply upd_other. apply Hp. lia.
Qed.

Lemma vst1q_filled address v mem :
  filled address 0 (Z.of_nat (length v)) (fun k => v !!! Z.to_nat k) mem (vst1q address v mem).
Proof. apply write_range. lia. Qed.

Lemma vstNq_filled N n address vs mem : 0 <= N * n ->
  filled address 0 (N * n) (fun k => (vs !!! Z.to_nat (k mod N)) !!! Z.to_nat (k / N)) mem (vstNq N n address vs mem).
Proof. apply write_range. Qed.

(** Copies between ranges without common elements. *)
Lemma copy_n_filled src n dst mem : 0 <= n ->
  (forall k k', 0 <= k < n -> 0 <= k' < n -> src + k * sz <> dst + k' * sz) ->
  filled dst 0 n (fun k => mem (src + k * sz)) mem (copy_n src n dst mem).
Proof.
  intros Hn Hd. unfold copy_n.
  apply (for_range_ind (fun i m => filled dst 0 i (fun k => mem (src + k * sz)) mem m)); [done|apply filled_none|].
  intros i m Hi Hm. apply (filled_join dst 0 i i (i + 1) 0 (i + 1) _ mem m); [lia|done|]. split.
  - intros k Hk. assert (k = i) as -> by lia. rewrite upd_same. apply Hm. intros k' Hk'. apply Hd; lia.
  - intros p Hp. apply upd_other. apply Hp. lia.
Qed.

(** The elements [lo, hi) from [a] and [lo', hi') from [b] have new values. *)
Definition exchanged (a lo hi : Z) (va : Z -> Z) (b lo' hi' : Z) (vb : Z -> Z) mem mem' : Prop :=
  (forall k, lo <= k < hi -> mem' (a + k * sz) = va k) /\
  (forall k, lo' <= k < hi' -> mem' (b + k * sz) = vb k) /\
  (forall p, (forall k, lo <= k < hi -> p <> a + k * sz) -> (forall k, lo' <= k < hi' -> p <> b + k * sz) -> mem' p = mem p).

Definition apart (a lo hi b lo' hi' : Z) : Prop :=
  forall k k', lo <= k < hi -> lo' <= k' < hi' -> a + k * sz <> b + k' * sz.

Lemma exchanged_of_filled a lo hi va b lo' hi' vb mem mem1 mem2 : apart a lo hi b lo' hi' ->
  filled a lo hi va mem mem1 -> filled b lo' hi' vb mem1 mem2 -> exchanged a lo hi va b lo' hi' vb mem mem2.
Proof.
  intros Hap [H1 H2] [H3 H4]. split; [|split; [done|]].
  - intros k Hk. rewrite H4; [by apply H1|]. intros k' Hk'. by apply Hap.
  - intros p Hp Hp'. by rewrite H4, H2.
Qed.

(** The same with the second range stored first. *)
Lemma exchanged_swap a lo hi va b lo' hi' vb mem mem' :
  exchanged b lo' hi' vb a lo hi va mem mem' -> exchanged a lo hi va b lo' hi' vb mem mem'.
Proof. intros (H1 & H2 & H3). split; [done|]. split; [done|]. intros p Ha Hb. by apply H3. Qed.

Lemma exchanged_ext a lo hi va wa b lo' hi' vb wb mem mem' :
  (forall k, lo <= k < hi -> va k = wa k) -> (forall k, lo' <= k < hi' -> vb k = wb k) ->
  exchanged a lo hi va b lo' hi' vb mem mem' -> exchanged a lo hi wa b lo' hi' wb mem mem'.
Proof.
  intros Ea Eb (H1 & H2 & H3). split; [|split; [|done]]; intros k Hk; [by rewrite <- Ea, H1|by rewrite <- Eb, H2].
Qed.

Lemma exchanged_join a lo1 hi1 lo2 hi2 lo hi va b lo1' hi1' lo2' hi2' lo' hi' vb mem mem1 mem2 :
  apart a lo hi b lo' hi' ->
  (forall k, lo <= k < hi <-> lo1 <= k < hi1 \/ lo2 <= k < hi2) ->
  (forall k, lo' <= k < hi' <-> lo1' <= k < hi1' \/ lo2' <= k < hi2') ->
  exchanged a lo1 hi1 va b lo1' hi1' vb mem mem1 -> exchanged a lo2 hi2 va b lo2' hi2' vb mem1 mem2 ->
  exchanged a lo hi va b lo' hi' vb mem mem2.
Proof.
  intros Hap Hr Hr' (H1 & H2 & H3) (H4 & H5 & H6). split; [|split].
  - intros k Hk. destruct (decide (lo2 <= k < hi2)); [by apply H4|].
    rewrite H6; [apply H1; apply Hr in Hk; lia| |].
    + intros k' Hk' Heq%element_inj. lia.
    + intros k' Hk'. apply Hap; [done|]. apply Hr'. by right.
  - intros k Hk. destruct (decide (lo2' <= k < hi2')); [by apply H5|].
    rewrite H6; [apply H2; apply Hr' in Hk; lia| |].
    + intros k' Hk' Heq. symmetry in Heq. revert Heq. apply Hap; [apply Hr; by right|done].
    + intros k' Hk' Heq%element_inj. lia.
  - intros p Ha Hb. rewrite H6, H3; [done| | | |]; intros k Hk; (apply Ha, Hr || apply Hb, Hr'); auto.
Qed.

(** Blocks of [n] elements next to both ranges, the first stored before the second. *)
Lemma exchanged_extend a lo hi d lo1 hi1 va wa b lo' hi' d' lo1' hi1' vb wb n mem mem1 mem2 mem3 :
  apart a lo1 hi1 b lo1' hi1' ->
  (forall k, lo1 <= k < hi1 <-> lo <= k < hi \/ d <= k < d + n) -> (forall k, 0 <= k < n -> wa k = va (d + k)) ->
  (forall k, lo1' <= k < hi1' <-> lo' <= k < hi' \/ d' <= k < d' + n) -> (forall k, 0 <= k < n -> wb k = vb (d' + k)) ->
  exchanged a lo hi va b lo' hi' vb mem mem1 ->
  filled (a + d * sz) 0 n wa mem1 mem2 -> filled (b + d' * sz) 0 n wb mem2 mem3 ->
  exchanged a lo1 hi1 va b lo1' hi1' vb mem mem3.
Proof.
  intros Hap Hr Hw Hr' Hw' H1 H2 H3. apply filled_shift in H2, H3. rewrite Z.add_0_r in H2, H3.
  apply (exchanged_join a lo hi d (d + n) lo1 hi1 va b lo' hi' d' (d' + n) lo1' hi1' vb mem mem1 mem3); try done.
  apply (exchanged_of_filled _ _ _ _ _ _ _ _ _ mem2).
  - intros k k' Hk Hk'. apply Hap; [apply Hr; lia|apply Hr'; lia].
  - eapply filled_ext; [|exact H2]. intros k Hk. cbv beta. rewrite Hw by lia. f_equal. lia.
  - eapply filled_ext; [|exact H3]. intros k Hk. cbv beta. rewrite Hw' by lia. f_equal. lia.
Qed.

(** Both ranges given from other elements. *)
Lemma exchanged_shift a d lo hi va b d' lo' hi' vb mem mem' :
  exchanged (a + d * sz) lo hi va (b + d' * sz) lo' hi' vb mem mem' ->
  exchanged a (d + lo) (d + hi) (fun k => va (k - d)) b (d' + lo') (d' + hi') (fun k => vb (k - d')) mem mem'.
Proof.
  intros (H1 & H2 & H3). split; [|split].
  - intros k Hk. rewrite <- H1 by lia. f_equal. lia.
  - intros k Hk. rewrite <- H2 by lia. f_equal. lia.
  - intros p Ha Hb. apply H3; intros k Hk ->; [apply (Ha (d + k))|apply (Hb (d' + k))]; lia.
Qed.

Lemma exchanged_none a lo va b lo' vb mem : exchanged a lo lo va b lo' lo' vb mem mem.
Proof. split; [lia|]. split; [lia|done]. Qed.

Lemma swap_ranges_exchanged a n b mem : 0 <= n -> apart a 0 n b 0 n ->
  exchanged a 0 n (fun k => mem (b + k * sz)) b 0 n (fun k => mem (a + k * sz)) mem (swap_ranges a n b mem).
Proof.
  intros Hn Hap. unfold swap_ranges.
  apply (for_range_ind (fun i m => exchanged a 0 i (fun k => mem (b + k * sz)) b 0 i (fun k => mem (a + k * sz)) mem m));
    [done|apply exchanged_none|].
  intros i m Hi Hm. pose proof Hm as (H1 & H2 & H3).
  assert (apart a 0 (i + 1) b 0 (i + 1)) as Hap' by (intros k k' Hk Hk'; apply Hap; lia).
  apply (exchanged_join a 0 i i (i + 1) 0 (i + 1) _ b 0 i i (i + 1) 0 (i + 1) _ mem m); [done|lia|lia|done|].
  assert (m (a + i * sz) = mem (a + i * sz)) as Hma.
  { apply H3; [intros k Hk Heq%element_inj; lia|]. intros k Hk. apply Hap; lia. }
  assert (m (b + i * sz) = mem (b + i * sz)) as Hmb.
  { apply H3; [|intros k Hk Heq%element_inj; lia]. intros k Hk Heq. symmetry in Heq. revert Heq. apply Hap; lia. }
  split; [|split].
  - intros k Hk. assert (k = i) as -> by lia. rewrite upd_other by (apply Hap; lia). by rewrite upd_same.
  - intros k Hk. assert (k = i) as -> by lia. by rewrite upd_same.
  - intros p Ha Hb. rewrite upd_other by (apply Hb; lia). rewrite upd_other by (apply Ha; lia). done.
Qed.

(** What loads hold. *)
Lemma lanes_of_vld1q n mem a : lanes_of (Z.to_nat n) (vld1q n mem a) (fun k => mem (a + Z.of_nat k * sz)).
Proof.
  split; [unfold vld1q; by rewrite length_map, length_seqZ|]. intros i Hi. unfold vld1q.
  apply list_lookup_total_correct. rewrite list_lookup_fmap, lookup_seqZ_lt by lia. cbn. do 3 f_equal; lia.
Qed.

Lemma lanes_of_vldNq N n mem a c : 0 <= c < N ->
  lanes_of (Z.to_nat n) (vldNq N n mem a !!! Z.to_nat c) (fun j => mem (a + (N * Z.of_nat j + c) * sz)).
Proof.
  intros Hc. assert (vldNq N n mem a !!! Z.to_nat c = map (fun j => mem (a + (N * j + c) * sz)) (seqZ 0 n)) as ->.
  { unfold vldNq. apply list_lookup_total_correct. rewrite list_lookup_fmap, lookup_seqZ_lt by lia. cbn.
    f_equal. apply map_ext. intros j. f_equal. lia. }
  split; [by rewrite length_map, length_seqZ|]. intros i Hi.
  apply list_lookup_total_correct. rewrite list_lookup_fmap, lookup_seqZ_lt by lia. cbn. do 4 f_equal; lia.
Qed.
End memory.
