(* ===== verification/Transfers.v ===== *)
(** * Moving data in memory

    What the operations that only move elements ([flip], [transpose], [rotate]) do: the
    element at [addr i] becomes the one that was at [source i].  The work is cut into
    items; items that do not touch each other's elements may run in any order, by rows or
    in the batches of the threaded API. *)

From S2P Require Import Prelude CTypes Utils Loops ParallelBatches.

Section transfers.
Context {I K : Type} (dom : I -> Prop) (addr source : I -> Z) (item : I -> K).
Implicit Types (P Q : K -> Prop) (mem : Z -> Z).

(** The items in [P] are done and nothing else is touched. *)
Definition moved P mem mem' : Prop :=
  (forall i, dom i -> P (item i) -> mem' (addr i) = mem (source i)) /\
  (forall p, (forall i, dom i -> P (item i) -> p <> addr i) -> mem' p = mem p).

(** No item writes what another reads or writes. *)
Class Independent : Prop := {
  written_once i j : dom i -> dom j -> addr i = addr j -> item i = item j;
  read_by_owner i j : dom i -> dom j -> source i = addr j -> item i = item j
}.

Lemma moved_none P mem : (forall k, ~ P k) -> moved P mem mem.
Proof. intros HP. split; [|done]. intros i _ Hi. by destruct (HP _ Hi). Qed.

Lemma moved_ext P Q mem mem' : (forall i, dom i -> P (item i) <-> Q (item i)) -> moved P mem mem' -> moved Q mem mem'.
Proof.
  intros HPQ [H1 H2]. split.
  - intros i Hd Hi. apply H1; [done|]. by apply HPQ.
  - intros p Hp. apply H2. intros i Hd Hi. apply Hp; [done|]. by apply HPQ.
Qed.

Context {independent : Independent}.

Lemma moved_join P Q R mem mem1 mem2 : (forall k, R k <-> P k \/ Q k) -> (forall k, P k -> Q k -> False) ->
  moved P mem mem1 -> moved Q mem1 mem2 -> moved R mem mem2.
Proof.
  intros HR Hdisj [H1 H2] [H3 H4]. split.
  - intros i Hd [HP|HQ]%HR.
    + rewrite H4; [by apply H1|]. intros j Hj HQ Heq. apply (written_once i j) in Heq; [|done..].
      apply (Hdisj (item i)); [done|]. by rewrite Heq.
    + rewrite H3 by done. apply H2. intros j Hj HP Heq. apply (read_by_owner i j) in Heq; [|done..].
      apply (Hdisj (item i)); [|done]. by rewrite Heq.
  - intros p Hp. rewrite H4, H2; [done| |]; intros i Hd Hi; apply Hp; try done; apply HR; auto.
Qed.

(** Items in both steps whose elements stay in place. *)
Lemma moved_join_fixed P Q R mem mem1 mem2 : (forall k, Decision (P k)) -> (forall k, Decision (Q k)) -> (forall k, R k <-> P k \/ Q k) ->
  (forall i, dom i -> P (item i) -> Q (item i) -> source i = addr i) ->
  moved P mem mem1 -> moved Q mem1 mem2 -> moved R mem mem2.
Proof.
  intros HdecP HdecQ HR Hfix [H1 H2] [H3 H4].
  assert (forall i, dom i -> Q (item i) -> mem2 (addr i) = mem (source i)) as HQ.
  { intros i Hd Hq. rewrite H3 by done. destruct (decide (P (item i))) as [HP|HP].
    - rewrite Hfix by done. rewrite <- (Hfix i) at 2 by done. by apply H1.
    - apply H2. intros j Hj HPj Heq. apply (read_by_owner i j) in Heq; [|done..]. by rewrite Heq in HP. }
  split.
  - intros i Hd [HP|Hq]%HR; [|by apply HQ]. destruct (decide (Q (item i))) as [Hq|Hq]; [by apply HQ|].
    rewrite H4; [by apply H1|]. intros j Hj HQj Heq. apply (written_once i j) in Heq; [|done..]. by rewrite Heq in Hq.
  - intros p Hp. rewrite H4, H2; [done| |]; intros i Hd Hi; apply Hp; try done; apply HR; auto.
Qed.

(** Elements that stay in place may be added. *)
Lemma moved_grow P Q mem mem' : (forall k, P k -> Q k) -> (forall i, dom i -> Q (item i) -> P (item i) \/ ~ P (item i) /\ source i = addr i) ->
  moved P mem mem' -> moved Q mem mem'.
Proof.
  intros Hsub HP [H1 H2]. split.
  - intros i Hd Hi. destruct (HP i Hd Hi) as [Hp|[Hp ->]]; [by apply H1|]. apply H2. intros j Hj Hpj Heq.
    apply (written_once i j) in Heq; [|done..]. by rewrite <- Heq in Hpj.
  - intros p Hp. apply H2. intros i Hd Hi. apply Hp; auto.
Qed.

Lemma moved_fixed P mem mem' : (forall i, dom i -> P (item i) \/ ~ P (item i) /\ source i = addr i) ->
  moved P mem mem' -> moved (fun _ => True) mem mem'.
Proof. intros HP. apply moved_grow; [done|]. intros i Hd _. by apply HP. Qed.

(** Transfers that never write what they read, for which items may be repeated. *)
Lemma moved_union P Q R mem mem1 mem2 : (forall i j, dom i -> dom j -> source i <> addr j) -> (forall k, Decision (Q k)) ->
  (forall k, R k <-> P k \/ Q k) -> moved P mem mem1 -> moved Q mem1 mem2 -> moved R mem mem2.
Proof.
  intros Hro Hdec HR [H1 H2] [H3 H4]. split.
  - intros i Hd HRi. destruct (decide (Q (item i))) as [HQ|HQ].
    + rewrite H3 by done. apply H2. intros j Hj _. by apply Hro.
    + rewrite H4; [apply H1; [done|]; by apply HR in HRi as [HP|HQ']|].
      intros j Hj HQj Heq. apply (written_once i j) in Heq; [|done..]. by rewrite Heq in HQ.
  - intros p Hp. rewrite H4, H2; [done| |]; intros i Hd Hi; apply Hp; try done; apply HR; auto.
Qed.
End transfers.

(** ** Numbered items *)

Section numbered.
Context {I : Type} (dom : I -> Prop) (addr source item : I -> Z) {independent : Independent dom addr source item}.
Implicit Types (mem : Z -> Z).
Let moved := moved dom addr source item.

(** Items [lo, hi). *)
Definition range (lo hi k : Z) : Prop := lo <= k < hi.

(** A loop over the items that stops when one has no result. *)
Lemma for_range_moved (step : Z -> (Z -> Z) -> option (Z -> Z)) lo hi mem : lo <= hi ->
  (forall k mem, lo <= k < hi -> exists mem', step k mem = Some mem' /\ moved (eq k) mem mem') ->
  exists mem', for_range lo hi (fun k st => match st with Some mem => step k mem | None => None end) (Some mem) = Some mem' /\
    moved (range lo hi) mem mem'.
Proof.
  intros Hle Hstep.
  apply (for_range_ind (fun k st => exists m, st = Some m /\ moved (range lo k) mem m)); [done| |].
  - exists mem. split; [done|]. apply moved_none. unfold range. lia.
  - intros k st Hk (m & -> & Hm). destruct (Hstep k m Hk) as (m' & -> & Hm'). exists m'. split; [done|].
    apply (moved_join dom addr source item (range lo k) (eq k) _ mem m); [unfold range; lia|unfold range; intros; subst; lia|done|done].
Qed.

(** ** Batches *)

(** A call on a range of items, on a memory or [None] after a call without a result. *)
Definition item_callback (call : Z -> Z -> (Z -> Z) -> option (kleidicv_error_t * (Z -> Z)))
    : range_callback (option (Z -> Z)) := fun begin end_ st =>
  match st with
  | None => (KLEIDICV_OK, None)
  | Some mem =>
      match call begin end_ mem with
      | None => (KLEIDICV_OK, None)
      | Some (err, mem) => (err, Some mem)
      end
  end.

(** The tasks that the ranges of a schedule cover. *)
Definition scheduled (count mb : Z) (schedule : list (Z * Z)) (k : Z) : Prop :=
  0 <= k < count /\ (0 < length (List.filter (task_in (task_of count mb k)) schedule))%nat.

Section batches.
Context (call : Z -> Z -> (Z -> Z) -> option (kleidicv_error_t * (Z -> Z))) (count mb : Z).
Hypothesis count_range : 0 < count < 2 ^ 64.
Hypothesis batch_range : 1 <= mb < 2 ^ 64.
Hypothesis call_moves : forall b e mem, 0 <= b < e -> e <= count ->
  exists mem', call b e mem = Some (KLEIDICV_OK, mem') /\ moved (range b e) mem mem'.

Lemma schedule_moved schedule mem :
  Forall (fun r => 0 <= r.1 < r.2 /\ r.2 <= task_count count mb) schedule ->
  (forall t, 0 <= t < task_count count mb -> (length (List.filter (task_in t) schedule) <= 1)%nat) ->
  exists mem', run_schedule (kleidicv_thread_batch_callback (item_callback call) count mb (task_count count mb)) schedule (Some mem)
      = (true, Some mem') /\ moved (scheduled count mb schedule) mem mem'.
Proof.
  revert mem. induction schedule as [|[b e] schedule IH]; intros mem Hr Honce.
  - exists mem. split; [done|]. apply moved_none. unfold scheduled. cbn. lia.
  - apply Forall_cons in Hr as [Hbe Hr]. cbn [fst snd] in Hbe.
    pose proof (batch_bounds_spec count mb b e ltac:(lia) batch_range ltac:(lia) ltac:(lia)) as Hspec.
    pose proof (fun k => row_in_batch count mb b e k ltac:(lia) batch_range ltac:(lia) ltac:(lia)) as Hin.
    cbn [run_schedule]. unfold kleidicv_thread_batch_callback at 1.
    destruct (batch_bounds count mb (task_count count mb) b e) as [begin end_].
    destruct Hspec as (_ & _ & Hb & He & Hpos).
    destruct (call_moves begin end_ mem ltac:(lia) ltac:(lia)) as (mem1 & Hcall & Hm1).
    unfold item_callback at 1. rewrite Hcall.
    destruct (IH mem1 Hr) as (mem2 & Hrun & Hm2).
    { intros t Ht. specialize (Honce t Ht). cbn [List.filter] in Honce. destruct (task_in t (b, e)); cbn [length] in Honce; lia. }
    exists mem2. rewrite Hrun. split; [done|].
    assert (forall k, 0 <= k < count -> begin <= k < end_ <-> task_in (task_of count mb k) (b, e) = true) as Hiff.
    { intros k Hk. rewrite <- (Hin k Hk). unfold task_in. cbn [fst snd]. rewrite andb_true_iff, Z.leb_le, Z.ltb_lt. done. }
    assert (forall k, 0 <= k < count -> 0 <= task_of count mb k < task_count count mb) as Htask.
    { intros k Hk. unfold task_of, task_count. assert (0 <= k / mb) by (apply Z.div_pos; lia). lia. }
    apply (moved_join dom addr source item (range begin end_) (scheduled count mb schedule) _ mem mem1); [| |done|done].
    + intros k. unfold scheduled, range. cbn [List.filter]. destruct (decide (0 <= k < count)) as [Hk|Hk]; [|lia].
      specialize (Hiff k Hk). destruct (task_in _ (b, e)); cbn [length]; [|split; [intros [_ ?]; by right; split|intros [?|[_ ?]]; [|by split]]].
      * split; [intros _; left; by apply Hiff|]. intros _. split; [done|lia].
      * by apply Hiff in H.
    + unfold range, scheduled. intros k Hk1 [Hk2 Hk3]. apply (Hiff k Hk2) in Hk1.
      specialize (Honce _ (Htask k Hk2)). cbn [List.filter] in Honce. rewrite Hk1 in Honce. cbn [length] in Honce. lia.
Qed.

Lemma parallel_batches_moved parallel mem : lawful no_empty_range parallel ->
  exists err mem', parallel_batches parallel (item_callback call) count mb (Some mem) = (err, Some mem') /\
    err = KLEIDICV_OK /\ moved (range 0 count) mem mem'.
Proof.
  intros Hlaw. unfold parallel_batches.
  destruct (Hlaw (kleidicv_thread_batch_callback (item_callback call) count mb (task_count count mb)) (task_count count mb)
    (Some mem)) as (schedule & [Hr Hcov] & Hne & Hs & Hok).
  destruct (schedule_moved schedule mem) as (mem' & Hrun & Hm).
  - unfold no_empty_range in Hne. rewrite Forall_forall in Hr, Hne |- *. intros r Hin. specialize (Hr r Hin).
    specialize (Hne r Hin). lia.
  - intros t Ht. by rewrite Hcov.
  - destruct (parallel _ _ _) as [err st]. cbn [fst snd] in *. rewrite Hrun in Hs, Hok. cbn in Hs, Hok. subst st.
    exists err, mem'. split; [done|]. split; [by destruct err|].
    eapply moved_ext; [|exact Hm]. intros i _. unfold scheduled, range. split; [by intros [? _]|]. intros Hk. split; [done|].
    rewrite Hcov; [lia|]. unfold task_of, task_count. assert (0 <= item i / mb) by (apply Z.div_pos; lia). lia.
Qed.
End batches.
End numbered.
