(* ===== verification/Flip.v ===== *)
(** * Flip

    [transform/flip.h], [flip_neon.cpp] and [flip_api.cpp]: horizontal, vertical and both,
    into another image or in place, for pixels of one or three scalars of 1 to 8 bytes.  A
    work item is a row, or in place for the vertical modes a pair of mirrored rows. *)

From S2P Require Import Prelude CTypes Utils Rows Loops Vectors Elementwise VectorMemory Transfers.

(** [kleidicv_flip_mode_t]. *)
Definition KLEIDICV_FLIP_HORIZONTAL : Z := Z.shiftl 1 0.
Definition KLEIDICV_FLIP_VERTICAL : Z := Z.shiftl 1 1.
Definition KLEIDICV_FLIP_BOTH : Z := Z.lor KLEIDICV_FLIP_HORIZONTAL KLEIDICV_FLIP_VERTICAL.

Section kernels.
(** [sizeof(ScalarType)] and [kScalarsPerPixel]. *)
Context (sz spp : Z).

Local Abbreviation num_lanes := (num_lanes sz).

(** [vrev64q] reverses the lanes of each 64-bit half, [vextq<n>] takes lanes from [n] on of
    two vectors. *)
Definition vrev64q (v : list Z) : list Z :=
  let half := Z.to_nat (8 / sz) in rev (take half v) ++ rev (drop half v).
Definition vextq (n : Z) (a b : list Z) : list Z := drop (Z.to_nat n) a ++ take (Z.to_nat n) b.

Definition reverse_lanes (vector : list Z) : list Z :=
  let kHalfNumLanes := num_lanes / 2 in
  let vector := vrev64q vector in vextq kHalfNumLanes vector vector.

(** [store_consecutive] of two vectors. *)
Definition store_consecutive (vec_0 vec_1 : list Z) (dst : Z) (mem : Z -> Z) : Z -> Z := vst1q sz dst (vec_0 ++ vec_1) mem.

(** Both pointers and the memory. *)
Definition State : Type := Z * Z * (Z -> Z).
Definition memory_of (result : option (Unroll2.LoopUnroll2 * State)) : option (Z -> Z) :=
  match result with Some (_, (_, _, mem)) => Some mem | None => None end.

Definition swap_reversed_pixel_block_pair (forward_block backward_block : Z) (mem : Z -> Z) : Z -> Z :=
  if spp =? 3 then
    let fwd := vldNq sz 3 num_lanes mem forward_block in
    let bwd := vldNq sz 3 num_lanes mem backward_block in
    let mem := vstNq sz 3 num_lanes backward_block (map reverse_lanes fwd) mem in
    vstNq sz 3 num_lanes forward_block (map reverse_lanes bwd) mem
  else
    let fwd := vld1q sz num_lanes mem forward_block in
    let bwd := vld1q sz num_lanes mem backward_block in
    let mem := vst1q sz backward_block (reverse_lanes fwd) mem in
    vst1q sz forward_block (reverse_lanes bwd) mem.

Definition swap_reversed_vector_pair_2x (forward_vectors backward_vectors : Z) (mem : Z -> Z) : Z -> Z :=
  let fwd_0 := vld1q sz num_lanes mem forward_vectors in
  let fwd_1 := vld1q sz num_lanes mem (forward_vectors + num_lanes * sz) in
  let bwd_0 := vld1q sz num_lanes mem backward_vectors in
  let bwd_1 := vld1q sz num_lanes mem (backward_vectors + num_lanes * sz) in
  let mem := store_consecutive (reverse_lanes bwd_1) (reverse_lanes bwd_0) forward_vectors mem in
  store_consecutive (reverse_lanes fwd_1) (reverse_lanes fwd_0) backward_vectors mem.

Definition copy_row_to_dst (src_row dst_row row_width_in_pixels : Z) (mem : Z -> Z) : option (Z -> Z) :=
  let kScalarsPerVec := num_lanes in
  let kScalarsPer2Vecs := kScalarsPerVec * 2 in
  memory_of (Unroll2.twice_once_remaining false (row_width_in_pixels ⊠ spp) kScalarsPerVec
    (fun _ '(src, dst, mem) =>
      let scalars_0 := vld1q sz num_lanes mem src in
      let scalars_1 := vld1q sz num_lanes mem (src + num_lanes * sz) in
      (src + kScalarsPer2Vecs * sz, dst + kScalarsPer2Vecs * sz, store_consecutive scalars_0 scalars_1 dst mem))
    (fun _ '(src, dst, mem) =>
      let scalars := vld1q sz num_lanes mem src in
      (src + kScalarsPerVec * sz, dst + kScalarsPerVec * sz, vst1q sz dst scalars mem))
    (fun tail_begin tail_end '(src, dst, mem) => (src, dst, copy_n sz src (tail_end ⊟ tail_begin) dst mem))
    (src_row, dst_row, mem)).

Definition copy_reversed_row_to_dst (src_row dst_row row_width_in_pixels : Z) (mem : Z -> Z) : option (Z -> Z) :=
  let kNumLanes := num_lanes in
  let kScalarsPerBlock := kNumLanes * spp in
  let kScalarsPer2Blocks := kScalarsPerBlock * 2 in
  memory_of (Unroll2.twice_once_tail false row_width_in_pixels kNumLanes
    (fun _ '(src, dst, mem) =>
      let dst := dst - kScalarsPer2Blocks * sz in
      let mem :=
        if spp =? 3 then
          let vectors_0 := vldNq sz 3 num_lanes mem src in
          let vectors_1 := vldNq sz 3 num_lanes mem (src + kScalarsPerBlock * sz) in
          let mem := vstNq sz 3 num_lanes dst (map reverse_lanes vectors_1) mem in
          vstNq sz 3 num_lanes (dst + kScalarsPerBlock * sz) (map reverse_lanes vectors_0) mem
        else
          let pixels_0 := vld1q sz num_lanes mem src in
          let pixels_1 := vld1q sz num_lanes mem (src + num_lanes * sz) in
          store_consecutive (reverse_lanes pixels_1) (reverse_lanes pixels_0) dst mem in
      (src + kScalarsPer2Blocks * sz, dst, mem))
    (fun _ '(src, dst, mem) =>
      let dst := dst - kScalarsPerBlock * sz in
      let mem :=
        if spp =? 3 then vstNq sz 3 num_lanes dst (map reverse_lanes (vldNq sz 3 num_lanes mem src)) mem
        else vst1q sz dst (reverse_lanes (vld1q sz num_lanes mem src)) mem in
      (src + kScalarsPerBlock * sz, dst, mem))
    (fun _ '(src, dst, mem) =>
      let dst := dst - spp * sz in
      let mem := copy_n sz src spp dst mem in
      (src + spp * sz, dst, mem))
    (src_row, dst_row + (row_width_in_pixels ⊠ spp) * sz, mem)).

Definition swap_row_pair_in_place (top_row bottom_row row_width_in_pixels : Z) (mem : Z -> Z) : option (Z -> Z) :=
  let kScalarsPerVec := num_lanes in
  let kScalarsPer2Vecs := kScalarsPerVec * 2 in
  memory_of (Unroll2.twice_once_remaining false (row_width_in_pixels ⊠ spp) kScalarsPerVec
    (fun _ '(top_row, bottom_row, mem) =>
      let top_scalars_0 := vld1q sz num_lanes mem top_row in
      let top_scalars_1 := vld1q sz num_lanes mem (top_row + num_lanes * sz) in
      let bottom_scalars_0 := vld1q sz num_lanes mem bottom_row in
      let bottom_scalars_1 := vld1q sz num_lanes mem (bottom_row + num_lanes * sz) in
      let mem := store_consecutive top_scalars_0 top_scalars_1 bottom_row mem in
      let mem := store_consecutive bottom_scalars_0 bottom_scalars_1 top_row mem in
      (top_row + kScalarsPer2Vecs * sz, bottom_row + kScalarsPer2Vecs * sz, mem))
    (fun _ '(top_row, bottom_row, mem) =>
      let top_scalars := vld1q sz num_lanes mem top_row in
      let bottom_scalars := vld1q sz num_lanes mem bottom_row in
      let mem := vst1q sz top_row bottom_scalars mem in
      let mem := vst1q sz bottom_row top_scalars mem in
      (top_row + kScalarsPerVec * sz, bottom_row + kScalarsPerVec * sz, mem))
    (fun tail_begin tail_end '(top_row, bottom_row, mem) =>
      (top_row, bottom_row, swap_ranges sz top_row (tail_end ⊟ tail_begin) bottom_row mem))
    (top_row, bottom_row, mem)).

(** [unroll_twice_if<kScalarsPerPixel != 3>] does nothing for three scalars. *)
Definition swap_reversed_row_pair_in_place (top_row_start bottom_row_start row_width_in_pixels num_pixel_pairs_to_swap : Z)
    (mem : Z -> Z) : option (Z -> Z) :=
  let kScalarsPerVector := num_lanes in
  let kScalarsPerBlock := kScalarsPerVector * spp in
  let kScalarsPer2Blocks := kScalarsPerBlock * 2 in
  let swap_2_blocks (_ : Z) '(forward, backward, mem) :=
    let backward := backward - kScalarsPer2Blocks * sz in
    let mem := swap_reversed_vector_pair_2x forward backward mem in
    (forward + kScalarsPer2Blocks * sz, backward, mem) in
  let swap_block (_ : Z) '(forward, backward, mem) :=
    let backward := backward - kScalarsPerBlock * sz in
    let mem := swap_reversed_pixel_block_pair forward backward mem in
    (forward + kScalarsPerBlock * sz, backward, mem) in
  let swap_pixel (_ : Z) '(forward, backward, mem) :=
    let backward := backward - spp * sz in
    let mem := swap_ranges sz forward spp backward mem in
    (forward + spp * sz, backward, mem) in
  let start := (top_row_start, bottom_row_start + (row_width_in_pixels ⊠ spp) * sz, mem) in
  memory_of (
    if negb (spp =? 3)
    then Unroll2.twice_once_tail false num_pixel_pairs_to_swap kScalarsPerVector swap_2_blocks swap_block swap_pixel start
    else Unroll2.once_tail false num_pixel_pairs_to_swap kScalarsPerVector swap_block swap_pixel start).

(** ** Work items *)

(** The start of a row. *)
Definition row_pointer (rows : Rows) (row : Z) : Z := ptr_ (rows_at rows row 0).

Definition over_items (work_items_begin work_items_end : Z) (item : Z -> (Z -> Z) -> option (Z -> Z)) (mem : Z -> Z)
    : option (kleidicv_error_t * (Z -> Z)) :=
  match for_range work_items_begin work_items_end (fun row_idx st =>
    match st with Some mem => item row_idx mem | None => None end) (Some mem) with
  | Some mem => Some (KLEIDICV_OK, mem)
  | None => None
  end.

Definition flip_to_dst (rect : Rectangle) (src_rows dst_rows : Rows) (flip_mode work_items_begin work_items_end : Z)
    (mem : Z -> Z) : option (kleidicv_error_t * (Z -> Z)) :=
  if flip_mode =? KLEIDICV_FLIP_HORIZONTAL then
    over_items work_items_begin work_items_end (fun src_row_idx =>
      copy_reversed_row_to_dst (row_pointer src_rows src_row_idx) (row_pointer dst_rows src_row_idx) (width_ rect)) mem
  else if flip_mode =? KLEIDICV_FLIP_VERTICAL then
    over_items work_items_begin work_items_end (fun src_row_idx =>
      copy_row_to_dst (row_pointer src_rows src_row_idx) (row_pointer dst_rows (height_ rect ⊟ src_row_idx ⊟ 1)) (width_ rect)) mem
  else if flip_mode =? KLEIDICV_FLIP_BOTH then
    over_items work_items_begin work_items_end (fun src_row_idx =>
      copy_reversed_row_to_dst (row_pointer src_rows src_row_idx) (row_pointer dst_rows (height_ rect ⊟ src_row_idx ⊟ 1))
        (width_ rect)) mem
  else Some (KLEIDICV_ERROR_NOT_IMPLEMENTED, mem).

Definition flip_in_place (rect : Rectangle) (rows : Rows) (flip_mode work_items_begin work_items_end : Z)
    (mem : Z -> Z) : option (kleidicv_error_t * (Z -> Z)) :=
  if flip_mode =? KLEIDICV_FLIP_HORIZONTAL then
    over_items work_items_begin work_items_end (fun row_idx =>
      let row := row_pointer rows row_idx in swap_reversed_row_pair_in_place row row (width_ rect) (width_ rect / 2)) mem
  else if flip_mode =? KLEIDICV_FLIP_VERTICAL then
    over_items work_items_begin work_items_end (fun top_row_idx =>
      let bottom_row_idx := height_ rect ⊟ top_row_idx ⊟ 1 in
      swap_row_pair_in_place (row_pointer rows top_row_idx) (row_pointer rows bottom_row_idx) (width_ rect)) mem
  else if flip_mode =? KLEIDICV_FLIP_BOTH then
    over_items work_items_begin work_items_end (fun top_row_idx =>
      let bottom_row_idx := height_ rect ⊟ top_row_idx ⊟ 1 in
      let num_pixel_pairs_to_swap := if top_row_idx =? bottom_row_idx then width_ rect / 2 else width_ rect in
      swap_reversed_row_pair_in_place (row_pointer rows top_row_idx) (row_pointer rows bottom_row_idx) (width_ rect)
        num_pixel_pairs_to_swap) mem
  else Some (KLEIDICV_ERROR_NOT_IMPLEMENTED, mem).

Definition flip_work_items_impl (src src_stride width height dst dst_stride flip_mode work_items_begin work_items_end : Z)
    (mem : Z -> Z) : option (kleidicv_error_t * (Z -> Z)) :=
  let rect := {| width_ := width; height_ := height |} in
  let src_rows := {| ptr_ := src; stride_ := src_stride; channels_ := spp; sizeof_ := sz |} in
  let dst_rows := {| ptr_ := dst; stride_ := dst_stride; channels_ := spp; sizeof_ := sz |} in
  if src =? dst then flip_in_place rect dst_rows flip_mode work_items_begin work_items_end mem
  else flip_to_dst rect src_rows dst_rows flip_mode work_items_begin work_items_end mem.

(** [flip_validate<ScalarType>]. *)
Definition flip_validate_type (src src_stride width height dst dst_stride flip_mode : Z) : kleidicv_error_t :=
  check_pointer_alignment sz src ?>
  check_pointer_alignment sz dst ?>
  check_pointer_and_stride sz src src_stride height ?>
  check_pointer_and_stride sz dst dst_stride height ?>
  check_image_size width height ?>
  if (src =? dst) && negb (src_stride =? dst_stride) then KLEIDICV_ERROR_RANGE
  else if (flip_mode =? KLEIDICV_FLIP_HORIZONTAL) || (flip_mode =? KLEIDICV_FLIP_VERTICAL) || (flip_mode =? KLEIDICV_FLIP_BOTH)
  then KLEIDICV_OK else KLEIDICV_ERROR_NOT_IMPLEMENTED.
End kernels.

(** The scalar size and the scalars per pixel that the [switch]es choose. *)
Definition pixel_layout (pixel_size : Z) : option (Z * Z) :=
  if pixel_size =? 1 then Some (1, 1) else if pixel_size =? 2 then Some (2, 1)
  else if pixel_size =? 4 then Some (4, 1) else if pixel_size =? 8 then Some (8, 1)
  else if pixel_size =? 1 * 3 then Some (1, 3) else if pixel_size =? 2 * 3 then Some (2, 3) else None.

Definition flip_work_items (src src_stride width height dst dst_stride flip_mode pixel_size work_items_begin work_items_end : Z)
    (mem : Z -> Z) : option (kleidicv_error_t * (Z -> Z)) :=
  match pixel_layout pixel_size with
  | Some (sz, spp) =>
      flip_work_items_impl sz spp src src_stride width height dst dst_stride flip_mode work_items_begin work_items_end mem
  | None => Some (KLEIDICV_ERROR_NOT_IMPLEMENTED, mem)
  end.

Definition flip_validate (src src_stride width height dst dst_stride flip_mode pixel_size : Z) : kleidicv_error_t :=
  match pixel_layout pixel_size with
  | Some (sz, _) => flip_validate_type sz src src_stride width height dst dst_stride flip_mode
  | None => KLEIDICV_ERROR_NOT_IMPLEMENTED
  end.

Definition flip_work_item_count (height : Z) (in_place : bool) (flip_mode : Z) : Z :=
  if negb in_place || (flip_mode =? KLEIDICV_FLIP_HORIZONTAL) then height
  else if flip_mode =? KLEIDICV_FLIP_VERTICAL then height / 2
  else (height ⊞ 1) / 2.

(** [kleidicv_flip]. *)
Definition flip (src src_stride width height dst dst_stride flip_mode pixel_size : Z) (mem : Z -> Z)
    : option (kleidicv_error_t * (Z -> Z)) :=
  match flip_validate src src_stride width height dst dst_stride flip_mode pixel_size with
  | KLEIDICV_OK =>
      if (width =? 0) || (height =? 0) then Some (KLEIDICV_OK, mem)
      else
        flip_work_items src src_stride width height dst dst_stride flip_mode pixel_size
          0 (flip_work_item_count height (src =? dst) flip_mode) mem
  | error => Some (error, mem)
  end.

(** ** Rows *)

Lemma lookup_total_rev (v : list Z) i : (i < length v)%nat -> rev v !!! i = v !!! (length v - S i)%nat.
Proof.
  intros Hi. rewrite rev_alt. change (rev_append v []) with (reverse v).
  rewrite !list_lookup_total_alt. by rewrite reverse_lookup.
Qed.

Section rows.
Context (sz spp : Z).
Hypothesis scalar_size : sz = 1 \/ sz = 2 \/ sz = 4 \/ sz = 8.
Hypothesis pixel_scalars : spp = 1 \/ spp = 3.
Let lanes := num_lanes sz.

Lemma sz_positive : 0 < sz.
Proof. lia. Qed.

Lemma lanes_facts : 2 <= lanes <= 16 /\ Z.to_nat lanes = (Z.to_nat (8 / sz) + Z.to_nat (8 / sz))%nat /\
  Z.to_nat (lanes / 2) = Z.to_nat (8 / sz).
Proof. unfold lanes, num_lanes. destruct scalar_size as [->|[->|[->| ->]]]; vm_compute; intuition congruence. Qed.

Lemma reverse_lanes_rev v : length v = Z.to_nat lanes -> reverse_lanes sz v = rev v.
Proof.
  destruct lanes_facts as (_ & Hl & Hh). intros Hv. unfold reverse_lanes, vextq, vrev64q. fold lanes. rewrite Hh.
  set (h := Z.to_nat (8 / sz)) in *.
  assert (length (rev (take h v)) = h) as Ht by (rewrite length_rev, length_take; lia).
  rewrite drop_app_length' by done. rewrite take_app_length' by done.
  rewrite <- rev_app_distr, take_drop. done.
Qed.

(** The scalar that a row of [n] pixels has at [k] after its pixels are reversed. *)
Definition rev_index (n k : Z) : Z := (n - 1 - k / spp) * spp + k mod spp.

Lemma rev_index_block W j n k : rev_index W (j * spp + k) = (W - j - n) * spp + rev_index n k.
Proof.
  unfold rev_index. rewrite Z.div_add_l by lia. rewrite (Z.add_comm (j * spp) k), Z.mod_add by lia. lia.
Qed.

Lemma rev_index_range n k : 0 <= k < n * spp -> 0 <= rev_index n k < n * spp.
Proof.
  intros Hk. unfold rev_index. pose proof (Z.mod_pos_bound k spp ltac:(lia)).
  assert (0 <= k / spp < n) by (split; [apply Z.div_pos; lia|apply Z.div_lt_upper_bound; lia]). nia.
Qed.

Lemma rev_index_involutive n k : 0 <= k < n * spp -> rev_index n (rev_index n k) = k.
Proof.
  intros Hk. unfold rev_index at 1. unfold rev_index. pose proof (Z.mod_pos_bound k spp ltac:(lia)) as Hm.
  rewrite Z.div_add_l, (Z.div_small (k mod spp)) by lia.
  rewrite Z.add_0_r, (Z.add_comm (_ * spp) (k mod spp)), Z.mod_add, Z.mod_small by lia.
  pose proof (Z.div_mod k spp ltac:(lia)). nia.
Qed.

Lemma rev_index_one n k : spp = 1 -> rev_index n k = n - 1 - k.
Proof. intros H1. unfold rev_index. rewrite H1, Z.div_1_r, Z.mod_1_r. lia. Qed.

(** One vector per scalar of a pixel, reversed. *)
Lemma length_vld1q n mem a : length (vld1q sz n mem a) = Z.to_nat n.
Proof. apply (lanes_of_vld1q sz n mem a). Qed.

Lemma vld1q_app n mem a : 0 <= n -> vld1q sz n mem a ++ vld1q sz n mem (a + n * sz) = vld1q sz (2 * n) mem a.
Proof.
  intros Hn. unfold vld1q. replace (2 * n) with (n + n) by lia. rewrite seqZ_app by lia. rewrite map_app. f_equal.
  pose proof (fmap_add_seqZ n 0 n) as Hs. rewrite Z.add_0_r in Hs. rewrite Z.add_0_l, <- Hs.
  change (Z.add n <$> seqZ 0 n) with (map (Z.add n) (seqZ 0 n)). rewrite map_map. apply map_ext. intros k. f_equal. lia.
Qed.

Lemma store_reversed n mem src dst mem' : 0 <= n ->
  filled sz dst 0 n (fun k => mem (src + (n - 1 - k) * sz)) mem' (vst1q sz dst (rev (vld1q sz n mem src)) mem').
Proof.
  intros Hn. pose proof (lanes_of_vld1q sz n mem src) as [Hl Hf].
  pose proof (vst1q_filled sz sz_positive dst (rev (vld1q sz n mem src)) mem') as Hfill.
  rewrite length_rev, Hl, Z2Nat.id in Hfill by done. eapply filled_ext; [|exact Hfill].
  intros k Hk. cbv beta. rewrite lookup_total_rev by lia. rewrite Hf by lia. rewrite Hl. do 3 f_equal. lia.
Qed.

(** A block of [lanes] pixels, reversed. *)
Definition reversed_block (mem : Z -> Z) (src dst : Z) (mem' : Z -> Z) : Z -> Z :=
  if spp =? 3 then vstNq sz 3 lanes dst (map (reverse_lanes sz) (vldNq sz 3 lanes mem src)) mem'
  else vst1q sz dst (reverse_lanes sz (vld1q sz lanes mem src)) mem'.

Lemma reversed_block_filled mem src dst mem' :
  filled sz dst 0 (lanes * spp) (fun k => mem (src + rev_index lanes k * sz)) mem' (reversed_block mem src dst mem').
Proof.
  pose proof lanes_facts as (Hn & _ & _). unfold reversed_block. destruct (Z.eqb_spec spp 3) as [H3|H3].
  - pose proof (vstNq_filled sz sz_positive 3 lanes dst (map (reverse_lanes sz) (vldNq sz 3 lanes mem src)) mem' ltac:(lia)) as Hfill.
    rewrite H3, (Z.mul_comm lanes 3). eapply filled_ext; [|exact Hfill]. intros k Hk. cbv beta.
    pose proof (Z.mod_pos_bound k 3 ltac:(lia)) as Hm. assert (0 <= k / 3 < lanes) as Hd by mod_lia.
    destruct (lanes_of_vldNq sz sz_positive 3 lanes mem src (k mod 3) Hm) as [Hl Hf].
    assert (map (reverse_lanes sz) (vldNq sz 3 lanes mem src) !!! Z.to_nat (k mod 3) = rev (vldNq sz 3 lanes mem src !!! Z.to_nat (k mod 3))) as ->.
    { rewrite <- reverse_lanes_rev by done. apply list_lookup_total_fmap. unfold vldNq. rewrite length_map, length_seqZ. lia. }
    rewrite lookup_total_rev by lia. rewrite Hf by lia. rewrite Hl. unfold rev_index. rewrite H3. f_equal. lia.
  - assert (spp = 1) as H1 by lia. rewrite reverse_lanes_rev by apply length_vld1q. rewrite H1, Z.mul_1_r.
    eapply filled_ext; [|apply store_reversed; lia]. intros k Hk. cbv beta. rewrite rev_index_one by done. done.
Qed.

(** Two blocks, reversed. *)
Definition reversed_blocks (mem : Z -> Z) (src dst : Z) (mem' : Z -> Z) : Z -> Z :=
  if spp =? 3 then
    vstNq sz 3 lanes (dst + lanes * spp * sz) (map (reverse_lanes sz) (vldNq sz 3 lanes mem src))
      (vstNq sz 3 lanes dst (map (reverse_lanes sz) (vldNq sz 3 lanes mem (src + lanes * spp * sz))) mem')
  else
    store_consecutive sz (reverse_lanes sz (vld1q sz lanes mem (src + lanes * sz))) (reverse_lanes sz (vld1q sz lanes mem src))
      dst mem'.

Lemma reversed_blocks_filled mem src dst mem' :
  filled sz dst 0 (2 * lanes * spp) (fun k => mem (src + rev_index (2 * lanes) k * sz)) mem' (reversed_blocks mem src dst mem').
Proof.
  pose proof lanes_facts as (Hn & _ & _). unfold reversed_blocks. destruct (Z.eqb_spec spp 3) as [H3|H3].
  - pose proof (reversed_block_filled mem (src + lanes * spp * sz) dst mem') as Hb1.
    set (mem1 := vstNq sz 3 lanes dst _ mem').
    pose proof (reversed_block_filled mem src (dst + lanes * spp * sz) mem1) as Hb2.
    unfold reversed_block in Hb1, Hb2. rewrite (proj2 (Z.eqb_eq spp 3) H3) in Hb1, Hb2. fold mem1 in Hb1.
    apply (filled_shift sz) in Hb2.
    eapply (filled_join sz sz_positive dst 0 (lanes * spp) (lanes * spp) (2 * (lanes * spp))); [lia|..].
    + eapply filled_ext; [|exact Hb1]. intros k Hk. cbv beta.
      replace k with (0 * spp + k) at 2 by lia. rewrite (rev_index_block _ 0 lanes). f_equal. lia.
    + replace (2 * (lanes * spp)) with (lanes * spp + lanes * spp) by lia.
      rewrite Z.add_0_r in Hb2. eapply filled_ext; [|exact Hb2]. intros k Hk. cbv beta.
      replace k with (lanes * spp + (k - lanes * spp)) at 2 by lia. rewrite (rev_index_block _ lanes lanes). f_equal. lia.
  - assert (spp = 1) as H1 by lia. unfold store_consecutive.
    rewrite !reverse_lanes_rev by apply length_vld1q. rewrite <- rev_app_distr, vld1q_app by lia.
    rewrite H1, Z.mul_1_r. eapply filled_ext; [|apply store_reversed; lia]. intros k Hk. cbv beta. by rewrite rev_index_one.
Qed.

Lemma vst1q_vld1q_filled n mem src dst mem' : 0 <= n ->
  filled sz dst 0 n (fun k => mem (src + k * sz)) mem' (vst1q sz dst (vld1q sz n mem src) mem').
Proof.
  intros Hn. pose proof (lanes_of_vld1q sz n mem src) as [Hl Hf].
  pose proof (vst1q_filled sz sz_positive dst (vld1q sz n mem src) mem') as Hfill.
  rewrite Hl, Z2Nat.id in Hfill by done. eapply filled_ext; [|exact Hfill].
  intros k Hk. cbv beta. rewrite Hf by lia. do 3 f_equal. lia.
Qed.

Lemma memory_of_some (P : State -> Prop) (Q : (Z -> Z) -> Prop) r :
  (exists l s, r = Some (l, s) /\ P s) -> (forall s, P s -> Q s.2) -> exists mem, memory_of r = Some mem /\ Q mem.
Proof. intros (l & [[a b] m] & -> & HP) HQ. exists m. split; [done|]. exact (HQ _ HP). Qed.

(** *** Rows of another image *)
Section to_dst.
Context (src dst W : Z) (mem : Z -> Z).
Hypothesis width_ok : 0 <= W /\ W * spp < 2 ^ 64.
Hypothesis rows_apart : apart sz src 0 (W * spp) dst 0 (W * spp).

Lemma source_row_kept lo hi value m k : filled sz dst lo hi value mem m -> 0 <= lo -> hi <= W * spp ->
  0 <= k < W * spp -> m (src + k * sz) = mem (src + k * sz).
Proof. intros [_ Hf] Hlo Hhi Hk. apply Hf. intros k' Hk'. apply rows_apart; lia. Qed.

Lemma width_scalars : W ⊠ spp = W * spp.
Proof. apply size_mul_small. nia. Qed.

Lemma copy_row_correct : exists mem', copy_row_to_dst sz spp src dst W mem = Some mem' /\
  filled sz dst 0 (W * spp) (fun k => mem (src + k * sz)) mem mem'.
Proof.
  pose proof lanes_facts as (Hn & _ & _). unfold copy_row_to_dst. rewrite width_scalars. fold lanes.
  set (V := fun k => mem (src + k * sz)).
  set (Inv := fun i (s : State) => (i < W * spp -> s.1 = (src + i * sz, dst + i * sz)) /\ filled sz dst 0 i V mem s.2).
  assert (forall i n m m', 0 <= i -> 0 <= n -> i + n <= W * spp -> filled sz dst 0 i V mem m ->
    filled sz (dst + i * sz) 0 n (fun k => m (src + i * sz + k * sz)) m m' -> filled sz dst 0 (i + n) V mem m') as Hext.
  { intros i n m m' Hi Hn' Hb Hm Hm'. eapply (filled_extend sz sz_positive dst 0 i i n 0 (i + n)); [lia| |exact Hm|exact Hm'].
    intros k Hk. cbv beta. unfold V. replace (src + i * sz + k * sz) with (src + (i + k) * sz) by lia.
    apply (source_row_kept 0 i V); [done|lia..]. }
  apply (memory_of_some (Inv (W * spp))); [|by intros s [_ Hs]].
  apply Unroll2.twice_once_remaining_invariant.
  - unfold is_size. nia.
  - lia.
  - intros i [[s d] m] Hi Hb [Hp Hm]. cbn [fst snd] in *. injection (Hp ltac:(lia)) as -> ->.
    split; [intros _; cbn; f_equal; lia|]. apply (Hext i (2 * lanes) m); [lia|lia|lia|done|]. cbn [snd].
    unfold store_consecutive. rewrite vld1q_app by lia. apply vst1q_vld1q_filled. lia.
  - intros i [[s d] m] Hi Hb [Hp Hm]. cbn [fst snd] in *. injection (Hp ltac:(lia)) as -> ->.
    split; [intros _; cbn; f_equal; lia|]. apply (Hext i lanes m); [lia|lia|lia|done|]. apply vst1q_vld1q_filled. lia.
  - intros i [[s d] m] Hi [Hp Hm]. cbn [fst snd] in *. injection (Hp ltac:(lia)) as -> ->.
    split; [cbn; lia|]. rewrite size_sub_small by nia. cbn [snd].
    replace (W * spp) with (i + (W * spp - i)) at 1 by lia. apply (Hext i _ m); [lia|lia|lia|done|].
    apply copy_n_filled; [apply sz_positive|lia|]. intros k k' Hk Hk' Heq.
    apply (rows_apart (i + k) (i + k')); lia.
  - split; [intros _; cbn; f_equal; lia|apply filled_none].
Qed.
Lemma rev_index_1 k : 0 <= k < spp -> rev_index 1 k = k.
Proof. intros Hk. unfold rev_index. rewrite Z.div_small, Z.mod_small by lia. lia. Qed.

Lemma copy_reversed_row_correct : exists mem', copy_reversed_row_to_dst sz spp src dst W mem = Some mem' /\
  filled sz dst 0 (W * spp) (fun k => mem (src + rev_index W k * sz)) mem mem'.
Proof.
  pose proof lanes_facts as (Hn & _ & _). unfold copy_reversed_row_to_dst. rewrite width_scalars. fold lanes.
  set (V := fun k => mem (src + rev_index W k * sz)).
  set (Inv := fun i (s : State) =>
    s.1 = (src + i * spp * sz, dst + (W - i) * spp * sz) /\ filled sz dst ((W - i) * spp) (W * spp) V mem s.2).
  assert (forall i n m d m', 0 <= i -> 0 <= n -> i + n <= W -> filled sz dst ((W - i) * spp) (W * spp) V mem m ->
    d = dst + (W - (i + n)) * spp * sz ->
    filled sz d 0 (n * spp) (fun k => m (src + i * spp * sz + rev_index n k * sz)) m m' ->
    filled sz dst ((W - (i + n)) * spp) (W * spp) V mem m') as Hext.
  { intros i n m d m' Hi Hn' Hb Hm -> Hm'.
    eapply (filled_extend sz sz_positive dst ((W - i) * spp) (W * spp) ((W - (i + n)) * spp) (n * spp));
      [nia| |exact Hm|exact Hm'].
    intros k Hk. cbv beta. unfold V. rewrite (rev_index_block W (W - (i + n)) n k).
    pose proof (rev_index_range n k Hk). replace (W - (W - (i + n)) - n) with i by lia.
    replace (src + i * spp * sz + rev_index n k * sz) with (src + (i * spp + rev_index n k) * sz) by lia.
    apply (source_row_kept ((W - i) * spp) (W * spp) V); [done|nia..]. }
  apply (memory_of_some (Inv W)); [|intros s [_ Hs]; by rewrite Z.sub_diag in Hs].
  apply Unroll2.twice_once_tail_invariant.
  - unfold is_size. nia.
  - lia.
  - intros i [[s d] m] Hi Hb [[= -> ->] Hm]. cbn [fst snd] in *.
    split; [cbn; f_equal; lia|]. eapply (Hext i (2 * lanes) m); [lia|lia|lia|exact Hm| |]; [reflexivity|]. cbn [snd].
    replace (dst + (W - i) * spp * sz - lanes * spp * 2 * sz) with (dst + (W - (i + 2 * lanes)) * spp * sz) by lia.
    apply reversed_blocks_filled.
  - intros i [[s d] m] Hi Hb [[= -> ->] Hm]. cbn [fst snd] in *.
    split; [cbn; f_equal; lia|]. eapply (Hext i lanes m); [lia|lia|lia|exact Hm| |]; [reflexivity|]. cbn [snd].
    replace (dst + (W - i) * spp * sz - lanes * spp * sz) with (dst + (W - (i + lanes)) * spp * sz) by lia.
    apply reversed_block_filled.
  - intros i [[s d] m] Hi Hb [[= -> ->] Hm]. cbn [fst snd] in *.
    split; [cbn; f_equal; lia|]. eapply (Hext i 1 m); [lia|lia|lia|exact Hm| |]; [reflexivity|]. cbn [snd].
    replace (dst + (W - i) * spp * sz - spp * sz) with (dst + (W - (i + 1)) * spp * sz) by lia. rewrite Z.mul_1_l.
    eapply filled_ext; [|apply copy_n_filled; [apply sz_positive|lia|]].
    + intros k Hk. cbv beta. by rewrite rev_index_1.
    + intros k k' Hk Hk' Heq. apply (rows_apart (i * spp + k) ((W - (i + 1)) * spp + k')); nia.
  - split; [cbn; f_equal; lia|]. rewrite Z.sub_0_r. apply filled_none.
Qed.
End to_dst.
(** *** Rows in place *)
Section in_place.
Context (top bottom W : Z) (mem : Z -> Z).
Hypothesis width_ok : 0 <= W /\ W * spp < 2 ^ 64.

Lemma swap_row_pair_correct : apart sz top 0 (W * spp) bottom 0 (W * spp) ->
  exists mem', swap_row_pair_in_place sz spp top bottom W mem = Some mem' /\
  exchanged sz top 0 (W * spp) (fun k => mem (bottom + k * sz)) bottom 0 (W * spp) (fun k => mem (top + k * sz)) mem mem'.
Proof.
  intros Hap. pose proof lanes_facts as (Hn & _ & _). unfold swap_row_pair_in_place. rewrite (width_scalars W) by done. fold lanes.
  set (VT := fun k => mem (bottom + k * sz)). set (VB := fun k => mem (top + k * sz)).
  set (Inv := fun i (s : State) =>
    (i < W * spp -> s.1 = (top + i * sz, bottom + i * sz)) /\ exchanged sz top 0 i VT bottom 0 i VB mem s.2).
  assert (forall i n m m', 0 <= i -> 0 <= n -> i + n <= W * spp -> exchanged sz top 0 i VT bottom 0 i VB mem m ->
    exchanged sz (top + i * sz) 0 n (fun k => m (bottom + i * sz + k * sz)) (bottom + i * sz) 0 n (fun k => m (top + i * sz + k * sz)) m m' ->
    exchanged sz top 0 (i + n) VT bottom 0 (i + n) VB mem m') as Hext.
  { intros i n m m' Hi Hn' Hb Hm Hm'.
    pose proof (exchanged_shift sz top i 0 n _ bottom i 0 n _ m m' Hm') as Hs. rewrite Z.add_0_r in Hs.
    eapply (exchanged_join sz sz_positive top 0 i i (i + n) 0 (i + n) VT bottom 0 i i (i + n) 0 (i + n)); [|lia|lia|exact Hm|].
    - intros k k' Hk Hk'. apply Hap; lia.
    - eapply exchanged_ext; [| |exact Hs]; intros k Hk; cbv beta; destruct Hm as (_ & _ & Hm); unfold VT, VB.
      + replace (bottom + i * sz + (k - i) * sz) with (bottom + k * sz) by lia.
        apply Hm; intros k' Hk' Heq; [symmetry in Heq; revert Heq; apply Hap; lia|]. apply element_inj in Heq; [lia|apply sz_positive].
      + replace (top + i * sz + (k - i) * sz) with (top + k * sz) by lia.
        apply Hm; intros k' Hk' Heq; [|revert Heq; apply Hap; lia]. apply element_inj in Heq; [lia|apply sz_positive]. }
  apply (memory_of_some (Inv (W * spp))); [|by intros s [_ Hs]].
  apply Unroll2.twice_once_remaining_invariant.
  - unfold is_size. nia.
  - lia.
  - intros i [[s d] m] Hi Hb [Hp Hm]. cbn [fst snd] in *. injection (Hp ltac:(lia)) as -> ->.
    split; [intros _; cbn; f_equal; lia|]. apply (Hext i (2 * lanes) m); [lia|lia|lia|done|]. cbn [snd].
    unfold store_consecutive. rewrite !vld1q_app by lia. apply exchanged_swap.
    eapply exchanged_of_filled; [|apply vst1q_vld1q_filled; lia..].
    intros k k' Hk Hk' Heq. apply (Hap (i + k') (i + k)); lia.
  - intros i [[s d] m] Hi Hb [Hp Hm]. cbn [fst snd] in *. injection (Hp ltac:(lia)) as -> ->.
    split; [intros _; cbn; f_equal; lia|]. apply (Hext i lanes m); [lia|lia|lia|done|].
    eapply exchanged_of_filled; [|apply vst1q_vld1q_filled; lia..].
    intros k k' Hk Hk' Heq. apply (Hap (i + k) (i + k')); lia.
  - intros i [[s d] m] Hi [Hp Hm]. cbn [fst snd] in *. injection (Hp ltac:(lia)) as -> ->.
    split; [cbn; lia|]. rewrite size_sub_small by nia. cbn [snd].
    pose proof (Hext i (W * spp - i) m) as Hlast. replace (i + (W * spp - i)) with (W * spp) in Hlast by lia.
    apply Hlast; [lia|lia|lia|done|].
    apply swap_ranges_exchanged; [apply sz_positive|lia|].
    intros k k' Hk Hk' Heq. apply (Hap (i + k) (i + k')); lia.
  - split; [intros _; cbn; f_equal; lia|apply exchanged_none].
Qed.
(** Blocks of [n] pixels that change places, reversed. *)
Definition blocks_exchanged (n : Z) (m : Z -> Z) (forward backward : Z) (m' : Z -> Z) : Prop :=
  exchanged sz forward 0 (n * spp) (fun k => m (backward + rev_index n k * sz))
    backward 0 (n * spp) (fun k => m (forward + rev_index n k * sz)) m m'.

Lemma swap_block_pair_exchanged m forward backward : apart sz forward 0 (lanes * spp) backward 0 (lanes * spp) ->
  blocks_exchanged lanes m forward backward (swap_reversed_pixel_block_pair sz spp forward backward m).
Proof.
  intros Hap. unfold blocks_exchanged. apply exchanged_swap.
  set (m1 := reversed_block m forward backward m).
  replace (swap_reversed_pixel_block_pair sz spp forward backward m) with (reversed_block m backward forward m1)
    by (unfold m1, swap_reversed_pixel_block_pair, reversed_block; destruct (spp =? 3); done).
  apply (exchanged_of_filled sz _ _ _ _ _ _ _ _ _ m1); [|apply reversed_block_filled..].
  intros k k' Hk Hk' Heq. by apply (Hap k' k).
Qed.

Lemma swap_2_blocks_exchanged m forward backward : spp = 1 ->
  apart sz forward 0 (2 * lanes * spp) backward 0 (2 * lanes * spp) ->
  blocks_exchanged (2 * lanes) m forward backward (swap_reversed_vector_pair_2x sz forward backward m).
Proof.
  intros H1 Hap. unfold blocks_exchanged.
  set (m1 := reversed_blocks m backward forward m).
  replace (swap_reversed_vector_pair_2x sz forward backward m) with (reversed_blocks m forward backward m1).
  - apply (exchanged_of_filled sz _ _ _ _ _ _ _ _ _ m1); [done|apply reversed_blocks_filled..].
  - unfold m1, reversed_blocks, swap_reversed_vector_pair_2x. rewrite H1. reflexivity.
Qed.

Section reversed.
Context (num : Z).
Hypothesis num_ok : 0 <= num <= W.
Hypothesis pixels_apart : apart sz top 0 (num * spp) bottom ((W - num) * spp) (W * spp).

Let VT : Z -> Z := fun k => mem (bottom + rev_index W k * sz).
Let VB : Z -> Z := fun k => mem (top + rev_index W k * sz).

(** The first [i] pixels of the top row and the last of the bottom row are done. *)
Definition pairs_swapped (i : Z) (s : State) : Prop :=
  s.1 = (top + i * spp * sz, bottom + (W - i) * spp * sz) /\
  exchanged sz top 0 (i * spp) VT bottom ((W - i) * spp) (W * spp) VB mem s.2.

Lemma blocks_apart i n : 0 <= i -> 0 <= n -> i + n <= num ->
  apart sz (top + i * spp * sz) 0 (n * spp) (bottom + (W - (i + n)) * spp * sz) 0 (n * spp).
Proof.
  intros Hi Hn Hb k k' Hk Hk' Heq. apply (pixels_apart (i * spp + k) ((W - (i + n)) * spp + k')); [nia|nia|lia].
Qed.

Lemma pairs_swapped_step i n m m' forward' backward' : 0 <= i -> 0 <= n -> i + n <= num ->
  exchanged sz top 0 (i * spp) VT bottom ((W - i) * spp) (W * spp) VB mem m ->
  forward' = top + (i + n) * spp * sz -> backward' = bottom + (W - (i + n)) * spp * sz ->
  blocks_exchanged n m (top + i * spp * sz) backward' m' ->
  pairs_swapped (i + n) (forward', backward', m').
Proof.
  intros Hi Hn Hb Hm -> -> Hm'. split; [done|]. cbn [snd].
  unfold blocks_exchanged in Hm'.
  pose proof (exchanged_shift sz top (i * spp) 0 (n * spp) _ bottom ((W - (i + n)) * spp) 0 (n * spp) _ m m' Hm') as Hs.
  rewrite !Z.add_0_r in Hs.
  eapply (exchanged_join sz sz_positive top 0 (i * spp) (i * spp) (i * spp + n * spp) 0 ((i + n) * spp) VT
    bottom ((W - i) * spp) (W * spp) ((W - (i + n)) * spp) ((W - (i + n)) * spp + n * spp)); [|nia|nia|exact Hm|].
  - intros k k' Hk Hk'. apply pixels_apart; nia.
  - eapply exchanged_ext; [| |exact Hs]; intros k Hk; cbv beta; destruct Hm as (_ & _ & Hm); unfold VT, VB.
    + pose proof (rev_index_range n (k - i * spp) ltac:(lia)) as Hr.
      replace (rev_index W k) with ((W - i - n) * spp + rev_index n (k - i * spp))
        by (rewrite <- rev_index_block; f_equal; lia).
      replace (bottom + (W - (i + n)) * spp * sz + rev_index n (k - i * spp) * sz)
        with (bottom + ((W - i - n) * spp + rev_index n (k - i * spp)) * sz) by lia.
      apply Hm; intros k' Hk' Heq; [symmetry in Heq; revert Heq; apply pixels_apart; nia|].
      apply element_inj in Heq; [nia|apply sz_positive].
    + pose proof (rev_index_range n (k - (W - (i + n)) * spp) ltac:(lia)) as Hr.
      replace (rev_index W k) with ((W - (W - (i + n)) - n) * spp + rev_index n (k - (W - (i + n)) * spp))
        by (rewrite <- rev_index_block; f_equal; lia).
      replace (W - (W - (i + n)) - n) with i by lia.
      replace (top + i * spp * sz + rev_index n (k - (W - (i + n)) * spp) * sz)
        with (top + (i * spp + rev_index n (k - (W - (i + n)) * spp)) * sz) by lia.
      apply Hm; intros k' Hk' Heq; [|revert Heq; apply pixels_apart; nia].
      apply element_inj in Heq; [nia|apply sz_positive].
Qed.

Lemma swap_reversed_row_pair_correct :
  exists mem', swap_reversed_row_pair_in_place sz spp top bottom W num mem = Some mem' /\
  exchanged sz top 0 (num * spp) VT bottom ((W - num) * spp) (W * spp) VB mem mem'.
Proof.
  pose proof lanes_facts as (Hn & _ & _). unfold swap_reversed_row_pair_in_place. rewrite (width_scalars W) by done. fold lanes.
  apply (memory_of_some (pairs_swapped num)); [|by intros s [_ Hs]].
  assert (pairs_swapped 0 (top, bottom + W * spp * sz, mem)) as H0.
  { split; [cbn; f_equal; lia|]. rewrite Z.sub_0_r. apply exchanged_none. }
  assert (is_size num) as Hsize by (unfold is_size; nia).
  match goal with |- context [Unroll2.twice_once_tail _ _ _ ?f2 ?f1 ?ft _] =>
    assert (Unroll2.advances pairs_swapped num lanes f1) as Hblock;
    [|assert (Unroll2.advances pairs_swapped num 1 ft) as Hpixel]
  end.
  - intros i [[f b] m] Hi Hb [[= -> ->] Hm]. cbn [fst snd] in *.
    apply (pairs_swapped_step i lanes m); [lia..|done|lia|lia|].
    replace (bottom + (W - i) * spp * sz - lanes * spp * sz) with (bottom + (W - (i + lanes)) * spp * sz) by lia.
    apply swap_block_pair_exchanged, blocks_apart; lia.
  - intros i [[f b] m] Hi Hb [[= -> ->] Hm]. cbn [fst snd] in *.
    apply (pairs_swapped_step i 1 m); [lia..|done|lia|lia|].
    replace (bottom + (W - i) * spp * sz - spp * sz) with (bottom + (W - (i + 1)) * spp * sz) by lia.
    unfold blocks_exchanged. rewrite !Z.mul_1_l.
    pose proof (blocks_apart i 1 ltac:(lia) ltac:(lia) ltac:(lia)) as Hap. rewrite Z.mul_1_l in Hap.
    eapply exchanged_ext; [| |apply swap_ranges_exchanged; [apply sz_positive|lia|done]];
      intros k Hk; cbv beta; by rewrite rev_index_1.
  - destruct (Z.eqb_spec spp 3) as [H3|H3]; cbn [negb].
    + apply Unroll2.once_tail_invariant; done || lia.
    + apply Unroll2.twice_once_tail_invariant; try done; [lia|].
      intros i [[f b] m] Hi Hb [[= -> ->] Hm]. cbn [fst snd] in *.
      apply (pairs_swapped_step i (2 * lanes) m); [lia..|done|lia|lia|].
      replace (bottom + (W - i) * spp * sz - lanes * spp * 2 * sz)
        with (bottom + (W - (i + 2 * lanes)) * spp * sz) by lia.
      apply swap_2_blocks_exchanged; [lia|]. apply blocks_apart; lia.
Qed.
End reversed.
End in_place.

(** A row whose halves change places: the middle pixel of an odd width stays. *)
Lemma halves_filled row W mem mem' : 0 <= W ->
  let num := W / 2 in
  exchanged sz row 0 (num * spp) (fun k => mem (row + rev_index W k * sz))
    row ((W - num) * spp) (W * spp) (fun k => mem (row + rev_index W k * sz)) mem mem' ->
  filled sz row 0 (W * spp) (fun k => mem (row + rev_index W k * sz)) mem mem'.
Proof.
  intros HW num (H1 & H2 & H3). assert (0 <= num /\ (W = 2 * num \/ W = 2 * num + 1)) as [Hn Hodd] by (unfold num; mod_lia).
  split.
  - intros k Hk. destruct (decide (k < num * spp)); [apply H1; lia|].
    destruct (decide ((W - num) * spp <= k)); [apply H2; lia|].
    assert (num * spp <= k < num * spp + spp) as Hmid by nia.
    replace (rev_index W k) with k.
    + apply H3; intros k' Hk' Heq; apply element_inj in Heq; try lia; apply sz_positive.
    + replace k with (num * spp + (k - num * spp)) at 2 by lia. rewrite (rev_index_block W num 1 (k - num * spp)).
      rewrite rev_index_1 by lia. nia.
  - intros p Hp. apply H3; intros k Hk; apply Hp; nia.
Qed.
End rows.

(** ** Images *)

(** The rows and the pixels that are mirrored in a mode. *)
Definition flips_rows (flip_mode : Z) : bool := negb (flip_mode =? KLEIDICV_FLIP_HORIZONTAL).
Definition flips_pixels (flip_mode : Z) : bool := negb (flip_mode =? KLEIDICV_FLIP_VERTICAL).
Definition flip_mode_ok (flip_mode : Z) : Prop :=
  flip_mode = KLEIDICV_FLIP_HORIZONTAL \/ flip_mode = KLEIDICV_FLIP_VERTICAL \/ flip_mode = KLEIDICV_FLIP_BOTH.

(** Comparisons of two modes. *)
Ltac compare_modes :=
  repeat match goal with
  | H : context [?a =? ?b] |- _ => lazymatch eval vm_compute in (a =? b) with true => idtac | false => idtac end; let v := eval vm_compute in (a =? b) in change (a =? b) with v in H
  | |- context [?a =? ?b] => lazymatch eval vm_compute in (a =? b) with true => idtac | false => idtac end; let v := eval vm_compute in (a =? b) in change (a =? b) with v
  end; cbv iota in *.

(** No element of one image overlaps an element of the other. *)
Definition images_apart (sz width height : Z) (a b : Z * Z) : Prop :=
  forall y x y' x', 0 <= y < height -> 0 <= x < width -> 0 <= y' < height -> 0 <= x' < width ->
    sz <= Z.abs (pixel_address sz a y x - pixel_address sz b y' x').

(** Where the images are: in the address space, in place or without overlap. *)
Definition flip_placed (sz spp W H : Z) (src dst : Z * Z) : Prop :=
  in_address_space sz (W * spp) H src /\ in_address_space sz (W * spp) H dst /\
  same_or_apart sz (W * spp) H dst dst /\ (src.1 = dst.1 \/ images_apart sz (W * spp) H src dst).

Section images.
Context (sz spp W H mode : Z) (src dst : Z * Z).
Hypothesis scalar_size : sz = 1 \/ sz = 2 \/ sz = 4 \/ sz = 8.
Hypothesis pixel_scalars : spp = 1 \/ spp = 3.
Hypothesis size_ok : 0 <= W /\ 0 <= H < 2 ^ 63.
Hypothesis mode_ok : flip_mode_ok mode.
Hypothesis src_ok : in_address_space sz (W * spp) H src.
Hypothesis dst_ok : in_address_space sz (W * spp) H dst.
Hypothesis dst_apart : same_or_apart sz (W * spp) H dst dst.
Hypothesis together : src = dst \/ src.1 <> dst.1 /\ images_apart sz (W * spp) H src dst.

Definition is_in_place : bool := src.1 =? dst.1.
Let rect : Rectangle := {| width_ := W; height_ := H |}.
Let rows (image : Z * Z) : Rows := {| ptr_ := image.1; stride_ := image.2; channels_ := spp; sizeof_ := sz |}.

(** The scalars of the destination and where they come from. *)
Definition scalar_in (i : Z * Z) : Prop := 0 <= i.1 < H /\ 0 <= i.2 < W * spp.
Definition flip_y (y : Z) : Z := if flips_rows mode then H - 1 - y else y.
Definition flip_x (k : Z) : Z := if flips_pixels mode then rev_index spp W k else k.
Definition flip_target (i : Z * Z) : Z := pixel_address sz dst i.1 i.2.
Definition flip_source (i : Z * Z) : Z := pixel_address sz src (flip_y i.1) (flip_x i.2).
Definition flip_item (i : Z * Z) : Z :=
  if is_in_place then (if flips_rows mode then Z.min i.1 (H - 1 - i.1) else i.1) else flip_y i.1.

Let moved := moved scalar_in flip_target flip_source flip_item.

Lemma in_image y x : 0 <= y < H -> 0 <= x < W * spp -> scalar_in (y, x).
Proof. by split. Qed.

Lemma flip_y_range y : 0 <= y < H -> 0 <= flip_y y < H.
Proof. unfold flip_y. destruct (flips_rows mode); lia. Qed.

Lemma flip_x_range k : 0 <= k < W * spp -> 0 <= flip_x k < W * spp.
Proof. unfold flip_x. destruct (flips_pixels mode); [by apply rev_index_range|done]. Qed.

Lemma pixels_distinct y x y' x' : 0 <= y < H -> 0 <= x < W * spp -> 0 <= y' < H -> 0 <= x' < W * spp ->
  pixel_address sz dst y x = pixel_address sz dst y' x' -> y = y' /\ x = x'.
Proof. intros Hy Hx Hy' Hx' Heq. destruct (dst_apart y x y' x' Hy Hx Hy' Hx') as (? & ? & _); lia. Qed.

#[local] Instance flip_independent : Independent scalar_in flip_target flip_source flip_item.
Proof.
  split; intros [y k] [y' k'] [Hy Hk] [Hy' Hk'] Heq; cbn [fst snd] in *; unfold flip_source, flip_target in Heq; cbn [fst snd] in Heq.
  - destruct (pixels_distinct y k y' k') as [-> _]; done.
  - pose proof (flip_y_range y Hy) as Hfy. pose proof (flip_x_range k Hk) as Hfx.
    destruct together as [He|[Hne Hap]].
    + rewrite He in Heq. destruct (pixels_distinct (flip_y y) (flip_x k) y' k') as [<- _]; try done.
      unfold flip_item, is_in_place. rewrite He, Z.eqb_refl. unfold flip_y. cbn [fst]. destruct (flips_rows mode); lia.
    + specialize (Hap (flip_y y) (flip_x k) y' k' Hfy Hfx Hy' Hk'). lia.
Qed.

Lemma row_pointer_at image y : in_address_space sz (W * spp) H image -> 0 <= y < H ->
  row_pointer (rows image) y = image.1 + y * image.2.
Proof.
  intros (Hp & Hs & _ & Hend) Hy. unfold row_pointer, rows_at, rows, get_pointer_at. cbn [ptr_ with_ptr stride_ channels_ sizeof_].
  rewrite to_ptrdiff_small by lia. rewrite Z.mul_0_l, Z.add_0_r. unfold add_stride.
  rewrite (proj2 (Z.leb_le 0 (y * image.2))) by nia. apply size_add_small; nia.
Qed.

Lemma mirror_row y : 0 <= y < H -> H ⊟ y ⊟ 1 = H - 1 - y.
Proof. intros Hy. rewrite (size_sub_small H) by lia. rewrite size_sub_small by lia. lia. Qed.

(** An item that fills row [y]. *)
Lemma filled_moved k y m m' : 0 <= y < H -> (forall i, scalar_in i -> k = flip_item i <-> i.1 = y) ->
  filled sz (dst.1 + y * dst.2) 0 (W * spp) (fun x => m (flip_source (y, x))) m m' -> moved (eq k) m m'.
Proof.
  intros Hy Hk [H1 H2]. split.
  - intros [y' x] Hi Hki. pose proof (proj1 (Hk _ Hi) Hki) as Heq. cbn [fst] in Heq. subst y'.
    unfold flip_target, pixel_address. cbn [fst snd]. apply H1. exact (proj2 Hi).
  - intros p Hp. apply H2. intros x Hx ->. apply (Hp (y, x)); [by split|by apply Hk|done].
Qed.

(** An item that exchanges rows [y] and [y']. *)
Lemma exchanged_moved k y y' m m' : 0 <= y < H -> 0 <= y' < H ->
  (forall i, scalar_in i -> k = flip_item i <-> i.1 = y \/ i.1 = y') ->
  exchanged sz (dst.1 + y * dst.2) 0 (W * spp) (fun x => m (flip_source (y, x)))
    (dst.1 + y' * dst.2) 0 (W * spp) (fun x => m (flip_source (y', x))) m m' -> moved (eq k) m m'.
Proof.
  intros Hy Hy' Hk (H1 & H2 & H3). split.
  - intros [y0 x] Hi Hki. unfold flip_target, pixel_address. cbn [fst snd].
    destruct (proj1 (Hk _ Hi) Hki) as [Heq|Heq]; cbn [fst] in Heq; subst y0; [apply H1|apply H2]; exact (proj2 Hi).
  - intros p Hp. apply H3; intros x Hx ->.
    + exact (Hp (y, x) (in_image y x Hy Hx) (proj2 (Hk _ (in_image y x Hy Hx)) (or_introl eq_refl)) eq_refl).
    + exact (Hp (y', x) (in_image y' x Hy' Hx) (proj2 (Hk _ (in_image y' x Hy' Hx)) (or_intror eq_refl)) eq_refl).
Qed.

Lemma rows_apart_in_place y y' : 0 <= y < H -> 0 <= y' < H -> y <> y' ->
  apart sz (dst.1 + y * dst.2) 0 (W * spp) (dst.1 + y' * dst.2) 0 (W * spp).
Proof.
  intros Hy Hy' Hne x x' Hx Hx' Heq. destruct (pixels_distinct y x y' x') as [? _]; try done.
Qed.

(** *** Items *)

Lemma item_to_dst y k : src.1 <> dst.1 -> 0 <= y < H -> k = flip_y y -> forall i, scalar_in i -> k = flip_item i <-> i.1 = y.
Proof.
  intros Hne Hy -> i [Hi _]. unfold flip_item, is_in_place. rewrite (proj2 (Z.eqb_neq _ _) Hne). unfold flip_y.
  destruct (flips_rows mode); lia.
Qed.

(** The rows of the source are apart from those of the destination. *)
Lemma rows_apart_to_dst y y' : src.1 <> dst.1 -> 0 <= y < H -> 0 <= y' < H ->
  apart sz (src.1 + y * src.2) 0 (W * spp) (dst.1 + y' * dst.2) 0 (W * spp).
Proof.
  intros Hne Hy Hy' x x' Hx Hx' Heq. destruct together as [He|[_ Hap]]; [by rewrite He in Hne|].
  specialize (Hap y x y' x' Hy Hx Hy' Hx'). unfold pixel_address in Hap. lia.
Qed.

Lemma row_width : 0 < H -> 0 <= W /\ W * spp < 2 ^ 64.
Proof. intros _. destruct dst_ok as (_ & _ & Hw & _). nia. Qed.

Lemma flip_source_row y x : flip_source (y, x) = src.1 + flip_y y * src.2 + flip_x x * sz.
Proof. done. Qed.

Lemma to_dst_item k m : src.1 <> dst.1 -> 0 <= k < H ->
  exists m', (if flips_pixels mode then copy_reversed_row_to_dst sz spp else copy_row_to_dst sz spp)
      (src.1 + k * src.2) (dst.1 + flip_y k * dst.2) W m = Some m' /\ moved (eq k) m m'.
Proof.
  intros Hne Hk. pose proof (flip_y_range k Hk) as Hy.
  assert (flip_y (flip_y k) = k) as Hinv by (unfold flip_y; destruct (flips_rows mode); lia).
  pose proof (rows_apart_to_dst k (flip_y k) Hne Hk Hy) as Hap. pose proof (row_width ltac:(lia)) as Hw.
  pose proof (item_to_dst (flip_y k) k Hne Hy (eq_sym Hinv)) as Hitem.
  destruct (flips_pixels mode) eqn:Hp.
  - destruct (copy_reversed_row_correct sz spp scalar_size pixel_scalars _ _ W m Hw Hap) as (m' & -> & Hf).
    exists m'. split; [done|]. apply (filled_moved k (flip_y k)); [done|done|].
    eapply filled_ext; [|exact Hf]. intros x Hx. cbv beta. rewrite flip_source_row, Hinv. unfold flip_x. by rewrite Hp.
  - destruct (copy_row_correct sz spp scalar_size pixel_scalars _ _ W m Hw Hap) as (m' & -> & Hf).
    exists m'. split; [done|]. apply (filled_moved k (flip_y k)); [done|done|].
    eapply filled_ext; [|exact Hf]. intros x Hx. cbv beta. rewrite flip_source_row, Hinv. unfold flip_x. by rewrite Hp.
Qed.

(** [over_items] as a loop of transfers. *)
Lemma over_items_moved b e step m : b <= e ->
  (forall k m, b <= k < e -> exists m', step k m = Some m' /\ moved (eq k) m m') ->
  exists m', over_items b e step m = Some (KLEIDICV_OK, m') /\ moved (range b e) m m'.
Proof.
  intros Hbe Hstep. unfold over_items.
  destruct (for_range_moved scalar_in flip_target flip_source flip_item step b e m Hbe Hstep) as (m' & -> & Hm). by exists m'.
Qed.

Lemma flip_to_dst_moved b e m : src.1 <> dst.1 -> 0 <= b <= e -> e <= H ->
  exists m', flip_to_dst sz spp rect (rows src) (rows dst) mode b e m = Some (KLEIDICV_OK, m') /\ moved (range b e) m m'.
Proof.
  intros Hne Hb He. unfold flip_to_dst. cbn [width_ height_ rect].
  destruct mode_ok as [Hm|[Hm|Hm]]; rewrite Hm; compare_modes;
    (apply over_items_moved; [lia|]; intros k m1 Hk; rewrite ?mirror_row by lia; rewrite !row_pointer_at by (done || lia);
     pose proof (to_dst_item k m1 Hne ltac:(lia)) as Hi; unfold flip_y in Hi; rewrite Hm in Hi; exact Hi).
Qed.
(** *** Items in place *)

Section same_image.
Hypothesis same : src = dst.

Lemma flip_source_here y x : flip_source (y, x) = dst.1 + flip_y y * dst.2 + flip_x x * sz.
Proof. unfold flip_source, pixel_address. by rewrite same. Qed.

Lemma item_here i : scalar_in i -> flip_item i = if flips_rows mode then Z.min i.1 (H - 1 - i.1) else i.1.
Proof. intros _. unfold flip_item, is_in_place. by rewrite same, Z.eqb_refl. Qed.

(** A row that is reversed in itself. *)
Lemma reverse_row_item k m : flips_pixels mode = true -> 0 <= k < H -> flip_y k = k ->
  exists m', swap_reversed_row_pair_in_place sz spp (dst.1 + k * dst.2) (dst.1 + k * dst.2) W (W / 2) m = Some m' /\
    moved (eq k) m m'.
Proof.
  intros Hp Hk Hy. pose proof (row_width ltac:(lia)) as Hw.
  assert (0 <= W / 2 <= W) as Hnum by mod_lia. assert (2 * (W / 2) <= W) as Hhalf by mod_lia.
  destruct (swap_reversed_row_pair_correct sz spp scalar_size pixel_scalars (dst.1 + k * dst.2) (dst.1 + k * dst.2) W m Hw
    (W / 2) Hnum) as (m' & -> & Hex).
  { intros x x' Hx Hx' Heq. assert (x = x') by (apply (element_inj sz (sz_positive sz scalar_size) (dst.1 + k * dst.2)); done). nia. }
  exists m'. split; [done|]. apply halves_filled in Hex; [|done..|lia].
  apply (filled_moved k k); [done| |].
  - intros i Hi. rewrite item_here by done. destruct Hi as [Hi _]. unfold flip_y in Hy. destruct (flips_rows mode); lia.
  - eapply filled_ext; [|exact Hex]. intros x Hx. cbv beta. rewrite flip_source_here, Hy. unfold flip_x. by rewrite Hp.
Qed.

(** Two mirrored rows. *)
Lemma mirrored_rows_item k m : flips_rows mode = true -> 0 <= k < H - 1 - k ->
  exists m', (if flips_pixels mode then fun top bottom w => swap_reversed_row_pair_in_place sz spp top bottom w W
              else swap_row_pair_in_place sz spp)
      (dst.1 + k * dst.2) (dst.1 + (H - 1 - k) * dst.2) W m = Some m' /\ moved (eq k) m m'.
Proof.
  intros Hr Hk. pose proof (row_width ltac:(lia)) as Hw.
  pose proof (rows_apart_in_place k (H - 1 - k) ltac:(lia) ltac:(lia) ltac:(lia)) as Hap.
  assert (forall i, scalar_in i -> k = flip_item i <-> i.1 = k \/ i.1 = H - 1 - k) as Hitem.
  { intros i Hi. rewrite item_here by done. destruct Hi as [Hi _]. rewrite Hr. lia. }
  assert (flip_y k = H - 1 - k /\ flip_y (H - 1 - k) = k) as [Hy Hy'] by (unfold flip_y; rewrite Hr; lia).
  destruct (flips_pixels mode) eqn:Hp.
  - destruct (swap_reversed_row_pair_correct sz spp scalar_size pixel_scalars (dst.1 + k * dst.2) (dst.1 + (H - 1 - k) * dst.2) W m Hw
      W ltac:(lia)) as (m' & -> & Hex).
    { by rewrite Z.sub_diag, Z.mul_0_l. }
    rewrite Z.sub_diag, Z.mul_0_l in Hex. exists m'. split; [done|].
    apply (exchanged_moved k k (H - 1 - k)); [lia|lia|done|].
    eapply exchanged_ext; [| |exact Hex]; intros x Hx; cbv beta; rewrite flip_source_here, ?Hy, ?Hy'; unfold flip_x; by rewrite Hp.
  - destruct (swap_row_pair_correct sz spp scalar_size pixel_scalars (dst.1 + k * dst.2) (dst.1 + (H - 1 - k) * dst.2) W m Hw Hap)
      as (m' & -> & Hex).
    exists m'. split; [done|]. apply (exchanged_moved k k (H - 1 - k)); [lia|lia|done|].
    eapply exchanged_ext; [| |exact Hex]; intros x Hx; cbv beta; rewrite flip_source_here, ?Hy, ?Hy'; unfold flip_x; by rewrite Hp.
Qed.

Lemma flip_in_place_moved b e m : 0 <= b <= e -> e <= flip_work_item_count H true mode ->
  exists m', flip_in_place sz spp rect (rows dst) mode b e m = Some (KLEIDICV_OK, m') /\ moved (range b e) m m'.
Proof.
  intros Hb He. unfold flip_in_place. cbn [width_ height_ rect]. unfold flip_work_item_count in He. cbn [negb orb] in He.
  destruct mode_ok as [Hm|[Hm|Hm]]; rewrite Hm in He |- *;
    compare_modes;
    (apply over_items_moved; [lia|]); intros k m1 Hk.
  - rewrite row_pointer_at by (done || lia). apply reverse_row_item; [by rewrite Hm|lia|].
    unfold flip_y, flips_rows. by rewrite Hm.
  - assert (2 * (H / 2) <= H) by mod_lia. rewrite mirror_row by lia. rewrite !row_pointer_at by (done || lia).
    pose proof (mirrored_rows_item k m1) as Hi. rewrite Hm in Hi. apply Hi; [done|lia].
  - rewrite size_add_small in He by lia. assert (2 * ((H + 1) / 2) <= H + 1) by mod_lia.
    rewrite mirror_row by lia. rewrite !row_pointer_at by (done || lia). destruct (Z.eqb_spec k (H - 1 - k)) as [Heq|Hne].
    + rewrite <- Heq. apply reverse_row_item; [by rewrite Hm|lia|]. unfold flip_y. rewrite Hm. change (flips_rows KLEIDICV_FLIP_BOTH) with true. cbv iota. lia.
    + pose proof (mirrored_rows_item k m1) as Hi. rewrite Hm in Hi. apply Hi; [done|lia].
Qed.
End same_image.

Lemma flip_work_items_moved b e m : 0 <= b <= e -> e <= flip_work_item_count H is_in_place mode ->
  exists m', flip_work_items_impl sz spp src.1 src.2 W H dst.1 dst.2 mode b e m = Some (KLEIDICV_OK, m') /\ moved (range b e) m m'.
Proof.
  intros Hb He. unfold flip_work_items_impl. change (src.1 =? dst.1) with is_in_place.
  destruct (bool_dec is_in_place true) as [Hin|Hin%not_true_iff_false]; rewrite Hin in He |- *.
  - apply Z.eqb_eq in Hin. destruct together as [Hs|[Hs _]]; [|done]. by apply flip_in_place_moved.
  - apply Z.eqb_neq in Hin. by apply flip_to_dst_moved.
Qed.

(** What is left when all items are done. *)
Lemma flip_all m m' : moved (range 0 (flip_work_item_count H is_in_place mode)) m m' -> moved (fun _ => True) m m'.
Proof.
  apply moved_fixed; [exact flip_independent|]. intros [y x] [Hy Hx]. cbn [fst snd] in *.
  unfold range, flip_item, flip_work_item_count. cbn [fst].
  destruct is_in_place eqn:Hin; cbn [negb orb].
  - unfold is_in_place in Hin. apply Z.eqb_eq in Hin. destruct together as [Hs|[Hs _]]; [|done].
    destruct mode_ok as [Hm|[Hm|Hm]]; rewrite Hm; unfold flips_rows; compare_modes; cbn [negb].
    + left. lia.
    + destruct (decide (Z.min y (H - 1 - y) < H / 2)) as [Hlt|Hge]; [left; lia|right].
      assert (y = H - 1 - y) by mod_lia. split; [lia|]. unfold flip_source, flip_target, flip_y, flip_x, flips_rows, flips_pixels.
      rewrite Hm, Hs. compare_modes. cbn [negb fst snd]. f_equal. lia.
    + left. rewrite size_add_small by lia. assert (H < 2 * ((H + 1) / 2) + 1) by mod_lia. lia.
  - left. pose proof (flip_y_range y Hy). lia.
Qed.
End images.

(** ** Calls *)

(** The arguments that pass the checks of [kleidicv_flip] for a pixel of scalars of [sz]
    bytes, which ask for the alignment of a scalar.  The documentation asks for the alignment
    of a pixel, which for the pixels of three scalars is more: [documented_flip_accepted]. *)
Definition flip_accepts (sz W H mode : Z) (src dst : Z * Z) : Prop :=
  src.1 <> 0 /\ dst.1 <> 0 /\ src.1 mod sz = 0 /\ dst.1 mod sz = 0 /\
  (1 < H -> src.2 mod sz = 0 /\ dst.2 mod sz = 0) /\
  W * H <= KLEIDICV_MAX_IMAGE_PIXELS /\ (src.1 = dst.1 -> src.2 = dst.2) /\ flip_mode_ok mode.

(** What an accepted call leaves: every scalar of the destination comes from the mirrored
    pixel, and nothing else is written. *)
Definition flipped (sz spp W H mode : Z) (src dst : Z * Z) (mem mem' : Z -> Z) : Prop :=
  (forall y x c, 0 <= y < H -> 0 <= x < W -> 0 <= c < spp ->
    mem' (pixel_address sz dst y (x * spp + c)) =
    mem (pixel_address sz src (if flips_rows mode then H - 1 - y else y)
      ((if flips_pixels mode then W - 1 - x else x) * spp + c))) /\
  (forall p, (forall y k, 0 <= y < H -> 0 <= k < W * spp -> p <> pixel_address sz dst y k) -> mem' p = mem p).

(** A call succeeds exactly for accepted arguments, and otherwise writes nothing. *)
Definition flip_outcome (sz spp W H mode : Z) (src dst : Z * Z) (mem : Z -> Z) (err : kleidicv_error_t) (mem' : Z -> Z) : Prop :=
  (err = KLEIDICV_OK /\ flip_accepts sz W H mode src dst /\ flipped sz spp W H mode src dst mem mem') \/
  (err <> KLEIDICV_OK /\ ~ flip_accepts sz W H mode src dst /\ mem' = mem).

Lemma aligned_scalar sz v : sz = 1 \/ sz = 2 \/ sz = 4 \/ sz = 8 -> is_misaligned sz v = false <-> v mod sz = 0.
Proof.
  intros Hs. assert (exists n, 0 <= n < 64 /\ sz = 2 ^ n) as (n & Hn & ->).
  { destruct Hs as [->|[->|[->| ->]]]; [by exists 0|by exists 1|by exists 2|by exists 3]. }
  rewrite is_misaligned_spec by done. rewrite negb_false_iff. apply Z.eqb_eq.
Qed.

Lemma check_pointer_alignment_ok sz v : sz = 1 \/ sz = 2 \/ sz = 4 \/ sz = 8 ->
  check_pointer_alignment sz v = KLEIDICV_OK <-> v mod sz = 0.
Proof.
  intros Hs. rewrite <- aligned_scalar by done. unfold check_pointer_alignment. destruct (Z.ltb_spec 1 sz).
  - by destruct (is_misaligned sz v).
  - assert (sz = 1) as -> by lia. by rewrite (aligned_scalar 1), Z.mod_1_r by lia.
Qed.

Lemma flip_mode_decided mode :
  (mode =? KLEIDICV_FLIP_HORIZONTAL) || (mode =? KLEIDICV_FLIP_VERTICAL) || (mode =? KLEIDICV_FLIP_BOTH) = true <-> flip_mode_ok mode.
Proof. unfold flip_mode_ok. rewrite !orb_true_iff, !Z.eqb_eq. tauto. Qed.

Lemma flip_validate_type_ok sz src dst W H mode : sz = 1 \/ sz = 2 \/ sz = 4 \/ sz = 8 -> 0 <= W -> 0 <= H ->
  flip_validate_type sz src.1 src.2 W H dst.1 dst.2 mode = KLEIDICV_OK <-> flip_accepts sz W H mode src dst.
Proof.
  intros Hs HW HH. unfold flip_validate_type, flip_accepts.
  rewrite !guard_error_ok, !check_pointer_alignment_ok, !check_pointer_and_stride_ok, check_image_size_iff by done.
  pose proof (flip_mode_decided mode) as Hm.
  assert ((if (src.1 =? dst.1) && negb (src.2 =? dst.2) then KLEIDICV_ERROR_RANGE
    else if (mode =? KLEIDICV_FLIP_HORIZONTAL) || (mode =? KLEIDICV_FLIP_VERTICAL) || (mode =? KLEIDICV_FLIP_BOTH)
    then KLEIDICV_OK else KLEIDICV_ERROR_NOT_IMPLEMENTED) = KLEIDICV_OK <->
    (src.1 = dst.1 -> src.2 = dst.2) /\ flip_mode_ok mode) as Hlast.
  { rewrite <- Hm. destruct (_ || _), (Z.eqb_spec src.1 dst.1) as [He|He], (Z.eqb_spec src.2 dst.2) as [He2|He2];
      cbn [andb negb]; intuition congruence. }
  rewrite Hlast. assert (forall v, (1 < H -> sz <> 1 -> is_misaligned sz v = false) <-> (1 < H -> v mod sz = 0)) as Hal.
  { intros v. rewrite aligned_scalar by done. split; [|tauto]. intros Hv HH1.
    destruct (Z.eq_dec sz 1) as [->|]; [apply Z.mod_1_r|by apply Hv]. }
  rewrite !Hal. tauto.
Qed.

Lemma pixel_layout_sizes pixel_size sz spp : pixel_layout pixel_size = Some (sz, spp) ->
  (sz = 1 \/ sz = 2 \/ sz = 4 \/ sz = 8) /\ (spp = 1 \/ spp = 3) /\ pixel_size = sz * spp.
Proof.
  unfold pixel_layout. repeat match goal with |- context [?a =? ?b] => destruct (Z.eqb_spec a b) end; intros [= <- <-]; lia.
Qed.

(** The arguments that the documentation of flip allows: pointers and strides are multiples of
    the size of a pixel, and a stride is not shorter than a row. *)
Definition documented_flip (pixel_size W H mode : Z) (src dst : Z * Z) : Prop :=
  src.1 <> 0 /\ dst.1 <> 0 /\ (pixel_size | src.1) /\ (pixel_size | dst.1) /\
  (1 < H -> (pixel_size | src.2) /\ W * pixel_size <= src.2 /\ (pixel_size | dst.2) /\ W * pixel_size <= dst.2) /\
  W * H <= KLEIDICV_MAX_IMAGE_PIXELS /\ (src.1 = dst.1 -> src.2 = dst.2) /\ flip_mode_ok mode.

Lemma pixel_aligned sz spp pixel_size v : pixel_layout pixel_size = Some (sz, spp) -> (pixel_size | v) -> v mod sz = 0.
Proof.
  intros Hl [k ->]. destruct (pixel_layout_sizes _ _ _ Hl) as (Hsz & _ & ->).
  rewrite Z.mul_assoc, (Z.mul_comm (k * sz)), Z.mul_assoc. apply Z.mod_mul. lia.
Qed.

Lemma documented_flip_accepted sz spp pixel_size W H mode src dst : pixel_layout pixel_size = Some (sz, spp) ->
  documented_flip pixel_size W H mode src dst -> flip_accepts sz W H mode src dst.
Proof.
  intros Hl (Hs & Hd & Has & Had & Hst & Hsize & Hsame & Hm). pose proof (fun v => pixel_aligned sz spp pixel_size v Hl) as Hdiv.
  unfold flip_accepts. split_and!; auto. intros Hn. destruct (Hst Hn) as (? & _ & ? & _). by split; apply Hdiv.
Qed.

(** An address of 3-byte pixels that is not a multiple of three passes the checks. *)
Lemma undocumented_flip_accepted :
  flip_accepts 1 19 3 KLEIDICV_FLIP_BOTH (1000, 60) (1000, 60) /\ ~ documented_flip 3 19 3 KLEIDICV_FLIP_BOTH (1000, 60) (1000, 60).
Proof.
  split.
  - unfold flip_accepts. cbn [fst snd]. split_and!; try done. by right; right.
  - intros (_ & _ & [k Hk] & _). cbn [fst] in Hk. lia.
Qed.

(** A scalar of a pixel. *)
Lemma flipped_of_moved sz spp W H mode src dst mem mem' : spp = 1 \/ spp = 3 ->
  moved (scalar_in spp W H) (flip_target sz dst) (flip_source sz spp W H mode src) (flip_item H mode src dst) (fun _ => True) mem mem' ->
  flipped sz spp W H mode src dst mem mem'.
Proof.
  intros Hs [H1 H2]. split.
  - intros y x c Hy Hx Hc. assert (0 <= x * spp + c < W * spp) as Hk by nia.
    pose proof (H1 (y, x * spp + c) (in_image spp W H _ _ Hy Hk) I) as Heq. unfold flip_target, flip_source in Heq. cbn [fst snd] in Heq.
    rewrite Heq. f_equal. f_equal. unfold flip_x. destruct (flips_pixels mode); [|done].
    unfold rev_index. rewrite Z.div_add_l, Z.div_small by lia. rewrite (Z.add_comm (x * spp)), Z.mod_add, Z.mod_small by lia. lia.
  - intros p Hp. apply H2. intros [y k] [Hy Hk] _. by apply Hp.
Qed.

Lemma flipped_empty sz spp W H mode src dst mem : W = 0 \/ H = 0 -> flipped sz spp W H mode src dst mem mem.
Proof. intros He. split; [lia|done]. Qed.

(** The images of an accepted call. *)
Lemma flip_together sz spp W H src dst : flip_placed sz spp W H src dst -> (src.1 = dst.1 -> src.2 = dst.2) ->
  src = dst \/ src.1 <> dst.1 /\ images_apart sz (W * spp) H src dst.
Proof.
  intros (_ & _ & _ & Hp) Hstride. destruct (decide (src.1 = dst.1)) as [He|He].
  - left. destruct src, dst. cbn in *. rewrite He. f_equal. by apply Hstride.
  - right. split; [done|]. by destruct Hp.
Qed.

Lemma accepted_together sz spp W H mode src dst : 0 < W -> 0 <= H -> flip_placed sz spp W H src dst ->
  flip_accepts sz W H mode src dst ->
  (src = dst \/ src.1 <> dst.1 /\ images_apart sz (W * spp) H src dst) /\ H < 2 ^ 63 /\ flip_mode_ok mode.
Proof.
  intros HW HH Hp (_ & _ & _ & _ & _ & Hsize & Hstride & Hm). split; [by apply flip_together|]. split; [|done].
  unfold KLEIDICV_MAX_IMAGE_PIXELS in Hsize. change (Z.shiftl 1 48 - 1) with (2 ^ 48 - 1) in Hsize. nia.
Qed.

Lemma work_items_range H here mode : 0 <= H < 2 ^ 63 -> 0 <= flip_work_item_count H here mode <= H.
Proof.
  intros HH. unfold flip_work_item_count. destruct (negb here || _); [lia|]. destruct (_ =? _); [mod_lia|].
  rewrite size_add_small by lia. destruct (Z.eq_dec H 0) as [->|]; [done|]. mod_lia.
Qed.

(** The work items of an accepted call. *)
Lemma accepted_items sz spp pixel_size W H mode src dst b e mem : pixel_layout pixel_size = Some (sz, spp) ->
  0 < W -> 0 < H -> flip_placed sz spp W H src dst -> flip_accepts sz W H mode src dst ->
  0 <= b <= e -> e <= flip_work_item_count H (src.1 =? dst.1) mode ->
  exists mem', flip_work_items src.1 src.2 W H dst.1 dst.2 mode pixel_size b e mem = Some (KLEIDICV_OK, mem') /\
    moved (scalar_in spp W H) (flip_target sz dst) (flip_source sz spp W H mode src) (flip_item H mode src dst) (range b e) mem mem'.
Proof.
  intros Hl HW HH Hp Ha Hb He.
  destruct (pixel_layout_sizes _ _ _ Hl) as (Hsz & Hspp & _). unfold flip_work_items. rewrite Hl.
  destruct (accepted_together sz spp W H mode src dst HW ltac:(lia) Hp Ha) as (Htog & HH2 & Hm).
  destruct Hp as (Hsrc & Hdst & Hself & _).
  apply flip_work_items_moved; done || lia.
Qed.

Lemma accepted_all sz spp W H mode src dst mem mem' : (sz = 1 \/ sz = 2 \/ sz = 4 \/ sz = 8) -> (spp = 1 \/ spp = 3) ->
  0 < W -> 0 < H -> flip_placed sz spp W H src dst -> flip_accepts sz W H mode src dst ->
  moved (scalar_in spp W H) (flip_target sz dst) (flip_source sz spp W H mode src) (flip_item H mode src dst)
    (range 0 (flip_work_item_count H (src.1 =? dst.1) mode)) mem mem' ->
  flipped sz spp W H mode src dst mem mem'.
Proof.
  intros Hsz Hspp HW HH Hp Ha Hmoved.
  destruct (accepted_together sz spp W H mode src dst HW ltac:(lia) Hp Ha) as (Htog & HH2 & Hm).
  destruct Hp as (Hsrc & Hdst & Hself & _).
  apply flipped_of_moved; [done|]. apply flip_all; done || lia.
Qed.

Lemma flip_run src dst W H mode pixel_size sz spp mem : pixel_layout pixel_size = Some (sz, spp) ->
  0 <= W -> 0 <= H -> flip_placed sz spp W H src dst ->
  exists err mem', flip src.1 src.2 W H dst.1 dst.2 mode pixel_size mem = Some (err, mem') /\
    flip_outcome sz spp W H mode src dst mem err mem'.
Proof.
  intros Hl HW HH Hp. destruct (pixel_layout_sizes _ _ _ Hl) as (Hsz & Hspp & _).
  unfold flip, flip_validate. rewrite Hl.
  pose proof (flip_validate_type_ok sz src dst W H mode Hsz HW HH) as Hok.
  destruct (flip_validate_type sz src.1 src.2 W H dst.1 dst.2 mode) eqn:Hv;
    try (eexists _, mem; split; [reflexivity|]; right; split; [done|]; split; [|done]; intros Ha; by apply Hok in Ha).
  pose proof (proj1 Hok eq_refl) as Ha. destruct (Z.eqb_spec W 0) as [H0|H0].
  { exists KLEIDICV_OK, mem. split; [done|]. left. split; [done|]. split; [done|]. apply flipped_empty. by left. }
  destruct (Z.eqb_spec H 0) as [H1|H1]; cbn [orb].
  { exists KLEIDICV_OK, mem. split; [done|]. left. split; [done|]. split; [done|]. apply flipped_empty. by right. }
  pose proof (work_items_range H (src.1 =? dst.1) mode
    ltac:(destruct (accepted_together sz spp W H mode src dst ltac:(lia) HH Hp Ha); lia)) as Hcount.
  destruct (accepted_items sz spp pixel_size W H mode src dst 0 (flip_work_item_count H (src.1 =? dst.1) mode) mem Hl
    ltac:(lia) ltac:(lia) Hp Ha ltac:(lia) ltac:(lia)) as (mem' & Hrun & Hm).
  exists KLEIDICV_OK, mem'. split; [done|]. left. split; [done|]. split; [done|].
  apply accepted_all; done || lia.
Qed.

(** ** Properties *)

(** C13: [kleidicv_flip], for every pixel size, mode and image size, in place or into
    another image: a pixel size without a layout is not implemented; otherwise the call
    succeeds exactly for the arguments that pass its checks (which ask less than the
    documentation: scalar alignment, and no lower bound for the strides), and then every
    scalar of the destination is the scalar of the mirrored pixel of the source, whatever
    the blocks, remainders and row pairs it is cut into, and nothing else is written. *)
Theorem flip_correct src dst W H mode pixel_size mem : 0 <= W -> 0 <= H ->
  match pixel_layout pixel_size with
  | None => flip src.1 src.2 W H dst.1 dst.2 mode pixel_size mem = Some (KLEIDICV_ERROR_NOT_IMPLEMENTED, mem)
  | Some (sz, spp) => flip_placed sz spp W H src dst ->
      exists err mem', flip src.1 src.2 W H dst.1 dst.2 mode pixel_size mem = Some (err, mem') /\
        flip_outcome sz spp W H mode src dst mem err mem'
  end.
Proof.
  intros HW HH. destruct (pixel_layout pixel_size) as [[sz spp]|] eqn:Hl.
  - intros Hp. by apply flip_run.
  - unfold flip, flip_validate. by rewrite Hl.
Qed.

Lemma flip_correct_witness :
  exists mem', flip 999 60 19 3 999 60 KLEIDICV_FLIP_BOTH 3 (fun p => p) = Some (KLEIDICV_OK, mem') /\
    mem' 1000 = 999 + 2 * 60 + 18 * 3 + 1 /\ mem' 1059 = 1059 + 18 * 3 /\ mem' 1056 = 1056.
Proof.
  destruct (flip_correct (999, 60) (999, 60) 19 3 KLEIDICV_FLIP_BOTH 3 (fun p => p)) as (err & mem' & Hrun & Hout); [lia|lia| |].
  - unfold flip_placed, in_address_space, same_or_apart, pixel_address. cbn [fst snd]. split; [lia|]. split; [lia|].
    split; [intros; lia|by left].
  - exists mem'. destruct Hout as [(-> & _ & Hf & Hrest)|(_ & Hna & _)].
    + split; [exact Hrun|]. split; [exact (Hf 0 0 1 ltac:(lia) ltac:(lia) ltac:(lia))|].
      split; [exact (Hf 1 0 0 ltac:(lia) ltac:(lia) ltac:(lia))|]. apply Hrest. unfold pixel_address. cbn [fst snd]. intros; lia.
    + exfalso. apply Hna. unfold flip_accepts. cbn [fst snd]. split; [lia|]. split; [lia|]. split; [done|]. split; [done|].
      split; [done|]. split; [done|]. split; [done|]. by right; right.
Defined.

(** Flipping an image in place twice, in the same mode, gives back every byte of memory. *)
Theorem flip_twice_restores image W H mode pixel_size sz spp mem :
  pixel_layout pixel_size = Some (sz, spp) -> 0 <= W -> 0 <= H ->
  flip_placed sz spp W H image image -> flip_accepts sz W H mode image image ->
  exists mem1 mem2, flip image.1 image.2 W H image.1 image.2 mode pixel_size mem = Some (KLEIDICV_OK, mem1) /\
    flip image.1 image.2 W H image.1 image.2 mode pixel_size mem1 = Some (KLEIDICV_OK, mem2) /\
    forall p, mem2 p = mem p.
Proof.
  intros Hl HW HH Hp Ha. destruct (pixel_layout_sizes _ _ _ Hl) as (_ & Hspp & _).
  destruct (flip_run image image W H mode pixel_size sz spp mem Hl HW HH Hp) as (e1 & mem1 & Hr1 & [(-> & _ & H1 & H2)|(_ & Hn & _)]); [|done].
  destruct (flip_run image image W H mode pixel_size sz spp mem1 Hl HW HH Hp) as (e2 & mem2 & Hr2 & [(-> & _ & H3 & H4)|(_ & Hn & _)]); [|done].
  exists mem1, mem2. split; [done|]. split; [done|]. intros p.
  destruct (pixel_dec sz (W * spp) H image p) as [(y & k & Hy & Hk & ->)|Hn]; [|by rewrite H4, H2].
  assert (exists x c, 0 <= x < W /\ 0 <= c < spp /\ k = x * spp + c) as (x & c & Hx & Hc & ->).
  { exists (k / spp), (k mod spp). pose proof (Z.mod_pos_bound k spp ltac:(lia)). pose proof (Z.div_mod k spp ltac:(lia)).
    split; [split; [apply Z.div_pos; lia|apply Z.div_lt_upper_bound; lia]|]. split; [done|]. lia. }
  rewrite H3, H1; [|destruct (flips_rows mode); lia|destruct (flips_pixels mode); lia|done|done..]. f_equal. f_equal.
  - destruct (flips_rows mode); lia.
  - destruct (flips_pixels mode); [|done]. f_equal. lia.
Qed.

Lemma flip_twice_restores_witness :
  exists mem1 mem2, flip 1000 56 5 3 1000 56 KLEIDICV_FLIP_HORIZONTAL 8 (fun p => p) = Some (KLEIDICV_OK, mem1) /\
    flip 1000 56 5 3 1000 56 KLEIDICV_FLIP_HORIZONTAL 8 mem1 = Some (KLEIDICV_OK, mem2) /\ forall p, mem2 p = p.
Proof.
  apply (flip_twice_restores (1000, 56) 5 3 KLEIDICV_FLIP_HORIZONTAL 8 8 1 (fun p => p)).
  - reflexivity.
  - lia.
  - lia.
  - unfold flip_placed, in_address_space, same_or_apart, pixel_address. cbn [fst snd]. split; [lia|]. split; [lia|].
    split; [intros; lia|by left].
  - unfold flip_accepts. cbn [fst snd]. split; [lia|]. split; [lia|]. split; [done|]. split; [done|].
    split; [done|]. split; [done|]. split; [done|]. by left.
Defined.
