(* ===== verification/Tiles.v ===== *)
(** * Transposition of a tile in registers

    [rotate_transpose_tile_recursive] of [rotate_transpose_common_neon.h]: a square tile is
    transposed by rounds of [vtrn1q] and [vtrn2q] on elements of doubling width.  A vector
    is the list of its scalars; an element of a reinterpreted vector is [e] adjacent
    scalars of the list. *)

From S2P Require Import Prelude CTypes Utils.

(** ** Operations *)

Definition vtrn1q (e : Z) (a b : list Z) : list Z :=
  map (fun p => if Z.even (p / e) then a !!! Z.to_nat p else b !!! Z.to_nat (p - e)) (seqZ 0 (Z.of_nat (length a))).
Definition vtrn2q (e : Z) (a b : list Z) : list Z :=
  map (fun p => if Z.even (p / e) then a !!! Z.to_nat (p + e) else b !!! Z.to_nat p) (seqZ 0 (Z.of_nat (length a))).

(** The vectors of an array; those not yet written are empty. *)
Definition Vectors : Type := Z -> list Z.

(** [Order] is [2 ^ (level + 1)]; [load] gives the vector of a row of the source. *)
Fixpoint rotate_transpose_tile_recursive (TileSize : Z) (level : nat) (ReverseRows : bool) (load : Z -> list Z) : Vectors :=
  match level with
  | O =>
      for_step 0 TileSize 2 (fun index (dst_vectors : Vectors) =>
        let src_vector_0 := load (index + 0) in
        let src_vector_1 := load (index + 1) in
        if ReverseRows then
          let dst_vectors := upd dst_vectors (TileSize - 1 - (index + 1)) (vtrn1q 1 src_vector_1 src_vector_0) in
          upd dst_vectors (TileSize - 1 - (index + 0)) (vtrn2q 1 src_vector_1 src_vector_0)
        else
          let dst_vectors := upd dst_vectors (index + 0) (vtrn1q 1 src_vector_0 src_vector_1) in
          upd dst_vectors (index + 1) (vtrn2q 1 src_vector_0 src_vector_1)) (fun _ => [])
  | S previous =>
      let Order := 2 ^ (Z.of_nat level + 1) in
      let input := rotate_transpose_tile_recursive TileSize previous ReverseRows load in
      let half_order := Order / 2 in
      for_step 0 TileSize Order (fun outer_i dst_vectors =>
        for_range 0 half_order (fun inner_i (dst_vectors : Vectors) =>
          let dst_vectors := upd dst_vectors (outer_i + inner_i)
            (vtrn1q half_order (input (outer_i + inner_i)) (input (outer_i + inner_i + half_order))) in
          upd dst_vectors (outer_i + half_order + inner_i)
            (vtrn2q half_order (input (outer_i + inner_i)) (input (outer_i + inner_i + half_order)))) dst_vectors) (fun _ => [])
  end.

(** ** Correctness *)

Section tile.
Context (N : Z) (ReverseRows : bool) (load : Z -> list Z).
Hypothesis loaded : forall r, 0 <= r < N -> length (load r) = Z.to_nat N.

(** The rows in the order they are taken. *)
Definition taken (r : Z) : list Z := load (if ReverseRows then N - 1 - r else r).

(** Within each block of [order] rows and columns the tile is transposed. *)
Definition transposed_blocks (order : Z) (dst : Vectors) : Prop :=
  forall P Q p q, 0 <= P -> 0 <= Q -> 0 <= p < order -> 0 <= q < order -> P * order + p < N -> Q * order + q < N ->
    length (dst (P * order + p)) = Z.to_nat N /\
    dst (P * order + p) !!! Z.to_nat (Q * order + q) = taken (P * order + q) !!! Z.to_nat (Q * order + p).
End tile.

Lemma length_vtrn1q e a b : length (vtrn1q e a b) = length a.
Proof. unfold vtrn1q. rewrite length_map, length_seqZ. lia. Qed.

Lemma length_vtrn2q e a b : length (vtrn2q e a b) = length a.
Proof. unfold vtrn2q. rewrite length_map, length_seqZ. lia. Qed.

(** Lane [r] of element [g]. *)
Lemma vtrn1q_lane e a b g r : 0 <= r < e -> 0 <= g -> g * e + r < Z.of_nat (length a) ->
  vtrn1q e a b !!! Z.to_nat (g * e + r) = if Z.even g then a !!! Z.to_nat (g * e + r) else b !!! Z.to_nat ((g - 1) * e + r).
Proof.
  intros Hr Hg Hl. unfold vtrn1q. apply list_lookup_total_correct.
  rewrite list_lookup_fmap, lookup_seqZ_lt by nia. cbn. rewrite Z2Nat.id, Z.add_0_l, Z.div_add_l, Z.div_small, Z.add_0_r by nia.
  f_equal. destruct (Z.even g); [done|]. do 2 f_equal. lia.
Qed.

Lemma vtrn2q_lane e a b g r : 0 <= r < e -> 0 <= g -> g * e + r < Z.of_nat (length a) ->
  vtrn2q e a b !!! Z.to_nat (g * e + r) = if Z.even g then a !!! Z.to_nat ((g + 1) * e + r) else b !!! Z.to_nat (g * e + r).
Proof.
  intros Hr Hg Hl. unfold vtrn2q. apply list_lookup_total_correct.
  rewrite list_lookup_fmap, lookup_seqZ_lt by nia. cbn. rewrite Z2Nat.id, Z.add_0_l, Z.div_add_l, Z.div_small, Z.add_0_r by nia.
  f_equal. destruct (Z.even g); [|done]. do 2 f_equal. lia.
Qed.

(** What a loop over pairs of vectors leaves: [f] and [g] give the two results. *)
Lemma for_step_whole {S} K k (body : Z -> S -> S) s : 0 < k -> 0 <= K ->
  for_step 0 (K * k) k body s = for_range 0 K (fun j => body (j * k)) s.
Proof.
  intros Hk HK. unfold for_step, step_count. replace (K * k - 0 + k - 1) with (K * k + (k - 1)) by lia.
  rewrite Z.div_add_l, (Z.div_small (k - 1)), Z.add_0_r by lia. apply for_range_ext. intros j s' _. done.
Qed.

Section rounds.
Context (h K : Z) (f g : Z -> list Z).
Hypothesis half : 0 < h.
Hypothesis blocks : 0 <= K.

Definition store_pair (left right : Z) (dst : Vectors) : Vectors := upd (upd dst left (f left)) right (g left).

Lemma store_pairs dst0 :
  let dst := for_range 0 K (fun j dst => for_range 0 h (fun i => store_pair (j * (2 * h) + i) (j * (2 * h) + h + i)) dst) dst0 in
  forall P o, 0 <= P < K -> 0 <= o < h ->
    dst (P * (2 * h) + o) = f (P * (2 * h) + o) /\ dst (P * (2 * h) + h + o) = g (P * (2 * h) + o).
Proof.
  cbv zeta.
  apply (for_range_ind (fun k (dst : Vectors) => forall P o, 0 <= P < k -> 0 <= o < h ->
    dst (P * (2 * h) + o) = f (P * (2 * h) + o) /\ dst (P * (2 * h) + h + o) = g (P * (2 * h) + o))); [done|lia|].
  intros j dst Hj Hdst.
  pose proof (for_range_ind (fun k (d : Vectors) =>
    (forall P o, 0 <= P < j -> 0 <= o < h ->
      d (P * (2 * h) + o) = f (P * (2 * h) + o) /\ d (P * (2 * h) + h + o) = g (P * (2 * h) + o)) /\
    (forall o, 0 <= o < k ->
      d (j * (2 * h) + o) = f (j * (2 * h) + o) /\ d (j * (2 * h) + h + o) = g (j * (2 * h) + o)))
    0 h (fun i => store_pair (j * (2 * h) + i) (j * (2 * h) + h + i)) dst) as Hind.
  destruct Hind as [H1 H2]; [lia|split; [done|lia]| |].
  - intros i d Hi [Hd1 Hd2]. unfold store_pair. split.
    + intros P o HP Ho. rewrite !upd_other by nia. by apply Hd1.
    + intros o Ho. destruct (decide (o = i)) as [->|Hne].
      * rewrite upd_same. rewrite upd_other by lia. by rewrite upd_same.
      * rewrite !upd_other by lia. apply Hd2. lia.
  - intros P o HP Ho. destruct (decide (P = j)) as [->|]; [by apply H2|apply H1; lia].
Qed.
End rounds.

(** Pairs of vectors stored in any order. *)
Definition store_at (f g : Z -> list Z) (P : Z) (dst : Vectors) : Vectors := upd (upd dst (P * 2) (f P)) (P * 2 + 1) (g P).

Lemma store_at_positions K (pos : Z -> Z) f g (body : Z -> Vectors -> Vectors) dst0 : 0 <= K ->
  (forall i j, 0 <= i < K -> 0 <= j < K -> pos i = pos j -> i = j) ->
  (forall j dst, 0 <= j < K -> body j dst = store_at f g (pos j) dst) ->
  forall j, 0 <= j < K -> for_range 0 K body dst0 (pos j * 2) = f (pos j) /\ for_range 0 K body dst0 (pos j * 2 + 1) = g (pos j).
Proof.
  intros HK Hinj Hbody.
  pose proof (for_range_ind (fun k (dst : Vectors) => k <= K /\ forall j, 0 <= j < k ->
    dst (pos j * 2) = f (pos j) /\ dst (pos j * 2 + 1) = g (pos j)) 0 K body dst0 HK) as Hind. apply Hind; [split; [done|lia]|].
  intros i dst Hi [_ Hd]. split; [lia|]. intros j Hj. rewrite Hbody by lia. unfold store_at.
  destruct (decide (j = i)) as [->|Hne].
  - rewrite upd_same. rewrite upd_other by lia. by rewrite upd_same.
  - assert (pos j <> pos i) by (intros Heq; apply Hne, Hinj; done || lia). rewrite !upd_other by lia. apply Hd. lia.
Qed.

(** Closes an equation that holds up to arithmetic on the indices. *)
Ltac by_value H := etransitivity; [|etransitivity; [exact H|]]; repeat first [lia | reflexivity | f_equal].

Section tile_correct.
Context (N : Z) (ReverseRows : bool) (load : Z -> list Z).
Hypothesis loaded : forall r, 0 <= r < N -> length (load r) = Z.to_nat N.

(** One round doubles the order of the blocks. *)
Lemma round_doubles h K (input dst : Vectors) : 0 < h -> N = K * (2 * h) ->
  transposed_blocks N ReverseRows load h input ->
  (forall P o, 0 <= P < K -> 0 <= o < h ->
    dst (P * (2 * h) + o) = vtrn1q h (input (P * (2 * h) + o)) (input (P * (2 * h) + o + h)) /\
    dst (P * (2 * h) + h + o) = vtrn2q h (input (P * (2 * h) + o)) (input (P * (2 * h) + o + h))) ->
  transposed_blocks N ReverseRows load (2 * h) dst.
Proof.
  intros Hh HN Hin Hdst P Q p q HP HQ Hp Hq HpN HqN.
  assert (0 <= P < K /\ 0 <= Q < K) as [HPK HQK] by nia.
  (* rows [o] and [h + o] of the block, columns [r] and [h + r] *)
  assert (exists o a, 0 <= o < h /\ (a = 0 \/ a = 1) /\ p = a * h + o) as (o & a & Ho & Ha & ->).
  { destruct (decide (p < h)); [by exists p, 0; repeat split; try lia; left|exists (p - h), 1; repeat split; try lia; by right]. }
  assert (exists r b, 0 <= r < h /\ (b = 0 \/ b = 1) /\ q = b * h + r) as (r & b & Hr & Hb & ->).
  { destruct (decide (q < h)); [by exists q, 0; repeat split; try lia; left|exists (q - h), 1; repeat split; try lia; by right]. }
  destruct (Hdst P o HPK Ho) as [Hd1 Hd2].
  assert (forall x, x = 0 \/ x = 1 -> length (input (P * (2 * h) + o + x * h)) = Z.to_nat N) as Hlen.
  { intros x Hx. replace (P * (2 * h) + o + x * h) with ((2 * P + x) * h + o) by lia.
    apply (Hin (2 * P + x) 0 o 0); nia. }
  assert (forall x y, x = 0 \/ x = 1 -> y = 0 \/ y = 1 ->
    input (P * (2 * h) + o + x * h) !!! Z.to_nat ((2 * Q + y) * h + r) =
    taken N ReverseRows load ((2 * P + x) * h + r) !!! Z.to_nat ((2 * Q + y) * h + o)) as Hval.
  { intros x y Hx Hy. replace (P * (2 * h) + o + x * h) with ((2 * P + x) * h + o) by lia. apply Hin; nia. }
  pose proof (Hlen 0 (or_introl eq_refl)) as Hlen0. rewrite Z.mul_0_l, Z.add_0_r in Hlen0.
  pose proof (Hlen 1 (or_intror eq_refl)) as Hlen1. rewrite Z.mul_1_l in Hlen1.
  replace (Q * (2 * h) + (b * h + r)) with ((2 * Q + b) * h + r) by lia.
  assert (Z.even (2 * Q + b) = (b =? 0)) as Heven by (rewrite Z.even_add, Z.even_mul; by destruct Hb as [-> | ->]).
  destruct Ha as [-> | ->].
  - replace (P * (2 * h) + (0 * h + o)) with (P * (2 * h) + o) by lia. rewrite Hd1, length_vtrn1q. split; [done|].
    rewrite vtrn1q_lane by nia. rewrite Heven. destruct Hb as [-> | ->]; cbn [Z.eqb].
    + by_value (Hval 0 0 ltac:(by left) ltac:(by left)).
    + by_value (Hval 1 0 ltac:(by right) ltac:(by left)).
  - replace (P * (2 * h) + (1 * h + o)) with (P * (2 * h) + h + o) by lia. rewrite Hd2, length_vtrn2q. split; [done|].
    rewrite vtrn2q_lane by nia. rewrite Heven. destruct Hb as [-> | ->]; cbn [Z.eqb].
    + by_value (Hval 0 1 ltac:(by left) ltac:(by right)).
    + by_value (Hval 1 1 ltac:(by right) ltac:(by right)).
Qed.

Lemma length_taken r : 0 <= r < N -> length (taken N ReverseRows load r) = Z.to_nat N.
Proof. intros Hr. unfold taken. apply loaded. destruct ReverseRows; lia. Qed.

(** The first round, on pairs of rows. *)
Lemma first_round K : N = K * 2 -> 0 <= K ->
  transposed_blocks N ReverseRows load 2 (rotate_transpose_tile_recursive N 0 ReverseRows load).
Proof.
  intros HN HK. apply (round_doubles 1 K (taken N ReverseRows load)); [lia|lia| |].
  - intros P Q p q HP HQ Hp Hq HpN HqN. assert (p = 0) as -> by lia. assert (q = 0) as -> by lia.
    split; [apply length_taken; lia|done].
  - cbn [rotate_transpose_tile_recursive]. rewrite HN. rewrite for_step_whole by lia.
    set (body := fun (j : Z) (dst : Vectors) => _).
    enough (forall P, 0 <= P < K ->
      for_range 0 K body (fun _ => []) (P * 2) = vtrn1q 1 (taken (K * 2) ReverseRows load (P * 2)) (taken (K * 2) ReverseRows load (P * 2 + 1)) /\
      for_range 0 K body (fun _ => []) (P * 2 + 1) = vtrn2q 1 (taken (K * 2) ReverseRows load (P * 2)) (taken (K * 2) ReverseRows load (P * 2 + 1))) as Hall.
    { intros P o HP Ho. assert (o = 0) as -> by lia. rewrite !Z.add_0_r. by apply Hall. }
    unfold body, taken. destruct ReverseRows.
    + intros P HP. pose proof (store_at_positions K (fun j => K - 1 - j)
        (fun P => vtrn1q 1 (load (K * 2 - 1 - P * 2)) (load (K * 2 - 1 - (P * 2 + 1))))
        (fun P => vtrn2q 1 (load (K * 2 - 1 - P * 2)) (load (K * 2 - 1 - (P * 2 + 1))))
        (fun j dst => upd (upd dst (K * 2 - 1 - (j * 2 + 1)) (vtrn1q 1 (load (j * 2 + 1)) (load (j * 2 + 0))))
           (K * 2 - 1 - (j * 2 + 0)) (vtrn2q 1 (load (j * 2 + 1)) (load (j * 2 + 0)))) (fun _ => [])) as Hs.
      replace P with (K - 1 - (K - 1 - P)) by lia. apply Hs; [done|lia| |lia]. intros j dst Hj. unfold store_at.
      replace (K * 2 - 1 - (j * 2 + 1)) with ((K - 1 - j) * 2) by lia. replace (K * 2 - 1 - (j * 2 + 0)) with ((K - 1 - j) * 2 + 1) by lia.
      replace (K * 2 - 1 - (K - 1 - j) * 2) with (j * 2 + 1) by lia.
      by replace (K * 2 - 1 - ((K - 1 - j) * 2 + 1)) with (j * 2 + 0) by lia.
    + intros P HP. apply (store_at_positions K (fun j => j) (fun P => vtrn1q 1 (load (P * 2)) (load (P * 2 + 1)))
        (fun P => vtrn2q 1 (load (P * 2)) (load (P * 2 + 1)))); [done|lia| |done].
      intros j dst Hj. unfold store_at. by rewrite !Z.add_0_r.
Qed.

Lemma rounds level : forall K, N = K * 2 ^ (Z.of_nat level + 1) -> 0 <= K ->
  transposed_blocks N ReverseRows load (2 ^ (Z.of_nat level + 1)) (rotate_transpose_tile_recursive N level ReverseRows load).
Proof.
  induction level as [|level IH]; intros K HN HK.
  - apply (first_round K); done.
  - set (h := 2 ^ (Z.of_nat level + 1)) in *.
    assert (2 ^ (Z.of_nat (S level) + 1) = 2 * h) as Hord.
    { unfold h. rewrite <- Z.pow_succ_r by lia. f_equal. lia. }
    rewrite Hord in *. assert (0 < h) as Hh by (apply Z.pow_pos_nonneg; lia).
    apply (round_doubles h K (rotate_transpose_tile_recursive N level ReverseRows load)); [done|done| |].
    + apply (IH (2 * K)); lia.
    + cbn [rotate_transpose_tile_recursive]. cbv zeta. rewrite Hord.
      replace (2 * h / 2) with h by (rewrite Z.mul_comm, Z.div_mul by lia; done).
      set (input := rotate_transpose_tile_recursive N level ReverseRows load). clearbody input. rewrite HN.
      rewrite for_step_whole by lia.
      pose proof (store_pairs h K (fun left => vtrn1q h (input left) (input (left + h)))
        (fun left => vtrn2q h (input left) (input (left + h))) Hh HK (fun _ => [])) as Hs. cbv zeta in Hs. exact Hs.
Qed.

Lemma tile_transposed level p q : N = 2 ^ (Z.of_nat level + 1) -> 0 <= p < N -> 0 <= q < N ->
  length (rotate_transpose_tile_recursive N level ReverseRows load p) = Z.to_nat N /\
  rotate_transpose_tile_recursive N level ReverseRows load p !!! Z.to_nat q =
    taken N ReverseRows load q !!! Z.to_nat p.
Proof.
  intros HN Hp Hq. pose proof (rounds level 1 ltac:(lia) ltac:(lia) 0 0 p q) as H. rewrite <- HN in H. apply H; lia.
Qed.
End tile_correct.
