(* ===== verification/RotateTranspose.v ===== *)
(** * Transposition and rotation by 90 degrees

    [rotate_transpose_common_neon.h], [transpose_neon.cpp] and [rotate_neon.cpp]: pixels of
    one or three scalars move by square tiles that are transposed in registers, and by
    single pixels where the image is smaller than a tile. *)

From S2P Require Import Prelude CTypes Utils Rows Loops Vectors Elementwise VectorMemory Transfers Flip Tiles.

(** ** Kernels *)

Section kernels.
(** [sizeof(ScalarType)] and the scalars of a pixel: three with [k3Channels]. *)
Context (sz spp : Z).
Local Abbreviation num_lanes := (num_lanes sz).

(** [&rows.at(row, column)[0]], and [&rows.at(row)[column]] of one channel. *)
Definition pixel_pointer (rows : Rows) (row column : Z) : Z := ptr_ (rows_at rows row column).

(** [Order] is the number of lanes. *)
Definition tile_levels : nat := Z.to_nat (Z.log2 num_lanes - 1).

Definition rotate_transpose_tile_1ch (ReverseRows : bool) (row_index : Z -> Z -> Z) (src_rows dst_rows : Rows)
    (mem : Z -> Z) : Z -> Z :=
  let num_of_lanes := num_lanes in
  let trn_result_b64 := rotate_transpose_tile_recursive num_of_lanes tile_levels ReverseRows (fun index =>
    vld1q sz num_of_lanes mem (pixel_pointer src_rows index 0)) in
  for_range 0 num_of_lanes (fun index =>
    vst1q sz (pixel_pointer dst_rows (row_index index num_of_lanes) 0) (trn_result_b64 index)) mem.

(** The rounds of the three channels are the same and independent. *)
Definition rotate_transpose_tile_recursive_3ch (ReverseRows : bool) (src_rows : Rows) (mem : Z -> Z) (channel : Z) : Vectors :=
  rotate_transpose_tile_recursive num_lanes tile_levels ReverseRows (fun row =>
    vldNq sz 3 num_lanes mem (pixel_pointer src_rows row 0) !!! Z.to_nat channel).

Definition rotate_transpose_tile_3ch (ReverseRows : bool) (row_index : Z -> Z -> Z) (src_rows dst_rows : Rows)
    (mem : Z -> Z) : Z -> Z :=
  let num_of_lanes := num_lanes in
  let dst_c0 := rotate_transpose_tile_recursive_3ch ReverseRows src_rows mem 0 in
  let dst_c1 := rotate_transpose_tile_recursive_3ch ReverseRows src_rows mem 1 in
  let dst_c2 := rotate_transpose_tile_recursive_3ch ReverseRows src_rows mem 2 in
  for_range 0 num_of_lanes (fun index =>
    vstNq sz 3 num_of_lanes (pixel_pointer dst_rows (row_index index num_of_lanes) 0)
      [dst_c0 index; dst_c1 index; dst_c2 index]) mem.

Definition rotate_transpose_tile_dispatch : bool -> (Z -> Z -> Z) -> Rows -> Rows -> (Z -> Z) -> Z -> Z :=
  if spp =? 3 then rotate_transpose_tile_3ch else rotate_transpose_tile_1ch.

(** [store] gets the column, the row, the height and the address of the pixel. *)
Definition rotate_transpose_scalar (store : Rows -> Z -> Z -> Z -> Z -> (Z -> Z) -> Z -> Z) (src_rows dst_rows : Rows)
    (height width : Z) (mem : Z -> Z) : Z -> Z :=
  for_range 0 height (fun vindex =>
    for_range 0 width (fun hindex => store dst_rows hindex vindex height (pixel_pointer src_rows vindex hindex))) mem.

(** The functions that [rotate_transpose_rect] is given; [store_position] is the row and
    the column of [scalar_store], from the column, the row, the height and the width. *)
Record Mapping := {
  kReverseRows : bool;
  vector_dst_row_from_src_col : Z -> Z -> Z;
  vector_dst_col_from_src_row : Z -> Z -> Z;
  scalar_dst_row_from_src_col : Z -> Z -> Z;
  scalar_dst_col_from_src_row : Z -> Z -> Z;
  vertical_dst_col_base : Z -> Z;
  row_index : Z -> Z -> Z;
  store_position : Z -> Z -> Z -> Z -> Z * Z
}.

Definition scalar_store (m : Mapping) (rows : Rows) (h v height value row_width : Z) (mem : Z -> Z) : Z -> Z :=
  let '(row, column) := store_position m h v height row_width in copy_n sz value spp (pixel_pointer rows row column) mem.

Definition memory_after {S} (result : option (Unroll2.LoopUnroll2 * S)) : option S :=
  match result with Some (_, mem) => Some mem | None => None end.

Definition rotate_transpose_rect (m : Mapping) (rect : Rectangle) (src_rows dst_rows : Rows) (mem : Z -> Z)
    : option (kleidicv_error_t * (Z -> Z)) :=
  let num_of_lanes := num_lanes in
  let rect_width := width_ rect in
  let rect_height := height_ rect in
  let store segment_width rows h v height value := scalar_store m rows h v height value segment_width in
  let rotate_vector_tile vindex hindex :=
    rotate_transpose_tile_dispatch (kReverseRows m) (row_index m) (rows_at src_rows vindex hindex)
      (rows_at dst_rows (vector_dst_row_from_src_col m hindex num_of_lanes) (vector_dst_col_from_src_row m vindex num_of_lanes)) in
  let rotate_scalar_segment vindex hindex final_hindex :=
    let segment_width := final_hindex ⊟ hindex in
    rotate_transpose_scalar (store segment_width) (rows_at src_rows vindex hindex)
      (rows_at dst_rows (scalar_dst_row_from_src_col m hindex final_hindex) (scalar_dst_col_from_src_row m vindex num_of_lanes))
      num_of_lanes segment_width in
  let handle_lane_number_of_rows vindex mem :=
    memory_after (Unroll2.once_remaining true 0 rect_width num_of_lanes
      (fun hindex => rotate_vector_tile vindex hindex)
      (fun hindex final_hindex => rotate_scalar_segment vindex hindex final_hindex) mem) in
  match memory_after (Unroll2.once_remaining true 0 rect_height num_of_lanes
    (fun vindex st => match st with Some mem => handle_lane_number_of_rows vindex mem | None => None end)
    (fun vindex final_vindex st =>
      match st with
      | Some mem => Some (rotate_transpose_scalar (store rect_width) (rows_at src_rows vindex 0)
          (rows_at dst_rows 0 (vertical_dst_col_base m vindex)) (final_vindex ⊟ vindex) rect_width mem)
      | None => None
      end) (Some mem))
  with
  | Some (Some mem) => Some (KLEIDICV_OK, mem)
  | _ => None
  end.
End kernels.

(** ** Mappings *)

Definition transpose_to_dst_mapping : Mapping := {|
  kReverseRows := false;
  vector_dst_row_from_src_col hindex _ := hindex;
  vector_dst_col_from_src_row vindex _ := vindex;
  scalar_dst_row_from_src_col hindex _ := hindex;
  scalar_dst_col_from_src_row vindex _ := vindex;
  vertical_dst_col_base vindex := vindex;
  row_index index _ := index;
  store_position h v _ _ := (h, v)
|}.

Definition rotate_cw_mapping (rect : Rectangle) : Mapping := {|
  kReverseRows := true;
  vector_dst_row_from_src_col hindex _ := hindex;
  vector_dst_col_from_src_row vindex lanes := height_ rect ⊟ vindex ⊟ lanes;
  scalar_dst_row_from_src_col hindex _ := hindex;
  scalar_dst_col_from_src_row vindex lanes := height_ rect ⊟ vindex ⊟ lanes;
  vertical_dst_col_base _ := 0;
  row_index index _ := index;
  store_position col row height _ := (col, height ⊟ row ⊟ 1)
|}.

Definition rotate_ccw_mapping (rect : Rectangle) : Mapping := {|
  kReverseRows := false;
  vector_dst_row_from_src_col hindex lanes := width_ rect ⊟ hindex ⊟ lanes;
  vector_dst_col_from_src_row vindex _ := vindex;
  scalar_dst_row_from_src_col _ final_hindex := width_ rect ⊟ final_hindex;
  scalar_dst_col_from_src_row vindex _ := vindex;
  vertical_dst_col_base vindex := vindex;
  row_index index lanes := lanes ⊟ index ⊟ 1;
  store_position col row _ row_width := (row_width ⊟ col ⊟ 1, row)
|}.

(** ** Tiles *)

Section tiles.
Context (sz spp : Z).
Hypothesis scalar_size : sz = 1 \/ sz = 2 \/ sz = 4 \/ sz = 8.
Hypothesis pixel_scalars : spp = 1 \/ spp = 3.
Let n := num_lanes sz.

Lemma tile_order : n = 2 ^ (Z.of_nat (tile_levels sz) + 1) /\ 2 <= n <= 16.
Proof. unfold n, tile_levels, num_lanes. destruct scalar_size as [->|[->|[->| ->]]]; vm_compute; intuition congruence. Qed.

(** The row of the source whose scalars become lane [q]. *)
Definition tile_row (ReverseRows : bool) (q : Z) : Z := if ReverseRows then n - 1 - q else q.

(** What is stored in row [index] of a tile. *)
Definition tile_value (ReverseRows : bool) (src_rows : Rows) (mem : Z -> Z) (index k : Z) : Z :=
  mem (pixel_pointer src_rows (tile_row ReverseRows (k / spp)) 0 + (index * spp + k mod spp) * sz).

(** The stores of one row of the tile. *)
Definition tile_store (ReverseRows : bool) (src_rows : Rows) (mem : Z -> Z) (index address : Z) (mem' : Z -> Z) : Z -> Z :=
  if spp =? 3 then
    vstNq sz 3 n address [rotate_transpose_tile_recursive_3ch sz ReverseRows src_rows mem 0 index;
      rotate_transpose_tile_recursive_3ch sz ReverseRows src_rows mem 1 index;
      rotate_transpose_tile_recursive_3ch sz ReverseRows src_rows mem 2 index] mem'
  else
    vst1q sz address (rotate_transpose_tile_recursive n (tile_levels sz) ReverseRows (fun index =>
      vld1q sz n mem (pixel_pointer src_rows index 0)) index) mem'.

Lemma tile_as_stores ReverseRows row_index src_rows dst_rows mem :
  rotate_transpose_tile_dispatch sz spp ReverseRows row_index src_rows dst_rows mem =
  for_range 0 n (fun index => tile_store ReverseRows src_rows mem index (pixel_pointer dst_rows (row_index index n) 0)) mem.
Proof. unfold rotate_transpose_tile_dispatch, tile_store. by destruct (spp =? 3). Qed.

Lemma tile_store_filled ReverseRows src_rows mem index address mem' : 0 <= index < n ->
  filled sz address 0 (n * spp) (tile_value ReverseRows src_rows mem index) mem' (tile_store ReverseRows src_rows mem index address mem').
Proof.
  intros Hi. destruct tile_order as [Hord Hn]. pose proof (sz_positive sz scalar_size) as Hsz.
  unfold tile_store. destruct (Z.eqb_spec spp 3) as [H3|H3].
  - pose proof (vstNq_filled sz Hsz 3 n address [rotate_transpose_tile_recursive_3ch sz ReverseRows src_rows mem 0 index;
      rotate_transpose_tile_recursive_3ch sz ReverseRows src_rows mem 1 index;
      rotate_transpose_tile_recursive_3ch sz ReverseRows src_rows mem 2 index] mem' ltac:(lia)) as Hf.
    replace (3 * n) with (n * spp) in Hf by lia. eapply filled_ext; [|exact Hf]. intros k Hk. cbv beta.
    pose proof (Z.mod_pos_bound k 3 ltac:(lia)) as Hm. assert (0 <= k / 3 < n) as Hd by mod_lia.
    assert ([rotate_transpose_tile_recursive_3ch sz ReverseRows src_rows mem 0 index;
      rotate_transpose_tile_recursive_3ch sz ReverseRows src_rows mem 1 index;
      rotate_transpose_tile_recursive_3ch sz ReverseRows src_rows mem 2 index] !!! Z.to_nat (k mod 3) =
      rotate_transpose_tile_recursive_3ch sz ReverseRows src_rows mem (k mod 3) index) as ->.
    { assert (k mod 3 = 0 \/ k mod 3 = 1 \/ k mod 3 = 2) as [-> | [-> | ->]] by lia; reflexivity. }
    unfold rotate_transpose_tile_recursive_3ch. fold n.
    set (load := fun row => vldNq sz 3 n mem (pixel_pointer src_rows row 0) !!! Z.to_nat (k mod 3)).
    assert (forall r, lanes_of (Z.to_nat n) (load r) (fun j => mem (pixel_pointer src_rows r 0 + (3 * Z.of_nat j + k mod 3) * sz))) as Hload.
    { intros r. by apply lanes_of_vldNq. }
    destruct (tile_transposed n ReverseRows load (fun r _ => proj1 (Hload r)) (tile_levels sz) index (k / 3)) as [_ ->]; [done|done|done|].
    unfold taken, tile_value. rewrite (proj2 (Hload _)) by lia. rewrite H3. unfold tile_row. do 2 f_equal. lia.
  - assert (spp = 1) as H1 by lia.
    set (load := fun index => vld1q sz n mem (pixel_pointer src_rows index 0)).
    assert (forall r, lanes_of (Z.to_nat n) (load r) (fun j => mem (pixel_pointer src_rows r 0 + Z.of_nat j * sz))) as Hload.
    { intros r. by apply lanes_of_vld1q. }
    destruct (tile_transposed n ReverseRows load (fun r _ => proj1 (Hload r)) (tile_levels sz) index 0) as [Hl _]; [done|done|lia|].
    pose proof (vst1q_filled sz Hsz address (rotate_transpose_tile_recursive n (tile_levels sz) ReverseRows load index) mem') as Hf.
    rewrite Hl, Z2Nat.id in Hf by lia. replace (n * spp) with n by lia. eapply filled_ext; [|exact Hf]. intros k Hk. cbv beta.
    destruct (tile_transposed n ReverseRows load (fun r _ => proj1 (Hload r)) (tile_levels sz) index k) as [_ ->]; [done|done|done|].
    unfold taken, tile_value. rewrite (proj2 (Hload _)) by lia. rewrite H1, Z.div_1_r, Z.mod_1_r. unfold tile_row. f_equal. lia.
Qed.

(** A tile whose rows are stored apart. *)
Lemma tile_filled ReverseRows row_index src_rows dst_rows mem :
  let row i := pixel_pointer dst_rows (row_index i n) 0 in
  (forall i i', 0 <= i < n -> 0 <= i' < n -> i <> i' -> apart sz (row i) 0 (n * spp) (row i') 0 (n * spp)) ->
  let mem' := rotate_transpose_tile_dispatch sz spp ReverseRows row_index src_rows dst_rows mem in
  (forall i k, 0 <= i < n -> 0 <= k < n * spp -> mem' (row i + k * sz) = tile_value ReverseRows src_rows mem i k) /\
  (forall p, (forall i k, 0 <= i < n -> 0 <= k < n * spp -> p <> row i + k * sz) -> mem' p = mem p).
Proof.
  intros row Hap mem'. unfold mem'. rewrite tile_as_stores. destruct tile_order as [_ Hn].
  apply (for_range_ind (fun j m =>
    (forall i k, 0 <= i < j -> 0 <= k < n * spp -> m (row i + k * sz) = tile_value ReverseRows src_rows mem i k) /\
    (forall p, (forall i k, 0 <= i < j -> 0 <= k < n * spp -> p <> row i + k * sz) -> m p = mem p))); [lia|split; [lia|done]|].
  intros j m Hj [H1 H2]. destruct (tile_store_filled ReverseRows src_rows mem j (row j) m Hj) as [H3 H4]. split.
  - intros i k Hi Hk. destruct (decide (i = j)) as [->|Hne]; [by apply H3|].
    unfold row in *. rewrite H4; [apply H1; lia|]. intros k' Hk'. apply (Hap i j); lia.
  - intros p Hp. unfold row in *. rewrite H4, H2; [done| |]; intros; apply Hp; lia.
Qed.
End tiles.

(** ** Images *)

(** An image whose last row ends in the address space. *)
Definition image_fits (sz width height : Z) (image : Z * Z) : Prop :=
  in_address_space sz width height image /\ image.1 + (height - 1) * image.2 + width * sz < 2 ^ 64.

(** The rows of an image of pixels with [spp] scalars. *)
Definition pixel_rows (sz spp : Z) (image : Z * Z) : Rows :=
  {| ptr_ := image.1; stride_ := image.2; channels_ := spp; sizeof_ := sz |}.

Lemma pixel_pointer_at sz spp w h image y x : 0 < sz -> spp = 1 \/ spp = 3 -> image_fits sz (w * spp) h image ->
  0 <= y < h -> 0 <= x <= w -> pixel_pointer (pixel_rows sz spp image) y x = pixel_address sz image y (x * spp).
Proof.
  intros Hsz Hspp [(Hp & Hs & Hw & Hend) _] Hy Hx. unfold pixel_pointer, rows_at, get_pointer_at, pixel_rows, pixel_address.
  cbn [ptr_ with_ptr stride_ channels_ sizeof_]. rewrite !to_ptrdiff_small by lia. unfold add_stride.
  rewrite (proj2 (Z.leb_le 0 (y * image.2))) by nia. rewrite size_add_small by nia. lia.
Qed.

(** A pixel from rows that start at another pixel. *)
Lemma pixel_pointer_from sz spp w h image y x y' x' : 0 < sz -> spp = 1 \/ spp = 3 -> image_fits sz (w * spp) h image ->
  0 <= y -> 0 <= y' -> y + y' < h -> 0 <= x <= w -> 0 <= x' ->
  pixel_pointer (rows_at (pixel_rows sz spp image) y x) y' x' = pixel_address sz image (y + y') ((x + x') * spp).
Proof.
  intros Hsz Hspp Hf Hy Hy' Hyy Hx Hx'.
  pose proof (pixel_pointer_at sz spp w h image y x Hsz Hspp Hf ltac:(lia) ltac:(lia)) as Hp.
  destruct Hf as [(Hp0 & Hs & Hw & Hend) Hlast].
  unfold pixel_pointer in *. set (r := rows_at (pixel_rows sz spp image) y x) in *.
  assert (stride_ r = image.2 /\ channels_ r = spp /\ sizeof_ r = sz) as (H1 & H2 & H3) by done.
  unfold rows_at, get_pointer_at. cbn [ptr_ with_ptr stride_ channels_ sizeof_]. rewrite H1, H2, H3, Hp.
  rewrite !to_ptrdiff_small by lia. unfold add_stride. rewrite (proj2 (Z.leb_le 0 (y' * image.2))) by nia.
  unfold pixel_address. rewrite size_add_small; [lia|]. split; [nia|].
  assert (x * spp * sz <= w * spp * sz) by nia. assert ((y + y') * image.2 <= (h - 1) * image.2) by nia. nia.
Qed.

(** Where the mapping of a rectangle sends columns and rows: source column [sx] becomes
    row [gy sx], source row [sy] becomes column [gx sy]. *)
Class MappingLaws (sz W H : Z) (m : Mapping) (gy gx : Z -> Z) : Prop := {
  gy_range sx : 0 <= sx < W -> 0 <= gy sx < W;
  gx_range sy : 0 <= sy < H -> 0 <= gx sy < H;
  gy_inj a b : 0 <= a < W -> 0 <= b < W -> gy a = gy b -> a = b;
  gx_inj a b : 0 <= a < H -> 0 <= b < H -> gx a = gx b -> a = b;
  tile_dst_row h i : 0 <= h -> h + num_lanes sz <= W -> 0 <= i < num_lanes sz ->
    0 <= vector_dst_row_from_src_col m h (num_lanes sz) /\ 0 <= row_index m i (num_lanes sz) /\
    vector_dst_row_from_src_col m h (num_lanes sz) + row_index m i (num_lanes sz) = gy (h + i);
  tile_dst_column v q : 0 <= v -> v + num_lanes sz <= H -> 0 <= q < num_lanes sz ->
    0 <= vector_dst_col_from_src_row m v (num_lanes sz) /\
    vector_dst_col_from_src_row m v (num_lanes sz) + q = gx (v + tile_row sz (kReverseRows m) q);
  segment_position v h' v' : 0 < W < num_lanes sz -> 0 <= v -> v + num_lanes sz <= H -> 0 <= h' < W -> 0 <= v' < num_lanes sz ->
    let '(row, column) := store_position m h' v' (num_lanes sz) W in
    0 <= scalar_dst_row_from_src_col m 0 W /\ 0 <= scalar_dst_col_from_src_row m v (num_lanes sz) /\ 0 <= row /\ 0 <= column /\
    scalar_dst_row_from_src_col m 0 W + row = gy h' /\ scalar_dst_col_from_src_row m v (num_lanes sz) + column = gx (v + v');
  remainder_position h' v' : 0 < H < num_lanes sz -> 0 <= h' < W -> 0 <= v' < H ->
    let '(row, column) := store_position m h' v' H W in
    0 <= vertical_dst_col_base m 0 /\ 0 <= row /\ 0 <= column /\
    row = gy h' /\ vertical_dst_col_base m 0 + column = gx v'
}.

Section rect.
Context (sz spp W H : Z) (m : Mapping) (gy gx : Z -> Z) {laws : MappingLaws sz W H m gy gx}.
Context (src dst : Z * Z).
Hypothesis scalar_size : sz = 1 \/ sz = 2 \/ sz = 4 \/ sz = 8.
Hypothesis pixel_scalars : spp = 1 \/ spp = 3.
Hypothesis size_ok : 0 <= W < 2 ^ 63 /\ 0 <= H < 2 ^ 63.
Hypothesis src_fits : image_fits sz (W * spp) H src.
Hypothesis dst_fits : image_fits sz (H * spp) W dst.
Hypothesis dst_apart : same_or_apart sz (H * spp) W dst dst.

(** The source is not overwritten. *)
Hypothesis no_overlap : forall y x y' x', 0 <= y < H -> 0 <= x < W * spp -> 0 <= y' < W -> 0 <= x' < H * spp ->
  pixel_address sz src y x <> pixel_address sz dst y' x'.
Let n := num_lanes sz.

(** A scalar of the source: its row and column, and which of the pixel. *)
Definition Scalar : Type := Z * Z * Z.
Definition source_scalar (i : Scalar) : Prop := 0 <= i.1.1 < H /\ 0 <= i.1.2 < W /\ 0 <= i.2 < spp.
Definition moved_to (i : Scalar) : Z := pixel_address sz dst (gy i.1.2) (gx i.1.1 * spp + i.2).
Definition moved_from (i : Scalar) : Z := pixel_address sz src i.1.1 (i.1.2 * spp + i.2).
Definition pixel_of (i : Scalar) : Z * Z := i.1.

Let moved := moved source_scalar moved_to moved_from pixel_of.

Lemma dst_distinct y x y' x' : 0 <= y < W -> 0 <= x < H * spp -> 0 <= y' < W -> 0 <= x' < H * spp ->
  pixel_address sz dst y x = pixel_address sz dst y' x' -> y = y' /\ x = x'.
Proof. intros Hy Hx Hy' Hx' Heq. destruct (dst_apart y x y' x' Hy Hx Hy' Hx') as (? & ? & _); lia. Qed.

Lemma target_range sy c : 0 <= sy < H -> 0 <= c < spp -> 0 <= gx sy * spp + c < H * spp.
Proof. intros Hy Hc. pose proof (gx_range sy Hy). nia. Qed.

Lemma rect_source_kept i j : source_scalar i -> source_scalar j -> moved_from i <> moved_to j.
Proof.
  intros (Hy & Hx & Hc) (Hy' & Hx' & Hc'). apply no_overlap; [done|nia|by apply gy_range|by apply target_range].
Qed.

#[local] Instance rect_independent : Independent source_scalar moved_to moved_from pixel_of.
Proof.
  split.
  - intros [[sy sx] c] [[sy' sx'] c'] (Hy & Hx & Hc) (Hy' & Hx' & Hc') Heq. cbn [fst snd] in *.
    apply dst_distinct in Heq as [H1 H2]; try (by apply gy_range); try (by apply target_range). cbn [fst snd] in *.
    unfold pixel_of. cbn [fst]. f_equal; [|by apply gy_inj].
    apply gx_inj; [done|done|]. nia.
  - intros i j Hi Hj Heq. by apply rect_source_kept in Heq.
Qed.

Let src_rows : Rows := pixel_rows sz spp src.
Let dst_rows : Rows := pixel_rows sz spp dst.

Lemma row_range sx : 0 <= sx < W -> 0 <= gy sx < W.
Proof. apply gy_range. Qed.

Lemma column_range sy : 0 <= sy < H -> 0 <= gx sy < H.
Proof. apply gx_range. Qed.

(** *** A tile *)
Definition in_tile (v h : Z) (k : Z * Z) : Prop := v <= k.1 < v + n /\ h <= k.2 < h + n.

Lemma tile_row_range q : 0 <= q < n -> 0 <= tile_row sz (kReverseRows m) q < n.
Proof. unfold tile_row. fold n. destruct (kReverseRows m); lia. Qed.

Lemma tile_row_involutive q : tile_row sz (kReverseRows m) (tile_row sz (kReverseRows m) q) = q.
Proof. unfold tile_row. destruct (kReverseRows m); lia. Qed.

Lemma tile_moved v h mem : 0 <= v -> v + n <= H -> 0 <= h -> h + n <= W ->
  moved (in_tile v h) mem
    (rotate_transpose_tile_dispatch sz spp (kReverseRows m) (row_index m) (rows_at src_rows v h)
      (rows_at dst_rows (vector_dst_row_from_src_col m h n) (vector_dst_col_from_src_row m v n)) mem).
Proof.
  intros Hv Hvn Hh Hhn. pose proof (sz_positive sz scalar_size) as Hsz.
  set (C := vector_dst_col_from_src_row m v n). set (R := vector_dst_row_from_src_col m h n).
  assert (0 < n) as Hn by (unfold n; destruct (tile_order sz spp scalar_size pixel_scalars); lia).
  assert (0 <= C /\ forall q, 0 <= q < n -> C + q = gx (v + tile_row sz (kReverseRows m) q)) as [HC Hcol].
  { split; [apply (tile_dst_column v 0); done || lia|]. intros q Hq. by apply tile_dst_column. }
  assert (C <= H) as HCH.
  { specialize (Hcol 0 ltac:(lia)). pose proof (tile_row_range 0 ltac:(lia)).
    pose proof (column_range (v + tile_row sz (kReverseRows m) 0) ltac:(lia)). lia. }
  assert (forall i, 0 <= i < n -> pixel_pointer (rows_at dst_rows R C) (row_index m i n) 0 = pixel_address sz dst (gy (h + i)) (C * spp)) as Hdst.
  { intros i Hi. destruct (tile_dst_row h i Hh Hhn Hi) as (HR & Hri & Hsum). fold n in HR, Hri, Hsum. fold R in HR, Hsum.
    pose proof (row_range (h + i) ltac:(lia)). unfold dst_rows.
    rewrite (pixel_pointer_from sz spp H W dst) by (done || lia). rewrite Hsum. f_equal. lia. }
  assert (forall r, 0 <= r < n -> pixel_pointer (rows_at src_rows v h) r 0 = pixel_address sz src (v + r) (h * spp)) as Hsrc.
  { intros r Hr. unfold src_rows. rewrite (pixel_pointer_from sz spp W H src) by (done || lia). f_equal. lia. }
  assert (forall i k, 0 <= i < n -> 0 <= k < n * spp ->
    pixel_address sz dst (gy (h + i)) (C * spp) + k * sz =
    moved_to (v + tile_row sz (kReverseRows m) (k / spp), h + i, k mod spp)) as Haddr.
  { intros i k Hi Hk. unfold moved_to, pixel_address. cbn [fst snd].
    assert (0 <= k / spp < n) as Hq by (split; [apply Z.div_pos; lia|apply Z.div_lt_upper_bound; lia]).
    rewrite <- (Hcol (k / spp) Hq). pose proof (Z.div_mod k spp ltac:(lia)). nia. }
  assert (forall k, 0 <= k < n * spp -> 0 <= k / spp < n /\ 0 <= k mod spp < spp) as Hsplit.
  { intros k Hk. split; [split; [apply Z.div_pos; lia|apply Z.div_lt_upper_bound; lia]|apply Z.mod_pos_bound; lia]. }
  destruct (tile_filled sz spp scalar_size pixel_scalars (kReverseRows m) (row_index m) (rows_at src_rows v h)
    (rows_at dst_rows R C) mem) as [H1 H2].
  { fold n. intros i i' Hi Hi' Hne k k' Hk Hk'. rewrite !Hdst by done. rewrite !Haddr by done. unfold moved_to. cbn [fst snd].
    destruct (Hsplit k Hk), (Hsplit k' Hk'). intros Heq. pose proof (tile_row_range (k / spp) ltac:(lia)).
    pose proof (tile_row_range (k' / spp) ltac:(lia)).
    apply dst_distinct in Heq as [Hgy _]; try (apply gy_range; lia); try (apply target_range; lia).
    apply gy_inj in Hgy; lia. }
  fold n in H1, H2. split.
  - intros [[sy sx] c] (Hy & Hx & Hc) [Hky Hkx]. unfold pixel_of in *. cbn [fst snd] in *.
    set (q := tile_row sz (kReverseRows m) (sy - v)). assert (0 <= q < n) as Hq by (apply tile_row_range; lia).
    assert (0 <= q * spp + c < n * spp) as Hk by nia.
    assert ((q * spp + c) / spp = q /\ (q * spp + c) mod spp = c) as [Hdiv Hmod].
    { rewrite Z.div_add_l, Z.div_small, Z.add_0_r by lia. rewrite (Z.add_comm (q * spp)), Z.mod_add, Z.mod_small by lia. done. }
    specialize (H1 (sx - h) (q * spp + c) ltac:(lia) Hk). rewrite Hdst in H1 by lia. rewrite Haddr in H1 by (done || lia).
    rewrite Hdiv, Hmod in H1. unfold q in H1. rewrite tile_row_involutive in H1.
    replace (v + (sy - v)) with sy in H1 by lia. replace (h + (sx - h)) with sx in H1 by lia. rewrite H1.
    unfold tile_value. fold q. rewrite Hdiv, Hmod. unfold q. rewrite tile_row_involutive. rewrite Hsrc by lia.
    unfold moved_from, pixel_address. cbn [fst snd]. f_equal. lia.
  - intros p Hp. apply H2. intros i k Hi Hk ->. destruct (Hsplit k Hk) as [Hq Hc]. pose proof (tile_row_range _ Hq).
    rewrite Hdst, Haddr in Hp by done.
    apply (Hp (v + tile_row sz (kReverseRows m) (k / spp), h + i, k mod spp)); [|split; cbn [pixel_of fst snd]; lia|done].
    split; [|split]; cbn [fst snd]; lia.
Qed.

(** *** Single pixels *)

Lemma pixel_moved sy sx mem : 0 <= sy < H -> 0 <= sx < W ->
  moved (eq (sy, sx)) mem
    (copy_n sz (pixel_address sz src sy (sx * spp)) spp (pixel_address sz dst (gy sx) (gx sy * spp)) mem).
Proof.
  intros Hy Hx. pose proof (sz_positive sz scalar_size) as Hsz. pose proof (row_range sx Hx). pose proof (column_range sy Hy).
  assert (forall c, pixel_address sz dst (gy sx) (gx sy * spp) + c * sz = moved_to (sy, sx, c)) as Hto
    by (intros c; unfold moved_to, pixel_address; cbn [fst snd]; lia).
  assert (forall c, pixel_address sz src sy (sx * spp) + c * sz = moved_from (sy, sx, c)) as Hfrom
    by (intros c; unfold moved_from, pixel_address; cbn [fst snd]; lia).
  assert (forall c, 0 <= c < spp -> source_scalar (sy, sx, c)) as Hin by (intros c Hc; split; [|split]; cbn [fst snd]; lia).
  destruct (copy_n_filled sz Hsz (pixel_address sz src sy (sx * spp)) spp (pixel_address sz dst (gy sx) (gx sy * spp)) mem)
    as [Hcp1 Hcp2]; [lia| |].
  { intros c c' Hc Hc'. rewrite Hto, Hfrom. apply rect_source_kept; by apply Hin. }
  split.
  - intros [[sy' sx'] c] (_ & _ & Hc) Heq. unfold pixel_of in Heq. cbn [fst snd] in *. injection Heq as <- <-.
    rewrite <- Hto, <- Hfrom. by apply Hcp1.
  - intros p Hp. apply Hcp2. intros c Hc ->. rewrite Hto in Hp. by apply (Hp (sy, sx, c) (Hin c Hc)).
Qed.

Lemma scalar_moved v count base_row base_column mem : 0 <= v -> 0 <= count -> v + count <= H ->
  (forall h' v', 0 <= h' < W -> 0 <= v' < count ->
    let '(row, column) := store_position m h' v' count W in
    0 <= base_row /\ 0 <= base_column /\ 0 <= row /\ 0 <= column /\ base_row + row = gy h' /\ base_column + column = gx (v + v')) ->
  moved (fun k => v <= k.1 < v + count) mem
    (rotate_transpose_scalar (fun rows h' v' height value => scalar_store sz spp m rows h' v' height value W)
      (rows_at src_rows v 0) (rows_at dst_rows base_row base_column) count W mem).
Proof.
  intros Hv Hc Hvc Hpos. pose proof (sz_positive sz scalar_size) as Hsz. unfold rotate_transpose_scalar.
  apply (for_range_ind (fun i m' => moved (fun k => v <= k.1 < v + i) mem m')); [done|apply moved_none; intros k; lia|].
  intros i mem1 Hi Hmem1.
  assert (moved (fun k => k.1 = v + i /\ k.2 < W) mem1
    (for_range 0 W (fun hindex => scalar_store sz spp m (rows_at dst_rows base_row base_column) hindex i count
       (pixel_pointer (rows_at src_rows v 0) i hindex) W) mem1)) as Hrow.
  { apply (for_range_ind (fun j m' => moved (fun k => k.1 = v + i /\ k.2 < j) mem1 m')); [lia| |].
    - split; [|done]. intros [[sy sx] c] (Hy & Hx & _) Hk. unfold pixel_of in Hk. cbn [fst snd] in *. lia.
    - intros j mem2 Hj Hmem2. specialize (Hpos j i Hj Hi). unfold scalar_store.
      destruct (store_position m j i count W) as [row column]. destruct Hpos as (Hr & Hcol & Hrow & Hcolumn & Hy & Hx).
      pose proof (row_range j ltac:(lia)). pose proof (column_range (v + i) ltac:(lia)).
      unfold src_rows, dst_rows. rewrite (pixel_pointer_from sz spp W H src) by (done || lia).
      rewrite (pixel_pointer_from sz spp H W dst) by (done || lia). rewrite Hy, Hx, Z.add_0_l.
      eapply (moved_join source_scalar moved_to moved_from pixel_of (fun k => k.1 = v + i /\ k.2 < j) (eq (v + i, j)) _ mem1 mem2);
        [| |exact Hmem2|apply pixel_moved; lia].
      + intros [a b]. cbn [fst snd]. split; [intros [-> Hb]; destruct (decide (b = j)) as [->|]; [by right|left; lia]|].
        intros [?|[= <- <-]]; lia.
      + intros k [_ Hk] <-. cbn [snd] in Hk. lia. }
  apply (moved_ext _ _ _ _ _ (fun k => k.1 = v + i)) in Hrow.
  - apply (moved_join source_scalar moved_to moved_from pixel_of (fun k => v <= k.1 < v + i) (fun k => k.1 = v + i) _ mem mem1);
      [intros k; lia|intros k; lia|exact Hmem1|exact Hrow].
  - intros [[sy sx] c] (_ & Hx & _). unfold pixel_of. cbn [fst snd] in *. lia.
Qed.

(** *** The whole rectangle *)

Lemma rotate_scalar_segment_moved v mem : 0 < W < n -> 0 <= v -> v + n <= H ->
  moved (fun k => v <= k.1 < v + n) mem
    (rotate_transpose_scalar (fun rows h' v' height value => scalar_store sz spp m rows h' v' height value W)
      (rows_at src_rows v 0)
      (rows_at dst_rows (scalar_dst_row_from_src_col m 0 W) (scalar_dst_col_from_src_row m v n)) n W mem).
Proof. intros HW Hv Hvn. apply scalar_moved; [lia|lia|lia|]. intros h' v' Hh Hv'. by apply segment_position. Qed.

(** [n] rows, of which the first may be done already. *)
Lemma lane_number_of_rows_moved v done_rows mem0 mem : 0 <= v -> v + n <= H -> v <= done_rows <= v + n ->
  moved (fun k => k.1 < done_rows) mem0 mem ->
  exists l mem',
    Unroll2.once_remaining true 0 W n
      (fun hindex => rotate_transpose_tile_dispatch sz spp (kReverseRows m) (row_index m) (rows_at src_rows v hindex)
        (rows_at dst_rows (vector_dst_row_from_src_col m hindex n) (vector_dst_col_from_src_row m v n)))
      (fun hindex final_hindex => rotate_transpose_scalar
        (fun rows h' v' height value => scalar_store sz spp m rows h' v' height value (final_hindex ⊟ hindex))
        (rows_at src_rows v hindex)
        (rows_at dst_rows (scalar_dst_row_from_src_col m hindex final_hindex) (scalar_dst_col_from_src_row m v n))
        n (final_hindex ⊟ hindex)) mem = Some (l, mem') /\
    moved (fun k => k.1 < v + n) mem0 mem'.
Proof.
  intros Hv Hvn Hdone Hmem. destruct (tile_order sz spp scalar_size pixel_scalars) as [_ Hn]. fold n in Hn.
  set (Inv := fun j mem' => moved (fun k => k.1 < done_rows \/ v <= k.1 < v + n /\ k.2 < j) mem0 mem').
  assert (forall j k, k.1 < done_rows \/ v <= k.1 < v + n /\ k.2 < j -> k.1 < v + n) as Hless by (intros j k; lia).
  edestruct (Unroll2.once_remaining_avoid_invariant Inv W n) as (l & mem' & -> & Hinv); [unfold is_size; lia|lia| | |
    |exists l, mem'; split; [done|]].
  - intros i j mem1 Hj Hi Hjn Hmem1. unfold Inv in *.
    apply (moved_union source_scalar moved_to moved_from pixel_of
      (fun k => k.1 < done_rows \/ v <= k.1 < v + n /\ k.2 < i) (in_tile v j) _ mem0 mem1).
    + intros a b Ha Hb. by apply rect_source_kept.
    + intros k. unfold in_tile. apply _.
    + intros k. unfold in_tile. lia.
    + exact Hmem1.
    + apply tile_moved; lia.
  - intros HW. unfold Inv. rewrite size_sub_small by lia. rewrite Z.sub_0_r.
    apply (moved_ext _ _ _ _ (fun k => k.1 < v + n)).
    + intros [[sy sx] c] (_ & Hx & _). unfold pixel_of. cbn [fst snd] in *. lia.
    + apply (moved_union source_scalar moved_to moved_from pixel_of (fun k => k.1 < done_rows) (fun k => v <= k.1 < v + n) _ mem0 mem).
      * intros a b Ha Hb. by apply rect_source_kept.
      * intros k. apply _.
      * intros k. lia.
      * exact Hmem.
      * by apply rotate_scalar_segment_moved.
  - unfold Inv. apply (moved_ext _ _ _ _ (fun k => k.1 < done_rows)); [|exact Hmem].
    intros [[sy sx] c] (_ & Hx & _). unfold pixel_of. cbn [fst snd] in *. lia.
  - unfold Inv in Hinv. revert Hinv. apply moved_ext. intros [[sy sx] c] (_ & Hx & _). unfold pixel_of. cbn [fst snd] in *. lia.
Qed.

Lemma rect_moved mem :
  exists mem', rotate_transpose_rect sz spp m {| width_ := W; height_ := H |} src_rows dst_rows mem = Some (KLEIDICV_OK, mem') /\
    moved (fun _ => True) mem mem'.
Proof.
  destruct (tile_order sz spp scalar_size pixel_scalars) as [_ Hn]. fold n in Hn.
  unfold rotate_transpose_rect. cbn [width_ height_]. cbv zeta. fold n.
  set (Inv := fun i (st : option (Z -> Z)) => exists mem', st = Some mem' /\ moved (fun k => k.1 < i) mem mem').
  match goal with |- context [Unroll2.once_remaining true 0 H n ?vec ?rest (Some mem)] =>
    destruct (Unroll2.once_remaining_avoid_invariant Inv H n vec rest (Some mem)) as (l & st & -> & mem' & -> & Hm)
  end; [unfold is_size; lia|lia| | | |cbn [memory_after]; exists mem'; split; [done|]].
  - intros i j st Hj Hi Hjn (mem1 & -> & Hmem1).
    destruct (lane_number_of_rows_moved j i mem mem1) as (l & mem2 & Heq & Hmem2); [lia|lia|lia|done|].
    cbv beta. rewrite Heq. cbn [memory_after]. by exists mem2.
  - intros HH. eexists. split; [reflexivity|]. rewrite !size_sub_small by lia. rewrite !Z.sub_0_r.
    apply (moved_ext _ _ _ _ (fun k => 0 <= k.1 < 0 + H)).
    + intros [[sy sx] c] (Hy & _ & _). unfold pixel_of. cbn [fst snd] in *. lia.
    + apply scalar_moved; [lia|lia|lia|]. intros h' v' Hh Hv. pose proof (remainder_position h' v' HH Hh Hv) as Hpos.
      destruct (store_position m h' v' H W) as [row column]. rewrite !Z.add_0_l. intuition lia.
  - exists mem. split; [done|]. split; [|done].
    intros [[sy sx] c] (Hy & _ & _) Hk. unfold pixel_of in Hk. cbn [fst snd] in *. lia.
  - revert Hm. apply moved_ext. intros [[sy sx] c] (Hy & _ & _). unfold pixel_of. cbn [fst snd] in *. lia.
Qed.
End rect.

(** ** The mappings *)

(** Differences that do not wrap around. *)
Ltac small_differences := repeat match goal with |- context [?a ⊟ ?b] => rewrite (size_sub_small a b) by lia end.

Section mappings.
Context (sz W H : Z).
Hypothesis scalar_size : sz = 1 \/ sz = 2 \/ sz = 4 \/ sz = 8.
Hypothesis size_ok : 0 <= W < 2 ^ 63 /\ 0 <= H < 2 ^ 63.
Let rect : Rectangle := {| width_ := W; height_ := H |}.

Lemma lanes_small : 2 <= num_lanes sz <= 16.
Proof. unfold num_lanes. destruct scalar_size as [->|[->|[->| ->]]]; vm_compute; intuition congruence. Qed.

Lemma transpose_laws : MappingLaws sz W H transpose_to_dst_mapping (fun sx => sx) (fun sy => sy).
Proof. split; try done; intros; cbn; unfold tile_row; cbn; lia. Qed.

Lemma rotate_cw_laws : MappingLaws sz W H (rotate_cw_mapping rect) (fun sx => sx) (fun sy => H - 1 - sy).
Proof.
  pose proof lanes_small as Hn. split; try done; intros; cbn -[num_lanes size_sub]; unfold tile_row; cbn [kReverseRows rotate_cw_mapping];
    small_differences; lia.
Qed.

Lemma rotate_ccw_laws : MappingLaws sz W H (rotate_ccw_mapping rect) (fun sx => W - 1 - sx) (fun sy => sy).
Proof.
  pose proof lanes_small as Hn. split; try done; intros; cbn -[num_lanes size_sub]; unfold tile_row; cbn [kReverseRows rotate_ccw_mapping];
    small_differences; lia.
Qed.
End mappings.
