(* ===== verification/TransposeInPlace.v ===== *)
(** * Transposition in place

    [transpose_in_place] and [transpose_in_place_3ch] of [transpose_neon.cpp]: a square
    image is transposed by tiles.  Two mirrored tiles change places through a temporary
    tile on the stack; single pixels are swapped where no tile fits. *)

From S2P Require Import Prelude CTypes Utils Rows Loops Vectors Elementwise VectorMemory Transfers Flip Tiles RotateTranspose.

(** ** Transposition in place *)

(** [CopyNonOverlappingRows]: [memcpy] of [length * channels] elements. *)
Definition CopyNonOverlappingRows_process_row (sz length : Z) (columns : list Columns) (mem : Z -> Z) : Z -> Z :=
  match columns with
  | [src; dst] => copy_n sz (col_ptr_ src) (length ⊠ col_channels_ dst) (col_ptr_ dst) mem
  | _ => mem
  end.
Definition copy_non_overlapping_rows (sz : Z) (rect : Rectangle) (src dst : Rows) (mem : Z -> Z) : Z -> Z :=
  zip_rows (CopyNonOverlappingRows_process_row sz) rect [src; dst] mem.

Section in_place.
Context (sz spp : Z).
Local Abbreviation num_lanes := (num_lanes sz).

(** [std::swap] of the scalars of two pixels. *)
Definition swap_pixels (data_rows : Rows) (i j : Z) (mem : Z -> Z) : Z -> Z :=
  swap_ranges sz (pixel_pointer data_rows i j) spp (pixel_pointer data_rows j i) mem.

(** [transpose_in_place] and [transpose_in_place_3ch]; [tmp] is the address of the
    temporary tile. *)
Definition transpose_in_place (tmp : Z) (rect : Rectangle) (data_rows : Rows) (mem : Z -> Z)
    : option (kleidicv_error_t * (Z -> Z)) :=
  let num_of_lanes := num_lanes in
  let row_index index (_ : Z) := index in
  let tile := rotate_transpose_tile_dispatch sz spp false row_index in
  let tmp_rows := {| ptr_ := tmp; stride_ := num_of_lanes * sz * spp; channels_ := spp; sizeof_ := sz |} in
  match memory_after (Unroll2.once_remaining false 0 (width_ rect) num_of_lanes
    (fun vindex st =>
      match st with
      | None => None
      | Some mem =>
          let mem := tile (rows_at data_rows vindex vindex) (rows_at data_rows vindex vindex) mem in
          if vindex ⊞ num_of_lanes <? width_ rect then
            memory_after (Unroll2.once_remaining false (vindex ⊞ num_of_lanes) (width_ rect) num_of_lanes
              (fun hindex mem =>
                let mem := tile (rows_at data_rows vindex hindex) tmp_rows mem in
                let mem := tile (rows_at data_rows hindex vindex) (rows_at data_rows vindex hindex) mem in
                copy_non_overlapping_rows sz {| width_ := num_of_lanes; height_ := num_of_lanes |} tmp_rows
                  (rows_at data_rows hindex vindex) mem)
              (fun hindex final_hindex =>
                for_range vindex (vindex ⊞ num_of_lanes) (fun i =>
                  for_range hindex final_hindex (fun j => swap_pixels data_rows i j))) mem)
          else Some mem
      end)
    (fun vindex final_vindex st =>
      match st with
      | None => None
      | Some mem =>
          Some (for_range vindex final_vindex (fun i =>
            for_range (i + 1) final_vindex (fun j => swap_pixels data_rows i j)) mem)
      end) (Some mem))
  with
  | Some (Some mem) => Some (KLEIDICV_OK, mem)
  | _ => None
  end.
End in_place.

(** A transposed tile, given the addresses of its rows. *)
Lemma tile_block sz spp (frow trow : Z -> Z) src_rows dst_rows mem :
  (sz = 1 \/ sz = 2 \/ sz = 4 \/ sz = 8) -> (spp = 1 \/ spp = 3) -> let n := num_lanes sz in
  (forall r, 0 <= r < n -> pixel_pointer src_rows r 0 = frow r) -> (forall r, 0 <= r < n -> pixel_pointer dst_rows r 0 = trow r) ->
  (forall i i', 0 <= i < n -> 0 <= i' < n -> i <> i' -> apart sz (trow i) 0 (n * spp) (trow i') 0 (n * spp)) ->
  let mem' := rotate_transpose_tile_dispatch sz spp false (fun index _ => index) src_rows dst_rows mem in
  (forall i q c, 0 <= i < n -> 0 <= q < n -> 0 <= c < spp -> mem' (trow i + (q * spp + c) * sz) = mem (frow q + (i * spp + c) * sz)) /\
  (forall p, (forall i q c, 0 <= i < n -> 0 <= q < n -> 0 <= c < spp -> p <> trow i + (q * spp + c) * sz) -> mem' p = mem p).
Proof.
  intros Hsz Hspp n Hfrom Hto Hap mem'.
  destruct (tile_filled sz spp Hsz Hspp false (fun index _ => index) src_rows dst_rows mem) as [H1 H2].
  { fold n. intros i i' Hi Hi' Hne. rewrite !Hto by done. by apply Hap. }
  fold n in H1, H2. split.
  - intros i q c Hi Hq Hc. specialize (H1 i (q * spp + c) Hi ltac:(nia)). rewrite Hto in H1 by done. unfold mem'. rewrite H1.
    unfold tile_value, tile_row. rewrite Z.div_add_l, Z.div_small, Z.add_0_r by lia.
    rewrite (Z.add_comm (q * spp)), Z.mod_add, Z.mod_small by lia. by rewrite Hfrom.
  - intros p Hp. apply H2. intros i k Hi Hk. rewrite Hto by done. rewrite (Z.div_mod k spp) by lia.
    rewrite (Z.mul_comm spp). apply Hp; [done|split; [apply Z.div_pos; lia|apply Z.div_lt_upper_bound; lia]|apply Z.mod_pos_bound; lia].
Qed.

Section square.
Context (sz spp W tmp : Z) (data : Z * Z).
Hypothesis scalar_size : sz = 1 \/ sz = 2 \/ sz = 4 \/ sz = 8.
Hypothesis pixel_scalars : spp = 1 \/ spp = 3.
Hypothesis size_ok : 0 <= W < 2 ^ 62.
Hypothesis data_fits : image_fits sz (W * spp) (W + 1) data.
Hypothesis data_apart : same_or_apart sz (W * spp) W data data.
Let n := num_lanes sz.

(** The temporary tile. *)
Definition tile_bytes : Z := num_lanes sz * num_lanes sz * spp * sz.
Hypothesis tmp_fits : 0 <= tmp /\ tmp + tile_bytes + num_lanes sz * spp * sz < 2 ^ 64.
Hypothesis tmp_apart : forall y k, 0 <= y < W -> 0 <= k < W * spp ->
  ~ tmp <= pixel_address sz data y k < tmp + tile_bytes.

(** A memory without the contents of the temporary tile. *)
Definition outside (mem : Z -> Z) (p : Z) : Z := if (tmp <=? p) && (p <? tmp + tile_bytes) then 0 else mem p.

Definition square_scalar (i : Scalar) : Prop := 0 <= i.1.1 < W /\ 0 <= i.1.2 < W /\ 0 <= i.2 < spp.
Definition square_to (i : Scalar) : Z := pixel_address sz data i.1.1 (i.1.2 * spp + i.2).
Definition square_from (i : Scalar) : Z := pixel_address sz data i.1.2 (i.1.1 * spp + i.2).

(** Two mirrored pixels belong together. *)
Definition pixel_pair (i : Scalar) : Z * Z := (Z.min i.1.1 i.1.2, Z.max i.1.1 i.1.2).
Let moved := moved square_scalar square_to square_from pixel_pair.

Lemma square_distinct i j : square_scalar i -> square_scalar j -> square_to i = square_to j -> i = j.
Proof.
  destruct i as [[y x] c], j as [[y' x'] c']. intros (Hy & Hx & Hc) (Hy' & Hx' & Hc') Heq. cbn [fst snd] in *.
  destruct (data_apart y (x * spp + c) y' (x' * spp + c') Hy ltac:(nia) Hy' ltac:(nia)) as (-> & Hk & _).
  - unfold square_to in Heq. cbn [fst snd] in Heq. lia.
  - assert (x = x') as -> by nia. f_equal. lia.
Qed.

Lemma square_from_to i : square_scalar i -> exists j, square_scalar j /\ square_from i = square_to j /\ pixel_pair j = pixel_pair i.
Proof.
  destruct i as [[y x] c]. intros (Hy & Hx & Hc). exists (x, y, c). split; [by split|]. split; [done|].
  unfold pixel_pair. cbn [fst snd]. f_equal; lia.
Qed.

#[local] Instance square_independent : Independent square_scalar square_to square_from pixel_pair.
Proof.
  split.
  - intros i j Hi Hj Heq. by apply square_distinct in Heq as ->.
  - intros i j Hi Hj Heq. destruct (square_from_to i Hi) as (i' & Hi' & Hft & <-). rewrite Hft in Heq.
    by apply square_distinct in Heq as ->.
Qed.

Lemma outside_scratch mem p : tmp <= p < tmp + tile_bytes -> outside mem p = 0.
Proof. intros Hp. unfold outside. case_cmp; cbn; done || lia. Qed.

Lemma outside_image mem i : square_scalar i -> outside mem (square_to i) = mem (square_to i).
Proof.
  intros (Hy & Hx & Hc). pose proof (tmp_apart i.1.1 (i.1.2 * spp + i.2) Hy ltac:(nia)) as Hp. unfold outside, square_to.
  case_cmp; cbn; done || lia.
Qed.

(** What a step does to the image, whatever is left in the temporary tile. *)
Lemma outside_moved P mem mem' :
  (forall i, square_scalar i -> P (pixel_pair i) -> mem' (square_to i) = mem (square_from i)) ->
  (forall p, ~ tmp <= p < tmp + tile_bytes -> (forall i, square_scalar i -> P (pixel_pair i) -> p <> square_to i) -> mem' p = mem p) ->
  moved P (outside mem) (outside mem').
Proof.
  intros H1 H2. split.
  - intros i Hi HP. rewrite outside_image by done. rewrite H1 by done.
    destruct (square_from_to i Hi) as (j & Hj & -> & _). by rewrite outside_image.
  - intros p Hp. destruct (decide (tmp <= p < tmp + tile_bytes)) as [Hs|Hs]; [by rewrite !outside_scratch|].
    unfold outside. destruct ((tmp <=? p) && (p <? tmp + tile_bytes)); [done|]. by apply H2.
Qed.

Let data_rows : Rows := pixel_rows sz spp data.

Lemma lanes_range : 2 <= n <= 16.
Proof. by destruct (tile_order sz spp scalar_size pixel_scalars). Qed.

(** *** Blocks of the image *)
Definition block_row (y x r : Z) : Z := pixel_address sz data (y + r) (x * spp).

Lemma block_pointer y x r : 0 <= y -> y + n <= W -> 0 <= x <= W -> 0 <= r < n ->
  pixel_pointer (rows_at data_rows y x) r 0 = block_row y x r.
Proof.
  intros Hy Hyn Hx Hr. unfold data_rows. rewrite (pixel_pointer_from sz spp W (W + 1) data) by (done || lia || by apply sz_positive).
  unfold block_row. f_equal. lia.
Qed.

Lemma block_element y x i q c : block_row y x i + (q * spp + c) * sz = square_to (y + i, x + q, c).
Proof. unfold block_row, square_to, pixel_address. cbn [fst snd]. lia. Qed.

Lemma block_rows_apart y x : 0 <= y -> y + n <= W -> 0 <= x -> x + n <= W ->
  forall i i', 0 <= i < n -> 0 <= i' < n -> i <> i' -> apart sz (block_row y x i) 0 (n * spp) (block_row y x i') 0 (n * spp).
Proof.
  intros Hy Hyn Hx Hxn i i' Hi Hi' Hne k k' Hk Hk' Heq.
  assert (forall k, 0 <= k < n * spp -> 0 <= k / spp < n /\ 0 <= k mod spp < spp) as Hsplit.
  { intros k0 Hk0. split; [split; [apply Z.div_pos; lia|apply Z.div_lt_upper_bound; lia]|apply Z.mod_pos_bound; lia]. }
  destruct (Hsplit k Hk), (Hsplit k' Hk').
  rewrite (Z.div_mod k spp), (Z.div_mod k' spp), !(Z.mul_comm spp), !block_element in Heq by lia.
  apply square_distinct in Heq; [injection Heq; lia| |]; split; cbn [fst snd]; lia.
Qed.

Lemma in_square y x c : 0 <= y < W -> 0 <= x < W -> 0 <= c < spp -> square_scalar (y, x, c).
Proof. by split. Qed.

(** A tile on the diagonal. *)
Lemma diagonal_moved v mem : 0 <= v -> v + n <= W ->
  moved (fun k => v <= k.1 /\ k.2 < v + n) (outside mem)
    (outside (rotate_transpose_tile_dispatch sz spp false (fun index _ => index) (rows_at data_rows v v) (rows_at data_rows v v) mem)).
Proof.
  intros Hv Hvn. pose proof lanes_range as Hn.
  pose proof (tile_block sz spp (block_row v v) (block_row v v) (rows_at data_rows v v) (rows_at data_rows v v) mem scalar_size
    pixel_scalars) as Ht. cbv zeta in Ht. fold n in Ht.
  destruct Ht as [H1 H2]; [intros r Hr; apply block_pointer; lia..|by apply block_rows_apart|].
  apply outside_moved.
  - intros [[y x] c] (Hy & Hx & Hc) Hk. unfold pixel_pair in Hk. cbn [fst snd] in *.
    specialize (H1 (y - v) (x - v) c ltac:(lia) ltac:(lia) Hc). rewrite !block_element in H1.
    replace (v + (y - v)) with y in H1 by lia. replace (v + (x - v)) with x in H1 by lia. exact H1.
  - intros p _ Hp. apply H2. intros i q c Hi Hq Hc. rewrite block_element. apply Hp; [apply in_square; lia|].
    unfold pixel_pair. cbn [fst snd]. lia.
Qed.

(** Two pixels that change places. *)
Lemma swap_moved i j mem : 0 <= i < j -> j < W ->
  moved (eq (i, j)) (outside mem) (outside (swap_pixels sz spp data_rows i j mem)).
Proof.
  intros Hi Hj. pose proof (sz_positive sz scalar_size) as Hsz. unfold swap_pixels, data_rows.
  rewrite !(pixel_pointer_at sz spp W (W + 1) data) by (done || lia).
  assert (forall y x c, pixel_address sz data y (x * spp) + c * sz = square_to (y, x, c)) as Hto
    by (intros; unfold square_to, pixel_address; cbn [fst snd]; lia).
  destruct (swap_ranges_exchanged sz Hsz (pixel_address sz data i (j * spp)) spp (pixel_address sz data j (i * spp)) mem)
    as (H1 & H2 & H3); [lia| |].
  { intros c c' Hc Hc'. rewrite !Hto. intros Heq%square_distinct; [injection Heq; lia|apply in_square; lia..]. }
  apply outside_moved.
  - intros [[y x] c] (Hy & Hx & Hc) Heq. unfold pixel_pair in Heq. cbn [fst snd] in *. injection Heq as Hmin Hmax.
    change (square_from (y, x, c)) with (square_to (x, y, c)).
    assert (y = i /\ x = j \/ y = j /\ x = i) as [[-> ->]|[-> ->]] by lia; rewrite <- !Hto; [by apply H1|by apply H2].
  - intros p _ Hp. apply H3; intros c Hc; rewrite Hto; apply Hp; try (apply in_square; lia); unfold pixel_pair; cbn [fst snd]; f_equal; lia.
Qed.

(** *** The temporary tile *)
Let tmp_rows : Rows := {| ptr_ := tmp; stride_ := n * sz * spp; channels_ := spp; sizeof_ := sz |}.

Definition tmp_row (r : Z) : Z := tmp + r * (num_lanes sz * spp * sz).

Lemma tmp_pointer r : 0 <= r < n -> pixel_pointer tmp_rows r 0 = tmp_row r.
Proof.
  intros Hr. pose proof lanes_range as Hn. unfold tile_bytes in tmp_fits. fold n in tmp_fits.
  change tmp_rows with (pixel_rows sz spp (tmp, n * sz * spp)).
  rewrite (pixel_pointer_at sz spp n n (tmp, n * sz * spp)).
  - unfold pixel_address, tmp_row. cbn [fst snd]. fold n. lia.
  - by apply sz_positive.
  - done.
  - unfold image_fits, in_address_space. cbn [fst snd]. assert (n * spp * sz <= 16 * 3 * 8) by nia. split; nia.
  - done.
  - lia.
Qed.

Lemma tmp_element_range i q c : 0 <= i < n -> 0 <= q < n -> 0 <= c < spp ->
  tmp <= tmp_row i + (q * spp + c) * sz < tmp + tile_bytes.
Proof.
  intros Hi Hq Hc. pose proof (sz_positive sz scalar_size) as Hsz. pose proof lanes_range as Hn. unfold tmp_row, tile_bytes. fold n.
  assert (0 <= q * spp + c <= n * spp - 1) as Hk by nia.
  assert (0 <= i * (n * spp * sz) <= (n - 1) * (n * spp * sz)) by nia.
  assert (0 <= (q * spp + c) * sz <= (n * spp - 1) * sz) by nia. nia.
Qed.

Lemma tmp_not_image i q c j : 0 <= i < n -> 0 <= q < n -> 0 <= c < spp -> square_scalar j ->
  tmp_row i + (q * spp + c) * sz <> square_to j.
Proof.
  intros Hi Hq Hc (Hy & Hx & Hc') Heq. pose proof (tmp_element_range i q c Hi Hq Hc) as Hr. rewrite Heq in Hr. revert Hr.
  apply tmp_apart; [done|nia].
Qed.

(** *** The copy of the temporary tile to the block at row [h] and column [v] *)
Section copy.
Context (h v : Z).
Hypothesis block_ok : 0 <= h /\ h + n <= W /\ 0 <= v /\ v + n <= W.

Lemma tile_position e : 0 <= e < n * n -> 0 <= e / n < n /\ 0 <= e mod n < n.
Proof.
  intros He. pose proof lanes_range as Hn.
  split; [split; [apply Z.div_pos; lia|apply Z.div_lt_upper_bound; lia]|apply Z.mod_pos_bound; lia].
Qed.

Lemma block_start : ptr_ (rows_at data_rows h v) = block_row h v 0.
Proof.
  pose proof lanes_range as Hn. change (ptr_ (rows_at data_rows h v)) with (pixel_pointer data_rows h v). unfold data_rows.
  rewrite (pixel_pointer_at sz spp W (W + 1) data) by (done || lia || by apply sz_positive). unfold block_row. f_equal. lia.
Qed.

Lemma block_elements e : element_address (rows_at data_rows h v) n e = square_to (h + e / n, v + e mod n, 0).
Proof.
  unfold element_address. rewrite block_start. change (stride_ (rows_at data_rows h v)) with data.2.
  change (channels_ (rows_at data_rows h v)) with spp. change (sizeof_ (rows_at data_rows h v)) with sz.
  unfold block_row, square_to, pixel_address. cbn [fst snd]. lia.
Qed.

Lemma tmp_elements e : element_address tmp_rows n e = tmp_row (e / n) + ((e mod n) * spp + 0) * sz.
Proof. unfold element_address, tmp_row. cbn [ptr_ stride_ channels_ sizeof_ tmp_rows]. fold n. lia. Qed.

Lemma tmp_valid : valid_rows tmp_rows n n.
Proof.
  pose proof lanes_range as Hn. pose proof tmp_fits as Ht. unfold tile_bytes in Ht. fold n in Ht.
  assert (0 <= n * spp * sz <= 16 * 3 * 8) as Hrow by nia.
  unfold valid_rows. cbn [ptr_ stride_ channels_ sizeof_ tmp_rows]. clear - Ht Hrow pixel_scalars scalar_size Hn.
  repeat split; nia.
Qed.

Lemma block_valid : valid_rows (rows_at data_rows h v) n n.
Proof.
  pose proof lanes_range as Hn. unfold valid_rows. rewrite block_start.
  change (stride_ (rows_at data_rows h v)) with data.2. change (channels_ (rows_at data_rows h v)) with spp.
  change (sizeof_ (rows_at data_rows h v)) with sz. destruct data_fits as [(Hp & Hs & Hw & Hend) Hlast].
  unfold block_row, pixel_address. assert (0 <= v * spp * sz <= W * spp * sz) by nia. assert (0 <= h * data.2) by nia.
  assert ((h + n) * data.2 <= W * data.2) by nia. assert (n * spp * sz <= 16 * 3 * 8) by nia.
  clear - Hp Hs Hlast H H0 H1 H2 pixel_scalars scalar_size. repeat split; nia.
Qed.

(** The first [e] pixels are copied. *)
Definition copied (mem : Z -> Z) (e : Z) (m : Z -> Z) : Prop :=
  (forall e' c, 0 <= e' < e -> 0 <= c < spp ->
    m (square_to (h + e' / n, v + e' mod n, c)) = mem (tmp_row (e' / n) + ((e' mod n) * spp + c) * sz)) /\
  (forall p, (forall e' c, 0 <= e' < e -> 0 <= c < spp -> p <> square_to (h + e' / n, v + e' mod n, c)) -> m p = mem p).

Lemma block_scalar e c : 0 <= e < n * n -> 0 <= c < spp -> square_scalar (h + e / n, v + e mod n, c).
Proof. intros He Hc. destruct (tile_position e He). apply in_square; lia. Qed.

Lemma tmp_read_only e c e' c' : 0 <= e < n * n -> 0 <= c < spp -> 0 <= e' < n * n -> 0 <= c' < spp ->
  tmp_row (e / n) + ((e mod n) * spp + c) * sz <> square_to (h + e' / n, v + e' mod n, c').
Proof.
  intros He Hc He' Hc'. destruct (tile_position e He). apply tmp_not_image; [done|done|done|by apply block_scalar].
Qed.

Lemma copied_step mem e len cs cd m : 0 <= e -> 0 <= len -> e + len <= n * n ->
  columns_of tmp_rows n e len cs -> columns_of (rows_at data_rows h v) n e len cd -> copied mem e m ->
  copied mem (e + len) (copy_n sz (col_ptr_ cs) (len * spp) (col_ptr_ cd) m).
Proof.
  intros He Hlen Hbound [_ Hcs] [_ Hcd] [Ha Hb]. pose proof (sz_positive sz scalar_size) as Hsz. pose proof lanes_range as Hn.
  change (channels_ (rows_at data_rows h v)) with spp in Hcd. change (sizeof_ (rows_at data_rows h v)) with sz in Hcd.
  change (channels_ tmp_rows) with spp in Hcs. change (sizeof_ tmp_rows) with sz in Hcs.
  assert (forall j c, 0 <= j < len -> col_ptr_ cs + (j * spp + c) * sz = tmp_row ((e + j) / n) + (((e + j) mod n) * spp + c) * sz) as Hs.
  { intros j c Hj. specialize (Hcs j Hj). rewrite tmp_elements in Hcs. lia. }
  assert (forall j c, 0 <= j < len -> col_ptr_ cd + (j * spp + c) * sz = square_to (h + (e + j) / n, v + (e + j) mod n, c)) as Hd.
  { intros j c Hj. specialize (Hcd j Hj). rewrite block_elements in Hcd. unfold square_to, pixel_address in *. cbn [fst snd] in *. lia. }
  assert (forall k, 0 <= k < len * spp -> exists j c, 0 <= j < len /\ 0 <= c < spp /\ k = j * spp + c) as Hk.
  { intros k Hk. exists (k / spp), (k mod spp). pose proof (Z.div_mod k spp ltac:(lia)). pose proof (Z.mod_pos_bound k spp ltac:(lia)).
    split; [split; [apply Z.div_pos; lia|apply Z.div_lt_upper_bound; lia]|lia]. }
  destruct (copy_n_filled sz Hsz (col_ptr_ cs) (len * spp) (col_ptr_ cd) m) as [Hc1 Hc2]; [nia| |].
  { intros k k' (j & c & Hj & Hc & ->)%Hk (j' & c' & Hj' & Hc' & ->)%Hk. rewrite Hs, Hd by done. apply tmp_read_only; done || lia. }
  split.
  - intros e' c He' Hc. destruct (decide (e' < e)) as [Hlt|Hge].
    + rewrite Hc2; [apply Ha; lia|]. intros k (j & c' & Hj & Hc' & ->)%Hk Heq. rewrite Hd in Heq by done.
      apply square_distinct in Heq; [|apply block_scalar; lia..]. injection Heq as Hq Hr _.
      pose proof (Z.div_mod e' n ltac:(lia)). pose proof (Z.div_mod (e + j) n ltac:(lia)). nia.
    + specialize (Hc1 ((e' - e) * spp + c) ltac:(nia)). rewrite Hs, Hd in Hc1 by lia.
      replace (e + (e' - e)) with e' in Hc1 by lia. rewrite Hc1. apply Hb. intros e0 c0 He0 Hc0. apply tmp_read_only; lia.
  - intros p Hp. rewrite Hc2; [apply Hb|]; [intros; apply Hp; lia|]. intros k (j & c & Hj & Hc & ->)%Hk. rewrite Hd by done.
    apply Hp; lia.
Qed.

Lemma copy_block mem :
  let mem' := copy_non_overlapping_rows sz {| width_ := n; height_ := n |} tmp_rows (rows_at data_rows h v) mem in
  (forall i q c, 0 <= i < n -> 0 <= q < n -> 0 <= c < spp ->
    mem' (square_to (h + i, v + q, c)) = mem (tmp_row i + (q * spp + c) * sz)) /\
  (forall p, (forall i q c, 0 <= i < n -> 0 <= q < n -> 0 <= c < spp -> p <> square_to (h + i, v + q, c)) -> mem' p = mem p).
Proof.
  intros mem'. unfold mem'. pose proof lanes_range as Hn.
  destruct (zip_rows_ind (copied mem) (CopyNonOverlappingRows_process_row sz) n n [tmp_rows; rows_at data_rows h v] mem) as [H1 H2].
  - apply Forall_cons_2; [apply tmp_valid|apply Forall_cons_2; [apply block_valid|apply Forall_nil_2]].
  - lia.
  - lia.
  - nia.
  - intros e len cols m He Hlen Hbound Hm Hcols.
    apply Forall2_cons_inv_l in Hcols as (cs & cols' & Hcs & Hcols & ->).
    apply Forall2_cons_inv_l in Hcols as (cd & cols'' & Hcd & Hcols & ->). apply Forall2_nil_inv_l in Hcols as ->.
    cbn [CopyNonOverlappingRows_process_row]. rewrite (proj1 Hcd). change (channels_ (rows_at data_rows h v)) with spp.
    rewrite size_mul_small by nia. by apply copied_step.
  - split; [lia|done].
  - split.
    + intros i q c Hi Hq Hc. specialize (H1 (i * n + q) c ltac:(nia) Hc).
      rewrite Z.div_add_l, Z.div_small, Z.add_0_r in H1 by lia. rewrite (Z.add_comm (i * n)), Z.mod_add, Z.mod_small in H1 by lia. exact H1.
    + intros p Hp. apply H2. intros e c He Hc. destruct (tile_position e He). by apply Hp.
Qed.
End copy.

(** Two mirrored tiles change places. *)
Lemma pair_moved v h mem : 0 <= v -> v + n <= h -> h + n <= W ->
  let mem1 := rotate_transpose_tile_dispatch sz spp false (fun index _ => index) (rows_at data_rows v h) tmp_rows mem in
  let mem2 := rotate_transpose_tile_dispatch sz spp false (fun index _ => index) (rows_at data_rows h v) (rows_at data_rows v h) mem1 in
  let mem3 := copy_non_overlapping_rows sz {| width_ := n; height_ := n |} tmp_rows (rows_at data_rows h v) mem2 in
  moved (fun k => v <= k.1 < v + n /\ h <= k.2 < h + n) (outside mem) (outside mem3).
Proof.
  intros Hv Hvh Hh mem1 mem2 mem3. pose proof lanes_range as Hn.
  pose proof (tile_block sz spp (block_row v h) tmp_row (rows_at data_rows v h) tmp_rows mem scalar_size pixel_scalars) as Ht1.
  cbv zeta in Ht1. fold n in Ht1. fold mem1 in Ht1. destruct Ht1 as [A1 A2]; [intros r Hr; apply block_pointer; lia|apply tmp_pointer| |].
  { intros i i' Hi Hi' Hne k k' Hk Hk' Heq. unfold tmp_row in Heq. fold n in Heq.
    replace (tmp + i * (n * spp * sz) + k * sz) with (tmp + (i * (n * spp) + k) * sz) in Heq by lia.
    replace (tmp + i' * (n * spp * sz) + k' * sz) with (tmp + (i' * (n * spp) + k') * sz) in Heq by lia.
    apply element_inj in Heq; [nia|by apply sz_positive]. }
  pose proof (tile_block sz spp (block_row h v) (block_row v h) (rows_at data_rows h v) (rows_at data_rows v h) mem1 scalar_size
    pixel_scalars) as Ht2. cbv zeta in Ht2. fold n in Ht2. fold mem2 in Ht2.
  destruct Ht2 as [B1 B2]; [intros r Hr; apply block_pointer; lia|intros r Hr; apply block_pointer; lia|apply block_rows_apart; lia|].
  destruct (copy_block h v ltac:(lia) mem2) as [C1 C2]. fold mem3 in C1, C2.
  assert (forall i q c, 0 <= i < n -> 0 <= q < n -> 0 <= c < spp -> square_scalar (v + i, h + q, c)) as Hvh'
    by (intros; apply in_square; lia).
  assert (forall i q c, 0 <= i < n -> 0 <= q < n -> 0 <= c < spp -> square_scalar (h + i, v + q, c)) as Hhv'
    by (intros; apply in_square; lia).
  apply outside_moved.
  - intros [[y x] c] (Hy & Hx & Hc) Hk. unfold pixel_pair in Hk. cbn [fst snd] in *.
    change (square_from (y, x, c)) with (square_to (x, y, c)).
    destruct (decide (y < x)) as [Hlt|Hge].
    + (* the upper tile, stored by the second transposition *)
      assert (exists i q, 0 <= i < n /\ 0 <= q < n /\ y = v + i /\ x = h + q) as (i & q & Hi & Hq & -> & ->)
        by (exists (y - v), (x - h); lia).
      rewrite C2.
      * specialize (B1 i q c Hi Hq Hc). rewrite !block_element in B1. rewrite B1. apply A2. intros i' q' c' Hi' Hq' Hc' Heq.
        symmetry in Heq. revert Heq. apply tmp_not_image; auto.
      * intros i' q' c' Hi' Hq' Hc' Heq%square_distinct; [injection Heq; lia|auto|auto].
    + assert (exists i q, 0 <= i < n /\ 0 <= q < n /\ y = h + i /\ x = v + q) as (i & q & Hi & Hq & -> & ->)
        by (exists (y - h), (x - v); lia).
      rewrite C1 by done. rewrite B2; [|intros i' q' c' Hi' Hq' Hc'; rewrite block_element; apply tmp_not_image; auto].
      rewrite A1 by done. by rewrite block_element.
  - intros p Hs Hp. assert (forall i q c, 0 <= i < n -> 0 <= q < n -> 0 <= c < spp ->
      p <> square_to (h + i, v + q, c) /\ p <> square_to (v + i, h + q, c)) as Himg.
    { intros i q c Hi Hq Hc. split; apply Hp; auto; unfold pixel_pair; cbn [fst snd]; lia. }
    rewrite C2 by (intros; by apply Himg). rewrite B2 by (intros; rewrite block_element; by apply Himg).
    apply A2. intros i q c Hi Hq Hc ->. by apply Hs, tmp_element_range.
Qed.

(** *** The whole image *)

(** The pairs that are done when rows above [v] are, and in the rows of the current tiles
    the columns up to [j]; the pixels on the diagonal stay in place. *)
Definition done_above (v : Z) (k : Z * Z) : Prop := k.1 < v \/ k.1 = k.2.
Definition done_columns (v j : Z) (k : Z * Z) : Prop := done_above v k \/ v <= k.1 < v + n /\ k.2 < j.

Lemma pair_ordered i : (pixel_pair i).1 <= (pixel_pair i).2.
Proof. unfold pixel_pair. cbn. lia. Qed.

Lemma diagonal_fixed i : (pixel_pair i).1 = (pixel_pair i).2 -> square_from i = square_to i.
Proof. unfold pixel_pair, square_from, square_to. cbn [fst snd]. intros Heq. assert (i.1.1 = i.1.2) as -> by lia. done. Qed.

Lemma moved_diagonal v mem0 mem : 0 <= v -> v + n <= W -> moved (done_above v) (outside mem0) (outside mem) ->
  moved (done_columns v (v + n)) (outside mem0)
    (outside (rotate_transpose_tile_dispatch sz spp false (fun index _ => index) (rows_at data_rows v v) (rows_at data_rows v v) mem)).
Proof.
  intros Hv Hvn Hmem.
  eapply (moved_ext _ _ _ _ (fun k => done_above v k \/ v <= k.1 /\ k.2 < v + n)).
  { intros i _. pose proof (pair_ordered i). unfold done_columns, done_above. lia. }
  eapply (moved_join_fixed square_scalar square_to square_from pixel_pair (done_above v) (fun k => v <= k.1 /\ k.2 < v + n));
    [intros k; unfold done_above; apply _|intros k; apply _|intros k; done| |exact Hmem|by apply diagonal_moved].
  intros i _ Hd Hk. apply diagonal_fixed. unfold done_above in Hd. lia.
Qed.

Lemma moved_swaps v first last done_ mem0 mem : 0 <= v -> v + n <= first -> first <= last <= W ->
  moved done_ (outside mem0) (outside mem) -> (forall k, v <= k.1 < v + n -> first <= k.2 -> ~ done_ k) ->
  moved (fun k => done_ k \/ v <= k.1 < v + n /\ first <= k.2 < last) (outside mem0)
    (outside (for_range v (v + n) (fun i => for_range first last (fun j => swap_pixels sz spp data_rows i j)) mem)).
Proof.
  intros Hv Hvf Hl Hmem Hnot. pose proof lanes_range as Hn.
  apply (for_range_ind (fun i m => moved (fun k => done_ k \/ v <= k.1 < i /\ first <= k.2 < last) (outside mem0) (outside m))); [lia| |].
  - revert Hmem. apply moved_ext. intros i _. intuition lia.
  - intros i m Hi Hm.
    apply (moved_ext _ _ _ _ (fun k => (done_ k \/ v <= k.1 < i /\ first <= k.2 < last) \/ k.1 = i /\ first <= k.2 < last)).
    { intros k _. intuition lia. }
    apply (for_range_ind (fun j m => moved (fun k => (done_ k \/ v <= k.1 < i /\ first <= k.2 < last) \/ k.1 = i /\ first <= k.2 < j)
      (outside mem0) (outside m))); [lia| |].
    + revert Hm. apply moved_ext. intros k _. intuition lia.
    + intros j m' Hj Hm'.
      eapply (moved_join square_scalar square_to square_from pixel_pair _ (eq (i, j))); [| |exact Hm'|apply swap_moved; lia].
      * intros [a b]. cbn [fst snd]. split.
        -- intros [Hd|[-> Hb]]; [by left; left|]. destruct (decide (b = j)) as [->|]; [by right|left; right; lia].
        -- intros [[Hd|Hd]|[= <- <-]]; [by left|right; lia|right; lia].
      * intros [a b] Hd [= <- <-]. cbn [fst snd] in Hd. destruct Hd as [[Hd|Hd]|Hd]; [|lia|lia].
        revert Hd. apply Hnot; cbn [fst snd]; lia.
Qed.

Lemma moved_triangle v mem0 mem : 0 <= v <= W -> moved (done_above v) (outside mem0) (outside mem) ->
  moved (done_above W) (outside mem0)
    (outside (for_range v W (fun i => for_range (i + 1) W (fun j => swap_pixels sz spp data_rows i j)) mem)).
Proof.
  intros Hv Hmem.
  apply (for_range_ind (fun i m => moved (done_above i) (outside mem0) (outside m))); [lia|exact Hmem|].
  intros i m Hi Hm.
  apply (moved_ext _ _ _ _ (fun k => done_above i k \/ k.1 = i /\ i + 1 <= k.2 < W)).
  { intros [[y x] c] (Hy & Hx & _). unfold done_above, pixel_pair. cbn [fst snd] in *. lia. }
  apply (for_range_ind (fun j m => moved (fun k => done_above i k \/ k.1 = i /\ i + 1 <= k.2 < j) (outside mem0) (outside m))); [lia| |].
  - revert Hm. apply moved_ext. intros k _. intuition lia.
  - intros j m' Hj Hm'.
    eapply (moved_join square_scalar square_to square_from pixel_pair _ (eq (i, j))); [| |exact Hm'|apply swap_moved; lia].
    + intros [a b]. cbn [fst snd]. split.
      * intros [Hd|[-> Hb]]; [by left; left|]. destruct (decide (b = j)) as [->|]; [by right|left; right; lia].
      * intros [[Hd|Hd]|[= <- <-]]; [by left|right; lia|right; lia].
    + unfold done_above. intros [a b] Hd [= <- <-]. cbn [fst snd] in Hd. lia.
Qed.

(** The rows of one tile on the diagonal. *)
Lemma tile_rows_moved v mem0 mem : 0 <= v -> v + n <= W -> moved (done_above v) (outside mem0) (outside mem) ->
  exists mem',
    (let mem := rotate_transpose_tile_dispatch sz spp false (fun index _ => index) (rows_at data_rows v v) (rows_at data_rows v v) mem in
     if v ⊞ n <? W then
       memory_after (Unroll2.once_remaining false (v ⊞ n) W n
         (fun hindex mem =>
           let mem := rotate_transpose_tile_dispatch sz spp false (fun index _ => index) (rows_at data_rows v hindex) tmp_rows mem in
           let mem := rotate_transpose_tile_dispatch sz spp false (fun index _ => index) (rows_at data_rows hindex v)
             (rows_at data_rows v hindex) mem in
           copy_non_overlapping_rows sz {| width_ := n; height_ := n |} tmp_rows (rows_at data_rows hindex v) mem)
         (fun hindex final_hindex =>
           for_range v (v ⊞ n) (fun i => for_range hindex final_hindex (fun j => swap_pixels sz spp data_rows i j))) mem)
     else Some mem) = Some mem' /\
    moved (done_above (v + n)) (outside mem0) (outside mem').
Proof.
  intros Hv Hvn Hmem. pose proof lanes_range as Hn. rewrite size_add_small by lia. cbv zeta.
  pose proof (moved_diagonal v mem0 mem Hv Hvn Hmem) as Hdiag.
  set (mem1 := rotate_transpose_tile_dispatch sz spp false (fun index _ => index) (rows_at data_rows v v) (rows_at data_rows v v) mem) in *.
  assert (forall m, moved (done_columns v W) (outside mem0) (outside m) -> moved (done_above (v + n)) (outside mem0) (outside m)) as Hend.
  { intros m. apply moved_ext. intros [[y x] c] (Hy & Hx & _). unfold done_columns, done_above, pixel_pair. cbn [fst snd] in *. lia. }
  destruct (Z.ltb_spec (v + n) W) as [Hlt|Hge].
  - set (Inv := fun j m => v + n <= j /\ moved (done_columns v j) (outside mem0) (outside m)).
    edestruct (Unroll2.once_remaining_invariant Inv (v + n) W n) as (l & mem' & -> & _ & Hm'); [unfold is_size; lia|lia|lia| | | |
      cbn [memory_after]; exists mem'; split; [done|by apply Hend]].
    + intros j m Hj Hjn [Hvj Hm]. split; [lia|].
      eapply (moved_join square_scalar square_to square_from pixel_pair (done_columns v j)
        (fun k => v <= k.1 < v + n /\ j <= k.2 < j + n)); [| |exact Hm|apply pair_moved; lia].
      * intros k. unfold done_columns, done_above. lia.
      * unfold done_columns, done_above. intros k. lia.
    + intros j m Hj [Hvj Hm]. split; [lia|].
      apply (moved_ext _ _ _ _ (fun k => done_columns v j k \/ v <= k.1 < v + n /\ j <= k.2 < W)).
      { intros k _. unfold done_columns. intuition lia. }
      apply moved_swaps; [lia|lia|lia|exact Hm|]. unfold done_columns, done_above. intros k. lia.
    + by split.
  - exists mem1. split; [done|]. apply Hend. by replace W with (v + n) by lia.
Qed.

Lemma square_moved mem :
  exists mem', transpose_in_place sz spp tmp {| width_ := W; height_ := W |} data_rows mem = Some (KLEIDICV_OK, mem') /\
    moved (fun _ => True) (outside mem) (outside mem').
Proof.
  pose proof lanes_range as Hn. unfold transpose_in_place. cbn [width_]. cbv zeta. fold n. fold tmp_rows.
  set (Inv := fun i (st : option (Z -> Z)) => exists mem', st = Some mem' /\ moved (done_above i) (outside mem) (outside mem')).
  match goal with |- context [Unroll2.once_remaining false 0 W n ?vec ?rest (Some mem)] =>
    destruct (Unroll2.once_remaining_invariant Inv 0 W n vec rest (Some mem)) as (l & st & -> & mem' & -> & Hm)
  end; [unfold is_size; lia|lia|lia| | | |cbn [memory_after]; exists mem'; split; [done|]].
  - intros i st Hi Hin (m & -> & Hm). apply (tile_rows_moved i mem m Hi Hin Hm).
  - intros i st Hi (m & -> & Hm). eexists. split; [reflexivity|]. apply moved_triangle; [lia|done].
  - exists mem. split; [done|].
    apply (moved_grow square_scalar square_to square_from pixel_pair (fun _ => False)); [by intros k []| |apply moved_none; by intros k []].
    intros i (Hy & Hx & _) Hd. right. split; [tauto|]. apply diagonal_fixed. unfold done_above, pixel_pair in *. cbn [fst snd] in *. lia.
  - revert Hm. apply moved_ext. intros [[y x] c] (Hy & Hx & _). unfold done_above, pixel_pair. cbn [fst snd] in *. lia.
Qed.
End square.
