(* ===== verification/Transpose.v ===== *)
(** * Calls of transpose and rotate

    [transpose] and [rotate] of [transpose_neon.cpp] and [rotate_neon.cpp]: the checks of
    the arguments, the choice of the kernel by pixel size, and the whole calls. *)

From S2P Require Import Prelude CTypes Utils Rows Elementwise VectorMemory Transfers Flip Tiles RotateTranspose TransposeInPlace.

Section calls.
Context (sz spp : Z).

(** The checks that both calls share. *)
Definition transform_checks (src src_stride dst dst_stride src_width src_height : Z) : kleidicv_error_t :=
  check_pointer_alignment sz src ?>
  check_pointer_alignment sz dst ?>
  check_pointer_and_stride sz src src_stride src_height ?>
  check_pointer_and_stride sz dst dst_stride src_width ?>
  check_image_size src_width src_height.

(** [transpose_to_dst], [rotate_cw] and [rotate_ccw]. *)
Definition transpose_to_dst : Rectangle -> Rows -> Rows -> (Z -> Z) -> option (kleidicv_error_t * (Z -> Z)) :=
  rotate_transpose_rect sz spp transpose_to_dst_mapping.
Definition rotate_cw (rect : Rectangle) : Rows -> Rows -> (Z -> Z) -> option (kleidicv_error_t * (Z -> Z)) :=
  rotate_transpose_rect sz spp (rotate_cw_mapping rect) rect.
Definition rotate_ccw (rect : Rectangle) : Rows -> Rows -> (Z -> Z) -> option (kleidicv_error_t * (Z -> Z)) :=
  rotate_transpose_rect sz spp (rotate_ccw_mapping rect) rect.

(** [transpose<T, k3Channels>]; [tmp] is the address of the temporary tile. *)
Definition transpose_type (tmp src src_stride dst dst_stride src_width src_height : Z) (mem : Z -> Z)
    : option (kleidicv_error_t * (Z -> Z)) :=
  match transform_checks src src_stride dst dst_stride src_width src_height with
  | KLEIDICV_OK =>
      let rect := {| width_ := src_width; height_ := src_height |} in
      let dst_rows := {| ptr_ := dst; stride_ := dst_stride; channels_ := spp; sizeof_ := sz |} in
      if src =? dst then
        if negb (src_width =? src_height) then Some (KLEIDICV_ERROR_NOT_IMPLEMENTED, mem)
        else transpose_in_place sz spp tmp rect dst_rows mem
      else
        let src_rows := {| ptr_ := src; stride_ := src_stride; channels_ := spp; sizeof_ := sz |} in
        transpose_to_dst rect src_rows dst_rows mem
  | error => Some (error, mem)
  end.

(** [rotate<T, k3Channels>]. *)
Definition rotate_type (src src_stride src_width src_height dst dst_stride angle : Z) (mem : Z -> Z)
    : option (kleidicv_error_t * (Z -> Z)) :=
  match transform_checks src src_stride dst dst_stride src_width src_height with
  | KLEIDICV_OK =>
      let rect := {| width_ := src_width; height_ := src_height |} in
      let dst_rows := {| ptr_ := dst; stride_ := dst_stride; channels_ := spp; sizeof_ := sz |} in
      let src_rows := {| ptr_ := src; stride_ := src_stride; channels_ := spp; sizeof_ := sz |} in
      if angle =? 90 then rotate_cw rect src_rows dst_rows mem else rotate_ccw rect src_rows dst_rows mem
  | error => Some (error, mem)
  end.
End calls.

Definition transpose (tmp src src_stride dst dst_stride src_width src_height pixel_size : Z) (mem : Z -> Z)
    : option (kleidicv_error_t * (Z -> Z)) :=
  match pixel_layout pixel_size with
  | Some (sz, spp) => transpose_type sz spp tmp src src_stride dst dst_stride src_width src_height mem
  | None => Some (KLEIDICV_ERROR_NOT_IMPLEMENTED, mem)
  end.

Definition rotate_is_implemented (src dst angle pixel_size : Z) : bool :=
  if negb (angle =? 90) && negb (angle =? -90) && negb (angle =? 270) then false
  else if src =? dst then false
  else match pixel_layout pixel_size with Some _ => true | None => false end.

Definition rotate (src src_stride src_width src_height dst dst_stride angle pixel_size : Z) (mem : Z -> Z)
    : option (kleidicv_error_t * (Z -> Z)) :=
  if negb (rotate_is_implemented src dst angle pixel_size) then Some (KLEIDICV_ERROR_NOT_IMPLEMENTED, mem)
  else
    match pixel_layout pixel_size with
    | Some (sz, spp) => rotate_type sz spp src src_stride src_width src_height dst dst_stride angle mem
    | None => Some (KLEIDICV_ERROR_NOT_IMPLEMENTED, mem)
    end.

(** ** Correctness *)

(** Column [sx] of the source becomes row [gy sx] of the destination, row [sy] becomes
    column [gx sy]; the addresses in [scratch] are unspecified, nothing else is written. *)
Definition turned (gy gx : Z -> Z) (sz spp W H : Z) (src dst : Z * Z) (scratch : Z -> Prop) (mem mem' : Z -> Z) : Prop :=
  (forall sy sx c, 0 <= sy < H -> 0 <= sx < W -> 0 <= c < spp ->
    mem' (pixel_address sz dst (gy sx) (gx sy * spp + c)) = mem (pixel_address sz src sy (sx * spp + c))) /\
  (forall p, ~ scratch p -> (forall sy sx c, 0 <= sy < H -> 0 <= sx < W -> 0 <= c < spp ->
    p <> pixel_address sz dst (gy sx) (gx sy * spp + c)) -> mem' p = mem p).

Definition no_scratch (p : Z) : Prop := False.
Definition temporary_tile (sz spp tmp p : Z) : Prop := tmp <= p < tmp + tile_bytes sz spp.

(** The arguments that pass the checks of the code, which ask for the alignment of a scalar.
    The documentation asks for the alignment of a pixel, which for the pixels of three
    scalars is more: [documented_transform_accepted]. *)
Definition transform_accepts (sz W H : Z) (src dst : Z * Z) : Prop :=
  src.1 <> 0 /\ dst.1 <> 0 /\ src.1 mod sz = 0 /\ dst.1 mod sz = 0 /\
  (1 < H -> src.2 mod sz = 0) /\ (1 < W -> dst.2 mod sz = 0) /\ W * H <= KLEIDICV_MAX_IMAGE_PIXELS.

Lemma transform_checks_ok sz src dst W H : sz = 1 \/ sz = 2 \/ sz = 4 \/ sz = 8 -> 0 <= W -> 0 <= H ->
  transform_checks sz src.1 src.2 dst.1 dst.2 W H = KLEIDICV_OK <-> transform_accepts sz W H src dst.
Proof.
  intros Hs HW HH. unfold transform_checks, transform_accepts.
  rewrite !guard_error_ok, !check_pointer_alignment_ok, !check_pointer_and_stride_ok, check_image_size_iff by done.
  assert (forall k v, (1 < k -> sz <> 1 -> is_misaligned sz v = false) <-> (1 < k -> v mod sz = 0)) as Hal.
  { intros k v. rewrite aligned_scalar by done. split; [|tauto]. intros Hv Hk.
    destruct (Z.eq_dec sz 1) as [->|]; [apply Z.mod_1_r|by apply Hv]. }
  rewrite !Hal. tauto.
Qed.

(** The arguments that the documentation of transpose and rotate allows: pointers and strides
    are multiples of the size of a pixel, and a stride is not shorter than a row. *)
Definition documented_transform (pixel_size W H : Z) (src dst : Z * Z) : Prop :=
  src.1 <> 0 /\ dst.1 <> 0 /\ (pixel_size | src.1) /\ (pixel_size | dst.1) /\
  (1 < H -> (pixel_size | src.2) /\ W * pixel_size <= src.2) /\
  (1 < W -> (pixel_size | dst.2) /\ H * pixel_size <= dst.2) /\ W * H <= KLEIDICV_MAX_IMAGE_PIXELS.

Lemma documented_transform_accepted sz spp pixel_size W H src dst : pixel_layout pixel_size = Some (sz, spp) ->
  documented_transform pixel_size W H src dst -> transform_accepts sz W H src dst.
Proof.
  intros Hl (Hs & Hd & Has & Had & Hss & Hds & Hsize). pose proof (fun v => pixel_aligned sz spp pixel_size v Hl) as Hdiv.
  unfold transform_accepts. split_and!; auto; intros Hn; apply Hdiv; [by apply Hss|by apply Hds].
Qed.

(** An address and strides of 3-byte pixels that are not multiples of three pass the checks. *)
Lemma undocumented_transform_accepted :
  transform_accepts 1 17 20 (1000, 64) (9000, 64) /\ ~ documented_transform 3 17 20 (1000, 64) (9000, 64).
Proof.
  split.
  - unfold transform_accepts. cbn [fst snd]. split_and!; done.
  - intros (_ & _ & [k Hk] & _). cbn [fst] in Hk. lia.
Qed.

(** Two images of which neither overlaps the other. *)
Definition apart_images (sz spp W H : Z) (src dst : Z * Z) : Prop :=
  image_fits sz (W * spp) H src /\ image_fits sz (H * spp) W dst /\ same_or_apart sz (H * spp) W dst dst /\
  forall y x y' x', 0 <= y < H -> 0 <= x < W * spp -> 0 <= y' < W -> 0 <= x' < H * spp ->
    pixel_address sz src y x <> pixel_address sz dst y' x'.

(** A square image and a temporary tile apart from it. *)
Definition square_placed (sz spp W tmp : Z) (image : Z * Z) : Prop :=
  image_fits sz (W * spp) (W + 1) image /\ same_or_apart sz (W * spp) W image image /\
  0 <= tmp /\ tmp + tile_bytes sz spp + num_lanes sz * spp * sz < 2 ^ 64 /\
  forall y k, 0 <= y < W -> 0 <= k < W * spp -> ~ temporary_tile sz spp tmp (pixel_address sz image y k).

Lemma turned_of_moved gy gx sz spp W H src dst mem mem' :
  moved (source_scalar spp W H) (moved_to sz spp gy gx dst) (moved_from sz spp src) pixel_of (fun _ => True) mem mem' ->
  turned gy gx sz spp W H src dst no_scratch mem mem'.
Proof.
  intros [H1 H2]. split.
  - intros sy sx c Hy Hx Hc. apply (H1 (sy, sx, c)); [by split|done].
  - intros p _ Hp. apply H2. intros [[sy sx] c] (Hy & Hx & Hc) _. by apply Hp.
Qed.

Lemma rect_turned sz spp W H m gy gx src dst mem : MappingLaws sz W H m gy gx ->
  (sz = 1 \/ sz = 2 \/ sz = 4 \/ sz = 8) -> (spp = 1 \/ spp = 3) -> 0 <= W < 2 ^ 63 -> 0 <= H < 2 ^ 63 ->
  apart_images sz spp W H src dst ->
  exists mem', rotate_transpose_rect sz spp m {| width_ := W; height_ := H |} (pixel_rows sz spp src) (pixel_rows sz spp dst) mem
      = Some (KLEIDICV_OK, mem') /\ turned gy gx sz spp W H src dst no_scratch mem mem'.
Proof.
  intros Hlaws Hsz Hspp HW HH (Hsrc & Hdst & Hself & Hap).
  destruct (rect_moved sz spp W H m gy gx src dst) with (mem := mem) as (mem' & Hrun & Hm); try done.
  exists mem'. split; [done|]. by apply turned_of_moved.
Qed.

Lemma square_turned sz spp W tmp image mem : (sz = 1 \/ sz = 2 \/ sz = 4 \/ sz = 8) -> (spp = 1 \/ spp = 3) -> 0 <= W < 2 ^ 62 ->
  square_placed sz spp W tmp image ->
  exists mem', transpose_in_place sz spp tmp {| width_ := W; height_ := W |} (pixel_rows sz spp image) mem = Some (KLEIDICV_OK, mem') /\
    turned (fun sx => sx) (fun sy => sy) sz spp W W image image (temporary_tile sz spp tmp) mem mem'.
Proof.
  intros Hsz Hspp HW (Hfits & Hself & Ht0 & Ht & Hap).
  destruct (square_moved sz spp W tmp image Hsz Hspp HW Hfits Hself (conj Ht0 Ht) Hap mem) as (mem' & Hrun & H1 & H2).
  exists mem'. split; [exact Hrun|].
  assert (forall i, square_scalar spp W i -> outside sz spp tmp mem (square_to sz spp image i) = mem (square_to sz spp image i) /\
    outside sz spp tmp mem' (square_to sz spp image i) = mem' (square_to sz spp image i)) as Hout.
  { intros i Hi. split; apply (outside_image sz spp W tmp image Hspp Hap); done. }
  split.
  - intros sy sx c Hy Hx Hc. pose proof (in_square spp W sx sy c Hx Hy Hc) as Hi. pose proof (in_square spp W sy sx c Hy Hx Hc) as Hj.
    specialize (H1 (sx, sy, c) Hi I).
    change (square_from sz spp image (sx, sy, c)) with (square_to sz spp image (sy, sx, c)) in H1.
    rewrite (proj1 (Hout _ Hj)), (proj2 (Hout _ Hi)) in H1. exact H1.
  - intros p Hs Hp. specialize (H2 p). unfold outside in H2. unfold temporary_tile in Hs.
    destruct ((tmp <=? p) && (p <? tmp + tile_bytes sz spp)) eqn:Hr.
    + apply andb_true_iff in Hr as [Hr1%Z.leb_le Hr2%Z.ltb_lt]. by destruct Hs.
    + apply H2. intros [[y x] c] (Hy & Hx & Hc) _. by apply (Hp x y c).
Qed.

(** *** transpose *)

Definition transpose_accepts (sz W H : Z) (src dst : Z * Z) : Prop :=
  transform_accepts sz W H src dst /\ (src.1 = dst.1 -> W = H).

(** In place the source is the destination, and the temporary tile is scratch memory. *)
Definition transposed (sz spp W H tmp : Z) (src dst : Z * Z) : (Z -> Z) -> (Z -> Z) -> Prop :=
  if src.1 =? dst.1 then turned (fun sx => sx) (fun sy => sy) sz spp W H dst dst (temporary_tile sz spp tmp)
  else turned (fun sx => sx) (fun sy => sy) sz spp W H src dst no_scratch.

Definition transpose_placed (sz spp W H tmp : Z) (src dst : Z * Z) : Prop :=
  if src.1 =? dst.1 then W = H -> square_placed sz spp W tmp dst else apart_images sz spp W H src dst.

(** A call succeeds exactly for accepted arguments, and otherwise writes nothing. *)
Definition transform_outcome (accepts : Prop) (result : (Z -> Z) -> (Z -> Z) -> Prop) (mem : Z -> Z)
    (err : kleidicv_error_t) (mem' : Z -> Z) : Prop :=
  (err = KLEIDICV_OK /\ accepts /\ result mem mem') \/ (err <> KLEIDICV_OK /\ ~ accepts /\ mem' = mem).

Lemma transpose_run sz spp pixel_size tmp src dst W H mem : pixel_layout pixel_size = Some (sz, spp) ->
  0 <= W < 2 ^ 62 -> 0 <= H < 2 ^ 62 -> transpose_placed sz spp W H tmp src dst ->
  exists err mem', transpose tmp src.1 src.2 dst.1 dst.2 W H pixel_size mem = Some (err, mem') /\
    transform_outcome (transpose_accepts sz W H src dst) (transposed sz spp W H tmp src dst) mem err mem'.
Proof.
  intros Hl HW HH Hp. destruct (pixel_layout_sizes _ _ _ Hl) as (Hsz & Hspp & _).
  unfold transpose, transpose_type. rewrite Hl.
  pose proof (transform_checks_ok sz src dst W H Hsz ltac:(lia) ltac:(lia)) as Hok. unfold transpose_placed, transposed, transpose_accepts in *.
  destruct (transform_checks sz src.1 src.2 dst.1 dst.2 W H) eqn:Hv;
    try (eexists _, mem; split; [reflexivity|]; right; split; [done|]; split; [|done]; intros [Ha _]; by apply Hok in Ha).
  pose proof (proj1 Hok eq_refl) as Ha. destruct (Z.eqb_spec src.1 dst.1) as [He|Hne].
  - destruct (Z.eqb_spec W H) as [<-|Hwh]; cbn [negb].
    + destruct (square_turned sz spp W tmp dst mem Hsz Hspp HW (Hp eq_refl)) as (mem' & Hrun & Ht).
      exists KLEIDICV_OK, mem'. split; [exact Hrun|]. left. by split.
    + eexists _, mem. split; [reflexivity|]. right. split; [done|]. split; [|done]. intros [_ Hwh']. by apply Hwh, Hwh'.
  - destruct (rect_turned sz spp W H transpose_to_dst_mapping (fun sx => sx) (fun sy => sy) src dst mem) as (mem' & Hrun & Ht);
      try done; [by apply transpose_laws|lia|lia|].
    exists KLEIDICV_OK, mem'. split; [exact Hrun|]. left. by split.
Qed.

(** *** rotate *)

Definition quarter_turn (angle : Z) : Prop := angle = 90 \/ angle = -90 \/ angle = 270.

Definition rotate_accepts (sz W H angle : Z) (src dst : Z * Z) : Prop :=
  quarter_turn angle /\ src.1 <> dst.1 /\ transform_accepts sz W H src dst.

(** Clockwise, the left column becomes the top row, upwards; counter-clockwise, it becomes
    the bottom row. *)
Definition rotated (sz spp W H angle : Z) (src dst : Z * Z) : (Z -> Z) -> (Z -> Z) -> Prop :=
  if angle =? 90 then turned (fun sx => sx) (fun sy => H - 1 - sy) sz spp W H src dst no_scratch
  else turned (fun sx => W - 1 - sx) (fun sy => sy) sz spp W H src dst no_scratch.

Lemma rotate_is_implemented_ok src dst angle pixel_size sz spp : pixel_layout pixel_size = Some (sz, spp) ->
  rotate_is_implemented src dst angle pixel_size = true <-> quarter_turn angle /\ src <> dst.
Proof.
  intros Hl. unfold rotate_is_implemented, quarter_turn. rewrite Hl.
  destruct (Z.eqb_spec angle 90), (Z.eqb_spec angle (-90)), (Z.eqb_spec angle 270), (Z.eqb_spec src dst); cbn [negb andb];
    intuition congruence.
Qed.

Lemma rotate_run sz spp pixel_size src dst W H angle mem : pixel_layout pixel_size = Some (sz, spp) ->
  0 <= W < 2 ^ 63 -> 0 <= H < 2 ^ 63 -> (src.1 <> dst.1 -> apart_images sz spp W H src dst) ->
  exists err mem', rotate src.1 src.2 W H dst.1 dst.2 angle pixel_size mem = Some (err, mem') /\
    transform_outcome (rotate_accepts sz W H angle src dst) (rotated sz spp W H angle src dst) mem err mem'.
Proof.
  intros Hl HW HH Hp. destruct (pixel_layout_sizes _ _ _ Hl) as (Hsz & Hspp & _).
  pose proof (rotate_is_implemented_ok src.1 dst.1 angle pixel_size sz spp Hl) as Himpl.
  unfold rotate, rotate_type. rewrite Hl. unfold rotate_accepts, rotated.
  destruct (rotate_is_implemented src.1 dst.1 angle pixel_size); cbn [negb];
    [|eexists _, mem; split; [reflexivity|]; right; split; [done|]; split; [|done]; intros (Ha & Hne & _);
      by pose proof (proj2 Himpl (conj Ha Hne))].
  destruct (proj1 Himpl eq_refl) as [Hq Hne].
  pose proof (transform_checks_ok sz src dst W H Hsz ltac:(lia) ltac:(lia)) as Hok.
  destruct (transform_checks sz src.1 src.2 dst.1 dst.2 W H) eqn:Hv;
    try (eexists _, mem; split; [reflexivity|]; right; split; [done|]; split; [|done]; intros (_ & _ & Ha); by apply Hok in Ha).
  pose proof (proj1 Hok eq_refl) as Ha. specialize (Hp Hne). destruct (Z.eqb_spec angle 90) as [_|_].
  - destruct (rect_turned sz spp W H (rotate_cw_mapping {| width_ := W; height_ := H |}) (fun sx => sx) (fun sy => H - 1 - sy) src dst mem)
      as (mem' & Hrun & Ht); try done; [by apply rotate_cw_laws|].
    exists KLEIDICV_OK, mem'. split; [exact Hrun|]. left. by split.
  - destruct (rect_turned sz spp W H (rotate_ccw_mapping {| width_ := W; height_ := H |}) (fun sx => W - 1 - sx) (fun sy => sy) src dst mem)
      as (mem' & Hrun & Ht); try done; [by apply rotate_ccw_laws|].
    exists KLEIDICV_OK, mem'. split; [exact Hrun|]. left. by split.
Qed.

(** ** Properties *)

(** C11: [kleidicv_transpose], for every pixel size and image size, into another image or in
    place on a square image: the call succeeds exactly for the arguments that pass its checks
    (which ask less than the documentation: scalar alignment, and no lower bound for the
    strides), and then pixel [(y, x)] of the destination is pixel [(x, y)] of the source, whatever tiles,
    overlapping tiles and remainders the image is cut into; nothing else is written but the
    temporary tile of the in-place kernel. *)
Theorem transpose_correct sz spp pixel_size tmp src dst W H mem : pixel_layout pixel_size = Some (sz, spp) ->
  0 <= W < 2 ^ 62 -> 0 <= H < 2 ^ 62 -> transpose_placed sz spp W H tmp src dst ->
  exists err mem', transpose tmp src.1 src.2 dst.1 dst.2 W H pixel_size mem = Some (err, mem') /\
    transform_outcome (transpose_accepts sz W H src dst) (transposed sz spp W H tmp src dst) mem err mem'.
Proof. apply transpose_run. Qed.

(** In place, 18 x 18 pixels of two bytes: tiles on the diagonal, mirrored tiles and swaps. *)
Lemma transpose_correct_witness :
  exists mem', transpose 100000 1000 40 1000 40 18 18 2 (fun p => p) = Some (KLEIDICV_OK, mem') /\
    mem' (1000 + 3 * 40 + 17 * 2) = 1000 + 17 * 40 + 3 * 2 /\ mem' (1000 + 9 * 40 + 1 * 2) = 1000 + 1 * 40 + 9 * 2.
Proof.
  destruct (transpose_correct 2 1 2 100000 (1000, 40) (1000, 40) 18 18 (fun p => p)) as (err & mem' & Hrun & Hout).
  - reflexivity.
  - lia.
  - lia.
  - intros _. unfold square_placed, image_fits, in_address_space, same_or_apart, temporary_tile, tile_bytes, pixel_address.
    cbn [fst snd]. change (num_lanes 2) with 8. split; [lia|]. split; [intros; lia|]. split; [lia|]. split; [lia|]. intros; lia.
  - exists mem'. destruct Hout as [(-> & _ & Hf & _)|(_ & Hna & _)].
    + split; [exact Hrun|]. split; [exact (Hf 17 3 0 ltac:(lia) ltac:(lia) ltac:(lia))|].
      exact (Hf 1 9 0 ltac:(lia) ltac:(lia) ltac:(lia)).
    + exfalso. apply Hna. unfold transpose_accepts, transform_accepts. cbn [fst snd]. split; [|done].
      split; [lia|]. split; [lia|]. split; [done|]. split; [done|]. split; [done|]. split; done.
Defined.

(** C12: [kleidicv_rotate] by 90, -90 or 270 degrees, for every pixel size and image size: the
    call succeeds exactly for the arguments that pass its checks (in place it is not
    implemented; scalar alignment is enough, where the documentation asks for that of a
    pixel), and then the destination is the rotated source, and nothing else is written. *)
Theorem rotate_correct sz spp pixel_size src dst W H angle mem : pixel_layout pixel_size = Some (sz, spp) ->
  0 <= W < 2 ^ 63 -> 0 <= H < 2 ^ 63 -> (src.1 <> dst.1 -> apart_images sz spp W H src dst) ->
  exists err mem', rotate src.1 src.2 W H dst.1 dst.2 angle pixel_size mem = Some (err, mem') /\
    transform_outcome (rotate_accepts sz W H angle src dst) (rotated sz spp W H angle src dst) mem err mem'.
Proof. apply rotate_run. Qed.

(** Clockwise, three bytes per pixel: one row of tiles that overlap, and a short segment. *)
Lemma rotate_correct_witness :
  exists mem', rotate 999 60 17 20 9000 63 90 3 (fun p => p) = Some (KLEIDICV_OK, mem') /\
    mem' (9000 + 0 * 63 + 19 * 3 + 1) = 999 + 1 /\ mem' (9000 + 16 * 63) = 999 + 19 * 60 + 16 * 3.
Proof.
  destruct (rotate_correct 1 3 3 (999, 60) (9000, 63) 17 20 90 (fun p => p)) as (err & mem' & Hrun & Hout).
  - reflexivity.
  - lia.
  - lia.
  - intros _. unfold apart_images, image_fits, in_address_space, same_or_apart, pixel_address. cbn [fst snd].
    split; [lia|]. split; [lia|]. split; intros; lia.
  - exists mem'. destruct Hout as [(-> & _ & Hf & _)|(_ & Hna & _)].
    + split; [exact Hrun|]. split; [exact (Hf 0 0 1 ltac:(lia) ltac:(lia) ltac:(lia))|].
      exact (Hf 19 16 0 ltac:(lia) ltac:(lia) ltac:(lia)).
    + exfalso. apply Hna. unfold rotate_accepts, quarter_turn, transform_accepts. cbn [fst snd]. split; [by left|]. split; [lia|].
      split; [lia|]. split; [lia|]. split; [done|]. split; [done|]. split; [done|]. split; done.
Defined.
