(* ===== verification/ThreadTransforms.v ===== *)
(** * Threaded transforms

    The wrappers of [kleidicv_thread.cpp] for the operations that move pixels: the
    arguments are checked once, then batches of work items run in the order and on the
    ranges that the caller's scheduler chooses.  The state is the memory, or [None] after a
    call without a result. *)

From S2P Require Import Prelude CTypes Utils Rows ParallelBatches Elementwise VectorMemory Transfers Flip RotateTranspose TransposeInPlace Transpose.

Section wrappers.
Variable parallel : range_callback (option (Z -> Z)) -> Z -> option (Z -> Z) -> kleidicv_error_t * option (Z -> Z).

Definition kleidicv_thread_flip (src src_stride width height dst dst_stride flip_mode pixel_size : Z) (mem : Z -> Z)
    : kleidicv_error_t * option (Z -> Z) :=
  match flip_validate src src_stride width height dst dst_stride flip_mode pixel_size with
  | KLEIDICV_OK =>
      if (width =? 0) || (height =? 0) then (KLEIDICV_OK, Some mem)
      else
        let work_item_count := flip_work_item_count height (src =? dst) flip_mode in
        if work_item_count =? 0 then (KLEIDICV_OK, Some mem)
        else
          parallel_batches parallel
            (item_callback (flip_work_items src src_stride width height dst dst_stride flip_mode pixel_size))
            work_item_count 1 (Some mem)
  | error => (error, Some mem)
  end.
(** A call on the whole image, outside the scheduler. *)
Definition whole_call (result : option (kleidicv_error_t * (Z -> Z))) : kleidicv_error_t * option (Z -> Z) :=
  match result with Some (err, mem) => (err, Some mem) | None => (KLEIDICV_OK, None) end.

Definition kleidicv_thread_transpose (tmp src src_stride dst dst_stride src_width src_height pixel_size : Z) (mem : Z -> Z)
    : kleidicv_error_t * option (Z -> Z) :=
  if src =? dst then
    if negb (src_width =? src_height) then (KLEIDICV_ERROR_NOT_IMPLEMENTED, Some mem)
    else whole_call (transpose tmp src src_stride dst dst_stride src_width src_height pixel_size mem)
  else
    match pixel_layout pixel_size with
    | None => (KLEIDICV_ERROR_NOT_IMPLEMENTED, Some mem)
    | Some _ =>
        parallel_batches parallel (item_callback (fun begin end_ =>
          transpose tmp (src + begin ⊠ pixel_size) src_stride (dst + begin ⊠ dst_stride) dst_stride
            (end_ ⊟ begin) src_height pixel_size)) src_width 64 (Some mem)
    end.

Definition kleidicv_thread_rotate (src src_stride width height dst dst_stride angle pixel_size : Z) (mem : Z -> Z)
    : kleidicv_error_t * option (Z -> Z) :=
  if negb (rotate_is_implemented src dst angle pixel_size) then (KLEIDICV_ERROR_NOT_IMPLEMENTED, Some mem)
  else
    parallel_batches parallel (item_callback (fun begin end_ =>
      let dst_column_offset := if angle =? 90 then begin else width ⊟ end_ in
      rotate (src + begin ⊠ pixel_size) src_stride (end_ ⊟ begin) height
        (dst + dst_column_offset ⊠ dst_stride) dst_stride angle pixel_size)) width 64 (Some mem).
End wrappers.

(** [kleidicv_thread_flip], whatever ranges of work items the scheduler chooses and in
    whatever order they run, in place or into another image: the call has the outcome that
    is specified for [kleidicv_flip]. *)
Theorem threaded_flip_correct parallel src dst W H mode pixel_size sz spp mem :
  lawful no_empty_range parallel -> pixel_layout pixel_size = Some (sz, spp) ->
  0 <= W -> 0 <= H < 2 ^ 63 -> flip_placed sz spp W H src dst ->
  exists err mem', kleidicv_thread_flip parallel src.1 src.2 W H dst.1 dst.2 mode pixel_size mem = (err, Some mem') /\
    flip_outcome sz spp W H mode src dst mem err mem'.
Proof.
  intros Hlaw Hl HW HH Hp. destruct (pixel_layout_sizes _ _ _ Hl) as (Hsz & Hspp & _).
  unfold kleidicv_thread_flip, flip_validate. rewrite Hl.
  pose proof (flip_validate_type_ok sz src dst W H mode Hsz HW (proj1 HH)) as Hok.
  destruct (flip_validate_type sz src.1 src.2 W H dst.1 dst.2 mode) eqn:Hv;
    try (eexists _, mem; split; [reflexivity|]; right; split; [done|]; split; [|done]; intros Ha; by apply Hok in Ha).
  pose proof (proj1 Hok eq_refl) as Ha. destruct (Z.eqb_spec W 0) as [H0|H0].
  { exists KLEIDICV_OK, mem. split; [done|]. left. split; [done|]. split; [done|]. apply flipped_empty. by left. }
  destruct (Z.eqb_spec H 0) as [H1|H1]; cbn [orb].
  { exists KLEIDICV_OK, mem. split; [done|]. left. split; [done|]. split; [done|]. apply flipped_empty. by right. }
  pose proof (work_items_range H (src.1 =? dst.1) mode HH) as Hcount.
  set (count := flip_work_item_count H (src.1 =? dst.1) mode) in *.
  destruct (Z.eqb_spec count 0) as [Hz|Hz].
  - exists KLEIDICV_OK, mem. split; [done|]. left. split; [done|]. split; [done|].
    apply (accepted_all sz spp W H mode src dst mem mem); try done; try lia. apply moved_none. fold count. unfold range. lia.
  - destruct (accepted_together sz spp W H mode src dst ltac:(lia) ltac:(lia) Hp Ha) as (Htog & HH2 & Hm).
    pose proof (flip_independent sz spp W H mode src dst Hsz Hspp (proj1 (proj2 (proj2 Hp))) Htog) as Hind.
    destruct (parallel_batches_moved (scalar_in spp W H) (flip_target sz dst) (flip_source sz spp W H mode src) (flip_item H mode src dst)
      (flip_work_items src.1 src.2 W H dst.1 dst.2 mode pixel_size) count 1 ltac:(lia) ltac:(lia)) with (parallel := parallel) (mem := mem)
      as (err & mem' & Hrun & -> & Hmoved); [|done|].
    + intros b e m Hb He. apply (accepted_items sz spp); done || lia.
    + exists KLEIDICV_OK, mem'. split; [done|]. left. split; [done|]. split; [done|]. apply accepted_all; done || lia.
Qed.

Lemma threaded_flip_correct_witness :
  exists mem', kleidicv_thread_flip reverse_serial 1000 38 19 5 3000 40 KLEIDICV_FLIP_VERTICAL 2 (fun p => p) = (KLEIDICV_OK, Some mem') /\
    mem' 3000 = 1000 + 4 * 38 /\ mem' (3000 + 4 * 40 + 18 * 2) = 1000 + 18 * 2.
Proof.
  destruct (threaded_flip_correct reverse_serial (1000, 38) (3000, 40) 19 5 KLEIDICV_FLIP_VERTICAL 2 2 1 (fun p => p))
    as (err & mem' & Hrun & Hout).
  - apply reverse_serial_lawful.
  - reflexivity.
  - lia.
  - lia.
  - unfold flip_placed, in_address_space, same_or_apart, images_apart, pixel_address. cbn [fst snd]. split; [lia|]. split; [lia|].
    split; [intros; lia|]. right. intros; lia.
  - exists mem'. destruct Hout as [(-> & _ & Hf & _)|(_ & Hna & _)].
    + split; [exact Hrun|]. split; [exact (Hf 0 0 0 ltac:(lia) ltac:(lia) ltac:(lia))|].
      exact (Hf 4 18 0 ltac:(lia) ltac:(lia) ltac:(lia)).
    + exfalso. apply Hna. unfold flip_accepts. cbn [fst snd]. split; [lia|]. split; [lia|]. split; [done|]. split; [done|].
      split; [done|]. split; [done|]. split; [lia|]. by right; left.
Defined.

(** ** Batches of columns *)

Section columns.
Context (sz spp W H : Z) (gy gx : Z -> Z) (src dst : Z * Z).
Hypothesis scalar_size : sz = 1 \/ sz = 2 \/ sz = 4 \/ sz = 8.
Hypothesis pixel_scalars : spp = 1 \/ spp = 3.
Hypothesis size_ok : 0 < W < 2 ^ 62 /\ 0 < H < 2 ^ 62.
Hypothesis images_ok : apart_images sz spp W H src dst.

(** A batch moves the source on, as the last row must allow. *)
Hypothesis src_end : image_fits sz (W * spp) (H + 1) src.

Definition column_of (i : Scalar) : Z := i.1.2.
Let moved := moved (source_scalar spp W H) (moved_to sz spp gy gx dst) (moved_from sz spp src) column_of.

Lemma columns_independent m : MappingLaws sz W H m gy gx ->
  Independent (source_scalar spp W H) (moved_to sz spp gy gx dst) (moved_from sz spp src) column_of.
Proof.
  intros Hlaws. destruct images_ok as (_ & _ & Hself & Hap).
  pose proof (rect_independent sz spp W H m gy gx src dst scalar_size pixel_scalars Hself Hap) as [H1 H2].
  split; intros i j Hi Hj Heq; unfold column_of; [by rewrite (H1 i j Hi Hj Heq : i.1 = j.1)|by rewrite (H2 i j Hi Hj Heq : i.1 = j.1)].
Qed.

(** The images of the batch of columns [b, e): the destination rows start at [off]. *)
Definition batch_src (b : Z) : Z * Z := (src.1 + b * (sz * spp), src.2).
Definition batch_dst (off : Z) : Z * Z := (dst.1 + off * dst.2, dst.2).

Section batch.
Context (b e off : Z).
Hypothesis batch_ok : 0 <= b < e /\ e <= W /\ 0 <= off /\ off + (e - b) <= W.

Lemma batch_source y k : pixel_address sz (batch_src b) y k = pixel_address sz src y (b * spp + k).
Proof. unfold pixel_address, batch_src. cbn [fst snd]. lia. Qed.

Lemma batch_target y k : pixel_address sz (batch_dst off) y k = pixel_address sz dst (off + y) k.
Proof. unfold pixel_address, batch_dst. cbn [fst snd]. lia. Qed.

Lemma batch_apart : apart_images sz spp (e - b) H (batch_src b) (batch_dst off).
Proof.
  destruct images_ok as (Hsrc & Hdst & Hself & Hap). pose proof src_end as Hend. pose proof batch_ok as Hb.
  unfold image_fits, in_address_space in *. cbn [fst snd batch_src batch_dst].
  assert (0 <= b * (sz * spp) /\ 0 <= (e - b) * spp * sz /\ b * (sz * spp) + (e - b) * spp * sz <= W * spp * sz) as Hcols by nia.
  assert (0 <= off * dst.2 /\ (off + (e - b)) * dst.2 <= W * dst.2) as Hrows by nia.
  destruct Hend as [(Hp & Hs & Hw & _) Hend]. replace (H + 1 - 1) with H in Hend by lia.
  assert ((H - 1) * src.2 <= H * src.2 /\ 0 <= H * src.2) as Hlast by nia.
  destruct Hdst as [(Hp' & Hs' & Hw' & Hend') Hlast']. split; [|split; [|split]].
  - unfold image_fits, in_address_space, batch_src. cbn [fst snd]. clear - Hcols Hend Hlast Hp Hs Hb Hw. split; [split; [lia|split; [lia|split; [|lia]]]|]; lia.
  - assert (off * dst.2 + (e - b - 1) * dst.2 <= (W - 1) * dst.2) as Hr by nia.
    unfold image_fits, in_address_space, batch_dst. cbn [fst snd]. clear - Hrows Hend' Hlast' Hp' Hs' Hw' Hr. split; [split; [lia|split; [lia|split; [lia|lia]]]|]; lia.
  - intros y x y' x' Hy Hx Hy' Hx'. rewrite !batch_target. intros Habs.
    destruct (Hself (off + y) x (off + y') x' ltac:(lia) Hx ltac:(lia) Hx' Habs) as (? & ? & ?). split; [lia|by split].
  - intros y x y' x' Hy Hx Hy' Hx'. rewrite batch_source, batch_target. apply Hap; nia.
Qed.

Lemma batch_accepts : transform_accepts sz W H src dst -> transform_accepts sz (e - b) H (batch_src b) (batch_dst off).
Proof.
  intros (Hs & Hd & Has & Had & Hss & Hds & Hsize). pose proof batch_ok as Hb.
  destruct images_ok as (((Hsp & _) & _) & ((Hdp & Hdst & _) & _) & _).
  unfold transform_accepts. cbn [fst snd batch_src batch_dst]. split; [nia|]. split; [nia|]. split; [|split; [|split; [done|split]]].
  - rewrite <- Has. replace (src.1 + b * (sz * spp)) with (src.1 + b * spp * sz) by lia. apply Z.mod_add. lia.
  - destruct (decide (off = 0)) as [->|Hoff]; [by rewrite Z.mul_0_l, Z.add_0_r|].
    apply Z.mod_divide; [lia|]. apply Z.mod_divide in Had; [|lia]. specialize (Hds ltac:(lia)). apply Z.mod_divide in Hds; [|lia].
    apply Z.divide_add_r; [done|]. by apply Z.divide_mul_r.
  - intros Hw. apply Hds. lia.
  - nia.
Qed.

(** What a batch does is its part of the whole. *)
Lemma batch_moved gyb mem mem' : (forall sx, 0 <= sx < e - b -> off + gyb sx = gy (b + sx)) ->
  turned gyb gx sz spp (e - b) H (batch_src b) (batch_dst off) no_scratch mem mem' -> moved (range b e) mem mem'.
Proof.
  intros Hgy [H1 H2]. split.
  - intros [[sy sx] c] (Hy & Hx & Hc) Hr. unfold column_of, range in Hr. cbn [fst snd] in *.
    specialize (H1 sy (sx - b) c Hy ltac:(lia) Hc). rewrite batch_target, batch_source, Hgy in H1 by lia.
    replace (b + (sx - b)) with sx in H1 by lia. unfold moved_to, moved_from. cbn [fst snd]. rewrite H1. f_equal. f_equal. lia.
  - intros p Hp. apply H2; [by intros []|]. intros sy sx c Hy Hx Hc. rewrite batch_target, Hgy by done.
    apply (Hp (sy, b + sx, c)); unfold column_of, range; cbn [fst snd]; [|lia].
    split; [|split]; cbn [fst snd]; [done| |done]. pose proof batch_ok. lia.
Qed.
End batch.

(** The columns are done in the batches of the scheduler. *)
Lemma columns_in_batches parallel call m mem : MappingLaws sz W H m gy gx -> lawful no_empty_range parallel ->
  (forall b e mem, 0 <= b < e -> e <= W -> exists mem', call b e mem = Some (KLEIDICV_OK, mem') /\ moved (range b e) mem mem') ->
  exists mem', parallel_batches parallel (item_callback call) W 64 (Some mem) = (KLEIDICV_OK, Some mem') /\
    turned gy gx sz spp W H src dst no_scratch mem mem'.
Proof.
  intros Hlaws Hlaw Hcall. pose proof (columns_independent m Hlaws) as Hind.
  destruct (parallel_batches_moved (source_scalar spp W H) (moved_to sz spp gy gx dst) (moved_from sz spp src) column_of call W 64
    ltac:(lia) ltac:(lia) Hcall parallel mem Hlaw) as (err & mem' & Hrun & -> & H1 & H2).
  exists mem'. split; [done|]. split.
  - intros sy sx c Hy Hx Hc. apply (H1 (sy, sx, c)); [by split|done].
  - intros p _ Hp. apply H2. intros [[sy sx] c] (Hy & Hx & Hc) _. by apply Hp.
Qed.
End columns.

(** The calls of the batches. *)
Section batch_calls.
Context (sz spp pixel_size W H : Z) (src dst : Z * Z).
Hypothesis layout : pixel_layout pixel_size = Some (sz, spp).
Hypothesis size_ok : 0 < W < 2 ^ 62 /\ 0 < H < 2 ^ 62.
Hypothesis images_ok : apart_images sz spp W H src dst.
Hypothesis src_end : image_fits sz (W * spp) (H + 1) src.
Hypothesis accepted : transform_accepts sz W H src dst.

Lemma batch_pointers b e off : 0 <= b < e -> e <= W -> 0 <= off -> off + (e - b) <= W ->
  b ⊠ pixel_size = b * (sz * spp) /\ off ⊠ dst.2 = off * dst.2 /\ e ⊟ b = e - b /\
  (batch_src sz spp src b).1 <> (batch_dst dst off).1.
Proof.
  intros Hb He Hoff Hoe. destruct (pixel_layout_sizes _ _ _ layout) as (Hsz & Hspp & Hps).
  pose proof (batch_apart sz spp W H src dst Hsz Hspp size_ok images_ok src_end b e off (conj Hb (conj He (conj Hoff Hoe)))) as (_ & _ & _ & Hap).
  destruct images_ok as ([(Hsp & Hss & Hw & _) _] & [(Hdp & Hds & _ & Hend) _] & _).
  assert (0 <= b * (sz * spp) < 2 ^ 64) by nia. assert (0 <= off * dst.2 < 2 ^ 64) by nia.
  rewrite Hps, !size_mul_small, size_sub_small by lia. split; [done|]. split; [done|]. split; [done|].
  specialize (Hap 0 0 0 0 ltac:(lia) ltac:(nia) ltac:(lia) ltac:(nia)). unfold pixel_address in Hap. lia.
Qed.

Lemma transpose_batch tmp b e mem : 0 <= b < e -> e <= W ->
  exists mem', transpose tmp (src.1 + b ⊠ pixel_size) src.2 (dst.1 + b ⊠ dst.2) dst.2 (e ⊟ b) H pixel_size mem = Some (KLEIDICV_OK, mem') /\
    moved (source_scalar spp W H) (moved_to sz spp (fun sx => sx) (fun sy => sy) dst) (moved_from sz spp src) column_of (range b e) mem mem'.
Proof.
  intros Hb He. destruct (pixel_layout_sizes _ _ _ layout) as (Hsz & Hspp & Hps).
  destruct (batch_pointers b e b Hb He ltac:(lia) ltac:(lia)) as (-> & -> & -> & Hne).
  assert (0 <= b < e /\ e <= W /\ 0 <= b /\ b + (e - b) <= W) as Hbatch by lia.
  pose proof (batch_apart sz spp W H src dst Hsz Hspp size_ok images_ok src_end b e b Hbatch) as Hap.
  pose proof (batch_accepts sz spp W H src dst Hsz Hspp size_ok images_ok b e b Hbatch accepted) as Hacc.
  destruct (transpose_run sz spp pixel_size tmp (batch_src sz spp src b) (batch_dst dst b) (e - b) H mem layout ltac:(lia) ltac:(lia))
    as (err & mem' & Hrun & [(-> & _ & Ht)|(_ & Hna & _)]).
  - unfold transpose_placed. by rewrite (proj2 (Z.eqb_neq _ _) Hne).
  - exists mem'. split; [exact Hrun|]. unfold transposed in Ht. rewrite (proj2 (Z.eqb_neq _ _) Hne) in Ht.
    by apply (batch_moved sz spp W H (fun sx => sx) (fun sy => sy) src dst b e b Hbatch (fun sx => sx)).
  - exfalso. apply Hna. by split.
Qed.

Lemma rotate_batch angle b e mem : quarter_turn angle -> 0 <= b < e -> e <= W ->
  let off := if angle =? 90 then b else W ⊟ e in
  exists mem', rotate (src.1 + b ⊠ pixel_size) src.2 (e ⊟ b) H (dst.1 + off ⊠ dst.2) dst.2 angle pixel_size mem = Some (KLEIDICV_OK, mem') /\
    moved (source_scalar spp W H)
      (if angle =? 90 then moved_to sz spp (fun sx => sx) (fun sy => H - 1 - sy) dst else moved_to sz spp (fun sx => W - 1 - sx) (fun sy => sy) dst)
      (moved_from sz spp src) column_of (range b e) mem mem'.
Proof.
  intros Hq Hb He off. destruct (pixel_layout_sizes _ _ _ layout) as (Hsz & Hspp & Hps).
  assert (off = if angle =? 90 then b else W - e) as Hoff by (unfold off; rewrite size_sub_small by lia; done).
  assert (0 <= b < e /\ e <= W /\ 0 <= off /\ off + (e - b) <= W) as Hbatch by (rewrite Hoff; destruct (angle =? 90); lia).
  destruct (batch_pointers b e off Hb He ltac:(lia) ltac:(lia)) as (-> & -> & -> & Hne).
  pose proof (batch_apart sz spp W H src dst Hsz Hspp size_ok images_ok src_end b e off Hbatch) as Hap.
  pose proof (batch_accepts sz spp W H src dst Hsz Hspp size_ok images_ok b e off Hbatch accepted) as Hacc.
  destruct (rotate_run sz spp pixel_size (batch_src sz spp src b) (batch_dst dst off) (e - b) H angle mem layout ltac:(lia) ltac:(lia)
    (fun _ => Hap)) as (err & mem' & Hrun & [(-> & _ & Ht)|(_ & Hna & _)]).
  - exists mem'. split; [exact Hrun|]. unfold rotated in Ht. rewrite Hoff in *. destruct (angle =? 90).
    + by apply (batch_moved sz spp W H (fun sx => sx) (fun sy => H - 1 - sy) src dst b e b Hbatch (fun sx => sx)).
    + apply (batch_moved sz spp W H (fun sx => W - 1 - sx) (fun sy => sy) src dst b e (W - e) Hbatch (fun sx => e - b - 1 - sx)); [lia|done].
  - exfalso. apply Hna. by split.
Qed.
End batch_calls.

(** C14: [kleidicv_thread_transpose] and [kleidicv_thread_rotate], whatever batches of columns
    the scheduler chooses and in whatever order they run: for images without overlap and
    arguments that the single-threaded call accepts, the call succeeds and leaves the
    transposed or rotated image, and writes nothing else. *)
Theorem threaded_turns_correct parallel sz spp pixel_size tmp src dst W H mem : lawful no_empty_range parallel ->
  pixel_layout pixel_size = Some (sz, spp) -> 0 < W < 2 ^ 62 -> 0 < H < 2 ^ 62 ->
  apart_images sz spp W H src dst -> image_fits sz (W * spp) (H + 1) src -> transform_accepts sz W H src dst ->
  (exists mem', kleidicv_thread_transpose parallel tmp src.1 src.2 dst.1 dst.2 W H pixel_size mem = (KLEIDICV_OK, Some mem') /\
    transposed sz spp W H tmp src dst mem mem') /\
  (forall angle, quarter_turn angle ->
    exists mem', kleidicv_thread_rotate parallel src.1 src.2 W H dst.1 dst.2 angle pixel_size mem = (KLEIDICV_OK, Some mem') /\
      rotated sz spp W H angle src dst mem mem').
Proof.
  intros Hlaw Hl HW HH Hap Hend Hacc. destruct (pixel_layout_sizes _ _ _ Hl) as (Hsz & Hspp & _).
  destruct (batch_pointers sz spp pixel_size W H src dst Hl (conj HW HH) Hap Hend 0 W 0 ltac:(lia) ltac:(lia) ltac:(lia) ltac:(lia))
    as (_ & _ & _ & Hne). unfold batch_src, batch_dst in Hne. cbn [fst] in Hne. rewrite !Z.mul_0_l, !Z.add_0_r in Hne. split.
  - unfold kleidicv_thread_transpose, transposed. rewrite (proj2 (Z.eqb_neq _ _) Hne), Hl.
    apply (columns_in_batches sz spp W H (fun sx => sx) (fun sy => sy) src dst Hsz Hspp (conj HW HH) Hap parallel _ transpose_to_dst_mapping);
      [by apply transpose_laws|done|].
    intros b e m Hb He. by apply transpose_batch.
  - intros angle Hq. unfold kleidicv_thread_rotate, rotated.
    rewrite (proj2 (rotate_is_implemented_ok src.1 dst.1 angle pixel_size sz spp Hl) (conj Hq Hne)). cbn [negb].
    pose proof (fun b e m => rotate_batch sz spp pixel_size W H src dst Hl (conj HW HH) Hap Hend Hacc angle b e m Hq) as Hbatch.
    cbv zeta in Hbatch. destruct (angle =? 90).
    + apply (columns_in_batches sz spp W H (fun sx => sx) (fun sy => H - 1 - sy) src dst Hsz Hspp (conj HW HH) Hap parallel _
        (rotate_cw_mapping {| width_ := W; height_ := H |})); [apply rotate_cw_laws; lia|done|exact Hbatch].
    + apply (columns_in_batches sz spp W H (fun sx => W - 1 - sx) (fun sy => sy) src dst Hsz Hspp (conj HW HH) Hap parallel _
        (rotate_ccw_mapping {| width_ := W; height_ := H |})); [apply rotate_ccw_laws; lia|done|exact Hbatch].
Qed.

Lemma threaded_turns_correct_witness :
  (exists mem', kleidicv_thread_transpose reverse_serial 0 100000 262 300000 18 131 9 2 (fun p => p) = (KLEIDICV_OK, Some mem') /\
    mem' (300000 + 130 * 18 + 8 * 2) = 100000 + 8 * 262 + 130 * 2) /\
  (exists mem', kleidicv_thread_rotate reverse_serial 100000 262 131 9 300000 18 270 2 (fun p => p) = (KLEIDICV_OK, Some mem') /\
    mem' (300000 + 130 * 18 + 8 * 2) = 100000 + 8 * 262).
Proof.
  destruct (threaded_turns_correct reverse_serial 2 1 2 0 (100000, 262) (300000, 18) 131 9 (fun p => p)) as [Ht Hr].
  - apply reverse_serial_lawful.
  - reflexivity.
  - lia.
  - lia.
  - unfold apart_images, image_fits, in_address_space, same_or_apart, pixel_address. cbn [fst snd].
    split; [lia|]. split; [lia|]. split; intros; lia.
  - unfold image_fits, in_address_space. cbn [fst snd]. lia.
  - unfold transform_accepts. cbn [fst snd]. split; [lia|]. split; [lia|]. split; [done|]. split; [done|]. split; [done|]. by split.
  - split.
    + destruct Ht as (mem' & Hrun & Hf & _). exists mem'. split; [exact Hrun|]. exact (Hf 8 130 0 ltac:(lia) ltac:(lia) ltac:(lia)).
    + destruct (Hr 270 ltac:(by right; right)) as (mem' & Hrun & Hf & _). exists mem'. split; [exact Hrun|].
      exact (Hf 8 0 0 ltac:(lia) ltac:(lia) ltac:(lia)).
Defined.
