(* ===== verification/Registers.v ===== *)
(** * Vector registers as bytes

    A 128-bit register is the list of its 16 bytes, lane 0 first and each lane in
    little-endian order, so [reinterpret_cast] and [vreinterpretq] are the identity and an
    instruction says the width of its lanes in bytes.  Loads and stores go through the
    elements of VectorMemory. *)

From S2P Require Import Prelude Vectors VectorMemory.

(** ** Elements and bytes *)

Definition bytes_of (sz x : Z) : list Z := map (fun i => x / 2 ^ (8 * i) mod 256) (seqZ 0 sz).
Definition of_bytes (bytes : list Z) : Z := foldr (fun b rest => b + 256 * rest) 0 bytes.

(** The lanes of [w] bytes of a register. *)
Definition chunks {A} (w : Z) (r : list A) : list (list A) :=
  map (fun i => take (Z.to_nat w) (drop (i * Z.to_nat w) r)) (seq 0 (length r / Z.to_nat w)).

Definition register_of_elements (sz : Z) (v : list Z) : list Z := flat_map (bytes_of sz) v.
Definition elements_of_register (sz : Z) (r : list Z) : list Z := map of_bytes (chunks sz r).

(** ** Instructions *)

Section instructions.
Context {A : Type} (w : Z).
Implicit Types a b : list A.

Definition low_half {B} (l : list B) : list B := take (length l / 2) l.
Definition high_half {B} (l : list B) : list B := drop (length l / 2) l.
Definition alternate (p : list A * list A) : list A := p.1 ++ p.2.

(** The lanes of even and of odd index. *)
Fixpoint even_odd {B} (l : list B) : list B * list B :=
  match l with
  | [] => ([], [])
  | x :: l => let '(e, o) := even_odd l in (x :: o, e)
  end.

Definition vzip1q a b : list A := flat_map alternate (zip (low_half (chunks w a)) (low_half (chunks w b))).
Definition vzip2q a b : list A := flat_map alternate (zip (high_half (chunks w a)) (high_half (chunks w b))).
Definition vuzp1q a b : list A := concat (even_odd (chunks w a ++ chunks w b)).1.
Definition vuzp2q a b : list A := concat (even_odd (chunks w a ++ chunks w b)).2.
Definition vtrn1q a b : list A := flat_map alternate (zip (even_odd (chunks w a)).1 (even_odd (chunks w b)).1).
Definition vtrn2q a b : list A := flat_map alternate (zip (even_odd (chunks w a)).2 (even_odd (chunks w b)).2).

(** [b[i] = a[j]] on lanes. *)
Definition set_lane (b : list A) (i : nat) (a : list A) (j : nat) : list A :=
  concat (<[i := nth j (chunks w a) []]> (chunks w b)).
End instructions.

(** [vqtbl1q_u8] to [vqtbl4q_u8]; an index outside the table gives 0. *)
Definition vqtblq_u8 (table : list (list Z)) (indices : list Z) : list Z :=
  map (fun i => nth (Z.to_nat i) (concat table) 0) indices.
Definition vdupq_n_u8 (x : Z) : list Z := replicate 16 x.

(** ** Memory *)

Section memory.
Context (sz : Z).
Implicit Types (mem : Z -> Z).

(** [VecTraits::load] and [store] of one vector and of several consecutive vectors. *)
Definition load mem (src : Z) : list Z := register_of_elements sz (vld1q sz (num_lanes sz) mem src).
Definition loads (N : Z) mem (src : Z) : list (list Z) :=
  map (fun i => load mem (src + i * num_lanes sz * sz)) (seqZ 0 N).
Definition stores (dst : Z) (regs : list (list Z)) mem : Z -> Z :=
  vst1q sz dst (elements_of_register sz (concat regs)) mem.

(** [vld2q] to [vld4q] and their stores. *)
Definition vldq (N : Z) mem (src : Z) : list (list Z) :=
  map (register_of_elements sz) (vldNq sz N (num_lanes sz) mem src).
Definition vstq (dst : Z) (regs : list (list Z)) mem : Z -> Z :=
  vstNq sz (Z.of_nat (length regs)) (num_lanes sz) dst (map (elements_of_register sz) regs) mem.
End memory.

(** ** Lemmas *)

(** The widths of elements. *)
Definition element_size (sz : Z) : Prop := sz = 1 \/ sz = 2 \/ sz = 4 \/ sz = 8.

(** Bytes named by element and index. *)
Definition named_bytes (sz N : Z) (h : Z -> Z -> Z) : list Z := flat_map (fun m => map (h m) (seqZ 0 sz)) (seqZ 0 N).

Definition byte_of (value : Z -> Z) (m j : Z) : Z := value m / 2 ^ (8 * j) mod 256.

Lemma of_bytes_mod n x : of_bytes (map (fun j => x / 2 ^ (8 * j) mod 256) (seqZ 0 (Z.of_nat n))) = x mod 2 ^ (8 * Z.of_nat n).
Proof.
  revert x. induction n as [|n IH]; intros x; [by rewrite Z.mod_1_r|].
  rewrite seqZ_cons by lia. cbn [map of_bytes foldr]. change (foldr _ 0) with of_bytes.
  replace (seqZ (Z.succ 0) (Z.pred (Z.of_nat (S n)))) with (seqZ (1 + 0) (Z.of_nat n)) by (f_equal; lia).
  rewrite <- fmap_add_seqZ, <- list_fmap_compose.
  replace (2 ^ (8 * Z.of_nat (S n))) with (256 * 2 ^ (8 * Z.of_nat n))
    by (rewrite Nat2Z.inj_succ, Z.mul_succ_r, Z.add_comm, Z.pow_add_r by lia; done).
  rewrite Z.rem_mul_r, <- IH by lia. rewrite Z.mul_0_r, Z.pow_0_r, Z.div_1_r. do 3 f_equal.
  apply list_fmap_ext. intros i j Hj%list_elem_of_lookup_2%elem_of_seqZ. cbn.
  rewrite Z.mul_add_distr_l, Z.pow_add_r, Z.div_div by lia. done.
Qed.

Lemma of_bytes_of sz value m : 0 <= sz -> 0 <= value m < 2 ^ (8 * sz) -> of_bytes (map (byte_of value m) (seqZ 0 sz)) = value m.
Proof.
  intros Hs Hx. unfold byte_of. rewrite <- (Z2Nat.id sz) by done. rewrite of_bytes_mod, Z2Nat.id by done. by apply Z.mod_small.
Qed.

(** Elements of named bytes. *)
Lemma elements_of_named sz N h : 0 < sz -> 0 <= N ->
  elements_of_register sz (named_bytes sz N h) = map (fun m => of_bytes (map (h m) (seqZ 0 sz))) (seqZ 0 N).
Proof.
  intros Hs HN. unfold elements_of_register, chunks, named_bytes.
  assert (length (flat_map (fun m => map (h m) (seqZ 0 sz)) (seqZ 0 N)) = (Z.to_nat N * Z.to_nat sz)%nat) as Hlen.
  { rewrite (length_flat_map_const _ _ (Z.to_nat sz)), length_seqZ; [lia|]. intros x. by rewrite length_map, length_seqZ. }
  rewrite Hlen, Nat.div_mul by lia. rewrite map_map. apply list_eq. intros i. rewrite !list_lookup_fmap.
  destruct (decide (i < Z.to_nat N)%nat) as [Hi|Hi].
  - rewrite lookup_seq_lt, lookup_seqZ_lt by lia. cbn. do 2 f_equal.
    rewrite <- (take_drop_middle (seqZ 0 N) i (0 + Z.of_nat i)) by (apply lookup_seqZ_lt; lia).
    rewrite flat_map_app. cbn [flat_map].
    rewrite drop_app_length', take_app_length'; [done|by rewrite length_map, length_seqZ|].
    rewrite (length_flat_map_const _ _ (Z.to_nat sz)), length_take, length_seqZ; [f_equal; lia|].
    intros x. by rewrite length_map, length_seqZ.
  - rewrite (lookup_ge_None_2 (seq _ _)) by (rewrite length_seq; lia).
    rewrite (lookup_ge_None_2 (seqZ _ _)) by (rewrite length_seqZ; lia). done.
Qed.

Lemma element_size_pos sz : element_size sz -> 0 < sz.
Proof. intros [-> |[-> |[-> | ->]]]; lia. Qed.

Lemma num_lanes_pos sz : element_size sz -> 2 <= num_lanes sz <= 16.
Proof. intros [-> |[-> |[-> | ->]]]; split; vm_compute; discriminate. Qed.

(** A register that holds the elements [value]. *)
Definition holds (sz : Z) (value : Z -> Z) (r : list Z) : Prop := r = named_bytes sz (num_lanes sz) (byte_of value).

Lemma named_bytes_ext sz N g h : (forall m j, 0 <= m < N -> g m j = h m j) -> named_bytes sz N g = named_bytes sz N h.
Proof.
  intros He. unfold named_bytes. rewrite !flat_map_concat_map. f_equal. apply map_ext_in.
  intros m Hm%list_elem_of_In%elem_of_seqZ. apply map_ext. intros j. by apply He.
Qed.

Lemma holds_ext sz v w r : (forall k, 0 <= k < num_lanes sz -> v k = w k) -> holds sz v r -> holds sz w r.
Proof. intros He ->. apply named_bytes_ext. intros m j Hm. unfold byte_of. by rewrite He. Qed.

Lemma load_holds sz mem src : holds sz (fun k => mem (src + k * sz)) (load sz mem src).
Proof.
  unfold holds, load, register_of_elements, vld1q, named_bytes. rewrite !flat_map_concat_map, map_map. f_equal.
Qed.

Lemma elements_of_holds sz value r : element_size sz -> holds sz value r ->
  (forall k, 0 <= k < num_lanes sz -> 0 <= value k < 2 ^ (8 * sz)) ->
  elements_of_register sz r = map value (seqZ 0 (num_lanes sz)).
Proof.
  intros Hs%element_size_pos -> Hv. unfold num_lanes in *.
  rewrite elements_of_named by (lia || apply Z.div_pos; lia). apply map_ext_in.
  intros m Hm%list_elem_of_In%elem_of_seqZ. apply of_bytes_of; [lia|]. apply Hv. lia.
Qed.

(** What stores leave in memory. *)
Lemma stores_filled sz N value dst regs mem : 0 < sz -> 0 <= N -> (forall k, 0 <= k < N -> 0 <= value k < 2 ^ (8 * sz)) ->
  concat regs = named_bytes sz N (byte_of value) -> filled sz dst 0 N value mem (stores sz dst regs mem).
Proof.
  intros Hs HN Hv Hr. unfold stores. rewrite Hr, elements_of_named by lia. set (v := map _ _).
  assert (length v = Z.to_nat N) as Hl by (unfold v; by rewrite length_map, length_seqZ).
  pose proof (vst1q_filled sz Hs dst v mem) as Hf. rewrite Hl, Z2Nat.id in Hf by done.
  eapply filled_ext; [|exact Hf]. intros k Hk. unfold v. apply list_lookup_total_correct.
  rewrite list_lookup_fmap, lookup_seqZ_lt by lia. cbn. f_equal. rewrite Z2Nat.id by lia. apply of_bytes_of; [lia|by apply Hv].
Qed.

Lemma store_filled sz value dst r mem : element_size sz -> holds sz value r ->
  (forall k, 0 <= k < num_lanes sz -> 0 <= value k < 2 ^ (8 * sz)) ->
  filled sz dst 0 (num_lanes sz) value mem (stores sz dst [r] mem).
Proof.
  intros Hs Hr Hv. pose proof (num_lanes_pos sz Hs). apply stores_filled; [by apply element_size_pos|lia|done|].
  cbn [concat]. by rewrite app_nil_r.
Qed.

Lemma vldq_holds sz N c mem src : 0 <= c < N ->
  holds sz (fun k => mem (src + (N * k + c) * sz)) (vldq sz N mem src !!! Z.to_nat c).
Proof.
  intros Hc. unfold vldq, holds, register_of_elements, vldNq. rewrite map_map. rewrite (list_lookup_total_correct _ _ (flat_map (bytes_of sz)
    (map (fun j => mem (src + (N * j + c) * sz)) (seqZ 0 (num_lanes sz))))).
  - unfold named_bytes. rewrite !flat_map_concat_map, map_map. f_equal.
  - rewrite list_lookup_fmap, lookup_seqZ_lt by lia. cbn. rewrite Z2Nat.id by lia. done.
Qed.

Lemma vstq_filled sz value dst regs mem : element_size sz ->
  (forall c, 0 <= c < Z.of_nat (length regs) -> holds sz (value c) (regs !!! Z.to_nat c)) ->
  (forall c k, 0 <= c < Z.of_nat (length regs) -> 0 <= k < num_lanes sz -> 0 <= value c k < 2 ^ (8 * sz)) ->
  let N := Z.of_nat (length regs) in
  filled sz dst 0 (N * num_lanes sz) (fun m => value (m mod N) (m / N)) mem (vstq sz dst regs mem).
Proof.
  intros Hs Hr Hv N. pose proof (num_lanes_pos sz Hs). unfold vstq. fold N.
  assert (Z.of_nat (length regs) = N) as HN by done. clearbody N. rewrite HN in Hr, Hv.
  eapply filled_ext; [|apply vstNq_filled; [by apply element_size_pos|nia]]. intros m Hm. cbv beta.
  assert (0 < N) by nia. pose proof (Z.mod_pos_bound m N ltac:(lia)).
  assert (0 <= m / N < num_lanes sz) by (split; [apply Z.div_pos; lia|apply Z.div_lt_upper_bound; lia]).
  rewrite (list_lookup_total_correct _ _ (elements_of_register sz (regs !!! Z.to_nat (m mod N)))).
  - rewrite (elements_of_holds sz (value (m mod N))) by (done || (by apply Hr) || (intros; by apply Hv)).
    apply list_lookup_total_correct. rewrite list_lookup_fmap, lookup_seqZ_lt by (rewrite ?Z2Nat.id; lia). cbn [fmap option_fmap option_map]. do 2 f_equal. rewrite Z2Nat.id; lia.
  - rewrite list_lookup_fmap, list_lookup_lookup_total_lt by lia. done.
Qed.
