(* ===== verification/Channels.v ===== *)
(** * Operations on the channels of pixels

    [apply_operation_by_rows] of [neon.h] for the operations of conversions/ that move the
    channels of pixels between images with different numbers of channels, with the
    adapters of [operations.h] for vectors, for pointers, and for groups of consecutive
    vectors.  A client shows for its vector and scalar paths what they do to a block of
    pixels ([ChannelLaws]); the images and the way rows are cut are treated here. *)

From S2P Require Import Prelude CTypes Utils Loops Rows VectorMemory.

#[global] Instance rows_inhabited : Inhabited Rows := populate {| ptr_ := 0; stride_ := 0; channels_ := 1; sizeof_ := 1 |}.

(** ** Operations *)

(** The methods and tags of an operation class.  The columns are those of the sources and
    of the destinations, in the order of the parameters. *)
Record ChannelOperation := {
  num_lanes : Z;
  is_unrolled_twice : bool;
  is_unrolled_once : bool;
  tries_to_avoid_tail_loop : bool;
  vector_path_2x : list Columns -> (Z -> Z) -> Z -> Z;
  vector_path : list Columns -> (Z -> Z) -> Z -> Z;
  scalar_path : list Columns -> (Z -> Z) -> Z -> Z
}.

(** ** Vectors of a row, with the tail avoided *)

Definition step_columns (sizeof step : Z) (cols : list Columns) : list Columns := map (fun c => columns_at sizeof c step) cols.

Section tail.
Context (sizeof : Z) (tries : bool) (once : Z -> list Columns * (Z -> Z) -> list Columns * (Z -> Z)).

(** [BackwardAdjustFunctor]. *)
Definition backward_adjust (backward_step : Z) (cs : list Columns * (Z -> Z)) : list Columns * (Z -> Z) :=
  let '(cols, mem) := cs in (step_columns sizeof (- backward_step) cols, mem).

(** The code from the label [avoid_tail_loop] on, to which it goes back at most [gotos] times. *)
Fixpoint avoid_tail_loop (gotos : nat) (loop : Unroll.LoopUnroll * (list Columns * (Z -> Z))) : Unroll.LoopUnroll * (list Columns * (Z -> Z)) :=
  let loop := Unroll.unroll_n_times 1 once loop in
  if tries then
    let '(avoided, loop) := Unroll.try_avoid_tail_loop backward_adjust loop in
    match gotos with S gotos => if avoided then avoid_tail_loop gotos loop else loop | O => loop end
  else loop.

(** A whole vector is never gone back from, so that more than one way back changes nothing. *)
Lemma avoid_whole_vector gotos l cs : 1 <= Unroll.step_ l < 2 ^ 64 -> Unroll.length_ l = Unroll.step_ l ->
  avoid_tail_loop gotos (l, cs) = Unroll.unroll_n_times 1 once (l, cs).
Proof.
  intros Hs Hl. assert (Unroll.length_ (Unroll.unroll_n_times 1 once (l, cs)).1 = 0) as H0.
  { rewrite (proj1 (Unroll.unroll_n_times_rest 1 once l cs ltac:(lia) ltac:(lia) ltac:(lia) ltac:(lia))).
    rewrite Hl, Z.mul_1_l. apply Z.mod_same. lia. }
  destruct gotos; cbn [avoid_tail_loop]; cbv zeta; destruct (Unroll.unroll_n_times 1 once (l, cs)) as [l' cs']; cbn [fst] in H0;
    unfold Unroll.try_avoid_tail_loop; rewrite H0; by destruct (tries), (Unroll.can_avoid_tail_ l').
Qed.

Lemma avoid_tail_loop_once gotos l cs : 1 <= Unroll.step_ l < 2 ^ 64 ->
  avoid_tail_loop (S gotos) (l, cs) = avoid_tail_loop 1 (l, cs).
Proof.
  intros Hs. cbn [avoid_tail_loop]. cbv zeta. destruct (tries) eqn:Ht; [|done].
  assert (Unroll.step_ (Unroll.unroll_n_times 1 once (l, cs)).1 = Unroll.step_ l) as Hst by done.
  destruct (Unroll.unroll_n_times 1 once (l, cs)) as [l' cs']. cbn [fst] in Hst. unfold Unroll.try_avoid_tail_loop.
  destruct (Unroll.can_avoid_tail_ l'); [|done]. cbn [negb]. destruct (Unroll.length_ l' =? 0); [done|].
  set (back := {| Unroll.length_ := _ |}). assert (1 <= Unroll.step_ back < 2 ^ 64) as Hb by (cbn; lia).
  rewrite (avoid_whole_vector gotos back) by done. symmetry.
  pose proof (fun cs => avoid_whole_vector 0 back cs Hb eq_refl) as H0. cbn [avoid_tail_loop] in H0. rewrite Ht in H0. apply H0.
Qed.

(** What a whole row that is long enough comes to: all its vectors, and one more that ends
    with it when they do not. *)
Lemma avoid_tail_loop_run length step cs : tries = true -> 1 <= step < 2 ^ 64 -> step <= length < 2 ^ 64 ->
  let run := for_range 0 (length / step) (fun _ => once step) cs in
  let result := avoid_tail_loop 1 (Unroll.make length step, cs) in
  Unroll.length_ result.1 = 0 /\
  result.2 = if length mod step =? 0 then run else once step (backward_adjust (step - length mod step) run).
Proof.
  intros Ht Hs Hl run result. subst result. pose proof (Z.mod_pos_bound length step ltac:(lia)) as Hr.
  assert (Unroll.unroll_n_times 1 once (Unroll.make length step, cs) =
    ({| Unroll.length_ := length mod step; Unroll.step_ := step; Unroll.index_ := length / step; Unroll.can_avoid_tail_ := true |}, run)) as H1.
  { unfold Unroll.unroll_n_times, Unroll.make, run. cbn [Unroll.length_ Unroll.step_ Unroll.can_avoid_tail_].
    rewrite (size_mul_small 1), Z.mul_1_l by lia. pose proof (Z.div_mod length step ltac:(lia)).
    assert (0 <= step * (length / step)) by (apply Z.mul_nonneg_nonneg; [lia|apply Z.div_pos; lia]).
    rewrite size_mul_small, size_sub_small by lia. destruct (Z.leb_spec step length); [|lia]. do 2 f_equal. lia. }
  cbn [avoid_tail_loop]. cbv zeta. rewrite Ht, H1. unfold Unroll.try_avoid_tail_loop at 1 3.
  cbn [Unroll.length_ Unroll.step_ Unroll.index_ Unroll.can_avoid_tail_ negb].
  destruct (Z.eqb_spec (length mod step) 0) as [E|]; [by rewrite E|].
  rewrite size_sub_small by lia. set (back := {| Unroll.length_ := _ |}).
  pose proof (avoid_whole_vector 0 back (backward_adjust (step - length mod step) run) ltac:(cbn; lia) eq_refl) as H0.
  cbn [avoid_tail_loop] in H0. rewrite Ht in H0. rewrite H0.
  unfold Unroll.unroll_n_times, back. cbn [Unroll.length_ Unroll.step_ fst snd].
  rewrite (size_mul_small 1), Z.mul_1_l by lia. rewrite Z.div_same by lia. rewrite for_range_once.
  rewrite size_mul_small, size_sub_small by lia. split; [lia|done].
Qed.

End tail.

Section rows.
Context (op : ChannelOperation) (sizeof : Z).
Local Abbreviation step_columns := (step_columns sizeof).

(** [UnrollTwiceFunctor], [UnrollOnceFunctor] and [RemainingFunctor]. *)
Definition unroll_twice (step : Z) (cs : list Columns * (Z -> Z)) : list Columns * (Z -> Z) :=
  let '(cols, mem) := cs in
  let mem := vector_path_2x op cols mem in (step_columns step cols, mem).
Definition unroll_once (step : Z) (cs : list Columns * (Z -> Z)) : list Columns * (Z -> Z) :=
  let '(cols, mem) := cs in
  let mem := vector_path op cols mem in (step_columns step cols, mem).
Definition remaining_path (length : Z) (cols : list Columns) (mem : Z -> Z) : Z -> Z :=
  for_range 0 length (fun index mem => scalar_path op (step_columns index cols) mem) mem.
Definition remaining_functor (rem_length _ : Z) (cs : list Columns * (Z -> Z)) : list Columns * (Z -> Z) :=
  let '(cols, mem) := cs in (cols, remaining_path rem_length cols mem).

(** [RowBasedOperation::process_row]; it never goes back twice ([avoid_tail_loop_once]). *)
Definition process_row (length : Z) (columns : list Columns) (mem : Z -> Z) : Z -> Z :=
  let loop := (Unroll.make length (num_lanes op), (columns, mem)) in
  let loop := if is_unrolled_twice op then Unroll.unroll_n_times 2 unroll_twice loop else loop in
  let loop := if is_unrolled_once op then avoid_tail_loop sizeof (tries_to_avoid_tail_loop op) unroll_once 1 loop else loop in
  let '(_, (_, mem)) := Unroll.remaining remaining_functor loop in mem.

Definition apply_operation_by_rows (rect : Rectangle) (rows : list Rows) (mem : Z -> Z) : Z -> Z :=
  zip_rows process_row rect rows mem.
End rows.

(** ** Elements of images and what is assigned to them *)

(** Channel [c] of pixel [k] of image [d]; [channels] lists the channels of the images. *)
Definition element (channels : list Z) (lo hi : Z) (d : nat) (k c : Z) : Prop :=
  (d < length channels)%nat /\ lo <= k < hi /\ 0 <= c < channels !!! d.

(** The elements of the pixels [lo, hi) get the values of [value], all else is as before. *)
Definition assigned (channels : list Z) (addr value : nat -> Z -> Z -> Z) (lo hi : Z) (mem mem' : Z -> Z) : Prop :=
  (forall d k c, element channels lo hi d k c -> mem' (addr d k c) = value d k c) /\
  (forall p, (forall d k c, element channels lo hi d k c -> p <> addr d k c) -> mem' p = mem p).

Section assigned.
Context (channels : list Z) (addr : nat -> Z -> Z -> Z).
Implicit Types (value : nat -> Z -> Z -> Z) (mem : Z -> Z).

Lemma assigned_none value lo mem : assigned channels addr value lo lo mem mem.
Proof. split; [unfold element; lia|done]. Qed.

Lemma assigned_ext value value' lo hi mem mem' : (forall d k c, element channels lo hi d k c -> value d k c = value' d k c) ->
  assigned channels addr value lo hi mem mem' -> assigned channels addr value' lo hi mem mem'.
Proof. intros He [H1 H2]. split; [|done]. intros d k c Hd. by rewrite H1, He. Qed.

(** Ranges that touch or overlap. *)
Lemma assigned_overlap value lo start mid hi mem mem1 mem2 : lo <= start <= mid ->
  (forall d k c d' k' c', element channels lo (Z.max mid hi) d k c -> element channels lo (Z.max mid hi) d' k' c' ->
    addr d k c = addr d' k' c' -> k = k') ->
  assigned channels addr value lo mid mem mem1 -> assigned channels addr value start hi mem1 mem2 ->
  assigned channels addr value lo (Z.max mid hi) mem mem2.
Proof.
  intros Hle Hinj [H1 H2] [H3 H4]. split.
  - intros d k c (Hd & Hk & Hc). destruct (decide (start <= k < hi)) as [Hm|Hm]; [apply H3; split_and!; first [done|lia]|].
    rewrite H4; [apply H1; split_and!; [done|lia..]|]. intros d' k' c' (Hd' & Hk' & Hc') Heq.
    apply Hinj in Heq; [lia| |]; split_and!; try done; lia.
  - intros p Hp. rewrite H4, H2; [done| |]; intros d k c (Hd & Hk & Hc); apply Hp; split_and!; try done; lia.
Qed.

Lemma assigned_join value lo mid hi mem mem1 mem2 : lo <= mid <= hi ->
  (forall d k c d' k' c', element channels lo hi d k c -> element channels lo hi d' k' c' ->
    addr d k c = addr d' k' c' -> k = k') ->
  assigned channels addr value lo mid mem mem1 -> assigned channels addr value mid hi mem1 mem2 ->
  assigned channels addr value lo hi mem mem2.
Proof. intros Hle. pose proof (assigned_overlap value lo mid mid hi mem mem1 mem2) as H. rewrite Z.max_r in H by lia. apply H. lia. Qed.
End assigned.

(** ** Laws of an operation *)

Section laws.
Context (sz : Z) (src_channels dst_channels : list Z).

(** Where the elements of a block are, from the pointers of the images. *)
Definition block_address (channels : list Z) (ptrs : list Z) (d : nat) (k c : Z) : Z :=
  ptrs !!! d + (k * channels !!! d + c) * sz.

(** The elements of the destinations are at addresses of their own. *)
Definition block_separate (n : Z) (srcs dsts : list Z) : Prop :=
  (forall d k c d' k' c', element dst_channels 0 n d k c -> element dst_channels 0 n d' k' c' ->
    block_address dst_channels dsts d k c = block_address dst_channels dsts d' k' c' -> d = d' /\ k = k' /\ c = c') /\
  (forall s k e d k' c, element src_channels 0 n s k e -> element dst_channels 0 n d k' c ->
    block_address src_channels srcs s k e <> block_address dst_channels dsts d k' c).

(** Channel [c] of destination [d] as a function of the channels of the sources. *)
Context (value : nat -> Z -> (nat -> Z -> Z) -> Z) (valid : Z -> Prop).

(** What [path] does to a block of [n] pixels. *)
Definition computes (n : Z) (path : list Columns -> (Z -> Z) -> Z -> Z) : Prop :=
  forall srcs dsts mem, map col_channels_ srcs = src_channels -> map col_channels_ dsts = dst_channels ->
  let src := block_address src_channels (map col_ptr_ srcs) in
  let dst := block_address dst_channels (map col_ptr_ dsts) in
  block_separate n (map col_ptr_ srcs) (map col_ptr_ dsts) ->
  (forall s k e, element src_channels 0 n s k e -> valid (mem (src s k e))) ->
  assigned dst_channels dst (fun d k c => value d c (fun s e => mem (src s k e))) 0 n mem (path (srcs ++ dsts) mem).

Class ChannelLaws (op : ChannelOperation) : Prop := {
  lanes_range : 1 <= num_lanes op < 2 ^ 32;
  value_ext d c g h : (d < length dst_channels)%nat -> 0 <= c < dst_channels !!! d ->
    (forall s e, (s < length src_channels)%nat -> 0 <= e < src_channels !!! s -> g s e = h s e) -> value d c g = value d c h;
  twice_law : is_unrolled_twice op = true -> computes (2 * num_lanes op) (vector_path_2x op);
  once_law : is_unrolled_once op = true -> computes (num_lanes op) (vector_path op);
  scalar_law : computes 1 (scalar_path op)
}.
End laws.

(** ** Images *)

Section correct.
Context (sz : Z) (src_channels dst_channels : list Z) (value : nat -> Z -> (nat -> Z -> Z) -> Z) (valid : Z -> Prop).
Context (srcs dsts : list Rows) (width height : Z) (mem0 : Z -> Z).
Hypothesis value_local : forall d c g h, (d < length dst_channels)%nat -> 0 <= c < dst_channels !!! d ->
  (forall s e, (s < length src_channels)%nat -> 0 <= e < src_channels !!! s -> g s e = h s e) -> value d c g = value d c h.

(** Rows with [channels] channels of elements of [sz] bytes. *)
Definition has_channels (r : Rows) (channels : Z) : Prop :=
  valid_rows r width height /\ channels_ r = channels /\ sizeof_ r = sz.

Definition image_address (images : list Rows) (d : nat) (n c : Z) : Z :=
  element_address (images !!! d) width n + c * sz.

Hypothesis size_ok : 0 <= width /\ 0 <= height /\ width * height < 2 ^ 64.
Hypothesis srcs_ok : Forall2 has_channels srcs src_channels.
Hypothesis dsts_ok : Forall2 has_channels dsts dst_channels.
Local Abbreviation pixels := (width * height).
Hypothesis dsts_distinct : forall d n c d' n' c', element dst_channels 0 pixels d n c -> element dst_channels 0 pixels d' n' c' ->
  image_address dsts d n c = image_address dsts d' n' c' -> d = d' /\ n = n' /\ c = c'.
Hypothesis srcs_apart : forall s n e d n' c, element src_channels 0 pixels s n e -> element dst_channels 0 pixels d n' c ->
  image_address srcs s n e <> image_address dsts d n' c.
Hypothesis values_ok : forall s n e, element src_channels 0 pixels s n e -> valid (mem0 (image_address srcs s n e)).

Definition result (d : nat) (n c : Z) : Z := value d c (fun s e => mem0 (image_address srcs s n e)).

(** The first [n] pixels are written. *)
Definition written (n : Z) (mem : Z -> Z) : Prop := assigned dst_channels (image_address dsts) result 0 n mem0 mem.

(** The columns from pixel [n] on, with [len] pixels left. *)
Definition stands_on (n len : Z) (cols : list Columns) : Prop :=
  Forall2 (fun r c => columns_of r width n len c) (srcs ++ dsts) cols.

Lemma columns_advance r ch n len c s : has_channels r ch -> columns_of r width n len c -> 0 <= s <= len ->
  columns_of r width (n + s) (len - s) (columns_at sz c s).
Proof.
  intros ((_ & _ & Hch & _) & _ & Hsz) [Hc Ha] Hs. split; [done|]. intros k Hk. unfold columns_at. cbn [col_ptr_].
  rewrite Hc, to_ptrdiff_small by lia.
  replace (n + s + k) with (n + (s + k)) by lia. rewrite <- Ha by lia. rewrite Hsz. lia.
Qed.

Lemma images_channels : Forall2 has_channels (srcs ++ dsts) (src_channels ++ dst_channels).
Proof. by apply Forall2_app. Qed.

Lemma position_advance n len cols s : stands_on n len cols -> 0 <= s <= len ->
  stands_on (n + s) (len - s) (step_columns sz s cols).
Proof.
  unfold stands_on. generalize images_channels. generalize (srcs ++ dsts) (src_channels ++ dst_channels).
  intros images chs Hch Hs Hl. unfold step_columns. apply Forall2_fmap_r. revert chs Hch.
  induction Hs as [|r c l l' Hc Hs IH]; intros chs Hch; [constructor|].
  apply Forall2_cons_inv_l in Hch as (ch & chs' & Hr & Hch & ->). constructor; [by eapply columns_advance|by eapply IH].
Qed.

(** The blocks that the columns point to. *)
Lemma block_at images chs n len cols d k c : Forall2 has_channels images chs ->
  Forall2 (fun r c => columns_of r width n len c) images cols -> element chs 0 len d k c ->
  block_address sz chs (map col_ptr_ cols) d k c = image_address images d (n + k) c.
Proof.
  intros Hch Hcols (Hd & Hk & Hc). unfold block_address, image_address.
  assert (d < length images)%nat as Hdi by (by rewrite (Forall2_length _ _ _ Hch)).
  assert (d < length cols)%nat as Hdc by (by rewrite <- (Forall2_length _ _ _ Hcols)).
  destruct (Forall2_lookup_l _ _ _ _ (images !!! d) Hch (list_lookup_lookup_total_lt _ _ Hdi)) as (ch & Hech & _ & Hrc & Hrs).
  destruct (Forall2_lookup_l _ _ _ _ (images !!! d) Hcols (list_lookup_lookup_total_lt _ _ Hdi)) as (col & Hcol & _ & Ha).
  rewrite <- (Ha k) by lia. rewrite Hrc, Hrs. rewrite (list_lookup_total_correct _ _ _ Hech).
  assert (map col_ptr_ cols !!! d = col_ptr_ col) as ->; [|lia].
  apply list_lookup_total_correct. by rewrite list_lookup_fmap, Hcol.
Qed.

Lemma column_channels images chs n len cols : Forall2 has_channels images chs ->
  Forall2 (fun r c => columns_of r width n len c) images cols -> map col_channels_ cols = chs.
Proof.
  intros Hch Hcols. revert chs Hch. induction Hcols as [|r c images cols [Hc _] _ IH]; intros chs Hch.
  - by apply Forall2_nil_inv_l in Hch as ->.
  - apply Forall2_cons_inv_l in Hch as (ch & chs' & (_ & Hr & _) & Hch & ->). cbn [map]. f_equal; [by rewrite Hc|by apply IH].
Qed.

Lemma images_valid : Forall (fun r => valid_rows r width height) (srcs ++ dsts).
Proof.
  apply Forall_app. split; apply Forall_forall; intros r Hr; apply list_elem_of_lookup in Hr as [i Hi].
  - by destruct (Forall2_lookup_l _ _ _ _ _ srcs_ok Hi) as (ch & _ & Hv & _).
  - by destruct (Forall2_lookup_l _ _ _ _ _ dsts_ok Hi) as (ch & _ & Hv & _).
Qed.

Lemma channels_source_kept n mem s k e : written n mem -> n <= pixels -> element src_channels 0 pixels s k e ->
  mem (image_address srcs s k e) = mem0 (image_address srcs s k e).
Proof.
  intros [_ Hrest] Hn He. apply Hrest. intros d k' c (Hd & Hk' & Hc). apply srcs_apart; [done|]. split_and!; try done; lia.
Qed.

(** One block, over pixels that may be written already. *)
Lemma block_written_over w n len cols m path mem : written w mem -> 0 <= n <= w -> w <= pixels -> n + len <= pixels -> stands_on n len cols ->
  0 <= m <= len -> computes sz src_channels dst_channels value valid m path ->
  written (Z.max w (n + m)) (path cols mem).
Proof.
  intros Hw Hn Hwp Hle Hs Hm Hpath. apply Forall2_app_inv_l in Hs as (cs & cd & Hcs & Hcd & ->).
  assert (forall chs d k c, element chs 0 m d k c -> element chs 0 len d k c) as Hlen.
  { intros chs d k c (? & ? & ?). split_and!; try done; lia. }
  assert (forall chs d k c, element chs 0 m d k c -> element chs 0 pixels d (n + k) c) as Himg.
  { intros chs d k c (? & ? & ?). split_and!; try done; lia. }
  pose proof (fun d k c He => block_at srcs src_channels n len cs d k c srcs_ok Hcs (Hlen _ _ _ _ He)) as Hsrc.
  pose proof (fun d k c He => block_at dsts dst_channels n len cd d k c dsts_ok Hcd (Hlen _ _ _ _ He)) as Hdst.
  destruct (Hpath cs cd mem) as [H1 H2]; [by eapply column_channels|by eapply column_channels|..].
  - split.
    + intros d k c d' k' c' He He'. rewrite !Hdst by done. intros Heq%dsts_distinct; [|by apply Himg..]. lia.
    + intros s k e d k' c He He'. rewrite Hsrc, Hdst by done. apply srcs_apart; by apply Himg.
  - intros s k e He. rewrite Hsrc by done. rewrite (channels_source_kept w) by (done || lia || by apply Himg). by apply values_ok, Himg.
  - apply (assigned_overlap _ _ _ 0 n w (n + m) mem0 mem); [lia| |done|].
    + intros d k c d' k' c' (? & ? & ?) (? & ? & ?) Heq%dsts_distinct; [lia| |]; split_and!; try done; lia.
    + split.
      * intros d k c (Hd & Hk & Hc). replace k with (n + (k - n)) by lia.
        assert (element dst_channels 0 m d (k - n) c) as He by (split_and!; try done; lia).
        rewrite <- Hdst, H1 by done. apply value_local; [done|done|]. intros s e Hs' He'.
        assert (element src_channels 0 m s (k - n) e) as Hse by (split_and!; try done; lia).
        rewrite Hsrc by done. apply (channels_source_kept w); [done|lia|by apply Himg].
      * intros p Hp. apply H2. intros d k c He. rewrite Hdst by done. destruct He as (? & ? & ?). apply Hp. split_and!; try done; lia.
Qed.

Lemma block_written n len cols m path mem : written n mem -> 0 <= n -> n + len <= pixels -> stands_on n len cols ->
  0 <= m <= len -> computes sz src_channels dst_channels value valid m path ->
  written (n + m) (path cols mem).
Proof.
  intros Hw Hn Hle Hs Hm Hpath. rewrite <- (Z.max_r n (n + m)) by lia. apply (block_written_over n n len); done || lia.
Qed.

(** Rows that are computed as a whole. *)
Lemma rows_computed row : (forall len, 0 <= len <= pixels -> computes sz src_channels dst_channels value valid len (row len)) ->
  written pixels (zip_rows row {| width_ := width; height_ := height |} (srcs ++ dsts) mem0).
Proof.
  intros Hrow. pose proof size_ok as (Hw & Hh & Hs). apply zip_rows_ind; [|done|done|lia| |apply assigned_none].
  - apply images_valid.
  - intros n len cols mem Hn Hlen Hle Hwr Hc. apply (block_written n len); [done|lia|lia|done|lia|apply Hrow; lia].
Qed.

(** ** Rows by vectors *)

Section operation.
Context (op : ChannelOperation) {laws : ChannelLaws sz src_channels dst_channels value valid op}.

Section row.
Context (n0 len : Z) (cols0 : list Columns).
Hypothesis row_in_image : 0 <= n0 /\ 0 <= len /\ n0 + len <= pixels.
Hypothesis row_columns : stands_on n0 len cols0.

(** The columns are [k] pixels into the row, and those before are written. *)
Definition row_at (k : Z) (cs : list Columns * (Z -> Z)) : Prop :=
  cs.1 = step_columns sz k cols0 /\ exists w, k <= w <= len /\ written (n0 + w) cs.2.

Lemma step_columns_again a b cols : step_columns sz a (step_columns sz b cols) = step_columns sz (b + a) cols.
Proof.
  unfold step_columns. rewrite map_map. apply map_ext. intros c. unfold columns_at. cbn [col_ptr_ col_channels_]. f_equal. lia.
Qed.

Lemma row_step k m path cs : 0 <= k -> 0 <= m -> k + m <= len ->
  computes sz src_channels dst_channels value valid m path -> row_at k cs ->
  row_at (k + m) (step_columns sz m cs.1, path cs.1 cs.2).
Proof.
  destruct cs as [cols mem]. intros Hk Hm Hkm Hpath [Hs (w & Hw & Hwr)]. cbn [fst snd] in *. subst cols.
  split; cbn [fst snd]; [apply step_columns_again|]. exists (Z.max w (k + m)). split; [lia|].
  replace (n0 + Z.max w (k + m)) with (Z.max (n0 + w) (n0 + k + m)) by lia.
  apply (block_written_over (n0 + w) (n0 + k) (len - k)); try done; try lia.
  apply position_advance; [done|lia].
Qed.

Lemma remaining_written k cs : 0 <= k <= len -> row_at k cs -> written (n0 + len) (remaining_path op sz (len - k) cs.1 cs.2).
Proof.
  destruct cs as [cols mem]. intros Hk [Hs Hw]. cbn [fst snd] in *. subst cols. unfold remaining_path.
  assert (exists w, k + (len - k) <= w <= len /\ written (n0 + w)
    (for_range 0 (len - k) (fun index mem => scalar_path op (step_columns sz index (step_columns sz k cols0)) mem) mem)) as (w & Hle & Hwr).
  { apply (for_range_ind (fun i mem => exists w, k + i <= w <= len /\ written (n0 + w) mem)); [lia|by rewrite Z.add_0_r|].
    intros i mem' Hi Hw'. rewrite step_columns_again.
    destruct (row_step (k + i) 1 (scalar_path op) (step_columns sz (k + i) cols0, mem')) as [_ (w & Hle & Hwr)];
      [lia|lia|lia|by apply scalar_law|by split|]. cbn [fst snd] in *. exists w. split; [lia|done]. }
  by assert (w = len) as -> by lia.
Qed.

(** One vector at a time until less than a vector is left. *)
Lemma once_steps l cs k : is_unrolled_once op = true -> 0 <= k <= len -> Unroll.length_ l = len - k -> Unroll.step_ l = num_lanes op -> row_at k cs ->
  let loop := Unroll.unroll_n_times 1 (unroll_once op sz) (l, cs) in
  exists k', k <= k' <= len /\ Unroll.length_ loop.1 = len - k' /\ len - k' < num_lanes op /\ Unroll.step_ loop.1 = num_lanes op /\
    Unroll.can_avoid_tail_ loop.1 = Unroll.can_avoid_tail_ l /\ row_at k' loop.2.
Proof.
  intros Honce Hk Hl Hs Hr loop. pose proof (lanes_range sz src_channels dst_channels value valid (op := op)) as Hlanes.
  pose proof size_ok as (_ & _ & Hpix).
  destruct (Unroll.unroll_n_times_rest 1 (unroll_once op sz) l cs) as [Hrest Hcan]; [lia..|].
  destruct (Unroll.unroll_n_times_invariant row_at 1 (unroll_once op sz) len k l cs) as (k' & Hk' & Hl' & Hs' & Hr'); [lia..| |done|].
  - rewrite Hs, Z.mul_1_l. intros i [cols' mem'] Hi Hil Hr'.
    apply (row_step i (num_lanes op) (vector_path op) (cols', mem')); [lia..|by apply once_law|done].
  - exists k'. fold loop in Hrest, Hcan, Hl', Hs', Hr'. rewrite Hs in Hrest. pose proof (Z.mod_pos_bound (Unroll.length_ l) (1 * num_lanes op) ltac:(lia)).
    split_and!; try done; lia.
Qed.

(** Going back leaves one vector, whose pixels before the rest are written again. *)
Lemma going_back l cs k : 0 <= k <= len -> Unroll.length_ l = len - k -> len - k < num_lanes op -> Unroll.step_ l = num_lanes op ->
  Unroll.can_avoid_tail_ l = (num_lanes op <=? len) -> row_at k cs ->
  let '(avoided, (l', cs')) := Unroll.try_avoid_tail_loop (backward_adjust sz) (l, cs) in
  if avoided then Unroll.length_ l' = num_lanes op /\ num_lanes op <= len /\ Unroll.step_ l' = num_lanes op /\
    Unroll.can_avoid_tail_ l' = (num_lanes op <=? len) /\ row_at (len - num_lanes op) cs'
  else (l', cs') = (l, cs).
Proof.
  intros Hk Hl Hrest Hs Hcan [Hc (w & Hw & Hwr)]. pose proof (lanes_range sz src_channels dst_channels value valid (op := op)) as Hlanes.
  pose proof size_ok as (_ & _ & Hpix). unfold Unroll.try_avoid_tail_loop. rewrite Hcan.
  destruct (Z.leb_spec (num_lanes op) len) as [Hle|]; cbn [negb]; [|done].
  destruct (Z.eqb_spec (Unroll.length_ l) 0) as [|Hne]; [done|]. destruct cs as [cols mem]. cbn [fst snd backward_adjust] in *. subst cols.
  cbn [Unroll.length_ Unroll.step_ Unroll.can_avoid_tail_]. split_and!; try done.
  rewrite size_sub_small by lia. split; cbn [fst snd]; [rewrite step_columns_again; f_equal; lia|]. exists w. split; [lia|done].
Qed.

Lemma avoid_tail_loop_written l cs k : is_unrolled_once op = true -> 0 <= k <= len -> Unroll.length_ l = len - k -> Unroll.step_ l = num_lanes op ->
  Unroll.can_avoid_tail_ l = (num_lanes op <=? len) -> row_at k cs ->
  let loop := avoid_tail_loop sz (tries_to_avoid_tail_loop op) (unroll_once op sz) 1 (l, cs) in exists k', 0 <= k' <= len /\ Unroll.length_ loop.1 = len - k' /\ row_at k' loop.2.
Proof.
  intros Honce Hk Hl Hs Hcan Hr. cbn [avoid_tail_loop]. cbv zeta.
  destruct (once_steps l cs k Honce Hk Hl Hs Hr) as (k1 & Hk1 & Hl1 & Hrest1 & Hs1 & Hc1 & Hr1).
  destruct (Unroll.unroll_n_times 1 (unroll_once op sz) (l, cs)) as [l1 cs1]. cbn [fst snd] in *.
  destruct (tries_to_avoid_tail_loop op); [|exists k1; cbn [fst snd]; split_and!; done || lia].
  pose proof (going_back l1 cs1 k1 ltac:(lia) Hl1 Hrest1 Hs1 ltac:(congruence) Hr1) as Hback.
  destruct (Unroll.try_avoid_tail_loop (backward_adjust sz) (l1, cs1)) as [[] [l2 cs2]];
    [|injection Hback as -> ->; exists k1; cbn [fst snd]; split_and!; done || lia].
  destruct Hback as (Hl2 & Hle & Hs2 & Hc2 & Hr2).
  destruct (once_steps l2 cs2 (len - num_lanes op) Honce) as (k3 & Hk3 & Hl3 & Hrest3 & Hs3 & Hc3 & Hr3); [lia|lia|done|done|].
  destruct (Unroll.unroll_n_times 1 (unroll_once op sz) (l2, cs2)) as [l3 cs3]. cbn [fst snd] in *.
  pose proof (going_back l3 cs3 k3 ltac:(lia) Hl3 Hrest3 Hs3 ltac:(congruence) Hr3) as Hback.
  destruct (Unroll.try_avoid_tail_loop (backward_adjust sz) (l3, cs3)) as [[] [l4 cs4]].
  - destruct Hback as (Hl4 & _ & _ & _ & Hr4). exists (len - num_lanes op). cbn [fst snd]. split_and!; done || lia.
  - injection Hback as -> ->. exists k3. cbn [fst snd]. split_and!; done || lia.
Qed.

Lemma process_row_written mem : written n0 mem -> written (n0 + len) (process_row op sz len cols0 mem).
Proof.
  intros Hw. unfold process_row. cbv zeta. pose proof row_in_image as (Hn & Hlen & Hle). pose proof size_ok as (_ & _ & Hpix).
  pose proof (lanes_range sz src_channels dst_channels value valid (op := op)) as Hlanes.
  assert (row_at 0 (cols0, mem)) as Hr0.
  { split; cbn [fst snd]; [|exists 0; rewrite Z.add_0_r; split; [lia|done]].
    unfold step_columns. rewrite <- (map_id cols0) at 1. apply map_ext. intros [ptr ch]. unfold columns_at. cbn. f_equal. lia. }
  set (loop0 := (Unroll.make len (num_lanes op), (cols0, mem))).
  set (loop1 := if is_unrolled_twice op then _ else loop0).
  assert (exists k, 0 <= k <= len /\ Unroll.length_ loop1.1 = len - k /\ Unroll.step_ loop1.1 = num_lanes op /\
    Unroll.can_avoid_tail_ loop1.1 = (num_lanes op <=? len) /\ row_at k loop1.2) as (k1 & Hk1 & Hl1 & Hs1 & Hc1 & Hr1).
  { subst loop1. destruct (is_unrolled_twice op) eqn:Htwice; [|exists 0; subst loop0; cbn; split_and!; done || lia].
    destruct (Unroll.unroll_n_times_rest 2 (unroll_twice op sz) (Unroll.make len (num_lanes op)) (cols0, mem)) as [_ Hcan]; [cbn; lia..|].
    destruct (Unroll.unroll_n_times_invariant row_at 2 (unroll_twice op sz) len 0 (Unroll.make len (num_lanes op)) (cols0, mem))
      as (k & Hk & Hl & Hst & Hr); cbn; [lia..| |done|by exists k].
    intros k [cols' mem'] Hk Hkl Hr. apply (row_step k (2 * num_lanes op) (vector_path_2x op) (cols', mem')); [lia..|by apply twice_law|done]. }
  set (loop2 := if is_unrolled_once op then _ else loop1).
  assert (exists k, 0 <= k <= len /\ Unroll.length_ loop2.1 = len - k /\ row_at k loop2.2) as (k2 & Hk2 & Hl2 & Hr2).
  { subst loop2. destruct (is_unrolled_once op) eqn:Honce; [|by exists k1]. destruct loop1 as [l1 cs1]. by apply (avoid_tail_loop_written l1 cs1 k1). }
  destruct loop2 as [l2 cs2]. cbn [fst snd] in *. unfold Unroll.remaining. pose proof (remaining_written k2 cs2 Hk2 Hr2) as Hfin.
  destruct (Z.eqb_spec (Unroll.length_ l2) 0) as [Hz|Hz]; destruct cs2 as [cols2 mem2].
  - destruct Hr2 as [_ (w & Hw2 & Hwr)]. by assert (w = len) as <- by lia.
  - cbn [remaining_functor]. by rewrite Hl2.
Qed.
End row.

(** Every element of the destinations gets its value, and nothing else is written; any
    row function will do that is [process_row] of a lawful operation. *)
Lemma rows_written row : (forall len cols mem, 0 <= len < 2 ^ 64 -> row len cols mem = process_row op sz len cols mem) ->
  written pixels (zip_rows row {| width_ := width; height_ := height |} (srcs ++ dsts) mem0).
Proof.
  intros Hrow. pose proof size_ok as (Hw & Hh & Hs). apply zip_rows_ind; [apply images_valid|done|done|lia| |apply assigned_none].
  intros n len cols mem Hn Hlen Hle Hwr Hc. rewrite Hrow by lia. by apply process_row_written.
Qed.
End operation.
End correct.

(** ** Calls *)

Lemma pointer_alignment_accepted align pointer :
  check_pointer_alignment align pointer = KLEIDICV_OK <-> (1 < align -> is_misaligned align pointer = false).
Proof. unfold check_pointer_alignment. destruct (Z.ltb_spec 1 align), (is_misaligned align pointer); intuition (congruence || lia || auto). Qed.

(** [outcome accepted result mem done]: accepted arguments lead to [KLEIDICV_OK] and
    [done], others to an error and an untouched memory. *)
Definition outcome (accepted : Prop) (result : kleidicv_error_t * (Z -> Z)) (mem done_ : Z -> Z) : Prop :=
  (accepted -> result = (KLEIDICV_OK, done_)) /\ (~ accepted -> result.1 <> KLEIDICV_OK /\ result.2 = mem).

(** A chain of checks and what follows it. *)
Definition after_check (check : kleidicv_error_t) (rest : kleidicv_error_t * (Z -> Z)) (mem : Z -> Z) : kleidicv_error_t * (Z -> Z) :=
  match guard_error check KLEIDICV_OK with KLEIDICV_OK => rest | error => (error, mem) end.

Lemma after_check_error check rest mem : check <> KLEIDICV_OK -> after_check check rest mem = (check, mem).
Proof. by destruct check. Qed.

Lemma checked_outcome accepted check mem done_ : (check = KLEIDICV_OK <-> accepted) ->
  outcome accepted (after_check check (KLEIDICV_OK, done_) mem) mem done_.
Proof.
  intros Hiff. destruct (decide (check = KLEIDICV_OK)) as [->|Hc]; split.
  - done.
  - intros Hn. by destruct Hn; apply Hiff.
  - by intros Ha%Hiff.
  - by rewrite after_check_error.
Qed.

Lemma checked_twice_outcome accepted check1 check2 mem done_ : (check1 = KLEIDICV_OK /\ check2 = KLEIDICV_OK <-> accepted) ->
  outcome accepted (after_check check1 (after_check check2 (KLEIDICV_OK, done_) mem) mem) mem done_.
Proof.
  intros Hiff. destruct (decide (check1 = KLEIDICV_OK)) as [->|Hc1].
  - cbn [after_check guard_error]. apply checked_outcome. tauto.
  - rewrite after_check_error by done. split; [by intros [? _]%Hiff|done].
Qed.

(** Rewrites the match of a function on a check into [after_check]. *)
Lemma after_check_match check rest mem :
  after_check check rest mem =
  match check with
  | KLEIDICV_OK => rest
  | KLEIDICV_ERROR_NOT_IMPLEMENTED => (KLEIDICV_ERROR_NOT_IMPLEMENTED, mem)
  | KLEIDICV_ERROR_NULL_POINTER => (KLEIDICV_ERROR_NULL_POINTER, mem)
  | KLEIDICV_ERROR_RANGE => (KLEIDICV_ERROR_RANGE, mem)
  | KLEIDICV_ERROR_ALLOCATION => (KLEIDICV_ERROR_ALLOCATION, mem)
  | KLEIDICV_ERROR_ALIGNMENT => (KLEIDICV_ERROR_ALIGNMENT, mem)
  | KLEIDICV_ERROR_CONTEXT_MISMATCH => (KLEIDICV_ERROR_CONTEXT_MISMATCH, mem)
  end.
Proof. by destruct check. Qed.

Section calls.
Context (sz width height : Z).

(** An image with a pointer, a stride and [channels] channels. *)
Definition image_rows (image : Z * Z) (channels : Z) : Rows :=
  {| ptr_ := image.1; stride_ := image.2; channels_ := channels; sizeof_ := sz |}.

(** Channel [c] of the pixel in row [y] and column [x] of image [d]. *)
Definition scalar_of (channels : list Z) (d : nat) (y x c : Z) : Prop :=
  (d < length channels)%nat /\ 0 <= y < height /\ 0 <= x < width /\ 0 <= c < channels !!! d.
Definition scalar_address (channels : list Z) (images : list (Z * Z)) (d : nat) (y x c : Z) : Z :=
  (images !!! d).1 + y * (images !!! d).2 + (x * channels !!! d + c) * sz.

Definition image_in_memory (image : Z * Z) (channels : Z) : Prop :=
  0 <= image.1 /\ 0 <= image.2 < 2 ^ 63 /\ 0 < channels < 2 ^ 32 /\ width * channels * sz < 2 ^ 64 /\
  image.1 + height * image.2 < 2 ^ 64.

(** The images are in the address space, and no scalar of a destination shares a byte with
    another scalar of a destination or of a source. *)
Record placed_images (src_channels dst_channels : list Z) (srcs dsts : list (Z * Z)) : Prop := {
  size_in_range : 0 <= width /\ 0 <= height /\ width * height < 2 ^ 64;
  srcs_in_memory : Forall2 image_in_memory srcs src_channels;
  dsts_in_memory : Forall2 image_in_memory dsts dst_channels;
  dsts_apart d y x c d' y' x' c' : scalar_of dst_channels d y x c -> scalar_of dst_channels d' y' x' c' ->
    Z.abs (scalar_address dst_channels dsts d y x c - scalar_address dst_channels dsts d' y' x' c') < sz ->
    d = d' /\ y = y' /\ x = x' /\ c = c';
  srcs_dsts_apart s y x e d y' x' c : scalar_of src_channels s y x e -> scalar_of dst_channels d y' x' c ->
    sz <= Z.abs (scalar_address src_channels srcs s y x e - scalar_address dst_channels dsts d y' x' c)
}.

(** Every scalar of the destinations has the value of [value], and nothing else is written. *)
Definition channels_computed (src_channels dst_channels : list Z) (value : nat -> Z -> (nat -> Z -> Z) -> Z)
    (srcs dsts : list (Z * Z)) (mem mem' : Z -> Z) : Prop :=
  (forall d y x c, scalar_of dst_channels d y x c -> mem' (scalar_address dst_channels dsts d y x c) =
    value d c (fun s e => mem (scalar_address src_channels srcs s y x e))) /\
  (forall p, (forall d y x c, scalar_of dst_channels d y x c -> p <> scalar_address dst_channels dsts d y x c) -> mem' p = mem p).

Hypothesis sz_pos : 0 < sz.

Lemma image_has_channels images chs : Forall2 image_in_memory images chs ->
  Forall2 (has_channels sz width height) (zip_with image_rows images chs) chs.
Proof.
  induction 1 as [|image ch images chs (? & ? & ? & ? & ?) _ IH]; [constructor|]. cbn [zip_with].
  constructor; [|exact IH]. unfold has_channels, valid_rows, image_rows. cbn [ptr_ stride_ channels_ sizeof_]. split_and!; done || lia.
Qed.

Lemma image_scalar images chs d y x c : Forall2 image_in_memory images chs -> scalar_of chs d y x c ->
  image_address sz width (zip_with image_rows images chs) d (y * width + x) c = scalar_address chs images d y x c.
Proof.
  intros Hi (Hd & Hy & Hx & Hc). pose proof (Forall2_length _ _ _ Hi) as Hl. unfold image_address, scalar_address, element_address.
  rewrite (list_lookup_total_correct _ d (image_rows (images !!! d) (chs !!! d)))
    by (rewrite lookup_zip_with, !list_lookup_lookup_total_lt by lia; done).
  cbn [ptr_ stride_ channels_ sizeof_ image_rows].
  rewrite Z.div_add_l, Z.div_small, (Z.add_comm (y * width)), Z.mod_add, Z.mod_small by lia. lia.
Qed.

Lemma pixel_of_number chs d n c : 0 <= width -> element chs 0 (width * height) d n c ->
  exists y x, n = y * width + x /\ scalar_of chs d y x c.
Proof.
  intros Hw (Hd & Hn & Hc). assert (0 < width) by (destruct (Z.eq_dec width 0) as [E|E]; [rewrite E in Hn; lia|lia]). exists (n / width), (n mod width).
  pose proof (Z.div_mod n width ltac:(lia)). pose proof (Z.mod_pos_bound n width ltac:(lia)).
  split; [lia|]. split; [done|]. split; [split; [apply Z.div_pos; lia|apply Z.div_lt_upper_bound; nia]|]. split; [lia|done].
Qed.

Lemma number_of_pixel chs d y x c : scalar_of chs d y x c -> element chs 0 (width * height) d (y * width + x) c.
Proof.
  intros (Hd & Hy & Hx & Hc). assert ((y + 1) * width <= height * width) by (apply Z.mul_le_mono_nonneg_r; lia).
  assert (0 <= y * width) by (apply Z.mul_nonneg_nonneg; lia). split; [done|]. split; [lia|done].
Qed.

(** From pixels by number to rows and columns. *)
Lemma written_computed src_channels dst_channels value (valid : Z -> Prop) srcs dsts mem mem' : placed_images src_channels dst_channels srcs dsts ->
  (forall d c g h, (d < length dst_channels)%nat -> 0 <= c < dst_channels !!! d ->
    (forall s e, (s < length src_channels)%nat -> 0 <= e < src_channels !!! s -> g s e = h s e) -> value d c g = value d c h) ->
  (forall s y x e, scalar_of src_channels s y x e -> valid (mem (scalar_address src_channels srcs s y x e))) ->
  let srcs_rows := zip_with image_rows srcs src_channels in
  let dsts_rows := zip_with image_rows dsts dst_channels in
  ((forall d n c d' n' c', element dst_channels 0 (width * height) d n c -> element dst_channels 0 (width * height) d' n' c' ->
      image_address sz width dsts_rows d n c = image_address sz width dsts_rows d' n' c' -> d = d' /\ n = n' /\ c = c') ->
    (forall s n e d n' c, element src_channels 0 (width * height) s n e -> element dst_channels 0 (width * height) d n' c ->
      image_address sz width srcs_rows s n e <> image_address sz width dsts_rows d n' c) ->
    (forall s n e, element src_channels 0 (width * height) s n e -> valid (mem (image_address sz width srcs_rows s n e))) ->
    written sz dst_channels value srcs_rows dsts_rows width mem (width * height) mem') ->
  channels_computed src_channels dst_channels value srcs dsts mem mem'.
Proof.
  intros [Hsize Hsrcs Hdsts Hdd Hsd] Hlocal Hvalid srcs_rows dsts_rows Hwritten. pose proof Hsize as (Hw & Hh & _).
  destruct Hwritten as [H1 H2].
  - intros d n c d' n' c' (y & x & -> & He)%pixel_of_number (y' & x' & -> & He')%pixel_of_number; [|done..].
    subst dsts_rows. rewrite !image_scalar by done. intros Heq. destruct (Hdd d y x c d' y' x' c') as (-> & -> & -> & ->); [done|done| |done].
    rewrite Heq, Z.sub_diag. done.
  - intros s n e d n' c (y & x & -> & He)%pixel_of_number (y' & x' & -> & He')%pixel_of_number; [|done..].
    subst srcs_rows dsts_rows. rewrite !image_scalar by done. specialize (Hsd s y x e d y' x' c He He'). lia.
  - intros s n e (y & x & -> & He)%pixel_of_number; [|done]. subst srcs_rows. rewrite image_scalar by done. by apply Hvalid.
  - split.
    + intros d y x c He. rewrite <- image_scalar by done. rewrite H1 by (by apply number_of_pixel).
      apply Hlocal; [apply He|apply He|]. intros s e Hs Hc.
      subst srcs_rows. rewrite image_scalar; [done|done|]. destruct He as (_ & ? & ? & _). split_and!; done || lia.
    + intros p Hp. apply H2. intros d n c (y & x & -> & He)%pixel_of_number; [|done]. subst dsts_rows. rewrite image_scalar by done. by apply Hp.
Qed.

(** An operation by rows, and a row function of its own. *)
Lemma channel_operation_correct src_channels dst_channels value valid op srcs dsts mem row :
  ChannelLaws sz src_channels dst_channels value valid op -> placed_images src_channels dst_channels srcs dsts ->
  (forall s y x e, scalar_of src_channels s y x e -> valid (mem (scalar_address src_channels srcs s y x e))) ->
  (forall len cols mem, 0 <= len < 2 ^ 64 -> row len cols mem = process_row op sz len cols mem) ->
  channels_computed src_channels dst_channels value srcs dsts mem
    (zip_rows row {| width_ := width; height_ := height |}
      (zip_with image_rows srcs src_channels ++ zip_with image_rows dsts dst_channels) mem).
Proof.
  intros Hlaws Hp Hvalid Hrow. pose proof (value_ext sz src_channels dst_channels value valid (op := op)) as Hlocal.
  apply (written_computed src_channels dst_channels value valid); [done|done|done|]. intros Hdd Hsd Hv. destruct Hp as [Hsize Hsrcs Hdsts _ _].
  eapply (rows_written sz src_channels dst_channels value valid); try done; by apply image_has_channels.
Qed.

Lemma channel_rows_correct src_channels dst_channels value valid srcs dsts mem row : placed_images src_channels dst_channels srcs dsts ->
  (forall d c g h, (d < length dst_channels)%nat -> 0 <= c < dst_channels !!! d ->
    (forall s e, (s < length src_channels)%nat -> 0 <= e < src_channels !!! s -> g s e = h s e) -> value d c g = value d c h) ->
  (forall s y x e, scalar_of src_channels s y x e -> valid (mem (scalar_address src_channels srcs s y x e))) ->
  (forall len, 0 <= len <= width * height -> computes sz src_channels dst_channels value valid len (row len)) ->
  channels_computed src_channels dst_channels value srcs dsts mem
    (zip_rows row {| width_ := width; height_ := height |}
      (zip_with image_rows srcs src_channels ++ zip_with image_rows dsts dst_channels) mem).
Proof.
  intros Hp Hlocal Hvalid Hrow.
  apply (written_computed src_channels dst_channels value valid); [done|done|done|]. intros Hdd Hsd Hv. destruct Hp as [Hsize Hsrcs Hdsts _ _].
  eapply (rows_computed sz src_channels dst_channels value valid); try done; by apply image_has_channels.
Qed.
End calls.
