(* ===== verification/ChannelAdapters.v ===== *)
(** * Adapters for channel operations

    [OperationAdapter] of [operations.h] for operations on vectors, on pointers and on
    groups of consecutive vectors: from what one vector does to what the columns need
    ([computes] of Channels). *)

From S2P Require Import Prelude Rows VectorMemory Registers Channels.

Section adapters.
Context (sz : Z).
Local Abbreviation lanes := (VectorMemory.num_lanes sz).
Implicit Types (mem : Z -> Z) (cols : list Columns).

(** [vector_path] on vectors and a pointer to the destination. *)
Section vectors.
Context (vector_path : list (list Z) -> Z -> (Z -> Z) -> Z -> Z).

Definition no_column : Columns := {| col_ptr_ := 0; col_channels_ := 1 |}.

Definition vectors_path_2x cols mem : Z -> Z :=
  let srcs := removelast cols in
  let dst := List.last cols no_column in
  let srcs_0 := map (fun src => load sz mem (col_ptr_ src)) srcs in
  let srcs_1 := map (fun src => load sz mem (col_ptr_ src + lanes * sz)) srcs in
  let mem := vector_path srcs_0 (col_ptr_ dst) mem in
  vector_path srcs_1 (col_ptr_ (columns_at sz dst lanes)) mem.
Definition vectors_path cols mem : Z -> Z :=
  let srcs := removelast cols in
  let dst := List.last cols no_column in
  vector_path (map (fun src => load sz mem (col_ptr_ src)) srcs) (col_ptr_ dst) mem.
End vectors.

(** [void vector_path] on pointers, and [scalar_path]. *)
Section pointers.
Context (vector_path : list Z -> (Z -> Z) -> Z -> Z).

Definition pointers_path cols mem : Z -> Z := vector_path (map col_ptr_ cols) mem.
Definition pointers_path_2x cols mem : Z -> Z :=
  let mem := vector_path (map col_ptr_ cols) mem in
  vector_path (map col_ptr_ (step_columns sz lanes cols)) mem.
End pointers.

(** [void vector_path] on [Vector2Type] to [Vector4Type] and references to vectors. *)
Section groups.
Context (N : Z) (vector_path : list (list Z) -> list (list Z)).

Definition store_each (dsts : list (Z * list (list Z))) mem : Z -> Z :=
  foldl (fun mem '(dst, regs) => stores sz dst regs mem) mem dsts.

Definition groups_path_2x cols mem : Z -> Z :=
  match cols with
  | [] => mem
  | src :: dsts =>
      let vsrc_0 := loads sz N mem (col_ptr_ src) in
      let vsrc_1 := loads sz N mem (col_ptr_ src + lanes * N * sz) in
      let vdst_0 := vector_path vsrc_0 in
      let vdst_1 := vector_path vsrc_1 in
      store_each (zip (map col_ptr_ dsts) (zip_with (fun v_0 v_1 => [v_0; v_1]) vdst_0 vdst_1)) mem
  end.
Definition groups_path cols mem : Z -> Z :=
  match cols with
  | [] => mem
  | src :: dsts =>
      let vsrc := loads sz N mem (col_ptr_ src) in
      let vdst := vector_path vsrc in
      store_each (zip (map col_ptr_ dsts) (map (fun v => [v]) vdst)) mem
  end.
End groups.

(** ** From filled destinations to assigned elements *)

(** The destinations are filled one after the other, [n] pixels each. *)
Fixpoint filled_all (n : Z) (channels dsts : list Z) (value : nat -> Z -> Z) mem mem' : Prop :=
  match channels, dsts with
  | ch :: channels, dst :: dsts =>
      exists mem1, filled sz dst 0 (n * ch) (value 0%nat) mem mem1 /\
        filled_all n channels dsts (fun d => value (S d)) mem1 mem'
  | _, _ => mem' = mem
  end.

Lemma filled_all_assigned n channels dsts v value mem mem' : length dsts = length channels ->
  Forall (fun ch => 0 < ch) channels ->
  (forall d k c d' k' c', element channels 0 n d k c -> element channels 0 n d' k' c' ->
    block_address sz channels dsts d k c = block_address sz channels dsts d' k' c' -> d = d' /\ k = k' /\ c = c') ->
  (forall d k c, element channels 0 n d k c -> v d (k * channels !!! d + c) = value d k c) ->
  filled_all n channels dsts v mem mem' -> assigned channels (block_address sz channels dsts) value 0 n mem mem'.
Proof.
  revert dsts v value mem. induction channels as [|ch channels IH]; intros dsts v value mem Hl Hpos Hinj Hv Hf.
  { destruct dsts; [|done]. cbn in Hf. subst mem'. split; [|done]. intros d k c [Hd _]. cbn in Hd. lia. }
  destruct dsts as [|dst dsts]; [done|]. destruct Hf as (mem1 & [H1 H2] & Hf). apply Forall_cons in Hpos as [Hch Hpos].
  assert (forall d k c, element channels 0 n d k c -> element (ch :: channels) 0 n (S d) k c) as Hsucc.
  { intros d k c (Hd & Hk & Hc). split_and!; [cbn; lia|lia|lia|apply Hc|apply Hc]. }
  assert (forall m, 0 <= m < n * ch -> element (ch :: channels) 0 n 0%nat (m / ch) (m mod ch)) as Hzero.
  { intros m Hm. pose proof (Z.mod_pos_bound m ch ltac:(lia)). assert (m / ch < n) by (apply Z.div_lt_upper_bound; lia).
    assert (0 <= m / ch) by (apply Z.div_pos; lia). split_and!; cbn; lia. }
  assert (forall m, dst + m * sz = block_address sz (ch :: channels) (dst :: dsts) 0%nat (m / ch) (m mod ch)) as Haddr.
  { intros m. unfold block_address. cbn. rewrite (Z.div_mod m ch) at 1 by lia. do 3 f_equal. lia. }
  destruct (IH dsts (fun d => v (S d)) (fun d => value (S d)) mem1) as [H3 H4]; [by injection Hl|done| | |done|].
  - intros d k c d' k' c' He He' Heq. destruct (Hinj (S d) k c (S d') k' c') as (? & ? & ?); [by apply Hsucc|by apply Hsucc|exact Heq|].
    split_and!; lia.
  - intros d k c He. by apply (Hv (S d)), Hsucc.
  - split.
    + intros [|d] k c He.
      * assert (0 <= k * ch + c < n * ch) as Hm by (destruct He as (_ & ? & ?); cbn in *; nia).
        change (block_address sz (ch :: channels) (dst :: dsts) 0%nat k c) with (dst + (k * ch + c) * sz).
        rewrite H4; [rewrite H1 by done; by apply (Hv 0%nat)|].
        intros d' k' c' He'. rewrite Haddr. intros Heq.
        destruct (Hinj 0%nat ((k * ch + c) / ch) ((k * ch + c) mod ch) (S d') k' c') as (? & _);
          [by apply Hzero|by apply Hsucc|exact Heq|done].
      * apply H3. destruct He as (Hd & Hk & Hc). split_and!; [cbn in Hd; lia|lia|lia|apply Hc|apply Hc].
    + intros p Hp. rewrite H4, H2; [done| |].
      * intros m Hm. rewrite Haddr. apply Hp. by apply Hzero.
      * intros d k c He. by apply (Hp (S d)), Hsucc.
Qed.
End adapters.

(** ** Two vectors *)

Section twice.
Context (sz : Z) (src_channels dst_channels : list Z) (value : nat -> Z -> (nat -> Z -> Z) -> Z) (valid : Z -> Prop).
Hypothesis channels_small : Forall (fun ch => 0 < ch < 2 ^ 32) (src_channels ++ dst_channels).
Hypothesis value_local : forall d c g h, (d < length dst_channels)%nat -> 0 <= c < dst_channels !!! d ->
  (forall s e, (s < length src_channels)%nat -> 0 <= e < src_channels !!! s -> g s e = h s e) -> value d c g = value d c h.
Local Abbreviation computes := (computes sz src_channels dst_channels value valid).

Lemma element_shift channels m n d k c : 0 <= m -> element channels 0 n d k c -> element channels 0 (m + n) d (m + k) c.
Proof. intros Hm (? & ? & ?). split_and!; done || lia. Qed.

Lemma element_less channels m n d k c : m <= n -> element channels 0 m d k c -> element channels 0 n d k c.
Proof. intros Hm (? & ? & ?). split_and!; done || lia. Qed.

(** The same elements from columns [m] pixels further. *)
Lemma step_block channels m cols d k c : Forall (fun ch => 0 < ch < 2 ^ 32) channels -> map col_channels_ cols = channels ->
  (d < length channels)%nat ->
  block_address sz channels (map col_ptr_ (step_columns sz m cols)) d k c =
  block_address sz channels (map col_ptr_ cols) d (m + k) c.
Proof.
  intros Hch <- Hd. rewrite length_map in Hd. unfold block_address, step_columns. rewrite map_map.
  destruct (lookup_lt_is_Some_2 cols d Hd) as [col Hcol].
  rewrite (list_lookup_total_correct (map col_channels_ cols) d (col_channels_ col)) by (by rewrite list_lookup_fmap, Hcol).
  rewrite (list_lookup_total_correct (map col_ptr_ cols) d (col_ptr_ col)) by (by rewrite list_lookup_fmap, Hcol).
  rewrite (list_lookup_total_correct _ d (col_ptr_ (columns_at sz col m))) by (by rewrite list_lookup_fmap, Hcol).
  assert (0 < col_channels_ col < 2 ^ 32) as Hc.
  { rewrite Forall_forall in Hch. apply Hch. apply list_elem_of_lookup_2 with d. by rewrite list_lookup_fmap, Hcol. }
  unfold columns_at. cbn [col_ptr_]. rewrite to_ptrdiff_small by lia. lia.
Qed.

Lemma step_channels m cols : map col_channels_ (step_columns sz m cols) = map col_channels_ cols.
Proof. unfold step_columns. by rewrite map_map. Qed.

Lemma computes_join m n p q : 0 <= m -> 0 <= n -> computes m p -> computes n q ->
  computes (m + n) (fun cols mem => q (step_columns sz m cols) (p cols mem)).
Proof.
  intros Hm Hn Hp Hq srcs dsts mem Hsc Hdc src dst [Hinj Hdisj] Hvalid.
  pose proof (proj1 (Forall_app _ _ _) channels_small) as [Hsmall Hsmall'].
  assert (forall d k c, element src_channels 0 n d k c ->
    block_address sz src_channels (map col_ptr_ (step_columns sz m srcs)) d k c = src d (m + k) c) as Hsrc
    by (intros d k c [Hd _]; by apply step_block).
  assert (forall d k c, element dst_channels 0 n d k c ->
    block_address sz dst_channels (map col_ptr_ (step_columns sz m dsts)) d k c = dst d (m + k) c) as Hdst
    by (intros d k c [Hd _]; by apply step_block).
  pose proof (element_shift src_channels m n) as Hss. pose proof (element_shift dst_channels m n) as Hds.
  pose proof (element_less src_channels m (m + n)) as Hsl. pose proof (element_less dst_channels m (m + n)) as Hdl.
  assert (assigned dst_channels dst (fun d k c => value d c (fun s e => mem (src s k e))) 0 m mem (p (srcs ++ dsts) mem)) as Ha1.
  { apply Hp; [done|done| |].
    - split.
      + intros d k c d' k' c' He He'. apply Hinj; (apply Hdl; [lia|done]).
      + intros s k e d k' c He He'. apply Hdisj; [apply Hsl; [lia|done]|apply Hdl; [lia|done]].
    - intros s k e He. apply Hvalid, Hsl; [lia|done]. }
  set (mem1 := p (srcs ++ dsts) mem) in *.
  assert (forall s k e, element src_channels 0 (m + n) s k e -> mem1 (src s k e) = mem (src s k e)) as Hkept.
  { intros s k e He. apply Ha1. intros d k' c He'. apply Hdisj; [done|apply Hdl; [lia|done]]. }
  replace (step_columns sz m (srcs ++ dsts)) with (step_columns sz m srcs ++ step_columns sz m dsts) by (by unfold step_columns; rewrite map_app).
  destruct (Hq (step_columns sz m srcs) (step_columns sz m dsts) mem1) as [H1 H2]; [by rewrite step_channels|by rewrite step_channels| | |].
  - split.
    + intros d k c d' k' c' He He'. rewrite !Hdst by done. intros Heq.
      destruct (Hinj d (m + k) c d' (m + k') c') as (? & ? & ?); [apply Hds; done|apply Hds; done|done|]. split_and!; done || lia.
    + intros s k e d k' c He He'. rewrite Hsrc, Hdst by done. apply Hdisj; [by apply Hss|by apply Hds].
  - intros s k e He. rewrite Hsrc by done. rewrite Hkept by (by apply Hss). apply Hvalid. by apply Hss.
  - apply (assigned_join _ _ _ 0 m (m + n) mem mem1); [lia| |done|].
    + intros d k c d' k' c' He He' Heq. by destruct (Hinj _ _ _ _ _ _ He He' Heq) as (_ & ? & _).
    + split.
      * intros d k c (Hd & Hk & Hc). assert (element dst_channels 0 n d (k - m) c) as He by (split_and!; try done; lia).
        replace k with (m + (k - m)) by lia. rewrite <- Hdst, H1 by done. apply value_local; [done|done|]. intros s e Hs He'.
        assert (element src_channels 0 n s (k - m) e) as Hse by (split_and!; try done; lia).
        rewrite Hsrc by done. by apply Hkept, Hss.
      * intros a Ha. apply H2. intros d k c He. rewrite Hdst by done. destruct He as (? & ? & ?). apply Ha. split_and!; try done; lia.
Qed.

Lemma pointers_twice path : 0 <= VectorMemory.num_lanes sz -> computes (VectorMemory.num_lanes sz) (pointers_path path) ->
  computes (2 * VectorMemory.num_lanes sz) (pointers_path_2x sz path).
Proof.
  intros Hl Hp. replace (2 * VectorMemory.num_lanes sz) with (VectorMemory.num_lanes sz + VectorMemory.num_lanes sz) by lia.
  by apply (computes_join _ _ (pointers_path path) (pointers_path path)).
Qed.
End twice.

(** ** Adapters *)

Section laws.
Context (sz : Z).
Hypothesis size_ok : element_size sz.
Local Abbreviation lanes := (VectorMemory.num_lanes sz).

(** Values of unsigned elements of [sz] bytes. *)
Definition unsigned_element (x : Z) : Prop := 0 <= x < 2 ^ (8 * sz).

Lemma upd_filled dst i v mem : filled sz dst i (i + 1) v mem (upd mem (dst + i * sz) (v i)).
Proof.
  split; [|intros p Hp; apply upd_other, Hp; lia]. intros k Hk. assert (k = i) as -> by lia. apply upd_same.
Qed.

Lemma stores_holds_filled value dst r mem : holds sz value r -> (forall k, 0 <= k < lanes -> unsigned_element (value k)) ->
  filled sz dst 0 lanes value mem (stores sz dst [r] mem).
Proof. intros Hr Hv. by apply store_filled. Qed.

Section vectors.
Context (sources : nat) (ch : Z) (value : nat -> Z -> (nat -> Z -> Z) -> Z) (vector_path : list (list Z) -> Z -> (Z -> Z) -> Z -> Z).
Hypothesis ch_pos : 0 < ch < 2 ^ 32.
Hypothesis value_local : forall c g h, 0 <= c < ch -> (forall s, (s < sources)%nat -> g s 0 = h s 0) -> value 0%nat c g = value 0%nat c h.
Hypothesis path_law : forall (g : nat -> Z -> Z) regs dst mem, length regs = sources ->
  (forall s, (s < sources)%nat -> holds sz (g s) (regs !!! s)) ->
  (forall s k, (s < sources)%nat -> 0 <= k < lanes -> unsigned_element (g s k)) ->
  filled sz dst 0 (lanes * ch) (fun m => value 0%nat (m mod ch) (fun s _ => g s (m / ch))) mem (vector_path regs dst mem).
Local Abbreviation srcs_ch := (replicate sources 1).
Local Abbreviation computes := (computes sz srcs_ch [ch] value unsigned_element).

Lemma source_element n s k : (s < sources)%nat -> 0 <= k < n -> element srcs_ch 0 n s k 0.
Proof. intros Hs Hk. split; [by rewrite length_replicate|]. split; [lia|]. rewrite lookup_total_replicate_2; lia. Qed.

Lemma source_address ptrs s k : (s < sources)%nat -> block_address sz srcs_ch ptrs s k 0 = ptrs !!! s + k * sz.
Proof. intros Hs. unfold block_address. rewrite lookup_total_replicate_2 by done. lia. Qed.

Lemma destination_split m : 0 <= m -> 0 <= m mod ch < ch /\ 0 <= m / ch.
Proof. intros Hm. pose proof (Z.mod_pos_bound m ch ltac:(lia)). split; [lia|apply Z.div_pos; lia]. Qed.

(** The vectors that start [k0] pixels from the columns. *)
Lemma vectors_law n k0 srcs dst mem0 mem d : 0 <= k0 -> k0 + lanes <= n -> map col_channels_ srcs = srcs_ch ->
  (forall s k, (s < sources)%nat -> 0 <= k < n -> unsigned_element (mem0 (map col_ptr_ srcs !!! s + k * sz))) ->
  (forall s k, (s < sources)%nat -> 0 <= k < n -> mem (map col_ptr_ srcs !!! s + k * sz) = mem0 (map col_ptr_ srcs !!! s + k * sz)) ->
  filled sz dst 0 (lanes * ch) (fun m => value 0%nat (m mod ch) (fun s _ => mem0 (map col_ptr_ srcs !!! s + (k0 + m / ch) * sz))) d
    (vector_path (map (fun src => load sz mem (col_ptr_ src + k0 * sz)) srcs) dst d).
Proof.
  intros Hk0 Hn Hch Hv Hm. assert (length srcs = sources) as Hl by (by rewrite <- (length_map col_channels_), Hch, length_replicate).
  eapply filled_ext; [|apply (path_law (fun s k => mem0 (map col_ptr_ srcs !!! s + (k0 + k) * sz)))].
  - done.
  - by rewrite length_map.
  - intros s Hs. destruct (lookup_lt_is_Some_2 srcs s ltac:(lia)) as [col Hcol].
    rewrite (list_lookup_total_correct (map _ srcs) s (load sz mem (col_ptr_ col + k0 * sz))) by (by rewrite list_lookup_fmap, Hcol).
    eapply holds_ext; [|apply load_holds]. intros k Hk. cbv beta. rewrite <- Hm by lia.
    rewrite (list_lookup_total_correct (map col_ptr_ srcs) s (col_ptr_ col)) by (by rewrite list_lookup_fmap, Hcol). f_equal. lia.
  - intros s k Hs Hk. apply Hv; lia.
Qed.

Lemma single_destination n srcs dst mem mem' : map col_channels_ srcs = srcs_ch ->
  block_separate sz srcs_ch [ch] n (map col_ptr_ srcs) [dst] ->
  filled sz dst 0 (n * ch) (fun m => value 0%nat (m mod ch) (fun s _ => mem (map col_ptr_ srcs !!! s + m / ch * sz))) mem mem' ->
  assigned [ch] (block_address sz [ch] [dst])
    (fun d k c => value d c (fun s e => mem (block_address sz srcs_ch (map col_ptr_ srcs) s k e))) 0 n mem mem'.
Proof.
  intros Hch [Hinj _] Hf. apply (filled_all_assigned sz n [ch] [dst]
    (fun _ m => value 0%nat (m mod ch) (fun s _ => mem (map col_ptr_ srcs !!! s + m / ch * sz)))); [done|repeat constructor; lia|exact Hinj| |].
  - intros d k c (Hd & Hk & Hc). cbn in Hd. assert (d = 0%nat) as -> by lia. cbn [lookup_total list_lookup_total] in *.
    rewrite Z.add_comm, Z.mod_add, Z.mod_small, Z.div_add, Z.div_small by lia.
    apply value_local; [done|]. intros s Hs. by rewrite source_address.
  - cbn [filled_all]. by eexists.
Qed.

Lemma last_column srcs dsts : map col_channels_ dsts = [ch] -> exists dst, dsts = [dst] /\ col_channels_ dst = ch /\
  removelast (srcs ++ dsts) = srcs /\ List.last (srcs ++ dsts) no_column = dst.
Proof.
  destruct dsts as [|dst [|? ?]]; intros [=]. exists dst. by rewrite removelast_last, last_last.
Qed.

Lemma vectors_path_law : computes lanes (vectors_path sz vector_path).
Proof.
  intros srcs dsts mem Hsc Hdc src dst Hsep Hv. destruct (last_column srcs dsts Hdc) as (d & -> & Hd & Hrm & Hlast).
  unfold vectors_path. cbv zeta. rewrite Hrm, Hlast. apply single_destination; [done|done|].
  replace (map (fun src => load sz mem (col_ptr_ src)) srcs) with (map (fun src => load sz mem (col_ptr_ src + 0 * sz)) srcs)
    by (apply map_ext; intros c; by rewrite Z.mul_0_l, Z.add_0_r).
  apply (vectors_law lanes 0 srcs (col_ptr_ d) mem mem mem); [lia|lia|done| |done].
  intros s k Hs Hk. rewrite <- source_address by done. by apply Hv, source_element.
Qed.

Lemma vectors_path_2x_law : computes (2 * lanes) (vectors_path_2x sz vector_path).
Proof.
  intros srcs dsts mem Hsc Hdc src dst Hsep Hv. destruct (last_column srcs dsts Hdc) as (d & -> & Hd & Hrm & Hlast).
  pose proof (num_lanes_pos sz size_ok) as Hlanes. pose proof (element_size_pos sz size_ok) as Hsz.
  assert (forall s k, (s < sources)%nat -> 0 <= k < 2 * lanes -> unsigned_element (mem (map col_ptr_ srcs !!! s + k * sz))) as Hval.
  { intros s k Hs Hk. rewrite <- source_address by done. by apply Hv, source_element. }
  unfold vectors_path_2x. cbv zeta. rewrite Hrm, Hlast. apply single_destination; [done|done|].
  replace (map (fun src => load sz mem (col_ptr_ src)) srcs) with (map (fun src => load sz mem (col_ptr_ src + 0 * sz)) srcs)
    by (apply map_ext; intros c; by rewrite Z.mul_0_l, Z.add_0_r).
  pose proof (vectors_law (2 * lanes) 0 srcs (col_ptr_ d) mem mem mem ltac:(lia) ltac:(lia) Hsc Hval ltac:(done)) as H1.
  set (mem1 := vector_path (map _ srcs) (col_ptr_ d) mem) in *.
  assert (col_ptr_ (columns_at sz d lanes) = col_ptr_ d + (lanes * ch) * sz) as ->.
  { unfold columns_at. cbn [col_ptr_]. rewrite Hd, to_ptrdiff_small by lia. lia. }
  pose proof (vectors_law (2 * lanes) lanes srcs (col_ptr_ d + lanes * ch * sz) mem mem mem1 ltac:(lia) ltac:(lia) Hsc Hval ltac:(done)) as H2.
  eapply (filled_extend sz Hsz (col_ptr_ d) 0 (lanes * ch) (lanes * ch) (lanes * ch) 0 (2 * lanes * ch)
    (fun m => value 0%nat (m mod ch) (fun s _ => mem (map col_ptr_ srcs !!! s + m / ch * sz))) _ mem mem1); [nia| |exact H1|exact H2].
  intros m Hm. cbv beta. symmetry. rewrite (Z.add_comm (lanes * ch)), Z.mod_add, Z.div_add by lia.
  apply value_local; [apply destination_split; lia|]. intros s Hs. do 3 f_equal. lia.
Qed.
End vectors.

Section groups.
Context (N : Z) (vector_path : list (list Z) -> list (list Z)).
Hypothesis N_pos : 0 < N < 2 ^ 32.
Hypothesis path_law : forall x regs, length regs = Z.to_nat N ->
  (forall i, 0 <= i < N -> holds sz (fun k => x (i * lanes + k)) (regs !!! Z.to_nat i)) ->
  length (vector_path regs) = Z.to_nat N /\
  forall d, (d < Z.to_nat N)%nat -> holds sz (fun k => x (k * N + Z.of_nat d)) (vector_path regs !!! d).
Local Abbreviation dsts_ch := (replicate (Z.to_nat N) 1).
Local Abbreviation computes := (computes sz [N] dsts_ch (fun d _ get => get 0%nat (Z.of_nat d)) unsigned_element).

Lemma named_bytes_app a b h : 0 <= a -> 0 <= b ->
  named_bytes sz (a + b) h = named_bytes sz a h ++ named_bytes sz b (fun m => h (a + m)).
Proof.
  intros Ha Hb. unfold named_bytes. rewrite seqZ_app, flat_map_app by done. f_equal.
  rewrite (flat_map_concat_map _ (seqZ (0 + a) b)), (flat_map_concat_map _ (seqZ 0 b)). f_equal.
  replace (0 + a) with (a + 0) by lia. rewrite <- fmap_add_seqZ, <- list_fmap_compose. done.
Qed.

Lemma store_each_filled n ptrs rs v mem : length rs = length ptrs ->
  (forall d mem, (d < length ptrs)%nat -> filled sz (ptrs !!! d) 0 n (v d) mem (stores sz (ptrs !!! d) (rs !!! d) mem)) ->
  filled_all sz n (replicate (length ptrs) 1) ptrs v mem (store_each sz (zip ptrs rs) mem).
Proof.
  revert rs v mem. induction ptrs as [|ptr ptrs IH]; intros [|r rs] v mem Hl Hf; try done.
  exists (stores sz ptr r mem). rewrite Z.mul_1_r. split; [apply (Hf 0%nat); cbn; lia|].
  apply (IH rs (fun d => v (S d))); [by injection Hl|]. intros d mem' Hd. apply (Hf (S d)). cbn. lia.
Qed.

Lemma group_loaded mem src i : 0 <= i < N -> holds sz (fun k => mem (src + (i * lanes + k) * sz)) (loads sz N mem src !!! Z.to_nat i).
Proof.
  intros Hi. rewrite (list_lookup_total_correct _ _ (load sz mem (src + i * lanes * sz))).
  - eapply holds_ext; [|apply load_holds]. intros k Hk. cbv beta. f_equal. lia.
  - unfold loads. rewrite list_lookup_fmap, lookup_seqZ_lt by lia. cbn. rewrite Z2Nat.id by lia. do 3 f_equal.
Qed.

(** What the vectors of a group that is loaded [k0] pixels from [src] hold. *)
Lemma group_law mem src k0 : 
  length (vector_path (loads sz N mem (src + k0 * N * sz))) = Z.to_nat N /\
  forall d, (d < Z.to_nat N)%nat ->
    holds sz (fun k => mem (src + ((k0 + k) * N + Z.of_nat d) * sz)) (vector_path (loads sz N mem (src + k0 * N * sz)) !!! d).
Proof.
  destruct (path_law (fun m => mem (src + k0 * N * sz + m * sz)) (loads sz N mem (src + k0 * N * sz))) as [Hl Hh].
  - unfold loads. by rewrite length_map, length_seqZ.
  - intros i Hi. by apply group_loaded.
  - split; [done|]. intros d Hd. eapply holds_ext; [|by apply Hh]. intros k Hk. cbv beta. f_equal. lia.
Qed.

Lemma several_destinations n src dsts mem mem' : map col_channels_ dsts = dsts_ch ->
  block_separate sz [N] dsts_ch n [src] (map col_ptr_ dsts) ->
  filled_all sz n dsts_ch (map col_ptr_ dsts) (fun d k => mem (src + (k * N + Z.of_nat d) * sz)) mem mem' ->
  assigned dsts_ch (block_address sz dsts_ch (map col_ptr_ dsts))
    (fun d k c => mem (block_address sz [N] [src] 0%nat k (Z.of_nat d))) 0 n mem mem'.
Proof.
  intros Hch [Hinj _] Hf. eapply (filled_all_assigned sz n dsts_ch (map col_ptr_ dsts) _); [|apply Forall_replicate; lia|exact Hinj| |exact Hf].
  - by rewrite <- Hch, !length_map.
  - intros d k c (Hd & Hk & Hc). rewrite length_replicate in Hd. rewrite lookup_total_replicate_2 in Hc |- * by done.
    unfold block_address. cbn. do 4 f_equal. lia.
Qed.

(** The columns of the source and of the destinations. *)
Lemma first_column srcs dsts : map col_channels_ srcs = [N] -> map col_channels_ dsts = dsts_ch ->
  exists src, srcs = [src] /\ length (map col_ptr_ dsts) = Z.to_nat N.
Proof.
  intros Hs Hd. destruct srcs as [|src [|? ?]]; try done. exists src. split; [done|].
  by rewrite length_map, <- (length_map col_channels_), Hd, length_replicate.
Qed.

Lemma groups_path_law : computes lanes (groups_path sz N vector_path).
Proof.
  intros srcs dsts mem Hsc Hdc src dst Hsep Hv. destruct (first_column srcs dsts Hsc Hdc) as (s & -> & Hl).
  destruct (group_law mem (col_ptr_ s) 0) as [Hlen Hh]. rewrite Z.mul_0_l, Z.add_0_r in Hlen, Hh.
  cbn [app groups_path]. cbv zeta. set (vdst := vector_path _) in *. apply several_destinations; [done|done|].
  rewrite <- Hl. apply store_each_filled; [by rewrite length_map, Hl, Hlen|]. rewrite Hl. intros d mem' Hd.
  rewrite (list_lookup_total_correct (map (fun v => [v]) vdst) d [vdst !!! d])
    by (rewrite list_lookup_fmap, list_lookup_lookup_total_lt by lia; done).
  apply stores_holds_filled; [by apply Hh|]. intros k Hk. specialize (Hv 0%nat k (Z.of_nat d)).
  apply Hv. split; [cbn; lia|]. split; [lia|]. cbn. lia.
Qed.

Lemma groups_path_2x_law : computes (2 * lanes) (groups_path_2x sz N vector_path).
Proof.
  intros srcs dsts mem Hsc Hdc src dst Hsep Hv. destruct (first_column srcs dsts Hsc Hdc) as (s & -> & Hl).
  pose proof (num_lanes_pos sz size_ok) as Hlanes. pose proof (element_size_pos sz size_ok) as Hsz.
  destruct (group_law mem (col_ptr_ s) 0) as [Hlen0 Hh0]. rewrite Z.mul_0_l, Z.add_0_r in Hlen0, Hh0.
  destruct (group_law mem (col_ptr_ s) lanes) as [Hlen1 Hh1].
  cbn [app groups_path_2x]. cbv zeta. set (v0 := vector_path _) in *. set (v1 := vector_path (loads sz N mem (col_ptr_ s + _))) in *.
  apply several_destinations; [done|done|].
  rewrite <- Hl. apply store_each_filled; [rewrite length_zip_with; lia|]. rewrite Hl. intros d mem' Hd.
  rewrite (list_lookup_total_correct (zip_with _ v0 v1) d [v0 !!! d; v1 !!! d])
    by (rewrite lookup_zip_with, !list_lookup_lookup_total_lt by lia; done).
  apply stores_filled; [lia|lia| |].
  - intros k Hk. apply (Hv 0%nat k (Z.of_nat d)). split; [cbn; lia|]. split; [lia|]. cbn. lia.
  - cbn [concat]. rewrite app_nil_r. replace (2 * lanes) with (lanes + lanes) by lia. rewrite named_bytes_app by lia.
    f_equal; [by apply Hh0|]. by apply Hh1.
Qed.
End groups.
End laws.
