(* ===== verification/MergeSplit.v ===== *)
(** * Merge and split

    [conversions/merge_neon.cpp] and [split_neon.cpp]: two to four images of one channel
    against one image of as many channels, for elements of 1, 2, 4 and 8 bytes, in both
    variants of [KLEIDICV_PREFER_INTERLEAVING_LOAD_STORE]. *)

From S2P Require Import Prelude CTypes Utils Rows Loops Elementwise Channels ChannelAdapters VectorMemory Registers.

(** ** Kernels *)

Section kernels.
(** [KLEIDICV_PREFER_INTERLEAVING_LOAD_STORE], and [sizeof(ScalarType)]. *)
Context (interleaving : bool) (sz : Z).
Implicit Types (mem : Z -> Z) (regs : list (list Z)).

Definition Merge2_vector_path regs (dst : Z) mem : Z -> Z :=
  match regs with
  | [src_a; src_b] =>
      if interleaving then vstq sz dst [src_a; src_b] mem
      else stores sz dst [vzip1q sz src_a src_b; vzip2q sz src_a src_b] mem
  | _ => mem
  end.

(** [Merge3::lookup_table] for elements of one and of two bytes. *)
Definition Merge3_lookup_table : list Z :=
  if sz =? 1 then
    [ 0; 16; 32;  1; 17; 33;  2; 18; 34;  3; 19; 35;  4; 20; 36;  5;
     21; 37;  6; 22; 38;  7; 23; 39;  8; 24; 40;  9; 25; 41; 10; 26;
     42; 11; 27; 43; 12; 28; 44; 13; 29; 45; 14; 30; 46; 15; 31; 47]
  else
    [ 0;  1; 16; 17; 32; 33;  2;  3; 18; 19; 34; 35;  4;  5; 20; 21;
     36; 37;  6;  7; 22; 23; 38; 39;  8;  9; 24; 25; 40; 41; 10; 11;
     26; 27; 42; 43; 12; 13; 28; 29; 44; 45; 14; 15; 30; 31; 46; 47].

(** [VecTraits<uint8_t>::load(lookup_table(ScalarType()), table_indices_)]. *)
Definition Merge3_table_indices : list (list Z) := chunks 16 Merge3_lookup_table.

Definition Merge3_generic regs (dst : Z) mem : Z -> Z :=
  match regs with
  | [src_a; src_b; src_c] =>
      if interleaving then vstq sz dst [src_a; src_b; src_c] mem
      else
        let src_vect := [src_a; src_b; src_c] in
        let dst_vect := map (vqtblq_u8 src_vect) Merge3_table_indices in
        stores sz dst dst_vect mem
  | _ => mem
  end.

(** [Merge3<uint32_t>]. *)
Definition Merge3_u32 regs (dst : Z) mem : Z -> Z :=
  match regs with
  | [src_a; src_b; src_c] =>
      let w := vtrn2q 4 src_a src_b in
      let x := vtrn1q 4 src_c w in
      let y := vtrn2q 4 w src_c in
      let z := vtrn1q 4 src_a src_b in
      let dst_vect_0 := vzip1q 8 z x in
      let dst_vect_1 := set_lane 8 y 1 z 1 in
      let dst_vect_2 := vzip2q 8 x y in
      let mem := stores sz (dst + 0 * num_lanes sz * sz) [dst_vect_0] mem in
      let mem := stores sz (dst + 1 * num_lanes sz * sz) [dst_vect_1] mem in
      stores sz (dst + 2 * num_lanes sz * sz) [dst_vect_2] mem
  | _ => mem
  end.

(** [Merge3<uint64_t>]. *)
Definition Merge3_u64 regs (dst : Z) mem : Z -> Z :=
  match regs with
  | [src_a; src_b; src_c] =>
      let dst_vect_1 := set_lane 8 src_c 1 src_a 1 in
      stores sz dst [vzip1q 8 src_a src_b; dst_vect_1; vzip2q 8 src_b src_c] mem
  | _ => mem
  end.

Definition Merge3_vector_path : list (list Z) -> Z -> (Z -> Z) -> Z -> Z :=
  if interleaving then Merge3_generic
  else if sz =? 4 then Merge3_u32 else if sz =? 8 then Merge3_u64 else Merge3_generic.

Definition Merge4_generic regs (dst : Z) mem : Z -> Z :=
  match regs with
  | [src_a; src_b; src_c; src_d] =>
      if interleaving then vstq sz dst [src_a; src_b; src_c; src_d] mem
      else
        let zip1_a_b := vzip1q sz src_a src_b in
        let zip1_c_d := vzip1q sz src_c src_d in
        let zip2_a_b := vzip2q sz src_a src_b in
        let zip2_c_d := vzip2q sz src_c src_d in
        let double := 2 * sz in
        stores sz dst [vzip1q double zip1_a_b zip1_c_d; vzip2q double zip1_a_b zip1_c_d;
                       vzip1q double zip2_a_b zip2_c_d; vzip2q double zip2_a_b zip2_c_d] mem
  | _ => mem
  end.

(** [Merge4<uint64_t>]. *)
Definition Merge4_u64 regs (dst : Z) mem : Z -> Z :=
  match regs with
  | [src_a; src_b; src_c; src_d] =>
      stores sz dst [vzip1q 8 src_a src_b; vzip1q 8 src_c src_d; vzip2q 8 src_a src_b; vzip2q 8 src_c src_d] mem
  | _ => mem
  end.

Definition Merge4_vector_path : list (list Z) -> Z -> (Z -> Z) -> Z -> Z :=
  if interleaving then Merge4_generic else if sz =? 8 then Merge4_u64 else Merge4_generic.

(** [dst[c] = src_c[0]] for each source, the scalar paths of [Merge2] to [Merge4]. *)
Definition Merge_scalar_path (ptrs : list Z) mem : Z -> Z :=
  let srcs := removelast ptrs in
  let dst := List.last ptrs 0 in
  foldl (fun mem '(c, src) => upd mem (dst + c * sz) (mem src)) mem (zip (seqZ 0 (Z.of_nat (length srcs))) srcs).

(** [UnrollTwice] on vectors with a destination pointer. *)
Definition Merge (vector_path : list (list Z) -> Z -> (Z -> Z) -> Z -> Z) : ChannelOperation := {|
  Channels.num_lanes := num_lanes sz; is_unrolled_twice := true; is_unrolled_once := false; tries_to_avoid_tail_loop := false;
  vector_path_2x := vectors_path_2x sz vector_path; vector_path := vectors_path sz vector_path;
  scalar_path := pointers_path Merge_scalar_path |}.

Definition Split2_vector_path regs : list (list Z) :=
  match regs with [v_0; v_1] => [vuzp1q sz v_0 v_1; vuzp2q sz v_0 v_1] | _ => [] end.

(** [Split3::Split3Init]. *)
Definition Split3_indices : list (list Z) :=
  if sz =? 1 then
    [[0; 3; 6; 9;  12; 15; 18; 21; 24; 27; 30; 33; 36; 39; 42; 45];
     [1; 4; 7; 10; 13; 16; 19; 22; 25; 28; 31; 34; 37; 40; 43; 46];
     [2; 5; 8; 11; 14; 17; 20; 23; 26; 29; 32; 35; 38; 41; 44; 47]]
  else if sz =? 2 then
    [[0; 1; 6;  7;  12; 13; 18; 19; 24; 25; 30; 31; 36; 37; 42; 43];
     [2; 3; 8;  9;  14; 15; 20; 21; 26; 27; 32; 33; 38; 39; 44; 45];
     [4; 5; 10; 11; 16; 17; 22; 23; 28; 29; 34; 35; 40; 41; 46; 47]]
  else if sz =? 4 then
    [[0; 1; 2;  3;  12; 13; 14; 15; 24; 25; 26; 27; 36; 37; 38; 39];
     [4; 5; 6;  7;  16; 17; 18; 19; 28; 29; 30; 31; 40; 41; 42; 43];
     [8; 9; 10; 11; 20; 21; 22; 23; 32; 33; 34; 35; 44; 45; 46; 47]]
  else
    [[0;  1;  2;  3;  4;  5;  6;  7;  24; 25; 26; 27; 28; 29; 30; 31];
     [8;  9;  10; 11; 12; 13; 14; 15; 32; 33; 34; 35; 36; 37; 38; 39];
     [16; 17; 18; 19; 20; 21; 22; 23; 40; 41; 42; 43; 44; 45; 46; 47]].

Definition Split3_vector_path regs : list (list Z) := map (vqtblq_u8 regs) Split3_indices.

Definition Split4_vector_path regs : list (list Z) :=
  match regs with
  | [v_0; v_1; v_2; v_3] =>
      if sz =? 8 then [vuzp1q 8 v_0 v_2; vuzp2q 8 v_0 v_2; vuzp1q 8 v_1 v_3; vuzp2q 8 v_1 v_3]
      else
        let double := 2 * sz in
        let halfway_unzipped_1 := vuzp1q double v_0 v_1 in
        let halfway_unzipped_2 := vuzp1q double v_2 v_3 in
        let dst0 := vuzp1q sz halfway_unzipped_1 halfway_unzipped_2 in
        let dst1 := vuzp2q sz halfway_unzipped_1 halfway_unzipped_2 in
        let halfway_unzipped_1 := vuzp2q double v_0 v_1 in
        let halfway_unzipped_2 := vuzp2q double v_2 v_3 in
        [dst0; dst1; vuzp1q sz halfway_unzipped_1 halfway_unzipped_2; vuzp2q sz halfway_unzipped_1 halfway_unzipped_2]
  | _ => []
  end.

(** The vector paths with interleaving loads: [vld<N>q], then a store per channel. *)
Definition Split_interleaved (N : Z) (ptrs : list Z) mem : Z -> Z :=
  match ptrs with
  | [] => mem
  | src :: dsts => store_each sz (zip dsts (map (fun v => [v]) (vldq sz N mem src))) mem
  end.

(** [dst_c[0] = src[c]] for each destination. *)
Definition Split_scalar_path (ptrs : list Z) mem : Z -> Z :=
  match ptrs with
  | [] => mem
  | src :: dsts =>
      foldl (fun mem '(c, dst) => upd mem dst (mem (src + c * sz))) mem (zip (seqZ 0 (Z.of_nat (length dsts))) dsts)
  end.

Definition Split (N : Z) (vector_path : list (list Z) -> list (list Z)) : ChannelOperation := {|
  Channels.num_lanes := num_lanes sz; is_unrolled_twice := true; is_unrolled_once := false; tries_to_avoid_tail_loop := false;
  vector_path_2x := if interleaving then pointers_path_2x sz (Split_interleaved N) else groups_path_2x sz N vector_path;
  Channels.vector_path := if interleaving then pointers_path (Split_interleaved N) else groups_path sz N vector_path;
  scalar_path := pointers_path Split_scalar_path |}.

(** The operation of each channel count. *)
Definition merge_operation (channels : Z) : ChannelOperation :=
  Merge (if channels =? 2 then Merge2_vector_path else if channels =? 3 then Merge3_vector_path else Merge4_vector_path).
Definition split_operation (channels : Z) : ChannelOperation :=
  Split channels (if channels =? 2 then Split2_vector_path else if channels =? 3 then Split3_vector_path else Split4_vector_path).

(** ** Calls *)

(** [merge<ScalarType>] and [split<ScalarType>]; [arrays_ok] says that neither the array of
    the pointers nor that of the strides is null. *)
Definition merge_type (arrays_ok : bool) (srcs : list (Z * Z)) (dst : Z * Z) (width height channels : Z) mem
    : kleidicv_error_t * (Z -> Z) :=
  let src i := nth i srcs (0, 0) in
  if channels <? 2 then (KLEIDICV_ERROR_RANGE, mem)
  else if negb arrays_ok then (KLEIDICV_ERROR_NULL_POINTER, mem)
  else
    match check_pointer_alignment sz (src 0%nat).1 ?> check_pointer_alignment sz (src 1%nat).1 ?>
          check_pointer_alignment sz dst.1 ?>
          check_pointer_and_stride sz (src 0%nat).1 (src 0%nat).2 height ?>
          check_pointer_and_stride sz (src 1%nat).1 (src 1%nat).2 height ?>
          check_pointer_and_stride sz dst.1 dst.2 height ?> check_image_size width height with
    | KLEIDICV_OK =>
        let rect := {| width_ := width; height_ := height |} in
        let apply N := apply_operation_by_rows (merge_operation N) sz rect
          (map (fun i => image_rows sz (src i) 1) (seq 0 (Z.to_nat N)) ++ [image_rows sz dst channels]) mem in
        if channels =? 2 then (KLEIDICV_OK, apply 2)
        else if channels =? 3 then
          match check_pointer_alignment sz (src 2%nat).1 ?> check_pointer_and_stride sz (src 2%nat).1 (src 2%nat).2 height with
          | KLEIDICV_OK => (KLEIDICV_OK, apply 3)
          | error => (error, mem)
          end
        else if channels =? 4 then
          match check_pointer_alignment sz (src 2%nat).1 ?> check_pointer_alignment sz (src 3%nat).1 ?>
                check_pointer_and_stride sz (src 2%nat).1 (src 2%nat).2 height ?>
                check_pointer_and_stride sz (src 3%nat).1 (src 3%nat).2 height with
          | KLEIDICV_OK => (KLEIDICV_OK, apply 4)
          | error => (error, mem)
          end
        else (KLEIDICV_ERROR_NOT_IMPLEMENTED, mem)
    | error => (error, mem)
    end.

Definition split_type (arrays_ok : bool) (src : Z * Z) (dsts : list (Z * Z)) (width height channels : Z) mem
    : kleidicv_error_t * (Z -> Z) :=
  let dst i := nth i dsts (0, 0) in
  if channels <? 2 then (KLEIDICV_ERROR_RANGE, mem)
  else if negb arrays_ok then (KLEIDICV_ERROR_NULL_POINTER, mem)
  else
    match check_pointer_alignment sz src.1 ?> check_pointer_alignment sz (dst 0%nat).1 ?>
          check_pointer_alignment sz (dst 1%nat).1 ?>
          check_pointer_and_stride sz src.1 src.2 height ?>
          check_pointer_and_stride sz (dst 0%nat).1 (dst 0%nat).2 height ?>
          check_pointer_and_stride sz (dst 1%nat).1 (dst 1%nat).2 height ?> check_image_size width height with
    | KLEIDICV_OK =>
        let rect := {| width_ := width; height_ := height |} in
        let apply N := apply_operation_by_rows (split_operation N) sz rect
          (image_rows sz src channels :: map (fun i => image_rows sz (dst i) 1) (seq 0 (Z.to_nat N))) mem in
        if channels =? 2 then (KLEIDICV_OK, apply 2)
        else if channels =? 3 then
          match check_pointer_alignment sz (dst 2%nat).1 ?> check_pointer_and_stride sz (dst 2%nat).1 (dst 2%nat).2 height with
          | KLEIDICV_OK => (KLEIDICV_OK, apply 3)
          | error => (error, mem)
          end
        else if channels =? 4 then
          match check_pointer_alignment sz (dst 2%nat).1 ?> check_pointer_alignment sz (dst 3%nat).1 ?>
                check_pointer_and_stride sz (dst 2%nat).1 (dst 2%nat).2 height ?>
                check_pointer_and_stride sz (dst 3%nat).1 (dst 3%nat).2 height with
          | KLEIDICV_OK => (KLEIDICV_OK, apply 4)
          | error => (error, mem)
          end
        else (KLEIDICV_ERROR_NOT_IMPLEMENTED, mem)
    | error => (error, mem)
    end.
End kernels.

(** The dispatch on [element_size]. *)
Definition merge (interleaving arrays_ok : bool) (srcs : list (Z * Z)) (dst : Z * Z)
    (width height channels element_size : Z) (mem : Z -> Z) : kleidicv_error_t * (Z -> Z) :=
  if existsb (Z.eqb element_size) [1; 2; 4; 8]
  then merge_type interleaving element_size arrays_ok srcs dst width height channels mem
  else (KLEIDICV_ERROR_NOT_IMPLEMENTED, mem).
Definition split (interleaving arrays_ok : bool) (src : Z * Z) (dsts : list (Z * Z))
    (width height channels element_size : Z) (mem : Z -> Z) : kleidicv_error_t * (Z -> Z) :=
  if existsb (Z.eqb element_size) [1; 2; 4; 8]
  then split_type interleaving element_size arrays_ok src dsts width height channels mem
  else (KLEIDICV_ERROR_NOT_IMPLEMENTED, mem).

(** ** Bytes

    The shuffles, on registers with a name for every byte: element [k] of source [s] has the
    bytes [b s k]. *)

Section bytes.
Context (sz : Z) (b : nat -> Z -> Z -> Z).
Hypothesis size_ok : element_size sz.
Local Abbreviation lanes := (num_lanes sz).
Local Abbreviation R s := (named_bytes sz lanes (b s)).
Local Abbreviation merged N := (named_bytes sz (N * lanes) (fun m => b (Z.to_nat (m mod N)) (m / N))).

Lemma merge2_bytes : concat [vzip1q sz (R 0%nat) (R 1%nat); vzip2q sz (R 0%nat) (R 1%nat)] = merged 2.
Proof. destruct size_ok as [-> |[-> |[-> | ->]]]; vm_compute; reflexivity. Qed.

Lemma merge3_table_bytes : sz = 1 \/ sz = 2 ->
  concat (map (vqtblq_u8 [R 0%nat; R 1%nat; R 2%nat]) (Merge3_table_indices sz)) = merged 3.
Proof. clear size_ok. intros [-> | ->]; vm_compute; reflexivity. Qed.

Lemma merge3_u64_bytes : sz = 8 ->
  concat [vzip1q 8 (R 0%nat) (R 1%nat); set_lane 8 (R 2%nat) 1 (R 0%nat) 1; vzip2q 8 (R 1%nat) (R 2%nat)] = merged 3.
Proof. clear size_ok. intros ->. vm_compute. reflexivity. Qed.

Lemma merge3_u32_bytes : sz = 4 ->
  let w := vtrn2q 4 (R 0%nat) (R 1%nat) in
  let x := vtrn1q 4 (R 2%nat) w in
  let y := vtrn2q 4 w (R 2%nat) in
  let z := vtrn1q 4 (R 0%nat) (R 1%nat) in
  let m i := named_bytes sz lanes (fun k => b (Z.to_nat ((i * 4 + k) mod 3)) ((i * 4 + k) / 3)) in
  vzip1q 8 z x = m 0 /\ set_lane 8 y 1 z 1 = m 1 /\ vzip2q 8 x y = m 2.
Proof. clear size_ok. intros ->. vm_compute. repeat split. Qed.

Lemma merge4_bytes : sz <> 8 ->
  concat [vzip1q (2 * sz) (vzip1q sz (R 0%nat) (R 1%nat)) (vzip1q sz (R 2%nat) (R 3%nat));
          vzip2q (2 * sz) (vzip1q sz (R 0%nat) (R 1%nat)) (vzip1q sz (R 2%nat) (R 3%nat));
          vzip1q (2 * sz) (vzip2q sz (R 0%nat) (R 1%nat)) (vzip2q sz (R 2%nat) (R 3%nat));
          vzip2q (2 * sz) (vzip2q sz (R 0%nat) (R 1%nat)) (vzip2q sz (R 2%nat) (R 3%nat))] = merged 4.
Proof. intros Hne. destruct size_ok as [-> |[-> |[-> | ->]]]; [..|done]; vm_compute; reflexivity. Qed.

Lemma merge4_u64_bytes : sz = 8 ->
  concat [vzip1q 8 (R 0%nat) (R 1%nat); vzip1q 8 (R 2%nat) (R 3%nat); vzip2q 8 (R 0%nat) (R 1%nat); vzip2q 8 (R 2%nat) (R 3%nat)] = merged 4.
Proof. clear size_ok. intros ->. vm_compute. reflexivity. Qed.

(** For [split], element [m] of the source has the bytes [b 0 m]. *)
Local Abbreviation group i := (named_bytes sz lanes (fun k => b 0%nat (i * lanes + k))).
Local Abbreviation channel N c := (named_bytes sz lanes (fun k => b 0%nat (k * N + c))).

Lemma split2_bytes : Split2_vector_path sz [group 0; group 1] = [channel 2 0; channel 2 1].
Proof. destruct size_ok as [-> |[-> |[-> | ->]]]; vm_compute; reflexivity. Qed.

Lemma split3_bytes : Split3_vector_path sz [group 0; group 1; group 2] = [channel 3 0; channel 3 1; channel 3 2].
Proof. destruct size_ok as [-> |[-> |[-> | ->]]]; vm_compute; reflexivity. Qed.

Lemma split4_bytes :
  Split4_vector_path sz [group 0; group 1; group 2; group 3] = [channel 4 0; channel 4 1; channel 4 2; channel 4 3].
Proof. destruct size_ok as [-> |[-> |[-> | ->]]]; vm_compute; reflexivity. Qed.
End bytes.

(** ** Laws *)

Section laws.
Context (interleaving : bool) (sz : Z).
Hypothesis size_ok : element_size sz.
Local Abbreviation lanes := (num_lanes sz).

(** The registers of [N] sources, whose elements [g] gives. *)
Definition sources_hold (N : nat) (g : nat -> Z -> Z) (regs : list (list Z)) : Prop :=
  length regs = N /\ (forall s, (s < N)%nat -> holds sz (g s) (regs !!! s)) /\
  (forall s k, (s < N)%nat -> 0 <= k < lanes -> unsigned_element sz (g s k)).

(** Element [m] of the merged pixels. *)
Definition merged_element (N : Z) (g : nat -> Z -> Z) (m : Z) : Z := g (Z.to_nat (m mod N)) (m / N).

Lemma merged_unsigned N g regs m : 0 < N -> sources_hold (Z.to_nat N) g regs -> 0 <= m < N * lanes ->
  0 <= merged_element N g m < 2 ^ (8 * sz).
Proof.
  intros HN (_ & _ & Hv) Hm. pose proof (Z.mod_pos_bound m N ltac:(lia)).
  apply Hv; [lia|]. split; [apply Z.div_pos; lia|apply Z.div_lt_upper_bound; lia].
Qed.

Lemma merged_stores N g regs out dst mem : 0 < N -> sources_hold (Z.to_nat N) g regs ->
  concat out = named_bytes sz (N * lanes) (fun m => byte_of (g (Z.to_nat (m mod N))) (m / N)) ->
  filled sz dst 0 (lanes * N) (merged_element N g) mem (stores sz dst out mem).
Proof.
  intros HN Hr Hout. pose proof (num_lanes_pos sz size_ok). pose proof (element_size_pos sz size_ok). rewrite Z.mul_comm.
  apply stores_filled; [lia|lia| |done]. intros k Hk. by eapply merged_unsigned.
Qed.

Lemma merged_interleaved N g regs dst mem : 0 < N -> sources_hold (Z.to_nat N) g regs ->
  filled sz dst 0 (lanes * N) (merged_element N g) mem (vstq sz dst regs mem).
Proof.
  intros HN (Hl & Hr & Hv). pose proof (vstq_filled sz (fun c => g (Z.to_nat c)) dst regs mem size_ok) as Hf.
  assert (Z.of_nat (length regs) = N) as HlN by lia. rewrite HlN in Hf. rewrite Z.mul_comm. apply Hf.
  - intros c Hc. apply Hr. lia.
  - intros c k Hc Hk. apply Hv; lia.
Qed.

(** The registers by name. *)
Local Abbreviation R g s := (named_bytes sz lanes (byte_of (g s))).

Lemma sources_named N g regs : sources_hold N g regs -> regs = map (fun s => R g s) (seq 0 N).
Proof.
  intros (Hl & Hr & _). apply list_eq. intros i. rewrite list_lookup_fmap. destruct (decide (i < N)%nat) as [Hi|Hi].
  - rewrite lookup_seq_lt, list_lookup_lookup_total_lt by lia. cbn. f_equal. by apply Hr.
  - rewrite !lookup_ge_None_2; [done|rewrite length_seq; lia|lia].
Qed.

Lemma merge2_law g regs dst mem : sources_hold 2 g regs ->
  filled sz dst 0 (lanes * 2) (merged_element 2 g) mem (Merge2_vector_path interleaving sz regs dst mem).
Proof.
  intros Hr. pose proof (sources_named 2 g regs Hr) as Hregs. subst regs. cbn [seq map Merge2_vector_path]. destruct interleaving.
  - by apply merged_interleaved.
  - eapply merged_stores; [lia|exact Hr|]. exact (merge2_bytes sz (fun s => byte_of (g s)) size_ok).
Qed.

Lemma merge3_u32_law g regs dst mem : sz = 4 -> sources_hold 3 g regs ->
  filled sz dst 0 (lanes * 3) (merged_element 3 g) mem (Merge3_u32 sz regs dst mem).
Proof.
  intros H4 Hr. pose proof (sources_named 3 g regs Hr) as Hregs. pose proof (element_size_pos sz size_ok) as Hsz.
  assert (lanes = 4) as Hlanes by (by rewrite H4).
  pose proof (merge3_u32_bytes sz (fun s => byte_of (g s)) H4) as Hb. cbv zeta in Hb. destruct Hb as (H0 & H1 & H2).
  assert (forall i mem, 0 <= i < 3 -> filled sz (dst + i * lanes * sz) 0 lanes (fun k => merged_element 3 g (i * 4 + k)) mem
    (stores sz (dst + i * lanes * sz) [named_bytes sz lanes (fun k => byte_of (g (Z.to_nat ((i * 4 + k) mod 3))) ((i * 4 + k) / 3))] mem)) as Hst.
  { intros i mem' Hi. apply stores_filled; [done|lia| |by cbn [concat]; rewrite app_nil_r].
    intros k Hk. eapply (merged_unsigned 3); [lia|exact Hr|lia]. }
  rewrite Hregs. cbn [seq map Merge3_u32]. cbv zeta. rewrite H0, H1, H2.
  eapply (filled_extend sz Hsz dst 0 (2 * lanes) (2 * lanes) lanes 0 (lanes * 3)); [lia| | |apply (Hst 2); lia].
  { intros k Hk. cbv beta. do 2 f_equal. lia. }
  eapply (filled_extend sz Hsz dst 0 lanes (1 * lanes) lanes 0 (2 * lanes)); [lia| | |apply (Hst 1); lia].
  { intros k Hk. cbv beta. do 2 f_equal. lia. }
  specialize (Hst 0 mem ltac:(lia)). rewrite Z.mul_0_l, Z.mul_0_l, Z.add_0_r in Hst. rewrite Z.mul_0_l, Z.mul_0_l, Z.add_0_r. exact Hst.
Qed.

Lemma merge3_law g regs dst mem : sources_hold 3 g regs ->
  filled sz dst 0 (lanes * 3) (merged_element 3 g) mem (Merge3_vector_path interleaving sz regs dst mem).
Proof.
  intros Hr. unfold Merge3_vector_path. destruct interleaving eqn:Hil.
  { pose proof (sources_named 3 g regs Hr) as Hregs. subst regs. cbn [seq map Merge3_generic]. by apply merged_interleaved. }
  destruct (Z.eqb_spec sz 4) as [H4|H4]; [by apply merge3_u32_law|].
  pose proof (sources_named 3 g regs Hr) as Hregs. subst regs. destruct (Z.eqb_spec sz 8) as [H8|H8]; cbn [seq map Merge3_u64 Merge3_generic].
  - eapply merged_stores; [lia|exact Hr|]. exact (merge3_u64_bytes sz (fun s => byte_of (g s)) H8).
  - eapply merged_stores; [lia|exact Hr|]. apply (merge3_table_bytes sz (fun s => byte_of (g s))).
    destruct size_ok as [?|[?|[?|?]]]; auto; lia.
Qed.

Lemma merge4_law g regs dst mem : sources_hold 4 g regs ->
  filled sz dst 0 (lanes * 4) (merged_element 4 g) mem (Merge4_vector_path interleaving sz regs dst mem).
Proof.
  intros Hr. pose proof (sources_named 4 g regs Hr) as Hregs. subst regs. unfold Merge4_vector_path. destruct interleaving eqn:Hil.
  { cbn [seq map Merge4_generic]. by apply merged_interleaved. }
  destruct (Z.eqb_spec sz 8) as [H8|H8]; cbn [seq map Merge4_u64 Merge4_generic]; cbv zeta; (eapply merged_stores; [lia|exact Hr|]).
  - exact (merge4_u64_bytes sz (fun s => byte_of (g s)) H8).
  - exact (merge4_bytes sz (fun s => byte_of (g s)) size_ok H8).
Qed.
End laws.

(** ** Operations *)

Section operations.
Context (interleaving : bool) (sz : Z).
Hypothesis size_ok : element_size sz.
Local Abbreviation lanes := (num_lanes sz).

(** Channel [c] of a merged pixel is the pixel of source [c]; destination [d] of a split
    gets channel [d]. *)
Definition merge_value (d : nat) (c : Z) (get : nat -> Z -> Z) : Z := get (Z.to_nat c) 0.
Definition split_value (d : nat) (c : Z) (get : nat -> Z -> Z) : Z := get 0%nat (Z.of_nat d).

Lemma merge_scalar_filled ps dst (mem : Z -> Z) :
  (forall i j, (i < length ps)%nat -> 0 <= j < Z.of_nat (length ps) -> ps !!! i <> dst + j * sz) ->
  filled sz dst 0 (Z.of_nat (length ps)) (fun m => mem (ps !!! Z.to_nat m)) mem
    (foldl (fun mem '(c, src) => upd mem (dst + c * sz) (mem src)) mem (zip (seqZ 0 (Z.of_nat (length ps))) ps)).
Proof.
  pose proof (element_size_pos sz size_ok) as Hsz.
  induction ps as [|p ps IH] using rev_ind; intros Hap; [apply filled_none|].
  rewrite length_app in *. cbn [length] in *. replace (Z.of_nat (length ps + 1)) with (Z.of_nat (length ps) + 1) in * by lia.
  rewrite seqZ_app, zip_with_app by (lia || by rewrite length_seqZ, Nat2Z.id). rewrite foldl_app. cbn [seqZ].
  set (m1 := foldl _ mem (zip _ ps)) in *. set (n := Z.of_nat (length ps)) in *.
  assert (filled sz dst 0 n (fun m => mem ((ps ++ [p]) !!! Z.to_nat m)) mem m1) as H1.
  { eapply filled_ext; [|apply IH].
    - intros k Hk. cbv beta. by rewrite lookup_total_app_l by lia.
    - intros i j Hi Hj. rewrite <- (lookup_total_app_l ps [p] i) by lia. apply Hap; lia. }
  assert ((ps ++ [p]) !!! Z.to_nat n = p) as Hp.
  { rewrite lookup_total_app_r by lia. replace (Z.to_nat n - length ps)%nat with 0%nat by lia. done. }
  eapply (filled_join sz Hsz dst 0 n n (n + 1) 0 (n + 1)); [lia|exact H1|].
  replace (zip (seqZ (0 + n) 1) [p]) with [(n, p)] by done. cbn [foldl].
  assert (m1 p = mem p) as Hk.
  { apply H1. intros k Hk. rewrite <- Hp. apply Hap; lia. }
  pose proof (upd_filled sz dst n (fun m => mem ((ps ++ [p]) !!! Z.to_nat m)) m1) as Hu. cbv beta in Hu. by rewrite Hp, <- Hk in Hu.
Qed.

Lemma Merge_scalar_law N : 0 < N < 2 ^ 32 ->
  computes sz (replicate (Z.to_nat N) 1) [N] merge_value (unsigned_element sz) 1 (pointers_path (Merge_scalar_path sz)).
Proof.
  intros HN srcs dsts mem Hsc Hdc src dst Hsep Hv. destruct (last_column N srcs dsts Hdc) as (d & -> & Hd & _ & _).
  assert (length (map col_ptr_ srcs) = Z.to_nat N) as Hl.
  { by rewrite length_map, <- (length_map col_channels_), Hsc, length_replicate. }
  unfold pointers_path, Merge_scalar_path. cbv zeta. rewrite map_app. cbn [map]. rewrite removelast_last, last_last.
  apply (single_destination sz (Z.to_nat N) N merge_value); [done| |done|done|].
  { intros c g h Hc Hgh. apply Hgh. lia. }
  pose proof (merge_scalar_filled (map col_ptr_ srcs) (col_ptr_ d) mem) as Hf. rewrite Hl, Z2Nat.id in Hf |- * by lia.
  rewrite Z.mul_1_l. eapply filled_ext; [|apply Hf].
  - intros m Hm. unfold merge_value. rewrite Z.mod_small, Z.div_small by lia. by rewrite Z.mul_0_l, Z.add_0_r.
  - intros i j Hi Hj Heq. destruct Hsep as [_ Hdisj].
    apply (Hdisj i 0 0 0%nat 0 j); [by apply source_element; lia| |].
    + split; [cbn; lia|]. split; [lia|]. cbn. lia.
    + rewrite source_address by lia. unfold block_address. cbn. rewrite Z.add_0_r, Heq. done.
Qed.

Lemma merge_operation_laws N : N = 2 \/ N = 3 \/ N = 4 ->
  ChannelLaws sz (replicate (Z.to_nat N) 1) [N] merge_value (unsigned_element sz) (merge_operation interleaving sz N).
Proof.
  intros HN. pose proof (num_lanes_pos sz size_ok) as Hlanes.
  assert (forall c g h, 0 <= c < N -> (forall s, (s < Z.to_nat N)%nat -> g s 0 = h s 0) -> merge_value 0%nat c g = merge_value 0%nat c h) as Hlocal.
  { intros c g h Hc Hgh. apply Hgh. lia. }
  assert (forall (g : nat -> Z -> Z) regs dst mem, length regs = Z.to_nat N ->
    (forall s, (s < Z.to_nat N)%nat -> holds sz (g s) (regs !!! s)) ->
    (forall s k, (s < Z.to_nat N)%nat -> 0 <= k < lanes -> unsigned_element sz (g s k)) ->
    filled sz dst 0 (lanes * N) (fun m => merge_value 0%nat (m mod N) (fun s _ => g s (m / N))) mem
      ((if N =? 2 then Merge2_vector_path interleaving sz else if N =? 3 then Merge3_vector_path interleaving sz
        else Merge4_vector_path interleaving sz) regs dst mem)) as Hpath.
  { intros g regs dst mem Hl Hr Hv. destruct HN as [-> |[-> | ->]]; cbn [Z.eqb Pos.eqb].
    - by apply merge2_law.
    - by apply merge3_law.
    - by apply merge4_law. }
  constructor; cbn [merge_operation Merge Channels.num_lanes is_unrolled_twice is_unrolled_once vector_path_2x vector_path scalar_path].
  - lia.
  - intros d c g h Hd Hc Hgh. cbn in Hd. assert (d = 0%nat) as -> by lia. apply Hlocal; [done|]. intros s Hs.
    apply Hgh; [by rewrite length_replicate|]. rewrite lookup_total_replicate_2; lia.
  - intros _. apply vectors_path_2x_law; [done|lia|done|exact Hpath].
  - done.
  - apply Merge_scalar_law. lia.
Qed.

Lemma split_path_law N : N = 2 \/ N = 3 \/ N = 4 -> forall x regs, length regs = Z.to_nat N ->
  (forall i, 0 <= i < N -> holds sz (fun k => x (i * lanes + k)) (regs !!! Z.to_nat i)) ->
  let path := if N =? 2 then Split2_vector_path sz else if N =? 3 then Split3_vector_path sz else Split4_vector_path sz in
  length (path regs) = Z.to_nat N /\
  forall d, (d < Z.to_nat N)%nat -> holds sz (fun k => x (k * N + Z.of_nat d)) (path regs !!! d).
Proof.
  intros HN x regs Hl Hr path.
  assert (regs = map (fun i => named_bytes sz lanes (byte_of (fun k => x (Z.of_nat i * lanes + k)))) (seq 0 (Z.to_nat N))) as ->.
  { apply list_eq. intros i. rewrite list_lookup_fmap. destruct (decide (i < Z.to_nat N)%nat) as [Hi|Hi].
    - rewrite lookup_seq_lt, list_lookup_lookup_total_lt by lia. cbn [fmap option_fmap option_map]. f_equal.
      specialize (Hr (Z.of_nat i) ltac:(lia)). by rewrite Nat2Z.id in Hr.
    - rewrite !lookup_ge_None_2; [done|rewrite length_seq; lia|lia]. }
  assert (path (map (fun i => named_bytes sz lanes (byte_of (fun k => x (Z.of_nat i * lanes + k)))) (seq 0 (Z.to_nat N))) =
    map (fun d => named_bytes sz lanes (byte_of (fun k => x (k * N + Z.of_nat d)))) (seq 0 (Z.to_nat N))) as ->.
  { subst path. destruct HN as [-> |[-> | ->]]; cbn [Z.eqb Pos.eqb].
    - exact (split2_bytes sz (fun _ => byte_of x) size_ok).
    - exact (split3_bytes sz (fun _ => byte_of x) size_ok).
    - exact (split4_bytes sz (fun _ => byte_of x) size_ok). }
  split; [by rewrite length_map, length_seq|]. intros d Hd. unfold holds.
  apply list_lookup_total_correct. rewrite list_lookup_fmap, lookup_seq_lt by lia. done.
Qed.

Lemma Split_interleaved_law N : 0 < N < 2 ^ 32 ->
  computes sz [N] (replicate (Z.to_nat N) 1) split_value (unsigned_element sz) lanes (pointers_path (Split_interleaved sz N)).
Proof.
  intros HN srcs dsts mem Hsc Hdc src dst Hsep Hv. destruct (first_column N srcs dsts Hsc Hdc) as (s & -> & Hl).
  unfold pointers_path. cbn [app map Split_interleaved]. apply several_destinations; [done|done|done|].
  rewrite <- Hl. assert (length (vldq sz N mem (col_ptr_ s)) = Z.to_nat N) as Hlv.
  { unfold vldq, vldNq. by rewrite !length_map, length_seqZ. }
  apply store_each_filled; [by rewrite length_map, Hl|]. rewrite Hl. intros d mem' Hd.
  rewrite (list_lookup_total_correct (map (fun v => [v]) _) d [vldq sz N mem (col_ptr_ s) !!! d])
    by (rewrite list_lookup_fmap, list_lookup_lookup_total_lt by lia; done).
  apply stores_holds_filled; [done| |].
  - pose proof (vldq_holds sz N (Z.of_nat d) mem (col_ptr_ s) ltac:(lia)) as Hh. rewrite Nat2Z.id in Hh.
    eapply holds_ext; [|exact Hh]. intros k Hk. cbv beta. f_equal. lia.
  - intros k Hk. apply (Hv 0%nat k (Z.of_nat d)). split; [cbn; lia|]. split; [lia|]. cbn. lia.
Qed.

Lemma split_scalar_filled dsts c0 src (mem : Z -> Z) :
  (forall c dst, dst ∈ dsts -> 0 <= c < c0 + Z.of_nat (length dsts) -> src + c * sz <> dst) -> 0 <= c0 ->
  filled_all sz 1 (replicate (length dsts) 1) dsts (fun d _ => mem (src + (c0 + Z.of_nat d) * sz)) mem
    (foldl (fun mem '(c, dst) => upd mem dst (mem (src + c * sz))) mem (zip (seqZ c0 (Z.of_nat (length dsts))) dsts)).
Proof.
  revert c0 mem. induction dsts as [|dst dsts IH]; intros c0 mem Hap Hc0; [done|].
  cbn [length] in *. rewrite Nat2Z.inj_succ in *. rewrite seqZ_cons, Z.pred_succ by lia. cbn [zip zip_with foldl replicate].
  exists (upd mem dst (mem (src + c0 * sz))). split.
  - pose proof (upd_filled sz dst 0 (fun _ => mem (src + c0 * sz)) mem) as Hu. rewrite Z.mul_0_l, Z.add_0_r in Hu.
    replace (c0 + Z.of_nat 0) with c0 by lia. exact Hu.
  - assert (forall m, m = Z.of_nat (length dsts) -> forall c, 0 <= c < c0 + Z.succ m ->
      upd mem dst (mem (src + c0 * sz)) (src + c * sz) = mem (src + c * sz)) as Hk.
    { intros m -> c Hc. apply upd_other, Hap; [by left|lia]. }
    specialize (IH (Z.succ c0) (upd mem dst (mem (src + c0 * sz)))).
    assert (forall v w mem mem', (forall d k, (d < length dsts)%nat -> v d k = w d k) ->
      filled_all sz 1 (replicate (length dsts) 1) dsts v mem mem' -> filled_all sz 1 (replicate (length dsts) 1) dsts w mem mem') as Hext.
    { clear. induction dsts as [|dst dsts IH]; intros v w mem mem' He; [done|]. intros (m1 & H1 & H2). exists m1. split.
      - eapply filled_ext; [|exact H1]. intros k _. apply He. cbn. lia.
      - eapply IH; [|exact H2]. intros d k Hd. apply He. cbn. lia. }
    eapply Hext; [|apply IH].
    + intros d k Hd. cbv beta. rewrite (Hk _ eq_refl) by lia. do 3 f_equal. lia.
    + intros c d Hd Hc. apply Hap; [by right|lia].
    + lia.
Qed.

Lemma Split_scalar_law N : 0 < N < 2 ^ 32 ->
  computes sz [N] (replicate (Z.to_nat N) 1) split_value (unsigned_element sz) 1 (pointers_path (Split_scalar_path sz)).
Proof.
  intros HN srcs dsts mem Hsc Hdc src dst Hsep Hv. destruct (first_column N srcs dsts Hsc Hdc) as (s & -> & Hl).
  unfold pointers_path. cbn [app map Split_scalar_path]. apply (several_destinations sz N); [done|done|done|].
  pose proof (split_scalar_filled (map col_ptr_ dsts) 0 (col_ptr_ s) mem) as Hf. rewrite <- Hl.
  assert (forall v w ch ps mem mem', (forall d, v d 0 = w d 0) -> Forall (eq 1) ch ->
    filled_all sz 1 ch ps v mem mem' -> filled_all sz 1 ch ps w mem mem') as Hext.
  { clear. intros v w ch ps. revert v w ch. induction ps as [|p ps IH]; intros v w [|c ch] mem mem' He Hch; try done.
    apply Forall_cons in Hch as [<- Hch]. intros (m1 & H1 & H2). exists m1. split.
    - eapply filled_ext; [|exact H1]. intros k Hk. assert (k = 0) as -> by lia. apply He.
    - eapply IH; [|done|exact H2]. intros d. apply He. }
  eapply Hext; [|by apply Forall_replicate|apply Hf; [|done]].
  - intros d. cbv beta. do 3 f_equal.
  - intros c p Hp Hc Heq. rewrite Hl, Z2Nat.id in Hc by lia. apply list_elem_of_lookup in Hp as [d Hd].
    pose proof (lookup_lt_Some _ _ _ Hd) as Hdl. destruct Hsep as [_ Hdisj]. apply (Hdisj 0%nat 0 c d 0 0).
    + split; [cbn; lia|]. split; [lia|]. cbn. lia.
    + split; [by rewrite length_replicate, <- Hl|]. split; [lia|]. rewrite lookup_total_replicate_2; lia.
    + unfold block_address. cbn [map lookup_total list_lookup_total]. rewrite (list_lookup_total_correct _ _ _ Hd), <- Heq.
      rewrite lookup_total_replicate_2 by lia. lia.
Qed.

Lemma split_operation_laws N : N = 2 \/ N = 3 \/ N = 4 ->
  ChannelLaws sz [N] (replicate (Z.to_nat N) 1) split_value (unsigned_element sz) (split_operation interleaving sz N).
Proof.
  intros HN. pose proof (num_lanes_pos sz size_ok) as Hlanes. pose proof (element_size_pos sz size_ok) as Hsz.
  assert (forall d c g h, (d < length (replicate (Z.to_nat N) 1%Z))%nat -> 0 <= c < replicate (Z.to_nat N) 1 !!! d ->
    (forall s e, (s < length [N])%nat -> 0 <= e < [N] !!! s -> g s e = h s e) -> split_value d c g = split_value d c h) as Hlocal.
  { intros d c g h Hd Hc Hgh. rewrite length_replicate in Hd. apply Hgh; [cbn; lia|]. cbn. lia. }
  constructor; cbn [split_operation Split Channels.num_lanes is_unrolled_twice is_unrolled_once vector_path_2x vector_path scalar_path].
  - lia.
  - exact Hlocal.
  - intros _. destruct interleaving.
    + apply pointers_twice; [|exact Hlocal|lia|apply Split_interleaved_law; lia].
      constructor; [lia|]. apply Forall_replicate. lia.
    + apply (groups_path_2x_law sz size_ok N _ ltac:(lia)). by apply split_path_law.
  - done.
  - apply Split_scalar_law. lia.
Qed.
End operations.

(** ** Calls *)

(** What the checks accept: [images] are those of the channels and the merged one. *)
Definition channels_accepted (arrays_ok : bool) (images : list (Z * Z)) (width height channels element_size : Z) : Prop :=
  existsb (Z.eqb element_size) [1; 2; 4; 8] = true /\ 2 <= channels <= 4 /\ arrays_ok = true /\
  Forall (fun image => image.1 <> 0 /\ (1 < element_size -> is_misaligned element_size image.1 = false) /\
    (1 < height -> element_size <> 1 -> is_misaligned element_size image.2 = false)) images /\
  width * height <= KLEIDICV_MAX_IMAGE_PIXELS.

Lemma element_size_listed sz : existsb (Z.eqb sz) [1; 2; 4; 8] = true -> element_size sz.
Proof. cbn. unfold element_size. rewrite !orb_true_iff, !Z.eqb_eq. intuition congruence. Qed.

Ltac by_checks :=
  cbv zeta; rewrite <- ?after_check_match;
  match goal with
  | |- outcome ?a (after_check ?c (after_check ?c' _ _) _) ?m ?d => apply (checked_twice_outcome a c c' m d)
  | |- outcome ?a (after_check ?c _ _) ?m ?d => apply (checked_outcome a c m d)
  end;
  unfold channels_accepted; rewrite !guard_error_ok, !pointer_alignment_accepted, !check_pointer_and_stride_ok, ?check_image_size_iff by done;
  cbn [app]; rewrite !Forall_cons, Forall_nil; intuition lia.

Lemma merge_outcome interleaving arrays_ok srcs dst width height channels sz mem : 0 <= width -> 0 <= height ->
  length srcs = Z.to_nat channels ->
  outcome (channels_accepted arrays_ok (srcs ++ [dst]) width height channels sz)
    (merge interleaving arrays_ok srcs dst width height channels sz mem) mem
    (apply_operation_by_rows (merge_operation interleaving sz channels) sz {| width_ := width; height_ := height |}
      (zip_with (image_rows sz) srcs (replicate (Z.to_nat channels) 1) ++ zip_with (image_rows sz) [dst] [channels]) mem).
Proof.
  intros Hw Hh Hl. unfold merge. destruct (existsb _ _) eqn:Hsz; [|split; [intros [H _]; congruence|done]].
  unfold merge_type. destruct (Z.ltb_spec channels 2) as [Hc|Hc]; [split; [intros (_ & ? & _); lia|done]|].
  destruct arrays_ok; cbn [negb]; [|split; [by intros (_ & _ & ? & _)|done]].
  destruct (Z.eqb_spec channels 2) as [->|H2]; [|destruct (Z.eqb_spec channels 3) as [->|H3]; [|destruct (Z.eqb_spec channels 4) as [->|H4]]].
  - destruct srcs as [|s0 [|s1 [|? ?]]]; try done. cbn [nth]. by_checks.
  - destruct srcs as [|s0 [|s1 [|s2 [|? ?]]]]; try done. cbn [nth]. by_checks.
  - destruct srcs as [|s0 [|s1 [|s2 [|s3 [|? ?]]]]]; try done. cbn [nth]. by_checks.
  - split; [intros (_ & ? & _); lia|]. intros _. cbv zeta. destruct (_ ?> _); done.
Qed.

Lemma split_outcome interleaving arrays_ok src dsts width height channels sz mem : 0 <= width -> 0 <= height ->
  length dsts = Z.to_nat channels ->
  outcome (channels_accepted arrays_ok (src :: dsts) width height channels sz)
    (split interleaving arrays_ok src dsts width height channels sz mem) mem
    (apply_operation_by_rows (split_operation interleaving sz channels) sz {| width_ := width; height_ := height |}
      (zip_with (image_rows sz) [src] [channels] ++ zip_with (image_rows sz) dsts (replicate (Z.to_nat channels) 1)) mem).
Proof.
  intros Hw Hh Hl. unfold split. destruct (existsb _ _) eqn:Hsz; [|split; [intros [H _]; congruence|done]].
  unfold split_type. destruct (Z.ltb_spec channels 2) as [Hc|Hc]; [split; [intros (_ & ? & _); lia|done]|].
  destruct arrays_ok; cbn [negb]; [|split; [by intros (_ & _ & ? & _)|done]].
  destruct (Z.eqb_spec channels 2) as [->|H2]; [|destruct (Z.eqb_spec channels 3) as [->|H3]; [|destruct (Z.eqb_spec channels 4) as [->|H4]]].
  - destruct dsts as [|s0 [|s1 [|? ?]]]; try done. cbn [nth]. by_checks.
  - destruct dsts as [|s0 [|s1 [|s2 [|? ?]]]]; try done. cbn [nth]. by_checks.
  - destruct dsts as [|s0 [|s1 [|s2 [|s3 [|? ?]]]]]; try done. cbn [nth]. by_checks.
  - split; [intros (_ & ? & _); lia|]. intros _. cbv zeta. destruct (_ ?> _); done.
Qed.

(** Elements of the sources as unsigned integers of their size. *)
Definition unsigned_images (sz width height : Z) (channels : list Z) (images : list (Z * Z)) (mem : Z -> Z) : Prop :=
  forall s y x e, scalar_of width height channels s y x e -> unsigned_element sz (mem (scalar_address sz channels images s y x e)).

Lemma merge_result interleaving arrays_ok srcs dst width height channels sz mem :
  placed_images sz width height (replicate (Z.to_nat channels) 1) [channels] srcs [dst] ->
  unsigned_images sz width height (replicate (Z.to_nat channels) 1) srcs mem ->
  channels_accepted arrays_ok (srcs ++ [dst]) width height channels sz ->
  exists mem', merge interleaving arrays_ok srcs dst width height channels sz mem = (KLEIDICV_OK, mem') /\
    channels_computed sz width height (replicate (Z.to_nat channels) 1) [channels] merge_value srcs [dst] mem mem'.
Proof.
  intros Hp Hv Ha. pose proof (size_in_range _ _ _ _ _ _ _ Hp) as (Hw & Hh & _).
  assert (length srcs = Z.to_nat channels) as Hl by (by rewrite (Forall2_length _ _ _ (srcs_in_memory _ _ _ _ _ _ _ Hp)), length_replicate).
  destruct (merge_outcome interleaving arrays_ok srcs dst width height channels sz mem Hw Hh Hl) as [Hm _]. eexists. split; [by apply Hm|].
  pose proof Ha as (Hsz%element_size_listed & Hc & _). apply (channel_operation_correct sz width height) with (valid := unsigned_element sz) (op := merge_operation interleaving sz channels); [by apply element_size_pos| |done|done|done].
  apply merge_operation_laws; [done|]. assert (channels = 2 \/ channels = 3 \/ channels = 4) by lia. done.
Qed.

Lemma split_result interleaving arrays_ok src dsts width height channels sz mem :
  placed_images sz width height [channels] (replicate (Z.to_nat channels) 1) [src] dsts ->
  unsigned_images sz width height [channels] [src] mem ->
  channels_accepted arrays_ok (src :: dsts) width height channels sz ->
  exists mem', split interleaving arrays_ok src dsts width height channels sz mem = (KLEIDICV_OK, mem') /\
    channels_computed sz width height [channels] (replicate (Z.to_nat channels) 1) split_value [src] dsts mem mem'.
Proof.
  intros Hp Hv Ha. pose proof (size_in_range _ _ _ _ _ _ _ Hp) as (Hw & Hh & _).
  assert (length dsts = Z.to_nat channels) as Hl by (by rewrite (Forall2_length _ _ _ (dsts_in_memory _ _ _ _ _ _ _ Hp)), length_replicate).
  destruct (split_outcome interleaving arrays_ok src dsts width height channels sz mem Hw Hh Hl) as [Hm _]. eexists. split; [by apply Hm|].
  pose proof Ha as (Hsz%element_size_listed & Hc & _). apply (channel_operation_correct sz width height) with (valid := unsigned_element sz) (op := split_operation interleaving sz channels); [by apply element_size_pos| |done|done|done].
  apply split_operation_laws; [done|]. assert (channels = 2 \/ channels = 3 \/ channels = 4) by lia. done.
Qed.

(** The pixel of a one-channel image. *)
Definition plane_address (sz : Z) (image : Z * Z) (y x : Z) : Z := image.1 + y * image.2 + x * sz.

Lemma plane_scalar sz n images s y x : (s < n)%nat ->
  scalar_address sz (replicate n 1) images s y x 0 = plane_address sz (images !!! s) y x.
Proof. intros Hs. unfold scalar_address, plane_address. rewrite lookup_total_replicate_2 by done. lia. Qed.

Lemma plane_scalar_of n width height s y x : (s < n)%nat -> 0 <= y < height -> 0 <= x < width ->
  scalar_of width height (replicate n 1) s y x 0.
Proof. intros Hs Hy Hx. split; [by rewrite length_replicate|]. rewrite lookup_total_replicate_2 by done. split; [done|]. split; [done|lia]. Qed.

(** C29: [merge] of two, three or four images, for elements of 1, 2, 4 and 8 bytes and with
    both kinds of stores, gives channel [c] of every pixel the pixel of image [c] and writes
    nothing else; any other channel count or element size, and null or misaligned arguments,
    are an error without an effect. *)
Theorem merge_correct interleaving arrays_ok srcs dst width height channels sz mem :
  0 <= width -> 0 <= height -> length srcs = Z.to_nat channels ->
  let result := merge interleaving arrays_ok srcs dst width height channels sz mem in
  (channels_accepted arrays_ok (srcs ++ [dst]) width height channels sz ->
    placed_images sz width height (replicate (Z.to_nat channels) 1) [channels] srcs [dst] ->
    unsigned_images sz width height (replicate (Z.to_nat channels) 1) srcs mem ->
    result.1 = KLEIDICV_OK /\
    (forall y x c, 0 <= y < height -> 0 <= x < width -> 0 <= c < channels ->
      result.2 (dst.1 + y * dst.2 + (x * channels + c) * sz) = mem (plane_address sz (srcs !!! Z.to_nat c) y x)) /\
    (forall p, (forall y x c, 0 <= y < height -> 0 <= x < width -> 0 <= c < channels ->
      p <> dst.1 + y * dst.2 + (x * channels + c) * sz) -> result.2 p = mem p)) /\
  (~ channels_accepted arrays_ok (srcs ++ [dst]) width height channels sz -> result.1 <> KLEIDICV_OK /\ result.2 = mem).
Proof.
  intros Hw Hh Hl result. split; [|by apply merge_outcome]. intros Ha Hp Hv. subst result.
  destruct (merge_result interleaving arrays_ok srcs dst width height channels sz mem Hp Hv Ha) as (mem' & -> & H1 & H2).
  cbn [fst snd]. split; [done|]. split.
  - intros y x c Hy Hx Hc. specialize (H1 0%nat y x c). unfold merge_value in H1. rewrite plane_scalar in H1 by lia.
    apply H1. split; [cbn; lia|]. done.
  - intros p Hne. apply H2. intros d y x c (Hd & Hy & Hx & Hc). cbn in Hd. assert (d = 0%nat) as -> by lia. by apply Hne.
Qed.

(** Three images of 5 by 2 bytes. *)
Ltac small_images :=
  match goal with |- context [replicate ?n ?x] => let l := eval vm_compute in (replicate n x) in change (replicate n x) with l end;
  constructor;
  [lia|cbn; repeat (apply Forall2_cons_2; [unfold image_in_memory; cbn; lia|]); by apply Forall2_nil|
   cbn; repeat (apply Forall2_cons_2; [unfold image_in_memory; cbn; lia|]); by apply Forall2_nil|
   intros [|[|[|d]]] y x c [|[|[|d']]] y' x' c' (Hd & Hy & Hx & Hc) (Hd' & Hy' & Hx' & Hc'); unfold scalar_address; cbn in *; intros; lia|
   intros [|[|[|s]]] y x e [|[|[|d']]] y' x' c' (Hd & Hy & Hx & Hc) (Hd' & Hy' & Hx' & Hc'); unfold scalar_address; cbn in *; lia].

Lemma merge_correct_witness :
  let result := merge false true [(1000, 5); (1100, 5); (1200, 5)] (2000, 15) 5 2 3 1 (fun p => p mod 256) in
  result.1 = KLEIDICV_OK /\ result.2 2029 = 1209 mod 256 /\ result.2 1209 = 1209 mod 256.
Proof.
  destruct (merge_correct false true [(1000, 5); (1100, 5); (1200, 5)] (2000, 15) 5 2 3 1 (fun p => p mod 256)
    ltac:(lia) ltac:(lia) eq_refl) as [(H1 & H2 & H3) _].
  - split; [done|]. split; [lia|]. split; [done|]. split; [|vm_compute; discriminate].
    repeat constructor; cbn; try discriminate; intros; lia.
  - small_images.
  - intros s y x e _. unfold unsigned_element. apply Z.mod_pos_bound. lia.
  - split; [exact H1|]. split; [exact (H2 1 4 2 ltac:(lia) ltac:(lia) ltac:(lia))|]. apply H3. cbn. intros. lia.
Defined.

(** C30: [split] is the inverse of [merge]: whatever the images, splitting what was merged,
    with either kind of loads and stores, puts the pixels of image [c] into destination [c]. *)
Theorem split_restores_merged il_m il_s ok_m ok_s srcs image dsts width height channels sz mem :
  channels_accepted ok_m (srcs ++ [image]) width height channels sz ->
  channels_accepted ok_s (image :: dsts) width height channels sz ->
  placed_images sz width height (replicate (Z.to_nat channels) 1) [channels] srcs [image] ->
  placed_images sz width height [channels] (replicate (Z.to_nat channels) 1) [image] dsts ->
  unsigned_images sz width height (replicate (Z.to_nat channels) 1) srcs mem ->
  let merged := merge il_m ok_m srcs image width height channels sz mem in
  let restored := split il_s ok_s image dsts width height channels sz merged.2 in
  merged.1 = KLEIDICV_OK /\ restored.1 = KLEIDICV_OK /\
  forall c y x, (c < Z.to_nat channels)%nat -> 0 <= y < height -> 0 <= x < width ->
    restored.2 (plane_address sz (dsts !!! c) y x) = mem (plane_address sz (srcs !!! c) y x).
Proof.
  intros Ham Has Hpm Hps Hv merged restored. subst restored merged.
  destruct (merge_result il_m ok_m srcs image width height channels sz mem Hpm Hv Ham) as (mem1 & -> & H1 & _). cbn [snd].
  assert (forall s y x e, scalar_of width height [channels] s y x e ->
    mem1 (scalar_address sz [channels] [image] s y x e) = mem (plane_address sz (srcs !!! Z.to_nat e) y x)) as Hm.
  { intros s y x e He. rewrite H1 by done. unfold merge_value. destruct He as (Hs & _ & _ & He). cbn in Hs.
    assert (s = 0%nat) as -> by lia. cbn in He. by rewrite plane_scalar by lia. }
  destruct (split_result il_s ok_s image dsts width height channels sz mem1 Hps) as (mem2 & -> & H2 & _); [|done|].
  { intros s y x e He. rewrite Hm by done. destruct He as (Hs & Hy & Hx & He). cbn in Hs. assert (s = 0%nat) as -> by lia. cbn in He.
    rewrite <- (plane_scalar sz (Z.to_nat channels)) by lia. apply Hv, plane_scalar_of; lia. }
  split; [done|]. split; [done|]. intros c y x Hc Hy Hx. cbn [snd].
  rewrite <- (plane_scalar sz (Z.to_nat channels)) by done. rewrite H2 by (by apply plane_scalar_of). unfold split_value.
  rewrite Hm, Nat2Z.id; [done|]. split; [cbn; lia|]. split; [done|]. split; [done|]. cbn. lia.
Qed.

(** Two images of 5 by 2 elements of two bytes are merged and split into other images. *)
Lemma split_restores_merged_witness :
  let merged := merge false true [(1000, 10); (1100, 10)] (2000, 20) 5 2 2 2 (fun p => p) in
  let restored := split true true (2000, 20) [(3000, 10); (3100, 10)] 5 2 2 2 merged.2 in
  restored.1 = KLEIDICV_OK /\ restored.2 3118 = 1118.
Proof.
  destruct (split_restores_merged false true true true [(1000, 10); (1100, 10)] (2000, 20) [(3000, 10); (3100, 10)] 5 2 2 2
    (fun p => p)) as (_ & H2 & H3).
  - split; [done|]. split; [lia|]. split; [done|]. split; [|vm_compute; discriminate].
    repeat constructor; cbn; try discriminate; intros; lia.
  - split; [done|]. split; [lia|]. split; [done|]. split; [|vm_compute; discriminate].
    repeat constructor; cbn; try discriminate; intros; lia.
  - small_images.
  - small_images.
  - change (replicate (Z.to_nat 2) 1) with [1; 1].
    intros [|[|s]] y x e (Hs & Hy & Hx & He); unfold unsigned_element, scalar_address; cbn in *; lia.
  - split; [exact H2|]. exact (H3 1%nat 1 4 ltac:(change (Z.to_nat 2) with 2%nat; lia) ltac:(lia) ltac:(lia)).
Defined.
