(* ===== verification/PixelKernels.v ===== *)
(** * Kernels on pixels of bytes

    What the operations of conversions/ share that have a source and a destination of
    interleaved 8-bit pixels: the methods of a source and a destination pointer, the checks and
    rows of their calls, and what has to be shown of a kernel for whole images.  The value of a
    destination channel is a function of the channels of the source pixel ([PixelValue]). *)

From S2P Require Import Prelude CTypes Utils Rows Loops Elementwise Arithmetic Channels ChannelAdapters VectorMemory Registers.

(** A method of a source and a destination pointer. *)
Definition on_pointers (f : Z -> Z -> (Z -> Z) -> Z -> Z) (ptrs : list Z) (mem : Z -> Z) : Z -> Z :=
  match ptrs with [src; dst] => f src dst mem | _ => mem end.

(** Operations on pointers that are unrolled once or twice, and may try to avoid the tail. *)
Definition pixel_operation (twice tail : bool) (vector scalar : Z -> Z -> (Z -> Z) -> Z -> Z) : ChannelOperation := {|
  Channels.num_lanes := num_lanes 1; is_unrolled_twice := twice; is_unrolled_once := negb twice; tries_to_avoid_tail_loop := tail;
  vector_path_2x := pointers_path_2x 1 (on_pointers vector); vector_path := pointers_path (on_pointers vector);
  scalar_path := pointers_path (on_pointers scalar) |}.

(** What the calls share: the checks, and the rows of a source and of a destination with
    their channels. *)
Definition convert (src_channels dst_channels : Z) (row : Z -> list Columns -> (Z -> Z) -> Z -> Z)
    (src dst : Z * Z) (width height : Z) (mem : Z -> Z) : kleidicv_error_t * (Z -> Z) :=
  match check_pointer_and_stride 1 src.1 src.2 height ?> check_pointer_and_stride 1 dst.1 dst.2 height ?>
        check_image_size width height with
  | KLEIDICV_OK =>
      let rect := {| width_ := width; height_ := height |} in
      (KLEIDICV_OK, zip_rows row rect [image_rows 1 src src_channels; image_rows 1 dst dst_channels] mem)
  | error => (error, mem)
  end.

(** ** Values *)

(** Channel [c] of a destination pixel as a function of the channels of the source pixel. *)
Class PixelValue (sch dch : Z) (value : Z -> (Z -> Z) -> Z) : Prop := {
  source_channels : 0 < sch < 2 ^ 32;
  destination_channels : 0 < dch < 2 ^ 32;
  value_local c g h : 0 <= c < dch -> (forall e, 0 <= e < sch -> g e = h e) -> value c g = value c h;
  value_byte c g : 0 <= c < dch -> (forall e, 0 <= e < sch -> 0 <= g e < 256) -> 0 <= value c g < 256
}.

Definition pixel_value (value : Z -> (Z -> Z) -> Z) (d : nat) (c : Z) (get : nat -> Z -> Z) : Z := value c (get 0%nat).

Section laws.
Context (sch dch : Z) (value : Z -> (Z -> Z) -> Z) `{HP : PixelValue sch dch value}.

Lemma pixel_local d c g h : (d < length [dch])%nat -> 0 <= c < [dch] !!! d ->
  (forall s e, (s < length [sch])%nat -> 0 <= e < [sch] !!! s -> g s e = h s e) -> pixel_value value d c g = pixel_value value d c h.
Proof.
  intros Hd Hc Hgh. cbn in Hd. assert (d = 0%nat) as -> by lia. unfold pixel_value. apply value_local; [exact Hc|].
  intros e He. apply Hgh; [cbn; lia|exact He].
Qed.

(** Byte [m] of the converted pixels of a source at [src]. *)
Definition converted (mem : Z -> Z) (src m : Z) : Z := value (m mod dch) (fun e => mem (src + m / dch * sch + e)).

(** The kernel on [n] pixels fills the destination from a source apart from it. *)
Definition converts (n : Z) (f : Z -> Z -> (Z -> Z) -> Z -> Z) : Prop :=
  forall src dst mem, (forall i j, 0 <= i < n * sch -> 0 <= j < n * dch -> src + i <> dst + j) ->
  (forall i, 0 <= i < n * sch -> 0 <= mem (src + i) < 256) ->
  filled 1 dst 0 (n * dch) (converted mem src) mem (f src dst mem).

Lemma converts_computes n f : converts n f ->
  computes 1 [sch] [dch] (pixel_value value) (unsigned_element 1) n (pointers_path (on_pointers f)).
Proof.
  pose proof source_channels as Hsch. pose proof destination_channels as Hdch.
  intros Hf srcs dsts mem Hsc Hdc src dst [Hinj Hdisj] Hv.
  destruct srcs as [|s [|? ?]]; try done. destruct dsts as [|d [|? ?]]; try done. cbn [app].
  unfold pointers_path. cbn [map on_pointers].
  assert (forall i, 0 <= i < n * sch -> element [sch] 0 n 0%nat (i / sch) (i mod sch) /\ src 0%nat (i / sch) (i mod sch) = col_ptr_ s + i) as Hs.
  { intros i Hi. pose proof (Z.mod_pos_bound i sch ltac:(lia)). split.
    - split; [cbn; lia|]. split; [split; [apply Z.div_pos; lia|apply Z.div_lt_upper_bound; lia]|]. done.
    - unfold src, block_address. cbn [map lookup_total list_lookup_total]. rewrite (Z.div_mod i sch) at 3 by lia. lia. }
  assert (forall j, 0 <= j < n * dch -> element [dch] 0 n 0%nat (j / dch) (j mod dch) /\ dst 0%nat (j / dch) (j mod dch) = col_ptr_ d + j) as Hd.
  { intros j Hj. pose proof (Z.mod_pos_bound j dch ltac:(lia)). split.
    - split; [cbn; lia|]. split; [split; [apply Z.div_pos; lia|apply Z.div_lt_upper_bound; lia]|]. done.
    - unfold dst, block_address. cbn [map lookup_total list_lookup_total]. rewrite (Z.div_mod j dch) at 3 by lia. lia. }
  apply (filled_all_assigned 1 n [dch] [col_ptr_ d] (fun _ => converted mem (col_ptr_ s))).
  - done.
  - repeat constructor. lia.
  - exact Hinj.
  - intros d' k c (Hd' & Hk & Hc). cbn in Hd'. assert (d' = 0%nat) as -> by lia. change ([dch] !!! 0%nat) with dch in *.
    unfold converted, pixel_value. rewrite (Z.add_comm (k * dch)), Z.mod_add, Z.mod_small, Z.div_add, Z.div_small by lia.
    apply value_local; [lia|]. intros e He. unfold src, block_address. cbn [map].
    change ([sch] !!! 0%nat) with sch. change ([col_ptr_ s] !!! 0%nat) with (col_ptr_ s). f_equal. lia.
  - cbn [filled_all]. eexists. split; [|done]. apply Hf.
    + intros i j Hi Hj. destruct (Hs i Hi) as [He <-], (Hd j Hj) as [He' <-]. by apply Hdisj.
    + intros i Hi. destruct (Hs i Hi) as [He <-]. exact (Hv _ _ _ He).
Qed.

(** What an interleaving store has to be given. *)
Lemma converts_interleaved src dst mem regs : Z.of_nat (length regs) = dch ->
  (forall i, 0 <= i < 16 * sch -> 0 <= mem (src + i) < 256) ->
  (forall c, 0 <= c < dch -> holds 1 (fun k => value c (fun e => mem (src + (sch * k + e) * 1))) (regs !!! Z.to_nat c)) ->
  filled 1 dst 0 (16 * dch) (converted mem src) mem (vstq 1 dst regs mem).
Proof.
  intros Hl Hv Hr. pose proof destination_channels.
  pose proof (vstq_filled 1 (fun c k => value c (fun e => mem (src + (sch * k + e) * 1))) dst regs mem (or_introl eq_refl)) as Hf.
  rewrite Hl in Hf. cbv zeta in Hf. change (num_lanes 1) with 16 in Hf. rewrite Z.mul_comm. eapply filled_ext; [|apply Hf; [exact Hr|]].
  - intros m Hm. unfold converted. pose proof (Z.mod_pos_bound m dch ltac:(lia)). apply value_local; [done|]. intros e He. f_equal. lia.
  - intros c k Hc Hk. apply value_byte; [done|]. intros e He. replace (src + (sch * k + e) * 1) with (src + (sch * k + e)) by lia.
    apply Hv. nia.
Qed.

(** What a kernel on single pixels has to store. *)
Lemma converts_pixel f : (forall src dst mem, (forall i j, 0 <= i < sch -> 0 <= j < dch -> src + i <> dst + j) ->
    (forall i, 0 <= i < sch -> 0 <= mem (src + i) < 256) ->
    filled 1 dst 0 dch (fun c => value c (fun e => mem (src + e))) mem (f src dst mem)) ->
  converts 1 f.
Proof.
  intros Hf src dst mem Hap Hv. rewrite Z.mul_1_l. eapply filled_ext; [|apply Hf; [intros; apply Hap; lia|intros; apply Hv; lia]].
  intros c Hc. cbv beta. unfold converted. rewrite (Z.mod_small c), (Z.div_small c) by lia. apply value_local; [lia|].
  intros e He. f_equal. lia.
Qed.

(** ** Rows and images *)

Lemma pixel_operation_laws twice tail vector scalar : converts 16 vector -> converts 1 scalar ->
  ChannelLaws 1 [sch] [dch] (pixel_value value) (unsigned_element 1) (pixel_operation twice tail vector scalar).
Proof.
  intros Hv Hsc. pose proof source_channels. pose proof destination_channels.
  constructor; cbn [pixel_operation Channels.num_lanes is_unrolled_twice is_unrolled_once vector_path_2x vector_path scalar_path];
    change (num_lanes 1) with 16.
  - lia.
  - exact pixel_local.
  - intros _. apply (pointers_twice 1 [sch] [dch] (pixel_value value) (unsigned_element 1)); [|exact pixel_local|done|by apply converts_computes].
    repeat constructor; lia.
  - intros _. by apply converts_computes.
  - by apply converts_computes.
Qed.

(** A row function that computes the pixels. *)
Definition row_converts (row : Z -> list Columns -> (Z -> Z) -> Z -> Z) : Prop :=
  forall width height src dst mem, width * height < 2 ^ 48 ->
  placed_images 1 width height [sch] [dch] [src] [dst] ->
  (forall s y x e, scalar_of width height [sch] s y x e -> unsigned_element 1 (mem (scalar_address 1 [sch] [src] s y x e))) ->
  channels_computed 1 width height [sch] [dch] (pixel_value value) [src] [dst] mem
    (zip_rows row {| width_ := width; height_ := height |} [image_rows 1 src sch; image_rows 1 dst dch] mem).

Lemma operation_row_converts twice tail vector scalar row : converts 16 vector -> converts 1 scalar ->
  (forall len cols mem, 0 <= len < 2 ^ 64 -> row len cols mem = process_row (pixel_operation twice tail vector scalar) 1 len cols mem) ->
  row_converts row.
Proof.
  intros Hv Hsc Hrow width height src dst mem _ Hp Hval.
  apply (channel_operation_correct 1 width height ltac:(lia) [sch] [dch] (pixel_value value) (unsigned_element 1)
    (pixel_operation twice tail vector scalar) [src] [dst]); [|done|done|done].
  by apply pixel_operation_laws.
Qed.

Lemma convert_outcome row src dst width height mem : 0 <= width -> 0 <= height ->
  outcome (accepts 1 [src; dst] width height) (convert sch dch row src dst width height mem) mem
    (zip_rows row {| width_ := width; height_ := height |} [image_rows 1 src sch; image_rows 1 dst dch] mem).
Proof.
  intros Hw Hh. unfold convert. cbv zeta. rewrite <- after_check_match. apply checked_outcome.
  rewrite <- checks_accept by done. reflexivity.
Qed.
End laws.

(** Channel [c] of a pixel of bytes. *)
Definition byte_address (image : Z * Z) (channels y x c : Z) : Z := image.1 + y * image.2 + x * channels + c.

(** A result is accepted with the converted pixels, or rejected with nothing written. *)
Definition conversion_result (sch dch : Z) (value : Z -> (Z -> Z) -> Z) (src dst : Z * Z) (width height : Z) (mem : Z -> Z)
    (result : kleidicv_error_t * (Z -> Z)) : Prop :=
  (accepts 1 [src; dst] width height ->
    result.1 = KLEIDICV_OK /\
    (forall y x c, 0 <= y < height -> 0 <= x < width -> 0 <= c < dch ->
      result.2 (byte_address dst dch y x c) = value c (fun e => mem (byte_address src sch y x e))) /\
    (forall p, (forall y x c, 0 <= y < height -> 0 <= x < width -> 0 <= c < dch -> p <> byte_address dst dch y x c) ->
      result.2 p = mem p)) /\
  (~ accepts 1 [src; dst] width height -> result.1 <> KLEIDICV_OK /\ result.2 = mem).

(** An image of bytes. *)
Definition image_of_bytes (image : Z * Z) (channels width height : Z) (mem : Z -> Z) : Prop :=
  forall y x e, 0 <= y < height -> 0 <= x < width -> 0 <= e < channels -> 0 <= mem (byte_address image channels y x e) < 256.

Lemma convert_correct sch dch value row src dst width height mem : PixelValue sch dch value -> row_converts sch dch value row ->
  placed_images 1 width height [sch] [dch] [src] [dst] -> image_of_bytes src sch width height mem ->
  conversion_result sch dch value src dst width height mem (convert sch dch row src dst width height mem).
Proof.
  intros HP Hrow Hp Hv. pose proof (size_in_range _ _ _ _ _ _ _ Hp) as (Hw & Hh & _).
  destruct (convert_outcome sch dch row src dst width height mem Hw Hh) as [Hok Herr]. split; [|exact Herr].
  intros Ha. rewrite (Hok Ha). cbn [fst snd]. split; [done|].
  assert (forall image ch y x e, scalar_address 1 [ch] [image] 0%nat y x e = byte_address image ch y x e) as Haddr.
  { intros image ch y x e. unfold scalar_address, byte_address. cbn. lia. }
  destruct Ha as [_ Ha]. unfold KLEIDICV_MAX_IMAGE_PIXELS in Ha. change (Z.shiftl 1 48 - 1) with (2 ^ 48 - 1) in Ha.
  destruct (Hrow width height src dst mem ltac:(lia) Hp) as [H1 H2].
  { intros s y x e (Hs & Hy & Hx & He). cbn in Hs. assert (s = 0%nat) as -> by lia. rewrite Haddr. by apply Hv. }
  split.
  - intros y x c Hy Hx Hc. rewrite <- Haddr, H1 by (split; [cbn; lia|done]). unfold pixel_value.
    apply value_local; [done|]. intros e He. by rewrite Haddr.
  - intros p Hne. apply H2. intros d y x c (Hd & Hy & Hx & Hc). cbn in Hd. assert (d = 0%nat) as -> by lia. rewrite Haddr. by apply Hne.
Qed.

(** ** Pixels with three or four channels *)

(** Facts of sources and destinations apart. *)
Ltac apart_facts Hap :=
  let fact e j := try (let H := fresh in assert (H := Hap e j ltac:(lia) ltac:(lia))) in
  fact 0 0; fact 0 1; fact 0 2; fact 0 3; fact 1 0; fact 1 1; fact 1 2; fact 1 3;
  fact 2 0; fact 2 1; fact 2 2; fact 2 3; fact 3 0; fact 3 1; fact 3 2; fact 3 3; clear Hap.

(** The vectors of an interleaving load. *)
Lemma vldq3 mem src : exists r g b, vldq 1 3 mem src = [r; g; b] /\
  holds 1 (fun k => mem (src + (3 * k + 0) * 1)) r /\ holds 1 (fun k => mem (src + (3 * k + 1) * 1)) g /\
  holds 1 (fun k => mem (src + (3 * k + 2) * 1)) b.
Proof.
  do 3 eexists. split; [reflexivity|].
  exact (conj (vldq_holds 1 3 0 mem src ltac:(lia)) (conj (vldq_holds 1 3 1 mem src ltac:(lia)) (vldq_holds 1 3 2 mem src ltac:(lia)))).
Qed.

Lemma vldq4 mem src : exists r g b a, vldq 1 4 mem src = [r; g; b; a] /\
  holds 1 (fun k => mem (src + (4 * k + 0) * 1)) r /\ holds 1 (fun k => mem (src + (4 * k + 1) * 1)) g /\
  holds 1 (fun k => mem (src + (4 * k + 2) * 1)) b /\ holds 1 (fun k => mem (src + (4 * k + 3) * 1)) a.
Proof.
  do 4 eexists. split; [reflexivity|].
  exact (conj (vldq_holds 1 4 0 mem src ltac:(lia)) (conj (vldq_holds 1 4 1 mem src ltac:(lia))
    (conj (vldq_holds 1 4 2 mem src ltac:(lia)) (vldq_holds 1 4 3 mem src ltac:(lia))))).
Qed.

(** Vectors that are loaded from consecutive bytes, by name. *)
Lemma loads_named N mem src :
  loads 1 N mem src = map (fun i => named_bytes 1 16 (fun k => byte_of (fun m => mem (src + m * 1)) (i * 16 + k))) (seqZ 0 N).
Proof.
  unfold loads. apply map_ext. intros i. rewrite (load_holds 1 mem (src + i * num_lanes 1 * 1)).
  apply named_bytes_ext. intros m j Hm. unfold byte_of. do 3 f_equal. change (num_lanes 1) with 16. lia.
Qed.

Lemma load_named mem src : load 1 mem src = named_bytes 1 16 (fun k => byte_of (fun m => mem (src + m * 1)) (0 + k)).
Proof. exact (load_holds 1 mem src). Qed.

Lemma alpha_holds : holds 1 (fun _ => 255) (vdupq_n_u8 255).
Proof. reflexivity. Qed.

(** [placed_images] of a source and a destination with concrete addresses. *)
Ltac place_images :=
  constructor; [lia|repeat (apply Forall2_cons_2; [unfold image_in_memory; cbn; lia|]); by apply Forall2_nil|
    repeat (apply Forall2_cons_2; [unfold image_in_memory; cbn; lia|]); by apply Forall2_nil|
    intros [|d] y x c [|d'] y' x' c' (Hd & Hy & Hx & Hc) (Hd' & Hy' & Hx' & Hc'); unfold scalar_address; cbn in *; intros; lia|
    intros [|d] y x c [|d'] y' x' c' (Hd & Hy & Hx & Hc) (Hd' & Hy' & Hx' & Hc'); unfold scalar_address; cbn in *; lia].
