(* ===== verification/RgbToRgb.v ===== *)
(** * Conversions between grey and RGB pixels

    [conversions/gray_to_rgb_neon.cpp], [rgb_to_rgb_neon.cpp] and [rgb_to_rgb_api.cpp]: 8-bit
    pixels with one, three or four channels, in both variants of
    [KLEIDICV_PREFER_INTERLEAVING_LOAD_STORE]. *)

From S2P Require Import Prelude CTypes Utils Rows Loops Elementwise Arithmetic Channels ChannelAdapters VectorMemory Registers PixelKernels.

(** ** Kernels *)

Section kernels.
Context (interleaving : bool).
Implicit Types (mem : Z -> Z).

(** [VecTraits::load(k...TableIndices, indices)]. *)
Definition load_indices (table : list Z) : list (list Z) := chunks 16 table.

Definition kGrayToRGBTableIndices : list Z :=
  [0;  0;  0;  1;  1;  1;  2;  2;  2;  3;  3;  3;  4;  4;  4;  5;
   5;  5;  6;  6;  6;  7;  7;  7;  8;  8;  8;  9;  9;  9;  10; 10;
   10; 11; 11; 11; 12; 12; 12; 13; 13; 13; 14; 14; 14; 15; 15; 15].

Definition GrayToRGB_vector_path (src dst : Z) mem : Z -> Z :=
  let src_vect := load 1 mem src in
  if interleaving then vstq 1 dst [src_vect; src_vect; src_vect] mem
  else stores 1 dst (map (vqtblq_u8 [src_vect]) (load_indices kGrayToRGBTableIndices)) mem.
Definition GrayToRGB_scalar_path (src dst : Z) mem : Z -> Z :=
  let v := mem src in upd (upd (upd mem (dst + 2) v) (dst + 1) v) dst v.

Definition kGrayToRGBATableIndices : list Z :=
  [0;  0;  0;  16; 1;  1;  1;  16; 2;  2;  2;  16; 3;  3;  3;  16;
   4;  4;  4;  16; 5;  5;  5;  16; 6;  6;  6;  16; 7;  7;  7;  16;
   8;  8;  8;  16; 9;  9;  9;  16; 10; 10; 10; 16; 11; 11; 11; 16;
   12; 12; 12; 16; 13; 13; 13; 16; 14; 14; 14; 16; 15; 15; 15; 16].

(** The bodies of the two loops of [GrayToRGBA::process_row]. *)
Definition GrayToRGBA_vector_path (src dst : Z) mem : Z -> Z :=
  let alpha := vdupq_n_u8 255 in
  let src_vect := load 1 mem src in
  if interleaving then vstq 1 dst [src_vect; src_vect; src_vect; alpha] mem
  else stores 1 dst (map (vqtblq_u8 [src_vect; alpha]) (load_indices kGrayToRGBATableIndices)) mem.
Definition GrayToRGBA_scalar_path (src dst : Z) mem : Z -> Z :=
  let v := mem src in
  let mem := upd (upd (upd mem (dst + 2) v) (dst + 1) v) dst v in
  upd mem (dst + 3) 255.

Definition kRGBToBGRTableIndices : list Z :=
  [2;  1;  0;  5;  4;  3;  8;  7;  6;  11; 10; 9;  14; 13; 12; 17;
   16; 15; 20; 19; 18; 23; 22; 21; 26; 25; 24; 29; 28; 27; 32; 31;
   14; 19; 18; 17; 22; 21; 20; 25; 24; 23; 28; 27; 26; 31; 30; 29].

(** The bodies of the loops of [RGBToBGR::process_row]. *)
Definition RGBToBGR_vector_path (src dst : Z) mem : Z -> Z :=
  if interleaving then
    match vldq 1 3 mem src with
    | [r; g; b] => vstq 1 dst [b; g; r] mem
    | _ => mem
    end
  else
    match loads 1 3 mem src, load_indices kRGBToBGRTableIndices with
    | [src_0; src_1; src_2], [index_0; index_1; index_2] =>
        stores 1 dst [vqtblq_u8 [src_0; src_1] index_0; vqtblq_u8 [src_0; src_1; src_2] index_1;
                      vqtblq_u8 [src_1; src_2] index_2] mem
    | _, _ => mem
    end.
Definition swap_first_and_third (src dst : Z) mem : Z -> Z :=
  let tmp := mem src in
  let mem := upd mem dst (mem (src + 2)) in
  let mem := upd mem (dst + 1) (mem (src + 1)) in
  upd mem (dst + 2) tmp.

Definition kRGBAToBGRATableIndices : list Z := [2; 1; 0; 3; 6; 5; 4; 7; 10; 9; 8; 11; 14; 13; 12; 15].

Definition RGBAToBGRA_vector_path (src dst : Z) mem : Z -> Z :=
  if interleaving then
    match vldq 1 4 mem src with
    | [r; g; b; a] => vstq 1 dst [b; g; r; a] mem
    | _ => mem
    end
  else stores 1 dst (map (fun v => vqtblq_u8 [v] kRGBAToBGRATableIndices) (loads 1 4 mem src)) mem.
Definition RGBAToBGRA_scalar_path (src dst : Z) mem : Z -> Z :=
  let mem := swap_first_and_third src dst mem in upd mem (dst + 3) (mem (src + 3)).

Definition RGBToBGRA_vector_path (src dst : Z) mem : Z -> Z :=
  match vldq 1 3 mem src with
  | [r; g; b] => vstq 1 dst [b; g; r; vdupq_n_u8 255] mem
  | _ => mem
  end.
Definition RGBToBGRA_scalar_path (src dst : Z) mem : Z -> Z :=
  let mem := swap_first_and_third src dst mem in upd mem (dst + 3) 255.

Definition RGBToRGBA_vector_path (src dst : Z) mem : Z -> Z :=
  match vldq 1 3 mem src with
  | [r; g; b] => vstq 1 dst [r; g; b; vdupq_n_u8 255] mem
  | _ => mem
  end.
Definition RGBToRGBA_scalar_path (src dst : Z) mem : Z -> Z :=
  let mem := copy_n 1 src 3 dst mem in upd mem (dst + 3) 255.

Definition RGBAToBGR_vector_path (src dst : Z) mem : Z -> Z :=
  match vldq 1 4 mem src with
  | [r; g; b; a] => vstq 1 dst [b; g; r] mem
  | _ => mem
  end.

Definition RGBAToRGB_vector_path (src dst : Z) mem : Z -> Z :=
  match vldq 1 4 mem src with
  | [r; g; b; a] => vstq 1 dst [r; g; b] mem
  | _ => mem
  end.
Definition RGBAToRGB_scalar_path (src dst : Z) mem : Z -> Z := copy_n 1 src 3 dst mem.

Definition GrayToRGB := pixel_operation false false GrayToRGB_vector_path GrayToRGB_scalar_path.
Definition RGBAToBGRA := pixel_operation false false RGBAToBGRA_vector_path RGBAToBGRA_scalar_path.
Definition RGBToBGRA := pixel_operation true false RGBToBGRA_vector_path RGBToBGRA_scalar_path.
Definition RGBToRGBA := pixel_operation true false RGBToRGBA_vector_path RGBToRGBA_scalar_path.
Definition RGBAToBGR := pixel_operation true false RGBAToBGR_vector_path swap_first_and_third.
Definition RGBAToRGB := pixel_operation true false RGBAToRGB_vector_path RGBAToRGB_scalar_path.

(** [GrayToRGBA::process_row]. *)
Definition GrayToRGBA_process_row (length : Z) (columns : list Columns) mem : Z -> Z :=
  let kVectorLength := 16 in
  let unroll_count := length / kVectorLength in
  let '(columns, mem) := for_range 0 unroll_count (fun _ '(columns, mem) =>
    let mem := pointers_path (on_pointers GrayToRGBA_vector_path) columns mem in
    (step_columns 1 kVectorLength columns, mem)) (columns, mem) in
  let length := length ⊟ kVectorLength ⊠ unroll_count in
  for_range 0 length (fun i mem => pointers_path (on_pointers GrayToRGBA_scalar_path) (step_columns 1 i columns) mem) mem.

(** [RGBToBGR::process_row]. *)
Definition RGBToBGR_process_row (length : Z) (columns : list Columns) mem : Z -> Z :=
  let loop := (Unroll.make length 16, (columns, mem)) in
  let loop := Unroll.unroll_n_times 1 (fun step '(columns, mem) =>
    let mem := pointers_path (on_pointers RGBToBGR_vector_path) columns mem in (step_columns 1 step columns, mem)) loop in
  let '(_, (_, mem)) := Unroll.remaining (fun length _ '(columns, mem) =>
    (columns, for_range 0 length (fun index mem =>
      pointers_path (on_pointers swap_first_and_third) (step_columns 1 index columns) mem) mem)) loop in
  mem.

(** [std::memmove] reads all bytes before it writes. *)
Definition memmove (dst src count : Z) mem : Z -> Z :=
  for_range 0 count (fun k mem' => upd mem' (dst + k) (mem (src + k))) mem.

(** [CopyRows<uint8_t>::process_row]. *)
Definition CopyRows_process_row (length : Z) (columns : list Columns) mem : Z -> Z :=
  match columns with
  | [src; dst] => memmove (col_ptr_ dst) (col_ptr_ src) (length ⊠ 1 ⊠ col_channels_ dst) mem
  | _ => mem
  end.

(** ** Calls *)

Definition gray_to_rgb_u8 := convert 1 3 (process_row GrayToRGB 1).
Definition gray_to_rgba_u8 := convert 1 4 GrayToRGBA_process_row.
Definition rgb_to_bgr_u8 := convert 3 3 RGBToBGR_process_row.
Definition rgba_to_bgra_u8 := convert 4 4 (process_row RGBAToBGRA 1).
Definition rgb_to_bgra_u8 := convert 3 4 (process_row RGBToBGRA 1).
Definition rgb_to_rgba_u8 := convert 3 4 (process_row RGBToRGBA 1).
Definition rgba_to_bgr_u8 := convert 4 3 (process_row RGBAToBGR 1).
Definition rgba_to_rgb_u8 := convert 4 3 (process_row RGBAToRGB 1).
Definition kleidicv_rgb_to_rgb_u8 := convert 3 3 CopyRows_process_row.
Definition kleidicv_rgba_to_rgba_u8 := convert 4 4 CopyRows_process_row.
End kernels.

(** ** Laws *)

(** The channels of a destination pixel: a channel of the source pixel, or [None] for 255. *)
Definition channel_value (order : list (option Z)) (c : Z) (get : Z -> Z) : Z :=
  match nth (Z.to_nat c) order None with Some e => get e | None => 255 end.

Section laws.
Context (sch : Z) (order : list (option Z)).
Local Abbreviation dch := (Z.of_nat (length order)).
Hypothesis sch_range : 0 < sch < 2 ^ 32.
Hypothesis dch_range : 0 < dch < 2 ^ 32.
Hypothesis order_range : Forall (fun o => match o with Some e => 0 <= e < sch | None => True end) order.

Lemma order_value : PixelValue sch dch (channel_value order).
Proof.
  assert (forall c, match nth (Z.to_nat c) order None with Some e => 0 <= e < sch | None => True end) as Hn.
  { intros c. destruct (nth_in_or_default (Z.to_nat c) order None) as [Hin| ->]; [|done].
    rewrite Forall_forall in order_range. exact (order_range _ (proj2 (list_elem_of_In _ _) Hin)). }
  constructor; [done|done| |]; intros c; specialize (Hn c); unfold channel_value; destruct (nth _ _ _) as [e|]; try done.
  - intros g h _ Hgh. by apply Hgh.
  - intros g _ Hg. by apply Hg.
Qed.

Lemma converts_tables src dst mem regs : (forall i, 0 <= i < 16 * sch -> 0 <= mem (src + i) < 256) ->
  concat regs = named_bytes 1 (16 * dch) (fun m => match nth (Z.to_nat (m mod dch)) order None with
    | Some e => byte_of (fun i => mem (src + i * 1)) (m / dch * sch + e)
    | None => byte_of (fun _ => 255) m
    end) ->
  filled 1 dst 0 (16 * dch) (converted sch dch (channel_value order) mem src) mem (stores 1 dst regs mem).
Proof.
  intros Hv Hr. pose proof order_value as HP. apply stores_filled; [lia|lia| |].
  - intros m Hm. pose proof (Z.mod_pos_bound m dch ltac:(lia)). unfold converted. apply (value_byte (PixelValue := HP)); [lia|]. intros e He.
    rewrite <- Z.add_assoc. apply Hv. assert (0 <= m / dch < 16) by (split; [apply Z.div_pos; lia|apply Z.div_lt_upper_bound; lia]). nia.
  - rewrite Hr. apply named_bytes_ext. intros m j Hm. unfold converted, channel_value, byte_of.
    destruct (nth _ _ _); [|done]. do 3 f_equal. lia.
Qed.
End laws.

#[local] Hint Extern 1 (PixelValue ?sch _ (channel_value ?order)) =>
  refine (order_value sch order _ _ _); [lia|cbn; lia|repeat constructor; lia] : typeclass_instances.

(** ** Kernels *)

(** The scalar paths: assignments in sequence. *)
Ltac by_assignments :=
  let src := fresh "src" in let dst := fresh "dst" in let mem := fresh "mem" in let Hap := fresh "Hap" in
  intros src dst mem Hap _; apart_facts Hap;
  repeat unfold swap_first_and_third, GrayToRGB_scalar_path, GrayToRGBA_scalar_path, RGBAToBGRA_scalar_path, RGBToBGRA_scalar_path,
    RGBToRGBA_scalar_path, RGBAToRGB_scalar_path, copy_n;
  repeat (rewrite for_range_first by lia); rewrite ?for_range_empty by lia; cbv zeta;
  split;
  [let k := fresh "k" in intros k ?; assert (k = 0 \/ k = 1 \/ k = 2 \/ k = 3) as Hk by lia; destruct Hk as [-> |[-> |[-> | ->]]];
     try lia; cbv beta delta [converted channel_value];
     match goal with |- context [nth ?i ?l ?d] => let o := eval vm_compute in (nth i l d) in change (nth i l d) with o end;
     match goal with |- context [?a / ?b] => let q := eval vm_compute in (a / b) in change (a / b) with q | _ => idtac end; cbv iota beta; unfold upd; repeat case_decide; try lia; try (f_equal; lia)
  |let p := fresh "p" in let Hp := fresh "Hp" in intros p Hp;
     pose proof (Hp 0); pose proof (Hp 1); pose proof (Hp 2); try pose proof (Hp 3 ltac:(lia)); unfold upd; repeat case_decide; try lia; try done].

Definition rgb_order : list (option Z) := [Some 0; Some 1; Some 2].
Definition bgr_order : list (option Z) := [Some 2; Some 1; Some 0].
Definition gray_order : list (option Z) := [Some 0; Some 0; Some 0].

Lemma gray_to_rgb_scalar : converts 1 3 (channel_value gray_order) 1 GrayToRGB_scalar_path.
Proof. by_assignments. Qed.
Lemma gray_to_rgba_scalar : converts 1 4 (channel_value (gray_order ++ [None])) 1 GrayToRGBA_scalar_path.
Proof. by_assignments. Qed.
Lemma rgb_to_bgr_scalar : converts 3 3 (channel_value bgr_order) 1 swap_first_and_third.
Proof. by_assignments. Qed.
Lemma rgba_to_bgr_scalar : converts 4 3 (channel_value bgr_order) 1 swap_first_and_third.
Proof. by_assignments. Qed.
Lemma rgba_to_bgra_scalar : converts 4 4 (channel_value (bgr_order ++ [Some 3])) 1 RGBAToBGRA_scalar_path.
Proof. by_assignments. Qed.
Lemma rgb_to_bgra_scalar : converts 3 4 (channel_value (bgr_order ++ [None])) 1 RGBToBGRA_scalar_path.
Proof. by_assignments. Qed.
Lemma rgb_to_rgba_scalar : converts 3 4 (channel_value (rgb_order ++ [None])) 1 RGBToRGBA_scalar_path.
Proof. by_assignments. Qed.
Lemma rgba_to_rgb_scalar : converts 4 3 (channel_value rgb_order) 1 RGBAToRGB_scalar_path.
Proof. by_assignments. Qed.

(** The shuffles, on bytes with names. *)
Section bytes.
Variable b : Z -> Z -> Z.
Local Abbreviation V i := (named_bytes 1 16 (fun k => b (i * 16 + k))).
Local Abbreviation shuffled sch order := (named_bytes 1 (16 * Z.of_nat (length order)) (fun m =>
  match nth (Z.to_nat (m mod Z.of_nat (length order))) order None with
  | Some e => b (m / Z.of_nat (length order) * sch + e)
  | None => byte_of (fun _ => 255) m
  end)).

Lemma gray_to_rgb_bytes : concat (map (vqtblq_u8 [V 0]) (load_indices kGrayToRGBTableIndices)) = shuffled 1 gray_order.
Proof. vm_compute. reflexivity. Qed.
Lemma gray_to_rgba_bytes :
  concat (map (vqtblq_u8 [V 0; vdupq_n_u8 255]) (load_indices kGrayToRGBATableIndices)) = shuffled 1 (gray_order ++ [None]).
Proof. vm_compute. reflexivity. Qed.
Lemma rgb_to_bgr_bytes :
  concat [vqtblq_u8 [V 0; V 1] (nth 0 (load_indices kRGBToBGRTableIndices) []);
    vqtblq_u8 [V 0; V 1; V 2] (nth 1 (load_indices kRGBToBGRTableIndices) []);
    vqtblq_u8 [V 1; V 2] (nth 2 (load_indices kRGBToBGRTableIndices) [])] = shuffled 3 bgr_order.
Proof. vm_compute. reflexivity. Qed.
Lemma rgba_to_bgra_bytes :
  concat (map (fun v => vqtblq_u8 [v] kRGBAToBGRATableIndices) [V 0; V 1; V 2; V 3]) = shuffled 4 (bgr_order ++ [Some 3]).
Proof. vm_compute. reflexivity. Qed.
End bytes.

(** The channels of an interleaving store, one by one. *)
Ltac by_channels :=
  apply converts_interleaved; [apply _|done|done|
   let c := fresh "c" in intros c ?; assert (c = 0 \/ c = 1 \/ c = 2 \/ c = 3) as Hc by lia; destruct Hc as [-> |[-> |[-> | ->]]];
   try lia; cbn [lookup_total list_lookup_total]; first [assumption|exact alpha_holds]].
(** The table lookups, by the names of the bytes. *)
Ltac by_table bytes :=
  match goal with |- context [converted ?s _ (channel_value ?o)] => apply (converts_tables s o) end; [lia|cbn; lia|repeat constructor; lia|done|];
  rewrite ?load_named, ?loads_named; exact (bytes _).

Section vectors.
Context (interleaving : bool).

Lemma gray_to_rgb_vector : converts 1 3 (channel_value gray_order) 16 (GrayToRGB_vector_path interleaving).
Proof.
  intros src dst mem _ Hv. unfold GrayToRGB_vector_path. cbv zeta. destruct interleaving; [|by_table gray_to_rgb_bytes].
  pose proof (load_holds 1 mem src : holds 1 (fun k => mem (src + (1 * k + 0) * 1)) _) as H0. by_channels.
Qed.
Lemma gray_to_rgba_vector : converts 1 4 (channel_value (gray_order ++ [None])) 16 (GrayToRGBA_vector_path interleaving).
Proof.
  intros src dst mem _ Hv. unfold GrayToRGBA_vector_path. cbv zeta. destruct interleaving; [|by_table gray_to_rgba_bytes].
  pose proof (load_holds 1 mem src : holds 1 (fun k => mem (src + (1 * k + 0) * 1)) _) as H0. by_channels.
Qed.
Lemma rgb_to_bgr_vector : converts 3 3 (channel_value bgr_order) 16 (RGBToBGR_vector_path interleaving).
Proof.
  intros src dst mem _ Hv. unfold RGBToBGR_vector_path. destruct interleaving.
  - destruct (vldq3 mem src) as (r & g & b & -> & Hr & Hg & Hb). by_channels.
  - rewrite loads_named. by_table rgb_to_bgr_bytes.
Qed.
Lemma rgba_to_bgra_vector : converts 4 4 (channel_value (bgr_order ++ [Some 3])) 16 (RGBAToBGRA_vector_path interleaving).
Proof.
  intros src dst mem _ Hv. unfold RGBAToBGRA_vector_path. destruct interleaving; [|by_table rgba_to_bgra_bytes].
  destruct (vldq4 mem src) as (r & g & b & a & -> & Hr & Hg & Hb & Ha). by_channels.
Qed.
End vectors.

Lemma rgb_to_bgra_vector : converts 3 4 (channel_value (bgr_order ++ [None])) 16 RGBToBGRA_vector_path.
Proof. intros src dst mem _ Hv. unfold RGBToBGRA_vector_path. destruct (vldq3 mem src) as (r & g & b & -> & ? & ? & ?). by_channels. Qed.
Lemma rgb_to_rgba_vector : converts 3 4 (channel_value (rgb_order ++ [None])) 16 RGBToRGBA_vector_path.
Proof. intros src dst mem _ Hv. unfold RGBToRGBA_vector_path. destruct (vldq3 mem src) as (r & g & b & -> & ? & ? & ?). by_channels. Qed.
Lemma rgba_to_bgr_vector : converts 4 3 (channel_value bgr_order) 16 RGBAToBGR_vector_path.
Proof. intros src dst mem _ Hv. unfold RGBAToBGR_vector_path. destruct (vldq4 mem src) as (r & g & b & a & -> & ? & ? & ? & ?). by_channels. Qed.
Lemma rgba_to_rgb_vector : converts 4 3 (channel_value rgb_order) 16 RGBAToRGB_vector_path.
Proof. intros src dst mem _ Hv. unfold RGBAToRGB_vector_path. destruct (vldq4 mem src) as (r & g & b & a & -> & ? & ? & ? & ?). by_channels. Qed.

(** ** Rows *)

(** The rows that the code writes out are those of an operation that is unrolled once. *)
Lemma RGBToBGR_row interleaving :
  RGBToBGR_process_row interleaving = process_row (pixel_operation false false (RGBToBGR_vector_path interleaving) swap_first_and_third) 1.
Proof. reflexivity. Qed.

Lemma GrayToRGBA_row interleaving len cols mem : 0 <= len < 2 ^ 64 ->
  GrayToRGBA_process_row interleaving len cols mem =
  process_row (pixel_operation false false (GrayToRGBA_vector_path interleaving) GrayToRGBA_scalar_path) 1 len cols mem.
Proof.
  intros Hlen. unfold GrayToRGBA_process_row, process_row.
  cbn [pixel_operation Channels.num_lanes is_unrolled_twice is_unrolled_once tries_to_avoid_tail_loop avoid_tail_loop negb]. change (num_lanes 1) with 16. cbv zeta.
  unfold Unroll.unroll_n_times. cbn [Unroll.make Unroll.length_ Unroll.step_]. change (1 ⊠ 16) with 16.
  unfold unroll_once. cbn [pixel_operation vector_path]. destruct (for_range 0 (len / 16) _ (cols, mem)) as [cols' mem'].
  unfold Unroll.remaining. cbn [Unroll.length_]. destruct (Z.eqb_spec (len ⊟ 16 ⊠ (len / 16)) 0) as [->|Hne].
  - by apply for_range_empty.
  - reflexivity.
Qed.

(** A row that is copied. *)
Definition copy_order (ch : Z) : list (option Z) := map Some (seqZ 0 ch).

Lemma copy_order_value ch get c : 0 <= c < ch -> channel_value (copy_order ch) c get = get c.
Proof.
  intros Hc. unfold channel_value, copy_order. rewrite (nth_lookup_Some _ _ _ (Some c)); [done|].
  rewrite list_lookup_fmap, lookup_seqZ_lt by lia. cbn. do 2 f_equal. lia.
Qed.

Lemma memmove_converts ch len : 0 < ch -> 0 <= len ->
  converts ch ch (channel_value (copy_order ch)) len (fun src dst => memmove dst src (len * ch)).
Proof.
  intros Hch Hlen src dst mem _ _. unfold memmove.
  rewrite (for_range_ext 0 (len * ch) _ (fun k mem' => upd mem' (dst + k * 1) (mem (src + k)))) by (intros; do 2 f_equal; lia).
  eapply filled_ext; [|apply (write_range 1 ltac:(lia) dst (len * ch) (fun k => mem (src + k))); nia].
  intros m Hm. pose proof (Z.mod_pos_bound m ch ltac:(lia)). unfold converted. rewrite copy_order_value by lia.
  rewrite (Z.div_mod m ch) at 1 by lia. f_equal. lia.
Qed.

Lemma copy_order_pixel ch : 0 < ch < 2 ^ 8 -> PixelValue ch ch (channel_value (copy_order ch)).
Proof.
  intros Hch. assert (Z.of_nat (length (copy_order ch)) = ch) as Hl by (unfold copy_order; rewrite length_map, length_seqZ; lia).
  rewrite <- Hl at 2. apply order_value; [lia|lia|]. apply Forall_forall. intros o Ho.
  unfold copy_order in Ho. apply list_elem_of_In, in_map_iff in Ho as (e & <- & He%list_elem_of_In%elem_of_seqZ). lia.
Qed.

Lemma CopyRows_row ch len : 0 < ch < 2 ^ 8 -> 0 <= len < 2 ^ 48 ->
  computes 1 [ch] [ch] (pixel_value (channel_value (copy_order ch))) (unsigned_element 1) len (CopyRows_process_row len).
Proof.
  intros Hch Hlen. pose proof (copy_order_pixel ch Hch) as HP.
  pose proof (converts_computes ch ch _ len _ (memmove_converts ch len ltac:(lia) ltac:(lia))) as Hc.
  assert (len * ch < 2 ^ 64) by nia.
  intros srcs dsts mem Hsc Hdc src dst Hsep Hv. destruct srcs as [|s [|? ?]]; try done. destruct dsts as [|d [|? ?]]; try done.
  specialize (Hc [s] [d] mem Hsc Hdc Hsep Hv). unfold pointers_path in Hc. cbn [app map on_pointers] in Hc. cbn [app CopyRows_process_row].
  injection Hdc as ->. rewrite (size_mul_small len) by lia. rewrite Z.mul_1_r, size_mul_small by nia. exact Hc.
Qed.

(** ** Calls *)

Lemma copy_row_converts ch : 0 < ch < 2 ^ 8 -> row_converts ch ch (channel_value (copy_order ch)) CopyRows_process_row.
Proof.
  intros Hch width height src dst mem Hwh Hp Hval. pose proof (copy_order_pixel ch Hch) as HP.
  apply (channel_rows_correct 1 width height ltac:(lia) [ch] [ch] (pixel_value (channel_value (copy_order ch))) (unsigned_element 1) [src] [dst]);
    [done|by apply pixel_local|done|].
  intros len Hlen. apply CopyRows_row; lia.
Qed.

(** The conversions, with the channels of the source and the order of those of the
    destination. *)
Definition conversions (interleaving : bool)
    : list ((Z * Z -> Z * Z -> Z -> Z -> (Z -> Z) -> kleidicv_error_t * (Z -> Z)) * Z * list (option Z)) :=
  [(gray_to_rgb_u8 interleaving, 1, [Some 0; Some 0; Some 0]);
   (gray_to_rgba_u8 interleaving, 1, [Some 0; Some 0; Some 0; None]);
   (rgb_to_bgr_u8 interleaving, 3, [Some 2; Some 1; Some 0]);
   (rgba_to_bgra_u8 interleaving, 4, [Some 2; Some 1; Some 0; Some 3]);
   (rgb_to_bgra_u8, 3, [Some 2; Some 1; Some 0; None]);
   (rgb_to_rgba_u8, 3, [Some 0; Some 1; Some 2; None]);
   (rgba_to_bgr_u8, 4, [Some 2; Some 1; Some 0]);
   (rgba_to_rgb_u8, 4, [Some 0; Some 1; Some 2]);
   (kleidicv_rgb_to_rgb_u8, 3, [Some 0; Some 1; Some 2]);
   (kleidicv_rgba_to_rgba_u8, 4, [Some 0; Some 1; Some 2; Some 3])].

Ltac by_kernel row_eq vector_law scalar_law :=
  split; [apply _|];
  first [apply (operation_row_converts _ _ _ false false _ _ _ vector_law scalar_law); intros; first [by apply row_eq|reflexivity|by rewrite row_eq]
        |apply (operation_row_converts _ _ _ true false _ _ _ vector_law scalar_law); reflexivity].
Lemma conversion_rows interleaving call sch order : (call, sch, order) ∈ conversions interleaving ->
  exists row, call = convert sch (Z.of_nat (length order)) row /\
  PixelValue sch (Z.of_nat (length order)) (channel_value order) /\ row_converts sch (Z.of_nat (length order)) (channel_value order) row.
Proof.
  unfold conversions. rewrite !elem_of_cons, elem_of_nil.
  intros [[= -> -> ->]|[[= -> -> ->]|[[= -> -> ->]|[[= -> -> ->]|[[= -> -> ->]|[[= -> -> ->]|[[= -> -> ->]|[[= -> -> ->]|[[= -> -> ->]|[[= -> -> ->]|[]]]]]]]]]]];
    (eexists; split; [reflexivity|]).
  - by_kernel GrayToRGBA_row (gray_to_rgb_vector interleaving) gray_to_rgb_scalar.
  - by_kernel (GrayToRGBA_row interleaving) (gray_to_rgba_vector interleaving) gray_to_rgba_scalar.
  - by_kernel RGBToBGR_row (rgb_to_bgr_vector interleaving) rgb_to_bgr_scalar.
  - by_kernel RGBToBGR_row (rgba_to_bgra_vector interleaving) rgba_to_bgra_scalar.
  - by_kernel RGBToBGR_row rgb_to_bgra_vector rgb_to_bgra_scalar.
  - by_kernel RGBToBGR_row rgb_to_rgba_vector rgb_to_rgba_scalar.
  - by_kernel RGBToBGR_row rgba_to_bgr_vector rgba_to_bgr_scalar.
  - by_kernel RGBToBGR_row rgba_to_rgb_vector rgba_to_rgb_scalar.
  - split; [apply _|]. apply (copy_row_converts 3). lia.
  - split; [apply _|]. apply (copy_row_converts 4). lia.
Qed.

(** C31: every conversion between grey, RGB, BGR, RGBA and BGRA pixels (with table lookups or
    interleaving loads and stores, with rows that are unrolled, written out or copied) puts
    into channel [c] the source channel of its order, or 255 for a new alpha channel, writes
    nothing else, and rejects exactly null pointers and images that are too large. *)
Theorem colour_conversions_correct interleaving call sch order src dst width height mem :
  (call, sch, order) ∈ conversions interleaving ->
  let dch := Z.of_nat (length order) in
  placed_images 1 width height [sch] [dch] [src] [dst] ->
  image_of_bytes src sch width height mem ->
  let result := call src dst width height mem in
  (accepts 1 [src; dst] width height ->
    result.1 = KLEIDICV_OK /\
    (forall y x c, 0 <= y < height -> 0 <= x < width -> 0 <= c < dch ->
      result.2 (byte_address dst dch y x c) =
      match nth (Z.to_nat c) order None with Some e => mem (byte_address src sch y x e) | None => 255 end) /\
    (forall p, (forall y x c, 0 <= y < height -> 0 <= x < width -> 0 <= c < dch -> p <> byte_address dst dch y x c) ->
      result.2 p = mem p)) /\
  (~ accepts 1 [src; dst] width height -> result.1 <> KLEIDICV_OK /\ result.2 = mem).
Proof.
  intros (row & -> & HP & Hrow)%conversion_rows dch Hp Hv result.
  exact (convert_correct sch dch (channel_value order) row src dst width height mem HP Hrow Hp Hv).
Qed.

(** Three columns of RGB pixels to BGRA. *)
Lemma colour_conversions_correct_witness :
  let result := rgb_to_bgra_u8 (1000, 9) (2000, 12) 3 2 (fun p => p mod 256) in
  result.1 = KLEIDICV_OK /\ result.2 2020 = 1017 mod 256 /\ result.2 2023 = 255.
Proof.
  destruct (colour_conversions_correct false rgb_to_bgra_u8 3 [Some 2; Some 1; Some 0; None] (1000, 9) (2000, 12) 3 2 (fun p => p mod 256))
    as [Hok _].
  - do 4 right. by left.
  - place_images.
  - intros y x e _ _ _. apply Z.mod_pos_bound. lia.
  - destruct Hok as (H1 & H2 & _).
    { split; [|vm_compute; discriminate]. repeat constructor; cbn; discriminate. }
    split; [exact H1|]. exact (conj (H2 1 2 0 ltac:(lia) ltac:(lia) ltac:(cbn; lia)) (H2 1 2 3 ltac:(lia) ltac:(lia) ltac:(cbn; lia))).
Defined.
