(* ===== verification/PixelLanes.v ===== *)
(** * Channels of pixels in 16-bit lanes

    What the conversions between RGB and YUV pixels share: the instructions that widen the
    bytes of a channel to two halves of eight 16-bit lanes, the arithmetic with 14 fractional
    bits, and the narrowing with saturation. *)

From S2P Require Import Prelude CTypes Utils Vectors Arithmetic VectorMemory Registers PixelKernels.

(** ** Instructions *)

(** [vreinterpretq_s16_u8] of a register of bytes. *)
Definition vreinterpretq_s16_u8 (a : list Z) : list Z := map (static_cast int16) (elements_of_register 2 a).

(** [vmull_n_s16] and [vmlal_n_s16] on halves of vectors with eight lanes. *)
Definition vmull_n_s16 (a : list Z) (c : Z) : list Z := vmul int32 a (vdup_n 4 c).
Definition vmlal_n_s16 (acc a : list Z) (c : Z) : list Z := vmla int32 acc a (vdup_n 4 c).
Definition vqmovun_s16 (a : list Z) : list Z := vqmovn_clamp uint8 a.

(** ** Formats *)

(** The colour format of the flags. *)
Definition yuv444_format (BGR kAlpha : bool) : kleidicv_color_conversion_t :=
  Z.lor KLEIDICV_COLOR_CONVERSION_FMT_YUV444
    (Z.lor (if BGR then KLEIDICV_COLOR_CONVERSION_FLAG_BGR else 0) (if kAlpha then KLEIDICV_COLOR_CONVERSION_FLAG_ALPHA else 0)).

(** ** Scalars *)

(** Saturation of a channel. *)
Definition saturate (x : Z) : Z := clamp_to uint8 x.

Lemma saturate_byte x : 0 <= saturate x < 256.
Proof. unfold saturate, clamp_to. cbn. lia. Qed.

Lemma saturating_cast_saturates x : - 2 ^ 31 <= x < 2 ^ 31 -> saturating_cast_signed_to_unsigned int32 uint8 x = saturate x.
Proof.
  intros Hx. apply (saturating_cast_signed_to_unsigned_clamps 32 8 x); [unfold is_width; tauto|unfold is_width; tauto|].
  unfold in_type. cbn. lia.
Qed.

(** Rounding shifts of sums in range. *)
Lemma rounding_shift x : - 2 ^ 30 <= x < 2 ^ 30 -> rounding_shift_right int32 x 14 = (x + 2 ^ 13) / 2 ^ 14.
Proof.
  intros Hx. unfold rounding_shift_right. change (Z.shiftl 1 (14 - 1)) with (2 ^ 13).
  rewrite cast_s32 by lia. by rewrite Z.shiftr_div_pow2.
Qed.

(** The rounding narrowing of a 32-bit lane in range. *)
Lemma narrow_lane x : - 2 ^ 28 <= x < 2 ^ 28 ->
  static_cast int16 (Z.shiftr (x + Z.shiftl 1 (14 - 1)) 14) = (x + 2 ^ 13) / 2 ^ 14.
Proof.
  intros Hx. change (Z.shiftl 1 (14 - 1)) with (2 ^ 13). rewrite Z.shiftr_div_pow2 by lia.
  apply cast_s16. mod_lia.
Qed.

(** ** Lanes of bytes *)

Lemma byte_register value r : (forall k, 0 <= k < 16 -> 0 <= value k < 256) ->
  holds 1 value r <-> r = map (fun i => value (Z.of_nat i)) (seq 0 16).
Proof.
  intros Hv. unfold holds. assert (named_bytes 1 (num_lanes 1) (byte_of value) = map (fun i => value (Z.of_nat i)) (seq 0 16)) as ->; [|done].
  change (num_lanes 1) with 16. unfold named_bytes. rewrite flat_map_concat_map, (map_ext_in _ (fun m => [value m])); [reflexivity|].
  intros m Hm%list_elem_of_In%elem_of_seqZ. change (seqZ 0 1) with [0]. cbn [map]. unfold byte_of. f_equal.
  rewrite Z.mul_0_r, Z.pow_0_r, Z.div_1_r. apply Z.mod_small, Hv. lia.
Qed.

Lemma lanes_holds v value : lanes_of 16 v (fun i => value (Z.of_nat i)) -> (forall k, 0 <= k < 16 -> 0 <= value k < 256) -> holds 1 value v.
Proof. intros Hl Hv. apply byte_register; [done|]. by apply lanes_of_list. Qed.

(** Registers of 16 bytes whose pairs are a byte and zero. *)
Lemma widened_lanes a f : chunks 2 a = map (fun i => [f i; 0]) (seq 0 8) -> (forall i, (i < 8)%nat -> 0 <= f i < 256) ->
  lanes_of 8 (vreinterpretq_s16_u8 a) f.
Proof.
  intros Ha Hf. unfold vreinterpretq_s16_u8, elements_of_register. rewrite Ha, map_map, map_map.
  split; [by rewrite length_map, length_seq|]. intros i Hi. apply list_lookup_total_correct.
  rewrite list_lookup_fmap, lookup_seq_lt by done. cbn. f_equal. rewrite Z.add_0_r. apply cast_s16. specialize (Hf i Hi). lia.
Qed.

Section widening.
Context (f : nat -> Z).
Local Abbreviation A := (map f (seq 0 16)).

Lemma chunks_zip1 : chunks 2 (vzip1q 1 A (vdupq_n_u8 0)) = map (fun i => [f i; 0]) (seq 0 8).
Proof. reflexivity. Qed.
Lemma chunks_zip2 : chunks 2 (vzip2q 1 A (vdupq_n_u8 0)) = map (fun i => [f (8 + i)%nat; 0]) (seq 0 8).
Proof. reflexivity. Qed.
End widening.

(** Two halves of eight lanes. *)
Definition halves (p : list Z * list Z) (f : nat -> Z) : Prop := lanes_of 8 p.1 f /\ lanes_of 8 p.2 (fun i => f (8 + i)%nat).

Lemma widen_register a f : a = map f (seq 0 16) -> (forall i, (i < 16)%nat -> 0 <= f i < 256) ->
  halves (vreinterpretq_s16_u8 (vzip1q 1 a (vdupq_n_u8 0)), vreinterpretq_s16_u8 (vzip2q 1 a (vdupq_n_u8 0))) f.
Proof.
  intros -> Hf. split; cbn [fst snd].
  - apply widened_lanes; [apply chunks_zip1|]. intros i Hi. apply Hf. lia.
  - apply widened_lanes; [apply chunks_zip2|]. intros i Hi. apply Hf. lia.
Qed.

(** Channel [e] of the pixels at [src]. *)
Definition channel_lane (sch src : Z) (mem : Z -> Z) (e : Z) (i : nat) : Z := mem (src + sch * Z.of_nat i + e).

(** The narrowing of two halves. *)
Lemma narrowed l h f : halves (l, h) f -> lanes_of 16 (vcombine (vqmovun_s16 l) (vqmovun_s16 h)) (fun i => saturate (f i)).
Proof.
  intros [H1 H2]. apply (lanes_of_app 8); unfold vqmovun_s16, vqmovn_clamp; by apply lanes_of_map.
Qed.

