(* ===== verification/RgbToYuv.v ===== *)
(** * Conversion of RGB pixels to YUV444

    [conversions/rgb_to_yuv444_neon.cpp] and [rgb_to_yuv444_coefficients.h]: 8-bit RGB, BGR, RGBA
    or BGRA pixels to interleaved luma and colour differences, in fixed-point arithmetic of 14
    fractional bits.  The vector path widens the channels of 16 pixels to 16-bit lanes and
    multiplies in 32-bit lanes. *)

From S2P Require Import Prelude CTypes Utils Vectors Rows Loops Elementwise Arithmetic Channels ChannelAdapters VectorMemory Registers PixelKernels PixelLanes.

(** ** Coefficients *)

Definition kWeightScale : Z := 14.
Definition kRYWeight : Z := 4899.
Definition kGYWeight : Z := 9617.
Definition kBYWeight : Z := 1868.
Definition kRVWeight : Z := 14369.
Definition kBUWeight : Z := 8061.

Definition half_ : Z := Z.shiftl (255 / 2 + 1) kWeightScale.

Definition combine_scaled_s16 (a b : list Z) : list Z :=
  vcombine (vrshrn_n int16 a kWeightScale) (vrshrn_n int16 b kWeightScale).

(** ** [RGBToYUVAll] *)

Section operation.
Context (BGR kAlpha : bool).
Implicit Types (mem : Z -> Z).

Definition input_channels : Z := if kAlpha then 4 else 3.
Definition r_index_ : Z := if BGR then 2 else 0.
Definition g_index_ : Z := 1.
Definition b_index_ : Z := if BGR then 0 else 2.

(** The channels of 16 pixels in 16-bit lanes, each as a low and a high half. *)
Definition load_channels (src : Z) mem : (list Z * list Z) * (list Z * list Z) * (list Z * list Z) :=
  let zero := vdupq_n_u8 0 in
  if kAlpha then
    let vsrc := loads 1 4 mem src in
    let val i := vsrc !!! i in
    let rb_l := vuzp1q 1 (val 0%nat) (val 1%nat) in
    let rb_h := vuzp1q 1 (val 2%nat) (val 3%nat) in
    let even := (vreinterpretq_s16_u8 (vtrn1q 1 rb_l zero), vreinterpretq_s16_u8 (vtrn1q 1 rb_h zero)) in
    let odd := (vreinterpretq_s16_u8 (vtrn2q 1 rb_l zero), vreinterpretq_s16_u8 (vtrn2q 1 rb_h zero)) in
    let '(r, b) := if BGR then (odd, even) else (even, odd) in
    let ga_l := Registers.vuzp2q 1 (val 0%nat) (val 1%nat) in
    let ga_h := Registers.vuzp2q 1 (val 2%nat) (val 3%nat) in
    (r, (vreinterpretq_s16_u8 (vtrn1q 1 ga_l zero), vreinterpretq_s16_u8 (vtrn1q 1 ga_h zero)), b)
  else
    let vsrc := vldq 1 3 mem src in
    let widen i := (vreinterpretq_s16_u8 (vzip1q 1 (vsrc !!! Z.to_nat i) zero), vreinterpretq_s16_u8 (vzip2q 1 (vsrc !!! Z.to_nat i) zero)) in
    (widen r_index_, widen g_index_, widen b_index_).

(** The computations of one half; the source has each line once for [_l] and once for [_h]. *)
Definition compute_y (r g b : list Z) : list Z :=
  let y_l := vmull_n_s16 (vget_low r) kRYWeight in
  let y_h := vmull_n_s16 (vget_high r) kRYWeight in
  let y_l := vmlal_n_s16 y_l (vget_low g) kGYWeight in
  let y_h := vmlal_n_s16 y_h (vget_high g) kGYWeight in
  let y_l := vmlal_n_s16 y_l (vget_low b) kBYWeight in
  let y_h := vmlal_n_s16 y_h (vget_high b) kBYWeight in
  combine_scaled_s16 y_l y_h.
Definition compute_difference (weight : Z) (c y : list Z) : list Z :=
  let cy := vqsubq int16 c y in
  let half := vdup_n 4 half_ in
  combine_scaled_s16 (vmlal_n_s16 half (vget_low cy) weight) (vmlal_n_s16 half (vget_high cy) weight).

Definition RGBToYUV_vector_path (src dst : Z) mem : Z -> Z :=
  let '((r_l, r_h), (g_l, g_h), (b_l, b_h)) := load_channels src mem in
  let y_l := compute_y r_l g_l b_l in
  let y_h := compute_y r_h g_h b_h in
  let u_l := compute_difference kBUWeight b_l y_l in
  let u_h := compute_difference kBUWeight b_h y_h in
  let v_l := compute_difference kRVWeight r_l y_l in
  let v_h := compute_difference kRVWeight r_h y_h in
  let narrow l h := vcombine (vqmovun_s16 l) (vqmovun_s16 h) in
  vstq 1 dst [narrow y_l y_h; narrow u_l u_h; narrow v_l v_h] mem.

Definition RGBToYUV_scalar_path (src dst : Z) mem : Z -> Z :=
  let y := mem (src + r_index_) * kRYWeight + mem (src + g_index_) * kGYWeight + mem (src + b_index_) * kBYWeight in
  let y := rounding_shift_right int32 y kWeightScale in
  let u := (mem (src + b_index_) - y) * kBUWeight + half_ in
  let u := rounding_shift_right int32 u kWeightScale in
  let v := (mem (src + r_index_) - y) * kRVWeight + half_ in
  let v := rounding_shift_right int32 v kWeightScale in
  let mem := upd mem dst (saturating_cast_signed_to_unsigned int32 uint8 y) in
  let mem := upd mem (dst + 1) (saturating_cast_signed_to_unsigned int32 uint8 u) in
  upd mem (dst + 2) (saturating_cast_signed_to_unsigned int32 uint8 v).

Definition RGBToYUVAll : ChannelOperation := pixel_operation false true RGBToYUV_vector_path RGBToYUV_scalar_path.
End operation.

Definition rgb2yuv_operation (BGR kAlpha : bool) := convert (input_channels kAlpha) 3 (process_row (RGBToYUVAll BGR kAlpha) 1).

Definition rgb_to_yuv444_u8 (src dst : Z * Z) (width height : Z) (color_format : kleidicv_color_conversion_t) (mem : Z -> Z)
    : kleidicv_error_t * (Z -> Z) :=
  if color_format =? KLEIDICV_RGB_TO_YUV444 then rgb2yuv_operation false false src dst width height mem
  else if color_format =? KLEIDICV_BGR_TO_YUV444 then rgb2yuv_operation true false src dst width height mem
  else if color_format =? KLEIDICV_RGBA_TO_YUV444 then rgb2yuv_operation false true src dst width height mem
  else if color_format =? KLEIDICV_BGRA_TO_YUV444 then rgb2yuv_operation true true src dst width height mem
  else (KLEIDICV_ERROR_NOT_IMPLEMENTED, mem).

(** ** Values *)

(** Luma and colour differences in fixed point, rounded to the nearest integer. *)
Definition luma (r g b : Z) : Z := (kRYWeight * r + kGYWeight * g + kBYWeight * b + 2 ^ 13) / 2 ^ 14.
Definition colour_difference (weight c y : Z) : Z := 128 + ((c - y) * weight + 2 ^ 13) / 2 ^ 14.

(** Channel [c] of a YUV pixel. *)
Definition yuv_channel (r g b c : Z) : Z :=
  let y := luma r g b in
  saturate (if c =? 0 then y else if c =? 1 then colour_difference kBUWeight b y else colour_difference kRVWeight r y).
Definition yuv_value (BGR : bool) (c : Z) (get : Z -> Z) : Z := yuv_channel (get (r_index_ BGR)) (get g_index_) (get (b_index_ BGR)) c.

Lemma index_range BGR kAlpha : 0 <= r_index_ BGR < input_channels kAlpha /\ 0 <= g_index_ < input_channels kAlpha /\
  0 <= b_index_ BGR < input_channels kAlpha.
Proof. destruct BGR, kAlpha; unfold g_index_; cbn; lia. Qed.

#[export] Instance yuv_pixel BGR kAlpha : PixelValue (input_channels kAlpha) 3 (yuv_value BGR).
Proof.
  pose proof (index_range BGR kAlpha). constructor; [destruct kAlpha; cbn; lia|lia| |].
  - intros c g h _ Hgh. unfold yuv_value. rewrite !Hgh by tauto. done.
  - intros c g _ _. apply saturate_byte.
Qed.

Lemma luma_byte r g b : 0 <= r < 256 -> 0 <= g < 256 -> 0 <= b < 256 -> 0 <= luma r g b < 256.
Proof. intros Hr Hg Hb. unfold luma, kRYWeight, kGYWeight, kBYWeight. mod_lia. Qed.

Lemma difference_shift weight c y : 0 <= weight < 2 ^ 14 -> - 2 ^ 9 <= c - y < 2 ^ 9 ->
  ((c - y) * weight + half_ + 2 ^ 13) / 2 ^ 14 = colour_difference weight c y.
Proof.
  intros Hw Hc. unfold colour_difference, half_. change (Z.shiftl (255 / 2 + 1) kWeightScale) with (128 * 2 ^ 14).
  replace ((c - y) * weight + 128 * 2 ^ 14 + 2 ^ 13) with (((c - y) * weight + 2 ^ 13) + 128 * 2 ^ 14) by lia.
  rewrite Z.div_add by lia. lia.
Qed.

(** ** The scalar path *)

Lemma rgb_to_yuv_scalar BGR kAlpha : converts (input_channels kAlpha) 3 (yuv_value BGR) 1 (RGBToYUV_scalar_path BGR).
Proof.
  pose proof (index_range BGR kAlpha) as (Hr & Hg & Hb). apply converts_pixel; [apply _|]. intros src dst mem _ Hv.
  pose proof (Hv _ Hr) as Hvr. pose proof (Hv _ Hg) as Hvg. pose proof (Hv _ Hb) as Hvb.
  unfold RGBToYUV_scalar_path. cbv zeta. unfold yuv_value.
  set (r := mem (src + r_index_ BGR)) in *. set (g := mem (src + g_index_)) in *. set (b := mem (src + b_index_ BGR)) in *.
  clearbody r g b. pose proof (luma_byte r g b Hvr Hvg Hvb) as Hy.
  assert (rounding_shift_right int32 (r * kRYWeight + g * kGYWeight + b * kBYWeight) kWeightScale = luma r g b) as ->.
  { unfold luma, kRYWeight, kGYWeight, kBYWeight. rewrite rounding_shift by lia. f_equal. lia. }
  rewrite !rounding_shift by (unfold half_, kBUWeight, kRVWeight; change (Z.shiftl (255 / 2 + 1) kWeightScale) with 2097152; lia).
  rewrite (difference_shift kBUWeight), (difference_shift kRVWeight) by (unfold kBUWeight, kRVWeight; lia).
  assert (forall w c, 0 <= w < 2 ^ 14 -> 0 <= c < 256 -> - 2 ^ 31 <= colour_difference w c (luma r g b) < 2 ^ 31) as Hd.
  { intros w c Hw Hc. unfold colour_difference. generalize dependent (luma r g b). intros y Hy. clear - Hw Hc Hy. assert (- 2 ^ 22 <= (c - y) * w <= 2 ^ 22) by nia. mod_lia. }
  rewrite !saturating_cast_saturates by (lia || (apply Hd; unfold kBUWeight, kRVWeight; lia)).
  split.
  - intros k Hk. assert (k = 0 \/ k = 1 \/ k = 2) as [-> |[-> | ->]] by lia; unfold yuv_channel; cbn -[luma colour_difference];
      unfold upd; repeat case_decide; done || lia.
  - intros p Hp. pose proof (Hp 0 ltac:(lia)). pose proof (Hp 1 ltac:(lia)). pose proof (Hp 2 ltac:(lia)).
    unfold upd. repeat case_decide; done || lia.
Qed.

(** ** The vector path, lane by lane *)

Section fourths.
Context (f g : nat -> Z).
Local Abbreviation A := (map f (seq 0 16)).
Local Abbreviation B := (map g (seq 0 16)).

(** Lane [i] of the bytes of four channels that [A] and [B] have. *)
Definition every_fourth (c i : nat) : Z := if (4 * i + c <? 16)%nat then f (4 * i + c)%nat else g (4 * i + c - 16)%nat.

Lemma chunks_rb_even : chunks 2 (vtrn1q 1 (vuzp1q 1 A B) (vdupq_n_u8 0)) = map (fun i => [every_fourth 0 i; 0]) (seq 0 8).
Proof. reflexivity. Qed.
Lemma chunks_rb_odd : chunks 2 (vtrn2q 1 (vuzp1q 1 A B) (vdupq_n_u8 0)) = map (fun i => [every_fourth 2 i; 0]) (seq 0 8).
Proof. reflexivity. Qed.
Lemma chunks_ga_even : chunks 2 (vtrn1q 1 (Registers.vuzp2q 1 A B) (vdupq_n_u8 0)) = map (fun i => [every_fourth 1 i; 0]) (seq 0 8).
Proof. reflexivity. Qed.
End fourths.

Section loaded.
Context (BGR kAlpha : bool) (src : Z) (mem : Z -> Z).
Hypothesis bytes : forall i, 0 <= i < 16 * input_channels kAlpha -> 0 <= mem (src + i) < 256.
Local Abbreviation lane := (channel_lane (input_channels kAlpha) src mem).

Lemma lane_byte e i : 0 <= e < input_channels kAlpha -> (i < 16)%nat -> 0 <= lane e i < 256.
Proof. intros He Hi. unfold channel_lane. rewrite <- Z.add_assoc. apply bytes. nia. Qed.

(** Vectors 0 to 3 of an image with four channels. *)
Lemma consecutive_register k : kAlpha = true -> (k < 4)%nat ->
  loads 1 4 mem src !!! k = map (fun i => mem (src + Z.of_nat (16 * k + i))) (seq 0 16).
Proof.
  intros HA Hk. rewrite HA in bytes. cbn in bytes.
  rewrite (list_lookup_total_correct _ _ (load 1 mem (src + Z.of_nat k * 16 * 1))).
  - rewrite (proj1 (byte_register (fun j => mem (src + Z.of_nat k * 16 * 1 + j * 1)) _ ltac:(intros j Hj; cbv beta;
      replace (src + Z.of_nat k * 16 * 1 + j * 1) with (src + (Z.of_nat k * 16 + j)) by lia; apply bytes; lia)) (load_holds 1 mem _)).
    apply map_ext. intros i. f_equal. lia.
  - unfold loads. rewrite list_lookup_fmap, lookup_seqZ_lt by lia. cbn. do 2 f_equal.
Qed.

(** Two vectors of interleaved pixels, from pixel [8 * h] on. *)
Lemma fourth_lane c i h : (c < 4)%nat -> (i < 8)%nat -> kAlpha = true ->
  every_fourth (fun j => mem (src + Z.of_nat (16 * (2 * h) + j))) (fun j => mem (src + Z.of_nat (16 * (2 * h + 1) + j))) c i =
  lane (Z.of_nat c) (8 * h + i).
Proof.
  intros Hc Hi ->. unfold every_fourth, channel_lane, input_channels. destruct (Nat.ltb_spec (4 * i + c) 16); f_equal; lia.
Qed.

Lemma fourth_lanes a c h : (c < 4)%nat -> (h < 2)%nat -> kAlpha = true ->
  chunks 2 a = map (fun i => [every_fourth (fun j => mem (src + Z.of_nat (16 * (2 * h) + j)))
    (fun j => mem (src + Z.of_nat (16 * (2 * h + 1) + j))) c i; 0]) (seq 0 8) ->
  lanes_of 8 (vreinterpretq_s16_u8 a) (fun i => lane (Z.of_nat c) (8 * h + i)).
Proof.
  intros Hc Hh HA Ha. apply widened_lanes.
  - rewrite Ha. apply map_ext_in. intros i Hi%in_seq. rewrite fourth_lane by (done || lia). done.
  - intros i Hi. apply lane_byte; [rewrite HA; cbn; lia|lia].
Qed.

Lemma load_channels_lanes : let '(r, g, b) := load_channels BGR kAlpha src mem in
  halves r (lane (r_index_ BGR)) /\ halves g (lane g_index_) /\ halves b (lane (b_index_ BGR)).
Proof.
  destruct (bool_dec kAlpha true) as [HA|HA%not_true_is_false].
  - assert (load_channels BGR kAlpha src mem = load_channels BGR true src mem) as -> by (by rewrite HA). unfold load_channels. cbv zeta. rewrite !consecutive_register by (done || lia).
    assert (forall c, (c < 4)%nat -> forall a0 a1,
      chunks 2 a0 = map (fun i => [every_fourth (fun j => mem (src + Z.of_nat (16 * 0 + j))) (fun j => mem (src + Z.of_nat (16 * 1 + j))) c i; 0]) (seq 0 8) ->
      chunks 2 a1 = map (fun i => [every_fourth (fun j => mem (src + Z.of_nat (16 * 2 + j))) (fun j => mem (src + Z.of_nat (16 * 3 + j))) c i; 0]) (seq 0 8) ->
      halves (vreinterpretq_s16_u8 a0, vreinterpretq_s16_u8 a1) (lane (Z.of_nat c))) as Hc.
    { intros c Hc a0 a1 H0 H1. exact (conj (fourth_lanes a0 c 0 Hc ltac:(lia) HA H0) (fourth_lanes a1 c 1 Hc ltac:(lia) HA H1)). }
    destruct BGR; (split; [|split]); unfold r_index_, g_index_, b_index_;
      first [apply (Hc 0%nat); [lia|apply chunks_rb_even..]|apply (Hc 1%nat); [lia|apply chunks_ga_even..]|apply (Hc 2%nat); [lia|apply chunks_rb_odd..]].
  - assert (load_channels BGR kAlpha src mem = load_channels BGR false src mem) as -> by (by rewrite HA). unfold load_channels. cbv zeta.
    destruct (vldq3 mem src) as (r & g & b & -> & Hr & Hg & Hb).
    assert (forall e v, 0 <= e < 3 -> holds 1 (fun k => mem (src + (3 * k + e) * 1)) v ->
      halves (vreinterpretq_s16_u8 (vzip1q 1 v (vdupq_n_u8 0)), vreinterpretq_s16_u8 (vzip2q 1 v (vdupq_n_u8 0))) (lane e)) as Hw.
    { intros e v He Hv. apply widen_register; [|intros i Hi; apply lane_byte; [rewrite HA; exact He|done]].
      apply byte_register in Hv as ->.
      - apply map_ext. intros i. unfold channel_lane. rewrite HA. cbn [input_channels]. f_equal. lia.
      - intros k Hk. replace (src + (3 * k + e) * 1) with (src + (3 * k + e)) by lia. apply bytes. rewrite HA. cbn. lia. }
    destruct BGR; (split; [|split]); apply Hw; unfold g_index_; cbn; done || lia.
Qed.
End loaded.

(** ** Arithmetic of the lanes *)

Lemma compute_y_lanes r g b fr fg fb : lanes_of 8 r fr -> lanes_of 8 g fg -> lanes_of 8 b fb ->
  (forall i, (i < 8)%nat -> 0 <= fr i < 256 /\ 0 <= fg i < 256 /\ 0 <= fb i < 256) ->
  lanes_of 8 (compute_y r g b) (fun i => luma (fr i) (fg i) (fb i)).
Proof.
  intros [Hlr Hr] [Hlg Hg] [Hlb Hb] Hv.
  eapply (lanes_of_ext 8); [|unfold compute_y, combine_scaled_s16, vmlal_n_s16, vmull_n_s16, vcombine; cbv zeta; lane_halves 4%nat].
  intros i Hi. cbv beta. rewrite Hr, Hg, Hb by done. destruct (Hv i Hi) as (H1 & H2 & H3).
  unfold luma, kRYWeight, kGYWeight, kBYWeight in *. no_wrap. rewrite narrow_lane by lia. f_equal. lia.
Qed.

Lemma compute_difference_lanes weight c y fc fy : 0 <= weight < 2 ^ 14 -> lanes_of 8 c fc -> lanes_of 8 y fy ->
  (forall i, (i < 8)%nat -> 0 <= fc i < 256 /\ 0 <= fy i < 256) ->
  lanes_of 8 (compute_difference weight c y) (fun i => colour_difference weight (fc i) (fy i)).
Proof.
  intros Hw [Hlc Hc] [Hly Hy] Hv.
  eapply (lanes_of_ext 8); [|unfold compute_difference, combine_scaled_s16, vmlal_n_s16, vcombine, vqsubq; cbv zeta; lane_halves 4%nat].
  intros i Hi. cbv beta. rewrite Hc, Hy by done. destruct (Hv i Hi) as (H1 & H2).
  assert (clamp_to int16 (fc i - fy i) = fc i - fy i) as -> by (unfold clamp_to; cbn; lia).
  rewrite <- difference_shift by lia. assert (- 2 ^ 22 <= (fc i - fy i) * weight <= 2 ^ 22) by nia.
  change half_ with 2097152. no_wrap. rewrite narrow_lane by lia. f_equal. lia.
Qed.

Lemma rgb_to_yuv_vector BGR kAlpha : converts (input_channels kAlpha) 3 (yuv_value BGR) 16 (RGBToYUV_vector_path BGR kAlpha).
Proof.
  intros src dst mem _ Hv. pose proof (load_channels_lanes BGR kAlpha src mem Hv) as Hl. unfold RGBToYUV_vector_path.
  destruct (load_channels BGR kAlpha src mem) as [[[r_l r_h] [g_l g_h]] [b_l b_h]]. destruct Hl as ([Hrl Hrh] & [Hgl Hgh] & [Hbl Hbh]).
  cbn [fst snd] in *. cbv zeta. set (ch := input_channels kAlpha) in *. set (lane := channel_lane ch src mem) in *.
  pose proof (index_range BGR kAlpha) as (Hr & Hg & Hb).
  assert (forall e i, 0 <= e < ch -> (i < 16)%nat -> 0 <= lane e i < 256) as Hbyte.
  { intros e i He Hi. by apply lane_byte. }
  set (y := fun i => luma (lane (r_index_ BGR) i) (lane g_index_ i) (lane (b_index_ BGR) i)).
  assert (halves (compute_y r_l g_l b_l, compute_y r_h g_h b_h) y) as [Hyl Hyh].
  { split; cbn [fst snd]; (eapply compute_y_lanes; [eassumption..|]); intros i Hi; cbv beta; split_and!; apply Hbyte; done || lia. }
  cbn [fst snd] in Hyl, Hyh.
  assert (forall i, (i < 16)%nat -> 0 <= y i < 256) as Hy by (intros i Hi; apply luma_byte; by apply Hbyte).
  assert (forall weight e c_l c_h, 0 <= weight < 2 ^ 14 -> 0 <= e < ch -> halves (c_l, c_h) (lane e) ->
    halves (compute_difference weight c_l (compute_y r_l g_l b_l), compute_difference weight c_h (compute_y r_h g_h b_h))
      (fun i => colour_difference weight (lane e i) (y i))) as Hd.
  { intros weight e c_l c_h Hw He [Hcl Hch]. split; cbn [fst snd] in *;
      (eapply (compute_difference_lanes weight); [done|eassumption|eassumption|]); intros i Hi; cbv beta; split; first [apply Hbyte|apply Hy]; done || lia. }
  apply converts_interleaved; [apply _|done|done|].
  intros c Hc. assert (c = 0 \/ c = 1 \/ c = 2) as Hc' by lia. apply lanes_holds; [|intros k Hk; apply saturate_byte].
  assert (forall f v, halves v f -> (forall i, saturate (f i) = yuv_value BGR c (fun e => mem (src + (ch * Z.of_nat i + e) * 1))) ->
    lanes_of 16 (vcombine (vqmovun_s16 v.1) (vqmovun_s16 v.2)) (fun i => yuv_value BGR c (fun e => mem (src + (ch * Z.of_nat i + e) * 1)))) as Hn.
  { intros f [l h] Hf He. eapply lanes_of_ext; [|by apply narrowed]. intros i _. apply He. }
  assert (forall e i, mem (src + (ch * Z.of_nat i + e) * 1) = lane e i) as Hlane.
  { intros e i. unfold lane, channel_lane. f_equal. lia. }
  destruct Hc' as [-> |[-> | ->]].
  - apply (Hn y (_, _)); [done|]. intros i. unfold yuv_value. by rewrite !Hlane.
  - refine (Hn _ (_, _) (Hd kBUWeight (b_index_ BGR) b_l b_h _ Hb (conj Hbl Hbh)) _); [unfold kBUWeight; lia|]. intros i. unfold yuv_value. by rewrite !Hlane.
  - refine (Hn _ (_, _) (Hd kRVWeight (r_index_ BGR) r_l r_h _ Hr (conj Hrl Hrh)) _); [unfold kRVWeight; lia|]. intros i. unfold yuv_value. by rewrite !Hlane.
Qed.

(** ** Images *)

Lemma rgb2yuv_operation_correct BGR kAlpha src dst width height mem :
  placed_images 1 width height [input_channels kAlpha] [3] [src] [dst] -> image_of_bytes src (input_channels kAlpha) width height mem ->
  conversion_result (input_channels kAlpha) 3 (yuv_value BGR) src dst width height mem (rgb2yuv_operation BGR kAlpha src dst width height mem).
Proof.
  apply convert_correct; [apply _|].
  apply (operation_row_converts _ _ _ false true _ _ _ (rgb_to_yuv_vector BGR kAlpha) (rgb_to_yuv_scalar BGR kAlpha)). reflexivity.
Qed.

(** C32: for the four formats of YUV444, the vector and scalar paths compute the luma and the
    saturated colour differences of every pixel, in the order of channels that the flags of the
    format name; nothing else is written, exactly null pointers and images that are too large
    are rejected, and any other format is rejected with nothing written. *)
Theorem rgb_to_yuv444_correct src dst width height mem :
  (forall BGR kAlpha,
    placed_images 1 width height [input_channels kAlpha] [3] [src] [dst] -> image_of_bytes src (input_channels kAlpha) width height mem ->
    conversion_result (input_channels kAlpha) 3 (yuv_value BGR) src dst width height mem
      (rgb_to_yuv444_u8 src dst width height (yuv444_format BGR kAlpha) mem)) /\
  (forall color_format, (forall BGR kAlpha, color_format <> yuv444_format BGR kAlpha) ->
    rgb_to_yuv444_u8 src dst width height color_format mem = (KLEIDICV_ERROR_NOT_IMPLEMENTED, mem)).
Proof.
  split.
  - intros BGR kAlpha Hp Hv. pose proof (rgb2yuv_operation_correct BGR kAlpha src dst width height mem Hp Hv) as H.
    by destruct BGR, kAlpha.
  - intros f Hf. unfold rgb_to_yuv444_u8.
    destruct (Z.eqb_spec f KLEIDICV_RGB_TO_YUV444) as [E|_]; [by destruct (Hf false false)|].
    destruct (Z.eqb_spec f KLEIDICV_BGR_TO_YUV444) as [E|_]; [by destruct (Hf true false)|].
    destruct (Z.eqb_spec f KLEIDICV_RGBA_TO_YUV444) as [E|_]; [by destruct (Hf false true)|].
    destruct (Z.eqb_spec f KLEIDICV_BGRA_TO_YUV444) as [E|_]; [by destruct (Hf true true)|done].
Qed.

(** A row of BGR pixels; the second is white. *)
Lemma rgb_to_yuv444_correct_witness :
  let mem p := if p <? 1003 then p mod 256 else 255 in
  let result := rgb_to_yuv444_u8 (1000, 9) (2000, 9) 3 1 KLEIDICV_BGR_TO_YUV444 mem in
  result.1 = KLEIDICV_OK /\ result.2 2003 = 255 /\ result.2 2004 = 128 /\ result.2 2005 = 128 /\
  rgb_to_yuv444_u8 (1000, 9) (2000, 9) 3 1 2 mem = (KLEIDICV_ERROR_NOT_IMPLEMENTED, mem).
Proof.
  destruct (rgb_to_yuv444_correct (1000, 9) (2000, 9) 3 1 (fun p => if p <? 1003 then p mod 256 else 255)) as [H1 H2].
  destruct (H1 true false) as [Hok _].
  - place_images.
  - intros y x e _ _ _. destruct (_ <? _); [apply Z.mod_pos_bound; lia|lia].
  - destruct Hok as (Hok & Hp & _); [split; [repeat constructor; cbn; discriminate|vm_compute; discriminate]|].
    split; [exact Hok|]. split; [exact (Hp 0 1 0 ltac:(lia) ltac:(lia) ltac:(lia))|].
    split; [exact (Hp 0 1 1 ltac:(lia) ltac:(lia) ltac:(lia))|]. split; [exact (Hp 0 1 2 ltac:(lia) ltac:(lia) ltac:(lia))|].
    apply H2. intros [] []; discriminate.
Defined.
