(* ===== verification/YuvToRgb.v ===== *)
(** * Conversion of YUV444 pixels to RGB

    [conversions/yuv444_to_rgb_neon.cpp] and [yuv444_coefficients.h]: interleaved luma and colour
    differences to 8-bit RGB, BGR, RGBA or BGRA pixels.  The vector path scales the colour
    differences by four first, so that the high halves of its 32-bit lanes are the results of the
    rounding shifts. *)

From S2P Require Import Prelude CTypes Utils Vectors Rows Loops Elementwise Arithmetic Channels ChannelAdapters VectorMemory Registers PixelKernels PixelLanes.

(** ** Instructions *)

(** [vreinterpretq_s16_s32]. *)
Definition vreinterpretq_s16_s32 (a : list Z) : list Z := flat_map (fun x => [static_cast int16 x; static_cast int16 (Z.shiftr x 16)]) a.

(** ** Coefficients *)

Definition kWeightScale : Z := 14.
Definition kPreShift : Z := 16 - kWeightScale.
Definition kUBWeight : Z := 33292.
Definition kUnsignedUBWeight : Z := 33292.
Definition kUGWeight : Z := -6472.
Definition kVGWeight : Z := -9519.
Definition kVRWeight : Z := 18678.
Definition kBDelta4 : Z := (-128 * kUBWeight + Z.shiftl 1 (kWeightScale - 1)) * Z.shiftl 1 kPreShift.
Definition kGDelta4 : Z := (-128 * kUGWeight - 128 * kVGWeight + Z.shiftl 1 (kWeightScale - 1)) * Z.shiftl 1 kPreShift.
Definition kRDelta4 : Z := (-128 * kVRWeight + Z.shiftl 1 (kWeightScale - 1)) * Z.shiftl 1 kPreShift.

(** ** [YUVToRGBAll] *)

Section operation.
Context (BGR kAlpha : bool).
Implicit Types (mem : Z -> Z).

Definition output_channels : Z := if kAlpha then 4 else 3.
Definition r_index_ : Z := if BGR then 2 else 0.
Definition g_index_ : Z := 1.
Definition b_index_ : Z := if BGR then 0 else 2.
Definition alpha_index_ : Z := 3.
Definition alpha_value : Z := 255.

Definition b_delta4_ : list Z := vdup_n 4 kBDelta4.
Definition g_delta4_ : list Z := vdup_n 4 kGDelta4.
Definition r_delta4_ : list Z := vdup_n 4 kRDelta4.

(** The computations of one half; the source has each line once for [_l] and once for [_h]. *)
Definition high_halves (y l h : list Z) : list Z := vadd int16 y (Vectors.vuzp2q (vreinterpretq_s16_s32 l) (vreinterpretq_s16_s32 h)).
Definition compute_b (y u4 : list Z) : list Z :=
  let unsigned := vmov uint16 u4 in
  let b_l := vmov int32 (vmul uint32 (vget_low unsigned) (vdup_n 4 kUnsignedUBWeight)) in
  let b_h := vmov int32 (vmul uint32 (vget_high unsigned) (vdup_n 4 kUnsignedUBWeight)) in
  let b_l := vadd int32 b_l b_delta4_ in
  let b_h := vadd int32 b_h b_delta4_ in
  high_halves y b_l b_h.
Definition compute_g (y u4 v4 : list Z) : list Z :=
  let g_l := vmlal_n_s16 g_delta4_ (vget_low u4) kUGWeight in
  let g_h := vmlal_n_s16 g_delta4_ (vget_high u4) kUGWeight in
  let g_l := vmlal_n_s16 g_l (vget_low v4) kVGWeight in
  let g_h := vmlal_n_s16 g_h (vget_high v4) kVGWeight in
  high_halves y g_l g_h.
Definition compute_r (y v4 : list Z) : list Z :=
  let r_l := vmlal_n_s16 r_delta4_ (vget_low v4) kVRWeight in
  let r_h := vmlal_n_s16 r_delta4_ (vget_high v4) kVRWeight in
  high_halves y r_l r_h.

Definition YUVToRGB_vector_path (src dst : Z) mem : Z -> Z :=
  match vldq 1 3 mem src with
  | [y; u; v] =>
      let y_l := vreinterpretq_s16_u8 (vzip1q 1 y (vdupq_n_u8 0)) in
      let y_h := vreinterpretq_s16_u8 (vzip2q 1 y (vdupq_n_u8 0)) in
      let u4_l := vmov int16 (vshl_n uint16 (vget_low u) kPreShift) in
      let u4_h := vmov int16 (vshl_n uint16 (vget_high u) kPreShift) in
      let v4_l := vmov int16 (vshl_n uint16 (vget_low v) kPreShift) in
      let v4_h := vmov int16 (vshl_n uint16 (vget_high v) kPreShift) in
      let b := vcombine (vqmovun_s16 (compute_b y_l u4_l)) (vqmovun_s16 (compute_b y_h u4_h)) in
      let g := vcombine (vqmovun_s16 (compute_g y_l u4_l v4_l)) (vqmovun_s16 (compute_g y_h u4_h v4_h)) in
      let r := vcombine (vqmovun_s16 (compute_r y_l v4_l)) (vqmovun_s16 (compute_r y_h v4_h)) in
      let rgb := replicate (Z.to_nat output_channels) [] in
      let rgb := <[Z.to_nat r_index_ := r]> rgb in
      let rgb := <[Z.to_nat g_index_ := g]> rgb in
      let rgb := <[Z.to_nat b_index_ := b]> rgb in
      let rgb := if kAlpha then <[Z.to_nat alpha_index_ := vdupq_n_u8 alpha_value]> rgb else rgb in
      vstq 1 dst rgb mem
  | _ => mem
  end.

Definition YUVToRGB_scalar_path (src dst : Z) mem : Z -> Z :=
  let y := mem src in
  let u := mem (src + 1) in
  let v := mem (src + 2) in
  let b := y + rounding_shift_right int32 ((u - 128) * kUBWeight) kWeightScale in
  let g := y + rounding_shift_right int32 ((u - 128) * kUGWeight + (v - 128) * kVGWeight) kWeightScale in
  let r := y + rounding_shift_right int32 ((v - 128) * kVRWeight) kWeightScale in
  let mem := upd mem (dst + r_index_) (saturating_cast_signed_to_unsigned int32 uint8 r) in
  let mem := upd mem (dst + g_index_) (saturating_cast_signed_to_unsigned int32 uint8 g) in
  let mem := upd mem (dst + b_index_) (saturating_cast_signed_to_unsigned int32 uint8 b) in
  if kAlpha then upd mem (dst + alpha_index_) alpha_value else mem.

Definition YUVToRGBAll : ChannelOperation := pixel_operation false true YUVToRGB_vector_path YUVToRGB_scalar_path.
End operation.

Definition yuv2rgb_operation (BGR kAlpha : bool) := convert 3 (output_channels kAlpha) (process_row (YUVToRGBAll BGR kAlpha) 1).

Definition yuv444_to_rgb_u8 (src dst : Z * Z) (width height : Z) (color_format : kleidicv_color_conversion_t) (mem : Z -> Z)
    : kleidicv_error_t * (Z -> Z) :=
  if color_format =? KLEIDICV_YUV444_TO_RGB then yuv2rgb_operation false false src dst width height mem
  else if color_format =? KLEIDICV_YUV444_TO_BGR then yuv2rgb_operation true false src dst width height mem
  else if color_format =? KLEIDICV_YUV444_TO_RGBA then yuv2rgb_operation false true src dst width height mem
  else if color_format =? KLEIDICV_YUV444_TO_BGRA then yuv2rgb_operation true true src dst width height mem
  else (KLEIDICV_ERROR_NOT_IMPLEMENTED, mem).

(** ** Values *)

(** A weighted sum of colour differences, rounded to the nearest integer. *)
Definition rounded (x : Z) : Z := (x + 2 ^ 13) / 2 ^ 14.
Definition red (y v : Z) : Z := saturate (y + rounded ((v - 128) * kVRWeight)).
Definition green (y u v : Z) : Z := saturate (y + rounded ((u - 128) * kUGWeight + (v - 128) * kVGWeight)).
Definition blue (y u : Z) : Z := saturate (y + rounded ((u - 128) * kUBWeight)).

(** Channel [c] of an RGB pixel. *)
Definition rgb_channel (BGR : bool) (y u v c : Z) : Z :=
  if c =? r_index_ BGR then red y v else if c =? g_index_ then green y u v else if c =? b_index_ BGR then blue y u else alpha_value.
Definition rgb_value (BGR : bool) (c : Z) (get : Z -> Z) : Z := rgb_channel BGR (get 0) (get 1) (get 2) c.

#[export] Instance rgb_pixel BGR kAlpha : PixelValue 3 (output_channels kAlpha) (rgb_value BGR).
Proof.
  constructor; [lia|destruct kAlpha; cbn; lia| |].
  - intros c g h _ Hgh. unfold rgb_value. by rewrite !Hgh by lia.
  - intros c g _ _. unfold rgb_value, rgb_channel, red, green, blue. repeat case_match; first [apply saturate_byte|unfold alpha_value; lia].
Qed.

(** ** The scalar path *)

Lemma yuv_to_rgb_scalar BGR kAlpha : converts 3 (output_channels kAlpha) (rgb_value BGR) 1 (YUVToRGB_scalar_path BGR kAlpha).
Proof.
  apply converts_pixel; [apply _|]. intros src dst mem _ Hv.
  pose proof (Hv 0 ltac:(lia)) as Hy. pose proof (Hv 1 ltac:(lia)) as Hu. pose proof (Hv 2 ltac:(lia)) as Hvv.
  unfold YUVToRGB_scalar_path, rgb_value. rewrite Z.add_0_r in Hy |- *. cbv zeta.
  generalize dependent (mem src). generalize dependent (mem (src + 1)). generalize dependent (mem (src + 2)). intros v Hv' u Hu y Hy. clear Hv.
  unfold rgb_channel, red, green, blue. unfold kUBWeight, kUGWeight, kVGWeight, kVRWeight in *. unfold kWeightScale.
  rewrite !rounding_shift by lia. fold (rounded ((u - 128) * 33292)) (rounded ((v - 128) * 18678)) (rounded ((u - 128) * -6472 + (v - 128) * -9519)).
  rewrite !saturating_cast_saturates by (unfold rounded; mod_lia).
  split.
  - intros k Hk. destruct BGR, kAlpha; unfold output_channels, r_index_, g_index_, b_index_, alpha_index_ in *;
      unfold upd; repeat case_decide; repeat case_cmp; first [done|lia].
  - intros p Hp. pose proof (Hp 0). pose proof (Hp 1). pose proof (Hp 2). pose proof (Hp 3).
    destruct BGR, kAlpha; unfold output_channels, r_index_, g_index_, b_index_, alpha_index_ in *;
      unfold upd; repeat case_decide; first [done|lia].
Qed.

(** ** The vector path, lane by lane *)

Lemma odd_lanes_high a : odd_lanes (vreinterpretq_s16_s32 a) = map (fun x => static_cast int16 (Z.shiftr x 16)) a.
Proof. induction a as [|x a IH]; [done|]. cbn. by f_equal. Qed.

Lemma high_halves_lanes y l h fy f : lanes_of 8 y fy -> lanes_of (4 + 4) (l ++ h) f ->
  lanes_of 8 (high_halves y l h) (fun i => static_cast int16 (fy i + static_cast int16 (Z.shiftr (f i) 16))).
Proof.
  intros Hy Hlh. unfold high_halves, vadd.
  apply (lanes_of_zip_with 8 y _ fy (fun i => static_cast int16 (Z.shiftr (f i) 16)) (fun a b => static_cast int16 (a + b))); [done|].
  assert (Vectors.vuzp2q (vreinterpretq_s16_s32 l) (vreinterpretq_s16_s32 h) = map (fun x => static_cast int16 (Z.shiftr x 16)) (l ++ h)) as ->.
  { unfold Vectors.vuzp2q. rewrite <- odd_lanes_high. f_equal. unfold vreinterpretq_s16_s32. by rewrite flat_map_app. }
  exact (lanes_of_map 8 _ f (fun x => static_cast int16 (Z.shiftr x 16)) Hlh).
Qed.

(** The colour differences times four. *)
Lemma quadrupled_lanes a f : a = map f (seq 0 16) -> (forall i, (i < 16)%nat -> 0 <= f i < 256) ->
  halves (vmov int16 (vshl_n uint16 (vget_low a) kPreShift), vmov int16 (vshl_n uint16 (vget_high a) kPreShift)) (fun i => 4 * f i).
Proof.
  intros -> Hf. set (a := map f (seq 0 16)). assert (lanes_of (8 + 8) a f) as Ha.
  { unfold a. split; [reflexivity|]. intros i Hi. apply list_lookup_total_correct. by rewrite list_lookup_fmap, lookup_seq_lt by done. }
  assert (forall x, 0 <= x < 256 -> static_cast int16 (static_cast uint16 (Z.shiftl x kPreShift)) = 4 * x) as Hx.
  { intros x Hx. unfold kPreShift, kWeightScale. rewrite Z.shiftl_mul_pow2 by lia. change (2 ^ (16 - 14)) with 4. no_wrap. lia. }
  split; cbn [fst snd].
  - eapply (lanes_of_ext 8); [|apply lanes_of_map, lanes_of_map, (lanes_of_low 8), Ha]. intros i Hi. cbv beta. apply Hx, Hf. lia.
  - eapply (lanes_of_ext 8); [|apply lanes_of_map, lanes_of_map, (lanes_of_high 8), Ha]. intros i Hi. cbv beta. apply Hx, Hf. lia.
Qed.

(** The high half of a 32-bit lane that was scaled by four. *)
Lemma high_lane y x s : 0 <= y < 256 -> - 2 ^ 27 <= x < 2 ^ 27 -> s = 4 * (x + 2 ^ 13) ->
  static_cast int16 (y + static_cast int16 (Z.shiftr s 16)) = y + rounded x.
Proof.
  intros Hy Hx ->. rewrite Z.shiftr_div_pow2 by lia. change (2 ^ 16) with (4 * 2 ^ 14). rewrite Z.div_mul_cancel_l by lia.
  fold (rounded x). assert (- 2 ^ 14 <= rounded x < 2 ^ 14) by (unfold rounded; mod_lia). no_wrap. done.
Qed.

Section channels.
Context (y u4 v4 : list Z) (fy fu fv : nat -> Z).
Hypothesis y_lanes : lanes_of 8 y fy.
Hypothesis u_lanes : lanes_of 8 u4 (fun i => 4 * fu i).
Hypothesis v_lanes : lanes_of 8 v4 (fun i => 4 * fv i).
Hypothesis bytes : forall i, (i < 8)%nat -> 0 <= fy i < 256 /\ 0 <= fu i < 256 /\ 0 <= fv i < 256.

Lemma compute_b_lanes : lanes_of 8 (compute_b y u4) (fun i => fy i + rounded ((fu i - 128) * kUBWeight)).
Proof.
  destruct u_lanes as [Hl Hu]. eapply (lanes_of_ext 8); [|eapply high_halves_lanes; [exact y_lanes|]; unfold b_delta4_; lane_halves 4%nat].
  intros i Hi. cbv beta. destruct (bytes i Hi) as (H1 & H2 & H3).
  rewrite Hu by done. unfold kUBWeight, kUnsignedUBWeight.
  change kBDelta4 with (-17012736). apply high_lane; [done|lia|]. no_wrap. lia.
Qed.

Lemma compute_g_lanes : lanes_of 8 (compute_g y u4 v4) (fun i => fy i + rounded ((fu i - 128) * kUGWeight + (fv i - 128) * kVGWeight)).
Proof.
  destruct u_lanes as [Hl Hu], v_lanes as [Hl' Hv]. eapply (lanes_of_ext 8); [|eapply high_halves_lanes; [exact y_lanes|]; unfold g_delta4_, vmlal_n_s16; lane_halves 4%nat].
  intros i Hi. cbv beta. destruct (bytes i Hi) as (H1 & H2 & H3). rewrite Hu, Hv by done. unfold kUGWeight, kVGWeight.
  change kGDelta4 with 8220160. apply high_lane; [done|lia|]. no_wrap. lia.
Qed.

Lemma compute_r_lanes : lanes_of 8 (compute_r y v4) (fun i => fy i + rounded ((fv i - 128) * kVRWeight)).
Proof.
  destruct v_lanes as [Hl' Hv]. eapply (lanes_of_ext 8); [|eapply high_halves_lanes; [exact y_lanes|]; unfold r_delta4_, vmlal_n_s16; lane_halves 4%nat].
  intros i Hi. cbv beta. destruct (bytes i Hi) as (H1 & H2 & H3). rewrite Hv by done. unfold kVRWeight.
  change kRDelta4 with (-9530368). apply high_lane; [done|lia|]. no_wrap. lia.
Qed.
End channels.

Lemma yuv_to_rgb_vector BGR kAlpha : converts 3 (output_channels kAlpha) (rgb_value BGR) 16 (YUVToRGB_vector_path BGR kAlpha).
Proof.
  intros src dst mem _ Hv. unfold YUVToRGB_vector_path. destruct (vldq3 mem src) as (y & u & v & -> & Hy & Hu & Hvv). cbv zeta.
  set (lane := channel_lane 3 src mem).
  assert (forall e i, 0 <= e < 3 -> (i < 16)%nat -> 0 <= lane e i < 256) as Hbyte.
  { intros e i He Hi. unfold lane, channel_lane. rewrite <- Z.add_assoc. apply Hv. lia. }
  assert (forall e i, mem (src + (3 * Z.of_nat i + e) * 1) = lane e i) as Hlane.
  { intros e i. unfold lane, channel_lane. f_equal. lia. }
  assert (forall e a, 0 <= e < 3 -> holds 1 (fun k => mem (src + (3 * k + e) * 1)) a -> a = map (lane e) (seq 0 16)) as Hr.
  { intros e a He Ha. apply byte_register in Ha as ->; [by apply map_ext|].
    intros k Hk. replace (src + (3 * k + e) * 1) with (src + (3 * k + e)) by lia. apply Hv. lia. }
  pose proof (widen_register y _ (Hr 0 y ltac:(lia) Hy) (fun i => Hbyte 0 i ltac:(lia))) as [Hy1 Hy2].
  pose proof (quadrupled_lanes u _ (Hr 1 u ltac:(lia) Hu) (fun i => Hbyte 1 i ltac:(lia))) as [Hu1 Hu2].
  pose proof (quadrupled_lanes v _ (Hr 2 v ltac:(lia) Hvv) (fun i => Hbyte 2 i ltac:(lia))) as [Hv1 Hv2].
  cbn [fst snd] in *.
  assert (forall i, (i < 8)%nat -> 0 <= lane 0 i < 256 /\ 0 <= lane 1 i < 256 /\ 0 <= lane 2 i < 256) as Hlow.
  { intros i Hi. split_and!; apply Hbyte; lia. }
  assert (forall i, (i < 8)%nat -> 0 <= lane 0 (8 + i)%nat < 256 /\ 0 <= lane 1 (8 + i)%nat < 256 /\ 0 <= lane 2 (8 + i)%nat < 256) as Hhigh.
  { intros i Hi. split_and!; apply Hbyte; lia. }
  assert (forall l h f c, 0 <= c < output_channels kAlpha -> halves (l, h) f ->
    (forall i, saturate (f i) = rgb_value BGR c (fun e => lane e i)) ->
    holds 1 (fun k => rgb_value BGR c (fun e => mem (src + (3 * k + e) * 1))) (vcombine (vqmovun_s16 l) (vqmovun_s16 h))) as Hh.
  { intros l h f c Hc Hf He. apply lanes_holds.
    - eapply lanes_of_ext; [|apply narrowed, Hf]. intros i _. cbv beta. rewrite He. unfold rgb_value. by rewrite !Hlane.
    - intros k Hk. apply (value_byte (PixelValue := rgb_pixel BGR kAlpha)); [done|].
      intros e He'. replace (src + (3 * k + e) * 1) with (src + (3 * k + e)) by lia. apply Hv. lia. }
  pose proof (fun c Hc => Hh _ _ _ c Hc (conj (compute_b_lanes _ _ _ _ _ Hy1 Hu1 Hlow) (compute_b_lanes _ _ _ _ _ Hy2 Hu2 Hhigh))) as Hb.
  pose proof (fun c Hc => Hh _ _ _ c Hc (conj (compute_g_lanes _ _ _ _ _ _ Hy1 Hu1 Hv1 Hlow) (compute_g_lanes _ _ _ _ _ _ Hy2 Hu2 Hv2 Hhigh))) as Hg.
  pose proof (fun c Hc => Hh _ _ _ c Hc (conj (compute_r_lanes _ _ _ _ _ Hy1 Hv1 Hlow) (compute_r_lanes _ _ _ _ _ Hy2 Hv2 Hhigh))) as Hred.
  apply converts_interleaved; [apply _|by destruct BGR, kAlpha|done|].
  intros c Hc. assert (c = 0 \/ c = 1 \/ c = 2 \/ c = 3) as Hc' by (destruct kAlpha; unfold output_channels in Hc; lia).
  destruct BGR, kAlpha, Hc' as [-> |[-> |[-> | ->]]]; try (exfalso; unfold output_channels in Hc; lia);
    first [apply (Hb _ Hc); reflexivity|apply (Hg _ Hc); reflexivity|apply (Hred _ Hc); reflexivity|exact alpha_holds].
Qed.

(** ** Images *)

Lemma yuv2rgb_operation_correct BGR kAlpha src dst width height mem :
  placed_images 1 width height [3] [output_channels kAlpha] [src] [dst] -> image_of_bytes src 3 width height mem ->
  conversion_result 3 (output_channels kAlpha) (rgb_value BGR) src dst width height mem (yuv2rgb_operation BGR kAlpha src dst width height mem).
Proof.
  apply convert_correct; [apply _|].
  apply (operation_row_converts _ _ _ false true _ _ _ (yuv_to_rgb_vector BGR kAlpha) (yuv_to_rgb_scalar BGR kAlpha)). reflexivity.
Qed.

(** C33: for the four formats of YUV444, the vector and scalar paths compute the saturated red,
    green and blue of every pixel, in the order of channels that the flags of the format name and
    with an alpha of 255 where they ask for one; nothing else is written, exactly null pointers
    and images that are too large are rejected, and any other format is rejected with nothing
    written. *)
Theorem yuv444_to_rgb_correct src dst width height mem :
  (forall BGR kAlpha,
    placed_images 1 width height [3] [output_channels kAlpha] [src] [dst] -> image_of_bytes src 3 width height mem ->
    conversion_result 3 (output_channels kAlpha) (rgb_value BGR) src dst width height mem
      (yuv444_to_rgb_u8 src dst width height (yuv444_format BGR kAlpha) mem)) /\
  (forall color_format, (forall BGR kAlpha, color_format <> yuv444_format BGR kAlpha) ->
    yuv444_to_rgb_u8 src dst width height color_format mem = (KLEIDICV_ERROR_NOT_IMPLEMENTED, mem)).
Proof.
  split.
  - intros BGR kAlpha Hp Hv. pose proof (yuv2rgb_operation_correct BGR kAlpha src dst width height mem Hp Hv) as H.
    by destruct BGR, kAlpha.
  - intros f Hf. unfold yuv444_to_rgb_u8.
    destruct (Z.eqb_spec f KLEIDICV_YUV444_TO_RGB) as [E|_]; [by destruct (Hf false false)|].
    destruct (Z.eqb_spec f KLEIDICV_YUV444_TO_BGR) as [E|_]; [by destruct (Hf true false)|].
    destruct (Z.eqb_spec f KLEIDICV_YUV444_TO_RGBA) as [E|_]; [by destruct (Hf false true)|].
    destruct (Z.eqb_spec f KLEIDICV_YUV444_TO_BGRA) as [E|_]; [by destruct (Hf true true)|done].
Qed.

(** A row of pixels to BGRA; luma 200 without colour is grey. *)
Lemma yuv444_to_rgb_correct_witness :
  let mem p := if p mod 3 =? 0 then 200 else 128 in
  let result := yuv444_to_rgb_u8 (999, 9) (2000, 12) 3 1 KLEIDICV_YUV444_TO_BGRA mem in
  result.1 = KLEIDICV_OK /\ result.2 2004 = 200 /\ result.2 2005 = 200 /\ result.2 2006 = 200 /\ result.2 2007 = 255 /\
  yuv444_to_rgb_u8 (999, 9) (2000, 12) 3 1 2 mem = (KLEIDICV_ERROR_NOT_IMPLEMENTED, mem).
Proof.
  destruct (yuv444_to_rgb_correct (999, 9) (2000, 12) 3 1 (fun p => if p mod 3 =? 0 then 200 else 128)) as [H1 H2].
  destruct (H1 true true) as [Hok _].
  - place_images.
  - intros y x e _ _ _. destruct (_ =? _); lia.
  - destruct Hok as (Hok & Hp & _); [split; [repeat constructor; cbn; discriminate|vm_compute; discriminate]|].
    split; [exact Hok|]. split; [exact (Hp 0 1 0 ltac:(lia) ltac:(lia) ltac:(cbn; lia))|].
    split; [exact (Hp 0 1 1 ltac:(lia) ltac:(lia) ltac:(cbn; lia))|]. split; [exact (Hp 0 1 2 ltac:(lia) ltac:(lia) ltac:(cbn; lia))|].
    split; [exact (Hp 0 1 3 ltac:(lia) ltac:(lia) ltac:(cbn; lia))|].
    apply H2. intros [] []; discriminate.
Defined.
