(* ===== verification/Yuv444.v ===== *)
(** * Round trips through YUV444

    [rgb_to_yuv444_u8] followed by [yuv444_to_rgb_u8], and how far the fixed-point arithmetic is
    from the coefficients of ITU-R BT.601. *)

From S2P Require Import Prelude CTypes Utils Elementwise Arithmetic Channels PixelKernels PixelLanes RgbToYuv YuvToRgb.

Local Abbreviation Y := luma.
Local Abbreviation U r g b := (colour_difference kBUWeight b (luma r g b)).
Local Abbreviation V r g b := (colour_difference kRVWeight r (luma r g b)).

Section pixel.
Context (r g b : Z).
Hypothesis r_byte : 0 <= r < 256.
Hypothesis g_byte : 0 <= g < 256.
Hypothesis b_byte : 0 <= b < 256.

Lemma luma_accurate : Z.abs (1000 * luma r g b - (299 * r + 587 * g + 114 * b)) <= 507.
Proof. unfold luma, kRYWeight, kGYWeight, kBYWeight. mod_lia. Qed.

(** The difference of blue is never saturated. *)
Lemma blue_difference_byte : 0 <= U r g b < 256.
Proof. unfold colour_difference, luma, kBUWeight, kRYWeight, kGYWeight, kBYWeight. mod_lia. Qed.

Lemma blue_returns : Z.abs (luma r g b + rounded ((U r g b - 128) * kUBWeight) - b) <= 1.
Proof. unfold rounded, colour_difference, luma, kUBWeight, kBUWeight, kRYWeight, kGYWeight, kBYWeight. mod_lia. Qed.

Lemma red_returns : Z.abs (luma r g b + rounded ((V r g b - 128) * kVRWeight) - r) <= 1.
Proof. unfold rounded, colour_difference, luma, kVRWeight, kRVWeight, kRYWeight, kGYWeight, kBYWeight. mod_lia. Qed.

Lemma green_returns :
  Z.abs (luma r g b + rounded ((U r g b - 128) * kUGWeight + (V r g b - 128) * kVGWeight) - g) <= 1.
Proof. unfold rounded, colour_difference, luma, kUGWeight, kVGWeight, kBUWeight, kRVWeight, kRYWeight, kGYWeight, kBYWeight. mod_lia. Qed.
End pixel.

Lemma saturate_near x c : 0 <= c < 256 -> Z.abs (x - c) <= 1 -> Z.abs (saturate x - c) <= 1.
Proof. unfold saturate, clamp_to. cbn. lia. Qed.

Lemma saturate_id x : 0 <= x < 256 -> saturate x = x.
Proof. unfold saturate, clamp_to. cbn. lia. Qed.

(** A pixel that is encoded and decoded. *)
Lemma pixel_returns BGR r g b : 0 <= r < 256 -> 0 <= g < 256 -> 0 <= b < 256 ->
  let back c := rgb_channel BGR (yuv_channel r g b 0) (yuv_channel r g b 1) (yuv_channel r g b 2) c in
  Z.abs (back (YuvToRgb.b_index_ BGR) - b) <= 1 /\
  (0 <= V r g b < 256 -> Z.abs (back (YuvToRgb.r_index_ BGR) - r) <= 1 /\ Z.abs (back YuvToRgb.g_index_ - g) <= 1).
Proof.
  intros Hr Hg Hb back. pose proof (luma_byte r g b Hr Hg Hb) as Hy. pose proof (blue_difference_byte r g b Hr Hg Hb) as Hu.
  assert (yuv_channel r g b 0 = Y r g b) as E0 by (by apply saturate_id).
  assert (yuv_channel r g b 1 = U r g b) as E1 by (by apply saturate_id).
  subst back. cbv beta. rewrite E0, E1.
  assert (forall v, rgb_channel BGR (Y r g b) (U r g b) v (YuvToRgb.b_index_ BGR) = blue (Y r g b) (U r g b)) as -> by (by destruct BGR).
  split; [by apply saturate_near, blue_returns|].
  intros Hv. assert (yuv_channel r g b 2 = V r g b) as -> by (by apply saturate_id).
  assert (rgb_channel BGR (Y r g b) (U r g b) (V r g b) (YuvToRgb.r_index_ BGR) = red (Y r g b) (V r g b)) as -> by (by destruct BGR).
  assert (rgb_channel BGR (Y r g b) (U r g b) (V r g b) YuvToRgb.g_index_ = green (Y r g b) (U r g b) (V r g b)) as -> by (by destruct BGR).
  split; [by apply saturate_near, red_returns|by apply saturate_near, green_returns].
Qed.

(** C34: an image that is encoded to YUV444 and decoded again, in any of the orders of channels,
    has every blue value within one of the source, and every red and green value too wherever the
    difference of red fits in a byte; a new alpha channel is 255.  The difference of blue always
    fits. *)
Theorem yuv444_round_trip BGR kAlpha BGR' kAlpha' src mid dst width height mem :
  let sch := input_channels kAlpha in
  let dch := output_channels kAlpha' in
  placed_images 1 width height [sch] [3] [src] [mid] -> placed_images 1 width height [3] [dch] [mid] [dst] ->
  image_of_bytes src sch width height mem -> accepts 1 [src; mid] width height -> accepts 1 [mid; dst] width height ->
  let encoded := rgb_to_yuv444_u8 src mid width height (yuv444_format BGR kAlpha) mem in
  let decoded := yuv444_to_rgb_u8 mid dst width height (yuv444_format BGR' kAlpha') encoded.2 in
  encoded.1 = KLEIDICV_OK /\ decoded.1 = KLEIDICV_OK /\
  forall y x, 0 <= y < height -> 0 <= x < width ->
  let source e := mem (byte_address src sch y x e) in
  let result c := decoded.2 (byte_address dst dch y x c) in
  let r := source (RgbToYuv.r_index_ BGR) in
  let g := source RgbToYuv.g_index_ in
  let b := source (RgbToYuv.b_index_ BGR) in
  Z.abs (result (YuvToRgb.b_index_ BGR') - b) <= 1 /\
  (0 <= colour_difference kRVWeight r (luma r g b) < 256 ->
    Z.abs (result (YuvToRgb.r_index_ BGR') - r) <= 1 /\ Z.abs (result YuvToRgb.g_index_ - g) <= 1) /\
  (kAlpha' = true -> result alpha_index_ = 255).
Proof.
  intros sch dch Hp1 Hp2 Hv Ha1 Ha2 encoded decoded.
  assert (conversion_result sch 3 (yuv_value BGR) src mid width height mem encoded) as [H1 _].
  { pose proof (rgb2yuv_operation_correct BGR kAlpha src mid width height mem Hp1 Hv). by destruct BGR, kAlpha. }
  destruct (H1 Ha1) as (Hok1 & Hmid & _).
  assert (image_of_bytes mid 3 width height encoded.2) as Hv2.
  { intros y x c Hy Hx Hc. rewrite Hmid by done. apply saturate_byte. }
  assert (conversion_result 3 dch (rgb_value BGR') mid dst width height encoded.2 decoded) as [H2 _].
  { pose proof (yuv2rgb_operation_correct BGR' kAlpha' mid dst width height encoded.2 Hp2 Hv2). by destruct BGR', kAlpha'. }
  destruct (H2 Ha2) as (Hok2 & Hdst & _). split; [done|]. split; [done|].
  intros y x Hy Hx source result r g b. pose proof (RgbToYuv.index_range BGR kAlpha) as (Hr & Hg & Hb).
  assert (forall c, 0 <= c < dch -> result c = rgb_channel BGR' (yuv_channel r g b 0) (yuv_channel r g b 1) (yuv_channel r g b 2) c) as Hres.
  { intros c Hc. unfold result. rewrite Hdst by done. unfold rgb_value. rewrite !Hmid by (done || lia). reflexivity. }
  rewrite (Hres (YuvToRgb.b_index_ BGR')), (Hres (YuvToRgb.r_index_ BGR')), (Hres YuvToRgb.g_index_)
    by (destruct BGR', kAlpha'; unfold YuvToRgb.g_index_, dch; cbn; lia).
  destruct (pixel_returns BGR' r g b) as [Hblue Hother]; [by apply Hv..|]. split; [exact Hblue|]. split; [exact Hother|].
  intros ->. rewrite Hres by (unfold dch, alpha_index_; cbn; lia). by destruct BGR'.
Qed.

(** BGRA to YUV444 and back to RGB. *)
Lemma yuv444_round_trip_witness :
  let mem p := p mod 256 in
  let encoded := rgb_to_yuv444_u8 (1000, 12) (2000, 9) 3 2 (yuv444_format true true) mem in
  let decoded := yuv444_to_rgb_u8 (2000, 9) (3000, 9) 3 2 (yuv444_format false false) encoded.2 in
  decoded.1 = KLEIDICV_OK /\ Z.abs (decoded.2 (3000 + 9 + 3 + 2) - 1016 mod 256) <= 1 /\ Z.abs (decoded.2 (3000 + 9 + 3 + 0) - 1018 mod 256) <= 1.
Proof.
  destruct (yuv444_round_trip true true false false (1000, 12) (2000, 9) (3000, 9) 3 2 (fun p => p mod 256)) as (_ & H2 & H3).
  - place_images.
  - place_images.
  - intros y x e _ _ _. apply Z.mod_pos_bound. lia.
  - split; [repeat constructor; cbn; discriminate|vm_compute; discriminate].
  - split; [repeat constructor; cbn; discriminate|vm_compute; discriminate].
  - destruct (H3 1 1 ltac:(lia) ltac:(lia)) as (Hb & Hrg & _). split; [exact H2|]. split; [exact Hb|].
    refine (proj1 (Hrg _)). vm_compute. split; [discriminate|reflexivity].
Defined.
