(* ===== verification/Yuv420ToRgb.v ===== *)
(** * The arithmetic of YUV420 to RGB

    [conversions/yuv420_to_rgb_neon.h] and [yuv42x_coefficients.h]: two rows of luma share a row
    of chroma, of which a pair of values belongs to two pixels of each row.  [yuv420x_to_rgb] has
    a form for 16 pixels of both rows in vectors and one for a pixel of both rows. *)

From S2P Require Import Prelude CTypes Utils Vectors Rows Loops Arithmetic VectorMemory Registers PixelKernels PixelLanes.

(** ** Coefficients *)

Definition kWeightScale : Z := 20.
Definition kYWeight : Z := 1220542.
Definition kRVWeightIndex : nat := 0.
Definition kGUWeightIndex : nat := 1.
Definition kGVWeightIndex : nat := 2.
Definition kBUWeightIndex : nat := 3.
Definition kUVWeights : list Z := [1673527; -409993; -852492; 2116026].

(** ** [YUV420XToRGBxOrBGRx] *)

(** The table has -1 for bytes that are 0; as an index it is 255. *)
Definition kDeInterleaveTableIndices : list Z :=
  [0; -1; -1; -1;  2; -1; -1; -1;  4; -1; -1; -1;  6; -1; -1; -1;
   8; -1; -1; -1; 10; -1; -1; -1; 12; -1; -1; -1; 14; -1; -1; -1;
   1; -1; -1; -1;  3; -1; -1; -1;  5; -1; -1; -1;  7; -1; -1; -1;
   9; -1; -1; -1; 11; -1; -1; -1; 13; -1; -1; -1; 15; -1; -1; -1].
Definition de_interleave_indices_ : list (list Z) := chunks 16 (map (fun x => x mod 256) kDeInterleaveTableIndices).

Definition y_weight_ : list Z := vdup_n 4 kYWeight.
Definition uv_weights_ (k : nat) : list Z := vdup_n 4 (kUVWeights !!! k).
Definition r_base_ : list Z := vdup_n 4 (Z.shiftl 1 (kWeightScale - 1) - 128 * kUVWeights !!! kRVWeightIndex).
Definition g_base_ : list Z := vdup_n 4 (Z.shiftl 1 (kWeightScale - 1) - 128 * (kUVWeights !!! 1%nat + kUVWeights !!! 2%nat)).
Definition b_base_ : list Z := vdup_n 4 (Z.shiftl 1 (kWeightScale - 1) - 128 * kUVWeights !!! 3%nat).

(** [vqtbl1q_s8(v, de_interleave_indices_.val[k])] in 32-bit lanes. *)
Definition de_interleave (v : list Z) (k : nat) : list Z :=
  map (static_cast int32) (elements_of_register 4 (vqtblq_u8 [v] (de_interleave_indices_ !!! k))).

(** [vcombine_s16(vmovn_s32(vshrq_n_s32(a, ...)), vmovn_s32(vshrq_n_s32(b, ...)))]. *)
Definition combine_scaled_s16 (a b : list Z) : list Z :=
  let scaled x := vmov int16 (map (fun x => Z.shiftr x kWeightScale) x) in vcombine (scaled a) (scaled b).

Section conversion.
Context (BGR kAlpha v_first_ : bool).
Implicit Types (mem : Z -> Z).

Definition output_channels : Z := if kAlpha then 4 else 3.

(** One channel of 16 pixels of a row: what it differs from luma by, and the luma less 16. *)
Definition channel_of_row (sub_y_l sub_y_h y_m16 : list Z) : list Z :=
  let weighted k := vmul int32 (de_interleave y_m16 k) y_weight_ in
  let even := combine_scaled_s16 (vadd int32 sub_y_l (weighted 0%nat)) (vadd int32 sub_y_h (weighted 1%nat)) in
  let odd := combine_scaled_s16 (vadd int32 sub_y_l (weighted 2%nat)) (vadd int32 sub_y_h (weighted 3%nat)) in
  vcombine (vzip1q 1 (vqmovun_s16 even) (vqmovun_s16 odd)) (vzip2q 1 (vqmovun_s16 even) (vqmovun_s16 odd)).

(** [yuv420x_to_rgb] on vectors. *)
Definition yuv420x_to_rgb (y0 y1 u_l u_h v_l v_h : list Z) (rgbx_row_0 rgbx_row_1 : Z) mem : Z -> Z :=
  let y0_m16 := vqsubq uint8 y0 (vdupq_n_u8 16) in
  let y1_m16 := vqsubq uint8 y1 (vdupq_n_u8 16) in
  let '((u_l, v_l), (u_h, v_h)) := if v_first_ then ((v_l, u_l), (v_h, u_h)) else ((u_l, v_l), (u_h, v_h)) in
  let r_sub_y v := vmla int32 r_base_ v (uv_weights_ 0) in
  let g_sub_y u v := vmla int32 (vmla int32 g_base_ u (uv_weights_ 1)) v (uv_weights_ 2) in
  let b_sub_y u := vmla int32 b_base_ u (uv_weights_ 3) in
  let pixels y :=
    let r := channel_of_row (r_sub_y v_l) (r_sub_y v_h) y in
    let g := channel_of_row (g_sub_y u_l v_l) (g_sub_y u_h v_h) y in
    let b := channel_of_row (b_sub_y u_l) (b_sub_y u_h) y in
    (if BGR then [b; g; r] else [r; g; b]) ++ (if kAlpha then [vdupq_n_u8 255] else []) in
  let mem := vstq 1 rgbx_row_0 (pixels y0_m16) mem in
  vstq 1 rgbx_row_1 (pixels y1_m16) mem.

(** The body of the loop over the two rows in [yuv420x_to_rgb] on scalars: the row of the
    destination is advanced by a pixel. *)
Definition scalar_pixel (y_row index u_m128 v_m128 rgbx_row : Z) mem : Z * (Z -> Z) :=
  let y := kYWeight * Z.max (mem (y_row + index) - 16) 0 in
  let r := y + kUVWeights !!! kRVWeightIndex * v_m128 in
  let g := y + kUVWeights !!! kGUWeightIndex * u_m128 + kUVWeights !!! kGVWeightIndex * v_m128 in
  let b := y + kUVWeights !!! kBUWeightIndex * u_m128 in
  let r := rounding_shift_right int32 r kWeightScale in
  let g := rounding_shift_right int32 g kWeightScale in
  let b := rounding_shift_right int32 b kWeightScale in
  let '(r, b) := if BGR then (b, r) else (r, b) in
  let mem := upd mem rgbx_row (saturating_cast_signed_to_unsigned int32 uint8 r) in
  let mem := upd mem (rgbx_row + 1) (saturating_cast_signed_to_unsigned int32 uint8 g) in
  let mem := upd mem (rgbx_row + 2) (saturating_cast_signed_to_unsigned int32 uint8 b) in
  let mem := if kAlpha then upd mem (rgbx_row + 3) 255 else mem in
  (rgbx_row + (if kAlpha then 4 else 3), mem).

Definition yuv420x_to_rgb_scalar (y_rows : Z * Z) (index u_m128 v_m128 : Z) (rgbx_rows : Z * Z) mem : (Z * Z) * (Z -> Z) :=
  let '(row_0, mem) := scalar_pixel y_rows.1 index u_m128 v_m128 rgbx_rows.1 mem in
  let '(row_1, mem) := scalar_pixel y_rows.2 index u_m128 v_m128 rgbx_rows.2 mem in
  ((row_0, row_1), mem).
End conversion.

(** ** Values *)

Definition rounded20 (x : Z) : Z := (x + 2 ^ 19) / 2 ^ 20.
Definition scaled_luma (y : Z) : Z := kYWeight * Z.max (y - 16) 0.
Definition red (y v : Z) : Z := saturate (rounded20 (scaled_luma y + 1673527 * (v - 128))).
Definition green (y u v : Z) : Z := saturate (rounded20 (scaled_luma y - 409993 * (u - 128) - 852492 * (v - 128))).
Definition blue (y u : Z) : Z := saturate (rounded20 (scaled_luma y + 2116026 * (u - 128))).

(** Channel [c] of the pixel of a luma and a pair of chroma. *)
Definition rgb_of_yuv (BGR : bool) (y u v c : Z) : Z :=
  if c =? (if BGR then 2 else 0) then red y v else if c =? 1 then green y u v
  else if c =? (if BGR then 0 else 2) then blue y u else 255.

Lemma rgb_of_yuv_byte BGR y u v c : 0 <= rgb_of_yuv BGR y u v c < 256.
Proof. unfold rgb_of_yuv, red, green, blue. repeat case_match; first [apply saturate_byte|lia]. Qed.

(** ** Vectors, lane by lane *)

Section bytes.
Context (f : nat -> Z).
Local Abbreviation V := (map f (seq 0 16)).

(** The byte that table [k] puts into lane [i]. *)
Definition de_interleaved (k i : nat) : nat :=
  match k with 0 => 2 * i | 1 => 2 * (4 + i) | 2 => 2 * i + 1 | _ => 2 * (4 + i) + 1 end%nat.

Lemma de_interleave_chunks k : (k < 4)%nat ->
  chunks 4 (vqtblq_u8 [V] (de_interleave_indices_ !!! k)) = map (fun i => [f (de_interleaved k i); 0; 0; 0]) (seq 0 4).
Proof. intros Hk. do 4 (destruct k as [|k]; [reflexivity|]). lia. Qed.

Lemma de_interleave_lanes v k : (k < 4)%nat -> v = V -> (forall i, (i < 16)%nat -> 0 <= f i < 256) ->
  lanes_of 4 (de_interleave v k) (fun i => f (de_interleaved k i)).
Proof.
  intros Hk -> Hf. unfold de_interleave, elements_of_register. rewrite de_interleave_chunks by done. rewrite !map_map.
  split; [by rewrite length_map, length_seq|]. intros i Hi. apply list_lookup_total_correct.
  rewrite list_lookup_fmap, lookup_seq_lt by done. cbn. f_equal. rewrite Z.add_0_r. apply cast_s32.
  assert (de_interleaved k i < 16)%nat as Hd by (unfold de_interleaved; repeat case_match; lia). specialize (Hf _ Hd). lia.
Qed.
End bytes.

(** Even and odd lanes back in order. *)
Lemma zipped_lanes a b f g : lanes_of 8 a f -> lanes_of 8 b g ->
  lanes_of 16 (vcombine (vzip1q 1 a b) (vzip2q 1 a b)) (fun j => if Nat.even j then f (Nat.div2 j) else g (Nat.div2 j)).
Proof.
  intros ->%lanes_of_list ->%lanes_of_list. split; [reflexivity|]. intros i Hi. do 16 (destruct i as [|i]; [reflexivity|]). lia.
Qed.

Lemma shifted_lane x : - 2 ^ 30 <= x < 2 ^ 30 ->
  static_cast int16 (Z.shiftr (x + 2 ^ 19) kWeightScale) = rounded20 x.
Proof.
  intros Hx. unfold kWeightScale, rounded20. rewrite Z.shiftr_div_pow2 by lia. apply cast_s16. mod_lia.
Qed.

(** A channel of 16 pixels; [sub] is what it differs from luma by. *)
Lemma channel_lanes sub_l sub_h y fy (sub : nat -> Z) :
  lanes_of 4 sub_l (fun i => sub i + 2 ^ 19) -> lanes_of 4 sub_h (fun i => sub (4 + i)%nat + 2 ^ 19) -> y = map fy (seq 0 16) ->
  (forall i, (i < 16)%nat -> 0 <= fy i < 240) -> (forall i, (i < 8)%nat -> - 2 ^ 29 <= sub i < 2 ^ 29) ->
  lanes_of 16 (channel_of_row sub_l sub_h y) (fun j => saturate (rounded20 (kYWeight * fy j + sub (Nat.div2 j)))).
Proof.
  intros Hl Hh Hy Hfy Hsub.
  pose proof (fun k Hk => de_interleave_lanes fy y k Hk Hy (fun i Hi => ltac:(specialize (Hfy i Hi); lia))) as Hde.
  assert (forall k1 k2 : nat, (k1 < 4)%nat -> (k2 < 4)%nat -> (forall i, (i < 4)%nat -> de_interleaved k2 i = de_interleaved k1 (4 + i)%nat) ->
    lanes_of 8 (combine_scaled_s16 (vadd int32 sub_l (vmul int32 (de_interleave y k1) y_weight_)) (vadd int32 sub_h (vmul int32 (de_interleave y k2) y_weight_)))
      (fun i => rounded20 (kYWeight * fy (de_interleaved k1 i) + sub i))) as Hc.
  { intros k1 k2 Hk1 Hk2 Hk. unfold combine_scaled_s16. cbv zeta.
    assert (forall (i d : nat) x, (i < 8)%nat -> (d < 16)%nat -> x = fy d ->
      static_cast int16 (Z.shiftr (static_cast int32 (sub i + 2 ^ 19 + static_cast int32 (x * kYWeight))) kWeightScale) =
      rounded20 (kYWeight * fy d + sub i)) as Hx.
    { intros i d x Hi Hd ->. specialize (Hsub i Hi). specialize (Hfy d Hd). unfold kYWeight. no_wrap.
      replace (sub i + 2 ^ 19 + fy d * 1220542) with (1220542 * fy d + sub i + 2 ^ 19) by lia. apply shifted_lane. lia. }
    assert (forall k i, (k < 4)%nat -> (i < 4)%nat -> (de_interleaved k i < 16)%nat) as Hd.
    { intros k i Hk' Hi. unfold de_interleaved. repeat case_match; lia. }
    apply (lanes_of_app 4).
    - eapply lanes_of_ext; [|apply lanes_of_map, lanes_of_map, lanes_of_zip_with; [exact Hl|apply lanes_of_zip_with; [exact (Hde k1 Hk1)|apply lanes_of_dup]]].
      intros i Hi. cbv beta. apply Hx; [lia|by apply Hd|done].
    - eapply lanes_of_ext; [|apply lanes_of_map, lanes_of_map, lanes_of_zip_with; [exact Hh|apply lanes_of_zip_with; [exact (Hde k2 Hk2)|apply lanes_of_dup]]].
      intros i Hi. cbv beta. rewrite Hk by done. apply Hx; [lia| |done]. rewrite <- Hk by done. by apply Hd. }
  unfold channel_of_row. cbv zeta.
  eapply lanes_of_ext; [|apply zipped_lanes; unfold vqmovun_s16, vqmovn_clamp; apply lanes_of_map; apply Hc; cbn; lia].
  intros j Hj. cbv beta. do 16 (destruct j as [|j]; [reflexivity|]). lia.
Qed.

(** Luma less 16, which does not go below 0. *)
Lemma luma_less_16 y (Y : Z -> Z) : y = map (fun i => Y (Z.of_nat i)) (seq 0 16) -> (forall k, 0 <= k < 16 -> 0 <= Y k < 256) ->
  vqsubq uint8 y (vdupq_n_u8 16) = map (fun i => Z.max (Y (Z.of_nat i) - 16) 0) (seq 0 16).
Proof.
  intros -> HY. unfold vqsubq, vdupq_n_u8. apply list_eq. intros i. rewrite lookup_zip_with, !list_lookup_fmap.
  destruct (decide (i < 16)%nat) as [Hi|Hi]; [|by rewrite !(lookup_ge_None_2 (seq 0 16)) by (rewrite length_seq; lia)].
  rewrite lookup_seq_lt by done. rewrite lookup_replicate_2 by done. cbn [mbind option_bind fmap option_fmap option_map]. f_equal.
  change (0 + i)%nat with i. specialize (HY (Z.of_nat i) ltac:(lia)). unfold clamp_to. cbn. lia.
Qed.

Section differences.
Context (u_l u_h v_l v_h : list Z) (U V : Z -> Z).
Hypothesis u_lanes : lanes_of 4 u_l (fun i => U (Z.of_nat i)) /\ lanes_of 4 u_h (fun i => U (Z.of_nat (4 + i))).
Hypothesis v_lanes : lanes_of 4 v_l (fun i => V (Z.of_nat i)) /\ lanes_of 4 v_h (fun i => V (Z.of_nat (4 + i))).
Hypothesis chroma_bytes : forall k, 0 <= k < 8 -> 0 <= U k < 256 /\ 0 <= V k < 256.
Context (BGR : bool) (y : list Z) (Y : Z -> Z).
Hypothesis y_register : y = map (fun i => Z.max (Y (Z.of_nat i) - 16) 0) (seq 0 16).
Hypothesis y_bytes : forall k, 0 <= k < 16 -> 0 <= Y k < 256.

Lemma half_of j : (j < 16)%nat -> 0 <= Z.of_nat (Nat.div2 j) < 8 /\ Z.of_nat j / 2 = Z.of_nat (Nat.div2 j).
Proof. intros Hj. do 16 (destruct j as [|j]; [by vm_compute|]). lia. Qed.

Lemma channel_value sub_l sub_h (sub : Z -> Z) (value : Z -> Z) :
  lanes_of 4 sub_l (fun i => sub (Z.of_nat i) + 2 ^ 19) -> lanes_of 4 sub_h (fun i => sub (Z.of_nat (4 + i)) + 2 ^ 19) ->
  (forall k, 0 <= k < 8 -> - 2 ^ 29 <= sub k < 2 ^ 29) ->
  (forall k, 0 <= k < 16 -> saturate (rounded20 (scaled_luma (Y k) + sub (k / 2))) = value k) ->
  holds 1 value (channel_of_row sub_l sub_h y).
Proof.
  intros Hl Hh Hs Hv. apply lanes_holds; [|intros k Hk; rewrite <- Hv by done; apply saturate_byte].
  eapply lanes_of_ext; [|apply (channel_lanes sub_l sub_h y (fun i => Z.max (Y (Z.of_nat i) - 16) 0) (fun i => sub (Z.of_nat i)) Hl Hh y_register)].
  - intros j Hj. cbv beta. rewrite <- Hv by lia. destruct (half_of j Hj) as [_ ->]. reflexivity.
  - intros i Hi. specialize (y_bytes (Z.of_nat i) ltac:(lia)). lia.
  - intros i Hi. apply Hs. lia.
Qed.

Ltac difference_lanes :=
  first [apply lanes_of_dup|eassumption|apply lanes_of_zip_with; difference_lanes].

(** The sums of weighted chroma. *)
Ltac weigh_chroma i :=
  cbv beta;
  change (kUVWeights !!! 0%nat) with 1673527; change (kUVWeights !!! kRVWeightIndex) with 1673527;
  change (kUVWeights !!! 1%nat) with (-409993); change (kUVWeights !!! 2%nat) with (-852492); change (kUVWeights !!! 3%nat) with 2116026;
  change (Z.shiftl 1 (kWeightScale - 1)) with (2 ^ 19); pose proof (chroma_bytes i ltac:(lia)); no_wrap; lia.

Lemma red_channel : holds 1 (fun k => red (Y k) (V (k / 2)))
  (channel_of_row (vmla int32 r_base_ v_l (uv_weights_ 0)) (vmla int32 r_base_ v_h (uv_weights_ 0)) y).
Proof.
  destruct v_lanes as [Hl Hh]. apply (channel_value _ _ (fun k => 1673527 * (V k - 128))); [| | |done].
  - eapply lanes_of_ext; [|difference_lanes]. intros i Hi. weigh_chroma (Z.of_nat i).
  - eapply lanes_of_ext; [|difference_lanes]. intros i Hi. weigh_chroma (Z.of_nat (4 + i)).
  - intros k Hk. specialize (chroma_bytes k Hk). lia.
Qed.

Lemma blue_channel : holds 1 (fun k => blue (Y k) (U (k / 2)))
  (channel_of_row (vmla int32 b_base_ u_l (uv_weights_ 3)) (vmla int32 b_base_ u_h (uv_weights_ 3)) y).
Proof.
  destruct u_lanes as [Hl Hh]. apply (channel_value _ _ (fun k => 2116026 * (U k - 128))); [| | |done].
  - eapply lanes_of_ext; [|difference_lanes]. intros i Hi. weigh_chroma (Z.of_nat i).
  - eapply lanes_of_ext; [|difference_lanes]. intros i Hi. weigh_chroma (Z.of_nat (4 + i)).
  - intros k Hk. specialize (chroma_bytes k Hk). lia.
Qed.

Lemma green_channel : holds 1 (fun k => green (Y k) (U (k / 2)) (V (k / 2)))
  (channel_of_row (vmla int32 (vmla int32 g_base_ u_l (uv_weights_ 1)) v_l (uv_weights_ 2))
    (vmla int32 (vmla int32 g_base_ u_h (uv_weights_ 1)) v_h (uv_weights_ 2)) y).
Proof.
  destruct u_lanes as [Hul Huh], v_lanes as [Hvl Hvh]. apply (channel_value _ _ (fun k => -409993 * (U k - 128) - 852492 * (V k - 128))).
  - eapply lanes_of_ext; [|difference_lanes]. intros i Hi. weigh_chroma (Z.of_nat i).
  - eapply lanes_of_ext; [|difference_lanes]. intros i Hi. weigh_chroma (Z.of_nat (4 + i)).
  - intros k Hk. specialize (chroma_bytes k Hk). lia.
  - intros k Hk. unfold green. do 2 f_equal. lia.
Qed.
End differences.

(** Byte [m] of a row of pixels of a luma for each and a pair of chroma for every two. *)
Definition row_byte (BGR kAlpha : bool) (Y U V : Z -> Z) (m : Z) : Z :=
  let ch := output_channels kAlpha in rgb_of_yuv BGR (Y (m / ch)) (U (m / ch / 2)) (V (m / ch / 2)) (m mod ch).

Lemma row_byte_unsigned BGR kAlpha Y U V m : 0 <= row_byte BGR kAlpha Y U V m < 256.
Proof. apply rgb_of_yuv_byte. Qed.

Lemma pixels_filled BGR kAlpha (Y U V : Z -> Z) r g b row mem :
  holds 1 (fun k => red (Y k) (V (k / 2))) r -> holds 1 (fun k => green (Y k) (U (k / 2)) (V (k / 2))) g ->
  holds 1 (fun k => blue (Y k) (U (k / 2))) b ->
  filled 1 row 0 (16 * output_channels kAlpha) (row_byte BGR kAlpha Y U V) mem
    (vstq 1 row ((if BGR then [b; g; r] else [r; g; b]) ++ (if kAlpha then [vdupq_n_u8 255] else [])) mem).
Proof.
  intros Hr Hg Hb. set (regs := _ ++ _). assert (Z.of_nat (length regs) = output_channels kAlpha) as Hl by (by destruct BGR, kAlpha).
  pose proof (vstq_filled 1 (fun c k => rgb_of_yuv BGR (Y k) (U (k / 2)) (V (k / 2)) c) row regs mem (or_introl eq_refl)) as Hf.
  rewrite Hl in Hf. cbv zeta in Hf. change (num_lanes 1) with 16 in Hf. rewrite Z.mul_comm. apply Hf.
  - intros c Hc. assert (c = 0 \/ c = 1 \/ c = 2 \/ c = 3) as Hc' by (destruct kAlpha; unfold output_channels in Hc; lia).
    destruct BGR, kAlpha, Hc' as [-> |[-> |[-> | ->]]]; try (exfalso; unfold output_channels in Hc; lia);
      first [exact Hr|exact Hg|exact Hb|exact alpha_holds].
  - intros c k _ _. apply rgb_of_yuv_byte.
Qed.

(** Both rows of 16 pixels. *)
Lemma yuv420x_to_rgb_rows BGR kAlpha (v_first : bool) y0 y1 u_l u_h v_l v_h (Y0 Y1 U V : Z -> Z) row_0 row_1 mem :
  y0 = map (fun i => Y0 (Z.of_nat i)) (seq 0 16) -> y1 = map (fun i => Y1 (Z.of_nat i)) (seq 0 16) ->
  lanes_of 4 u_l (fun i => U (Z.of_nat i)) /\ lanes_of 4 u_h (fun i => U (Z.of_nat (4 + i))) ->
  lanes_of 4 v_l (fun i => V (Z.of_nat i)) /\ lanes_of 4 v_h (fun i => V (Z.of_nat (4 + i))) ->
  (forall k, 0 <= k < 16 -> 0 <= Y0 k < 256 /\ 0 <= Y1 k < 256) -> (forall k, 0 <= k < 8 -> 0 <= U k < 256 /\ 0 <= V k < 256) ->
  let value (Y : Z -> Z) := row_byte BGR kAlpha Y (if v_first then V else U) (if v_first then U else V) in
  exists mem1, filled 1 row_0 0 (16 * output_channels kAlpha) (value Y0) mem mem1 /\
    filled 1 row_1 0 (16 * output_channels kAlpha) (value Y1) mem1
      (yuv420x_to_rgb BGR kAlpha v_first y0 y1 u_l u_h v_l v_h row_0 row_1 mem).
Proof.
  intros Hy0 Hy1 Hu Hv HY HUV value. unfold yuv420x_to_rgb. cbv zeta.
  rewrite (luma_less_16 y0 Y0 Hy0) by (intros; by apply HY). rewrite (luma_less_16 y1 Y1 Hy1) by (intros; by apply HY).
  set (U' := if v_first then V else U) in *. set (V' := if v_first then U else V) in *.
  destruct (if v_first then ((v_l, u_l), (v_h, u_h)) else ((u_l, v_l), (u_h, v_h))) as [[u_l' v_l'] [u_h' v_h']] eqn:Hsw.
  assert (lanes_of 4 u_l' (fun i => U' (Z.of_nat i)) /\ lanes_of 4 u_h' (fun i => U' (Z.of_nat (4 + i)))) as Hu'.
  { subst U'. by destruct v_first; injection Hsw as <- <- <- <-. }
  assert (lanes_of 4 v_l' (fun i => V' (Z.of_nat i)) /\ lanes_of 4 v_h' (fun i => V' (Z.of_nat (4 + i)))) as Hv'.
  { subst V'. by destruct v_first; injection Hsw as <- <- <- <-. }
  assert (forall k, 0 <= k < 8 -> 0 <= U' k < 256 /\ 0 <= V' k < 256) as HUV'.
  { intros k Hk. specialize (HUV k Hk). subst U' V'. destruct v_first; tauto. }
  pose proof (fun (Y : Z -> Z) HY' => red_channel v_l' v_h' U' V' Hv' HUV' _ Y eq_refl HY') as Hred.
  pose proof (fun (Y : Z -> Z) HY' => green_channel u_l' u_h' v_l' v_h' U' V' Hu' Hv' HUV' _ Y eq_refl HY') as Hgreen.
  pose proof (fun (Y : Z -> Z) HY' => blue_channel u_l' u_h' U' V' Hu' HUV' _ Y eq_refl HY') as Hblue.
  assert (forall k, 0 <= k < 16 -> 0 <= Y0 k < 256) as H0 by (intros; by apply HY).
  assert (forall k, 0 <= k < 16 -> 0 <= Y1 k < 256) as H1 by (intros; by apply HY).
  exact (ex_intro _ _ (conj (pixels_filled BGR kAlpha Y0 U' V' _ _ _ row_0 mem (Hred Y0 H0) (Hgreen Y0 H0) (Hblue Y0 H0))
    (pixels_filled BGR kAlpha Y1 U' V' _ _ _ row_1 _ (Hred Y1 H1) (Hgreen Y1 H1) (Hblue Y1 H1)))).
Qed.

(** ** Scalars *)

Lemma rounding_shift20 x : - 2 ^ 30 <= x < 2 ^ 30 -> rounding_shift_right int32 x kWeightScale = rounded20 x.
Proof.
  intros Hx. unfold rounding_shift_right, kWeightScale, rounded20. change (Z.shiftl 1 (20 - 1)) with (2 ^ 19).
  rewrite cast_s32 by lia. by rewrite Z.shiftr_div_pow2.
Qed.

(** One pixel of a row. *)
Lemma scalar_pixel_filled BGR kAlpha y_row index u v row mem : 0 <= mem (y_row + index) < 256 -> 0 <= u < 256 -> 0 <= v < 256 ->
  let result := scalar_pixel BGR kAlpha y_row index (u - 128) (v - 128) row mem in
  result.1 = row + output_channels kAlpha /\
  filled 1 row 0 (output_channels kAlpha) (rgb_of_yuv BGR (mem (y_row + index)) u v) mem result.2.
Proof.
  intros Hy Hu Hv. unfold scalar_pixel. cbv zeta. generalize dependent (mem (y_row + index)). intros y Hy.
  change (kUVWeights !!! kRVWeightIndex) with 1673527. change (kUVWeights !!! kGUWeightIndex) with (-409993).
  change (kUVWeights !!! kGVWeightIndex) with (-852492). change (kUVWeights !!! kBUWeightIndex) with 2116026.
  fold (scaled_luma y). assert (0 <= scaled_luma y < 2 ^ 29) as Hl by (unfold scaled_luma, kYWeight; lia).
  rewrite !rounding_shift20 by lia.
  assert (forall x, - 2 ^ 30 <= x < 2 ^ 30 -> saturating_cast_signed_to_unsigned int32 uint8 (rounded20 x) = saturate (rounded20 x)) as Hs.
  { intros x Hx. apply saturating_cast_saturates. unfold rounded20. mod_lia. }
  replace (scaled_luma y + -409993 * (u - 128) + -852492 * (v - 128)) with (scaled_luma y - 409993 * (u - 128) - 852492 * (v - 128)) by lia.
  assert (forall r g b, filled 1 row 0 (output_channels kAlpha)
    (fun c => if c =? (if BGR then 2 else 0) then r else if c =? 1 then g else if c =? (if BGR then 0 else 2) then b else 255) mem
    (let mem := upd mem row (if BGR then b else r) in let mem := upd mem (row + 1) g in let mem := upd mem (row + 2) (if BGR then r else b) in
     if kAlpha then upd mem (row + 3) 255 else mem)) as Hf.
  { intros r g b. cbv zeta. split.
    - intros k Hk. destruct BGR, kAlpha; unfold output_channels in Hk; unfold upd; repeat case_decide; case_cmp; first [done|lia].
    - intros p Hp. pose proof (Hp 0). pose proof (Hp 1). pose proof (Hp 2). pose proof (Hp 3).
      destruct kAlpha; unfold output_channels in *; unfold upd; repeat case_decide; first [done|lia]. }
  specialize (Hf (red y v) (green y u v) (blue y u)). unfold red, green, blue in Hf.
  destruct BGR; cbn [fst snd]; rewrite !Hs by lia; split; first [by destruct kAlpha|exact Hf].
Qed.
