(* ===== verification/RowPairs.v ===== *)
(** * Results in pairs of rows

    What the YUV420 conversions write: two rows of the destination at a time, which are the same
    row when the height is odd and the pair is the last one.  [rows_filled] is the state of a
    pair, [rows_of_pairs] that of an image after all its pairs. *)

From S2P Require Import Prelude Rows VectorMemory.

(** ** A pair of rows *)

Section pair.
Context (row_0 row_1 : Z).
Implicit Types (v w : Z -> Z) (mem : Z -> Z).

(** The first [n] bytes of both rows have the values of [v0] and [v1], all else is as before. *)
Definition rows_filled (n : Z) v0 v1 mem mem' : Prop :=
  (forall m, 0 <= m < n -> mem' (row_0 + m) = v0 m /\ mem' (row_1 + m) = v1 m) /\
  (forall p, (forall m, 0 <= m < n -> p <> row_0 + m /\ p <> row_1 + m) -> mem' p = mem p).

(** The rows are apart, or they are the same row and have the same values. *)
Definition compatible (n : Z) v0 v1 : Prop :=
  forall i j, 0 <= i < n -> 0 <= j < n -> row_0 + i = row_1 + j -> i = j /\ v0 i = v1 i.

Lemma rows_filled_none v0 v1 mem : rows_filled 0 v0 v1 mem mem.
Proof. split; [lia|done]. Qed.

Lemma rows_filled_ext n v0 v1 w0 w1 mem mem' : (forall m, 0 <= m < n -> v0 m = w0 m /\ v1 m = w1 m) ->
  rows_filled n v0 v1 mem mem' -> rows_filled n w0 w1 mem mem'.
Proof. intros He [H1 H2]. split; [|done]. intros m Hm. destruct (He m Hm) as [<- <-]. by apply H1. Qed.

(** A block of [m] bytes in both rows, which may be over bytes that are filled already. *)
Lemma rows_filled_over n k m v0 v1 v0' v1' w0 w1 mem mem1 mem2 mem3 : 0 <= k <= n -> 0 <= m ->
  compatible (Z.max n (k + m)) v0' v1' -> rows_filled n v0 v1 mem mem1 ->
  filled 1 (row_0 + k) 0 m w0 mem1 mem2 -> filled 1 (row_1 + k) 0 m w1 mem2 mem3 ->
  (forall i, 0 <= i < m -> w0 i = v0' (k + i) /\ w1 i = v1' (k + i)) ->
  (forall i, 0 <= i < n -> ~ k <= i < k + m -> v0 i = v0' i /\ v1 i = v1' i) ->
  rows_filled (Z.max n (k + m)) v0' v1' mem mem3.
Proof.
  intros Hk Hm Hc [H1 H2] [H3 H4] [H5 H6] Hw Hv.
  assert (forall i, k <= i < k + m -> mem2 (row_0 + i) = v0' i) as Hb0.
  { intros i Hi. specialize (H3 (i - k) ltac:(lia)). rewrite Z.mul_1_r in H3. replace (row_0 + k + (i - k)) with (row_0 + i) in H3 by lia.
    rewrite H3. destruct (Hw (i - k) ltac:(lia)) as [-> _]. f_equal. lia. }
  assert (forall i, k <= i < k + m -> mem3 (row_1 + i) = v1' i) as Hb1.
  { intros i Hi. specialize (H5 (i - k) ltac:(lia)). rewrite Z.mul_1_r in H5. replace (row_1 + k + (i - k)) with (row_1 + i) in H5 by lia.
    rewrite H5. destruct (Hw (i - k) ltac:(lia)) as [_ ->]. f_equal. lia. }
  assert (forall p, (forall i, k <= i < k + m -> p <> row_0 + i) -> mem2 p = mem1 p) as Ho0.
  { intros p Hp. apply H4. intros i Hi. specialize (Hp (k + i) ltac:(lia)). lia. }
  assert (forall p, (forall i, k <= i < k + m -> p <> row_1 + i) -> mem3 p = mem2 p) as Ho1.
  { intros p Hp. apply H6. intros i Hi. specialize (Hp (k + i) ltac:(lia)). lia. }
  split.
  - intros i Hi. split.
    + set (j := row_0 + i - row_1). assert (row_0 + i = row_1 + j) as E by lia.
      destruct (decide (k <= j < k + m)) as [Hj|Hno].
      * destruct (Hc i j ltac:(lia) ltac:(lia) E) as [<- ->]. rewrite E. by apply Hb1.
      * rewrite Ho1 by lia.
        destruct (decide (k <= i < k + m)) as [Hin|Hout]; [by apply Hb0|].
        rewrite Ho0 by lia. destruct (H1 i ltac:(lia)) as [-> _]. by destruct (Hv i ltac:(lia) Hout) as [-> _].
    + destruct (decide (k <= i < k + m)) as [Hin|Hout]; [by apply Hb1|].
      rewrite Ho1 by lia. set (j := row_1 + i - row_0). assert (row_0 + j = row_1 + i) as E by lia.
      destruct (decide (k <= j < k + m)) as [Hj|Hno].
      * destruct (Hc j i ltac:(lia) ltac:(lia) E). lia.
      * rewrite Ho0 by lia. destruct (H1 i ltac:(lia)) as [_ ->]. by destruct (Hv i ltac:(lia) Hout) as [_ ->].
  - intros p Hp. rewrite Ho1, Ho0, H2; [done| | |]; intros i Hi; destruct (Hp i ltac:(lia)); done || split; done.
Qed.

(** A block next to those that are filled. *)
Lemma rows_filled_extend n m v0 v1 w0 w1 mem mem1 mem2 mem3 : 0 <= n -> 0 <= m ->
  compatible (n + m) v0 v1 -> rows_filled n v0 v1 mem mem1 ->
  filled 1 (row_0 + n) 0 m w0 mem1 mem2 -> filled 1 (row_1 + n) 0 m w1 mem2 mem3 ->
  (forall i, 0 <= i < m -> w0 i = v0 (n + i) /\ w1 i = v1 (n + i)) ->
  rows_filled (n + m) v0 v1 mem mem3.
Proof.
  intros Hn Hm Hc H1 H2 H3 Hw. rewrite <- (Z.max_r n (n + m)) in Hc |- * by lia.
  by apply (rows_filled_over n n m v0 v1 v0 v1 w0 w1 mem mem1 mem2 mem3); try done; lia.
Qed.

(** What is not in the rows stays. *)
Lemma rows_filled_other n v0 v1 mem mem' p : rows_filled n v0 v1 mem mem' ->
  (forall m, 0 <= m < n -> p <> row_0 + m /\ p <> row_1 + m) -> mem' p = mem p.
Proof. intros [_ H]. exact (H p). Qed.
End pair.

(** ** The pairs of an image *)

(** The second row of pair [i]. *)
Definition second_row (height i : Z) : Z := if height =? 2 * i + 1 then 2 * i else 2 * i + 1.

Section image.
Context (dst stride n height : Z) (value : Z -> Z -> Z) (mem0 : Z -> Z).
Hypothesis rows_distinct : forall y m y' m', 0 <= y < height -> 0 <= m < n -> 0 <= y' < height -> 0 <= m' < n ->
  dst + y * stride + m = dst + y' * stride + m' -> y = y' /\ m = m'.

(** The bytes of the rows [lo, hi). *)
Definition rows_written (lo hi : Z) (mem mem' : Z -> Z) : Prop :=
  (forall y m, lo <= y < hi -> 0 <= m < n -> mem' (dst + y * stride + m) = value y m) /\
  (forall p, (forall y m, lo <= y < hi -> 0 <= m < n -> p <> dst + y * stride + m) -> mem' p = mem p).

Lemma pair_compatible i : 0 <= i -> 2 * i < height ->
  compatible (dst + 2 * i * stride) (dst + second_row height i * stride) n (value (2 * i)) (value (second_row height i)).
Proof.
  intros Hi Hh k j Hk Hj E. unfold second_row in *. destruct (Z.eqb_spec height (2 * i + 1)) as [|Hne].
  - split; [lia|done].
  - apply rows_distinct in E; lia.
Qed.

(** What is written determines the memory. *)
Lemma rows_written_unique lo hi mem mem1 mem2 : rows_written lo hi mem mem1 -> rows_written lo hi mem mem2 -> forall p, mem1 p = mem2 p.
Proof.
  intros [H1 H2] [H3 H4] p.
  destruct (decide (Exists (fun y => Exists (fun m => p = dst + y * stride + m) (seqZ 0 n)) (seqZ lo (hi - lo)))) as [Hex|Hno].
  - apply Exists_exists in Hex as (y & Hy%elem_of_seqZ & Hex). apply Exists_exists in Hex as (m & Hm%elem_of_seqZ & ->). by rewrite H1, H3 by lia.
  - assert (forall y m, lo <= y < hi -> 0 <= m < n -> p <> dst + y * stride + m) as Hp.
    { intros y m Hy Hm E. apply Hno, Exists_exists. exists y. split; [apply elem_of_seqZ; lia|]. apply Exists_exists. exists m. split; [apply elem_of_seqZ; lia|done]. }
    by rewrite H2, H4.
Qed.

(** All the pairs [lo, hi), each given what the earlier ones leave. *)
Lemma rows_of_pairs body lo hi : 0 <= lo <= hi -> 2 * hi <= height + 1 ->
  (forall i mem, lo <= i < hi ->
    (forall p, (forall y m, 0 <= y < height -> 0 <= m < n -> p <> dst + y * stride + m) -> mem p = mem0 p) ->
    rows_filled (dst + 2 * i * stride) (dst + second_row height i * stride) n (value (2 * i)) (value (second_row height i)) mem (body i mem)) ->
  rows_written (2 * lo) (Z.min height (2 * hi)) mem0 (for_range lo hi body mem0).
Proof.
  intros Hlo Hhi Hbody. apply (for_range_ind (fun i mem => rows_written (2 * lo) (Z.min height (2 * i)) mem0 mem)); [lia| |].
  - split; [lia|done].
  - intros i mem Hi [H1 H2]. destruct (Hbody i mem Hi) as [H3 H4].
    { intros p Hp. apply H2. intros y m Hy Hm. apply Hp; lia. }
    assert (2 * i <= second_row height i < height /\ second_row height i < 2 * i + 2 /\
      (forall y, 2 * i <= y < Z.min height (2 * (i + 1)) -> y = 2 * i \/ y = second_row height i)) as (Hs1 & Hs2 & Hs3).
    { unfold second_row. destruct (Z.eqb_spec height (2 * i + 1)); (split; [lia|split; [lia|intros y Hy; lia]]). }
    split.
    + intros y m Hy Hm. destruct (decide (2 * i <= y)) as [Hge|Hlt].
      * destruct (Hs3 y ltac:(lia)) as [-> | ->]; by apply H3.
      * rewrite H4; [apply H1; lia|]. intros m' Hm'. clear - rows_distinct Hs1 Hs2 Hy Hm Hm' Hlt Hi Hlo Hhi. split; intros E; apply rows_distinct in E; lia.
    + intros p Hp. rewrite H4; [|intros m Hm; split; apply Hp; lia]. apply H2. intros y m Hy Hm. apply Hp; lia.
Qed.
End image.
