(* ===== verification/Yuv420Rows.v ===== *)
(** * Pairs of rows of YUV420 pixels

    What a step of the conversions from YUV420 does to the two rows of the destination that share
    a row of chroma: [pixels_filled_to] says how far the rows are converted, and one step of
    [yuv420x_to_rgb] on 16 pixels or on one takes them further.  Where the luma and the chroma of
    a pixel come from is left to the functions [Y], [U] and [V] of the pixel. *)

From S2P Require Import Prelude CTypes Utils Rows Vectors VectorMemory Registers PixelKernels PixelLanes RowPairs Yuv420ToRgb.

Lemma channels_pos kAlpha : 3 <= output_channels kAlpha <= 4.
Proof. unfold output_channels. destruct kAlpha; lia. Qed.

(** Bytes of pixels in a block of 16. *)
Lemma in_block kAlpha k i : 0 <= i < 16 * output_channels kAlpha ->
  (k * output_channels kAlpha + i) / output_channels kAlpha = k + i / output_channels kAlpha /\
  (k * output_channels kAlpha + i) mod output_channels kAlpha = i mod output_channels kAlpha /\ 0 <= i / output_channels kAlpha < 16.
Proof.
  pose proof (channels_pos kAlpha). intros Hi. rewrite Z.add_comm, Z.div_add, Z.mod_add by lia. split; [lia|]. split; [done|].
  split; [apply Z.div_pos; lia|apply Z.div_lt_upper_bound; lia].
Qed.

(** A vector of bytes of a source that is as it was. *)
Lemma load_kept (mem mem0 : Z -> Z) p : (forall k, 0 <= k < 16 -> mem (p + k) = mem0 (p + k) /\ 0 <= mem0 (p + k) < 256) ->
  load 1 mem p = map (fun i => mem0 (p + Z.of_nat i)) (seq 0 16).
Proof.
  intros Hp. pose proof (load_holds 1 mem p) as Hl. apply byte_register in Hl.
  - rewrite Hl. apply map_ext_in. intros i Hi%list_elem_of_In%elem_of_seq. rewrite Z.mul_1_r. apply Hp. lia.
  - intros k Hk. rewrite Z.mul_1_r. destruct (Hp k Hk) as [-> ?]. done.
Qed.

Section pair.
Context (BGR kAlpha : bool) (width row_0 row_1 : Z) (Y0 Y1 : Z -> Z) (mem0 : Z -> Z).
Local Abbreviation ch := (output_channels kAlpha).
Implicit Types (U V : Z -> Z) (mem : Z -> Z).

(** Byte [m] of a converted row. *)
Definition pair_value (Y U V : Z -> Z) (m : Z) : Z := rgb_of_yuv BGR (Y (m / ch)) (U (m / ch)) (V (m / ch)) (m mod ch).

(** The first [n] pixels of both rows. *)
Definition pixels_filled_to (n : Z) U V mem : Prop := rows_filled row_0 row_1 (n * ch) (pair_value Y0 U V) (pair_value Y1 U V) mem0 mem.

Hypothesis luma_bytes : forall x, 0 <= x < width -> 0 <= Y0 x < 256 /\ 0 <= Y1 x < 256.
Hypothesis same_or_apart : (row_0 = row_1 /\ forall x, 0 <= x < width -> Y0 x = Y1 x) \/
  (forall i j, 0 <= i < width * ch -> 0 <= j < width * ch -> row_0 + i <> row_1 + j).

Lemma pixel_of_byte n m : 0 <= m < n * ch -> 0 <= m / ch < n.
Proof. pose proof (channels_pos kAlpha). intros Hm. split; [apply Z.div_pos; lia|apply Z.div_lt_upper_bound; lia]. Qed.

Lemma rows_compatible n U V : n <= width -> compatible row_0 row_1 (n * ch) (pair_value Y0 U V) (pair_value Y1 U V).
Proof.
  pose proof (channels_pos kAlpha). intros Hn i j Hi Hj E. destruct same_or_apart as [[Hr HY]|Hap].
  - split; [lia|]. unfold pair_value. rewrite HY; [done|]. pose proof (pixel_of_byte n i Hi). lia.
  - exfalso. apply (Hap i j); nia.
Qed.

Lemma pixels_filled_ext n U V U' V' mem : (forall x, 0 <= x < n -> U x = U' x /\ V x = V' x) -> pixels_filled_to n U V mem -> pixels_filled_to n U' V' mem.
Proof.
  intros He. apply rows_filled_ext. intros m Hm. unfold pair_value. destruct (He (m / ch) (pixel_of_byte n m Hm)) as [-> ->]. done.
Qed.

(** Sixteen pixels of both rows by vectors, which may be converted already. *)
Lemma vector_pixels (v_first : bool) k n U V U' V' (Us Vs : Z -> Z) y0 y1 u_l u_h v_l v_h mem :
  0 <= k <= n -> n <= width -> k + 16 <= width -> pixels_filled_to n U V mem ->
  y0 = map (fun i => Y0 (k + Z.of_nat i)) (seq 0 16) -> y1 = map (fun i => Y1 (k + Z.of_nat i)) (seq 0 16) ->
  lanes_of 4 u_l (fun i => Us (Z.of_nat i)) /\ lanes_of 4 u_h (fun i => Us (Z.of_nat (4 + i))) ->
  lanes_of 4 v_l (fun i => Vs (Z.of_nat i)) /\ lanes_of 4 v_h (fun i => Vs (Z.of_nat (4 + i))) ->
  (forall j, 0 <= j < 8 -> 0 <= Us j < 256 /\ 0 <= Vs j < 256) ->
  (forall x, 0 <= x < 16 -> U' (k + x) = (if v_first then Vs else Us) (x / 2) /\ V' (k + x) = (if v_first then Us else Vs) (x / 2)) ->
  (forall x, 0 <= x < n -> ~ k <= x < k + 16 -> U x = U' x /\ V x = V' x) ->
  pixels_filled_to (Z.max n (k + 16)) U' V' (yuv420x_to_rgb BGR kAlpha v_first y0 y1 u_l u_h v_l v_h (row_0 + k * ch) (row_1 + k * ch) mem).
Proof.
  pose proof (channels_pos kAlpha) as Hch. intros Hk Hn Hkw Hf Hy0 Hy1 Hu Hv Hbytes Hnew Hold.
  destruct (yuv420x_to_rgb_rows BGR kAlpha v_first y0 y1 u_l u_h v_l v_h (fun x => Y0 (k + x)) (fun x => Y1 (k + x)) Us Vs
    (row_0 + k * ch) (row_1 + k * ch) mem Hy0 Hy1 Hu Hv) as (mem1 & H1 & H2); [intros x Hx; apply luma_bytes; lia|done|].
  unfold pixels_filled_to. replace (Z.max n (k + 16) * ch) with (Z.max (n * ch) (k * ch + 16 * ch)) by nia.
  eapply (rows_filled_over _ _ (n * ch) (k * ch) (16 * ch)); [nia|lia| |exact Hf|exact H1|exact H2| |].
  - replace (Z.max (n * ch) (k * ch + 16 * ch)) with (Z.max n (k + 16) * ch) by nia. apply rows_compatible. lia.
  - intros i Hi. destruct (in_block kAlpha k i Hi) as (E1 & E2 & Hx). unfold pair_value, row_byte. rewrite E1, E2. cbv zeta.
    destruct (Hnew _ Hx) as [-> ->]. done.
  - intros i Hi Hout. unfold pair_value. destruct (Hold (i / ch)) as [-> ->]; [by apply pixel_of_byte| |done].
    intros [Hlo Hhi]. apply Hout. pose proof (Z.div_mod i ch ltac:(lia)). pose proof (Z.mod_pos_bound i ch ltac:(lia)). nia.
Qed.

(** One pixel of both rows by scalars. *)
Lemma scalar_pixels y_rows index i U V mem : 0 <= i < width -> pixels_filled_to i U V mem ->
  mem (y_rows.1 + index) = Y0 i -> mem (y_rows.2 + index) = Y1 i -> (forall m, 0 <= m < width * ch -> y_rows.2 + index <> row_0 + m) ->
  0 <= U i < 256 -> 0 <= V i < 256 ->
  exists mem', yuv420x_to_rgb_scalar BGR kAlpha y_rows index (U i - 128) (V i - 128) (row_0 + i * ch, row_1 + i * ch) mem =
    ((row_0 + (i + 1) * ch, row_1 + (i + 1) * ch), mem') /\ pixels_filled_to (i + 1) U V mem'.
Proof.
  pose proof (channels_pos kAlpha) as Hch. intros Hi Hf Hy0 Hy1 Hap Hu Hv. destruct (luma_bytes i Hi) as [Hb0 Hb1].
  unfold yuv420x_to_rgb_scalar. cbn [fst snd].
  destruct (scalar_pixel_filled BGR kAlpha y_rows.1 index (U i) (V i) (row_0 + i * ch) mem) as [Hr0 Hf0]; [by rewrite Hy0|done|done|].
  destruct (scalar_pixel BGR kAlpha y_rows.1 index _ _ _ mem) as [r0 mem1]. cbn [fst snd] in Hr0, Hf0.
  assert (mem1 (y_rows.2 + index) = Y1 i) as Hy1'.
  { destruct Hf0 as [_ Ho]. rewrite Ho; [done|]. intros k Hk E. apply (Hap (i * ch + k)); nia. }
  destruct (scalar_pixel_filled BGR kAlpha y_rows.2 index (U i) (V i) (row_1 + i * ch) mem1) as [Hr1 Hf1]; [by rewrite Hy1'|done|done|].
  destruct (scalar_pixel BGR kAlpha y_rows.2 index _ _ _ mem1) as [r1 mem2]. cbn [fst snd] in Hr1, Hf1.
  exists mem2. split; [f_equal; rewrite Hr0, Hr1; f_equal; lia|].
  unfold pixels_filled_to. rewrite Z.mul_add_distr_r, Z.mul_1_l.
  eapply (rows_filled_extend _ _ (i * ch) ch); [nia|lia| |exact Hf|exact Hf0|exact Hf1|].
  - replace (i * ch + ch) with ((i + 1) * ch) by lia. apply rows_compatible. lia.
  - intros k Hk. unfold pair_value. rewrite (Z.add_comm (i * ch)), Z.div_add, Z.mod_add, Z.div_small, Z.mod_small by lia.
    by rewrite Z.add_0_l, Hy0, Hy1'.
Qed.

(** What is not in the rows stays. *)
Lemma pixels_kept n U V mem p : n <= width -> pixels_filled_to n U V mem -> (forall m, 0 <= m < width * ch -> p <> row_0 + m /\ p <> row_1 + m) ->
  mem p = mem0 p.
Proof.
  pose proof (channels_pos kAlpha). intros Hn Hm Hp. apply (rows_filled_other _ _ _ _ _ _ _ _ Hm). intros m Hm'. apply Hp. nia.
Qed.
End pair.
