(* ===== verification/Yuv420SpToRgb.v ===== *)
(** * Conversion of semi-planar YUV420 to RGB

    [conversions/yuv420sp_to_rgb_neon.cpp]: a plane of luma and one of interleaved chroma (NV12
    or NV21) to RGB, BGR, RGBA or BGRA.  Rows are taken in pairs that share a row of chroma; a row
    that is not a multiple of 16 pixels long ends with a vector that overlaps the one before it,
    for which the chroma columns are moved back as many bytes as the luma columns. *)

From S2P Require Import Prelude CTypes Utils Loops Rows Vectors Arithmetic Channels VectorMemory Registers PixelKernels PixelLanes RowPairs Yuv420ToRgb Yuv420Rows.

(** ** [YUVSpToRGBxOrBGRx] *)

Section operation.
Context (BGR kAlpha v_first_ : bool).
Implicit Types (mem : Z -> Z).

Definition YUVSp_vector_path (y0 y1 uv : list Z) (rgbx_row_0 rgbx_row_1 : Z) mem : Z -> Z :=
  let u_l := de_interleave uv 0 in
  let u_h := de_interleave uv 1 in
  let v_l := de_interleave uv 2 in
  let v_h := de_interleave uv 3 in
  yuv420x_to_rgb BGR kAlpha v_first_ y0 y1 u_l u_h v_l v_h rgbx_row_0 rgbx_row_1 mem.

(** The variables of the loop of [scalar_path]: the chroma less 128, the row of chroma, the rows
    of the destination, and memory. *)
Definition ScalarState : Type := (Z * Z) * Z * (Z * Z) * (Z -> Z).
Definition YUVSp_scalar_step (y_rows : Z * Z) (index : Z) (s : ScalarState) : ScalarState :=
  let '(uv_m128, uv_row, rgbx_rows, mem) := s in
  let '(uv_m128, uv_row) :=
    if index mod 2 =? 0 then
      let u_m128 := mem uv_row - 128 in
      let v_m128 := mem (uv_row + 1) - 128 in
      ((if v_first_ then (v_m128, u_m128) else (u_m128, v_m128)), uv_row + 2)
    else (uv_m128, uv_row) in
  let '(rgbx_rows, mem) := yuv420x_to_rgb_scalar BGR kAlpha y_rows index uv_m128.1 uv_m128.2 rgbx_rows mem in
  (uv_m128, uv_row, rgbx_rows, mem).
Definition YUVSp_scalar_path (length y_row_0 y_row_1 uv_row rgbx_row_0 rgbx_row_1 : Z) mem : Z -> Z :=
  (for_range 0 length (YUVSp_scalar_step (y_row_0, y_row_1)) ((0, 0), uv_row, (rgbx_row_0, rgbx_row_1), mem)).2.

(** ** Rows *)

(** [ParallelRowsAdapter] and [OperationAdapter]: vectors of the sources are loaded. *)
Definition vector_columns (cols : list Columns) mem : Z -> Z :=
  match map col_ptr_ cols with
  | [y0; y1; uv; dst_0; dst_1] => YUVSp_vector_path (load 1 mem y0) (load 1 mem y1) (load 1 mem uv) dst_0 dst_1 mem
  | _ => mem
  end.
(** [RemainingPathToScalarPathAdapter]. *)
Definition remaining_columns (length : Z) (cols : list Columns) mem : Z -> Z :=
  match map col_ptr_ cols with
  | [y0; y1; uv; dst_0; dst_1] => YUVSp_scalar_path length y0 y1 uv dst_0 dst_1 mem
  | _ => mem
  end.

Definition unroll_once (step : Z) (cs : list Columns * (Z -> Z)) : list Columns * (Z -> Z) :=
  let '(cols, mem) := cs in
  let mem := vector_columns cols mem in (step_columns 1 step cols, mem).
Definition remaining_functor (rem_length _ : Z) (cs : list Columns * (Z -> Z)) : list Columns * (Z -> Z) :=
  let '(cols, mem) := cs in (cols, remaining_columns rem_length cols mem).

(** [RowBasedOperation::process_row] for an operation that is unrolled once and tries to avoid
    the tail; it goes back at most once ([Channels.avoid_tail_loop_once]). *)
Definition process_row (length : Z) (columns : list Columns) mem : Z -> Z :=
  let loop := avoid_tail_loop 1 true unroll_once 1 (Unroll.make length (VectorMemory.num_lanes 1), (columns, mem)) in
  let '(_, (_, mem)) := Unroll.remaining remaining_functor loop in mem.

(** ** Images *)

Definition yuv2rgbx_operation (src_y src_uv dst : Z * Z) (width height : Z) mem : kleidicv_error_t * (Z -> Z) :=
  match check_pointer_and_stride 1 src_y.1 src_y.2 height ?>
        check_pointer_and_stride 1 src_uv.1 src_uv.2 ((height ⊞ 1) / 2) ?>
        check_pointer_and_stride 1 dst.1 dst.2 height ?> check_image_size width height with
  | KLEIDICV_OK =>
      let rect := {| width_ := width; height_ := height |} in
      let y_rows := InParallel (make_parallel src_y.1 src_y.2 1) in
      let uv_rows := InRows {| ptr_ := src_uv.1; stride_ := src_uv.2; channels_ := 1; sizeof_ := 1 |} in
      let rgbx_rows := InParallel (make_parallel dst.1 dst.2 (output_channels kAlpha)) in
      (KLEIDICV_OK, zip_parallel_rows process_row rect [y_rows; uv_rows; rgbx_rows] mem)
  | error => (error, mem)
  end.
End operation.

Definition yuv420sp_to_rgb_u8 (src_y src_uv dst : Z * Z) (width height : Z) (color_format : kleidicv_color_conversion_t) (mem : Z -> Z)
    : kleidicv_error_t * (Z -> Z) :=
  if color_format =? KLEIDICV_NV21_TO_BGR then yuv2rgbx_operation true false true src_y src_uv dst width height mem
  else if color_format =? KLEIDICV_NV21_TO_RGB then yuv2rgbx_operation false false true src_y src_uv dst width height mem
  else if color_format =? KLEIDICV_NV21_TO_BGRA then yuv2rgbx_operation true true true src_y src_uv dst width height mem
  else if color_format =? KLEIDICV_NV21_TO_RGBA then yuv2rgbx_operation false true true src_y src_uv dst width height mem
  else if color_format =? KLEIDICV_NV12_TO_BGR then yuv2rgbx_operation true false false src_y src_uv dst width height mem
  else if color_format =? KLEIDICV_NV12_TO_RGB then yuv2rgbx_operation false false false src_y src_uv dst width height mem
  else if color_format =? KLEIDICV_NV12_TO_BGRA then yuv2rgbx_operation true true false src_y src_uv dst width height mem
  else if color_format =? KLEIDICV_NV12_TO_RGBA then yuv2rgbx_operation false true false src_y src_uv dst width height mem
  else (KLEIDICV_ERROR_NOT_IMPLEMENTED, mem).

(** ** Values *)

(** Channel [c] of pixel [x] of a row of luma at [y] with the chroma at [column] of the row at
    [uv]. *)
Definition sp_pixel (BGR v_first : bool) (mem : Z -> Z) (y uv x column c : Z) : Z :=
  rgb_of_yuv BGR (mem (y + x)) (mem (uv + column + (if v_first then 1 else 0))) (mem (uv + column + (if v_first then 0 else 1))) c.

(** The first of the two columns of chroma of pixel [x]. *)
Definition even_column (x : Z) : Z := 2 * (x / 2).

(** The column that the code takes the chroma of pixel [x] from: the vector that ends the row
    starts at an odd column when the width is odd. *)
Definition chroma_column (width x : Z) : Z :=
  if (16 <=? width) && negb (width mod 16 =? 0) && (width - 16 <=? x) then width - 16 + even_column (x - (width - 16)) else even_column x.

Lemma chroma_column_even width x : width mod 2 = 0 \/ width < 16 -> chroma_column width x = even_column x.
Proof.
  intros Hw. unfold chroma_column, even_column. destruct (Z.leb_spec 16 width); [|done]. destruct (width mod 16 =? 0); [done|].
  destruct (width - 16 <=? x); [|done]. cbn [andb negb]. mod_lia.
Qed.

(** ** A pair of rows *)

Section row.
Context (BGR kAlpha v_first : bool) (width y0 y1 uv dst_0 dst_1 : Z) (mem0 : Z -> Z).
Local Abbreviation ch := (output_channels kAlpha).

Definition source_byte (p : Z) : Prop :=
  (exists x, 0 <= x < width /\ (p = y0 + x \/ p = y1 + x)) \/ (exists x, 0 <= x < 2 * ((width + 1) / 2) /\ p = uv + x).

Hypothesis width_ok : 0 <= width < 2 ^ 48.
Hypothesis bytes : forall p, source_byte p -> 0 <= mem0 p < 256.
Hypothesis sources_apart : forall p m, source_byte p -> 0 <= m < width * ch -> p <> dst_0 + m /\ p <> dst_1 + m.
Hypothesis same_or_apart : (dst_0 = dst_1 /\ y0 = y1) \/
  (forall i j, 0 <= i < width * ch -> 0 <= j < width * ch -> dst_0 + i <> dst_1 + j).

Definition blue_at (column : Z -> Z) (x : Z) : Z := mem0 (uv + column x + (if v_first then 1 else 0)).
Definition red_at (column : Z -> Z) (x : Z) : Z := mem0 (uv + column x + (if v_first then 0 else 1)).

(** Byte [m] of a row. *)
Definition row_value (column : Z -> Z) (y : Z) : Z -> Z := pair_value BGR kAlpha (fun x => mem0 (y + x)) (blue_at column) (red_at column).

(** The first [n] pixels of both rows. *)
Definition filled_to (n : Z) (column : Z -> Z) (mem : Z -> Z) : Prop :=
  pixels_filled_to BGR kAlpha dst_0 dst_1 (fun x => mem0 (y0 + x)) (fun x => mem0 (y1 + x)) mem0 n (blue_at column) (red_at column) mem.

Lemma row_luma x : 0 <= x < width -> 0 <= mem0 (y0 + x) < 256 /\ 0 <= mem0 (y1 + x) < 256.
Proof. intros Hx. split; apply bytes; left; exists x; lia. Qed.

Lemma row_same_or_apart : (dst_0 = dst_1 /\ forall x, 0 <= x < width -> mem0 (y0 + x) = mem0 (y1 + x)) \/
  (forall i j, 0 <= i < width * ch -> 0 <= j < width * ch -> dst_0 + i <> dst_1 + j).
Proof. destruct same_or_apart as [[? ->]|?]; [by left|by right]. Qed.

Lemma planes_kept n column mem p : n <= width -> filled_to n column mem -> source_byte p -> mem p = mem0 p.
Proof. intros Hn Hf Hp. eapply (pixels_kept BGR kAlpha width); [exact Hn|exact Hf|]. intros m Hm. by apply sources_apart. Qed.

(** One vector of both rows, which may be over pixels that are written already. *)
Lemma vector_block k n column column' mem : 0 <= k <= n -> n <= width -> k + 16 <= width -> filled_to n column mem ->
  (forall x, 0 <= x < 16 -> column' (k + x) = k + even_column x) ->
  (forall x, 0 <= x < n -> ~ k <= x < k + 16 -> column x = column' x) ->
  filled_to (Z.max n (k + 16)) column'
    (YUVSp_vector_path BGR kAlpha v_first (load 1 mem (y0 + k)) (load 1 mem (y1 + k)) (load 1 mem (uv + k)) (dst_0 + k * ch) (dst_1 + k * ch) mem).
Proof.
  intros Hk Hn Hkw Hf Hnew Hold.
  assert (forall x, 0 <= x < 16 -> source_byte (y0 + k + x) /\ source_byte (y1 + k + x) /\ source_byte (uv + k + x)) as Hsrc.
  { intros x Hx. split_and!; [left; exists (k + x); lia|left; exists (k + x); lia|right; exists (k + x); split; [mod_lia|lia]]. }
  unfold YUVSp_vector_path. rewrite !(load_kept mem mem0) by (intros x Hx; destruct (Hsrc x Hx) as (? & ? & ?); split; [by apply (planes_kept n column)|by apply bytes]).
  pose proof (fun t Ht => de_interleave_lanes (fun i => mem0 (uv + k + Z.of_nat i)) _ t Ht eq_refl (fun i Hi => bytes _ (proj2 (proj2 (Hsrc (Z.of_nat i) ltac:(lia)))))) as Hde.
  apply (vector_pixels BGR kAlpha width dst_0 dst_1 _ _ mem0 row_luma row_same_or_apart v_first k n (blue_at column) (red_at column) _ _
    (fun j => mem0 (uv + k + 2 * j)) (fun j => mem0 (uv + k + 2 * j + 1))); try done.
  - apply map_ext. intros i. f_equal. lia.
  - apply map_ext. intros i. f_equal. lia.
  - split; (eapply lanes_of_ext; [|apply Hde; lia]); intros i Hi; cbv beta; unfold de_interleaved; f_equal; lia.
  - split; (eapply lanes_of_ext; [|apply Hde; lia]); intros i Hi; cbv beta; unfold de_interleaved; f_equal; lia.
  - intros j Hj. split; [|rewrite <- Z.add_assoc]; apply bytes, Hsrc; lia.
  - intros x Hx. unfold blue_at, red_at. rewrite Hnew by done. unfold even_column. destruct v_first; split; f_equal; lia.
  - intros x Hx Hout. unfold blue_at, red_at. by rewrite (Hold x Hx Hout).
Qed.

(** One pixel of both rows by scalars. *)
Lemma scalar_step i uv_m128 mem : 0 <= i < width -> filled_to i even_column mem ->
  (i mod 2 = 1 -> uv_m128 = (blue_at even_column i - 128, red_at even_column i - 128)) ->
  exists mem', YUVSp_scalar_step BGR kAlpha v_first (y0, y1) i (uv_m128, uv + 2 * ((i + 1) / 2), (dst_0 + i * ch, dst_1 + i * ch), mem) =
    ((blue_at even_column i - 128, red_at even_column i - 128), uv + 2 * ((i + 2) / 2), (dst_0 + (i + 1) * ch, dst_1 + (i + 1) * ch), mem') /\
    filled_to (i + 1) even_column mem'.
Proof.
  intros Hi Hf Huv. unfold YUVSp_scalar_step.
  assert (forall p, source_byte p -> mem p = mem0 p) as Hkept by (intros p; apply (planes_kept i even_column); [lia|done]).
  assert (source_byte (uv + even_column i) /\ source_byte (uv + even_column i + 1)) as [Hs0 Hs1].
  { unfold even_column. split; right; [exists (2 * (i / 2))|exists (2 * (i / 2) + 1)]; (split; [mod_lia|lia]). }
  assert (source_byte (y0 + i) /\ source_byte (y1 + i)) as [Hy0 Hy1] by (split; left; exists i; lia).
  match goal with |- context [if i mod 2 =? 0 then ?a else ?b] =>
    assert ((if i mod 2 =? 0 then a else b) = ((blue_at even_column i - 128, red_at even_column i - 128), uv + 2 * ((i + 2) / 2))) as -> end.
  { destruct (Z.eqb_spec (i mod 2) 0) as [E|E].
    - assert (even_column i = i /\ 2 * ((i + 1) / 2) = i /\ 2 * ((i + 2) / 2) = i + 2) as (E1 & E2 & E3) by (unfold even_column; mod_lia).
      unfold blue_at, red_at. rewrite E1 in *. rewrite E2, E3. rewrite !Hkept by done. destruct v_first; rewrite Z.add_0_r; (apply f_equal2; [done|lia]).
    - rewrite Huv by mod_lia. do 2 f_equal. mod_lia. }
  destruct (scalar_pixels BGR kAlpha width dst_0 dst_1 _ _ mem0 row_luma row_same_or_apart (y0, y1) i i (blue_at even_column) (red_at even_column) mem Hi Hf)
    as (mem' & E & Hf'); [by apply Hkept|by apply Hkept| | | |].
  - intros m Hm E. destruct (sources_apart (y1 + i) m Hy1 Hm). done.
  - unfold blue_at. destruct v_first; rewrite ?Z.add_0_r; by apply bytes.
  - unfold red_at. destruct v_first; rewrite ?Z.add_0_r; by apply bytes.
  - cbn [fst snd] in *. rewrite E. by exists mem'.
Qed.

Lemma scalar_rows : filled_to width even_column (YUVSp_scalar_path BGR kAlpha v_first width y0 y1 uv dst_0 dst_1 mem0).
Proof.
  unfold YUVSp_scalar_path.
  enough (exists uv_m128 mem, for_range 0 width (YUVSp_scalar_step BGR kAlpha v_first (y0, y1)) ((0, 0), uv, (dst_0, dst_1), mem0) =
    (uv_m128, uv + 2 * ((width + 1) / 2), (dst_0 + width * ch, dst_1 + width * ch), mem) /\ filled_to width even_column mem /\
    (width mod 2 = 1 -> uv_m128 = (blue_at even_column width - 128, red_at even_column width - 128))) as (uvm & mem & -> & Hf & _) by exact Hf.
  apply (for_range_ind (fun i s => exists uv_m128 mem, s = (uv_m128, uv + 2 * ((i + 1) / 2), (dst_0 + i * ch, dst_1 + i * ch), mem) /\ filled_to i even_column mem /\
    (i mod 2 = 1 -> uv_m128 = (blue_at even_column i - 128, red_at even_column i - 128)))); [lia| |].
  - exists (0, 0), mem0. split; [|split; [apply rows_filled_none|done]]. change (2 * ((0 + 1) / 2)) with 0. by rewrite !Z.mul_0_l, !Z.add_0_r.
  - intros i s Hi (uvm & mem & -> & Hf & Huv). destruct (scalar_step i uvm mem Hi Hf Huv) as (mem' & -> & Hf').
    do 2 eexists. split; [by replace (i + 1 + 1) with (i + 2) by lia|]. split; [done|]. intros Hodd.
    unfold blue_at, red_at. by assert (even_column (i + 1) = even_column i) as -> by (unfold even_column; mod_lia).
Qed.

Lemma filled_to_ext column column' n mem : (forall x, 0 <= x < n -> column x = column' x) -> filled_to n column mem -> filled_to n column' mem.
Proof. intros He. apply pixels_filled_ext. intros x Hx. unfold blue_at, red_at. by rewrite (He x Hx). Qed.

(** The columns of the pair of rows. *)
Context (cols : list Columns).
Hypothesis cols_are : cols = [{| col_ptr_ := y0; col_channels_ := 1 |}; {| col_ptr_ := y1; col_channels_ := 1 |};
  {| col_ptr_ := uv; col_channels_ := 1 |}; {| col_ptr_ := dst_0; col_channels_ := ch |}; {| col_ptr_ := dst_1; col_channels_ := ch |}].

Lemma columns_at_pixel k : map col_ptr_ (step_columns 1 k cols) = [y0 + k; y1 + k; uv + k; dst_0 + k * ch; dst_1 + k * ch].
Proof.
  pose proof (channels_pos kAlpha). rewrite cols_are. cbn [step_columns map columns_at col_ptr_ col_channels_]. unfold columns_at. cbn [col_ptr_ col_channels_].
  rewrite !to_ptrdiff_small by lia. repeat (apply f_equal2; [lia|]). done.
Qed.

(** The columns are [k] pixels into the row. *)
Definition standing_at (k n : Z) (column : Z -> Z) (cs : list Columns * (Z -> Z)) : Prop :=
  cs.1 = step_columns 1 k cols /\ filled_to n column cs.2.

Lemma once_block k n column column' cs : 0 <= k <= n -> n <= width -> k + 16 <= width -> standing_at k n column cs ->
  (forall x, 0 <= x < 16 -> column' (k + x) = k + even_column x) ->
  (forall x, 0 <= x < n -> ~ k <= x < k + 16 -> column x = column' x) ->
  standing_at (k + 16) (Z.max n (k + 16)) column' (unroll_once BGR kAlpha v_first 16 cs).
Proof.
  destruct cs as [cs mem]. intros Hk Hn Hkw [E Hf] Hnew Hold. cbn [fst snd] in E, Hf. subst cs.
  unfold unroll_once. split; cbn [fst snd]; [apply step_columns_again|]. unfold vector_columns. rewrite columns_at_pixel.
  by apply (vector_block k n column).
Qed.

Lemma whole_vectors q : 0 <= q -> 16 * q <= width ->
  standing_at (16 * q) (16 * q) even_column (for_range 0 q (fun _ => unroll_once BGR kAlpha v_first 16) (cols, mem0)).
Proof.
  intros Hq Hle. enough (16 * q <= width -> standing_at (16 * q) (16 * q) even_column (for_range 0 q (fun _ => unroll_once BGR kAlpha v_first 16) (cols, mem0))) as H by exact (H Hle).
  apply (for_range_ind (fun i cs => 16 * i <= width -> standing_at (16 * i) (16 * i) even_column cs)); [done| |].
  - intros _. split; cbn [fst snd]; [|apply rows_filled_none]. unfold step_columns. rewrite <- (map_id cols) at 1. apply map_ext.
    intros [p c]. unfold columns_at. cbn. f_equal. lia.
  - intros i cs Hi IH Hw. specialize (IH ltac:(lia)). replace (16 * (i + 1)) with (16 * i + 16) by lia.
    rewrite <- (Z.max_r (16 * i) (16 * i + 16)) at 2 by lia. apply (once_block _ _ even_column); try done; try lia.
    intros x Hx. unfold even_column. mod_lia.
Qed.

(** Rows that are shorter than a vector. *)
Lemma short_row cs : width < 16 -> avoid_tail_loop 1 true (unroll_once BGR kAlpha v_first) 1 (Unroll.make width 16, cs) =
  ({| Unroll.length_ := width; Unroll.step_ := 16; Unroll.index_ := 0; Unroll.can_avoid_tail_ := false |}, cs).
Proof.
  intros Hw. cbn [avoid_tail_loop]. cbv zeta. unfold Unroll.unroll_n_times, Unroll.make. cbn [Unroll.length_ Unroll.step_ Unroll.can_avoid_tail_].
  change (1 ⊠ 16) with 16. rewrite Z.div_small by lia. rewrite for_range_empty by lia. change (16 ⊠ 0) with 0. rewrite size_sub_small by lia.
  destruct (Z.leb_spec 16 width); [lia|]. cbn. by rewrite Z.sub_0_r.
Qed.

Lemma process_row_filled : filled_to width (chroma_column width) (process_row BGR kAlpha v_first width cols mem0).
Proof.
  unfold process_row. change (VectorMemory.num_lanes 1) with 16. destruct (Z_lt_le_dec width 16) as [Hlt|Hge].
  - rewrite short_row by done. unfold Unroll.remaining. cbn [Unroll.length_ Unroll.step_].
    eapply (filled_to_ext even_column). { intros x _. rewrite (chroma_column_even width); [done|lia]. }
    destruct (Z.eqb_spec width 0) as [E|Hne].
    + rewrite E. apply rows_filled_none.
    + unfold remaining_functor, remaining_columns. rewrite cols_are. cbn [map col_ptr_]. apply scalar_rows.
  - pose proof (Z.div_mod width 16 ltac:(lia)) as Hdm. pose proof (Z.mod_pos_bound width 16 ltac:(lia)) as Hr.
    pose proof (avoid_tail_loop_run 1 true (unroll_once BGR kAlpha v_first) width 16 (cols, mem0) eq_refl ltac:(lia) ltac:(lia)) as [Hl Hrun].
    pose proof (whole_vectors (width / 16) ltac:(lia) ltac:(lia)) as Hw.
    destruct (avoid_tail_loop 1 true _ 1 _) as [l cs]. cbn [fst snd] in Hl, Hrun. unfold Unroll.remaining. rewrite Hl, Z.eqb_refl.
    destruct cs as [cs mem]. set (run := for_range 0 (width / 16) _ _) in *. destruct run as [cs' mem'] eqn:Erun.
    destruct Hw as [Hcs Hf]. cbn [fst snd] in Hcs, Hf. destruct (Z.eqb_spec (width mod 16) 0) as [E0|Hne].
    + injection Hrun as _ <-. replace (16 * (width / 16)) with width in Hf by lia.
      eapply filled_to_ext; [|exact Hf]. intros x _. rewrite chroma_column_even; [done|]. left. mod_lia.
    + destruct (once_block (width - 16) (16 * (width / 16)) even_column (chroma_column width) (backward_adjust 1 (16 - width mod 16) (cs', mem'))) as [_ H].
      * lia.
      * lia.
      * lia.
      * split; cbn [fst snd backward_adjust]; [|done]. rewrite Hcs, step_columns_again. f_equal. lia.
      * intros x Hx. unfold chroma_column. destruct (Z.leb_spec 16 width); [|lia]. destruct (Z.eqb_spec (width mod 16) 0); [lia|].
        destruct (Z.leb_spec (width - 16) (width - 16 + x)); [|lia]. cbn [andb negb]. do 2 f_equal. lia.
      * intros x Hx Hout. unfold chroma_column. destruct (Z.leb_spec (width - 16) x); [lia|]. by rewrite andb_false_r.
      * rewrite <- Hrun in H. cbn [snd] in H. replace (Z.max _ _) with width in H by lia. exact H.
Qed.
End row.

(** ** Images *)

Definition luma_row (src_y : Z * Z) (y : Z) : Z := src_y.1 + y * src_y.2.
Definition chroma_row (src_uv : Z * Z) (y : Z) : Z := src_uv.1 + y / 2 * src_uv.2.

(** The bytes of the two planes. *)
Definition plane_byte (src_y src_uv : Z * Z) (width height p : Z) : Prop :=
  (exists y x, 0 <= y < height /\ 0 <= x < width /\ p = luma_row src_y y + x) \/
  (exists y x, 0 <= y < height /\ 0 <= x < 2 * ((width + 1) / 2) /\ p = chroma_row src_uv y + x).

(** Planes and a destination in the address space, the destination with bytes of its own. *)
Record placed_planes (channels : Z) (src_y src_uv dst : Z * Z) (width height : Z) (mem : Z -> Z) : Prop := {
  plane_sizes : 0 <= width /\ 0 <= height < 2 ^ 63;
  planes_fit : Forall (image_fits height) [PairsOf src_y.1 src_y.2 1;
    SinglesOf {| ptr_ := src_uv.1; stride_ := src_uv.2; channels_ := 1; sizeof_ := 1 |}; PairsOf dst.1 dst.2 channels];
  rows_apart : forall y m y' m', 0 <= y < height -> 0 <= m < width * channels -> 0 <= y' < height -> 0 <= m' < width * channels ->
    luma_row dst y + m = luma_row dst y' + m' -> y = y' /\ m = m';
  planes_apart : forall p y m, plane_byte src_y src_uv width height p -> 0 <= y < height -> 0 <= m < width * channels -> p <> luma_row dst y + m;
  plane_bytes : forall p, plane_byte src_y src_uv width height p -> 0 <= mem p < 256
}.

Definition sp_accepts (src_y src_uv dst : Z * Z) (width height : Z) : Prop :=
  src_y.1 <> 0 /\ src_uv.1 <> 0 /\ dst.1 <> 0 /\ width * height <= KLEIDICV_MAX_IMAGE_PIXELS.

(** A conversion that writes the pixels of the luma of each pixel and of the chroma at [column]
    of the row of chroma that two rows share. *)
Definition sp_result (BGR kAlpha v_first : bool) (column : Z -> Z) (src_y src_uv dst : Z * Z) (width height : Z) (mem : Z -> Z)
    (result : kleidicv_error_t * (Z -> Z)) : Prop :=
  (sp_accepts src_y src_uv dst width height ->
    result.1 = KLEIDICV_OK /\
    (forall y x c, 0 <= y < height -> 0 <= x < width -> 0 <= c < output_channels kAlpha ->
      result.2 (byte_address dst (output_channels kAlpha) y x c) =
      sp_pixel BGR v_first mem (luma_row src_y y) (chroma_row src_uv y) x (column x) c) /\
    (forall p, (forall y x c, 0 <= y < height -> 0 <= x < width -> 0 <= c < output_channels kAlpha ->
      p <> byte_address dst (output_channels kAlpha) y x c) -> result.2 p = mem p)) /\
  (~ sp_accepts src_y src_uv dst width height -> result.1 <> KLEIDICV_OK /\ result.2 = mem).

Section image.
Context (BGR kAlpha v_first : bool) (src_y src_uv dst : Z * Z) (width height : Z) (mem : Z -> Z).
Local Abbreviation ch := (output_channels kAlpha).
Hypothesis placed : placed_planes ch src_y src_uv dst width height mem.
Local Abbreviation value := (fun y => row_value BGR kAlpha v_first (chroma_row src_uv y) mem (chroma_column width) (luma_row src_y y)).

(** One pair of rows in a memory that differs from the original one in the destination. *)
Lemma pair_filled i mem1 : 0 <= i -> 2 * i < height -> width < 2 ^ 48 ->
  (forall p, (forall y m, 0 <= y < height -> 0 <= m < width * ch -> p <> dst.1 + y * dst.2 + m) -> mem1 p = mem p) ->
  rows_filled (dst.1 + 2 * i * dst.2) (dst.1 + second_row height i * dst.2) (width * ch) (value (2 * i)) (value (second_row height i)) mem1
    (process_row BGR kAlpha v_first width (flat_map (pair_columns height i) [PairsOf src_y.1 src_y.2 1;
      SinglesOf {| ptr_ := src_uv.1; stride_ := src_uv.2; channels_ := 1; sizeof_ := 1 |}; PairsOf dst.1 dst.2 ch]) mem1).
Proof.
  intros Hi Hlt Hw Hkept. destruct placed as [[Hw0 Hh] _ Hrows Hplanes Hbytes].
  assert (0 <= second_row height i < height /\ second_row height i / 2 = i /\ (second_row height i = 2 * i \/ second_row height i = 2 * i + 1)) as (Hs & Hs2 & Hs3).
  { unfold second_row. destruct (Z.eqb_spec height (2 * i + 1)); (split; [lia|split; [mod_lia|lia]]). }
  assert (2 * i / 2 = i) as Hi2 by mod_lia.
  assert (forall p, source_byte width (luma_row src_y (2 * i)) (luma_row src_y (second_row height i)) (chroma_row src_uv (2 * i)) p -> plane_byte src_y src_uv width height p) as Hsrc.
  { intros p [(x & Hx & [-> | ->])|(x & Hx & ->)]; [left; exists (2 * i), x|left; exists (second_row height i), x|right; exists (2 * i), x]; split_and!; done || lia. }
  assert (forall p, plane_byte src_y src_uv width height p -> mem1 p = mem p) as Hsame.
  { intros p Hp. apply Hkept. intros y m Hy Hm. by apply Hplanes. }
  eapply rows_filled_ext; [|apply (process_row_filled BGR kAlpha v_first width (luma_row src_y (2 * i)) (luma_row src_y (second_row height i)) (chroma_row src_uv (2 * i)))].
  - intros m Hm. unfold row_value, pair_value, blue_at, red_at. assert (chroma_row src_uv (second_row height i) = chroma_row src_uv (2 * i)) as -> by (unfold chroma_row; by rewrite Hs2, Hi2).
    pose proof (channels_pos kAlpha). assert (0 <= m / ch < width) as Hx by (split; [apply Z.div_pos; lia|apply Z.div_lt_upper_bound; lia]).
    assert (forall b, 0 <= b < 2 -> plane_byte src_y src_uv width height (chroma_row src_uv (2 * i) + chroma_column width (m / ch) + b)) as Hc.
    { intros b Hb. right. exists (2 * i), (chroma_column width (m / ch) + b). split_and!; [lia|lia| | |lia];
        unfold chroma_column, even_column; destruct (Z.leb_spec 16 width); cbn [andb]; try mod_lia; destruct (width mod 16 =? 0); cbn [andb negb]; try mod_lia;
        destruct (Z.leb_spec (width - 16) (m / ch)); mod_lia. }
    rewrite !Hsame by first [apply Hc; destruct v_first; lia|apply Hsrc; left; exists (m / ch); lia]. done.
  - lia.
  - intros p Hp. rewrite Hsame by (by apply Hsrc). by apply Hbytes, Hsrc.
  - intros p m Hp Hm. split; apply Hplanes; try done; try lia; by apply Hsrc.
  - destruct Hs3 as [E|E]; rewrite E; [left; done|right]. intros k j Hk Hj Heq.
    destruct (Hrows (2 * i) k (2 * i + 1) j) as [Hbad _]; [lia|lia|lia|lia|exact Heq|lia].
  - unfold luma_row, chroma_row. rewrite Hi2. cbn [flat_map pair_columns app]. unfold second_row, as_columns, row_ptr, with_ptr. cbn [ptr_ channels_]. done.
Qed.

Lemma operation_result : sp_result BGR kAlpha v_first (chroma_column width) src_y src_uv dst width height mem
  (yuv2rgbx_operation BGR kAlpha v_first src_y src_uv dst width height mem).
Proof.
  pose proof placed as [[Hw Hh] Hfit Hrows _ _]. pose proof (channels_pos kAlpha) as Hch.
  set (check := check_pointer_and_stride 1 src_y.1 src_y.2 height ?> check_pointer_and_stride 1 src_uv.1 src_uv.2 ((height ⊞ 1) / 2) ?>
    check_pointer_and_stride 1 dst.1 dst.2 height ?> check_image_size width height).
  assert (check = KLEIDICV_OK <-> sp_accepts src_y src_uv dst width height) as Hcheck.
  { unfold sp_accepts. rewrite <- (check_image_size_iff width height) by lia. subst check. unfold check_pointer_and_stride. cbn [Z.eqb Pos.eqb].
    destruct (Z.eqb_spec src_y.1 0), (Z.eqb_spec src_uv.1 0), (Z.eqb_spec dst.1 0); cbn; split; intros H; try done; tauto. }
  destruct (checked_outcome (sp_accepts src_y src_uv dst width height) check mem
    (zip_parallel_rows (process_row BGR kAlpha v_first) {| width_ := width; height_ := height |} [InParallel (make_parallel src_y.1 src_y.2 1);
      InRows {| ptr_ := src_uv.1; stride_ := src_uv.2; channels_ := 1; sizeof_ := 1 |}; InParallel (make_parallel dst.1 dst.2 ch)] mem) Hcheck) as [Hok Herr].
  rewrite after_check_match in Hok, Herr. fold check in Hok, Herr. split; [|exact Herr]. intros Ha. unfold yuv2rgbx_operation. cbv zeta. fold check. rewrite (Hok Ha). cbn [fst snd].
  split; [done|]. destruct Ha as (_ & _ & _ & Ha). unfold KLEIDICV_MAX_IMAGE_PIXELS in Ha. change (Z.shiftl 1 48 - 1) with (2 ^ 48 - 1) in Ha.
  set (images := [PairsOf src_y.1 src_y.2 1; SinglesOf {| ptr_ := src_uv.1; stride_ := src_uv.2; channels_ := 1; sizeof_ := 1 |}; PairsOf dst.1 dst.2 ch]).
  change [InParallel (make_parallel src_y.1 src_y.2 1); InRows _; InParallel _] with (map image_any_rows images).
  rewrite zip_parallel_rows_pairs by (done || lia).
  pose proof (rows_of_pairs dst.1 dst.2 (width * ch) height value mem Hrows
    (fun i => process_row BGR kAlpha v_first width (flat_map (pair_columns height i) images)) 0 ((height + 1) / 2) ltac:(mod_lia) ltac:(mod_lia)) as [H1 H2].
  { intros i mem1 Hi Hk. assert (2 * i < height) as Hlt by mod_lia. apply pair_filled; [lia|done| |done].
    clear - Ha Hw Hlt Hi. assert (width * 1 <= width * height) by (apply Z.mul_le_mono_nonneg_l; lia). lia. }
  replace (Z.min height (2 * ((height + 1) / 2))) with height in H1, H2 by mod_lia. change (2 * 0) with 0 in H1, H2. split.
  - intros y x c Hy Hx Hc. unfold byte_address. rewrite <- Z.add_assoc. rewrite H1 by nia. unfold row_value, pair_value, blue_at, red_at, sp_pixel.
    by rewrite (Z.add_comm (x * ch)), Z.div_add, Z.mod_add, Z.div_small, Z.mod_small, Z.add_0_l by lia.
  - intros p Hp. apply H2. intros y m Hy Hm E. apply (Hp y (m / ch) (m mod ch)); [done| | |].
    + split; [apply Z.div_pos; lia|apply Z.div_lt_upper_bound; lia].
    + apply Z.mod_pos_bound. lia.
    + unfold byte_address. pose proof (Z.div_mod m ch ltac:(lia)). lia.
Qed.
End image.

(** The colour format of the flags. *)
Definition nv_format (BGR kAlpha v_first : bool) : kleidicv_color_conversion_t :=
  Z.lor KLEIDICV_COLOR_CONVERSION_FMT_YUV420SP
    (Z.lor (if v_first then KLEIDICV_COLOR_CONVERSION_FLAG_VU else 0)
      (Z.lor (if BGR then KLEIDICV_COLOR_CONVERSION_FLAG_BGR else 0) (if kAlpha then KLEIDICV_COLOR_CONVERSION_FLAG_ALPHA else 0))).

Lemma format_result BGR kAlpha v_first src_y src_uv dst width height mem :
  placed_planes (output_channels kAlpha) src_y src_uv dst width height mem ->
  sp_result BGR kAlpha v_first (chroma_column width) src_y src_uv dst width height mem
    (yuv420sp_to_rgb_u8 src_y src_uv dst width height (nv_format BGR kAlpha v_first) mem).
Proof. intros Hp. pose proof (operation_result BGR kAlpha v_first src_y src_uv dst width height mem Hp). by destruct BGR, kAlpha, v_first. Qed.

Lemma sp_result_ext BGR kAlpha v_first column column' src_y src_uv dst width height mem result : (forall x, column x = column' x) ->
  sp_result BGR kAlpha v_first column src_y src_uv dst width height mem result ->
  sp_result BGR kAlpha v_first column' src_y src_uv dst width height mem result.
Proof.
  intros He [Hok Herr]. split; [|done]. intros Ha. destruct (Hok Ha) as (H1 & H2 & H3). split; [done|]. split; [|done].
  intros y x c Hy Hx Hc. by rewrite <- He, H2.
Qed.

(** C35: for the eight formats of NV12 and NV21 and images that are an even number of pixels wide
    or less than a vector wide, every pixel of both rows of a pair, by vectors, by the vector that
    ends the row or by scalars, has the saturated red, green and blue of its luma and of the
    chroma that its block of two by two pixels shares, in the order of channels that the flags
    name and with an alpha of 255 where they ask for one; the last row of an odd height is a pair
    with itself.  Nothing else is written, null pointers and images that are too large are
    rejected, and so is any other format. *)
Theorem yuv420sp_to_rgb_correct src_y src_uv dst width height mem :
  (forall BGR kAlpha v_first, placed_planes (output_channels kAlpha) src_y src_uv dst width height mem -> width mod 2 = 0 \/ width < 16 ->
    sp_result BGR kAlpha v_first (fun x => 2 * (x / 2)) src_y src_uv dst width height mem
      (yuv420sp_to_rgb_u8 src_y src_uv dst width height (nv_format BGR kAlpha v_first) mem)) /\
  (forall color_format, (forall BGR kAlpha v_first, color_format <> nv_format BGR kAlpha v_first) ->
    yuv420sp_to_rgb_u8 src_y src_uv dst width height color_format mem = (KLEIDICV_ERROR_NOT_IMPLEMENTED, mem)).
Proof.
  split.
  - intros BGR kAlpha v_first Hp Hw. eapply sp_result_ext; [|by apply format_result]. intros x. by apply chroma_column_even.
  - intros f Hf. unfold yuv420sp_to_rgb_u8.
    destruct (Z.eqb_spec f KLEIDICV_NV21_TO_BGR) as [E|_]; [by destruct (Hf true false true)|].
    destruct (Z.eqb_spec f KLEIDICV_NV21_TO_RGB) as [E|_]; [by destruct (Hf false false true)|].
    destruct (Z.eqb_spec f KLEIDICV_NV21_TO_BGRA) as [E|_]; [by destruct (Hf true true true)|].
    destruct (Z.eqb_spec f KLEIDICV_NV21_TO_RGBA) as [E|_]; [by destruct (Hf false true true)|].
    destruct (Z.eqb_spec f KLEIDICV_NV12_TO_BGR) as [E|_]; [by destruct (Hf true false false)|].
    destruct (Z.eqb_spec f KLEIDICV_NV12_TO_RGB) as [E|_]; [by destruct (Hf false false false)|].
    destruct (Z.eqb_spec f KLEIDICV_NV12_TO_BGRA) as [E|_]; [by destruct (Hf true true false)|].
    destruct (Z.eqb_spec f KLEIDICV_NV12_TO_RGBA) as [E|_]; [by destruct (Hf false true false)|done].
Qed.

(** A memory for the witnesses: grey luma and strong red chroma. *)
Definition grey_and_red (p : Z) : Z := if p <? 2000 then 126 else if p mod 2 =? 0 then 128 else 200.

Ltac place_planes :=
  constructor; [lia|repeat (apply Forall_cons_2; [repeat split; first [discriminate|reflexivity]|]); by apply Forall_nil_2|unfold luma_row; cbn; intros; lia|
    let y' := fresh in let x := fresh in let E1 := fresh in let E2 := fresh in unfold plane_byte, luma_row, chroma_row; cbn; intros ? ? ? [(y' & x & E1 & E2 & ->)|(y' & x & E1 & E2 & ->)] ? ?; mod_lia|
    intros p _; unfold grey_and_red; destruct (_ <? _); [lia|destruct (_ =? _); lia]].

Lemma yuv420sp_to_rgb_correct_witness :
  let result := yuv420sp_to_rgb_u8 (1000, 20) (2000, 20) (3000, 60) 18 3 KLEIDICV_NV12_TO_RGB grey_and_red in
  result.1 = KLEIDICV_OK /\ result.2 (3000 + 60 * 2 + 3 * 17) = 243 /\ result.2 (3000 + 60 * 2 + 3 * 17 + 2) = 128 /\
  yuv420sp_to_rgb_u8 (1000, 20) (2000, 20) (3000, 60) 18 3 KLEIDICV_YUV444_TO_RGB grey_and_red = (KLEIDICV_ERROR_NOT_IMPLEMENTED, grey_and_red).
Proof.
  destruct (yuv420sp_to_rgb_correct (1000, 20) (2000, 20) (3000, 60) 18 3 grey_and_red) as [H1 H2].
  destruct (H1 false false false) as [Hok _]; [place_planes|left; reflexivity|].
  destruct Hok as (Hok & Hp & _); [repeat split; cbn; try discriminate|].
  split; [exact Hok|]. split; [exact (Hp 2 17 0 ltac:(lia) ltac:(lia) ltac:(cbn; lia))|].
  split; [exact (Hp 2 17 2 ltac:(lia) ltac:(lia) ltac:(cbn; lia))|]. apply H2. intros [] [] []; discriminate.
Defined.

(** C38: in an image that is more than a vector and an odd number of pixels wide, the last sixteen
    pixels of a row take the chroma from an odd column, so that each blue difference is the byte
    of a red difference and the other way round, of which one belongs to the next block of
    pixels: the vector that ends the row starts at an odd pixel, where the luma starts
    in the middle of a block, and the chroma of a block is read from the columns of the luma. *)
Theorem yuv420sp_odd_width_misreads_chroma BGR kAlpha v_first src_y src_uv dst width height mem y x c :
  placed_planes (output_channels kAlpha) src_y src_uv dst width height mem -> sp_accepts src_y src_uv dst width height ->
  width mod 2 = 1 -> 16 < width -> 0 <= y < height -> width - 16 <= x < width -> 0 <= c < output_channels kAlpha ->
  let result := yuv420sp_to_rgb_u8 src_y src_uv dst width height (nv_format BGR kAlpha v_first) mem in
  let column := width - 16 + 2 * ((x - (width - 16)) / 2) in
  result.2 (byte_address dst (output_channels kAlpha) y x c) =
    sp_pixel BGR v_first mem (luma_row src_y y) (chroma_row src_uv y) x column c /\
  column mod 2 = 1 /\ (column = 2 * (x / 2) + 1 \/ column = 2 * (x / 2) - 1).
Proof.
  intros Hp Ha Hodd Hw Hy Hx Hc result column. destruct (format_result BGR kAlpha v_first src_y src_uv dst width height mem Hp) as [Hok _].
  destruct (Hok Ha) as (_ & Hpix & _). split.
  - unfold result. rewrite Hpix by (done || lia). f_equal. unfold chroma_column. destruct (Z.leb_spec 16 width); [|lia].
    destruct (Z.eqb_spec (width mod 16) 0); [mod_lia|]. destruct (Z.leb_spec (width - 16) x); [done|lia].
  - subst column. mod_lia.
Qed.

(** Pixel 1 of a row of 17 should be as red as the others; it is blue. *)
Lemma yuv420sp_odd_width_misreads_chroma_witness :
  let result := yuv420sp_to_rgb_u8 (1000, 20) (2000, 20) (3000, 60) 17 1 KLEIDICV_NV12_TO_RGB grey_and_red in
  result.2 3000 = 243 /\ result.2 3002 = 128 /\ result.2 3003 = 128 /\ result.2 3005 = 255 /\
  sp_pixel false false grey_and_red 1000 2000 1 (2 * (1 / 2)) 0 = 243.
Proof.
  pose proof (fun x c H1 H2 => yuv420sp_odd_width_misreads_chroma false false false (1000, 20) (2000, 20) (3000, 60) 17 1 grey_and_red 0 x c
    ltac:(place_planes) ltac:(repeat split; cbn; discriminate) eq_refl eq_refl ltac:(lia) H1 H2) as H.
  split; [reflexivity|]. split; [reflexivity|]. split; [exact (proj1 (H 1 0 ltac:(lia) ltac:(cbn; lia)))|].
  split; [exact (proj1 (H 1 2 ltac:(lia) ltac:(cbn; lia)))|reflexivity].
Defined.
