(* ===== verification/Yuv420PToRgb.v ===== *)
(** * Conversion of planar YUV420 to RGB

    [conversions/yuv420p_to_rgb_neon.cpp]: a plane of luma and two of chroma behind it (IYUV or
    YV12) to RGB, BGR, RGBA or BGRA, for a stripe of pairs of rows.  A row of chroma is half as
    wide as a row of luma, and the rows of both planes of chroma follow each other in halves of
    the stride. *)

From S2P Require Import Prelude CTypes Utils Loops Rows Vectors Arithmetic Channels VectorMemory Registers PixelKernels PixelLanes RowPairs Yuv420ToRgb Yuv420Rows.

(** ** [YUVpToRGBxOrBGRx] *)

Definition kVectorLength : Z := 16.

Definition index_lo_lo : list Z := [0; 0xff; 0xff; 0xff; 1; 0xff; 0xff; 0xff; 2; 0xff; 0xff; 0xff; 3; 0xff; 0xff; 0xff].
Definition index_lo_hi : list Z := [4; 0xff; 0xff; 0xff; 5; 0xff; 0xff; 0xff; 6; 0xff; 0xff; 0xff; 7; 0xff; 0xff; 0xff].
Definition index_hi_lo : list Z := [8; 0xff; 0xff; 0xff; 9; 0xff; 0xff; 0xff; 10; 0xff; 0xff; 0xff; 11; 0xff; 0xff; 0xff].
Definition index_hi_hi : list Z := [12; 0xff; 0xff; 0xff; 13; 0xff; 0xff; 0xff; 14; 0xff; 0xff; 0xff; 15; 0xff; 0xff; 0xff].

(** [vreinterpretq_s32_u8(vqtbl1q_u8(v, index))]. *)
Definition expand (v index : list Z) : list Z := map (static_cast int32) (elements_of_register 4 (vqtblq_u8 [v] index)).

Section operation.
Context (BGR kAlpha v_first_ : bool).
Implicit Types (mem : Z -> Z).

Definition YUVp_vector_path (y0 y1 y2 y3 u v : list Z) (rgbx_row_0 rgbx_row_1 : Z) mem : Z -> Z :=
  let u_lo_lo := expand u index_lo_lo in
  let u_lo_hi := expand u index_lo_hi in
  let u_hi_lo := expand u index_hi_lo in
  let u_hi_hi := expand u index_hi_hi in
  let v_lo_lo := expand v index_lo_lo in
  let v_lo_hi := expand v index_lo_hi in
  let v_hi_lo := expand v index_hi_lo in
  let v_hi_hi := expand v index_hi_hi in
  let step := if kAlpha then 4 * 16 else 3 * 16 in
  let mem := yuv420x_to_rgb BGR kAlpha v_first_ y0 y1 u_lo_lo u_lo_hi v_lo_lo v_lo_hi rgbx_row_0 rgbx_row_1 mem in
  yuv420x_to_rgb BGR kAlpha v_first_ y2 y3 u_hi_lo u_hi_hi v_hi_lo v_hi_hi (rgbx_row_0 + step) (rgbx_row_1 + step) mem.

(** The variables of the loop of [scalar_path]: the chroma less 128, the rows of chroma, the rows
    of the destination, and memory. *)
Definition ScalarState : Type := (Z * Z) * (Z * Z) * (Z * Z) * (Z -> Z).
Definition YUVp_scalar_step (y_rows : Z * Z) (index : Z) (s : ScalarState) : ScalarState :=
  let '(uv_m128, (u_row, v_row), rgbx_rows, mem) := s in
  let '(uv_m128, (u_row, v_row)) :=
    if index mod 2 =? 0 then
      let u_m128 := mem u_row - 128 in
      let v_m128 := mem v_row - 128 in
      ((if v_first_ then (v_m128, u_m128) else (u_m128, v_m128)), (u_row + 1, v_row + 1))
    else (uv_m128, (u_row, v_row)) in
  let '(rgbx_rows, mem) := yuv420x_to_rgb_scalar BGR kAlpha y_rows index uv_m128.1 uv_m128.2 rgbx_rows mem in
  (uv_m128, (u_row, v_row), rgbx_rows, mem).
Definition YUVp_scalar_path (length y_row_0 y_row_1 u_row v_row rgbx_row_0 rgbx_row_1 : Z) mem : Z -> Z :=
  (for_range 0 length (YUVp_scalar_step (y_row_0, y_row_1)) ((0, 0), (u_row, v_row), (rgbx_row_0, rgbx_row_1), mem)).2.

(** ** Stripes *)

(** The loops over a pair of rows. *)
Definition convert_pair (width y0 y1 u v row0 row1 : Z) mem : option (Z -> Z) :=
  let dcn := output_channels kAlpha in
  let vectors index mem :=
    let u_vec := load 1 mem (u + index / 2) in
    let v_vec := load 1 mem (v + index / 2) in
    let y0_vec := load 1 mem (y0 + index) in
    let y1_vec := load 1 mem (y1 + index) in
    let y2_vec := load 1 mem (y0 + index + kVectorLength) in
    let y3_vec := load 1 mem (y1 + index + kVectorLength) in
    YUVp_vector_path y0_vec y1_vec y2_vec y3_vec u_vec v_vec (row0 + index ⊠ dcn) (row1 + index ⊠ dcn) mem in
  let rest index length mem :=
    YUVp_scalar_path (length ⊟ index) (y0 + index) (y1 + index) (u + index / 2) (v + index / 2) (row0 + index ⊠ dcn) (row1 + index ⊠ dcn) mem in
  match Unroll2.unroll_n_times false 2 vectors (Unroll2.make 0 width kVectorLength, mem) with
  | Some loop => Some (Unroll2.remaining rest loop).2
  | None => None
  end.

Definition uv_strides (width src_stride index : Z) : Z :=
  if Z.land index 1 =? 0 then width / 2 else src_stride ⊟ width / 2.

(** The variables of the loop over pairs of rows: the rows of luma and chroma, the indices of the
    strides, and memory. *)
Definition StripeState : Type := (Z * Z * Z) * (Z * Z) * option (Z -> Z).

Definition stripe_step (src_stride dst dst_stride width row_end h : Z) (s : StripeState) : StripeState :=
  let '((y0, u, v), (u_index, v_index), mem) := s in
  let row0 := dst + dst_stride ⊠ h in
  let row1 := dst + dst_stride ⊠ (h ⊞ 1) in
  let y1 := y0 + src_stride in
  let '(row1, y1) := if h =? row_end ⊟ 1 then (row0, y0) else (row1, y1) in
  let mem := match mem with Some mem => convert_pair width y0 y1 u v row0 row1 mem | None => None end in
  let y0 := y0 + src_stride ⊠ 2 in
  let u := u + uv_strides width src_stride u_index in
  let v := v + uv_strides width src_stride v_index in
  ((y0, u, v), (u_index ⊞ 1, v_index ⊞ 1), mem).

Definition convert_stripe (src dst : Z * Z) (width height begin end_ : Z) mem : option (Z -> Z) :=
  let src_stride := src.2 in
  let src := src.1 in
  let u := src + src_stride ⊠ height in
  let v := u + src_stride ⊠ (height / 4) + width / 2 ⊠ (height mod 4 / 2) in
  let u_index := 0 in
  let v_index := if height mod 4 =? 2 then 1 else 0 in
  let row_begin := begin ⊠ 2 in
  let row_end := Z.min height (end_ ⊠ 2) in
  let row_uv := begin in
  let y0 := src + row_begin ⊠ src_stride in
  let u := u + row_uv / 2 ⊠ src_stride in
  let v := v + row_uv / 2 ⊠ src_stride in
  let '(u, v, u_index, v_index) :=
    if row_uv mod 2 =? 1
    then (u + uv_strides width src_stride u_index, v + uv_strides width src_stride v_index, u_index ⊞ 1, v_index ⊞ 1)
    else (u, v, u_index, v_index) in
  (for_step row_begin row_end 2 (stripe_step src_stride dst.1 dst.2 width row_end) ((y0, u, v), (u_index, v_index), Some mem)).2.

Definition yuv2rgbx_operation (src dst : Z * Z) (width height begin end_ : Z) mem : option (kleidicv_error_t * (Z -> Z)) :=
  match check_pointer_and_stride 1 src.1 src.2 ((height ⊠ 3 ⊞ 1) / 2) ?> check_pointer_and_stride 1 dst.1 dst.2 height ?>
        check_image_size width height with
  | KLEIDICV_OK => option_map (pair KLEIDICV_OK) (convert_stripe src dst width height begin end_ mem)
  | error => Some (error, mem)
  end.
End operation.

Definition yuv420p_to_rgb_stripe_u8 (src dst : Z * Z) (width height : Z) (color_format : kleidicv_color_conversion_t) (begin end_ : Z)
    (mem : Z -> Z) : option (kleidicv_error_t * (Z -> Z)) :=
  if color_format =? KLEIDICV_YV12_TO_BGR then yuv2rgbx_operation true false true src dst width height begin end_ mem
  else if color_format =? KLEIDICV_YV12_TO_RGB then yuv2rgbx_operation false false true src dst width height begin end_ mem
  else if color_format =? KLEIDICV_YV12_TO_BGRA then yuv2rgbx_operation true true true src dst width height begin end_ mem
  else if color_format =? KLEIDICV_YV12_TO_RGBA then yuv2rgbx_operation false true true src dst width height begin end_ mem
  else if color_format =? KLEIDICV_IYUV_TO_BGR then yuv2rgbx_operation true false false src dst width height begin end_ mem
  else if color_format =? KLEIDICV_IYUV_TO_RGB then yuv2rgbx_operation false false false src dst width height begin end_ mem
  else if color_format =? KLEIDICV_IYUV_TO_BGRA then yuv2rgbx_operation true true false src dst width height begin end_ mem
  else if color_format =? KLEIDICV_IYUV_TO_RGBA then yuv2rgbx_operation false true false src dst width height begin end_ mem
  else Some (KLEIDICV_ERROR_NOT_IMPLEMENTED, mem).

(** ** Chroma in lanes *)

Section bytes.
Context (f : nat -> Z).
Local Abbreviation V := (map f (seq 0 16)).

(** The indices that expand bytes [4 * k] to [4 * k + 3]. *)
Definition index_of (k : nat) : list Z :=
  match k with 0%nat => index_lo_lo | 1%nat => index_lo_hi | 2%nat => index_hi_lo | _ => index_hi_hi end.

Lemma expanded_chunks k : (k < 4)%nat -> chunks 4 (vqtblq_u8 [V] (index_of k)) = map (fun i => [f (4 * k + i)%nat; 0; 0; 0]) (seq 0 4).
Proof. intros Hk. do 4 (destruct k as [|k]; [reflexivity|]). lia. Qed.

Lemma expand_lanes k : (k < 4)%nat -> (forall i, (i < 16)%nat -> 0 <= f i < 256) -> lanes_of 4 (expand V (index_of k)) (fun i => f (4 * k + i)%nat).
Proof.
  intros Hk Hf. unfold expand, elements_of_register. rewrite expanded_chunks, !map_map by done.
  split; [by rewrite length_map, length_seq|]. intros i Hi. apply list_lookup_total_correct.
  rewrite list_lookup_fmap, lookup_seq_lt by done. cbn [fmap option_fmap option_map]. f_equal. change (0 + i)%nat with i.
  assert (4 * k + i < 16)%nat as Hd by lia. specialize (Hf _ Hd). set (d := (4 * k + i)%nat) in *. clearbody d. cbn. rewrite Z.add_0_r. apply cast_s32. lia.
Qed.
End bytes.

(** ** A pair of rows *)

Section row.
Context (BGR kAlpha v_first : bool) (width y0 y1 u v row_0 row_1 : Z) (mem0 : Z -> Z).
Local Abbreviation ch := (output_channels kAlpha).

Definition source_byte (p : Z) : Prop :=
  (exists x, 0 <= x < width /\ (p = y0 + x \/ p = y1 + x)) \/ (exists x, 0 <= x < (width + 1) / 2 /\ (p = u + x \/ p = v + x)).

Hypothesis width_ok : 0 <= width < 2 ^ 48.
Hypothesis bytes : forall p, source_byte p -> 0 <= mem0 p < 256.
Hypothesis sources_apart : forall p m, source_byte p -> 0 <= m < width * ch -> p <> row_0 + m /\ p <> row_1 + m.
Hypothesis same_or_apart : (row_0 = row_1 /\ y0 = y1) \/ (forall i j, 0 <= i < width * ch -> 0 <= j < width * ch -> row_0 + i <> row_1 + j).

(** The chroma of pixel [x]. *)
Definition blue_at (x : Z) : Z := mem0 ((if v_first then v else u) + x / 2).
Definition red_at (x : Z) : Z := mem0 ((if v_first then u else v) + x / 2).

Definition filled_to (n : Z) (mem : Z -> Z) : Prop :=
  pixels_filled_to BGR kAlpha row_0 row_1 (fun x => mem0 (y0 + x)) (fun x => mem0 (y1 + x)) mem0 n blue_at red_at mem.

Lemma p_row_luma x : 0 <= x < width -> 0 <= mem0 (y0 + x) < 256 /\ 0 <= mem0 (y1 + x) < 256.
Proof. intros Hx. split; apply bytes; left; exists x; lia. Qed.

Lemma p_same_or_apart : (row_0 = row_1 /\ forall x, 0 <= x < width -> mem0 (y0 + x) = mem0 (y1 + x)) \/
  (forall i j, 0 <= i < width * ch -> 0 <= j < width * ch -> row_0 + i <> row_1 + j).
Proof. destruct same_or_apart as [[? ->]|?]; [by left|by right]. Qed.

Lemma p_planes_kept n mem p : n <= width -> filled_to n mem -> source_byte p -> mem p = mem0 p.
Proof. intros Hn Hf Hp. eapply (pixels_kept BGR kAlpha width); [exact Hn|exact Hf|]. intros m Hm. by apply sources_apart. Qed.

Lemma chroma_source x : 0 <= x < width -> source_byte (u + x / 2) /\ source_byte (v + x / 2).
Proof. intros Hx. split; right; exists (x / 2); split; [mod_lia|by left|mod_lia|by right]. Qed.

Lemma chroma_bytes x : 0 <= x < width -> 0 <= blue_at x < 256 /\ 0 <= red_at x < 256.
Proof. intros Hx. destruct (chroma_source x Hx). unfold blue_at, red_at. destruct v_first; split; by apply bytes. Qed.

(** Half of the pixels of a vector, from even pixel [i] of the row and byte [8 * k] of the chroma. *)
Lemma half_vector i k mem u_l u_h v_l v_h y0s y1s : 0 <= i -> i mod 2 = 0 -> (k = 0 \/ k = 1) -> i + 16 * k + 16 <= width -> filled_to (i + 16 * k) mem ->
  y0s = map (fun j => mem0 (y0 + (i + 16 * k) + Z.of_nat j)) (seq 0 16) -> y1s = map (fun j => mem0 (y1 + (i + 16 * k) + Z.of_nat j)) (seq 0 16) ->
  lanes_of 4 u_l (fun j => mem0 (u + i / 2 + 8 * k + Z.of_nat j)) /\ lanes_of 4 u_h (fun j => mem0 (u + i / 2 + 8 * k + Z.of_nat (4 + j))) ->
  lanes_of 4 v_l (fun j => mem0 (v + i / 2 + 8 * k + Z.of_nat j)) /\ lanes_of 4 v_h (fun j => mem0 (v + i / 2 + 8 * k + Z.of_nat (4 + j))) ->
  filled_to (i + 16 * k + 16) (yuv420x_to_rgb BGR kAlpha v_first y0s y1s u_l u_h v_l v_h (row_0 + (i + 16 * k) * ch) (row_1 + (i + 16 * k) * ch) mem).
Proof.
  intros Hi He Hk Hw Hf Hy0 Hy1 Hu Hv. set (n := i + 16 * k) in *. unfold filled_to. rewrite <- (Z.max_r n (n + 16)) by lia.
  apply (vector_pixels BGR kAlpha width row_0 row_1 _ _ mem0 p_row_luma p_same_or_apart v_first n n blue_at red_at _ _
    (fun j => mem0 (u + i / 2 + 8 * k + j)) (fun j => mem0 (v + i / 2 + 8 * k + j))); try done; try lia.
  - rewrite Hy0. apply map_ext. intros j. f_equal. lia.
  - rewrite Hy1. apply map_ext. intros j. f_equal. lia.
  - intros j Hj. assert (u + i / 2 + 8 * k + j = u + (n + 2 * j) / 2 /\ v + i / 2 + 8 * k + j = v + (n + 2 * j) / 2) as [-> ->] by (subst n; mod_lia).
    split; apply bytes, chroma_source; lia.
  - intros x Hx. unfold blue_at, red_at. assert ((n + x) / 2 = i / 2 + 8 * k + x / 2) as -> by (subst n; mod_lia). destruct v_first; split; f_equal; lia.
Qed.

(** Two vectors of pixels of both rows. *)
Lemma vectors_filled i mem : 0 <= i -> i mod 2 = 0 -> i + 32 <= width -> filled_to i mem ->
  filled_to (i + 32) (YUVp_vector_path BGR kAlpha v_first (load 1 mem (y0 + i)) (load 1 mem (y1 + i)) (load 1 mem (y0 + i + kVectorLength))
    (load 1 mem (y1 + i + kVectorLength)) (load 1 mem (u + i / 2)) (load 1 mem (v + i / 2)) (row_0 + i * ch) (row_1 + i * ch) mem).
Proof.
  intros Hi He Hw Hf. unfold kVectorLength.
  assert (forall p, source_byte p -> mem p = mem0 p /\ 0 <= mem0 p < 256) as Hs by (intros p Hp; split; [apply (p_planes_kept i); done || lia|by apply bytes]).
  assert (forall x, 0 <= x < 16 -> source_byte (y0 + i + x) /\ source_byte (y1 + i + x) /\ source_byte (y0 + i + 16 + x) /\ source_byte (y1 + i + 16 + x) /\
    source_byte (u + i / 2 + x) /\ source_byte (v + i / 2 + x)) as Hsrc.
  { intros x Hx. split_and!; [left; exists (i + x); lia|left; exists (i + x); lia|left; exists (i + 16 + x); lia|left; exists (i + 16 + x); lia| |];
      right; exists (i / 2 + x); (split; [mod_lia|lia]). }
  unfold YUVp_vector_path. rewrite !(load_kept mem mem0) by (intros x Hx; destruct (Hsrc x Hx) as (? & ? & ? & ? & ? & ?); by apply Hs).
  assert (forall p, (forall x, 0 <= x < 16 -> source_byte (p + x)) -> forall k, (k < 4)%nat ->
    lanes_of 4 (expand (map (fun j => mem0 (p + Z.of_nat j)) (seq 0 16)) (index_of k)) (fun j => mem0 (p + Z.of_nat (4 * k + j)))) as Hex.
  { intros p Hp k Hk. apply (expand_lanes (fun j => mem0 (p + Z.of_nat j))); [done|]. intros j Hj. apply bytes, Hp. lia. }
  pose proof (Hex (u + i / 2) (fun x Hx => proj1 (proj2 (proj2 (proj2 (proj2 (Hsrc x Hx))))))) as Hu.
  pose proof (Hex (v + i / 2) (fun x Hx => proj2 (proj2 (proj2 (proj2 (proj2 (Hsrc x Hx))))))) as Hv. clear Hex.
  pose proof (channels_pos kAlpha).
  replace (i + 32) with (i + 16 * 1 + 16) by lia.
  assert ((if kAlpha then 4 * 16 else 3 * 16) = 16 * ch) as -> by (by destruct kAlpha).
  replace (row_0 + i * ch + 16 * ch) with (row_0 + (i + 16 * 1) * ch) by lia. replace (row_1 + i * ch + 16 * ch) with (row_1 + (i + 16 * 1) * ch) by lia.
  apply half_vector; try done; try lia.
  - replace (i + 16 * 1) with (i + 16 * 0 + 16) by lia. replace (row_0 + i * ch) with (row_0 + (i + 16 * 0) * ch) by lia. replace (row_1 + i * ch) with (row_1 + (i + 16 * 0) * ch) by lia.
    apply half_vector; try done; try lia.
    + by replace (i + 16 * 0) with i by lia.
    + apply map_ext. intros j. f_equal. lia.
    + apply map_ext. intros j. f_equal. lia.
    + split; [eapply lanes_of_ext; [|exact (Hu 0%nat ltac:(lia))]|eapply lanes_of_ext; [|exact (Hu 1%nat ltac:(lia))]]; intros j Hj; cbv beta; f_equal; lia.
    + split; [eapply lanes_of_ext; [|exact (Hv 0%nat ltac:(lia))]|eapply lanes_of_ext; [|exact (Hv 1%nat ltac:(lia))]]; intros j Hj; cbv beta; f_equal; lia.
  - apply map_ext. intros j. f_equal. lia.
  - apply map_ext. intros j. f_equal. lia.
  - split; [eapply lanes_of_ext; [|exact (Hu 2%nat ltac:(lia))]|eapply lanes_of_ext; [|exact (Hu 3%nat ltac:(lia))]]; intros j Hj; cbv beta; f_equal; lia.
  - split; [eapply lanes_of_ext; [|exact (Hv 2%nat ltac:(lia))]|eapply lanes_of_ext; [|exact (Hv 3%nat ltac:(lia))]]; intros j Hj; cbv beta; f_equal; lia.
Qed.

(** One pixel of both rows by scalars, [t] pixels from an even pixel [i0]. *)
Lemma planar_scalar_step i0 t uv_m128 mem : 0 <= i0 -> i0 mod 2 = 0 -> 0 <= t -> i0 + t < width -> filled_to (i0 + t) mem ->
  (t mod 2 = 1 -> uv_m128 = (blue_at (i0 + t) - 128, red_at (i0 + t) - 128)) ->
  exists mem', YUVp_scalar_step BGR kAlpha v_first (y0 + i0, y1 + i0) t
    (uv_m128, (u + (i0 + t + 1) / 2, v + (i0 + t + 1) / 2), (row_0 + (i0 + t) * ch, row_1 + (i0 + t) * ch), mem) =
    ((blue_at (i0 + t) - 128, red_at (i0 + t) - 128), (u + (i0 + t + 2) / 2, v + (i0 + t + 2) / 2), (row_0 + (i0 + t + 1) * ch, row_1 + (i0 + t + 1) * ch), mem') /\
    filled_to (i0 + t + 1) mem'.
Proof.
  intros Hi0 He Ht Hi Hf Huv. unfold YUVp_scalar_step. set (i := i0 + t) in *.
  assert (forall p, source_byte p -> mem p = mem0 p) as Hkept by (intros p; apply (p_planes_kept i); [lia|done]).
  destruct (chroma_source i ltac:(lia)) as [Hsu Hsv].
  assert (source_byte (y0 + i) /\ source_byte (y1 + i)) as [Hy0 Hy1] by (split; left; exists i; lia).
  match goal with |- context [if t mod 2 =? 0 then ?a else ?b] =>
    assert ((if t mod 2 =? 0 then a else b) = ((blue_at i - 128, red_at i - 128), (u + (i + 2) / 2, v + (i + 2) / 2))) as -> end.
  { destruct (Z.eqb_spec (t mod 2) 0) as [E|E].
    - assert ((i + 1) / 2 = i / 2 /\ (i + 2) / 2 = i / 2 + 1) as (E1 & E2) by (subst i; mod_lia).
      rewrite E1, E2, !Z.add_assoc. rewrite !Hkept by done. unfold blue_at, red_at. by destruct v_first.
    - rewrite Huv by mod_lia. assert ((i + 1) / 2 = (i + 2) / 2) as -> by (subst i; mod_lia). done. }
  destruct (scalar_pixels BGR kAlpha width row_0 row_1 _ _ mem0 p_row_luma p_same_or_apart (y0 + i0, y1 + i0) t i blue_at red_at mem ltac:(lia) Hf)
    as (mem' & E & Hf').
  - cbn [fst]. rewrite <- Z.add_assoc. by apply Hkept.
  - cbn [snd]. rewrite <- Z.add_assoc. by apply Hkept.
  - cbn [snd]. intros m Hm E. rewrite <- Z.add_assoc in E. by destruct (sources_apart (y1 + i) m Hy1 Hm).
  - apply chroma_bytes. lia.
  - apply chroma_bytes. lia.
  - cbn [fst snd]. rewrite E. by exists mem'.
Qed.

Lemma scalars_filled i0 mem : 0 <= i0 <= width -> i0 mod 2 = 0 -> filled_to i0 mem ->
  filled_to width (YUVp_scalar_path BGR kAlpha v_first (width - i0) (y0 + i0) (y1 + i0) (u + i0 / 2) (v + i0 / 2) (row_0 + i0 * ch) (row_1 + i0 * ch) mem).
Proof.
  intros Hi0 He Hf. unfold YUVp_scalar_path.
  enough (exists uv_m128 mem', for_range 0 (width - i0) (YUVp_scalar_step BGR kAlpha v_first (y0 + i0, y1 + i0))
      ((0, 0), (u + i0 / 2, v + i0 / 2), (row_0 + i0 * ch, row_1 + i0 * ch), mem) =
    (uv_m128, (u + (i0 + (width - i0) + 1) / 2, v + (i0 + (width - i0) + 1) / 2), (row_0 + (i0 + (width - i0)) * ch, row_1 + (i0 + (width - i0)) * ch), mem') /\
    filled_to (i0 + (width - i0)) mem' /\ ((width - i0) mod 2 = 1 -> uv_m128 = (blue_at (i0 + (width - i0)) - 128, red_at (i0 + (width - i0)) - 128)))
    as (uvm & mem' & -> & Hf' & _) by (by replace (i0 + (width - i0)) with width in Hf' by lia).
  apply (for_range_ind (fun t s => exists uv_m128 mem', s = (uv_m128, (u + (i0 + t + 1) / 2, v + (i0 + t + 1) / 2), (row_0 + (i0 + t) * ch, row_1 + (i0 + t) * ch), mem') /\
    filled_to (i0 + t) mem' /\ (t mod 2 = 1 -> uv_m128 = (blue_at (i0 + t) - 128, red_at (i0 + t) - 128)))); [lia| |].
  - exists (0, 0), mem. rewrite !Z.add_0_r. split; [|by split]. assert ((i0 + 1) / 2 = i0 / 2) as -> by mod_lia. done.
  - intros t s Ht (uvm & mem' & -> & Hf' & Huv). destruct (planar_scalar_step i0 t uvm mem' ltac:(lia) He ltac:(lia) ltac:(lia) Hf' Huv) as (mem2 & -> & Hf2).
    exists (blue_at (i0 + t) - 128, red_at (i0 + t) - 128), mem2. rewrite !Z.add_assoc. replace (i0 + t + 1 + 1) with (i0 + t + 2) by lia.
    split; [done|]. split; [done|]. intros Hodd. unfold blue_at, red_at. by assert ((i0 + t + 1) / 2 = (i0 + t) / 2) as -> by mod_lia.
Qed.

(** The loops over the pair of rows. *)
Lemma convert_pair_filled : exists mem', convert_pair BGR kAlpha v_first width y0 y1 u v row_0 row_1 mem0 = Some mem' /\ filled_to width mem'.
Proof.
  pose proof (channels_pos kAlpha) as Hch. unfold convert_pair.
  assert (forall i, 0 <= i <= width -> i ⊠ ch = i * ch) as Hmul by (intros i Hi; apply size_mul_small; nia).
  set (Inv := fun i mem => (i mod 2 = 0 \/ i = width) /\ filled_to i mem).
  match goal with |- context [Unroll2.unroll_n_times false 2 ?f _] => set (vectors := f) end.
  match goal with |- context [Unroll2.remaining ?f _] => set (rest := f) end.
  destruct (Unroll2.unroll_invariant Inv 2 vectors (Unroll2.make 0 width kVectorLength) mem0) as (i & mem1 & -> & Hi & HI);
    unfold kVectorLength; cbn [Unroll2.make Unroll2.length_ Unroll2.step_ Unroll2.index_]; try rewrite Z.min_l by lia; try (unfold is_size; lia).
  - intros i mem Hi Hiw [Hev Hf]. unfold vectors. rewrite Hmul by lia. split; [left; mod_lia|]. apply vectors_filled; [lia|lia|lia|done].
  - split; [left; done|]. apply rows_filled_none.
  - destruct (Unroll2.remaining_invariant Inv rest (Unroll2.with_index (Unroll2.make 0 width 16) i) mem1) as (l' & mem2 & -> & [_ Hf]);
      cbn [Unroll2.with_index Unroll2.make Unroll2.length_ Unroll2.step_ Unroll2.index_] in *; try done; try (unfold is_size; lia); [|by exists mem2].
    intros j mem Hj [Hev Hf]. unfold rest. rewrite !Hmul by lia. rewrite size_sub_small by lia. split; [by right|].
    apply scalars_filled; [lia|lia|done].
Qed.
End row.

(** ** Stripes *)

(** The rows of chroma as the code steps over them: two in a stride, of [width / 2] bytes.  For
    an odd width that is one byte less than a row has blocks: [odd_width_reads_next_row]. *)
Definition half_row (src : Z * Z) (width height k : Z) : Z := src.1 + src.2 * height + k / 2 * src.2 + k mod 2 * (width / 2).

(** Where the code finds row [r] of the second plane of chroma. *)
Definition second_plane_row (src : Z * Z) (width height r : Z) : Z :=
  src.1 + src.2 * height + src.2 * (height / 4) + width / 2 * (height mod 4 / 2) + r / 2 * src.2 +
  r mod 2 * (if height mod 4 =? 2 then src.2 - width / 2 else width / 2).

(** For an even height the second plane is behind the rows of the first. *)
Lemma second_plane_even src width height r : 0 <= height -> 0 <= r -> height mod 2 = 0 ->
  second_plane_row src width height r = half_row src width height (height / 2 + r).
Proof.
  intros Hh Hr He. unfold second_plane_row, half_row. generalize (width / 2). intros w. destruct src as [p s]. cbn [fst snd].
  destruct (Z.eqb_spec (height mod 4) 2) as [E|E].
  - assert (exists a b c, height / 4 = a /\ height mod 4 / 2 = 1 /\ r / 2 = b /\ r mod 2 = c /\ (height / 2 + r) / 2 = a + b + c /\ (height / 2 + r) mod 2 = 1 - c)
      as (a & b & c & -> & -> & -> & -> & -> & ->) by (do 3 eexists; split_and!; try reflexivity; mod_lia). ring.
  - assert (exists a b c, height / 4 = a /\ height mod 4 / 2 = 0 /\ r / 2 = b /\ r mod 2 = c /\ (height / 2 + r) / 2 = a + b /\ (height / 2 + r) mod 2 = c)
      as (a & b & c & -> & -> & -> & -> & -> & ->) by (do 3 eexists; split_and!; try reflexivity; mod_lia). ring.
Qed.

Lemma half_row_next src width height k : 0 <= k ->
  half_row src width height (k + 1) = half_row src width height k + (if k mod 2 =? 0 then width / 2 else src.2 - width / 2).
Proof.
  intros Hk. unfold half_row. generalize (width / 2). intros w. destruct src as [p s]. cbn [fst snd]. destruct (Z.eqb_spec (k mod 2) 0) as [E|E].
  - assert ((k + 1) / 2 = k / 2 /\ (k + 1) mod 2 = 1) as [-> ->] by mod_lia. rewrite E. ring.
  - assert ((k + 1) / 2 = k / 2 + 1 /\ (k + 1) mod 2 = 0 /\ k mod 2 = 1) as (-> & -> & ->) by mod_lia. ring.
Qed.

(** The index of the strides of the second plane. *)
Definition second_index (height : Z) : Z := if height mod 4 =? 2 then 1 else 0.

Lemma second_plane_next src width height r : 0 <= r ->
  second_plane_row src width height (r + 1) =
  second_plane_row src width height r + (if (r + second_index height) mod 2 =? 0 then width / 2 else src.2 - width / 2).
Proof.
  intros Hr. unfold second_plane_row, second_index. generalize (width / 2), (height / 4). intros w a. generalize (height mod 4 / 2). intros b. destruct src as [p s]. cbn [fst snd].
  destruct (height mod 4 =? 2).
  - destruct (Z.eqb_spec ((r + 1) mod 2) 0) as [E|E].
    + assert ((r + 1) / 2 = r / 2 + 1 /\ (r + 1) mod 2 = 0 /\ r mod 2 = 1) as (-> & -> & ->) by mod_lia. ring.
    + assert ((r + 1) / 2 = r / 2 /\ (r + 1) mod 2 = 1 /\ r mod 2 = 0) as (-> & -> & ->) by mod_lia. ring.
  - rewrite Z.add_0_r. destruct (Z.eqb_spec (r mod 2) 0) as [E|E].
    + assert ((r + 1) / 2 = r / 2 /\ (r + 1) mod 2 = 1) as [-> ->] by mod_lia. rewrite E. ring.
    + assert ((r + 1) / 2 = r / 2 + 1 /\ (r + 1) mod 2 = 0 /\ r mod 2 = 1) as (-> & -> & ->) by mod_lia. ring.
Qed.

Lemma uv_strides_parity width src_stride i k : 0 <= width / 2 <= src_stride -> src_stride < 2 ^ 64 -> i mod 2 = k mod 2 ->
  uv_strides width src_stride i = if k mod 2 =? 0 then width / 2 else src_stride - width / 2.
Proof.
  intros Hw Hs Hi. unfold uv_strides. change 1 with (Z.ones 1). rewrite Z.land_ones by lia. change (2 ^ 1) with 2. rewrite Hi.
  destruct (_ =? 0); [done|]. apply size_sub_small. lia.
Qed.

(** The bytes of the planes that are read. *)
Definition planar_byte (src : Z * Z) (width height p : Z) : Prop :=
  (exists y x, 0 <= y < height /\ 0 <= x < width /\ p = src.1 + y * src.2 + x) \/
  (exists r x, 0 <= r < (height + 1) / 2 /\ 0 <= x < (width + 1) / 2 /\
    (p = half_row src width height r + x \/ p = second_plane_row src width height r + x)).

Record placed_planar (channels : Z) (src dst : Z * Z) (width height : Z) (mem : Z -> Z) : Prop := {
  planar_sizes : 0 <= width <= src.2 /\ 0 <= height < 2 ^ 62;
  source_in_memory : 0 <= src.1 /\ src.1 + src.2 * (2 * height + 2) < 2 ^ 64;
  destination_in_memory : 0 <= dst.1 /\ 0 <= dst.2 /\ dst.1 + dst.2 * (height + 1) < 2 ^ 64;
  planar_rows_apart : forall y m y' m', 0 <= y < height -> 0 <= m < width * channels -> 0 <= y' < height -> 0 <= m' < width * channels ->
    dst.1 + y * dst.2 + m = dst.1 + y' * dst.2 + m' -> y = y' /\ m = m';
  planar_apart : forall p y m, planar_byte src width height p -> 0 <= y < height -> 0 <= m < width * channels -> p <> dst.1 + y * dst.2 + m;
  planar_bytes : forall p, planar_byte src width height p -> 0 <= mem p < 256
}.

Section stripe.
Context (BGR kAlpha v_first : bool) (src dst : Z * Z) (width height : Z) (mem : Z -> Z).
Local Abbreviation ch := (output_channels kAlpha).
Hypothesis placed : placed_planar ch src dst width height mem.
Hypothesis width_ok : width < 2 ^ 48.

(** What a pair of rows comes to. *)
Definition pair_body (i : Z) (mem1 : Z -> Z) : option (Z -> Z) :=
  convert_pair BGR kAlpha v_first width (src.1 + 2 * i * src.2) (src.1 + second_row height i * src.2) (half_row src width height i)
    (second_plane_row src width height i) (dst.1 + 2 * i * dst.2) (dst.1 + second_row height i * dst.2) mem1.

(** Byte [m] of row [y]. *)
Definition planar_value (y m : Z) : Z :=
  let chroma_u := half_row src width height (y / 2) in
  let chroma_v := second_plane_row src width height (y / 2) in
  rgb_of_yuv BGR (mem (src.1 + y * src.2 + m / ch)) (mem ((if v_first then chroma_v else chroma_u) + m / ch / 2))
    (mem ((if v_first then chroma_u else chroma_v) + m / ch / 2)) (m mod ch).

Lemma planar_pair_filled i mem1 : 0 <= i -> 2 * i < height ->
  (forall p, (forall y m, 0 <= y < height -> 0 <= m < width * ch -> p <> dst.1 + y * dst.2 + m) -> mem1 p = mem p) ->
  exists mem2, pair_body i mem1 = Some mem2 /\
    rows_filled (dst.1 + 2 * i * dst.2) (dst.1 + second_row height i * dst.2) (width * ch) (planar_value (2 * i)) (planar_value (second_row height i)) mem1 mem2.
Proof.
  intros Hi Hlt Hkept. destruct placed as [[Hw0 Hh] _ _ Hrows Hplanes Hbytes].
  assert (0 <= second_row height i < height /\ second_row height i / 2 = i /\ (second_row height i = 2 * i \/ second_row height i = 2 * i + 1)) as (Hs & Hs2 & Hs3).
  { unfold second_row. destruct (Z.eqb_spec height (2 * i + 1)); (split; [lia|split; [mod_lia|lia]]). }
  assert (2 * i / 2 = i) as Hi2 by mod_lia. assert (0 <= i < (height + 1) / 2) as Hir by mod_lia.
  assert (forall p, source_byte width (src.1 + 2 * i * src.2) (src.1 + second_row height i * src.2) (half_row src width height i) (second_plane_row src width height i) p ->
    planar_byte src width height p) as Hsrc.
  { intros p [(x & Hx & [-> | ->])|(x & Hx & [-> | ->])]; [left; exists (2 * i), x|left; exists (second_row height i), x|right; exists i, x|right; exists i, x]; split_and!; try done; try lia; auto. }
  assert (forall p, planar_byte src width height p -> mem1 p = mem p) as Hsame.
  { intros p Hp. apply Hkept. intros y m Hy Hm. by apply Hplanes. }
  destruct (convert_pair_filled BGR kAlpha v_first width (src.1 + 2 * i * src.2) (src.1 + second_row height i * src.2) (half_row src width height i)
    (second_plane_row src width height i) (dst.1 + 2 * i * dst.2) (dst.1 + second_row height i * dst.2) mem1) as (mem2 & E & Hf).
  - lia.
  - intros p Hp. rewrite Hsame by (by apply Hsrc). by apply Hbytes, Hsrc.
  - intros p m Hp Hm. split; apply Hplanes; try done; try lia; by apply Hsrc.
  - destruct Hs3 as [E|E]; rewrite E; [left; done|right]. intros k j Hk Hj Heq.
    destruct (Hrows (2 * i) k (2 * i + 1) j) as [Hbad _]; [lia|lia|lia|lia|exact Heq|lia].
  - exists mem2. split; [exact E|]. eapply rows_filled_ext; [|exact Hf]. intros m Hm. unfold pair_value, blue_at, red_at, planar_value. rewrite Hi2, Hs2. cbv zeta.
    pose proof (channels_pos kAlpha). assert (0 <= m / ch < width) as Hx by (split; [apply Z.div_pos; lia|apply Z.div_lt_upper_bound; lia]).
    assert (0 <= m / ch / 2 < (width + 1) / 2) as Hx2 by mod_lia.
    destruct v_first; rewrite !Hsame by first [apply Hsrc; left; exists (m / ch); lia|right; exists i, (m / ch / 2); split_and!; first [lia|by left|by right]]; done.
Qed.

Lemma convert_pair_some y0 y1 u v row0 row1 mem1 : exists mem2, convert_pair BGR kAlpha v_first width y0 y1 u v row0 row1 mem1 = Some mem2.
Proof.
  pose proof (planar_sizes _ _ _ _ _ _ placed) as [[Hw0 _] _]. unfold convert_pair.
  match goal with |- context [Unroll2.unroll_n_times false 2 ?f _] => set (vectors := f) end.
  destruct (Unroll2.unroll_invariant (fun _ _ => True) 2 vectors (Unroll2.make 0 width kVectorLength) mem1) as (i & mem2 & -> & _ & _);
    unfold kVectorLength; cbn [Unroll2.make Unroll2.length_ Unroll2.step_ Unroll2.index_]; try rewrite Z.min_l by lia; try (unfold is_size; lia); try done.
  by eexists.
Qed.

Definition pair_result (i : Z) (mem1 : Z -> Z) : Z -> Z := match pair_body i mem1 with Some mem2 => mem2 | None => mem1 end.

(** The variables of the loop before pair [r]. *)
Definition at_pair (r : Z) (mem1 : Z -> Z) (s : StripeState) : Prop :=
  exists u_index v_index, s = ((src.1 + 2 * r * src.2, half_row src width height r, second_plane_row src width height r), (u_index, v_index), Some mem1) /\
    (0 <= u_index <= r + 1 /\ u_index mod 2 = r mod 2) /\ (0 <= v_index <= r + 1 /\ v_index mod 2 = (r + second_index height) mod 2).

Context (begin end_ : Z).
Hypothesis stripe_ok : 0 <= begin <= end_ /\ end_ < 2 ^ 62 /\ 2 * begin <= height + 1.
Local Abbreviation row_end := (Z.min height (2 * end_)).

Lemma stripe_step_pair r mem1 s : 0 <= r -> 2 * r < row_end -> at_pair r mem1 s ->
  at_pair (r + 1) (pair_result r mem1) (stripe_step BGR kAlpha v_first src.2 dst.1 dst.2 width row_end (2 * r) s).
Proof.
  intros Hr Hlt (ui & vi & -> & [Hu Hup] & [Hv Hvp]). destruct placed as [[Hw Hh] [Hs1 Hs2] (Hd1 & Hd2 & Hd3) _ _ _].
  unfold stripe_step. cbv zeta.
  assert (forall k, 0 <= k <= height + 1 -> dst.2 ⊠ k = k * dst.2) as Hmul by (intros k Hk; rewrite size_mul_small by nia; lia).
  rewrite (size_add_small (2 * r) 1), !Hmul, (size_sub_small row_end 1), (size_mul_small src.2 2) by nia.
  assert ((if 2 * r =? row_end - 1 then (dst.1 + 2 * r * dst.2, src.1 + 2 * r * src.2) else (dst.1 + (2 * r + 1) * dst.2, src.1 + 2 * r * src.2 + src.2)) =
    (dst.1 + second_row height r * dst.2, src.1 + second_row height r * src.2)) as ->.
  { unfold second_row. destruct (Z.eqb_spec (2 * r) (row_end - 1)), (Z.eqb_spec height (2 * r + 1)); try (exfalso; lia); f_equal; lia. }
  destruct (convert_pair_some (src.1 + 2 * r * src.2) (src.1 + second_row height r * src.2) (half_row src width height r)
    (second_plane_row src width height r) (dst.1 + 2 * r * dst.2) (dst.1 + second_row height r * dst.2) mem1) as [mem2 E].
  assert (pair_result r mem1 = mem2) as -> by (unfold pair_result, pair_body; by rewrite E). rewrite E.
  assert (0 <= width / 2 <= src.2) as Hw2 by mod_lia. assert (src.2 < 2 ^ 64) as Hs64 by nia.
  rewrite (uv_strides_parity width src.2 ui r), (uv_strides_parity width src.2 vi (r + second_index height)) by done.
  exists (ui ⊞ 1), (vi ⊞ 1). rewrite !size_add_small by lia. split; [|split; (split; [lia|mod_lia])].
  rewrite half_row_next, second_plane_next by done. do 4 f_equal. lia.
Qed.

Lemma stripe_loop n mem1 s : 0 <= n -> 2 * (begin + n) <= row_end + 1 -> at_pair begin mem1 s ->
  at_pair (begin + n) (for_range begin (begin + n) pair_result mem1)
    (for_range 0 n (fun j s => stripe_step BGR kAlpha v_first src.2 dst.1 dst.2 width row_end (2 * begin + j * 2) s) s).
Proof.
  intros Hn Hle H0. enough (2 * (begin + n) <= row_end + 1 -> at_pair (begin + n) (for_range begin (begin + n) pair_result mem1)
    (for_range 0 n (fun j s => stripe_step BGR kAlpha v_first src.2 dst.1 dst.2 width row_end (2 * begin + j * 2) s) s)) as H by exact (H Hle).
  apply (for_range_ind (fun n s => 2 * (begin + n) <= row_end + 1 -> at_pair (begin + n) (for_range begin (begin + n) pair_result mem1) s)); [done| |].
  - intros _. rewrite Z.add_0_r, for_range_empty by lia. done.
  - intros j s' Hj IH Hj2. specialize (IH ltac:(lia)). rewrite (for_range_last begin (begin + (j + 1))) by lia.
    replace (begin + (j + 1) - 1) with (begin + j) by lia. replace (begin + (j + 1)) with (begin + j + 1) by lia.
    replace (2 * begin + j * 2) with (2 * (begin + j)) by lia. apply stripe_step_pair; [lia|lia|done].
Qed.

(** The stripe writes its rows. *)
Lemma convert_stripe_written : exists mem', convert_stripe BGR kAlpha v_first src dst width height begin end_ mem = Some mem' /\
  rows_written dst.1 dst.2 (width * ch) planar_value (2 * begin) row_end mem mem'.
Proof.
  pose proof placed as [[Hw Hh] [Hs1 Hs2] (Hd1 & Hd2 & Hd3) Hrows _ _]. destruct stripe_ok as ([Hb0 Hbe] & He & Hbh).
  set (hi := Z.min end_ ((height + 1) / 2)). assert (begin <= hi) as Hbhi by (subst hi; mod_lia). assert (2 * hi <= row_end + 1) as Hhi by (subst hi; mod_lia).
  pose proof (rows_of_pairs dst.1 dst.2 (width * ch) height planar_value mem Hrows pair_result begin hi ltac:(lia) ltac:(lia)) as Hres.
  exists (for_range begin hi pair_result mem). split.
  - unfold convert_stripe. cbv zeta.
    assert (forall k, 0 <= k <= 2 * height + 2 -> src.2 ⊠ k = src.2 * k /\ k ⊠ src.2 = k * src.2) as Hmul by (intros k Hk; rewrite !size_mul_small by nia; lia).
    assert (width / 2 ⊠ (height mod 4 / 2) = width / 2 * (height mod 4 / 2)) as ->.
    { apply size_mul_small. assert (height mod 4 / 2 = 0 \/ height mod 4 / 2 = 1) as [-> | ->] by (clear; mod_lia); clear - Hw width_ok; mod_lia. }
    rewrite (size_mul_small begin 2), (size_mul_small end_ 2) by lia.
    rewrite (proj1 (Hmul height ltac:(lia))), (proj1 (Hmul (height / 4) ltac:(mod_lia))), (proj2 (Hmul (begin * 2) ltac:(lia))), (proj2 (Hmul (begin / 2) ltac:(mod_lia))).
    replace (end_ * 2) with (2 * end_) by lia. replace (begin * 2) with (2 * begin) by lia.
    match goal with |- context [if begin mod 2 =? 1 then ?a else ?b] => set (start := if begin mod 2 =? 1 then a else b) end.
    assert (exists ui vi, start = (half_row src width height begin, second_plane_row src width height begin, ui, vi) /\
      (0 <= ui <= begin + 1 /\ ui mod 2 = begin mod 2) /\ (0 <= vi <= begin + 1 /\ vi mod 2 = (begin + second_index height) mod 2)) as (ui & vi & -> & Hui & Hvi).
    { subst start. unfold half_row, second_plane_row, second_index. assert (0 <= width / 2 <= src.2) as Hw2 by mod_lia. assert (src.2 < 2 ^ 64) as Hs64 by nia.
      destruct (Z.eqb_spec (begin mod 2) 1) as [Ho|Ho].
      - rewrite (uv_strides_parity width src.2 0 0), Ho by done. change (0 mod 2 =? 0) with true. cbv iota.
        destruct (Z.eqb_spec (height mod 4) 2) as [E4|E4].
        + rewrite (uv_strides_parity width src.2 1 1) by done. change (1 mod 2 =? 0) with false. cbv iota. change (0 ⊞ 1) with 1. change (1 ⊞ 1) with 2.
          exists 1, 2. split; [do 3 f_equal; lia|]. clear Hres. mod_lia.
        + rewrite (uv_strides_parity width src.2 0 0) by done. change (0 mod 2 =? 0) with true. cbv iota. change (0 ⊞ 1) with 1.
          exists 1, 1. split; [do 3 f_equal; lia|]. clear Hres. mod_lia.
      - assert (begin mod 2 = 0) as -> by mod_lia. destruct (Z.eqb_spec (height mod 4) 2) as [E4|E4]; do 2 eexists;
          (split; [do 3 f_equal; lia|]); clear Hres; mod_lia. }
    unfold for_step, step_count. replace ((row_end - 2 * begin + 2 - 1) / 2) with (hi - begin) by (subst hi; mod_lia).
    pose proof (stripe_loop (hi - begin) mem ((src.1 + 2 * begin * src.2, half_row src width height begin, second_plane_row src width height begin), (ui, vi), Some mem)) as Hl.
    destruct Hl as (ui' & vi' & -> & _); [lia|lia| |].
    + by exists ui, vi.
    + cbn [snd]. do 2 f_equal. lia.
  - replace row_end with (Z.min height (2 * hi)) by (subst hi; mod_lia). apply Hres.
    intros i mem1 Hi Hk. destruct (planar_pair_filled i mem1) as (mem2 & E & Hf); [lia|lia|done|]. unfold pair_result. rewrite E. exact Hf.
Qed.
End stripe.

(** ** Calls *)

Definition planar_accepts (src dst : Z * Z) (width height : Z) : Prop :=
  src.1 <> 0 /\ dst.1 <> 0 /\ width * height <= KLEIDICV_MAX_IMAGE_PIXELS.

(** Channel [c] of pixel [x] of row [y], with the rows of chroma of its pair of rows. *)
Definition planar_pixel (BGR v_first : bool) (src : Z * Z) (chroma_0 chroma_1 : Z) (mem : Z -> Z) (y x c : Z) : Z :=
  rgb_of_yuv BGR (mem (src.1 + y * src.2 + x)) (mem ((if v_first then chroma_1 else chroma_0) + x / 2))
    (mem ((if v_first then chroma_0 else chroma_1) + x / 2)) c.

(** The rows from [lo] to [hi] are converted, with the second plane of chroma at [second]. *)
Definition planar_rows (BGR kAlpha v_first : bool) (second : Z -> Z) (src dst : Z * Z) (width height lo hi : Z) (mem mem' : Z -> Z) : Prop :=
  (forall y x c, lo <= y < hi -> 0 <= x < width -> 0 <= c < output_channels kAlpha ->
    mem' (byte_address dst (output_channels kAlpha) y x c) = planar_pixel BGR v_first src (half_row src width height (y / 2)) (second (y / 2)) mem y x c) /\
  (forall p, (forall y x c, lo <= y < hi -> 0 <= x < width -> 0 <= c < output_channels kAlpha -> p <> byte_address dst (output_channels kAlpha) y x c) ->
    mem' p = mem p).

Lemma planar_rows_of_written BGR kAlpha v_first src dst width height lo hi mem mem' : 0 <= width ->
  rows_written dst.1 dst.2 (width * output_channels kAlpha) (planar_value BGR kAlpha v_first src width height mem) lo hi mem mem' ->
  planar_rows BGR kAlpha v_first (second_plane_row src width height) src dst width height lo hi mem mem'.
Proof.
  pose proof (channels_pos kAlpha) as Hch. intros Hw [H1 H2]. split.
  - intros y x c Hy Hx Hc. unfold byte_address. rewrite <- Z.add_assoc. rewrite H1 by nia. unfold planar_value, planar_pixel. cbv zeta.
    by rewrite (Z.add_comm (x * output_channels kAlpha)), Z.div_add, Z.mod_add, Z.div_small, Z.mod_small, Z.add_0_l by lia.
  - intros p Hp. apply H2. intros y m Hy Hm E. apply (Hp y (m / output_channels kAlpha) (m mod output_channels kAlpha)); [done| | |].
    + split; [apply Z.div_pos; lia|apply Z.div_lt_upper_bound; lia].
    + apply Z.mod_pos_bound. lia.
    + unfold byte_address. pose proof (Z.div_mod m (output_channels kAlpha) ltac:(lia)). lia.
Qed.

Lemma planar_rows_ext BGR kAlpha v_first second second' src dst width height lo hi mem mem' :
  (forall y, lo <= y < hi -> second (y / 2) = second' (y / 2)) ->
  planar_rows BGR kAlpha v_first second src dst width height lo hi mem mem' -> planar_rows BGR kAlpha v_first second' src dst width height lo hi mem mem'.
Proof. intros He [H1 H2]. split; [|done]. intros y x c Hy Hx Hc. by rewrite <- He, H1. Qed.

(** The colour format of the flags. *)
Definition planar_format (BGR kAlpha v_first : bool) : kleidicv_color_conversion_t :=
  Z.lor KLEIDICV_COLOR_CONVERSION_FMT_YUV420P
    (Z.lor (if v_first then KLEIDICV_COLOR_CONVERSION_FLAG_VU else 0)
      (Z.lor (if BGR then KLEIDICV_COLOR_CONVERSION_FLAG_BGR else 0) (if kAlpha then KLEIDICV_COLOR_CONVERSION_FLAG_ALPHA else 0))).

Lemma stripe_format BGR kAlpha v_first src dst width height begin end_ mem :
  yuv420p_to_rgb_stripe_u8 src dst width height (planar_format BGR kAlpha v_first) begin end_ mem =
  yuv2rgbx_operation BGR kAlpha v_first src dst width height begin end_ mem.
Proof. by destruct BGR, kAlpha, v_first. Qed.

(** A stripe of a call. *)
Definition stripe_of (height begin end_ : Z) : Prop := 0 <= begin <= end_ /\ end_ < 2 ^ 62 /\ 2 * begin <= height + 1.

Lemma stripe_result BGR kAlpha v_first src dst width height begin end_ mem :
  placed_planar (output_channels kAlpha) src dst width height mem -> stripe_of height begin end_ -> 0 < height ->
  let result := yuv420p_to_rgb_stripe_u8 src dst width height (planar_format BGR kAlpha v_first) begin end_ mem in
  (planar_accepts src dst width height -> exists mem', result = Some (KLEIDICV_OK, mem') /\
    rows_written dst.1 dst.2 (width * output_channels kAlpha) (planar_value BGR kAlpha v_first src width height mem) (2 * begin) (Z.min height (2 * end_)) mem mem') /\
  (~ planar_accepts src dst width height -> exists error, error <> KLEIDICV_OK /\ result = Some (error, mem)).
Proof.
  intros Hp Hs Hpos result. pose proof Hp as [[Hw Hh] _ _ _ _ _]. subst result. rewrite stripe_format. unfold yuv2rgbx_operation.
  set (check := check_pointer_and_stride 1 src.1 src.2 ((height ⊠ 3 ⊞ 1) / 2) ?> check_pointer_and_stride 1 dst.1 dst.2 height ?> check_image_size width height).
  assert (check = KLEIDICV_OK <-> planar_accepts src dst width height) as Hcheck.
  { unfold planar_accepts. rewrite <- (check_image_size_iff width height) by lia. subst check. unfold check_pointer_and_stride. cbn [Z.eqb Pos.eqb].
    destruct (Z.eqb_spec src.1 0), (Z.eqb_spec dst.1 0); cbn; split; intros H; try done; tauto. }
  split.
  - intros Ha. rewrite (proj2 Hcheck Ha). destruct Ha as (_ & _ & Ha). unfold KLEIDICV_MAX_IMAGE_PIXELS in Ha. change (Z.shiftl 1 48 - 1) with (2 ^ 48 - 1) in Ha.
    assert (width * 1 <= width * height) by (apply Z.mul_le_mono_nonneg_l; lia).
    destruct (convert_stripe_written BGR kAlpha v_first src dst width height mem Hp ltac:(lia) begin end_ Hs) as (mem' & -> & Hr).
    by exists mem'.
  - intros Ha. exists check. split; [by intros E%Hcheck|]. destruct check; try done. by destruct Ha; apply Hcheck.
Qed.

(** C36: a stripe of pairs of rows of the eight formats of IYUV and YV12, in an image of an even
    width and height: whatever the stripe, the rows of the planes of chroma are found where the
    previous rows end, two in a stride, the second plane behind the [height / 2] rows of the
    first; every pixel of the stripe, by vectors or by scalars, has the saturated colours of its
    luma and of the chroma of its block of two by two pixels, and no other byte is written.  The
    loops end, exactly null pointers and images that are too large are rejected, and so is any
    other format. *)
Theorem yuv420p_to_rgb_stripe_correct src dst width height begin end_ mem :
  (forall BGR kAlpha v_first, placed_planar (output_channels kAlpha) src dst width height mem -> stripe_of height begin end_ ->
    0 < height -> height mod 2 = 0 -> width mod 2 = 0 ->
    let result := yuv420p_to_rgb_stripe_u8 src dst width height (planar_format BGR kAlpha v_first) begin end_ mem in
    (planar_accepts src dst width height -> exists mem', result = Some (KLEIDICV_OK, mem') /\
      planar_rows BGR kAlpha v_first (fun r => half_row src width height (height / 2 + r)) src dst width height
        (2 * begin) (Z.min height (2 * end_)) mem mem') /\
    (~ planar_accepts src dst width height -> exists error, error <> KLEIDICV_OK /\ result = Some (error, mem))) /\
  (forall color_format, (forall BGR kAlpha v_first, color_format <> planar_format BGR kAlpha v_first) ->
    yuv420p_to_rgb_stripe_u8 src dst width height color_format begin end_ mem = Some (KLEIDICV_ERROR_NOT_IMPLEMENTED, mem)).
Proof.
  split.
  - intros BGR kAlpha v_first Hp Hs Hpos He _. pose proof Hp as [[Hw Hh] _ _ _ _ _].
    destruct (stripe_result BGR kAlpha v_first src dst width height begin end_ mem Hp Hs Hpos) as [Hok Herr]. split; [|done].
    intros Ha. destruct (Hok Ha) as (mem' & E & Hr). exists mem'. split; [done|].
    eapply planar_rows_ext; [|by apply planar_rows_of_written; [lia|exact Hr]]. intros y Hy. destruct Hs as (Hb & _). apply second_plane_even; [lia| |done]. mod_lia.
  - intros f Hf. unfold yuv420p_to_rgb_stripe_u8.
    destruct (Z.eqb_spec f KLEIDICV_YV12_TO_BGR) as [E|_]; [by destruct (Hf true false true)|].
    destruct (Z.eqb_spec f KLEIDICV_YV12_TO_RGB) as [E|_]; [by destruct (Hf false false true)|].
    destruct (Z.eqb_spec f KLEIDICV_YV12_TO_BGRA) as [E|_]; [by destruct (Hf true true true)|].
    destruct (Z.eqb_spec f KLEIDICV_YV12_TO_RGBA) as [E|_]; [by destruct (Hf false true true)|].
    destruct (Z.eqb_spec f KLEIDICV_IYUV_TO_BGR) as [E|_]; [by destruct (Hf true false false)|].
    destruct (Z.eqb_spec f KLEIDICV_IYUV_TO_RGB) as [E|_]; [by destruct (Hf false false false)|].
    destruct (Z.eqb_spec f KLEIDICV_IYUV_TO_BGRA) as [E|_]; [by destruct (Hf true true false)|].
    destruct (Z.eqb_spec f KLEIDICV_IYUV_TO_RGBA) as [E|_]; [by destruct (Hf false true false)|done].
Qed.

(** A memory for the witnesses: grey luma, and rows of chroma without colour and with red. *)
Definition planar_memory (p : Z) : Z := if p <? 1016 then 126 else if p <? 1018 then 128 else 200.

Lemma planar_memory_placed channels : 0 <= channels <= 4 -> placed_planar channels (1000, 8) (3000, 16) 4 2 planar_memory.
Proof.
  intros Hch. constructor; cbn [fst snd]; [lia|lia|lia|intros; nia| |].
  - unfold planar_byte, half_row, second_plane_row. cbn [fst snd]. change (2 mod 4 =? 2) with true. change (2 mod 4 / 2) with 1. change (2 / 4) with 0.
    change (4 / 2) with 2. change ((2 + 1) / 2) with 1. change ((4 + 1) / 2) with 2. intros p y m [(y' & x & H1 & H2 & ->)|(r & x & H1 & H2 & [-> | ->])] Hy Hm; mod_lia.
  - intros p _. unfold planar_memory. repeat case_match; lia.
Qed.

Lemma yuv420p_to_rgb_stripe_correct_witness :
  (exists mem', yuv420p_to_rgb_stripe_u8 (1000, 8) (3000, 16) 4 2 KLEIDICV_YV12_TO_RGBA 0 2 planar_memory = Some (KLEIDICV_OK, mem') /\
    mem' (3000 + 16 + 4 * 3) = 128 /\ mem' (3000 + 16 + 4 * 3 + 2) = 255) /\
  yuv420p_to_rgb_stripe_u8 (1000, 8) (3000, 16) 4 2 KLEIDICV_YUV444_TO_RGB 0 2 planar_memory = Some (KLEIDICV_ERROR_NOT_IMPLEMENTED, planar_memory).
Proof.
  destruct (yuv420p_to_rgb_stripe_correct (1000, 8) (3000, 16) 4 2 0 2 planar_memory) as [H1 H2]. split.
  - destruct (H1 false true true) as [Hok _]; [apply planar_memory_placed; cbn; lia|unfold stripe_of; lia|lia|done|done|].
    destruct Hok as (mem' & E & Hr & _); [repeat split; cbn; discriminate|]. exists mem'. split; [exact E|].
    split; [exact (Hr 1 3 0 ltac:(lia) ltac:(lia) ltac:(cbn; lia))|exact (Hr 1 3 2 ltac:(lia) ltac:(lia) ltac:(cbn; lia))].
  - apply H2. intros [] [] []; discriminate.
Defined.

(** For an odd height the second plane starts at the last row that is read of the first one. *)
Lemma planes_share_row src width height : 0 <= height -> height mod 2 = 1 ->
  second_plane_row src width height 0 = half_row src width height (height / 2) /\ height / 2 = (height - 1) / 2 /\ 0 <= height / 2 < (height + 1) / 2.
Proof.
  intros Hh Ho. split; [|mod_lia]. unfold second_plane_row, half_row. generalize (width / 2). intros w. destruct src as [p s]. cbn [fst snd].
  change (0 / 2) with 0. change (0 mod 2) with 0.
  assert (exists a b, height / 4 = a /\ height mod 4 / 2 = b /\ height / 2 / 2 = a /\ (height / 2) mod 2 = b) as (a & b & -> & -> & -> & ->)
    by (do 2 eexists; split_and!; try reflexivity; mod_lia). ring.
Qed.

(** For an odd width the chroma that the code takes for the last column of a pair of rows is the
    first byte of the next row of chroma, if that is in the same stride, and otherwise the byte
    behind the rows of the stride. *)
Lemma odd_width_reads_next_row src width height k : 0 <= k -> 0 <= width -> width mod 2 = 1 ->
  half_row src width height k + (width - 1) / 2 =
  if k mod 2 =? 0 then half_row src width height (k + 1) else half_row src width height (k + 1) - src.2 + 2 * (width / 2).
Proof.
  intros Hk Hw Ho. rewrite half_row_next by done. replace ((width - 1) / 2) with (width / 2) by mod_lia.
  destruct (k mod 2 =? 0); lia.
Qed.
