(* ===== verification/ThreadYuv.v ===== *)
(** * Threaded conversion of planar YUV420

    The part of [kleidicv_thread_yuv_to_rgb_u8] of [kleidicv_thread.cpp] for planar YUV420: a task
    is a pair of rows, and a batch is a stripe of the single-threaded conversion.  A batch reads
    the planes that no batch writes, so that its result does not depend on the batches before it. *)

From S2P Require Import Prelude CTypes Utils Rows ParallelBatches VectorMemory Transfers PixelKernels RowPairs Yuv420ToRgb Yuv420Rows Yuv420PToRgb.

(** ** The wrapper *)

(** [kleidicv_thread_yuv_to_rgb_u8] for the formats of planar YUV420. *)
Definition kleidicv_thread_yuv420p_to_rgb_u8
    (parallel : range_callback (option (Z -> Z)) -> Z -> option (Z -> Z) -> kleidicv_error_t * option (Z -> Z))
    (src dst : Z * Z) (width height : Z) (color_format : kleidicv_color_conversion_t) (mem : Z -> Z) : kleidicv_error_t * option (Z -> Z) :=
  parallel_batches parallel (item_callback (yuv420p_to_rgb_stripe_u8 src dst width height color_format)) ((height ⊞ 1) / 2) 1 (Some mem).

Section threads.
Context (BGR kAlpha v_first : bool) (src dst : Z * Z) (width height : Z) (mem : Z -> Z).
Local Abbreviation ch := (output_channels kAlpha).
Local Abbreviation n := (width * ch).
Hypothesis placed : placed_planar ch src dst width height mem.
Hypothesis accepted : planar_accepts src dst width height.
Hypothesis height_pos : 0 < height.
Local Abbreviation value := (planar_value BGR kAlpha v_first src width height).

(** The rows of the pairs in [done_] are converted. *)
Definition pairs_written (done_ : Z -> bool) (mem1 : Z -> Z) : Prop :=
  (forall y m, 0 <= y < height -> 0 <= m < n -> done_ (y / 2) = true -> mem1 (dst.1 + y * dst.2 + m) = value mem y m) /\
  (forall p, (forall y m, 0 <= y < height -> 0 <= m < n -> done_ (y / 2) = true -> p <> dst.1 + y * dst.2 + m) -> mem1 p = mem p).

Lemma planes_as_before done_ mem1 p : pairs_written done_ mem1 -> planar_byte src width height p -> mem1 p = mem p.
Proof. intros [_ H] Hp. apply H. intros y m Hy Hm _. by apply (planar_apart _ _ _ _ _ _ placed). Qed.

Lemma placed_again done_ mem1 : pairs_written done_ mem1 -> placed_planar ch src dst width height mem1.
Proof.
  intros Hw. destruct placed as [H1 H2 H3 H4 H5 H6]. constructor; try done. intros p Hp. rewrite (planes_as_before done_ mem1 p Hw Hp). by apply H6.
Qed.

Lemma value_again done_ mem1 y m : pairs_written done_ mem1 -> 0 <= y < height -> 0 <= m < n -> value mem1 y m = value mem y m.
Proof.
  intros Hw Hy Hm. pose proof (channels_pos kAlpha). unfold planar_value. cbv zeta.
  assert (0 <= m / ch < width) as Hx by (split; [apply Z.div_pos; lia|apply Z.div_lt_upper_bound; lia]).
  assert (0 <= m / ch / 2 < (width + 1) / 2) as Hx2 by mod_lia. assert (0 <= y / 2 < (height + 1) / 2) as Hr by mod_lia.
  pose proof (fun p Hp => planes_as_before done_ mem1 p Hw Hp) as Hk.
  destruct v_first; rewrite !Hk by first [left; exists y, (m / ch); split_and!; done || lia|right; exists (y / 2), (m / ch / 2); split_and!; first [lia|by left|by right]]; done.
Qed.

Lemma stripe_covers done_ b e mem1 : 0 <= b < e -> e <= (height + 1) / 2 -> pairs_written done_ mem1 ->
  exists mem2, yuv420p_to_rgb_stripe_u8 src dst width height (planar_format BGR kAlpha v_first) b e mem1 = Some (KLEIDICV_OK, mem2) /\
    pairs_written (fun k => done_ k || task_in k (b, e)) mem2.
Proof.
  intros Hb He Hw. pose proof placed as [[_ Hh] _ _ Hrows _ _].
  destruct (stripe_result BGR kAlpha v_first src dst width height b e mem1 (placed_again _ _ Hw)) as [Hok _]; [unfold stripe_of; split_and!; mod_lia|done|].
  destruct (Hok accepted) as (mem2 & E & [H1 H2]). exists mem2. split; [exact E|]. clear Hok.
  assert (forall y, 0 <= y < height -> task_in (y / 2) (b, e) = true <-> 2 * b <= y < Z.min height (2 * e)) as Hin.
  { intros y Hy. unfold task_in. cbn [fst snd]. rewrite andb_true_iff, Z.leb_le, Z.ltb_lt. mod_lia. }
  split.
  - intros y m Hy Hm Hd. destruct (task_in (y / 2) (b, e)) eqn:Ht.
    + rewrite H1 by (done || by apply Hin). by apply (value_again done_).
    + rewrite orb_false_r in Hd. rewrite H2; [by apply Hw|]. intros y' m' Hy' Hm' Heq. apply Hrows in Heq as [-> _]; try done; [|lia].
      apply Hin in Hy'; [congruence|done].
  - intros p Hp. rewrite H2.
    + apply Hw. intros y m Hy Hm Hd. apply Hp; try done. by rewrite Hd.
    + intros y m Hy Hm. assert (0 <= y < height) as Hy' by lia. apply Hp; try done. rewrite (proj2 (Hin y Hy') Hy). apply orb_true_r.
Qed.

(** All the pairs. *)
Lemma all_pairs mem1 : pairs_written (fun _ => true) mem1 <-> rows_written dst.1 dst.2 n (value mem) 0 height mem mem1.
Proof.
  split; intros [H1 H2].
  - split; [intros y m Hy Hm; by apply H1|]. intros p Hp. apply H2. intros y m Hy Hm _. by apply Hp.
  - split; [intros y m Hy Hm _; by apply H1|]. intros p Hp. apply H2. intros y m Hy Hm. by apply Hp.
Qed.

Lemma threaded_written parallel : lawful no_empty_range parallel ->
  exists mem1, kleidicv_thread_yuv420p_to_rgb_u8 parallel src dst width height (planar_format BGR kAlpha v_first) mem = (KLEIDICV_OK, Some mem1) /\
    rows_written dst.1 dst.2 n (value mem) 0 height mem mem1.
Proof.
  intros Hlaw. pose proof placed as [[_ Hh] _ _ _ _ _]. unfold kleidicv_thread_yuv420p_to_rgb_u8. rewrite size_add_small by lia.
  destruct (parallel_batches_covered (item_callback (yuv420p_to_rgb_stripe_u8 src dst width height (planar_format BGR kAlpha v_first)))
    ((height + 1) / 2) 1 (fun P st => exists mem1, st = Some mem1 /\ pairs_written P mem1) ltac:(mod_lia) ltac:(lia)) with (parallel := parallel) (s := Some mem)
    as [Hok (mem1 & E & Hw)].
  - intros P Q s HPQ (mem1 & -> & H1 & H2). exists mem1. split; [done|]. split.
    + intros y m Hy Hm HQ. apply H1; try done. rewrite HPQ; [done|mod_lia].
    + intros p Hp. apply H2. intros y m Hy Hm HP. apply Hp; try done. rewrite <- HPQ; [done|mod_lia].
  - intros P b e s Hb He _ (mem1 & -> & Hw). destruct (stripe_covers P b e mem1 Hb He Hw) as (mem2 & E & Hw2).
    unfold item_callback. rewrite E. split; [done|]. by exists mem2.
  - exact Hlaw.
  - exists mem. split; [done|]. split; done.
  - exists mem1. split; [|by apply all_pairs]. destruct (parallel_batches _ _ _ _ _) as [err st]. cbn [fst snd] in *. subst st. by destruct err.
Qed.
End threads.

(** C37: the threaded conversion of planar YUV420 leaves the memory that one call on the whole
    image leaves, whatever stripes of pairs of rows the scheduler chooses and in whatever order
    they run: each stripe finds its own rows of chroma, for every height. *)
Theorem threaded_yuv420p_correct parallel BGR kAlpha v_first src dst width height mem : lawful no_empty_range parallel ->
  placed_planar (output_channels kAlpha) src dst width height mem -> planar_accepts src dst width height -> 0 < height ->
  exists mem1 mem2,
    kleidicv_thread_yuv420p_to_rgb_u8 parallel src dst width height (planar_format BGR kAlpha v_first) mem = (KLEIDICV_OK, Some mem1) /\
    yuv420p_to_rgb_stripe_u8 src dst width height (planar_format BGR kAlpha v_first) 0 height mem = Some (KLEIDICV_OK, mem2) /\
    (forall p, mem1 p = mem2 p) /\
    planar_rows BGR kAlpha v_first (second_plane_row src width height) src dst width height 0 height mem mem1.
Proof.
  intros Hlaw Hp Ha Hpos. pose proof Hp as [[Hw Hh] _ _ Hrows _ _].
  destruct (threaded_written BGR kAlpha v_first src dst width height mem Hp Ha Hpos parallel Hlaw) as (mem1 & H1 & Hw1).
  destruct (stripe_result BGR kAlpha v_first src dst width height 0 height mem Hp ltac:(unfold stripe_of; lia) Hpos) as [Hok _].
  destruct (Hok Ha) as (mem2 & H2 & Hw2). exists mem1, mem2. split; [done|]. split; [done|]. split.
  - rewrite Z.min_l in Hw2 by lia. by apply (rows_written_unique _ _ _ _ _ _ _ _ _ Hw1 Hw2).
  - apply planar_rows_of_written; [lia|done].
Qed.

Lemma threaded_yuv420p_correct_witness :
  exists mem1, kleidicv_thread_yuv420p_to_rgb_u8 reverse_serial (1000, 8) (3000, 16) 4 2 KLEIDICV_IYUV_TO_BGR planar_memory = (KLEIDICV_OK, Some mem1) /\
    mem1 (3000 + 16 + 3 * 3 + 2) = 243.
Proof.
  destruct (threaded_yuv420p_correct reverse_serial true false false (1000, 8) (3000, 16) 4 2 planar_memory) as (mem1 & _ & E & _ & _ & Hr & _).
  - apply reverse_serial_lawful.
  - apply planar_memory_placed. cbn. lia.
  - repeat split; cbn; discriminate.
  - lia.
  - exists mem1. split; [exact E|]. exact (Hr 1 3 2 ltac:(lia) ltac:(lia) ltac:(cbn; lia)).
Defined.
