(* ===== verification/PaddingCopiers.v ===== *)
(** * Padding: copying, repeating and reversing pixels of a row

    [ContiguousByteCopier], [RepeatedPixelWriter] and [ReversedPixelCopier] of
    add_padding_by_copy_neon.cpp over a memory of bytes.  A register is the list of its 16
    bytes.  Each writer fills a range of bytes; the vector loops and the copies of the bytes
    that are left agree on what they write. *)

From S2P Require Import Prelude CTypes Utils Loops VectorMemory Registers.

Implicit Types (mem : Z -> Z).

(** [kVectorLength]. *)
Definition kVectorLength : Z := 16.

(** [std::memcpy]. *)
Definition copy_contiguous_bytes (src dst size : Z) mem : Z -> Z := copy_n 1 src size dst mem.

(** ** Registers of elements of [n] bytes *)

Section registers.
Context (n : Z).

(** [load_repeated_unaligned]: [vld1q_dup]. *)
Definition load_repeated_unaligned mem (src : Z) : list Z := named_bytes n (16 / n) (fun _ j => mem (src + j)).

(** [vrev64q] reverses the lanes of each half. *)
Definition vrev64q (r : list Z) : list Z :=
  concat (rev (chunks n (low_half r))) ++ concat (rev (chunks n (high_half r))).
Definition vcombine (low high : list Z) : list Z := low ++ high.

Definition reverse_packed_vector_lanes (vector_value : list Z) : list Z :=
  let reversed_vector_64 := vrev64q vector_value in
  vcombine (high_half reversed_vector_64) (low_half reversed_vector_64).

Definition reverse_packed_vector2_order_and_lanes (vector_value : list (list Z)) : list (list Z) :=
  [reverse_packed_vector_lanes (vector_value !!! 1%nat); reverse_packed_vector_lanes (vector_value !!! 0%nat)].

Definition reverse_interleaved_3_vector_lanes (vector_value : list (list Z)) : list (list Z) :=
  map reverse_packed_vector_lanes vector_value.

(** [VecTraits::load] and [store] of consecutive vectors, [vld3q] and [vst3q]. *)
Definition load_bytes (count : Z) mem (src : Z) : list (list Z) :=
  map (fun i => vld1q 1 kVectorLength mem (src + i * kVectorLength)) (seqZ 0 count).
Definition store_bytes (dst : Z) (regs : list (list Z)) mem : Z -> Z := vst1q 1 dst (concat regs) mem.
Definition vld3q mem (src : Z) : list (list Z) :=
  map (fun c => named_bytes n (16 / n) (fun m j => mem (src + (3 * m + c) * n + j))) (seqZ 0 3).
Definition vst3q (dst : Z) (regs : list (list Z)) mem : Z -> Z :=
  store_bytes dst (map (fun m => flat_map (fun r => nth (Z.to_nat m) (chunks n r) []) regs) (seqZ 0 (16 / n))) mem.
End registers.

(** ** Repeated pixels *)

Definition fill_repeated_by_bytes (pixel_size value_bytes dst row_size : Z) mem : Z -> Z :=
  for_step 0 row_size pixel_size (fun offset mem => copy_contiguous_bytes value_bytes (dst + offset) pixel_size mem) mem.

Definition fill_single_channel (n value_bytes dst row_size : Z) mem : option (Z -> Z) :=
  let repeated_value := load_repeated_unaligned n mem value_bytes in
  let repeated_value_pair := [repeated_value; repeated_value] in
  let store_repeated_pair index mem := store_bytes (dst + index) repeated_value_pair mem in
  option_map snd (Unroll2.bind_loop (Unroll2.unroll_n_times false 2 store_repeated_pair (Unroll2.make 0 row_size kVectorLength, mem))
    (fun loop => Some (Unroll2.remaining (fun index length => fill_repeated_by_bytes n value_bytes (dst + index) (length ⊟ index)) loop))).

Definition fill_interleaved_3 (n value_bytes dst row_size : Z) mem : option (Z -> Z) :=
  let vector_value :=
    [load_repeated_unaligned n mem value_bytes; load_repeated_unaligned n mem (value_bytes + n);
     load_repeated_unaligned n mem (value_bytes + 2 * n)] in
  let kVectorStoreSize := 3 * kVectorLength in
  let store index mem := vst3q n (dst + index) vector_value mem in
  let store_twice index mem := store (index + kVectorStoreSize) (store index mem) in
  option_map snd (Unroll2.bind_loop (Unroll2.unroll_n_times false 2 store_twice (Unroll2.make 0 row_size kVectorStoreSize, mem))
    (fun loop => Some (Unroll2.remaining (fun index length => fill_repeated_by_bytes (3 * n) value_bytes (dst + index) (length ⊟ index)) loop))).

(** [PixelSize] is the template parameter, 0 for pixels without a vector path. *)
Definition fill_repeated_pixel (PixelSize pixel_size value_bytes dst row_size : Z) mem : option (Z -> Z) :=
  if PixelSize =? 1 then fill_single_channel 1 value_bytes dst row_size mem
  else if PixelSize =? 2 then fill_single_channel 2 value_bytes dst row_size mem
  else if PixelSize =? 4 then fill_single_channel 4 value_bytes dst row_size mem
  else if PixelSize =? 8 then fill_single_channel 8 value_bytes dst row_size mem
  else if PixelSize =? 3 * 1 then fill_interleaved_3 1 value_bytes dst row_size mem
  else if PixelSize =? 3 * 2 then fill_interleaved_3 2 value_bytes dst row_size mem
  else if PixelSize =? 3 * 4 then fill_interleaved_3 4 value_bytes dst row_size mem
  else Some (fill_repeated_by_bytes pixel_size value_bytes dst row_size mem).

(** ** Reversed pixels *)

Definition copy_reversed_by_bytes (pixel_size src_last dst row_size : Z) mem : Z -> Z :=
  for_step 0 row_size pixel_size
    (fun offset mem => copy_contiguous_bytes (src_last - offset) (dst + offset) pixel_size mem) mem.

Definition copy_reversed_packed (n src_last dst row_size : Z) mem : option (Z -> Z) :=
  let kStep := kVectorLength in
  let copy_block_pair index mem :=
    let src_vector := load_bytes 2 mem (src_last + n - index - 2 * kStep) in
    store_bytes (dst + index) (reverse_packed_vector2_order_and_lanes n src_vector) mem in
  option_map snd (Unroll2.bind_loop (Unroll2.unroll_n_times false 2 copy_block_pair (Unroll2.make 0 row_size kStep, mem))
    (fun loop => Some (Unroll2.remaining (fun index length =>
      copy_reversed_by_bytes n (src_last - index) (dst + index) (length ⊟ index)) loop))).

Definition copy_reversed_interleaved_3 (n src_last dst row_size : Z) mem : option (Z -> Z) :=
  let kPixelSize := 3 * n in
  let kVectorStoreSize := 3 * kVectorLength in
  let copy_block index mem :=
    let src_vector := vld3q n mem (src_last + kPixelSize - index - kVectorStoreSize) in
    vst3q n (dst + index) (reverse_interleaved_3_vector_lanes n src_vector) mem in
  let copy_block_twice index mem := copy_block (index + kVectorStoreSize) (copy_block index mem) in
  option_map snd (Unroll2.bind_loop (Unroll2.unroll_n_times false 2 copy_block_twice (Unroll2.make 0 row_size kVectorStoreSize, mem))
    (fun loop => Some (Unroll2.remaining (fun index length =>
      copy_reversed_by_bytes kPixelSize (src_last - index) (dst + index) (length ⊟ index)) loop))).

Definition copy_reversed_pixels (PixelSize pixel_size src_last dst row_size : Z) mem : option (Z -> Z) :=
  if PixelSize =? 1 then copy_reversed_packed 1 src_last dst row_size mem
  else if PixelSize =? 2 then copy_reversed_packed 2 src_last dst row_size mem
  else if PixelSize =? 4 then copy_reversed_packed 4 src_last dst row_size mem
  else if PixelSize =? 8 then copy_reversed_packed 8 src_last dst row_size mem
  else if PixelSize =? 3 * 1 then copy_reversed_interleaved_3 1 src_last dst row_size mem
  else if PixelSize =? 3 * 2 then copy_reversed_interleaved_3 2 src_last dst row_size mem
  else if PixelSize =? 3 * 4 then copy_reversed_interleaved_3 4 src_last dst row_size mem
  else Some (copy_reversed_by_bytes pixel_size src_last dst row_size mem).

(** ** Ranges of bytes *)

Lemma byte_positive : 0 < 1.
Proof. lia. Qed.

Lemma store_map_filled addr N f mem : 0 <= N -> filled 1 addr 0 N f mem (vst1q 1 addr (map f (seqZ 0 N)) mem).
Proof.
  intros HN. pose proof (vst1q_filled 1 byte_positive addr (map f (seqZ 0 N)) mem) as Hf.
  rewrite length_map, length_seqZ, Z2Nat.id in Hf by done. eapply filled_ext; [|exact Hf].
  intros k Hk. cbv beta. apply list_lookup_total_correct. rewrite list_lookup_fmap, lookup_seqZ_lt by lia. cbn [fmap option_fmap option_map]. do 2 f_equal. lia.
Qed.

(** [m] differs from [mem] in bytes of [[dst, dst + n)] only. *)
Definition outside_kept (dst n : Z) mem m : Prop := forall p, (forall k, 0 <= k < n -> p <> dst + k) -> m p = mem p.

Lemma filled_outside dst n value mem m : filled 1 dst 0 n value mem m -> outside_kept dst n mem m.
Proof. intros [_ Hf] p Hp. apply Hf. intros k Hk. rewrite Z.mul_1_r. by apply Hp. Qed.

Lemma memcpy_filled src dst size m : 0 <= size -> (forall k k', 0 <= k < size -> 0 <= k' < size -> src + k <> dst + k') ->
  filled 1 dst 0 size (fun k => m (src + k)) m (copy_contiguous_bytes src dst size m).
Proof.
  intros Hs Ha. unfold copy_contiguous_bytes.
  eapply filled_ext; [|apply (copy_n_filled 1 byte_positive)]; [|done|].
  - intros k Hk. cbv beta. by rewrite Z.mul_1_r.
  - intros k k' Hk Hk'. rewrite !Z.mul_1_r. by apply Ha.
Qed.

(** The next bytes of a range. *)
Lemma filled_next dst i n value w mem m m' : 0 <= i -> 0 <= n -> (forall k, 0 <= k < n -> w k = value (i + k)) ->
  filled 1 dst 0 i value mem m -> filled 1 (dst + i) 0 n w m m' -> filled 1 dst 0 (i + n) value mem m'.
Proof.
  intros Hi Hn Hw H1 H2. rewrite <- (Z.mul_1_r i) in H2 at 1.
  eapply (filled_extend 1 byte_positive dst 0 i i n 0 (i + n)); [lia|exact Hw|exact H1|exact H2].
Qed.

(** Pixels copied one after the other, from sources that stay as they are. *)
Lemma pixel_loop_filled P n src dst mem : 0 < P -> 0 <= n ->
  (forall j c k, 0 <= j < n -> 0 <= c < P -> 0 <= k < n * P -> src j + c <> dst + k) ->
  filled 1 dst 0 (n * P) (fun k => mem (src (k / P) + k mod P)) mem
    (for_range 0 n (fun j => copy_contiguous_bytes (src j) (dst + j * P) P) mem).
Proof.
  intros HP Hn Ha. set (V := fun k => mem (src (k / P) + k mod P)).
  apply (for_range_ind (fun j m => filled 1 dst 0 (j * P) V mem m)); [done|apply filled_none|].
  intros j m Hj Hm. replace ((j + 1) * P) with (j * P + P) by lia.
  eapply filled_next; [nia|lia| |exact Hm|apply memcpy_filled; [lia|]].
  - intros k Hk. cbv beta. unfold V. rewrite Z.div_add_l, Z.div_small, Z.add_0_r by lia.
    rewrite (Z.add_comm (j * P)), Z.mod_add, Z.mod_small by lia. apply (filled_outside _ _ _ _ _ Hm).
    intros k' Hk'. apply Ha; nia.
  - intros k k' Hk Hk'. rewrite <- Z.add_assoc. apply Ha; nia.
Qed.

Lemma steps_of_pixels P row : 0 < P -> 0 <= row -> (P | row) -> step_count 0 row P = row / P /\ row / P * P = row.
Proof.
  intros HP Hr [n ->]. assert (0 <= n) by nia. rewrite Z.div_mul by lia. split; [|done].
  unfold step_count. symmetry. apply (Z.div_unique_pos _ _ _ (P - 1)); lia.
Qed.

Lemma step_loop_filled P row src dst mem : 0 < P -> 0 <= row -> (P | row) ->
  (forall j c k, 0 <= j < row / P -> 0 <= c < P -> 0 <= k < row -> src (j * P) + c <> dst + k) ->
  filled 1 dst 0 row (fun k => mem (src (k / P * P) + k mod P)) mem
    (for_step 0 row P (fun offset m => copy_contiguous_bytes (src offset) (dst + offset) P m) mem).
Proof.
  intros HP Hr Hd Ha. destruct (steps_of_pixels P row HP Hr Hd) as [Hc He]. unfold for_step. rewrite Hc.
  rewrite <- He at 1. apply (pixel_loop_filled P (row / P) (fun j => src (0 + j * P)) dst mem); [done|apply Z.div_pos; lia|].
  intros j c k Hj Hc' Hk. apply Ha; [done|done|lia].
Qed.

(** A vector loop that writes [2 * step] bytes at a time and leaves the rest to copies. *)
Lemma block_loop_filled P dst len step value body rest mem : 0 < P -> 0 <= len < 2 ^ 64 -> 1 <= step < 2 ^ 62 ->
  (P | step) -> (P | len) ->
  (forall i m, 0 <= i -> (P | i) -> i + 2 * step <= len -> outside_kept dst len mem m ->
    filled 1 (dst + i) 0 (2 * step) (fun k => value (i + k)) m (body i m)) ->
  (forall i m, 0 <= i < len -> (P | i) -> outside_kept dst len mem m ->
    filled 1 (dst + i) 0 (len - i) (fun k => value (i + k)) m (rest i len m)) ->
  exists mem', option_map snd (Unroll2.bind_loop (Unroll2.unroll_n_times false 2 body (Unroll2.make 0 len step, mem))
      (fun loop => Some (Unroll2.remaining rest loop))) = Some mem' /\ filled 1 dst 0 len value mem mem'.
Proof.
  intros HP Hl Hs Hds Hdl Hbody Hrest.
  set (Inv := fun i m => (P | i) /\ filled 1 dst 0 i value mem m).
  assert (forall i m, 0 <= i <= len -> filled 1 dst 0 i value mem m -> outside_kept dst len mem m) as Hkept.
  { intros i m Hi Hm p Hp. apply (filled_outside _ _ _ _ _ Hm). intros k Hk. apply Hp. lia. }
  destruct (Unroll2.unroll_invariant Inv 2 body (Unroll2.make 0 len step) mem) as (i & m & Heq & Hi & HI);
    cbn [Unroll2.make Unroll2.length_ Unroll2.step_ Unroll2.index_] in *; rewrite ?Z.min_l by lia; try done; try lia.
  - intros i m Hi Hb [Hd Hm]. split; [apply Z.divide_add_r; [done|by apply Z.divide_mul_r]|].
    eapply filled_next; [done|lia| |exact Hm|apply Hbody; [done|done|done|apply (Hkept i); [lia|done]]]. done.
  - split; [apply Z.divide_0_r|apply filled_none].
  - rewrite Heq. cbn [Unroll2.bind_loop].
    destruct (Unroll2.remaining_invariant Inv rest (Unroll2.with_index (Unroll2.make 0 len step) i) m) as (l' & m' & Heq' & HI');
      cbn [Unroll2.with_index Unroll2.make Unroll2.length_ Unroll2.step_ Unroll2.index_] in *; try done; try lia.
    + intros j m1 Hj [Hd Hm]. split; [done|]. replace len with (j + (len - j)) at 1 by lia.
      eapply filled_next; [lia|lia| |exact Hm|apply Hrest; [done|done|apply (Hkept j); [lia|done]]]. done.
    + rewrite Heq'. exists m'. split; [done|]. apply HI'.
Qed.

(** ** Registers *)

Section register_facts.
Context (n : Z).
Hypothesis size_ok : element_size n.

Ltac by_size := destruct size_ok as [-> |[-> |[-> | ->]]]; vm_compute; reflexivity.

Lemma bytes_of_lanes (h : Z -> Z -> Z) : named_bytes n (16 / n) h = map (fun k => h (k / n) (k mod n)) (seqZ 0 16).
Proof. by_size. Qed.

Lemma reversed_lanes (h : Z -> Z -> Z) :
  reverse_packed_vector_lanes n (named_bytes n (16 / n) h) = named_bytes n (16 / n) (fun m j => h (16 / n - 1 - m) j).
Proof. by_size. Qed.

Lemma loaded_lanes mem src : vld1q 1 16 mem src = named_bytes n (16 / n) (fun m j => mem (src + (m * n + j))).
Proof. by_size. Qed.

Lemma pair_of_lanes (h : Z -> Z -> Z) :
  concat [named_bytes n (16 / n) h; named_bytes n (16 / n) (fun m j => h (16 / n + m) j)] = map (fun k => h (k / n) (k mod n)) (seqZ 0 32).
Proof. by_size. Qed.

Lemma interleaved_lanes (h : Z -> Z -> Z -> Z) :
  concat (map (fun m => flat_map (fun r => nth (Z.to_nat m) (chunks n r) []) (map (fun c => named_bytes n (16 / n) (h c)) (seqZ 0 3)))
    (seqZ 0 (16 / n))) = map (fun k => h (k mod (3 * n) / n) (k / (3 * n)) (k mod n)) (seqZ 0 48).
Proof. by_size. Qed.

Lemma lanes_divide : 0 < n /\ (n | 16) /\ (3 * n | 48) /\ 16 = 16 / n * n.
Proof.
  destruct size_ok as [-> |[-> |[-> | ->]]]; (split; [done|]; split; [|split; [|done]]);
    match goal with |- (?a | ?b) => exists (b / a); done end.
Qed.

Lemma store_pair_filled dst r mem (h : Z -> Z -> Z) : r = [named_bytes n (16 / n) h; named_bytes n (16 / n) (fun m j => h (16 / n + m) j)] ->
  filled 1 dst 0 32 (fun k => h (k / n) (k mod n)) mem (store_bytes dst r mem).
Proof. intros ->. unfold store_bytes. rewrite pair_of_lanes. by apply store_map_filled. Qed.

Lemma vst3q_filled dst mem (h : Z -> Z -> Z -> Z) :
  filled 1 dst 0 48 (fun k => h (k mod (3 * n) / n) (k / (3 * n)) (k mod n)) mem
    (vst3q n dst (map (fun c => named_bytes n (16 / n) (h c)) (seqZ 0 3)) mem).
Proof. unfold vst3q, store_bytes. rewrite interleaved_lanes. by apply store_map_filled. Qed.

(** Two vectors of reversed lanes. *)
Lemma reversed_pair mem src :
  reverse_packed_vector2_order_and_lanes n (load_bytes 2 mem src) =
  [named_bytes n (16 / n) (fun m j => mem (src + ((2 * (16 / n) - 1 - m) * n + j)));
   named_bytes n (16 / n) (fun m j => mem (src + ((2 * (16 / n) - 1 - (16 / n + m)) * n + j)))].
Proof.
  pose proof lanes_divide as (Hn & _ & _ & H16). unfold reverse_packed_vector2_order_and_lanes, load_bytes, kVectorLength.
  change (seqZ 0 2) with [0; 1]. cbn [map]. change ([?a; ?b] !!! 0%nat) with a. change ([?a; ?b] !!! 1%nat) with b.
  rewrite !loaded_lanes, !reversed_lanes. f_equal; [|f_equal]; apply named_bytes_ext; intros m j _; f_equal; lia.
Qed.

Lemma reversed_triple mem src :
  reverse_interleaved_3_vector_lanes n (vld3q n mem src) =
  map (fun c => named_bytes n (16 / n) (fun m j => mem (src + (3 * (16 / n - 1 - m) + c) * n + j))) (seqZ 0 3).
Proof. unfold reverse_interleaved_3_vector_lanes, vld3q. rewrite map_map. apply map_ext. intros c. apply reversed_lanes. Qed.

(** The channel and byte of a byte of a pixel. *)
Lemma channel_split k : k mod (3 * n) / n * n + k mod n = k mod (3 * n).
Proof.
  pose proof lanes_divide as (Hn & _). assert (k mod n = k mod (3 * n) mod n) as ->.
  { symmetry. apply Z.mod_mod_divide. by apply Z.divide_factor_r. }
  pose proof (Z.div_mod (k mod (3 * n)) n ltac:(lia)). lia.
Qed.
End register_facts.

(** ** What the writers do *)

Section writers.
Context (P dst row_size : Z) (mem : Z -> Z).
Hypothesis pixel_ok : 0 < P.
Hypothesis row_ok : 0 <= row_size < 2 ^ 64 /\ (P | row_size).

Lemma rest_of_row i : 0 <= i < row_size -> (P | i) -> row_size ⊟ i = row_size - i /\ (P | row_size - i).
Proof. intros Hi Hd. destruct row_ok as [Hr Hdr]. split; [apply size_sub_small; lia|by apply Z.divide_sub_r]. Qed.

Lemma pixel_of_rest i k : (P | i) -> (i + k) / P * P = i + k / P * P /\ (i + k) mod P = k mod P.
Proof. intros [q ->]. split; [rewrite Z.div_add_l by lia; lia|by rewrite (Z.add_comm (q * P)), Z.mod_add by lia]. Qed.

Section repeated.
Context (value_bytes : Z).
Hypothesis value_apart : forall c k, 0 <= c < P -> 0 <= k < row_size -> value_bytes + c <> dst + k.

Definition repeated (k : Z) : Z := mem (value_bytes + k mod P).

Lemma value_kept m c : outside_kept dst row_size mem m -> 0 <= c < P -> m (value_bytes + c) = mem (value_bytes + c).
Proof. intros Hk Hc. apply Hk. intros k. by apply value_apart. Qed.

Lemma repeated_rest i m : 0 <= i < row_size -> (P | i) -> outside_kept dst row_size mem m ->
  filled 1 (dst + i) 0 (row_size - i) (fun k => repeated (i + k)) m
    (fill_repeated_by_bytes P value_bytes (dst + i) (row_size ⊟ i) m).
Proof.
  intros Hi Hd Hm. destruct (rest_of_row i Hi Hd) as [-> Hr]. unfold fill_repeated_by_bytes.
  eapply filled_ext; [|apply (step_loop_filled P (row_size - i) (fun _ => value_bytes)); [done|lia|done|]].
  - intros k Hk. cbv beta. destruct (pixel_of_rest i k Hd) as [_ Hmod]. unfold repeated. rewrite Hmod.
    apply value_kept; [done|]. by apply Z.mod_pos_bound.
  - intros j c k Hj Hc Hk. rewrite <- Z.add_assoc. apply value_apart; lia.
Qed.

Lemma fill_by_bytes_correct : filled 1 dst 0 row_size repeated mem (fill_repeated_by_bytes P value_bytes dst row_size mem).
Proof.
  destruct row_ok as [Hr Hd]. unfold fill_repeated_by_bytes.
  apply (step_loop_filled P row_size (fun _ => value_bytes)); [done|lia|done|]. intros j c k _ Hc Hk. by apply value_apart.
Qed.

Lemma fill_single_channel_correct : element_size P ->
  exists mem', fill_single_channel P value_bytes dst row_size mem = Some mem' /\ filled 1 dst 0 row_size repeated mem mem'.
Proof.
  intros Hs. destruct (lanes_divide P Hs) as (_ & H16 & _). destruct row_ok as [Hr Hd]. unfold fill_single_channel.
  apply (block_loop_filled P); [done|done|unfold kVectorLength; lia|done|done| |exact repeated_rest].
  intros i m Hi Hdi Hb Hm.
  eapply filled_ext; [|apply (store_pair_filled P Hs _ _ _ (fun _ j => mem (value_bytes + j)))]; [|done].
  intros k Hk. cbv beta. unfold repeated. by destruct (pixel_of_rest i k Hdi) as [_ ->].
Qed.

Section interleaved.
Context (n : Z).
Hypothesis interleaved_pixel : element_size n /\ P = 3 * n.

Lemma fill_interleaved_3_correct : exists mem', fill_interleaved_3 n value_bytes dst row_size mem = Some mem' /\
  filled 1 dst 0 row_size repeated mem mem'.
Proof.
  destruct interleaved_pixel as [Hs HP]. destruct (lanes_divide n Hs) as (Hn & _ & H48 & _). destruct row_ok as [Hr Hd].
  unfold fill_interleaved_3. apply (block_loop_filled P); [done|done|unfold kVectorLength; lia|by rewrite HP|done| |].
  2:{ intros i m. rewrite <- HP. apply repeated_rest. }
  intros i m Hi Hdi Hb Hm. change (3 * kVectorLength) with 48 in *.
  set (h := fun c (_ : Z) j => mem (value_bytes + (c * n + j))).
  assert ([load_repeated_unaligned n mem value_bytes; load_repeated_unaligned n mem (value_bytes + n);
    load_repeated_unaligned n mem (value_bytes + 2 * n)] = map (fun c => named_bytes n (16 / n) (h c)) (seqZ 0 3)) as ->.
  { unfold load_repeated_unaligned, h. change (seqZ 0 3) with [0; 1; 2]. cbn [map].
    f_equal; f_equal; [|f_equal]; apply named_bytes_ext; intros m' j _; f_equal; lia. }
  assert (forall k, h (k mod (3 * n) / n) (k / (3 * n)) (k mod n) = repeated k) as Hv.
  { intros k. unfold h, repeated. rewrite HP. by rewrite channel_split. }
  apply (filled_next (dst + i) 48 48 (fun k => repeated (i + k)) (fun k => repeated (i + (48 + k))) m
    (vst3q n (dst + i) (map (fun c => named_bytes n (16 / n) (h c)) (seqZ 0 3)) m)); [done|done|done| |].
  - eapply filled_ext; [|apply (vst3q_filled n Hs)]. intros k Hk. cbv beta. rewrite Hv. unfold repeated.
    by destruct (pixel_of_rest i k Hdi) as [_ ->].
  - rewrite <- Z.add_assoc. eapply filled_ext; [|apply (vst3q_filled n Hs)]. intros k Hk. cbv beta. rewrite Hv. unfold repeated.
    assert (P | i + 48) as Hd48 by (apply Z.divide_add_r; [done|by rewrite HP]).
    rewrite Z.add_assoc. by destruct (pixel_of_rest (i + 48) k Hd48) as [_ ->].
Qed.
End interleaved.

(** The pixel that [value_bytes] points to, over the whole range. *)
Lemma fill_repeated_pixel_correct PixelSize : PixelSize = P \/ PixelSize = 0 ->
  exists mem', fill_repeated_pixel PixelSize P value_bytes dst row_size mem = Some mem' /\ filled 1 dst 0 row_size repeated mem mem'.
Proof.
  intros HPS. unfold fill_repeated_pixel.
  assert (forall n, PixelSize = n -> 1 <= n -> P = n) as Hn by (intros; lia).
  repeat match goal with |- context [PixelSize =? ?n] => destruct (Z.eqb_spec PixelSize n) as [E|_];
    [specialize (Hn n E ltac:(lia)); first [replace (fill_single_channel n) with (fill_single_channel P) by (by rewrite Hn); apply fill_single_channel_correct; rewrite Hn; unfold element_size; tauto
       |match n with 3 * ?e => apply (fill_interleaved_3_correct e); split; [unfold element_size; tauto|exact Hn] end]|] end.
  eexists. split; [done|]. apply fill_by_bytes_correct.
Qed.
End repeated.

Section reversed.
Context (src_last : Z).
Hypothesis source_apart : forall j c k, 0 <= j < row_size / P -> 0 <= c < P -> 0 <= k < row_size -> src_last - j * P + c <> dst + k.

Definition reversed (k : Z) : Z := mem (src_last - k / P * P + k mod P).

Lemma pixel_index k : 0 <= k < row_size -> 0 <= k / P < row_size / P /\ 0 <= k mod P < P.
Proof.
  destruct row_ok as [Hr Hd]. intros Hk. destruct (steps_of_pixels P row_size pixel_ok ltac:(lia) Hd) as [_ He].
  split; [|by apply Z.mod_pos_bound]. split; [apply Z.div_pos; lia|apply Z.div_lt_upper_bound; lia].
Qed.

Lemma copied_source_kept k m : outside_kept dst row_size mem m -> 0 <= k < row_size ->
  m (src_last - k / P * P + k mod P) = reversed k.
Proof. intros Hm Hk. destruct (pixel_index k Hk) as [H1 H2]. apply Hm. intros k'. by apply source_apart. Qed.

Lemma reversed_rest i m : 0 <= i < row_size -> (P | i) -> outside_kept dst row_size mem m ->
  filled 1 (dst + i) 0 (row_size - i) (fun k => reversed (i + k)) m
    (copy_reversed_by_bytes P (src_last - i) (dst + i) (row_size ⊟ i) m).
Proof.
  intros Hi Hd Hm. destruct (rest_of_row i Hi Hd) as [-> Hr]. unfold copy_reversed_by_bytes.
  eapply filled_ext; [|apply (step_loop_filled P (row_size - i) (fun offset => src_last - i - offset)); [done|lia|done|]].
  - intros k Hk. cbv beta. rewrite <- (copied_source_kept (i + k) m) by (done || lia).
    destruct (pixel_of_rest i k Hd) as [-> ->]. f_equal. lia.
  - intros j c k Hj Hc Hk. destruct Hd as [q ->]. destruct row_ok as [Hrow [w Hw]].
    assert ((row_size - q * P) / P = w - q) as Hq by (rewrite Hw, <- Z.mul_sub_distr_r; apply Z.div_mul; lia).
    rewrite <- Z.add_assoc. replace (src_last - q * P - j * P) with (src_last - (q + j) * P) by lia.
    apply source_apart; [rewrite Hw, Z.div_mul by lia; nia|done|nia].
Qed.

Lemma copy_by_bytes_correct : filled 1 dst 0 row_size reversed mem (copy_reversed_by_bytes P src_last dst row_size mem).
Proof.
  destruct row_ok as [Hr Hd]. unfold copy_reversed_by_bytes.
  apply (step_loop_filled P row_size (fun offset => src_last - offset)); [done|lia|done|]. exact source_apart.
Qed.

Lemma copy_packed_correct : element_size P ->
  exists mem', copy_reversed_packed P src_last dst row_size mem = Some mem' /\ filled 1 dst 0 row_size reversed mem mem'.
Proof.
  intros Hs. destruct (lanes_divide P Hs) as (_ & H16 & _ & Hl). destruct row_ok as [Hr Hd]. unfold copy_reversed_packed.
  apply (block_loop_filled P); [done|done|unfold kVectorLength; lia|done|done| |exact reversed_rest].
  intros i m Hi Hdi Hb Hm. change (2 * kVectorLength) with 32 in *.
  eapply filled_ext; [|apply (store_pair_filled P Hs _ _ _ (fun m' j => m (src_last + P - i - 32 + ((2 * (16 / P) - 1 - m') * P + j))))];
    [|by apply reversed_pair].
  intros k Hk. cbv beta. rewrite <- (copied_source_kept (i + k) m) by (done || lia).
  destruct (pixel_of_rest i k Hdi) as [-> ->]. f_equal. lia.
Qed.

Section interleaved.
Context (n : Z).
Hypothesis interleaved_pixel : element_size n /\ P = 3 * n.

Lemma padded_block_filled i m : 0 <= i -> (P | i) -> i + 48 <= row_size -> outside_kept dst row_size mem m ->
  filled 1 (dst + i) 0 48 (fun k => reversed (i + k)) m
    (vst3q n (dst + i) (reverse_interleaved_3_vector_lanes n (vld3q n m (src_last + P - i - 48))) m).
Proof.
  destruct interleaved_pixel as [Hs HP]. destruct (lanes_divide n Hs) as (Hn & _ & _ & Hl).
  intros Hi Hdi Hb Hm. rewrite (reversed_triple n Hs).
  eapply filled_ext; [|apply (vst3q_filled n Hs _ _ (fun c m' j => m (src_last + P - i - 48 + (3 * (16 / n - 1 - m') + c) * n + j)))].
  intros k Hk. cbv beta. rewrite <- (copied_source_kept (i + k) m) by (done || lia).
  destruct (pixel_of_rest i k Hdi) as [-> ->]. rewrite HP. pose proof (channel_split n Hs k). f_equal. lia.
Qed.

Lemma copy_interleaved_correct : exists mem', copy_reversed_interleaved_3 n src_last dst row_size mem = Some mem' /\
  filled 1 dst 0 row_size reversed mem mem'.
Proof.
  destruct interleaved_pixel as [Hs HP]. destruct (lanes_divide n Hs) as (Hn & _ & H48 & _). destruct row_ok as [Hr Hd].
  unfold copy_reversed_interleaved_3. cbv zeta. rewrite <- HP. change (3 * kVectorLength) with 48.
  apply (block_loop_filled P); [done|done|lia|by rewrite HP|done| |exact reversed_rest].
  intros i m Hi Hdi Hb Hm. pose proof (padded_block_filled i m Hi Hdi ltac:(lia) Hm) as H1.
  eapply (filled_next (dst + i) 48 48 (fun k => reversed (i + k)) (fun k => reversed (i + 48 + k))); [done|done| |exact H1|].
  - intros k _. cbv beta. f_equal. lia.
  - rewrite <- Z.add_assoc. apply padded_block_filled; [lia|apply Z.divide_add_r; [done|by rewrite HP]|lia|].
    intros p Hp. rewrite (filled_outside _ _ _ _ _ H1); [by apply Hm|]. intros k Hk. rewrite <- Z.add_assoc. apply Hp. lia.
Qed.
End interleaved.

(** The pixels up to the one at [src_last], last one first. *)
Lemma copy_reversed_pixels_correct PixelSize : PixelSize = P \/ PixelSize = 0 ->
  exists mem', copy_reversed_pixels PixelSize P src_last dst row_size mem = Some mem' /\ filled 1 dst 0 row_size reversed mem mem'.
Proof.
  intros HPS. unfold copy_reversed_pixels.
  assert (forall n, PixelSize = n -> 1 <= n -> P = n) as Hn by (intros; lia).
  repeat match goal with |- context [PixelSize =? ?n] => destruct (Z.eqb_spec PixelSize n) as [E|_];
    [specialize (Hn n E ltac:(lia)); first [replace (copy_reversed_packed n) with (copy_reversed_packed P) by (by rewrite Hn); apply copy_packed_correct; rewrite Hn; unfold element_size; tauto
       |match n with 3 * ?e => apply (copy_interleaved_correct e); split; [unfold element_size; tauto|exact Hn] end]|] end.
  eexists. split; [done|]. apply copy_by_bytes_correct.
Qed.
End reversed.
End writers.
