(* ===== verification/Padding.v ===== *)
(** * Padding by copy

    add_padding_by_copy.h, add_padding_by_copy_common.h, the Neon factory of
    add_padding_by_copy_neon.cpp and the call of add_padding_by_copy_api.cpp: the checks, the
    choice of a strategy, the tables of border rows and columns, and [process_stripe] of the
    six operations.  Memory maps the address of a byte to its value; a read outside a table
    gives [None]. *)

From S2P Require Import Prelude CTypes Utils Border Loops VectorMemory PaddingCopiers.

Implicit Types (mem : Z -> Z).

(** ** Parameters *)

Record AddPaddingByCopyParameters := {
  src_ : Z; dst_ : Z; src_stride_ : Z; dst_stride_ : Z; src_width_ : Z; src_height_ : Z;
  top_padding_ : Z; bottom_padding_ : Z; left_padding_ : Z; right_padding_ : Z; pixel_size_ : Z;
  border_type_ : kleidicv_border_type_t; border_value_ : Z
}.

Inductive AddPaddingByCopyBorderStrategy := kConstant | kReplicate | kWrapFast | kReflectFast | kReverseFast | kIndexed.

(** ** Checks and strategies *)

Definition kMaxPixelSize : Z := 8 * 4.

#[export] Instance border_type_eq_dec : EqDecision kleidicv_border_type_t.
Proof. solve_decision. Defined.

Definition is_constant (border_type : kleidicv_border_type_t) : bool := bool_decide (border_type = KLEIDICV_BORDER_TYPE_CONSTANT).

Definition add_padding_by_copy_is_implemented (src_width src_height pixel_size : Z) (border_type : kleidicv_border_type_t) : bool :=
  if (pixel_size =? 0) || (kMaxPixelSize <? pixel_size) then false
  else
    match border_type with
    | KLEIDICV_BORDER_TYPE_CONSTANT => true
    | KLEIDICV_BORDER_TYPE_REPLICATE | KLEIDICV_BORDER_TYPE_REFLECT | KLEIDICV_BORDER_TYPE_WRAP
    | KLEIDICV_BORDER_TYPE_REVERSE => negb ((src_width =? 0) || (src_height =? 0))
    | _ => false
    end.

(** [alignof] of the element that stands for a pixel. *)
Definition padding_alignment (pixel_size : Z) : Z :=
  if (pixel_size =? 2) || (pixel_size =? 3 * 2) then 2
  else if (pixel_size =? 4) || (pixel_size =? 3 * 4) then 4
  else if pixel_size =? 8 then 8 else 1.

Definition add_padding_by_copy_check_pointer_and_stride (pointer stride height pixel_size : Z) : kleidicv_error_t :=
  let align := padding_alignment pixel_size in
  check_pointer_alignment align pointer ?> check_pointer_and_stride align pointer stride height.

(** The variant: an error or the height of the destination. *)
Definition add_padding_by_copy_checks (src src_stride dst dst_stride src_width src_height top_padding bottom_padding
    left_padding right_padding pixel_size : Z) (border_type : kleidicv_border_type_t) (border_value : Z) : kleidicv_error_t + Z :=
  let kMaxImageDimension := KLEIDICV_MAX_IMAGE_PIXELS in
  let horizontal_padding := left_padding ⊞ right_padding in
  let vertical_padding := top_padding ⊞ bottom_padding in
  let dst_width := src_width ⊞ horizontal_padding in
  let computed_dst_height := src_height ⊞ vertical_padding in
  let error :=
    check_image_size src_width src_height ?>
    (if add_padding_by_copy_is_implemented src_width src_height pixel_size border_type then KLEIDICV_OK
     else KLEIDICV_ERROR_NOT_IMPLEMENTED) ?>
    add_padding_by_copy_check_pointer_and_stride src src_stride src_height pixel_size ?>
    (if is_constant border_type && any_null [border_value] then KLEIDICV_ERROR_NULL_POINTER else KLEIDICV_OK) ?>
    (if (kMaxImageDimension <? src_width) || (kMaxImageDimension <? src_height) || (kMaxImageDimension <? top_padding) ||
        (kMaxImageDimension <? bottom_padding) || (kMaxImageDimension <? left_padding) || (kMaxImageDimension <? right_padding)
     then KLEIDICV_ERROR_RANGE else KLEIDICV_OK) ?>
    (if (kMaxImageDimension <? horizontal_padding) || (kMaxImageDimension <? vertical_padding)
     then KLEIDICV_ERROR_RANGE else KLEIDICV_OK) ?>
    (if (kMaxImageDimension ⊟ horizontal_padding <? src_width) || (kMaxImageDimension ⊟ vertical_padding <? src_height)
     then KLEIDICV_ERROR_RANGE else KLEIDICV_OK) ?>
    check_image_size dst_width computed_dst_height ?>
    add_padding_by_copy_check_pointer_and_stride dst dst_stride computed_dst_height pixel_size in
  match error with KLEIDICV_OK => inr computed_dst_height | error => inl error end.

Definition can_use_wrap_fast_path (src_width left_padding right_padding : Z) : bool :=
  (left_padding <=? src_width) && (right_padding <=? src_width).
Definition can_use_reflect_fast_path (src_width left_padding right_padding : Z) : bool :=
  (1 <? src_width) && (left_padding <=? src_width) && (right_padding <=? src_width).
Definition can_use_reverse_fast_path (src_width left_padding right_padding : Z) : bool :=
  (1 <? src_width) && (left_padding <? src_width) && (right_padding <? src_width).

Definition resolve_border_strategy (src_width left_padding right_padding : Z) (border_type : kleidicv_border_type_t)
    : AddPaddingByCopyBorderStrategy :=
  match border_type with
  | KLEIDICV_BORDER_TYPE_CONSTANT => kConstant
  | KLEIDICV_BORDER_TYPE_REPLICATE => kReplicate
  | KLEIDICV_BORDER_TYPE_WRAP => if can_use_wrap_fast_path src_width left_padding right_padding then kWrapFast else kIndexed
  | KLEIDICV_BORDER_TYPE_REFLECT => if can_use_reflect_fast_path src_width left_padding right_padding then kReflectFast else kIndexed
  | KLEIDICV_BORDER_TYPE_REVERSE => if can_use_reverse_fast_path src_width left_padding right_padding then kReverseFast else kIndexed
  | _ => kIndexed
  end.

(** ** Border indices

    [ptrdiff_t] values are two's complement views of [size_t] values; C++ rounds
    quotients towards zero. *)

Definition positive_remainder (value period : Z) : Z :=
  let remainder := Z.rem value period in if remainder <? 0 then remainder + period else remainder.

Definition wrap_index (position length : Z) : Z :=
  let signed_length := to_ptrdiff length in wrap64 (positive_remainder position signed_length).

Definition reflect_index (position length : Z) : Z :=
  if length =? 1 then 0
  else
    let period := to_ptrdiff (wrap64 (Z.shiftl length 1)) in
    let reflected := positive_remainder position period in
    wrap64 (if to_ptrdiff length <=? reflected then period - reflected - 1 else reflected).

Definition reverse_index (position length : Z) : Z :=
  if length =? 1 then 0
  else
    let period := to_ptrdiff (wrap64 (Z.shiftl (length ⊟ 1) 1)) in
    let reflected := positive_remainder position period in
    wrap64 (if to_ptrdiff length <=? reflected then period - reflected else reflected).

Section tables.
Context (MapIndex : Z -> Z -> Z).

Definition build_coordinate_sequence (count start length : Z) : list Z :=
  map (fun i => MapIndex (start + to_ptrdiff i) length) (seqZ 0 count).

(** The rows above and below, and the columns to both sides. *)
Definition build_vertical_border_rows (top_padding bottom_padding height : Z) : list Z * list Z :=
  (build_coordinate_sequence top_padding (- to_ptrdiff top_padding) height,
   build_coordinate_sequence bottom_padding (to_ptrdiff height) height).
Definition build_horizontal_border_indices (left right width : Z) : list Z :=
  build_coordinate_sequence left (- to_ptrdiff left) width ++ build_coordinate_sequence right (to_ptrdiff width) width.
End tables.

(** ** Operations *)

(** [for (i = a; i < b; ++i)] with a body that may fail. *)
Definition for_option {S} (a b : Z) (body : Z -> S -> option S) (s : S) : option S :=
  for_range a b (fun i st => s ← st; body i s) (Some s).

Section operation.
(** The template parameter and the members of [AddPaddingByCopyTargetBase]. *)
Context (PixelSize : Z) (p : AddPaddingByCopyParameters).

Definition dst_width_ : Z := src_width_ p ⊞ left_padding_ p ⊞ right_padding_ p.
Definition dst_height_ : Z := src_height_ p ⊞ top_padding_ p ⊞ bottom_padding_ p.
Definition left_size_ : Z := left_padding_ p ⊠ pixel_size_ p.
Definition inner_size_ : Z := src_width_ p ⊠ pixel_size_ p.
Definition right_size_ : Z := right_padding_ p ⊠ pixel_size_ p.
Definition inner_offset_ : Z := left_padding_ p ⊠ pixel_size_ p.
Definition right_offset_ : Z := (left_padding_ p ⊞ src_width_ p) ⊠ pixel_size_ p.

Definition split_body_rows (dst_y_begin dst_y_end : Z) : Z * Z :=
  let body_begin_limit := top_padding_ p in
  let body_end_limit := top_padding_ p ⊞ src_height_ p in
  let body_begin := Z.min (Z.max dst_y_begin body_begin_limit) dst_y_end in
  let body_end := Z.max body_begin (Z.min dst_y_end body_end_limit) in
  (body_begin, body_end).

(** Loops over rows: a fixed or a moving source row for each row of the destination. *)
Definition same_row_loop (dst_y_begin dst_y_end : Z) (fill_row : Z -> (Z -> Z) -> option (Z -> Z)) (dst_row : Z) mem
    : option (Z * (Z -> Z)) :=
  for_option dst_y_begin dst_y_end (fun _ '(dst_row, mem) =>
    mem ← fill_row dst_row mem; Some (dst_row + dst_stride_ p, mem)) (dst_row, mem).

Definition body_row_loop (dst_y_begin dst_y_end : Z) (fill_row : Z -> Z -> (Z -> Z) -> option (Z -> Z)) (src_row dst_row : Z) mem
    : option (Z * Z * (Z -> Z)) :=
  for_option dst_y_begin dst_y_end (fun _ '(src_row, dst_row, mem) =>
    mem ← fill_row src_row dst_row mem; Some (src_row + src_stride_ p, dst_row + dst_stride_ p, mem)) (src_row, dst_row, mem).

Definition first_row (dst_y_begin : Z) : Z := dst_ p + dst_y_begin ⊠ dst_stride_ p.
Definition body_src_row (dst_y_begin : Z) : Z := src_ p + (dst_y_begin ⊟ top_padding_ p) ⊠ src_stride_ p.

(** *** Rows *)

Definition fill_constant_row (dst_row : Z) mem : option (Z -> Z) :=
  fill_repeated_pixel PixelSize (pixel_size_ p) (border_value_ p) dst_row (dst_width_ ⊠ pixel_size_ p) mem.

Definition fill_constant_body_row (src_row dst_row : Z) mem : option (Z -> Z) :=
  mem ← fill_repeated_pixel PixelSize (pixel_size_ p) (border_value_ p) dst_row left_size_ mem;
  let mem := copy_contiguous_bytes src_row (dst_row + inner_offset_) inner_size_ mem in
  fill_repeated_pixel PixelSize (pixel_size_ p) (border_value_ p) (dst_row + right_offset_) right_size_ mem.

Definition fill_replicate_row (src_row dst_row : Z) mem : option (Z -> Z) :=
  let leftmost_src_pixel := src_row in
  let rightmost_src_pixel := src_row + inner_size_ - pixel_size_ p in
  mem ← fill_repeated_pixel PixelSize (pixel_size_ p) leftmost_src_pixel dst_row left_size_ mem;
  let mem := copy_contiguous_bytes src_row (dst_row + inner_offset_) inner_size_ mem in
  fill_repeated_pixel PixelSize (pixel_size_ p) rightmost_src_pixel (dst_row + right_offset_) right_size_ mem.

Definition fill_reflect_row (src_row dst_row : Z) mem : option (Z -> Z) :=
  let left_border_last_src_pixel := src_row + (if left_size_ =? 0 then 0 else left_size_ ⊟ pixel_size_ p) in
  mem ← copy_reversed_pixels PixelSize (pixel_size_ p) left_border_last_src_pixel dst_row left_size_ mem;
  let mem := copy_contiguous_bytes src_row (dst_row + inner_offset_) inner_size_ mem in
  let rightmost_src_pixel := src_row + (if right_size_ =? 0 then 0 else inner_size_ ⊟ pixel_size_ p) in
  copy_reversed_pixels PixelSize (pixel_size_ p) rightmost_src_pixel (dst_row + right_offset_) right_size_ mem.

Definition fill_reverse_row (src_row dst_row : Z) mem : option (Z -> Z) :=
  let two_pixel_size := pixel_size_ p ⊞ pixel_size_ p in
  let left_border_last_src_pixel := src_row + (if left_size_ =? 0 then 0 else left_size_) in
  mem ← copy_reversed_pixels PixelSize (pixel_size_ p) left_border_last_src_pixel dst_row left_size_ mem;
  let mem := copy_contiguous_bytes src_row (dst_row + inner_offset_) inner_size_ mem in
  let right_border_last_src_pixel := src_row + (if right_size_ =? 0 then 0 else inner_size_ ⊟ two_pixel_size) in
  copy_reversed_pixels PixelSize (pixel_size_ p) right_border_last_src_pixel (dst_row + right_offset_) right_size_ mem.

Definition fill_wrap_row (src_row dst_row : Z) mem : option (Z -> Z) :=
  let left_border_src := src_row + inner_size_ - left_size_ in
  let right_border_src := src_row in
  let mem := copy_contiguous_bytes left_border_src dst_row left_size_ mem in
  let mem := copy_contiguous_bytes src_row (dst_row + inner_offset_) inner_size_ mem in
  Some (copy_contiguous_bytes right_border_src (dst_row + right_offset_) right_size_ mem).

(** [indices + offset] points into a table. *)
Definition copy_indexed_pixels_typed (n src dst : Z) (indices : list Z) (offset count : Z) mem : option (Z -> Z) :=
  for_option 0 count (fun i mem =>
    index ← indices !! Z.to_nat (offset + i); Some (copy_contiguous_bytes (src + index * n) (dst + i * n) n mem)) mem.

Definition copy_indexed_pixels_by_bytes (src dst : Z) (indices : list Z) (offset count : Z) mem : option (Z -> Z) :=
  option_map snd (for_option 0 count (fun i '(dst_offset, mem) =>
    index ← indices !! Z.to_nat (offset + i);
    Some (dst_offset ⊞ pixel_size_ p, copy_contiguous_bytes (src + index ⊠ pixel_size_ p) (dst + dst_offset) (pixel_size_ p) mem)) (0, mem)).

Definition copy_indexed_pixels_common (src dst : Z) (indices : list Z) (offset count : Z) mem : option (Z -> Z) :=
  if PixelSize =? 1 then copy_indexed_pixels_typed 1 src dst indices offset count mem
  else if PixelSize =? 2 then copy_indexed_pixels_typed 2 src dst indices offset count mem
  else if PixelSize =? 4 then copy_indexed_pixels_typed 4 src dst indices offset count mem
  else if PixelSize =? 8 then copy_indexed_pixels_typed 8 src dst indices offset count mem
  else copy_indexed_pixels_by_bytes src dst indices offset count mem.

Definition fill_indexed_row (border_indices : list Z) (src_row dst_row : Z) mem : option (Z -> Z) :=
  let mem := copy_contiguous_bytes src_row (dst_row + inner_offset_) inner_size_ mem in
  mem ← copy_indexed_pixels_common src_row dst_row border_indices 0 (left_padding_ p) mem;
  copy_indexed_pixels_common src_row (dst_row + right_offset_) border_indices (left_padding_ p) (right_padding_ p) mem.

(** *** Stripes *)

Definition process_vertical_mapped_stripe (body_begin body_end : Z) (top_rows bottom_rows : list Z) (dst_y_begin dst_y_end : Z)
    (fill_row : Z -> Z -> (Z -> Z) -> option (Z -> Z)) mem : option (Z -> Z) :=
  '(dst_row, mem) ← for_option dst_y_begin body_begin (fun dst_y '(dst_row, mem) =>
      row ← top_rows !! Z.to_nat dst_y;
      mem ← fill_row (src_ p + row ⊠ src_stride_ p) dst_row mem; Some (dst_row + dst_stride_ p, mem)) (first_row dst_y_begin, mem);
  '(dst_row, mem) ←
    (if body_begin <? body_end then
       '(_, dst_row, mem) ← body_row_loop body_begin body_end fill_row (body_src_row body_begin) dst_row mem; Some (dst_row, mem)
     else Some (dst_row, mem));
  let bottom_base := top_padding_ p ⊞ src_height_ p in
  '(_, mem) ← for_option body_end dst_y_end (fun dst_y '(dst_row, mem) =>
      row ← bottom_rows !! Z.to_nat (dst_y ⊟ bottom_base);
      mem ← fill_row (src_ p + row ⊠ src_stride_ p) dst_row mem; Some (dst_row + dst_stride_ p, mem)) (dst_row, mem);
  Some mem.

Definition fill_constant_rows (dst_y_begin dst_y_end : Z) mem : option (Z -> Z) :=
  option_map snd (same_row_loop dst_y_begin dst_y_end fill_constant_row (first_row dst_y_begin) mem).
Definition process_constant_body_rows (dst_y_begin dst_y_end : Z) mem : option (Z -> Z) :=
  option_map snd (body_row_loop dst_y_begin dst_y_end fill_constant_body_row (body_src_row dst_y_begin) (first_row dst_y_begin) mem).

Definition constant_process_stripe (dst_y_begin dst_y_end : Z) mem : option (Z -> Z) :=
  if inner_size_ =? 0 then fill_constant_rows dst_y_begin dst_y_end mem
  else
    let '(body_begin, body_end) := split_body_rows dst_y_begin dst_y_end in
    mem ← fill_constant_rows dst_y_begin body_begin mem;
    mem ← process_constant_body_rows body_begin body_end mem;
    fill_constant_rows body_end dst_y_end mem.

Definition fill_replicate_rows (src_row dst_y_begin dst_y_end : Z) mem : option (Z -> Z) :=
  option_map snd (same_row_loop dst_y_begin dst_y_end (fill_replicate_row src_row) (first_row dst_y_begin) mem).
Definition process_replicate_body_rows (dst_y_begin dst_y_end : Z) mem : option (Z -> Z) :=
  option_map snd (body_row_loop dst_y_begin dst_y_end fill_replicate_row (body_src_row dst_y_begin) (first_row dst_y_begin) mem).

Definition replicate_process_stripe (dst_y_begin dst_y_end : Z) mem : option (Z -> Z) :=
  let '(body_begin, body_end) := split_body_rows dst_y_begin dst_y_end in
  mem ← fill_replicate_rows (src_ p) dst_y_begin body_begin mem;
  mem ← process_replicate_body_rows body_begin body_end mem;
  fill_replicate_rows (src_ p + (src_height_ p ⊟ 1) ⊠ src_stride_ p) body_end dst_y_end mem.

(** The operations with tables of rows: reflect, reverse, wrap and indexed. *)
Definition mapped_process_stripe (fill_row : Z -> Z -> (Z -> Z) -> option (Z -> Z)) (rows : list Z * list Z)
    (dst_y_begin dst_y_end : Z) mem : option (Z -> Z) :=
  let '(body_begin, body_end) := split_body_rows dst_y_begin dst_y_end in
  process_vertical_mapped_stripe body_begin body_end rows.1 rows.2 dst_y_begin dst_y_end fill_row mem.

Definition vertical_rows (MapIndex : Z -> Z -> Z) : list Z * list Z :=
  build_vertical_border_rows MapIndex (top_padding_ p) (bottom_padding_ p) (src_height_ p).

Definition indexed_process_stripe (MapIndex : Z -> Z -> Z) : Z -> Z -> (Z -> Z) -> option (Z -> Z) :=
  mapped_process_stripe
    (fill_indexed_row (build_horizontal_border_indices MapIndex (left_padding_ p) (right_padding_ p) (src_width_ p)))
    (vertical_rows MapIndex).

(** [prepare_indexed_maps] selects the index function. *)
Definition indexed_map : Z -> Z -> Z :=
  match border_type_ p with
  | KLEIDICV_BORDER_TYPE_WRAP => wrap_index
  | KLEIDICV_BORDER_TYPE_REFLECT => reflect_index
  | _ => reverse_index
  end.

Definition process_stripe (strategy : AddPaddingByCopyBorderStrategy) : Z -> Z -> (Z -> Z) -> option (Z -> Z) :=
  match strategy with
  | kConstant => constant_process_stripe
  | kReplicate => replicate_process_stripe
  | kWrapFast => mapped_process_stripe fill_wrap_row (vertical_rows wrap_index)
  | kReflectFast => mapped_process_stripe fill_reflect_row (vertical_rows reflect_index)
  | kReverseFast => mapped_process_stripe fill_reverse_row (vertical_rows reverse_index)
  | kIndexed => indexed_process_stripe indexed_map
  end.

Definition storage_word_count (strategy : AddPaddingByCopyBorderStrategy) : Z :=
  match strategy with
  | kConstant | kReplicate => 0
  | kWrapFast | kReflectFast | kReverseFast => top_padding_ p ⊞ bottom_padding_ p
  | kIndexed => left_padding_ p ⊞ right_padding_ p ⊞ top_padding_ p ⊞ bottom_padding_ p
  end.
End operation.

(** ** Creation and call

    An operation is its [process_stripe]; [sizeof_operation] is the size of the object. *)

Definition operation : Type := Z -> Z -> (Z -> Z) -> option (kleidicv_error_t * (Z -> Z)).

Definition allocation_size (sizeof_operation : Z) (strategy : AddPaddingByCopyBorderStrategy) (p : AddPaddingByCopyParameters) : Z :=
  let storage_words := storage_word_count p strategy in
  let storage_offset := align_up sizeof_operation 8 in
  storage_offset ⊞ storage_words ⊠ 8.

Definition allocate_operation (malloc : Z -> Z) (sizeof_operation PixelSize : Z) (strategy : AddPaddingByCopyBorderStrategy)
    (p : AddPaddingByCopyParameters) : option operation :=
  if malloc (allocation_size sizeof_operation strategy p) =? 0 then None
  else Some (fun dst_y_begin dst_y_end mem =>
    option_map (fun mem => (KLEIDICV_OK, mem)) (process_stripe PixelSize p strategy dst_y_begin dst_y_end mem)).

(** [allocate_pixel_size_operation]: the sizes with their own instance. *)
Definition instance_of_pixel_size (pixel_size : Z) : Z :=
  if bool_decide (pixel_size ∈ [1; 2; 4; 8; 3 * 1; 3 * 2; 3 * 4]) then pixel_size else 0.

Definition create_add_padding_by_copy_operation (malloc : Z -> Z) (sizeof_operation : Z) (p : AddPaddingByCopyParameters)
    (strategy : AddPaddingByCopyBorderStrategy) : option operation :=
  allocate_operation malloc sizeof_operation (instance_of_pixel_size (pixel_size_ p)) strategy p.

(** The part that the single-threaded and the threaded call share: checks, strategy and
    creation, with the height of the destination. *)
Definition prepare_add_padding_by_copy (malloc : Z -> Z) (sizeof_operation : Z) (p : AddPaddingByCopyParameters)
    : kleidicv_error_t + Z * operation :=
  match add_padding_by_copy_checks (src_ p) (src_stride_ p) (dst_ p) (dst_stride_ p) (src_width_ p) (src_height_ p)
      (top_padding_ p) (bottom_padding_ p) (left_padding_ p) (right_padding_ p) (pixel_size_ p) (border_type_ p) (border_value_ p) with
  | inl error => inl error
  | inr dst_height =>
      let strategy := resolve_border_strategy (src_width_ p) (left_padding_ p) (right_padding_ p) (border_type_ p) in
      match create_add_padding_by_copy_operation malloc sizeof_operation p strategy with
      | None => inl KLEIDICV_ERROR_ALLOCATION
      | Some operation => inr (dst_height, operation)
      end
  end.

Definition add_padding_by_copy (malloc : Z -> Z) (sizeof_operation : Z) (p : AddPaddingByCopyParameters) mem
    : option (kleidicv_error_t * (Z -> Z)) :=
  match prepare_add_padding_by_copy malloc sizeof_operation p with
  | inl error => Some (error, mem)
  | inr (dst_height, operation) => operation 0 dst_height mem
  end.
