(* ===== verification/PaddingRows.v ===== *)
(** * Padding: the rows and the border indices

    The index functions of [AddPaddingByCopyTargetBase] against the documented meaning of the
    border types, for paddings of any size, and the rows that the strategies write: every
    byte of a padded row comes from the pixel that the border type names. *)

From S2P Require Import Prelude CTypes Utils Border Loops VectorMemory PaddingCopiers Padding.

(** ** Border indices *)

(** The pixel of an axis of [n] pixels that stands for position [i]; an axis of one pixel has
    no other. *)
Definition pad_index (bt : FixedBorderType) (n i : Z) : Z := if n =? 1 then 0 else border_index_periodic bt n i.

Lemma pad_index_range bt n i : 1 <= n -> 0 <= pad_index bt n i < n.
Proof.
  intros Hn. unfold pad_index, border_index_periodic. destruct (Z.eqb_spec n 1); [lia|].
  destruct bt.
  - lia.
  - pose proof (Z.mod_pos_bound i (2 * n) ltac:(lia)). case_cmp; lia.
  - apply Z.mod_pos_bound. lia.
  - pose proof (Z.mod_pos_bound i (2 * n - 2) ltac:(lia)). case_cmp; lia.
Qed.

Lemma pad_index_inside bt n i : 0 <= i < n -> pad_index bt n i = i.
Proof.
  intros Hi. unfold pad_index, border_index_periodic. destruct (Z.eqb_spec n 1); [lia|].
  destruct bt; [lia|rewrite Z.mod_small by lia..]; case_cmp; lia.
Qed.

(** Where the border is no wider than the axis, [pad_index] is [border_index]. *)
Lemma pad_index_near bt n i : 2 <= n -> - n < i < 2 * n - 1 -> pad_index bt n i = border_index bt n i.
Proof. intros Hn Hi. unfold pad_index. destruct (Z.eqb_spec n 1); [lia|]. symmetry. by apply border_index_is_periodic. Qed.

Lemma positive_remainder_mod v q : 0 < q -> positive_remainder v q = v mod q.
Proof.
  intros Hq. unfold positive_remainder. pose proof (Z.quot_rem' v q) as Hv. pose proof (Z.rem_bound_abs v q ltac:(lia)).
  destruct (Z.ltb_spec (Z.rem v q) 0).
  - apply (Z.mod_unique_pos _ _ (Z.quot v q - 1)); lia.
  - apply (Z.mod_unique_pos _ _ (Z.quot v q)); lia.
Qed.

(** The index function of a border type. *)
Definition index_function (bt : FixedBorderType) : Z -> Z -> Z :=
  match bt with WRAP => wrap_index | REFLECT => reflect_index | _ => reverse_index end.

Lemma index_function_correct bt n i : bt <> REPLICATE -> 1 <= n < 2 ^ 62 -> index_function bt i n = pad_index bt n i.
Proof.
  intros Hbt Hn. unfold pad_index, border_index_periodic. destruct bt; [done|..]; cbn [index_function];
    unfold wrap_index, reflect_index, reverse_index; rewrite ?Z.shiftl_mul_pow2, ?size_sub_small by lia; change (2 ^ 1) with 2;
    rewrite ?(wrap64_small (n * 2)), ?(wrap64_small ((n - 1) * 2)), ?to_ptrdiff_small by lia.
  - destruct (Z.eqb_spec n 1); [done|]. rewrite positive_remainder_mod by lia. rewrite (Z.mul_comm n 2).
    pose proof (Z.mod_pos_bound i (2 * n) ltac:(lia)). case_cmp; rewrite wrap64_small by lia; lia.
  - rewrite positive_remainder_mod by lia. pose proof (Z.mod_pos_bound i n ltac:(lia)). rewrite wrap64_small by lia.
    destruct (Z.eqb_spec n 1) as [->|]; [by rewrite Z.mod_1_r|done].
  - destruct (Z.eqb_spec n 1); [done|]. rewrite positive_remainder_mod by lia. replace ((n - 1) * 2) with (2 * n - 2) by lia.
    pose proof (Z.mod_pos_bound i (2 * n - 2) ltac:(lia)). case_cmp; rewrite wrap64_small by lia; lia.
Qed.

(** Entries of the generated tables. *)
Lemma coordinate_sequence_lookup bt count start n i : bt <> REPLICATE -> 1 <= n < 2 ^ 62 -> 0 <= i < count -> count < 2 ^ 62 ->
  build_coordinate_sequence (index_function bt) count start n !! Z.to_nat i = Some (pad_index bt n (start + i)).
Proof.
  intros Hbt Hn Hi Hc. unfold build_coordinate_sequence. rewrite list_lookup_fmap, lookup_seqZ_lt by lia.
  cbn [fmap option_fmap option_map]. rewrite Z2Nat.id, Z.add_0_l, to_ptrdiff_small by lia. f_equal. by apply index_function_correct.
Qed.

Lemma horizontal_indices_lookup bt left right n i : bt <> REPLICATE -> 1 <= n < 2 ^ 62 -> 0 <= left < 2 ^ 62 -> 0 <= right < 2 ^ 62 ->
  0 <= i < left + right ->
  build_horizontal_border_indices (index_function bt) left right n !! Z.to_nat i =
  Some (pad_index bt n (if i <? left then i - left else n + (i - left))).
Proof.
  intros Hbt Hn Hl Hr Hi. unfold build_horizontal_border_indices.
  assert (length (build_coordinate_sequence (index_function bt) left (- to_ptrdiff left) n) = Z.to_nat left) as Hlen
    by (unfold build_coordinate_sequence; by rewrite length_map, length_seqZ).
  destruct (Z.ltb_spec i left).
  - rewrite lookup_app_l by lia. rewrite coordinate_sequence_lookup by lia || done. rewrite to_ptrdiff_small by lia. do 2 f_equal. lia.
  - rewrite lookup_app_r by lia. rewrite Hlen, <- Z2Nat.inj_sub by lia.
    rewrite coordinate_sequence_lookup by lia || done. by rewrite to_ptrdiff_small by lia.
Qed.

Lemma pixel_and_byte P x c : 0 < P -> 0 <= c < P -> (x * P + c) / P = x /\ (x * P + c) mod P = c.
Proof.
  intros HP Hc. split; [by rewrite Z.div_add_l, Z.div_small, Z.add_0_r by lia|].
  by rewrite Z.add_comm, Z.mod_add, Z.mod_small by lia.
Qed.

(** Loops that may fail. *)
Lemma for_option_ind {S} (I : Z -> S -> Prop) a b body s : a <= b -> I a s ->
  (forall i s, a <= i < b -> I i s -> exists s', body i s = Some s' /\ I (i + 1) s') ->
  exists s', for_option a b body s = Some s' /\ I b s'.
Proof.
  intros Hab Ha Hb. unfold for_option. apply (for_range_ind (fun i st => exists s, st = Some s /\ I i s)); [done|by exists s|].
  intros i st Hi (s1 & -> & HI). cbn. by apply Hb.
Qed.

(** ** Parts of a row *)

Section row.
Context (PixelSize : Z) (p : AddPaddingByCopyParameters).

Local Abbreviation P := (pixel_size_ p).
Local Abbreviation W := (src_width_ p).
Local Abbreviation left := (left_padding_ p).
Local Abbreviation right := (right_padding_ p).

Definition row_bytes : Z := (left + W + right) * P.

Hypothesis instance_ok : PixelSize = P \/ PixelSize = 0.
Hypothesis pixel_ok : 0 < P <= 32.
Hypothesis widths_ok : 0 <= W /\ 0 <= left /\ 0 <= right /\ left + W + right < 2 ^ 48.

Lemma row_sizes : left_size_ p = left * P /\ inner_size_ p = W * P /\ right_size_ p = right * P /\
  inner_offset_ p = left * P /\ right_offset_ p = (left + W) * P /\ dst_width_ p ⊠ P = row_bytes.
Proof.
  unfold left_size_, inner_size_, right_size_, inner_offset_, right_offset_, dst_width_, row_bytes.
  assert (0 <= left * P < 2 ^ 64 /\ 0 <= W * P < 2 ^ 64 /\ 0 <= right * P < 2 ^ 64 /\ 0 <= (left + W) * P < 2 ^ 64 /\
    0 <= (left + W + right) * P < 2 ^ 64) as (? & ? & ? & ? & ?) by nia.
  rewrite (size_add_small left), (size_add_small W) by lia. rewrite (size_add_small (W + left)) by lia.
  replace (W + left + right) with (left + W + right) by lia. by rewrite !size_mul_small by lia.
Qed.

(** [S k]: the address of the source of byte [k]; no source is overwritten. *)
Context (S : Z -> Z) (dst_row : Z) (mem : Z -> Z).
Hypothesis sources_apart : forall k k', 0 <= k < row_bytes -> 0 <= k' < row_bytes -> S k <> dst_row + k'.

Definition row_filled (mem' : Z -> Z) : Prop := filled 1 dst_row 0 row_bytes (fun k => mem (S k)) mem mem'.

Definition writes_part (off n : Z) (f : (Z -> Z) -> option (Z -> Z)) : Prop :=
  forall m, outside_kept dst_row row_bytes mem m ->
    exists m', f m = Some m' /\ filled 1 (dst_row + off) 0 n (fun k => mem (S (off + k))) m m'.

Lemma row_source_kept k m : outside_kept dst_row row_bytes mem m -> 0 <= k < row_bytes -> m (S k) = mem (S k).
Proof. intros Hm Hk. apply Hm. intros k' Hk'. by apply sources_apart. Qed.

Lemma part_kept off n value m m' : 0 <= off -> off + n <= row_bytes -> outside_kept dst_row row_bytes mem m ->
  filled 1 (dst_row + off) 0 n value m m' -> outside_kept dst_row row_bytes mem m'.
Proof.
  intros Ho Hn Hm Hf q Hq. rewrite (filled_outside _ _ _ _ _ Hf); [by apply Hm|]. intros k Hk. rewrite <- Z.add_assoc. apply Hq. lia.
Qed.

Lemma part_lengths : 0 <= left * P /\ 0 <= W * P /\ 0 <= right * P /\ left * P + W * P = (left + W) * P /\
  (left + W) * P + right * P = row_bytes /\ row_bytes < 2 ^ 64.
Proof. unfold row_bytes. nia. Qed.

(** Whole rows: left, inner and right part, or the inner part first. *)
Lemma parts_in_order f g h : writes_part 0 (left * P) f -> writes_part (left * P) (W * P) g ->
  writes_part ((left + W) * P) (right * P) h ->
  exists mem', (m ← f mem; m ← g m; h m) = Some mem' /\ row_filled mem'.
Proof.
  intros Hf Hg Hh. pose proof part_lengths as (H1 & H2 & H3 & H4 & H5 & _).
  destruct (Hf mem ltac:(by intros ? ?)) as (m1 & E1 & F1). pose proof F1 as K1.
  apply part_kept in K1; [|lia|lia|by intros ? ?].
  destruct (Hg m1 K1) as (m2 & E2 & F2). pose proof F2 as K2. apply part_kept in K2; [|lia|lia|done].
  destruct (Hh m2 K2) as (m3 & E3 & F3).
  exists m3. split; [by rewrite E1; cbn; rewrite E2; cbn|]. unfold row_filled. rewrite Z.add_0_r in F1.
  pose proof (filled_next dst_row (left * P) (W * P) (fun k => mem (S k)) _ mem m1 m2 H1 H2 ltac:(done) F1 F2) as F12.
  rewrite H4 in F12. rewrite <- H5.
  exact (filled_next dst_row ((left + W) * P) (right * P) (fun k => mem (S k)) _ mem m2 m3 ltac:(lia) H3 ltac:(done) F12 F3).
Qed.

Lemma inner_part_first f g h : writes_part 0 (left * P) f -> writes_part (left * P) (W * P) g ->
  writes_part ((left + W) * P) (right * P) h ->
  exists mem', (m ← g mem; m ← f m; h m) = Some mem' /\ row_filled mem'.
Proof.
  intros Hf Hg Hh. pose proof part_lengths as (H1 & H2 & H3 & H4 & H5 & _).
  destruct (Hg mem ltac:(by intros ? ?)) as (m1 & E1 & F1). pose proof F1 as K1.
  apply part_kept in K1; [|lia|lia|by intros ? ?].
  destruct (Hf m1 K1) as (m2 & E2 & F2). pose proof F2 as K2. apply part_kept in K2; [|lia|lia|done].
  destruct (Hh m2 K2) as (m3 & E3 & F3).
  exists m3. split; [by rewrite E1; cbn; rewrite E2; cbn|]. unfold row_filled. rewrite Z.add_0_r in F2.
  rewrite <- (Z.mul_1_r (left * P)) in F1 at 1. apply (filled_shift 1) in F1. rewrite Z.add_0_r, H4 in F1.
  assert (filled 1 dst_row 0 ((left + W) * P) (fun k => mem (S k)) mem m2) as F12.
  { apply (filled_join 1 byte_positive dst_row (left * P) ((left + W) * P) 0 (left * P) 0 ((left + W) * P) _ mem m1); [lia| |done].
    eapply filled_ext; [|exact F1]. intros k Hk. cbv beta. do 2 f_equal. lia. }
  rewrite <- H5.
  exact (filled_next dst_row ((left + W) * P) (right * P) (fun k => mem (S k)) _ mem m2 m3 ltac:(lia) H3 ltac:(done) F12 F3).
Qed.

(** Kinds of parts. *)
Lemma memcpy_part off n src : 0 <= off -> 0 <= n -> off + n <= row_bytes -> (forall k, 0 <= k < n -> src + k = S (off + k)) ->
  writes_part off n (fun m => Some (copy_contiguous_bytes src (dst_row + off) n m)).
Proof.
  intros Ho Hn Hb Hs m Hm. eexists. split; [done|].
  eapply filled_ext; [|apply memcpy_filled; [done|]].
  - intros k Hk. cbv beta. rewrite Hs by done. apply row_source_kept; [done|lia].
  - intros k k' Hk Hk'. rewrite Hs, <- Z.add_assoc by done. apply sources_apart; lia.
Qed.

Lemma pixels_of_part n : 0 <= n -> 0 <= n * P /\ (P | n * P) /\ n * P / P = n.
Proof. intros Hn. split; [nia|]. split; [by exists n|]. apply Z.div_mul. lia. Qed.

Lemma repeated_part off n value : 0 <= off -> 0 <= n -> off + n * P <= row_bytes ->
  (forall k, 0 <= k < n * P -> value + k mod P = S (off + k)) ->
  writes_part off (n * P) (fill_repeated_pixel PixelSize P value (dst_row + off) (n * P)).
Proof.
  intros Ho Hn Hb Hs m Hm. destruct (pixels_of_part n Hn) as (H0 & Hd & _). pose proof part_lengths as (_ & _ & _ & _ & _ & Hl).
  assert (0 <= n * P < 2 ^ 64 /\ (P | n * P)) as Hrow by (split; [lia|done]).
  destruct (fill_repeated_pixel_correct P (dst_row + off) (n * P) m ltac:(lia) Hrow value) with (PixelSize := PixelSize)
    as (m' & E & F); [|done|].
  - intros c k Hc Hk. assert (0 < n) by (clear - Hk pixel_ok; nia). assert (P <= n * P) by (clear - pixel_ok H; nia). specialize (Hs c ltac:(lia)). rewrite Z.mod_small in Hs by lia.
    rewrite Hs, <- Z.add_assoc. apply sources_apart; lia.
  - exists m'. split; [done|]. eapply filled_ext; [|exact F]. intros k Hk. cbv beta. unfold repeated. rewrite Hs by done.
    apply row_source_kept; [done|lia].
Qed.

Lemma reversed_part off n src_last : 0 <= off -> 0 <= n -> off + n * P <= row_bytes ->
  (forall k, 0 <= k < n * P -> src_last - k / P * P + k mod P = S (off + k)) ->
  writes_part off (n * P) (copy_reversed_pixels PixelSize P src_last (dst_row + off) (n * P)).
Proof.
  intros Ho Hn Hb Hs m Hm. destruct (pixels_of_part n Hn) as (H0 & Hd & Hq). pose proof part_lengths as (_ & _ & _ & _ & _ & Hl).
  assert (0 <= n * P < 2 ^ 64 /\ (P | n * P)) as Hrow by (split; [lia|done]).
  destruct (copy_reversed_pixels_correct P (dst_row + off) (n * P) m ltac:(lia) Hrow src_last) with (PixelSize := PixelSize)
    as (m' & E & F); [|done|].
  - rewrite Hq. intros j c k Hj Hc Hk. assert (0 <= j * P + c < n * P) as Hjc by nia. specialize (Hs (j * P + c) Hjc).
    destruct (pixel_and_byte P j c ltac:(lia) Hc) as [Hq1 Hq2]. rewrite Hq1, Hq2 in Hs.
    rewrite Hs, <- Z.add_assoc. apply sources_apart; lia.
  - exists m'. split; [done|]. eapply filled_ext; [|exact F]. intros k Hk. cbv beta. unfold reversed. rewrite Hs by done.
    apply row_source_kept; [done|lia].
Qed.

Section indexed.
Context (off count toff src : Z) (indices : list Z) (ix : Z -> Z).
Hypothesis part_ok : 0 <= off /\ 0 <= count /\ off + count * P <= row_bytes.
Hypothesis indices_ok : forall i, 0 <= i < count -> indices !! Z.to_nat (toff + i) = Some (ix i) /\ 0 <= ix i < 2 ^ 48.
Hypothesis index_sources : forall i c, 0 <= i < count -> 0 <= c < P -> src + ix i * P + c = S (off + (i * P + c)).

Let copied m i m1 : Prop := filled 1 (dst_row + off) 0 (i * P) (fun k => mem (S (off + k))) m m1.

Lemma indexed_pixel m i m1 : outside_kept dst_row row_bytes mem m -> 0 <= i < count -> copied m i m1 ->
  copied m (i + 1) (copy_contiguous_bytes (src + ix i * P) (dst_row + off + i * P) P m1).
Proof.
  destruct part_ok as (Ho & Hc & Hb). intros Hm Hi Hm1. unfold copied in *. replace ((i + 1) * P) with (i * P + P) by lia.
  assert (0 <= i * P /\ i * P + P <= count * P) as Hr by (clear - Hi pixel_ok; nia).
  assert (outside_kept dst_row row_bytes mem m1) as K1 by (apply (part_kept off (i * P) (fun k => mem (S (off + k))) m); [done|lia|done|exact Hm1]).
  eapply filled_next; [lia|lia| |exact Hm1|apply memcpy_filled; [lia|]].
  - intros k Hk. cbv beta. rewrite index_sources by lia. apply row_source_kept; [done|lia].
  - intros k k' Hk Hk'. rewrite index_sources by lia. rewrite <- !Z.add_assoc. apply sources_apart; lia.
Qed.

Lemma indexed_typed_part : writes_part off (count * P) (copy_indexed_pixels_typed P src (dst_row + off) indices toff count).
Proof.
  destruct part_ok as (Ho & Hc & Hb). intros m Hm. unfold copy_indexed_pixels_typed. apply (for_option_ind (copied m)); [done|apply filled_none|].
  intros i m1 Hi Hm1. destruct (indices_ok i Hi) as [-> _]. cbn. eexists. split; [done|]. by apply indexed_pixel.
Qed.

Lemma indexed_bytes_part : writes_part off (count * P) (copy_indexed_pixels_by_bytes p src (dst_row + off) indices toff count).
Proof.
  destruct part_ok as (Ho & Hc & Hb). pose proof part_lengths as (_ & _ & _ & _ & _ & Hl). intros m Hm. unfold copy_indexed_pixels_by_bytes.
  destruct (for_option_ind (fun i s => s.1 = i * P /\ copied m i s.2) 0 count (fun i '(dst_offset, mem) =>
      index ← indices !! Z.to_nat (toff + i);
      Some (dst_offset ⊞ P, copy_contiguous_bytes (src + index ⊠ P) (dst_row + off + dst_offset) P mem)) (0, m))
    as ([o m'] & E & _ & F); [done|split; [done|apply filled_none]| |].
  - intros i [o m1] Hi [Ho1 Hm1]. cbn [fst snd] in *. subst o. destruct (indices_ok i Hi) as [-> Hx]. cbn [mbind option_bind].
    assert (0 <= i * P /\ i * P + P <= count * P) as Hr by (clear - Hi pixel_ok; nia).
    assert (0 <= ix i * P < 2 ^ 64) as Hx2 by (clear - Hx pixel_ok; nia).
    rewrite size_add_small, size_mul_small by lia. eexists. split; [done|]. split; [cbn; lia|]. by apply indexed_pixel.
  - rewrite E. exists m'. by split.
Qed.

Lemma indexed_part : writes_part off (count * P) (copy_indexed_pixels_common PixelSize p src (dst_row + off) indices toff count).
Proof.
  assert (forall n, PixelSize = n -> 1 <= n -> P = n) as Hn by (intros; lia). unfold copy_indexed_pixels_common.
  repeat match goal with |- context [PixelSize =? ?n] => destruct (Z.eqb_spec PixelSize n) as [E|_];
    [specialize (Hn n E ltac:(lia));
     replace (copy_indexed_pixels_typed n) with (copy_indexed_pixels_typed P) by (by rewrite Hn); apply indexed_typed_part|] end.
  apply indexed_bytes_part.
Qed.
End indexed.
End row.

(** ** Rows of the strategies *)

Section strategies.
Context (PixelSize : Z) (p : AddPaddingByCopyParameters).

Local Abbreviation P := (pixel_size_ p).
Local Abbreviation W := (src_width_ p).
Local Abbreviation left := (left_padding_ p).
Local Abbreviation right := (right_padding_ p).

Hypothesis instance_ok : PixelSize = P \/ PixelSize = 0.
Hypothesis pixel_ok : 0 < P <= 32.
Hypothesis widths_ok : 0 <= W /\ 0 <= left /\ 0 <= right /\ left + W + right < 2 ^ 48.

(** Where byte [k] of a padded row comes from: a pixel of the source row, or the border value
    outside of it. *)
Definition column_source (bt : FixedBorderType) (src_row k : Z) : Z :=
  src_row + pad_index bt W (k / P - left) * P + k mod P.
Definition constant_source (src_row k : Z) : Z :=
  if (left * P <=? k) && (k <? (left + W) * P) then src_row + (k - left * P) else border_value_ p + k mod P.

Definition readable (S : Z -> Z) (dst_row : Z) : Prop :=
  forall k k', 0 <= k < row_bytes p -> 0 <= k' < row_bytes p -> S k <> dst_row + k'.

Lemma column_at bt src_row x0 k : column_source bt src_row (x0 * P + k) = src_row + pad_index bt W (x0 + k / P - left) * P + k mod P.
Proof. unfold column_source. rewrite Z.div_add_l, (Z.add_comm (x0 * P)), Z.mod_add by lia. done. Qed.

Lemma pixel_below n k : 0 <= k < n * P -> 0 <= k / P < n /\ k = k / P * P + k mod P /\ 0 <= k mod P < P.
Proof.
  intros Hk. pose proof (Z.div_mod k P ltac:(lia)). pose proof (Z.mod_pos_bound k P ltac:(lia)).
  assert (0 <= k / P < n) by (split; [apply Z.div_pos; lia|apply Z.div_lt_upper_bound; lia]). lia.
Qed.

Lemma inner_column bt src_row k : 0 <= k < W * P -> src_row + k = column_source bt src_row (left * P + k).
Proof. intros Hk. destruct (pixel_below W k Hk) as (Hx & Hs & _). rewrite column_at, pad_index_inside by lia. lia. Qed.

(** The parts that all rows share. *)
Section shared.
Context (S : Z -> Z) (src_row dst_row : Z) (mem : Z -> Z).
Hypothesis sources_ok : readable S dst_row.

Lemma inner_part : (forall k, 0 <= k < W * P -> src_row + k = S (left * P + k)) ->
  writes_part p S dst_row mem (left * P) (W * P) (fun m => Some (copy_contiguous_bytes src_row (dst_row + left * P) (W * P) m)).
Proof.
  intros Hs. pose proof (part_lengths p pixel_ok widths_ok) as (H1 & H2 & H3 & H4 & H5 & _).
  by apply memcpy_part; [exact sources_ok|lia|lia|lia|].
Qed.

Lemma left_repeated value : (forall k, 0 <= k < left * P -> value + k mod P = S k) ->
  writes_part p S dst_row mem 0 (left * P) (fill_repeated_pixel PixelSize P value dst_row (left * P)).
Proof.
  intros Hs. pose proof (part_lengths p pixel_ok widths_ok) as (H1 & H2 & H3 & H4 & H5 & _).
  rewrite <- (Z.add_0_r dst_row) at 2. apply (repeated_part PixelSize p instance_ok pixel_ok widths_ok S dst_row mem sources_ok); [lia..|].
  intros k Hk. by rewrite Hs.
Qed.

Lemma right_repeated value : (forall k, 0 <= k < right * P -> value + k mod P = S ((left + W) * P + k)) ->
  writes_part p S dst_row mem ((left + W) * P) (right * P) (fill_repeated_pixel PixelSize P value (dst_row + (left + W) * P) (right * P)).
Proof.
  intros Hs. pose proof (part_lengths p pixel_ok widths_ok) as (H1 & H2 & H3 & H4 & H5 & _).
  by apply (repeated_part PixelSize p instance_ok pixel_ok widths_ok S dst_row mem sources_ok); [lia..|].
Qed.

Lemma left_reversed src_last : (forall k, 0 <= k < left * P -> src_last - k / P * P + k mod P = S k) ->
  writes_part p S dst_row mem 0 (left * P) (copy_reversed_pixels PixelSize P src_last dst_row (left * P)).
Proof.
  intros Hs. pose proof (part_lengths p pixel_ok widths_ok) as (H1 & H2 & H3 & H4 & H5 & _).
  rewrite <- (Z.add_0_r dst_row) at 2. apply (reversed_part PixelSize p instance_ok pixel_ok widths_ok S dst_row mem sources_ok); [lia..|].
  intros k Hk. by rewrite Hs.
Qed.

Lemma right_reversed src_last : (forall k, 0 <= k < right * P -> src_last - k / P * P + k mod P = S ((left + W) * P + k)) ->
  writes_part p S dst_row mem ((left + W) * P) (right * P) (copy_reversed_pixels PixelSize P src_last (dst_row + (left + W) * P) (right * P)).
Proof.
  intros Hs. pose proof (part_lengths p pixel_ok widths_ok) as (H1 & H2 & H3 & H4 & H5 & _).
  by apply (reversed_part PixelSize p instance_ok pixel_ok widths_ok S dst_row mem sources_ok); [lia..|].
Qed.
End shared.

Ltac row_sizes := destruct (row_sizes p pixel_ok widths_ok) as (Hls & His & Hrs & Hio & Hro & Hdw).

(** A padded row from the columns of [src_row]. *)
Definition row_done (bt : FixedBorderType) (fill_row : Z -> Z -> (Z -> Z) -> option (Z -> Z)) : Prop :=
  forall src_row dst_row mem, readable (column_source bt src_row) dst_row ->
    exists mem', fill_row src_row dst_row mem = Some mem' /\ row_filled p (column_source bt src_row) dst_row mem mem'.

Lemma replicate_row : 1 <= W -> row_done REPLICATE (fill_replicate_row PixelSize p).
Proof.
  intros HW src_row dst_row mem Hs. unfold fill_replicate_row. row_sizes. rewrite Hls, His, Hrs, Hio, Hro.
  refine (parts_in_order p pixel_ok widths_ok (column_source REPLICATE src_row) dst_row mem _
    (fun m => Some (copy_contiguous_bytes src_row (dst_row + left * P) (W * P) m)) _
    (left_repeated _ _ _ Hs src_row _) (inner_part _ _ _ _ Hs (inner_column _ _)) (right_repeated _ _ _ Hs (src_row + W * P - P) _)).
  - intros k Hk. destruct (pixel_below left k Hk) as (Hx & _). unfold column_source, pad_index, border_index_periodic.
    destruct (Z.eqb_spec W 1); [lia|]. rewrite (Z.max_l 0) by lia. lia.
  - intros k Hk. destruct (pixel_below right k Hk) as (Hx & _). rewrite column_at. unfold pad_index, border_index_periodic.
    destruct (Z.eqb_spec W 1) as [E|]; [rewrite E; lia|]. rewrite Z.min_l, Z.max_r by lia. lia.
Qed.

Lemma reflect_row : 1 < W -> left <= W -> right <= W -> row_done REFLECT (fill_reflect_row PixelSize p).
Proof.
  intros HW HL HR src_row dst_row mem Hs. unfold fill_reflect_row. row_sizes. rewrite Hls, His, Hrs, Hio, Hro.
  assert (2 <= W /\ 1 <= W) as [HW2 HW1] by lia.
  refine (parts_in_order p pixel_ok widths_ok (column_source REFLECT src_row) dst_row mem _
    (fun m => Some (copy_contiguous_bytes src_row (dst_row + left * P) (W * P) m)) _
    (left_reversed _ _ _ Hs (src_row + (if left * P =? 0 then 0 else (left * P) ⊟ P)) _) (inner_part _ _ _ _ Hs (inner_column _ _))
    (right_reversed _ _ _ Hs (src_row + (if right * P =? 0 then 0 else (W * P) ⊟ P)) _)).
  - intros k Hk. destruct (pixel_below left k Hk) as (Hx & _). destruct (Z.eqb_spec (left * P) 0); [lia|].
    rewrite size_sub_small by nia. unfold column_source, pad_index, border_index_periodic. destruct (Z.eqb_spec W 1); [lia|].
    rewrite (mod_down (k / P - left) (2 * W)) by lia. case_cmp; lia.
  - intros k Hk. destruct (pixel_below right k Hk) as (Hx & _). destruct (Z.eqb_spec (right * P) 0); [lia|].
    rewrite size_sub_small by nia. rewrite column_at. unfold pad_index, border_index_periodic. destruct (Z.eqb_spec W 1); [lia|].
    rewrite (Z.mod_small (left + W + k / P - left) (2 * W)) by lia. case_cmp; lia.
Qed.

Lemma reverse_row : 1 < W -> left < W -> right < W -> row_done REVERSE (fill_reverse_row PixelSize p).
Proof.
  intros HW HL HR src_row dst_row mem Hs. unfold fill_reverse_row. row_sizes. rewrite Hls, His, Hrs, Hio, Hro.
  rewrite (size_add_small P P) by lia.
  refine (parts_in_order p pixel_ok widths_ok (column_source REVERSE src_row) dst_row mem _
    (fun m => Some (copy_contiguous_bytes src_row (dst_row + left * P) (W * P) m)) _
    (left_reversed _ _ _ Hs (src_row + (if left * P =? 0 then 0 else left * P)) _) (inner_part _ _ _ _ Hs (inner_column _ _))
    (right_reversed _ _ _ Hs (src_row + (if right * P =? 0 then 0 else (W * P) ⊟ (P + P))) _)).
  - intros k Hk. destruct (pixel_below left k Hk) as (Hx & _). destruct (Z.eqb_spec (left * P) 0); [lia|].
    unfold column_source. rewrite pad_index_near by lia. unfold border_index. case_cmp; lia.
  - intros k Hk. destruct (pixel_below right k Hk) as (Hx & _). destruct (Z.eqb_spec (right * P) 0); [lia|].
    rewrite size_sub_small by nia. rewrite column_at, pad_index_near by lia. unfold border_index. case_cmp; lia.
Qed.

Lemma wrap_row : 1 <= W -> left <= W -> right <= W -> row_done WRAP (fill_wrap_row p).
Proof.
  intros HW HL HR src_row dst_row mem Hs. unfold fill_wrap_row. row_sizes. rewrite Hls, His, Hrs, Hio, Hro.
  pose proof (part_lengths p pixel_ok widths_ok) as (H1 & H2 & H3 & H4 & H5 & _).
  assert (forall x, - W <= x < 0 -> pad_index WRAP W x = x + W) as Hdown.
  { intros x Hx. unfold pad_index, border_index_periodic. rewrite mod_down by lia. destruct (Z.eqb_spec W 1); lia. }
  assert (forall x, W <= x < 2 * W -> pad_index WRAP W x = x - W) as Hup.
  { intros x Hx. unfold pad_index, border_index_periodic. rewrite mod_up by lia. destruct (Z.eqb_spec W 1); lia. }
  assert (writes_part p (column_source WRAP src_row) dst_row mem 0 (left * P)
    (fun m => Some (copy_contiguous_bytes (src_row + W * P - left * P) dst_row (left * P) m))) as Hleft.
  { pose proof (memcpy_part p _ dst_row mem Hs 0 (left * P) (src_row + W * P - left * P)) as Hm. rewrite Z.add_0_r in Hm.
    apply Hm; [lia|lia|lia|]. intros k Hk.
    destruct (pixel_below left k Hk) as (Hx & Hk2 & _). rewrite Z.add_0_l. unfold column_source. rewrite Hdown by lia. lia. }
  assert (writes_part p (column_source WRAP src_row) dst_row mem ((left + W) * P) (right * P)
    (fun m => Some (copy_contiguous_bytes src_row (dst_row + (left + W) * P) (right * P) m))) as Hright.
  { apply memcpy_part; [exact Hs|lia|lia|lia|]. intros k Hk.
    destruct (pixel_below right k Hk) as (Hx & Hk2 & _). rewrite column_at, Hup by lia. lia. }
  exact (parts_in_order p pixel_ok widths_ok (column_source WRAP src_row) dst_row mem _ _ _ Hleft
    (inner_part _ _ _ _ Hs (inner_column _ _)) Hright).
Qed.

Lemma indexed_row bt : bt <> REPLICATE -> 1 <= W ->
  row_done bt (fill_indexed_row PixelSize p (build_horizontal_border_indices (index_function bt) left right W)).
Proof.
  intros Hbt HW src_row dst_row mem Hs. unfold fill_indexed_row. row_sizes. rewrite His, Hio, Hro.
  pose proof (part_lengths p pixel_ok widths_ok) as (H1 & H2 & H3 & H4 & H5 & _).
  set (indices := build_horizontal_border_indices (index_function bt) left right W).
  assert (writes_part p (column_source bt src_row) dst_row mem 0 (left * P)
    (copy_indexed_pixels_common PixelSize p src_row dst_row indices 0 left)) as Hleft.
  { rewrite <- (Z.add_0_r dst_row) at 2.
    apply (indexed_part PixelSize p instance_ok pixel_ok widths_ok _ _ _ Hs 0 left 0 src_row indices (fun i => pad_index bt W (i - left))); [lia| |].
    - intros i Hi. unfold indices. rewrite horizontal_indices_lookup by (done || lia). rewrite Z.add_0_l.
      destruct (Z.ltb_spec i left); [|lia]. split; [done|]. pose proof (pad_index_range bt W (i - left) HW). lia.
    - intros i c Hi Hc. rewrite Z.add_0_l. destruct (pixel_and_byte P i c ltac:(lia) Hc) as [E1 E2]. unfold column_source. rewrite E1, E2. lia. }
  assert (writes_part p (column_source bt src_row) dst_row mem ((left + W) * P) (right * P)
    (copy_indexed_pixels_common PixelSize p src_row (dst_row + (left + W) * P) indices left right)) as Hright.
  { apply (indexed_part PixelSize p instance_ok pixel_ok widths_ok _ _ _ Hs ((left + W) * P) right left src_row indices
      (fun i => pad_index bt W (W + i))); [lia| |].
    - intros i Hi. unfold indices. rewrite horizontal_indices_lookup by (done || lia).
      destruct (Z.ltb_spec (left + i) left); [lia|]. replace (W + (left + i - left)) with (W + i) by lia.
      split; [done|]. pose proof (pad_index_range bt W (W + i) HW). lia.
    - intros i c Hi Hc. rewrite column_at. destruct (pixel_and_byte P i c ltac:(lia) Hc) as [E1 E2]. rewrite E1, E2.
      replace (left + W + i - left) with (W + i) by lia. lia. }
  exact (inner_part_first p pixel_ok widths_ok (column_source bt src_row) dst_row mem _ _ _ Hleft
    (inner_part _ _ _ _ Hs (inner_column _ _)) Hright).
Qed.

(** Rows of a constant border. *)
Lemma constant_body_row src_row dst_row mem : readable (constant_source src_row) dst_row ->
  exists mem', fill_constant_body_row PixelSize p src_row dst_row mem = Some mem' /\
    row_filled p (constant_source src_row) dst_row mem mem'.
Proof.
  intros Hs. unfold fill_constant_body_row. row_sizes. rewrite Hls, His, Hrs, Hio, Hro.
  pose proof (part_lengths p pixel_ok widths_ok) as (H1 & H2 & H3 & H4 & H5 & _).
  refine (parts_in_order p pixel_ok widths_ok (constant_source src_row) dst_row mem _
    (fun m => Some (copy_contiguous_bytes src_row (dst_row + left * P) (W * P) m)) _
    (left_repeated _ _ _ Hs (border_value_ p) _) (inner_part _ _ _ _ Hs _) (right_repeated _ _ _ Hs (border_value_ p) _)).
  - intros k Hk. unfold constant_source. destruct (Z.leb_spec (left * P) k); [lia|done].
  - intros k Hk. unfold constant_source. destruct (Z.leb_spec (left * P) (left * P + k)), (Z.ltb_spec (left * P + k) ((left + W) * P)); lia || (cbn; lia).
  - intros k Hk. unfold constant_source. destruct (Z.ltb_spec ((left + W) * P + k) ((left + W) * P)); [lia|]. rewrite andb_false_r.
    by rewrite (Z.add_comm ((left + W) * P)), Z.mod_add by lia.
Qed.

Lemma constant_row dst_row mem : readable (fun k => border_value_ p + k mod P) dst_row ->
  exists mem', fill_constant_row PixelSize p dst_row mem = Some mem' /\
    row_filled p (fun k => border_value_ p + k mod P) dst_row mem mem'.
Proof.
  intros Hs. unfold fill_constant_row. row_sizes. rewrite Hdw.
  pose proof (part_lengths p pixel_ok widths_ok) as (H1 & H2 & H3 & H4 & H5 & H6).
  assert (0 <= row_bytes p < 2 ^ 64 /\ (P | row_bytes p)) as Hrow by (split; [lia|by exists (left + W + right)]).
  apply (fill_repeated_pixel_correct P dst_row (row_bytes p) mem ltac:(lia) Hrow (border_value_ p)); [|done].
  intros c k Hc Hk. assert (P <= row_bytes p) by (apply Z.divide_pos_le; [lia|apply Hrow]).
  rewrite <- (Z.mod_small c P) by lia. apply Hs; lia.
Qed.
End strategies.
