(* ===== verification/PaddingCorrect.v ===== *)
(** * Padding: stripes, calls and threads

    [process_stripe] writes the rows of its stripe and nothing else, whatever the strategy;
    so the call pads the whole image, and the threaded call of kleidicv_thread.cpp does the
    same in batches of rows. *)

From S2P Require Import Prelude CTypes Utils Border Loops ParallelBatches Elementwise VectorMemory Transfers Flip PaddingCopiers Padding PaddingRows.

Implicit Types (mem : Z -> Z).

Section image.
Context (PixelSize : Z) (p : AddPaddingByCopyParameters).

Local Abbreviation P := (pixel_size_ p).
Local Abbreviation W := (src_width_ p).
Local Abbreviation H := (src_height_ p).
Local Abbreviation top := (top_padding_ p).
Local Abbreviation bottom := (bottom_padding_ p).
Local Abbreviation left := (left_padding_ p).
Local Abbreviation right := (right_padding_ p).

Definition padded_height : Z := H + top + bottom.

(** Byte [k] of row [y] of the destination. *)
Definition padded_byte (i : Z * Z) : Prop := 0 <= i.1 < padded_height /\ 0 <= i.2 < row_bytes p.
Definition padded_address (i : Z * Z) : Z := dst_ p + i.1 * dst_stride_ p + i.2.
Definition padded_row (i : Z * Z) : Z := i.1.

Definition source_row (y : Z) : Z := src_ p + y * src_stride_ p.
Definition is_body_row (y : Z) : bool := (top <=? y) && (y <? top + H).

(** The documented meaning: where the byte comes from. *)
Definition padding_source (i : Z * Z) : Z :=
  match get_fixed_border_type (border_type_ p) with
  | Some bt => column_source p bt (source_row (pad_index bt H (i.1 - top))) i.2
  | None => if is_body_row i.1 then constant_source p (source_row (i.1 - top)) i.2 else border_value_ p + i.2 mod P
  end.

Let moved := moved padded_byte padded_address padding_source padded_row.

(** The destination has separate rows, and nothing that is read lies in it. *)
Record padding_placed : Prop := {
  pp_src : in_address_space 1 (W * P) H (src_ p, src_stride_ p);
  pp_dst : in_address_space 1 (row_bytes p) padded_height (dst_ p, dst_stride_ p);
  pp_rows : forall i j, padded_byte i -> padded_byte j -> padded_address i = padded_address j -> i.1 = j.1;
  pp_source : forall y k i, 0 <= y < H -> 0 <= k < W * P -> padded_byte i -> source_row y + k <> padded_address i;
  pp_value : forall c i, is_constant (border_type_ p) = true -> 0 <= c < P -> padded_byte i -> border_value_ p + c <> padded_address i
}.

(** The sizes that the checks leave. *)
Record padding_sizes : Prop := {
  ps_pixel : 0 < P <= 32;
  ps_width : 0 <= W /\ 0 <= left /\ 0 <= right /\ left + W + right < 2 ^ 48;
  ps_height : 0 <= H /\ 0 <= top /\ 0 <= bottom /\ padded_height < 2 ^ 48;
  ps_border : is_constant (border_type_ p) = true \/ is_Some (get_fixed_border_type (border_type_ p)) /\ 1 <= W /\ 1 <= H
}.

Hypothesis instance_ok : PixelSize = P \/ PixelSize = 0.
Hypothesis placed : padding_placed.
Hypothesis sizes : padding_sizes.

Lemma border_cases : (border_type_ p = KLEIDICV_BORDER_TYPE_CONSTANT /\ get_fixed_border_type (border_type_ p) = None) \/
  exists bt, get_fixed_border_type (border_type_ p) = Some bt /\ 1 <= W /\ 1 <= H.
Proof.
  destruct (ps_border sizes) as [Hc|([bt Hbt] & HW & HH)]; [left|right; by exists bt].
  unfold is_constant in Hc. apply bool_decide_eq_true in Hc. by rewrite Hc.
Qed.

Lemma inner_address src_row k : 0 <= k < row_bytes p -> (left * P <= k < (left + W) * P) -> constant_source p src_row k = src_row + (k - left * P).
Proof. intros Hk Hin. unfold constant_source. by rewrite (proj2 (Z.leb_le _ _)), (proj2 (Z.ltb_lt _ _)) by lia. Qed.

(** What is read is a byte of the source or of the border value. *)
Lemma source_apart i j : padded_byte i -> padded_byte j -> padding_source i <> padded_address j.
Proof.
  intros Hi Hj. pose proof (ps_pixel sizes) as HP. pose proof (Z.mod_pos_bound i.2 P ltac:(lia)) as Hm.
  unfold padding_source. destruct border_cases as [[Hc ->]|(bt & -> & HW & HH)].
  - assert (is_constant (border_type_ p) = true) as Hconst by (unfold is_constant; by rewrite bool_decide_eq_true).
    destruct (is_body_row i.1) eqn:Hb; [|by apply (pp_value placed)].
    unfold is_body_row in Hb. rewrite andb_true_iff, Z.leb_le, Z.ltb_lt in Hb.
    unfold constant_source. destruct ((_ <=? _) && _) eqn:Hin; [|by apply (pp_value placed)].
    rewrite andb_true_iff, Z.leb_le, Z.ltb_lt in Hin. apply (pp_source placed); [lia|lia|done].
  - unfold column_source. rewrite <- Z.add_assoc. pose proof (pad_index_range bt H (i.1 - top) HH).
    pose proof (pad_index_range bt W (i.2 / P - left) HW). apply (pp_source placed); [done|nia|done].
Qed.

#[local] Instance padding_independent : Independent padded_byte padded_address padding_source padded_row.
Proof.
  split; intros i j Hi Hj Heq; [by apply (pp_rows placed)|]. exfalso. by apply (source_apart i j).
Qed.

(** ** Rows *)

Lemma row_moved S y m m' : 0 <= y < padded_height -> (forall k, 0 <= k < row_bytes p -> S k = padding_source (y, k)) ->
  row_filled p S (dst_ p + y * dst_stride_ p) m m' -> moved (eq y) m m'.
Proof.
  intros Hy HS [H1 H2]. split.
  - intros [y' k] [_ Hk] He. unfold padded_row in He. cbn [fst snd] in *. subst y'. rewrite <- HS by done.
    unfold padded_address. cbn [fst snd]. rewrite <- H1 by done. f_equal. lia.
  - intros q Hq. apply H2. intros k Hk ->. apply (Hq (y, k)); [by split|done|]. unfold padded_address. cbn. lia.
Qed.

Lemma row_readable S y : 0 <= y < padded_height -> (forall k, 0 <= k < row_bytes p -> S k = padding_source (y, k)) ->
  readable p S (dst_ p + y * dst_stride_ p).
Proof. intros Hy HS k k' Hk Hk'. rewrite HS by done. by apply (source_apart (y, k) (y, k')). Qed.

(** A loop over rows whose state knows where row [y] is. *)
Lemma rows_loop {St} (at_row : Z -> St -> Prop) (memory : St -> Z -> Z) b e body s : b <= e -> at_row b s ->
  (forall y s, b <= y < e -> at_row y s -> exists s', body y s = Some s' /\ at_row (y + 1) s' /\ moved (eq y) (memory s) (memory s')) ->
  exists s', for_option b e body s = Some s' /\ at_row e s' /\ moved (range b e) (memory s) (memory s').
Proof.
  intros Hbe Hs Hbody.
  apply (for_option_ind (fun y s' => at_row y s' /\ moved (range b y) (memory s) (memory s'))); [done|split; [done|]|].
  - apply moved_none. unfold range. lia.
  - intros y s1 Hy [Hat Hm]. destruct (Hbody y s1 Hy Hat) as (s2 & -> & Hat2 & Hm2). exists s2. split; [done|]. split; [done|].
    apply (moved_join padded_byte padded_address padding_source padded_row (range b y) (eq y) _ _ (memory s1));
      [unfold range; lia|unfold range; intros; subst; lia|done|done].
Qed.

Lemma stride_product y : 0 <= y <= padded_height -> y ⊠ dst_stride_ p = y * dst_stride_ p.
Proof. intros Hy. destruct (pp_dst placed) as (H0 & H1 & _ & H2). cbn [fst snd] in *. apply size_mul_small. nia. Qed.

Lemma row_offset_product y : 0 <= y < H -> y ⊠ src_stride_ p = y * src_stride_ p.
Proof. intros Hy. destruct (pp_src placed) as (H0 & H1 & _ & H2). cbn [fst snd] in *. apply size_mul_small. nia. Qed.

(** The same source row, or none, for all rows. *)
Lemma same_row_loop_moved fill_row b e m : 0 <= b <= e -> e <= padded_height ->
  (forall y m, b <= y < e -> exists m', fill_row (dst_ p + y * dst_stride_ p) m = Some m' /\ moved (eq y) m m') ->
  exists m', option_map snd (same_row_loop p b e fill_row (first_row p b) m) = Some m' /\ moved (range b e) m m'.
Proof.
  intros Hb He Hfill. unfold same_row_loop, first_row. rewrite stride_product by lia.
  destruct (rows_loop (fun y (s : Z * (Z -> Z)) => s.1 = dst_ p + y * dst_stride_ p) snd b e (fun _ '(dst_row, mem) =>
      mem ← fill_row dst_row mem; Some (dst_row + dst_stride_ p, mem)) (dst_ p + b * dst_stride_ p, m)) as ([d m'] & -> & _ & Hm); [lia|done| |].
  - intros y [d m1] Hy Hd. cbn [fst snd] in *. subst d. destruct (Hfill y m1 Hy) as (m2 & -> & Hm2). cbn.
    eexists. split; [done|]. split; [cbn; lia|done].
  - by exists m'.
Qed.

Lemma body_row_loop_moved fill_row b e m : 0 <= b <= e -> (b < e -> top <= b /\ e <= top + H) ->
  (forall y m, b <= y < e -> exists m', fill_row (source_row (y - top)) (dst_ p + y * dst_stride_ p) m = Some m' /\ moved (eq y) m m') ->
  exists s m', body_row_loop p b e fill_row (body_src_row p b) (dst_ p + b * dst_stride_ p) m = Some (s, dst_ p + e * dst_stride_ p, m') /\
    moved (range b e) m m'.
Proof.
  intros Hb He Hfill. pose proof (ps_height sizes) as Hh. unfold body_row_loop, body_src_row.
  destruct (decide (b = e)) as [->|Hne].
  { unfold for_option. rewrite for_range_empty by lia. eexists _, _. split; [done|]. apply moved_none. unfold range. lia. }
  destruct (He ltac:(lia)) as [Htop Hend]. unfold padded_height in Hh. rewrite size_sub_small, row_offset_product by lia.
  change (src_ p + (b - top) * src_stride_ p) with (source_row (b - top)).
  destruct (rows_loop (fun y (s : Z * Z * (Z -> Z)) => s.1 = (source_row (y - top), dst_ p + y * dst_stride_ p)) snd b e
      (fun _ '(src_row, dst_row, mem) => mem ← fill_row src_row dst_row mem; Some (src_row + src_stride_ p, dst_row + dst_stride_ p, mem))
      (source_row (b - top), dst_ p + b * dst_stride_ p, m)) as ([[s d] m'] & -> & Hs & Hm); [lia|done| |].
  - intros y [[s d] m1] Hy Hd. cbn [fst snd] in *. injection Hd as -> ->. destruct (Hfill y m1 Hy) as (m2 & -> & Hm2). cbn.
    eexists. split; [done|]. split; [cbn; f_equal; unfold source_row; lia|done].
  - cbn [fst snd] in *. injection Hs as _ ->. by exists s, m'.
Qed.

(** The rows of a stripe above, in and below the source. *)
Lemma split_body_rows_spec b e : 0 <= b <= e -> e <= padded_height ->
  exists bb be, split_body_rows p b e = (bb, be) /\ b <= bb <= be /\ be <= e /\
    (bb < be -> top <= bb /\ be <= top + H) /\ (forall y, b <= y < bb -> y < top) /\ (forall y, be <= y < e -> top + H <= y).
Proof.
  intros Hb He. pose proof (ps_height sizes) as Hh. unfold split_body_rows, padded_height in *.
  rewrite size_add_small by lia. eexists _, _. split; [done|]. split_and!; intros; lia.
Qed.

Lemma ranges_join b bb be e m m1 m2 m3 : b <= bb <= be -> be <= e ->
  moved (range b bb) m m1 -> moved (range bb be) m1 m2 -> moved (range be e) m2 m3 -> moved (range b e) m m3.
Proof.
  intros H1 H2 M1 M2 M3.
  apply (moved_join padded_byte padded_address padding_source padded_row (range b be) (range be e) _ m m2); [unfold range; lia|unfold range; lia| |done].
  apply (moved_join padded_byte padded_address padding_source padded_row (range b bb) (range bb be) _ m m1); [unfold range; lia|unfold range; lia|done|done].
Qed.

(** ** Stripes *)

Section mapped.
Context (bt : FixedBorderType) (fill_row : Z -> Z -> (Z -> Z) -> option (Z -> Z)).
Hypothesis border_type : get_fixed_border_type (border_type_ p) = Some bt.
Hypothesis source_size : 1 <= W /\ 1 <= H.
Hypothesis fills : row_done p bt fill_row.

Lemma mapped_source y k : padding_source (y, k) = column_source p bt (source_row (pad_index bt H (y - top))) k.
Proof. unfold padding_source. by rewrite border_type. Qed.

Lemma mapped_row y m : 0 <= y < padded_height ->
  exists m', fill_row (source_row (pad_index bt H (y - top))) (dst_ p + y * dst_stride_ p) m = Some m' /\ moved (eq y) m m'.
Proof.
  intros Hy. destruct (fills (source_row (pad_index bt H (y - top))) (dst_ p + y * dst_stride_ p) m) as (m' & -> & Hm).
  - apply row_readable; [done|]. intros k _. by rewrite mapped_source.
  - exists m'. split; [done|]. eapply row_moved; [done| |exact Hm]. intros k _. by rewrite mapped_source.
Qed.

Lemma body_mapped_row y m : 0 <= y < padded_height -> top <= y < top + H ->
  exists m', fill_row (source_row (y - top)) (dst_ p + y * dst_stride_ p) m = Some m' /\ moved (eq y) m m'.
Proof. intros Hy Hb. destruct (mapped_row y m Hy) as (m' & E & Hm). rewrite pad_index_inside in E by lia. by exists m'. Qed.

(** Rows above or below the source, from an entry of a table each. *)
Lemma table_rows_moved (table : list Z) (entry : Z -> Z) b e m : 0 <= b <= e -> e <= padded_height ->
  (forall y, b <= y < e -> table !! Z.to_nat (entry y) = Some (pad_index bt H (y - top))) ->
  exists m', for_option b e (fun dst_y '(dst_row, mem) =>
      row ← table !! Z.to_nat (entry dst_y);
      mem ← fill_row (src_ p + row ⊠ src_stride_ p) dst_row mem; Some (dst_row + dst_stride_ p, mem)) (dst_ p + b * dst_stride_ p, m)
    = Some (dst_ p + e * dst_stride_ p, m') /\ moved (range b e) m m'.
Proof.
  intros Hb He Htable. destruct source_size as [HW HH].
  destruct (rows_loop (fun y (s : Z * (Z -> Z)) => s.1 = dst_ p + y * dst_stride_ p) snd b e (fun dst_y '(dst_row, mem) =>
      row ← table !! Z.to_nat (entry dst_y);
      mem ← fill_row (src_ p + row ⊠ src_stride_ p) dst_row mem; Some (dst_row + dst_stride_ p, mem)) (dst_ p + b * dst_stride_ p, m))
    as ([d m'] & -> & Hd & Hm); [lia|done| |].
  - intros y [d m1] Hy Hd. cbn [fst snd] in *. subst d. rewrite Htable by done. cbn [mbind option_bind].
    pose proof (pad_index_range bt H (y - top) HH). rewrite row_offset_product by done.
    destruct (mapped_row y m1 ltac:(lia)) as (m2 & E & Hm2). unfold source_row in E. rewrite E. cbn.
    eexists. split; [done|]. split; [cbn; lia|done].
  - cbn [fst snd] in *. subst d. by exists m'.
Qed.

Lemma mapped_stripe b e m : bt <> REPLICATE -> 0 <= b <= e -> e <= padded_height ->
  exists m', mapped_process_stripe p fill_row (vertical_rows p (index_function bt)) b e m = Some m' /\ moved (range b e) m m'.
Proof.
  intros Hbt Hb He. destruct source_size as [HW HH]. pose proof (ps_height sizes) as Hh. unfold mapped_process_stripe.
  destruct (split_body_rows_spec b e Hb He) as (bb & be & -> & Hbb & Hbe & Hin & Htop & Hbot).
  unfold process_vertical_mapped_stripe, vertical_rows, build_vertical_border_rows, first_row. cbn [fst snd]. unfold padded_height in *.
  rewrite stride_product by (unfold padded_height; lia).
  destruct (table_rows_moved (build_coordinate_sequence (index_function bt) top (- to_ptrdiff top) H) (fun y => y) b bb m)
    as (m1 & -> & Hm1); [lia|unfold padded_height; lia| |].
  { intros y Hy. specialize (Htop y Hy). rewrite coordinate_sequence_lookup by (done || lia). rewrite to_ptrdiff_small by lia. do 2 f_equal. lia. }
  cbn [mbind option_bind].
  assert (exists m2, (if bb <? be then
       '(_, dst_row, mem) ← body_row_loop p bb be fill_row (body_src_row p bb) (dst_ p + bb * dst_stride_ p) m1; Some (dst_row, mem)
     else Some (dst_ p + bb * dst_stride_ p, m1)) = Some (dst_ p + be * dst_stride_ p, m2) /\ moved (range bb be) m1 m2) as (m2 & E2 & Hm2).
  { destruct (Z.ltb_spec bb be) as [Hlt|Hge].
    - destruct (Hin Hlt) as [H1 H2].
      destruct (body_row_loop_moved fill_row bb be m1) as (s & m2 & -> & Hm2); [lia|done| |by exists m2].
      intros y m' Hy. apply body_mapped_row; unfold padded_height; lia.
    - assert (be = bb) as -> by lia. exists m1. split; [done|]. apply moved_none. unfold range. lia. }
  rewrite E2. cbn [mbind option_bind].
  destruct (table_rows_moved (build_coordinate_sequence (index_function bt) bottom (to_ptrdiff H) H) (fun y => y ⊟ (top ⊞ H)) be e m2)
    as (m3 & E3 & Hm3); [lia|unfold padded_height; lia| |].
  { intros y Hy. specialize (Hbot y Hy). rewrite size_add_small, size_sub_small by lia.
    rewrite coordinate_sequence_lookup by (done || lia). rewrite to_ptrdiff_small by lia. do 2 f_equal. lia. }
  rewrite E3. exists m3. split; [done|]. by apply (ranges_join b bb be e m m1 m2 m3).
Qed.
End mapped.

(** A row of the border value, or of the source between border values. *)
Section constant.
Hypothesis constant_border : border_type_ p = KLEIDICV_BORDER_TYPE_CONSTANT.

Lemma constant_padding_source y k : padding_source (y, k) =
  if is_body_row y then constant_source p (source_row (y - top)) k else border_value_ p + k mod P.
Proof. unfold padding_source. by rewrite constant_border. Qed.

Lemma border_row_moved y m : 0 <= y < padded_height -> (0 < W -> y < top \/ top + H <= y) ->
  exists m', fill_constant_row PixelSize p (dst_ p + y * dst_stride_ p) m = Some m' /\ moved (eq y) m m'.
Proof.
  intros Hy Hout.
  assert (forall k, 0 <= k < row_bytes p -> border_value_ p + k mod P = padding_source (y, k)) as HS.
  { intros k Hk. rewrite constant_padding_source. destruct (is_body_row y) eqn:Hb; [|done].
    unfold is_body_row in Hb. rewrite andb_true_iff, Z.leb_le, Z.ltb_lt in Hb. pose proof (ps_width sizes).
    assert (W = 0) as HW by lia. unfold constant_source. rewrite HW, Z.add_0_r. destruct (Z.leb_spec (left * P) k), (Z.ltb_spec k (left * P)); done || lia. }
  destruct (constant_row PixelSize p instance_ok (ps_pixel sizes) (ps_width sizes) (dst_ p + y * dst_stride_ p) m) as (m' & -> & Hm).
  - by apply row_readable.
  - exists m'. split; [done|]. by apply (row_moved _ _ _ _ Hy HS Hm).
Qed.

Lemma body_row_moved y m : 0 <= y < padded_height -> top <= y < top + H ->
  exists m', fill_constant_body_row PixelSize p (source_row (y - top)) (dst_ p + y * dst_stride_ p) m = Some m' /\ moved (eq y) m m'.
Proof.
  intros Hy Hin.
  assert (forall k, 0 <= k < row_bytes p -> constant_source p (source_row (y - top)) k = padding_source (y, k)) as HS.
  { intros k Hk. rewrite constant_padding_source. unfold is_body_row. by rewrite (proj2 (Z.leb_le _ _)), (proj2 (Z.ltb_lt _ _)) by lia. }
  destruct (constant_body_row PixelSize p instance_ok (ps_pixel sizes) (ps_width sizes) (source_row (y - top)) (dst_ p + y * dst_stride_ p) m)
    as (m' & -> & Hm).
  - by apply row_readable.
  - exists m'. split; [done|]. by apply (row_moved _ _ _ _ Hy HS Hm).
Qed.

Lemma constant_stripe b e m : 0 <= b <= e -> e <= padded_height ->
  exists m', constant_process_stripe PixelSize p b e m = Some m' /\ moved (range b e) m m'.
Proof.
  intros Hb He. unfold constant_process_stripe. pose proof (ps_height sizes) as Hh. pose proof (ps_width sizes) as Hw.
  destruct (row_sizes p (ps_pixel sizes) Hw) as (_ & -> & _). pose proof (ps_pixel sizes) as HP.
  destruct (Z.eqb_spec (W * P) 0) as [Hz|Hnz].
  { apply same_row_loop_moved; [done|done|]. intros y m' Hy. apply border_row_moved; [lia|]. nia. }
  destruct (split_body_rows_spec b e Hb He) as (bb & be & -> & Hbb & Hbe & Hin & Htop & Hbot).
  destruct (same_row_loop_moved (fill_constant_row PixelSize p) b bb m) as (m1 & E1 & Hm1); [lia|lia| |].
  { intros y m' Hy. apply border_row_moved; [lia|]. specialize (Htop y Hy). by left. }
  unfold fill_constant_rows. rewrite E1. cbn [mbind option_bind].
  destruct (body_row_loop_moved (fill_constant_body_row PixelSize p) bb be m1) as (s & m2 & E2 & Hm2); [lia|done| |].
  { intros y m' Hy. destruct (Hin ltac:(lia)). apply body_row_moved; unfold padded_height; lia. }
  unfold process_constant_body_rows, first_row. rewrite (stride_product bb) by lia. rewrite E2. cbn [option_map mbind option_bind snd].
  destruct (same_row_loop_moved (fill_constant_row PixelSize p) be e m2) as (m3 & E3 & Hm3); [lia|lia| |].
  { intros y m' Hy. apply border_row_moved; [lia|]. specialize (Hbot y Hy). by right. }
  unfold first_row in E3. rewrite E3. exists m3. split; [done|]. by apply (ranges_join b bb be e m m1 m2 m3).
Qed.
End constant.

Lemma replicate_stripe b e m : get_fixed_border_type (border_type_ p) = Some REPLICATE -> 1 <= W -> 1 <= H ->
  0 <= b <= e -> e <= padded_height ->
  exists m', replicate_process_stripe PixelSize p b e m = Some m' /\ moved (range b e) m m'.
Proof.
  intros Hbt HW HH Hb He. unfold replicate_process_stripe. pose proof (ps_height sizes) as Hh.
  pose proof (replicate_row PixelSize p instance_ok (ps_pixel sizes) (ps_width sizes) HW) as Hrow.
  pose proof (fun y m => mapped_row REPLICATE _ Hbt Hrow y m) as Hmapped.
  assert (forall r, (r <= 0 -> pad_index REPLICATE H r = 0) /\ (H <= r -> pad_index REPLICATE H r = H - 1)) as Hpad.
  { intros r. unfold pad_index, border_index_periodic. destruct (Z.eqb_spec H 1); lia. }
  destruct (split_body_rows_spec b e Hb He) as (bb & be & -> & Hbb & Hbe & Hin & Htop & Hbot).
  destruct (same_row_loop_moved (fill_replicate_row PixelSize p (src_ p)) b bb m) as (m1 & E1 & Hm1); [lia|lia| |].
  { intros y m' Hy. specialize (Htop y Hy). destruct (Hmapped y m' ltac:(lia)) as (m2 & E & Hm2).
    rewrite (proj1 (Hpad _)) in E by lia. unfold source_row in E. rewrite Z.mul_0_l, Z.add_0_r in E. by exists m2. }
  unfold fill_replicate_rows. rewrite E1. cbn [mbind option_bind].
  destruct (body_row_loop_moved (fill_replicate_row PixelSize p) bb be m1) as (s & m2 & E2 & Hm2); [lia|done| |].
  { intros y m' Hy. destruct (Hin ltac:(lia)). apply (body_mapped_row REPLICATE); try done; unfold padded_height; lia. }
  unfold process_replicate_body_rows, first_row. rewrite (stride_product bb) by lia. rewrite E2. cbn [option_map mbind option_bind snd].
  destruct (same_row_loop_moved (fill_replicate_row PixelSize p (source_row (H - 1))) be e m2) as (m3 & E3 & Hm3); [lia|lia| |].
  { intros y m' Hy. specialize (Hbot y Hy). destruct (Hmapped y m' ltac:(lia)) as (m4 & E & Hm4).
    rewrite (proj2 (Hpad _)) in E by lia. by exists m4. }
  unfold padded_height in Hh. rewrite size_sub_small, row_offset_product by lia.
  unfold first_row, source_row in E3. rewrite E3. exists m3. split; [done|]. by apply (ranges_join b bb be e m m1 m2 m3).
Qed.

(** The strategy that is chosen writes the rows of its stripe. *)
Lemma process_stripe_moved b e m : 0 <= b <= e -> e <= padded_height ->
  exists m', process_stripe PixelSize p (resolve_border_strategy W left right (border_type_ p)) b e m = Some m' /\ moved (range b e) m m'.
Proof.
  intros Hb He. pose proof (ps_pixel sizes) as HP. pose proof (ps_width sizes) as Hw.
  destruct border_cases as [[Hc _]|(bt & Hbt & HW & HH)].
  { rewrite Hc. by apply constant_stripe. }
  assert (forall bt', get_fixed_border_type (border_type_ p) = Some bt' -> bt' <> REPLICATE ->
    indexed_map p = index_function bt' -> exists m', process_stripe PixelSize p kIndexed b e m = Some m' /\ moved (range b e) m m') as Hindexed.
  { intros bt' Hbt' Hne Hmap. cbn [process_stripe]. unfold indexed_process_stripe. rewrite Hmap.
    apply (mapped_stripe bt'); try done. by apply indexed_row. }
  unfold resolve_border_strategy. unfold indexed_map in Hindexed.
  destruct (border_type_ p) eqn:Et; try done; cbn [get_fixed_border_type] in Hbt, Hindexed; injection Hbt as <-.
  - apply replicate_stripe; try done. by rewrite Et.
  - unfold can_use_reflect_fast_path. destruct (_ && _) eqn:Hf; [|by apply (Hindexed REFLECT)].
    rewrite !andb_true_iff, Z.ltb_lt, !Z.leb_le in Hf. apply (mapped_stripe REFLECT); try done; [by rewrite Et|]. apply reflect_row; done || lia.
  - unfold can_use_wrap_fast_path. destruct (_ && _) eqn:Hf; [|by apply (Hindexed WRAP)].
    rewrite !andb_true_iff, !Z.leb_le in Hf. apply (mapped_stripe WRAP); try done; [by rewrite Et|]. apply wrap_row; done || lia.
  - unfold can_use_reverse_fast_path. destruct (_ && _) eqn:Hf; [|by apply (Hindexed REVERSE)].
    rewrite !andb_true_iff, !Z.ltb_lt in Hf. apply (mapped_stripe REVERSE); try done; [by rewrite Et|]. apply reverse_row; done || lia.
Qed.
End image.

(** ** Calls *)

Section calls.
Context (p : AddPaddingByCopyParameters).

Local Abbreviation P := (pixel_size_ p).
Local Abbreviation W := (src_width_ p).
Local Abbreviation H := (src_height_ p).
Local Abbreviation top := (top_padding_ p).
Local Abbreviation bottom := (bottom_padding_ p).
Local Abbreviation left := (left_padding_ p).
Local Abbreviation right := (right_padding_ p).

Definition padded_width : Z := W + left + right.

(** A pointer and a stride that are accepted for pixels of [P] bytes. *)
Definition image_accepted (pointer stride height : Z) : Prop :=
  pointer <> 0 /\ pointer mod padding_alignment P = 0 /\ (1 < height -> stride mod padding_alignment P = 0).

Record padding_accepts : Prop := {
  pa_src_size : W * H <= KLEIDICV_MAX_IMAGE_PIXELS;
  pa_pixel : 0 < P <= 32;
  pa_border : border_type_ p = KLEIDICV_BORDER_TYPE_CONSTANT /\ border_value_ p <> 0 \/
    is_Some (get_fixed_border_type (border_type_ p)) /\ W <> 0 /\ H <> 0;
  pa_src : image_accepted (src_ p) (src_stride_ p) H;
  pa_dims : padded_width <= KLEIDICV_MAX_IMAGE_PIXELS /\ padded_height p <= KLEIDICV_MAX_IMAGE_PIXELS;
  pa_dst_size : padded_width * padded_height p <= KLEIDICV_MAX_IMAGE_PIXELS;
  pa_dst : image_accepted (dst_ p) (dst_stride_ p) (padded_height p)
}.

(** [size_t] arguments. *)
Definition padding_words : Prop := Forall is_size [W; H; top; bottom; left; right; P].

Hypothesis words : padding_words.

Lemma words_range : 0 <= W < 2 ^ 64 /\ 0 <= H < 2 ^ 64 /\ 0 <= top < 2 ^ 64 /\ 0 <= bottom < 2 ^ 64 /\ 0 <= left < 2 ^ 64 /\
  0 <= right < 2 ^ 64 /\ 0 <= P < 2 ^ 64.
Proof. pose proof words as Hw. unfold padding_words, is_size in Hw. repeat apply Forall_cons in Hw as [? Hw]. tauto. Qed.

Lemma padding_alignment_size : let n := padding_alignment P in n = 1 \/ n = 2 \/ n = 4 \/ n = 8.
Proof. cbv zeta. unfold padding_alignment. repeat destruct (_ || _); [tauto..|]. destruct (_ =? _); tauto. Qed.

Lemma image_check pointer stride height :
  add_padding_by_copy_check_pointer_and_stride pointer stride height P = KLEIDICV_OK <-> image_accepted pointer stride height.
Proof.
  unfold add_padding_by_copy_check_pointer_and_stride, image_accepted. pose proof padding_alignment_size as Hs. cbv zeta in Hs.
  rewrite guard_error_ok, check_pointer_and_stride_ok, check_pointer_alignment_ok, aligned_scalar by done.
  assert (padding_alignment P = 1 -> stride mod padding_alignment P = 0) as H1 by (intros ->; apply Z.mod_1_r).
  destruct (decide (padding_alignment P = 1)); intuition.
Qed.

Lemma flag_check (b : bool) error : error <> KLEIDICV_OK -> (if b then error else KLEIDICV_OK) = KLEIDICV_OK <-> b = false.
Proof. by destruct b. Qed.

Lemma implemented_check : (if add_padding_by_copy_is_implemented W H P (border_type_ p) then KLEIDICV_OK else KLEIDICV_ERROR_NOT_IMPLEMENTED)
    = KLEIDICV_OK <->
  0 < P <= 32 /\ (border_type_ p = KLEIDICV_BORDER_TYPE_CONSTANT \/ is_Some (get_fixed_border_type (border_type_ p)) /\ W <> 0 /\ H <> 0).
Proof.
  pose proof words_range as Hw. unfold add_padding_by_copy_is_implemented. change kMaxPixelSize with 32.
  destruct (Z.eqb_spec P 0), (Z.ltb_spec 32 P); cbn [orb]; try (split; [done|lia]).
  destruct (border_type_ p); cbn [get_fixed_border_type];
    try (split; [done|]; intros (_ & [[=]|([? [=]] & _)]));
    try (split; [intros _; split; [lia|by left]|done]);
    destruct (Z.eqb_spec W 0), (Z.eqb_spec (src_height_ p) 0); cbn [orb negb];
    (split; [intros Hd; first [discriminate Hd|split; [lia|right; split; [by eexists|done]]]|
             first [done|intros (_ & [[=]|(_ & ? & ?)]); done]]).
Qed.

Lemma value_check : (if is_constant (border_type_ p) && any_null [border_value_ p] then KLEIDICV_ERROR_NULL_POINTER else KLEIDICV_OK) = KLEIDICV_OK <->
  (border_type_ p = KLEIDICV_BORDER_TYPE_CONSTANT -> border_value_ p <> 0).
Proof.
  rewrite flag_check by done. unfold is_constant, any_null. cbn [existsb]. rewrite orb_false_r.
  case_bool_decide; destruct (Z.eqb_spec (border_value_ p) 0); cbn [andb]; intuition congruence.
Qed.

(** The range checks leave exact sums. *)
Lemma range_checks :
  (if (KLEIDICV_MAX_IMAGE_PIXELS <? W) || (KLEIDICV_MAX_IMAGE_PIXELS <? H) || (KLEIDICV_MAX_IMAGE_PIXELS <? top) ||
      (KLEIDICV_MAX_IMAGE_PIXELS <? bottom) || (KLEIDICV_MAX_IMAGE_PIXELS <? left) || (KLEIDICV_MAX_IMAGE_PIXELS <? right)
   then KLEIDICV_ERROR_RANGE else KLEIDICV_OK) = KLEIDICV_OK /\
  (if (KLEIDICV_MAX_IMAGE_PIXELS <? left ⊞ right) || (KLEIDICV_MAX_IMAGE_PIXELS <? top ⊞ bottom)
   then KLEIDICV_ERROR_RANGE else KLEIDICV_OK) = KLEIDICV_OK /\
  (if (KLEIDICV_MAX_IMAGE_PIXELS ⊟ (left ⊞ right) <? W) || (KLEIDICV_MAX_IMAGE_PIXELS ⊟ (top ⊞ bottom) <? H)
   then KLEIDICV_ERROR_RANGE else KLEIDICV_OK) = KLEIDICV_OK <->
  padded_width <= KLEIDICV_MAX_IMAGE_PIXELS /\ padded_height p <= KLEIDICV_MAX_IMAGE_PIXELS.
Proof.
  pose proof words_range as Hw. rewrite !flag_check by done. unfold KLEIDICV_MAX_IMAGE_PIXELS, padded_width, padded_height.
  change (Z.shiftl 1 48 - 1) with (2 ^ 48 - 1). rewrite !orb_false_iff, !Z.ltb_ge.
  split.
  - intros ((((((H1 & H2) & H3) & H4) & H5) & H6) & H7 & H8). rewrite !(size_add_small left), !(size_add_small top) in * by lia.
    rewrite !size_sub_small in H8 by lia. lia.
  - intros [H1 H2]. rewrite !(size_add_small left), !(size_add_small top) by lia. rewrite !size_sub_small by lia. lia.
Qed.

Lemma padded_sums : padded_width <= KLEIDICV_MAX_IMAGE_PIXELS -> padded_height p <= KLEIDICV_MAX_IMAGE_PIXELS ->
  W ⊞ (left ⊞ right) = padded_width /\ H ⊞ (top ⊞ bottom) = padded_height p.
Proof.
  pose proof words_range as Hw. unfold KLEIDICV_MAX_IMAGE_PIXELS, padded_width, padded_height.
  change (Z.shiftl 1 48 - 1) with (2 ^ 48 - 1). intros H1 H2.
  rewrite (size_add_small left), (size_add_small top) by lia. rewrite !size_add_small by lia. lia.
Qed.

Lemma accepted_sizes : padding_accepts -> padding_sizes p.
Proof.
  intros [_ HP Hb _ [Hw Hh] _ _]. pose proof words_range as Hr. unfold KLEIDICV_MAX_IMAGE_PIXELS, padded_width in *.
  change (Z.shiftl 1 48 - 1) with (2 ^ 48 - 1) in *. split; [done|lia|lia|].
  destruct Hb as [[-> _]|(Hs & HW & HH)]; [by left|right]. split; [done|lia].
Qed.

(** The checks accept exactly [padding_accepts], and return the height. *)
Lemma checks_decided :
  (padding_accepts /\ add_padding_by_copy_checks (src_ p) (src_stride_ p) (dst_ p) (dst_stride_ p) W H top bottom left right P
    (border_type_ p) (border_value_ p) = inr (padded_height p)) \/
  (~ padding_accepts /\ exists error, error <> KLEIDICV_OK /\
    add_padding_by_copy_checks (src_ p) (src_stride_ p) (dst_ p) (dst_stride_ p) W H top bottom left right P
    (border_type_ p) (border_value_ p) = inl error).
Proof.
  pose proof words_range as Hw. unfold add_padding_by_copy_checks. cbv zeta.
  match goal with |- context [match ?e with KLEIDICV_OK => _ | _ => _ end] => set (error := e) end.
  assert (error = KLEIDICV_OK <-> padding_accepts) as Hiff.
  { unfold error. rewrite !guard_error_ok, implemented_check, value_check, !image_check, check_image_size_iff by lia.
    pose proof range_checks as Hr. pose proof padded_sums as Hsum. split.
    - intros (H1 & [HP Hb] & Hs & Hv & R1 & R2 & R3 & Hd & Hi). destruct (proj1 Hr (conj R1 (conj R2 R3))) as [D1 D2].
      destruct (Hsum D1 D2) as [E1 E2]. rewrite E1, E2 in Hd. rewrite E2 in Hi.
      assert (0 <= padded_width /\ 0 <= padded_height p) as [? ?] by (unfold padded_width, padded_height; lia).
      rewrite check_image_size_iff in Hd by done. split; try done. destruct Hb as [Hb|Hb]; [left; split; [done|by apply Hv]|by right].
    - intros [H1 HP Hb Hs [D1 D2] Hd Hi]. destruct (Hsum D1 D2) as [E1 E2]. rewrite E1, E2.
      assert (0 <= padded_width /\ 0 <= padded_height p) as [? ?] by (unfold padded_width, padded_height; lia).
      rewrite check_image_size_iff by done. destruct (proj2 Hr (conj D1 D2)) as (R1 & R2 & R3).
      split; [done|]. split; [split; [done|destruct Hb as [[? _]|?]; auto]|]. split; [done|]. split; [|tauto].
      intros Hc. destruct Hb as [[_ Hb]|[[bt Hb] _]]; [done|by rewrite Hc in Hb]. }
  clearbody error. assert (error = KLEIDICV_OK \/ error <> KLEIDICV_OK) as [He|He] by (destruct error; auto).
  - left. pose proof (proj1 Hiff He) as Ha. rewrite He. split; [done|]. f_equal. by apply padded_sums; apply Ha.
  - right. split; [by intros Ha%Hiff|]. exists error. by destruct error.
Qed.

Local Abbreviation strategy := (resolve_border_strategy W left right (border_type_ p)).
Local Abbreviation PixelSize := (instance_of_pixel_size P).

Lemma instance_of_pixel_size_ok : PixelSize = P \/ PixelSize = 0.
Proof. unfold instance_of_pixel_size. case_bool_decide; auto. Qed.

(** Preparation: an error, or the operation whose stripes move rows. *)
Lemma prepared malloc sizeof_operation :
  let allocation := malloc (allocation_size sizeof_operation strategy p) in
  (~ padding_accepts /\ exists error, error <> KLEIDICV_OK /\ prepare_add_padding_by_copy malloc sizeof_operation p = inl error) \/
  (padding_accepts /\ allocation = 0 /\ prepare_add_padding_by_copy malloc sizeof_operation p = inl KLEIDICV_ERROR_ALLOCATION) \/
  (padding_accepts /\ allocation <> 0 /\ exists operation,
    prepare_add_padding_by_copy malloc sizeof_operation p = inr (padded_height p, operation) /\
    (padding_placed p -> forall b e m, 0 <= b <= e -> e <= padded_height p -> exists m', operation b e m = Some (KLEIDICV_OK, m') /\
      moved (padded_byte p) (padded_address p) (padding_source p) padded_row (range b e) m m')).
Proof.
  cbv zeta. unfold prepare_add_padding_by_copy, create_add_padding_by_copy_operation, allocate_operation.
  destruct checks_decided as [[Ha ->]|[Hna (error & He & ->)]]; [right|left; split; [done|by exists error]].
  destruct (Z.eqb_spec (malloc (allocation_size sizeof_operation strategy p)) 0) as [Hm|Hm]; [by left|right].
  split; [done|]. split; [done|]. eexists. split; [done|]. intros Hp b e m Hb Hle.
  destruct (process_stripe_moved PixelSize p instance_of_pixel_size_ok Hp (accepted_sizes Ha) b e m Hb Hle) as (m' & -> & Hmoved).
  by exists m'.
Qed.

(** The pixel of the padded image at row [y] and column [x]. *)
Definition padding_pixel (y x : Z) : Z :=
  match get_fixed_border_type (border_type_ p) with
  | Some bt => src_ p + pad_index bt H (y - top) * src_stride_ p + pad_index bt W (x - left) * P
  | None =>
      if (top <=? y) && (y <? top + H) && ((left <=? x) && (x <? left + W))
      then src_ p + (y - top) * src_stride_ p + (x - left) * P else border_value_ p
  end.

Definition padded (mem mem' : Z -> Z) : Prop :=
  (forall y x c, 0 <= y < padded_height p -> 0 <= x < padded_width -> 0 <= c < P ->
    mem' (dst_ p + y * dst_stride_ p + x * P + c) = mem (padding_pixel y x + c)) /\
  (forall q, (forall y k, 0 <= y < padded_height p -> 0 <= k < padded_width * P -> q <> dst_ p + y * dst_stride_ p + k) -> mem' q = mem q).

Lemma padded_of_moved mem mem' : padding_accepts ->
  moved (padded_byte p) (padded_address p) (padding_source p) padded_row (range 0 (padded_height p)) mem mem' -> padded mem mem'.
Proof.
  intros Ha [H1 H2]. pose proof (pa_pixel Ha) as HP. pose proof words_range as Hw.
  assert (row_bytes p = padded_width * P) as Hrow by (unfold row_bytes, padded_width; lia). split.
  - intros y x c Hy Hx Hc. assert (0 <= x * P + c < row_bytes p) as Hk by (rewrite Hrow; nia).
    specialize (H1 (y, x * P + c) (conj Hy Hk) Hy). unfold padded_address in H1. cbn [fst snd] in H1. rewrite Z.add_assoc in H1. rewrite H1.
    f_equal. destruct (pixel_and_byte P x c ltac:(lia) Hc) as [E1 E2]. unfold padding_source, padding_pixel. cbn [fst snd].
    destruct (get_fixed_border_type _) as [bt|]; [unfold column_source, source_row; by rewrite E1, E2|].
    unfold is_body_row, constant_source, source_row. destruct (_ && _); cbn [andb]; [|by rewrite E2].
    assert ((left * P <=? x * P + c) = (left <=? x)) as -> by (apply Z.b2z_inj; case_cmp; cbn; nia).
    assert ((x * P + c <? (left + W) * P) = (x <? left + W)) as -> by (apply Z.b2z_inj; case_cmp; cbn; nia).
    destruct (_ && _); [lia|by rewrite E2].
  - intros q Hq. apply H2. intros [y k] [Hy Hk] _. unfold padded_address. cbn [fst snd] in *. apply Hq; [done|by rewrite <- Hrow].
Qed.

(** What a call leaves: an error for rejected arguments or a failed allocation, and the padded
    image otherwise. *)
Definition padding_outcome (malloc : Z -> Z) (sizeof_operation : Z) mem (err : kleidicv_error_t) (mem' : Z -> Z) : Prop :=
  let allocation := malloc (allocation_size sizeof_operation strategy p) in
  (err = KLEIDICV_OK /\ padding_accepts /\ allocation <> 0 /\ padded mem mem') \/
  (err = KLEIDICV_ERROR_ALLOCATION /\ padding_accepts /\ allocation = 0 /\ mem' = mem) \/
  (err <> KLEIDICV_OK /\ ~ padding_accepts /\ mem' = mem).
End calls.

(** An image of 5 by 3 pixels of three bytes with wide borders. *)
Definition example_parameters (border_type : kleidicv_border_type_t) : AddPaddingByCopyParameters := {|
  src_ := 1000; dst_ := 5000; src_stride_ := 16; dst_stride_ := 64; src_width_ := 5; src_height_ := 3;
  top_padding_ := 7; bottom_padding_ := 2; left_padding_ := 9; right_padding_ := 4; pixel_size_ := 3;
  border_type_ := border_type; border_value_ := 900 |}.

Lemma example_words border_type : padding_words (example_parameters border_type).
Proof. unfold padding_words, is_size. cbn. repeat (constructor; [lia|]). constructor. Qed.

Lemma example_placed border_type : padding_placed (example_parameters border_type).
Proof.
  split; unfold in_address_space, padded_byte, padded_address, row_bytes, padded_height, source_row; cbn; [lia|lia|..].
  - intros [y k] [y' k']. cbn. lia.
  - intros y k [y' k'] Hy Hk [Hy' Hk']. cbn in *. lia.
  - intros c [y k] _ Hc [Hy Hk]. cbn in *. lia.
Qed.

Lemma example_accepted border_type : border_type = KLEIDICV_BORDER_TYPE_CONSTANT \/ is_Some (get_fixed_border_type border_type) ->
  padding_accepts (example_parameters border_type).
Proof.
  intros Hb. split; unfold padded_width, padded_height, image_accepted, KLEIDICV_MAX_IMAGE_PIXELS; cbn; try done; try lia.
  destruct Hb as [->|Hb]; [by left|right; by split_and!].
Qed.

(** C10: [kleidicv_add_padding_by_copy] accepts exactly the arguments of [padding_accepts] and
    reports a failed allocation; otherwise every pixel of the destination is the source pixel
    that the border type names, for paddings of any width and pixels of any size, or the
    border value, and no other byte is written.  No table is read out of bounds on the way. *)
Theorem padding_correct malloc sizeof_operation p mem : padding_words p -> padding_placed p ->
  exists err mem', add_padding_by_copy malloc sizeof_operation p mem = Some (err, mem') /\
    padding_outcome p malloc sizeof_operation mem err mem'.
Proof.
  intros Hw Hp. unfold add_padding_by_copy, padding_outcome. pose proof (words_range p Hw) as Hr.
  destruct (prepared p Hw malloc sizeof_operation) as [(Hna & error & He & ->)|[(Ha & Hm & ->)|(Ha & Hm & operation & -> & Hop)]].
  - exists error, mem. split; [done|]. by right; right.
  - exists KLEIDICV_ERROR_ALLOCATION, mem. split; [done|]. by right; left.
  - destruct (Hop Hp 0 (padded_height p) mem) as (mem' & -> & Hmoved); [unfold padded_height; lia|done|].
    exists KLEIDICV_OK, mem'. split; [done|]. left. split; [done|]. split; [done|]. split; [done|]. by apply padded_of_moved.
Qed.

Lemma padding_correct_witness :
  exists mem', add_padding_by_copy (fun _ => 8) 200 (example_parameters KLEIDICV_BORDER_TYPE_REVERSE) (fun q => q) = Some (KLEIDICV_OK, mem') /\
    mem' (5000 + 0 * 64 + 17 * 3 + 2) = 1000 + 1 * 16 + 0 * 3 + 2.
Proof.
  destruct (padding_correct (fun _ => 8) 200 (example_parameters KLEIDICV_BORDER_TYPE_REVERSE) (fun q => q) (example_words _) (example_placed _))
    as (err & mem' & Hrun & [(-> & _ & _ & Hf & _)|[(_ & _ & [=] & _)|(_ & Hna & _)]]).
  - exists mem'. split; [exact Hrun|]. exact (Hf 0 17 2 ltac:(vm_compute; split; congruence) ltac:(vm_compute; split; congruence) ltac:(vm_compute; split; congruence)).
  - exfalso. apply Hna. apply example_accepted. right. by eexists.
Defined.

(** ** Threads *)

(** [kleidicv_thread_add_padding_by_copy]: stripes of at least four rows. *)
Definition kleidicv_thread_add_padding_by_copy
    (parallel : range_callback (option (Z -> Z)) -> Z -> option (Z -> Z) -> kleidicv_error_t * option (Z -> Z))
    (malloc : Z -> Z) (sizeof_operation : Z) (p : AddPaddingByCopyParameters) mem : kleidicv_error_t * option (Z -> Z) :=
  match prepare_add_padding_by_copy malloc sizeof_operation p with
  | inl error => (error, Some mem)
  | inr (dst_height, operation) => parallel_batches parallel (item_callback operation) dst_height 4 (Some mem)
  end.

(** C15: [kleidicv_thread_add_padding_by_copy], whatever stripes the scheduler chooses and in
    whatever order they run, has the outcome of the single-threaded call. *)
Theorem threaded_padding_correct parallel malloc sizeof_operation p mem : lawful no_empty_range parallel ->
  padding_words p -> padding_placed p -> 0 < padded_height p ->
  exists err mem', kleidicv_thread_add_padding_by_copy parallel malloc sizeof_operation p mem = (err, Some mem') /\
    padding_outcome p malloc sizeof_operation mem err mem'.
Proof.
  intros Hlaw Hw Hp Hpos. unfold kleidicv_thread_add_padding_by_copy, padding_outcome.
  destruct (prepared p Hw malloc sizeof_operation) as [(Hna & error & He & ->)|[(Ha & Hm & ->)|(Ha & Hm & operation & -> & Hop)]].
  - exists error, mem. split; [done|]. by right; right.
  - exists KLEIDICV_ERROR_ALLOCATION, mem. split; [done|]. by right; left.
  - pose proof (accepted_sizes p Hw Ha) as Hsizes. pose proof (ps_height _ Hsizes) as Hh.
    pose proof (padding_independent p Hp Hsizes) as Hind.
    destruct (parallel_batches_moved (padded_byte p) (padded_address p) (padding_source p) padded_row operation (padded_height p) 4
      ltac:(lia) ltac:(lia)) with (parallel := parallel) (mem := mem) as (err & mem' & Hrun & -> & Hmoved); [|done|].
    + intros b e m Hb He. by apply (Hop Hp); lia.
    + exists KLEIDICV_OK, mem'. split; [done|]. left. split; [done|]. split; [done|]. split; [done|]. by apply padded_of_moved.
Qed.

Lemma threaded_padding_correct_witness :
  exists mem', kleidicv_thread_add_padding_by_copy reverse_serial (fun _ => 8) 200 (example_parameters KLEIDICV_BORDER_TYPE_CONSTANT) (fun q => q)
      = (KLEIDICV_OK, Some mem') /\
    mem' (5000 + 9 * 64 + 10 * 3 + 1) = 1000 + 2 * 16 + 1 * 3 + 1 /\ mem' (5000 + 11 * 64 + 17 * 3) = 900.
Proof.
  destruct (threaded_padding_correct reverse_serial (fun _ => 8) 200 (example_parameters KLEIDICV_BORDER_TYPE_CONSTANT) (fun q => q))
    as (err & mem' & Hrun & [(-> & _ & _ & Hf & _)|[(_ & _ & [=] & _)|(_ & Hna & _)]]).
  - apply reverse_serial_lawful.
  - apply example_words.
  - apply example_placed.
  - done.
  - exists mem'. split; [exact Hrun|]. split.
    + exact (Hf 9 10 1 ltac:(vm_compute; split; congruence) ltac:(vm_compute; split; congruence) ltac:(vm_compute; split; congruence)).
    + exact (Hf 11 17 0 ltac:(vm_compute; split; congruence) ltac:(vm_compute; split; congruence) ltac:(vm_compute; split; congruence)).
  - exfalso. apply Hna. apply example_accepted. by left.
Defined.

(** ** Tables *)

(** The tables that the constructor of an operation generates. *)
Definition strategy_map (p : AddPaddingByCopyParameters) (strategy : AddPaddingByCopyBorderStrategy) : option (Z -> Z -> Z) :=
  match strategy with
  | kConstant | kReplicate => None
  | kWrapFast => Some wrap_index
  | kReflectFast => Some reflect_index
  | kReverseFast => Some reverse_index
  | kIndexed => Some (indexed_map p)
  end.

Definition generated_rows (p : AddPaddingByCopyParameters) (strategy : AddPaddingByCopyBorderStrategy) : list Z :=
  match strategy_map p strategy with None => [] | Some MapIndex => (vertical_rows p MapIndex).1 ++ (vertical_rows p MapIndex).2 end.
Definition generated_columns (p : AddPaddingByCopyParameters) (strategy : AddPaddingByCopyBorderStrategy) : list Z :=
  match strategy with
  | kIndexed => build_horizontal_border_indices (indexed_map p) (left_padding_ p) (right_padding_ p) (src_width_ p)
  | _ => []
  end.

Lemma length_coordinate_sequence MapIndex count start n : length (build_coordinate_sequence MapIndex count start n) = Z.to_nat count.
Proof. unfold build_coordinate_sequence. by rewrite length_map, length_seqZ. Qed.

Lemma coordinate_sequence_bounds bt count start n : bt <> REPLICATE -> 1 <= n < 2 ^ 62 ->
  Forall (fun i => 0 <= i < n) (build_coordinate_sequence (index_function bt) count start n).
Proof.
  intros Hbt Hn. apply Forall_map, Forall_forall. intros i _. cbn. rewrite index_function_correct by done. apply pad_index_range. lia.
Qed.

(** The strategies with tables use the index function of the border type. *)
Lemma strategy_map_cases p : padding_accepts p ->
  let strategy := resolve_border_strategy (src_width_ p) (left_padding_ p) (right_padding_ p) (border_type_ p) in
  strategy_map p strategy = None /\ (strategy = kConstant \/ strategy = kReplicate) \/
  exists bt, bt <> REPLICATE /\ strategy_map p strategy = Some (index_function bt) /\ (strategy = kIndexed -> indexed_map p = index_function bt) /\
    src_width_ p <> 0 /\ src_height_ p <> 0.
Proof.
  intros Ha. cbv zeta. pose proof (pa_border p Ha) as Hb. unfold resolve_border_strategy, indexed_map, strategy_map, indexed_map.
  destruct (border_type_ p);
    [by left; auto|by left; auto| | | |by destruct Hb as [[[=] _]|[[? [=]] _]]..]; destruct Hb as [[[=] _]|(_ & HW & HH)]; right;
    [exists REFLECT; destruct (can_use_reflect_fast_path _ _ _)|exists WRAP; destruct (can_use_wrap_fast_path _ _ _)
    |exists REVERSE; destruct (can_use_reverse_fast_path _ _ _)]; by split_and!.
Qed.

(** C17: The block that an operation allocates has room for its object and for exactly the
    tables it generates, without overflow of the size; every entry of a table is a row or a
    column of the source. *)
Theorem padding_tables_in_bounds p sizeof_operation : padding_words p -> padding_accepts p -> 0 <= sizeof_operation < 2 ^ 32 ->
  let strategy := resolve_border_strategy (src_width_ p) (left_padding_ p) (right_padding_ p) (border_type_ p) in
  let words := Z.of_nat (length (generated_columns p strategy) + length (generated_rows p strategy)) in
  allocation_size sizeof_operation strategy p = align_up sizeof_operation 8 + 8 * words /\
  sizeof_operation <= align_up sizeof_operation 8 /\ allocation_size sizeof_operation strategy p < 2 ^ 64 /\
  storage_word_count p strategy = words /\
  Forall (fun row => 0 <= row < src_height_ p) (generated_rows p strategy) /\
  Forall (fun column => 0 <= column < src_width_ p) (generated_columns p strategy).
Proof.
  intros Hw Ha Hs strategy words.
  pose proof (words_range p Hw) as Hr. pose proof (accepted_sizes p Hw Ha) as [HP Hwidth Hheight _]. unfold padded_height in Hheight.
  pose proof (strategy_map_cases p Ha) as Hcases. cbv zeta in Hcases. fold strategy in Hcases.
  assert (storage_word_count p strategy = words /\ words < 2 ^ 49) as [Hcount Hsmall].
  { unfold words, generated_columns, generated_rows, storage_word_count.
    destruct Hcases as [[Hmap [E|E]]|(bt & Hbt & Hmap & Hi & HW & HH)]; rewrite Hmap, ?E; try done.
    unfold vertical_rows, build_vertical_border_rows, build_horizontal_border_indices. cbn [fst snd].
    rewrite (size_add_small (left_padding_ p)), (size_add_small (top_padding_ p)), (size_add_small (_ + _) (top_padding_ p)),
      (size_add_small _ (bottom_padding_ p)) by lia.
    destruct strategy; try done; cbn [length]; rewrite !length_app, !length_coordinate_sequence; lia. }
  destruct (align_up_least sizeof_operation 3) as (Hal & _); [lia..|]. change (2 ^ 3) with 8 in Hal.
  assert (allocation_size sizeof_operation strategy p = align_up sizeof_operation 8 + 8 * words) as Halloc.
  { unfold allocation_size. rewrite Hcount. assert (0 <= words) by (unfold words; lia). clearbody words.
    rewrite size_mul_small, size_add_small by lia. lia. }
  clearbody words. split; [done|]. split; [lia|]. split; [lia|]. split; [done|].
  destruct Hcases as [[Hmap Hnone]|(bt & Hbt & Hmap & Hi & HW & HH)].
  - unfold generated_rows, generated_columns. rewrite Hmap. split; [done|]. by destruct Hnone as [-> | ->].
  - unfold generated_rows, generated_columns. rewrite Hmap. unfold vertical_rows, build_vertical_border_rows. cbn [fst snd]. split.
    + apply Forall_app; split; apply coordinate_sequence_bounds; done || lia.
    + destruct strategy; try done. rewrite Hi by done. unfold build_horizontal_border_indices.
      apply Forall_app; split; apply coordinate_sequence_bounds; done || lia.
Qed.

Lemma padding_tables_in_bounds_witness :
  allocation_size 200 kIndexed (example_parameters KLEIDICV_BORDER_TYPE_WRAP) = 200 + 8 * 22 /\
  Forall (fun column => 0 <= column < 5) (generated_columns (example_parameters KLEIDICV_BORDER_TYPE_WRAP) kIndexed).
Proof.
  destruct (padding_tables_in_bounds (example_parameters KLEIDICV_BORDER_TYPE_WRAP) 200 (example_words _)
    (example_accepted KLEIDICV_BORDER_TYPE_WRAP ltac:(right; by eexists)) ltac:(lia)) as (Ha & _ & _ & _ & _ & Hc).
  split; [exact Ha|exact Hc].
Defined.
