(* ===== verification/Histograms.v ===== *)
(** * Medians by histograms

    The median filters for bytes with large windows count the values of a window in a fine
    histogram (one counter for each value) and a coarse one (one counter for 16 values), and
    search the median in two phases.  This file relates counters, windows and medians;
    SmallHist and LargeHist model the two filters.  [get_physical_index] is
    median_blur_border_handling.h. *)

From S2P Require Import Prelude CTypes Border Filter2D Network MedianNetworks.

Definition get_physical_index (index limit : Z) (border_type : FixedBorderType) : Z :=
  let signed_limit := to_ptrdiff limit in
  if (0 <=? index) && (index <? signed_limit) then index
  else
    match border_type with
    | REFLECT => if index <? 0 then - index - 1 else 2 * signed_limit - index - 1
    | WRAP => if index <? 0 then signed_limit + index else index - signed_limit
    | REVERSE => if index <? 0 then Z.min (- index) (signed_limit - 1) else 2 * signed_limit - index - 2
    | REPLICATE => Z.max 0 (Z.min index (signed_limit - 1))
    end.

Lemma get_physical_index_reference index limit bt : 1 <= limit < 2 ^ 63 -> - limit < index ->
  get_physical_index index limit bt = border_index bt limit index.
Proof.
  intros Hl Hi. unfold get_physical_index, border_index. rewrite to_ptrdiff_small by lia.
  destruct bt; case_cmp; cbn [andb]; lia.
Qed.

(** ** Sums *)

(** The sum of [f i] for [0 <= i < n]. *)
Definition total (n : Z) (f : Z -> Z) : Z := for_range 0 n (fun i s => s + f i) 0.

Lemma total_none f n : n <= 0 -> total n f = 0.
Proof. intros. unfold total. by rewrite for_range_empty by lia. Qed.

Lemma total_last f n : 0 <= n -> total (n + 1) f = total n f + f n.
Proof. intros. unfold total. rewrite for_range_last by lia. do 2 f_equal; lia. Qed.

(** Induction on the number of terms. *)
Lemma total_ind (P : Z -> Prop) : (forall n, n <= 0 -> P n) -> (forall n, 0 <= n -> P n -> P (n + 1)) -> forall n, P n.
Proof.
  intros H0 HS n. destruct (Z.leb_spec 0 n); [|apply H0; lia].
  revert n H. refine (natlike_ind P _ _); [by apply H0|]. intros n Hn. by apply HS.
Qed.

Lemma total_ext f g n : (forall i, 0 <= i < n -> f i = g i) -> total n f = total n g.
Proof. intros H. apply for_range_ext. intros i s Hi. by rewrite H. Qed.

Lemma total_add f g n : total n (fun i => f i + g i) = total n f + total n g.
Proof.
  revert n. apply total_ind; [intros; by rewrite !total_none by done|].
  intros n Hn IH. rewrite !total_last, IH by done. cbv beta. lia.
Qed.

Lemma total_scale k f n : total n (fun i => k * f i) = k * total n f.
Proof.
  revert n. apply total_ind; [intros; rewrite !total_none by done; lia|].
  intros n Hn IH. rewrite !total_last, IH by done. cbv beta. lia.
Qed.

Lemma total_const k n : 0 <= n -> total n (fun _ => k) = n * k.
Proof.
  revert n. apply (total_ind (fun n => 0 <= n -> total n (fun _ => k) = n * k)).
  - intros n Hn Hn'. rewrite total_none by done. assert (n = 0) as -> by lia. lia.
  - intros n Hn IH _. rewrite total_last, IH by done. cbv beta. lia.
Qed.

Lemma total_swap n m (f : Z -> Z -> Z) : total n (fun i => total m (f i)) = total m (fun j => total n (fun i => f i j)).
Proof.
  revert n. apply total_ind.
  - intros n Hn. rewrite total_none by done. rewrite (total_ext _ (fun _ => 0) m)
      by (intros; by apply total_none). destruct (Z.leb_spec 0 m); [rewrite total_const by lia; lia|by rewrite total_none by lia].
  - intros n Hn IH. rewrite total_last, IH by done. rewrite <- total_add. apply total_ext.
    intros j Hj. by rewrite total_last by done.
Qed.

Lemma total_split f n m : 0 <= n -> 0 <= m -> total (n + m) f = total n f + total m (fun i => f (n + i)).
Proof.
  intros Hn. revert m. refine (natlike_ind _ _ _).
  - rewrite Z.add_0_r, (total_none _ 0) by done. lia.
  - intros m Hm IH. rewrite Z.add_succ_r, <- Z.add_1_r, total_last, IH, <- (Z.add_1_r m), total_last by lia. lia.
Qed.

Lemma total_one f : total 1 f = f 0.
Proof. change 1 with (0 + 1). rewrite (total_last f 0), total_none by lia. lia. Qed.

(** A window of [n] terms that slides by one. *)
Lemma total_slide f n : 0 <= n -> total n (fun i => f (1 + i)) = total n f + f n - f 0.
Proof.
  intros Hn. pose proof (total_last f n Hn) as H1. rewrite Z.add_comm, total_split, total_one in H1 by lia. lia.
Qed.

Lemma total_bounds f n lo hi : 0 <= n -> (forall i, 0 <= i < n -> lo <= f i <= hi) -> n * lo <= total n f <= n * hi.
Proof.
  revert n. apply (total_ind (fun n => 0 <= n -> (forall i, 0 <= i < n -> lo <= f i <= hi) -> n * lo <= total n f <= n * hi)).
  - intros n Hn Hn' _. rewrite total_none by done. assert (n = 0) as -> by lia. lia.
  - intros n Hn IH _ Hf. rewrite total_last by done. specialize (IH Hn ltac:(intros; apply Hf; lia)).
    pose proof (Hf n ltac:(lia)). nia.
Qed.

Lemma total_nonneg f n : (forall i, 0 <= i < n -> 0 <= f i) -> 0 <= total n f.
Proof.
  revert n. apply (total_ind (fun n => (forall i, 0 <= i < n -> 0 <= f i) -> 0 <= total n f)).
  - intros n Hn _. by rewrite total_none.
  - intros n Hn IH Hf. rewrite total_last by done. pose proof (Hf n ltac:(lia)).
    specialize (IH ltac:(intros; apply Hf; lia)). lia.
Qed.

Lemma total_monotone f n m : 0 <= n <= m -> (forall i, n <= i < m -> 0 <= f i) -> total n f <= total m f.
Proof.
  intros Hn Hf. replace m with (n + (m - n)) by lia. rewrite total_split by lia.
  pose proof (total_nonneg (fun i => f (n + i)) (m - n) ltac:(intros; apply Hf; lia)). lia.
Qed.

(** ** Counting the values of a window *)

Definition bit (b : bool) : Z := if b then 1 else 0.

(** How often [v] occurs in the window of [K] rows and [K] columns. *)
Definition occurrences (K : Z) (window : Z -> Z -> Z) (v : Z) : Z :=
  total K (fun r => total K (fun q => bit (window r q =? v))).

(** The window as the list of its rows. *)
Definition window_list (K : Z) (window : Z -> Z -> Z) : list Z :=
  flat_map (fun r => map (window r) (seqZ 0 K)) (seqZ 0 K).

Lemma seqZ_last n : 0 <= n -> seqZ 0 (n + 1) = seqZ 0 n ++ [n].
Proof. intros. rewrite seqZ_app by lia. rewrite (seqZ_cons (0 + n) 1), (seqZ_nil _ (Z.pred 1)) by lia. done. Qed.

Lemma weight_total (f : Z -> bool) n : Z.of_nat (weight (map f (seqZ 0 n))) = total n (fun i => bit (f i)).
Proof.
  revert n. apply total_ind.
  - intros n Hn. by rewrite (seqZ_nil 0 n), total_none by done.
  - intros n Hn IH. rewrite seqZ_last, map_app, weight_app, Nat2Z.inj_add, IH, total_last by lia.
    f_equal. simpl. by destruct (f n).
Qed.

Lemma weight_window (f : Z -> bool) K window n :
  Z.of_nat (weight (map f (flat_map (fun r => map (window r) (seqZ 0 K)) (seqZ 0 n)))) =
  total n (fun r => total K (fun q => bit (f (window r q)))).
Proof.
  revert n. apply total_ind.
  - intros n Hn. by rewrite (seqZ_nil 0 n), total_none by done.
  - intros n Hn IH. rewrite seqZ_last, flat_map_app, map_app, weight_app, Nat2Z.inj_add, IH, total_last by lia.
    f_equal. simpl.
    by rewrite app_nil_r, map_map, weight_total.
Qed.

Lemma length_window_list K window : length (window_list K window) = (Z.to_nat K * Z.to_nat K)%nat.
Proof.
  unfold window_list. rewrite (length_flat_map_const _ _ (Z.to_nat K)) by (intros; by rewrite length_map, length_seqZ).
  by rewrite length_seqZ.
Qed.

(** A value between 0 and [n] is counted once below [n]. *)
Lemma total_indicator x n : 0 <= x -> total n (fun v => bit (x =? v)) = bit (x <? n).
Proof.
  intros Hx. revert n. apply total_ind.
  - intros n Hn. rewrite total_none by done. destruct (Z.ltb_spec x n); [lia|done].
  - intros n Hn IH. rewrite total_last, IH by done. destruct (Z.eqb_spec x n), (Z.ltb_spec x n), (Z.ltb_spec x (n + 1)); simpl; lia.
Qed.

Section window.
Context (K : Z) (window : Z -> Z -> Z).
Hypothesis HK : 0 <= K.
Hypothesis bytes : forall r q, 0 <= r < K -> 0 <= q < K -> 0 <= window r q < 256.

Local Abbreviation count := (occurrences K window).

Lemma occurrences_range v : 0 <= count v <= K * K.
Proof.
  unfold occurrences. pose proof (total_bounds (fun r => total K (fun q => bit (window r q =? v))) K 0 K HK) as H.
  rewrite Z.mul_0_r in H. apply H. intros r Hr.
  pose proof (total_bounds (fun q => bit (window r q =? v)) K 0 1 HK) as Hq.
  rewrite Z.mul_0_r, Z.mul_1_r in Hq. apply Hq. intros q Hqq. destruct (_ =? _); simpl; lia.
Qed.

(** The values below [n]. *)
Lemma occurrences_below n : total n count = total K (fun r => total K (fun q => bit (window r q <? n))).
Proof.
  unfold occurrences. rewrite total_swap. apply total_ext. intros r Hr. rewrite total_swap.
  apply total_ext. intros q Hq. apply total_indicator. by apply bytes.
Qed.

Lemma occurrences_all : total 256 count = K * K.
Proof.
  rewrite occurrences_below. rewrite (total_ext _ (fun _ => K)); [by apply total_const|].
  intros r Hr. rewrite (total_ext _ (fun _ => 1)); [rewrite total_const by done; lia|].
  intros q Hq. pose proof (bytes r q Hr Hq). destruct (Z.ltb_spec (window r q) 256); [done|lia].
Qed.

(** The values from [n] on. *)
Lemma occurrences_from n :
  total K (fun r => total K (fun q => bit (n <=? window r q))) = K * K - total n count.
Proof.
  rewrite occurrences_below.
  enough (total K (fun r => total K (fun q => bit (n <=? window r q))) +
    total K (fun r => total K (fun q => bit (window r q <? n))) = K * K) by lia.
  rewrite <- total_add, (total_ext _ (fun _ => K)); [by apply total_const|].
  intros r Hr. rewrite <- total_add, (total_ext _ (fun _ => 1)); [rewrite total_const by done; lia|].
  intros q Hq. rewrite Z.leb_antisym. by destruct (window r q <? n).
Qed.

(** The first value at which the cumulative count exceeds half of the window is its median. *)
Lemma median_of_occurrences m : 1 <= K -> Z.Odd K ->
  total m count <= K * K / 2 < total (m + 1) count -> median (window_list K window) = m.
Proof.
  intros HK1 Hodd [Hlo Hhi]. assert (Z.Odd (K * K)) as [h Hh].
  { apply Z.odd_spec. rewrite Z.odd_mul. by apply Z.odd_spec in Hodd as ->. }
  assert (K * K / 2 = h) as Hd by (rewrite Hh; mod_lia). rewrite Hd in *. assert (0 <= h) as Hh0 by nia.
  assert (window_list K window <> []) as Hne.
  { intros E. apply (f_equal length) in E. rewrite length_window_list in E. simpl in E. nia. }
  assert (forall t, (t <=? median (window_list K window)) = (h <? K * K - total t count)) as Hthr.
  { intros t. rewrite median_threshold by done. unfold majority. rewrite length_map, length_window_list.
    rewrite <- (occurrences_from t), <- weight_window. fold (window_list K window).
    set (w := weight _). assert ((Z.to_nat K * Z.to_nat K)%nat = Z.to_nat (K * K)) as -> by lia. rewrite Hh.
    assert (Z.to_nat (2 * h + 1) / 2 = Z.to_nat h)%nat as ->.
    { replace (Z.to_nat (2 * h + 1)) with (1 + Z.to_nat h * 2)%nat by lia. rewrite Nat.div_add by lia. done. }
    destruct (Nat.leb_spec (Z.to_nat (2 * h + 1) - Z.to_nat h) w), (Z.ltb_spec h (Z.of_nat w)); lia. }
  pose proof (Hthr m) as H1. pose proof (Hthr (m + 1)) as H2.
  destruct (Z.ltb_spec h (K * K - total m count)); [|lia]. destruct (Z.ltb_spec h (K * K - total (m + 1) count)); [lia|].
  apply Z.leb_le in H1. apply Z.leb_gt in H2. lia.
Qed.
End window.

(** ** Counters *)

(** The count of each block of 16 values. *)
Definition blocks (c : Z -> Z) (b : Z) : Z := total 16 (fun j => c (16 * b + j)).

Lemma blocks_below c n : 0 <= n -> total n (blocks c) = total (16 * n) c.
Proof.
  revert n. refine (natlike_ind _ _ _); [by rewrite !total_none by lia|].
  intros n Hn IH. rewrite <- Z.add_1_r, total_last, IH by lia.
  replace (16 * (n + 1)) with (16 * n + 16) by lia. by rewrite total_split by lia.
Qed.

Lemma blocks_indicator x b : 0 <= x -> blocks (fun v => bit (x =? v)) b = bit (x / 16 =? b).
Proof.
  intros Hx. unfold blocks. rewrite (total_ext _ (fun j => bit (x - 16 * b =? j))).
  2: { intros j _. f_equal. destruct (Z.eqb_spec x (16 * b + j)), (Z.eqb_spec (x - 16 * b) j); lia. }
  destruct (Z.leb_spec 0 (x - 16 * b)).
  - rewrite total_indicator by done. f_equal.
    destruct (Z.ltb_spec (x - 16 * b) 16), (Z.eqb_spec (x / 16) b); mod_lia.
  - rewrite (total_ext _ (fun _ => 0)), total_const by (lia || (intros j Hj; destruct (Z.eqb_spec (x - 16 * b) j); [lia|done])).
    destruct (Z.eqb_spec (x / 16) b); [mod_lia|done].
Qed.

(** [fine] and [coarse] hold the counts [c] of the values, modulo [M]. *)
Record counts (M : Z) (fine coarse : Z -> Z) (c : Z -> Z) : Prop := {
  counts_fine : forall v, 0 <= v < 256 -> fine v = c v mod M;
  counts_coarse : forall b, 0 <= b < 16 -> coarse b = blocks c b mod M
}.

Lemma counts_ext M fine coarse c d : (forall v, 0 <= v < 256 -> c v = d v) -> counts M fine coarse c -> counts M fine coarse d.
Proof.
  intros H [Hf Hc]. split; [intros; by rewrite <- H, Hf|]. intros b Hb. rewrite Hc by done. f_equal.
  apply total_ext. intros j Hj. apply H. lia.
Qed.

Lemma counts_zero M fine coarse : (forall v, 0 <= v < 256 -> fine v = 0) -> (forall b, 0 <= b < 16 -> coarse b = 0) ->
  counts M fine coarse (fun _ => 0).
Proof. intros Hf Hc. split; intros; [rewrite Hf by done|rewrite Hc by done]; by rewrite Zmod_0_l. Qed.

(** Counters that change by [d] and its blocks count [c + d]. *)
Lemma counts_change M fine coarse fine' coarse' c d : counts M fine coarse c ->
  (forall v, 0 <= v < 256 -> fine' v = (fine v + d v) mod M) ->
  (forall b, 0 <= b < 16 -> coarse' b = (coarse b + blocks d b) mod M) ->
  counts M fine' coarse' (fun v => c v + d v).
Proof.
  intros [Hf Hc] Hf' Hc'. split.
  - intros v Hv. by rewrite Hf', Hf, Zplus_mod_idemp_l by done.
  - intros b Hb. rewrite Hc', Hc, Zplus_mod_idemp_l by done. unfold blocks. by rewrite total_add.
Qed.

(** A loop whose iterations change the counts by [delta i]. *)
Lemma counting_loop {S A} (R : S -> (A -> Z) -> Prop) (body : Z -> S -> S) (delta : Z -> A -> Z) n s c :
  (forall s c d, (forall a, c a = d a) -> R s c -> R s d) -> 0 <= n ->
  (forall i s c, 0 <= i < n -> R s c -> R (body i s) (fun a => c a + delta i a)) ->
  R s c -> R (for_range 0 n body s) (fun a => c a + total n (fun i => delta i a)).
Proof.
  intros Hext Hn Hstep Hs. apply (for_range_ind (fun k s => R s (fun a => c a + total k (fun i => delta i a)))); [done| |].
  - eapply Hext; [|exact Hs]. intros a. cbn beta. rewrite total_none by lia. lia.
  - intros i t Hi Ht. eapply Hext; [|apply Hstep; [lia|exact Ht]]. intros a. cbn beta. rewrite total_last by lia. lia.
Qed.

(** [a[i] += k] for a counter modulo [M]. *)
Definition bump (M k : Z) (a : Z -> Z) (i : Z) : Z -> Z := upd a i ((a i + k) mod M).

Lemma bump_value M k a p i x : a i = x mod M -> bump M k a p i = (x + k * bit (p =? i)) mod M.
Proof.
  intros Ha. unfold bump, upd. destruct (decide (i = p)) as [->|Hne].
  - rewrite Z.eqb_refl, Ha, Zplus_mod_idemp_l. simpl. by rewrite Z.mul_1_r.
  - destruct (Z.eqb_spec p i); [congruence|]. simpl. by rewrite Z.mul_0_r, Z.add_0_r.
Qed.

Lemma blocks_scale k d b : blocks (fun v => k * d v) b = k * blocks d b.
Proof. apply total_scale. Qed.

(** Counting [x] by [k]. *)
Lemma counts_bump M k fine coarse c x : 0 <= x < 256 -> counts M fine coarse c ->
  counts M (bump M k fine x) (bump M k coarse (x / 16)) (fun v => c v + k * bit (x =? v)).
Proof.
  intros Hx [Hf Hc]. split.
  - intros v Hv. apply bump_value, Hf, Hv.
  - intros b Hb. rewrite (bump_value _ _ _ _ _ _ (Hc b Hb)). f_equal.
    assert (blocks (fun v => c v + k * bit (x =? v)) b = blocks c b + blocks (fun v => k * bit (x =? v)) b) as ->
      by apply total_add. by rewrite blocks_scale, blocks_indicator by lia.
Qed.

(** Without overflow the counters are the counts. *)
Section exact.
Context (M K : Z) (window : Z -> Z -> Z) (fine coarse : Z -> Z).
Hypothesis HK : 0 <= K.
Hypothesis bytes : forall r q, 0 <= r < K -> 0 <= q < K -> 0 <= window r q < 256.
Hypothesis small : K * K < M.
Hypothesis held : counts M fine coarse (occurrences K window).

Local Abbreviation count := (occurrences K window).

Lemma below_range n : 0 <= n <= 256 -> 0 <= total n count <= K * K.
Proof.
  intros Hn. rewrite <- (occurrences_all K window HK bytes). split.
  - apply total_nonneg. intros. by apply occurrences_range.
  - apply total_monotone; [lia|]. intros. by apply occurrences_range.
Qed.

Lemma below_monotone n m : 0 <= n <= m -> total n count <= total m count.
Proof. intros H. apply total_monotone; [done|]. intros. by apply occurrences_range. Qed.

Lemma fine_exact v : 0 <= v < 256 -> fine v = count v.
Proof.
  intros Hv. rewrite (counts_fine _ _ _ _ held v Hv). apply Z.mod_small.
  pose proof (occurrences_range K window HK v). lia.
Qed.

Lemma coarse_exact b : 0 <= b < 16 -> coarse b = blocks count b.
Proof.
  intros Hb. rewrite (counts_coarse _ _ _ _ held b Hb). apply Z.mod_small.
  pose proof (blocks_below count (b + 1) ltac:(lia)) as H1. rewrite total_last, blocks_below in H1 by lia.
  pose proof (below_range (16 * b) ltac:(lia)). pose proof (below_range (16 * (b + 1)) ltac:(lia)).
  pose proof (below_monotone (16 * b) (16 * (b + 1)) ltac:(lia)). lia.
Qed.
End exact.

(** ** Windows of an image that slide downwards *)

Section sliding.
Context (K : Z) (rows : Z -> Z -> Z).

(** The window whose first row is [y]. *)
Definition window_at (y r q : Z) : Z := rows (y + r) q.

Lemma occurrences_slide y v : 0 <= K ->
  occurrences K (window_at (y + 1)) v =
  occurrences K (window_at y) v + total K (fun q => bit (rows (y + K) q =? v) - bit (rows y q =? v)).
Proof.
  intros HK. unfold occurrences, window_at.
  pose proof (total_slide (fun r => total K (fun q => bit (rows (y + r) q =? v))) K HK) as H.
  cbv beta in H. rewrite Z.add_0_r in H. rewrite (total_ext _ (fun r => total K (fun q => bit (rows (y + (1 + r)) q =? v)))), H.
  2: { intros r _. apply total_ext. intros q _. do 3 f_equal. lia. }
  pose proof (total_add (fun q => bit (rows (y + K) q =? v) - bit (rows y q =? v)) (fun q => bit (rows y q =? v)) K) as H2.
  rewrite (total_ext _ (fun q => bit (rows (y + K) q =? v))) in H2 by (intros; lia). lia.
Qed.
End sliding.

(** ** Windows of an image *)

Section image.
Context (K channels width height : Z) (border_type : FixedBorderType) (src : Z * Z -> Z).

(** The row [j] of the windows of element [e], before the borders are applied to [j]. *)
Definition column_rows (e j q : Z) : Z :=
  src (border_index border_type height j, border_index border_type width (e / channels + q - K / 2) * channels + e mod channels).

(** The window of element [e] of row [y]. *)
Definition pixel_window (y e : Z) : Z -> Z -> Z := window_at (column_rows e) (y - K / 2).

Definition window_median (y e : Z) : Z := median (reference_window K channels width height border_type src y e).

Definition window_counts (y e : Z) : Z -> Z := occurrences K (pixel_window y e).

Lemma window_list_reference y e : window_list K (pixel_window y e) = reference_window K channels width height border_type src y e.
Proof.
  unfold window_list, reference_window. rewrite !flat_map_concat_map. f_equal.
  apply map_ext. intros r. apply map_ext. intros q. unfold pixel_window, window_at, column_rows. do 3 f_equal. lia.
Qed.

Hypothesis HK : 3 <= K.
Hypothesis bytes : forall y e, 0 <= y < height -> 0 <= e < width * channels -> 0 <= src (y, e) < 256.
Hypothesis Hc : 1 <= channels.
Hypothesis Hw : K - 1 <= width.
Hypothesis Hh : K - 1 <= height.

(** Rows and columns of a window are rows and columns of the image. *)
Lemma window_row_range y r : 0 <= y < height -> 0 <= r < K -> 0 <= border_index border_type height (y - K / 2 + r) < height.
Proof using HK Hh. intros. apply border_index_range; [lia|]. assert (2 * (K / 2) <= K < 2 * (K / 2) + 2) by mod_lia. lia. Qed.

Lemma window_column_range e q : 0 <= e < width * channels -> 0 <= q < K ->
  0 <= border_index border_type width (e / channels + q - K / 2) < width.
Proof using HK Hw Hc.
  intros He Hq. assert (0 <= e / channels < width) by (split; [apply Z.div_pos; lia|apply Z.div_lt_upper_bound; lia]).
  apply border_index_range; [lia|]. assert (2 * (K / 2) <= K < 2 * (K / 2) + 2) by mod_lia. lia.
Qed.

Lemma element_range x c : 0 <= x < width -> 0 <= c < channels -> 0 <= x * channels + c < width * channels.
Proof using Type. clear. intros. nia. Qed.

Lemma column_rows_bytes e y r q : 0 <= y < height -> 0 <= e < width * channels -> 0 <= r < K -> 0 <= q < K ->
  0 <= column_rows e (y - K / 2 + r) q < 256.
Proof using All.
  intros Hy He Hr Hq. apply bytes; [by apply window_row_range|].
  apply element_range; [by apply window_column_range|apply Z.mod_pos_bound; lia].
Qed.

Lemma pixel_window_bytes y e r q : 0 <= y < height -> 0 <= e < width * channels -> 0 <= r < K -> 0 <= q < K ->
  0 <= pixel_window y e r q < 256.
Proof using All. intros. by apply column_rows_bytes. Qed.

(** The search for the crossing of half of the window finds the median. *)
Lemma crossing_is_median y e m : Z.Odd K -> 0 <= y < height -> 0 <= e < width * channels ->
  total m (window_counts y e) <= K * K / 2 < total (m + 1) (window_counts y e) -> m = window_median y e.
Proof using All.
  intros Hodd Hy He Hm. symmetry. unfold window_median. rewrite <- window_list_reference.
  apply median_of_occurrences; [lia| |lia|done|done]. intros. by apply pixel_window_bytes.
Qed.

(** One row down: a row enters the window, another leaves it.  [K] is odd. *)
Lemma window_counts_slide y e v : Z.Odd K -> window_counts (y + 1) e v =
  window_counts y e v + total K (fun q => bit (column_rows e (y + 1 + K / 2) q =? v) - bit (column_rows e (y - K / 2) q =? v)).
Proof using HK.
  intros [m Hm]. unfold window_counts, pixel_window. replace (y + 1 - K / 2) with (y - K / 2 + 1) by lia.
  rewrite occurrences_slide by lia. f_equal. apply total_ext. intros q _. do 4 f_equal. mod_lia.
Qed.
End image.

(** The elements [x0, x1) of the rows [y0, y1). *)
Definition box (y0 y1 x0 x1 : Z) (a : Z * Z) : bool := (y0 <=? a.1) && (a.1 <? y1) && (x0 <=? a.2) && (a.2 <? x1).

Lemma box_rows {g : Z * Z -> Z} y0 y1 y2 x0 x1 dst1 dst2 dst3 : y0 <= y1 <= y2 ->
  writes_value g (box y0 y1 x0 x1) dst1 dst2 -> writes_value g (box y1 y2 x0 x1) dst2 dst3 -> writes_value g (box y0 y2 x0 x1) dst1 dst3.
Proof.
  intros Hy H1 H2. eapply writes_ext; [|exact (writes_seq _ _ _ _ _ H1 H2)]. intros [y x]. unfold box. simpl. case_cmp; simpl; done || lia.
Qed.

Lemma box_columns {g : Z * Z -> Z} y0 y1 x0 x1 x2 dst1 dst2 dst3 : x0 <= x1 <= x2 ->
  writes_value g (box y0 y1 x0 x1) dst1 dst2 -> writes_value g (box y0 y1 x1 x2) dst2 dst3 -> writes_value g (box y0 y1 x0 x2) dst1 dst3.
Proof.
  intros Hy H1 H2. eapply writes_ext; [|exact (writes_seq _ _ _ _ _ H1 H2)]. intros [y x]. unfold box. simpl. case_cmp; simpl; done || lia.
Qed.

Lemma box_none {g : Z * Z -> Z} y0 y1 x0 dst : writes_value g (box y0 y1 x0 x0) dst dst.
Proof. intros [y x]. unfold box. simpl. case_cmp; simpl; done || lia. Qed.
