(* ===== verification/SmallHist.v ===== *)
(** * Median blur by histograms of 8-bit counters

    [MedianBlurSmallHist] of median_blur_small_hist_neon.cpp: the histograms that slide down
    a column of the image, one at a time near the left and right borders (scalar), 16 of
    them interleaved elsewhere (vector), and the stripe that joins the three regions.  The
    image is addressed by row and element, as in Filter2D. *)

From S2P Require Import Prelude CTypes Utils Border Filter2D Vectors VectorMemory Registers Network MedianNetworks Arithmetic Histograms.

(** The members [fine] and [coarse], arrays of [uint8_t]. *)
Record MedianBlurSmallHist := { fine : Z -> Z; coarse : Z -> Z }.

(** The constructor zeroes both arrays. *)
Definition new_small_hist : MedianBlurSmallHist := {| fine := fun _ => 0; coarse := fun _ => 0 |}.

Definition memset (a : Z -> Z) (size : Z) : Z -> Z := fun i => if (0 <=? i) && (i <? size) then 0 else a i.
(** [a[i]++] and [a[i]--] of counters modulo [M]. *)
Definition increment (M : Z) (a : Z -> Z) (i : Z) : Z -> Z := upd a i ((a i + 1) mod M).
Definition decrement (M : Z) (a : Z -> Z) (i : Z) : Z -> Z := upd a i ((a i - 1) mod M).

Local Abbreviation u8_increment := (increment 256).
Local Abbreviation u8_decrement := (decrement 256).
Local Abbreviation vaddq := (vadd uint8).
Local Abbreviation vsubq := (vsub uint8).

Definition scalar_clear_histogram (s : MedianBlurSmallHist) : MedianBlurSmallHist :=
  {| fine := memset (fine s) 256; coarse := memset (coarse s) 16 |}.

Definition vector_clear_histogram (s : MedianBlurSmallHist) : MedianBlurSmallHist :=
  {| fine := memset (fine s) 4096; coarse := memset (coarse s) 256 |}.

Definition scalar_initialize_histogram (incoming_pixel : Z) (s : MedianBlurSmallHist) : MedianBlurSmallHist :=
  {| fine := u8_increment (fine s) incoming_pixel; coarse := u8_increment (coarse s) (Z.shiftr incoming_pixel 4) |}.

Definition vceqzq_u8 (a : list Z) : list Z := vceqq uint8 a (vdupq_n_u8 0).
Definition vorrq (a b : list Z) : list Z := zip_with Z.lor a b.
Definition vshrq_n_u8 (a : list Z) (n : Z) : list Z := map (fun x => Z.shiftr x n) a.
(** [vec_coarse[i]]: the lanes of 16 bytes. *)
Definition load_bin (a : Z -> Z) (i : Z) : list Z := vld1q 1 16 a (16 * i).
Definition store_bin (a : Z -> Z) (i : Z) (v : list Z) : Z -> Z := vst1q 1 (16 * i) v a.

Definition vector_initialize_histogram (incoming_pixels : list Z) (s : MedianBlurSmallHist) : MedianBlurSmallHist :=
  let fine := for_range 0 16 (fun i fine => u8_increment fine (incoming_pixels !!! Z.to_nat i * 16 + i)) (fine s) in
  let incoming_pixels := vshrq_n_u8 incoming_pixels 4 in
  let coarse := coarse s in
  let coarse := store_bin coarse 0 (vsubq (load_bin coarse 0) (vceqzq_u8 incoming_pixels)) in
  let coarse := for_range 1 16 (fun i coarse =>
    store_bin coarse i (vsubq (load_bin coarse i) (vceqq uint8 incoming_pixels (vdupq_n_u8 i)))) coarse in
  {| fine := fine; coarse := coarse |}.

Definition scalar_update_histogram (incoming_pixel outgoing_pixel : Z) (s : MedianBlurSmallHist) : MedianBlurSmallHist :=
  if negb (incoming_pixel =? outgoing_pixel) then
    {| fine := u8_decrement (u8_increment (fine s) incoming_pixel) outgoing_pixel;
       coarse := u8_decrement (u8_increment (coarse s) (Z.shiftr incoming_pixel 4)) (Z.shiftr outgoing_pixel 4) |}
  else s.

Definition vector_update_histogram (incoming_pixels outgoing_pixels : list Z) (s : MedianBlurSmallHist) : MedianBlurSmallHist :=
  let fine := for_range 0 16 (fun i fine =>
    u8_decrement (u8_increment fine (incoming_pixels !!! Z.to_nat i * 16 + i)) (outgoing_pixels !!! Z.to_nat i * 16 + i)) (fine s) in
  let incoming_pixels := vshrq_n_u8 incoming_pixels 4 in
  let outgoing_pixels := vshrq_n_u8 outgoing_pixels 4 in
  let coarse := coarse s in
  let delta := vsubq (vceqzq_u8 outgoing_pixels) (vceqzq_u8 incoming_pixels) in
  let coarse := store_bin coarse 0 (vaddq (load_bin coarse 0) delta) in
  let coarse := for_range 1 16 (fun i coarse =>
    let index := vdupq_n_u8 i in
    let delta := vsubq (vceqq uint8 outgoing_pixels index) (vceqq uint8 incoming_pixels index) in
    store_bin coarse i (vaddq (load_bin coarse i) delta)) coarse in
  {| fine := fine; coarse := coarse |}.

(** ** Searching the median

    The loops have no bound of their own; [None] is the fuel that ran out. *)

(** Phase 1: the cumulative count before the bin and the first fine index of the bin. *)
Fixpoint scalar_coarse_scan (fuel : nat) (coarse : Z -> Z) (target_cdf cumulative_sum coarse_index : Z) : option (Z * Z) :=
  match fuel with
  | O => None
  | S fuel =>
      if target_cdf <? cumulative_sum + coarse coarse_index then Some (cumulative_sum, coarse_index * 16)
      else scalar_coarse_scan fuel coarse target_cdf ((cumulative_sum + coarse coarse_index) mod 256) (coarse_index + 1)
  end.

(** Phase 2. *)
Fixpoint scalar_fine_scan (fuel : nat) (fine : Z -> Z) (target_cdf cumulative_sum fine_index : Z) : option Z :=
  match fuel with
  | O => None
  | S fuel =>
      let cumulative_sum := (cumulative_sum + fine fine_index) mod 256 in
      if target_cdf <? cumulative_sum then Some fine_index
      else scalar_fine_scan fuel fine target_cdf cumulative_sum (fine_index + 1)
  end.

Definition scalar_find_median (ksize : Z) (s : MedianBlurSmallHist) : option Z :=
  let target_cdf := ((ksize ⊠ ksize) / 2) mod 256 in
  '(cumulative_sum, fine_index) ← scalar_coarse_scan 16 (coarse s) target_cdf 0 0;
  fine_index ← scalar_fine_scan 256 (fine s) target_cdf cumulative_sum fine_index;
  Some (fine_index mod 256).

(** The 32-bit lanes of a register. *)
Definition vreinterpretq_u32_u8 (v : list Z) : list Z := elements_of_register 4 v.
Definition all_lane_set (v_u8 : list Z) : bool := foldr Z.min (2 ^ 32 - 1) (vreinterpretq_u32_u8 v_u8) =? 0xffffffff.
Definition any_lane_set (v_u8 : list Z) : bool := negb (foldr Z.max 0 (vreinterpretq_u32_u8 v_u8) =? 0).

Fixpoint vector_coarse_scan (fuel : nat) (coarse : Z -> Z) (target_cdf cumulative_sum : list Z) (coarse_index : Z)
    : option (list Z * Z) :=
  match fuel with
  | O => None
  | S fuel =>
      let cumulative_sum_next := vaddq cumulative_sum (load_bin coarse coarse_index) in
      if any_lane_set (vcgtq uint8 cumulative_sum_next target_cdf) then Some (cumulative_sum, coarse_index * 16)
      else vector_coarse_scan fuel coarse target_cdf cumulative_sum_next (coarse_index + 1)
  end.

Fixpoint vector_fine_scan (fuel : nat) (fine : Z -> Z) (target_cdf cumulative_sum median_result lane_found_mask : list Z)
    (fine_index : Z) : option (list Z) :=
  match fuel with
  | O => None
  | S fuel =>
      let cumulative_sum := vaddq cumulative_sum (load_bin fine fine_index) in
      let still_searching_mask := vceqzq_u8 lane_found_mask in
      let median_result := vbslq_u8 still_searching_mask (vdupq_n_u8 (fine_index mod 256)) median_result in
      let lane_found_mask := vorrq lane_found_mask (vcgtq uint8 cumulative_sum target_cdf) in
      if all_lane_set lane_found_mask then Some median_result
      else vector_fine_scan fuel fine target_cdf cumulative_sum median_result lane_found_mask (fine_index + 1)
  end.

Definition vector_find_median (ksize : Z) (s : MedianBlurSmallHist) : option (list Z) :=
  let target_cdf := vdupq_n_u8 (((ksize ⊠ ksize) / 2) mod 256) in
  '(cumulative_sum, fine_index) ← vector_coarse_scan 16 (coarse s) target_cdf (vdupq_n_u8 0) 0;
  vector_fine_scan 256 (fine s) target_cdf cumulative_sum (vdupq_n_u8 0) (vdupq_n_u8 0) fine_index.

(** ** Regions *)

Section regions.
Context (image_width image_height channels ksize : Z) (border_type : FixedBorderType) (src : Z * Z -> Z).

Local Abbreviation state := (MedianBlurSmallHist * (Z * Z -> Z))%type.

(** [median_value] is stored for row [h]. *)
Definition scalar_store (h w ch : Z) (s : state) : option state :=
  median_value ← scalar_find_median ksize s.1; Some (s.1, upd s.2 (h, w * channels + ch) median_value).

Definition process_column_with_horizontal_borders (y_begin y_end w ch : Z) (s : state) : option state :=
  let kMargin := ksize / 2 in
  let column c := get_physical_index (to_ptrdiff (w ⊞ c) - to_ptrdiff kMargin) image_width border_type in
  let at_ h w := src (h, w * channels + ch) in
  let hist := scalar_clear_histogram s.1 in
  let hist := for_range 0 ksize (fun r hist => for_range 0 ksize (fun c hist =>
    let valid_h := get_physical_index (to_ptrdiff (y_begin ⊞ r) - to_ptrdiff kMargin) image_height border_type in
    scalar_initialize_histogram (at_ valid_h (column c)) hist) hist) hist in
  for_range (y_begin + 1) y_end (fun h s =>
    s ← s;
    let valid_new_h := get_physical_index (to_ptrdiff (h ⊞ kMargin)) image_height border_type in
    let valid_old_h := get_physical_index (to_ptrdiff h - to_ptrdiff kMargin - 1) image_height border_type in
    let hist := for_range 0 ksize (fun c hist =>
      let valid_w := column c in
      scalar_update_histogram (at_ valid_new_h valid_w) (at_ valid_old_h valid_w) hist) s.1 in
    scalar_store h w ch (hist, s.2))
    (scalar_store y_begin w ch (hist, s.2)).

Definition process_pixels_with_horizontal_borders (x_begin y_begin x_end y_end : Z) (s : option state) : option state :=
  for_range x_begin x_end (fun w => for_range 0 channels (fun ch s =>
    s ← s; process_column_with_horizontal_borders y_begin y_end w ch s)) s.

Definition load_pixels (row column : Z) : list Z := Filter2D.vld1q 16 src (row, column).

Definition vector_store (h w : Z) (s : state) : option state :=
  median_value ← vector_find_median ksize s.1; Some (s.1, Filter2D.vst1q 16 (h, w) median_value s.2).

Definition process_columns_without_horizontal_borders (y_begin y_end w : Z) (s : state) : option state :=
  let KMargin_w := (ksize / 2) ⊠ channels in
  let KMargin_h := ksize / 2 in
  let horizontal_index c := w ⊞ c ⊠ channels ⊟ KMargin_w in
  let hist := vector_clear_histogram s.1 in
  let hist := for_range 0 ksize (fun r hist =>
    let vertical_index := get_physical_index (to_ptrdiff (y_begin ⊞ r) - to_ptrdiff KMargin_h) image_height border_type in
    for_range 0 ksize (fun c hist =>
      vector_initialize_histogram (load_pixels vertical_index (horizontal_index c)) hist) hist) hist in
  for_range (y_begin + 1) y_end (fun h s =>
    s ← s;
    let vertical_index_new := get_physical_index (to_ptrdiff (h ⊞ KMargin_h)) image_height border_type in
    let vertical_index_old := get_physical_index (to_ptrdiff h - to_ptrdiff KMargin_h - 1) image_height border_type in
    let hist := for_range 0 ksize (fun c hist =>
      vector_update_histogram (load_pixels vertical_index_new (horizontal_index c))
        (load_pixels vertical_index_old (horizontal_index c)) hist) s.1 in
    vector_store h w (hist, s.2))
    (vector_store y_begin w (hist, s.2)).

Definition process_pixels_without_horizontal_borders (x_begin y_begin x_end y_end : Z) (s : option state) : option state :=
  for_step x_begin x_end 16 (fun w s =>
    s ← s; process_columns_without_horizontal_borders y_begin y_end w s) s.
End regions.

Definition median_blur_small_hist_stripe_u8 (src dst : Z * Z -> Z) (width height y_begin y_end channels kernel_width kernel_height : Z)
    (border_type : FixedBorderType) : option (kleidicv_error_t * (Z * Z -> Z)) :=
  let kMargin := kernel_width / 2 in
  let s := Some (new_small_hist, dst) in
  let processing_left_width := kMargin in
  let s := process_pixels_with_horizontal_borders width height channels kernel_height border_type src
    0 y_begin processing_left_width y_end s in
  let processing_center_width := (width ⊟ 2 ⊠ kMargin) / 16 ⊠ 16 in
  let s := process_pixels_without_horizontal_borders height channels kernel_height border_type src
    (processing_left_width ⊠ channels) y_begin ((processing_center_width ⊞ processing_left_width) ⊠ channels) y_end s in
  let starting_width := processing_left_width ⊞ processing_center_width in
  let processing_right_width := width ⊟ processing_left_width ⊟ processing_center_width in
  let s := process_pixels_with_horizontal_borders width height channels kernel_height border_type src
    starting_width y_begin (starting_width ⊞ processing_right_width) y_end s in
  s ← s; Some (KLEIDICV_OK, s.2).

(** ** Counters *)

Lemma increment_bump M a i : increment M a i = bump M 1 a i.
Proof. done. Qed.

Lemma decrement_bump M a i : decrement M a i = bump M (-1) a i.
Proof. done. Qed.

Lemma shift_block x : Z.shiftr x 4 = x / 16.
Proof. by rewrite Z.shiftr_div_pow2. Qed.

Definition scalar_counts (s : MedianBlurSmallHist) (c : Z -> Z) : Prop := counts 256 (fine s) (coarse s) c.

Lemma scalar_clear_counts s : scalar_counts (scalar_clear_histogram s) (fun _ => 0).
Proof.
  apply counts_zero; intros i Hi; cbn [fine coarse scalar_clear_histogram]; unfold memset;
    by rewrite (proj2 (Z.leb_le 0 i)), (proj2 (Z.ltb_lt i _)) by lia.
Qed.

Lemma scalar_initialize_counts p s c : 0 <= p < 256 -> scalar_counts s c ->
  scalar_counts (scalar_initialize_histogram p s) (fun v => c v + bit (p =? v)).
Proof.
  intros Hp H. apply (counts_bump 256 1 _ _ _ p Hp) in H. rewrite <- shift_block in H.
  eapply counts_ext; [|exact H]. intros v _. cbn beta. lia.
Qed.

Lemma scalar_update_counts p o s c : 0 <= p < 256 -> 0 <= o < 256 -> scalar_counts s c ->
  scalar_counts (scalar_update_histogram p o s) (fun v => c v + (bit (p =? v) - bit (o =? v))).
Proof.
  intros Hp Ho H. unfold scalar_update_histogram. destruct (Z.eqb_spec p o) as [->|Hne]; cbn [negb].
  - eapply counts_ext; [|exact H]. intros v _. cbn beta. lia.
  - apply (counts_bump 256 1 _ _ _ p Hp), (counts_bump 256 (-1) _ _ _ o Ho) in H. rewrite <- !shift_block in H.
    eapply counts_ext; [|exact H]. intros v _. cbn beta. lia.
Qed.

(** ** The lanes of the interleaved histograms *)

(** Lane [i] of an array of 16 interleaved ones. *)
Definition interleaved (i : Z) (a : Z -> Z) (v : Z) : Z := a (16 * v + i).

Lemma interleaved_bump i k a x v : interleaved i (bump 256 k a (x * 16 + i)) v = bump 256 k (interleaved i a) x v.
Proof.
  unfold interleaved, bump, upd. destruct (decide (v = x)) as [->|Hne].
  - rewrite decide_True by lia. by rewrite (Z.mul_comm x 16).
  - rewrite decide_False by lia. done.
Qed.

Lemma interleaved_bump_other i j k a x v : 0 <= i < 16 -> 0 <= j < 16 -> i <> j ->
  interleaved i (bump 256 k a (x * 16 + j)) v = interleaved i a v.
Proof. intros. unfold interleaved, bump, upd. rewrite decide_False by lia. done. Qed.

(** A loop over the lanes whose iteration [i] touches lane [i] only. *)
Lemma lanes_loop (body : Z -> (Z -> Z) -> Z -> Z) (P Q : Z -> (Z -> Z) -> Prop) a :
  (forall i f g, (forall v, f v = g v) -> P i f -> P i g) -> (forall i f g, (forall v, f v = g v) -> Q i f -> Q i g) ->
  (forall i j a v, 0 <= i < 16 -> 0 <= j < 16 -> i <> j -> interleaved i (body j a) v = interleaved i a v) ->
  (forall i a, 0 <= i < 16 -> P i (interleaved i a) -> Q i (interleaved i (body i a))) ->
  (forall i, 0 <= i < 16 -> P i (interleaved i a)) ->
  forall i, 0 <= i < 16 -> Q i (interleaved i (for_range 0 16 body a)).
Proof.
  intros HP HQ Hother Hsame Ha.
  pose proof (for_range_ind (fun k a => (forall i, 0 <= i < k -> Q i (interleaved i a)) /\
    (forall i, k <= i < 16 -> P i (interleaved i a))) 0 16 body a) as H.
  destruct H as [H _]; [lia|split; [lia|done]| |exact H].
  intros k a' Hk [Hd Ht]. split.
  - intros i Hi. destruct (decide (i = k)) as [->|Hne]; [apply Hsame, Ht; lia|].
    apply (HQ i (interleaved i a')); [|apply Hd; lia]. intros v. symmetry. apply Hother; lia.
  - intros i Hi. apply (HP i (interleaved i a')); [|apply Ht; lia]. intros v. symmetry. apply Hother; lia.
Qed.

Lemma load_bin_lanes a b : lanes_of 16 (load_bin a b) (fun i => a (16 * b + Z.of_nat i)).
Proof.
  destruct (lanes_of_vld1q 1 16 a (16 * b)) as [Hl H]. split; [exact Hl|]. intros i Hi.
  unfold load_bin. rewrite H by lia. f_equal. lia.
Qed.

Lemma store_bin_value a b v i : length v = 16%nat -> store_bin a b v i =
  if (16 * b <=? i) && (i <? 16 * b + 16) then v !!! Z.to_nat (i - 16 * b) else a i.
Proof.
  intros Hl. unfold store_bin. destruct (vst1q_filled 1 ltac:(lia) (16 * b) v a) as [Hin Hout]. rewrite Hl in *.
  destruct (Z.leb_spec (16 * b) i), (Z.ltb_spec i (16 * b + 16)); cbn [andb].
  - rewrite <- (Hin (i - 16 * b)) by lia. f_equal. lia.
  - apply Hout. lia.
  - apply Hout. lia.
  - apply Hout. lia.
Qed.

(** [vec_coarse[b]] becomes a function of its lanes. *)
Definition update_bin (g : Z -> list Z -> list Z) (b : Z) (a : Z -> Z) : Z -> Z := store_bin a b (g b (load_bin a b)).

Lemma all_bins g a : for_range 1 16 (update_bin g) (update_bin g 0 a) = for_range 0 16 (update_bin g) a.
Proof. by rewrite (for_range_first 0) by lia. Qed.

(** A loop over the bins that updates each from its own lanes. *)
Lemma bins_loop (g : Z -> list Z -> list Z) a b i : (forall b v, length v = 16%nat -> length (g b v) = 16%nat) ->
  0 <= b < 16 -> 0 <= i < 16 ->
  for_range 0 16 (update_bin g) a (16 * b + i) = g b (load_bin a b) !!! Z.to_nat i.
Proof.
  intros Hg Hb Hi.
  pose proof (for_range_ind (fun k a' => forall b i, 0 <= b < 16 -> 0 <= i < 16 -> a' (16 * b + i) =
    if b <? k then g b (load_bin a b) !!! Z.to_nat i else a (16 * b + i)) 0 16
    (update_bin g) a) as H.
  rewrite H; [by rewrite (proj2 (Z.ltb_lt b 16)) by lia|lia| | |done|done].
  - intros b' i' Hb' Hi'. destruct (Z.ltb_spec b' 0); [lia|done].
  - clear b i Hb Hi. intros k a' Hk IH b i Hb Hi. unfold update_bin. rewrite store_bin_value by apply Hg, load_bin_lanes.
    destruct (decide (b = k)) as [->|Hne].
    + rewrite (proj2 (Z.leb_le _ _)), (proj2 (Z.ltb_lt (16 * k + i) _)), (proj2 (Z.ltb_lt k _)) by lia. cbn [andb].
      replace (16 * k + i - 16 * k) with i by lia. do 2 f_equal.
      unfold load_bin, vld1q. apply map_ext_in. intros j Hj%list_elem_of_In%elem_of_seqZ.
      rewrite Z.mul_1_r, IH, (proj2 (Z.ltb_ge k k)) by lia. done.
    + rewrite IH by done. replace ((16 * k <=? 16 * b + i) && (16 * b + i <? 16 * k + 16)) with false by (symmetry; apply andb_false_iff; lia).
      destruct (Z.ltb_spec b k), (Z.ltb_spec b (k + 1)); done || lia.
Qed.

(** The counts of every lane. *)
Definition vector_counts (s : MedianBlurSmallHist) (c : Z * Z -> Z) : Prop :=
  forall i, 0 <= i < 16 -> counts 256 (interleaved i (fine s)) (interleaved i (coarse s)) (fun v => c (i, v)).

Definition pixels (v : list Z) : Prop := length v = 16%nat /\ forall i, 0 <= i < 16 -> 0 <= v !!! Z.to_nat i < 256.

Lemma vector_clear_counts s : vector_counts (vector_clear_histogram s) (fun _ => 0).
Proof.
  intros i Hi. apply counts_zero; intros v Hv; unfold interleaved; cbn [fine coarse vector_clear_histogram]; unfold memset;
    rewrite (proj2 (Z.leb_le 0 _)), (proj2 (Z.ltb_lt _ _)) by lia; done.
Qed.

(** How a bin of the coarse histogram changes, from the change of each of its lanes. *)
Lemma vector_counts_change s c (body : Z -> (Z -> Z) -> Z -> Z) (g : Z -> list Z -> list Z) (d : Z -> Z -> Z) :
  vector_counts s c ->
  (forall i j a v, 0 <= i < 16 -> 0 <= j < 16 -> i <> j -> interleaved i (body j a) v = interleaved i a v) ->
  (forall i a c v, 0 <= i < 16 -> (forall v, 0 <= v < 256 -> interleaved i a v = c v mod 256) -> 0 <= v < 256 ->
    interleaved i (body i a) v = (c v + d i v) mod 256) ->
  (forall b v, length v = 16%nat -> length (g b v) = 16%nat) ->
  (forall i b v, 0 <= i < 16 -> 0 <= b < 16 -> length v = 16%nat ->
    g b v !!! Z.to_nat i = (v !!! Z.to_nat i + blocks (d i) b) mod 256) ->
  vector_counts {| fine := for_range 0 16 body (fine s);
    coarse := for_range 0 16 (update_bin g) (coarse s) |} (fun a => c a + d a.1 a.2).
Proof.
  intros Hs Hother Hsame Hlen Hbin i Hi. cbn [fst snd]. destruct (Hs i Hi) as [_ Hc]. split.
  - cbn [fine]. refine (lanes_loop body (fun i f => forall v, 0 <= v < 256 -> f v = c (i, v) mod 256)
      (fun i f => forall v, 0 <= v < 256 -> f v = (c (i, v) + d i v) mod 256) (fine s) _ _ Hother _ _ i Hi).
    + intros j f g' Hfg Hf v Hv. by rewrite <- Hfg, Hf.
    + intros j f g' Hfg Hf v Hv. by rewrite <- Hfg, Hf.
    + intros j a Hj Ha v Hv. by apply (Hsame j a (fun v => c (j, v))).
    + intros j Hj v Hv. by apply (counts_fine _ _ _ _ (Hs j Hj)).
  - cbn [coarse]. intros b Hb. unfold interleaved. destruct (load_bin_lanes (coarse s) b) as [Hl Hv].
    rewrite bins_loop, Hbin, Hv, Z2Nat.id by (done || lia).
    change (coarse s (16 * b + i)) with (interleaved i (coarse s) b). rewrite Hc, Zplus_mod_idemp_l by done.
    f_equal. unfold blocks. by rewrite total_add.
Qed.

Lemma shifted_lanes v n : pixels v -> lanes_of 16 (vshrq_n_u8 v n) (fun i => Z.shiftr (v !!! i) n).
Proof. intros [Hl _]. apply (lanes_of_map 16 v (fun i => v !!! i) (fun x => Z.shiftr x n)). by apply lanes_of_vector. Qed.

Lemma equal_lanes v f x : lanes_of 16 v f -> lanes_of 16 (vceqq uint8 v (vdupq_n_u8 x)) (fun i => if f i =? x then 255 else 0).
Proof.
  intros Hv. apply (lanes_of_zip_with 16 v (vdupq_n_u8 x) f (fun _ => x)); [done|].
  split; [apply length_replicate|]. intros i Hi. apply list_lookup_total_correct. by apply lookup_replicate_2.
Qed.

Lemma byte_cast x : static_cast uint8 x = x mod 256.
Proof. done. Qed.

Lemma vector_initialize_counts p s c : pixels p -> vector_counts s c ->
  vector_counts (vector_initialize_histogram p s) (fun a => c a + bit (p !!! Z.to_nat a.1 =? a.2)).
Proof.
  intros Hp Hs. pose proof (shifted_lanes p 4 Hp) as Hsh.
  set (g := fun b v => vsubq v (vceqq uint8 (vshrq_n_u8 p 4) (vdupq_n_u8 b))).
  set (body := fun i fine => u8_increment fine (p !!! Z.to_nat i * 16 + i)).
  change (vector_initialize_histogram p s) with {| fine := for_range 0 16 body (fine s);
    coarse := for_range 1 16 (update_bin g) (update_bin g 0 (coarse s)) |}. rewrite all_bins.
  apply (vector_counts_change s c body g (fun i v => bit (p !!! Z.to_nat i =? v))); [done|..].
  - intros. by apply interleaved_bump_other.
  - intros i a c' v Hi Ha Hv. unfold body. rewrite increment_bump, interleaved_bump.
    rewrite (bump_value _ _ _ _ _ _ (Ha v Hv)), Z.mul_1_l. done.
  - intros b v Hv. unfold g, vsub. rewrite length_zip_with, (proj1 (equal_lanes _ _ b Hsh)). lia.
  - intros i b v Hi Hb Hv. unfold g, vadd, vsub.
    rewrite (proj2 (lanes_of_zip_with _ _ _ _ _ _ (lanes_of_vector 16 v Hv) (equal_lanes _ _ b Hsh))) by lia.
    rewrite byte_cast, blocks_indicator, shift_block by apply Hp, Hi.
    destruct (_ =? b); [|by rewrite Z.sub_0_r, Z.add_0_r]. cbn [bit].
    replace (v !!! Z.to_nat i - 255) with (v !!! Z.to_nat i + 1 + (-1) * 256) by lia. by rewrite Z_mod_plus_full.
Qed.

Lemma blocks_sub c d b : blocks (fun v => c v - d v) b = blocks c b - blocks d b.
Proof.
  assert (blocks (fun v => c v - d v) b + blocks d b = blocks c b); [|lia].
  unfold blocks. rewrite <- total_add. apply total_ext. intros. lia.
Qed.

Lemma vector_update_counts p o s c : pixels p -> pixels o -> vector_counts s c ->
  vector_counts (vector_update_histogram p o s)
    (fun a => c a + (bit (p !!! Z.to_nat a.1 =? a.2) - bit (o !!! Z.to_nat a.1 =? a.2))).
Proof.
  intros Hp Ho Hs. pose proof (shifted_lanes p 4 Hp) as Hsh. pose proof (shifted_lanes o 4 Ho) as Hso.
  set (g := fun b v => vaddq v (vsubq (vceqq uint8 (vshrq_n_u8 o 4) (vdupq_n_u8 b)) (vceqq uint8 (vshrq_n_u8 p 4) (vdupq_n_u8 b)))).
  set (body := fun i fine => u8_decrement (u8_increment fine (p !!! Z.to_nat i * 16 + i)) (o !!! Z.to_nat i * 16 + i)).
  change (vector_update_histogram p o s) with {| fine := for_range 0 16 body (fine s);
    coarse := for_range 1 16 (update_bin g) (update_bin g 0 (coarse s)) |}. rewrite all_bins.
  apply (vector_counts_change s c body g (fun i v => bit (p !!! Z.to_nat i =? v) - bit (o !!! Z.to_nat i =? v))); [done|..].
  - intros i j a v Hi Hj Hne. unfold body. rewrite decrement_bump, increment_bump.
    by rewrite !interleaved_bump_other.
  - intros i a c' v Hi Ha Hv. unfold body. rewrite decrement_bump, increment_bump, interleaved_bump.
    rewrite (bump_value _ _ _ _ _ (c' v + 1 * bit (p !!! Z.to_nat i =? v))).
    2: { rewrite interleaved_bump. apply bump_value, Ha, Hv. }
    f_equal. lia.
  - intros b v Hv. unfold g, vadd, vsub. rewrite !length_zip_with, (proj1 (equal_lanes _ _ b Hsh)), (proj1 (equal_lanes _ _ b Hso)). lia.
  - intros i b v Hi Hb Hv. unfold g, vadd, vsub.
    rewrite (proj2 (lanes_of_zip_with _ _ _ _ _ _ (lanes_of_vector 16 v Hv)
      (lanes_of_zip_with _ _ _ _ _ _ (equal_lanes _ _ b Hso) (equal_lanes _ _ b Hsh)))) by lia.
    rewrite !byte_cast, blocks_sub, !blocks_indicator, !shift_block by (apply Hp, Hi || apply Ho, Hi).
    rewrite Zplus_mod_idemp_r.
    destruct (_ / 16 =? b), (_ / 16 =? b); cbn [bit].
    + done.
    + replace (v !!! Z.to_nat i + (255 - 0)) with (v !!! Z.to_nat i + (0 - 1) + 1 * 256) by lia. by rewrite Z_mod_plus_full.
    + replace (v !!! Z.to_nat i + (0 - 255)) with (v !!! Z.to_nat i + (1 - 0) + (-1) * 256) by lia. by rewrite Z_mod_plus_full.
    + done.
Qed.

(** ** The searches find the median *)

(** The first value whose cumulative count exceeds the target. *)
Definition crosses (c : Z -> Z) (target m : Z) : Prop := 0 <= m < 256 /\ total m c <= target < total (m + 1) c.

Section search.
Context (K : Z) (window : Z -> Z -> Z).
Hypothesis HK : 1 <= K <= 15.
Hypothesis bytes : forall r q, 0 <= r < K -> 0 <= q < K -> 0 <= window r q < 256.

Local Abbreviation count := (occurrences K window).
Local Abbreviation target := (K * K / 2).

Lemma below_all n : 0 <= n <= 256 -> 0 <= total n count <= K * K.
Proof. apply (below_range K window); [lia|done]. Qed.

Lemma target_below : 0 <= target < K * K.
Proof. clear - HK. assert (1 <= K * K) by nia. mod_lia. Qed.

Lemma square_small : K * K < 256.
Proof. clear - HK. nia. Qed.

Section scalar.
Context (fine_ coarse_ : Z -> Z).
Hypothesis held : counts 256 fine_ coarse_ count.

Lemma scalar_coarse_scan_crosses fuel b : Z.of_nat fuel + b = 16 -> 0 <= b -> total (16 * b) count <= target ->
  exists b', 0 <= b' < 16 /\ scalar_coarse_scan fuel coarse_ target (total (16 * b) count) b = Some (total (16 * b') count, b' * 16) /\
    total (16 * b') count <= target < total (16 * (b' + 1)) count.
Proof.
  revert b. induction fuel as [|fuel IH]; intros b Hf Hb Ht.
  - assert (b = 16) as -> by lia. change (16 * 16) with 256 in Ht.
    rewrite occurrences_all in Ht by (done || lia). pose proof target_below. lia.
  - cbn [scalar_coarse_scan]. rewrite (coarse_exact 256 K window fine_ coarse_) by (done || lia || apply square_small).
    pose proof (blocks_below count (b + 1) ltac:(lia)) as E. rewrite total_last, blocks_below in E by lia. rewrite E.
    destruct (Z.ltb_spec target (total (16 * (b + 1)) count)); [by exists b; repeat split; try lia|].
    rewrite Z.mod_small; [apply IH; lia|]. pose proof (below_all (16 * (b + 1)) ltac:(lia)). pose proof square_small. lia.
Qed.

Lemma scalar_fine_scan_crosses fuel v : 256 <= Z.of_nat fuel + v -> 0 <= v <= 256 -> total v count <= target ->
  exists m, scalar_fine_scan fuel fine_ target (total v count) v = Some m /\ crosses count target m.
Proof.
  pose proof target_below. pose proof square_small. revert v. induction fuel as [|fuel IH]; intros v Hf Hv Ht.
  - assert (v = 256) as -> by lia. rewrite occurrences_all in Ht by (done || lia). lia.
  - destruct (decide (v = 256)) as [->|Hne]; [rewrite occurrences_all in Ht by (done || lia); lia|].
    cbn [scalar_fine_scan]. rewrite (fine_exact 256 K window fine_ coarse_) by (done || lia).
    rewrite <- total_last by lia. pose proof (below_all (v + 1) ltac:(lia)). rewrite Z.mod_small by lia.
    destruct (Z.ltb_spec target (total (v + 1) count)); [exists v; repeat split; try done; lia|apply IH; lia].
Qed.
End scalar.

Lemma scalar_find_median_crosses s : scalar_counts s count ->
  exists m, scalar_find_median K s = Some m /\ crosses count target m.
Proof.
  intros Hs. unfold scalar_find_median. pose proof target_below. pose proof square_small.
  rewrite size_mul_small, (Z.mod_small target) by lia.
  destruct (scalar_coarse_scan_crosses _ _ Hs 16 0) as (b & Hb & Hscan & Hlo & _); [lia..|rewrite total_none; lia|].
  rewrite (total_none _ (16 * 0)) in Hscan by lia. rewrite Hscan. cbn [mbind option_bind].
  rewrite (Z.mul_comm b). destruct (scalar_fine_scan_crosses _ _ Hs 256 (16 * b)) as (m & Hm & Hc); [lia..|].
  rewrite Hm. cbn [mbind option_bind]. exists m. split; [|done]. f_equal. apply Z.mod_small, Hc.
Qed.
End search.

Lemma crosses_unique c target m m' : (forall v, 0 <= c v) -> crosses c target m -> crosses c target m' -> m = m'.
Proof.
  intros Hc [Hm [H1 H2]] [Hm' [H3 H4]].
  destruct (Z.lt_trichotomy m m') as [Hlt|[->|Hlt]]; [|done|].
  - pose proof (total_monotone c (m + 1) m' ltac:(lia) ltac:(done)). lia.
  - pose proof (total_monotone c (m' + 1) m ltac:(lia) ltac:(done)). lia.
Qed.

(** Masks of 16 bytes that are all ones or zero. *)
Definition mask_lanes (v : list Z) (f : nat -> bool) : Prop := lanes_of 16 v (fun i => if f i then 255 else 0).

Lemma mask_word v f : mask_lanes v f ->
  vreinterpretq_u32_u8 v = map (fun k => of_bytes (map (fun j => if f (4 * k + j)%nat then 255 else 0) [0; 1; 2; 3]%nat)) [0; 1; 2; 3]%nat.
Proof.
  intros [Hl Hf]. do 16 (destruct v as [|? v]; [done|]). destruct v; [|done].
  pose proof (Hf 0%nat ltac:(lia)) as H0. pose proof (Hf 1%nat ltac:(lia)) as H1. pose proof (Hf 2%nat ltac:(lia)) as H2.
  pose proof (Hf 3%nat ltac:(lia)) as H3. pose proof (Hf 4%nat ltac:(lia)) as H4. pose proof (Hf 5%nat ltac:(lia)) as H5.
  pose proof (Hf 6%nat ltac:(lia)) as H6. pose proof (Hf 7%nat ltac:(lia)) as H7. pose proof (Hf 8%nat ltac:(lia)) as H8.
  pose proof (Hf 9%nat ltac:(lia)) as H9. pose proof (Hf 10%nat ltac:(lia)) as H10. pose proof (Hf 11%nat ltac:(lia)) as H11.
  pose proof (Hf 12%nat ltac:(lia)) as H12. pose proof (Hf 13%nat ltac:(lia)) as H13. pose proof (Hf 14%nat ltac:(lia)) as H14.
  pose proof (Hf 15%nat ltac:(lia)) as H15. cbn in H0, H1, H2, H3, H4, H5, H6, H7, H8, H9, H10, H11, H12, H13, H14, H15. subst. reflexivity.
Qed.

Lemma mask_word_value (b : nat -> bool) :
  let w := of_bytes (map (fun j => if b j then 255 else 0) [0; 1; 2; 3]%nat) in
  0 <= w <= 2 ^ 32 - 1 /\ (w = 2 ^ 32 - 1 <-> forall j, (j < 4)%nat -> b j = true) /\ (w = 0 <-> forall j, (j < 4)%nat -> b j = false).
Proof.
  cbn [map]. assert (forall x, (forall j, (j < 4)%nat -> b j = x) <-> b 0%nat = x /\ b 1%nat = x /\ b 2%nat = x /\ b 3%nat = x) as H.
  { intros x. split; [intros H; repeat split; apply H; lia|]. intros (? & ? & ? & ?) j Hj.
    assert (j = 0 \/ j = 1 \/ j = 2 \/ j = 3)%nat as [->|[->|[->| ->]]] by lia; done. }
  rewrite !H. destruct (b 0%nat), (b 1%nat), (b 2%nat), (b 3%nat); vm_compute; intuition discriminate.
Qed.

Lemma all_lane_set_spec v f : mask_lanes v f -> (all_lane_set v = true <-> forall i, (i < 16)%nat -> f i = true).
Proof.
  intros Hv. unfold all_lane_set. rewrite (mask_word v f Hv), Z.eqb_eq. cbn [map foldr].
  pose proof (fun k => mask_word_value (fun j => f (4 * k + j)%nat)) as Hw. cbv zeta in Hw. cbn [map] in Hw.
  pose proof (Hw 0%nat) as (R0 & A0 & _). pose proof (Hw 1%nat) as (R1 & A1 & _).
  pose proof (Hw 2%nat) as (R2 & A2 & _). pose proof (Hw 3%nat) as (R3 & A3 & _).
  change 0xffffffff with (2 ^ 32 - 1). split.
  - intros E i Hi. replace i with (4 * (i / 4) + i mod 4)%nat by (pose proof (Nat.div_mod_eq i 4); lia).
    assert (i mod 4 < 4)%nat by (apply Nat.mod_upper_bound; lia).
    assert (i / 4 = 0 \/ i / 4 = 1 \/ i / 4 = 2 \/ i / 4 = 3)%nat as [->|[->|[->| ->]]]
      by (pose proof (Nat.div_mod_eq i 4); lia); [apply A0|apply A1|apply A2|apply A3]; done || lia.
  - intros H. rewrite (proj2 A0), (proj2 A1), (proj2 A2), (proj2 A3) by (intros; apply H; lia). lia.
Qed.

Lemma any_lane_set_spec v f : mask_lanes v f -> (any_lane_set v = false <-> forall i, (i < 16)%nat -> f i = false).
Proof.
  intros Hv. unfold any_lane_set. rewrite (mask_word v f Hv), negb_false_iff, Z.eqb_eq. cbn [map foldr].
  pose proof (fun k => mask_word_value (fun j => f (4 * k + j)%nat)) as Hw. cbv zeta in Hw. cbn [map] in Hw.
  pose proof (Hw 0%nat) as (R0 & _ & A0). pose proof (Hw 1%nat) as (R1 & _ & A1).
  pose proof (Hw 2%nat) as (R2 & _ & A2). pose proof (Hw 3%nat) as (R3 & _ & A3). split.
  - intros E i Hi. replace i with (4 * (i / 4) + i mod 4)%nat by (pose proof (Nat.div_mod_eq i 4); lia).
    assert (i mod 4 < 4)%nat by (apply Nat.mod_upper_bound; lia).
    assert (i / 4 = 0 \/ i / 4 = 1 \/ i / 4 = 2 \/ i / 4 = 3)%nat as [->|[->|[->| ->]]]
      by (pose proof (Nat.div_mod_eq i 4); lia); [apply A0|apply A1|apply A2|apply A3]; done || lia.
  - intros H. rewrite (proj2 A0), (proj2 A1), (proj2 A2), (proj2 A3) by (intros; apply H; lia). lia.
Qed.

Section vector_search.
Context (K : Z) (window : Z -> Z -> Z -> Z) (s : MedianBlurSmallHist).
Hypothesis HK : 1 <= K <= 15.
Hypothesis bytes : forall i r q, 0 <= i < 16 -> 0 <= r < K -> 0 <= q < K -> 0 <= window i r q < 256.
Hypothesis held : vector_counts s (fun a => occurrences K (window a.1) a.2).

Local Abbreviation count i := (occurrences K (window i)).
Local Abbreviation target := (K * K / 2).
(** The lanes hold the number of values below [n]. *)
Definition below (n : Z) (i : nat) : Z := total n (count (Z.of_nat i)).

Lemma lane_below i n : (i < 16)%nat -> 0 <= n <= 256 -> 0 <= below n i <= K * K.
Proof. intros Hi. apply (below_range K (window (Z.of_nat i))); [lia|]. intros. apply bytes; lia. Qed.

Lemma lane_all i : (i < 16)%nat -> below 256 i = K * K.
Proof. intros Hi. apply occurrences_all; [lia|]. intros. apply bytes; lia. Qed.

Lemma load_coarse b n v : 0 <= b < 16 -> n = 16 * b -> lanes_of 16 v (below n) ->
  lanes_of 16 (vaddq v (load_bin (coarse s) b)) (below (16 * (b + 1))).
Proof.
  intros Hb -> Hv. eapply lanes_of_ext; [|eapply (lanes_of_zip_with _ _ _ _ _ (fun x y => static_cast uint8 (x + y)) Hv), load_bin_lanes].
  intros i Hi. unfold below. change (coarse s (16 * b + Z.of_nat i)) with (interleaved (Z.of_nat i) (coarse s) b).
  rewrite (coarse_exact 256 K (window (Z.of_nat i)) (interleaved (Z.of_nat i) (fine s)) (interleaved (Z.of_nat i) (coarse s)));
    [|lia|intros; apply bytes; lia|apply (square_small K HK)|apply (held (Z.of_nat i)); lia|done].
  rewrite <- blocks_below, <- total_last, blocks_below by lia. rewrite byte_cast. apply Z.mod_small.
  pose proof (lane_below i (16 * (b + 1)) Hi ltac:(lia)) as Hr. unfold below in Hr. pose proof (square_small K HK). lia.
Qed.

Lemma load_fine f v : 0 <= f < 256 -> lanes_of 16 v (below f) ->
  lanes_of 16 (vaddq v (load_bin (fine s) f)) (below (f + 1)).
Proof.
  intros Hf Hv. eapply lanes_of_ext; [|eapply (lanes_of_zip_with _ _ _ _ _ (fun x y => static_cast uint8 (x + y)) Hv), load_bin_lanes].
  intros i Hi. unfold below. change (fine s (16 * f + Z.of_nat i)) with (interleaved (Z.of_nat i) (fine s) f).
  rewrite (fine_exact 256 K (window (Z.of_nat i)) (interleaved (Z.of_nat i) (fine s)) (interleaved (Z.of_nat i) (coarse s)));
    [|lia|apply (square_small K HK)|apply (held (Z.of_nat i)); lia|done].
  rewrite <- total_last, byte_cast by lia. apply Z.mod_small.
  pose proof (lane_below i (f + 1) Hi ltac:(lia)) as Hr. unfold below in Hr. pose proof (square_small K HK). lia.
Qed.

Lemma exceeding_lanes v n : lanes_of 16 v (below n) ->
  mask_lanes (vcgtq uint8 v (vdupq_n_u8 target)) (fun i => target <? below n i).
Proof.
  intros Hv. eapply lanes_of_ext; [|apply (lanes_of_zip_with 16 _ _ _ (fun _ => target) (fun x y => all_ones uint8 (y <? x)) Hv)].
  - intros i Hi. cbn beta. by destruct (_ <? _).
  - split; [apply length_replicate|]. intros i Hi. apply list_lookup_total_correct. by apply lookup_replicate_2.
Qed.

Lemma vector_coarse_scan_stops fuel b v : Z.of_nat fuel + b = 16 -> 0 <= b -> lanes_of 16 v (below (16 * b)) ->
  (forall i, (i < 16)%nat -> below (16 * b) i <= target) ->
  exists b' v', 0 <= b' < 16 /\ vector_coarse_scan fuel (coarse s) (vdupq_n_u8 target) v b = Some (v', b' * 16) /\
    lanes_of 16 v' (below (16 * b')) /\ (forall i, (i < 16)%nat -> below (16 * b') i <= target).
Proof.
  revert b v. induction fuel as [|fuel IH]; intros b v Hf Hb Hv Hle.
  - assert (b = 16) as -> by lia. specialize (Hle 0%nat ltac:(lia)). change (16 * 16) with 256 in Hle.
    rewrite (lane_all 0) in Hle by lia. pose proof (target_below K HK). lia.
  - cbn [vector_coarse_scan]. cbv zeta. pose proof (load_coarse b _ v ltac:(lia) eq_refl Hv) as Hnext.
    pose proof (any_lane_set_spec _ _ (exceeding_lanes _ _ Hnext)) as Hany.
    destruct (any_lane_set _) eqn:E; [exists b, v; split; [lia|done]|].
    apply IH; [lia|lia|done|]. intros i Hi. pose proof (proj1 Hany eq_refl i Hi) as H%Z.ltb_ge. lia.
Qed.

(** What the fine scan knows before it reads [f]: the lanes whose target is behind have their result. *)
Lemma vector_fine_scan_finds fuel f v result mask : 256 <= Z.of_nat fuel + f -> 0 <= f <= 256 -> lanes_of 16 v (below f) ->
  mask_lanes mask (fun i => target <? below f i) -> length result = 16%nat ->
  (forall i, (i < 16)%nat -> target < below f i -> crosses (count (Z.of_nat i)) target (result !!! i)) ->
  (exists i, (i < 16)%nat /\ below f i <= target) ->
  exists medians, vector_fine_scan fuel (fine s) (vdupq_n_u8 target) v result mask f = Some medians /\ length medians = 16%nat /\
    forall i, (i < 16)%nat -> crosses (count (Z.of_nat i)) target (medians !!! i).
Proof.
  pose proof (target_below K HK) as HT. revert f v result mask. induction fuel as [|fuel IH]; intros f v result mask Hf Hr Hv Hm Hl Hdone [i0 [Hi0 Hopen]].
  - assert (f = 256) as -> by lia. rewrite (lane_all i0) in Hopen by done. lia.
  - destruct (decide (f = 256)) as [->|Hne]; [rewrite (lane_all i0) in Hopen by done; lia|].
    cbn [vector_fine_scan]. cbv zeta. pose proof (load_fine f v ltac:(lia) Hv) as Hnext.
    set (result' := vbslq_u8 _ _ _). set (mask' := vorrq _ _).
    assert (lanes_of 16 result' (fun i => if target <? below f i then result !!! i else f)) as [Hl' Hres].
    { unfold result', vbslq_u8. pose proof (equal_lanes _ _ 0 Hm) as Hs.
      assert (lanes_of 16 (vdupq_n_u8 (f mod 256)) (fun _ => f)) as Hd.
      { split; [apply length_replicate|]. intros i Hi. apply list_lookup_total_correct. rewrite Z.mod_small by lia. by apply lookup_replicate_2. }
      eapply lanes_of_ext; [|apply lanes_of_zip_with;
        [apply (lanes_of_zip_with _ _ _ _ _ Z.land Hs Hd)|apply (lanes_of_zip_with _ _ _ _ _ (fun m y => Z.land (255 - m) y) Hs (lanes_of_vector 16 result Hl))]].
      intros i Hi. cbn beta. destruct (Z.ltb_spec target (below f i)) as [Hlt|Hge].
      - change (255 =? 0) with false. cbn iota. rewrite Z.land_0_l, Z.lor_0_l. change (255 - 0) with (Z.ones 8).
        rewrite Z.land_comm, Z.land_ones by lia. apply Z.mod_small. apply (Hdone i Hi Hlt).
      - change (0 =? 0) with true. cbn iota. change (255 - 255) with 0. rewrite Z.land_0_l, Z.lor_0_r. change 255 with (Z.ones 8).
        rewrite Z.land_comm, Z.land_ones by lia. apply Z.mod_small. change (2 ^ 8) with 256. lia. }
    assert (forall i, (i < 16)%nat -> below f i <= below (f + 1) i) as Hmono.
    { intros i Hi. apply (below_monotone K); lia. }
    assert (mask_lanes mask' (fun i => target <? below (f + 1) i)) as Hm'.
    { eapply lanes_of_ext; [|apply (lanes_of_zip_with _ _ _ _ _ Z.lor Hm (exceeding_lanes _ _ Hnext))].
      intros i Hi. cbn beta. specialize (Hmono i Hi).
      destruct (Z.ltb_spec target (below f i)), (Z.ltb_spec target (below (f + 1) i)); done || lia. }
    assert (forall i, (i < 16)%nat -> target < below (f + 1) i -> crosses (count (Z.of_nat i)) target (result' !!! i)) as Hdone'.
    { intros i Hi Ht. rewrite Hres by done. destruct (Z.ltb_spec target (below f i)); [by apply Hdone|]. split; [lia|done]. }
    pose proof (all_lane_set_spec _ _ Hm') as Hall. destruct (all_lane_set mask') eqn:E.
    + exists result'. split; [done|]. split; [done|]. intros i Hi. apply Hdone'; [done|]. apply Z.ltb_lt. by apply Hall.
    + apply IH; [lia|lia|done..|]. clear - E Hall.
      destruct (forallb (fun i => target <? below (f + 1) i) (seq 0 16)) eqn:F.
      * exfalso. rewrite forallb_forall in F. assert (false = true); [apply Hall; intros i Hi; apply F, in_seq; lia|done].
      * apply not_true_iff_false in F. rewrite forallb_forall in F.
        destruct (decide (Exists (fun i => below (f + 1) i <= target) (seq 0 16))) as [Hex|Hno].
        { apply Exists_exists in Hex as (i & Hin%elem_of_seq & Hi). exists i. split; [lia|done]. }
        exfalso. apply F. intros i Hi. apply Z.ltb_lt. apply Znot_ge_lt. intros Hge. apply Hno, Exists_exists.
        exists i. split; [apply elem_of_seq; apply in_seq in Hi; lia|lia].
Qed.

Lemma vector_find_median_crosses : exists medians, vector_find_median K s = Some medians /\ length medians = 16%nat /\
  forall i, (i < 16)%nat -> crosses (count (Z.of_nat i)) target (medians !!! i).
Proof.
  unfold vector_find_median. pose proof (target_below K HK) as HT. pose proof (square_small K HK).
  rewrite size_mul_small, (Z.mod_small target) by lia.
  assert (forall n, n <= 0 -> lanes_of 16 (vdupq_n_u8 0) (below n)) as Hz.
  { intros n Hn. split; [apply length_replicate|]. intros i Hi. apply list_lookup_total_correct. unfold below. rewrite total_none by done. by apply lookup_replicate_2. }
  destruct (vector_coarse_scan_stops 16 0 (vdupq_n_u8 0)) as (b & v & Hb & Hscan & Hv & Hle); [lia|lia|by apply Hz| |].
  { intros i Hi. unfold below. rewrite total_none by lia. lia. }
  cbv zeta. rewrite Hscan. cbn [mbind option_bind]. rewrite (Z.mul_comm b).
  apply vector_fine_scan_finds; [lia|lia|done| |apply length_replicate| |].
  - eapply lanes_of_ext; [|by apply (Hz 0)]. intros i Hi. cbn beta.
    destruct (Z.ltb_spec target (below 0 i)) as [Hlt|_]; [unfold below in Hlt; rewrite total_none in Hlt by lia; lia|].
    destruct (Z.ltb_spec target (below (16 * b) i)); [specialize (Hle i Hi); lia|done].
  - intros i Hi Ht. specialize (Hle i Hi). lia.
  - exists 0%nat. split; [lia|]. apply Hle. lia.
Qed.
End vector_search.

(** ** Columns and regions *)

Lemma crosses_total c target m : crosses c target m -> total m c <= target < total (m + 1) c.
Proof. by intros [_ H]. Qed.

Lemma upd_box {g : Z * Z -> Z} y x dst : writes_value g (box y (y + 1) x (x + 1)) dst (upd dst (y, x) (g (y, x))).
Proof.
  intros [y' x']. unfold box, upd. simpl. case_decide as E.
  - injection E as -> ->. case_cmp; simpl; done || lia.
  - case_cmp; simpl; try done. exfalso. apply E. f_equal; lia.
Qed.

Section filtering.
Context (K channels width height : Z) (border_type : FixedBorderType) (src : Z * Z -> Z).
Hypothesis HK : 3 <= K <= 15.
Hypothesis Hodd : Z.Odd K.
Hypothesis Hc : 1 <= channels.
Hypothesis Hw : K - 1 <= width < 2 ^ 62.
Hypothesis Hh : K - 1 <= height < 2 ^ 62.
Hypothesis Hrow : width * channels < 2 ^ 62.
Hypothesis bytes : forall y e, 0 <= y < height -> 0 <= e < width * channels -> 0 <= src (y, e) < 256.

Local Abbreviation state := (MedianBlurSmallHist * (Z * Z -> Z))%type.
Local Abbreviation column_rows := (column_rows K channels width height border_type src).
Local Abbreviation window_counts := (window_counts K channels width height border_type src).
Local Abbreviation median_of := (fun a : Z * Z => window_median K channels width height border_type src a.1 a.2).
Local Abbreviation row_index := (fun j => border_index border_type height j).

Lemma margin_odd : 2 * (K / 2) = K - 1 /\ 1 <= K / 2 <= 7.
Proof. clear - HK Hodd. destruct Hodd as [m ->]. mod_lia. Qed.

(** The three row indices of the code. *)
Lemma initial_row y r : 0 <= y < height -> 0 <= r < K ->
  get_physical_index (to_ptrdiff (y ⊞ r) - to_ptrdiff (K / 2)) height border_type = row_index (y - K / 2 + r).
Proof.
  intros. pose proof margin_odd. rewrite size_add_small, !to_ptrdiff_small by lia.
  rewrite get_physical_index_reference by lia. f_equal. lia.
Qed.

Lemma incoming_row h : 0 <= h < height ->
  get_physical_index (to_ptrdiff (h ⊞ (K / 2))) height border_type = row_index (h + K / 2).
Proof.
  intros. pose proof margin_odd. rewrite size_add_small, to_ptrdiff_small by lia. by rewrite get_physical_index_reference by lia.
Qed.

Lemma outgoing_row h : 1 <= h < height ->
  get_physical_index (to_ptrdiff h - to_ptrdiff (K / 2) - 1) height border_type = row_index (h - 1 - K / 2).
Proof.
  intros. pose proof margin_odd. rewrite !to_ptrdiff_small by lia. rewrite get_physical_index_reference by lia. f_equal. lia.
Qed.

Lemma slide_down h e v : window_counts h e v =
  window_counts (h - 1) e v + total K (fun q => bit (column_rows e (h + K / 2) q =? v) - bit (column_rows e (h - 1 - K / 2) q =? v)).
Proof.
  pose proof (window_counts_slide K channels width height border_type src ltac:(lia) (h - 1) e v Hodd) as E.
  replace (h - 1 + 1) with h in E by lia. done.
Qed.

Lemma row_bytes e h q : 0 <= h < height -> 0 <= e < width * channels -> 0 <= q < K -> 0 <= column_rows e (h + K / 2) q < 256.
Proof.
  intros Hh' He Hq. pose proof margin_odd.
  pose proof (column_rows_bytes K channels width height border_type src ltac:(lia) bytes Hc ltac:(lia) ltac:(lia) e h (K - 1) q Hh' He ltac:(lia) Hq) as H1.
  replace (h + K / 2) with (h - K / 2 + (K - 1)) by lia. done.
Qed.

Lemma first_row_bytes e h q : 1 <= h < height -> 0 <= e < width * channels -> 0 <= q < K -> 0 <= column_rows e (h - 1 - K / 2) q < 256.
Proof.
  intros Hh' He Hq. pose proof margin_odd.
  pose proof (column_rows_bytes K channels width height border_type src ltac:(lia) bytes Hc ltac:(lia) ltac:(lia) e (h - 1) 0 q ltac:(lia) He ltac:(lia) Hq) as H1.
  by rewrite Z.add_0_r in H1.
Qed.

Section column.
Context (w ch : Z).
Hypothesis Hx : 0 <= w < width.
Hypothesis Hch : 0 <= ch < channels.
Local Abbreviation e := (w * channels + ch).

Lemma column_element : 0 <= e < width * channels /\ e / channels = w /\ e mod channels = ch.
Proof.
  clear - Hc Hx Hch. split; [nia|]. rewrite Z.add_comm, Z.div_add, Z.mod_add, Z.div_small, Z.mod_small by lia. lia.
Qed.

Lemma column_pixel j q : 0 <= q < K ->
  src (border_index border_type height j, get_physical_index (to_ptrdiff (w ⊞ q) - to_ptrdiff (K / 2)) width border_type * channels + ch) =
  column_rows e j q.
Proof.
  intros Hq. pose proof margin_odd. unfold Histograms.column_rows. destruct column_element as (_ & -> & ->).
  rewrite size_add_small, !to_ptrdiff_small by lia. by rewrite get_physical_index_reference by lia.
Qed.

Lemma scalar_store_median h s dst : 0 <= h < height -> scalar_counts s (window_counts h e) ->
  scalar_store channels K h w ch (s, dst) = Some (s, upd dst (h, e) (median_of (h, e))).
Proof.
  intros Hhh Hs. unfold scalar_store. cbn [fst snd]. destruct column_element as (He & _).
  destruct (scalar_find_median_crosses K (pixel_window K channels width height border_type src h e) ltac:(lia)) with (s := s) as (m & Hm & Hcr%crosses_total); [|done|].
  - intros r q Hr Hq. apply pixel_window_bytes; done || lia.
  - rewrite Hm. cbn [mbind option_bind]. do 3 f_equal. apply crossing_is_median; done || lia.
Qed.

Lemma scalar_column_medians y_begin y_end s dst : 0 <= y_begin < y_end -> y_end <= height ->
  exists s' dst', process_column_with_horizontal_borders width height channels K border_type src y_begin y_end w ch (s, dst) = Some (s', dst') /\
    writes_value median_of (box y_begin y_end e (e + 1)) dst dst'.
Proof.
  intros Hy Hye. unfold process_column_with_horizontal_borders. cbv zeta. cbn [fst snd].
  destruct column_element as (He & _).
  set (hist := for_range 0 K _ (scalar_clear_histogram s)).
  assert (scalar_counts hist (window_counts y_begin e)) as Hinit.
  { eapply counts_ext; [|apply (counting_loop scalar_counts _ (fun r v => total K (fun q => bit (column_rows e (y_begin - K / 2 + r) q =? v))) K);
      [|lia| |apply scalar_clear_counts]].
    - intros v _. cbn beta. done.
    - intros t c d Hcd. apply counts_ext. done.
    - intros r t c Hr Ht. apply (counting_loop scalar_counts _ (fun q v => bit (column_rows e (y_begin - K / 2 + r) q =? v)) K); [|lia| |done].
      + intros t' c' d Hcd. apply counts_ext. done.
      + intros q t' c' Hq Ht'. rewrite initial_row, column_pixel by lia. apply scalar_initialize_counts; [|done].
        apply column_rows_bytes; done || lia. }
  clearbody hist. rewrite (scalar_store_median y_begin) by (done || lia).
  match goal with |- exists s' dst', ?loop = _ /\ _ => assert (exists s' dst', loop = Some (s', dst') /\
    scalar_counts s' (window_counts (y_end - 1) e) /\ writes_value median_of (box y_begin y_end e (e + 1)) dst dst') as H; [|destruct H as (s' & d & ? & _ & ?); by exists s', d] end.
  apply (for_range_ind (fun h r => exists s' dst', r = Some (s', dst') /\ scalar_counts s' (window_counts (h - 1) e) /\
    writes_value median_of (box y_begin h e (e + 1)) dst dst')); [lia| |].
  - do 2 eexists. split; [reflexivity|]. replace (y_begin + 1 - 1) with y_begin by lia. split; [done|exact (@upd_box median_of _ _ _)].
  - intros h r Hhr (t & d & -> & Ht & Hd). cbn [mbind option_bind fst snd]. set (t' := for_range 0 K _ t).
    assert (scalar_counts t' (window_counts h e)) as Ht'.
    { eapply counts_ext; [|apply (counting_loop scalar_counts _ (fun q v => bit (column_rows e (h + K / 2) q =? v) - bit (column_rows e (h - 1 - K / 2) q =? v)) K);
        [|lia| |exact Ht]].
      - intros v _. cbn beta. symmetry. apply slide_down.
      - intros t0 c d0 Hcd. apply counts_ext. done.
      - intros q t0 c Hq Ht0. rewrite incoming_row, outgoing_row, !column_pixel by lia.
        apply scalar_update_counts; [by apply row_bytes; lia|by apply first_row_bytes; lia|done]. }
    clearbody t'. rewrite scalar_store_median by (done || lia). do 2 eexists. split; [reflexivity|].
    replace (h + 1 - 1) with h by lia. split; [done|].
    apply (box_rows y_begin h (h + 1) _ _ _ d); [lia|done|exact (@upd_box median_of _ _ _)].
Qed.
End column.

Lemma scalar_region x_begin x_end y_begin y_end s dst : 0 <= x_begin <= x_end -> x_end <= width -> 0 <= y_begin < y_end -> y_end <= height ->
  exists s' dst', process_pixels_with_horizontal_borders width height channels K border_type src x_begin y_begin x_end y_end (Some (s, dst)) = Some (s', dst') /\
    writes_value median_of (box y_begin y_end (x_begin * channels) (x_end * channels)) dst dst'.
Proof.
  intros Hx Hxe Hy Hye.
  apply (for_range_ind (fun w r => exists s' dst', r = Some (s', dst') /\
    writes_value median_of (box y_begin y_end (x_begin * channels) (w * channels)) dst dst')); [lia| |].
  - do 2 eexists. split; [reflexivity|apply box_none].
  - intros w r Hw' (t & d & -> & Hd).
    assert (exists s' dst', for_range 0 channels (fun ch s => s ← s;
      process_column_with_horizontal_borders width height channels K border_type src y_begin y_end w ch s) (Some (t, d)) = Some (s', dst') /\
      writes_value median_of (box y_begin y_end (w * channels) (w * channels + channels)) d dst') as (t' & d' & E & Hd').
    { apply (for_range_ind (fun ch r => exists s' dst', r = Some (s', dst') /\
        writes_value median_of (box y_begin y_end (w * channels) (w * channels + ch)) d dst')); [lia| |].
      - do 2 eexists. split; [reflexivity|]. rewrite Z.add_0_r. apply box_none.
      - intros ch r Hch (t1 & d1 & -> & Hd1). cbn [mbind option_bind].
        destruct (scalar_column_medians w ch ltac:(lia) ltac:(lia) y_begin y_end t1 d1 Hy Hye) as (t2 & d2 & -> & Hd2).
        do 2 eexists. split; [reflexivity|]. rewrite Z.add_assoc. apply (box_columns _ _ _ (w * channels + ch) _ _ d1); [lia|done|done]. }
    do 2 eexists. split; [exact E|]. replace ((w + 1) * channels) with (w * channels + channels) by lia.
    apply (box_columns _ _ _ (w * channels) _ _ d); [nia|done|done].
Qed.

Section block.
Context (w : Z).
Hypothesis Hleft : K / 2 * channels <= w.
Hypothesis Hright : w + 16 <= (width - K / 2) * channels.

Lemma block_pixel_element i : 0 <= i < 16 -> 0 <= w + i < width * channels /\ K / 2 <= (w + i) / channels < width - K / 2.
Proof.
  intros Hi. pose proof margin_odd. clear - H Hi Hleft Hright Hc HK. split; [nia|].
  split; [apply Z.div_le_lower_bound; lia|apply Z.div_lt_upper_bound; lia].
Qed.

Lemma block_column c : 0 <= c < K -> w ⊞ c ⊠ channels ⊟ (K / 2) ⊠ channels = w + (c - K / 2) * channels.
Proof.
  intros Hcc. pose proof margin_odd as Hm. pose proof (block_pixel_element 0 ltac:(lia)) as [H0 _].
  assert (c * channels < 2 ^ 62 /\ K / 2 * channels < 2 ^ 62 /\ 0 <= c * channels /\ 0 <= K / 2 * channels) as (H1 & H2 & H3 & H4).
  { clear - Hm Hcc Hw Hrow Hc HK. nia. }
  rewrite (size_mul_small c), (size_mul_small (K / 2)), (size_add_small w (c * channels)), size_sub_small by lia. lia.
Qed.

Lemma block_pixels j c : 0 <= c < K ->
  length (load_pixels src (border_index border_type height j) (w + (c - K / 2) * channels)) = 16%nat /\
  forall i, 0 <= i < 16 -> load_pixels src (border_index border_type height j) (w + (c - K / 2) * channels) !!! Z.to_nat i = column_rows (w + i) j c.
Proof.
  intros Hcc. unfold load_pixels, Filter2D.vld1q. split; [by rewrite length_map, length_seqZ|]. intros i Hi.
  apply list_lookup_total_correct. rewrite list_lookup_fmap, lookup_seqZ_lt by lia. cbn [fmap option_fmap option_map fst snd]. f_equal.
  unfold Histograms.column_rows. do 2 f_equal. pose proof margin_odd. destruct (block_pixel_element i Hi) as [_ He].
  rewrite border_index_inside by lia. pose proof (Z.div_mod (w + i) channels ltac:(lia)). lia.
Qed.

Lemma block_pixels_bytes j c : 0 <= c < K -> (forall i, 0 <= i < 16 -> 0 <= column_rows (w + i) j c < 256) ->
  pixels (load_pixels src (border_index border_type height j) (w + (c - K / 2) * channels)).
Proof. intros Hcc Hb. destruct (block_pixels j c Hcc) as [Hl Hv]. split; [done|]. intros i Hi. rewrite Hv by done. by apply Hb. Qed.

Lemma vector_store_medians h s dst : 0 <= h < height -> vector_counts s (fun a => window_counts h (w + a.1) a.2) ->
  exists dst', vector_store K h w (s, dst) = Some (s, dst') /\ writes_value median_of (box h (h + 1) w (w + 16)) dst dst'.
Proof.
  intros Hhh Hs. unfold vector_store. cbn [fst snd].
  destruct (vector_find_median_crosses K (fun i => pixel_window K channels width height border_type src h (w + i)) s) as (m & Hm & Hl & Hcr); [lia| |done|].
  - intros i r q Hi Hr Hq. destruct (block_pixel_element i Hi). apply pixel_window_bytes; done || lia.
  - rewrite Hm. cbn [mbind option_bind]. eexists. split; [reflexivity|]. intros [y x]. rewrite vst1q_lanes by lia.
    unfold row_part, box. cbn [fst snd].
    replace ((y =? h) && (w <=? x) && (x <? w + 16)) with ((h <=? y) && (y <? h + 1) && (w <=? x) && (x <? w + 16))
      by (case_cmp; simpl; done || lia).
    destruct ((h <=? y) && (y <? h + 1) && (w <=? x) && (x <? w + 16)) eqn:E; [|done].
    apply andb_true_iff in E as [[[E1%Z.leb_le E2%Z.ltb_lt]%andb_true_iff E3%Z.leb_le]%andb_true_iff E4%Z.ltb_lt].
    assert (y = h) as -> by lia. specialize (Hcr (Z.to_nat (x - w)) ltac:(lia)). apply crosses_total in Hcr.
    rewrite Z2Nat.id in Hcr by lia. replace (w + (x - w)) with x in Hcr by lia.
    destruct (block_pixel_element (x - w) ltac:(lia)) as [Hx _]. replace (w + (x - w)) with x in Hx by lia.
    apply crossing_is_median; done || lia.
Qed.

Lemma vector_block_medians y_begin y_end s dst : 0 <= y_begin < y_end -> y_end <= height ->
  exists s' dst', process_columns_without_horizontal_borders height channels K border_type src y_begin y_end w (s, dst) = Some (s', dst') /\
    writes_value median_of (box y_begin y_end w (w + 16)) dst dst'.
Proof.
  intros Hy Hye. unfold process_columns_without_horizontal_borders. cbv zeta. cbn [fst snd].
  set (hist := for_range 0 K _ (vector_clear_histogram s)).
  assert (vector_counts hist (fun a => window_counts y_begin (w + a.1) a.2)) as Hinit.
  { assert (forall t c d, (forall a, c a = d a) -> vector_counts t c -> vector_counts t d) as Hext.
    { intros t c d Hcd Ht i Hi. eapply counts_ext; [|by apply Ht]. intros. apply Hcd. }
    eapply Hext; [|apply (counting_loop vector_counts _ (fun r a => total K (fun q => bit (column_rows (w + a.1) (y_begin - K / 2 + r) q =? a.2))) K);
      [done|lia| |apply vector_clear_counts]].
    - intros a. done.
    - intros r t c Hr Ht. apply (counting_loop vector_counts _ (fun q a => bit (column_rows (w + a.1) (y_begin - K / 2 + r) q =? a.2)) K); [done|lia| |done].
      intros q t' c' Hq Ht'. rewrite initial_row, block_column by lia.
      intros i Hi. eapply counts_ext; [|apply (vector_initialize_counts _ _ c'); [|done|done]].
      + intros v _. cbn [fst snd]. rewrite (proj2 (block_pixels _ _ Hq)) by done. done.
      + apply block_pixels_bytes; [done|]. intros i' Hi'. destruct (block_pixel_element i' Hi') as [? _].
        apply column_rows_bytes; done || lia. }
  clearbody hist. destruct (vector_store_medians y_begin hist dst ltac:(lia) Hinit) as (dst1 & -> & Hd1).
  match goal with |- exists s' dst', ?loop = _ /\ _ => assert (exists s' dst', loop = Some (s', dst') /\
    vector_counts s' (fun a => window_counts (y_end - 1) (w + a.1) a.2) /\ writes_value median_of (box y_begin y_end w (w + 16)) dst dst') as H;
    [|destruct H as (s' & d & ? & _ & ?); by exists s', d] end.
  apply (for_range_ind (fun h r => exists s' dst', r = Some (s', dst') /\ vector_counts s' (fun a => window_counts (h - 1) (w + a.1) a.2) /\
    writes_value median_of (box y_begin h w (w + 16)) dst dst')); [lia| |].
  - do 2 eexists. split; [reflexivity|]. replace (y_begin + 1 - 1) with y_begin by lia. by split.
  - intros h r Hhr (t & d & -> & Ht & Hd). cbn [mbind option_bind fst snd]. set (t' := for_range 0 K _ t).
    assert (vector_counts t' (fun a => window_counts h (w + a.1) a.2)) as Ht'.
    { assert (forall t c d, (forall a, c a = d a) -> vector_counts t c -> vector_counts t d) as Hext.
      { intros t0 c d0 Hcd Ht0 i Hi. eapply counts_ext; [|by apply Ht0]. intros. apply Hcd. }
      eapply Hext; [|apply (counting_loop vector_counts _ (fun q a => bit (column_rows (w + a.1) (h + K / 2) q =? a.2) - bit (column_rows (w + a.1) (h - 1 - K / 2) q =? a.2)) K);
        [done|lia| |exact Ht]].
      - intros a. cbn beta. symmetry. apply slide_down.
      - intros q t0 c Hq Ht0. rewrite incoming_row, outgoing_row, block_column by lia.
        intros i Hi. eapply counts_ext; [|apply (vector_update_counts _ _ _ c); [| |done|done]].
        + intros v _. cbn [fst snd]. rewrite !(proj2 (block_pixels _ _ Hq)) by done. done.
        + apply block_pixels_bytes; [done|]. intros i' Hi'. destruct (block_pixel_element i' Hi') as [? _]. by apply row_bytes; lia.
        + apply block_pixels_bytes; [done|]. intros i' Hi'. destruct (block_pixel_element i' Hi') as [? _]. by apply first_row_bytes; lia. }
    clearbody t'. destruct (vector_store_medians h t' d ltac:(lia) Ht') as (d' & -> & Hd'). do 2 eexists. split; [reflexivity|].
    replace (h + 1 - 1) with h by lia. split; [done|]. by apply (box_rows y_begin h (h + 1) _ _ _ d); [lia| |].
Qed.
End block.

Lemma vector_region x_begin blocks_ y_begin y_end s dst : K / 2 * channels <= x_begin -> 0 <= blocks_ -> x_begin + blocks_ * 16 <= (width - K / 2) * channels ->
  0 <= y_begin < y_end -> y_end <= height ->
  exists s' dst', process_pixels_without_horizontal_borders height channels K border_type src x_begin y_begin (x_begin + blocks_ * 16) y_end (Some (s, dst)) = Some (s', dst') /\
    writes_value median_of (box y_begin y_end x_begin (x_begin + blocks_ * 16)) dst dst'.
Proof.
  intros Hl Hn Hr Hy Hye. unfold process_pixels_without_horizontal_borders, for_step.
  assert (step_count x_begin (x_begin + blocks_ * 16) 16 = blocks_) as -> by (unfold step_count; mod_lia).
  apply (for_range_ind (fun k r => exists s' dst', r = Some (s', dst') /\
    writes_value median_of (box y_begin y_end x_begin (x_begin + k * 16)) dst dst')); [lia| |].
  - do 2 eexists. split; [reflexivity|]. rewrite Z.add_0_r. apply box_none.
  - intros k r Hk (t & d & -> & Hd). cbn [mbind option_bind].
    destruct (vector_block_medians (x_begin + k * 16) ltac:(lia) ltac:(lia) y_begin y_end t d Hy Hye) as (t' & d' & -> & Hd').
    do 2 eexists. split; [reflexivity|]. replace (x_begin + (k + 1) * 16) with (x_begin + k * 16 + 16) by lia.
    by apply (box_columns _ _ _ (x_begin + k * 16) _ _ d); [lia| |].
Qed.

(** The stripe writes the median of every window of its rows and nothing else. *)
Lemma small_hist_stripe_medians y_begin y_end dst : 0 <= y_begin < y_end -> y_end <= height ->
  exists dst', median_blur_small_hist_stripe_u8 src dst width height y_begin y_end channels K K border_type = Some (KLEIDICV_OK, dst') /\
    writes_value median_of (box y_begin y_end 0 (width * channels)) dst dst'.
Proof.
  intros Hy Hye. pose proof margin_odd as Hm. unfold median_blur_small_hist_stripe_u8. cbv zeta.
  rewrite (size_mul_small 2), (size_sub_small width) by lia. set (n := (width - 2 * (K / 2)) / 16).
  assert (0 <= n /\ n * 16 <= width - 2 * (K / 2)) as [Hn Hn'] by (unfold n; mod_lia).
  rewrite (size_mul_small n), (size_add_small (n * 16)), (size_add_small (K / 2)), (size_sub_small width), (size_sub_small (width - K / 2)) by lia.
  replace (K / 2 + n * 16) with (n * 16 + K / 2) by lia. rewrite (size_add_small (n * 16 + K / 2)) by lia.
  replace (n * 16 + K / 2 + (width - K / 2 - n * 16)) with width by lia.
  rewrite !size_mul_small by (clear - Hm Hn Hn' Hw Hrow Hc HK; nia).
  destruct (scalar_region 0 (K / 2) y_begin y_end new_small_hist dst) as (s1 & d1 & -> & Hd1); [lia..|].
  replace ((n * 16 + K / 2) * channels) with (K / 2 * channels + n * channels * 16) by lia.
  destruct (vector_region (K / 2 * channels) (n * channels) y_begin y_end s1 d1) as (s2 & d2 & -> & Hd2); [lia|nia|nia|lia|lia|].
  destruct (scalar_region (n * 16 + K / 2) width y_begin y_end s2 d2) as (s3 & d3 & -> & Hd3); [lia..|].
  cbn [mbind option_bind]. exists d3. split; [done|].
  replace ((n * 16 + K / 2) * channels) with (K / 2 * channels + n * channels * 16) in Hd3 by lia.
  apply (box_columns _ _ _ (K / 2 * channels + n * channels * 16) _ _ d2); [nia| |done].
  apply (box_columns _ _ _ (K / 2 * channels) _ _ d1); [nia| |done]. by rewrite Z.mul_0_l in Hd1.
Qed.
End filtering.
