(* ===== verification/LargeHist.v ===== *)
(** * Median blur by histograms of 16-bit counters

    [MedianBlurLargeHist] of median_blur_large_hist_neon.cpp: one histogram for each column
    of a patch of the image, which slide down together; the histogram of a window is the sum
    of those of its columns, kept incrementally in its coarse part ([v_coarsel],
    [v_coarseh]) and brought up to date on demand in its fine part, where [luc] says up to
    which column each segment of [H] is valid.  The two patched histograms share one allocation. *)

From S2P Require Import Prelude CTypes Utils Border Filter2D Vectors VectorMemory Network MedianNetworks Arithmetic Histograms SmallHist.

(** [patched] is the allocation, [H_fine] the rows of [H.fine] one after the other. *)
Record MedianBlurLargeHist := { patched : Z -> Z; H_coarse : Z -> Z; H_fine : Z -> Z; luc : Z -> Z }.

Definition patch_length : Z := 512.

(** The elements that the constructor allocates, and where [patched_fine] points.  [patched_coarse] is 0. *)
Definition allocated_elements (channels kMargin : Z) : Z := (16 + 256) ⊠ (patch_length ⊞ 2 ⊠ kMargin) ⊠ channels.
Definition patched_fine_of (channels kMargin : Z) : Z := 16 ⊠ (patch_length ⊞ 2 ⊠ kMargin) ⊠ channels.

(** [fresh] is what [malloc] returned, which succeeds. *)
Definition new_large_hist (fresh : Z -> Z) : MedianBlurLargeHist :=
  {| patched := fresh; H_coarse := fun _ => 0; H_fine := fun _ => 0; luc := fun _ => 0 |}.

Definition set_patched (p : Z -> Z) (s : MedianBlurLargeHist) : MedianBlurLargeHist :=
  {| patched := p; H_coarse := H_coarse s; H_fine := H_fine s; luc := luc s |}.

Local Abbreviation u16_increment := (increment (2 ^ 16)).
Local Abbreviation u16_decrement := (decrement (2 ^ 16)).
Local Abbreviation vaddq_u16 := (vadd uint16).
Local Abbreviation vsubq_u16 := (vsub uint16).

(** [memset] of the [size] elements from [start] on. *)
Definition memset_at (start size : Z) (a : Z -> Z) : Z -> Z := fun i => if (start <=? i) && (i <? start + size) then 0 else a i.

Definition vld1q_u16 (a : Z -> Z) (px : Z) : list Z := vld1q 1 8 a px.
Definition vst1q_u16 (a : Z -> Z) (px : Z) (v : list Z) : Z -> Z := vst1q 1 px v a.

Section patches.
Context (is_single_channel : bool) (patched_fine : Z).

Definition clear_patched_histogram (total_patch_size : Z) (a : Z -> Z) : Z -> Z :=
  memset_at patched_fine (256 ⊠ total_patch_size) (memset_at 0 (16 ⊠ total_patch_size) a).

Definition scalar_initialize_patched_histogram (incoming_pixel channel_idx patch_length patch_offset : Z) (a : Z -> Z) : Z -> Z :=
  let coarse_offset := 16 ⊠ (patch_length ⊠ channel_idx ⊞ patch_offset) ⊞ Z.shiftr incoming_pixel 4 in
  let fine_offset := 16 ⊠ (patch_length ⊠ (16 ⊠ channel_idx ⊞ Z.shiftr incoming_pixel 4) ⊞ patch_offset) ⊞ Z.land incoming_pixel 0xF in
  u16_increment (u16_increment a coarse_offset) (patched_fine + fine_offset).

Definition vector_initialize_patched_histogram (incoming_pixels : list Z) (channel_idx patch_length patch_offset : Z) (a : Z -> Z) : Z -> Z :=
  for_range 0 16 (fun i a =>
    let pixel := incoming_pixels !!! Z.to_nat i in
    let coarse_offset_incoming := 16 ⊠ (patch_length ⊠ channel_idx ⊞ patch_offset ⊞ i) ⊞ Z.shiftr pixel 4 in
    let fine_offset_incoming := 16 ⊠ (patch_length ⊠ (16 ⊠ channel_idx ⊞ Z.shiftr pixel 4) ⊞ patch_offset ⊞ i) ⊞ Z.land pixel 0xF in
    u16_increment (u16_increment a coarse_offset_incoming) (patched_fine + fine_offset_incoming)) a.

Definition scalar_update_patch_histogram (outgoing_pixel incoming_pixel channel_idx patch_length patch_offset : Z) (a : Z -> Z) : Z -> Z :=
  let coarse_offset_base := 16 ⊠ (patch_length ⊠ channel_idx ⊞ patch_offset) in
  let fine_offset_base := 16 ⊠ patch_length ⊠ 16 ⊠ channel_idx ⊞ 16 ⊠ patch_offset in
  let pixel_new_shift_right_4 := Z.shiftr incoming_pixel 4 in
  let mask_new_pixel := Z.land incoming_pixel 0xF in
  let pixel_old_shift_right_4 := Z.shiftr outgoing_pixel 4 in
  let mask_old_pixel := Z.land outgoing_pixel 0xF in
  let fine_new_offset := fine_offset_base ⊞ mask_new_pixel ⊞ 16 ⊠ patch_length ⊠ pixel_new_shift_right_4 in
  let coarse_new_offset := coarse_offset_base ⊞ pixel_new_shift_right_4 in
  let fine_old_offset := fine_offset_base ⊞ mask_old_pixel ⊞ 16 ⊠ patch_length ⊠ pixel_old_shift_right_4 in
  let coarse_old_offset := coarse_offset_base ⊞ pixel_old_shift_right_4 in
  let a := u16_decrement (u16_increment a coarse_new_offset) coarse_old_offset in
  u16_decrement (u16_increment a (patched_fine + fine_new_offset)) (patched_fine + fine_old_offset).

Definition vector_update_patch_histogram (outgoing_pixels incoming_pixels : list Z) (channel_idx patch_length patch_offset : Z) (a : Z -> Z) : Z -> Z :=
  for_range 0 16 (fun i a =>
    let incoming := incoming_pixels !!! Z.to_nat i in
    let outgoing := outgoing_pixels !!! Z.to_nat i in
    let coarse_offset_incoming := 16 ⊠ (patch_length ⊠ channel_idx ⊞ patch_offset ⊞ i) ⊞ Z.shiftr incoming 4 in
    let coarse_offset_outgoing := 16 ⊠ (patch_length ⊠ channel_idx ⊞ patch_offset ⊞ i) ⊞ Z.shiftr outgoing 4 in
    let fine_offset_incoming := 16 ⊠ (patch_length ⊠ (16 ⊠ channel_idx ⊞ Z.shiftr incoming 4) ⊞ patch_offset ⊞ i) ⊞ Z.land incoming 0xF in
    let fine_offset_outgoing := 16 ⊠ (patch_length ⊠ (16 ⊠ channel_idx ⊞ Z.shiftr outgoing 4) ⊞ patch_offset ⊞ i) ⊞ Z.land outgoing 0xF in
    let a := u16_decrement (u16_increment a coarse_offset_incoming) coarse_offset_outgoing in
    u16_decrement (u16_increment a (patched_fine + fine_offset_incoming)) (patched_fine + fine_offset_outgoing)) a.

(** ** Rows of the source *)

Section rows.
Context (src : Z * Z -> Z) (channels : Z).

(** [src_rows.at(row, column)[c]], and the vector from there on. *)
Definition pixel_at (c row column : Z) : Z := src (row, column * channels + c).
Definition pixels_at (c row column : Z) : list Z := Filter2D.vld1q 16 src (row, column * channels + c).

Definition vector_part_of (total_patch_span : Z) : Z :=
  if is_single_channel then Z.shiftl (Z.shiftr total_patch_span 4) 4 else 0.

Definition initialize_patched_histogram_without_horizontal_borders (c valid_h total_patch_span starting_width kMargin : Z) (a : Z -> Z) : Z -> Z :=
  let vector_part := vector_part_of total_patch_span in
  let a := for_step 0 vector_part 16 (fun patch_offset a =>
    let valid_w := to_ptrdiff (starting_width ⊞ patch_offset ⊟ kMargin) in
    vector_initialize_patched_histogram (pixels_at c valid_h valid_w) c total_patch_span patch_offset a) a in
  for_range vector_part total_patch_span (fun patch_offset a =>
    let valid_w := to_ptrdiff (starting_width ⊞ patch_offset ⊟ kMargin) in
    scalar_initialize_patched_histogram (pixel_at c valid_h valid_w) c total_patch_span patch_offset a) a.

Definition initialize_patched_histogram_with_horizontal_borders (width : Z) (border_type : FixedBorderType)
    (c valid_h total_patch_span starting_width kMargin : Z) (a : Z -> Z) : Z -> Z :=
  for_range 0 total_patch_span (fun patch_offset a =>
    let valid_w := get_physical_index (to_ptrdiff (starting_width ⊞ patch_offset) - to_ptrdiff kMargin) width border_type in
    scalar_initialize_patched_histogram (pixel_at c valid_h valid_w) c total_patch_span patch_offset a) a.

Definition update_patch_histogram_without_horizontal_borders (c valid_old_h valid_new_h total_patch_span starting_width kMargin : Z) (a : Z -> Z) : Z -> Z :=
  let vector_part := vector_part_of total_patch_span in
  let a := for_step 0 vector_part 16 (fun patch_offset a =>
    let valid_w := to_ptrdiff (starting_width ⊞ patch_offset ⊟ kMargin) in
    vector_update_patch_histogram (pixels_at c valid_old_h valid_w) (pixels_at c valid_new_h valid_w) c total_patch_span patch_offset a) a in
  for_range vector_part total_patch_span (fun patch_offset a =>
    let valid_w := to_ptrdiff (starting_width ⊞ patch_offset ⊟ kMargin) in
    scalar_update_patch_histogram (pixel_at c valid_old_h valid_w) (pixel_at c valid_new_h valid_w) c total_patch_span patch_offset a) a.

Definition update_patch_histogram_with_horizontal_borders (width : Z) (border_type : FixedBorderType)
    (c valid_old_h valid_new_h total_patch_span starting_width kMargin : Z) (a : Z -> Z) : Z -> Z :=
  for_range 0 total_patch_span (fun patch_offset a =>
    let valid_w := get_physical_index (to_ptrdiff (starting_width ⊞ patch_offset) - to_ptrdiff kMargin) width border_type in
    scalar_update_patch_histogram (pixel_at c valid_old_h valid_w) (pixel_at c valid_new_h valid_w) c total_patch_span patch_offset a) a.
End rows.

(** ** Medians of a patch *)

(** [H] and [luc] become zero. *)
Definition clear_lookup_table (s : MedianBlurLargeHist) : MedianBlurLargeHist :=
  {| patched := patched s; H_coarse := fun _ => 0; H_fine := fun _ => 0; luc := fun _ => 0 |}.

Definition add_vectors (a : Z -> Z) (px : Z) (v : list Z * list Z) : list Z * list Z :=
  (vaddq_u16 v.1 (vld1q_u16 a px), vaddq_u16 v.2 (vld1q_u16 a (px + 8))).

Definition initialize_coarse (a : Z -> Z) (px : Z) (v_coarse : list Z * list Z) (kMargin : Z) : list Z * list Z :=
  for_range 0 (2 ⊠ kMargin) (fun i v => add_vectors a (px + 16 * i) v) v_coarse.

(** The vectors, and the stores to [H.coarse]. *)
Definition increment_coarse (s : MedianBlurLargeHist) (px : Z) (v_coarse : list Z * list Z) : (list Z * list Z) * MedianBlurLargeHist :=
  let v := add_vectors (patched s) px v_coarse in
  (v, {| patched := patched s; H_coarse := vst1q_u16 (vst1q_u16 (H_coarse s) 0 v.1) 8 v.2; H_fine := H_fine s; luc := luc s |}).

Definition decrement_coarse (a : Z -> Z) (px : Z) (v_coarse : list Z * list Z) : list Z * list Z :=
  (vsubq_u16 v_coarse.1 (vld1q_u16 a px), vsubq_u16 v_coarse.2 (vld1q_u16 a (px + 8))).

(** The vectors and the new value of [luc]. *)
Definition initialize_fine (a : Z -> Z) (px : Z) (v_fine : list Z * list Z) (patch_offset kMargin total_patch_span : Z) : (list Z * list Z) * Z :=
  let first := (patch_offset ⊟ kMargin) mod 2 ^ 16 in
  let last := Z.min (patch_offset ⊞ kMargin ⊞ 1) total_patch_span mod 2 ^ 16 in
  (for_range first last (fun luc v => add_vectors a (px + 16 * (luc - first)) v) v_fine, Z.max first last).

Definition update_fine (a : Z -> Z) (px : Z) (v_fine : list Z * list Z) (luc patch_offset kMargin total_patch_span : Z) : (list Z * list Z) * Z :=
  let last := (patch_offset ⊞ kMargin ⊞ 1) mod 2 ^ 16 in
  (for_range luc last (fun luc v =>
    let stride := 16 in
    let patch_span_limit := to_ptrdiff (total_patch_span ⊟ 1) in
    let base_offset := stride * Z.min luc patch_span_limit in
    let old_offset := stride * Z.max (luc - to_ptrdiff (2 ⊠ kMargin ⊞ 1)) 0 in
    (vsubq_u16 (vaddq_u16 v.1 (vld1q_u16 a (px + base_offset))) (vld1q_u16 a (px + old_offset)),
     vsubq_u16 (vaddq_u16 v.2 (vld1q_u16 a (px + base_offset + 8))) (vld1q_u16 a (px + old_offset + 8)))) v_fine, Z.max luc last).

(** The index and the cumulative count before it; [None] is the fuel that ran out. *)
Fixpoint find_coarse_index (fuel : nat) (H_coarse : Z -> Z) (cdf median_index coarse_index : Z) : option (Z * Z) :=
  match fuel with
  | O => None
  | S fuel =>
      let cdf := cdf ⊞ H_coarse coarse_index in
      if median_index <? cdf then Some (coarse_index, cdf ⊟ H_coarse coarse_index)
      else find_coarse_index fuel H_coarse cdf median_index (coarse_index + 1)
  end.

Fixpoint find_median (fuel : nat) (H_fine : Z -> Z) (cdf median_index coarse_index fine_index : Z) : option Z :=
  match fuel with
  | O => None
  | S fuel =>
      let cdf := cdf ⊞ H_fine (16 * coarse_index + fine_index) in
      if median_index <? cdf then Some ((16 ⊠ coarse_index ⊞ fine_index) mod 256)
      else find_median fuel H_fine cdf median_index coarse_index (fine_index + 1)
  end.

(** An iteration of the loop over the patch.  [dst_at] is [dst.at(h, column)[c]]. *)
Definition compute_one_median (c total_patch_span kMargin ksize : Z) (dst_at : Z -> Z * Z) (patch_offset : Z)
    (state : MedianBlurLargeHist * (list Z * list Z) * (Z * Z -> Z)) : option (MedianBlurLargeHist * (list Z * list Z) * (Z * Z -> Z)) :=
  let '(s, v_coarse, dst) := state in
  let median_index := (ksize ⊠ ksize) / 2 in
  let px := 16 ⊠ (total_patch_span ⊠ c ⊞ Z.min (patch_offset ⊞ kMargin) (total_patch_span ⊟ 1)) in
  let '(v_coarse, s) := increment_coarse s px v_coarse in
  '(coarse_index, cdf) ← find_coarse_index 16 (H_coarse s) 0 median_index 0;
  let '(v_fine, new_luc) :=
    if luc s coarse_index <=? patch_offset ⊟ kMargin then
      let px := patched_fine + 16 ⊠ (total_patch_span ⊠ (16 ⊠ c ⊞ coarse_index) ⊞ patch_offset ⊟ kMargin) in
      initialize_fine (patched s) px (vdup_n 8 0, vdup_n 8 0) patch_offset kMargin total_patch_span
    else
      let v_fine := (vld1q_u16 (H_fine s) (16 * coarse_index), vld1q_u16 (H_fine s) (16 * coarse_index + 8)) in
      let px := patched_fine + 16 ⊠ total_patch_span ⊠ (16 ⊠ c ⊞ coarse_index) in
      update_fine (patched s) px v_fine (luc s coarse_index) patch_offset kMargin total_patch_span in
  let px := 16 ⊠ (total_patch_span ⊠ c ⊞ Z.max (patch_offset ⊟ kMargin) 0) in
  let s := {| patched := patched s; H_coarse := H_coarse s;
              H_fine := vst1q_u16 (vst1q_u16 (H_fine s) (16 * coarse_index) v_fine.1) (16 * coarse_index + 8) v_fine.2;
              luc := upd (luc s) coarse_index new_luc |} in
  let v_coarse := decrement_coarse (patched s) px v_coarse in
  median ← find_median 16 (H_fine s) cdf median_index coarse_index 0;
  Some (s, v_coarse, upd dst (dst_at (to_ptrdiff (patch_offset ⊟ kMargin))) median).

Definition compute_patch_median_from_histogram (c total_patch_span kMargin ksize : Z) (dst_at : Z -> Z * Z)
    (state : MedianBlurLargeHist * (Z * Z -> Z)) : option (MedianBlurLargeHist * (Z * Z -> Z)) :=
  let '(s, dst) := state in
  let v_coarse := (vld1q_u16 (H_coarse s) 0, vld1q_u16 (H_coarse s) 8) in
  let px := 16 ⊠ total_patch_span ⊠ c in
  let v_coarse := initialize_coarse (patched s) px v_coarse kMargin in
  '(s, _, dst) ← for_range kMargin (total_patch_span ⊟ kMargin) (fun patch_offset r =>
    r ← r; compute_one_median c total_patch_span kMargin ksize dst_at patch_offset r) (Some (s, v_coarse, dst));
  Some (s, dst).

(** ** Regions *)

Section regions.
Context (image_width image_height channels ksize : Z) (border_type : FixedBorderType).
Local Abbreviation large_state := (MedianBlurLargeHist * (Z * Z -> Z))%type.

(** The patch whose first column is [w]; [initialize_row] and [update_row] are the functions for the
    region with or without horizontal borders. *)
Definition process_patch (initialize_row : Z -> Z -> Z -> Z -> Z -> (Z -> Z) -> Z -> Z)
    (update_row : Z -> Z -> Z -> Z -> Z -> Z -> (Z -> Z) -> Z -> Z) (x_end y_begin y_end w : Z) (state : large_state) : option large_state :=
  let kMargin := ksize / 2 in
  let total_patch_span := Z.min (x_end ⊟ w) patch_length ⊞ kMargin ⊠ 2 in
  let dst_at h c column := (h, to_ptrdiff w * channels + column * channels + c) in
  let s := set_patched (clear_patched_histogram (total_patch_span ⊠ channels) (patched state.1)) state.1 in
  let r := for_range 0 channels (fun c r =>
    r ← r;
    let s := clear_lookup_table r.1 in
    let a := for_range 0 ksize (fun r a =>
      let valid_h := get_physical_index (to_ptrdiff (y_begin ⊞ r) - to_ptrdiff kMargin) image_height border_type in
      initialize_row c valid_h total_patch_span w kMargin a) (patched s) in
    compute_patch_median_from_histogram c total_patch_span kMargin ksize (dst_at y_begin c) (set_patched a s, r.2)) (Some (s, state.2)) in
  for_range (y_begin + 1) y_end (fun h r =>
    let valid_old_h := get_physical_index (to_ptrdiff h - to_ptrdiff kMargin - 1) image_height border_type in
    let valid_new_h := get_physical_index (to_ptrdiff (h ⊞ kMargin)) image_height border_type in
    for_range 0 channels (fun c r =>
      r ← r;
      let s := clear_lookup_table r.1 in
      let a := update_row c valid_old_h valid_new_h total_patch_span w kMargin (patched s) in
      compute_patch_median_from_histogram c total_patch_span kMargin ksize (dst_at h c) (set_patched a s, r.2)) r) r.

Definition process_patches (initialize_row : Z -> Z -> Z -> Z -> Z -> (Z -> Z) -> Z -> Z)
    (update_row : Z -> Z -> Z -> Z -> Z -> Z -> (Z -> Z) -> Z -> Z) (x_begin y_begin x_end y_end : Z) (r : option large_state) : option large_state :=
  for_step x_begin x_end patch_length (fun w r =>
    r ← r; process_patch initialize_row update_row x_end y_begin y_end w r) r.
End regions.

Definition process_pixels_without_horizontal_borders (image_width image_height channels ksize : Z) (border_type : FixedBorderType) (src : Z * Z -> Z) :=
  process_patches image_height channels ksize border_type
    (initialize_patched_histogram_without_horizontal_borders src channels)
    (update_patch_histogram_without_horizontal_borders src channels).

Definition process_pixels_with_horizontal_borders (image_width image_height channels ksize : Z) (border_type : FixedBorderType) (src : Z * Z -> Z) :=
  process_patches image_height channels ksize border_type
    (initialize_patched_histogram_with_horizontal_borders src channels image_width border_type)
    (update_patch_histogram_with_horizontal_borders src channels image_width border_type).
End patches.

Definition median_process (is_single_channel : bool) (fresh : Z -> Z) (src dst : Z * Z -> Z) (width height y_begin y_end channels kernel_width kernel_height : Z)
    (border_type : FixedBorderType) : option (Z * Z -> Z) :=
  let kMargin := (kernel_width ⊟ 1) / 2 in
  let patched_fine := patched_fine_of channels kMargin in
  let with_borders := process_pixels_with_horizontal_borders patched_fine width height channels kernel_height border_type src in
  let without_borders := process_pixels_without_horizontal_borders is_single_channel patched_fine width height channels kernel_height border_type src in
  let processing_left_width := kMargin in
  let r := with_borders 0 y_begin processing_left_width y_end (Some (new_large_hist fresh, dst)) in
  let processing_center_width := width ⊟ 2 ⊠ kMargin in
  let r := without_borders processing_left_width y_begin (processing_left_width ⊞ processing_center_width) y_end r in
  let starting_width := processing_left_width ⊞ processing_center_width in
  let processing_right_width := width ⊟ processing_left_width ⊟ processing_center_width in
  r ← with_borders starting_width y_begin (starting_width ⊞ processing_right_width) y_end r;
  Some r.2.

Definition median_blur_large_hist_stripe_u8 (fresh : Z -> Z) (src dst : Z * Z -> Z) (width height y_begin y_end channels kernel_width kernel_height : Z)
    (border_type : FixedBorderType) : option (kleidicv_error_t * (Z * Z -> Z)) :=
  dst ← median_process (channels =? 1) fresh src dst width height y_begin y_end channels kernel_width kernel_height border_type;
  Some (KLEIDICV_OK, dst).
