(* ===== verification/LargeHistPatches.v ===== *)
(** * The patched histograms of the median blur count the columns of the image

    The cells of the allocation that belong to a column of a patch are apart from those of
    every other column, and the functions that add and exchange a row of pixels change the
    counts of each column by its pixel. *)

From S2P Require Import Prelude CTypes Utils Border Filter2D Vectors VectorMemory Histograms SmallHist LargeHist.

Local Abbreviation M := (2 ^ 16).

(** ** Loops by blocks *)

Lemma for_range_shift {S} k a b (body : Z -> S -> S) s : for_range a b (fun i => body (k + i)) s = for_range (k + a) (k + b) body s.
Proof.
  destruct (Z.le_gt_cases a b) as [Hab|Hab]; [|by rewrite !for_range_empty by lia].
  apply (for_range_ind (fun i s' => s' = for_range (k + a) (k + i) body s)); [done|by rewrite for_range_empty by lia|].
  intros i s' Hi ->. rewrite (for_range_last (k + a) (k + (i + 1))) by lia. f_equal; [lia|f_equal; lia].
Qed.

Lemma for_step_blocks {S} n k (body : Z -> S -> S) s : 0 <= n -> 0 < k ->
  for_step 0 (n * k) k (fun p => for_range p (p + k) body) s = for_range 0 (n * k) body s.
Proof.
  intros Hn Hk. unfold for_step.
  assert (step_count 0 (n * k) k = n) as ->.
  { unfold step_count. symmetry. apply Z.div_unique with (k - 1); lia. }
  apply (for_range_ind (fun i s' => s' = for_range 0 (i * k) body s)); [done|by rewrite for_range_empty by lia|].
  intros i s' Hi ->. rewrite <- for_range_split by nia. f_equal. lia.
Qed.

(** ** Cells *)

Section cells.
Context (base span channels : Z).
Hypothesis Hspan : 1 <= span <= 1024.
Hypothesis Hchannels : 1 <= channels <= 4.
Hypothesis Hbase : 16 * span * channels <= base < 2 ^ 40.

Definition coarse_cell (c po b : Z) : Z := 16 * (span * c + po) + b.
Definition fine_cell (c po v : Z) : Z := base + (16 * (span * (16 * c + v / 16) + po) + v mod 16).

Lemma index_injective n c po c' po' : 0 <= po < n -> 0 <= po' < n -> n * c + po = n * c' + po' -> c = c' /\ po = po'.
Proof. intros H H' E. apply (Z.div_mod_unique n); lia. Qed.

Lemma coarse_cell_range c po b : 0 <= c < channels -> 0 <= po < span -> 0 <= b < 16 -> 0 <= coarse_cell c po b < 16 * span * channels.
Proof. clear Hbase. unfold coarse_cell. intros. nia. Qed.

Lemma fine_cell_range c po v : 0 <= c < channels -> 0 <= po < span -> 0 <= v < 256 -> base <= fine_cell c po v < base + 256 * span * channels.
Proof.
  clear Hbase. unfold fine_cell. intros. assert (0 <= v / 16 < 16) by mod_lia. assert (0 <= v mod 16 < 16) by mod_lia.
  set (q := v / 16) in *. clearbody q. assert (0 <= 16 * c + q <= 16 * channels - 1) by lia.
  assert (0 <= span * (16 * c + q) <= span * (16 * channels - 1)) by nia. lia.
Qed.

Lemma coarse_cell_same c po b c' po' b' : 0 <= po < span -> 0 <= po' < span -> 0 <= b < 16 -> 0 <= b' < 16 ->
  bit (coarse_cell c po b =? coarse_cell c' po' b') = if (c =? c') && (po =? po') then bit (b =? b') else 0.
Proof.
  clear Hbase Hchannels. unfold coarse_cell. intros.
  destruct (Z.eqb_spec (16 * (span * c + po) + b) (16 * (span * c' + po') + b')) as [E|E].
  - assert (b = b') as -> by lia. destruct (index_injective span c po c' po') as [-> ->]; [done|done|lia|]. by rewrite !Z.eqb_refl.
  - destruct (Z.eqb_spec c c') as [->|], (Z.eqb_spec po po') as [->|], (Z.eqb_spec b b') as [->|]; try done.
Qed.

Lemma fine_cell_same c po v c' po' v' : 0 <= po < span -> 0 <= po' < span -> 0 <= v < 256 -> 0 <= v' < 256 ->
  bit (fine_cell c po v =? fine_cell c' po' v') = if (c =? c') && (po =? po') then bit (v =? v') else 0.
Proof.
  clear Hbase Hchannels. unfold fine_cell. intros.
  destruct (Z.eqb_spec (base + (16 * (span * (16 * c + v / 16) + po) + v mod 16)) (base + (16 * (span * (16 * c' + v' / 16) + po') + v' mod 16))) as [E|E].
  - assert (0 <= v mod 16 < 16 /\ 0 <= v' mod 16 < 16) as [? ?] by mod_lia. assert (v mod 16 = v' mod 16) by lia.
    destruct (index_injective span (16 * c + v / 16) po (16 * c' + v' / 16) po') as [E2 ->]; [done|done|lia|].
    assert (c = c' /\ v = v') as [-> ->] by mod_lia. by rewrite !Z.eqb_refl.
  - destruct (Z.eqb_spec c c') as [->|], (Z.eqb_spec po po') as [->|], (Z.eqb_spec v v') as [->|]; try done.
Qed.

Lemma coarse_not_fine c po b c' po' v : 0 <= c < channels -> 0 <= po < span -> 0 <= b < 16 -> 0 <= c' < channels -> 0 <= po' < span -> 0 <= v < 256 ->
  bit (coarse_cell c po b =? fine_cell c' po' v) = 0.
Proof.
  intros. pose proof (coarse_cell_range c po b ltac:(done) ltac:(done) ltac:(done)).
  pose proof (fine_cell_range c' po' v ltac:(done) ltac:(done) ltac:(done)).
  destruct (Z.eqb_spec (coarse_cell c po b) (fine_cell c' po' v)); done || lia.
Qed.

Lemma fine_not_coarse c po b c' po' v : 0 <= c < channels -> 0 <= po < span -> 0 <= b < 16 -> 0 <= c' < channels -> 0 <= po' < span -> 0 <= v < 256 ->
  bit (fine_cell c' po' v =? coarse_cell c po b) = 0.
Proof. rewrite Z.eqb_sym. apply coarse_not_fine. Qed.

(** ** Counts *)

Definition patch_counts (a : Z -> Z) (c po : Z) (cnt : Z -> Z) : Prop :=
  counts M (fun v => a (fine_cell c po v)) (fun b => a (coarse_cell c po b)) cnt.

(** Column [po] of channel [c] counts [cnt c po]. *)
Definition patches (a : Z -> Z) (cnt : Z -> Z -> Z -> Z) : Prop :=
  forall c po, 0 <= c < channels -> 0 <= po < span -> patch_counts a c po (cnt c po).

Lemma patches_ext a cnt cnt' : (forall c po v, 0 <= c < channels -> 0 <= po < span -> cnt c po v = cnt' c po v) -> patches a cnt -> patches a cnt'.
Proof. intros H Ha c po Hc Hpo. eapply counts_ext; [|by apply Ha]. intros. by apply H. Qed.

(** A step that adds [delta] to every cell. *)
Definition adds (delta : Z -> Z) (step : (Z -> Z) -> Z -> Z) : Prop :=
  forall a i x, a i = x mod M -> step a i = (x + delta i) mod M.

Lemma adds_bump k p : adds (fun i => k * bit (p =? i)) (fun a => bump M k a p).
Proof. intros a i x Ha. by apply bump_value. Qed.

Lemma adds_seq d1 d2 s1 s2 : adds d1 s1 -> adds d2 s2 -> adds (fun i => d1 i + d2 i) (fun a => s2 (s1 a)).
Proof. intros H1 H2 a i x Ha. rewrite Z.add_assoc. by apply H2, H1. Qed.

(** Changing one column. *)
Lemma patches_step a cnt step delta c po d : patches a cnt -> adds delta step -> 0 <= c < channels -> 0 <= po < span ->
  (forall c' po' v, 0 <= c' < channels -> 0 <= po' < span -> 0 <= v < 256 ->
    delta (fine_cell c' po' v) = if (c =? c') && (po =? po') then d v else 0) ->
  (forall c' po' b, 0 <= c' < channels -> 0 <= po' < span -> 0 <= b < 16 ->
    delta (coarse_cell c' po' b) = if (c =? c') && (po =? po') then blocks d b else 0) ->
  patches (step a) (fun c' po' v => cnt c' po' v + if (c =? c') && (po =? po') then d v else 0).
Proof.
  intros Ha Hs Hc Hpo Hf Hb c' po' Hc' Hpo'. destruct (Ha c' po' Hc' Hpo') as [Hfc Hcc]. split.
  - intros v Hv. cbn beta. rewrite (Hs a _ _ (Hfc v Hv)), Hf by done. done.
  - intros b Hbb. cbn beta. rewrite (Hs a _ _ (Hcc b Hbb)), Hb by done. f_equal.
    assert (blocks (fun v => cnt c' po' v + (if (c =? c') && (po =? po') then d v else 0)) b =
      blocks (cnt c' po') b + blocks (fun v => if (c =? c') && (po =? po') then d v else 0) b) as -> by apply total_add.
    f_equal. destruct ((c =? c') && (po =? po')); [done|]. symmetry. unfold blocks.
    by rewrite (total_const 0) by lia.
Qed.

(** ** Pixels *)

Lemma low_bits x : Z.land x 0xF = x mod 16.
Proof. change 0xF with (Z.ones 4). by rewrite Z.land_ones. Qed.

Lemma cell_products c po : 0 <= c < channels -> 0 <= po < span -> 0 <= span * c /\ span * c + po < 2 ^ 20.
Proof. clear Hbase. intros. nia. Qed.

(** The offsets of the code are the cells. *)
Lemma coarse_offset_exact c po p : 0 <= c < channels -> 0 <= po < span -> 0 <= p < 256 ->
  16 ⊠ (span ⊠ c ⊞ po) ⊞ Z.shiftr p 4 = coarse_cell c po (p / 16).
Proof.
  intros Hc Hpo Hp. destruct (cell_products c po Hc Hpo). rewrite shift_block. assert (0 <= p / 16 < 16) by mod_lia.
  rewrite (size_mul_small span), (size_add_small (span * c)), (size_mul_small 16), size_add_small by lia. done.
Qed.

Lemma fine_products c po p : 0 <= c < channels -> 0 <= po < span -> 0 <= p < 256 ->
  0 <= 16 * c + p / 16 < 64 /\ 0 <= span * (16 * c + p / 16) /\ span * (16 * c + p / 16) + po < 2 ^ 20 /\ 0 <= p mod 16 < 16 /\ 0 <= p / 16 < 16.
Proof. clear Hbase. intros. assert (0 <= p / 16 < 16) by mod_lia. assert (0 <= p mod 16 < 16) by mod_lia. set (q := p / 16) in *. clearbody q. nia. Qed.

Lemma fine_offset_exact c po p : 0 <= c < channels -> 0 <= po < span -> 0 <= p < 256 ->
  base + (16 ⊠ (span ⊠ (16 ⊠ c ⊞ Z.shiftr p 4) ⊞ po) ⊞ Z.land p 0xF) = fine_cell c po p.
Proof.
  intros Hc Hpo Hp. destruct (fine_products c po p Hc Hpo Hp) as (? & ? & ? & ? & ?). rewrite shift_block, low_bits.
  rewrite (size_mul_small 16 c), (size_add_small (16 * c)), (size_mul_small span), (size_add_small _ po), (size_mul_small 16), size_add_small by lia. done.
Qed.

Lemma fine_update_offset_exact c po p : 0 <= c < channels -> 0 <= po < span -> 0 <= p < 256 ->
  base + (16 ⊠ span ⊠ 16 ⊠ c ⊞ 16 ⊠ po ⊞ Z.land p 0xF ⊞ 16 ⊠ span ⊠ Z.shiftr p 4) = fine_cell c po p.
Proof.
  intros Hc Hpo Hp. destruct (fine_products c po p Hc Hpo Hp) as (? & ? & ? & ? & ?). destruct (cell_products c po Hc Hpo).
  rewrite shift_block, low_bits. assert (0 <= span * (p / 16) < 2 ^ 20) by nia.
  rewrite (size_mul_small 16 span), (size_mul_small (16 * span) 16), (size_mul_small (16 * span * 16) c), (size_mul_small 16 po) by lia.
  rewrite (size_mul_small (16 * span) (p / 16)), (size_add_small (16 * span * 16 * c)) by lia.
  rewrite (size_add_small (16 * span * 16 * c + 16 * po)), size_add_small by lia. unfold fine_cell. lia.
Qed.

Lemma initialize_patches a cnt p c po : patches a cnt -> 0 <= c < channels -> 0 <= po < span -> 0 <= p < 256 ->
  patches (scalar_initialize_patched_histogram base p c span po a)
    (fun c' po' v => cnt c' po' v + if (c =? c') && (po =? po') then bit (p =? v) else 0).
Proof.
  intros Ha Hc Hpo Hp. unfold scalar_initialize_patched_histogram. cbv zeta.
  rewrite coarse_offset_exact, fine_offset_exact, !increment_bump by done.
  apply (patches_step a cnt (fun a => bump M 1 (bump M 1 a (coarse_cell c po (p / 16))) (fine_cell c po p))
    _ c po (fun v => bit (p =? v)) Ha (adds_seq _ _ _ _ (adds_bump 1 _) (adds_bump 1 _)) Hc Hpo); assert (0 <= p / 16 < 16) by mod_lia.
  - intros c' po' v Hc' Hpo' Hv. cbn beta. rewrite coarse_not_fine, fine_cell_same by done. lia.
  - intros c' po' b Hc' Hpo' Hb. cbn beta. rewrite fine_not_coarse, coarse_cell_same, blocks_indicator by (done || lia). lia.
Qed.

Lemma update_patches a cnt o p c po : patches a cnt -> 0 <= c < channels -> 0 <= po < span -> 0 <= o < 256 -> 0 <= p < 256 ->
  patches (scalar_update_patch_histogram base o p c span po a)
    (fun c' po' v => cnt c' po' v + if (c =? c') && (po =? po') then bit (p =? v) - bit (o =? v) else 0).
Proof.
  intros Ha Hc Hpo Ho Hp. unfold scalar_update_patch_histogram. cbv zeta.
  rewrite !coarse_offset_exact, !fine_update_offset_exact, !decrement_bump, !increment_bump by done.
  apply (patches_step a cnt (fun a => bump M (-1) (bump M 1 (bump M (-1) (bump M 1 a (coarse_cell c po (p / 16))) (coarse_cell c po (o / 16))) (fine_cell c po p)) (fine_cell c po o))
    _ c po (fun v => bit (p =? v) - bit (o =? v)) Ha
    (adds_seq _ _ _ _ (adds_seq _ _ _ _ (adds_seq _ _ _ _ (adds_bump 1 _) (adds_bump (-1) _)) (adds_bump 1 _)) (adds_bump (-1) _)) Hc Hpo);
    assert (0 <= p / 16 < 16 /\ 0 <= o / 16 < 16) as [? ?] by mod_lia.
  - intros c' po' v Hc' Hpo' Hv. cbn beta. rewrite !coarse_not_fine, !fine_cell_same by done.
    destruct ((c =? c') && (po =? po')); lia.
  - intros c' po' b Hc' Hpo' Hb. cbn beta. rewrite !fine_not_coarse, !coarse_cell_same by done.
    rewrite blocks_sub, !blocks_indicator by lia. destruct ((c =? c') && (po =? po')); lia.
Qed.
End cells.

(** ** Rows *)

Section rows.
Context (base span channels : Z).
Hypothesis Hspan : 1 <= span <= 1024.
Hypothesis Hchannels : 1 <= channels <= 4.
Hypothesis Hbase : 16 * span * channels <= base < 2 ^ 40.

Local Abbreviation patches := (patches base span channels).

(** A loop over the columns whose iteration [po] changes column [po] of channel [c] by [d po]. *)
Lemma row_loop a cnt c (step : Z -> (Z -> Z) -> Z -> Z) (d : Z -> Z -> Z) : patches a cnt ->
  (forall po a cnt, 0 <= po < span -> patches a cnt ->
    patches (step po a) (fun c' po' v => cnt c' po' v + if (c =? c') && (po =? po') then d po v else 0)) ->
  patches (for_range 0 span step a) (fun c' po' v => cnt c' po' v + if c =? c' then d po' v else 0).
Proof.
  intros Ha Hstep. eapply patches_ext; [|apply (for_range_ind (fun k a => patches a (fun c' po' v => cnt c' po' v + if (c =? c') && (po' <? k) then d po' v else 0)) 0 span); [lia| |]].
  - intros c' po v Hc Hpo. cbn beta. rewrite (proj2 (Z.ltb_lt po span)), andb_true_r by lia. done.
  - eapply patches_ext; [|exact Ha]. intros c' po v Hc Hpo. cbn beta. rewrite (proj2 (Z.ltb_ge po 0)), andb_false_r by lia. lia.
  - intros po a' Hpo Ha'. eapply patches_ext; [|exact (Hstep po a' _ Hpo Ha')]. intros c' po' v Hc Hpo'. cbn beta.
    destruct (Z.eqb_spec c c'), (Z.ltb_spec po' po), (Z.eqb_spec po po'), (Z.ltb_spec po' (po + 1)); subst; cbn [andb]; lia.
Qed.

Context (width height K : Z) (border_type : FixedBorderType) (src : Z * Z -> Z) (w : Z).
Hypothesis HK : 3 <= K <= 255.
Hypothesis Hodd : Z.Odd K.
Hypothesis Hw : K - 1 <= width < 2 ^ 62.
Hypothesis Hh : K - 1 <= height < 2 ^ 62.
Hypothesis bytes : forall y e, 0 <= y < height -> 0 <= e < width * channels -> 0 <= src (y, e) < 256.
Hypothesis Hpatch : 0 <= w /\ w + span - 2 * (K / 2) <= width.
Hypothesis Hmargin : 2 * (K / 2) < span.

(** The pixel of channel [c] in column [po] of the patch and row [j], before the borders are applied to [j]. *)
Definition patch_pixel (c j po : Z) : Z := src (border_index border_type height j, border_index border_type width (w + po - K / 2) * channels + c).

Definition row_inside (j : Z) : Prop := - (K / 2) <= j < height + K / 2.

Lemma large_margin : 2 * (K / 2) = K - 1 /\ 1 <= K / 2 <= 127.
Proof. clear - HK Hodd. destruct Hodd as [h ->]. mod_lia. Qed.

Lemma patch_pixel_bytes c j po : 0 <= c < channels -> row_inside j -> 0 <= po < span -> 0 <= patch_pixel c j po < 256.
Proof.
  intros Hc Hj Hpo. pose proof large_margin. unfold row_inside in Hj. apply bytes; [apply border_index_range; lia|].
  apply element_range; [apply border_index_range; lia|done].
Qed.

Definition initialize_columns (c j : Z) : (Z -> Z) -> Z -> Z :=
  for_range 0 span (fun po a => scalar_initialize_patched_histogram base (patch_pixel c j po) c span po a).

Definition update_columns (c old new : Z) : (Z -> Z) -> Z -> Z :=
  for_range 0 span (fun po a => scalar_update_patch_histogram base (patch_pixel c old po) (patch_pixel c new po) c span po a).

Lemma initialize_columns_counts a cnt c j : patches a cnt -> 0 <= c < channels -> row_inside j ->
  patches (initialize_columns c j a) (fun c' po v => cnt c' po v + if c =? c' then bit (patch_pixel c j po =? v) else 0).
Proof.
  intros Ha Hc Hj. apply (row_loop a cnt c _ (fun po v => bit (patch_pixel c j po =? v)) Ha).
  intros po a' cnt' Hpo Ha'. apply initialize_patches; try done. by apply patch_pixel_bytes.
Qed.

Lemma update_columns_counts a cnt c old new : patches a cnt -> 0 <= c < channels -> row_inside old -> row_inside new ->
  patches (update_columns c old new a)
    (fun c' po v => cnt c' po v + if c =? c' then bit (patch_pixel c new po =? v) - bit (patch_pixel c old po =? v) else 0).
Proof.
  intros Ha Hc Hold Hnew. apply (row_loop a cnt c _ (fun po v => bit (patch_pixel c new po =? v) - bit (patch_pixel c old po =? v)) Ha).
  intros po a' cnt' Hpo Ha'. apply update_patches; try done; by apply patch_pixel_bytes.
Qed.

(** ** The functions for the regions with horizontal borders *)

Lemma bordered_column po : 0 <= po < span ->
  get_physical_index (to_ptrdiff (w ⊞ po) - to_ptrdiff (K / 2)) width border_type = border_index border_type width (w + po - K / 2).
Proof.
  intros. pose proof large_margin. rewrite size_add_small, !to_ptrdiff_small by lia. by rewrite get_physical_index_reference by lia.
Qed.

Lemma initialize_with_borders c j a :
  initialize_patched_histogram_with_horizontal_borders base src channels width border_type c (border_index border_type height j) span w (K / 2) a =
  initialize_columns c j a.
Proof. apply for_range_ext. intros po a' Hpo. cbv zeta. rewrite bordered_column by done. done. Qed.

Lemma update_with_borders c old new a :
  update_patch_histogram_with_horizontal_borders base src channels width border_type c (border_index border_type height old)
    (border_index border_type height new) span w (K / 2) a =
  update_columns c old new a.
Proof. apply for_range_ext. intros po a' Hpo. cbv zeta. rewrite bordered_column by done. done. Qed.

(** ** The functions for the region without *)

Hypothesis Hinner : K / 2 <= w /\ w + span - K / 2 <= width.
Context (is_single_channel : bool).
Hypothesis Hsingle : is_single_channel = true -> channels = 1.

Lemma unbordered_column po : 0 <= po < span -> to_ptrdiff (w ⊞ po ⊟ (K / 2)) = w + po - K / 2 /\ border_index border_type width (w + po - K / 2) = w + po - K / 2.
Proof.
  intros. pose proof large_margin. rewrite size_add_small, size_sub_small, to_ptrdiff_small by lia. by rewrite border_index_inside by lia.
Qed.

Lemma inner_pixel c j po : 0 <= po < span ->
  pixel_at src channels c (border_index border_type height j) (to_ptrdiff (w ⊞ po ⊟ (K / 2))) = patch_pixel c j po.
Proof. intros Hpo. destruct (unbordered_column po Hpo) as [-> E]. unfold pixel_at, patch_pixel. by rewrite E. Qed.

Lemma inner_pixels c j po i : is_single_channel = true -> 0 <= po -> 0 <= i < 16 -> po + i < span ->
  pixels_at src channels c (border_index border_type height j) (to_ptrdiff (w ⊞ po ⊟ (K / 2))) !!! Z.to_nat i = patch_pixel c j (po + i).
Proof.
  intros H1%Hsingle Hpo Hi Hs. destruct (unbordered_column po ltac:(lia)) as [-> _]. destruct (unbordered_column (po + i) ltac:(lia)) as [_ E].
  unfold pixels_at, Filter2D.vld1q, patch_pixel. rewrite E. apply list_lookup_total_correct.
  rewrite list_lookup_fmap, lookup_seqZ_lt by lia. cbn [fmap option_fmap option_map fst snd]. do 3 f_equal. rewrite H1. lia.
Qed.

Lemma vector_part_range : exists n, 0 <= n /\ vector_part_of is_single_channel span = n * 16 /\ n * 16 <= span /\ (n = 0 \/ is_single_channel = true).
Proof.
  clear - Hspan. unfold vector_part_of. destruct is_single_channel; [|exists 0; lia].
  exists (span / 16). rewrite Z.shiftl_mul_pow2, Z.shiftr_div_pow2 by lia. change (2 ^ 4) with 16.
  split; [mod_lia|]. split; [done|]. split; [mod_lia|by right].
Qed.

(** The vector part is the same loop, 16 columns at a time. *)
Lemma vector_part_loop (vector_step step : Z -> (Z -> Z) -> Z -> Z) a :
  (is_single_channel = true -> forall po a, 0 <= po -> po + 16 <= span -> vector_step po a = for_range 0 16 (fun i a => step (po + i) a) a) ->
  for_range (vector_part_of is_single_channel span) span step (for_step 0 (vector_part_of is_single_channel span) 16 vector_step a) =
  for_range 0 span step a.
Proof.
  intros Hv. destruct vector_part_range as (n & Hn & -> & Hle & Hs).
  rewrite (for_range_split 0 (n * 16) span) by lia. f_equal. rewrite <- for_step_blocks by lia.
  unfold for_step. apply for_range_ext. intros i a' Hi. unfold step_count in Hi.
  replace ((n * 16 - 0 + 16 - 1) / 16) with n in Hi by mod_lia.
  rewrite Hv; [|by destruct Hs as [->|]; [lia|]|lia|lia].
  rewrite (for_range_shift (0 + i * 16) 0 16 step). by rewrite Z.add_0_r.
Qed.

Lemma initialize_without_borders c j a : 0 <= c < channels -> row_inside j ->
  initialize_patched_histogram_without_horizontal_borders is_single_channel base src channels c (border_index border_type height j) span w (K / 2) a =
  initialize_columns c j a.
Proof.
  intros Hc Hj. unfold initialize_patched_histogram_without_horizontal_borders. cbv zeta.
  rewrite vector_part_loop.
  - apply for_range_ext. intros po a' Hpo. cbv zeta. by rewrite inner_pixel.
  - intros H1 po a' Hpo Hs. cbv zeta. apply for_range_ext. intros i a2 Hi. cbv zeta.
    rewrite inner_pixel, inner_pixels by (done || lia). unfold scalar_initialize_patched_histogram. cbv zeta.
    assert (forall x, 0 <= span * x < 2 ^ 40 -> span ⊠ x ⊞ po ⊞ i = span ⊠ x ⊞ (po + i)) as Hadd.
    { intros x Hx. rewrite (size_mul_small span x), (size_add_small _ po), !size_add_small by lia. lia. }
    pose proof (patch_pixel_bytes c j (po + i) Hc Hj ltac:(lia)) as Hp.
    destruct (fine_products span channels Hspan Hchannels c (po + i) (patch_pixel c j (po + i)) Hc ltac:(lia) Hp) as (? & ? & ? & ? & ?).
    destruct (cell_products span channels Hspan Hchannels c (po + i) Hc ltac:(lia)).
    rewrite shift_block, (size_mul_small 16 c), (size_add_small (16 * c)), !Hadd by lia. done.
Qed.

Lemma update_without_borders c old new a : 0 <= c < channels -> row_inside old -> row_inside new ->
  update_patch_histogram_without_horizontal_borders is_single_channel base src channels c (border_index border_type height old)
    (border_index border_type height new) span w (K / 2) a =
  update_columns c old new a.
Proof.
  intros Hc Hold Hnew. unfold update_patch_histogram_without_horizontal_borders. cbv zeta.
  rewrite vector_part_loop.
  - apply for_range_ext. intros po a' Hpo. cbv zeta. by rewrite !inner_pixel.
  - intros H1 po a' Hpo Hs. cbv zeta. apply for_range_ext. intros i a2 Hi. cbv zeta.
    rewrite !inner_pixel, !inner_pixels by (done || lia). unfold scalar_update_patch_histogram. cbv zeta.
    assert (forall x, 0 <= span * x < 2 ^ 40 -> span ⊠ x ⊞ po ⊞ i = span ⊠ x ⊞ (po + i)) as Hadd.
    { intros x Hx. rewrite (size_mul_small span x), (size_add_small _ po), !size_add_small by lia. lia. }
    pose proof (patch_pixel_bytes c old (po + i) Hc Hold ltac:(lia)) as Ho.
    pose proof (patch_pixel_bytes c new (po + i) Hc Hnew ltac:(lia)) as Hp.
    destruct (cell_products span channels Hspan Hchannels c (po + i) Hc ltac:(lia)).
    rewrite !(fine_update_offset_exact base span channels) by (done || lia).
    rewrite <- !(fine_offset_exact base span channels) by (done || lia).
    destruct (fine_products span channels Hspan Hchannels c (po + i) _ Hc ltac:(lia) Ho) as (? & ? & ? & ? & ?).
    destruct (fine_products span channels Hspan Hchannels c (po + i) _ Hc ltac:(lia) Hp) as (? & ? & ? & ? & ?).
    rewrite !shift_block, (size_mul_small 16 c), !(size_add_small (16 * c)), !Hadd by lia. done.
Qed.
End rows.
