(* ===== verification/LargeHistMedian.v ===== *)
(** * The medians of a row of a patch

    From the counts of the columns of a patch, [compute_patch_median_from_histogram] writes
    the median of every window of the row: the coarse vectors hold the sum of the columns of
    the window, and each segment of [H.fine] the sum of the [ksize] columns before [luc]. *)

From S2P Require Import Prelude CTypes Utils Border Filter2D Vectors VectorMemory Histograms SmallHist LargeHist LargeHistPatches.

Local Abbreviation M := (2 ^ 16).

(** ** Pairs of vectors *)

(** The 16 lanes of two vectors of halfwords. *)
Definition halves (v : list Z * list Z) (f : Z -> Z) : Prop :=
  lanes_of 8 v.1 (fun i => f (Z.of_nat i)) /\ lanes_of 8 v.2 (fun i => f (8 + Z.of_nat i)).

Lemma halves_ext v f g : (forall b, 0 <= b < 16 -> f b = g b) -> halves v f -> halves v g.
Proof. intros H [H1 H2]. split; (eapply lanes_of_ext; [|eassumption]); intros i Hi; cbn beta; apply H; lia. Qed.

Lemma load_lanes a px : lanes_of 8 (vld1q_u16 a px) (fun i => a (px + Z.of_nat i)).
Proof. eapply lanes_of_ext; [|exact (lanes_of_vld1q 1 8 a px)]. intros i Hi. cbn beta. f_equal. lia. Qed.

Lemma halves_load a px : halves (vld1q_u16 a px, vld1q_u16 a (px + 8)) (fun b => a (px + b)).
Proof.
  split; cbn [fst snd]; [apply load_lanes|]. eapply lanes_of_ext; [|apply load_lanes]. intros i Hi. cbn beta. f_equal. lia.
Qed.

Lemma halves_add v w f g : halves v f -> halves w g -> halves (vadd uint16 v.1 w.1, vadd uint16 v.2 w.2) (fun b => (f b + g b) mod M).
Proof. intros [H1 H2] [H3 H4]. split; by apply (lanes_of_zip_with 8 _ _ _ _ (fun x y => static_cast uint16 (x + y))). Qed.

Lemma halves_sub v w f g : halves v f -> halves w g -> halves (vsub uint16 v.1 w.1, vsub uint16 v.2 w.2) (fun b => (f b - g b) mod M).
Proof. intros [H1 H2] [H3 H4]. split; by apply (lanes_of_zip_with 8 _ _ _ _ (fun x y => static_cast uint16 (x - y))). Qed.

Lemma halves_zero : halves (vdup_n 8 0, vdup_n 8 0) (fun _ => 0).
Proof. split; (split; [done|]); intros i Hi; apply list_lookup_total_correct; by apply lookup_replicate_2. Qed.

Lemma store_lanes a p v f i : lanes_of 8 v f -> vst1q_u16 a p v i = if (p <=? i) && (i <? p + 8) then f (Z.to_nat (i - p)) else a i.
Proof.
  intros [Hl Hf]. unfold vst1q_u16. destruct (vst1q_filled 1 ltac:(lia) p v a) as [Hin Hout]. rewrite Hl in *.
  destruct (Z.leb_spec p i), (Z.ltb_spec i (p + 8)); cbn [andb].
  - rewrite <- Hf, <- (Hin (i - p)) by lia. f_equal. lia.
  - apply Hout. lia.
  - apply Hout. lia.
  - apply Hout. lia.
Qed.

Lemma halves_store a p v f i : halves v f -> vst1q_u16 (vst1q_u16 a p v.1) (p + 8) v.2 i = if (p <=? i) && (i <? p + 16) then f (i - p) else a i.
Proof.
  intros [H1 H2]. rewrite (store_lanes _ _ _ _ _ H2), (store_lanes _ _ _ _ _ H1).
  destruct (Z.leb_spec (p + 8) i), (Z.ltb_spec i (p + 8 + 8)), (Z.leb_spec p i), (Z.ltb_spec i (p + 8)), (Z.ltb_spec i (p + 16));
    cbn [andb]; try lia; f_equal; lia.
Qed.

Lemma halves_store_inside a p v f j : halves v f -> 0 <= j < 16 -> vst1q_u16 (vst1q_u16 a p v.1) (p + 8) v.2 (p + j) = f j.
Proof.
  intros Hv Hj. rewrite (halves_store a p v f (p + j) Hv).
  destruct (Z.leb_spec p (p + j)), (Z.ltb_spec (p + j) (p + 16)); [cbn [andb]; f_equal; lia|lia..].
Qed.

Lemma halves_store_outside a p v f i : halves v f -> i < p \/ p + 16 <= i -> vst1q_u16 (vst1q_u16 a p v.1) (p + 8) v.2 i = a i.
Proof.
  intros Hv Hi. rewrite (halves_store a p v f i Hv). by destruct (Z.leb_spec p i), (Z.ltb_spec i (p + 16)); [lia|..].
Qed.

(** ** Searches *)

Section search.
Context (K : Z) (window : Z -> Z -> Z).
Hypothesis HK : 3 <= K <= 255.
Hypothesis bytes : forall r q, 0 <= r < K -> 0 <= q < K -> 0 <= window r q < 256.

Local Abbreviation count := (occurrences K window).
Local Abbreviation target := (K * K / 2).

Lemma large_target : 0 <= target < K * K /\ K * K < M.
Proof. clear - HK. assert (9 <= K * K <= 65025) by nia. mod_lia. Qed.

Lemma find_coarse_index_crosses H fuel b : (forall b, 0 <= b < 16 -> H b = blocks count b) ->
  Z.of_nat fuel + b = 16 -> 0 <= b -> total (16 * b) count <= target ->
  exists b', 0 <= b' < 16 /\ find_coarse_index fuel H (total (16 * b) count) target b = Some (b', total (16 * b') count) /\
    total (16 * b') count <= target < total (16 * (b' + 1)) count.
Proof.
  intros HH. destruct large_target. revert b. induction fuel as [|fuel IH]; intros b Hf Hb Ht.
  - assert (b = 16) as -> by lia. change (16 * 16) with 256 in Ht. rewrite occurrences_all in Ht by (done || lia). lia.
  - cbn [find_coarse_index]. cbv zeta. rewrite HH by lia.
    pose proof (blocks_below count (b + 1) ltac:(lia)) as E. rewrite total_last, blocks_below in E by lia.
    pose proof (below_range K window ltac:(lia) bytes (16 * b) ltac:(lia)). pose proof (below_range K window ltac:(lia) bytes (16 * (b + 1)) ltac:(lia)).
    rewrite size_add_small, E by lia. destruct (Z.ltb_spec target (total (16 * (b + 1)) count)); [|apply IH; lia].
    exists b. split; [lia|]. rewrite size_sub_small by lia. split; [|lia]. do 2 f_equal. lia.
Qed.

Lemma find_median_crosses H k fuel f : (forall f, 0 <= f < 16 -> H (16 * k + f) = count (16 * k + f)) -> 0 <= k < 16 ->
  total (16 * k) count <= target < total (16 * (k + 1)) count ->
  Z.of_nat fuel + f = 16 -> 0 <= f -> total (16 * k + f) count <= target ->
  exists m, find_median fuel H (total (16 * k + f) count) target k f = Some m /\ total m count <= target < total (m + 1) count.
Proof.
  intros HH Hk Hc. destruct large_target. revert f. induction fuel as [|fuel IH]; intros f Hf Hb Ht.
  - assert (f = 16) as -> by lia. replace (16 * k + 16) with (16 * (k + 1)) in Ht by lia. lia.
  - cbn [find_median]. cbv zeta. rewrite HH by lia. pose proof (total_last count (16 * k + f) ltac:(lia)) as E.
    pose proof (below_range K window ltac:(lia) bytes (16 * k + f) ltac:(lia)). pose proof (below_range K window ltac:(lia) bytes (16 * k + f + 1) ltac:(lia)).
    rewrite size_add_small, <- E by lia. destruct (Z.ltb_spec target (total (16 * k + f + 1) count)).
    + exists (16 * k + f). split; [|done]. rewrite size_mul_small, size_add_small, Z.mod_small by lia. done.
    + rewrite <- Z.add_assoc. apply IH; [lia|lia|]. by rewrite Z.add_assoc.
Qed.
End search.

(** ** The loop over the patch *)

Section patch.
Context (base span channels K : Z) (a : Z -> Z) (cnt : Z -> Z -> Z -> Z) (c : Z).
Hypothesis Hspan : 1 <= span <= 1024.
Hypothesis Hchannels : 1 <= channels <= 4.
Hypothesis Hbase : 16 * span * channels <= base < 2 ^ 40.
Hypothesis HK : 3 <= K <= 255.
Hypothesis Hodd : Z.Odd K.
Hypothesis Hmargin : 2 * (K / 2) < span.
Hypothesis Hc : 0 <= c < channels.
Hypothesis counted : patches base span channels a cnt.

Local Abbreviation m := (K / 2).
Local Abbreviation column := (cnt c).
Local Abbreviation coarse_cell := (coarse_cell span).
Local Abbreviation fine_cell := (fine_cell base span).

(** The counts of [n] columns from [lo] on. *)
Definition columns_total (n lo v : Z) : Z := total n (fun i => column (lo + i) v).
Definition columns_blocks (n lo b : Z) : Z := blocks (columns_total n lo) b.

Lemma columns_total_next n lo v : 0 <= n -> columns_total (n + 1) lo v = columns_total n lo v + column (lo + n) v.
Proof. intros. unfold columns_total. by rewrite total_last. Qed.

Lemma columns_total_drop n lo v : 0 <= n -> columns_total (n + 1) lo v = column lo v + columns_total n (lo + 1) v.
Proof.
  intros. unfold columns_total. rewrite Z.add_comm, total_split, total_one, Z.add_0_r by lia. f_equal.
  apply total_ext. intros i _. f_equal. lia.
Qed.

Lemma columns_blocks_next n lo b : 0 <= n -> columns_blocks (n + 1) lo b = columns_blocks n lo b + blocks (column (lo + n)) b.
Proof.
  intros. unfold columns_blocks, blocks. rewrite <- total_add. apply total_ext. intros j _. by rewrite columns_total_next.
Qed.

Lemma columns_blocks_drop n lo b : 0 <= n -> columns_blocks (n + 1) lo b = blocks (column lo) b + columns_blocks n (lo + 1) b.
Proof.
  intros. unfold columns_blocks, blocks. rewrite <- total_add. apply total_ext. intros j _. by rewrite columns_total_drop.
Qed.

Lemma columns_none lo v : columns_total 0 lo v = 0.
Proof. by apply total_none. Qed.

Lemma columns_blocks_none lo b : columns_blocks 0 lo b = 0.
Proof. unfold columns_blocks, blocks. rewrite (total_ext _ (fun _ => 0)), total_const by (lia || (intros; apply columns_none)). lia. Qed.

Lemma half_kernel : 2 * m = K - 1 /\ 1 <= m <= 127.
Proof. clear - HK Hodd. destruct Hodd as [h ->]. mod_lia. Qed.

Lemma coarse_lanes px po : 0 <= po < span -> px = coarse_cell c po 0 ->
  halves (vld1q_u16 a px, vld1q_u16 a (px + 8)) (fun b => blocks (column po) b mod M).
Proof.
  intros Hpo ->. eapply halves_ext; [|apply halves_load]. intros b Hb. cbn beta.
  rewrite <- (counts_coarse _ _ _ _ (counted c po Hc Hpo) b Hb). f_equal. unfold LargeHistPatches.coarse_cell. lia.
Qed.

Lemma fine_lanes px po k : 0 <= po < span -> 0 <= k < 16 -> px = base + 16 * (span * (16 * c + k) + po) ->
  halves (vld1q_u16 a px, vld1q_u16 a (px + 8)) (fun f => column po (16 * k + f) mod M).
Proof.
  intros Hpo Hk ->. eapply halves_ext; [|apply halves_load]. intros f Hf. cbn beta.
  rewrite <- (counts_fine _ _ _ _ (counted c po Hc Hpo) (16 * k + f)) by lia. f_equal. unfold LargeHistPatches.fine_cell.
  assert ((16 * k + f) / 16 = k /\ (16 * k + f) mod 16 = f) as [-> ->] by mod_lia. lia.
Qed.

Lemma add_coarse_lanes v f px po : halves v f -> 0 <= po < span -> px = coarse_cell c po 0 ->
  halves (add_vectors a px v) (fun b => (f b + blocks (column po) b mod M) mod M).
Proof. intros Hv Hpo Hpx. exact (halves_add v _ _ _ Hv (coarse_lanes px po Hpo Hpx)). Qed.

Lemma add_fine_lanes v f px po k : halves v f -> 0 <= po < span -> 0 <= k < 16 -> px = base + 16 * (span * (16 * c + k) + po) ->
  halves (add_vectors a px v) (fun b => (f b + column po (16 * k + b) mod M) mod M).
Proof. intros Hv Hpo Hk Hpx. exact (halves_add v _ _ _ Hv (fine_lanes px po k Hpo Hk Hpx)). Qed.

(** [px] of column [po]. *)
Lemma coarse_px po : 0 <= po < span -> 16 ⊠ (span ⊠ c ⊞ po) = coarse_cell c po 0.
Proof.
  intros Hpo. destruct (cell_products span channels Hspan Hchannels c po Hc Hpo).
  rewrite (size_mul_small span), (size_add_small _ po), size_mul_small by lia. unfold LargeHistPatches.coarse_cell. lia.
Qed.

Lemma initialize_coarse_lanes v : halves v (fun _ => 0) ->
  halves (initialize_coarse a (16 ⊠ span ⊠ c) v m) (fun b => columns_blocks (2 * m) 0 b mod M).
Proof.
  intros Hv. destruct half_kernel. unfold initialize_coarse. rewrite (size_mul_small 2) by lia.
  destruct (cell_products span channels Hspan Hchannels c 0 Hc ltac:(lia)).
  rewrite (size_mul_small 16 span), (size_mul_small (16 * span)) by lia.
  apply (for_range_ind (fun i v => halves v (fun b => columns_blocks i 0 b mod M))); [lia| |].
  - eapply halves_ext; [|exact Hv]. intros b _. cbn beta. by rewrite columns_blocks_none.
  - intros i v' Hi Hv'. eapply halves_ext; [|apply (add_coarse_lanes _ _ _ i Hv'); [lia|]].
    + intros b _. cbn beta. by rewrite columns_blocks_next, Z.add_0_l, <- Zplus_mod by lia.
    + unfold LargeHistPatches.coarse_cell. lia.
Qed.

(** Both ways to bring a segment up to date leave the sum of the columns of the window. *)
Lemma initialize_fine_lanes px po k v : m <= po < span - m -> 0 <= k < 16 -> halves v (fun _ => 0) ->
  px = base + 16 * (span * (16 * c + k) + (po - m)) ->
  exists v', initialize_fine a px v po m span = (v', po + m + 1) /\ halves v' (fun f => columns_total K (po - m) (16 * k + f) mod M).
Proof.
  intros Hpo Hk Hv Hpx. destruct half_kernel. unfold initialize_fine. cbv zeta.
  rewrite size_sub_small, (size_add_small po), (size_add_small (po + m)), Z.min_l, !Z.mod_small, Z.max_r by lia.
  eexists. split; [reflexivity|]. apply (halves_ext _ (fun f => columns_total (po + m + 1 - (po - m)) (po - m) (16 * k + f) mod M)).
  { intros f _. do 2 f_equal. lia. }
  apply (for_range_ind (fun l v => halves v (fun f => columns_total (l - (po - m)) (po - m) (16 * k + f) mod M))); [lia| |].
  - eapply halves_ext; [|exact Hv]. intros f _. cbn beta. by rewrite Z.sub_diag, columns_none.
  - intros l v' Hl Hv'. eapply halves_ext; [|apply (add_fine_lanes _ _ _ l k Hv'); [lia|done|lia]].
    intros f _. cbn beta. replace (l + 1 - (po - m)) with (l - (po - m) + 1) by lia.
    rewrite columns_total_next, <- Zplus_mod by lia. do 3 f_equal. lia.
Qed.

Lemma update_fine_lanes px po k v l : m <= po < span - m -> 0 <= k < 16 -> K <= l <= po + m ->
  halves v (fun f => columns_total K (l - K) (16 * k + f) mod M) -> px = base + 16 * (span * (16 * c + k)) ->
  exists v', update_fine a px v l po m span = (v', po + m + 1) /\ halves v' (fun f => columns_total K (po - m) (16 * k + f) mod M).
Proof.
  intros Hpo Hk Hl Hv Hpx. destruct half_kernel. unfold update_fine. cbv zeta.
  rewrite (size_add_small po), (size_add_small (po + m)), Z.mod_small, Z.max_r, (size_mul_small 2), (size_add_small (2 * m)), size_sub_small, !to_ptrdiff_small by lia.
  eexists. split; [reflexivity|]. replace (po - m) with (po + m + 1 - K) by lia.
  apply (for_range_ind (fun l v => halves v (fun f => columns_total K (l - K) (16 * k + f) mod M))); [lia|done|].
  intros i v' Hi Hv'. rewrite Z.min_l, Z.max_l by lia.
  pose proof (halves_sub _ _ _ _ (add_fine_lanes v' _ (px + 16 * i) i k Hv' ltac:(lia) Hk ltac:(lia))
    (fine_lanes (px + 16 * (i - (2 * m + 1))) (i - K) k ltac:(lia) Hk ltac:(lia))) as Hh.
  eapply halves_ext; [|exact Hh]. intros f _. cbn beta.
  rewrite <- Zplus_mod, <- Zminus_mod.
  pose proof (columns_total_next K (i - K) (16 * k + f) ltac:(lia)) as E1.
  pose proof (columns_total_drop K (i - K) (16 * k + f) ltac:(lia)) as E2.
  replace (i - K + K) with i in E1 by lia. replace (i + 1 - K) with (i - K + 1) by lia. f_equal. lia.
Qed.

(** ** An iteration *)

(** What holds before column [po] is the centre of the window. *)
Record ready (po : Z) (s : MedianBlurLargeHist) (v_coarse : list Z * list Z) : Prop := {
  ready_patched : patched s = a;
  ready_coarse : halves v_coarse (fun b => columns_blocks (2 * m) (po - m) b mod M);
  ready_segments : forall k, 0 <= k < 16 -> luc s k = 0 \/
    (K <= luc s k <= po + m /\ forall f, 0 <= f < 16 -> H_fine s (16 * k + f) = columns_total K (luc s k - K) (16 * k + f) mod M)
}.

Context (window : Z -> Z -> Z).
Hypothesis bytes : forall r q, 0 <= r < K -> 0 <= q < K -> 0 <= window r q < 256.

Lemma exact_blocks po b : (forall v, occurrences K window v = columns_total K (po - m) v) -> 0 <= b < 16 ->
  columns_blocks K (po - m) b mod M = blocks (occurrences K window) b.
Proof.
  intros Hw Hb. destruct (large_target K HK). symmetry.
  rewrite <- (coarse_exact M K window (fun v => occurrences K window v mod M) (fun b => blocks (occurrences K window) b mod M)); [|lia|done|lia|by split|done].
  f_equal. apply total_ext. intros j _. apply Hw.
Qed.

(** The two branches. *)
Lemma segment_lanes po s k : m <= po < span - m -> 0 <= k < 16 ->
  (luc s k = 0 \/ (K <= luc s k <= po + m /\ forall f, 0 <= f < 16 -> H_fine s (16 * k + f) = columns_total K (luc s k - K) (16 * k + f) mod M)) ->
  exists v, (if luc s k <=? po ⊟ m
    then initialize_fine a (base + 16 ⊠ (span ⊠ (16 ⊠ c ⊞ k) ⊞ po ⊟ m)) (vdup_n 8 0, vdup_n 8 0) po m span
    else update_fine a (base + 16 ⊠ span ⊠ (16 ⊠ c ⊞ k)) (vld1q_u16 (H_fine s) (16 * k), vld1q_u16 (H_fine s) (16 * k + 8)) (luc s k) po m span) = (v, po + m + 1) /\
    halves v (fun f => columns_total K (po - m) (16 * k + f) mod M).
Proof.
  intros Hpo Hk Hseg. destruct half_kernel.
  destruct (fine_products span channels Hspan Hchannels c po (16 * k) Hc ltac:(lia) ltac:(lia)) as (_ & H1 & H2 & _ & _).
  replace (16 * k / 16) with k in * by mod_lia.
  rewrite (size_mul_small 16 c), (size_add_small (16 * c)), (size_mul_small span), (size_mul_small 16 span) by lia.
  rewrite (size_sub_small po), (size_add_small _ po), (size_sub_small (span * (16 * c + k) + po)), (size_mul_small 16), (size_mul_small (16 * span)) by lia.
  destruct (Z.leb_spec (luc s k) (po - m)).
  - apply (initialize_fine_lanes _ po k); [done|done|apply halves_zero|lia].
  - destruct Hseg as [|[Hl Hf]]; [lia|]. apply (update_fine_lanes _ po k); [done|done|done| |lia].
    eapply halves_ext; [|apply halves_load]. intros f Hff. cbn beta. by apply Hf.
Qed.

Lemma compute_one dst_at po s v_coarse dst : m <= po < span - m -> ready po s v_coarse ->
  (forall v, occurrences K window v = columns_total K (po - m) v) ->
  exists s' v' x, compute_one_median base c span m K dst_at po (s, v_coarse, dst) = Some (s', v', upd dst (dst_at (po - m)) x) /\
    total x (occurrences K window) <= K * K / 2 < total (x + 1) (occurrences K window) /\ ready (po + 1) s' v'.
Proof.
  intros Hpo [Hp Hv Hsegments] Hw. destruct half_kernel, (large_target K HK) as [HT HKK]. unfold compute_one_median. cbv zeta.
  rewrite (size_mul_small K K), (size_add_small po), (size_sub_small span), Z.min_l, coarse_px by lia.
  unfold increment_coarse. cbv zeta. cbn [fst snd]. rewrite Hp. cbn [patched H_coarse H_fine luc].
  pose proof (add_coarse_lanes _ _ (coarse_cell c (po + m) 0) (po + m) Hv ltac:(lia) eq_refl) as Hv1.
  set (v1 := add_vectors a (coarse_cell c (po + m) 0) v_coarse) in *. clearbody v1.
  assert (halves v1 (fun b => columns_blocks (2 * m + 1) (po - m) b mod M)) as Hv2.
  { eapply halves_ext; [|exact Hv1]. intros b _. cbn beta. rewrite <- Zplus_mod, columns_blocks_next by lia.
    replace (po - m + 2 * m) with (po + m) by lia. reflexivity. }
  clear Hv1. set (Hc1 := vst1q_u16 (vst1q_u16 (H_coarse s) 0 v1.1) 8 v1.2).
  destruct (find_coarse_index_crosses K window HK bytes Hc1 16 0) as (k & Hk & Hfind & Hcross); [|lia|lia|by rewrite (total_none _ (16 * 0)); lia|].
  { intros b Hb. unfold Hc1. pose proof (halves_store_inside (H_coarse s) 0 v1 _ b Hv2 Hb) as E. cbv beta in E.
    replace (2 * m + 1) with K in E by lia. rewrite (exact_blocks po b Hw Hb) in E. exact E. }
  rewrite (total_none _ (16 * 0)) in Hfind by lia. rewrite Hfind. cbn [mbind option_bind].
  destruct (segment_lanes po s k Hpo Hk (Hsegments k Hk)) as (vf & -> & Hvf). cbn [fst snd].
  set (Hf1 := vst1q_u16 (vst1q_u16 (H_fine s) (16 * k) vf.1) (16 * k + 8) vf.2).
  assert (forall f, 0 <= f < 16 -> Hf1 (16 * k + f) = columns_total K (po - m) (16 * k + f) mod M) as Hsegment.
  { intros f Hf. exact (halves_store_inside (H_fine s) (16 * k) vf _ f Hvf Hf). }
  assert (forall i, i < 16 * k \/ 16 * k + 16 <= i -> Hf1 i = H_fine s i) as Hothers.
  { intros i Hi. exact (halves_store_outside (H_fine s) (16 * k) vf _ i Hvf Hi). }
  clearbody Hf1 Hc1.
  destruct (find_median_crosses K window HK bytes Hf1 k 16 0) as (x & Hx & Hcx); [|done|done|lia|lia|rewrite Z.add_0_r; lia|].
  { intros f Hf. rewrite Hsegment, <- Hw by done. apply Z.mod_small.
    pose proof (occurrences_range K window ltac:(lia) (16 * k + f)). lia. }
  rewrite Z.add_0_r in Hx. rewrite Hx. cbn [mbind option_bind]. rewrite (size_sub_small po), to_ptrdiff_small, Z.max_l by lia.
  do 3 eexists. split; [reflexivity|]. split; [done|]. split; cbn [patched H_fine luc]; [done| |].
  - pose proof (halves_sub _ _ _ _ Hv2 (coarse_lanes (16 ⊠ (span ⊠ c ⊞ (po - m))) (po - m) ltac:(lia) (coarse_px (po - m) ltac:(lia)))) as Hh.
    eapply halves_ext; [|exact Hh]. intros b _. cbn beta. rewrite <- Zminus_mod, columns_blocks_drop by lia.
    replace (po + 1 - m) with (po - m + 1) by lia. f_equal. lia.
  - intros j Hj. unfold upd. destruct (decide (j = k)) as [->|Hne].
    + right. split; [lia|]. intros f Hf. rewrite Hsegment by done. replace (po + m + 1 - K) with (po - m) by lia. done.
    + destruct (Hsegments j Hj) as [|[Hl Hfj]]; [by left|]. right. split; [lia|]. intros f Hf.
      rewrite Hothers by lia. by apply Hfj.
Qed.
End patch.

(** The row of the patch: every median is written, the patched histograms stay. *)
Lemma compute_patch_medians base span channels K cnt c s dst (dst_at : Z -> Z * Z) (window : Z -> Z -> Z -> Z) (P : Z -> (Z * Z -> Z) -> Prop) :
  1 <= span <= 1024 -> 1 <= channels <= 4 -> 16 * span * channels <= base < 2 ^ 40 -> 3 <= K <= 255 -> Z.Odd K -> 2 * (K / 2) < span ->
  0 <= c < channels -> patches base span channels (patched s) cnt ->
  (forall i, 0 <= i < 16 -> H_coarse s i = 0 /\ luc s i = 0) ->
  (forall x r q, 0 <= x < span - 2 * (K / 2) -> 0 <= r < K -> 0 <= q < K -> 0 <= window x r q < 256) ->
  (forall x v, 0 <= x < span - 2 * (K / 2) -> occurrences K (window x) v = columns_total cnt c K x v) ->
  P 0 dst ->
  (forall x dst v, 0 <= x < span - 2 * (K / 2) -> P x dst -> total v (occurrences K (window x)) <= K * K / 2 < total (v + 1) (occurrences K (window x)) ->
    P (x + 1) (upd dst (dst_at x) v)) ->
  exists s' dst', compute_patch_median_from_histogram base c span (K / 2) K dst_at (s, dst) = Some (s', dst') /\
    patched s' = patched s /\ P (span - 2 * (K / 2)) dst'.
Proof.
  intros Hspan Hch Hbase HK Hodd Hm Hc Ha Hz Hb Hw H0 Hstep. destruct (half_kernel K HK Hodd). unfold compute_patch_median_from_histogram. cbv zeta.
  rewrite (size_sub_small span) by lia.
  assert (exists s' v' dst', for_range (K / 2) (span - K / 2) (fun po r => r ← r; compute_one_median base c span (K / 2) K dst_at po r)
    (Some (s, initialize_coarse (patched s) (16 ⊠ span ⊠ c) (vld1q_u16 (H_coarse s) 0, vld1q_u16 (H_coarse s) 8) (K / 2), dst)) = Some (s', v', dst') /\
    ready K (patched s) cnt c (span - K / 2) s' v' /\ P (span - K / 2 - K / 2) dst') as (s' & v' & dst' & -> & Hr & HP).
  { apply (for_range_ind (fun po r => exists s' v' dst', r = Some (s', v', dst') /\ ready K (patched s) cnt c po s' v' /\ P (po - K / 2) dst')); [lia| |].
    - do 3 eexists. split; [reflexivity|]. rewrite Z.sub_diag. split; [|done]. split; [done| |intros k Hk; left; by apply Hz].
      rewrite Z.sub_diag. eapply initialize_coarse_lanes; try done.
      eapply halves_ext; [|apply (halves_load _ 0)]. intros b Hbb. cbn beta. by apply Hz.
    - intros po r Hpo (s1 & v1 & d1 & -> & Hr1 & HP1). cbn [mbind option_bind].
      destruct (compute_one base span channels K (patched s) cnt c Hspan Hch Hbase HK Hodd Hm Hc Ha (window (po - K / 2)))
        with (dst_at := dst_at) (po := po) (s := s1) (v_coarse := v1) (dst := d1) as (s2 & v2 & x & -> & Hx & Hr2); [|done|done| |].
      { intros r q Hr Hq. apply Hb; lia. }
      { intros v. apply Hw. lia. }
      do 3 eexists. split; [reflexivity|]. split; [done|]. replace (po + 1 - K / 2) with (po - K / 2 + 1) by lia.
      apply Hstep; [lia|done|done]. }
  cbn [mbind option_bind]. exists s', dst'. split; [done|]. split; [apply Hr|].
  replace (span - 2 * (K / 2)) with (span - K / 2 - K / 2) by lia. done.
Qed.
