(* ===== verification/LargeHistCorrect.v ===== *)
(** * The median blur by histograms of 16-bit counters is correct

    Patch by patch and row by row: the histograms of the columns slide down with the rows
    (LargeHistPatches), and each row of medians is read off them (LargeHistMedian). *)

From S2P Require Import Prelude CTypes Utils Border Filter2D Vectors VectorMemory Histograms SmallHist LargeHist LargeHistPatches LargeHistMedian.

Local Abbreviation M := (2 ^ 16).

Section filtering.
Context (K channels width height : Z) (border_type : FixedBorderType) (src : Z * Z -> Z).
Hypothesis HK : 3 <= K <= 255.
Hypothesis Hodd : Z.Odd K.
Hypothesis Hc : 1 <= channels <= 4.
Hypothesis Hw : K - 1 <= width < 2 ^ 60.
Hypothesis Hh : K - 1 <= height < 2 ^ 60.
Hypothesis bytes : forall y e, 0 <= y < height -> 0 <= e < width * channels -> 0 <= src (y, e) < 256.

Local Abbreviation m := (K / 2).
Local Abbreviation base := (patched_fine_of channels m).
Local Abbreviation median_of := (fun a : Z * Z => window_median K channels width height border_type src a.1 a.2).
Local Abbreviation row_index := (fun j => border_index border_type height j).

Lemma margin_bounds : 2 * m = K - 1 /\ 1 <= m <= 127.
Proof. clear - HK Hodd. destruct Hodd as [h ->]. mod_lia. Qed.

Lemma patched_fine_exact : base = 16 * (512 + 2 * m) * channels.
Proof.
  destruct margin_bounds. unfold patched_fine_of, patch_length.
  rewrite (size_mul_small 2), (size_add_small 512), (size_mul_small 16), size_mul_small by nia. done.
Qed.

(** Every cell is inside the allocation. *)
Lemma cells_inside_allocation span c po v : 1 <= span <= 512 + 2 * m -> 0 <= c < channels -> 0 <= po < span -> 0 <= v < 256 ->
  0 <= coarse_cell span c po (v / 16) < base /\ base <= fine_cell base span c po v < allocated_elements channels m.
Proof.
  intros Hs Hcc Hpo Hv. destruct margin_bounds. assert (0 <= v / 16 < 16) by mod_lia.
  pose proof (coarse_cell_range span channels ltac:(lia) c po (v / 16) Hcc Hpo ltac:(done)).
  pose proof (fine_cell_range base span channels ltac:(lia) c po v Hcc Hpo Hv).
  assert (allocated_elements channels m = 272 * (512 + 2 * m) * channels) as ->.
  { unfold allocated_elements, patch_length. rewrite (size_mul_small 2), (size_add_small 512), (size_mul_small (16 + 256)), size_mul_small by nia. done. }
  rewrite patched_fine_exact in *. nia.
Qed.

(** ** A patch *)

Section patch.
Context (w x_end : Z).
Hypothesis Hx : 0 <= w < x_end /\ x_end <= width.
Local Abbreviation n := (Z.min (x_end - w) 512).
Local Abbreviation span := (n + 2 * m).
Local Abbreviation patches := (patches base span channels).
Local Abbreviation patch_pixel := (patch_pixel channels width height K border_type src w).
Local Abbreviation initialize_columns := (initialize_columns base span channels width height K border_type src w).
Local Abbreviation update_columns := (update_columns base span channels width height K border_type src w).

Lemma span_range : 1 <= span <= 1024 /\ 16 * span * channels <= base < 2 ^ 40 /\ 2 * m < span /\ 0 <= w /\ w + span - 2 * m <= width.
Proof. destruct margin_bounds. rewrite patched_fine_exact. nia. Qed.

(** The counts of the columns when the window is around row [h]. *)
Definition row_counts (h c po v : Z) : Z := total K (fun r => bit (patch_pixel c (h - m + r) po =? v)).

Lemma row_counts_slide h c po v : row_counts h c po v =
  row_counts (h - 1) c po v + (bit (patch_pixel c (h + m) po =? v) - bit (patch_pixel c (h - 1 - m) po =? v)).
Proof.
  destruct margin_bounds. unfold row_counts.
  pose proof (total_slide (fun r => bit (patch_pixel c (h - 1 - m + r) po =? v)) K ltac:(lia)) as H1. cbv beta in H1.
  replace (h - 1 - m + K) with (h + m) in H1 by lia. replace (h - 1 - m + 0) with (h - 1 - m) in H1 by lia.
  rewrite (total_ext _ (fun r => bit (patch_pixel c (h - 1 - m + (1 + r)) po =? v))); [lia|].
  intros r _. do 3 f_equal. lia.
Qed.

Lemma window_columns h c x v : 0 <= c < channels -> 0 <= x < n ->
  occurrences K (pixel_window K channels width height border_type src h ((w + x) * channels + c)) v =
  columns_total (row_counts h) c K x v.
Proof.
  intros Hcc Hxx. unfold columns_total, row_counts, occurrences. rewrite total_swap. apply total_ext. intros q Hq. apply total_ext. intros r Hr.
  unfold pixel_window, window_at, column_rows, LargeHistPatches.patch_pixel.
  replace ((w + x) * channels + c) with (c + (w + x) * channels) by lia.
  rewrite (Z.div_add c), (Z.mod_add c), (Z.div_small c), (Z.mod_small c), Z.add_0_l by lia.
  replace (w + x + q - m) with (w + (x + q) - m) by lia. reflexivity.
Qed.

Lemma patch_window_bytes h c x r q : 0 <= h < height -> 0 <= c < channels -> 0 <= x < n -> 0 <= r < K -> 0 <= q < K ->
  0 <= pixel_window K channels width height border_type src h ((w + x) * channels + c) r q < 256.
Proof. intros. apply pixel_window_bytes; try done; try lia. apply element_range; lia. Qed.

Lemma crossing_median h c x v : 0 <= h < height -> 0 <= c < channels -> 0 <= x < n ->
  total v (occurrences K (pixel_window K channels width height border_type src h ((w + x) * channels + c))) <= K * K / 2 <
    total (v + 1) (occurrences K (pixel_window K channels width height border_type src h ((w + x) * channels + c))) ->
  v = median_of (h, (w + x) * channels + c).
Proof. intros Hhh Hcc Hxx Hv. apply crossing_is_median; try done; try lia. apply element_range; lia. Qed.

(** The elements of channel [c], and of the channels below [c], in the columns [w, w + x) of row [h]. *)
Definition channel_part (h c x : Z) (a : Z * Z) : bool :=
  (a.1 =? h) && (w * channels <=? a.2) && (a.2 <? (w + x) * channels) && (a.2 mod channels =? c).
Definition channels_part (h c : Z) (a : Z * Z) : bool :=
  (a.1 =? h) && (w * channels <=? a.2) && (a.2 <? (w + n) * channels) && (a.2 mod channels <? c).

Lemma channel_part_next h c x dst dst' : 0 <= c < channels -> 0 <= x ->
  writes_value median_of (channel_part h c x) dst dst' ->
  writes_value median_of (channel_part h c (x + 1)) dst (upd dst' (h, (w + x) * channels + c) (median_of (h, (w + x) * channels + c))).
Proof.
  intros Hcc Hxx Hd [y e]. unfold upd. case_decide as E.
  - injection E as -> ->. unfold channel_part. cbn [fst snd].
    assert (((w + x) * channels + c) mod channels = c) as -> by (rewrite Z.add_comm, Z.mod_add, Z.mod_small by lia; lia).
    rewrite !Z.eqb_refl. cbn [andb]. replace ((w * channels <=? (w + x) * channels + c) && ((w + x) * channels + c <? (w + (x + 1)) * channels)) with true; [done|].
    symmetry. apply andb_true_iff. rewrite Z.leb_le, Z.ltb_lt. nia.
  - rewrite (Hd (y, e)). replace (channel_part h c (x + 1) (y, e)) with (channel_part h c x (y, e)); [done|].
    unfold channel_part. cbn [fst snd]. destruct (Z.eqb_spec y h) as [->|], (Z.eqb_spec (e mod channels) c) as [Hm|]; rewrite ?andb_false_r; try done.
    rewrite !andb_true_r. cbn [andb]. f_equal.
    destruct (Z.ltb_spec e ((w + x) * channels)), (Z.ltb_spec e ((w + (x + 1)) * channels)); try done; [nia|].
    exfalso. apply E. f_equal. pose proof (Z.div_mod e channels ltac:(lia)) as Hdm. rewrite Hm in Hdm.
    assert (e / channels = w + x); [|lia]. clear - Hdm Hcc H H0. nia.
Qed.

Lemma channel_part_none h c dst : writes_value median_of (channel_part h c 0) dst dst.
Proof. intros [y e]. unfold channel_part. simpl. rewrite Z.add_0_r. case_cmp; simpl; done || lia. Qed.

Lemma channels_part_next h c dst1 dst2 dst3 : writes_value median_of (channels_part h c) dst1 dst2 ->
  writes_value median_of (channel_part h c n) dst2 dst3 -> writes_value median_of (channels_part h (c + 1)) dst1 dst3.
Proof.
  intros H1 H2. eapply writes_ext; [|exact (writes_seq _ _ _ _ _ H1 H2)]. intros [y e]. unfold channel_part, channels_part. simpl.
  case_cmp; simpl; done || lia.
Qed.

Lemma channels_part_none h dst : writes_value median_of (channels_part h 0) dst dst.
Proof.
  intros [y e]. unfold channels_part. simpl. pose proof (Z.mod_pos_bound e channels ltac:(lia)).
  rewrite (proj2 (Z.ltb_ge (e mod channels) 0)), andb_false_r by lia. done.
Qed.

Lemma channels_part_all h dst dst' : writes_value median_of (channels_part h channels) dst dst' ->
  writes_value median_of (box h (h + 1) (w * channels) ((w + n) * channels)) dst dst'.
Proof.
  apply writes_ext. intros [y e]. unfold channels_part, box. simpl. pose proof (Z.mod_pos_bound e channels ltac:(lia)).
  rewrite (proj2 (Z.ltb_lt (e mod channels) channels)), andb_true_r by lia. case_cmp; simpl; done || lia.
Qed.

(** A row of medians of channel [c]. *)
Lemma row_medians h c s dst cnt : 0 <= h < height -> 0 <= c < channels -> patches (patched s) cnt ->
  (forall po v, cnt c po v = row_counts h c po v) -> (forall i, 0 <= i < 16 -> H_coarse s i = 0 /\ luc s i = 0) ->
  exists s' dst', compute_patch_median_from_histogram base c span m K (fun column => (h, to_ptrdiff w * channels + column * channels + c)) (s, dst) = Some (s', dst') /\
    patched s' = patched s /\ writes_value median_of (channel_part h c n) dst dst'.
Proof.
  intros Hhh Hcc Ha Hcnt Hz. pose proof span_range as (H1 & H2 & H3 & H4 & H5).
  destruct (compute_patch_medians base span channels K cnt c s dst (fun column => (h, to_ptrdiff w * channels + column * channels + c))
    (fun x => pixel_window K channels width height border_type src h ((w + x) * channels + c))
    (fun x dst' => writes_value median_of (channel_part h c x) dst dst')) as (s' & dst' & E & Hp & HP); try done.
  - intros x r q Hxx Hr Hq. apply patch_window_bytes; done || lia.
  - intros x v Hxx. rewrite window_columns by lia. unfold columns_total. apply total_ext. intros. by rewrite Hcnt.
  - apply channel_part_none.
  - intros x d v Hxx Hd Hv. apply crossing_median in Hv; [|done|done|lia].
    rewrite to_ptrdiff_small by lia. replace (w * channels + x * channels + c) with ((w + x) * channels + c) by lia.
    rewrite Hv. apply channel_part_next; [done|lia|done].
  - exists s', dst'. split; [done|]. split; [done|]. by replace (span - 2 * m) with n in HP by lia.
Qed.

(** The rows of the source that the code reads. *)
Lemma first_row_index y r : 0 <= y < height -> 0 <= r < K ->
  get_physical_index (to_ptrdiff (y ⊞ r) - to_ptrdiff m) height border_type = row_index (y - m + r).
Proof.
  intros. pose proof margin_bounds. rewrite size_add_small, !to_ptrdiff_small by lia. rewrite get_physical_index_reference by lia. f_equal. lia.
Qed.

Lemma new_row_index h : 0 <= h < height -> get_physical_index (to_ptrdiff (h ⊞ m)) height border_type = row_index (h + m).
Proof. intros. pose proof margin_bounds. rewrite size_add_small, to_ptrdiff_small by lia. by rewrite get_physical_index_reference by lia. Qed.

Lemma old_row_index h : 1 <= h < height -> get_physical_index (to_ptrdiff h - to_ptrdiff m - 1) height border_type = row_index (h - 1 - m).
Proof. intros. pose proof margin_bounds. rewrite !to_ptrdiff_small by lia. rewrite get_physical_index_reference by lia. f_equal. lia. Qed.

(** ** The patch, with the functions of either region *)

Context (initialize_row : Z -> Z -> Z -> Z -> Z -> (Z -> Z) -> Z -> Z) (update_row : Z -> Z -> Z -> Z -> Z -> Z -> (Z -> Z) -> Z -> Z).
Hypothesis initialize_law : forall c j a, 0 <= c < channels -> row_inside height K j -> initialize_row c (row_index j) span w m a = initialize_columns c j a.
Hypothesis update_law : forall c old new a, 0 <= c < channels -> row_inside height K old -> row_inside height K new ->
  update_row c (row_index old) (row_index new) span w m a = update_columns c old new a.

(** The channels below [c] are at row [h], the others hold [rest]. *)
Definition progress (h c : Z) (rest : Z -> Z -> Z -> Z) (c' po v : Z) : Z := if c' <? c then row_counts h c' po v else rest c' po v.

Lemma initialized_channel y c a : 0 <= y < height -> 0 <= c < channels -> patches a (progress y c (fun _ _ _ => 0)) ->
  patches (for_range 0 K (fun r a => initialize_row c (get_physical_index (to_ptrdiff (y ⊞ r) - to_ptrdiff m) height border_type) span w m a) a)
    (progress y (c + 1) (fun _ _ _ => 0)).
Proof.
  intros Hy Hcc Ha. pose proof span_range as (H1 & H2 & H3 & H4 & H5). destruct margin_bounds.
  pose proof (counting_loop (fun a (f : Z * Z * Z -> Z) => patches a (fun c po v => f (c, po, v)))
    (fun r a => initialize_row c (get_physical_index (to_ptrdiff (y ⊞ r) - to_ptrdiff m) height border_type) span w m a)
    (fun r x => if c =? x.1.1 then bit (patch_pixel c (y - m + r) x.1.2 =? x.2) else 0) K a
    (fun x => progress y c (fun _ _ _ => 0) x.1.1 x.1.2 x.2)) as Hl.
  eapply patches_ext; [|apply Hl; [|lia| |exact Ha]].
  - intros c' po v Hc' Hpo. cbn [fst snd]. unfold progress.
    destruct (Z.ltb_spec c' c), (Z.ltb_spec c' (c + 1)), (Z.eqb_spec c c') as [->|]; try lia.
    + rewrite total_const by lia. lia.
    + done.
    + rewrite total_const by lia. lia.
  - intros a' f g Hfg. apply patches_ext. intros. apply Hfg.
  - intros r a' f Hr Ha'. rewrite first_row_index, initialize_law by (done || lia || (unfold row_inside; lia)).
    apply (initialize_columns_counts base span channels ltac:(lia) Hc ltac:(lia) width height K border_type src w HK Hodd ltac:(lia) ltac:(lia) bytes ltac:(lia)); [done|done|].
    unfold row_inside. lia.
Qed.

Lemma updated_channel h c a : 1 <= h < height -> 0 <= c < channels -> patches a (progress h c (row_counts (h - 1))) ->
  patches (update_row c (row_index (h - 1 - m)) (row_index (h + m)) span w m a) (progress h (c + 1) (row_counts (h - 1))).
Proof.
  intros Hy Hcc Ha. pose proof span_range as (H1 & H2 & H3 & H4 & H5). destruct margin_bounds.
  rewrite update_law by (done || (unfold row_inside; lia)).
  eapply patches_ext; [|apply (update_columns_counts base span channels ltac:(lia) Hc ltac:(lia) width height K border_type src w HK Hodd ltac:(lia) ltac:(lia) bytes ltac:(lia) a _ c (h - 1 - m) (h + m) Ha Hcc);
    unfold row_inside; lia].
  intros c' po v Hc' Hpo. cbn beta. unfold progress.
  destruct (Z.ltb_spec c' c), (Z.ltb_spec c' (c + 1)), (Z.eqb_spec c c') as [->|]; try lia.
  rewrite (row_counts_slide h). lia.
Qed.

Lemma cleared_patches a : patches (clear_patched_histogram base (span ⊠ channels) a) (progress 0 0 (fun _ _ _ => 0)).
Proof.
  pose proof span_range as (H1 & H2 & H3 & H4 & H5). intros c po Hcc Hpo. unfold clear_patched_histogram, memset_at.
  rewrite (size_mul_small span), (size_mul_small 256), (size_mul_small 16) by nia.
  eapply counts_ext; [|apply counts_zero].
  - intros v Hv. unfold progress. by rewrite (proj2 (Z.ltb_ge c 0)) by lia.
  - intros v Hv. pose proof (fine_cell_range base span channels ltac:(lia) c po v Hcc Hpo Hv).
    by rewrite (proj2 (Z.leb_le base _)), (proj2 (Z.ltb_lt _ (base + 256 * (span * channels)))) by lia.
  - intros b Hb. pose proof (coarse_cell_range span channels ltac:(lia) c po b Hcc Hpo Hb).
    rewrite (proj2 (Z.leb_gt base _)) by lia. cbn [andb]. by rewrite (proj2 (Z.leb_le 0 _)), (proj2 (Z.ltb_lt _ (0 + 16 * (span * channels)))) by lia.
Qed.

Lemma process_patch_medians y_begin y_end s dst : 0 <= y_begin < y_end -> y_end <= height ->
  exists s' dst', process_patch base height channels K border_type initialize_row update_row x_end y_begin y_end w (s, dst) = Some (s', dst') /\
    writes_value median_of (box y_begin y_end (w * channels) ((w + n) * channels)) dst dst'.
Proof.
  intros Hy Hye. pose proof span_range as (H1 & H2 & H3 & H4 & H5). destruct margin_bounds.
  unfold process_patch. cbv zeta. unfold patch_length. rewrite (size_sub_small x_end), (size_mul_small m 2), (size_add_small n) by lia.
  replace (m * 2) with (2 * m) by lia. cbn [fst snd].
  assert (exists s1 d1, for_range 0 channels (fun c r => r ← r;
      compute_patch_median_from_histogram base c span m K (fun column => (y_begin, to_ptrdiff w * channels + column * channels + c))
        (set_patched (for_range 0 K (fun r0 a => initialize_row c (get_physical_index (to_ptrdiff (y_begin ⊞ r0) - to_ptrdiff m) height border_type) span w m a)
          (patched (clear_lookup_table r.1))) (clear_lookup_table r.1), r.2))
      (Some (set_patched (clear_patched_histogram base (span ⊠ channels) (patched s)) s, dst)) = Some (s1, d1) /\
    patches (patched s1) (progress y_begin channels (fun _ _ _ => 0)) /\
    writes_value median_of (channels_part y_begin channels) dst d1) as (s1 & d1 & E1 & Hp1 & Hd1).
  { apply (for_range_ind (fun c r => exists s1 d1, r = Some (s1, d1) /\ patches (patched s1) (progress y_begin c (fun _ _ _ => 0)) /\
      writes_value median_of (channels_part y_begin c) dst d1)); [lia| |].
    - do 2 eexists. split; [reflexivity|]. split; [|apply channels_part_none].
      eapply patches_ext; [|apply cleared_patches]. intros c po v Hcc Hpo. unfold progress. destruct (Z.ltb_spec c 0); [lia|done].
    - intros c r Hcc (s1 & d1 & -> & Hp1 & Hd1). cbn [mbind option_bind fst snd].
      destruct (row_medians y_begin c (set_patched (for_range 0 K (fun r0 a => initialize_row c (get_physical_index (to_ptrdiff (y_begin ⊞ r0) - to_ptrdiff m) height border_type) span w m a)
          (patched (clear_lookup_table s1))) (clear_lookup_table s1)) d1 (progress y_begin (c + 1) (fun _ _ _ => 0))) as (s2 & d2 & E2 & Hp2 & Hd2); [lia|done| | |done|].
      + apply initialized_channel; [lia|done|exact Hp1].
      + intros po v. unfold progress. by rewrite (proj2 (Z.ltb_lt c (c + 1))) by lia.
      + do 2 eexists. split; [exact E2|]. split; [rewrite Hp2; by apply initialized_channel; [lia| |exact Hp1]|]. by apply (channels_part_next _ _ _ d1). }
  rewrite E1. clear E1.
  match goal with |- exists s' dst', ?loop = _ /\ _ => assert (exists s' dst', loop = Some (s', dst') /\
    patches (patched s') (row_counts (y_end - 1)) /\ writes_value median_of (box y_begin y_end (w * channels) ((w + n) * channels)) dst dst') as Hl;
    [|destruct Hl as (s' & d & ? & _ & ?); by exists s', d] end.
  apply (for_range_ind (fun h r => exists s' dst', r = Some (s', dst') /\ patches (patched s') (row_counts (h - 1)) /\
    writes_value median_of (box y_begin h (w * channels) ((w + n) * channels)) dst dst')); [lia| |].
  - do 2 eexists. split; [reflexivity|]. split; [|by apply channels_part_all].
    eapply patches_ext; [|exact Hp1]. intros c po v Hcc Hpo. unfold progress. rewrite (proj2 (Z.ltb_lt c channels)) by lia. f_equal. lia.
  - intros h r Hhr (s2 & d2 & -> & Hp2 & Hd2). rewrite new_row_index, old_row_index by lia.
    assert (exists s3 d3, for_range 0 channels (fun c r => r ← r;
        compute_patch_median_from_histogram base c span m K (fun column => (h, to_ptrdiff w * channels + column * channels + c))
          (set_patched (update_row c (row_index (h - 1 - m)) (row_index (h + m)) span w m (patched (clear_lookup_table r.1))) (clear_lookup_table r.1), r.2))
        (Some (s2, d2)) = Some (s3, d3) /\
      patches (patched s3) (progress h channels (row_counts (h - 1))) /\ writes_value median_of (channels_part h channels) d2 d3) as (s3 & d3 & E3 & Hp3 & Hd3).
    { apply (for_range_ind (fun c r => exists s3 d3, r = Some (s3, d3) /\ patches (patched s3) (progress h c (row_counts (h - 1))) /\
        writes_value median_of (channels_part h c) d2 d3)); [lia| |].
      - do 2 eexists. split; [reflexivity|]. split; [|apply channels_part_none].
        eapply patches_ext; [|exact Hp2]. intros c po v Hcc Hpo. unfold progress. destruct (Z.ltb_spec c 0); [lia|done].
      - intros c r Hcc (s3 & d3 & -> & Hp3 & Hd3). cbn [mbind option_bind fst snd].
        destruct (row_medians h c (set_patched (update_row c (row_index (h - 1 - m)) (row_index (h + m)) span w m (patched (clear_lookup_table s3))) (clear_lookup_table s3)) d3
          (progress h (c + 1) (row_counts (h - 1)))) as (s4 & d4 & E4 & Hp4 & Hd4); [lia|done| | |done|].
        + apply updated_channel; [lia|done|exact Hp3].
        + intros po v. unfold progress. by rewrite (proj2 (Z.ltb_lt c (c + 1))) by lia.
        + do 2 eexists. split; [exact E4|]. split; [rewrite Hp4; by apply updated_channel; [lia| |exact Hp3]|]. by apply (channels_part_next _ _ _ d3). }
    do 2 eexists. split; [exact E3|]. split.
    + eapply patches_ext; [|exact Hp3]. intros c po v Hcc Hpo. unfold progress. rewrite (proj2 (Z.ltb_lt c channels)) by lia. f_equal. lia.
    + apply (box_rows y_begin h (h + 1) _ _ _ d2); [lia|done|by apply channels_part_all].
Qed.
End patch.

(** ** Regions *)

Lemma patches_medians initialize_row update_row x_begin x_end y_begin y_end s dst :
  0 <= x_begin <= x_end -> x_end <= width -> 0 <= y_begin < y_end -> y_end <= height ->
  (forall w c j a, x_begin <= w < x_end -> 0 <= c < channels -> row_inside height K j ->
    initialize_row c (row_index j) (Z.min (x_end - w) 512 + 2 * m) w m a =
    initialize_columns base (Z.min (x_end - w) 512 + 2 * m) channels width height K border_type src w c j a) ->
  (forall w c old new a, x_begin <= w < x_end -> 0 <= c < channels -> row_inside height K old -> row_inside height K new ->
    update_row c (row_index old) (row_index new) (Z.min (x_end - w) 512 + 2 * m) w m a =
    update_columns base (Z.min (x_end - w) 512 + 2 * m) channels width height K border_type src w c old new a) ->
  exists s' dst', process_patches base height channels K border_type initialize_row update_row x_begin y_begin x_end y_end (Some (s, dst)) = Some (s', dst') /\
    writes_value median_of (box y_begin y_end (x_begin * channels) (x_end * channels)) dst dst'.
Proof.
  intros Hx Hxe Hy Hye Hinit Hupdate. unfold process_patches, for_step, patch_length.
  set (k := step_count x_begin x_end 512).
  assert (0 <= k /\ x_end <= x_begin + k * 512 /\ (0 < k -> x_begin + (k - 1) * 512 < x_end)) as (Hk & Hk1 & Hk2).
  { unfold k, step_count. assert (0 <= (x_end - x_begin + 512 - 1) / 512) by (apply Z.div_pos; lia). mod_lia. }
  clearbody k.
  assert (exists s' dst', for_range 0 k (fun j r => r ← r;
      process_patch base height channels K border_type initialize_row update_row x_end y_begin y_end (x_begin + j * 512) r) (Some (s, dst)) = Some (s', dst') /\
    writes_value median_of (box y_begin y_end (x_begin * channels) (Z.min (x_begin + k * 512) x_end * channels)) dst dst') as (s' & d' & E & Hd).
  { apply (for_range_ind (fun j r => exists s' dst', r = Some (s', dst') /\
      writes_value median_of (box y_begin y_end (x_begin * channels) (Z.min (x_begin + j * 512) x_end * channels)) dst dst')); [lia| |].
    - do 2 eexists. split; [reflexivity|]. replace (Z.min (x_begin + 0 * 512) x_end) with x_begin by lia. apply box_none.
    - intros j r Hj (s1 & d1 & -> & Hd1). cbn [mbind option_bind].
      destruct (process_patch_medians (x_begin + j * 512) x_end ltac:(lia) initialize_row update_row) with (y_begin := y_begin) (y_end := y_end) (s := s1) (dst := d1)
        as (s2 & d2 & -> & Hd2); [intros; apply Hinit; done || lia|intros; apply Hupdate; done || lia|done|done|].
      do 2 eexists. split; [reflexivity|].
      rewrite Z.min_l in Hd1 by lia.
      replace (x_begin + j * 512 + Z.min (x_end - (x_begin + j * 512)) 512) with (Z.min (x_begin + (j + 1) * 512) x_end) in Hd2 by lia.
      apply (box_columns _ _ _ ((x_begin + j * 512) * channels) _ _ d1); [nia|done|done]. }
  exists s', d'. split; [exact E|]. by rewrite Z.min_r in Hd by lia.
Qed.

Lemma large_region_with_borders x_begin x_end y_begin y_end s dst : 0 <= x_begin <= x_end -> x_end <= width -> 0 <= y_begin < y_end -> y_end <= height ->
  exists s' dst', process_pixels_with_horizontal_borders base width height channels K border_type src x_begin y_begin x_end y_end (Some (s, dst)) = Some (s', dst') /\
    writes_value median_of (box y_begin y_end (x_begin * channels) (x_end * channels)) dst dst'.
Proof.
  intros Hx Hxe Hy Hye. apply patches_medians; try done.
  - intros w c j a Hw' Hcc Hj. apply initialize_with_borders; done || lia.
  - intros w c old new a Hw' Hcc Hold Hnew. apply update_with_borders; done || lia.
Qed.

Lemma large_region_without_borders single x_begin x_end y_begin y_end s dst : (single = true -> channels = 1) ->
  m <= x_begin <= x_end -> x_end <= width - m -> 0 <= y_begin < y_end -> y_end <= height ->
  exists s' dst', process_pixels_without_horizontal_borders single base width height channels K border_type src x_begin y_begin x_end y_end (Some (s, dst)) = Some (s', dst') /\
    writes_value median_of (box y_begin y_end (x_begin * channels) (x_end * channels)) dst dst'.
Proof.
  intros Hs Hx Hxe Hy Hye. destruct margin_bounds. apply patches_medians; try done; try lia.
  - intros w c j a Hw' Hcc Hj. apply initialize_without_borders; done || lia.
  - intros w c old new a Hw' Hcc Hold Hnew. apply update_without_borders; try done; try lia.
    rewrite patched_fine_exact. nia.
Qed.

(** The stripe writes the median of every window of its rows and nothing else, whatever the
    allocation held. *)
Lemma large_hist_stripe_medians fresh y_begin y_end dst : 0 <= y_begin < y_end -> y_end <= height ->
  exists dst', median_blur_large_hist_stripe_u8 fresh src dst width height y_begin y_end channels K K border_type = Some (KLEIDICV_OK, dst') /\
    writes_value median_of (box y_begin y_end 0 (width * channels)) dst dst'.
Proof.
  intros Hy Hye. destruct margin_bounds as [Hm1 Hm2]. unfold median_blur_large_hist_stripe_u8, median_process. cbv zeta.
  rewrite (size_sub_small K) by lia. replace ((K - 1) / 2) with m by mod_lia.
  rewrite (size_mul_small 2), (size_sub_small width (2 * m)), (size_add_small m), (size_sub_small width m), (size_sub_small (width - m)), (size_add_small (m + (width - 2 * m))) by lia.
  replace (m + (width - 2 * m)) with (width - m) by lia. replace (width - m + (width - m - (width - 2 * m))) with width by lia.
  destruct (large_region_with_borders 0 m y_begin y_end (new_large_hist fresh) dst) as (s1 & d1 & -> & Hd1); [lia..|].
  destruct (large_region_without_borders (channels =? 1) m (width - m) y_begin y_end s1 d1) as (s2 & d2 & -> & Hd2); [lia..|].
  destruct (large_region_with_borders (width - m) width y_begin y_end s2 d2) as (s3 & d3 & -> & Hd3); [lia..|].
  cbn [mbind option_bind]. exists d3. split; [done|].
  apply (box_columns _ _ _ ((width - m) * channels) _ _ d2); [nia| |done].
  apply (box_columns _ _ _ (m * channels) _ _ d1); [nia| |done]. by rewrite Z.mul_0_l in Hd1.
Qed.
End filtering.
