(* ===== verification/MedianBlurU8.v ===== *)
(** * Median blur of bytes

    [median_blur_u8] of median_blur_api.cpp selects the sorting networks, the histograms of
    8-bit counters or those of 16-bit counters by the size of the kernel; each stripe writes
    the median of every window, so the call and its threaded wrapper do. *)

From S2P Require Import Prelude CTypes Utils Border FixedBorders Filter2D MedianBlur Histograms SmallHist LargeHist LargeHistCorrect ParallelBatches ThreadOps.
From S2P Require Import ThreadFilters.

(** The stripe function that [median_blur_u8] calls, without SME; [fresh] is what [malloc] returns to
    the filter with 16-bit counters. *)
Definition median_blur_stripe_u8 (fresh : Z -> Z) (src dst : Z * Z -> Z) (width height y_begin y_end channels kernel_width kernel_height : Z)
    (fixed_border_type : FixedBorderType) : option (kleidicv_error_t * (Z * Z -> Z)) :=
  if kernel_width <=? 7 then
    median_blur_sorting_network_stripe U8 src dst width height y_begin y_end channels kernel_width fixed_border_type
  else if (7 <? kernel_width) && (kernel_width <=? 15) then
    median_blur_small_hist_stripe_u8 src dst width height y_begin y_end channels kernel_width kernel_height fixed_border_type
  else median_blur_large_hist_stripe_u8 fresh src dst width height y_begin y_end channels kernel_width kernel_height fixed_border_type.

Definition median_blur_u8 (fresh : Z -> Z) (src src_stride dst dst_stride width height channels kernel_width kernel_height : Z)
    (border_type : kleidicv_border_type_t) (src_image dst_image : Z * Z -> Z) : option (kleidicv_error_t * (Z * Z -> Z)) :=
  let '(error, fixed_border_type) :=
    median_blur_validate U8 src src_stride dst dst_stride width height channels kernel_width kernel_height border_type in
  match error with
  | KLEIDICV_OK => median_blur_stripe_u8 fresh src_image dst_image width height 0 height channels kernel_width kernel_height fixed_border_type
  | _ => Some (error, dst_image)
  end.

(** [kleidicv_thread_median_blur_u8]; a stripe that starts at row [y_begin] gets the memory [fresh y_begin]. *)
Definition kleidicv_thread_median_blur_u8 (parallel : range_callback (option image) -> Z -> option image -> kleidicv_error_t * option image)
    (dispatch : option (Z -> Z -> bool)) (fresh : Z -> Z -> Z) (sme_stripe : FixedBorderType -> stripe_function)
    (src src_stride dst dst_stride width height channels kernel_width kernel_height : Z)
    (border_type : kleidicv_border_type_t) (src_image : image) : image -> kleidicv_error_t * option image :=
  kleidicv_thread_median_blur parallel (if kernel_width <=? 7 then dispatch else None) U8
    (fun fixed_border_type y_begin y_end dst => median_blur_small_hist_stripe_u8 src_image dst width height y_begin y_end channels
      kernel_width kernel_height fixed_border_type)
    (fun fixed_border_type y_begin y_end dst => median_blur_large_hist_stripe_u8 (fresh y_begin) src_image dst width height y_begin y_end channels
      kernel_width kernel_height fixed_border_type)
    sme_stripe src src_stride dst dst_stride width height channels kernel_width kernel_height border_type src_image.

(** ** Arguments *)

(** The arguments that the call accepts. *)
Definition median_blur_u8_accepts (src dst width height channels kernel_width kernel_height : Z)
    (border_type : kleidicv_border_type_t) (bt : FixedBorderType) : Prop :=
  src <> 0 /\ dst <> 0 /\ src <> dst /\ width * height <= KLEIDICV_MAX_IMAGE_PIXELS /\ channels <= 4 /\
  kernel_width = kernel_height /\ 3 <= kernel_width <= 255 /\ Z.Odd kernel_width /\
  kernel_width - 1 <= width /\ kernel_width - 1 <= height /\ get_fixed_border_type border_type = Some bt.

Lemma u8_kernel_sizes kw kh : is_kernel_size_supported U8 kw kh = true <-> kw = kh /\ 3 <= kw <= 255 /\ Z.Odd kw.
Proof.
  unfold is_kernel_size_supported. rewrite !andb_true_iff, negb_true_iff, Z.eqb_eq, !Z.leb_le, <- Z.odd_spec.
  assert ((kw mod 2 =? 0) = false <-> Z.odd kw = true) as ->; [|intuition lia].
  rewrite Zmod_odd. by destruct (Z.odd kw).
Qed.

Lemma median_blur_u8_validate src ss dst ds width height channels kw kh border_type bt :
  0 <= width -> 0 <= height -> 0 <= kw < 2 ^ 64 -> 0 <= kh < 2 ^ 64 ->
  median_blur_validate U8 src ss dst ds width height channels kw kh border_type = (KLEIDICV_OK, bt) <->
  median_blur_u8_accepts src dst width height channels kw kh border_type bt.
Proof.
  intros Hw Hh Hkw Hkh. unfold median_blur_validate, median_blur_u8_accepts.
  assert (median_blur_checks U8 src ss dst ds width height = KLEIDICV_OK <->
    src <> 0 /\ dst <> 0 /\ width * height <= KLEIDICV_MAX_IMAGE_PIXELS) as Hchk.
  { unfold median_blur_checks. rewrite !guard_error_ok, !check_pointer_and_stride_ok, check_image_size_iff by done.
    cbn [sizeof]. intuition lia. }
  destruct (decide (median_blur_checks U8 src ss dst ds width height = KLEIDICV_OK)) as [E|E].
  2:{ split; intros Hr; [by destruct (median_blur_checks _ _ _ _ _ _ _)|]. exfalso. apply E, Hchk. tauto. }
  rewrite E. apply Hchk in E as (H1 & H2 & H3). clear Hchk.
  destruct (get_fixed_border_type border_type) as [b|]; [|split; [done|intuition congruence]].
  destruct (negb _ && _ && _ && _ && _) eqn:Hc.
  - rewrite !andb_true_iff, negb_true_iff, Z.eqb_neq, !Z.leb_le, u8_kernel_sizes in Hc by done.
    destruct Hc as [[[[Hd Hch] Hkh1] Hkw1] [-> Hk]]. rewrite size_sub_small in Hkh1, Hkw1 by lia.
    split; [intros [= ->]; tauto|intros; repeat f_equal; intuition congruence].
  - split; [discriminate|]. intros (_ & _ & Hd & _ & Hch & -> & Hk & Hodd & Hw1 & Hh1 & _).
    rewrite <- not_true_iff_false in Hc. exfalso. apply Hc.
    rewrite !andb_true_iff, negb_true_iff, Z.eqb_neq, !Z.leb_le, u8_kernel_sizes by done.
    rewrite size_sub_small by lia. tauto.
Qed.

(** ** Stripes *)

Section stripes.
Context (src_image : Z * Z -> Z) (width height channels kernel : Z) (bt : FixedBorderType).
Hypothesis Hkernel : 3 <= kernel <= 255 /\ Z.Odd kernel.
Hypothesis Hchannels : 1 <= channels <= 4.
Hypothesis Hwidth : kernel - 1 <= width.
Hypothesis Hheight : kernel - 1 <= height.
Hypothesis Hsize : width * height <= KLEIDICV_MAX_IMAGE_PIXELS.
Hypothesis bytes : forall y e, 0 <= y < height -> 0 <= e < width * channels -> 0 <= src_image (y, e) < 256.

Local Abbreviation medians := (fun a : Z * Z => window_median kernel channels width height bt src_image a.1 a.2).

Lemma extents_small : 2 <= width < 2 ^ 48 /\ 2 <= height < 2 ^ 48.
Proof.
  pose proof Hsize as H. unfold KLEIDICV_MAX_IMAGE_PIXELS in H. change (Z.shiftl 1 48 - 1) with (2 ^ 48 - 1) in H.
  clear - H Hkernel Hwidth Hheight. nia.
Qed.

Lemma network_contract : kernel <= 7 ->
  stripe_contract (fun b e d => median_blur_sorting_network_stripe U8 src_image d width height b e channels kernel bt) true medians height (width * channels).
Proof.
  intros Hk b e d Hb He. destruct extents_small. destruct Hkernel as [Hk3 [h Hh]].
  assert (exists k, size_of k = kernel /\ (k = K3 \/ k = K5 \/ k = K7)) as (k & Hs & Hkk).
  { assert (h = 1 \/ h = 2 \/ h = 3) as Hc by lia. destruct Hc as [E|[E|E]]; rewrite E in Hh; [exists K3|exists K5|exists K7]; simpl; auto. }
  rewrite <- Hs. assert (width * channels < 2 ^ 62) by nia. destruct (stripe_medians U8 k src_image d width height b e channels bt) as (d' & Heq & Hd); try done; try lia.
  exists d'. split; [exact Heq|]. exact Hd.
Qed.

Lemma small_contract : kernel <= 15 ->
  stripe_contract (fun b e d => median_blur_small_hist_stripe_u8 src_image d width height b e channels kernel kernel bt) true medians height (width * channels).
Proof.
  intros Hk b e d Hb He. destruct extents_small.
  assert (width * channels < 2 ^ 62) by nia.
  destruct (small_hist_stripe_medians kernel channels width height bt src_image) with (y_begin := b) (y_end := e) (dst := d) as (d' & Heq & Hd); try done; try lia; [tauto|].
  exists d'. split; [exact Heq|]. intros y x. apply (Hd (y, x)).
Qed.

Lemma large_contract (fresh : Z -> Z -> Z) :
  stripe_contract (fun b e d => median_blur_large_hist_stripe_u8 (fresh b) src_image d width height b e channels kernel kernel bt) true medians height (width * channels).
Proof.
  intros b e d Hb He. destruct extents_small.
  destruct (large_hist_stripe_medians kernel channels width height bt src_image) with (fresh := fresh b) (y_begin := b) (y_end := e) (dst := d) as (d' & Heq & Hd); try done; try lia; try tauto.
  exists d'. split; [exact Heq|]. intros y x. apply (Hd (y, x)).
Qed.

Lemma stripe_u8_contract fresh :
  stripe_contract (fun b e d => median_blur_stripe_u8 fresh src_image d width height b e channels kernel kernel bt) true medians height (width * channels).
Proof.
  intros b e d Hb He. unfold median_blur_stripe_u8. destruct (Z.leb_spec kernel 7); [by apply network_contract|].
  rewrite (proj2 (Z.ltb_lt 7 kernel)) by lia. cbn [andb].
  destruct (Z.leb_spec kernel 15); [by apply small_contract|by apply (large_contract (fun _ => fresh))].
Qed.
End stripes.

(** ** The call and its threaded wrapper *)

(** C3: [median_blur_u8] accepts exactly the arguments that pass its checks (non-null distinct
    pointers, an image within the size limit that the kernel fits, at most four channels, a
    square kernel of odd size from 3 to 255, a supported border type); it then returns
    [KLEIDICV_OK] with every pixel of the output the median of its window under the border
    type, whichever of the three algorithms the size selects and whatever the memory it
    allocates held, and otherwise an error with the output untouched. *)
Theorem median_blur_u8_correct fresh src ss dst ds width height channels kw kh border_type (src_image dst_image : Z * Z -> Z) :
  0 <= width < 2 ^ 64 -> 0 <= height < 2 ^ 64 -> 1 <= channels -> 0 <= kw < 2 ^ 64 -> 0 <= kh < 2 ^ 64 ->
  (forall y e, 0 <= y < height -> 0 <= e < width * channels -> 0 <= src_image (y, e) < 256) ->
  exists err dst', median_blur_u8 fresh src ss dst ds width height channels kw kh border_type src_image dst_image = Some (err, dst') /\
  ((err = KLEIDICV_OK /\ exists bt, median_blur_u8_accepts src dst width height channels kw kh border_type bt /\
      forall y e, dst' (y, e) =
        if (0 <=? y) && (y <? height) && (0 <=? e) && (e <? width * channels)
        then window_median kw channels width height bt src_image y e else dst_image (y, e))
   \/ (err <> KLEIDICV_OK /\ dst' = dst_image /\
      forall bt, ~ median_blur_u8_accepts src dst width height channels kw kh border_type bt)).
Proof.
  intros Hw Hh Hc Hkw Hkh Hb. unfold median_blur_u8.
  destruct (median_blur_validate _ _ _ _ _ _ _ _ _ _ _) as [err bt] eqn:Hv.
  destruct (decide (err = KLEIDICV_OK)) as [->|Herr].
  - apply median_blur_u8_validate in Hv as Ha; [|lia..].
    pose proof Ha as (_ & _ & _ & Hsz & Hch & <- & Hk & Hodd & Hw1 & Hh1 & _).
    destruct (stripe_u8_contract src_image width height channels kw bt) with (fresh := fresh) (y_begin := 0) (y_end := height) (dst := dst_image)
      as (d & Heq & Hd); try done; try lia.
    exists KLEIDICV_OK, d. split; [exact Heq|]. left. split; [done|]. exists bt. split; [done|]. exact Hd.
  - exists err, dst_image. split; [by destruct err|]. right. split; [done|]. split; [done|].
    intros b Ha. apply (median_blur_u8_validate src ss dst ds) in Ha; [congruence|lia..].
Qed.

Lemma median_blur_u8_correct_witness :
  exists err dst', median_blur_u8 (fun i => i * i mod 7) 4096 40 8192 40 20 17 2 17 17 KLEIDICV_BORDER_TYPE_WRAP
      (fun a => (a.1 * 31 + a.2 * 7) mod 256) (fun _ => 0) = Some (err, dst') /\
  ((err = KLEIDICV_OK /\ exists bt, median_blur_u8_accepts 4096 8192 20 17 2 17 17 KLEIDICV_BORDER_TYPE_WRAP bt /\
      forall y e, dst' (y, e) =
        if (0 <=? y) && (y <? 17) && (0 <=? e) && (e <? 20 * 2)
        then window_median 17 2 20 17 bt (fun a => (a.1 * 31 + a.2 * 7) mod 256) y e else 0)
   \/ (err <> KLEIDICV_OK /\ dst' = (fun _ => 0) /\
      forall bt, ~ median_blur_u8_accepts 4096 8192 20 17 2 17 17 KLEIDICV_BORDER_TYPE_WRAP bt)).
Proof. apply median_blur_u8_correct; try lia. intros y e _ _. apply Z.mod_pos_bound. lia. Defined.

(** C16: the threaded median blur of bytes returns what [median_blur_u8] returns and leaves the
    same destination, for every scheduler that keeps the documented contract with non-empty
    ranges; kernels up to 7 may be shared with an SME unit, the histograms of the larger ones
    stay on the CPU, and every stripe starts with histograms of its own, in memory of any contents. *)
Theorem threaded_median_blur_u8_correct parallel dispatch (fresh : Z -> Z -> Z) fresh_single sme src ss dst ds width height channels kw kh border_type
    (src_image dst_image : image) :
  lawful no_empty_range parallel -> 0 <= width < 2 ^ 64 -> 0 <= height < 2 ^ 64 -> 1 <= channels -> 0 <= kw < 2 ^ 64 -> 0 <= kh < 2 ^ 64 ->
  (forall y e, 0 <= y < height -> 0 <= e < width * channels -> 0 <= src_image (y, e) < 256) ->
  (dispatch <> None -> kw <= 7 -> forall bt, same_stripes (fun b e d => median_blur_sorting_network_stripe U8 src_image d width height b e
    channels kw bt) (sme bt) height) ->
  same_outcome (median_blur_u8 fresh_single src ss dst ds width height channels kw kh border_type src_image dst_image)
    (kleidicv_thread_median_blur_u8 parallel dispatch fresh sme src ss dst ds width height channels kw kh border_type src_image dst_image).
Proof.
  intros Hlaw Hw Hh Hc Hkw Hkh Hb Hsme.
  pose proof (fun bt => median_blur_u8_validate src ss dst ds width height channels kw kh border_type bt ltac:(lia) ltac:(lia) Hkw Hkh) as Hval.
  unfold median_blur_u8, kleidicv_thread_median_blur_u8, kleidicv_thread_median_blur. cbv zeta.
  destruct (median_blur_validate _ _ _ _ _ _ _ _ _ _ _) as [err bt].
  destruct (decide (err = KLEIDICV_OK)) as [->|Herr].
  - destruct (proj1 (Hval bt) eq_refl) as (_ & _ & _ & Hsz & Hch & <- & Hk & Hodd & Hw1 & Hh1 & _).
    destruct (extents_small width height kw (conj Hk Hodd) Hw1 Hh1 Hsz).
    assert (stripe_contract (fun b e d => median_blur_stripe_u8 fresh_single src_image d width height b e channels kw kw bt) true
      (fun a => window_median kw channels width height bt src_image a.1 a.2) height (width * channels)) as Hstripe by by apply stripe_u8_contract.
    destruct (Hstripe 0 height dst_image ltac:(lia) ltac:(lia)) as (d1 & Heq1 & Hd1).
    assert (forall (stripe sme : FixedBorderType -> stripe_function) dispatch, stripe_contract (stripe bt) true (fun a => window_median kw channels width height bt src_image a.1 a.2) height (width * channels) ->
      (dispatch <> None -> same_stripes (stripe bt) (sme bt) height) ->
      same_outcome (median_blur_stripe_u8 fresh_single src_image dst_image width height 0 height channels kw kw bt)
        (threaded_filter parallel dispatch (KLEIDICV_OK, bt) stripe sme height dst_image)) as Hrun.
    { intros stripe sme' dispatch' Hcontract Hsame.
      destruct (Hcontract 0 height dst_image ltac:(lia) ltac:(lia)) as (d2 & Heq2 & Hd2).
      destruct (threaded_filter_equals_single parallel dispatch' (KLEIDICV_OK, bt) stripe sme' height dst_image (stripe bt 0 height dst_image) Hlaw eq_refl)
        as (e1 & t1 & e2 & t2 & H1 & H2 & H3 & H4).
      { intros v [= <-]. split; [lia|]. split; [by do 3 eexists|done]. }
      rewrite Heq2 in H1. injection H1 as <- <-. exists KLEIDICV_OK, d1, e2, t2. split; [done|]. split; [done|]. split; [done|].
      intros [y e]. by rewrite H4, Hd2, Hd1. }
    destruct (Z.leb_spec kw 7).
    + apply Hrun; [by apply network_contract|]. intros Hd. by apply Hsme.
    + destruct (Z.leb_spec kw 15); apply Hrun; try done; [by apply small_contract|by apply large_contract].
  - unfold threaded_filter. exists err, dst_image, err, dst_image.
    destruct err; try done; repeat case_match; (split; [done|split; [done|split; [by left|done]]]).
Qed.

Lemma threaded_median_blur_u8_correct_witness :
  same_outcome (median_blur_u8 (fun i => i) 4096 40 8192 40 20 17 1 9 9 KLEIDICV_BORDER_TYPE_REFLECT (fun a => (a.1 * a.2) mod 256) (fun _ => 0))
    (kleidicv_thread_median_blur_u8 reverse_serial None (fun y i => y + i) (fun _ _ _ _ => None) 4096 40 8192 40 20 17 1 9 9
      KLEIDICV_BORDER_TYPE_REFLECT (fun a => (a.1 * a.2) mod 256) (fun _ => 0)).
Proof.
  apply threaded_median_blur_u8_correct; try lia; [apply reverse_serial_lawful|].
  intros y e _ _. apply Z.mod_pos_bound. lia.
Defined.
